(* ===== verification/_CoqProject ===== *)
-Q . S2P
Prelude.v
Uint256.v
Arith256.v
Params.v
Subsidy.v
Chain.v
Pow.v
Serialize.v
Digest.v
Hashes.v
Script.v
Transaction.v
Pubkey.v
Interp.v
Sighash.v
Standard.v
Merkle.v
Compressor.v
Coins.v
CoinsView.v
Validation.v
Connect.v
Signer.v
Sporks.v
Masternodes.v
Payments.v
Budget.v
PartialMerkle.v
Bloom.v
Mempool.v
Policy.v
BestChain.v
Received.v
Orphans.v
Download.v
Messages.v
Base58.v
ActivateChain.v
Kernel.v
BlockFiles.v
BlockChecks.v
Accept.v
