(* ===== verification/Prelude.v ===== *)
(** * A verification of the p2p node: blocks, scripts, coins, the memory pool and the chain

    The program is a full node of a cryptocurrency with proof of work and proof of stake,
    a descendant of Bitcoin Core 0.10, Dash and PIVX.  This development models the part
    that decides what is valid: from the arithmetic of the difficulty and the hash
    functions, through transactions, scripts and the set of unspent outputs, to the
    acceptance of a block and the choice of the active chain.  All definitions are
    functions that run: they follow the code under [src/src] statement by statement.

    ** How code is written here

    - An integer of the code is a [Z]; where a C type wraps, the wrap ([u8] .. [u64],
      [s32], [s64] below) is written at the operation.  Bytes are [Z] below 256, and the
      predicates [word] and [words] state ranges.  Counts that cannot wrap are [nat].
    - A function that fails returns [option] or the [res] of this file; the functions that
      are passed a [CValidationState] and a view of the coins run in the monad [M] of
      Validation.v, in which a rejection (the code returns false) and a stop (a failed
      assertion, an uncaught exception, a read out of bounds) are different outcomes.
    - Objects that the code shares through pointers live in a store: block index entries
      in [mapBlockIndex] of Chain.v, an address being a number; a pointer into the memory
      pool is the key of its node.
    - A loop is structural recursion where it walks a list, and takes fuel otherwise.  The
      theorems about it give the fuel: the number of bytes left for the reading of scripts
      and streams, the bits of a number for division, the height for walks over [pprev],
      the sum of what is left to connect for [ActivateBestChain].  Where a definition
      fixes its own fuel, a theorem shows that it does not run out.
    - Code that is not in the repository, or that is in it as a third-party library, is a
      parameter: libsecp256k1 is the record [secp256k1] of Pubkey.v, the nine rounds of
      the header hash are an argument of [CBlockHeader::GetHash], LevelDB is a key-value
      store with the laws of a map.  What other threads know (the wallet, the clock) is an
      argument too.

    ** The files, from the bottom up

    - Prelude.v (this file): machine words, little-endian digits, the error monad, loops
      with fuel, tactics.
    - Uint256.v, Arith256.v: [base_uint] and [uint256] (uint256.h, uint256.cpp) on 32-bit
      limbs; the compact format of targets, bytes and hexadecimal text.  The operators
      are arithmetic modulo 2 to the width, with the division by zero as the exception.
    - Params.v, Subsidy.v: the constants of chainparams.cpp; the block reward and the
      masternode's share (main.cpp), with products of doubles in binary64.
    - Chain.v: [CBlockIndex] with its skip list, [CChain], locators and forks (chain.h,
      chain.cpp).  Pow.v: the next target, the test of a hash, the proof and trust of a
      block (pow.cpp).
    - Serialize.v: the templates of serialize.h as codecs with laws ([Lawful]: what is
      written is read back; [Canonical]: nothing else is read as the same value); every
      structure with a format on disk or on the wire is an instance.
    - Digest.v, Hashes.v: the hash classes of src/crypto: Digest.v has the buffering they
      share behind the record [hasher], Hashes.v the compression functions.
    - Script.v, Transaction.v, Pubkey.v: scripts and opcodes, transactions and blocks,
      public keys and the parsing of signatures.
    - Interp.v, Sighash.v: the script interpreter and the hash a signature signs
      (script/interpreter.cpp).  Standard.v: the standard scripts, destinations and the
      signature of a block (script/standard.cpp, primitives/block.cpp).
    - Merkle.v, PartialMerkle.v: the Merkle tree of a block (primitives/block.cpp) and
      the partial trees sent to light clients (merkleblock.cpp).  Bloom.v: bloom filters
      (bloom.cpp), the messages that set them, and the filtered blocks made with them.
    - Compressor.v, Coins.v, CoinsView.v: the unspent outputs, their compressed format,
      the undo data, and the views of them: the interface [CCoinsView] is a class with
      laws, a database and a cache over any view are its instances (compressor.cpp,
      coins.cpp, undo.h, txdb.cpp).
    - Validation.v: [CheckTransaction], [IsFinalTx], the counts of signature operations,
      [CheckInputs] and [UpdateCoins] (main.cpp).  Connect.v: [ConnectBlock] and
      [DisconnectBlock] with the checkpoints and the checks of the payees that they call.
    - Signer.v: the texts that masternodes and the keeper of the sporks sign, and compact
      recovery (masternode-helpers.cpp, pubkey.cpp).  Sporks.v: spork messages, their
      database and values (spork.cpp, sporkdb.cpp).  Masternodes.v: the list of
      masternodes, its messages, ranks and counts (masternode.cpp, masternodeman.cpp).
      Payments.v: the votes for the masternode that a block has to pay, the check of this
      payment and the outputs that make it (masternode-payments.cpp).  Budget.v: proposals,
      finalized budgets, their votes and payments, and the choice between the two kinds of
      payment (masternode-budget.cpp).
    - Mempool.v: the memory pool and the view of the coins over it (txmempool.cpp).
      Policy.v: which transactions enter it, [AcceptToMemoryPool] (main.cpp).
    - Orphans.v: transactions that wait for their inputs, and the message that brings a
      transaction.  Download.v: what is known about each peer, and which blocks are asked
      of it (main.cpp).  Messages.v: message headers, the bytes that become messages, the
      messages taken up and those sent (protocol.cpp, net.cpp, main.cpp); the class
      [PeerOps] is what it asks of the handlers.
    - Base58.v: base58 text, addresses and the text of secret keys (base58.cpp).
    - BestChain.v, Received.v, ActivateChain.v: the candidates for the best chain, the
      arrival of blocks before their parents, and the moving of the active chain.  The
      class [BlockStore] is what ActivateChain.v asks of Connect.v, Mempool.v and the
      disk; only the verdict on a block counts there.
    - Kernel.v: the stake modifier, the kernel of a block and its search (kernel.cpp).
    - BlockFiles.v: the space in the block files.  BlockChecks.v: [CheckBlock],
      [CheckWork] and the checks that need the previous block.  Accept.v: [AcceptBlock]
      and [ProcessNewBlock], on the state of BestChain.v, with the work of the other files.

    A block goes through [ProcessNewBlock] of Accept.v: [CheckBlock], the signature of
    Standard.v, [AcceptBlock] (the header enters the index of Chain.v, the kernel is
    checked by Kernel.v, the data get a place by BlockFiles.v,
    [ReceivedBlockTransactions] makes candidates); then [ActivateBestChain] chooses by
    BestChain.v and connects through [BlockStore], which Connect.v implements over a cache
    of CoinsView.v, with scripts run by Interp.v and hashes signed by Sighash.v.

    ** What the theorems show

    - Numbers and formats: programs over the limbs compute with integers modulo the width;
      the compact format keeps what it can and reports what it cannot; every format reads
      back what it writes (transactions, blocks, coins, undo data, compressed outputs,
      partial trees; of a negative version of coins, what is left of it), and hash classes
      give one digest however the data are fed.
    - Scripts: every script stops within its bounds; unspendable scripts are never spent;
      pay-to-script-hash runs the inner script; the greedy matching of [CHECKMULTISIG]
      finds a match when there is one; both ways of computing signature hashes agree; the
      standard forms are recognised exactly, and a destination is what its script says.
    - Coins: any sequence of operations on a cache behaves as the set of coins it stands
      for, a flush carries this to disk, and disconnecting a block undoes connecting it.
    - Blocks: [CheckTransaction], [CheckInputs], [CheckBlock], [CheckProofOfWork] and the
      check of a block's signature accept exactly what a declarative predicate says; a
      Merkle root binds the transactions; the kernel's modifier and hash search are those
      of a direct definition; an accepted block has passed every check, is in the index
      and has its data in space of its own.
    - The chain: the index stays a tree, forks and ancestors are what the tree says,
      blocks are linked exactly when their ancestors have arrived, the chosen candidate is
      the best one, and the loop of activation settles.
    - The memory pool: its maps agree and no two transactions spend one output, whatever
      is offered to it and removed; it takes exactly the admissible transactions.
    - The peers: the maps of orphans and of blocks in flight agree with what each peer is
      asked for; the work on orphans ends; the blocks asked for are the right ones.  What
      one node pushes another takes up, in order, however the bytes are cut; of any other
      bytes only the valid messages count, and the memory they take is bounded.
    - Addresses: base58 text with a checksum stands for its bytes and no others; on the main
      network the address of a script is the address of a key.
    - Masternodes: every entry of the list was announced with a valid signature, its key
      was checked against its collateral (the node's own announcements apart), and no
      collateral is there twice; a rank is a place by
      score; a block is refused for its payment only on the votes of six masternodes that
      were checked, and a node's own blocks pass this check outside two heights.  The
      budget of a cycle is divided in the order of the votes and never exceeded, and the
      votes are signed; but a block that pays the budget may mint any amount.
    - Where the code does something else than its comments or names say, a theorem states
      what it does (the ignored failures of [CheckInputs] below the checkpoints, the block
      that cannot be read and is retried for ever, the missing output of a coinstake, the
      inverted test of a spork's signature, votes and announcements that count as seen
      before they are checked).

    ** What is not modelled

    Connections, threads, locks, files and logging; the wallet, the RPC and graphical
    interfaces, which use the parts above and decide nothing about validity; signing and
    key stores, which depend on secrets; community votes and the locks of instant transactions; the
    steps of the synchronisation; the third-party libraries.  A lock held for a whole
    operation makes the operation one step.  Nor are the fee
    estimator, the median of the peers' clocks and the address manager modelled. *)

From Stdlib Require Export ZArith Lia Bool.
From stdpp Require Export prelude list.

#[global] Open Scope Z_scope.

(** * Machine words

    A [w]-bit unsigned integer is a [Z] in [[0, 2^w)]; the wrap-around of the
    C types is written out with the functions below. *)

Definition word (w : Z) (x : Z) : Prop := 0 <= x < 2 ^ w.
Definition words (w : Z) (l : list Z) : Prop := Forall (word w) l.

Definition u8 (x : Z) : Z := x mod 2 ^ 8.
Definition u16 (x : Z) : Z := x mod 2 ^ 16.
Definition u32 (x : Z) : Z := x mod 2 ^ 32.
Definition u64 (x : Z) : Z := x mod 2 ^ 64.
(** Two's-complement reinterpretation, for [int] and [int64_t]. *)
Definition s32 (x : Z) : Z := (x + 2 ^ 31) mod 2 ^ 32 - 2 ^ 31.
Definition s64 (x : Z) : Z := (x + 2 ^ 63) mod 2 ^ 64 - 2 ^ 63.

Abbreviation byte_list := (list Z) (only parsing).
Abbreviation is_bytes := (words 8) (only parsing).

Ltac wunfold := unfold words, word, u8, u16, u32, u64, s32, s64 in *.

(** [zify]-based arithmetic that also eliminates division and modulo. *)
Ltac dlia := Z.to_euclidean_division_equations; lia.

Create HintDb words.

Lemma pow2_pos w : 0 <= w -> 0 < 2 ^ w.
Proof. intros; apply Z.pow_pos_nonneg; lia. Qed.

Lemma word_mod w x : 0 <= w -> word w (x mod 2 ^ w).
Proof. intros; apply Z.mod_pos_bound, pow2_pos; lia. Qed.

Lemma u8_word x : word 8 (u8 x). Proof. apply word_mod; lia. Qed.
Lemma u16_word x : word 16 (u16 x). Proof. apply word_mod; lia. Qed.
Lemma u32_word x : word 32 (u32 x). Proof. apply word_mod; lia. Qed.
Lemma u64_word x : word 64 (u64 x). Proof. apply word_mod; lia. Qed.
#[export] Hint Resolve word_mod u8_word u16_word u32_word u64_word : words.

Lemma mod_small_word w x : word w x -> x mod 2 ^ w = x.
Proof. intros; apply Z.mod_small; auto. Qed.

Lemma u32_small x : word 32 x -> u32 x = x. Proof. apply mod_small_word. Qed.
Lemma u64_small x : word 64 x -> u64 x = x. Proof. apply mod_small_word. Qed.

Lemma s64_small x : - 2 ^ 63 <= x < 2 ^ 63 -> s64 x = x.
Proof. intros; unfold s64; rewrite Z.mod_small; lia. Qed.

Lemma s32_small x : - 2 ^ 31 <= x < 2 ^ 31 -> s32 x = x.
Proof. intros; unfold s32; rewrite Z.mod_small; lia. Qed.

Lemma s64_range x : - 2 ^ 63 <= s64 x < 2 ^ 63.
Proof. unfold s64. pose proof (Z.mod_pos_bound (x + 2 ^ 63) (2 ^ 64)). lia. Qed.

(** ** Bits *)

Lemma word_testbit_high w x i : word w x -> w <= i -> Z.testbit x i = false.
Proof.
  intros [H0 H] Hi. destruct (Z.eq_dec x 0) as [->|]; [apply Z.bits_0|].
  apply Z.bits_above_log2; [lia|].
  apply Z.lt_le_trans with w; [|lia]. apply Z.log2_lt_pow2; lia.
Qed.

Lemma word_of_testbit w x :
  0 <= w -> 0 <= x -> (forall i, w <= i -> Z.testbit x i = false) -> word w x.
Proof.
  intros Hw Hx H. split; [lia|].
  destruct (Z.eq_dec x 0) as [->|]; [apply pow2_pos; lia|].
  destruct (Z.lt_ge_cases (Z.log2 x) w) as [Hl|Hl];
    [apply Z.log2_lt_pow2; lia|].
  pose proof (Z.bit_log2 x ltac:(lia)) as Hb. rewrite H in Hb; [done|lia].
Qed.

Lemma word_land w x y : 0 <= w -> word w x -> 0 <= y -> word w (Z.land x y).
Proof.
  intros Hw Hx Hy. apply word_of_testbit; [done|apply Z.land_nonneg; lia|].
  intros i Hi. rewrite Z.land_spec, (word_testbit_high w) by done. done.
Qed.

Lemma word_lor w x y : 0 <= w -> word w x -> word w y -> word w (Z.lor x y).
Proof.
  intros Hw Hx Hy. apply word_of_testbit; [done|apply Z.lor_nonneg; wunfold; lia|].
  intros i Hi. by rewrite Z.lor_spec, !(word_testbit_high w).
Qed.

Lemma word_lxor w x y : 0 <= w -> word w x -> word w y -> word w (Z.lxor x y).
Proof.
  intros Hw Hx Hy.
  apply word_of_testbit; [done|apply Z.lxor_nonneg; wunfold; lia|].
  intros i Hi. by rewrite Z.lxor_spec, !(word_testbit_high w).
Qed.

Lemma word_shiftr w x n : 0 <= w -> 0 <= n -> word w x -> word w (Z.shiftr x n).
Proof.
  intros Hw Hn Hx.
  apply word_of_testbit; [done|apply Z.shiftr_nonneg; wunfold; lia|].
  intros i Hi. rewrite Z.shiftr_spec by lia. apply (word_testbit_high w); [done|lia].
Qed.
#[export] Hint Resolve word_lor word_lxor word_shiftr : words.

Lemma land_ones_mod x w : 0 <= w -> Z.land x (2 ^ w - 1) = x mod 2 ^ w.
Proof.
  intros. rewrite <- Z.land_ones by lia. f_equal. rewrite Z.ones_equiv. lia.
Qed.

Lemma lor_add_disjoint x y w :
  0 <= w -> word w x -> Z.lor x (y * 2 ^ w) = x + y * 2 ^ w.
Proof.
  intros Hw Hx. rewrite <- Z.shiftl_mul_pow2 by lia.
  rewrite <- Z.lxor_lor.
  - symmetry. rewrite Z.add_nocarry_lxor; [done|].
    apply Z.bits_inj'. intros i Hi. rewrite Z.land_spec, Z.shiftl_spec, Z.bits_0 by lia.
    destruct (Z.lt_ge_cases i w).
    + rewrite (Z.testbit_neg_r y) by lia. apply andb_false_r.
    + by rewrite (word_testbit_high w x).
  - apply Z.bits_inj'. intros i Hi. rewrite Z.land_spec, Z.shiftl_spec, Z.bits_0 by lia.
    destruct (Z.lt_ge_cases i w).
    + rewrite (Z.testbit_neg_r y) by lia. apply andb_false_r.
    + by rewrite (word_testbit_high w x).
Qed.

(** The low seven bits and the top bit of a byte. *)
Lemma land_7f n : Z.land n 0x7F = n mod 128.
Proof. change 0x7F with (Z.ones 7). by rewrite Z.land_ones by lia. Qed.

Lemma land_80 b : 0 <= b < 256 -> Z.land b 0x80 = if b <? 128 then 0 else 128.
Proof.
  intros Hb. assert (H : forallb (fun b => Z.land b 0x80 =? (if b <? 128 then 0 else 128))
    (map Z.of_nat (seq 0 256)) = true) by (by vm_compute).
  rewrite forallb_forall in H. apply Z.eqb_eq, H. apply in_map_iff.
  exists (Z.to_nat b). rewrite in_seq. lia.
Qed.

Lemma lor_80 d : 0 <= d < 128 -> Z.lor d 0x80 = d + 128.
Proof.
  intros Hd. change 0x80 with (1 * 2 ^ 7).
  rewrite lor_add_disjoint by (wunfold; lia). lia.
Qed.

(** * Little-endian digit strings

    A list of [w]-bit digits, least significant first: the limbs of
    [base_uint] ([w = 32]) and the bytes of the serializer ([w = 8]). *)

Section Digits.
Context (w : Z).

Fixpoint pos_val (l : list Z) : Z :=
  match l with
  | [] => 0
  | x :: l' => x + 2 ^ w * pos_val l'
  end.

Fixpoint digits (n : nat) (z : Z) : list Z :=
  match n with
  | O => []
  | S n' => z mod 2 ^ w :: digits n' (Z.shiftr z w)
  end.

Hypothesis Hw : 0 < w.

Lemma pos_val_bound l :
  words w l -> 0 <= pos_val l < 2 ^ (w * Z.of_nat (length l)).
Proof.
  induction 1 as [|x l Hx Hl IH]; simpl length; simpl pos_val.
  - rewrite Z.mul_0_r. lia.
  - rewrite Nat2Z.inj_succ, Z.mul_succ_r, Z.add_comm, Z.pow_add_r by lia.
    destruct Hx. pose proof (pow2_pos w ltac:(lia)). nia.
Qed.

Lemma pos_val_app l1 l2 :
  pos_val (l1 ++ l2) = pos_val l1 + 2 ^ (w * Z.of_nat (length l1)) * pos_val l2.
Proof.
  induction l1 as [|x l IH]; simpl app; simpl length; simpl pos_val.
  - rewrite Z.mul_0_r. lia.
  - rewrite IH, Nat2Z.inj_succ, Z.mul_succ_r, (Z.add_comm _ w), Z.pow_add_r by lia.
    lia.
Qed.

Lemma pos_val_zeros n : pos_val (replicate n 0) = 0.
Proof. induction n; simpl; [done|]. rewrite IHn; lia. Qed.

Lemma pos_val_inj l1 l2 :
  words w l1 -> words w l2 -> length l1 = length l2 ->
  pos_val l1 = pos_val l2 -> l1 = l2.
Proof.
  intros H1; revert l2. induction H1 as [|x l Hx Hl IH]; intros [|y l2] H2 Hlen; simpl;
    try discriminate; [done|].
  inversion H2 as [|? ? Hy Hl2]; subst. intros E. injection Hlen as Hlen.
  assert (x = y) as ->.
  { apply (f_equal (fun z => z mod 2 ^ w)) in E.
    rewrite !(Z.mul_comm (2 ^ w)), !Z.mod_add in E by (pose proof (pow2_pos w); lia).
    by rewrite !mod_small_word in E. }
  f_equal. apply IH; auto. pose proof (pow2_pos w ltac:(lia)). nia.
Qed.

Lemma length_digits n z : length (digits n z) = n.
Proof. revert z; induction n; simpl; auto. Qed.

Lemma digits_words n z : words w (digits n z).
Proof.
  revert z; induction n as [|n IH]; simpl; intros z; constructor.
  - apply word_mod; lia.
  - apply IH.
Qed.

Lemma pos_val_digits n z : pos_val (digits n z) = z mod 2 ^ (w * Z.of_nat n).
Proof.
  revert z; induction n as [|n IH]; intros z; simpl digits; simpl pos_val.
  - rewrite Z.mul_0_r, Z.mod_1_r. done.
  - rewrite IH, Nat2Z.inj_succ, Z.mul_succ_r, (Z.add_comm _ w), Z.pow_add_r by lia.
    rewrite Z.shiftr_div_pow2 by lia.
    rewrite Z.rem_mul_r; [done| |]; pose proof (pow2_pos w); lia.
Qed.

Lemma digits_pos_val l : words w l -> digits (length l) (pos_val l) = l.
Proof.
  intros H. apply pos_val_inj; auto using digits_words, length_digits.
  rewrite pos_val_digits. apply Z.mod_small, pos_val_bound; auto.
Qed.

Lemma pos_val_testbit l i :
  words w l -> 0 <= i ->
  Z.testbit (pos_val l) i = Z.testbit (nth (Z.to_nat (i / w)) l 0) (i mod w).
Proof.
  intros Hl; revert i. induction Hl as [|x l Hx Hl IH]; intros i Hi; simpl pos_val.
  - rewrite Z.bits_0. destruct (Z.to_nat _); simpl; by rewrite Z.bits_0.
  - rewrite (Z.mul_comm (2 ^ w)), <- lor_add_disjoint, <- Z.shiftl_mul_pow2 by (auto; lia).
    rewrite Z.lor_spec, Z.shiftl_spec by lia.
    destruct (Z.lt_ge_cases i w) as [H|H].
    + rewrite (Z.testbit_neg_r _ (i - w)) by lia.
      rewrite Z.div_small, Z.mod_small, orb_false_r by lia. done.
    + rewrite (word_testbit_high w x) by auto. simpl orb. rewrite IH by lia.
      replace i with ((i - w) + 1 * w) at 3 4 by lia.
      rewrite Z.div_add, Z.mod_add by lia.
      rewrite Z2Nat.inj_add by (try apply Z.div_pos; lia).
      rewrite Nat.add_comm. done.
Qed.
End Digits.

Lemma words_nth w l i : 0 < w -> words w l -> word w (nth i l 0).
Proof.
  intros Hw H. destruct (Nat.lt_ge_cases i (length l)).
  - eapply Forall_forall in H; [exact H|]. by apply list_elem_of_In, nth_In.
  - rewrite nth_overflow by done. split; [lia|apply pow2_pos; lia].
Qed.

(** Bytes in memory order: the little-endian layout the code assumes when it
    copies integers with [memcpy] or [WRITEDATA]. *)
Definition le_bytes (n : nat) (z : Z) : list Z := digits 8 n z.
Definition le_val (l : list Z) : Z := pos_val 8 l.

Lemma le_val_bytes n z : le_val (le_bytes n z) = z mod 2 ^ (8 * Z.of_nat n).
Proof. apply pos_val_digits; lia. Qed.

Lemma length_le_bytes n z : length (le_bytes n z) = n.
Proof. apply length_digits. Qed.

Lemma le_bytes_bytes n z : words 8 (le_bytes n z).
Proof. apply digits_words; lia. Qed.
#[export] Hint Resolve le_bytes_bytes : words.

Lemma le_bytes_val l n : words 8 l -> n = length l -> le_bytes n (le_val l) = l.
Proof. intros ? ->. apply digits_pos_val; [lia|done]. Qed.

Lemma le_val_bound l : words 8 l -> 0 <= le_val l < 2 ^ (8 * Z.of_nat (length l)).
Proof. apply pos_val_bound; lia. Qed.

(** * Errors *)

Inductive result (E A : Type) : Type :=
| Ok (a : A)
| Err (e : E).
Arguments Ok {E A} a.
Arguments Err {E A} e.

Definition rbind {E A B} (m : result E A) (f : A -> result E B) : result E B :=
  match m with Ok a => f a | Err e => Err e end.

Declare Scope result_scope.
Delimit Scope result_scope with result.
Notation "x <-! m ;; k" := (rbind m (fun x => k))
  (at level 100, m at next level, right associativity) : result_scope.

Definition is_ok {E A} (m : result E A) : bool :=
  match m with Ok _ => true | Err _ => false end.

Lemma Ok_inj {E A} (a b : A) : @Ok E A a = Ok b -> a = b.
Proof. by intros [= ->]. Qed.

Lemma rbind_ok {E A B} (m : result E A) (f : A -> result E B) b :
  rbind m f = Ok b <-> exists a, m = Ok a /\ f a = Ok b.
Proof. destruct m as [a|e]; simpl; split; [eauto|intros (?&[= <-]&?); done|done|intros (?&?&?); done]. Qed.

(** * Loops

    [run_loop fuel body s] runs [body] until it returns [inr]; [None] when the
    fuel runs out.  A [while] loop of the code whose recursion is not
    structural is an instance, with a theorem that the fuel is enough. *)

Section Loop.
Context {S R : Type} (body : S -> S + R).

Fixpoint run_loop (fuel : nat) (s : S) : option R :=
  match fuel with
  | O => None
  | Datatypes.S n => match body s with inl s' => run_loop n s' | inr r => Some r end
  end.

(** A decreasing measure under an invariant gives termination. *)
Lemma run_loop_total (I : S -> Prop) (m : S -> nat) :
  (forall s s', I s -> body s = inl s' -> I s' /\ (m s' < m s)%nat) ->
  forall fuel s, I s -> (m s < fuel)%nat -> is_Some (run_loop fuel s).
Proof.
  intros H fuel. induction fuel as [|n IH]; intros s HI Hm; [lia|]. simpl.
  destruct (body s) as [s'|r] eqn:E; [|eauto].
  destruct (H _ _ HI E). apply IH; [done|lia].
Qed.

(** Partial correctness by a loop invariant. *)
Lemma run_loop_inv (I : S -> Prop) (Q : R -> Prop) :
  (forall s s', I s -> body s = inl s' -> I s') ->
  (forall s r, I s -> body s = inr r -> Q r) ->
  forall fuel s r, I s -> run_loop fuel s = Some r -> Q r.
Proof.
  intros Hi Hr fuel. induction fuel as [|n IH]; intros s r HI; simpl; [done|].
  destruct (body s) as [s'|r'] eqn:E; [eauto|]. intros [= <-]; eauto.
Qed.

Lemma run_loop_mono fuel fuel' s r :
  run_loop fuel s = Some r -> (fuel <= fuel')%nat -> run_loop fuel' s = Some r.
Proof.
  revert fuel' s. induction fuel as [|n IH]; intros [|n'] s; simpl; try done; [lia|].
  destruct (body s); [|done]. intros ? ?. apply IH; [done|lia].
Qed.
End Loop.

(** * Lists *)

Lemma words_app w l1 l2 : words w (l1 ++ l2) <-> words w l1 /\ words w l2.
Proof. apply Forall_app. Qed.

Lemma words_take w n l : words w l -> words w (take n l).
Proof. apply Forall_take. Qed.

Lemma words_drop w n l : words w l -> words w (drop n l).
Proof. apply Forall_drop. Qed.

Lemma words_replicate w n x : word w x -> words w (replicate n x).
Proof. intros. by apply Forall_replicate. Qed.
#[export] Hint Resolve words_take words_drop words_replicate : words.

(** The last element, as [vector::back] reads it. *)
Definition back {A} (d : A) (l : list A) : A := List.last l d.

Lemma back_snoc {A} (d x : A) l : back d (l ++ [x]) = x.
Proof. apply last_last. Qed.

(** Sum of a list of amounts. *)
Definition zsum (l : list Z) : Z := foldr Z.add 0 l.

Lemma zsum_app l1 l2 : zsum (l1 ++ l2) = zsum l1 + zsum l2.
Proof. induction l1; unfold zsum in *; simpl; lia. Qed.

Lemma last_cons_default {A} (x d : A) l : List.last (x :: l) d = List.last l x.
Proof.
  revert x d. induction l as [|y l IH]; intros x d; [done|].
  transitivity (List.last (y :: l) d); [done|]. by rewrite !IH.
Qed.

Lemma last_nth {A} (l : list A) d : List.last l d = nth (length l - 1) l d.
Proof.
  induction l as [|x [|y l] IH]; [done..|].
  change (List.last (y :: l) d = nth (length (y :: l)) (x :: y :: l) d). rewrite IH.
  cbn [length nth]. by rewrite ?Nat.sub_succ, ?Nat.sub_0_r.
Qed.
