(* ===== verification/Uint256.v ===== *)
(** Fixed-width unsigned integers: [base_uint<BITS>] of uint256.h and
    uint256.cpp, limb by limb, and its refinement of arithmetic on [Z].

    A number is the list of its 32-bit limbs, [pn[0]] first.  [WIDTH] is the
    template's [BITS / 32].  The value a list stands for is [val]. *)

From S2P Require Import Prelude.

Abbreviation base_uint := (list Z) (only parsing).

Definition val (a : base_uint) : Z := pos_val 32 a.

(** * Operations *)

Section BaseUint.
Context (WIDTH : nat).

(** Representation invariant: [WIDTH] limbs, each a [uint32_t]. *)
Definition wf (a : base_uint) : Prop := length a = WIDTH /\ words 32 a.

Definition zero : base_uint := replicate WIDTH 0.

Definition IsNull (a : base_uint) : bool := forallb (fun x => x =? 0) a.

(** [base_uint(uint64_t b)] and [operator=(uint64_t)]. *)
Definition of_u64 (b : Z) : base_uint :=
  take WIDTH (u32 b :: u32 (Z.shiftr b 32) :: replicate (WIDTH - 2) 0).

Definition bnot (a : base_uint) : base_uint :=
  map (fun x => Z.lxor x (2 ^ 32 - 1)) a.

Definition map2 (f : Z -> Z -> Z) (a b : base_uint) : base_uint := zip_with f a b.
Definition bxor (a b : base_uint) : base_uint := map2 Z.lxor a b.
Definition band (a b : base_uint) : base_uint := map2 Z.land a b.
Definition bor (a b : base_uint) : base_uint := map2 Z.lor a b.

(** [operator++]: add one to a limb, move on while it wraps to zero. *)
Fixpoint incr (a : base_uint) : base_uint :=
  match a with
  | [] => []
  | x :: a' =>
      let x' := u32 (x + 1) in
      if x' =? 0 then x' :: incr a' else x' :: a'
  end.

(** [operator--]: subtract one, move on while it wraps to [0xffffffff]. *)
Fixpoint decr (a : base_uint) : base_uint :=
  match a with
  | [] => []
  | x :: a' =>
      let x' := u32 (x - 1) in
      if x' =? 2 ^ 32 - 1 then x' :: decr a' else x' :: a'
  end.

Definition bneg (a : base_uint) : base_uint := incr (bnot a).

(** The carry loop of [operator+=]. *)
Fixpoint add_loop (carry : Z) (a b : base_uint) : base_uint :=
  match a, b with
  | x :: a', y :: b' =>
      let n := u64 (carry + x + y) in
      Z.land n (2 ^ 32 - 1) :: add_loop (Z.shiftr n 32) a' b'
  | _, _ => []
  end.

Definition add (a b : base_uint) : base_uint := add_loop 0 a b.
Definition sub (a b : base_uint) : base_uint := add a (bneg b).

(** The carry loop of [operator*=(uint32_t)]. *)
Fixpoint mul32_loop (carry b32 : Z) (a : base_uint) : base_uint :=
  match a with
  | x :: a' =>
      let n := u64 (carry + b32 * x) in
      Z.land n (2 ^ 32 - 1) :: mul32_loop (Z.shiftr n 32) b32 a'
  | [] => []
  end.

Definition mul32 (a : base_uint) (b32 : Z) : base_uint := mul32_loop 0 b32 a.

(** The inner loop of [operator*=(const base_uint&)] for one [j]: [pn] is the
    accumulator from limb [j] on, so [i + j < WIDTH] is "[pn] not exhausted". *)
Fixpoint mul_inner (carry aj : Z) (pn b : base_uint) : base_uint :=
  match pn, b with
  | p :: pn', y :: b' =>
      let n := u64 (carry + p + aj * y) in
      Z.land n (2 ^ 32 - 1) :: mul_inner (Z.shiftr n 32) aj pn' b'
  | _, _ => pn
  end.

(** The outer loop: [j] runs over the limbs of [a]. *)
Fixpoint mul_outer (j : nat) (a pn b : base_uint) : base_uint :=
  match a with
  | [] => pn
  | aj :: a' => mul_outer (S j) a' (take j pn ++ mul_inner 0 aj (drop j pn) b) b
  end.

Definition mul (a b : base_uint) : base_uint := mul_outer 0 a zero b.

(** One iteration of the loop of [operator<<=], on limb [i] of [a]:
    [k] limbs and [s] bits. *)
Definition shl_step (a : base_uint) (k : nat) (s : Z) (pn : base_uint) (i : nat) : base_uint :=
  let pn1 :=
    if (i + k + 1 <? WIDTH)%nat && negb (s =? 0)
    then alter (fun x => Z.lor x (Z.shiftr (nth i a 0) (32 - s))) (i + k + 1)%nat pn
    else pn in
  if (i + k <? WIDTH)%nat
  then alter (fun x => Z.lor x (u32 (Z.shiftl (nth i a 0) s))) (i + k)%nat pn1
  else pn1.

Definition shl (a : base_uint) (shift : Z) : base_uint :=
  let k := Z.to_nat (shift / 32) in
  let s := shift mod 32 in
  foldl (shl_step a k s) zero (seq 0 WIDTH).

(** One iteration of the loop of [operator>>=]. *)
Definition shr_step (a : base_uint) (k : nat) (s : Z) (pn : base_uint) (i : nat) : base_uint :=
  let pn1 :=
    if (k + 1 <=? i)%nat && negb (s =? 0)
    then alter (fun x => Z.lor x (u32 (Z.shiftl (nth i a 0) (32 - s)))) (i - k - 1)%nat pn
    else pn in
  if (k <=? i)%nat
  then alter (fun x => Z.lor x (Z.shiftr (nth i a 0) s)) (i - k)%nat pn1
  else pn1.

Definition shr (a : base_uint) (shift : Z) : base_uint :=
  let k := Z.to_nat (shift / 32) in
  let s := shift mod 32 in
  foldl (shr_step a k s) zero (seq 0 WIDTH).

(** [CompareTo] walks from the most significant limb down. *)
Fixpoint cmp_loop (ra rb : base_uint) : Z :=
  match ra, rb with
  | x :: ra', y :: rb' =>
      if x <? y then -1 else if y <? x then 1 else cmp_loop ra' rb'
  | _, _ => 0
  end.

Definition CompareTo (a b : base_uint) : Z := cmp_loop (rev a) (rev b).

Definition lt (a b : base_uint) : bool := CompareTo a b <? 0.
Definition gt (a b : base_uint) : bool := 0 <? CompareTo a b.
Definition le (a b : base_uint) : bool := CompareTo a b <=? 0.
Definition ge (a b : base_uint) : bool := 0 <=? CompareTo a b.
(** [memcmp] of the limb arrays. *)
Definition eq (a b : base_uint) : bool := bool_decide (a = b).

(** [EqualTo(uint64_t)]. *)
Definition EqualTo (a : base_uint) (b : Z) : bool :=
  forallb (fun x => x =? 0) (drop 2 a)
  && (nth 1 a 0 =? Z.shiftr b 32)
  && (nth 0 a 0 =? Z.land b (2 ^ 32 - 1)).

(** The scan of one limb in [bits]: the highest [b] with [1 << b] set, down
    to [b = 1]; a limb whose only bit is bit 0 gives 1. *)
Fixpoint limb_bits (x : Z) (b : nat) : Z :=
  match b with
  | O => 1
  | S b' => if Z.testbit x (Z.of_nat b) then Z.of_nat b + 1 else limb_bits x b'
  end.

Fixpoint bits_loop (ra : base_uint) : Z :=
  match ra with
  | [] => 0
  | x :: ra' =>
      if x =? 0 then bits_loop ra'
      else 32 * Z.of_nat (length ra') + limb_bits x 31
  end.

Definition bits (a : base_uint) : Z := bits_loop (rev a).

(** The division loop: [n] iterations are left, so [shift = n - 1]. *)
Fixpoint div_loop (n : nat) (num dv q : base_uint) : base_uint :=
  match n with
  | O => q
  | S shift =>
      let '(num', q') :=
        if ge num dv
        then (sub num dv,
              alter (fun x => Z.lor x (Z.shiftl 1 (Z.land (Z.of_nat shift) 31)))
                (shift / 32)%nat q)
        else (num, q) in
      div_loop shift num' (shr dv 1) q'
  end.

(** [operator/=]; the exception [uint_error("Division by zero")] is [None]. *)
Definition div (a b : base_uint) : option base_uint :=
  let num_bits := bits a in
  let div_bits := bits b in
  if div_bits =? 0 then None
  else if num_bits <? div_bits then Some zero
  else
    let shift := num_bits - div_bits in
    Some (div_loop (Z.to_nat (shift + 1)) a (shl b shift) zero).

Definition Get64 (a : base_uint) (n : nat) : Z :=
  Z.lor (nth (2 * n) a 0) (Z.shiftl (nth (2 * n + 1) a 0) 32).

Definition GetLow64 (a : base_uint) : Z :=
  Z.lor (nth 0 a 0) (Z.shiftl (nth 1 a 0) 32).

(** The object's bytes, as [begin()]/[end()] and [Serialize] expose them. *)
Definition to_bytes (a : base_uint) : byte_list := a ≫= le_bytes 4.

(** [memcpy] of [sizeof(pn)] bytes into [pn]. *)
Fixpoint limbs_of_bytes (n : nat) (bs : byte_list) : base_uint :=
  match n with
  | O => []
  | S n' => le_val (take 4 bs) :: limbs_of_bytes n' (drop 4 bs)
  end.

(** [base_uint(const std::vector<unsigned char>&)]: [None] is [uint_error]. *)
Definition of_vector (vch : byte_list) : option base_uint :=
  if (length vch =? WIDTH * 4)%nat then Some (limbs_of_bytes WIDTH vch) else None.
End BaseUint.

(** * Refinement to [Z] *)

Definition modulus (WIDTH : nat) : Z := 2 ^ (32 * Z.of_nat WIDTH).

Create HintDb u256.

Lemma modulus_pos W : 0 < modulus W.
Proof. apply pow2_pos; lia. Qed.

Lemma modulus_S W : modulus (S W) = 2 ^ 32 * modulus W.
Proof. unfold modulus. rewrite <- Z.pow_add_r by lia. f_equal; lia. Qed.

Lemma val_cons x a : val (x :: a) = x + 2 ^ 32 * val a.
Proof. done. Qed.

Lemma val_app a b : val (a ++ b) = val a + modulus (length a) * val b.
Proof. apply pos_val_app. lia. Qed.

Lemma val_range W a : wf W a -> 0 <= val a < modulus W.
Proof. intros [<- H]. by apply (pos_val_bound 32 ltac:(lia)). Qed.

Lemma val_inj W a b : wf W a -> wf W b -> val a = val b -> a = b.
Proof. intros [? ?] [? ?] E. eapply (pos_val_inj 32); eauto; [lia|congruence]. Qed.

Lemma wf_nth W a i : wf W a -> word 32 (nth i a 0).
Proof. intros [_ H]. by apply words_nth; [lia|]. Qed.
#[export] Hint Resolve wf_nth : u256.

Lemma wf_zero W : wf W (zero W).
Proof. unfold zero. split; [by rewrite length_replicate|]. apply words_replicate. by wunfold. Qed.

Lemma val_zero W : val (zero W) = 0.
Proof. apply pos_val_zeros. Qed.
#[export] Hint Resolve wf_zero : u256.

(** The two halves of a 64-bit accumulator. *)
Lemma carry_split n :
  0 <= n < 2 ^ 64 ->
  word 32 (Z.land (u64 n) (2 ^ 32 - 1)) /\ word 32 (Z.shiftr (u64 n) 32) /\
  Z.land (u64 n) (2 ^ 32 - 1) + 2 ^ 32 * Z.shiftr (u64 n) 32 = n.
Proof.
  intros H. rewrite u64_small by done.
  rewrite land_ones_mod, Z.shiftr_div_pow2 by lia. wunfold.
  repeat split; try dlia.
Qed.

Lemma add_loop_spec a b c :
  words 32 a -> words 32 b -> length a = length b -> 0 <= c <= 1 ->
  exists c', 0 <= c' <= 1 /\ words 32 (add_loop c a b) /\
    length (add_loop c a b) = length a /\
    val (add_loop c a b) + modulus (length a) * c' = c + val a + val b.
Proof.
  intros Ha; revert b c. induction Ha as [|x a Hx Ha IH]; intros [|y b] c Hb Hl Hc;
    try discriminate; cbn [add_loop length].
  - exists c. unfold modulus; simpl. repeat split; try lia. constructor.
  - inversion Hb as [|? ? Hy Hb']; subst. injection Hl as Hl.
    destruct (carry_split (c + x + y)) as (Hlo & Hhi & E); [wunfold; lia|].
    destruct (IH b (Z.shiftr (u64 (c + x + y)) 32)) as (c' & Hc' & Hw & Hlen & Hv); auto.
    { wunfold; lia. }
    exists c'. repeat split; try lia.
    + constructor; auto.
    + rewrite modulus_S, !val_cons. lia.
Qed.

Lemma wf_add W a b : wf W a -> wf W b -> wf W (add a b).
Proof.
  intros [Ha Wa] [Hb Wb]. destruct (add_loop_spec a b 0) as (c & ? & ? & ? & ?); auto;
    [congruence|lia|]. split; [unfold add; congruence|done].
Qed.

Lemma val_add W a b :
  wf W a -> wf W b -> val (add a b) = (val a + val b) mod modulus W.
Proof.
  intros Ha Hb. pose proof (val_range _ _ (wf_add _ _ _ Ha Hb)) as Hr.
  destruct Ha as [Ha Wa], Hb as [Hb Wb].
  destruct (add_loop_spec a b 0) as (c & ? & ? & ? & E); auto; [congruence|lia|].
  fold (add a b) in E. apply Z.mod_unique_pos with c; [done|]. rewrite Ha in E. lia.
Qed.

Lemma wf_bnot W a : wf W a -> wf W (bnot a).
Proof.
  intros [Hl Ha]; split; [by unfold bnot; rewrite length_map|].
  apply Forall_map. eapply Forall_impl; [exact Ha|]. intros x Hx. simpl.
  apply word_lxor; [lia|done|]. wunfold; lia.
Qed.

Lemma lxor_ones_sub w x : 0 <= w -> word w x -> Z.lxor x (2 ^ w - 1) = 2 ^ w - 1 - x.
Proof.
  intros Hw Hx.
  replace (2 ^ w - 1) with (Z.ones w) by (rewrite Z.ones_equiv; lia).
  symmetry. rewrite Z.sub_nocarry_ldiff.
  - apply Z.bits_inj'. intros i Hi. rewrite Z.ldiff_spec, Z.lxor_spec.
    destruct (Z.lt_ge_cases i w).
    + rewrite Z.ones_spec_low by lia. by destruct (Z.testbit x i).
    + rewrite Z.ones_spec_high, (word_testbit_high w x) by (done || lia). done.
  - apply Z.bits_inj'. intros i Hi. rewrite Z.ldiff_spec, Z.bits_0.
    destruct (Z.lt_ge_cases i w).
    + rewrite Z.ones_spec_low by lia. apply andb_false_r.
    + by rewrite (word_testbit_high w x).
Qed.

Lemma val_bnot W a : wf W a -> val (bnot a) = modulus W - 1 - val a.
Proof.
  intros [<- Ha]. induction Ha as [|x a Hx Ha IH]; [done|].
  change (bnot (x :: a)) with (Z.lxor x (2 ^ 32 - 1) :: bnot a).
  rewrite !val_cons, IH, lxor_ones_sub by (done || lia).
  simpl length. rewrite modulus_S. lia.
Qed.

Lemma incr_spec a :
  words 32 a -> words 32 (incr a) /\ length (incr a) = length a /\
  val (incr a) = (val a + 1) mod modulus (length a).
Proof.
  induction 1 as [|x a Hx Ha (Hw & Hl & IH)].
  { split_and!; [constructor|done|done]. }
  cbn [incr length]. rewrite modulus_S.
  pose proof (modulus_pos (length a)).
  pose proof (val_range (length a) a (conj eq_refl Ha)) as Hr.
  destruct (Z.eqb_spec (u32 (x + 1)) 0) as [E|E].
  - assert (x = 2 ^ 32 - 1) by (wunfold; dlia).
    cbn [length]. split_and!; [constructor; [wunfold; lia|done]|lia|].
    rewrite !val_cons, IH, E. subst x.
    replace (2 ^ 32 - 1 + 2 ^ 32 * val a + 1) with (2 ^ 32 * (val a + 1)) by lia.
    rewrite Z.mul_mod_distr_l by lia. lia.
  - assert (Hs : u32 (x + 1) = x + 1) by (wunfold; dlia).
    pose proof (u32_word (x + 1)) as Hx'. rewrite Hs in Hx'.
    split_and!; [constructor; [apply u32_word|done]|done|].
    rewrite !val_cons, Hs. rewrite Z.mod_small; [lia|]. destruct Hx, Hx'. nia.
Qed.

Lemma wf_incr W a : wf W a -> wf W (incr a).
Proof. intros [<- Ha]. by destruct (incr_spec a Ha) as (?&?&?). Qed.

Lemma val_incr W a : wf W a -> val (incr a) = (val a + 1) mod modulus W.
Proof. intros [<- Ha]. by destruct (incr_spec a Ha) as (?&?&?). Qed.

Lemma wf_bneg W a : wf W a -> wf W (bneg a).
Proof. intros; by apply wf_incr, wf_bnot. Qed.

Lemma val_bneg W a : wf W a -> val (bneg a) = (- val a) mod modulus W.
Proof.
  intros H. unfold bneg. rewrite (val_incr W) by (by apply wf_bnot).
  rewrite (val_bnot W) by done.
  replace (modulus W - 1 - val a + 1) with (- val a + 1 * modulus W) by lia.
  apply Z.mod_add. pose proof (modulus_pos W); lia.
Qed.

Lemma wf_sub W a b : wf W a -> wf W b -> wf W (sub a b).
Proof. intros; apply wf_add; [done|by apply wf_bneg]. Qed.

Lemma val_sub W a b : wf W a -> wf W b -> val (sub a b) = (val a - val b) mod modulus W.
Proof.
  intros. unfold sub. rewrite (val_add W), (val_bneg W) by (done || by apply wf_bneg).
  rewrite Zplus_mod_idemp_r. done.
Qed.
#[export] Hint Resolve wf_add wf_bnot wf_incr wf_bneg wf_sub : u256.

(** ** Multiplication *)

Lemma mul_acc_bound c p x y :
  word 32 c -> word 32 p -> word 32 x -> word 32 y -> 0 <= c + p + x * y < 2 ^ 64.
Proof. wunfold. nia. Qed.

Lemma mul32_loop_spec a c b :
  words 32 a -> word 32 c -> word 32 b ->
  exists c', words 32 (mul32_loop c b a) /\ length (mul32_loop c b a) = length a /\
    val (mul32_loop c b a) + modulus (length a) * c' = c + b * val a.
Proof.
  intros Ha; revert c. induction Ha as [|x a Hx Ha IH]; intros c Hc Hb;
    cbn [mul32_loop length].
  - exists c. change (val []) with 0. unfold modulus. simpl.
    split_and!; [constructor|done|lia].
  - pose proof (mul_acc_bound c 0 b x Hc ltac:(by wunfold) Hb Hx) as Hn.
    rewrite Z.add_0_r in Hn. destruct (carry_split _ Hn) as (Hlo & Hhi & E).
    destruct (IH (Z.shiftr (u64 (c + b * x)) 32) Hhi Hb) as (c' & ? & ? & Hv).
    exists c'. split_and!; [by constructor|congruence|].
    rewrite modulus_S, !val_cons. lia.
Qed.

Lemma wf_mul32 W a b : wf W a -> word 32 b -> wf W (mul32 a b).
Proof.
  intros [<- Ha] Hb. destruct (mul32_loop_spec a 0 b Ha ltac:(by wunfold) Hb) as (?&?&?&?).
  by split.
Qed.

Lemma val_mul32 W a b :
  wf W a -> word 32 b -> val (mul32 a b) = (val a * b) mod modulus W.
Proof.
  intros Ha Hb. pose proof (val_range _ _ (wf_mul32 _ _ _ Ha Hb)) as Hr.
  destruct Ha as [<- Ha].
  destruct (mul32_loop_spec a 0 b Ha ltac:(by wunfold) Hb) as (c&_&_&E).
  fold (mul32 a b) in E. apply Z.mod_unique_pos with c; [done|]. lia.
Qed.

Lemma mul_inner_spec pn b c aj :
  words 32 pn -> words 32 b -> (length pn <= length b)%nat -> word 32 c -> word 32 aj ->
  exists k, words 32 (mul_inner c aj pn b) /\
    length (mul_inner c aj pn b) = length pn /\
    val (mul_inner c aj pn b) + modulus (length pn) * k = c + val pn + aj * val b.
Proof.
  intros Hp; revert b c. induction Hp as [|p pn Hp Hpn IH]; intros [|y b] c Hb Hl Hc Haj;
    cbn [mul_inner length] in *; try lia.
  - exists c. change (val []) with 0. unfold modulus. simpl.
    split_and!; [constructor|done|lia].
  - exists (c + aj * val (y :: b)). change (val []) with 0. unfold modulus.
    simpl length. change (2 ^ (32 * Z.of_nat 0)) with 1.
    split_and!; [constructor|done|lia].
  - inversion Hb as [|? ? Hy Hb']; subst.
    destruct (carry_split _ (mul_acc_bound c p aj y Hc Hp Haj Hy)) as (Hlo & Hhi & E).
    destruct (IH b (Z.shiftr (u64 (c + p + aj * y)) 32)) as (k & ? & ? & Hv); auto; [lia|].
    exists k. split_and!; [by constructor|congruence|].
    rewrite modulus_S, !val_cons. lia.
Qed.

Lemma modulus_app j W : (j <= W)%nat -> modulus W = modulus j * modulus (W - j).
Proof. intros. unfold modulus. rewrite <- Z.pow_add_r by lia. f_equal; lia. Qed.

Lemma mul_outer_spec W a b pn j :
  words 32 a -> wf W b -> wf W pn -> (j + length a = W)%nat ->
  exists k, wf W (mul_outer j a pn b) /\
    val (mul_outer j a pn b) + modulus W * k = val pn + modulus j * val a * val b.
Proof.
  intros Ha Hb; revert pn j. induction Ha as [|aj a Haj Ha IH]; intros pn j Hp Hj;
    cbn [mul_outer length] in *.
  - exists 0. split; [done|]. change (val []) with 0. lia.
  - destruct Hp as [Hl Hp].
    assert (Hlt : length (take j pn) = j) by (rewrite length_take; lia).
    assert (Hld : length (drop j pn) = (W - j)%nat) by (rewrite length_drop; lia).
    destruct (mul_inner_spec (drop j pn) b 0 aj) as (k1 & Hw & Hi & E1);
      auto with words; [by destruct Hb|destruct Hb; lia|by wunfold|].
    destruct (IH (take j pn ++ mul_inner 0 aj (drop j pn) b) (S j)) as (k2 & Hw2 & E2);
      [split; [rewrite length_app; lia|apply words_app; auto with words]|lia|].
    exists (k1 + k2). split; [done|].
    rewrite Hld in E1. rewrite val_app, Hlt, modulus_S in E2.
    pose proof (val_app (take j pn) (drop j pn)) as Es. rewrite take_drop, Hlt in Es.
    rewrite (modulus_app j W) in * by lia. rewrite val_cons, Es. nia.
Qed.

Lemma wf_mul W a b : wf W a -> wf W b -> wf W (mul W a b).
Proof.
  intros [Hl Ha] Hb.
  by destruct (mul_outer_spec W a b (zero W) 0 Ha Hb (wf_zero W) ltac:(lia)) as (?&?&_).
Qed.

Lemma val_mul W a b : wf W a -> wf W b -> val (mul W a b) = (val a * val b) mod modulus W.
Proof.
  intros Ha Hb. pose proof (val_range _ _ (wf_mul _ _ _ Ha Hb)) as Hr.
  destruct Ha as [Hl Ha].
  destruct (mul_outer_spec W a b (zero W) 0 Ha Hb (wf_zero W) ltac:(lia)) as (k&_&E).
  fold (mul W a b) in E. rewrite val_zero in E.
  apply Z.mod_unique_pos with k; [done|].
  change (modulus 0) with 1 in E. lia.
Qed.
#[export] Hint Resolve wf_mul32 wf_mul : u256.

(** ** Comparison *)

Definition sgn_cmp (x y : Z) : Z := if x <? y then -1 else if y <? x then 1 else 0.

Lemma val_snoc a x : val (a ++ [x]) = val a + modulus (length a) * x.
Proof. rewrite val_app, val_cons. change (val []) with 0. lia. Qed.

Lemma cmp_loop_spec ra rb :
  words 32 ra -> words 32 rb -> length ra = length rb ->
  cmp_loop ra rb = sgn_cmp (val (rev ra)) (val (rev rb)).
Proof.
  intros Ha; revert rb. induction Ha as [|x ra Hx Ha IH]; intros [|y rb] Hb Hl;
    try discriminate; [done|]. inversion Hb as [|? ? Hy Hb']; subst.
  injection Hl as Hl. cbn [cmp_loop rev]. rewrite !val_snoc, !length_rev, Hl.
  specialize (IH rb Hb' Hl). rewrite IH.
  pose proof (val_range (length rb) (rev ra)) as R1.
  pose proof (val_range (length rb) (rev rb)) as R2.
  destruct R1 as [R1 R1']; [split; [rewrite length_rev; lia|by apply Forall_rev]|].
  destruct R2 as [R2 R2']; [split; [by rewrite length_rev|by apply Forall_rev]|].
  unfold sgn_cmp.
  repeat match goal with |- context [?a <? ?b] => destruct (Z.ltb_spec a b) end; nia.
Qed.

Lemma CompareTo_spec W a b : wf W a -> wf W b -> CompareTo a b = sgn_cmp (val a) (val b).
Proof.
  intros [Hl Ha] [Hl' Hb]. unfold CompareTo.
  rewrite cmp_loop_spec, !rev_involutive; [done|by apply Forall_rev|by apply Forall_rev|].
  rewrite !length_rev; congruence.
Qed.

Lemma lt_spec W a b : wf W a -> wf W b -> lt a b = (val a <? val b).
Proof.
  intros. unfold lt. rewrite (CompareTo_spec W) by done. unfold sgn_cmp.
  destruct (Z.ltb_spec (val a) (val b)), (Z.ltb_spec (val b) (val a)); done || lia.
Qed.

Lemma gt_spec W a b : wf W a -> wf W b -> gt a b = (val b <? val a).
Proof.
  intros. unfold gt. rewrite (CompareTo_spec W) by done. unfold sgn_cmp.
  destruct (Z.ltb_spec (val a) (val b)), (Z.ltb_spec (val b) (val a)); done || lia.
Qed.

Lemma le_spec W a b : wf W a -> wf W b -> le a b = (val a <=? val b).
Proof.
  intros. unfold le. rewrite (CompareTo_spec W) by done. unfold sgn_cmp.
  destruct (Z.ltb_spec (val a) (val b)), (Z.ltb_spec (val b) (val a)),
    (Z.leb_spec (val a) (val b)); done || lia.
Qed.

Lemma ge_spec W a b : wf W a -> wf W b -> ge a b = (val b <=? val a).
Proof.
  intros. unfold ge. rewrite (CompareTo_spec W) by done. unfold sgn_cmp.
  destruct (Z.ltb_spec (val a) (val b)), (Z.ltb_spec (val b) (val a)),
    (Z.leb_spec (val b) (val a)); done || lia.
Qed.

Lemma eq_spec W a b : wf W a -> wf W b -> eq a b = (val a =? val b).
Proof.
  intros Ha Hb. unfold eq. destruct (Z.eqb_spec (val a) (val b)) as [E|E].
  - apply bool_decide_eq_true. eapply val_inj; eauto.
  - apply bool_decide_eq_false. congruence.
Qed.

Lemma IsNull_spec W a : wf W a -> IsNull a = (val a =? 0).
Proof.
  intros [<- Ha]. induction Ha as [|x a Hx Ha IH]; [done|].
  cbn [IsNull forallb]. fold (IsNull a). rewrite IH, val_cons.
  pose proof (val_range (length a) a (conj eq_refl Ha)). wunfold.
  destruct (Z.eqb_spec x 0), (Z.eqb_spec (val a) 0), (Z.eqb_spec (x + 2 ^ 32 * val a) 0);
    simpl; done || lia.
Qed.

(** ** Shifts *)

(** Decide the [nat] comparisons of the goal, dropping impossible cases. *)
Ltac bool_cases :=
  repeat match goal with
  | H : context [(?x <=? ?y)%nat] |- _ => destruct (Nat.leb_spec x y); try lia; simpl in H
  | H : context [(?x <? ?y)%nat] |- _ => destruct (Nat.ltb_spec x y); try lia; simpl in H
  | |- context [(?x <=? ?y)%nat] => destruct (Nat.leb_spec x y); try lia; simpl
  | |- context [(?x <? ?y)%nat] => destruct (Nat.ltb_spec x y); try lia; simpl
  end; rewrite ?Z.lor_0_r, ?Z.lor_0_l; try done; try congruence.

Lemma nth_alter (f : Z -> Z) (l : list Z) i m :
  nth m (alter f i l) 0 =
  if decide (m = i /\ (i < length l)%nat) then f (nth m l 0) else nth m l 0.
Proof.
  rewrite !nth_lookup. rewrite list_lookup_alter.
  destruct (decide (i = m)) as [->|Hn].
  - destruct (decide (m < length l)%nat) as [Hlt|Hge].
    + destruct (lookup_lt_is_Some_2 l m Hlt) as [x ->]. simpl.
      by rewrite decide_True.
    + rewrite lookup_ge_None_2 by lia. rewrite decide_False; [done|lia].
  - rewrite decide_False; [done|]. intros [? _]; congruence.
Qed.

Lemma val_testbit W a i :
  wf W a -> 0 <= i ->
  Z.testbit (val a) i = Z.testbit (nth (Z.to_nat (i / 32)) a 0) (i mod 32).
Proof. intros [_ Ha] Hi. by apply pos_val_testbit; [lia| |]. Qed.

Section Shift.
Context (W : nat) (a : base_uint) (Ha : wf W a) (k : nat) (s : Z) (Hs : 0 <= s < 32).

(** Limb [m] of [a << (32 k + s)] once the loop has handled limbs below [n]. *)
Definition shl_limb (n m : nat) : Z :=
  Z.lor
    (if (k + 1 <=? m)%nat && (m - k - 1 <? n)%nat && negb (s =? 0)
     then Z.shiftr (nth (m - k - 1) a 0) (32 - s) else 0)
    (if (k <=? m)%nat && (m - k <? n)%nat then u32 (Z.shiftl (nth (m - k) a 0) s) else 0).

Lemma shl_loop n :
  length (foldl (shl_step W a k s) (zero W) (seq 0 n)) = W /\
  forall m, (m < W)%nat ->
    nth m (foldl (shl_step W a k s) (zero W) (seq 0 n)) 0 = shl_limb n m.
Proof.
  induction n as [|n [IHl IH]].
  - split; [apply length_replicate|]. intros m Hm. cbn [seq foldl]. unfold zero, shl_limb.
    rewrite nth_lookup, lookup_replicate_2 by done. bool_cases.
  - rewrite seq_S, foldl_app. cbn [foldl Nat.add].
    set (p := foldl _ _ _) in *. split.
    + unfold shl_step. repeat case_match; by rewrite ?length_alter.
    + intros m Hm. specialize (IH m Hm). revert IH. unfold shl_step, shl_limb.
      destruct (Z.eqb_spec s 0) as [Es|Es]; cbn [negb]; rewrite ?andb_false_r, ?andb_true_r;
        repeat case_match; rewrite ?nth_alter, ?length_alter, ?IHl; intros ->;
        repeat case_decide; bool_cases; repeat (f_equal; try lia).
Qed.

(** Limb [m] of [a >> (32 k + s)] once the loop has handled limbs below [n]. *)
Definition shr_limb (n m : nat) : Z :=
  Z.lor
    (if (m + k <? n)%nat then Z.shiftr (nth (m + k) a 0) s else 0)
    (if (m + k + 1 <? n)%nat && negb (s =? 0)
     then u32 (Z.shiftl (nth (m + k + 1) a 0) (32 - s)) else 0).

Lemma shr_loop n :
  (n <= W)%nat ->
  length (foldl (shr_step a k s) (zero W) (seq 0 n)) = W /\
  forall m, (m < W)%nat ->
    nth m (foldl (shr_step a k s) (zero W) (seq 0 n)) 0 = shr_limb n m.
Proof.
  induction n as [|n IH]; intros HnW.
  - split; [apply length_replicate|]. intros m Hm. cbn [seq foldl]. unfold zero, shr_limb.
    rewrite nth_lookup, lookup_replicate_2 by done. bool_cases.
  - destruct IH as [IHl IH]; [lia|]. rewrite seq_S, foldl_app. cbn [foldl Nat.add].
    set (p := foldl _ _ _) in *. split.
    + unfold shr_step. repeat case_match; by rewrite ?length_alter.
    + intros m Hm. specialize (IH m Hm). revert IH. unfold shr_step, shr_limb.
      destruct (Z.eqb_spec s 0) as [Es|Es]; cbn [negb]; rewrite ?andb_false_r, ?andb_true_r;
        repeat case_match; rewrite ?nth_alter, ?length_alter, ?IHl; intros ->;
        repeat case_decide; bool_cases; repeat (f_equal; try lia).
Qed.

Lemma shl_limb_word n m : word 32 (shl_limb n m).
Proof.
  unfold shl_limb. apply word_lor; [lia| |]; case_match; auto with words; try by wunfold.
  apply word_shiftr; [lia|lia|]. by eapply wf_nth.
Qed.

Lemma shr_limb_word n m : word 32 (shr_limb n m).
Proof.
  unfold shr_limb. apply word_lor; [lia| |]; case_match; auto with words; try by wunfold.
  apply word_shiftr; [lia|lia|]. by eapply wf_nth.
Qed.
End Shift.

Lemma words_of_nth W (l : list Z) (f : nat -> Z) :
  length l = W -> (forall m, (m < W)%nat -> nth m l 0 = f m) -> (forall m, word 32 (f m)) ->
  wf W l.
Proof.
  intros Hl Hn Hf. split; [done|]. apply Forall_forall. intros x Hx.
  apply list_elem_of_lookup in Hx as [m Hm].
  assert (nth m l 0 = x) as <- by (by apply nth_lookup_Some).
  rewrite Hn; [apply Hf|]. apply lookup_lt_Some in Hm. lia.
Qed.

Lemma wf_shl W a sh : wf W a -> wf W (shl W a sh).
Proof.
  intros Ha. assert (0 <= sh mod 32 < 32) by (apply Z.mod_pos_bound; lia).
  edestruct (shl_loop W a (Z.to_nat (sh / 32)) (sh mod 32) H W) as [Hl Hn].
  eapply words_of_nth; eauto. intros; by eapply shl_limb_word.
Qed.

Lemma wf_shr W a sh : wf W a -> wf W (shr W a sh).
Proof.
  intros Ha. assert (0 <= sh mod 32 < 32) by (apply Z.mod_pos_bound; lia).
  edestruct (shr_loop W a (Z.to_nat (sh / 32)) (sh mod 32) H W) as [Hl Hn]; [lia|].
  eapply words_of_nth; eauto. intros; by eapply shr_limb_word.
Qed.
#[export] Hint Resolve wf_shl wf_shr : u256.

Lemma u32_testbit x i : 0 <= i < 32 -> Z.testbit (u32 x) i = Z.testbit x i.
Proof. intros. unfold u32. by rewrite Z.mod_pow2_bits_low by lia. Qed.

(** Bits of the limbs, at any index. *)
Lemma val_bit_at W a m r :
  wf W a -> 0 <= r < 32 -> Z.testbit (val a) (32 * Z.of_nat m + r) = Z.testbit (nth m a 0) r.
Proof.
  intros Ha Hr. rewrite (val_testbit W) by (done || lia).
  replace (32 * Z.of_nat m + r) with (r + Z.of_nat m * 32) by lia.
  rewrite Z.div_add, Z.mod_add, Z.div_small, Z.mod_small by lia.
  by replace (Z.to_nat (0 + Z.of_nat m)) with m by lia.
Qed.

Lemma val_bits_above W a i : wf W a -> 32 * Z.of_nat W <= i -> Z.testbit (val a) i = false.
Proof.
  intros Ha Hi. apply (word_testbit_high (32 * Z.of_nat W)); [|lia]. by apply val_range.
Qed.

(** Equality of values, bit by bit in limb coordinates. *)
Lemma val_bits_eq W a z :
  wf W a -> 0 <= z -> (forall i, 32 * Z.of_nat W <= i -> Z.testbit z i = false) ->
  (forall m r, (m < W)%nat -> 0 <= r < 32 ->
     Z.testbit (nth m a 0) r = Z.testbit z (32 * Z.of_nat m + r)) ->
  val a = z.
Proof.
  intros Ha Hz Habove H. apply Z.bits_inj'. intros i Hi.
  destruct (Z.lt_ge_cases i (32 * Z.of_nat W)) as [Hlt|Hge].
  - rewrite (Z.div_mod i 32) by lia.
    replace (i / 32) with (Z.of_nat (Z.to_nat (i / 32))) by (rewrite Z2Nat.id; [done|dlia]).
    assert (0 <= i mod 32 < 32) by dlia.
    rewrite (val_bit_at W) by done. apply H; [|done].
    apply Nat2Z.inj_lt. rewrite Z2Nat.id by dlia. dlia.
  - by rewrite Habove, (val_bits_above W).
Qed.

Lemma shift_coords sh : 0 <= sh -> sh = 32 * Z.of_nat (Z.to_nat (sh / 32)) + sh mod 32.
Proof. intros. rewrite Z2Nat.id by dlia. dlia. Qed.

Theorem val_shl W a sh :
  wf W a -> 0 <= sh -> val (shl W a sh) = (val a * 2 ^ sh) mod modulus W.
Proof.
  intros Ha Hsh. set (k := Z.to_nat (sh / 32)). set (s := sh mod 32).
  assert (Hs : 0 <= s < 32) by (apply Z.mod_pos_bound; lia).
  assert (Esh : sh = 32 * Z.of_nat k + s) by (by apply shift_coords).
  destruct (shl_loop W a k s Hs W) as [Hl Hn].
  apply (val_bits_eq W); [by apply wf_shl|apply Z.mod_pos_bound, modulus_pos| |].
  { intros i Hi. apply Z.mod_pow2_bits_high. lia. }
  intros m r Hm Hr. unfold modulus. rewrite Z.mod_pow2_bits_low by lia.
  rewrite <- Z.shiftl_mul_pow2, Z.shiftl_spec by lia.
  unfold shl. fold k s. rewrite Hn by done. unfold shl_limb.
  rewrite Z.lor_spec.
  rewrite (proj2 (Nat.ltb_lt (m - k - 1) W)), (proj2 (Nat.ltb_lt (m - k) W)) by lia.
  rewrite !andb_true_r.
  assert (E1 : Z.testbit (if (k <=? m)%nat then u32 (Z.shiftl (nth (m - k) a 0) s) else 0) r =
               (k <=? m)%nat && (s <=? r) && Z.testbit (nth (m - k) a 0) (r - s)).
  { destruct (Nat.leb_spec k m); simpl; [|apply Z.bits_0].
    rewrite u32_testbit, Z.shiftl_spec by lia.
    destruct (Z.leb_spec s r); simpl; [done|]. apply Z.testbit_neg_r; lia. }
  rewrite E1. clear E1.
  assert (E2 : Z.testbit (if (k + 1 <=? m)%nat && negb (s =? 0)
                          then Z.shiftr (nth (m - k - 1) a 0) (32 - s) else 0) r =
               (k + 1 <=? m)%nat && (r <? s) && Z.testbit (nth (m - k - 1) a 0) (r - s + 32)).
  { destruct (Nat.leb_spec (k + 1) m); simpl; [|apply Z.bits_0].
    destruct (Z.eqb_spec s 0), (Z.ltb_spec r s); simpl; try lia; try apply Z.bits_0.
    - rewrite Z.shiftr_spec by lia. f_equal; lia.
    - rewrite Z.shiftr_spec by lia.
      apply (word_testbit_high 32); [by eapply wf_nth|lia]. }
  rewrite E2. clear E2.
  destruct (Z.leb_spec s r), (Z.ltb_spec r s); try lia.
  - rewrite andb_false_r, andb_true_r. simpl. destruct (Nat.leb_spec k m); simpl.
    + rewrite <- (val_bit_at W) by (done || lia). f_equal. lia.
    + symmetry. apply Z.testbit_neg_r. lia.
  - rewrite andb_false_r, andb_true_r. simpl. rewrite orb_false_r.
    destruct (Nat.leb_spec (k + 1) m); simpl.
    + rewrite <- (val_bit_at W) by (done || lia). f_equal. lia.
    + symmetry. apply Z.testbit_neg_r. lia.
Qed.

Theorem val_shr W a sh :
  wf W a -> 0 <= sh -> val (shr W a sh) = val a / 2 ^ sh.
Proof.
  intros Ha Hsh. set (k := Z.to_nat (sh / 32)). set (s := sh mod 32).
  assert (Hs : 0 <= s < 32) by (apply Z.mod_pos_bound; lia).
  assert (Esh : sh = 32 * Z.of_nat k + s) by (by apply shift_coords).
  destruct (shr_loop W a k s Hs W (le_n W)) as [Hl Hn].
  pose proof (val_range W a Ha) as Hv.
  rewrite <- Z.shiftr_div_pow2 by lia.
  apply (val_bits_eq W); [by apply wf_shr|apply Z.shiftr_nonneg; lia| |].
  { intros i Hi. rewrite Z.shiftr_spec by lia. apply (val_bits_above W); [done|lia]. }
  intros m r Hm Hr. rewrite Z.shiftr_spec by lia.
  unfold shr. fold k s. rewrite Hn by done. unfold shr_limb. rewrite Z.lor_spec.
  assert (E1 : Z.testbit (if (m + k <? W)%nat then Z.shiftr (nth (m + k) a 0) s else 0) r =
               (r + s <? 32) && Z.testbit (nth (m + k) a 0) (r + s)).
  { destruct (Z.ltb_spec (r + s) 32); simpl.
    - destruct (Nat.ltb_spec (m + k) W); simpl; [by rewrite Z.shiftr_spec by lia|].
      rewrite nth_overflow by (destruct Ha; lia). by rewrite !Z.bits_0.
    - destruct (Nat.ltb_spec (m + k) W); simpl; [|apply Z.bits_0].
      rewrite Z.shiftr_spec by lia. apply (word_testbit_high 32); [by eapply wf_nth|lia]. }
  rewrite E1. clear E1.
  assert (E2 : Z.testbit (if (m + k + 1 <? W)%nat && negb (s =? 0)
                          then u32 (Z.shiftl (nth (m + k + 1) a 0) (32 - s)) else 0) r =
               (32 <=? r + s) && Z.testbit (nth (m + k + 1) a 0) (r + s - 32)).
  { destruct (Z.leb_spec 32 (r + s)); simpl.
    - destruct (Nat.ltb_spec (m + k + 1) W); destruct (Z.eqb_spec s 0); simpl; try lia.
      + rewrite u32_testbit, Z.shiftl_spec by lia. f_equal; lia.
      + rewrite nth_overflow by (destruct Ha; lia). by rewrite !Z.bits_0.
    - destruct (Nat.ltb_spec (m + k + 1) W); destruct (Z.eqb_spec s 0); simpl;
        try apply Z.bits_0.
      rewrite u32_testbit, Z.shiftl_spec by lia. apply Z.testbit_neg_r; lia. }
  rewrite E2. clear E2.
  destruct (Z.ltb_spec (r + s) 32), (Z.leb_spec 32 (r + s)); try lia; simpl.
  - rewrite orb_false_r, <- (val_bit_at W) by (done || lia). f_equal; lia.
  - rewrite <- (val_bit_at W) by (done || lia). f_equal; lia.
Qed.

(** ** Bit length and division *)

Lemma limb_bits_spec x b : 0 < x < 2 ^ (Z.of_nat b + 1) -> limb_bits x b = Z.log2 x + 1.
Proof.
  induction b as [|b IH]; intros [H0 H]; cbn [limb_bits].
  - replace x with 1 by lia. done.
  - destruct (Z.testbit x (Z.of_nat (S b))) eqn:E.
    + rewrite (Z.log2_unique x (Z.of_nat (S b))); [done|lia|]. split; [|lia].
      destruct (Z.lt_ge_cases x (2 ^ Z.of_nat (S b))); [|done].
      rewrite (word_testbit_high (Z.of_nat (S b))) in E by (wunfold; lia). done.
    + apply IH. split; [done|].
      destruct (Z.lt_ge_cases x (2 ^ (Z.of_nat b + 1))) as [|Hge]; [done|].
      exfalso. rewrite (Z.log2_unique x (Z.of_nat (S b))) in *; try lia.
      assert (Z.log2 x = Z.of_nat (S b)) as El.
      { apply Z.log2_unique; [lia|]. rewrite Nat2Z.inj_succ in *.
        unfold Z.succ in *. split; [lia|]. lia. }
      rewrite <- El in E. rewrite Z.bit_log2 in E by lia. done.
Qed.

Definition bit_length (x : Z) : Z := if x =? 0 then 0 else Z.log2 x + 1.

Lemma bit_length_bounds x : 0 < x -> 2 ^ (bit_length x - 1) <= x < 2 ^ bit_length x.
Proof.
  intros Hx. unfold bit_length. rewrite (proj2 (Z.eqb_neq x 0)) by lia.
  replace (Z.log2 x + 1 - 1) with (Z.log2 x) by lia. by apply Z.log2_spec.
Qed.

Lemma bits_loop_spec ra : words 32 ra -> bits_loop ra = bit_length (val (rev ra)).
Proof.
  induction 1 as [|x ra Hx Ha IH]; [done|]. cbn [bits_loop rev]. rewrite val_snoc.
  destruct (Z.eqb_spec x 0) as [->|Hn]; [rewrite IH; f_equal; lia|].
  rewrite (limb_bits_spec x 31) by (wunfold; lia). rewrite length_rev.
  set (v := val (rev ra)).
  assert (0 <= v < modulus (length ra)) as Hv.
  { subst v. rewrite <- length_rev. apply val_range. split; [done|by apply Forall_rev]. }
  unfold bit_length. rewrite (proj2 (Z.eqb_neq _ 0)) by (wunfold; nia).
  rewrite Z.add_assoc. f_equal. symmetry. destruct Hx as [Hx0 Hx].
  assert (0 < x) as Hpos by lia.
  apply Z.log2_unique; [pose proof (Z.log2_nonneg x); lia|].
  pose proof (Z.log2_spec x Hpos) as [L1 L2].
  unfold Z.succ in *. unfold modulus in *.
  rewrite <- Z.add_assoc, !Z.pow_add_r by (pose proof (Z.log2_nonneg x); lia).
  rewrite Z.pow_add_r in L2 by (pose proof (Z.log2_nonneg x); lia).
  pose proof (pow2_pos (32 * Z.of_nat (length ra)) ltac:(lia)). nia.
Qed.

Lemma bits_spec W a : wf W a -> bits a = bit_length (val a).
Proof.
  intros [_ Ha]. unfold bits. rewrite bits_loop_spec by (by apply Forall_rev).
  by rewrite rev_involutive.
Qed.

Lemma bit_length_le x n : 0 <= n -> 0 <= x < 2 ^ n -> 0 <= bit_length x <= n.
Proof.
  intros Hn [H0 H]. unfold bit_length. destruct (Z.eqb_spec x 0); [lia|].
  pose proof (Z.log2_nonneg x). assert (Z.log2 x < n) by (apply Z.log2_lt_pow2; lia). lia.
Qed.

(** Setting one bit of the quotient. *)
Lemma set_bit_spec W q n :
  wf W q -> (n < 32 * W)%nat -> val q mod 2 ^ Z.of_nat (S n) = 0 ->
  let q' := alter (fun x => Z.lor x (Z.shiftl 1 (Z.land (Z.of_nat n) 31))) (n / 32)%nat q in
  wf W q' /\ val q' = val q + 2 ^ Z.of_nat n.
Proof.
  intros Hq Hn Hlow. cbn zeta.
  change 31 with (Z.ones 5). rewrite Z.land_ones by lia. change (2 ^ 5) with 32.
  set (r := Z.of_nat n mod 32). set (m := (n / 32)%nat).
  assert (Hr : 0 <= r < 32) by (apply Z.mod_pos_bound; lia).
  assert (Hm : (m < W)%nat) by (apply Nat.Div0.div_lt_upper_bound; lia).
  assert (En : Z.of_nat n = 32 * Z.of_nat m + r).
  { unfold r, m. rewrite Nat2Z.inj_div. dlia. }
  assert (Hbit : word 32 (Z.shiftl 1 r)).
  { rewrite Z.shiftl_1_l. split; [apply Z.pow_nonneg; lia|]. apply Z.pow_lt_mono_r; lia. }
  set (q' := alter _ m q). assert (Hq' : wf W q').
  { apply (words_of_nth W q'
      (fun i => if decide (i = m /\ (m < length q)%nat) then Z.lor (nth i q 0) (Z.shiftl 1 r)
                else nth i q 0)).
    - unfold q'. rewrite length_alter. apply Hq.
    - intros. unfold q'. by rewrite nth_alter.
    - intros i. case_decide; [apply word_lor; [lia| |done]|]; by eapply wf_nth. }
  split; [done|].
  assert (E : val q' = Z.lor (val q) (2 ^ Z.of_nat n)).
  { apply (val_bits_eq W); [done| | |].
    - apply Z.lor_nonneg. split; [by apply (val_range W)|apply Z.pow_nonneg; lia].
    - intros i Hi. rewrite Z.lor_spec, (val_bits_above W), Z.pow2_bits_false by (done || lia).
      done.
    - intros i j Hi Hj. unfold q'. rewrite nth_alter, Z.lor_spec, (val_bit_at W) by done.
      rewrite En. destruct Hq as [Hlq _]. case_decide as Hd.
      + destruct Hd as [-> _]. rewrite Z.lor_spec, Z.shiftl_1_l. f_equal.
        rewrite !Z.pow2_bits_eqb by lia.
        destruct (Z.eqb_spec r j), (Z.eqb_spec (32 * Z.of_nat m + r) (32 * Z.of_nat m + j)); lia || done.
      + rewrite Z.pow2_bits_false, orb_false_r; [done|]. lia. }
  rewrite E, Z.lor_comm. apply Z.div_exact in Hlow; [|apply Z.pow_nonzero; lia].
  rewrite Hlow, (Z.mul_comm (2 ^ _)), lor_add_disjoint; [lia|lia|].
  split; [apply Z.pow_nonneg; lia|apply Z.pow_lt_mono_r; lia].
Qed.

Lemma pow2_S n : 2 ^ Z.of_nat (S n) = 2 * 2 ^ Z.of_nat n.
Proof. rewrite Nat2Z.inj_succ, Z.pow_succ_r by lia. done. Qed.

Lemma div_loop_spec W B n num dv q :
  wf W num -> wf W dv -> wf W q -> 0 < B -> (n <= 32 * W)%nat ->
  (n = O \/ 2 * val dv = B * 2 ^ Z.of_nat n) ->
  val num < B * 2 ^ Z.of_nat n -> val q mod 2 ^ Z.of_nat n = 0 ->
  wf W (div_loop W n num dv q) /\
  val (div_loop W n num dv q) = val q + val num / B.
Proof.
  revert num dv q. induction n as [|n IH]; intros num dv q Hnum Hdv Hq HB Hn Edv Hlt Hlow;
    pose proof (val_range _ _ Hnum) as Rn; cbn [div_loop].
  - change (2 ^ Z.of_nat 0) with 1 in Hlt. rewrite Z.div_small by lia. split; [done|lia].
  - destruct Edv as [|Edv]; [lia|]. rewrite pow2_S in *.
    assert (Edv' : val dv = B * 2 ^ Z.of_nat n) by lia.
    rewrite (ge_spec W) by done.
    assert (Ehalf : n = O \/ 2 * val (shr W dv 1) = B * 2 ^ Z.of_nat n).
    { destruct n as [|n']; [by left|right]. rewrite (val_shr W), Edv', pow2_S by (done || lia).
      change (2 ^ 1) with 2. replace (B * (2 * 2 ^ Z.of_nat n')) with (B * 2 ^ Z.of_nat n' * 2) by lia.
      rewrite Z.div_mul by lia. lia. }
    pose proof (pow2_pos (Z.of_nat n) ltac:(lia)) as Hp.
    assert (Hlow' : val q mod 2 ^ Z.of_nat n = 0).
    { apply Z.mod_divide in Hlow; [|lia]. apply Z.mod_divide; [lia|].
      destruct Hlow as [t ->]. exists (t * 2). lia. }
    destruct (Z.leb_spec (val dv) (val num)) as [Hge|Hge].
    + destruct (set_bit_spec W q n Hq ltac:(lia)) as [Hq' Eq']; [by rewrite pow2_S|].
      assert (Esub : val (sub num dv) = val num - val dv).
      { rewrite (val_sub W) by done. pose proof (val_range _ _ Hdv). apply Z.mod_small. lia. }
      destruct (IH (sub num dv) (shr W dv 1) _ (wf_sub W _ _ Hnum Hdv) (wf_shr W _ 1 Hdv) Hq')
        as [Hw Ev]; [done|lia|done|lia| |].
      { rewrite Eq'. replace (val q + _) with (val q + 1 * 2 ^ Z.of_nat n) by lia.
        by rewrite Z.mod_add by lia. }
      split; [done|]. rewrite Ev, Eq', Esub, Edv'.
      replace (val num - B * 2 ^ Z.of_nat n) with (val num + (- 2 ^ Z.of_nat n) * B) by lia.
      rewrite Z.div_add by lia. lia.
    + destruct (IH num (shr W dv 1) q Hnum (wf_shr W _ 1 Hdv) Hq) as [Hw Ev]; auto; lia.
Qed.

(** Schoolbook division computes the quotient, and fails exactly on zero. *)
Lemma div_spec W a b :
  wf W a -> wf W b ->
  div W a b = None /\ val b = 0 \/
  exists q, div W a b = Some q /\ wf W q /\ val b <> 0 /\ val q = val a / val b.
Proof.
  intros Ha Hb. unfold div. rewrite !(bits_spec W) by done.
  pose proof (val_range _ _ Ha) as Ra. pose proof (val_range _ _ Hb) as Rb.
  destruct (Z.eqb_spec (bit_length (val b)) 0) as [E0|E0].
  { left. split; [done|]. unfold bit_length in E0. case_match; [lia|].
    pose proof (Z.log2_nonneg (val b)). lia. }
  right. assert (Hb0 : 0 < val b).
  { destruct (Z.eq_dec (val b) 0) as [E|]; [|lia]. by rewrite E in E0. }
  pose proof (bit_length_bounds _ Hb0) as Bb.
  pose proof (bit_length_le (val a) (32 * Z.of_nat W) ltac:(lia) Ra) as La.
  pose proof (bit_length_le (val b) (32 * Z.of_nat W) ltac:(lia) Rb) as Lb.
  destruct (Z.ltb_spec (bit_length (val a)) (bit_length (val b))) as [Hlt|Hge].
  - exists (zero W). split_and!; [done|apply wf_zero|lia|]. rewrite val_zero, Z.div_small; [done|].
    split; [lia|]. destruct (Z.eq_dec (val a) 0); [lia|].
    pose proof (bit_length_bounds (val a) ltac:(lia)).
    pose proof (Z.pow_le_mono_r 2 (bit_length (val a)) (bit_length (val b) - 1)). lia.
  - set (sh := bit_length (val a) - bit_length (val b)) in *.
    assert (Hsh : val b * 2 ^ sh < modulus W).
    { apply Z.lt_le_trans with (2 ^ bit_length (val b) * 2 ^ sh).
      - apply Z.mul_lt_mono_pos_r; [apply pow2_pos|]; lia.
      - rewrite <- Z.pow_add_r by lia. apply Z.pow_le_mono_r; lia. }
    assert (Ed : val (shl W b sh) = val b * 2 ^ sh).
    { rewrite (val_shl W) by (done || lia). apply Z.mod_small. nia. }
    destruct (div_loop_spec W (val b) (Z.to_nat (sh + 1)) a (shl W b sh) (zero W))
      as [Hw Ev]; auto with u256.
    + lia.
    + right. rewrite Ed, Z2Nat.id, Z.pow_add_r by lia. lia.
    + rewrite Z2Nat.id by lia. destruct (Z.eq_dec (val a) 0) as [->|].
      { pose proof (pow2_pos (sh + 1)). nia. }
      pose proof (bit_length_bounds (val a) ltac:(lia)) as [_ Ba].
      eapply Z.lt_le_trans; [exact Ba|].
      apply Z.le_trans with (2 ^ (bit_length (val b) - 1) * 2 ^ (sh + 1)).
      * rewrite <- Z.pow_add_r by lia. apply Z.pow_le_mono_r; lia.
      * apply Z.mul_le_mono_nonneg_r; [apply Z.pow_nonneg|]; lia.
    + by rewrite val_zero.
    + eexists. split_and!; [done|done|lia|]. rewrite Ev, val_zero. lia.
Qed.

(** [EqualTo] compares with a 64-bit number. *)
Lemma EqualTo_spec W a b : (2 <= W)%nat -> wf W a -> word 64 b -> EqualTo a b = (val a =? b).
Proof.
  intros HW [Hl Ha] Hb. destruct a as [|x [|y a]]; cbn [length] in Hl; try lia.
  unfold EqualTo. cbn [nth]. change (drop 2 (x :: y :: a)) with a.
  pose proof (Forall_inv Ha) as Hx. pose proof (Forall_inv (Forall_inv_tail Ha)) as Hy.
  pose proof (Forall_inv_tail (Forall_inv_tail Ha)) as Hr.
  change (forallb (fun z => z =? 0) a) with (IsNull a).
  rewrite (IsNull_spec (length a)) by done. rewrite !val_cons.
  pose proof (val_range (length a) a (conj eq_refl Hr)) as Rv.
  change (2 ^ 32 - 1) with (Z.ones 32).
  rewrite Z.land_ones, Z.shiftr_div_pow2 by lia. wunfold.
  pose proof (Z.div_mod b (2 ^ 32) ltac:(lia)). pose proof (Z.mod_pos_bound b (2 ^ 32) ltac:(lia)).
  change (2 ^ 64) with (2 ^ 32 * 2 ^ 32) in Hb.
  assert (b / 2 ^ 32 < 2 ^ 32) by (apply Z.div_lt_upper_bound; lia).
  generalize dependent (b / 2 ^ 32). generalize dependent (b mod 2 ^ 32). intros r Hr' q Eb Hq.
  clear Ha Hr. generalize dependent (val a). intros v Rv.
  assert (0 <= v) by apply Rv. clear Rv.
  destruct (Z.eqb_spec v 0), (Z.eqb_spec y q), (Z.eqb_spec x r),
    (Z.eqb_spec (x + 2 ^ 32 * (y + 2 ^ 32 * v)) b); cbn [andb]; try done; exfalso; nia.
Qed.

(** * The properties *)

(** On well-formed operands of any width the limb-level operators [+=], [-=],
    [*=], [*= uint32_t], unary minus and [~] keep the representation and compute
    the sum, difference, product, negation and complement modulo
    [2 ^ (32 * WIDTH)]. *)
Theorem operators_modular W a b k :
  wf W a -> wf W b -> word 32 k ->
  let M := 2 ^ (32 * Z.of_nat W) in
  (wf W (add a b) /\ val (add a b) = (val a + val b) mod M) /\
  (wf W (sub a b) /\ val (sub a b) = (val a - val b) mod M) /\
  (wf W (mul W a b) /\ val (mul W a b) = (val a * val b) mod M) /\
  (wf W (mul32 a k) /\ val (mul32 a k) = (val a * k) mod M) /\
  (wf W (bneg a) /\ val (bneg a) = (- val a) mod M) /\
  (wf W (bnot a) /\ val (bnot a) = M - 1 - val a).
Proof.
  intros Ha Hb Hk. cbn zeta. fold (modulus W).
  split_and!; auto using wf_add, wf_sub, wf_mul, wf_mul32, wf_bneg, wf_bnot,
    val_add, val_sub, val_mul, val_mul32, val_bneg, val_bnot.
Qed.

Lemma operators_modular_witness :
  val (mul 2 [5; 1] [0; 3]) = 5 * (3 * 2 ^ 32) + 2 ^ 32 * 3 * 2 ^ 32 - 3 * 2 ^ 64 /\
  val (sub [0; 0] [1; 0]) = (0 - 1) mod 2 ^ (32 * Z.of_nat 2).
Proof.
  split; [vm_compute; reflexivity|].
  exact (proj2 (proj1 (proj2 (operators_modular 2 [0; 0] [1; 0] 7
    ltac:(split; [reflexivity|repeat constructor; vm_compute; congruence])
    ltac:(split; [reflexivity|repeat constructor; vm_compute; congruence])
    ltac:(split; vm_compute; congruence))))).
Defined.

(** The shift operators, for every non-negative amount (a whole number of
    limbs and amounts beyond the width included), are multiplication by a power
    of two modulo [2 ^ (32 * WIDTH)] and the floor of the division by it. *)
Theorem shifts_correct W a sh :
  wf W a -> 0 <= sh ->
  (wf W (shl W a sh) /\ val (shl W a sh) = (val a * 2 ^ sh) mod 2 ^ (32 * Z.of_nat W)) /\
  (wf W (shr W a sh) /\ val (shr W a sh) = val a / 2 ^ sh).
Proof. intros Ha Hsh. fold (modulus W). split_and!; auto using wf_shl, wf_shr, val_shl, val_shr. Qed.

Lemma shifts_correct_witness :
  shl 2 [3; 1] 33 = [0; 6] /\ val (shr 2 [3; 1] 33) = val [3; 1] / 2 ^ 33.
Proof.
  split; [vm_compute; reflexivity|].
  exact (proj2 (proj2 (shifts_correct 2 [3; 1] 33
    ltac:(split; [reflexivity|repeat constructor; vm_compute; congruence]) ltac:(lia)))).
Defined.

(** Comparison from the top limb down is comparison of the values, for
    [CompareTo] and for each of the relational operators. *)
Theorem comparison_correct W a b :
  wf W a -> wf W b ->
  CompareTo a b = (if val a <? val b then -1 else if val b <? val a then 1 else 0) /\
  lt a b = (val a <? val b) /\ le a b = (val a <=? val b) /\
  gt a b = (val b <? val a) /\ ge a b = (val b <=? val a) /\
  eq a b = (val a =? val b) /\ IsNull a = (val a =? 0).
Proof.
  intros Ha Hb. split_and!; eauto using CompareTo_spec, lt_spec, le_spec, gt_spec, ge_spec,
    eq_spec, IsNull_spec.
Qed.

Lemma comparison_correct_witness :
  CompareTo [7; 1] [2; 3] = -1 /\ lt [7; 1] [2; 3] = (val [7; 1] <? val [2; 3]).
Proof.
  split; [vm_compute; reflexivity|].
  exact (proj1 (proj2 (comparison_correct 2 [7; 1] [2; 3]
    ltac:(split; [reflexivity|repeat constructor; vm_compute; congruence])
    ltac:(split; [reflexivity|repeat constructor; vm_compute; congruence])))).
Defined.

(** The shift-and-subtract division [/=] throws exactly when the divisor is
    zero and otherwise returns the well-formed floor of the quotient; [bits] is the
    length of the binary representation. *)
Theorem division_correct W a b :
  wf W a -> wf W b ->
  (div W a b = None <-> val b = 0) /\
  (val b <> 0 -> exists q, div W a b = Some q /\ wf W q /\ val q = val a / val b) /\
  bits a = (if val a =? 0 then 0 else Z.log2 (val a) + 1).
Proof.
  intros Ha Hb. rewrite (bits_spec W a Ha).
  destruct (div_spec W a b Ha Hb) as [[-> Eb]|(q & -> & Hq & Eb & Ev)].
  - split_and!; [done|done|done].
  - split_and!; [done|by exists q|done].
Qed.

Lemma division_correct_witness :
  div 2 [0; 10] [3; 0] = Some [1431655765; 3] /\
  (div 2 [0; 10] [3; 0] = None <-> val [3; 0] = 0) /\
  exists q, div 2 [0; 10] [3; 0] = Some q /\ wf 2 q /\ val q = val [0; 10] / val [3; 0].
Proof.
  pose proof (division_correct 2 [0; 10] [3; 0]
    ltac:(split; [reflexivity|repeat constructor; vm_compute; congruence])
    ltac:(split; [reflexivity|repeat constructor; vm_compute; congruence])) as (H1 & H2 & _).
  split; [vm_compute; reflexivity|]. split; [exact H1|]. apply H2. vm_compute. congruence.
Defined.
