(* ===== verification/Arith256.v ===== *)
(** The class [uint256] of uint256.h/uint256.cpp: the compact encoding of
    difficulty targets, the byte layout and the hexadecimal text form, over
    the limb arithmetic of [Uint256]. *)

From S2P Require Import Prelude Uint256.

Abbreviation uint256 := (list Z) (only parsing).

(** The 256-bit instances of the template. *)
Definition W256 : nat := 8.
Abbreviation wf256 := (wf W256).
Definition u256 (n : Z) : uint256 := of_u64 W256 n.

(** * The compact format *)

(** [SetCompact]: the number with the out-parameters [*pfNegative] and
    [*pfOverflow]. *)
Definition SetCompact (nCompact : Z) : uint256 * bool * bool :=
  let nSize := Z.shiftr nCompact 24 in
  let nWord := Z.land nCompact 0x007fffff in
  let '(v, nWord) :=
    if nSize <=? 3 then
      let nWord := Z.shiftr nWord (8 * (3 - nSize)) in (u256 nWord, nWord)
    else (shl W256 (u256 nWord) (8 * (nSize - 3)), nWord) in
  (v,
   negb (nWord =? 0) && negb (Z.land nCompact 0x00800000 =? 0),
   negb (nWord =? 0) &&
     ((34 <? nSize) || ((0xff <? nWord) && (33 <? nSize))
      || ((0xffff <? nWord) && (32 <? nSize)))).

(** The number alone, for the callers that pass no flags. *)
Definition FromCompact (nCompact : Z) : uint256 := (SetCompact nCompact).1.1.

(** The end of [GetCompact]: the two assertions ([None] when one fails), the
    exponent and the sign bit. *)
Definition pack_compact (nCompact nSize : Z) (fNegative : bool) : option Z :=
  if (Z.land nCompact (2 ^ 32 - 1 - 0x007fffff) =? 0) && (nSize <? 256) then
    let nCompact := Z.lor nCompact (u32 (Z.shiftl nSize 24)) in
    Some (Z.lor nCompact
      (if fNegative && negb (Z.land nCompact 0x007fffff =? 0) then 0x00800000 else 0))
  else None.

Definition GetCompact (a : uint256) (fNegative : bool) : option Z :=
  let nSize := (bits a + 7) / 8 in
  let nCompact :=
    if nSize <=? 3 then u32 (u64 (Z.shiftl (GetLow64 a) (8 * (3 - nSize))))
    else u32 (GetLow64 (shr W256 a (8 * (nSize - 3)))) in
  let '(nCompact, nSize) :=
    if negb (Z.land nCompact 0x00800000 =? 0)
    then (Z.shiftr nCompact 8, nSize + 1) else (nCompact, nSize) in
  pack_compact nCompact nSize fNegative.

(** * Hexadecimal text

    Characters are their codes. *)

(** [p_util_hexdigit] of utilstrencodings.cpp. *)
Definition p_util_hexdigit : list Z :=
  replicate 48 (-1) ++ [0; 1; 2; 3; 4; 5; 6; 7; 8; 9] ++ replicate 6 (-1) ++
  [-1; 10; 11; 12; 13; 14; 15] ++ replicate 25 (-1) ++
  [-1; 10; 11; 12; 13; 14; 15] ++ replicate 153 (-1).

Definition HexDigit (c : Z) : Z := nth (Z.to_nat c) p_util_hexdigit (-1).

(** A lower-case digit of [sprintf]'s [%02x]. *)
Definition hex_char (d : Z) : Z := if d <? 10 then 48 + d else 87 + d.
Definition hex_byte (b : Z) : list Z := [hex_char (Z.shiftr b 4); hex_char (Z.land b 15)].

Definition GetHex (a : uint256) : list Z := rev (to_bytes a) ≫= hex_byte.

Definition is_space (c : Z) : bool := (c =? 32) || ((9 <=? c) && (c <=? 13)).

Fixpoint drop_while (p : Z -> bool) (s : list Z) : list Z :=
  match s with
  | [] => []
  | c :: s' => if p c then drop_while p s' else s
  end.

Fixpoint take_while (p : Z -> bool) (s : list Z) : list Z :=
  match s with
  | [] => []
  | c :: s' => if p c then c :: take_while p s' else []
  end.

(** The loop [while (psz >= pbegin && p1 < pend)]: [n] bytes left to fill,
    [ds] the digits still to read, last one first. *)
Fixpoint hex_fill (n : nat) (ds : list Z) : byte_list :=
  match n, ds with
  | O, _ => []
  | S n', [] => replicate (S n') 0
  | S n', [d] => HexDigit d :: replicate n' 0
  | S n', d :: h :: ds' =>
      Z.lor (HexDigit d) (u8 (Z.shiftl (HexDigit h) 4)) :: hex_fill n' ds'
  end.

(** [SetHex(const char* psz)]: leading spaces and an optional [0x] are
    skipped, then the longest run of hexadecimal digits is read. *)
Definition SetHex (psz : list Z) : uint256 :=
  let psz := drop_while is_space psz in
  let psz :=
    match psz with
    | c0 :: c1 :: psz' => if (c0 =? 48) && ((c1 =? 120) || (c1 =? 88)) then psz' else psz
    | _ => psz
    end in
  let ds := take_while (fun c => negb (HexDigit c =? -1)) psz in
  limbs_of_bytes W256 (hex_fill (W256 * 4) (rev ds)).

(** * Values *)

Lemma val_of_u64 W b : (2 <= W)%nat -> word 64 b -> wf W (of_u64 W b) /\ val (of_u64 W b) = b.
Proof.
  intros HW [H0 H]. destruct W as [|[|W]]; try lia. unfold of_u64.
  cbn [take]. replace (S (S W) - 2)%nat with W by lia.
  rewrite take_ge by (rewrite length_replicate; lia). split.
  - split; [simpl; by rewrite length_replicate|].
    repeat constructor; auto with words; try (apply Z.mod_pos_bound; lia).
    apply words_replicate. by wunfold.
  - rewrite !val_cons. change (replicate W 0) with (zero W). rewrite val_zero.
    unfold u32. rewrite Z.shiftr_div_pow2 by lia.
    rewrite (Z.mod_small (b / 2 ^ 32)) by dlia. dlia.
Qed.

Lemma wf_u256 n : word 64 n -> wf256 (u256 n).
Proof. intros. by apply val_of_u64; [unfold W256; lia|]. Qed.

Lemma val_u256 n : word 64 n -> val (u256 n) = n.
Proof. intros. by apply val_of_u64; [unfold W256; lia|]. Qed.
#[export] Hint Resolve wf_u256 : u256.

Lemma GetLow64_spec W a : (2 <= W)%nat -> wf W a -> GetLow64 a = val a mod 2 ^ 64.
Proof.
  intros HW [Hl Ha]. destruct a as [|x [|y a]]; simpl in Hl; try lia.
  inversion Ha as [|? ? Hx Ha']; subst. inversion Ha' as [|? ? Hy Ha'']; subst.
  unfold GetLow64. cbn [nth]. rewrite Z.shiftl_mul_pow2, lor_add_disjoint by (done || lia).
  rewrite !val_cons. apply Z.mod_unique_pos with (val a); wunfold; lia.
Qed.

Lemma GetLow64_256 a : wf256 a -> GetLow64 a = val a mod 2 ^ 64.
Proof. apply GetLow64_spec. unfold W256. lia. Qed.

(** The number a compact word stands for: mantissa times a power of 256,
    rounded down. *)
Definition compact_value (c : Z) : Z :=
  let m := Z.land c 0x007fffff in
  let s := Z.shiftr c 24 in
  if s <=? 3 then m / 2 ^ (8 * (3 - s)) else m * 2 ^ (8 * (s - 3)).

Lemma compact_mantissa c : 0 <= c -> 0 <= Z.land c 0x007fffff < 2 ^ 23.
Proof.
  intros. change 0x007fffff with (2 ^ 23 - 1). rewrite land_ones_mod by lia.
  apply Z.mod_pos_bound; lia.
Qed.

Lemma compact_size c : word 32 c -> 0 <= Z.shiftr c 24 < 256.
Proof. intros []. rewrite Z.shiftr_div_pow2 by lia. dlia. Qed.

Lemma FromCompact_spec c :
  word 32 c -> wf256 (FromCompact c) /\ val (FromCompact c) = compact_value c mod 2 ^ 256.
Proof.
  intros Hc. pose proof (compact_mantissa c ltac:(by destruct Hc)) as Hm.
  pose proof (compact_size c Hc) as Hs. unfold FromCompact, SetCompact, compact_value.
  destruct (Z.leb_spec (Z.shiftr c 24) 3); cbn [fst].
  - rewrite Z.shiftr_div_pow2 by lia.
    assert (0 <= Z.land c 8388607 / 2 ^ (8 * (3 - Z.shiftr c 24)) < 2 ^ 23).
    { pose proof (pow2_pos (8 * (3 - Z.shiftr c 24)) ltac:(lia)).
      split; [apply Z.div_pos; lia|]. apply Z.div_lt_upper_bound; [lia|]. nia. }
    split; [apply wf_u256; wunfold; lia|]. rewrite val_u256 by (wunfold; lia).
    symmetry. apply Z.mod_small. lia.
  - assert (word 64 (Z.land c 8388607)) by (wunfold; lia).
    split; [by apply wf_shl, wf_u256|].
    rewrite (val_shl W256) by (by apply wf_u256 || lia). by rewrite val_u256.
Qed.

Lemma SetCompact_overflow c : word 32 c -> (SetCompact c).2 = (2 ^ 256 <=? compact_value c).
Proof.
  intros Hc. pose proof (compact_mantissa c ltac:(by destruct Hc)) as Hm.
  pose proof (compact_size c Hc) as Hs. unfold SetCompact, compact_value.
  set (m := Z.land c 8388607) in *. set (s := Z.shiftr c 24) in *.
  destruct (Z.leb_spec s 3); cbn [snd].
  - rewrite !(proj2 (Z.ltb_ge _ s)), !andb_false_r by lia. symmetry. apply Z.leb_gt.
    pose proof (pow2_pos (8 * (3 - s)) ltac:(lia)).
    apply Z.div_lt_upper_bound; [lia|]. nia.
  - assert (Hbig : forall k, 0 <= k -> 32 - k <= s - 3 -> 256 ^ k <= m ->
                   2 ^ 256 <= m * 2 ^ (8 * (s - 3))).
    { intros k Hk Hle Hmk. change 256 with (2 ^ 8) in Hmk. rewrite <- Z.pow_mul_r in Hmk by lia.
      apply Z.le_trans with (2 ^ (8 * k) * 2 ^ (8 * (s - 3))).
      - rewrite <- Z.pow_add_r by lia. apply Z.pow_le_mono_r; lia.
      - apply Z.mul_le_mono_nonneg_r; [apply Z.pow_nonneg|]; lia. }
    assert (Hsmall : forall k, 0 <= k -> s - 3 <= 32 - k -> m < 256 ^ k ->
                   m * 2 ^ (8 * (s - 3)) < 2 ^ 256).
    { intros k Hk Hle Hmk. change 256 with (2 ^ 8) in Hmk. rewrite <- Z.pow_mul_r in Hmk by lia.
      apply Z.lt_le_trans with (2 ^ (8 * k) * 2 ^ (8 * (s - 3))).
      - apply Z.mul_lt_mono_pos_r; [apply pow2_pos|]; lia.
      - rewrite <- Z.pow_add_r by lia. apply Z.pow_le_mono_r; lia. }
    destruct (Z.eqb_spec m 0) as [Em|Em]; cbn [negb andb].
    { rewrite Em, Z.mul_0_l. done. }
    destruct (Z.ltb_spec 34 s); cbn [orb andb].
    { symmetry. apply Z.leb_le. apply (Hbig 0); lia. }
    destruct (Z.ltb_spec 255 m), (Z.ltb_spec 33 s), (Z.ltb_spec 65535 m), (Z.ltb_spec 32 s);
      cbn [orb andb]; symmetry;
      first
        [ exfalso; clear Hbig Hsmall; lia
        | apply Z.leb_le; first [apply (Hbig 1); lia | apply (Hbig 2); lia]
        | apply Z.leb_gt;
          first [apply (Hsmall 3); lia | apply (Hsmall 2); lia | apply (Hsmall 1); lia] ].
Qed.

(** Number of bytes of a value, the exponent of the compact form. *)
Definition byte_length (x : Z) : Z := (bit_length x + 7) / 8.

Lemma byte_length_bounds x : 0 < x -> 2 ^ (8 * (byte_length x - 1)) <= x < 2 ^ (8 * byte_length x).
Proof.
  intros Hx. pose proof (bit_length_bounds x Hx) as [B1 B2]. unfold byte_length.
  assert (0 < bit_length x).
  { unfold bit_length. case_match; [lia|]. pose proof (Z.log2_nonneg x). lia. }
  split.
  - eapply Z.le_trans; [|exact B1]. apply Z.pow_le_mono_r; [lia|]. dlia.
  - eapply Z.lt_le_trans; [exact B2|]. apply Z.pow_le_mono_r; [lia|]. dlia.
Qed.

(** [x] with everything below its top mantissa bytes cleared. *)
Definition truncate_to (x k : Z) : Z := x / 2 ^ k * 2 ^ k.

Lemma compact_pack m s :
  0 <= m < 2 ^ 23 -> 0 <= s < 256 ->
  let c := Z.lor m (u32 (Z.shiftl s 24)) in
  word 32 c /\ Z.land c 0x007fffff = m /\ Z.shiftr c 24 = s /\
  Z.land c 0x00800000 = 0.
Proof.
  intros Hm Hs c.
  assert (Ec : c = m + s * 2 ^ 24).
  { unfold c. rewrite Z.shiftl_mul_pow2 by lia. rewrite u32_small by (wunfold; lia).
    apply lor_add_disjoint; [lia|wunfold; lia]. }
  split; [rewrite Ec; wunfold; lia|]. split_and!.
  - change 0x007fffff with (2 ^ 23 - 1). rewrite land_ones_mod, Ec by lia.
    replace (m + s * 2 ^ 24) with (m + (2 * s) * 2 ^ 23) by lia.
    rewrite Z.mod_add, Z.mod_small by lia. done.
  - rewrite Z.shiftr_div_pow2, Ec, Z.div_add, Z.div_small by lia. lia.
  - apply Z.bits_inj'. intros i Hi. rewrite Z.land_spec, Z.bits_0.
    change 8388608 with (2 ^ 23). rewrite Z.pow2_bits_eqb by lia.
    destruct (Z.eqb_spec 23 i) as [<-|]; [|apply andb_false_r].
    rewrite andb_true_r. unfold c. rewrite Z.lor_spec, u32_testbit, Z.shiftl_spec by lia.
    rewrite (word_testbit_high 23 m), Z.testbit_neg_r by (wunfold; lia). done.
Qed.

Lemma bit23_spec n : word 24 n -> negb (Z.land n 0x00800000 =? 0) = (2 ^ 23 <=? n).
Proof.
  intros Hn. change 8388608 with (2 ^ 23).
  assert (E : Z.land n (2 ^ 23) = if Z.testbit n 23 then 2 ^ 23 else 0).
  { apply Z.bits_inj'. intros i Hi. rewrite Z.land_spec, Z.pow2_bits_eqb by lia.
    destruct (Z.eqb_spec 23 i) as [<-|].
    - destruct (Z.testbit n 23); [by rewrite Z.pow2_bits_true|by rewrite Z.bits_0].
    - rewrite andb_false_r. destruct (Z.testbit n 23); [|by rewrite Z.bits_0].
      by rewrite Z.pow2_bits_false. }
  rewrite E. destruct (Z.testbit n 23) eqn:Et; simpl.
  - symmetry. apply Z.leb_le. destruct (Z.lt_ge_cases n (2 ^ 23)); [|done].
    rewrite (word_testbit_high 23) in Et by (wunfold; lia). done.
  - symmetry. apply Z.leb_gt. rewrite Z.testbit_false in Et by lia. wunfold. dlia.
Qed.

(** The 24-bit word and exponent [GetCompact] starts from. *)
Definition top_word (x : Z) : Z :=
  let n := byte_length x in
  if n <=? 3 then x * 2 ^ (8 * (3 - n)) else x / 2 ^ (8 * (n - 3)).

Lemma byte_length_range x : 0 <= x < 2 ^ 256 -> 0 <= byte_length x <= 32.
Proof.
  intros H. pose proof (bit_length_le x 256 ltac:(lia) H). unfold byte_length. dlia.
Qed.

Lemma top_word_bounds x : 0 < x < 2 ^ 256 -> 2 ^ 16 <= top_word x < 2 ^ 24.
Proof.
  intros [Hx Hx']. pose proof (byte_length_bounds x Hx) as [B1 B2].
  pose proof (byte_length_range x ltac:(lia)) as [Hn _]. unfold top_word.
  set (n := byte_length x) in *.
  assert (1 <= n) by (destruct (Z.eq_dec n 0) as [E|]; [rewrite E in B2; simpl in B2; lia|lia]).
  destruct (Z.leb_spec n 3).
  - pose proof (pow2_pos (8 * (3 - n)) ltac:(lia)) as Hp. split.
    + replace (2 ^ 16) with (2 ^ (8 * (n - 1)) * 2 ^ (8 * (3 - n)))
        by (rewrite <- Z.pow_add_r by lia; f_equal; lia). nia.
    + replace (2 ^ 24) with (2 ^ (8 * n) * 2 ^ (8 * (3 - n)))
        by (rewrite <- Z.pow_add_r by lia; f_equal; lia). nia.
  - pose proof (pow2_pos (8 * (n - 3)) ltac:(lia)) as Hp. split.
    + apply Z.div_le_lower_bound; [lia|]. rewrite <- Z.pow_add_r by lia.
      eapply Z.le_trans; [|exact B1]. apply Z.pow_le_mono_r; lia.
    + apply Z.div_lt_upper_bound; [lia|]. rewrite <- Z.pow_add_r by lia.
      eapply Z.lt_le_trans; [exact B2|]. apply Z.pow_le_mono_r; lia.
Qed.

Lemma GetCompact_top a :
  wf256 a ->
  (if (bits a + 7) / 8 <=? 3
   then u32 (u64 (Z.shiftl (GetLow64 a) (8 * (3 - (bits a + 7) / 8))))
   else u32 (GetLow64 (shr W256 a (8 * ((bits a + 7) / 8 - 3))))) = top_word (val a).
Proof.
  intros Ha. pose proof (val_range _ _ Ha) as R. change (modulus W256) with (2 ^ 256) in R.
  rewrite (bits_spec W256) by done. fold (byte_length (val a)).
  assert (T : word 24 (top_word (val a))).
  { destruct (Z.eq_dec (val a) 0) as [->|]; [done|].
    pose proof (top_word_bounds (val a) ltac:(lia)). wunfold; lia. }
  assert (Hn : 0 <= byte_length (val a)) by (apply byte_length_range; done).
  unfold top_word in *. destruct (Z.leb_spec (byte_length (val a)) 3).
  - assert (val a < 2 ^ 24).
    { destruct (Z.eq_dec (val a) 0); [lia|].
      pose proof (byte_length_bounds (val a) ltac:(lia)) as [_ B2].
      pose proof (Z.pow_le_mono_r 2 (8 * byte_length (val a)) 24). lia. }
    rewrite GetLow64_256, (Z.mod_small (val a)), Z.shiftl_mul_pow2 by (done || lia).
    rewrite u64_small, u32_small; wunfold; [done|lia|lia].
  - rewrite GetLow64_256, (val_shr W256) by (done || lia || by apply wf_shr).
    rewrite Z.mod_small by (wunfold; lia). apply u32_small. wunfold; lia.
Qed.

Lemma pack_compact_spec V m s k :
  0 <= m < 2 ^ 23 -> 0 <= s < 256 ->
  (if s <=? 3 then m / 2 ^ (8 * (3 - s)) else m * 2 ^ (8 * (s - 3))) = truncate_to V k ->
  exists c, pack_compact m s false = Some c /\ word 32 c /\
    compact_value c = truncate_to V k /\ Z.land c 0x00800000 = 0.
Proof.
  intros Hm Hs E. destruct (compact_pack m s Hm Hs) as (Hw & Hl & Hr & Hb).
  exists (Z.lor m (u32 (Z.shiftl s 24))). unfold pack_compact.
  rewrite (proj2 (Z.ltb_lt s 256)) by lia.
  assert (Z.land m (2 ^ 32 - 1 - 8388607) = 0) as ->.
  { change (2 ^ 32 - 1 - 8388607) with (Z.shiftl (Z.ones 9) 23). apply Z.bits_inj'.
    intros i Hi. rewrite Z.land_spec, Z.shiftl_spec, Z.bits_0 by lia.
    destruct (Z.lt_ge_cases i 23).
    - rewrite (Z.testbit_neg_r (Z.ones 9)) by lia. apply andb_false_r.
    - by rewrite (word_testbit_high 23 m) by (wunfold; lia). }
  cbn [Z.eqb andb]. rewrite Z.lor_0_r. split_and!; try done.
  unfold compact_value. by rewrite Hl, Hr.
Qed.

Lemma byte_length_pos x : 0 < x -> 1 <= byte_length x.
Proof.
  intros Hx. pose proof (byte_length_bounds x Hx) as [_ B].
  destruct (Z.lt_ge_cases (byte_length x) 1) as [H|]; [|lia].
  pose proof (Z.pow_le_mono_r 2 (8 * byte_length x) 0 ltac:(lia) ltac:(lia)). lia.
Qed.

(** What [GetCompact] keeps when the sign bit of the mantissa is clear. *)
Lemma compact_keep V :
  0 < V < 2 ^ 256 -> let n := byte_length V in let k := 8 * Z.max 0 (n - 3) in
  (if n <=? 3 then top_word V / 2 ^ (8 * (3 - n)) else top_word V * 2 ^ (8 * (n - 3)))
    = truncate_to V k /\ (k = 0 \/ 2 ^ (k + 15) <= V).
Proof.
  intros HV n k. pose proof (byte_length_range V ltac:(lia)) as Hn.
  pose proof (top_word_bounds V HV) as T. unfold top_word, truncate_to in *. fold n in T, Hn |- *.
  destruct (Z.leb_spec n 3).
  - replace k with 0 by lia. rewrite Z.pow_0_r, Z.div_1_r, Z.div_mul; [lia|].
    apply Z.pow_nonzero; lia.
  - replace k with (8 * (n - 3)) by lia. split; [done|right].
    pose proof (pow2_pos (8 * (n - 3)) ltac:(lia)) as Hp.
    rewrite Z.pow_add_r by lia.
    pose proof (Z.mul_div_le V (2 ^ (8 * (n - 3))) Hp). nia.
Qed.

(** And when it is set, so that the mantissa gives up one more byte. *)
Lemma compact_drop V :
  0 < V < 2 ^ 256 -> 2 ^ 23 <= top_word V ->
  let n := byte_length V in let k := 8 * Z.max 0 (n - 2) in
  (if n + 1 <=? 3 then top_word V / 2 ^ 8 / 2 ^ (8 * (3 - (n + 1)))
   else top_word V / 2 ^ 8 * 2 ^ (8 * (n + 1 - 3)))
    = truncate_to V k /\ (k = 0 \/ 2 ^ (k + 15) <= V).
Proof.
  intros HV HT n k. pose proof (byte_length_range V ltac:(lia)) as Hn.
  pose proof (byte_length_pos V ltac:(lia)).
  unfold top_word, truncate_to in *. fold n in HT, Hn |- *.
  destruct (Z.leb_spec n 3); [destruct (Z.leb_spec (n + 1) 3)|].
  - replace k with 0 by lia. rewrite Z.div_div by (apply Z.pow_nonzero || apply pow2_pos; lia).
    rewrite <- Z.pow_add_r by lia. replace (8 + 8 * (3 - (n + 1))) with (8 * (3 - n)) by lia.
    rewrite Z.div_mul by (apply Z.pow_nonzero; lia). rewrite Z.pow_0_r, Z.div_1_r. lia.
  - assert (En : n = 3) by lia. replace k with 8 by lia. rewrite En in HT |- *.
    change (2 ^ (8 * (3 - 3))) with 1 in *. change (2 ^ (8 * (3 + 1 - 3))) with (2 ^ 8).
    rewrite Z.mul_1_r in *. split; [done|right]. lia.
  - rewrite (proj2 (Z.leb_gt (n + 1) 3)) by lia. replace k with (8 * (n - 2)) by lia.
    replace (8 * (n + 1 - 3)) with (8 * (n - 2)) by lia.
    pose proof (pow2_pos (8 * (n - 3)) ltac:(lia)) as Hp. split; [|right].
    + rewrite Z.div_div, <- Z.pow_add_r by lia. do 3 f_equal; lia.
    + replace (8 * (n - 2) + 15) with (23 + 8 * (n - 3)) by lia.
      rewrite Z.pow_add_r by lia.
      pose proof (Z.mul_div_le V (2 ^ (8 * (n - 3))) Hp). nia.
Qed.

(** Encoding keeps the top two to three bytes: decoding the compact form
    gives the number with [k] low bits cleared, and never flags it. *)
Lemma GetCompact_spec a :
  wf256 a ->
  exists c k, GetCompact a false = Some c /\ word 32 c /\
    compact_value c = truncate_to (val a) k /\ Z.land c 0x00800000 = 0 /\
    0 <= k /\ (k = 0 \/ 2 ^ (k + 15) <= val a).
Proof.
  intros Ha. unfold GetCompact. rewrite (GetCompact_top a Ha).
  pose proof (val_range _ _ Ha) as R. change (modulus W256) with (2 ^ 256) in R.
  rewrite (bits_spec W256) by done. fold (byte_length (val a)).
  pose proof (byte_length_range _ R) as Hn. set (V := val a) in *.
  destruct (Z.eq_dec V 0) as [->|EV].
  { destruct (pack_compact_spec 0 0 0 0) as (c & ? & ? & ? & ?); try lia; [done|].
    exists c, 0. split_and!; try done. by left. }
  assert (HV : 0 < V < 2 ^ 256) by lia.
  pose proof (top_word_bounds V HV) as T. rewrite bit23_spec by (wunfold; lia).
  destruct (Z.leb_spec (2 ^ 23) (top_word V)) as [Hge|Hlt].
  - destruct (compact_drop V HV Hge) as [E K]. rewrite Z.shiftr_div_pow2 by lia.
    destruct (pack_compact_spec V (top_word V / 2 ^ 8) (byte_length V + 1) _ ltac:(dlia)
                ltac:(lia) E) as (c & ? & ? & ? & ?).
    exists c. eexists. split_and!; eauto. lia.
  - destruct (compact_keep V HV) as [E K].
    destruct (pack_compact_spec V (top_word V) (byte_length V) _ ltac:(lia)
                ltac:(lia) E) as (c & ? & ? & ? & ?).
    exists c. eexists. split_and!; eauto. lia.
Qed.

(** * Bytes and text *)

Lemma limbs_to_bytes W a : wf W a -> limbs_of_bytes W (to_bytes a) = a.
Proof.
  intros [<- Ha]. induction Ha as [|x a Hx Ha IH]; [done|].
  change (to_bytes (x :: a)) with (le_bytes 4 x ++ to_bytes a).
  cbn [length limbs_of_bytes].
  rewrite take_app_length', drop_app_length' by (by rewrite length_le_bytes).
  rewrite IH, le_val_bytes. f_equal. by apply mod_small_word.
Qed.

Lemma limbs_of_bytes_wf W bs : words 8 bs -> wf W (limbs_of_bytes W bs).
Proof.
  revert bs. induction W as [|W IH]; intros bs Hb; [split; [done|constructor]|].
  destruct (IH (drop 4 bs)) as [H1 H2]; [auto with words|]. cbn [limbs_of_bytes].
  split; [cbn [length]; lia|]. constructor; [|done].
  pose proof (le_val_bound (take 4 bs) ltac:(auto with words)) as [B1 B2].
  split; [done|]. eapply Z.lt_le_trans; [exact B2|]. apply Z.pow_le_mono_r; [done|]. rewrite length_take. lia.
Qed.

Lemma length_to_bytes a : length (to_bytes a) = (4 * length a)%nat.
Proof.
  induction a as [|x a IH]; [done|]. change (to_bytes (x :: a)) with (le_bytes 4 x ++ to_bytes a).
  rewrite length_app, length_le_bytes, IH. simpl. lia.
Qed.

Lemma to_bytes_bytes a : words 8 (to_bytes a).
Proof.
  induction a as [|x a IH]; [constructor|].
  change (to_bytes (x :: a)) with (le_bytes 4 x ++ to_bytes a).
  apply words_app; split; [apply le_bytes_bytes|done].
Qed.

Lemma of_vector_to_bytes W a : wf W a -> of_vector W (to_bytes a) = Some a.
Proof.
  intros Ha. unfold of_vector. rewrite length_to_bytes.
  rewrite (proj2 (Nat.eqb_eq _ _)); [by rewrite limbs_to_bytes|]. destruct Ha; lia.
Qed.

Lemma small_cases (P : Z -> Prop) d :
  0 <= d < 16 -> Forall P [0;1;2;3;4;5;6;7;8;9;10;11;12;13;14;15] -> P d.
Proof.
  intros Hd HF. rewrite Forall_forall in HF. apply HF.
  rewrite !elem_of_cons. lia.
Qed.

Lemma HexDigit_hex_char d :
  0 <= d < 16 ->
  HexDigit (hex_char d) = d /\ is_space (hex_char d) = false /\
  hex_char d <> 120 /\ hex_char d <> 88.
Proof. intros. pattern d. apply small_cases; [done|]. repeat constructor; by vm_compute. Qed.

Lemma nibbles b : word 8 b -> 0 <= Z.shiftr b 4 < 16 /\ 0 <= Z.land b 15 < 16.
Proof.
  intros []. change 15 with (2 ^ 4 - 1). rewrite Z.shiftr_div_pow2, land_ones_mod by lia.
  dlia.
Qed.

Definition hex_rev (b : Z) : list Z := [hex_char (Z.land b 15); hex_char (Z.shiftr b 4)].

Lemma rev_bind_hex bs : rev (rev bs ≫= hex_byte) = bs ≫= hex_rev.
Proof.
  induction bs as [|b bs IH]; [done|]. cbn [rev]. rewrite bind_app, rev_app_distr, IH. done.
Qed.

Lemma hex_fill_spec bs : words 8 bs -> hex_fill (length bs) (bs ≫= hex_rev) = bs.
Proof.
  induction 1 as [|b bs Hb Hbs IH]; [done|]. destruct (nibbles b Hb) as [Hh Hl].
  cbn [length]. change ((b :: bs) ≫= hex_rev) with
    (hex_char (Z.land b 15) :: hex_char (Z.shiftr b 4) :: (bs ≫= hex_rev)).
  cbn [hex_fill]. rewrite IH. f_equal.
  destruct (HexDigit_hex_char _ Hh) as [-> _], (HexDigit_hex_char _ Hl) as [-> _].
  change 15 with (2 ^ 4 - 1). rewrite Z.shiftl_mul_pow2, Z.shiftr_div_pow2, land_ones_mod by lia.
  destruct Hb. unfold u8. rewrite (Z.mod_small (b / 2 ^ 4 * 2 ^ 4)) by dlia.
  rewrite lor_add_disjoint by (lia || (wunfold; dlia)). dlia.
Qed.

Lemma take_while_all p s : Forall (fun c => p c = true) s -> take_while p s = s.
Proof. induction 1 as [|c s Hc Hs IH]; [done|]. cbn. by rewrite Hc, IH. Qed.

Lemma hex_chars bs :
  words 8 bs -> Forall (fun c => exists d, 0 <= d < 16 /\ c = hex_char d) (bs ≫= hex_byte).
Proof.
  induction 1 as [|b bs Hb Hbs IH]; [constructor|]. destruct (nibbles b Hb).
  change ((b :: bs) ≫= hex_byte) with
    (hex_char (Z.shiftr b 4) :: hex_char (Z.land b 15) :: (bs ≫= hex_byte)).
  repeat constructor; eauto.
Qed.

Lemma SetHex_digits s :
  Forall (fun c => exists d, 0 <= d < 16 /\ c = hex_char d) s ->
  SetHex s = limbs_of_bytes W256 (hex_fill (W256 * 4) (rev s)).
Proof.
  intros Hs. unfold SetHex.
  assert (drop_while is_space s = s) as ->.
  { destruct Hs as [|c s (d & Hd & ->) Hs]; [done|].
    destruct (HexDigit_hex_char d Hd) as (_ & E & _). cbn. by rewrite E. }
  assert (E : match s with
    | c0 :: c1 :: psz' => if (c0 =? 48) && ((c1 =? 120) || (c1 =? 88)) then psz' else s
    | _ => s end = s).
  { destruct Hs as [|c0 s (d0 & Hd0 & ->) Hs]; [done|].
    destruct Hs as [|c1 s (d1 & Hd1 & ->) Hs]; [done|].
    destruct (HexDigit_hex_char d1 Hd1) as (_ & _ & ? & ?).
    by rewrite !(proj2 (Z.eqb_neq (hex_char d1) _)), andb_false_r. }
  cbv zeta. rewrite E. rewrite take_while_all; [done|].
  eapply Forall_impl; [exact Hs|]. intros c (d & Hd & ->).
  destruct (HexDigit_hex_char d Hd) as [-> _]. by rewrite (proj2 (Z.eqb_neq d (-1))) by lia.
Qed.

Lemma GetHex_SetHex a : wf256 a -> SetHex (GetHex a) = a.
Proof.
  intros Ha. pose proof (to_bytes_bytes a) as Hb.
  rewrite SetHex_digits by (apply hex_chars; by apply Forall_rev).
  unfold GetHex. rewrite rev_bind_hex.
  replace (W256 * 4)%nat with (length (to_bytes a)) by (rewrite length_to_bytes; destruct Ha; lia).
  rewrite hex_fill_spec by done. by apply limbs_to_bytes.
Qed.

(** A compact number never is the all-ones number: one can be added to it. *)
Lemma FromCompact_succ c : word 32 c -> val (FromCompact c) + 1 < 2 ^ 256.
Proof.
  intros Hc. rewrite (proj2 (FromCompact_spec c Hc)).
  pose proof (compact_mantissa c ltac:(by destruct Hc)) as Hm.
  unfold compact_value. destruct (Z.leb_spec (Z.shiftr c 24) 3) as [|Hs].
  - assert (0 <= Z.land c 8388607 / 2 ^ (8 * (3 - Z.shiftr c 24)) < 2 ^ 23).
    { pose proof (pow2_pos (8 * (3 - Z.shiftr c 24)) ltac:(lia)).
      split; [apply Z.div_pos; lia|]. apply Z.div_lt_upper_bound; [lia|]. nia. }
    rewrite Z.mod_small; lia.
  - set (m := Z.land c 8388607) in *. set (t := Z.shiftr c 24 - 3) in *.
    replace (8 * t) with (1 + (8 * t - 1)) by lia. rewrite Z.pow_add_r by lia.
    replace (m * (2 ^ 1 * 2 ^ (8 * t - 1))) with (2 * (m * 2 ^ (8 * t - 1))) by lia.
    change (2 ^ 256) with (2 * 2 ^ 255). rewrite Z.mul_mod_distr_l by lia.
    pose proof (Z.mod_pos_bound (m * 2 ^ (8 * t - 1)) (2 ^ 255) ltac:(lia)). lia.
Qed.

(** [GetCompact] followed by [SetCompact]: a number no larger, and zero only for
    zero. *)
Lemma GetCompact_FromCompact a :
  wf256 a ->
  exists c k, GetCompact a false = Some c /\ word 32 c /\ wf256 (FromCompact c) /\
    0 <= k /\ val (FromCompact c) = truncate_to (val a) k /\
    compact_value c = truncate_to (val a) k /\ Z.testbit c 23 = false /\
    val (FromCompact c) <= val a /\ (0 < val a -> 0 < val (FromCompact c)).
Proof.
  intros Ha. destruct (GetCompact_spec a Ha) as (c & k & E & Hw & Ev & Hb & Hk & Hk').
  destruct (FromCompact_spec c Hw) as [Hf Hv].
  pose proof (val_range _ _ Ha) as R. change (modulus W256) with (2 ^ 256) in R.
  pose proof (pow2_pos k Hk). pose proof (Z.mul_div_le (val a) (2 ^ k) ltac:(lia)).
  assert (0 <= val a / 2 ^ k) by (apply Z.div_pos; lia).
  assert (E' : val (FromCompact c) = truncate_to (val a) k).
  { rewrite Hv, Ev. apply Z.mod_small. unfold truncate_to. nia. }
  exists c, k. split_and!; [done|done|done|done|done|done| | |].
  - destruct (Z.testbit c 23) eqn:Et; [|done]. exfalso.
    pose proof (f_equal (fun x => Z.testbit x 23) Hb) as Hb'. cbv beta in Hb'.
    rewrite Z.land_spec, Et, Z.bits_0 in Hb'. done.
  - rewrite E'. unfold truncate_to. lia.
  - intros Hpos. rewrite E'. unfold truncate_to.
    assert (1 <= val a / 2 ^ k); [|nia]. apply Z.div_le_lower_bound; [lia|].
    destruct Hk' as [->|Hk']; [simpl; lia|].
    assert (2 ^ k <= 2 ^ (k + 15)) by (apply Z.pow_le_mono_r; lia). lia.
Qed.

(** * The properties *)

Lemma land_bit_testbit x n : 0 <= n -> negb (Z.land x (2 ^ n) =? 0) = Z.testbit x n.
Proof.
  intros Hn. destruct (Z.testbit x n) eqn:E.
  - destruct (Z.eqb_spec (Z.land x (2 ^ n)) 0) as [E0|]; [|done].
    assert (Z.testbit (Z.land x (2 ^ n)) n = true) as H by
      (by rewrite Z.land_spec, E, Z.pow2_bits_true).
    by rewrite E0, Z.bits_0 in H.
  - rewrite (proj2 (Z.eqb_eq _ 0)); [done|]. apply Z.bits_inj_0. intros i.
    rewrite Z.land_spec, Z.pow2_bits_eqb by done.
    destruct (Z.eqb_spec n i) as [<-|]; [by rewrite E|apply andb_false_r].
Qed.

Lemma SetCompact_negative c :
  word 32 c ->
  (SetCompact c).1.2 = Z.testbit c 23 && negb (compact_value c =? 0).
Proof.
  intros Hc. rewrite <- (land_bit_testbit c 23) by lia. change (2 ^ 23) with 0x00800000.
  pose proof (compact_mantissa c ltac:(by destruct Hc)) as Hm.
  unfold SetCompact, compact_value. set (m := Z.land c 0x7fffff) in *.
  set (s := Z.shiftr c 24). rewrite andb_comm. destruct (Z.leb_spec s 3); cbn [fst snd].
  - rewrite Z.shiftr_div_pow2 by lia. done.
  - do 2 f_equal. pose proof (pow2_pos (8 * (s - 3)) ltac:(lia)).
    destruct (Z.eqb_spec m 0), (Z.eqb_spec (m * 2 ^ (8 * (s - 3))) 0); done || nia.
Qed.

(** C31 [SetCompact]: the number is mantissa times the power of 256 modulo
    [2 ^ 256], the overflow flag is raised exactly when that value does not fit 256
    bits, and the negative flag exactly when the sign bit is set and the value is
    not zero. *)
Theorem SetCompact_correct c :
  word 32 c ->
  let '(v, fNegative, fOverflow) := SetCompact c in
  wf256 v /\ val v = compact_value c mod 2 ^ 256 /\
  fOverflow = (2 ^ 256 <=? compact_value c) /\
  fNegative = Z.testbit c 23 && negb (compact_value c =? 0).
Proof.
  intros Hc. destruct (FromCompact_spec c Hc) as [Hw Hv].
  pose proof (SetCompact_overflow c Hc) as Ho. pose proof (SetCompact_negative c Hc) as Hn.
  unfold FromCompact in *. by destruct (SetCompact c) as [[v fN] fO].
Qed.

Lemma SetCompact_correct_witness :
  word 32 0x1d00ffff /\
  (let '(v, fNegative, fOverflow) := SetCompact 0x1d00ffff in
   wf256 v /\ val v = compact_value 0x1d00ffff mod 2 ^ 256 /\
   fOverflow = (2 ^ 256 <=? compact_value 0x1d00ffff) /\
   fNegative = Z.testbit 0x1d00ffff 23 && negb (compact_value 0x1d00ffff =? 0)).
Proof.
  split; [split; vm_compute; congruence|].
  exact (SetCompact_correct 0x1d00ffff ltac:(split; vm_compute; congruence)).
Defined.

(** [GetCompact] never fails its assertions and its result, read back with
    [SetCompact], is the number with its low bits cut off: nothing is lost below
    [2 ^ 16], and a larger number keeps at least its top 16 bits; the value read
    back is neither negative nor overflowing. *)
Theorem GetCompact_truncates a :
  wf256 a ->
  exists c k, GetCompact a false = Some c /\ word 32 c /\
    0 <= k /\ (k = 0 \/ 2 ^ (k + 15) <= val a) /\
    wf256 (FromCompact c) /\ val (FromCompact c) = val a / 2 ^ k * 2 ^ k /\
    (SetCompact c).2 = false.
Proof.
  intros Ha. destruct (GetCompact_spec a Ha) as (c & k & E & Hw & Ev & _ & Hk & Hk').
  exists c, k. destruct (FromCompact_spec c Hw) as [Hf Hv].
  pose proof (val_range _ _ Ha) as R. change (modulus W256) with (2 ^ 256) in R.
  assert (Hr : 0 <= val a / 2 ^ k * 2 ^ k < 2 ^ 256).
  { pose proof (pow2_pos k Hk). pose proof (Z.mul_div_le (val a) (2 ^ k)).
    assert (0 <= val a / 2 ^ k) by (apply Z.div_pos; lia). nia. }
  unfold truncate_to in Ev. split_and!; [done..| |].
  - rewrite Hv, Ev. by apply Z.mod_small.
  - rewrite SetCompact_overflow, Ev by done. apply Z.leb_gt. lia.
Qed.

Lemma GetCompact_truncates_witness :
  GetCompact (u256 0x123456789) false = Some 0x05012345 /\
  exists c k, GetCompact (u256 0x123456789) false = Some c /\ word 32 c /\
    0 <= k /\ (k = 0 \/ 2 ^ (k + 15) <= val (u256 0x123456789)) /\
    wf256 (FromCompact c) /\
    val (FromCompact c) = val (u256 0x123456789) / 2 ^ k * 2 ^ k /\
    (SetCompact c).2 = false.
Proof.
  split; [vm_compute; reflexivity|].
  exact (GetCompact_truncates (u256 0x123456789)
    ltac:(split; [reflexivity|repeat constructor; vm_compute; congruence])).
Defined.

(** Text and bytes round-trip: [SetHex] reads back what [GetHex] prints, and
    the constructor from a byte vector reads back the limbs laid out in memory. *)
Theorem uint256_text_roundtrip a :
  wf256 a -> SetHex (GetHex a) = a /\ of_vector W256 (to_bytes a) = Some a.
Proof. intros Ha. split; [by apply GetHex_SetHex|by apply of_vector_to_bytes]. Qed.

Lemma uint256_text_roundtrip_witness :
  length (GetHex (u256 0xabc)) = 64%nat /\
  SetHex (GetHex (u256 0xabc)) = u256 0xabc /\
  of_vector W256 (to_bytes (u256 0xabc)) = Some (u256 0xabc).
Proof.
  split; [vm_compute; reflexivity|].
  exact (uint256_text_roundtrip (u256 0xabc)
    ltac:(split; [reflexivity|repeat constructor; vm_compute; congruence])).
Defined.

(** * Programs over the type

    A program combines 64-bit numbers by the operators of the class; its specification
    computes the same with integers modulo [2 ^ (32 * WIDTH)]. *)

Inductive uint_expr : Type :=
  | E_u64 (b : Z)
  | E_not (e : uint_expr) | E_neg (e : uint_expr) | E_incr (e : uint_expr) | E_decr (e : uint_expr)
  | E_xor (e f : uint_expr) | E_and (e f : uint_expr) | E_or (e f : uint_expr)
  | E_add (e f : uint_expr) | E_sub (e f : uint_expr) | E_mul (e f : uint_expr) | E_mul32 (e : uint_expr) (k : Z)
  | E_div (e f : uint_expr)
  | E_shl (e : uint_expr) (n : Z) | E_shr (e : uint_expr) (n : Z).

(** What the class computes; [None] is the exception of a division by zero.  The 32-bit
    factor and the amounts of shifts are converted as the parameters are. *)
Fixpoint uint_eval (W : nat) (e : uint_expr) : option base_uint :=
  match e with
  | E_u64 b => Some (of_u64 W (u64 b))
  | E_not e => bnot <$> uint_eval W e
  | E_neg e => bneg <$> uint_eval W e
  | E_incr e => incr <$> uint_eval W e
  | E_decr e => decr <$> uint_eval W e
  | E_xor e f => a ← uint_eval W e; bxor a <$> uint_eval W f
  | E_and e f => a ← uint_eval W e; band a <$> uint_eval W f
  | E_or e f => a ← uint_eval W e; bor a <$> uint_eval W f
  | E_add e f => a ← uint_eval W e; add a <$> uint_eval W f
  | E_sub e f => a ← uint_eval W e; sub a <$> uint_eval W f
  | E_mul e f => a ← uint_eval W e; mul W a <$> uint_eval W f
  | E_mul32 e k => (fun a => mul32 a (u32 k)) <$> uint_eval W e
  | E_div e f => a ← uint_eval W e; b ← uint_eval W f; div W a b
  | E_shl e n => (fun a => shl W a (u32 n)) <$> uint_eval W e
  | E_shr e n => (fun a => shr W a (u32 n)) <$> uint_eval W e
  end.

(** What it means. *)
Fixpoint uint_meaning (W : nat) (e : uint_expr) : option Z :=
  let M := 2 ^ (32 * Z.of_nat W) in
  match e with
  | E_u64 b => Some (b mod 2 ^ 64)
  | E_not e => (fun x => M - 1 - x) <$> uint_meaning W e
  | E_neg e => (fun x => (- x) mod M) <$> uint_meaning W e
  | E_incr e => (fun x => (x + 1) mod M) <$> uint_meaning W e
  | E_decr e => (fun x => (x - 1) mod M) <$> uint_meaning W e
  | E_xor e f => x ← uint_meaning W e; Z.lxor x <$> uint_meaning W f
  | E_and e f => x ← uint_meaning W e; Z.land x <$> uint_meaning W f
  | E_or e f => x ← uint_meaning W e; Z.lor x <$> uint_meaning W f
  | E_add e f => x ← uint_meaning W e; (fun y => (x + y) mod M) <$> uint_meaning W f
  | E_sub e f => x ← uint_meaning W e; (fun y => (x - y) mod M) <$> uint_meaning W f
  | E_mul e f => x ← uint_meaning W e; (fun y => (x * y) mod M) <$> uint_meaning W f
  | E_mul32 e k => (fun x => (x * (k mod 2 ^ 32)) mod M) <$> uint_meaning W e
  | E_div e f => x ← uint_meaning W e; y ← uint_meaning W f; if y =? 0 then None else Some (x / y)
  | E_shl e n => (fun x => (x * 2 ^ (n mod 2 ^ 32)) mod M) <$> uint_meaning W e
  | E_shr e n => (fun x => x / 2 ^ (n mod 2 ^ 32)) <$> uint_meaning W e
  end.

Lemma decr_spec a :
  words 32 a -> words 32 (decr a) /\ length (decr a) = length a /\ val (decr a) = (val a - 1) mod modulus (length a).
Proof.
  induction 1 as [|x a Hx Ha (Hw & Hl & IH)]; [split_and!; [constructor|done|done]|].
  cbn [decr length]. rewrite modulus_S. pose proof (modulus_pos (length a)). pose proof (val_range (length a) a (conj eq_refl Ha)) as Hr.
  destruct (Z.eqb_spec (u32 (x - 1)) (2 ^ 32 - 1)) as [E|E].
  - assert (x = 0) as -> by (wunfold; dlia). cbn [length]. split_and!; [constructor; [apply u32_word|done]|lia|].
    rewrite !val_cons, IH, E. replace (0 + 2 ^ 32 * val a - 1) with (2 ^ 32 - 1 + (val a - 1) * 2 ^ 32) by lia.
    rewrite Z.rem_mul_r by lia. generalize (val a - 1). intros v.
    replace ((2 ^ 32 - 1 + v * 2 ^ 32) mod 2 ^ 32) with (2 ^ 32 - 1) by (rewrite Z.mod_add by lia; done).
    replace ((2 ^ 32 - 1 + v * 2 ^ 32) / 2 ^ 32) with v by (rewrite Z.div_add by lia; change ((2 ^ 32 - 1) / 2 ^ 32) with 0; lia). done.
  - assert (Hs : u32 (x - 1) = x - 1) by (wunfold; dlia). pose proof (u32_word (x - 1)) as Hx'. rewrite Hs in Hx'.
    split_and!; [constructor; [apply u32_word|done]|done|]. rewrite !val_cons, Hs, Z.mod_small; [lia|]. destruct Hx, Hx'. nia.
Qed.

Lemma wf_map2 W f a b : (forall x y, word 32 x -> word 32 y -> word 32 (f x y)) -> wf W a -> wf W b -> wf W (map2 f a b).
Proof.
  intros Hf [<- Ha] [Hl Hb]. unfold map2. split; [rewrite length_zip_with; lia|]. revert b Hl Hb.
  induction Ha as [|x a Hx Ha IH]; intros [|y b] Hl Hb; [constructor..|]. inversion_clear Hb. cbn [zip_with]. constructor; [by apply Hf|].
  apply IH; [cbn in Hl; lia|done].
Qed.

(** An operator on bits, limb by limb, is the operator on the values. *)
Lemma map2_spec W f g a b :
  (forall x y i, 0 <= i -> Z.testbit (f x y) i = g (Z.testbit x i) (Z.testbit y i)) -> g false false = false ->
  (forall x y, word 32 x -> word 32 y -> word 32 (f x y)) -> (forall x y, 0 <= x -> 0 <= y -> 0 <= f x y) ->
  wf W a -> wf W b -> wf W (map2 f a b) /\ val (map2 f a b) = f (val a) (val b).
Proof.
  intros Hf Hg Hw Hp Ha Hb. pose proof (wf_map2 W f a b Hw Ha Hb) as Hr. split; [done|].
  pose proof (val_range _ _ Ha). pose proof (val_range _ _ Hb). apply (val_bits_eq W); [done|apply Hp; lia| |].
  - intros i Hi. by rewrite Hf, (val_bits_above W a), (val_bits_above W b) by (done || lia).
  - intros m r Hm Hr'. rewrite Hf, (val_bit_at W a), (val_bit_at W b) by (done || lia). unfold map2.
    destruct Ha as [La _], Hb as [Lb _]. destruct (lookup_lt_is_Some_2 a m ltac:(lia)) as [x Ex]. destruct (lookup_lt_is_Some_2 b m ltac:(lia)) as [y Ey].
    rewrite !nth_lookup, lookup_zip_with, Ex, Ey. cbn. apply Hf. lia.
Qed.

(** A result of the class for a result of the specification. *)
Definition uint_denotes (W : nat) (r : option base_uint) (v : option Z) : Prop :=
  match r, v with Some a, Some x => wf W a /\ val a = x | None, None => True | _, _ => False end.

Lemma uint_denotes_map W r v op f : uint_denotes W r v -> (forall a, wf W a -> wf W (op a) /\ val (op a) = f (val a)) -> uint_denotes W (op <$> r) (f <$> v).
Proof. intros H Hop. destruct r as [a|], v as [x|]; try done. destruct H as [Ha <-]. by apply Hop. Qed.

Lemma uint_denotes_bind W r v op f : uint_denotes W r v -> (forall a, wf W a -> uint_denotes W (op a) (f (val a))) -> uint_denotes W (r ≫= op) (v ≫= f).
Proof. intros H Hop. destruct r as [a|], v as [x|]; try done. destruct H as [Ha <-]. by apply Hop. Qed.

Lemma uint_denotes_map2 W r v r' v' op f : uint_denotes W r v -> uint_denotes W r' v' ->
  (forall a b, wf W a -> wf W b -> wf W (op a b) /\ val (op a b) = f (val a) (val b)) ->
  uint_denotes W (a ← r; op a <$> r') (x ← v; f x <$> v').
Proof. intros H H' Hop. apply uint_denotes_bind; [done|]. intros a Ha. apply uint_denotes_map; [done|]. intros b Hb. by apply Hop. Qed.

(** C38 The limbs compute with integers modulo the width.  Whatever a program computes with a
    [base_uint] of at least two limbs, from 64-bit numbers by the operators of the class
    ([~], unary minus, [++], [--], the bit operators, sum, difference, product, the product
    with a 32-bit number, quotient and shifts by any amount), its result has the right
    number of 32-bit limbs and the value that the same program has over the integers modulo
    [2 ^ (32 * WIDTH)]; it throws exactly when that divides by zero; and comparing two
    results limb by limb compares their values. *)
Theorem base_uint_modular W e f :
  (2 <= W)%nat ->
  uint_denotes W (uint_eval W e) (uint_meaning W e) /\
  (forall a b x y, uint_eval W e = Some a -> uint_eval W f = Some b -> uint_meaning W e = Some x -> uint_meaning W f = Some y ->
     (eq a b = true <-> x = y) /\ (lt a b = true <-> x < y)).
Proof.
  intros HW. assert (D : forall e, uint_denotes W (uint_eval W e) (uint_meaning W e)).
  { clear e f. assert (Bits : forall f x y, f = Z.lxor \/ f = Z.land \/ f = Z.lor -> word 32 x -> word 32 y -> word 32 (f x y))
      by (intros f x y [->|[->| ->]] [] []; (apply word_lxor || apply word_land || apply word_lor); by (split || lia)).
    intros e. induction e as [b|e IH|e IH|e IH|e IH|e IHe f IHf|e IHe f IHf|e IHe f IHf|e IHe f IHf|e IHe f IHf|e IHe f IHf|e IH k|e IHe f IHf|e IH n|e IH n]; cbn [uint_eval uint_meaning].
    - apply val_of_u64; [done|]. apply u64_word.
    - apply (uint_denotes_map W _ _ bnot); [done|]. intros a Ha. split; [by apply wf_bnot|by apply val_bnot].
    - apply (uint_denotes_map W _ _ bneg); [done|]. intros a Ha. split; [by apply wf_bneg|by apply val_bneg].
    - apply (uint_denotes_map W _ _ incr); [done|]. intros a Ha. split; [by apply wf_incr|by apply val_incr].
    - apply (uint_denotes_map W _ _ decr); [done|]. intros a [<- Ha]. by destruct (decr_spec a Ha) as (? & ? & ?).
    - apply (uint_denotes_map2 W _ _ _ _ bxor Z.lxor); [done..|]. intros a b. apply (map2_spec W Z.lxor xorb); auto using Z.lxor_spec. intros. by apply Z.lxor_nonneg.
    - apply (uint_denotes_map2 W _ _ _ _ band Z.land); [done..|]. intros a b. apply (map2_spec W Z.land andb); auto using Z.land_spec. intros. apply Z.land_nonneg. by left.
    - apply (uint_denotes_map2 W _ _ _ _ bor Z.lor); [done..|]. intros a b. apply (map2_spec W Z.lor orb); auto using Z.lor_spec. intros. by apply Z.lor_nonneg.
    - apply (uint_denotes_map2 W _ _ _ _ add (fun x y => (x + y) mod _)); [done..|]. intros a b Ha Hb. split; [by apply wf_add|by apply val_add].
    - apply (uint_denotes_map2 W _ _ _ _ sub (fun x y => (x - y) mod _)); [done..|]. intros a b Ha Hb. split; [by apply wf_sub|by apply val_sub].
    - apply (uint_denotes_map2 W _ _ _ _ (mul W) (fun x y => (x * y) mod _)); [done..|]. intros a b Ha Hb. split; [by apply wf_mul|by apply val_mul].
    - apply (uint_denotes_map W _ _ (fun a => mul32 a (u32 k))); [done|]. intros a Ha. split; [apply wf_mul32|apply val_mul32]; try done; apply u32_word.
    - apply uint_denotes_bind; [done|]. intros a Ha. apply uint_denotes_bind; [done|]. intros b Hb.
      destruct (div_spec W a b Ha Hb) as [[-> ->]|(q & -> & Hq & H0 & Hv)]; [done|]. apply Z.eqb_neq in H0. by rewrite H0.
    - apply (uint_denotes_map W _ _ (fun a => shl W a (u32 n))); [done|]. intros a Ha. split; [by apply wf_shl|apply val_shl; [done|apply u32_word]].
    - apply (uint_denotes_map W _ _ (fun a => shr W a (u32 n))); [done|]. intros a Ha. split; [by apply wf_shr|apply val_shr; [done|apply u32_word]]. }
  split; [apply D|]. intros a b x y Ea Eb Ex Ey. pose proof (D e) as De. pose proof (D f) as Df. rewrite Ea, Ex in De. rewrite Eb, Ey in Df.
  destruct De as [Ha <-], Df as [Hb <-]. rewrite (eq_spec W), (lt_spec W), Z.eqb_eq, Z.ltb_lt by done. done.
Qed.

(** [(5 - (~3 << 250)) / 7], and what it is divided by zero. *)
Definition example_expr : uint_expr := E_div (E_sub (E_u64 5) (E_shl (E_not (E_u64 3)) 250)) (E_u64 7).

Lemma base_uint_modular_witness :
  uint_denotes W256 (uint_eval W256 example_expr) (uint_meaning W256 example_expr) /\ is_Some (uint_eval W256 example_expr) /\
  uint_eval W256 (E_div example_expr (E_u64 0)) = None.
Proof.
  split; [exact (proj1 (base_uint_modular W256 example_expr example_expr ltac:(unfold W256; lia)))|]. split; [vm_compute; eauto|vm_compute; reflexivity].
Defined.
