(* ===== verification/Params.v ===== *)
(** The consensus constants of chainparams.h/chainparams.cpp: the fields of
    [CChainParams] the modelled code reads, and their values on the three
    networks. *)

From S2P Require Import Prelude Uint256 Arith256.

Definition COIN : Z := 100000000.
Definition CENT : Z := 1000000.

Record CChainParams := {
  ProofOfWorkLimit : uint256;
  MaxReorganizationDepth : Z;
  EnforceBlockUpgradeMajority : Z;
  RejectBlockOutdatedMajority : Z;
  ToCheckBlockUpgradeMajority : Z;
  TargetTimespan : Z;
  TargetSpacing : Z;
  COINBASE_MATURITY : Z;
  MasternodeCountDrift : Z;
  MaxMoneyOut : Z;
  LAST_POW_BLOCK : Z;
  ModifierUpgradeBlock : Z;
  SkipProofOfWorkCheck : bool;
  GenesisTime : Z
}.

Definition mainParams : CChainParams := {|
  ProofOfWorkLimit := shr W256 (bnot (u256 0)) 16;
  MaxReorganizationDepth := 100;
  EnforceBlockUpgradeMajority := 750;
  RejectBlockOutdatedMajority := 950;
  ToCheckBlockUpgradeMajority := 1000;
  TargetTimespan := 1 * 60;
  TargetSpacing := 1 * 60;
  COINBASE_MATURITY := 21;
  MasternodeCountDrift := 20;
  MaxMoneyOut := 21000000 * COIN;
  LAST_POW_BLOCK := 200;
  ModifierUpgradeBlock := 1;
  SkipProofOfWorkCheck := false;
  GenesisTime := 1543178982 |}.

(** [CTestNetParams] derives from the main network and overrides. *)
Definition testNetParams : CChainParams := {|
  ProofOfWorkLimit := ProofOfWorkLimit mainParams;
  MaxReorganizationDepth := MaxReorganizationDepth mainParams;
  EnforceBlockUpgradeMajority := 51;
  RejectBlockOutdatedMajority := 75;
  ToCheckBlockUpgradeMajority := 100;
  TargetTimespan := 1 * 60;
  TargetSpacing := 1 * 60;
  COINBASE_MATURITY := 30;
  MasternodeCountDrift := 4;
  MaxMoneyOut := 21000000 * COIN;
  LAST_POW_BLOCK := 200;
  ModifierUpgradeBlock := 1;
  SkipProofOfWorkCheck := SkipProofOfWorkCheck mainParams;
  GenesisTime := 1543178983 |}.

(** [CRegTestParams] derives from the test network and overrides. *)
Definition regTestParams : CChainParams := {|
  ProofOfWorkLimit := shr W256 (bnot (u256 0)) 1;
  MaxReorganizationDepth := MaxReorganizationDepth testNetParams;
  EnforceBlockUpgradeMajority := 750;
  RejectBlockOutdatedMajority := 950;
  ToCheckBlockUpgradeMajority := 1000;
  TargetTimespan := 24 * 60 * 60;
  TargetSpacing := 1 * 60;
  COINBASE_MATURITY := COINBASE_MATURITY testNetParams;
  MasternodeCountDrift := MasternodeCountDrift testNetParams;
  MaxMoneyOut := MaxMoneyOut testNetParams;
  LAST_POW_BLOCK := LAST_POW_BLOCK testNetParams;
  ModifierUpgradeBlock := ModifierUpgradeBlock testNetParams;
  SkipProofOfWorkCheck := SkipProofOfWorkCheck testNetParams;
  GenesisTime := 1543178984 |}.

(** What the theorems ask of the constants. *)
Definition wf_params (ps : CChainParams) : Prop :=
  wf256 (ProofOfWorkLimit ps) /\ 0 < val (ProofOfWorkLimit ps) /\
  0 < TargetSpacing ps /\ 0 <= MaxMoneyOut ps.

Lemma wf_limbs_dec (a : uint256) :
  (length a =? W256)%nat && forallb (fun x => (0 <=? x) && (x <? 2 ^ 32)) a = true -> wf256 a.
Proof.
  intros H. apply andb_true_iff in H as [H1%Nat.eqb_eq H2]. split; [done|].
  apply List.Forall_forall. intros x Hx. rewrite forallb_forall in H2. apply H2 in Hx.
  wunfold. lia.
Qed.

(** The three networks satisfy it. *)
Lemma networks_wf : Forall wf_params [mainParams; testNetParams; regTestParams].
Proof.
  repeat constructor; try (by vm_compute); apply wf_limbs_dec; by vm_compute.
Qed.

Lemma ProofOfWorkLimit_main : val (ProofOfWorkLimit mainParams) = 2 ^ 240 - 1.
Proof. by vm_compute. Qed.
