(* ===== verification/Subsidy.v ===== *)
(** The block reward (main.cpp: [GetBlockValue], [GetMasternodePayment]) and the
    masternode collateral (main.h).

    The amounts that the code writes as [7.4 * COIN] are products of a double and an
    [int64_t], converted back by truncation; they are computed here in binary64, with the
    executable floats of the standard library, and the theorems give the integers. *)

From Stdlib Require Import Floats.SpecFloat.
From S2P Require Import Prelude Uint256 Arith256 Params.

(** * Doubles *)

Definition double_of_Z (z : Z) : spec_float := binary_normalize 53 1024 z 0 false.
Definition double_mul : spec_float -> spec_float -> spec_float := SFmul 53 1024.

(** The literal [n / 10], correctly rounded. *)
Definition tenths (n : Z) : spec_float := SFdiv 53 1024 (double_of_Z n) (double_of_Z 10).

(** Conversion to [int64_t] of a double that is not negative. *)
Definition int64_of_double (f : spec_float) : Z :=
  match f with
  | S754_finite false m e => if 0 <=? e then Z.pos m * 2 ^ e else Z.pos m / 2 ^ (- e)
  | _ => 0
  end.

Definition times_coin (n : Z) : Z := int64_of_double (double_mul (tenths n) (double_of_Z COIN)).

(** * Operations *)

Inductive Network := MAIN | TESTNET | REGTEST | UNITTEST.

(** The subsidy of the chain of conditions; an amount [n / 10] is written [times_coin n]. *)
Definition schedule (nHeight : Z) : Z :=
  if nHeight =? 0 then 250000 * COIN
  else if nHeight =? 5 then 50000 * COIN
  else if (nHeight <? 10000) && (0 <? nHeight) then 1 * COIN
  else if (nHeight <=? 19999) && (10000 <=? nHeight) then times_coin 5
  else if (nHeight <=? 29999) && (20000 <=? nHeight) then times_coin 1
  else if (nHeight <=? 39999) && (30000 <=? nHeight) then times_coin 1
  else if (nHeight <=? 49999) && (40000 <=? nHeight) then 1 * COIN
  else if (nHeight <=? 59999) && (50000 <=? nHeight) then 2 * COIN
  else if (nHeight <=? 69999) && (60000 <=? nHeight) then 2 * COIN
  else if (nHeight <=? 79999) && (70000 <=? nHeight) then 3 * COIN
  else if (nHeight <=? 89999) && (80000 <=? nHeight) then 4 * COIN
  else if (nHeight <=? 99999) && (90000 <=? nHeight) then 5 * COIN
  else if (nHeight <=? 109999) && (100000 <=? nHeight) then 6 * COIN
  else if (nHeight <=? 119999) && (110000 <=? nHeight) then times_coin 65
  else if (nHeight <=? 129999) && (120000 <=? nHeight) then 7 * COIN
  else if (nHeight <=? 139999) && (130000 <=? nHeight) then times_coin 75
  else if (nHeight <=? 149999) && (140000 <=? nHeight) then 8 * COIN
  else if (nHeight <=? 159999) && (150000 <=? nHeight) then times_coin 85
  else if (nHeight <=? 169999) && (160000 <=? nHeight) then 9 * COIN
  else if (nHeight <=? 179999) && (170000 <=? nHeight) then times_coin 95
  else if (nHeight <=? 189999) && (180000 <=? nHeight) then 10 * COIN
  else if (nHeight <=? 199999) && (190000 <=? nHeight) then times_coin 105
  else if (nHeight <=? 209999) && (200000 <=? nHeight) then 11 * COIN
  else if (nHeight <=? 219999) && (210000 <=? nHeight) then times_coin 115
  else if (nHeight <=? 229999) && (220000 <=? nHeight) then 12 * COIN
  else if (nHeight <=? 239999) && (230000 <=? nHeight) then times_coin 115
  else if (nHeight <=? 249999) && (240000 <=? nHeight) then 11 * COIN
  else if (nHeight <=? 259999) && (250000 <=? nHeight) then times_coin 105
  else if (nHeight <=? 269999) && (260000 <=? nHeight) then 10 * COIN
  else if (nHeight <=? 279999) && (270000 <=? nHeight) then times_coin 95
  else if (nHeight <=? 289999) && (280000 <=? nHeight) then 9 * COIN
  else if (nHeight <=? 299999) && (290000 <=? nHeight) then times_coin 85
  else if (nHeight <=? 309999) && (300000 <=? nHeight) then 8 * COIN
  else if (nHeight <=? 319999) && (310000 <=? nHeight) then times_coin 75
  else if (nHeight <=? 329999) && (320000 <=? nHeight) then times_coin 74
  else if (nHeight <=? 339999) && (330000 <=? nHeight) then times_coin 73
  else if (nHeight <=? 349999) && (340000 <=? nHeight) then times_coin 72
  else if (nHeight <=? 359999) && (350000 <=? nHeight) then times_coin 71
  else if (nHeight <=? 369999) && (360000 <=? nHeight) then 7 * COIN
  else if (nHeight <=? 379999) && (370000 <=? nHeight) then times_coin 69
  else if (nHeight <=? 389999) && (380000 <=? nHeight) then times_coin 68
  else if (nHeight <=? 399999) && (390000 <=? nHeight) then times_coin 67
  else if (nHeight <=? 409999) && (400000 <=? nHeight) then times_coin 66
  else if (nHeight <=? 419999) && (410000 <=? nHeight) then times_coin 65
  else if (nHeight <=? 429999) && (420000 <=? nHeight) then times_coin 64
  else if (nHeight <=? 439999) && (430000 <=? nHeight) then times_coin 63
  else if (nHeight <=? 449999) && (440000 <=? nHeight) then times_coin 62
  else if (nHeight <=? 459999) && (450000 <=? nHeight) then times_coin 61
  else if (nHeight <=? 469999) && (460000 <=? nHeight) then 6 * COIN
  else if (nHeight <=? 479999) && (470000 <=? nHeight) then times_coin 59
  else if (nHeight <=? 489999) && (480000 <=? nHeight) then times_coin 58
  else if (nHeight <=? 499999) && (490000 <=? nHeight) then times_coin 57
  else if (nHeight <=? 509999) && (500000 <=? nHeight) then times_coin 56
  else if (nHeight <=? 519999) && (510000 <=? nHeight) then times_coin 55
  else 5 * COIN.

(** The code returns before the test against the maximal supply. *)
Definition GetBlockValue (net : Network) (ps : CChainParams) (nHeight : Z) : Z :=
  match net with
  | TESTNET => if (nHeight <? LAST_POW_BLOCK ps) && (0 <? nHeight) then 10 * COIN else schedule nHeight
  | _ => schedule nHeight
  end.

Definition GetMasternodePayment (ps : CChainParams) (nHeight blockValue : Z) : Z :=
  if (nHeight <? LAST_POW_BLOCK ps) || (blockValue =? 0) then 0
  else if nHeight <=? 40000 then int64_of_double (double_mul (double_of_Z blockValue) (tenths 8))
  else int64_of_double (double_mul (double_of_Z blockValue) (tenths 9)).

Definition GetMNCollateral (nHeight : Z) : Z :=
  if nHeight <? 520000 then 1000
  else if (520000 <=? nHeight) && (nHeight <? 1000000) then 15000
  else 30000.

Definition GetMNCollateral1 (nHeight : Z) : Z :=
  if nHeight <? 527000 then 1000
  else if (527000 <=? nHeight) && (nHeight <? 1007000) then 15000
  else 30000.

(** * The schedule as a table

    The reward in tenths of a coin of each span of 10,000 blocks, the first two blocks
    set apart aside. *)
Definition reward_tenths : list Z :=
  [10; 5; 1; 1; 10; 20; 20; 30; 40; 50; 60; 65; 70; 75; 80; 85; 90; 95; 100; 105; 110; 115;
   120; 115; 110; 105; 100; 95; 90; 85; 80; 75; 74; 73; 72; 71; 70; 69; 68; 67; 66; 65; 64;
   63; 62; 61; 60; 59; 58; 57; 56; 55].

Definition block_reward (nHeight : Z) : Z :=
  if nHeight =? 0 then 250000 * COIN
  else if nHeight =? 5 then 50000 * COIN
  else if nHeight <? 0 then 5 * COIN
  else nth (Z.to_nat (nHeight / 10000)) reward_tenths 50 * (COIN / 10).

(** Every value of a block, those of the test network included. *)
Definition block_values : list Z :=
  [250000 * COIN; 50000 * COIN; 5 * COIN; 10 * COIN] ++ map (fun n => n * (COIN / 10)) reward_tenths.

Lemma span_le h j : (h <=? 10000 * j + 9999) = (h / 10000 <=? j).
Proof.
  pose proof (Z.div_mod h 10000 ltac:(lia)). pose proof (Z.mod_pos_bound h 10000 ltac:(lia)).
  destruct (Z.leb_spec h (10000 * j + 9999)), (Z.leb_spec (h / 10000) j); lia.
Qed.

Lemma span_ge h j : (10000 * j <=? h) = (j <=? h / 10000).
Proof.
  pose proof (Z.div_mod h 10000 ltac:(lia)). pose proof (Z.mod_pos_bound h 10000 ltac:(lia)).
  destruct (Z.leb_spec (10000 * j) h), (Z.leb_spec j (h / 10000)); lia.
Qed.

Lemma span_lt h : (h <? 10000) = (h / 10000 <=? 0).
Proof. rewrite <- span_le. destruct (Z.ltb_spec h 10000), (Z.leb_spec h (10000 * 0 + 9999)); lia. Qed.

(** Conditions on the height become conditions on its span. *)
Ltac to_spans h :=
  rewrite ?(span_lt h);
  repeat match goal with
  | |- context [h <=? ?b] =>
      let j := eval vm_compute in (b / 10000) in change (h <=? b) with (h <=? 10000 * j + 9999); rewrite (span_le h j)
  | |- context [?c <=? h] =>
      let j := eval vm_compute in (c / 10000) in change (c <=? h) with (10000 * j <=? h); rewrite (span_ge h j)
  end.

Lemma schedule_table nHeight : schedule nHeight = block_reward nHeight.
Proof.
  unfold block_reward, schedule.
  destruct (Z.eqb_spec nHeight 0) as [|H0]; [done|]. destruct (Z.eqb_spec nHeight 5) as [|H5]; [done|].
  destruct (Z.ltb_spec nHeight 0) as [Hn|Hn].
  - rewrite (proj2 (Z.ltb_ge 0 nHeight)), andb_false_r by lia. to_spans nHeight.
    assert (Hq : nHeight / 10000 < 0) by (apply Z.div_lt_upper_bound; lia).
    by destruct (nHeight / 10000).
  - rewrite (proj2 (Z.ltb_lt 0 nHeight)), andb_true_r by lia. to_spans nHeight.
    assert (Hq : 0 <= nHeight / 10000) by (apply Z.div_pos; lia).
    assert (Hk : exists k, nHeight / 10000 = Z.of_nat k) by (exists (Z.to_nat (nHeight / 10000)); lia).
    destruct Hk as [k Ek]. rewrite Ek, Nat2Z.id. clear Ek Hq.
    destruct (decide (52 <= k)%nat) as [Hk|Hk].
    + rewrite nth_overflow by (cbn; lia).
      repeat match goal with |- context [Z.of_nat k <=? ?b] => rewrite (proj2 (Z.leb_gt (Z.of_nat k) b)) by lia end.
      done.
    + do 52 (destruct k as [|k]; [vm_compute; reflexivity|]). lia.
Qed.

Lemma block_reward_value h : In (block_reward h) block_values.
Proof.
  unfold block_reward, block_values. repeat case_match; [cbn; tauto..|].
  rewrite in_app_iff. destruct (decide (Z.to_nat (h / 10000) < length reward_tenths)%nat) as [L|L].
  - right. apply (in_map (fun n => n * (COIN / 10))). by apply nth_In.
  - left. rewrite nth_overflow by lia. cbn. tauto.
Qed.

Lemma GetBlockValue_value net ps h : In (GetBlockValue net ps h) block_values.
Proof.
  unfold GetBlockValue. rewrite schedule_table. destruct net; try apply block_reward_value.
  case_match; [cbn; tauto|apply block_reward_value].
Qed.

(** The products by 0.8 and 0.9 are exact on the values of a block. *)
Lemma shares_exact v :
  In v block_values ->
  0 < v <= 250000 * COIN /\
  10 * int64_of_double (double_mul (double_of_Z v) (tenths 8)) = 8 * v /\
  10 * int64_of_double (double_mul (double_of_Z v) (tenths 9)) = 9 * v.
Proof.
  assert (C : forallb (fun v => (0 <? v) && (v <=? 250000 * COIN)
    && (10 * int64_of_double (double_mul (double_of_Z v) (tenths 8)) =? 8 * v)
    && (10 * int64_of_double (double_mul (double_of_Z v) (tenths 9)) =? 9 * v)) block_values = true)
    by (vm_compute; reflexivity).
  rewrite forallb_forall in C. intros Hv%C. rewrite !andb_true_iff, Z.ltb_lt, Z.leb_le, !Z.eqb_eq in Hv. tauto.
Qed.

(** * Properties *)

(** The block reward follows the table at every height: each product of a decimal
    literal and [COIN] that the code computes in floating point is the exact number of
    base units; and the masternode's part is exactly nothing before the last
    proof-of-work block, then eight tenths of the reward up to height 40,000 and nine
    tenths after it. *)
Theorem reward_schedule net ps nHeight h :
  let v := GetBlockValue net ps nHeight in
  v = (match net with
       | TESTNET => if (nHeight <? LAST_POW_BLOCK ps) && (0 <? nHeight) then 10 * COIN else block_reward nHeight
       | _ => block_reward nHeight
       end) /\
  0 < v <= 250000 * COIN /\
  10 * GetMasternodePayment ps h v = (if h <? LAST_POW_BLOCK ps then 0 else if h <=? 40000 then 8 else 9) * v.
Proof.
  intros v. destruct (shares_exact v (GetBlockValue_value net ps nHeight)) as (B & E8 & E9).
  split; [|split; [done|]].
  - unfold v, GetBlockValue. by rewrite schedule_table.
  - unfold GetMasternodePayment. destruct (Z.ltb_spec h (LAST_POW_BLOCK ps)); [done|].
    destruct (Z.eqb_spec v 0); [lia|]. cbn [orb]. by destruct (Z.leb_spec h 40000).
Qed.
