(* ===== verification/Chain.v ===== *)
(** The block tree and the active chain: [CBlockIndex] and [CChain] of
    chain.h/chain.cpp with the skip list of main.cpp.

    Block index objects live in a store that maps an address to the object, as
    the code's heap does; [pprev] and [pskip] are addresses or [NULL] ([None]),
    and objects are shared, never copied.  [wf_store] is the invariant of the
    block tree; under it every pointer that is followed is valid. *)

From stdpp Require Import gmap sorting.
From S2P Require Import Prelude Uint256 Arith256.

(** * Data *)

Record COutPoint := { out_hash : uint256; out_n : Z }.

#[export] Instance COutPoint_eq_dec : EqDecision COutPoint.
Proof. solve_decision. Defined.

Definition null_outpoint : COutPoint := {| out_hash := zero W256; out_n := 2 ^ 32 - 1 |}.

Abbreviation ptr := nat (only parsing).

Record CBlockIndex := {
  phashBlock : uint256;
  pprev : option ptr;
  pnext : option ptr;
  pskip : option ptr;
  bnChainTrust : uint256;
  nHeight : Z;
  nFile : Z;
  nDataPos : Z;
  nUndoPos : Z;
  nChainWork : uint256;
  nTx : Z;
  nChainTx : Z;
  nStatus : Z;
  nFlags : Z;
  nStakeModifier : Z;
  nStakeModifierChecksum : Z;
  prevoutStake : COutPoint;
  nStakeTime : Z;
  hashProofOfStake : uint256;
  nMint : Z;
  nMoneySupply : Z;
  nVersion : Z;
  hashMerkleRoot : uint256;
  nTime : Z;
  nBits : Z;
  nNonce : Z;
  nSequenceId : Z
}.

(** [SetNull]. *)
Definition null_index : CBlockIndex := {|
  phashBlock := zero W256; pprev := None; pnext := None; pskip := None; bnChainTrust := zero W256;
  nHeight := 0; nFile := 0; nDataPos := 0; nUndoPos := 0; nChainWork := zero W256;
  nTx := 0; nChainTx := 0; nStatus := 0; nFlags := 0; nStakeModifier := 0; nStakeModifierChecksum := 0;
  prevoutStake := null_outpoint; nStakeTime := 0; hashProofOfStake := zero W256;
  nMint := 0; nMoneySupply := 0; nVersion := 0; hashMerkleRoot := zero W256;
  nTime := 0; nBits := 0; nNonce := 0; nSequenceId := 0 |}.

Abbreviation store := (gmap ptr CBlockIndex).

(** Dereference.  Under [wf_store] the default is never reached. *)
Definition deref (st : store) (p : ptr) : CBlockIndex := default null_index (st !! p).

(** [enum BlockStatus] and the flags of [CBlockIndex]. *)
Definition BLOCK_VALID_TREE := 2.
Definition BLOCK_VALID_TRANSACTIONS := 3.
Definition BLOCK_VALID_SCRIPTS := 5.
Definition BLOCK_VALID_MASK := Z.lor (Z.lor (Z.lor (Z.lor 1 2) 3) 4) 5.
Definition BLOCK_HAVE_DATA := 8.
Definition BLOCK_HAVE_UNDO := 16.
Definition BLOCK_FAILED_MASK := Z.lor 32 64.
Definition BLOCK_PROOF_OF_STAKE := 1.
Definition BLOCK_STAKE_ENTROPY := 2.
Definition BLOCK_STAKE_MODIFIER := 4.

(** C's truth value of an integer expression. *)
Definition nonzero (x : Z) : bool := negb (x =? 0).

Definition GetBlockTime (b : CBlockIndex) : Z := nTime b.
Definition IsProofOfStake (b : CBlockIndex) : bool :=
  nonzero (Z.land (nFlags b) BLOCK_PROOF_OF_STAKE).
Definition IsProofOfWork (b : CBlockIndex) : bool :=
  negb (nonzero (Z.land (nFlags b) BLOCK_PROOF_OF_STAKE)).
Definition GeneratedStakeModifier (b : CBlockIndex) : bool :=
  nonzero (Z.land (nFlags b) BLOCK_STAKE_MODIFIER).
Definition GetStakeEntropyBit (b : CBlockIndex) : Z := Z.land (Get64 (phashBlock b) 0) 1.

(** [IsValid] and [RaiseValidity], on the status word. *)
Definition IsValid (status nUpTo : Z) : bool :=
  if nonzero (Z.land status BLOCK_FAILED_MASK) then false
  else nUpTo <=? Z.land status BLOCK_VALID_MASK.

Definition RaiseValidity (status nUpTo : Z) : Z * bool :=
  if nonzero (Z.land status BLOCK_FAILED_MASK) then (status, false)
  else if Z.land status BLOCK_VALID_MASK <? nUpTo
  then (Z.lor (Z.land status (Z.lxor (2 ^ 32 - 1) BLOCK_VALID_MASK)) nUpTo, true)
  else (status, false).

(** [CDiskBlockPos], the null position being file [-1]. *)
Record CDiskBlockPos := { posFile : Z; posPos : Z }.
Definition null_pos : CDiskBlockPos := {| posFile := -1; posPos := 0 |}.
Definition GetBlockPos (b : CBlockIndex) : CDiskBlockPos :=
  if nonzero (Z.land (nStatus b) BLOCK_HAVE_DATA)
  then {| posFile := nFile b; posPos := nDataPos b |} else null_pos.
Definition GetUndoPos (b : CBlockIndex) : CDiskBlockPos :=
  if nonzero (Z.land (nStatus b) BLOCK_HAVE_UNDO)
  then {| posFile := nFile b; posPos := nUndoPos b |} else null_pos.

(** * Walking the tree *)

Definition pprev_of (st : store) (p : ptr) : option ptr := pprev (deref st p).
Definition height_of (st : store) (p : ptr) : Z := nHeight (deref st p).

(** The times of the block and up to [k - 1] predecessors, nearest first. *)
Fixpoint past_times (st : store) (k : nat) (p : option ptr) : list Z :=
  match k, p with
  | S k', Some q => GetBlockTime (deref st q) :: past_times st k' (pprev_of st q)
  | _, _ => []
  end.

Definition nMedianTimeSpan : nat := 11.

(** [GetMedianTimePast]: [std::sort] is the standard library's, here as its
    result, the sorted permutation. *)
Definition GetMedianTimePast (st : store) (p : ptr) : Z :=
  let ts := merge_sort Z.le (past_times st nMedianTimeSpan (Some p)) in
  nth (length ts / 2) ts 0.

(** [IsSuperMajority]; [nToCheck] is [Params().ToCheckBlockUpgradeMajority()]. *)
Fixpoint super_majority_loop (st : store) (minVersion nRequired : Z)
    (i : nat) (nFound : Z) (pstart : option ptr) : Z :=
  match i, pstart with
  | S i', Some q =>
      if nFound <? nRequired then
        super_majority_loop st minVersion nRequired i'
          (if minVersion <=? nVersion (deref st q) then nFound + 1 else nFound)
          (pprev_of st q)
      else nFound
  | _, _ => nFound
  end.

Definition IsSuperMajority (st : store) (minVersion : Z) (pstart : option ptr)
    (nRequired nToCheck : Z) : bool :=
  nRequired <=? super_majority_loop st minVersion nRequired (Z.to_nat nToCheck) 0 pstart.

(** ** The skip list *)

Definition InvertLowestOne (n : Z) : Z := Z.land n (n - 1).

Definition GetSkipHeight (height : Z) : Z :=
  if height <? 2 then 0
  else if nonzero (Z.land height 1)
  then InvertLowestOne (InvertLowestOne (height - 1)) + 1
  else InvertLowestOne height.

(** The choice inside the loop of [GetAncestor]: follow [pskip]? *)
Definition follow_skip (heightWalk height : Z) : bool :=
  let heightSkip := GetSkipHeight heightWalk in
  let heightSkipPrev := GetSkipHeight (heightWalk - 1) in
  (heightSkip =? height)
  || ((height <? heightSkip)
      && negb ((heightSkipPrev <? heightSkip - 2) && (height <=? heightSkipPrev))).

(** One iteration; following a null pointer stops the model with [None]. *)
Definition GetAncestor_step (st : store) (height : Z)
    (s : option ptr * Z) : (option ptr * Z) + option ptr :=
  let '(pindexWalk, heightWalk) := s in
  if height <? heightWalk then
    match pindexWalk with
    | None => inr None
    | Some w =>
        if follow_skip heightWalk height
        then inl (pskip (deref st w), GetSkipHeight heightWalk)
        else inl (pprev_of st w, heightWalk - 1)
    end
  else inr pindexWalk.

Definition GetAncestor (st : store) (p : ptr) (height : Z) : option ptr :=
  if (height_of st p <? height) || (height <? 0) then None
  else
    match run_loop (GetAncestor_step st height)
            (S (Z.to_nat (height_of st p - height))) (Some p, height_of st p) with
    | Some r => r
    | None => None
    end.

(** [BuildSkip]: the [pskip] of a block of height [h] whose parent is [pp]. *)
Definition BuildSkip (st : store) (pp : option ptr) (h : Z) : option ptr :=
  match pp with
  | Some q => GetAncestor st q (GetSkipHeight h)
  | None => None
  end.

(** [LastCommonAncestor] of main.cpp: level the two blocks, then walk both. *)
Fixpoint common_loop (fuel : nat) (st : store) (pa pb : option ptr) : option ptr :=
  match fuel, pa, pb with
  | S f, Some a, Some b =>
      if (a =? b)%nat then pa else common_loop f st (pprev_of st a) (pprev_of st b)
  | _, _, _ => if bool_decide (pa = pb) then pa else None
  end.

Definition LastCommonAncestor (st : store) (pa pb : ptr) : option ptr :=
  let ha := height_of st pa in
  let hb := height_of st pb in
  let qa := if hb <? ha then GetAncestor st pa hb else Some pa in
  let qb := if ha <? hb then GetAncestor st pb ha else Some pb in
  common_loop (S (S (Z.to_nat (Z.min ha hb)))) st qa qb.

(** * The active chain *)

(** [CChain]: [vChain] by height; [NULL] entries exist only inside [SetTip]. *)
Abbreviation chain := (list (option ptr)).

Definition Height (c : chain) : Z := Z.of_nat (length c) - 1.

(** [operator[]]. *)
Definition chain_at (c : chain) (h : Z) : option ptr :=
  if (h <? 0) || (Z.of_nat (length c) <=? h) then None
  else default None (c !! Z.to_nat h).

Definition Genesis (c : chain) : option ptr :=
  if (0 <? length c)%nat then default None (c !! 0%nat) else None.

(** [Tip(false)]. *)
Definition Tip (c : chain) : option ptr :=
  if (length c <? 1)%nat then None else default None (c !! (length c - 1)%nat).

Definition Contains (st : store) (c : chain) (p : ptr) : bool :=
  bool_decide (chain_at c (height_of st p) = Some p).

Definition Next (st : store) (c : chain) (p : ptr) : option ptr :=
  if Contains st c p then chain_at c (height_of st p + 1) else None.

(** One turn of the loop of [SetTip]. *)
Definition SetTip_step (st : store) (s : chain * option ptr) : (chain * option ptr) + chain :=
  let '(c, pindex) := s in
  match pindex with
  | None => inr c
  | Some q =>
      if bool_decide (chain_at c (height_of st q) = Some q) then inr c
      else inl (<[Z.to_nat (height_of st q) := Some q]> c, pprev_of st q)
  end.

Definition SetTip (st : store) (c : chain) (pindex : option ptr) : option chain :=
  match pindex with
  | None => Some []
  | Some p =>
      let h := Z.to_nat (height_of st p) in
      run_loop (SetTip_step st) (S (S h)) (resize (S h) None c, Some p)
  end.

(** [GetLocator]: the state is [vHave], [pindex] and [nStep]. *)
Definition GetLocator_step (st : store) (c : chain)
    (s : list uint256 * option ptr * Z) : (list uint256 * option ptr * Z) + list uint256 :=
  let '(vHave, pindex, nStep) := s in
  match pindex with
  | None => inr vHave
  | Some p =>
      let vHave := vHave ++ [phashBlock (deref st p)] in
      if height_of st p =? 0 then inr vHave
      else
        let nHeight := Z.max (height_of st p - nStep) 0 in
        let pindex := if Contains st c p then chain_at c nHeight else GetAncestor st p nHeight in
        let nStep := if (10 <? length vHave)%nat then nStep * 2 else nStep in
        inl (vHave, pindex, nStep)
  end.

Definition GetLocator (st : store) (c : chain) (pindex : option ptr) : option (list uint256) :=
  let pindex := match pindex with None => Tip c | Some _ => pindex end in
  let fuel := match pindex with None => 2%nat | Some p => S (S (Z.to_nat (height_of st p))) end in
  run_loop (GetLocator_step st c) fuel ([], pindex, 1).

(** [FindFork]. *)
Definition FindFork_step (st : store) (c : chain) (pindex : option ptr)
    : option ptr + option ptr :=
  match pindex with
  | None => inr None
  | Some p => if Contains st c p then inr (Some p) else inl (pprev_of st p)
  end.

Definition FindFork (st : store) (c : chain) (p : ptr) : option (option ptr) :=
  let start := if Height c <? height_of st p then GetAncestor st p (Height c) else Some p in
  run_loop (FindFork_step st c) (S (S (Z.to_nat (height_of st p)))) start.

(** [FindForkInGlobalIndex] of main.cpp; [mapBlockIndex] maps hashes to objects. *)
Fixpoint FindForkInGlobalIndex (st : store) (mapBlockIndex : gmap uint256 ptr) (c : chain)
    (vHave : list uint256) : option ptr :=
  match vHave with
  | [] => Genesis c
  | h :: vHave' =>
      match mapBlockIndex !! h with
      | Some p =>
          if Contains st c p then Some p
          else FindForkInGlobalIndex st mapBlockIndex c vHave'
      | None => FindForkInGlobalIndex st mapBlockIndex c vHave'
      end
  end.

(** * The block tree invariant *)

(** Following [pprev] [n] times: the reference the skip list must agree with. *)
Fixpoint anc (st : store) (n : nat) (p : ptr) : option ptr :=
  match n with
  | O => Some p
  | S n' => pprev_of st p ≫= anc st n'
  end.

Definition wf_index (st : store) (b : CBlockIndex) : Prop :=
  0 <= nHeight b /\
  match pprev b with
  | None => nHeight b = 0 /\ pskip b = None
  | Some q =>
      is_Some (st !! q) /\ nHeight b = height_of st q + 1 /\
      pskip b = anc st (Z.to_nat (height_of st q - GetSkipHeight (nHeight b))) q
  end.

Definition wf_store (st : store) : Prop := forall p b, st !! p = Some b -> wf_index st b.

(** Every entry is a block of that height whose parent is the entry below. *)
Definition wf_chain (st : store) (c : chain) : Prop :=
  forall i x, c !! i = Some x ->
    exists p, x = Some p /\ is_Some (st !! p) /\ height_of st p = Z.of_nat i /\
      (i <> O -> c !! (i - 1)%nat = Some (pprev_of st p)).

(** ** Skip heights *)

Lemma land_pred_lt m : 0 < m -> 0 <= Z.land m (m - 1) < m.
Proof.
  intros Hm. split; [apply Z.land_nonneg; lia|].
  destruct m as [|q|q]; try lia.
  replace (Z.pos q - 1) with (Z.of_N (Pos.pred_N q)) by lia.
  change (Z.pos q) with (Z.of_N (N.pos q)). rewrite <- N2Z.inj_land.
  pose proof (N.land_le_r (N.pos q) (Pos.pred_N q)). lia.
Qed.

Lemma land_0_pred : Z.land 0 (0 - 1) = 0. Proof. done. Qed.

Lemma GetSkipHeight_range h : 0 <= h -> 0 <= GetSkipHeight h <= Z.max 0 (h - 1).
Proof.
  intros Hh. unfold GetSkipHeight, InvertLowestOne. destruct (Z.ltb_spec h 2); [lia|].
  destruct (nonzero (Z.land h 1)) eqn:E.
  - assert (h <> 2).
    { intros ->. done. }
    pose proof (land_pred_lt (h - 1) ltac:(lia)) as H1.
    set (m := Z.land (h - 1) (h - 1 - 1)) in *.
    destruct (Z.eq_dec m 0) as [E0|]; [rewrite E0, Z.land_0_l; lia|].
    pose proof (land_pred_lt m ltac:(lia)). lia.
  - pose proof (land_pred_lt h ltac:(lia)). lia.
Qed.

(** ** Ancestors *)

Lemma anc_app st i j p q : anc st i p = Some q -> anc st (i + j) p = anc st j q.
Proof.
  revert p. induction i as [|i IH]; intros p; cbn [anc Nat.add]; [by intros [= ->]|].
  destruct (pprev_of st p) as [r|]; simpl; [apply IH|done].
Qed.

Section Tree.
Context (st : store) (Hwf : wf_store st).

Lemma deref_valid p : is_Some (st !! p) -> wf_index st (deref st p).
Proof. intros [b Hb]. unfold deref. rewrite Hb. by apply (Hwf p). Qed.

Lemma height_nonneg p : is_Some (st !! p) -> 0 <= height_of st p.
Proof. intros Hp. by destruct (deref_valid p Hp). Qed.

(** A block has a parent exactly when its height is positive. *)
Lemma parent_valid p :
  is_Some (st !! p) -> 0 < height_of st p ->
  exists q, pprev_of st p = Some q /\ is_Some (st !! q) /\
    height_of st q = height_of st p - 1.
Proof.
  intros Hp Hh. destruct (deref_valid p Hp) as [_ H]. unfold pprev_of, height_of in *.
  destruct (pprev (deref st p)) as [q|]; [|lia].
  destruct H as (? & E & _). exists q. split_and!; auto. unfold height_of in E. lia.
Qed.

Lemma parent_none p : is_Some (st !! p) -> height_of st p = 0 -> pprev_of st p = None.
Proof.
  intros Hp Hh. destruct (deref_valid p Hp) as [_ H]. unfold pprev_of, height_of in *.
  destruct (pprev (deref st p)) as [q|] eqn:E; [|done].
  destruct H as (Hq & E' & _). pose proof (height_nonneg q Hq). unfold height_of in *. lia.
Qed.

Lemma anc_valid n p :
  is_Some (st !! p) -> Z.of_nat n <= height_of st p ->
  exists q, anc st n p = Some q /\ is_Some (st !! q) /\
    height_of st q = height_of st p - Z.of_nat n.
Proof.
  revert p. induction n as [|n IH]; intros p Hp Hn; cbn [anc].
  - exists p. split_and!; [done|done|lia].
  - destruct (parent_valid p Hp ltac:(lia)) as (q & -> & Hq & Eq).
    destruct (IH q Hq ltac:(lia)) as (r & Er & Hr & Ehr). exists r.
    split_and!; [done|done|lia].
Qed.

(** The skip pointer of a block is its ancestor at the skip height. *)
Lemma pskip_valid p :
  is_Some (st !! p) -> 0 < height_of st p ->
  pskip (deref st p) =
    anc st (Z.to_nat (height_of st p - GetSkipHeight (height_of st p))) p.
Proof.
  intros Hp Hh. destruct (parent_valid p Hp Hh) as (q & Eq & Hq & Ehq).
  destruct (deref_valid p Hp) as [_ H]. unfold pprev_of in Eq. rewrite Eq in H.
  destruct H as (_ & _ & ->). pose proof (GetSkipHeight_range (height_of st p) ltac:(lia)).
  change (nHeight (deref st p)) with (height_of st p).
  replace (Z.to_nat (height_of st p - GetSkipHeight (height_of st p))) with
    (S (Z.to_nat (height_of st q - GetSkipHeight (height_of st p)))) by lia.
  cbn [anc]. unfold pprev_of. by rewrite Eq.
Qed.

Lemma GetAncestor_loop p height fuel w hw :
  is_Some (st !! p) -> 0 <= height <= hw -> hw <= height_of st p ->
  w = anc st (Z.to_nat (height_of st p - hw)) p -> (Z.to_nat (hw - height) < fuel)%nat ->
  run_loop (GetAncestor_step st height) fuel (w, hw) =
    Some (anc st (Z.to_nat (height_of st p - height)) p).
Proof.
  intros Hp. revert w hw. induction fuel as [|f IH]; intros w hw Hh Hhw Ew Hf; [lia|].
  cbn [run_loop GetAncestor_step].
  destruct (Z.ltb_spec height hw) as [Hlt|Hge].
  - destruct (anc_valid (Z.to_nat (height_of st p - hw)) p Hp ltac:(lia))
      as (x & Ex & Hx & Ehx). rewrite Ex in Ew. subst w.
    replace hw with (height_of st x) in * by lia.
    pose proof (GetSkipHeight_range (height_of st x) ltac:(lia)) as Hs.
    destruct (follow_skip (height_of st x) height) eqn:Ef.
    + assert (height <= GetSkipHeight (height_of st x)).
      { unfold follow_skip in Ef. destruct (Z.eqb_spec (GetSkipHeight (height_of st x)) height);
          [lia|]. destruct (Z.ltb_spec height (GetSkipHeight (height_of st x))); [lia|done]. }
      apply IH; [lia|lia| |lia]. rewrite pskip_valid by (done || lia).
      rewrite <- (anc_app _ _ _ _ _ Ex). f_equal. lia.
    + apply IH; [lia|lia| |lia].
      replace (Z.to_nat (height_of st p - (height_of st x - 1)))
        with (Z.to_nat (height_of st p - height_of st x) + 1)%nat by lia.
      rewrite (anc_app _ _ _ _ _ Ex). cbn [anc]. by destruct (pprev_of st x).
  - rewrite Ew. do 3 f_equal. lia.
Qed.

Lemma GetAncestor_spec p height :
  is_Some (st !! p) ->
  GetAncestor st p height =
    if (0 <=? height) && (height <=? height_of st p)
    then anc st (Z.to_nat (height_of st p - height)) p else None.
Proof.
  intros Hp. unfold GetAncestor. pose proof (height_nonneg p Hp).
  destruct (Z.ltb_spec (height_of st p) height), (Z.ltb_spec height 0),
    (Z.leb_spec 0 height), (Z.leb_spec height (height_of st p)); cbn [orb andb]; try lia; try done.
  rewrite (GetAncestor_loop p); [done|done|lia|lia| |lia].
  by rewrite Z.sub_diag.
Qed.

(** The ancestor of [p] at height [h]. *)
Lemma GetAncestor_some p h :
  is_Some (st !! p) -> 0 <= h <= height_of st p ->
  exists q, GetAncestor st p h = Some q /\ is_Some (st !! q) /\ height_of st q = h /\
    anc st (Z.to_nat (height_of st p - h)) p = Some q.
Proof.
  intros Hp Hh. rewrite GetAncestor_spec by done.
  rewrite (proj2 (Z.leb_le 0 h)), (proj2 (Z.leb_le h _)) by lia. cbn [andb].
  destruct (anc_valid (Z.to_nat (height_of st p - h)) p Hp ltac:(lia)) as (q & -> & ? & ?).
  exists q. split_and!; [done|done|lia|done].
Qed.
End Tree.

(** * Growing the tree *)

Section Grow.
Context (st : store) (Hwf : wf_store st).

Lemma BuildSkip_spec q h :
  is_Some (st !! q) -> h = height_of st q + 1 ->
  BuildSkip st (Some q) h = anc st (Z.to_nat (height_of st q - GetSkipHeight h)) q.
Proof.
  intros Hq ->. pose proof (height_nonneg st Hwf q Hq).
  pose proof (GetSkipHeight_range (height_of st q + 1) ltac:(lia)).
  unfold BuildSkip. rewrite (GetAncestor_spec st Hwf) by done.
  by rewrite (proj2 (Z.leb_le 0 _)), (proj2 (Z.leb_le _ (height_of st q))) by lia.
Qed.

Context (p : ptr) (b : CBlockIndex) (Hp : st !! p = None).

Lemma deref_insert_ne q : is_Some (st !! q) -> deref (<[p:=b]> st) q = deref st q.
Proof.
  intros [x Hx]. unfold deref. rewrite lookup_insert_ne; [done|]. intros ->. congruence.
Qed.

Lemma anc_insert k q : is_Some (st !! q) -> anc (<[p:=b]> st) k q = anc st k q.
Proof.
  revert q. induction k as [|k IH]; intros q Hq; cbn [anc]; [done|].
  unfold pprev_of. rewrite deref_insert_ne by done.
  pose proof (deref_valid st Hwf q Hq) as [_ Hv].
  destruct (pprev (deref st q)) as [r|]; simpl; [|done]. apply IH. apply Hv.
Qed.

Lemma wf_index_insert x : wf_index st x -> wf_index (<[p:=b]> st) x.
Proof.
  intros [Hh H]. split; [done|]. destruct (pprev x) as [q|]; [|done].
  destruct H as (Hq & Eh & Es). unfold height_of. rewrite deref_insert_ne, anc_insert by done.
  split_and!; [|done|done]. destruct Hq as [y Hy]. rewrite lookup_insert.
  case_decide; eauto.
Qed.

Lemma wf_store_insert : wf_index st b -> wf_store (<[p:=b]> st).
Proof.
  intros Hb q x. rewrite lookup_insert. case_decide.
  - intros [= <-]. by apply wf_index_insert.
  - intros Hx. apply wf_index_insert. by apply (Hwf q).
Qed.
End Grow.

(** * The active chain *)

Section ActiveChain.
Context (st : store) (Hwf : wf_store st).

Lemma chain_at_lookup c i : chain_at c (Z.of_nat i) = default None (c !! i).
Proof.
  unfold chain_at. rewrite (proj2 (Z.ltb_ge _ 0)), Nat2Z.id by lia. simpl.
  destruct (Z.leb_spec (Z.of_nat (length c)) (Z.of_nat i)); [|done].
  by rewrite lookup_ge_None_2 by lia.
Qed.

Lemma chain_at_some c p q :
  is_Some (st !! p) -> chain_at c (height_of st p) = Some q <->
  c !! Z.to_nat (height_of st p) = Some (Some q).
Proof.
  intros Hp. pose proof (height_nonneg st Hwf p Hp).
  rewrite <- (Z2Nat.id (height_of st p)) at 1 by lia. rewrite chain_at_lookup.
  destruct (c !! Z.to_nat (height_of st p)) as [x|]; simpl; naive_solver.
Qed.

Lemma Contains_lookup c p :
  is_Some (st !! p) ->
  Contains st c p = true <-> c !! Z.to_nat (height_of st p) = Some (Some p).
Proof. intros Hp. unfold Contains. rewrite bool_decide_eq_true. by apply chain_at_some. Qed.

(** Loop invariant of [SetTip]: everything above [pindex] is already the
    branch of [p], everything from it down is still the old chain. *)
Definition set_tip_inv (c0 : chain) (p : ptr) (s : chain * option ptr) : Prop :=
  let '(c, pindex) := s in
  exists k, length c = S (Z.to_nat (height_of st p)) /\
    (k <= S (Z.to_nat (height_of st p)))%nat /\
    pindex = anc st k p /\
    (forall j, (j < k)%nat -> exists r, anc st j p = Some r /\
       c !! (Z.to_nat (height_of st p) - j)%nat = Some (Some r)) /\
    (forall i, (i + k <= Z.to_nat (height_of st p))%nat -> c !! i = c0 !! i).

Lemma anc_none p k :
  is_Some (st !! p) -> k = S (Z.to_nat (height_of st p)) -> anc st k p = None.
Proof.
  intros Hp ->. pose proof (height_nonneg st Hwf p Hp).
  destruct (anc_valid st Hwf (Z.to_nat (height_of st p)) p Hp ltac:(lia)) as (g & Eg & Hg & Ehg).
  replace (S (Z.to_nat (height_of st p))) with (Z.to_nat (height_of st p) + 1)%nat by lia.
  rewrite (anc_app _ _ _ _ _ Eg). cbn [anc].
  by rewrite (parent_none st Hwf g Hg ltac:(lia)).
Qed.

Lemma set_tip_step_inv c0 p s s' :
  is_Some (st !! p) -> set_tip_inv c0 p s -> SetTip_step st s = inl s' -> set_tip_inv c0 p s'.
Proof.
  intros Hp. destruct s as [c pindex], s' as [c' pindex'].
  intros (k & Hl & Hk & Ei & Habove & Hbelow). cbn [SetTip_step].
  destruct pindex as [q|]; [|done].
  pose proof (height_nonneg st Hwf p Hp).
  assert (Hk' : (k <= Z.to_nat (height_of st p))%nat).
  { destruct (decide (k = S (Z.to_nat (height_of st p)))); [|lia].
    by rewrite (anc_none p k Hp) in Ei. }
  destruct (anc_valid st Hwf k p Hp ltac:(lia)) as (q' & Eq & Hq & Ehq).
  rewrite Eq in Ei. injection Ei as ->. case_bool_decide as Hc; [done|]. intros [= <- <-].
  assert (Ehn : Z.to_nat (height_of st q') = (Z.to_nat (height_of st p) - k)%nat) by lia.
  exists (S k). split_and!.
  - by rewrite length_insert.
  - lia.
  - replace (S k) with (k + 1)%nat by lia. rewrite (anc_app _ _ _ _ _ Eq). cbn [anc].
    by destruct (pprev_of st q').
  - intros j Hj. destruct (decide (j = k)) as [->|Hne].
    + exists q'. split; [done|]. rewrite Ehn. apply list_lookup_insert_eq. lia.
    + destruct (Habove j ltac:(lia)) as (r & Er & Hr). exists r. split; [done|].
      rewrite list_lookup_insert_ne by lia. done.
  - intros i Hi. rewrite list_lookup_insert_ne by lia. apply Hbelow. lia.
Qed.

(** Entry [H - j] is the [j]-th ancestor of [p]: the branch that ends in [p]. *)
Definition chain_of (p : ptr) (c : chain) : Prop :=
  length c = S (Z.to_nat (height_of st p)) /\
  forall j, (j <= Z.to_nat (height_of st p))%nat ->
    c !! (Z.to_nat (height_of st p) - j)%nat = Some (anc st j p).

Lemma chain_below c i q j :
  wf_chain st c -> c !! i = Some (Some q) -> (j <= i)%nat ->
  c !! (i - j)%nat = Some (anc st j q).
Proof.
  intros Hc. revert i q. induction j as [|j IH]; intros i q Hi Hj.
  - by rewrite Nat.sub_0_r.
  - destruct (Hc i _ Hi) as (x & [= <-] & Hq & Ehq & Hp).
    specialize (Hp ltac:(lia)). destruct (parent_valid st Hwf q Hq ltac:(lia)) as (r & Er & _).
    rewrite Er in Hp. replace (i - S j)%nat with (i - 1 - j)%nat by lia.
    cbn [anc]. rewrite Er. apply IH; [done|lia].
Qed.

Lemma chain_of_wf p c : is_Some (st !! p) -> chain_of p c -> wf_chain st c.
Proof.
  intros Hp [Hl Hc] i x Hi. pose proof (height_nonneg st Hwf p Hp).
  pose proof (lookup_lt_Some _ _ _ Hi) as Hlt.
  set (H0 := Z.to_nat (height_of st p)) in *.
  specialize (Hc (H0 - i)%nat ltac:(lia)) as Ei. replace (H0 - (H0 - i))%nat with i in Ei by lia.
  rewrite Ei in Hi. injection Hi as <-.
  destruct (anc_valid st Hwf (H0 - i)%nat p Hp ltac:(lia)) as (q & Eq & Hq & Ehq).
  exists q. split_and!; [done|done|lia|]. intros Hne.
  specialize (Hc (H0 - (i - 1))%nat ltac:(lia)).
  replace (H0 - (H0 - (i - 1)))%nat with (i - 1)%nat in Hc by lia. rewrite Hc. f_equal.
  replace (H0 - (i - 1))%nat with (H0 - i + 1)%nat by lia.
  rewrite (anc_app _ _ _ _ _ Eq). cbn [anc]. by destruct (pprev_of st q).
Qed.

Lemma set_tip_inv_stop c0 p s r :
  is_Some (st !! p) -> wf_chain st c0 ->
  set_tip_inv (resize (S (Z.to_nat (height_of st p))) None c0) p s ->
  SetTip_step st s = inr r -> chain_of p r.
Proof.
  intros Hp Hc0. destruct s as [c pindex]. intros (k & Hl & Hk & Ei & Habove & Hbelow).
  pose proof (height_nonneg st Hwf p Hp). set (H0 := Z.to_nat (height_of st p)) in *.
  cbn [SetTip_step]. destruct pindex as [q|].
  - case_bool_decide as Hc; [|done]. intros [= <-]. split; [done|]. intros j Hj.
    destruct (decide (k = S H0)) as [->|Hk']; [by rewrite (anc_none p _ Hp) in Ei|].
    destruct (anc_valid st Hwf k p Hp ltac:(lia)) as (q' & Eq & Hq & Ehq).
    rewrite Eq in Ei. injection Ei as <-.
    apply chain_at_some in Hc; [|done]. replace (Z.to_nat (height_of st q)) with (H0 - k)%nat in Hc by lia.
    destruct (decide (j < k)%nat) as [Hjk|Hjk].
    + destruct (Habove j Hjk) as (r & Er & Hr). by rewrite Er.
    + rewrite Hbelow in Hc by lia. rewrite Hbelow by lia.
      assert (Hlt : (H0 - k < length c0)%nat).
      { destruct (decide (H0 - k < length c0)%nat); [done|].
        by rewrite lookup_resize_new in Hc by lia. }
      rewrite lookup_resize in Hc by lia. rewrite lookup_resize by lia.
      assert (Ej : exists i, j = (k + i)%nat) by (exists (j - k)%nat; lia).
      destruct Ej as [i ->]. rewrite (anc_app _ _ _ _ _ Eq).
      fold H0. replace (H0 - (k + i))%nat with (H0 - k - i)%nat by lia.
      apply (chain_below c0 (H0 - k) q i); [done|done|lia].
  - intros [= <-]. split; [done|]. intros j Hj.
    destruct (decide (k = S H0)) as [->|Hk'].
    + destruct (Habove j ltac:(lia)) as (r & Er & Hr). by rewrite Er.
    + destruct (anc_valid st Hwf k p Hp ltac:(lia)) as (q' & Eq & _). congruence.
Qed.

Lemma set_tip_inv_init c0 p :
  is_Some (st !! p) -> length c0 = S (Z.to_nat (height_of st p)) -> set_tip_inv c0 p (c0, Some p).
Proof.
  intros Hp Hl. exists 0%nat. split_and!; [done|lia|done| |done]. intros j Hj. lia.
Qed.

(** How far the walk still is from falling off the genesis block. *)
Definition walk_left (q : option ptr) : nat :=
  match q with None => O | Some q => S (Z.to_nat (height_of st q)) end.

Lemma walk_left_pprev q :
  is_Some (st !! q) -> (walk_left (pprev_of st q) < walk_left (Some q))%nat.
Proof.
  intros Hq. cbn [walk_left]. pose proof (height_nonneg st Hwf q Hq).
  destruct (decide (height_of st q = 0)) as [E0|].
  - rewrite (parent_none st Hwf q Hq E0). simpl. lia.
  - destruct (parent_valid st Hwf q Hq ltac:(lia)) as (r & -> & _ & Ehr). cbn [walk_left]. lia.
Qed.

Lemma anc_some_valid k p q :
  is_Some (st !! p) -> (k <= S (Z.to_nat (height_of st p)))%nat -> anc st k p = Some q ->
  (k <= Z.to_nat (height_of st p))%nat /\ is_Some (st !! q) /\
  height_of st q = height_of st p - Z.of_nat k.
Proof.
  intros Hp Hk Eq. pose proof (height_nonneg st Hwf p Hp).
  destruct (decide (k = S (Z.to_nat (height_of st p)))) as [->|];
    [by rewrite (anc_none p _ Hp) in Eq|].
  destruct (anc_valid st Hwf k p Hp ltac:(lia)) as (q' & Eq' & Hq & Ehq).
  rewrite Eq' in Eq. injection Eq as ->. split_and!; [lia|done|done].
Qed.

(** [SetTip] ends, and leaves exactly the branch of the new tip. *)
Lemma SetTip_spec c p :
  wf_chain st c -> is_Some (st !! p) ->
  exists c', SetTip st c (Some p) = Some c' /\ chain_of p c'.
Proof.
  intros Hc Hp. pose proof (height_nonneg st Hwf p Hp). unfold SetTip.
  set (c0 := resize _ None c).
  pose proof (set_tip_inv_init c0 p Hp (length_resize _ _ _)) as Hinit.
  destruct (run_loop_total (SetTip_step st) (set_tip_inv c0 p) (fun s => walk_left s.2)) with
    (fuel := S (S (Z.to_nat (height_of st p)))) (s := (c0, Some p)) as [r Er];
    [|done|cbn [snd walk_left]; lia|].
  - intros s s' HI Hs. split; [by eapply set_tip_step_inv|].
    destruct s as [d pi], HI as (k & _ & Hk & Ei & _). cbn [SetTip_step] in Hs.
    destruct pi as [q|]; [|done]. case_bool_decide; [done|]. injection Hs as <-.
    apply walk_left_pprev. by apply (anc_some_valid k p q Hp).
  - exists r. split; [done|].
    eapply (run_loop_inv (SetTip_step st) (set_tip_inv c0 p) (chain_of p)); [| |exact Hinit|exact Er].
    + intros s s' HI Hs. by eapply set_tip_step_inv.
    + intros s r' HI Hs. by eapply set_tip_inv_stop.
Qed.

(** ** [FindFork] *)

(** [f] is an ancestor of [p] (or [p]) that is on the chain. *)
Definition common_block (c : chain) (p f : ptr) : Prop :=
  (exists j, anc st j p = Some f) /\ Contains st c f = true.

Lemma anc_height j p f :
  is_Some (st !! p) -> anc st j p = Some f ->
  is_Some (st !! f) /\ height_of st f = height_of st p - Z.of_nat j.
Proof.
  intros Hp Hj. pose proof (height_nonneg st Hwf p Hp).
  destruct (decide (Z.of_nat j <= height_of st p)) as [Hle|Hgt].
  - destruct (anc_valid st Hwf j p Hp Hle) as (q & Eq & Hq & Eh). naive_solver.
  - replace j with (S (Z.to_nat (height_of st p)) + (j - S (Z.to_nat (height_of st p))))%nat in Hj by lia.
    exfalso. revert Hj. generalize (j - S (Z.to_nat (height_of st p)))%nat as k. intros k Hj.
    pose proof (anc_none p _ Hp eq_refl) as Hn.
    assert (forall i k q, anc st i q = None -> anc st (i + k) q = None) as Hmono.
    { clear. induction i as [|i IH]; intros k q; cbn [anc Nat.add]; [done|].
      destruct (pprev_of st q); simpl; [apply IH|done]. }
    by rewrite (Hmono _ _ _ Hn) in Hj.
Qed.

Lemma Contains_height c f :
  is_Some (st !! f) -> Contains st c f = true -> height_of st f <= Height c.
Proof.
  intros Hf H. apply Contains_lookup in H; [|done]. apply lookup_lt_Some in H.
  pose proof (height_nonneg st Hwf f Hf). unfold Height. lia.
Qed.

(** The loop from an ancestor [q] above which nothing is on the chain. *)
Definition fork_inv (c : chain) (p : ptr) (s : option ptr) : Prop :=
  exists j, s = anc st j p /\ (j <= S (Z.to_nat (height_of st p)))%nat /\
    forall i f, (i < j)%nat -> anc st i p = Some f -> Contains st c f = false.

Definition is_fork (c : chain) (p : ptr) (r : option ptr) : Prop :=
  match r with
  | Some f => common_block c p f /\
      forall g, common_block c p g -> height_of st g <= height_of st f
  | None => forall g, ~ common_block c p g
  end.

Lemma fork_inv_valid c p q :
  is_Some (st !! p) -> fork_inv c p (Some q) -> is_Some (st !! q).
Proof.
  intros Hp (j & Ej & Hj & _). symmetry in Ej.
  by destruct (anc_some_valid j p q Hp Hj Ej) as (_ & ? & _).
Qed.

Lemma fork_inv_init c p :
  is_Some (st !! p) ->
  fork_inv c p (if Height c <? height_of st p then GetAncestor st p (Height c) else Some p).
Proof.
  intros Hp. pose proof (height_nonneg st Hwf p Hp).
  destruct (Z.ltb_spec (Height c) (height_of st p)) as [Hlt|Hge].
  2: { exists O. split_and!; [done|lia|]. intros i f Hi. lia. }
  exists (Z.to_nat (height_of st p - Height c)).
  assert (-1 <= Height c) by (unfold Height; lia).
  split_and!; [|lia|].
  - rewrite (GetAncestor_spec st Hwf p) by done.
    destruct (Z.leb_spec 0 (Height c)), (Z.leb_spec (Height c) (height_of st p));
      cbn [andb]; try lia; try done. symmetry. apply anc_none; [done|lia].
  - intros i f Hi Hf. destruct (anc_height i p f Hp Hf) as [Hf' Eh].
    apply not_true_iff_false. intros Hc. pose proof (Contains_height c f Hf' Hc). lia.
Qed.

Lemma fork_step_inv c p s s' :
  is_Some (st !! p) -> fork_inv c p s -> FindFork_step st c s = inl s' ->
  fork_inv c p s' /\ (walk_left s' < walk_left s)%nat.
Proof.
  intros Hp HI Hs. destruct s as [q|]; [|done]. cbn [FindFork_step] in Hs.
  destruct (Contains st c q) eqn:Hq; [done|]. injection Hs as <-.
  pose proof (fork_inv_valid c p q Hp HI) as Hvq. split; [|by apply walk_left_pprev].
  destruct HI as (j & Ej & Hj & Habove). symmetry in Ej.
  destruct (anc_some_valid j p q Hp Hj Ej) as (Hj' & _ & _).
  exists (j + 1)%nat. split_and!; [|lia|].
  - rewrite (anc_app _ _ _ _ _ Ej). cbn [anc]. by destruct (pprev_of st q).
  - intros i f Hi Hf. destruct (decide (i = j)) as [->|]; [|apply (Habove i f); [lia|done]].
    congruence.
Qed.

Lemma fork_stop c p s r :
  is_Some (st !! p) -> fork_inv c p s -> FindFork_step st c s = inr r -> is_fork c p r.
Proof.
  intros Hp (j & Ej & Hj & Habove) Hs. destruct s as [q|]; cbn [FindFork_step] in Hs.
  - destruct (Contains st c q) eqn:Hq; [|done]. injection Hs as <-. split; [split; eauto|].
    intros g [[i Hi] Hg]. destruct (decide (i < j)%nat) as [Hij|Hij].
    + specialize (Habove i g Hij Hi). congruence.
    + symmetry in Ej. destruct (anc_height j p q Hp Ej), (anc_height i p g Hp Hi). lia.
  - injection Hs as <-. intros g [[i Hi] Hg]. destruct (decide (i < j)%nat) as [Hij|Hij].
    + specialize (Habove i g Hij Hi). congruence.
    + destruct (anc_height i p g Hp Hi) as [Hvg Eh].
      destruct (anc_some_valid i p g Hp ltac:(pose proof (height_nonneg st Hwf g Hvg); lia) Hi) as (Hi' & _).
      destruct (anc_valid st Hwf j p Hp) as (q & Eq & _); [|congruence].
      pose proof (height_nonneg st Hwf g Hvg). lia.
Qed.

(** [FindFork] ends, with the highest block the branch shares with the chain. *)
Lemma FindFork_total c p :
  is_Some (st !! p) -> exists r, FindFork st c p = Some r /\ is_fork c p r.
Proof.
  intros Hp. pose proof (height_nonneg st Hwf p Hp). unfold FindFork.
  pose proof (fork_inv_init c p Hp) as Hinit. revert Hinit.
  generalize (if Height c <? height_of st p then GetAncestor st p (Height c) else Some p) as s0.
  intros s0 Hinit.
  destruct (run_loop_total (FindFork_step st c) (fork_inv c p) walk_left) with
    (fuel := S (S (Z.to_nat (height_of st p)))) (s := s0) as [r Er]; [|done| |].
  - intros s s' HI Hs. by apply (fork_step_inv c p).
  - destruct Hinit as (j & -> & Hj & _). destruct (anc st j p) as [q|] eqn:Eq; simpl; [|lia].
    destruct (anc_some_valid j p q Hp Hj Eq) as (_ & _ & ->). lia.
  - exists r. split; [done|].
    eapply (run_loop_inv (FindFork_step st c) (fork_inv c p) (is_fork c p)); [| |exact Hinit|exact Er].
    + intros s s' HI Hs. by apply (fork_step_inv c p s s' Hp HI Hs).
    + intros s r' HI Hs. by apply (fork_stop c p s r' Hp).
Qed.
End ActiveChain.

(** * The last common ancestor *)

Section CommonAncestor.
Context (st : store) (Hwf : wf_store st).

Definition ancestor (g a : ptr) : Prop := exists i, anc st i a = Some g.

Definition is_last_common (a b : ptr) (r : option ptr) : Prop :=
  match r with
  | Some f => ancestor f a /\ ancestor f b /\
      forall g, ancestor g a -> ancestor g b -> height_of st g <= height_of st f
  | None => forall g, ancestor g a -> ~ ancestor g b
  end.

Lemma ancestor_height g a :
  is_Some (st !! a) -> ancestor g a -> is_Some (st !! g) /\ height_of st g <= height_of st a.
Proof. intros Ha [i Hi]. destruct (anc_height st Hwf i a g Ha Hi). split; [done|lia]. Qed.

(** Only the block itself is an ancestor of its own height. *)
Lemma ancestor_level g a a' k :
  is_Some (st !! a) -> anc st k a = Some a' -> height_of st g <= height_of st a' ->
  ancestor g a <-> ancestor g a'.
Proof.
  intros Ha Hk Hg. destruct (anc_height st Hwf k a a' Ha Hk) as [Ha' Eh]. split.
  - intros [i Hi]. destruct (anc_height st Hwf i a g Ha Hi) as [_ Eg].
    exists (i - k)%nat. rewrite <- (anc_app _ _ _ _ _ Hk), <- Hi. f_equal. lia.
  - intros [i Hi]. exists (k + i)%nat. by rewrite (anc_app _ _ _ _ _ Hk).
Qed.

Lemma ancestor_same g a :
  is_Some (st !! a) -> ancestor g a -> height_of st g = height_of st a -> g = a.
Proof.
  intros Ha [i Hi] E. destruct (anc_height st Hwf i a g Ha Hi) as [_ Eg].
  replace i with O in Hi by lia. by injection Hi.
Qed.

(** The common ancestors are unchanged by climbing to the other's height. *)
Lemma is_last_common_level a a' b k r :
  is_Some (st !! a) -> is_Some (st !! b) -> anc st k a = Some a' ->
  height_of st b <= height_of st a' ->
  is_last_common a' b r -> is_last_common a b r.
Proof.
  intros Ha Hb Hk Hle.
  assert (Hsub : forall g, ancestor g b -> ancestor g a <-> ancestor g a').
  { intros g Hg. apply (ancestor_level g a a' k Ha Hk).
    pose proof (proj2 (ancestor_height g b Hb Hg)). lia. }
  destruct r as [f|]; simpl.
  - intros (H1 & H2 & H3). split_and!; [by apply Hsub|done|]. intros g Hga Hgb.
    apply H3; [by apply Hsub|done].
  - intros H g Hga Hgb. apply (H g); [by apply Hsub|done].
Qed.

Lemma is_last_common_sym a b r : is_last_common a b r -> is_last_common b a r.
Proof.
  destruct r as [f|]; simpl.
  - intros (H1 & H2 & H3). split_and!; auto.
  - intros H g Hg1 Hg2. apply (H g Hg2 Hg1).
Qed.

Lemma ancestor_refl a : ancestor a a.
Proof. by exists O. Qed.

Lemma common_loop_spec fuel a b :
  is_Some (st !! a) -> is_Some (st !! b) -> height_of st a = height_of st b ->
  (S (Z.to_nat (height_of st a)) < fuel)%nat ->
  is_last_common a b (common_loop fuel st (Some a) (Some b)).
Proof.
  revert a b. induction fuel as [|fuel IH]; intros a b Ha Hb Eh Hf; [lia|].
  cbn [common_loop]. destruct (Nat.eqb_spec a b) as [->|Hne].
  { split_and!; [apply ancestor_refl|apply ancestor_refl|]. intros g Hg _.
    apply (ancestor_height g b Hb Hg). }
  pose proof (height_nonneg st Hwf a Ha).
  destruct (decide (height_of st a = 0)) as [E0|].
  - rewrite !(parent_none st Hwf) by (done || lia). destruct fuel; [lia|]. simpl.
    intros g Hga Hgb. pose proof (ancestor_height g a Ha Hga) as [Hg Hle].
    pose proof (height_nonneg st Hwf g Hg).
    apply Hne. rewrite <- (ancestor_same g a), <- (ancestor_same g b); auto; lia.
  - destruct (parent_valid st Hwf a Ha ltac:(lia)) as (a' & Ea & Ha' & Eha).
    destruct (parent_valid st Hwf b Hb ltac:(lia)) as (b' & Eb & Hb' & Ehb).
    rewrite Ea, Eb. specialize (IH a' b' Ha' Hb' ltac:(lia) ltac:(lia)).
    assert (Hanc : forall x x', is_Some (st !! x) -> pprev_of st x = Some x' ->
      anc st 1 x = Some x') by (intros x x' _ Ex; cbn [anc]; by rewrite Ex).
    assert (Hlow : forall g, ancestor g a -> ancestor g b -> height_of st g <= height_of st a').
    { intros g Hga Hgb. pose proof (ancestor_height g a Ha Hga) as [Hg Hle].
      destruct (decide (height_of st g = height_of st a)); [|lia].
      destruct Hne. rewrite <- (ancestor_same g a), <- (ancestor_same g b); auto; lia. }
    assert (Hsub : forall g, height_of st g <= height_of st a' ->
      (ancestor g a <-> ancestor g a') /\ (ancestor g b <-> ancestor g b')).
    { intros g Hg. split.
      - apply (ancestor_level g a a' 1 Ha (Hanc a a' Ha Ea) Hg).
      - apply (ancestor_level g b b' 1 Hb (Hanc b b' Hb Eb)). lia. }
    destruct (common_loop fuel st (Some a') (Some b')) as [f|].
    + destruct IH as (H1 & H2 & H3).
      pose proof (proj2 (ancestor_height f a' Ha' H1)) as Hf'.
      destruct (Hsub f Hf') as [Sa Sb]. split_and!; [by apply Sa|by apply Sb|].
      intros g Hga Hgb. destruct (Hsub g (Hlow g Hga Hgb)) as [Ta Tb].
      apply H3; [by apply Ta|by apply Tb].
    + intros g Hga Hgb. destruct (Hsub g (Hlow g Hga Hgb)) as [Ta Tb].
      apply (IH g); [by apply Ta|by apply Tb].
Qed.

Lemma LastCommonAncestor_correct a b :
  is_Some (st !! a) -> is_Some (st !! b) ->
  is_last_common a b (LastCommonAncestor st a b).
Proof.
  intros Ha Hb. pose proof (height_nonneg st Hwf a Ha). pose proof (height_nonneg st Hwf b Hb).
  unfold LastCommonAncestor.
  destruct (Z.ltb_spec (height_of st b) (height_of st a)) as [Hlt|Hge];
    [|destruct (Z.ltb_spec (height_of st a) (height_of st b)) as [Hlt|Hge']].
  - destruct (Z.ltb_spec (height_of st a) (height_of st b)); [lia|].
    destruct (GetAncestor_some st Hwf a (height_of st b) Ha ltac:(lia)) as (q & -> & Hq & Eq & Hk).
    eapply is_last_common_level; [done|done|exact Hk|lia|].
    apply common_loop_spec; [done|done|done|lia].
  - destruct (GetAncestor_some st Hwf b (height_of st a) Hb ltac:(lia)) as (q & -> & Hq & Eq & Hk).
    apply is_last_common_sym. eapply is_last_common_level; [done|done|exact Hk|lia|].
    apply is_last_common_sym. apply common_loop_spec; [done|done|done|lia].
  - apply common_loop_spec; [done|done|lia|lia].
Qed.
End CommonAncestor.

(** * The block locator *)

Section Locator.
Context (st : store) (Hwf : wf_store st).

(** The blocks a locator lists from [p] on, the entries so far being [n] and the
    current step [step]: each next block is [step] lower (or genesis), and from
    the eleventh entry on the step doubles. *)
Inductive locates : nat -> Z -> ptr -> list ptr -> Prop :=
| locates_genesis n step p : height_of st p = 0 -> locates n step p [p]
| locates_step n step p q l :
    0 < height_of st p ->
    anc st (Z.to_nat (Z.min step (height_of st p))) p = Some q ->
    locates (S n) (if (10 <? S n)%nat then step * 2 else step) q l ->
    locates n step p (p :: l).

Definition hash_of (p : ptr) : uint256 := phashBlock (deref st p).

(** The jump of the loop, whichever way it is made. *)
Lemma locator_jump c p h :
  wf_chain st c -> is_Some (st !! p) -> 0 <= h <= height_of st p ->
  (if Contains st c p then chain_at c h else GetAncestor st p h) =
    anc st (Z.to_nat (height_of st p - h)) p.
Proof.
  intros Hc Hp Hh.
  destruct (GetAncestor_some st Hwf p h Hp Hh) as (q & Eg & _ & _ & Ea).
  destruct (Contains st c p) eqn:E; [|congruence].
  apply Contains_lookup in E; [|done..].
  pose proof (chain_below st Hwf c _ _ (Z.to_nat (height_of st p - h)) Hc E ltac:(lia)) as Hb.
  replace (Z.to_nat (height_of st p) - Z.to_nat (height_of st p - h))%nat with (Z.to_nat h) in Hb by lia.
  rewrite <- (Z2Nat.id h), chain_at_lookup by lia. rewrite Hb. simpl.
  do 2 f_equal. lia.
Qed.

Lemma locator_loop c fuel have p step :
  wf_chain st c -> is_Some (st !! p) -> 1 <= step -> (Z.to_nat (height_of st p) < fuel)%nat ->
  exists l, run_loop (GetLocator_step st c) fuel (have, Some p, step)
              = Some (have ++ map hash_of l) /\
    locates (length have) step p l.
Proof.
  intros Hc. revert have p step. induction fuel as [|fuel IH]; intros have p step Hp Hs Hf; [lia|].
  pose proof (height_nonneg st Hwf p Hp). cbn [run_loop GetLocator_step].
  destruct (Z.eqb_spec (height_of st p) 0) as [E0|Hne].
  - exists [p]. split; [done|]. by constructor.
  - rewrite locator_jump by (done || lia).
    replace (height_of st p - Z.max (height_of st p - step) 0)
      with (Z.min step (height_of st p)) by lia.
    destruct (anc_valid st Hwf (Z.to_nat (Z.min step (height_of st p))) p Hp ltac:(lia))
      as (q & Eq & Hq & Ehq). rewrite Eq, length_app. cbn [length].
    replace (length have + 1)%nat with (S (length have)) by lia.
    set (step' := if (10 <? S (length have))%nat then step * 2 else step).
    assert (1 <= step') by (unfold step'; case_match; lia).
    destruct (IH (have ++ [hash_of p]) q step' Hq ltac:(done) ltac:(lia)) as (l & El & Hl).
    exists (p :: l). rewrite length_app, Nat.add_1_r in Hl. unfold hash_of in El at 1. rewrite El.
    split; [by rewrite <- app_assoc|]. apply (locates_step _ _ _ q); [lia|done|done].
Qed.

(** A locator starts at its block, goes strictly down the branch and ends at
    the genesis block. *)
Lemma locates_branch n step p l :
  is_Some (st !! p) -> 1 <= step -> locates n step p l ->
  l !! 0%nat = Some p /\
  (forall i q, l !! i = Some q -> ancestor st q p) /\
  (forall i q r, l !! i = Some q -> l !! S i = Some r -> height_of st r < height_of st q) /\
  (exists g, last l = Some g /\ height_of st g = 0).
Proof.
  intros Hp Hs H. revert Hp Hs. induction H as [n step p E|n step p q l Hh Ea Hl IH]; intros Hp Hs.
  - split_and!; [done| | |by exists p].
    + intros [|i] q; [|done]. intros [= <-]. by exists O.
    + by intros [|i] q r.
  - destruct (anc_height st Hwf _ p q Hp Ea) as [Hq Eh].
    destruct IH as (H0 & H1 & H2 & g & Hg & Eg0); [done|case_match; lia|]. split_and!; [done| | |].
    + intros [|i] r; simpl; [intros [= <-]; by exists O|]. intros Hr.
      destruct (H1 i r Hr) as [j Hj]. eexists. rewrite <- Hj. apply (anc_app _ _ _ _ _ Ea).
    + intros [|i] r r'; simpl; [|apply H2]. rewrite H0. intros [= <-] [= <-]. lia.
    + exists g. split; [|done]. destruct l; [done|]. exact Hg.
Qed.

(** Its length is logarithmic in the height. *)
Lemma locates_length_doubling k n step p l :
  is_Some (st !! p) -> locates n step p l -> (10 <= n)%nat -> 1 <= step ->
  height_of st p <= step * (2 ^ Z.of_nat k - 1) -> (length l <= S k)%nat.
Proof.
  intros Hp H. revert k Hp. induction H as [n step p E|n step p q l Hh Ea Hl IH];
    intros k Hp Hn Hs Hk; cbn [length]; [lia|].
  destruct k as [|k]; [simpl in Hk; lia|].
  rewrite Nat2Z.inj_succ, Z.pow_succ_r in Hk by lia.
  destruct (anc_height st Hwf _ p q Hp Ea) as [Hq Eh].
  destruct (Nat.ltb_spec 10 (S n)); [|lia].
  apply le_n_S. apply IH; [done|lia|lia|].
  pose proof (Z.pow_pos_nonneg 2 (Z.of_nat k)). nia.
Qed.

Lemma locates_length k n step p l :
  is_Some (st !! p) -> locates n step p l -> (n <= 10)%nat -> 1 <= step ->
  height_of st p <= step * (2 ^ Z.of_nat k - 1) -> (length l <= S k + (10 - n))%nat.
Proof.
  intros Hp H. revert Hp. induction H as [n step p E|n step p q l Hh Ea Hl IH];
    intros Hp Hn Hs Hk; cbn [length]; [lia|].
  destruct (decide (n = 10%nat)) as [->|].
  - pose proof (locates_length_doubling k 10 step p (p :: l) Hp
      (locates_step 10 step p q l Hh Ea Hl) ltac:(lia) Hs Hk). cbn [length] in *. lia.
  - destruct (anc_height st Hwf _ p q Hp Ea) as [Hq Eh].
    destruct (Nat.ltb_spec 10 (S n)); [lia|].
    specialize (IH Hq ltac:(lia) Hs ltac:(lia)). lia.
Qed.

Lemma GetLocator_total c p :
  wf_chain st c -> is_Some (st !! p) ->
  exists l, GetLocator st c (Some p) = Some (map hash_of l) /\ locates 0 1 p l.
Proof.
  intros Hc Hp. unfold GetLocator.
  destruct (locator_loop c (S (S (Z.to_nat (height_of st p)))) [] p 1 Hc Hp) as (l & -> & Hl);
    [lia|lia|]. by exists l.
Qed.
End Locator.

(** * The median of the past times *)

Lemma past_times_anc st k p t :
  t ∈ past_times st k (Some p) <->
  exists i q, (i < k)%nat /\ anc st i p = Some q /\ t = GetBlockTime (deref st q).
Proof.
  revert p. induction k as [|k IH]; intros p; cbn [past_times].
  - split; [by intros ?%elem_of_nil|]. intros (i & q & ? & _). lia.
  - rewrite elem_of_cons. split.
    + intros [->|H]; [exists O, p; split_and!; [lia|done|done]|].
      destruct (pprev_of st p) as [r|] eqn:Er; [|destruct k; by apply elem_of_nil in H].
      apply IH in H as (i & q & Hi & Eq & ->). exists (S i), q. cbn [anc].
      rewrite Er. split_and!; [lia|done|done].
    + intros ([|i] & q & Hi & Eq & ->); cbn [anc] in Eq; [left; by injection Eq as ->|right].
      destruct (pprev_of st p) as [r|]; [|done]. apply IH. exists i, q. split_and!; [lia|done|done].
Qed.

(** The element in the middle of a sorted list has at most half of the list on
    either side. *)
Lemma sorted_nth_le (l : list Z) i j :
  Sorted Z.le l -> (i <= j < length l)%nat -> nth i l 0 <= nth j l 0.
Proof.
  intros Hs%Sorted_StronglySorted Hij; [|intros x y z; lia].
  revert i j Hij. induction Hs as [|x l Hs IH Hx]; intros i j Hij; cbn [length] in *; [lia|].
  destruct i as [|i], j as [|j]; cbn [nth]; try lia.
  - rewrite Forall_forall in Hx. apply Hx. apply list_elem_of_In. apply nth_In. lia.
  - apply IH. lia.
Qed.

Lemma count_sorted_below (l : list Z) m k :
  (forall i, (k <= i < length l)%nat -> ~ nth i l 0 < m) -> (k <= length l)%nat ->
  (length (filter (fun x => (x < m)%Z) l) <= k)%nat.
Proof.
  revert k. induction l as [|x l IH]; intros k H Hk; cbn [length] in *; [simpl; lia|].
  rewrite filter_cons. destruct k as [|k].
  - rewrite decide_False by (apply (H O); lia). apply IH; [|lia].
    intros i Hi. apply (H (S i)). lia.
  - assert (length (filter (fun x => (x < m)%Z) l) <= k)%nat.
    { apply IH; [|lia]. intros i Hi. apply (H (S i)). lia. }
    case_decide; cbn [length]; lia.
Qed.

Lemma count_sorted_above (l : list Z) m k :
  (forall i, (i < k)%nat -> ~ m < nth i l 0) -> (k <= length l)%nat ->
  (length (filter (fun x => (m < x)%Z) l) <= length l - k)%nat.
Proof.
  revert k. induction l as [|x l IH]; intros k H Hk; cbn [length] in *; [simpl; lia|].
  rewrite filter_cons. destruct k as [|k].
  - pose proof (IH O ltac:(lia) ltac:(lia)). case_decide; cbn [length]; lia.
  - rewrite decide_False by (apply (H O); lia).
    assert (length (filter (fun x => (m < x)%Z) l) <= length l - k)%nat; [|lia].
    apply IH; [|lia]. intros i Hi. apply (H (S i)). lia.
Qed.

Lemma filter_permutation_length (P : Z -> Prop) `{!forall x, Decision (P x)} l l' :
  l ≡ₚ l' -> length (filter P l) = length (filter P l').
Proof. intros Hp. by rewrite Hp. Qed.

Lemma median_spec (l : list Z) :
  l <> [] ->
  let m := nth (length (merge_sort Z.le l) / 2) (merge_sort Z.le l) 0 in
  m ∈ l /\ (2 * length (filter (fun x => (x < m)%Z) l) <= length l)%nat /\
  (2 * length (filter (fun x => (m < x)%Z) l) <= length l)%nat.
Proof.
  intros Hne. pose proof (merge_sort_Permutation Z.le l) as Hperm.
  assert (Hs : Sorted Z.le (merge_sort Z.le l)) by apply (Sorted_merge_sort Z.le l).
  set (s := merge_sort Z.le l) in *. intros m.
  assert (Hl : length s = length l) by (by apply Permutation_length).
  assert (0 < length l)%nat by (destruct l; [done|simpl; lia]).
  pose proof (Nat.div_mod_eq (length s) 2). pose proof (Nat.mod_upper_bound (length s) 2).
  set (k := (length s / 2)%nat) in *. split_and!.
  - rewrite <- Hperm. apply list_elem_of_In, nth_In. lia.
  - rewrite <- (filter_permutation_length _ _ _ Hperm).
    pose proof (count_sorted_below s m k) as Hc.
    assert (length (filter (fun x => (x < m)%Z) s) <= k)%nat; [|lia].
    apply Hc; [|lia]. intros i Hi. pose proof (sorted_nth_le s k i Hs ltac:(lia)). subst m. lia.
  - rewrite <- (filter_permutation_length _ _ _ Hperm).
    assert (length (filter (fun x => (m < x)%Z) s) <= length s - S k)%nat; [|lia].
    apply count_sorted_above; [|lia]. intros i Hi.
    pose proof (sorted_nth_le s i k Hs ltac:(lia)). subst m. lia.
Qed.

(** * A concrete tree, for the witnesses *)

#[export] Instance wf_index_dec st b : Decision (wf_index st b).
Proof. unfold wf_index. destruct (pprev b); apply _. Defined.

Lemma wf_store_map st : map_Forall (fun _ b => wf_index st b) st -> wf_store st.
Proof. intros H p b Hp. by apply (H p). Qed.

(** Connects a block with hash [p] and time [t] under [pp]. *)
Definition example_block (st : store) (pp : option ptr) (hash t : Z) : CBlockIndex :=
  let h := match pp with Some q => height_of st q + 1 | None => 0 end in
  {| phashBlock := u256 hash; pprev := pp; pnext := None; pskip := BuildSkip st pp h;
     bnChainTrust := zero W256; nHeight := h; nFile := 0; nDataPos := 0; nUndoPos := 0;
     nChainWork := zero W256; nTx := 0; nChainTx := 0; nStatus := 0; nFlags := 0; nStakeModifier := 0;
     nStakeModifierChecksum := 0; prevoutStake := null_outpoint; nStakeTime := 0;
     hashProofOfStake := zero W256; nMint := 0; nMoneySupply := 0; nVersion := 3;
     hashMerkleRoot := zero W256; nTime := t; nBits := 0; nNonce := 0; nSequenceId := 0 |}.

Definition example_add (st : store) (e : nat * option nat * Z) : store :=
  let '(p, pp, t) := e in <[p := example_block st pp (100 + Z.of_nat p) t]> st.

(** Blocks 0 to 5 in a row, 6 and 7 forking off block 3. *)
Definition example_store : store :=
  fold_left example_add
    [(0%nat, None, 1000); (1%nat, Some 0%nat, 1060); (2%nat, Some 1%nat, 1050);
     (3%nat, Some 2%nat, 1130); (4%nat, Some 3%nat, 1200); (5%nat, Some 4%nat, 1190);
     (6%nat, Some 3%nat, 1210); (7%nat, Some 6%nat, 1270)] ∅.

Definition example_chain : chain := map Some (seq 0 6).

Lemma example_store_wf : wf_store example_store.
Proof. apply wf_store_map. apply (bool_decide_unpack _). vm_compute. exact I. Qed.

Lemma example_chain_wf : wf_chain example_store example_chain.
Proof.
  intros i x Hi. exists i.
  do 6 (destruct i as [|i];
    [vm_compute in Hi; injection Hi as <-;
     split_and!; [done|vm_compute; eauto|done|by intros ?; vm_compute]|]).
  done.
Qed.

(** * The properties *)

(** On a well-formed block tree the skip-list walk of [GetAncestor] ends and
    returns the block that following [pprev] alone reaches at that height, and
    nothing when the height is negative or above the block. *)
Theorem GetAncestor_is_pprev_walk st p height :
  wf_store st -> is_Some (st !! p) ->
  GetAncestor st p height =
    (if (0 <=? height) && (height <=? height_of st p)
     then anc st (Z.to_nat (height_of st p - height)) p else None) /\
  ((0 <=? height) && (height <=? height_of st p) = true -> is_Some (GetAncestor st p height)).
Proof.
  intros Hwf Hp. rewrite (GetAncestor_spec st Hwf p height Hp). split; [done|].
  intros E. rewrite E. apply andb_true_iff in E as [E1%Z.leb_le E2%Z.leb_le].
  destruct (anc_valid st Hwf (Z.to_nat (height_of st p - height)) p Hp ltac:(lia)) as (q & -> & _).
  eauto.
Qed.

Lemma GetAncestor_is_pprev_walk_witness :
  GetAncestor example_store 7%nat 2 = anc example_store 3 7%nat /\
  GetAncestor example_store 7%nat 2 = Some 2%nat.
Proof.
  split; [|vm_compute; reflexivity].
  exact (proj1 (GetAncestor_is_pprev_walk example_store 7%nat 2 example_store_wf
    ltac:(vm_compute; eauto))).
Defined.

(** [SetTip] on a well-formed chain ends and leaves the chain that has at
    every height up to the new tip's the ancestor of the new tip at that height
    and nothing above, which is again a well-formed chain, whose tip it is. *)
Theorem SetTip_activates_branch st c p :
  wf_store st -> wf_chain st c -> is_Some (st !! p) ->
  exists c', SetTip st c (Some p) = Some c' /\ wf_chain st c' /\
    Height c' = height_of st p /\ Tip c' = Some p /\
    forall q, is_Some (st !! q) -> Contains st c' q = true <-> ancestor st q p.
Proof.
  intros Hwf Hc Hp. destruct (SetTip_spec st Hwf c p Hc Hp) as (c' & E & Hch).
  pose proof (height_nonneg st Hwf p Hp). pose proof (chain_of_wf st Hwf p c' Hp Hch) as Hwc.
  exists c'. destruct Hch as [Hl Hj]. split_and!; [done|done|unfold Height; lia| |].
  - unfold Tip. destruct (Nat.ltb_spec (length c') 1); [lia|].
    specialize (Hj O ltac:(lia)). rewrite Nat.sub_0_r in Hj.
    by replace (length c' - 1)%nat with (Z.to_nat (height_of st p)) by lia; rewrite Hj.
  - intros q Hq. rewrite (Contains_lookup st Hwf c' q Hq). pose proof (height_nonneg st Hwf q Hq). split.
    + intros Hi. pose proof (lookup_lt_Some _ _ _ Hi).
      specialize (Hj (Z.to_nat (height_of st p - height_of st q)) ltac:(lia)).
      replace (Z.to_nat (height_of st p) - _)%nat with (Z.to_nat (height_of st q)) in Hj by lia.
      eexists. rewrite Hi in Hj. by injection Hj as <-.
    + intros [i Hi]. destruct (anc_height st Hwf i p q Hp Hi) as [_ Eh].
      rewrite <- Hi, <- (Hj i ltac:(lia)). f_equal. lia.
Qed.

Lemma SetTip_activates_branch_witness :
  SetTip example_store example_chain (Some 7%nat) = Some (map Some [0; 1; 2; 3; 6; 7]%nat) /\
  exists c', SetTip example_store example_chain (Some 7%nat) = Some c' /\ wf_chain example_store c' /\
    Height c' = height_of example_store 7 /\ Tip c' = Some 7%nat /\
    forall q, is_Some (example_store !! q) ->
      Contains example_store c' q = true <-> ancestor example_store q 7%nat.
Proof.
  split; [vm_compute; reflexivity|].
  exact (SetTip_activates_branch example_store example_chain 7%nat example_store_wf
    example_chain_wf ltac:(vm_compute; eauto)).
Defined.

(** [FindFork] ends for every block and returns the highest block that the
    block's branch shares with the active chain, or nothing when they share none. *)
Theorem FindFork_highest_common st c p :
  wf_store st -> is_Some (st !! p) ->
  exists r, FindFork st c p = Some r /\ is_fork st c p r.
Proof. intros Hwf Hp. by apply FindFork_total. Qed.

Lemma FindFork_highest_common_witness :
  FindFork example_store example_chain 7%nat = Some (Some 3%nat) /\
  exists r, FindFork example_store example_chain 7%nat = Some r /\
    is_fork example_store example_chain 7%nat r.
Proof.
  split; [vm_compute; reflexivity|].
  exact (FindFork_highest_common example_store example_chain 7%nat example_store_wf
    ltac:(vm_compute; eauto)).
Defined.

(** [GetLocator] ends; its entries are the hashes of blocks that start at the
    requested one, go strictly down its branch and end at the genesis block, and
    there are at most [11 + k] of them when the height is below [2 ^ k]. *)
Theorem GetLocator_correct st c p k :
  wf_store st -> wf_chain st c -> is_Some (st !! p) -> height_of st p < 2 ^ Z.of_nat k ->
  exists l, GetLocator st c (Some p) = Some (map (hash_of st) l) /\
    l !! 0%nat = Some p /\
    (forall i q, l !! i = Some q -> ancestor st q p) /\
    (forall i q r, l !! i = Some q -> l !! S i = Some r -> height_of st r < height_of st q) /\
    (exists g, last l = Some g /\ height_of st g = 0) /\
    (length l <= 11 + k)%nat.
Proof.
  intros Hwf Hc Hp Hk. destruct (GetLocator_total st Hwf c p Hc Hp) as (l & E & Hl).
  destruct (locates_branch st Hwf 0 1 p l Hp ltac:(lia) Hl) as (H1 & H2 & H3 & H4).
  exists l. split_and!; [done..|].
  pose proof (locates_length st Hwf k 0 1 p l Hp Hl). lia.
Qed.

Lemma GetLocator_correct_witness :
  height_of example_store 7 < 2 ^ 3 /\
  exists l, GetLocator example_store example_chain (Some 7%nat) = Some (map (hash_of example_store) l) /\
    l !! 0%nat = Some 7%nat /\
    (forall i q, l !! i = Some q -> ancestor example_store q 7%nat) /\
    (forall i q r, l !! i = Some q -> l !! S i = Some r ->
       height_of example_store r < height_of example_store q) /\
    (exists g, last l = Some g /\ height_of example_store g = 0) /\
    (length l <= 11 + 3)%nat.
Proof.
  split; [vm_compute; reflexivity|].
  exact (GetLocator_correct example_store example_chain 7%nat 3 example_store_wf
    example_chain_wf ltac:(vm_compute; eauto) ltac:(vm_compute; reflexivity)).
Defined.

(** [LastCommonAncestor] returns a common ancestor of the two blocks that no
    other exceeds in height, and nothing only when there is none. *)
Theorem LastCommonAncestor_highest st a b :
  wf_store st -> is_Some (st !! a) -> is_Some (st !! b) ->
  is_last_common st a b (LastCommonAncestor st a b).
Proof. intros Hwf Ha Hb. by apply LastCommonAncestor_correct. Qed.

Lemma LastCommonAncestor_highest_witness :
  LastCommonAncestor example_store 7%nat 4%nat = Some 3%nat /\
  is_last_common example_store 7%nat 4%nat (LastCommonAncestor example_store 7%nat 4%nat).
Proof.
  split; [vm_compute; reflexivity|].
  exact (LastCommonAncestor_highest example_store 7%nat 4%nat example_store_wf
    ltac:(vm_compute; eauto) ltac:(vm_compute; eauto)).
Defined.

(** [GetMedianTimePast] is the time of the block or of one of its ten nearest
    ancestors, and at most half of those times are below it and at most half above. *)
Theorem GetMedianTimePast_median st p :
  let m := GetMedianTimePast st p in
  let ts := past_times st nMedianTimeSpan (Some p) in
  (exists i q, (i < 11)%nat /\ anc st i p = Some q /\ m = GetBlockTime (deref st q)) /\
  (2 * length (filter (fun t => (t < m)%Z) ts) <= length ts)%nat /\
  (2 * length (filter (fun t => (m < t)%Z) ts) <= length ts)%nat.
Proof.
  intros m ts. destruct (median_spec ts) as (Hin & H1 & H2); [done|].
  split_and!; [|exact H1|exact H2]. by apply past_times_anc in Hin.
Qed.
