(* ===== verification/Pow.v ===== *)
(** Proof of work: [GetNextWorkRequired], [CheckProofOfWork] and
    [GetBlockProof] of pow.cpp, and [CBlockIndex::GetBlockTrust] of chain.cpp.

    Integer arguments reach [base_uint] through C++'s overloads: a signed 64-bit
    factor is converted to [uint32_t] (the standard conversion wins over the
    constructor), a 64-bit divisor goes through the [uint64_t] constructor.
    [None] is a thrown [uint_error] or a failed assertion. *)

From S2P Require Import Prelude Uint256 Arith256 Params Chain.

(** * Operations *)

(** [a *= n] and [a /= n] for an [int64_t]. *)
Definition mul_i64 (a : uint256) (n : Z) : uint256 := mul32 a (u32 n).
Definition div_i64 (a : uint256) (n : Z) : option uint256 := div W256 a (u256 (u64 n)).

(** [~uint256(0)]. *)
Definition max_u256 : uint256 := bnot (u256 0).

(** The proof-of-stake branch, from the block's bits and the spacing to its
    predecessor. *)
Definition PosTarget (nBits nActualSpacing : Z) : option uint256 :=
  let bnTargetLimit := shr W256 max_u256 24 in
  let nTargetSpacing := 60 in
  let nTargetTimespan := 60 * 40 in
  let nActualSpacing := if nActualSpacing <? 0 then 1 else nActualSpacing in
  let bnNew := FromCompact nBits in
  let nInterval := Z.quot nTargetTimespan nTargetSpacing in
  let bnNew := mul_i64 bnNew ((nInterval - 1) * nTargetSpacing + nActualSpacing + nActualSpacing) in
  bnNew ← div_i64 bnNew ((nInterval + 1) * nTargetSpacing);
  Some (if le bnNew (u256 0) || gt bnNew bnTargetLimit then bnTargetLimit else bnNew).

(** The DarkGravity loop: the state after the blocks read so far. *)
Record dgw_state := {
  CountBlocks : Z;
  PastDifficultyAverage : uint256;
  PastDifficultyAveragePrev : uint256;
  nActualTimespan : Z;
  LastBlockTime : Z
}.

Definition PastBlocksMin : Z := 24.
Definition PastBlocksMax : Z := 24.

Definition dgw_start : dgw_state := {|
  CountBlocks := 0; PastDifficultyAverage := zero W256; PastDifficultyAveragePrev := zero W256;
  nActualTimespan := 0; LastBlockTime := 0 |}.

(** The body of the loop for one block. *)
Definition dgw_block (b : CBlockIndex) (s : dgw_state) : option dgw_state :=
  let count := CountBlocks s + 1 in
  avgs ←
    (if count <=? PastBlocksMin then
       avg ← (if count =? 1 then Some (FromCompact (nBits b))
              else div_i64 (add (mul_i64 (PastDifficultyAveragePrev s) count)
                                (FromCompact (nBits b))) (count + 1));
       Some (avg, avg)
     else Some (PastDifficultyAverage s, PastDifficultyAveragePrev s));
  let '(avg, avgPrev) := avgs in
  let span :=
    if 0 <? LastBlockTime s then nActualTimespan s + (LastBlockTime s - GetBlockTime b)
    else nActualTimespan s in
  Some {| CountBlocks := count; PastDifficultyAverage := avg;
          PastDifficultyAveragePrev := avgPrev; nActualTimespan := span;
          LastBlockTime := GetBlockTime b |}.

(** [n] iterations are left before [i > PastBlocksMax]. *)
Fixpoint dgw_loop (st : store) (n : nat) (reading : option ptr) (s : dgw_state)
    : option dgw_state :=
  match n, reading with
  | S n', Some q =>
      if 0 <? height_of st q then
        s' ← dgw_block (deref st q) s;
        match pprev_of st q with
        | None => Some s'
        | Some q' => dgw_loop st n' (Some q') s'
        end
      else Some s
  | _, _ => Some s
  end.

(** The clamp of the timespan and the retarget. *)
Definition dgw_retarget (ps : CChainParams) (s : dgw_state) : option uint256 :=
  let nTargetTimespan := CountBlocks s * TargetSpacing ps in
  let span := nActualTimespan s in
  let span := if span <? Z.quot nTargetTimespan 3 then Z.quot nTargetTimespan 3 else span in
  let span := if nTargetTimespan * 3 <? span then nTargetTimespan * 3 else span in
  let bnNew := mul_i64 (PastDifficultyAverage s) span in
  bnNew ← div_i64 bnNew nTargetTimespan;
  Some (if gt bnNew (ProofOfWorkLimit ps) then ProofOfWorkLimit ps else bnNew).

Definition GetNextWorkRequired (ps : CChainParams) (st : store) (pindexLast : option ptr)
    : option Z :=
  match pindexLast with
  | None => GetCompact (ProofOfWorkLimit ps) false
  | Some p =>
      if (height_of st p =? 0) || (height_of st p <? PastBlocksMin)
      then GetCompact (ProofOfWorkLimit ps) false
      else if LAST_POW_BLOCK ps <? height_of st p then
        let nActualSpacing :=
          if height_of st p =? 0 then 0
          else GetBlockTime (deref st p) -
               match pprev_of st p with Some q => GetBlockTime (deref st q) | None => 0 end in
        bnNew ← PosTarget (nBits (deref st p)) nActualSpacing;
        GetCompact bnNew false
      else
        s ← dgw_loop st (Z.to_nat PastBlocksMax) (Some p) dgw_start;
        bnNew ← dgw_retarget ps s;
        GetCompact bnNew false
  end.

Definition CheckProofOfWork (ps : CChainParams) (hash : uint256) (nBits : Z) : bool :=
  if SkipProofOfWorkCheck ps then true
  else
    let '(bnTarget, fNegative, fOverflow) := SetCompact nBits in
    if fNegative || EqualTo bnTarget 0 || fOverflow || gt bnTarget (ProofOfWorkLimit ps)
    then false
    else if gt hash bnTarget then false
    else true.

Definition GetBlockProof (nBits : Z) : option uint256 :=
  let '(bnTarget, fNegative, fOverflow) := SetCompact nBits in
  if fNegative || fOverflow || EqualTo bnTarget 0 then Some (u256 0)
  else
    q ← div W256 (bnot bnTarget) (add bnTarget (u256 1));
    Some (add q (u256 1)).

(** [CBlockIndex::GetBlockTrust]. *)
Definition GetBlockTrust (b : CBlockIndex) : option uint256 :=
  let bnTarget := FromCompact (nBits b) in
  if le bnTarget (u256 0) then Some (u256 0)
  else if IsProofOfStake b then div W256 (shl W256 (u256 1) 256) (add bnTarget (u256 1))
  else
    bnPoWTrust ← div W256 (shr W256 max_u256 20) (add bnTarget (u256 1));
    Some (if gt bnPoWTrust (u256 1) then bnPoWTrust else u256 1).

(** * Lemmas *)

Lemma wf_max : wf256 max_u256.
Proof. apply wf_limbs_dec. by vm_compute. Qed.

Lemma val_max : val max_u256 = 2 ^ 256 - 1.
Proof. by vm_compute. Qed.

Lemma wf_one : wf256 (u256 1) /\ val (u256 1) = 1.
Proof. split; [apply wf_limbs_dec|]; by vm_compute. Qed.

Lemma wf_nil : wf256 (u256 0) /\ val (u256 0) = 0.
Proof. split; [apply wf_limbs_dec|]; by vm_compute. Qed.

Lemma compact_value_nonneg c : word 32 c -> 0 <= compact_value c.
Proof.
  intros Hc. pose proof (compact_mantissa c ltac:(by destruct Hc)) as Hm.
  unfold compact_value. destruct (Z.leb_spec (Z.shiftr c 24) 3).
  - apply Z.div_pos; [lia|]. apply pow2_pos. lia.
  - apply Z.mul_nonneg_nonneg; [lia|]. apply Z.pow_nonneg. lia.
Qed.

(** The target of a compact number that does not overflow. *)
Lemma FromCompact_small c :
  word 32 c -> compact_value c < 2 ^ 256 -> val (FromCompact c) = compact_value c.
Proof.
  intros Hc H. rewrite (proj2 (FromCompact_spec c Hc)). apply Z.mod_small.
  pose proof (compact_value_nonneg c Hc). lia.
Qed.

Lemma EqualTo_zero a : wf256 a -> EqualTo a 0 = (val a =? 0).
Proof. intros Ha. apply (EqualTo_spec W256); [unfold W256; lia|done|by wunfold]. Qed.

Lemma SetCompact_parts c :
  SetCompact c = (FromCompact c, (SetCompact c).1.2, (SetCompact c).2).
Proof. unfold FromCompact. by destruct (SetCompact c) as [[v n] o]. Qed.

Lemma succ_target c :
  word 32 c -> wf256 (add (FromCompact c) (u256 1)) /\
    val (add (FromCompact c) (u256 1)) = val (FromCompact c) + 1.
Proof.
  intros Hc. destruct (FromCompact_spec c Hc) as [Hw _]. destruct wf_one as [H1 E1].
  split; [by apply wf_add|]. rewrite (val_add W256), E1 by done.
  change (modulus W256) with (2 ^ 256). apply Z.mod_small.
  pose proof (FromCompact_succ c Hc). pose proof (val_range _ _ Hw). lia.
Qed.

Lemma div_pos_spec a b :
  wf256 a -> wf256 b -> 0 < val b ->
  exists q, div W256 a b = Some q /\ wf256 q /\ val q = val a / val b.
Proof.
  intros Ha Hb Hp. destruct (div_spec W256 a b Ha Hb) as [[_ E]|(q & E & Hq & _ & Ev)]; [lia|].
  by exists q.
Qed.

Lemma CheckProofOfWork_spec ps hash c :
  wf_params ps -> wf256 hash -> word 32 c -> SkipProofOfWorkCheck ps = false ->
  CheckProofOfWork ps hash c = true <->
    Z.testbit c 23 = false /\ 0 < compact_value c <= val (ProofOfWorkLimit ps) /\
    val hash <= compact_value c.
Proof.
  intros (Hl & _) Hh Hc Hs. unfold CheckProofOfWork. rewrite Hs, SetCompact_parts.
  rewrite SetCompact_negative, SetCompact_overflow by done.
  destruct (FromCompact_spec c Hc) as [Hw Hv].
  rewrite EqualTo_zero, !(gt_spec W256) by done.
  pose proof (compact_value_nonneg c Hc) as Hn.
  pose proof (val_range _ _ Hl) as Rl. change (modulus W256) with (2 ^ 256) in Rl.
  destruct (Z.leb_spec (2 ^ 256) (compact_value c)) as [Ho|Ho].
  { rewrite orb_true_r. cbn [orb]. split; [done|]. lia. }
  rewrite FromCompact_small by done. rewrite orb_false_r.
  destruct (Z.testbit c 23), (Z.eqb_spec (compact_value c) 0),
    (Z.ltb_spec (val (ProofOfWorkLimit ps)) (compact_value c)),
    (Z.ltb_spec (compact_value c) (val hash)); cbn [andb orb negb];
    (split; [intros [=]|intros (? & ? & ?)]); try done; try lia; split_and!; lia || done.
Qed.

Lemma GetBlockProof_spec c :
  word 32 c ->
  exists w, GetBlockProof c = Some w /\ wf256 w /\
    val w = if Z.testbit c 23 || (2 ^ 256 <=? compact_value c) || (compact_value c =? 0)
            then 0 else 2 ^ 256 / (compact_value c + 1).
Proof.
  intros Hc. unfold GetBlockProof. rewrite SetCompact_parts.
  rewrite SetCompact_negative, SetCompact_overflow by done.
  destruct (FromCompact_spec c Hc) as [Hw Hv]. rewrite EqualTo_zero by done.
  pose proof (compact_value_nonneg c Hc) as Hn.
  destruct (Z.leb_spec (2 ^ 256) (compact_value c)) as [Ho|Ho].
  { rewrite !orb_true_r. cbn [orb]. exists (u256 0). destruct wf_nil. done. }
  rewrite FromCompact_small, !orb_false_r by done.
  destruct (Z.eqb_spec (compact_value c) 0) as [E0|E0].
  { rewrite !orb_true_r. exists (u256 0). destruct wf_nil. done. }
  destruct (Z.testbit c 23); cbn [andb orb negb].
  { exists (u256 0). destruct wf_nil. done. }
  destruct (succ_target c Hc) as [Ht Et]. rewrite FromCompact_small in Et by done.
  destruct (div_pos_spec (bnot (FromCompact c)) (add (FromCompact c) (u256 1)))
    as (q & -> & Hq & Eq); [by apply wf_bnot|done|lia|]. cbn [mbind option_bind].
  destruct wf_one as [H1 E1]. exists (add q (u256 1)).
  split_and!; [done|by apply wf_add|].
  rewrite (val_add W256), E1, Eq, Et, (val_bnot W256), FromCompact_small by done.
  change (modulus W256) with (2 ^ 256). set (t := compact_value c) in *.
  replace (2 ^ 256) with (2 ^ 256 - 1 - t + 1 * (t + 1)) at 3 by lia.
  rewrite Z.div_add by lia. apply Z.mod_small.
  assert (0 <= (2 ^ 256 - 1 - t) / (t + 1)) by (apply Z.div_pos; lia).
  assert ((2 ^ 256 - 1 - t) / (t + 1) < 2 ^ 256 - 1); [|lia].
  apply Z.div_lt_upper_bound; [lia|]. nia.
Qed.

Lemma GetBlockTrust_spec b :
  word 32 (nBits b) ->
  let t := val (FromCompact (nBits b)) in
  exists w, GetBlockTrust b = Some w /\ wf256 w /\
    val w = if t =? 0 then 0
            else if IsProofOfStake b then 0
            else Z.max 1 ((2 ^ 236 - 1) / (t + 1)).
Proof.
  intros Hc t. unfold GetBlockTrust. destruct (FromCompact_spec _ Hc) as [Hw _].
  destruct wf_nil as [H0 E0], wf_one as [H1 E1].
  rewrite (le_spec W256), E0 by done. fold t.
  pose proof (val_range _ _ Hw) as Rt. fold t in Rt.
  destruct (Z.leb_spec t 0), (Z.eqb_spec t 0); try lia; [by exists (u256 0)|].
  destruct (succ_target _ Hc) as [Ht Et]. fold t in Et.
  destruct (IsProofOfStake b).
  - assert (E : shl W256 (u256 1) 256 = u256 0) by (by vm_compute). rewrite E.
    destruct (div_pos_spec (u256 0) (add (FromCompact (nBits b)) (u256 1)))
      as (q & -> & Hq & Eq); [done|done|lia|]. exists q. split_and!; [done|done|].
    rewrite Eq, E0, Et. apply Z.div_0_l. lia.
  - destruct (div_pos_spec (shr W256 max_u256 20) (add (FromCompact (nBits b)) (u256 1)))
      as (q & -> & Hq & Eq); [apply wf_shr, wf_max|done|lia|]. cbn [mbind option_bind].
    rewrite (gt_spec W256), E1 by done.
    rewrite (val_shr W256), val_max, Et in Eq by (apply wf_max || lia).
    change ((2 ^ 256 - 1) / 2 ^ 20) with (2 ^ 236 - 1) in Eq. rewrite <- Eq.
    assert (0 <= val q) by apply (val_range _ _ Hq).
    destruct (Z.ltb_spec 1 (val q)); [exists q|exists (u256 1)]; split_and!; try done; lia.
Qed.

(** ** Retargeting *)

Lemma mul_i64_spec a n :
  wf256 a -> wf256 (mul_i64 a n) /\ val (mul_i64 a n) = (val a * u32 n) mod 2 ^ 256.
Proof.
  intros Ha. unfold mul_i64. split; [apply wf_mul32|rewrite (val_mul32 W256)]; auto with words.
Qed.

Lemma mul_i64_small a n :
  wf256 a -> 0 <= n < 2 ^ 32 -> val a * n < 2 ^ 256 -> val (mul_i64 a n) = val a * n.
Proof.
  intros Ha Hn H. rewrite (proj2 (mul_i64_spec a n Ha)), u32_small by (by wunfold).
  apply Z.mod_small. pose proof (val_range _ _ Ha). nia.
Qed.

Lemma div_i64_spec a n :
  wf256 a -> 0 < n < 2 ^ 64 -> exists q, div_i64 a n = Some q /\ wf256 q /\ val q = val a / n.
Proof.
  intros Ha Hn. unfold div_i64. rewrite u64_small by (wunfold; lia).
  assert (Hw : word 64 n) by (wunfold; lia).
  destruct (div_pos_spec a (u256 n) Ha (wf_u256 n Hw)) as (q & E & Hq & Ev);
    rewrite ?val_u256 in * by done; [lia|]. by exists q.
Qed.

(** The limit of the proof-of-stake branch. *)
Definition PosTargetLimit : Z := 2 ^ 232 - 1.

Definition pos_factor (spacing : Z) : Z :=
  2340 + 2 * (if spacing <? 0 then 1 else spacing).

Lemma PosTarget_spec c sp :
  word 32 c ->
  let t := (val (FromCompact c) * u32 (pos_factor sp)) mod 2 ^ 256 / 2460 in
  exists r, PosTarget c sp = Some r /\ wf256 r /\
    val r = if (t =? 0) || (PosTargetLimit <? t) then PosTargetLimit else t.
Proof.
  intros Hc t. unfold PosTarget. destruct (FromCompact_spec c Hc) as [Hw _].
  cbn [Z.quot Z.quotrem Z.pos_div_eucl fst].
  replace ((Z.quot (60 * 40) 60 - 1) * 60 + (if sp <? 0 then 1 else sp) + (if sp <? 0 then 1 else sp))
    with (pos_factor sp) by (unfold pos_factor; change (Z.quot (60 * 40) 60) with 40; lia).
  change ((Z.quot (60 * 40) 60 + 1) * 60) with 2460.
  destruct (mul_i64_spec (FromCompact c) (pos_factor sp) Hw) as [Hm Em].
  destruct (div_i64_spec _ 2460 Hm ltac:(lia)) as (q & -> & Hq & Eq). cbn [mbind option_bind].
  rewrite Em in Eq. fold t in Eq. destruct wf_nil as [H0 E0].
  pose proof wf_max as Hmax. pose proof val_max as Emax.
  assert (Hlim : wf256 (shr W256 max_u256 24)) by (by apply wf_shr).
  assert (Elim : val (shr W256 max_u256 24) = PosTargetLimit).
  { rewrite (val_shr W256), Emax by (done || lia). done. }
  rewrite (le_spec W256), (gt_spec W256), E0, Eq, Elim by done.
  pose proof (val_range _ _ Hq).
  destruct (Z.leb_spec t 0), (Z.eqb_spec t 0); try lia; cbn [orb];
    [eexists; split_and!; done|].
  destruct (PosTargetLimit <? t); eexists; split_and!; done.
Qed.

(** ** The DarkGravity average *)

Fixpoint past_blocks (st : store) (n : nat) (p : ptr) : list CBlockIndex :=
  match n with
  | O => []
  | S n' => deref st p :: match pprev_of st p with Some q => past_blocks st n' q | None => [] end
  end.

(** The running average: after [k] targets the next one weighs [1 / (k + 2)]. *)
Fixpoint dgw_average_from (k acc : Z) (ts : list Z) : Z :=
  match ts with
  | [] => acc
  | t :: ts' => dgw_average_from (k + 1) ((acc * (k + 1) + t) / (k + 2)) ts'
  end.

Definition dgw_average (ts : list Z) : Z :=
  match ts with [] => 0 | t :: ts' => dgw_average_from 1 t ts' end.

Definition target_of (b : CBlockIndex) : Z := val (FromCompact (nBits b)).

(** What the retarget theorem asks of a block it reads. *)
Definition dgw_ok (b : CBlockIndex) : Prop :=
  word 32 (nBits b) /\ target_of b < 2 ^ 240 /\ 0 < GetBlockTime b.

Lemma average_bound a k t B :
  0 <= a < B -> 0 <= t < B -> 0 <= k -> 0 <= (a * k + t) / (k + 1) < B.
Proof.
  intros Ha Ht Hk. split; [apply Z.div_pos; nia|]. apply Z.div_lt_upper_bound; nia.
Qed.

Lemma dgw_average_from_bound k acc ts B :
  0 <= acc < B -> 0 <= k -> Forall (fun t => 0 <= t < B) ts ->
  0 <= dgw_average_from k acc ts < B.
Proof.
  intros Ha Hk Hts. revert k acc Ha Hk. induction Hts as [|t ts Ht Hts IH]; intros k acc Ha Hk;
    cbn [dgw_average_from]; [done|]. apply IH; [|lia].
  replace (k + 2) with (k + 1 + 1) by lia. apply average_bound; lia.
Qed.

Lemma dgw_block_next b s :
  dgw_ok b -> 1 <= CountBlocks s < 24 -> wf256 (PastDifficultyAveragePrev s) ->
  val (PastDifficultyAveragePrev s) < 2 ^ 240 -> 0 < LastBlockTime s ->
  exists s', dgw_block b s = Some s' /\ CountBlocks s' = CountBlocks s + 1 /\
    PastDifficultyAveragePrev s' = PastDifficultyAverage s' /\ wf256 (PastDifficultyAverage s') /\
    val (PastDifficultyAverage s') =
      (val (PastDifficultyAveragePrev s) * (CountBlocks s + 1) + target_of b) / (CountBlocks s + 2) /\
    nActualTimespan s' = nActualTimespan s + (LastBlockTime s - GetBlockTime b) /\
    LastBlockTime s' = GetBlockTime b.
Proof.
  intros (Hb & Ht & Htime) Hk Ha Hlt Hlast. unfold dgw_block, PastBlocksMin.
  rewrite (proj2 (Z.leb_le _ 24)), (proj2 (Z.eqb_neq _ 1)), (proj2 (Z.ltb_lt 0 _)) by lia.
  destruct (FromCompact_spec _ Hb) as [Hw _]. fold (target_of b) in *.
  pose proof (val_range _ _ Ha) as Ra. pose proof (val_range _ _ Hw) as Rw. fold (target_of b) in Rw.
  set (k := CountBlocks s) in *. set (avg := PastDifficultyAveragePrev s) in *.
  assert (Em : val (mul_i64 avg (k + 1)) = val avg * (k + 1)) by (apply mul_i64_small; [done|lia|nia]).
  pose proof (proj1 (mul_i64_spec avg (k + 1) Ha)) as Hm.
  assert (Es : val (add (mul_i64 avg (k + 1)) (FromCompact (nBits b))) = val avg * (k + 1) + target_of b).
  { rewrite (val_add W256), Em by done. change (modulus W256) with (2 ^ 256).
    fold (target_of b). apply Z.mod_small. nia. }
  destruct (div_i64_spec (add (mul_i64 avg (k + 1)) (FromCompact (nBits b))) (k + 1 + 1))
    as (q & -> & Hq & Eq); [by apply wf_add|lia|]. cbn [mbind option_bind].
  eexists. split; [reflexivity|]. cbn [CountBlocks PastDifficultyAverage
    PastDifficultyAveragePrev nActualTimespan LastBlockTime].
  split_and!; try done. rewrite Eq, Es. f_equal. lia.
Qed.

Lemma dgw_loop_spec st n q s :
  wf_store st -> is_Some (st !! q) -> Z.of_nat n <= height_of st q ->
  1 <= CountBlocks s -> CountBlocks s + Z.of_nat n <= 24 ->
  wf256 (PastDifficultyAverage s) -> PastDifficultyAveragePrev s = PastDifficultyAverage s ->
  val (PastDifficultyAverage s) < 2 ^ 240 ->
  0 < LastBlockTime s -> Forall dgw_ok (past_blocks st n q) ->
  exists s', dgw_loop st n (Some q) s = Some s' /\
    CountBlocks s' = CountBlocks s + Z.of_nat n /\ wf256 (PastDifficultyAverage s') /\
    val (PastDifficultyAverage s') =
      dgw_average_from (CountBlocks s) (val (PastDifficultyAverage s))
        (map target_of (past_blocks st n q)) /\
    nActualTimespan s' = nActualTimespan s + LastBlockTime s -
      List.last (map GetBlockTime (past_blocks st n q)) (LastBlockTime s).
Proof.
  intros Hwf. revert q s. induction n as [|n IH]; intros q s Hq Hh Hk Hkn Ha Hprev Hlt Hlast Hok;
    cbn [dgw_loop past_blocks map dgw_average_from].
  - exists s. split_and!; [done|lia|done|done|simpl; lia].
  - rewrite (proj2 (Z.ltb_lt 0 _)) by lia. cbn [past_blocks] in Hok.
    apply Forall_cons in Hok as [Hb Hok].
    destruct (parent_valid st Hwf q Hq ltac:(lia)) as (r & Er & Hr & Ehr). rewrite Er in *.
    destruct (dgw_block_next (deref st q) s) as (s1 & -> & E1 & E2 & E3 & E4 & E5 & E6);
      rewrite ?Hprev; [done|lia|done|done|done|]. cbn [mbind option_bind].
    destruct Hb as (Hbb & Hbt & Hbs). destruct (FromCompact_spec _ Hbb) as [Hw _].
    pose proof (val_range _ _ Hw) as Rw. fold (target_of (deref st q)) in Rw.
    pose proof (val_range _ _ Ha) as Ra. rewrite Hprev in E4.
    destruct (IH r s1) as (s' & -> & F1 & F2 & F3 & F4); [done|lia|lia|lia|done|done| |lia|done|].
    { rewrite E4. replace (CountBlocks s + 2) with (CountBlocks s + 1 + 1) by lia.
      apply average_bound; lia. }
    exists s'. split_and!; [done|lia|done| |].
    + rewrite F3, E1, E4. done.
    + rewrite F4, E5, E6, last_cons_default. lia.
Qed.

Definition clamp (lo hi x : Z) : Z := Z.min hi (Z.max lo x).

(** What the DarkGravity branch computes from the targets and times it reads. *)
Definition dgw_target (ps : CChainParams) (bs : list CBlockIndex) : Z :=
  let T := 24 * TargetSpacing ps in
  let times := map GetBlockTime bs in
  let span := List.hd 0 times - List.last times 0 in
  Z.min (val (ProofOfWorkLimit ps))
    (dgw_average (map target_of bs) * clamp (T / 3) (3 * T) span / T).

Lemma clamp_if x lo hi :
  lo <= hi ->
  (let y := if x <? lo then lo else x in if hi <? y then hi else y) = clamp lo hi x.
Proof.
  intros H. cbn zeta. unfold clamp. destruct (Z.ltb_spec x lo);
    [destruct (Z.ltb_spec hi lo)|destruct (Z.ltb_spec hi x)]; lia.
Qed.

Lemma dgw_retarget_spec ps s :
  wf_params ps -> 72 * TargetSpacing ps < 2 ^ 16 -> CountBlocks s = 24 ->
  wf256 (PastDifficultyAverage s) -> val (PastDifficultyAverage s) < 2 ^ 240 ->
  let T := 24 * TargetSpacing ps in
  exists r, dgw_retarget ps s = Some r /\ wf256 r /\
    val r = Z.min (val (ProofOfWorkLimit ps))
      (val (PastDifficultyAverage s) * clamp (T / 3) (3 * T) (nActualTimespan s) / T).
Proof.
  intros (Hl & Hlp & Hsp & _) Hsp' Hc Ha Hlt T. unfold dgw_retarget. rewrite Hc. fold T.
  pose proof (val_range _ _ Ha) as Ra. rewrite Z.quot_div_nonneg by (unfold T; lia).
  assert (HT : 0 <= T / 3 <= T) by (unfold T; split; [apply Z.div_pos; lia|
    apply Z.div_le_upper_bound; lia]).
  assert (Hle : T / 3 <= T * 3) by (unfold T in *; lia).
  pose proof (clamp_if (nActualTimespan s) (T / 3) (T * 3) Hle) as Ec. cbv zeta in Ec |- *.
  rewrite Ec. replace (3 * T) with (T * 3) by lia.
  assert (Hcl : 0 <= clamp (T / 3) (T * 3) (nActualTimespan s) < 2 ^ 16) by (unfold clamp, T in *; lia).
  set (sp := clamp (T / 3) (T * 3) (nActualTimespan s)) in *.
  pose proof (proj1 (mul_i64_spec (PastDifficultyAverage s) sp Ha)) as Hm.
  assert (Em : val (mul_i64 (PastDifficultyAverage s) sp) = val (PastDifficultyAverage s) * sp)
    by (apply mul_i64_small; [done|lia|nia]).
  destruct (div_i64_spec _ T Hm) as (q & -> & Hq & Eq); [unfold T; lia|]. cbn [mbind option_bind].
  rewrite Em in Eq. rewrite (gt_spec W256), Eq by done.
  destruct (Z.ltb_spec (val (ProofOfWorkLimit ps)) (val (PastDifficultyAverage s) * sp / T));
    eexists; (split; [reflexivity|]); split; try done; lia.
Qed.

Lemma dgw_loop_start st p :
  wf_store st -> is_Some (st !! p) -> 24 <= height_of st p ->
  Forall dgw_ok (past_blocks st 24 p) ->
  exists s', dgw_loop st 24 (Some p) dgw_start = Some s' /\
    CountBlocks s' = 24 /\ wf256 (PastDifficultyAverage s') /\
    val (PastDifficultyAverage s') = dgw_average (map target_of (past_blocks st 24 p)) /\
    val (PastDifficultyAverage s') < 2 ^ 240 /\
    nActualTimespan s' = List.hd 0 (map GetBlockTime (past_blocks st 24 p)) -
      List.last (map GetBlockTime (past_blocks st 24 p)) 0.
Proof.
  intros Hwf Hp Hh Hok. change 24%nat with (S 23) in *. remember 23%nat as n eqn:En.
  cbn [dgw_loop past_blocks] in *.
  rewrite (proj2 (Z.ltb_lt 0 _)) by lia.
  apply Forall_cons in Hok as [Hb Hok]. destruct Hb as (Hbb & Hbt & Hbs).
  destruct (parent_valid st Hwf p Hp ltac:(lia)) as (r & Er & Hr & Ehr). rewrite Er in *.
  destruct (FromCompact_spec _ Hbb) as [Hw _].
  set (s1 := {| CountBlocks := 1; PastDifficultyAverage := FromCompact (nBits (deref st p));
    PastDifficultyAveragePrev := FromCompact (nBits (deref st p)); nActualTimespan := 0;
    LastBlockTime := GetBlockTime (deref st p) |}).
  change (dgw_block (deref st p) dgw_start) with (Some s1). cbn [mbind option_bind].
  destruct (dgw_loop_spec st n r s1) as (s' & -> & F1 & F2 & F3 & F4);
    [done|done|lia|cbn; lia|cbn; lia|done|done|done|done|done|].
  assert (Ht : Forall (fun t => 0 <= t < 2 ^ 240) (map target_of (past_blocks st n r))).
  { apply Forall_map. eapply Forall_impl; [exact Hok|]. intros b (Hb1 & Hb2 & _). simpl.
    destruct (FromCompact_spec _ Hb1) as [Hwb _]. pose proof (val_range _ _ Hwb).
    unfold target_of in *. lia. }
  exists s'. split_and!; [done|rewrite F1, En; done|done|done| |].
  - rewrite F3. apply dgw_average_from_bound; [|cbn; lia|done].
    pose proof (val_range _ _ Hw). unfold target_of in Hbt. cbn [PastDifficultyAverage s1]. lia.
  - rewrite F4. cbn [map List.hd]. rewrite last_cons_default. cbn [nActualTimespan LastBlockTime s1]. lia.
Qed.

(** * A concrete chain, for the witnesses *)

Definition pow_block (st : store) (i : nat) : CBlockIndex :=
  let b := example_block st (match i with O => None | S j => Some j end) (Z.of_nat i)
             (1500000000 + 45 * Z.of_nat i) in
  {| phashBlock := phashBlock b; pprev := pprev b; pnext := None; pskip := pskip b;
     bnChainTrust := zero W256; nHeight := nHeight b; nFile := 0; nDataPos := 0; nUndoPos := 0;
     nChainWork := zero W256; nTx := 0; nChainTx := 0; nStatus := 0; nFlags := 0;
     nStakeModifier := 0; nStakeModifierChecksum := 0; prevoutStake := null_outpoint;
     nStakeTime := 0; hashProofOfStake := zero W256; nMint := 0; nMoneySupply := 0;
     nVersion := 3; hashMerkleRoot := zero W256; nTime := nTime b; nBits := 0x1d00ffff;
     nNonce := 0; nSequenceId := 0 |}.

(** Thirty proof-of-work blocks, 45 seconds apart. *)
Definition pow_store : store :=
  fold_left (fun st i => <[i := pow_block st i]> st) (seq 0 30) ∅.

Lemma pow_store_wf : wf_store pow_store.
Proof. apply wf_store_map. apply (bool_decide_unpack _). vm_compute. exact I. Qed.

Definition dgw_okb (b : CBlockIndex) : bool :=
  (0 <=? nBits b) && (nBits b <? 2 ^ 32) && (target_of b <? 2 ^ 240) && (0 <? GetBlockTime b).

Lemma dgw_okb_ok bs : forallb dgw_okb bs = true -> Forall dgw_ok bs.
Proof.
  intros H. apply List.Forall_forall. intros b Hb. rewrite forallb_forall in H.
  specialize (H b Hb). unfold dgw_okb in H. rewrite !andb_true_iff in H.
  destruct H as [[[H1 H2] H3] H4]. unfold dgw_ok. wunfold. lia.
Qed.

(** * The properties *)

(** [CheckProofOfWork] accepts a hash exactly when the target is positive
    (neither the sign bit nor a zero), does not exceed the limit of the network
    and is at least the hash; in particular overflowing bits never pass. *)
Theorem CheckProofOfWork_iff ps hash nBits :
  wf_params ps -> wf256 hash -> word 32 nBits -> SkipProofOfWorkCheck ps = false ->
  CheckProofOfWork ps hash nBits = true <->
    Z.testbit nBits 23 = false /\ 0 < compact_value nBits <= val (ProofOfWorkLimit ps) /\
    val hash <= compact_value nBits.
Proof. intros. by apply CheckProofOfWork_spec. Qed.

Lemma CheckProofOfWork_iff_witness :
  CheckProofOfWork mainParams (u256 77) 0x1e0ffff0 = true /\
  (CheckProofOfWork mainParams (u256 77) 0x1e0ffff0 = true <->
    Z.testbit 0x1e0ffff0 23 = false /\
    0 < compact_value 0x1e0ffff0 <= val (ProofOfWorkLimit mainParams) /\
    val (u256 77) <= compact_value 0x1e0ffff0).
Proof.
  split; [vm_compute; reflexivity|].
  exact (CheckProofOfWork_iff mainParams (u256 77) 0x1e0ffff0
    (Forall_inv networks_wf) (wf_limbs_dec (u256 77) eq_refl) ltac:(split; vm_compute; congruence) eq_refl).
Defined.

(** [GetBlockProof] never divides by zero and is the expected number of
    hashes, the floor of [2 ^ 256 / (target + 1)], for a valid target and 0 for a
    negative, overflowing or zero one. *)
Theorem GetBlockProof_expected_hashes nBits :
  word 32 nBits ->
  exists w, GetBlockProof nBits = Some w /\ wf256 w /\
    val w = if Z.testbit nBits 23 || (2 ^ 256 <=? compact_value nBits) || (compact_value nBits =? 0)
            then 0 else 2 ^ 256 / (compact_value nBits + 1).
Proof. intros. by apply GetBlockProof_spec. Qed.

Lemma GetBlockProof_expected_hashes_witness :
  GetBlockProof 0x207fffff = Some (u256 2) /\
  exists w, GetBlockProof 0x207fffff = Some w /\ wf256 w /\
    val w = if Z.testbit 0x207fffff 23 || (2 ^ 256 <=? compact_value 0x207fffff)
                || (compact_value 0x207fffff =? 0)
            then 0 else 2 ^ 256 / (compact_value 0x207fffff + 1).
Proof.
  split; [vm_compute; reflexivity|].
  exact (GetBlockProof_expected_hashes 0x207fffff ltac:(split; vm_compute; congruence)).
Defined.

(** [GetBlockTrust] of a proof-of-work block is the floor of
    [(2 ^ 236 - 1) / (target + 1)], at least 1; that of a proof-of-stake block is 0
    whatever its target, because the code's [uint256(1) << 256] is 0. *)
Theorem GetBlockTrust_value b :
  word 32 (nBits b) ->
  let t := val (FromCompact (nBits b)) in
  exists w, GetBlockTrust b = Some w /\ wf256 w /\
    val w = if t =? 0 then 0
            else if IsProofOfStake b then 0
            else Z.max 1 ((2 ^ 236 - 1) / (t + 1)).
Proof. intros. by apply GetBlockTrust_spec. Qed.

Lemma GetBlockTrust_value_witness :
  option_map val (GetBlockTrust (deref pow_store 3%nat)) = Some 4096 /\
  exists w, GetBlockTrust (deref pow_store 3%nat) = Some w /\ wf256 w /\
    val w = (let t := val (FromCompact (nBits (deref pow_store 3%nat))) in
             if t =? 0 then 0 else if IsProofOfStake (deref pow_store 3%nat) then 0
             else Z.max 1 ((2 ^ 236 - 1) / (t + 1))).
Proof.
  split; [vm_compute; reflexivity|].
  exact (GetBlockTrust_value (deref pow_store 3%nat) ltac:(split; vm_compute; congruence)).
Defined.

(** Above the last proof-of-work block [GetNextWorkRequired] always returns
    bits: the compact form of the previous target times [2340 + 2 * spacing] (the
    factor cut to 32 bits, the product to 256, a negative spacing counted as 1)
    over 2460, replaced by [2 ^ 232 - 1] when it is zero or larger; the bits decode
    to a positive target that does not exceed this one. *)
Theorem GetNextWorkRequired_stake ps st p q :
  wf_store st -> is_Some (st !! p) -> pprev_of st p = Some q ->
  word 32 (nBits (deref st p)) -> 24 <= height_of st p -> LAST_POW_BLOCK ps < height_of st p ->
  let f := pos_factor (GetBlockTime (deref st p) - GetBlockTime (deref st q)) in
  let t := (target_of (deref st p) * u32 f) mod 2 ^ 256 / 2460 in
  let new := if (t =? 0) || (PosTargetLimit <? t) then PosTargetLimit else t in
  exists c k, GetNextWorkRequired ps st (Some p) = Some c /\ word 32 c /\
    Z.testbit c 23 = false /\ compact_value c = truncate_to new k /\
    0 < compact_value c <= new.
Proof.
  intros Hwf Hp Hq Hb Hh Hpow f t new. unfold GetNextWorkRequired, PastBlocksMin.
  rewrite (proj2 (Z.eqb_neq _ 0)), (proj2 (Z.ltb_ge _ 24)) by lia. cbn [orb].
  rewrite (proj2 (Z.ltb_lt _ _) Hpow), Hq.
  destruct (PosTarget_spec (nBits (deref st p))
    (GetBlockTime (deref st p) - GetBlockTime (deref st q)) Hb) as (r & -> & Hr & Er).
  cbn [mbind option_bind]. fold (target_of (deref st p)) f t new in Er.
  destruct (GetCompact_FromCompact r Hr) as (c & k & -> & Hc & _ & _ & Ev & Ec & Hs & Hle & Hpos).
  exists c, k. rewrite Er in *. rewrite <- Ec in Ev. split_and!; [done|done|done|done| |lia].
  assert (0 < new); [|lia]. unfold new. destruct (FromCompact_spec _ Hb) as [Hw _].
  assert (0 <= t) by (apply Z.div_pos; [apply Z.mod_pos_bound; lia|lia]).
  destruct (Z.eqb_spec t 0), (Z.ltb_spec PosTargetLimit t); cbn [orb]; unfold PosTargetLimit in *; lia.
Qed.

Lemma GetNextWorkRequired_stake_witness :
  let ps := {| ProofOfWorkLimit := ProofOfWorkLimit mainParams; MaxReorganizationDepth := 100;
     EnforceBlockUpgradeMajority := 750; RejectBlockOutdatedMajority := 950;
     ToCheckBlockUpgradeMajority := 1000; TargetTimespan := 60; TargetSpacing := 60;
     COINBASE_MATURITY := 21; MasternodeCountDrift := 20; MaxMoneyOut := 21000000 * COIN;
     LAST_POW_BLOCK := 20; ModifierUpgradeBlock := 1; SkipProofOfWorkCheck := false;
     GenesisTime := 0 |} in
  GetNextWorkRequired ps pow_store (Some 29%nat) = Some 486603999 /\
  exists c k, GetNextWorkRequired ps pow_store (Some 29%nat) = Some c /\ word 32 c /\
    Z.testbit c 23 = false /\
    compact_value c = truncate_to (target_of (deref pow_store 29%nat) * 2430 / 2460) k /\
    0 < compact_value c <= target_of (deref pow_store 29%nat) * 2430 / 2460.
Proof.
  intros ps. split; [vm_compute; reflexivity|].
  exact (GetNextWorkRequired_stake ps pow_store 29%nat 28%nat pow_store_wf
    ltac:(vm_compute; eauto) ltac:(vm_compute; reflexivity)
    ltac:(split; vm_compute; congruence) ltac:(vm_compute; congruence)
    ltac:(vm_compute; reflexivity)).
Defined.

(** Up to the last proof-of-work block, once 24 blocks are there,
    [GetNextWorkRequired] reads exactly the last 24 blocks and returns the compact
    form of their running average target, times the time between the first and the
    last of them clamped to a third and three times the wanted timespan, over that
    timespan, at most the limit; nothing wraps when the targets stay below [2 ^ 240]. *)
Theorem GetNextWorkRequired_dark_gravity ps st p :
  wf_params ps -> 72 * TargetSpacing ps < 2 ^ 16 ->
  wf_store st -> is_Some (st !! p) -> 24 <= height_of st p -> height_of st p <= LAST_POW_BLOCK ps ->
  Forall dgw_ok (past_blocks st 24 p) ->
  exists c k, GetNextWorkRequired ps st (Some p) = Some c /\ word 32 c /\
    Z.testbit c 23 = false /\
    compact_value c = truncate_to (dgw_target ps (past_blocks st 24 p)) k /\
    compact_value c <= val (ProofOfWorkLimit ps).
Proof.
  intros Hps Hsp Hwf Hp Hh Hpow Hok. unfold GetNextWorkRequired, PastBlocksMin.
  rewrite (proj2 (Z.eqb_neq _ 0)), (proj2 (Z.ltb_ge _ 24)), (proj2 (Z.ltb_ge _ _) Hpow) by lia.
  cbn [orb]. change (Z.to_nat PastBlocksMax) with 24%nat.
  destruct (dgw_loop_start st p Hwf Hp Hh Hok) as (s & -> & Ec & Ha & Ea & Hlt & Es).
  cbn [mbind option_bind].
  destruct (dgw_retarget_spec ps s Hps Hsp Ec Ha Hlt) as (r & -> & Hr & Er).
  cbn [mbind option_bind]. rewrite Es, Ea in Er.
  fold (dgw_target ps (past_blocks st 24 p)) in Er.
  destruct (GetCompact_FromCompact r Hr) as (c & k & -> & Hc & _ & _ & Ev & Ecv & Hs & Hle & _).
  exists c, k. rewrite <- Er. split_and!; [done|done|done|done|].
  rewrite <- Ecv in Ev. rewrite Er in Hle. unfold dgw_target in Hle. lia.
Qed.

Lemma GetNextWorkRequired_dark_gravity_witness :
  GetNextWorkRequired mainParams pow_store (Some 29%nat) = Some 486586367 /\
  exists c k, GetNextWorkRequired mainParams pow_store (Some 29%nat) = Some c /\ word 32 c /\
    Z.testbit c 23 = false /\
    compact_value c = truncate_to (dgw_target mainParams (past_blocks pow_store 24 29%nat)) k /\
    compact_value c <= val (ProofOfWorkLimit mainParams).
Proof.
  split; [vm_compute; reflexivity|].
  exact (GetNextWorkRequired_dark_gravity mainParams pow_store 29%nat (Forall_inv networks_wf)
    ltac:(vm_compute; reflexivity) pow_store_wf ltac:(vm_compute; eauto)
    ltac:(vm_compute; congruence) ltac:(vm_compute; congruence)
    (dgw_okb_ok (past_blocks pow_store 24 29%nat) ltac:(vm_compute; reflexivity))).
Defined.
