(* ===== verification/Serialize.v ===== *)
(** Serialization: serialize.h over the reading and writing of
    [CDataStream] (streams.h).

    A stream being read is the list of bytes that are left; a read that fails is
    the exception the code throws.  A serializable type of the code is a [codec],
    its [Serialize] and [Unserialize]; the laws of codecs ([Lawful]: what is written
    is read back, [Canonical]: only what would be written is read) are classes whose
    instances follow the templates of serialize.h. *)

From S2P Require Import Prelude.

Inductive ser_error : Type :=
| EndOfData
| NonCanonicalSize
| SizeTooLarge
| StringTooLong
| BadCoins
| OutOfFuel.

Abbreviation reader A := (byte_list -> result ser_error (A * byte_list)) (only parsing).

Record codec (A : Type) := {
  enc : A -> byte_list;
  dec : reader A;
  dom : A -> Prop
}.
Arguments enc {A} c a : rename.
Arguments dec {A} c bs : rename.
Arguments dom {A} c a : rename.

(** Reading back what was written. *)
Class Lawful {A} (c : codec A) : Prop :=
  lawful : forall a rest, dom c a -> dec c (enc c a ++ rest) = Ok (a, rest).

(** What can be read is what is written for the value read. *)
Class Canonical {A} (c : codec A) : Prop :=
  canonical : forall bs a rest, is_bytes bs -> dec c bs = Ok (a, rest) ->
    dom c a /\ bs = enc c a ++ rest /\ is_bytes rest.

(** * Operations *)

Local Open Scope result_scope.

(** [CDataStream::read]. *)
Definition read_bytes (n : nat) : reader byte_list := fun bs =>
  if (length bs <? n)%nat then Err EndOfData else Ok (take n bs, drop n bs).

(** [READDATA]/[WRITEDATA] of an unsigned and of a signed integer of [n] bytes. *)
Definition read_uint (n : nat) : reader Z := fun bs =>
  x <-! read_bytes n bs ;; Ok (le_val x.1, x.2).

Definition signed (n : nat) (z : Z) : Z :=
  if z <? 2 ^ (8 * Z.of_nat n - 1) then z else z - 2 ^ (8 * Z.of_nat n).

Definition read_int (n : nat) : reader Z := fun bs =>
  x <-! read_uint n bs ;; Ok (signed n x.1, x.2).

Definition c_uint (n : nat) : codec Z := {|
  enc := le_bytes n; dec := read_uint n; dom z := 0 <= z < 2 ^ (8 * Z.of_nat n) |}.

Definition c_int (n : nat) : codec Z := {|
  enc := le_bytes n; dec := read_int n;
  dom z := - 2 ^ (8 * Z.of_nat n - 1) <= z < 2 ^ (8 * Z.of_nat n - 1) |}.

(** [CFlatData] and arrays of fixed size. *)
Definition c_flat (n : nat) : codec byte_list := {|
  enc bs := bs; dec := read_bytes n; dom bs := length bs = n /\ is_bytes bs |}.

(** ** Compact sizes *)

Definition MAX_SIZE : Z := 0x02000000.

Definition GetSizeOfCompactSize (nSize : Z) : Z :=
  if nSize <? 253 then 1
  else if nSize <=? 0xffff then 3
  else if nSize <=? 0xffffffff then 5
  else 9.

Definition WriteCompactSize (nSize : Z) : byte_list :=
  if nSize <? 253 then le_bytes 1 nSize
  else if nSize <=? 0xffff then 253 :: le_bytes 2 nSize
  else if nSize <=? 0xffffffff then 254 :: le_bytes 4 nSize
  else 255 :: le_bytes 8 nSize.

(** A size in [n] bytes that must not fit the shorter form. *)
Definition read_long_size (n : nat) (least : Z) : reader Z := fun bs =>
  x <-! read_uint n bs ;;
  if x.1 <? least then Err NonCanonicalSize else Ok x.

Definition ReadCompactSize : reader Z := fun bs =>
  ch <-! read_uint 1 bs ;;
  x <-! (if ch.1 <? 253 then Ok ch
         else if ch.1 =? 253 then read_long_size 2 253 ch.2
         else if ch.1 =? 254 then read_long_size 4 0x10000 ch.2
         else read_long_size 8 0x100000000 ch.2) ;;
  if MAX_SIZE <? x.1 then Err SizeTooLarge else Ok x.

Definition c_size : codec Z := {|
  enc := WriteCompactSize; dec := ReadCompactSize; dom z := 0 <= z <= MAX_SIZE |}.

(** ** Variable-length integers

    For an unsigned type of [w] bits. *)

Fixpoint size_varint_loop (fuel : nat) (n nRet : Z) : Z :=
  match fuel with
  | O => nRet
  | S f =>
      let nRet := nRet + 1 in
      if n <=? 0x7F then nRet else size_varint_loop f (Z.shiftr n 7 - 1) nRet
  end.

(** [tmp] holds ten bytes for 64 bits, which bounds the iterations. *)
Definition varint_fuel (w : Z) : nat := Z.to_nat ((w + 6) / 7).

Definition GetSizeOfVarInt (w n : Z) : Z := size_varint_loop (varint_fuel w) n 0.

(** The bytes of [tmp], the last one computed first, as they are written. *)
Fixpoint write_varint_loop (fuel : nat) (n : Z) (tmp : byte_list) : byte_list :=
  match fuel with
  | O => tmp
  | S f =>
      let tmp := Z.lor (Z.land n 0x7F) (if (length tmp =? 0)%nat then 0 else 0x80) :: tmp in
      if n <=? 0x7F then tmp else write_varint_loop f (Z.shiftr n 7 - 1) tmp
  end.

Definition WriteVarInt (w n : Z) : byte_list := write_varint_loop (varint_fuel w) n [].

Fixpoint read_varint_loop (w n : Z) (bs : byte_list) : result ser_error (Z * byte_list) :=
  match bs with
  | [] => Err EndOfData
  | ch :: bs' =>
      let n := Z.lor (Z.shiftl n 7 mod 2 ^ w) (Z.land ch 0x7F) in
      if negb (Z.land ch 0x80 =? 0) then read_varint_loop w ((n + 1) mod 2 ^ w) bs'
      else Ok (n, bs')
  end.

Definition ReadVarInt (w : Z) : reader Z := read_varint_loop w 0.

Definition c_varint (w : Z) : codec Z := {|
  enc := WriteVarInt w; dec := ReadVarInt w; dom n := 0 <= n < 2 ^ w |}.

(** ** Strings and vectors *)

(** The vector of [unsigned char]: read in blocks of at most 5,000,000 bytes. *)
Definition read_block : Z := 1 + 4999999.

Fixpoint read_blocks (fuel : nat) (i nSize : Z) (v : byte_list) : reader byte_list := fun bs =>
  if i <? nSize then
    match fuel with
    | O => Err OutOfFuel
    | S f =>
        let blk := Z.min (nSize - i) read_block in
        x <-! read_bytes (Z.to_nat blk) bs ;;
        read_blocks f (i + blk) nSize (v ++ x.1) x.2
    end
  else Ok (v, bs).

(** Seven blocks hold [MAX_SIZE] bytes. *)
Definition read_byte_vector : reader byte_list := fun bs =>
  n <-! ReadCompactSize bs ;; read_blocks 7 0 n.1 [] n.2.

Definition write_byte_vector (v : byte_list) : byte_list :=
  WriteCompactSize (Z.of_nat (length v)) ++ v.

Definition c_bytes : codec byte_list := {|
  enc := write_byte_vector; dec := read_byte_vector;
  dom v := is_bytes v /\ Z.of_nat (length v) <= MAX_SIZE |}.

(** [LimitedString]. *)
Definition read_limited (limit : Z) : reader byte_list := fun bs =>
  n <-! ReadCompactSize bs ;;
  if limit <? n.1 then Err StringTooLong else read_bytes (Z.to_nat n.1) n.2.

Definition c_limited_string (limit : Z) : codec byte_list := {|
  enc := write_byte_vector; dec := read_limited limit;
  dom v := is_bytes v /\ Z.of_nat (length v) <= Z.min limit MAX_SIZE |}.

Section Combinators.
Context {A B : Type}.

(** Two fields in a row. *)
Definition c_pair (ca : codec A) (cb : codec B) : codec (A * B) := {|
  enc p := enc ca p.1 ++ enc cb p.2;
  dec bs := x <-! dec ca bs ;; y <-! dec cb x.2 ;; Ok ((x.1, y.1), y.2);
  dom p := dom ca p.1 /\ dom cb p.2 |}.

(** A structure and the tuple of its fields. *)
Definition c_iso (f : A -> B) (g : B -> A) (ca : codec A) : codec B := {|
  enc b := enc ca (g b);
  dec bs := x <-! dec ca bs ;; Ok (f x.1, x.2);
  dom b := dom ca (g b) |}.

(** A vector of elements that are not bytes: its length, then one by one. *)
Fixpoint read_n (ca : codec A) (n : nat) : reader (list A) := fun bs =>
  match n with
  | O => Ok ([], bs)
  | S n' =>
      x <-! dec ca bs ;; y <-! read_n ca n' x.2 ;; Ok (x.1 :: y.1, y.2)
  end.

Definition c_vector (ca : codec A) : codec (list A) := {|
  enc v := WriteCompactSize (Z.of_nat (length v)) ++ (v ≫= enc ca);
  dec bs := n <-! ReadCompactSize bs ;; read_n ca (Z.to_nat n.1) n.2;
  dom v := Z.of_nat (length v) <= MAX_SIZE /\ Forall (dom ca) v |}.

(** An optional last field: present when [p] holds of the first. *)
Definition c_when (ca : codec A) (cb : codec B) (p : A -> bool) (none : B) : codec (A * B) := {|
  enc x := enc ca x.1 ++ (if p x.1 then enc cb x.2 else []);
  dec bs := x <-! dec ca bs ;;
            if p x.1 then y <-! dec cb x.2 ;; Ok ((x.1, y.1), y.2)
            else Ok ((x.1, none), x.2);
  dom x := dom ca x.1 /\ if p x.1 then dom cb x.2 else x.2 = none |}.
End Combinators.

(** * Reading and writing fixed-size data *)

Lemma read_bytes_app bs rest : read_bytes (length bs) (bs ++ rest) = Ok (bs, rest).
Proof.
  unfold read_bytes. rewrite length_app. destruct (Nat.ltb_spec (length bs + length rest) (length bs));
    [lia|]. by rewrite take_app_length, drop_app_length.
Qed.

Lemma read_bytes_ok n bs v rest :
  is_bytes bs -> read_bytes n bs = Ok (v, rest) ->
  length v = n /\ bs = v ++ rest /\ is_bytes v /\ is_bytes rest.
Proof.
  intros Hb. unfold read_bytes. destruct (Nat.ltb_spec (length bs) n); [done|]. intros [= <- <-].
  split_and!; auto with words; [by rewrite length_take, Nat.min_l by lia|].
  by rewrite take_drop.
Qed.

Lemma read_uint_app n z rest :
  read_uint n (le_bytes n z ++ rest) = Ok (z mod 2 ^ (8 * Z.of_nat n), rest).
Proof.
  unfold read_uint. rewrite <- (length_le_bytes n z) at 1. rewrite read_bytes_app.
  cbn [rbind fst snd]. by rewrite le_val_bytes.
Qed.

Lemma read_uint_ok n bs z rest :
  is_bytes bs -> read_uint n bs = Ok (z, rest) ->
  0 <= z < 2 ^ (8 * Z.of_nat n) /\ bs = le_bytes n z ++ rest /\ is_bytes rest.
Proof.
  intros Hb H. unfold read_uint in H. apply rbind_ok in H as ([v r] & Hr & [= <- <-]).
  apply read_bytes_ok in Hr as (<- & -> & Hv & Hr); [|done]. cbn [fst snd] in *.
  split_and!; [apply (le_val_bound v Hv)..| |done]. by rewrite le_bytes_val.
Qed.

Lemma signed_mod n z :
  (0 < n)%nat -> - 2 ^ (8 * Z.of_nat n - 1) <= z < 2 ^ (8 * Z.of_nat n - 1) ->
  signed n (z mod 2 ^ (8 * Z.of_nat n)) = z.
Proof.
  intros Hn Hz. unfold signed.
  assert (E : 2 ^ (8 * Z.of_nat n) = 2 * 2 ^ (8 * Z.of_nat n - 1)).
  { rewrite <- Z.pow_succ_r by lia. f_equal. lia. }
  rewrite E in *. set (p := 2 ^ (8 * Z.of_nat n - 1)) in *.
  destruct (decide (0 <= z)).
  - rewrite Z.mod_small by lia. destruct (Z.ltb_spec z p); lia.
  - rewrite <- (Z.mod_add z 1), Z.mod_small by lia.
    destruct (Z.ltb_spec (z + 1 * (2 * p)) p); lia.
Qed.

#[export] Instance c_uint_lawful n : Lawful (c_uint n).
Proof.
  intros z rest Hz. cbn [enc dec dom c_uint] in *. rewrite read_uint_app.
  by rewrite Z.mod_small.
Qed.

#[export] Instance c_uint_canonical n : Canonical (c_uint n).
Proof. intros bs z rest Hb H. by apply read_uint_ok. Qed.

Lemma c_int_lawful n : (0 < n)%nat -> Lawful (c_int n).
Proof.
  intros Hn z rest Hz. cbn [enc dec dom c_int] in *. unfold read_int.
  rewrite read_uint_app. cbn [rbind fst snd]. by rewrite signed_mod.
Qed.

Lemma le_bytes_mod n z : le_bytes n (z mod 2 ^ (8 * Z.of_nat n)) = le_bytes n z.
Proof.
  rewrite <- le_val_bytes. apply le_bytes_val; [apply le_bytes_bytes|].
  by rewrite length_le_bytes.
Qed.

Lemma c_int_canonical n : (0 < n)%nat -> Canonical (c_int n).
Proof.
  intros Hn bs z rest Hb H. cbn [enc dec dom c_int] in *. unfold read_int in H.
  apply rbind_ok in H as ([u r] & Hr & [= <- <-]). cbn [fst snd].
  apply read_uint_ok in Hr as (Hu & -> & Hr); [|done].
  assert (E : 2 ^ (8 * Z.of_nat n) = 2 * 2 ^ (8 * Z.of_nat n - 1)).
  { rewrite <- Z.pow_succ_r by lia. f_equal. lia. }
  assert (Es : signed n u mod 2 ^ (8 * Z.of_nat n) = u).
  { unfold signed. case_match; [by apply Z.mod_small|].
    replace (u - 2 ^ (8 * Z.of_nat n)) with (u + (-1) * 2 ^ (8 * Z.of_nat n)) by lia.
    rewrite Z.mod_add by lia. by apply Z.mod_small. }
  split_and!; [| | |done].
  - unfold signed. destruct (Z.ltb_spec u (2 ^ (8 * Z.of_nat n - 1))); lia.
  - unfold signed. destruct (Z.ltb_spec u (2 ^ (8 * Z.of_nat n - 1))); lia.
  - by rewrite <- (le_bytes_mod n (signed n u)), Es.
Qed.

#[export] Instance c_int32_lawful : Lawful (c_int 4) := c_int_lawful 4 ltac:(lia).
#[export] Instance c_int32_canonical : Canonical (c_int 4) := c_int_canonical 4 ltac:(lia).
#[export] Instance c_int64_lawful : Lawful (c_int 8) := c_int_lawful 8 ltac:(lia).
#[export] Instance c_int64_canonical : Canonical (c_int 8) := c_int_canonical 8 ltac:(lia).

#[export] Instance c_flat_lawful n : Lawful (c_flat n).
Proof. intros bs rest [<- _]. apply read_bytes_app. Qed.

#[export] Instance c_flat_canonical n : Canonical (c_flat n).
Proof. intros bs a rest Hb H. apply read_bytes_ok in H as (<- & -> & ? & ?); [|done]. done. Qed.

(** * Compact sizes *)

(** [lia] with the bit widths of the fixed-size integers computed. *)
Ltac width_lia :=
  change (8 * Z.of_nat 1) with 8 in *; change (8 * Z.of_nat 2) with 16 in *;
  change (8 * Z.of_nat 4) with 32 in *; change (8 * Z.of_nat 8) with 64 in *; lia.

Lemma le_bytes_1 z : 0 <= z < 256 -> le_bytes 1 z = [z].
Proof. intros Hz. unfold le_bytes. cbn [digits]. by rewrite Z.mod_small by lia. Qed.

Lemma read_uint_1 b rest : 0 <= b < 256 -> read_uint 1 (b :: rest) = Ok (b, rest).
Proof.
  intros Hb. unfold read_uint. change (read_bytes 1 (b :: rest)) with
    (@Ok ser_error _ ([b], rest)). cbn [rbind fst snd]. unfold le_val. cbn [pos_val].
  do 2 f_equal. lia.
Qed.

Lemma read_long_size_app n least z rest :
  0 <= z < 2 ^ (8 * Z.of_nat n) -> least <= z ->
  read_long_size n least (le_bytes n z ++ rest) = Ok (z, rest).
Proof.
  intros Hz Hl. unfold read_long_size. rewrite read_uint_app. cbn [rbind fst snd].
  rewrite Z.mod_small by done. by rewrite (proj2 (Z.ltb_ge _ _) Hl).
Qed.

Lemma read_long_size_ok n least bs z rest :
  is_bytes bs -> read_long_size n least bs = Ok (z, rest) ->
  least <= z < 2 ^ (8 * Z.of_nat n) /\ bs = le_bytes n z ++ rest /\ is_bytes rest.
Proof.
  intros Hb H. unfold read_long_size in H. apply rbind_ok in H as ([u r] & Hr & H).
  cbn [fst snd] in H. destruct (Z.ltb_spec u least); [done|]. injection H as <- <-.
  apply read_uint_ok in Hr as (? & -> & ?); [|done]. split_and!; [lia|lia|done|done].
Qed.

(** Writing takes any 64-bit number; reading stops at [MAX_SIZE]. *)
Lemma ReadCompactSize_app z rest :
  0 <= z < 2 ^ 64 ->
  ReadCompactSize (WriteCompactSize z ++ rest) =
    if MAX_SIZE <? z then Err SizeTooLarge else Ok (z, rest).
Proof.
  intros Hz. unfold ReadCompactSize, WriteCompactSize.
  destruct (Z.ltb_spec z 253); [|destruct (Z.leb_spec z 0xffff); [|destruct (Z.leb_spec z 0xffffffff)]].
  - rewrite le_bytes_1 by lia. cbn [app]. rewrite read_uint_1 by lia. cbn [rbind fst snd].
    by rewrite (proj2 (Z.ltb_lt z 253)) by lia.
  - cbn [app]. rewrite read_uint_1 by lia. cbn [rbind fst snd].
    change (253 <? 253) with false. change (253 =? 253) with true. cbv iota.
    by rewrite read_long_size_app by width_lia.
  - cbn [app]. rewrite read_uint_1 by lia. cbn [rbind fst snd].
    change (254 <? 253) with false. change (254 =? 253) with false. change (254 =? 254) with true.
    cbv iota. by rewrite read_long_size_app by width_lia.
  - cbn [app]. rewrite read_uint_1 by lia. cbn [rbind fst snd].
    change (255 <? 253) with false. change (255 =? 253) with false. change (255 =? 254) with false.
    cbv iota. by rewrite read_long_size_app by width_lia.
Qed.

Lemma ReadCompactSize_ok bs z rest :
  is_bytes bs -> ReadCompactSize bs = Ok (z, rest) ->
  0 <= z <= MAX_SIZE /\ bs = WriteCompactSize z ++ rest /\ is_bytes rest.
Proof.
  intros Hb H. unfold ReadCompactSize in H. apply rbind_ok in H as ([ch r] & Hch & H).
  apply read_uint_ok in Hch as (Hc & -> & Hr); [|done]. cbn [fst snd] in H.
  rewrite le_bytes_1 by done. change (8 * Z.of_nat 1) with 8 in Hc.
  apply rbind_ok in H as ([x r'] & Hx & H). cbn [fst snd] in H.
  destruct (Z.ltb_spec MAX_SIZE x) as [|Hmax]; [done|]. injection H as <- <-.
  unfold WriteCompactSize.
  destruct (Z.ltb_spec ch 253).
  { injection Hx as <- <-. rewrite (proj2 (Z.ltb_lt ch 253)), le_bytes_1 by lia.
    split_and!; [lia|done|done|done]. }
  assert (Hlong : forall n least pre, read_long_size n least r = Ok (x, r') ->
    0 <= least -> ch = pre ->
    WriteCompactSize x = pre :: le_bytes n x \/ ~ (least <= x < 2 ^ (8 * Z.of_nat n)) ->
    0 <= x <= MAX_SIZE /\ [ch] ++ r = WriteCompactSize x ++ r' /\ is_bytes r').
  { intros n least pre Hl Hp -> Hw. apply read_long_size_ok in Hl as (Hxr & -> & Hr'); [|done].
    destruct Hw as [->|]; [|lia]. split_and!; [lia|done|done|done]. }
  unfold WriteCompactSize in Hlong.
  destruct (Z.eqb_spec ch 253); [|destruct (Z.eqb_spec ch 254)].
  - apply (Hlong _ _ 253) in Hx; [done|lia|done|].
    destruct (Z.ltb_spec x 253), (Z.leb_spec x 0xffff); [right; width_lia|right; width_lia|by left|right; width_lia].
  - apply (Hlong _ _ 254) in Hx; [done|lia|done|].
    destruct (Z.ltb_spec x 253), (Z.leb_spec x 0xffff), (Z.leb_spec x 0xffffffff);
      try (right; width_lia); by left.
  - apply (Hlong _ _ 255) in Hx; [done|lia|lia|].
    destruct (Z.ltb_spec x 253), (Z.leb_spec x 0xffff), (Z.leb_spec x 0xffffffff);
      try (right; width_lia); by left.
Qed.

Lemma WriteCompactSize_length z :
  Z.of_nat (length (WriteCompactSize z)) = GetSizeOfCompactSize z.
Proof.
  unfold WriteCompactSize, GetSizeOfCompactSize. repeat case_match; simpl;
    rewrite ?length_le_bytes; lia.
Qed.

#[export] Instance c_size_lawful : Lawful c_size.
Proof.
  intros z rest Hz. cbn [enc dec dom c_size] in *. unfold MAX_SIZE in *.
  rewrite ReadCompactSize_app by lia. by rewrite (proj2 (Z.ltb_ge _ z)) by (unfold MAX_SIZE; lia).
Qed.

#[export] Instance c_size_canonical : Canonical c_size.
Proof. intros bs z rest Hb H. by apply ReadCompactSize_ok. Qed.

(** * Variable-length integers *)

(** One digit shifted in. *)
Lemma shift_digit w n d :
  0 <= n -> 0 <= d < 128 -> 128 * n + d < 2 ^ w -> 0 <= w ->
  Z.lor (Z.shiftl n 7 mod 2 ^ w) (Z.land d 0x7F) = 128 * n + d.
Proof.
  intros Hn Hd Hb Hw. rewrite land_7f, (Z.mod_small d) by lia.
  rewrite Z.shiftl_mul_pow2, Z.mod_small by lia. rewrite Z.lor_comm.
  rewrite lor_add_disjoint by (wunfold; lia). lia.
Qed.

Definition flag (tmp : byte_list) : Z := if (length tmp =? 0)%nat then 0 else 0x80.

Lemma write_varint_loop_app fuel n tmp rest :
  tmp <> [] -> write_varint_loop fuel n tmp ++ rest = write_varint_loop fuel n (tmp ++ rest).
Proof.
  revert n tmp. induction fuel as [|f IH]; intros n tmp Ht; cbn [write_varint_loop]; [done|].
  assert (E : (length (tmp ++ rest) =? 0)%nat = (length tmp =? 0)%nat).
  { rewrite length_app. destruct tmp; [done|]. done. }
  rewrite E. case_match; [done|]. by rewrite IH.
Qed.

Lemma read_varint_cons w n ch bs :
  read_varint_loop w n (ch :: bs) =
    let n := Z.lor (Z.shiftl n 7 mod 2 ^ w) (Z.land ch 0x7F) in
    if negb (Z.land ch 0x80 =? 0) then read_varint_loop w ((n + 1) mod 2 ^ w) bs else Ok (n, bs).
Proof. done. Qed.

(** Reading the digits that precede [tmp] leaves their number plus one. *)
Lemma read_varint_prefix w fuel n tmp :
  tmp <> [] -> 0 <= w -> 0 <= n < 2 ^ w -> n < 2 ^ (7 * Z.of_nat fuel) -> (0 < fuel)%nat ->
  read_varint_loop w 0 (write_varint_loop fuel n tmp) =
    read_varint_loop w ((n + 1) mod 2 ^ w) tmp.
Proof.
  intros Ht Hw. revert n tmp Ht. induction fuel as [|f IH]; intros n tmp Ht Hn Hf Hf0; [lia|].
  cbn [write_varint_loop]. rewrite land_7f.
  destruct tmp as [|t tmp]; [done|]. cbn [length Nat.eqb].
  pose proof (Z.mod_pos_bound n 128 ltac:(lia)) as Hm. rewrite lor_80 by done.
  assert (Hstep : forall a, 0 <= a -> 128 * a + n mod 128 = n ->
    read_varint_loop w a (n mod 128 + 128 :: t :: tmp) =
    read_varint_loop w ((n + 1) mod 2 ^ w) (t :: tmp)).
  { intros a Ha Ea. rewrite read_varint_cons, land_80 by lia.
    destruct (Z.ltb_spec (n mod 128 + 128) 128); [lia|]. cbn [Z.eqb negb].
    assert (El : Z.land (n mod 128 + 128) 0x7F = Z.land (n mod 128) 0x7F).
    { rewrite !land_7f. by rewrite <- (Z.mod_add (n mod 128) 1 128) by lia. }
    rewrite El, shift_digit by lia. by rewrite Ea. }
  destruct (Z.leb_spec n 0x7F) as [Hle|Hgt].
  - apply Hstep; [lia|]. rewrite Z.mod_small; lia.
  - rewrite Z.shiftr_div_pow2 by lia. change (2 ^ 7) with 128 in *.
    rewrite Nat2Z.inj_succ in Hf. replace (7 * Z.succ (Z.of_nat f)) with (7 + 7 * Z.of_nat f) in Hf by lia.
    rewrite Z.pow_add_r in Hf by lia. change (2 ^ 7) with 128 in *.
    assert (f <> O) by (intros ->; change (2 ^ (7 * Z.of_nat 0)) with 1 in Hf; lia).
    assert (1 <= n / 128) by (apply Z.div_le_lower_bound; lia).
    assert (n / 128 < 2 ^ (7 * Z.of_nat f)) by (apply Z.div_lt_upper_bound; lia).
    pose proof (Z.div_mod n 128 ltac:(lia)).
    rewrite IH; [|done|lia|lia|lia].
    replace (n / 128 - 1 + 1) with (n / 128) by lia. rewrite Z.mod_small by lia.
    apply Hstep; lia.
Qed.

Lemma varint_fuel_enough w n :
  0 < w -> 0 <= n < 2 ^ w -> n < 2 ^ (7 * Z.of_nat (varint_fuel w)) /\ (0 < varint_fuel w)%nat.
Proof.
  intros Hw Hn. unfold varint_fuel.
  assert (w <= 7 * ((w + 6) / 7)) by dlia. assert (0 < (w + 6) / 7) by dlia.
  rewrite Z2Nat.id by lia. split; [|lia].
  eapply Z.lt_le_trans; [apply Hn|]. apply Z.pow_le_mono_r; lia.
Qed.

Lemma ReadVarInt_app w n rest :
  0 < w -> 0 <= n < 2 ^ w -> ReadVarInt w (WriteVarInt w n ++ rest) = Ok (n, rest).
Proof.
  intros Hw Hn. unfold ReadVarInt, WriteVarInt.
  destruct (varint_fuel_enough w n Hw Hn) as [Hf H0]. destruct (varint_fuel w) as [|f]; [lia|].
  cbn [write_varint_loop length Nat.eqb]. rewrite Z.lor_0_r, land_7f.
  pose proof (Z.mod_pos_bound n 128 ltac:(lia)) as Hm.
  assert (Hstep : forall a, 0 <= a -> 128 * a + n mod 128 = n ->
    read_varint_loop w a (n mod 128 :: rest) = Ok (n, rest)).
  { intros a Ha Ea. cbn [read_varint_loop]. rewrite land_80 by lia.
    destruct (Z.ltb_spec (n mod 128) 128); [|lia]. cbn [Z.eqb negb].
    rewrite shift_digit by lia. by rewrite Ea. }
  destruct (Z.leb_spec n 0x7F) as [Hle|Hgt].
  - apply Hstep; [lia|]. rewrite Z.mod_small; lia.
  - rewrite write_varint_loop_app by done. rewrite Z.shiftr_div_pow2 by lia. change (2 ^ 7) with 128.
    rewrite Nat2Z.inj_succ in Hf. replace (7 * Z.succ (Z.of_nat f)) with (7 + 7 * Z.of_nat f) in Hf by lia.
    rewrite Z.pow_add_r in Hf by lia. change (2 ^ 7) with 128 in *.
    assert (f <> O) by (intros ->; change (2 ^ (7 * Z.of_nat 0)) with 1 in Hf; lia).
    assert (1 <= n / 128) by (apply Z.div_le_lower_bound; lia).
    assert (n / 128 < 2 ^ (7 * Z.of_nat f)) by (apply Z.div_lt_upper_bound; lia).
    pose proof (Z.div_mod n 128 ltac:(lia)).
    rewrite read_varint_prefix; [|done|lia|lia|lia|lia].
    replace (n / 128 - 1 + 1) with (n / 128) by lia. rewrite Z.mod_small by lia.
    apply Hstep; lia.
Qed.

Lemma c_varint_lawful w : 0 < w -> Lawful (c_varint w).
Proof. intros Hw n rest Hn. by apply ReadVarInt_app. Qed.
#[export] Instance c_varint32_lawful : Lawful (c_varint 32) := c_varint_lawful 32 ltac:(lia).
#[export] Instance c_varint64_lawful : Lawful (c_varint 64) := c_varint_lawful 64 ltac:(lia).

Lemma size_varint_loop_length fuel n r tmp :
  size_varint_loop fuel n r - r =
    Z.of_nat (length (write_varint_loop fuel n tmp)) - Z.of_nat (length tmp).
Proof.
  revert n r tmp. induction fuel as [|f IH]; intros n r tmp;
    cbn [size_varint_loop write_varint_loop]; [lia|].
  set (b := Z.lor _ _). case_match; [cbn [length]; lia|].
  specialize (IH (Z.shiftr n 7 - 1) (r + 1) (b :: tmp)). cbn [length] in *. lia.
Qed.

(** The number the bytes stand for when no width cuts it. *)
Fixpoint varint_value (n : Z) (bs : byte_list) : option (Z * byte_list) :=
  match bs with
  | [] => None
  | ch :: bs' =>
      let n := 128 * n + ch mod 128 in
      if 128 <=? ch then varint_value (n + 1) bs' else Some (n, bs')
  end.

(** The number before the last digit, of flagged digits only. *)
Fixpoint flagged_value (n : Z) (bs : byte_list) : Z :=
  match bs with [] => n | ch :: bs' => flagged_value (128 * n + ch mod 128 + 1) bs' end.

Lemma flagged_value_snoc n pre d :
  flagged_value n (pre ++ [d]) = 128 * flagged_value n pre + d mod 128 + 1.
Proof. revert n. induction pre as [|x pre IH]; intros n; [done|]. apply IH. Qed.

Lemma flagged_value_pos n pre : 0 <= n -> pre <> [] -> 1 <= flagged_value n pre.
Proof.
  assert (forall pre n, 1 <= n -> 1 <= flagged_value n pre) as Hone.
  { induction pre0 as [|x pre0 IH]; intros m Hm; [done|]. apply IH.
    pose proof (Z.mod_pos_bound x 128). lia. }
  destruct pre as [|x pre]; [done|]. intros Hn _. cbn [flagged_value]. apply Hone.
  pose proof (Z.mod_pos_bound x 128). lia.
Qed.

(** The written form of such a number is these digits. *)
Lemma write_varint_flagged pre fuel tmp :
  Forall (fun b => 128 <= b < 256) pre -> pre <> [] -> tmp <> [] ->
  flagged_value 0 pre <= 2 ^ (7 * Z.of_nat fuel) -> (0 < fuel)%nat ->
  write_varint_loop fuel (flagged_value 0 pre - 1) tmp = pre ++ tmp.
Proof.
  revert fuel tmp. induction pre as [|d pre IH] using rev_ind; intros fuel tmp Hpre Hne Ht Hf H0; [done|].
  apply Forall_app in Hpre as [Hpre Hd]. apply Forall_cons in Hd as [Hd _].
  rewrite flagged_value_snoc in *. destruct fuel as [|f]; [lia|]. cbn [write_varint_loop].
  destruct tmp as [|t tmp]; [done|]. cbn [length Nat.eqb]. rewrite land_7f.
  pose proof (Z.mod_pos_bound d 128 ltac:(lia)).
  replace (128 * flagged_value 0 pre + d mod 128 + 1 - 1)
    with (d mod 128 + flagged_value 0 pre * 128) by lia.
  rewrite Z.mod_add, Z.mod_mod, lor_80 by lia.
  assert (Ed : d mod 128 + 128 = d) by dlia. rewrite Ed.
  destruct (decide (pre = [])) as [->|Hp].
  - cbn [flagged_value]. destruct (Z.leb_spec (d mod 128 + 0 * 128) 0x7F); [done|lia].
  - pose proof (flagged_value_pos 0 pre ltac:(lia) Hp).
    destruct (Z.leb_spec (d mod 128 + flagged_value 0 pre * 128) 0x7F); [lia|].
    rewrite Z.shiftr_div_pow2, Z.div_add, (Z.div_small (d mod 128)), Z.add_0_l by lia.
    rewrite Nat2Z.inj_succ in Hf. replace (7 * Z.succ (Z.of_nat f)) with (7 + 7 * Z.of_nat f) in Hf by lia.
    rewrite Z.pow_add_r in Hf by lia. change (2 ^ 7) with 128 in *.
    assert (f <> O) by (intros ->; change (2 ^ (7 * Z.of_nat 0)) with 1 in Hf; lia).
    rewrite (IH f (d :: t :: tmp)); [|done|done|done|lia|lia]. by rewrite <- app_assoc.
Qed.

Lemma varint_value_split n bs v rest :
  0 <= n -> is_bytes bs -> varint_value n bs = Some (v, rest) ->
  exists pre d, bs = pre ++ d :: rest /\ Forall (fun b => 128 <= b < 256) pre /\
    0 <= d < 128 /\ v = 128 * flagged_value n pre + d.
Proof.
  revert n. induction bs as [|ch bs IH]; intros n Hn Hb; [done|]. cbn [varint_value].
  apply Forall_cons in Hb as [Hc Hb]. pose proof (Z.mod_pos_bound ch 128 ltac:(lia)).
  destruct Hc as [Hc0 Hc1]. change (2 ^ 8) with 256 in Hc1.
  destruct (Z.leb_spec 128 ch).
  - intros H1. destruct (IH (128 * n + ch mod 128 + 1) ltac:(lia) Hb H1) as (pre & d & -> & Hp & Hd & ->).
    exists (ch :: pre), d. split_and!; [done|by constructor|lia|lia|done].
  - intros [= <- <-]. exists [], ch. split_and!; [done|done|lia|lia|].
    cbn [flagged_value]. rewrite Z.mod_small; lia.
Qed.

(** Only one byte sequence stands for a number that fits. *)
Lemma varint_unique w bs v rest :
  0 < w -> is_bytes bs -> varint_value 0 bs = Some (v, rest) -> v < 2 ^ w ->
  bs = WriteVarInt w v ++ rest.
Proof.
  intros Hw Hb Hv Hlt. destruct (varint_value_split 0 bs v rest ltac:(lia) Hb Hv)
    as (pre & d & -> & Hpre & Hd & ->). unfold WriteVarInt.
  assert (Hn : 0 <= flagged_value 0 pre).
  { destruct (decide (pre = [])) as [->|Hp]; [done|].
    pose proof (flagged_value_pos 0 pre ltac:(lia) Hp). lia. }
  destruct (varint_fuel_enough w (128 * flagged_value 0 pre + d) Hw ltac:(lia)) as [Hf H0].
  destruct (varint_fuel w) as [|f]; [lia|]. cbn [write_varint_loop length Nat.eqb].
  rewrite Z.lor_0_r, land_7f. replace (128 * flagged_value 0 pre + d)
    with (d + flagged_value 0 pre * 128) in * by lia.
  rewrite Z.mod_add, (Z.mod_small d) by lia.
  destruct (decide (pre = [])) as [->|Hp].
  - cbn [flagged_value]. destruct (Z.leb_spec (d + 0 * 128) 0x7F); [done|lia].
  - pose proof (flagged_value_pos 0 pre ltac:(lia) Hp).
    destruct (Z.leb_spec (d + flagged_value 0 pre * 128) 0x7F); [lia|].
    rewrite Z.shiftr_div_pow2, Z.div_add, (Z.div_small d), Z.add_0_l by lia.
    rewrite Nat2Z.inj_succ in Hf. replace (7 * Z.succ (Z.of_nat f)) with (7 + 7 * Z.of_nat f) in Hf by lia.
    rewrite Z.pow_add_r in Hf by lia. change (2 ^ 7) with 128 in *.
    assert (f <> O) by (intros ->; change (2 ^ (7 * Z.of_nat 0)) with 1 in Hf; lia).
    rewrite write_varint_flagged; [by rewrite <- app_assoc|done|done|done|lia|lia].
Qed.

(** * Strings, vectors and structures *)

Lemma read_blocks_spec fuel i nSize v bs :
  0 <= i <= nSize -> nSize - i <= Z.of_nat fuel * read_block ->
  read_blocks fuel i nSize v bs =
    (if (length bs <? Z.to_nat (nSize - i))%nat then Err EndOfData
     else Ok (v ++ take (Z.to_nat (nSize - i)) bs, drop (Z.to_nat (nSize - i)) bs)).
Proof.
  revert i v bs. induction fuel as [|f IH]; intros i v bs Hi Hf; cbn [read_blocks].
  - rewrite (proj2 (Z.ltb_ge i nSize)) by lia. replace (nSize - i) with 0 by lia.
    cbn [Z.to_nat]. by rewrite take_0, drop_0, app_nil_r.
  - destruct (Z.ltb_spec i nSize).
    2: { replace (nSize - i) with 0 by lia. cbn [Z.to_nat]. by rewrite take_0, drop_0, app_nil_r. }
    set (blk := Z.min (nSize - i) read_block).
    assert (Hb : 0 < blk <= nSize - i) by (unfold blk, read_block; lia).
    unfold read_bytes. destruct (Nat.ltb_spec (length bs) (Z.to_nat blk)).
    { cbn [rbind]. destruct (Nat.ltb_spec (length bs) (Z.to_nat (nSize - i))); [done|lia]. }
    cbn [rbind fst snd]. rewrite IH by (unfold blk, read_block in *; lia).
    rewrite length_drop, <- app_assoc, drop_drop.
    replace (Z.to_nat (nSize - (i + blk))) with (Z.to_nat (nSize - i) - Z.to_nat blk)%nat by lia.
    replace (Z.to_nat blk + (Z.to_nat (nSize - i) - Z.to_nat blk))%nat
      with (Z.to_nat (nSize - i)) by lia.
    assert (Hlt : (length bs - Z.to_nat blk <? Z.to_nat (nSize - i) - Z.to_nat blk)%nat =
      (length bs <? Z.to_nat (nSize - i))%nat).
    { destruct (Nat.ltb_spec (length bs) (Z.to_nat (nSize - i))),
        (Nat.ltb_spec (length bs - Z.to_nat blk) (Z.to_nat (nSize - i) - Z.to_nat blk)); done || lia. }
    rewrite Hlt. case_match; [done|]. do 3 f_equal. rewrite take_take_drop. do 2 f_equal. lia.
Qed.

(** Reading a byte vector in blocks is reading its size and that many bytes. *)
Lemma read_byte_vector_spec bs :
  is_bytes bs ->
  read_byte_vector bs = (n <-! ReadCompactSize bs ;; read_bytes (Z.to_nat n.1) n.2).
Proof.
  intros Hb. unfold read_byte_vector. destruct (ReadCompactSize bs) as [[n r]|e] eqn:E; [|done].
  cbn [rbind fst snd]. apply ReadCompactSize_ok in E as (Hn & _ & _); [|done].
  unfold MAX_SIZE in Hn. rewrite read_blocks_spec by (unfold read_block; lia).
  by rewrite Z.sub_0_r.
Qed.

Lemma write_byte_vector_bytes v : is_bytes v -> is_bytes (write_byte_vector v).
Proof.
  intros Hv. unfold write_byte_vector, WriteCompactSize. apply words_app. split; [|done].
  repeat case_match;
    first [apply le_bytes_bytes | apply Forall_cons; split; [by wunfold|apply le_bytes_bytes]].
Qed.

Lemma sized_bytes_app v rest :
  Z.of_nat (length v) <= MAX_SIZE ->
  (n <-! ReadCompactSize (write_byte_vector v ++ rest) ;; read_bytes (Z.to_nat n.1) n.2)
    = Ok (v, rest).
Proof.
  intros Hl. unfold write_byte_vector. rewrite <- app_assoc.
  rewrite ReadCompactSize_app by (unfold MAX_SIZE in Hl; lia).
  rewrite (proj2 (Z.ltb_ge _ _) Hl). cbn [rbind fst snd]. rewrite Nat2Z.id. apply read_bytes_app.
Qed.

Lemma sized_bytes_ok bs v rest :
  is_bytes bs -> (n <-! ReadCompactSize bs ;; read_bytes (Z.to_nat n.1) n.2) = Ok (v, rest) ->
  is_bytes v /\ Z.of_nat (length v) <= MAX_SIZE /\ bs = write_byte_vector v ++ rest /\ is_bytes rest.
Proof.
  intros Hb H. apply rbind_ok in H as ([n r] & Hn & H). cbn [fst snd] in H.
  apply ReadCompactSize_ok in Hn as (Hn & -> & Hr); [|done].
  apply read_bytes_ok in H as (Hl & -> & Hv & Hrest); [|done].
  unfold write_byte_vector. rewrite Hl, Z2Nat.id by lia. split_and!; [done|lia| |done].
  by rewrite app_assoc.
Qed.

#[export] Instance c_bytes_lawful : Lawful c_bytes.
Proof.
  intros v rest [Hv Hl]. cbn [enc dec dom c_bytes] in *. unfold read_byte_vector.
  unfold write_byte_vector. rewrite <- app_assoc.
  rewrite ReadCompactSize_app by (unfold MAX_SIZE in Hl; lia).
  rewrite (proj2 (Z.ltb_ge _ _) Hl). cbn [rbind fst snd]. unfold MAX_SIZE in Hl.
  rewrite read_blocks_spec by (unfold read_block; lia).
  rewrite Z.sub_0_r, Nat2Z.id, length_app.
  destruct (Nat.ltb_spec (length v + length rest) (length v)); [lia|].
  by rewrite take_app_length, drop_app_length.
Qed.

#[export] Instance c_bytes_canonical : Canonical c_bytes.
Proof.
  intros bs v rest Hb H. cbn [enc dec dom c_bytes] in *. rewrite read_byte_vector_spec in H by done.
  apply sized_bytes_ok in H as (? & ? & ? & ?); done.
Qed.

#[export] Instance c_limited_string_lawful limit : Lawful (c_limited_string limit).
Proof.
  intros v rest [Hv Hl]. cbn [enc dec dom c_limited_string] in *.
  pose proof (sized_bytes_app v rest ltac:(lia)) as E. unfold read_limited.
  unfold write_byte_vector in *. rewrite <- app_assoc in *.
  rewrite ReadCompactSize_app in * by (unfold MAX_SIZE in Hl; lia).
  rewrite (proj2 (Z.ltb_ge MAX_SIZE _)) in * by lia. cbn [rbind fst snd] in *.
  by rewrite (proj2 (Z.ltb_ge limit _)) by lia.
Qed.

Section CombinatorLaws.
Context {A B : Type}.

#[export] Instance c_pair_lawful (ca : codec A) (cb : codec B) :
  Lawful ca -> Lawful cb -> Lawful (c_pair ca cb).
Proof.
  intros La Lb [a b] rest [Ha Hb]. cbn [enc dec dom c_pair fst snd] in *.
  rewrite <- app_assoc, La by done. cbn [rbind fst snd]. by rewrite Lb.
Qed.

#[export] Instance c_pair_canonical (ca : codec A) (cb : codec B) :
  Canonical ca -> Canonical cb -> Canonical (c_pair ca cb).
Proof.
  intros La Lb bs [a b] rest Hbs H. cbn [enc dec dom c_pair fst snd] in *.
  apply rbind_ok in H as ([x r] & Hx & H). apply rbind_ok in H as ([y r'] & Hy & [= <- <- <-]).
  cbn [fst snd] in *. apply La in Hx as (? & -> & Hr); [|done]. apply Lb in Hy as (? & -> & ?); [|done].
  by rewrite <- app_assoc.
Qed.

Lemma c_iso_lawful (f : A -> B) (g : B -> A) (ca : codec A) :
  (forall b, f (g b) = b) -> Lawful ca -> Lawful (c_iso f g ca).
Proof.
  intros Hfg La b rest Hb. cbn [enc dec dom c_iso] in *. rewrite La by done.
  cbn [rbind fst snd]. by rewrite Hfg.
Qed.

Lemma c_iso_canonical (f : A -> B) (g : B -> A) (ca : codec A) :
  (forall a, g (f a) = a) -> Canonical ca -> Canonical (c_iso f g ca).
Proof.
  intros Hgf La bs b rest Hbs H. cbn [enc dec dom c_iso] in *.
  apply rbind_ok in H as ([x r] & Hx & [= <- <-]). cbn [fst snd]. rewrite Hgf. by apply La.
Qed.

Lemma read_n_app (ca : codec A) v rest :
  Lawful ca -> Forall (dom ca) v ->
  read_n ca (length v) ((v ≫= enc ca) ++ rest) = Ok (v, rest).
Proof.
  intros La Hv. induction Hv as [|a v Ha Hv IH]; [done|].
  cbn [length read_n mbind list_bind]. rewrite <- app_assoc, La by done.
  cbn [rbind fst snd]. by rewrite IH.
Qed.

Lemma read_n_ok (ca : codec A) n bs v rest :
  Canonical ca -> is_bytes bs -> read_n ca n bs = Ok (v, rest) ->
  length v = n /\ Forall (dom ca) v /\ bs = (v ≫= enc ca) ++ rest /\ is_bytes rest.
Proof.
  intros Ca. revert bs v. induction n as [|n IH]; intros bs v Hb H; cbn [read_n] in H.
  - injection H as <- <-. done.
  - apply rbind_ok in H as ([a r] & Ha & H). apply rbind_ok in H as ([w r'] & Hw & [= <- <-]).
    cbn [fst snd] in *. apply Ca in Ha as (Ha & -> & Hr); [|done].
    apply IH in Hw as (<- & ? & -> & ?); [|done].
    split_and!; [done|by constructor| |done]. cbn [mbind list_bind]. by rewrite <- app_assoc.
Qed.

#[export] Instance c_vector_lawful (ca : codec A) : Lawful ca -> Lawful (c_vector ca).
Proof.
  intros La v rest [Hl Hv]. cbn [enc dec dom c_vector] in *. rewrite <- app_assoc.
  rewrite ReadCompactSize_app by (unfold MAX_SIZE in Hl; lia).
  rewrite (proj2 (Z.ltb_ge _ _) Hl). cbn [rbind fst snd]. rewrite Nat2Z.id. by apply read_n_app.
Qed.

#[export] Instance c_vector_canonical (ca : codec A) : Canonical ca -> Canonical (c_vector ca).
Proof.
  intros Ca bs v rest Hbs H. cbn [enc dec dom c_vector] in *.
  apply rbind_ok in H as ([n r] & Hn & H). cbn [fst snd] in *.
  apply ReadCompactSize_ok in Hn as (Hn & -> & Hr); [|done].
  apply read_n_ok in H as (Hl & Hv & -> & ?); [|done|done].
  rewrite Hl, Z2Nat.id by lia. split_and!; [lia|done| |done]. by rewrite app_assoc.
Qed.

#[export] Instance c_when_lawful (ca : codec A) (cb : codec B) p none :
  Lawful ca -> Lawful cb -> Lawful (c_when ca cb p none).
Proof.
  intros La Lb [a b] rest [Ha Hb]. cbn [enc dec dom c_when fst snd] in *.
  rewrite <- app_assoc, La by done. cbn [rbind fst snd]. destruct (p a).
  - by rewrite Lb.
  - by subst b.
Qed.

#[export] Instance c_when_canonical (ca : codec A) (cb : codec B) p none :
  Canonical ca -> Canonical cb -> Canonical (c_when ca cb p none).
Proof.
  intros La Lb bs [a b] rest Hbs H. cbn [enc dec dom c_when fst snd] in *.
  apply rbind_ok in H as ([x r] & Hx & H). cbn [fst snd] in *.
  apply La in Hx as (? & -> & Hr); [|done]. destruct (p x) eqn:E.
  - apply rbind_ok in H as ([y r'] & Hy & [= <- <- <-]). cbn [fst snd] in *. rewrite E.
    apply Lb in Hy as (? & -> & ?); [|done]. by rewrite <- app_assoc.
  - injection H as <- <- <-. rewrite E. by rewrite app_nil_r.
Qed.
End CombinatorLaws.

(** * The properties *)

(** Compact sizes: every 64-bit number is written in the number of bytes
    [GetSizeOfCompactSize] announces; reading returns it exactly when it does not
    exceed [MAX_SIZE]; and reading accepts nothing but the shortest form. *)
Theorem compact_size_roundtrip z rest bs n :
  0 <= z < 2 ^ 64 -> is_bytes bs ->
  Z.of_nat (length (WriteCompactSize z)) = GetSizeOfCompactSize z /\
  ReadCompactSize (WriteCompactSize z ++ rest) =
    (if MAX_SIZE <? z then Err SizeTooLarge else Ok (z, rest)) /\
  (ReadCompactSize bs = Ok (n, rest) -> 0 <= n <= MAX_SIZE /\ bs = WriteCompactSize n ++ rest).
Proof.
  intros Hz Hb. split_and!; [apply WriteCompactSize_length|by apply ReadCompactSize_app|].
  intros H. apply ReadCompactSize_ok in H as (? & ? & ?); done.
Qed.

Lemma compact_size_roundtrip_witness :
  WriteCompactSize 515 = [253; 3; 2] /\ ReadCompactSize [253; 3; 0; 9] = Err NonCanonicalSize /\
  Z.of_nat (length (WriteCompactSize 515)) = GetSizeOfCompactSize 515 /\
  ReadCompactSize (WriteCompactSize 515 ++ [9]) =
    (if MAX_SIZE <? 515 then Err SizeTooLarge else Ok (515, [9])) /\
  (ReadCompactSize [253; 3; 2; 9] = Ok (515, [9]) ->
   0 <= 515 <= MAX_SIZE /\ [253; 3; 2; 9] = WriteCompactSize 515 ++ [9]).
Proof.
  split; [vm_compute; reflexivity|]. split; [vm_compute; reflexivity|].
  exact (compact_size_roundtrip 515 [9] [253; 3; 2; 9] 515 ltac:(lia)
    ltac:(repeat constructor; vm_compute; congruence)).
Defined.

(** Variable-length integers: an unsigned number of [w] bits is read back from
    its bytes, whose number is [GetSizeOfVarInt]; and a byte sequence whose number
    fits [w] bits is the one that [WriteVarInt] writes, so the encoding is one-to-one
    as long as the reader's wrap-around does not come into play. *)
Theorem varint_roundtrip w n rest bs v :
  0 < w -> 0 <= n < 2 ^ w -> is_bytes bs ->
  ReadVarInt w (WriteVarInt w n ++ rest) = Ok (n, rest) /\
  Z.of_nat (length (WriteVarInt w n)) = GetSizeOfVarInt w n /\
  (varint_value 0 bs = Some (v, rest) -> v < 2 ^ w -> bs = WriteVarInt w v ++ rest).
Proof.
  intros Hw Hn Hb. split_and!; [by apply ReadVarInt_app| |].
  - unfold WriteVarInt, GetSizeOfVarInt.
    pose proof (size_varint_loop_length (varint_fuel w) n 0 []) as H. simpl in H. lia.
  - intros Hv Hlt. by apply varint_unique.
Qed.

Lemma varint_roundtrip_witness :
  WriteVarInt 64 (2 ^ 32) = [0x8E; 0xFE; 0xFE; 0xFF; 0x00] /\
  ReadVarInt 64 (WriteVarInt 64 300 ++ [7]) = Ok (300, [7]) /\
  Z.of_nat (length (WriteVarInt 64 300)) = GetSizeOfVarInt 64 300 /\
  (varint_value 0 [0x81; 0x2C; 7] = Some (300, [7]) -> 300 < 2 ^ 64 ->
   [0x81; 0x2C; 7] = WriteVarInt 64 300 ++ [7]).
Proof.
  split; [vm_compute; reflexivity|].
  exact (varint_roundtrip 64 300 [7] [0x81; 0x2C; 7] 300 ltac:(lia) ltac:(lia)
    ltac:(repeat constructor; vm_compute; congruence)).
Defined.

(** The two examples of the comment in serialize.h that the code does not agree
    with: it writes 16511 as [FF 7F] and 65535 as [82 FE 7F]. *)
Example varint_examples :
  WriteVarInt 64 16511 = [0xFF; 0x7F] /\ WriteVarInt 64 65535 = [0x82; 0xFE; 0x7F] /\
  ReadVarInt 64 [0x80; 0xFF; 0x7F] = Ok (32895, []) /\
  ReadVarInt 64 [0x82; 0xFD; 0x7F] = Ok (65407, []).
Proof. vm_compute. repeat split. Qed.
