(* ===== verification/Digest.v ===== *)
(** The buffering of the hash classes of src/crypto: [CSHA256], [CSHA512],
    [CSHA1] and [CRIPEMD160] repeat one [Write]/[Finalize]/[Reset] around their own
    [Transform], and [CHMAC_SHA256]/[CHMAC_SHA512] repeat one construction over
    them.  A [hasher] is what differs; this file has the common operations, the
    definition of a padded one-shot digest and the proof that any way of feeding a
    message gives that digest.  [Hashes] has the compression functions. *)

From S2P Require Import Prelude.

(** What a hash class supplies: the block size, the size of the length field and
    whether its numbers are big-endian, the size of a state word in bytes, the
    initial state and the compression of one block. *)
Record hasher := {
  block : nat;
  size_field : nat;
  big_endian : bool;
  word_bytes : nat;
  Initialize : list Z;
  Transform : list Z -> byte_list -> list Z
}.

(** The object: [s], [buf] and [bytes] (a [size_t]). *)
Record hash_state := {
  hs : list Z;
  hbuf : byte_list;
  hbytes : Z
}.

(** [ReadBE32]/[ReadLE32] and their like, and the inverse. *)
Definition write_word (be : bool) (n : nat) (x : Z) : byte_list :=
  if be then rev (le_bytes n x) else le_bytes n x.

Definition read_word (be : bool) (bs : byte_list) : Z :=
  le_val (if be then rev bs else bs).

Section Stream.
Context (h : hasher).
Implicit Types (m d buf data junk : byte_list) (ds : list byte_list).

(** * Operations *)

(** The constructor and [Reset]; [junk] is what [buf] happens to hold. *)
Definition hash_init (junk : byte_list) : hash_state :=
  {| hs := Initialize h; hbuf := junk; hbytes := 0 |}.

(** [memcpy(buf + off, data, len)]. *)
Definition splice (buf : byte_list) (off : nat) (data : byte_list) : byte_list :=
  take off buf ++ data ++ drop (off + length data) buf.

(** [while (end >= data + B)]. *)
Fixpoint full_chunks (fuel : nat) (s : list Z) (bytes : Z) (data : byte_list)
    : list Z * Z * byte_list :=
  match fuel with
  | O => (s, bytes, data)
  | S f =>
      if (block h <=? length data)%nat
      then full_chunks f (Transform h s (take (block h) data)) (u64 (bytes + Z.of_nat (block h)))
             (drop (block h) data)
      else (s, bytes, data)
  end.

(** The first part of [Write]: a buffer that gets full is processed. *)
Definition fill (st : hash_state) (data : byte_list) : list Z * byte_list * Z * byte_list * nat :=
  let bufsize := Z.to_nat (hbytes st mod Z.of_nat (block h)) in
  if (0 <? bufsize)%nat && (block h <=? bufsize + length data)%nat then
    let n := (block h - bufsize)%nat in
    let buf := splice (hbuf st) bufsize (take n data) in
    (Transform h (hs st) buf, buf, u64 (hbytes st + Z.of_nat n), drop n data, O)
  else (hs st, hbuf st, hbytes st, data, bufsize).

(** The rest: full chunks straight from the source, then what remains. *)
Definition write_rest (x : list Z * byte_list * Z * byte_list * nat) : hash_state :=
  let '(s, buf, bytes, data, bufsize) := x in
  let '(s, bytes, data) := full_chunks (length data) s bytes data in
  if (0 <? length data)%nat
  then {| hs := s; hbuf := splice buf bufsize data; hbytes := u64 (bytes + Z.of_nat (length data)) |}
  else {| hs := s; hbuf := buf; hbytes := bytes |}.

Definition Write (st : hash_state) (data : byte_list) : hash_state := write_rest (fill st data).

(** [1 + ((119 - (bytes % 64)) % 64)], and the same with 239 and 128; the
    subtraction is of [size_t]s and does not go below zero. *)
Definition pad_length (bytes : Z) : nat :=
  let B := Z.of_nat (block h) in
  Z.to_nat (1 + (2 * B - 1 - Z.of_nat (size_field h) - bytes mod B) mod B).

Definition pad_block : byte_list := 0x80 :: replicate (block h - 1) 0.

Definition size_desc (bytes : Z) : byte_list :=
  let d := write_word (big_endian h) 8 (u64 (Z.shiftl bytes 3)) in
  if big_endian h then replicate (size_field h - 8) 0 ++ d else d ++ replicate (size_field h - 8) 0.

Definition output (s : list Z) : byte_list := s ≫= write_word (big_endian h) (word_bytes h).

Definition Finalize (st : hash_state) : byte_list :=
  let sizedesc := size_desc (hbytes st) in
  let st := Write st (take (pad_length (hbytes st)) pad_block) in
  let st := Write st sizedesc in
  output (hs st).

Lemma output_bytes s : words 8 (output s).
Proof.
  induction s as [|x s IH]; [constructor|]. change (output (x :: s)) with (write_word (big_endian h) (word_bytes h) x ++ output s).
  apply words_app. split; [|done]. unfold write_word. destruct (big_endian h); [apply Forall_rev|]; apply le_bytes_bytes.
Qed.

(** * The reference: hash of a whole message *)

Fixpoint fold_blocks (n : nat) (s : list Z) (m : byte_list) : list Z :=
  match n with
  | O => s
  | S n' => fold_blocks n' (Transform h s (take (block h) m)) (drop (block h) m)
  end.

(** The message, a one bit, zeros and the length in bits, in whole blocks. *)
Definition padded (m : byte_list) : byte_list :=
  let B := block h in
  let z := ((2 * B - 1 - size_field h - length m mod B) mod B)%nat in
  m ++ 0x80 :: replicate z 0 ++ size_desc (Z.of_nat (length m)).

Definition digest (m : byte_list) : byte_list :=
  output (fold_blocks (length (padded m) / block h) (Initialize h) (padded m)).

(** * Any way of writing a message gives its digest *)

Context (HB : (0 < block h)%nat) (HS : (8 <= size_field h)%nat)
  (HBS : (size_field h < block h)%nat) (HB64 : (Z.of_nat (block h) | 2 ^ 64)).

Lemma fold_blocks_add a b s m :
  fold_blocks (a + b) s m = fold_blocks b (fold_blocks a s m) (drop (a * block h) m).
Proof.
  revert s m. induction a as [|a IH]; intros s m; cbn [fold_blocks Nat.add Nat.mul]; [done|].
  rewrite IH, drop_drop. done.
Qed.

Lemma fold_blocks_app n s m d :
  (n * block h <= length m)%nat -> fold_blocks n s (m ++ d) = fold_blocks n s m.
Proof.
  revert s m. induction n as [|n IH]; intros s m Hn; cbn [fold_blocks Nat.mul] in *; [done|].
  rewrite take_app_le, drop_app_le by lia. apply IH. rewrite length_drop. lia.
Qed.

Lemma full_chunks_spec fuel s bytes data :
  (length data <= fuel)%nat ->
  full_chunks fuel s bytes data =
    (fold_blocks (length data / block h) s data,
     (if (block h <=? length data)%nat
      then u64 (bytes + Z.of_nat (block h * (length data / block h))) else bytes),
     drop (block h * (length data / block h)) data).
Proof.
  revert s bytes data. induction fuel as [|f IH]; intros s bytes data Hf; cbn [full_chunks].
  - destruct data; [|simpl in Hf; lia]. cbn [length]. rewrite Nat.Div0.div_0_l.
    destruct (Nat.leb_spec (block h) 0); [lia|]. by rewrite drop_nil.
  - destruct (Nat.leb_spec (block h) (length data)) as [Hle|Hlt].
    2: { rewrite Nat.div_small by lia. cbn [fold_blocks]. by rewrite Nat.mul_0_r, drop_0. }
    rewrite IH by (rewrite length_drop; lia). rewrite length_drop.
    set (B := block h) in *. set (n := length data) in *.
    assert (En : (n / B = S ((n - B) / B))%nat).
    { replace n with ((n - B) + 1 * B)%nat at 1 by lia. rewrite Nat.div_add by lia. lia. }
    rewrite En. cbn [fold_blocks]. fold B. f_equal; [f_equal|].
    + assert (E : u64 (u64 (bytes + Z.of_nat B) + Z.of_nat (B * ((n - B) / B))) =
        u64 (bytes + Z.of_nat (B * S ((n - B) / B)))).
      { unfold u64. rewrite Zplus_mod_idemp_l. f_equal. lia. }
      destruct (Nat.leb_spec B (n - B)); [done|].
      rewrite <- E, Nat.div_small, Nat.mul_0_r by lia. unfold u64.
      by rewrite Z.add_0_r, Zmod_mod.
    + rewrite drop_drop. f_equal. lia.
Qed.

(** The state after the message [m]. *)
Definition absorbed (st : hash_state) (m : byte_list) : Prop :=
  length (hbuf st) = block h /\
  hbytes st = u64 (Z.of_nat (length m)) /\
  hs st = fold_blocks (length m / block h) (Initialize h) m /\
  take (length m mod block h) (hbuf st) = drop (block h * (length m / block h)) m.

Lemma absorbed_init junk : length junk = block h -> absorbed (hash_init junk) [].
Proof.
  intros Hj. unfold absorbed. cbn [length hs hbuf hbytes hash_init].
  rewrite Nat.Div0.div_0_l, Nat.Div0.mod_0_l. split_and!; [done|done|done|by rewrite drop_nil].
Qed.

Lemma length_splice buf off data :
  (off + length data <= length buf)%nat -> length (splice buf off data) = length buf.
Proof. intros H. unfold splice. rewrite !length_app, length_take, length_drop. lia. Qed.

Lemma take_splice buf off data :
  (off + length data <= length buf)%nat ->
  take (off + length data) (splice buf off data) = take off buf ++ data.
Proof.
  intros H. unfold splice. rewrite app_assoc. apply take_app_length'.
  rewrite length_app, length_take. lia.
Qed.

Lemma bufsize_eq m :
  Z.to_nat (u64 (Z.of_nat (length m)) mod Z.of_nat (block h)) = (length m mod block h)%nat.
Proof.
  unfold u64. rewrite Z.mod_mod_divide by done. rewrite <- Nat2Z.inj_mod. lia.
Qed.

Lemma u64_add_l x y : u64 (u64 x + y) = u64 (x + y).
Proof. unfold u64. by rewrite Zplus_mod_idemp_l. Qed.

Lemma div_mod_block n : (n = block h * (n / block h) + n mod block h)%nat /\ (n mod block h < block h)%nat.
Proof. split; [apply Nat.div_mod; lia|apply Nat.mod_upper_bound; lia]. Qed.

(** With an empty buffer: everything from a block boundary on. *)
Lemma write_rest_blocks n0 buf m :
  length buf = block h -> (n0 * block h <= length m)%nat ->
  absorbed (write_rest (fold_blocks n0 (Initialize h) m, buf, u64 (Z.of_nat (n0 * block h)),
    drop (n0 * block h) m, O)) m.
Proof.
  intros Hl Hn. unfold write_rest. rewrite full_chunks_spec by done.
  rewrite <- fold_blocks_add, !(length_drop m (n0 * block h)), drop_drop.
  set (k := ((length m - n0 * block h) / block h)%nat).
  destruct (div_mod_block (length m - n0 * block h)) as [Ed Hr]. fold k in Ed.
  set (r := ((length m - n0 * block h) mod block h)%nat) in *.
  assert (Ediv : (length m / block h = n0 + k)%nat)
    by (symmetry; apply Nat.div_unique with r; lia).
  assert (Emod : (length m mod block h = r)%nat)
    by (symmetry; apply Nat.mod_unique with (n0 + k)%nat; lia).
  assert (Eb : (if (block h <=? length m - n0 * block h)%nat
      then u64 (u64 (Z.of_nat (n0 * block h)) + Z.of_nat (block h * k))
      else u64 (Z.of_nat (n0 * block h))) = u64 (Z.of_nat ((n0 + k) * block h))).
  { destruct (Nat.leb_spec (block h) (length m - n0 * block h)); [rewrite u64_add_l; f_equal; lia|].
    unfold k. rewrite Nat.div_small, Nat.add_0_r by lia. done. }
  rewrite Eb. replace (n0 * block h + block h * k)%nat with (block h * (n0 + k))%nat by lia.
  assert (Hlr : length (drop (block h * (n0 + k)) m) = r) by (rewrite length_drop; lia).
  unfold absorbed. rewrite Ediv, Emod, Hlr.
  destruct (Nat.ltb_spec 0 r); cbn [hs hbuf hbytes].
  - split_and!; [rewrite length_splice; lia|rewrite u64_add_l; f_equal; lia|done|].
    pose proof (take_splice buf 0 (drop (block h * (n0 + k)) m)) as E.
    rewrite Hlr in E. apply E. lia.
  - split_and!; [done|f_equal; lia|done|]. replace r with O by lia.
    symmetry. apply nil_length_inv. lia.
Qed.

(** The buffer does not get full. *)
Lemma write_rest_partial st m d :
  absorbed st m -> (length m mod block h + length d < block h)%nat ->
  absorbed (write_rest (hs st, hbuf st, hbytes st, d, length m mod block h)%nat) (m ++ d).
Proof.
  intros (Hl & Hb & Hs & Ht) Hd. unfold write_rest. rewrite full_chunks_spec by done.
  rewrite (Nat.div_small (length d)) by lia. cbn [fold_blocks]. rewrite Nat.mul_0_r, drop_0.
  destruct (Nat.leb_spec (block h) (length d)); [lia|].
  destruct (div_mod_block (length m)) as [En Hr].
  set (q := (length m / block h)%nat) in *. set (r := (length m mod block h)%nat) in *.
  assert (Ediv : ((length m + length d) / block h = q)%nat)
    by (symmetry; apply Nat.div_unique with (r + length d)%nat; lia).
  assert (Emod : ((length m + length d) mod block h = r + length d)%nat)
    by (symmetry; apply Nat.mod_unique with q; lia).
  unfold absorbed. rewrite length_app, Ediv, Emod.
  rewrite fold_blocks_app, drop_app_le by lia.
  destruct (Nat.ltb_spec 0 (length d)); cbn [hs hbuf hbytes].
  - split_and!; [rewrite length_splice; lia|rewrite Hb, u64_add_l; f_equal; lia|done|].
    rewrite take_splice by lia. by rewrite Ht.
  - destruct d; [|simpl in *; lia]. cbn [length]. rewrite !Nat.add_0_r, app_nil_r.
    split_and!; done.
Qed.

Lemma fill_complete st m d :
  absorbed st m -> (0 < length m mod block h)%nat ->
  (block h <= length m mod block h + length d)%nat ->
  exists buf, length buf = block h /\
    fill st d = (fold_blocks (S (length m / block h)) (Initialize h) (m ++ d), buf,
      u64 (Z.of_nat (S (length m / block h) * block h)),
      drop (S (length m / block h) * block h) (m ++ d), O).
Proof.
  intros (Hl & Hb & Hs & Ht) Hpos Hd. unfold fill. rewrite Hb, bufsize_eq.
  destruct (div_mod_block (length m)) as [En Hr].
  set (q := (length m / block h)%nat) in *. set (r := (length m mod block h)%nat) in *.
  rewrite (proj2 (Nat.ltb_lt 0 r)), (proj2 (Nat.leb_le _ _) Hd) by done. cbn [andb].
  assert (Htl : length (drop (block h * q) m) = r) by (rewrite length_drop; lia).
  assert (Hlt : length (take (block h - r) d) = (block h - r)%nat) by (rewrite length_take; lia).
  assert (Hsp : splice (hbuf st) r (take (block h - r) d) =
    drop (block h * q) m ++ take (block h - r) d).
  { pose proof (take_splice (hbuf st) r (take (block h - r) d) ltac:(lia)) as Hsp.
    rewrite Ht in Hsp. rewrite <- Hsp. symmetry.
    apply take_ge. rewrite length_splice by lia. lia. }
  exists (splice (hbuf st) r (take (block h - r) d)). split; [rewrite length_splice; lia|].
  assert (Efold : Transform h (hs st) (splice (hbuf st) r (take (block h - r) d)) =
    fold_blocks (S q) (Initialize h) (m ++ d)).
  { replace (S q) with (q + 1)%nat by lia. rewrite fold_blocks_add. cbn [fold_blocks].
    rewrite fold_blocks_app by lia. rewrite <- Hs, Hsp, drop_app_le by lia.
    rewrite (Nat.mul_comm q), take_app_ge by lia. by rewrite Htl. }
  rewrite Efold, u64_add_l, drop_app_ge by lia.
  replace (Z.of_nat (length m) + Z.of_nat (block h - r)) with (Z.of_nat (S q * block h)) by lia.
  by replace (S q * block h - length m)%nat with (block h - r)%nat by lia.
Qed.

(** Writing [d] after [m] is having written [m] and [d]. *)
Lemma Write_absorbed st m d : absorbed st m -> absorbed (Write st d) (m ++ d).
Proof.
  intros Habs. unfold Write. destruct (div_mod_block (length m)) as [En Hr].
  destruct (Nat.leb_spec (block h) (length m mod block h + length d)) as [Hfull|Hpart].
  - destruct (Nat.eq_dec (length m mod block h)%nat 0%nat) as [E0|].
    + destruct Habs as (Hl & Hb & Hs & Ht). unfold fill. rewrite Hb, bufsize_eq, E0. cbn [Nat.ltb Nat.leb andb].
      rewrite Hs, <- (fold_blocks_app _ _ m d) by lia.
      replace d with (drop (length m / block h * block h) (m ++ d)) at 2.
      2: { rewrite drop_app_ge by lia. replace (length m / block h * block h - length m)%nat with O by lia. done. }
      replace (length m) with (length m / block h * block h)%nat at 2 by lia.
      apply write_rest_blocks; [done|]. rewrite length_app. lia.
    + destruct (fill_complete st m d Habs ltac:(lia) Hfull) as (buf & Hl & ->).
      apply write_rest_blocks; [done|]. rewrite length_app. lia.
  - assert (E : fill st d = (hs st, hbuf st, hbytes st, d, length m mod block h)%nat).
    { unfold fill. destruct Habs as (_ & Hb & _). rewrite Hb, bufsize_eq.
      rewrite (proj2 (Nat.leb_gt _ _) Hpart), andb_false_r. done. }
    rewrite E. by apply write_rest_partial.
Qed.

Lemma Writes_absorbed st m ds : absorbed st m -> absorbed (fold_left Write ds st) (m ++ concat ds).
Proof.
  revert st m. induction ds as [|d ds IH]; intros st m H; cbn [fold_left concat].
  - by rewrite app_nil_r.
  - rewrite app_assoc. apply IH. by apply Write_absorbed.
Qed.

Lemma pad_length_eq m :
  pad_length (u64 (Z.of_nat (length m))) =
    S ((2 * block h - 1 - size_field h - length m mod block h) mod block h).
Proof.
  unfold pad_length. pose proof (bufsize_eq m) as E.
  assert (Hp : 0 <= u64 (Z.of_nat (length m)) mod Z.of_nat (block h)) by (apply Z.mod_pos_bound; lia).
  assert (E' : u64 (Z.of_nat (length m)) mod Z.of_nat (block h) = Z.of_nat (length m mod block h)) by lia.
  rewrite E'. destruct (div_mod_block (length m)) as [_ Hr].
  replace (2 * Z.of_nat (block h) - 1 - Z.of_nat (size_field h) - Z.of_nat (length m mod block h))
    with (Z.of_nat (2 * block h - 1 - size_field h - length m mod block h)) by lia.
  rewrite <- Nat2Z.inj_mod. lia.
Qed.

Lemma pad_take n : (n <= block h)%nat -> take (S n) pad_block = 0x80 :: take n (replicate (block h - 1) 0).
Proof. done. Qed.

Lemma length_size_desc n : length (size_desc n) = size_field h.
Proof.
  unfold size_desc, write_word. destruct (big_endian h);
    rewrite length_app, ?length_rev, length_replicate, length_le_bytes; lia.
Qed.

(** The padded message is whole blocks. *)
Lemma padded_blocks m : (length (padded m) mod block h = 0)%nat.
Proof.
  unfold padded. rewrite length_app. cbn [length]. rewrite length_app, length_replicate, length_size_desc.
  destruct (div_mod_block (length m)) as [En Hr].
  set (x := (2 * block h - 1 - size_field h - length m mod block h)%nat).
  destruct (div_mod_block x) as [Ex Hx].
  replace (length m + S (x mod block h + size_field h))%nat
    with (0 + (length m / block h + 2 - x / block h) * block h)%nat.
  { by rewrite Nat.Div0.mod_add, Nat.Div0.mod_0_l. }
  assert (x / block h <= 1)%nat; [|unfold x in *; nia].
  apply Nat.lt_succ_r. apply Nat.Div0.div_lt_upper_bound. unfold x. lia.
Qed.

(** However a message is cut up, the result is its digest. *)
Lemma Finalize_digest st m :
  absorbed st m -> (Z.of_nat (length m) < 2 ^ 61) -> Finalize st = digest m.
Proof.
  intros Habs Hlen. unfold Finalize, digest.
  destruct Habs as (Hl & Hb & Hs & Ht) eqn:Eabs.
  assert (Hlen' : u64 (Z.of_nat (length m)) = Z.of_nat (length m)) by (apply Z.mod_small; lia).
  rewrite Hb, pad_length_eq, Hlen'.
  set (z := ((2 * block h - 1 - size_field h - length m mod block h) mod block h)%nat).
  assert (Hz : (z < block h)%nat) by (apply Nat.mod_upper_bound; lia).
  rewrite pad_take, take_replicate, Nat.min_l by lia.
  pose proof (Write_absorbed _ _ (size_desc (Z.of_nat (length m)))
    (Write_absorbed _ _ (0x80 :: replicate z 0) Habs)) as (_ & _ & Hs' & _).
  rewrite Hs'. f_equal.
  assert (E : (m ++ 0x80 :: replicate z 0) ++ size_desc (Z.of_nat (length m)) = padded m).
  { unfold padded. fold z. by rewrite <- app_assoc. }
  by rewrite E.
Qed.
End Stream.

(** * HMAC *)

Section Hmac.
Context (h : hasher).
Implicit Types (key msg junk : byte_list).

Record hmac_state := { outer : hash_state; inner : hash_state }.

(** The key in one block: padded with zeros, or hashed first. *)
Definition hmac_rkey (junk key : byte_list) : byte_list :=
  if (length key <=? block h)%nat then key ++ replicate (block h - length key) 0
  else
    let d := Finalize h (Write h (hash_init h junk) key) in
    d ++ replicate (block h - length d) 0.

(** The constructor. *)
Definition hmac_init (junk key : byte_list) : hmac_state :=
  let rkey := hmac_rkey junk key in
  let rkey := map (fun b => Z.lxor b 0x5c) rkey in
  let outer := Write h (hash_init h junk) rkey in
  let rkey := map (fun b => Z.lxor b (Z.lxor 0x5c 0x36)) rkey in
  let inner := Write h (hash_init h junk) rkey in
  {| outer := outer; inner := inner |}.

Definition hmac_write (st : hmac_state) (data : byte_list) : hmac_state :=
  {| outer := outer st; inner := Write h (inner st) data |}.

Definition hmac_finalize (st : hmac_state) : byte_list :=
  let temp := Finalize h (inner st) in
  Finalize h (Write h (outer st) temp).

(** The construction of RFC 2104 over the one-shot digest. *)
Definition hmac_key (key : byte_list) : byte_list :=
  let k := if (length key <=? block h)%nat then key else digest h key in
  k ++ replicate (block h - length k) 0.

Definition hmac (key msg : byte_list) : byte_list :=
  digest h (map (fun b => Z.lxor b 0x5c) (hmac_key key) ++
    digest h (map (fun b => Z.lxor b 0x36) (hmac_key key) ++ msg)).

Context (HB : (0 < block h)%nat) (HS : (8 <= size_field h)%nat)
  (HBS : (size_field h < block h)%nat) (HB64 : (Z.of_nat (block h) | 2 ^ 64)).

Lemma Write_digest junk m :
  length junk = block h -> Z.of_nat (length m) < 2 ^ 61 ->
  Finalize h (Write h (hash_init h junk) m) = digest h m.
Proof.
  intros Hj Hm. apply Finalize_digest; try assumption.
  change m with ([] ++ m). apply Write_absorbed; try assumption. by apply absorbed_init.
Qed.

Lemma hmac_outer msgs st : outer (fold_left hmac_write msgs st) = outer st.
Proof. revert st. induction msgs as [|d ds IH]; intros st; [done|]. apply (IH (hmac_write st d)). Qed.

Lemma hmac_inner msgs st : inner (fold_left hmac_write msgs st) = fold_left (Write h) msgs (inner st).
Proof. revert st. induction msgs as [|d ds IH]; intros st; [done|]. apply (IH (hmac_write st d)). Qed.

Lemma lxor_pads l :
  map (fun b => Z.lxor b (Z.lxor 0x5c 0x36)) (map (fun b => Z.lxor b 0x5c) l) =
  map (fun b => Z.lxor b 0x36) l.
Proof.
  rewrite map_map. apply map_ext. intros b.
  rewrite Z.lxor_assoc, <- (Z.lxor_assoc 0x5c 0x5c), Z.lxor_nilpotent, Z.lxor_0_l. done.
Qed.

Lemma hmac_finalize_spec junk key msgs :
  length junk = block h -> Z.of_nat (length key) < 2 ^ 61 ->
  Z.of_nat (length (map (fun b => Z.lxor b 0x36) (hmac_key key) ++ concat msgs)) < 2 ^ 61 ->
  Z.of_nat (length (map (fun b => Z.lxor b 0x5c) (hmac_key key) ++
    digest h (map (fun b => Z.lxor b 0x36) (hmac_key key) ++ concat msgs))) < 2 ^ 61 ->
  hmac_finalize (fold_left hmac_write msgs (hmac_init junk key)) = hmac key (concat msgs).
Proof.
  intros Hj Hk Hi Ho.
  assert (Er : hmac_rkey junk key = hmac_key key).
  { unfold hmac_rkey, hmac_key. case_match; [done|]. by rewrite Write_digest by assumption. }
  pose proof (absorbed_init h junk Hj) as Hinit. unfold hmac_finalize, hmac.
  rewrite hmac_outer, hmac_inner. unfold hmac_init. cbn [outer inner]. rewrite Er, lxor_pads.
  assert (Hin : absorbed h (fold_left (Write h) msgs
      (Write h (hash_init h junk) (map (fun b => Z.lxor b 0x36) (hmac_key key))))
      (map (fun b => Z.lxor b 0x36) (hmac_key key) ++ concat msgs)).
  { apply Writes_absorbed; try assumption.
    apply (Write_absorbed h) with (m := []); assumption. }
  assert (Ein : Finalize h (fold_left (Write h) msgs
      (Write h (hash_init h junk) (map (fun b => Z.lxor b 0x36) (hmac_key key)))) =
    digest h (map (fun b => Z.lxor b 0x36) (hmac_key key) ++ concat msgs))
    by (apply Finalize_digest; assumption).
  rewrite Ein. apply Finalize_digest; try assumption. apply Write_absorbed; try assumption.
  apply (Write_absorbed h) with (m := []); assumption.
Qed.
End Hmac.
