(* ===== verification/Hashes.v ===== *)
(** The compression functions of src/crypto (sha256.cpp, sha512.cpp, sha1.cpp,
    ripemd160.cpp), the classes over them and the hashes of hash.h.

    The code unrolls the rounds and renames the registers from one call of [Round]
    to the next; here a round is applied to the registers in their order and the
    registers are rotated, so that after all rounds they are where the code has
    them.  The sixteen words [w0] .. [w15] are a list, updated in place. *)

From S2P Require Import Prelude Uint256 Arith256 Digest.

(** * Words *)

(** [x >> n | x << (w - n)] on a [w]-bit word. *)
Definition rotr (w : Z) (x n : Z) : Z := Z.lor (Z.shiftr x n) (Z.shiftl x (w - n) mod 2 ^ w).
Definition rotl (w : Z) (x n : Z) : Z := Z.lor (Z.shiftl x n mod 2 ^ w) (Z.shiftr x (w - n)).

Definition not32 (x : Z) : Z := Z.lxor x (2 ^ 32 - 1).

(** The sixteen words of a block. *)
Fixpoint read_words (be : bool) (n : nat) (k : nat) (chunk : byte_list) : list Z :=
  match k with
  | O => []
  | S k' => read_word be (take n chunk) :: read_words be n k' (drop n chunk)
  end.

Definition wat (ws : list Z) (i : nat) : Z := nth (i mod 16) ws 0.

(** * SHA-256 and SHA-512

    The two differ in the width, the rotations and the constants. *)

Record sha2 := {
  sha_w : Z;
  sha_Sigma0 : Z -> Z;
  sha_Sigma1 : Z -> Z;
  sha_sigma0 : Z -> Z;
  sha_sigma1 : Z -> Z;
  sha_K : list Z
}.

Section Sha2.
Context (p : sha2).

Definition wadd (x y : Z) : Z := (x + y) mod 2 ^ sha_w p.

Definition Ch (x y z : Z) : Z := Z.lxor z (Z.land x (Z.lxor y z)).
Definition Maj (x y z : Z) : Z := Z.lor (Z.land x y) (Z.land z (Z.lor x y)).

(** The eight registers, [a] to [h]. *)
Definition regs : Type := Z * Z * Z * Z * Z * Z * Z * Z.

(** [Round], which changes [d] and [h], and the renaming for the next call. *)
Definition sha_round (r : regs) (k w : Z) : regs :=
  let '(a, b, c, d, e, f, g, h) := r in
  let t1 := wadd (wadd (wadd (wadd h (sha_Sigma1 p e)) (Ch e f g)) k) w in
  let t2 := wadd (sha_Sigma0 p a) (Maj a b c) in
  let d := wadd d t1 in
  let h := wadd t1 t2 in
  (h, a, b, c, d, e, f, g).

(** The message word of round [i]: read from the block in the first sixteen, then
    [w_i += sigma1(w_(i+14)) + w_(i+9) + sigma0(w_(i+1))]. *)
Definition sha_word (i : nat) (ws : list Z) : Z :=
  if (i <? 16)%nat then wat ws i
  else wadd (wat ws i) (wadd (wadd (sha_sigma1 p (wat ws (i + 14))) (wat ws (i + 9)))
                          (sha_sigma0 p (wat ws (i + 1)))).

Fixpoint sha_rounds (i : nat) (ks : list Z) (ws : list Z) (r : regs) : regs :=
  match ks with
  | [] => r
  | k :: ks' =>
      let w := sha_word i ws in
      sha_rounds (S i) ks' (<[(i mod 16)%nat := w]> ws) (sha_round r k w)
  end.

Definition sha_transform (s : list Z) (chunk : byte_list) : list Z :=
  let r := (nth 0 s 0, nth 1 s 0, nth 2 s 0, nth 3 s 0, nth 4 s 0, nth 5 s 0, nth 6 s 0, nth 7 s 0) in
  let '(a, b, c, d, e, f, g, h) :=
    sha_rounds 0 (sha_K p) (read_words true (Z.to_nat (sha_w p / 8)) 16 chunk) r in
  zip_with wadd s [a; b; c; d; e; f; g; h].
End Sha2.

Definition xor3 (x y z : Z) : Z := Z.lxor (Z.lxor x y) z.

Definition sha256_params : sha2 := {|
  sha_w := 32;
  sha_Sigma0 x := xor3 (rotr 32 x 2) (rotr 32 x 13) (rotr 32 x 22);
  sha_Sigma1 x := xor3 (rotr 32 x 6) (rotr 32 x 11) (rotr 32 x 25);
  sha_sigma0 x := xor3 (rotr 32 x 7) (rotr 32 x 18) (Z.shiftr x 3);
  sha_sigma1 x := xor3 (rotr 32 x 17) (rotr 32 x 19) (Z.shiftr x 10);
  sha_K :=
   0x428a2f98 :: 0x71374491 :: 0xb5c0fbcf :: 0xe9b5dba5 :: 0x3956c25b :: 0x59f111f1 :: 0x923f82a4 :: 0xab1c5ed5 ::
   0xd807aa98 :: 0x12835b01 :: 0x243185be :: 0x550c7dc3 :: 0x72be5d74 :: 0x80deb1fe :: 0x9bdc06a7 :: 0xc19bf174 ::
   0xe49b69c1 :: 0xefbe4786 :: 0x0fc19dc6 :: 0x240ca1cc :: 0x2de92c6f :: 0x4a7484aa :: 0x5cb0a9dc :: 0x76f988da ::
   0x983e5152 :: 0xa831c66d :: 0xb00327c8 :: 0xbf597fc7 :: 0xc6e00bf3 :: 0xd5a79147 :: 0x06ca6351 :: 0x14292967 ::
   0x27b70a85 :: 0x2e1b2138 :: 0x4d2c6dfc :: 0x53380d13 :: 0x650a7354 :: 0x766a0abb :: 0x81c2c92e :: 0x92722c85 ::
   0xa2bfe8a1 :: 0xa81a664b :: 0xc24b8b70 :: 0xc76c51a3 :: 0xd192e819 :: 0xd6990624 :: 0xf40e3585 :: 0x106aa070 ::
   0x19a4c116 :: 0x1e376c08 :: 0x2748774c :: 0x34b0bcb5 :: 0x391c0cb3 :: 0x4ed8aa4a :: 0x5b9cca4f :: 0x682e6ff3 ::
   0x748f82ee :: 0x78a5636f :: 0x84c87814 :: 0x8cc70208 :: 0x90befffa :: 0xa4506ceb :: 0xbef9a3f7 :: 0xc67178f2 :: nil |}.

Definition CSHA256 : hasher := {|
  block := 64; size_field := 8; big_endian := true; word_bytes := 4;
  Initialize := [
   0x6a09e667; 0xbb67ae85; 0x3c6ef372; 0xa54ff53a;
   0x510e527f; 0x9b05688c; 0x1f83d9ab; 0x5be0cd19];
  Transform := sha_transform sha256_params |}.

Definition sha512_params : sha2 := {|
  sha_w := 64;
  sha_Sigma0 x := xor3 (rotr 64 x 28) (rotr 64 x 34) (rotr 64 x 39);
  sha_Sigma1 x := xor3 (rotr 64 x 14) (rotr 64 x 18) (rotr 64 x 41);
  sha_sigma0 x := xor3 (rotr 64 x 1) (rotr 64 x 8) (Z.shiftr x 7);
  sha_sigma1 x := xor3 (rotr 64 x 19) (rotr 64 x 61) (Z.shiftr x 6);
  sha_K :=
   0x428a2f98d728ae22 :: 0x7137449123ef65cd :: 0xb5c0fbcfec4d3b2f :: 0xe9b5dba58189dbbc ::
   0x3956c25bf348b538 :: 0x59f111f1b605d019 :: 0x923f82a4af194f9b :: 0xab1c5ed5da6d8118 ::
   0xd807aa98a3030242 :: 0x12835b0145706fbe :: 0x243185be4ee4b28c :: 0x550c7dc3d5ffb4e2 ::
   0x72be5d74f27b896f :: 0x80deb1fe3b1696b1 :: 0x9bdc06a725c71235 :: 0xc19bf174cf692694 ::
   0xe49b69c19ef14ad2 :: 0xefbe4786384f25e3 :: 0x0fc19dc68b8cd5b5 :: 0x240ca1cc77ac9c65 ::
   0x2de92c6f592b0275 :: 0x4a7484aa6ea6e483 :: 0x5cb0a9dcbd41fbd4 :: 0x76f988da831153b5 ::
   0x983e5152ee66dfab :: 0xa831c66d2db43210 :: 0xb00327c898fb213f :: 0xbf597fc7beef0ee4 ::
   0xc6e00bf33da88fc2 :: 0xd5a79147930aa725 :: 0x06ca6351e003826f :: 0x142929670a0e6e70 ::
   0x27b70a8546d22ffc :: 0x2e1b21385c26c926 :: 0x4d2c6dfc5ac42aed :: 0x53380d139d95b3df ::
   0x650a73548baf63de :: 0x766a0abb3c77b2a8 :: 0x81c2c92e47edaee6 :: 0x92722c851482353b ::
   0xa2bfe8a14cf10364 :: 0xa81a664bbc423001 :: 0xc24b8b70d0f89791 :: 0xc76c51a30654be30 ::
   0xd192e819d6ef5218 :: 0xd69906245565a910 :: 0xf40e35855771202a :: 0x106aa07032bbd1b8 ::
   0x19a4c116b8d2d0c8 :: 0x1e376c085141ab53 :: 0x2748774cdf8eeb99 :: 0x34b0bcb5e19b48a8 ::
   0x391c0cb3c5c95a63 :: 0x4ed8aa4ae3418acb :: 0x5b9cca4f7763e373 :: 0x682e6ff3d6b2b8a3 ::
   0x748f82ee5defb2fc :: 0x78a5636f43172f60 :: 0x84c87814a1f0ab72 :: 0x8cc702081a6439ec ::
   0x90befffa23631e28 :: 0xa4506cebde82bde9 :: 0xbef9a3f7b2c67915 :: 0xc67178f2e372532b ::
   0xca273eceea26619c :: 0xd186b8c721c0c207 :: 0xeada7dd6cde0eb1e :: 0xf57d4f7fee6ed178 ::
   0x06f067aa72176fba :: 0x0a637dc5a2c898a6 :: 0x113f9804bef90dae :: 0x1b710b35131c471b ::
   0x28db77f523047d84 :: 0x32caab7b40c72493 :: 0x3c9ebe0a15c9bebc :: 0x431d67c49c100d4c ::
   0x4cc5d4becb3e42b6 :: 0x597f299cfc657e2a :: 0x5fcb6fab3ad6faec :: 0x6c44198c4a475817 :: nil |}.

Definition CSHA512 : hasher := {|
  block := 128; size_field := 16; big_endian := true; word_bytes := 8;
  Initialize := [
   0x6a09e667f3bcc908; 0xbb67ae8584caa73b; 0x3c6ef372fe94f82b; 0xa54ff53a5f1d36f1;
   0x510e527fade682d1; 0x9b05688c2b3e6c1f; 0x1f83d9abfb41bd6b; 0x5be0cd19137e2179];
  Transform := sha_transform sha512_params |}.

(** * SHA-1 *)

Definition regs5 : Type := Z * Z * Z * Z * Z.

Definition sha1_round (r : regs5) (f : Z -> Z -> Z -> Z) (k w : Z) : regs5 :=
  let '(a, b, c, d, e) := r in
  let e := u32 (e + (rotl 32 a 5 + f b c d + k + w)) in
  let b := rotl 32 b 30 in
  (e, a, b, c, d).

Definition sha1_f1 (b c d : Z) : Z := Z.lxor d (Z.land b (Z.lxor c d)).
Definition sha1_f2 (b c d : Z) : Z := xor3 b c d.
Definition sha1_f3 (b c d : Z) : Z := Z.lor (Z.land b c) (Z.land d (Z.lor b c)).

(** The function and constant of round [i]. *)
Definition sha1_stage (i : nat) : (Z -> Z -> Z -> Z) * Z :=
  if (i <? 20)%nat then (sha1_f1, 0x5A827999)
  else if (i <? 40)%nat then (sha1_f2, 0x6ED9EBA1)
  else if (i <? 60)%nat then (sha1_f3, 0x8F1BBCDC)
  else (sha1_f2, 0xCA62C1D6).

Definition sha1_word (i : nat) (ws : list Z) : Z :=
  if (i <? 16)%nat then wat ws i
  else rotl 32 (Z.lxor (xor3 (wat ws i) (wat ws (i + 13)) (wat ws (i + 8))) (wat ws (i + 2))) 1.

Fixpoint sha1_rounds (n i : nat) (ws : list Z) (r : regs5) : regs5 :=
  match n with
  | O => r
  | S n' =>
      let w := sha1_word i ws in
      let '(f, k) := sha1_stage i in
      sha1_rounds n' (S i) (<[(i mod 16)%nat := w]> ws) (sha1_round r f k w)
  end.

Definition add32 (x y : Z) : Z := u32 (x + y).

Definition sha1_transform (s : list Z) (chunk : byte_list) : list Z :=
  let r := (nth 0 s 0, nth 1 s 0, nth 2 s 0, nth 3 s 0, nth 4 s 0) in
  let '(a, b, c, d, e) := sha1_rounds 80 0 (read_words true 4 16 chunk) r in
  zip_with add32 s [a; b; c; d; e].

Definition CSHA1 : hasher := {|
  block := 64; size_field := 8; big_endian := true; word_bytes := 4;
  Initialize := [0x67452301; 0xEFCDAB89; 0x98BADCFE; 0x10325476; 0xC3D2E1F0];
  Transform := sha1_transform |}.

(** * RIPEMD-160 *)

Definition rmd_f (j : nat) (x y z : Z) : Z :=
  match j with
  | 1%nat => xor3 x y z
  | 2%nat => Z.lor (Z.land x y) (Z.land (not32 x) z)
  | 3%nat => Z.lxor (Z.lor x (not32 y)) z
  | 4%nat => Z.lor (Z.land x z) (Z.land y (not32 z))
  | _ => Z.lxor x (Z.lor y (not32 z))
  end.

(** [Round] and the renaming for the next call of the same line. *)
Definition rmd_round (r : regs5) (f x k rot : Z) : regs5 :=
  let '(a, b, c, d, e) := r in
  let a := u32 (rotl 32 (u32 (a + f + x + k)) rot + e) in
  let c := rotl 32 c 10 in
  (e, a, b, c, d).

(** The function and constant of round [i] on the two lines: [R11] .. [R51] and
    [R12] .. [R52]. *)
Definition rmd_left (i : nat) : nat * Z :=
  match (i / 16)%nat with
  | 0%nat => (1%nat, 0) | 1%nat => (2%nat, 0x5A827999) | 2%nat => (3%nat, 0x6ED9EBA1)
  | 3%nat => (4%nat, 0x8F1BBCDC) | _ => (5%nat, 0xA953FD4E)
  end.
Definition rmd_right (i : nat) : nat * Z :=
  match (i / 16)%nat with
  | 0%nat => (5%nat, 0x50A28BE6) | 1%nat => (4%nat, 0x5C4DD124) | 2%nat => (3%nat, 0x6D703EF3)
  | 3%nat => (2%nat, 0x7A6D76E9) | _ => (1%nat, 0)
  end.

(** The word and the rotation of each round, as the calls list them. *)
Definition rmd_left_args : list (Z * Z) := [
   (0, 11); (1, 14); (2, 15); (3, 12); (4, 5); (5, 8); (6, 7); (7, 9);
   (8, 11); (9, 13); (10, 14); (11, 15); (12, 6); (13, 7); (14, 9); (15, 8);
   (7, 7); (4, 6); (13, 8); (1, 13); (10, 11); (6, 9); (15, 7); (3, 15);
   (12, 7); (0, 12); (9, 15); (5, 9); (2, 11); (14, 7); (11, 13); (8, 12);
   (3, 11); (10, 13); (14, 6); (4, 7); (9, 14); (15, 9); (8, 13); (1, 15);
   (2, 14); (7, 8); (0, 13); (6, 6); (13, 5); (11, 12); (5, 7); (12, 5);
   (1, 11); (9, 12); (11, 14); (10, 15); (0, 14); (8, 15); (12, 9); (4, 8);
   (13, 9); (3, 14); (7, 5); (15, 6); (14, 8); (5, 6); (6, 5); (2, 12);
   (4, 9); (0, 15); (5, 5); (9, 11); (7, 6); (12, 8); (2, 13); (10, 12);
   (14, 5); (1, 12); (3, 13); (8, 14); (11, 11); (6, 8); (15, 5); (13, 6)].
Definition rmd_right_args : list (Z * Z) := [
   (5, 8); (14, 9); (7, 9); (0, 11); (9, 13); (2, 15); (11, 15); (4, 5);
   (13, 7); (6, 7); (15, 8); (8, 11); (1, 14); (10, 14); (3, 12); (12, 6);
   (6, 9); (11, 13); (3, 15); (7, 7); (0, 12); (13, 8); (5, 9); (10, 11);
   (14, 7); (15, 7); (8, 12); (12, 7); (4, 6); (9, 15); (1, 13); (2, 11);
   (15, 9); (5, 7); (1, 15); (3, 11); (7, 8); (14, 6); (6, 6); (9, 14);
   (11, 12); (8, 13); (12, 5); (2, 14); (10, 13); (0, 13); (4, 7); (13, 5);
   (8, 15); (6, 5); (4, 8); (1, 11); (3, 14); (11, 14); (15, 6); (0, 14);
   (5, 6); (12, 9); (2, 12); (13, 9); (9, 12); (7, 5); (10, 15); (14, 8);
   (12, 8); (15, 5); (10, 12); (4, 9); (1, 12); (5, 5); (8, 14); (7, 6);
   (6, 8); (2, 13); (13, 6); (14, 5); (0, 15); (3, 13); (9, 11); (11, 11)].

Fixpoint rmd_line (stage : nat -> nat * Z) (i : nat) (args : list (Z * Z)) (ws : list Z)
    (r : regs5) : regs5 :=
  match args with
  | [] => r
  | (j, rot) :: args' =>
      let '(fi, k) := stage i in
      let '(a, b, c, d, e) := r in
      rmd_line stage (S i) args' ws (rmd_round r (rmd_f fi b c d) (nth (Z.to_nat j) ws 0) k rot)
  end.

(** The two lines do not touch each other's registers: the code interleaves them. *)
Definition rmd_transform (s : list Z) (chunk : byte_list) : list Z :=
  let r := (nth 0 s 0, nth 1 s 0, nth 2 s 0, nth 3 s 0, nth 4 s 0) in
  let ws := read_words false 4 16 chunk in
  let '(a1, b1, c1, d1, e1) := rmd_line rmd_left 0 rmd_left_args ws r in
  let '(a2, b2, c2, d2, e2) := rmd_line rmd_right 0 rmd_right_args ws r in
  [u32 (nth 1 s 0 + c1 + d2); u32 (nth 2 s 0 + d1 + e2); u32 (nth 3 s 0 + e1 + a2);
   u32 (nth 4 s 0 + a1 + b2); u32 (nth 0 s 0 + b1 + c2)].

Definition CRIPEMD160 : hasher := {|
  block := 64; size_field := 8; big_endian := false; word_bytes := 4;
  Initialize := [0x67452301; 0xEFCDAB89; 0x98BADCFE; 0x10325476; 0xC3D2E1F0];
  Transform := rmd_transform |}.

(** * The hashes of hash.h *)

Definition junk64 : byte_list := replicate 64 0.
Definition junk128 : byte_list := replicate 128 0.

(** The whole life of a hash object, fed in the given pieces. *)
Definition hash_of_pieces (h : hasher) (junk : byte_list) (pieces : list byte_list) : byte_list :=
  Finalize h (fold_left (Write h) pieces (hash_init h junk)).

Definition sha256_bytes (m : byte_list) : byte_list := hash_of_pieces CSHA256 junk64 [m].
Definition sha512_bytes (m : byte_list) : byte_list := hash_of_pieces CSHA512 junk128 [m].
Definition sha1_bytes (m : byte_list) : byte_list := hash_of_pieces CSHA1 junk64 [m].
Definition ripemd160_bytes (m : byte_list) : byte_list := hash_of_pieces CRIPEMD160 junk64 [m].

(** [CHash256] and [CHash160]: [Finalize] hashes the first digest again. *)
Definition Hash256_pieces (pieces : list byte_list) : byte_list :=
  let buf := hash_of_pieces CSHA256 junk64 pieces in sha256_bytes buf.
Definition Hash160_pieces (pieces : list byte_list) : byte_list :=
  let buf := hash_of_pieces CSHA256 junk64 pieces in ripemd160_bytes buf.

(** [Hash] of one and of two ranges, [Hash160], as the bytes laid over the integer. *)
Definition Hash (m : byte_list) : uint256 := limbs_of_bytes W256 (Hash256_pieces [m]).
Definition Hash2 (m1 m2 : byte_list) : uint256 := limbs_of_bytes W256 (Hash256_pieces [m1; m2]).
Definition Hash160 (m : byte_list) : base_uint := limbs_of_bytes 5 (Hash160_pieces [m]).

(** * Lemmas *)

Lemma Hash_wf m : wf256 (Hash m).
Proof. apply limbs_of_bytes_wf, output_bytes. Qed.

Lemma Hash2_wf m1 m2 : wf256 (Hash2 m1 m2).
Proof. apply limbs_of_bytes_wf, output_bytes. Qed.

Lemma pieces_digest h junk pieces :
  (0 < block h)%nat -> (8 <= size_field h)%nat -> (size_field h < block h)%nat ->
  (Z.of_nat (block h) | 2 ^ 64) -> length junk = block h ->
  Z.of_nat (length (concat pieces)) < 2 ^ 61 ->
  hash_of_pieces h junk pieces = digest h (concat pieces).
Proof.
  intros H1 H2 H3 H4 Hj Hl. unfold hash_of_pieces. apply Finalize_digest; try assumption.
  change (concat pieces) with ([] ++ concat pieces). apply Writes_absorbed; try assumption.
  by apply absorbed_init.
Qed.

Lemma divide_64 : (Z.of_nat 64 | 2 ^ 64). Proof. by exists (2 ^ 58). Qed.
Lemma divide_128 : (Z.of_nat 128 | 2 ^ 64). Proof. by exists (2 ^ 57). Qed.

(** ** The message schedule

    The standard's [W_t], with the words so far in [acc], the latest first. *)

Section Schedule.
Context (p : sha2).

Definition next_word (acc : list Z) : Z :=
  wadd p (nth 15 acc 0)
    (wadd p (wadd p (sha_sigma1 p (nth 1 acc 0)) (nth 6 acc 0)) (sha_sigma0 p (nth 14 acc 0))).

Fixpoint future_words (n : nat) (acc : list Z) : list Z :=
  match n with
  | O => []
  | S n' => let w := next_word acc in w :: future_words n' (w :: acc)
  end.

Definition schedule (M : list Z) : list Z := M ++ future_words (length (sha_K p) - 16) (rev M).

Definition fold_rounds (r : regs) (kws : list (Z * Z)) : regs :=
  fold_left (fun r kw => sha_round p r kw.1 kw.2) kws r.

(** The ring of sixteen words holds the latest sixteen. *)
Definition ring (i : nat) (acc ws : list Z) : Prop :=
  length ws = 16%nat /\ forall d, (d < 16)%nat -> nth d acc 0 = wat ws (i + 15 - d).

Lemma wat_insert ws i j w :
  length ws = 16%nat ->
  wat (<[(i mod 16)%nat := w]> ws) j = if (j mod 16 =? i mod 16)%nat then w else wat ws j.
Proof.
  intros Hl. unfold wat. rewrite !nth_lookup.
  pose proof (Nat.mod_upper_bound i 16 ltac:(lia)).
  destruct (Nat.eqb_spec (j mod 16) (i mod 16)) as [->|Hne].
  - by rewrite list_lookup_insert_eq by lia.
  - by rewrite list_lookup_insert_ne by congruence.
Qed.

Lemma wat_mod ws i j : (i mod 16 = j mod 16)%nat -> wat ws i = wat ws j.
Proof. intros E. unfold wat. by rewrite E. Qed.

Lemma ring_word i acc ws :
  (16 <= i)%nat -> ring i acc ws -> sha_word p i ws = next_word acc.
Proof.
  intros Hi [Hl Hr]. unfold sha_word, next_word.
  destruct (Nat.ltb_spec i 16); [lia|]. rewrite !Hr by lia.
  rewrite (wat_mod ws (i + 14) (i + 15 - 1)) by (f_equal; lia).
  rewrite (wat_mod ws (i + 9) (i + 15 - 6)) by (f_equal; lia).
  rewrite (wat_mod ws (i + 1) (i + 15 - 14)) by (f_equal; lia).
  by rewrite (wat_mod ws i (i + 15 - 15)) by (f_equal; lia).
Qed.

Lemma ring_step i acc ws w : ring i acc ws -> ring (S i) (w :: acc) (<[(i mod 16)%nat := w]> ws).
Proof.
  intros [Hl Hr]. split; [by rewrite length_insert|]. intros d Hd.
  rewrite wat_insert by done. destruct d as [|d]; cbn [nth].
  - replace (S i + 15 - 0)%nat with (i + 1 * 16)%nat by lia.
    by rewrite Nat.Div0.mod_add, Nat.eqb_refl.
  - rewrite Hr by lia. replace (S i + 15 - S d)%nat with (i + 15 - d)%nat by lia.
    destruct (Nat.eqb_spec ((i + 15 - d) mod 16) (i mod 16)) as [E|]; [|done].
    exfalso. pose proof (Nat.div_mod (i + 15 - d) 16 ltac:(lia)).
    pose proof (Nat.div_mod i 16 ltac:(lia)). lia.
Qed.

Lemma sha_rounds_future ks i acc ws r :
  (16 <= i)%nat -> ring i acc ws ->
  sha_rounds p i ks ws r = fold_rounds r (combine ks (future_words (length ks) acc)).
Proof.
  revert i acc ws r. induction ks as [|k ks IH]; intros i acc ws r Hi Hr; [done|].
  cbn [sha_rounds length future_words combine fold_left fold_rounds].
  rewrite (ring_word i acc ws Hi Hr). rewrite (IH _ (next_word acc :: acc)); [done|lia|by apply ring_step].
Qed.

Lemma sha_rounds_block ks i M r :
  length M = 16%nat -> (i <= 16)%nat -> (16 <= i + length ks)%nat ->
  sha_rounds p i ks M r =
    fold_rounds r (combine ks (drop i M ++ future_words (i + length ks - 16) (rev M))).
Proof.
  intros HM. revert i r. induction ks as [|k ks IH]; intros i r Hi Hk.
  { cbn [length] in Hk. cbn [sha_rounds]. by destruct (drop i M ++ _). }
  destruct (Nat.eq_dec i 16%nat) as [->|Hne].
  - rewrite drop_ge by lia. rewrite app_nil_l.
    replace (16 + length (k :: ks) - 16)%nat with (length (k :: ks)) by lia.
    apply sha_rounds_future; [lia|]. split; [done|]. intros d Hd.
    rewrite rev_nth by lia. unfold wat. f_equal. rewrite HM.
    pose proof (Nat.div_mod (16 + 15 - d) 16 ltac:(lia)).
    replace (16 + 15 - d)%nat with ((15 - d) + 1 * 16)%nat by lia.
    rewrite Nat.Div0.mod_add, Nat.mod_small; lia.
  - destruct (lookup_lt_is_Some_2 M i ltac:(lia)) as [x Hx].
    rewrite (drop_S M x i Hx). cbn [sha_rounds app combine fold_left fold_rounds fst snd length].
    assert (Ew : sha_word p i M = x).
    { unfold sha_word. rewrite (proj2 (Nat.ltb_lt i 16)) by lia. unfold wat.
      rewrite Nat.mod_small, nth_lookup, Hx by lia. done. }
    rewrite Ew, Nat.mod_small, (list_insert_id M i x Hx) by lia.
    rewrite IH by (cbn [length] in Hk; lia). by replace (i + S (length ks))%nat with (S i + length ks)%nat by lia.
Qed.

Lemma length_read_words be n k chunk : length (read_words be n k chunk) = k.
Proof. revert chunk. induction k as [|k IH]; intros chunk; [done|]. cbn. by rewrite IH. Qed.
End Schedule.

(** * The properties *)

(** C32 The four hash classes, whatever pieces a message is written in and whatever
    the buffer held before, return the digest of the whole message: the compression
    function folded over the blocks of the message padded with a one bit, zeros and
    its length in bits. *)
Theorem hash_classes_streaming h junk pieces :
  h ∈ [CSHA256; CSHA512; CSHA1; CRIPEMD160] ->
  length junk = block h -> Z.of_nat (length (concat pieces)) < 2 ^ 61 ->
  hash_of_pieces h junk pieces = digest h (concat pieces) /\
  (length (padded h (concat pieces)) mod block h = 0)%nat.
Proof.
  intros Hh Hj Hl.
  assert (Hc : (0 < block h)%nat /\ (8 <= size_field h)%nat /\ (size_field h < block h)%nat /\
    (Z.of_nat (block h) | 2 ^ 64)).
  { rewrite !elem_of_cons, elem_of_nil in Hh. pose proof divide_64. pose proof divide_128.
    destruct Hh as [->|[->|[->|[->|[]]]]]; cbn [block size_field CSHA256 CSHA512 CSHA1 CRIPEMD160];
      split_and!; done || lia. }
  destruct Hc as (H1 & H2 & H3 & H4). split; [by apply pieces_digest|by apply padded_blocks].
Qed.

Lemma hash_classes_streaming_witness :
  sha256_bytes [97; 98; 99] =
    [186; 120; 22; 191; 143; 1; 207; 234; 65; 65; 64; 222; 93; 174; 34; 35; 176; 3; 97; 163; 150; 23;
     122; 156; 180; 16; 255; 97; 242; 0; 21; 173] /\
  sha1_bytes [97; 98; 99] =
    [169; 153; 62; 54; 71; 6; 129; 106; 186; 62; 37; 113; 120; 80; 194; 108; 156; 208; 216; 157] /\
  ripemd160_bytes [97; 98; 99] =
    [142; 178; 8; 247; 224; 93; 152; 122; 155; 4; 74; 142; 152; 198; 176; 135; 241; 90; 11; 252] /\
  firstn 8 (sha512_bytes [97; 98; 99]) = [221; 175; 53; 161; 147; 97; 122; 186] /\
  (hash_of_pieces CSHA256 junk64 [[97]; []; [98; 99]] = digest CSHA256 [97; 98; 99] /\
   (length (padded CSHA256 [97; 98; 99]%Z) mod block CSHA256 = 0)%nat).
Proof.
  split; [vm_compute; reflexivity|]. split; [vm_compute; reflexivity|].
  split; [vm_compute; reflexivity|]. split; [vm_compute; reflexivity|].
  exact (hash_classes_streaming CSHA256 junk64 [[97]; []; [98; 99]]
    ltac:(left) eq_refl ltac:(vm_compute; reflexivity)).
Defined.

(** The compression of SHA-256 and SHA-512, with the sixteen message words
    updated in place, is the standard's: the rounds run over the message schedule
    [W_t = sigma1(W_(t-2)) + W_(t-7) + sigma0(W_(t-15)) + W_(t-16)]. *)
Theorem sha2_transform_schedule p s chunk :
  (16 <= length (sha_K p))%nat ->
  let M := read_words true (Z.to_nat (sha_w p / 8)) 16 chunk in
  let r := (nth 0 s 0, nth 1 s 0, nth 2 s 0, nth 3 s 0, nth 4 s 0, nth 5 s 0, nth 6 s 0, nth 7 s 0) in
  sha_transform p s chunk =
    (let '(a, b, c, d, e, f, g, h) := fold_rounds p r (combine (sha_K p) (schedule p M)) in
     zip_with (wadd p) s [a; b; c; d; e; f; g; h]).
Proof.
  intros HK M r. unfold sha_transform. fold M r.
  rewrite (sha_rounds_block p (sha_K p) 0 M r (length_read_words _ _ _ _)) by lia. done.
Qed.

Lemma sha2_transform_schedule_witness :
  length (schedule sha256_params (replicate 16 1)) = 64%nat /\
  sha_transform sha256_params (Initialize CSHA256) (replicate 64 1) =
    (let '(a, b, c, d, e, f, g, h) :=
       fold_rounds sha256_params
         (let s := Initialize CSHA256 in
          (nth 0 s 0, nth 1 s 0, nth 2 s 0, nth 3 s 0, nth 4 s 0, nth 5 s 0, nth 6 s 0, nth 7 s 0))
         (combine (sha_K sha256_params) (schedule sha256_params (read_words true 4 16 (replicate 64 1)))) in
     zip_with (wadd sha256_params) (Initialize CSHA256) [a; b; c; d; e; f; g; h]).
Proof.
  split; [vm_compute; reflexivity|].
  exact (sha2_transform_schedule sha256_params (Initialize CSHA256) (replicate 64 1)
    ltac:(vm_compute; lia)).
Defined.

(** [CHMAC_SHA256] and [CHMAC_SHA512], for a key of any length and a message
    written in any pieces, are the HMAC construction over the one-shot digest. *)
Theorem hmac_correct h junk key msgs :
  h ∈ [CSHA256; CSHA512] -> length junk = block h ->
  Z.of_nat (length key) < 2 ^ 61 ->
  Z.of_nat (length (map (fun b => Z.lxor b 0x36) (hmac_key h key) ++ concat msgs)) < 2 ^ 61 ->
  Z.of_nat (length (map (fun b => Z.lxor b 0x5c) (hmac_key h key) ++
    digest h (map (fun b => Z.lxor b 0x36) (hmac_key h key) ++ concat msgs))) < 2 ^ 61 ->
  hmac_finalize h (fold_left (hmac_write h) msgs (hmac_init h junk key)) = hmac h key (concat msgs).
Proof.
  intros Hh Hj Hk Hi Ho. rewrite !elem_of_cons, elem_of_nil in Hh.
  pose proof divide_64. pose proof divide_128.
  destruct Hh as [->|[->|[]]]; apply hmac_finalize_spec; cbn [block size_field CSHA256 CSHA512];
    try assumption; lia.
Qed.

Lemma hmac_correct_witness :
  firstn 4 (hmac CSHA256 (replicate 20 0x0b) [0x48; 0x69; 0x20; 0x54; 0x68; 0x65; 0x72; 0x65])
    = [0xb0; 0x34; 0x4c; 0x61] /\
  hmac_finalize CSHA256 (fold_left (hmac_write CSHA256) [[0x48; 0x69]; [0x20; 0x54; 0x68; 0x65; 0x72; 0x65]]
    (hmac_init CSHA256 junk64 (replicate 20 0x0b))) =
  hmac CSHA256 (replicate 20 0x0b) [0x48; 0x69; 0x20; 0x54; 0x68; 0x65; 0x72; 0x65].
Proof.
  split; [vm_compute; reflexivity|].
  exact (hmac_correct CSHA256 junk64 (replicate 20 0x0b) [[0x48; 0x69]; [0x20; 0x54; 0x68; 0x65; 0x72; 0x65]]
    ltac:(left) eq_refl ltac:(vm_compute; reflexivity) ltac:(vm_compute; reflexivity)
    ltac:(vm_compute; reflexivity)).
Defined.
