(* ===== verification/Script.v ===== *)
(** Scripts: script/script.h and script/script.cpp.

    A script is its bytes; a [const_iterator] into it is the suffix that is left,
    so [end() - pc] is a length.  [CScriptNum] is its [int64_t] value. *)

From S2P Require Import Prelude.

Abbreviation valtype := (list Z) (only parsing).
Abbreviation CScript := (list Z) (only parsing).

Definition MAX_SCRIPT_ELEMENT_SIZE : Z := 520.

(** * Opcodes *)

Definition OP_0 : Z := 0x00.
Definition OP_PUSHDATA1 : Z := 0x4c.
Definition OP_PUSHDATA2 : Z := 0x4d.
Definition OP_PUSHDATA4 : Z := 0x4e.
Definition OP_1NEGATE : Z := 0x4f.
Definition OP_1 : Z := 0x51.
Definition OP_16 : Z := 0x60.
Definition OP_NOP : Z := 0x61.
Definition OP_IF : Z := 0x63.
Definition OP_NOTIF : Z := 0x64.
Definition OP_ELSE : Z := 0x67.
Definition OP_ENDIF : Z := 0x68.
Definition OP_VERIFY : Z := 0x69.
Definition OP_RETURN : Z := 0x6a.
Definition OP_TOALTSTACK : Z := 0x6b.
Definition OP_FROMALTSTACK : Z := 0x6c.
Definition OP_2DROP : Z := 0x6d.
Definition OP_2DUP : Z := 0x6e.
Definition OP_3DUP : Z := 0x6f.
Definition OP_2OVER : Z := 0x70.
Definition OP_2ROT : Z := 0x71.
Definition OP_2SWAP : Z := 0x72.
Definition OP_IFDUP : Z := 0x73.
Definition OP_DEPTH : Z := 0x74.
Definition OP_DROP : Z := 0x75.
Definition OP_DUP : Z := 0x76.
Definition OP_NIP : Z := 0x77.
Definition OP_OVER : Z := 0x78.
Definition OP_PICK : Z := 0x79.
Definition OP_ROLL : Z := 0x7a.
Definition OP_ROT : Z := 0x7b.
Definition OP_SWAP : Z := 0x7c.
Definition OP_TUCK : Z := 0x7d.
Definition OP_CAT : Z := 0x7e.
Definition OP_SUBSTR : Z := 0x7f.
Definition OP_LEFT : Z := 0x80.
Definition OP_RIGHT : Z := 0x81.
Definition OP_SIZE : Z := 0x82.
Definition OP_INVERT : Z := 0x83.
Definition OP_AND : Z := 0x84.
Definition OP_OR : Z := 0x85.
Definition OP_XOR : Z := 0x86.
Definition OP_EQUAL : Z := 0x87.
Definition OP_EQUALVERIFY : Z := 0x88.
Definition OP_1ADD : Z := 0x8b.
Definition OP_1SUB : Z := 0x8c.
Definition OP_2MUL : Z := 0x8d.
Definition OP_2DIV : Z := 0x8e.
Definition OP_NEGATE : Z := 0x8f.
Definition OP_ABS : Z := 0x90.
Definition OP_NOT : Z := 0x91.
Definition OP_0NOTEQUAL : Z := 0x92.
Definition OP_ADD : Z := 0x93.
Definition OP_SUB : Z := 0x94.
Definition OP_MUL : Z := 0x95.
Definition OP_DIV : Z := 0x96.
Definition OP_MOD : Z := 0x97.
Definition OP_LSHIFT : Z := 0x98.
Definition OP_RSHIFT : Z := 0x99.
Definition OP_BOOLAND : Z := 0x9a.
Definition OP_BOOLOR : Z := 0x9b.
Definition OP_NUMEQUAL : Z := 0x9c.
Definition OP_NUMEQUALVERIFY : Z := 0x9d.
Definition OP_NUMNOTEQUAL : Z := 0x9e.
Definition OP_LESSTHAN : Z := 0x9f.
Definition OP_GREATERTHAN : Z := 0xa0.
Definition OP_LESSTHANOREQUAL : Z := 0xa1.
Definition OP_GREATERTHANOREQUAL : Z := 0xa2.
Definition OP_MIN : Z := 0xa3.
Definition OP_MAX : Z := 0xa4.
Definition OP_WITHIN : Z := 0xa5.
Definition OP_RIPEMD160 : Z := 0xa6.
Definition OP_SHA1 : Z := 0xa7.
Definition OP_SHA256 : Z := 0xa8.
Definition OP_HASH160 : Z := 0xa9.
Definition OP_HASH256 : Z := 0xaa.
Definition OP_CODESEPARATOR : Z := 0xab.
Definition OP_CHECKSIG : Z := 0xac.
Definition OP_CHECKSIGVERIFY : Z := 0xad.
Definition OP_CHECKMULTISIG : Z := 0xae.
Definition OP_CHECKMULTISIGVERIFY : Z := 0xaf.
Definition OP_NOP1 : Z := 0xb0.
Definition OP_NOP10 : Z := 0xb9.
Definition OP_INVALIDOPCODE : Z := 0xff.

(** * Script numbers *)

Definition nMaxNumSize : nat := 4.

(** [result |= vch[i] << 8*i]. *)
Fixpoint set_vch_loop (i : Z) (result : Z) (vch : valtype) : Z :=
  match vch with
  | [] => result
  | b :: vch' => set_vch_loop (i + 1) (Z.lor result (Z.shiftl b (8 * i))) vch'
  end.

(** For at most [nMaxNumSize] bytes, where nothing overflows. *)
Definition set_vch (vch : valtype) : Z :=
  if (length vch =? 0)%nat then 0
  else
    let result := set_vch_loop 0 0 vch in
    if negb (Z.land (back 0 vch) 0x80 =? 0)
    then - Z.ldiff result (Z.shiftl 0x80 (8 * (Z.of_nat (length vch) - 1)))
    else result.

(** The constructor from bytes; [None] is the exception [scriptnum_error]. *)
Definition CScriptNum (vch : valtype) (fRequireMinimal : bool) : option Z :=
  if (nMaxNumSize <? length vch)%nat then None
  else if fRequireMinimal && (0 <? length vch)%nat && (Z.land (back 0 vch) 0x7f =? 0)
          && ((length vch <=? 1)%nat || (Z.land (nth (length vch - 2) vch 0) 0x80 =? 0))
  then None
  else Some (set_vch vch).

(** [while (absvalue)]; eight bytes hold a [uint64_t]. *)
Fixpoint serialize_loop (fuel : nat) (absvalue : Z) : valtype :=
  match fuel with
  | O => []
  | S f => if absvalue =? 0 then [] else Z.land absvalue 0xff :: serialize_loop f (Z.shiftr absvalue 8)
  end.

(** Replace the last element. *)
Definition set_back (l : valtype) (b : Z) : valtype := <[(length l - 1)%nat := b]> l.

Definition serialize (value : Z) : valtype :=
  if value =? 0 then []
  else
    let neg := value <? 0 in
    let absvalue := u64 (if neg then - value else value) in
    let result := serialize_loop 8 absvalue in
    if negb (Z.land (back 0 result) 0x80 =? 0) then result ++ [if neg then 0x80 else 0]
    else if neg then set_back result (Z.lor (back 0 result) 0x80)
    else result.

Definition INT_MAX : Z := 2 ^ 31 - 1.
Definition INT_MIN : Z := - 2 ^ 31.

Definition getint (m_value : Z) : Z :=
  if INT_MAX <? m_value then INT_MAX else if m_value <? INT_MIN then INT_MIN else m_value.

(** * Building scripts *)

(** [operator<<] of a byte vector: a push. *)
Definition push_data (s : CScript) (b : valtype) : CScript :=
  let n := Z.of_nat (length b) in
  (s ++ (if n <? OP_PUSHDATA1 then [n]
         else if n <=? 0xff then [OP_PUSHDATA1; u8 n]
         else if n <=? 0xffff then OP_PUSHDATA2 :: le_bytes 2 n
         else OP_PUSHDATA4 :: le_bytes 4 n)) ++ b.

(** [operator<<] of an opcode, for values of one byte. *)
Definition push_opcode (s : CScript) (opcode : Z) : CScript := s ++ [opcode].

(** [operator<<] of an [int64_t]. *)
Definition push_int64 (s : CScript) (n : Z) : CScript :=
  if (n =? -1) || ((1 <=? n) && (n <=? 16)) then s ++ [n + (OP_1 - 1)]
  else if n =? 0 then s ++ [OP_0]
  else push_data s (serialize n).

(** * Reading scripts *)

(** What [GetOp2] leaves: its result, [opcodeRet], [*pvchRet] and [pc]. *)
Record op_read := {
  fRet : bool;
  opcodeRet : Z;
  vchRet : valtype;
  pc_next : CScript
}.

(** A length of [n] bytes; its bytes stay unread when they are not all there. *)
Definition read_push_size (n : nat) (pc : CScript) : option (Z * CScript) :=
  if (length pc <? n)%nat then None else Some (le_val (take n pc), drop n pc).

Definition GetOp (pc : CScript) : op_read :=
  let fail pc := {| fRet := false; opcodeRet := OP_INVALIDOPCODE; vchRet := []; pc_next := pc |} in
  match pc with
  | [] => fail []
  | opcode :: pc =>
      if opcode <=? OP_PUSHDATA4 then
        match (if opcode <? OP_PUSHDATA1 then Some (opcode, pc)
               else if opcode =? OP_PUSHDATA1 then read_push_size 1 pc
               else if opcode =? OP_PUSHDATA2 then read_push_size 2 pc
               else read_push_size 4 pc) with
        | None => fail pc
        | Some (nSize, pc) =>
            if Z.of_nat (length pc) <? nSize then fail pc
            else {| fRet := true; opcodeRet := opcode; vchRet := take (Z.to_nat nSize) pc;
                    pc_next := drop (Z.to_nat nSize) pc |}
        end
      else {| fRet := true; opcodeRet := opcode; vchRet := []; pc_next := pc |}
  end.

(** [DecodeOP_N], for [OP_0] and [OP_1] .. [OP_16]. *)
Definition DecodeOP_N (opcode : Z) : Z := if opcode =? OP_0 then 0 else opcode - (OP_1 - 1).
Definition EncodeOP_N (n : Z) : Z := if n =? 0 then OP_0 else OP_1 + n - 1.

(** [memcmp(&pc[0], &b[0], b.size()) == 0], when there are as many bytes. *)
Definition starts_with (b pc : valtype) : bool :=
  (length b <=? length pc)%nat && bool_decide (take (length b) pc = b).

(** [while (...) pc = erase(...)]: the copies of [b] at [pc] are taken out. *)
Fixpoint erase_all (fuel : nat) (b pc : valtype) (nFound : Z) : valtype * Z :=
  match fuel with
  | O => (pc, nFound)
  | S f => if starts_with b pc then erase_all f b (drop (length b) pc) (nFound + 1) else (pc, nFound)
  end.

(** The script left of [pc], in reverse, and right of it. *)
Fixpoint find_and_delete_loop (fuel : nat) (b : CScript) (left pc : CScript) (nFound : Z)
    : CScript * Z :=
  let '(pc, nFound) := erase_all (length pc) b pc nFound in
  match fuel with
  | O => (left ++ pc, nFound)
  | S f =>
      let r := GetOp pc in
      if fRet r
      then find_and_delete_loop f b (left ++ take (length pc - length (pc_next r)) pc) (pc_next r) nFound
      else (left ++ pc, nFound)
  end.

(** The script after the call, and its result. *)
Definition FindAndDelete (script b : CScript) : CScript * Z :=
  if (length b =? 0)%nat then (script, 0)
  else find_and_delete_loop (length script) b [] script 0.

Fixpoint find_loop (fuel : nat) (op : Z) (pc : CScript) (nFound : Z) : Z :=
  match fuel with
  | O => nFound
  | S f =>
      if (length pc =? 0)%nat then nFound
      else
        let r := GetOp pc in
        if fRet r
        then find_loop f op (pc_next r) (if opcodeRet r =? op then nFound + 1 else nFound)
        else nFound
  end.

Definition Find (script : CScript) (op : Z) : Z := find_loop (length script) op script 0.

Definition IsUnspendable (script : CScript) : bool :=
  match script with [] => false | b :: _ => b =? OP_RETURN end.

(** * script.cpp *)

Fixpoint sigop_loop (fuel : nat) (fAccurate : bool) (pc : CScript) (lastOpcode n : Z) : Z :=
  match fuel with
  | O => n
  | S f =>
      if (length pc =? 0)%nat then n
      else
        let r := GetOp pc in
        if negb (fRet r) then n
        else
          let opcode := opcodeRet r in
          let n :=
            if (opcode =? OP_CHECKSIG) || (opcode =? OP_CHECKSIGVERIFY) then n + 1
            else if (opcode =? OP_CHECKMULTISIG) || (opcode =? OP_CHECKMULTISIGVERIFY) then
              if fAccurate && (OP_1 <=? lastOpcode) && (lastOpcode <=? OP_16)
              then n + DecodeOP_N lastOpcode else n + 20
            else n in
          sigop_loop f fAccurate (pc_next r) opcode n
  end.

Definition GetSigOpCount (script : CScript) (fAccurate : bool) : Z :=
  sigop_loop (length script) fAccurate script OP_INVALIDOPCODE 0.

Definition IsPayToScriptHash (script : CScript) : bool :=
  (length script =? 23)%nat && (nth 0 script 0 =? OP_HASH160) && (nth 1 script 0 =? 0x14)
  && (nth 22 script 0 =? OP_EQUAL).

(** The loop over the pushes of [scriptSig]: the last data, or [None] for the
    early [return 0]. *)
Fixpoint last_push (fuel : nat) (pc : CScript) (data : valtype) : option valtype :=
  match fuel with
  | O => Some data
  | S f =>
      if (length pc =? 0)%nat then Some data
      else
        let r := GetOp pc in
        if negb (fRet r) then None
        else if OP_16 <? opcodeRet r then None
        else last_push f (pc_next r) (vchRet r)
  end.

(** [GetSigOpCount(scriptSig)]. *)
Definition GetSigOpCount_p2sh (script scriptSig : CScript) : Z :=
  if negb (IsPayToScriptHash script) then GetSigOpCount script true
  else
    match last_push (length scriptSig) scriptSig [] with
    | None => 0
    | Some data => GetSigOpCount data true
    end.

(** A [GetOp] that fails leaves [OP_INVALIDOPCODE], and its result is not looked
    at.  It always moves [pc] when there is something left. *)
Fixpoint normal_loop (fuel : nat) (i : Z) (pc : CScript) : bool :=
  match fuel with
  | O => true
  | S f =>
      if (length pc =? 0)%nat then true
      else
        let r := GetOp pc in
        let opcode := opcodeRet r in
        if (i =? 0) && negb (opcode =? OP_DUP) then false
        else if (i =? 1) && negb (opcode =? OP_HASH160) then false
        else if (i =? 3) && negb (opcode =? OP_EQUALVERIFY) then false
        else if (i =? 4) && negb (opcode =? OP_CHECKSIG) then false
        else if i =? 5 then false
        else normal_loop f (i + 1) (pc_next r)
  end.

Definition IsNormalPaymentScript (script : CScript) : bool :=
  if negb (length script =? 25)%nat then false else normal_loop (length script) 0 script.

Fixpoint push_only_loop (fuel : nat) (pc : CScript) : bool :=
  match fuel with
  | O => true
  | S f =>
      if (length pc =? 0)%nat then true
      else
        let r := GetOp pc in
        if negb (fRet r) then false
        else if OP_16 <? opcodeRet r then false
        else push_only_loop f (pc_next r)
  end.

Definition IsPushOnly (script : CScript) : bool := push_only_loop (length script) script.

(** * Reading instructions *)

Lemma read_push_size_split n pc k pc' :
  read_push_size n pc = Some (k, pc') ->
  exists h, pc = h ++ pc' /\ length h = n /\ k = le_val h.
Proof.
  unfold read_push_size. destruct (Nat.ltb_spec (length pc) n); [done|]. intros [= <- <-].
  exists (take n pc). split; [by rewrite take_drop|]. by rewrite length_take, Nat.min_l.
Qed.

Lemma read_push_size_header h pc : read_push_size (length h) (h ++ pc) = Some (le_val h, pc).
Proof.
  unfold read_push_size. rewrite length_app. destruct (Nat.ltb_spec (length h + length pc) (length h)); [lia|].
  by rewrite take_app_length, drop_app_length.
Qed.

(** The length of an immediate operand; [None] when the length itself is cut off. *)
Definition operand_size (op : Z) (pc : CScript) : option (Z * CScript) :=
  if op <? OP_PUSHDATA1 then Some (op, pc)
  else if op =? OP_PUSHDATA1 then read_push_size 1 pc
  else if op =? OP_PUSHDATA2 then read_push_size 2 pc
  else read_push_size 4 pc.

Lemma operand_size_split op pc k pc' :
  operand_size op pc = Some (k, pc') ->
  exists h, pc = h ++ pc' /\ forall q, operand_size op (h ++ q) = Some (k, q).
Proof.
  unfold operand_size. destruct (op <? OP_PUSHDATA1); [intros [= <- <-]; by exists []|].
  destruct (op =? OP_PUSHDATA1); [|destruct (op =? OP_PUSHDATA2)];
    intros E; apply read_push_size_split in E as (h & -> & Hn & ->); exists h; (split; [done|]);
    intros q; rewrite <- Hn; apply read_push_size_header.
Qed.

Lemma GetOp_cons op pc :
  GetOp (op :: pc) =
    if op <=? OP_PUSHDATA4 then
      match operand_size op pc with
      | None => {| fRet := false; opcodeRet := OP_INVALIDOPCODE; vchRet := []; pc_next := pc |}
      | Some (nSize, pc) =>
          if Z.of_nat (length pc) <? nSize
          then {| fRet := false; opcodeRet := OP_INVALIDOPCODE; vchRet := []; pc_next := pc |}
          else {| fRet := true; opcodeRet := op; vchRet := take (Z.to_nat nSize) pc;
                  pc_next := drop (Z.to_nat nSize) pc |}
      end
    else {| fRet := true; opcodeRet := op; vchRet := []; pc_next := pc |}.
Proof. done. Qed.

(** An instruction read is a header and its data, taken off the front; what follows
    has no influence on it. *)
Lemma GetOp_local pc :
  fRet (GetOp pc) = true ->
  exists h, pc = h ++ pc_next (GetOp pc) /\ h <> [] /\ forall q,
    GetOp (h ++ q) =
      {| fRet := true; opcodeRet := opcodeRet (GetOp pc); vchRet := vchRet (GetOp pc); pc_next := q |}.
Proof.
  destruct pc as [|op pc]; [done|]. rewrite GetOp_cons.
  destruct (Z.leb_spec op OP_PUSHDATA4) as [Hop|Hop].
  2: { intros _. exists [op]. split_and!; [done|done|]. intros q. cbn [app]. rewrite GetOp_cons.
       by rewrite (proj2 (Z.leb_gt op OP_PUSHDATA4)). }
  destruct (operand_size op pc) as [[nSize pc2]|] eqn:E; [|done].
  apply operand_size_split in E as (h & -> & Hq).
  destruct (Z.ltb_spec (Z.of_nat (length pc2)) nSize) as [|Hn]; [done|]. intros _.
  cbn [opcodeRet vchRet pc_next]. exists (op :: h ++ take (Z.to_nat nSize) pc2).
  split_and!; [cbn [app]; by rewrite <- app_assoc, take_drop|done|]. intros q. cbn [app].
  rewrite GetOp_cons, (proj2 (Z.leb_le op OP_PUSHDATA4) Hop), <- app_assoc, Hq.
  assert (El : length (take (Z.to_nat nSize) pc2) = Z.to_nat nSize)
    by (rewrite length_take; lia).
  rewrite length_app, El. destruct (Z.ltb_spec (Z.of_nat (Z.to_nat nSize + length q)) nSize); [lia|].
  by rewrite take_app_length', drop_app_length' by done.
Qed.

Lemma GetOp_next_lt pc :
  fRet (GetOp pc) = true -> (length (pc_next (GetOp pc)) < length pc)%nat.
Proof.
  intros H. destruct (GetOp_local pc H) as (h & E & Hh & _).
  rewrite E at 2. rewrite length_app. destruct h; [done|cbn [length]; lia].
Qed.

Lemma GetOp_failed_opcode pc : fRet (GetOp pc) = false -> opcodeRet (GetOp pc) = OP_INVALIDOPCODE.
Proof.
  destruct pc as [|op pc]; [done|]. rewrite GetOp_cons. by repeat case_match.
Qed.

(** ** Scripts as lists of instructions *)

Record instr := { i_opcode : Z; i_data : valtype; i_raw : byte_list }.

(** The instructions of a script, and the remainder that cannot be read. *)
Fixpoint parse_loop (fuel : nat) (pc : CScript) : list instr * CScript :=
  match fuel with
  | O => ([], pc)
  | S f =>
      let r := GetOp pc in
      if fRet r
      then let '(l, rest) := parse_loop f (pc_next r) in
           ({| i_opcode := opcodeRet r; i_data := vchRet r;
               i_raw := take (length pc - length (pc_next r)) pc |} :: l, rest)
      else ([], pc)
  end.

Definition parse (s : CScript) : list instr * CScript := parse_loop (length s) s.

Lemma parse_loop_fuel f f' pc :
  (length pc <= f)%nat -> (length pc <= f')%nat -> parse_loop f pc = parse_loop f' pc.
Proof.
  revert f' pc. induction f as [|f IH]; intros [|f'] pc Hf Hf'; cbn [parse_loop].
  - done.
  - by destruct pc; [|cbn [length] in Hf; lia].
  - by destruct pc; [|cbn [length] in Hf'; lia].
  - destruct (fRet (GetOp pc)) eqn:E; [|done]. pose proof (GetOp_next_lt pc E).
    by rewrite (IH f') by lia.
Qed.

Lemma parse_failed pc : fRet (GetOp pc) = false -> parse pc = ([], pc).
Proof. intros H. unfold parse. destruct (length pc); cbn [parse_loop]; by rewrite ?H. Qed.

Lemma parse_step pc :
  fRet (GetOp pc) = true ->
  exists h, pc = h ++ pc_next (GetOp pc) /\ h <> [] /\
    (forall q, GetOp (h ++ q) =
      {| fRet := true; opcodeRet := opcodeRet (GetOp pc); vchRet := vchRet (GetOp pc); pc_next := q |}) /\
    parse pc = ({| i_opcode := opcodeRet (GetOp pc); i_data := vchRet (GetOp pc); i_raw := h |}
                  :: (parse (pc_next (GetOp pc))).1, (parse (pc_next (GetOp pc))).2).
Proof.
  intros H. destruct (GetOp_local pc H) as (h & E & Hh & Hq). exists h. split_and!; [done..|].
  unfold parse at 1. destruct (length pc) as [|n] eqn:El; [by destruct pc|].
  cbn [parse_loop]. rewrite H, El. pose proof (GetOp_next_lt pc H). unfold parse.
  rewrite (parse_loop_fuel n (length (pc_next (GetOp pc)))) by lia. destruct (parse_loop _ _).
  do 3 f_equal. rewrite <- El. rewrite E at 1 3. rewrite length_app, Nat.add_sub.
  by rewrite take_app_length.
Qed.

(** Induction along the instructions. *)
Lemma script_ind (P : CScript -> Prop) :
  (forall pc, fRet (GetOp pc) = false -> P pc) ->
  (forall pc, fRet (GetOp pc) = true -> P (pc_next (GetOp pc)) -> P pc) ->
  forall pc, P pc.
Proof.
  intros H0 H1 pc. remember (length pc) as n eqn:E. revert pc E.
  induction (lt_wf n) as [n _ IH]. intros pc ->. destruct (fRet (GetOp pc)) eqn:Er; [|by apply H0].
  apply H1; [done|]. eapply IH; [by apply GetOp_next_lt|done].
Qed.

Lemma parse_concat s : concat (map i_raw (parse s).1) ++ (parse s).2 = s.
Proof.
  induction s as [pc H|pc H IH] using script_ind; [by rewrite parse_failed|].
  destruct (parse_step pc H) as (h & E & _ & _ & ->). cbn [map concat fst snd i_raw].
  by rewrite <- app_assoc, IH.
Qed.

(** * Pushes *)

Lemma read_push_size_app n z rest :
  read_push_size n (le_bytes n z ++ rest) = Some (z mod 2 ^ (8 * Z.of_nat n), rest).
Proof.
  unfold read_push_size. rewrite length_app, length_le_bytes.
  destruct (Nat.ltb_spec (n + length rest) n); [lia|].
  rewrite take_app_length', drop_app_length' by by rewrite length_le_bytes. by rewrite le_val_bytes.
Qed.

Lemma GetOp_data op h b rest :
  op <= OP_PUSHDATA4 ->
  operand_size op (h ++ b ++ rest) = Some (Z.of_nat (length b), b ++ rest) ->
  GetOp (op :: h ++ b ++ rest) =
    {| fRet := true; opcodeRet := op; vchRet := b; pc_next := rest |}.
Proof.
  intros Hop E. rewrite GetOp_cons, (proj2 (Z.leb_le op OP_PUSHDATA4) Hop), E.
  rewrite length_app. destruct (Z.ltb_spec (Z.of_nat (length b + length rest)) (Z.of_nat (length b))); [lia|].
  rewrite Nat2Z.id. by rewrite take_app_length, drop_app_length.
Qed.

Definition push_opcode_of (n : Z) : Z :=
  if n <? OP_PUSHDATA1 then n
  else if n <=? 0xff then OP_PUSHDATA1
  else if n <=? 0xffff then OP_PUSHDATA2
  else OP_PUSHDATA4.

Lemma push_data_spec s b :
  Z.of_nat (length b) < 2 ^ 32 ->
  exists p, push_data s b = s ++ p /\ forall rest,
    GetOp (p ++ rest) =
      {| fRet := true; opcodeRet := push_opcode_of (Z.of_nat (length b)); vchRet := b; pc_next := rest |}.
Proof.
  intros Hb. unfold push_data, push_opcode_of. set (n := Z.of_nat (length b)) in *.
  assert (0 <= n) by lia. eexists. rewrite <- app_assoc. split; [reflexivity|]. intros rest.
  destruct (Z.ltb_spec n OP_PUSHDATA1) as [H1|H1].
  { cbn [app]. apply (GetOp_data n [] b rest); [unfold OP_PUSHDATA4, OP_PUSHDATA1 in *; lia|].
    unfold operand_size. by rewrite (proj2 (Z.ltb_lt n OP_PUSHDATA1) H1). }
  destruct (Z.leb_spec n 0xff).
  { change ((([OP_PUSHDATA1; u8 n] ++ b) ++ rest)) with (OP_PUSHDATA1 :: [u8 n] ++ b ++ rest).
    apply GetOp_data; [done|]. unfold operand_size. change (OP_PUSHDATA1 <? OP_PUSHDATA1) with false.
    change (OP_PUSHDATA1 =? OP_PUSHDATA1) with true. cbv iota.
    assert (E : [u8 n] = le_bytes 1 n) by done. rewrite E, read_push_size_app.
    do 2 f_equal. apply Z.mod_small. change (8 * Z.of_nat 1) with 8. lia. }
  destruct (Z.leb_spec n 0xffff).
  { cbn [app]. rewrite <- app_assoc.
    apply GetOp_data; [done|]. unfold operand_size. change (OP_PUSHDATA2 <? OP_PUSHDATA1) with false.
    change (OP_PUSHDATA2 =? OP_PUSHDATA1) with false.
    change (OP_PUSHDATA2 =? OP_PUSHDATA2) with true. cbv iota. rewrite read_push_size_app.
    do 2 f_equal. apply Z.mod_small. change (8 * Z.of_nat 2) with 16. lia. }
  cbn [app]. rewrite <- app_assoc. apply GetOp_data; [done|]. unfold operand_size.
  change (OP_PUSHDATA4 <? OP_PUSHDATA1) with false. change (OP_PUSHDATA4 =? OP_PUSHDATA1) with false.
  change (OP_PUSHDATA4 =? OP_PUSHDATA2) with false. cbv iota. rewrite read_push_size_app.
  do 2 f_equal. apply Z.mod_small. change (8 * Z.of_nat 4) with 32. lia.
Qed.

(** * Script numbers *)

Lemma set_vch_loop_spec i r vch :
  0 <= i -> word (8 * i) r -> is_bytes vch -> set_vch_loop i r vch = r + 2 ^ (8 * i) * le_val vch.
Proof.
  intros Hi Hr Hv. revert i r Hi Hr. induction Hv as [|b vch Hb Hv IH]; intros i r Hi Hr.
  - unfold le_val. cbn [set_vch_loop pos_val]. lia.
  - cbn [set_vch_loop]. rewrite Z.shiftl_mul_pow2, lor_add_disjoint by (done || lia).
    assert (Hp : 2 ^ (8 * (i + 1)) = 2 ^ (8 * i) * 256)
      by (replace (8 * (i + 1)) with (8 * i + 8) by lia; by rewrite Z.pow_add_r by lia).
    pose proof (pow2_pos (8 * i)). destruct Hr as [Hr0 Hr1], Hb as [Hb0 Hb1]. change (2 ^ 8) with 256 in Hb1.
    rewrite IH by (wunfold; nia). unfold le_val. cbn [pos_val]. rewrite Hp. change (2 ^ 8) with 256. lia.
Qed.

Lemma byte_top_bit b : word 8 b -> negb (Z.land b 0x80 =? 0) = (128 <=? b).
Proof. intros Hb. rewrite land_80 by done. destruct (Z.ltb_spec b 128), (Z.leb_spec 128 b); done || lia. Qed.

Lemma le_val_snoc l b : le_val (l ++ [b]) = le_val l + 2 ^ (8 * Z.of_nat (length l)) * b.
Proof. unfold le_val. rewrite pos_val_app by lia. cbn [pos_val]. lia. Qed.

(** The value of bytes read as sign and magnitude. *)
Definition sign_magnitude (l : list Z) (b : Z) : Z :=
  let m := le_val l + 2 ^ (8 * Z.of_nat (length l)) * (b mod 128) in
  if 128 <=? b then - m else m.

Lemma set_vch_snoc l b : is_bytes (l ++ [b]) -> set_vch (l ++ [b]) = sign_magnitude l b.
Proof.
  intros Hl. unfold set_vch, sign_magnitude. rewrite length_app, Nat.add_1_r. cbn [Nat.eqb].
  rewrite back_snoc, set_vch_loop_spec by (done || by (wunfold; lia) || lia).
  apply words_app in Hl as [Hl Hb]. apply Forall_cons in Hb as [Hb _].
  rewrite byte_top_bit, le_val_snoc by done. rewrite Z.mul_0_r, Z.pow_0_r, Z.add_0_l, Z.mul_1_l.
  destruct Hb as [Hb0 Hb1]. change (2 ^ 8) with 256 in Hb1. destruct (Z.leb_spec 128 b) as [H|H].
  - f_equal. replace (8 * (Z.of_nat (S (length l)) - 1)) with (8 * Z.of_nat (length l)) by lia.
    set (k := 8 * Z.of_nat (length l)). rewrite Z.shiftl_mul_pow2 by lia.
    pose proof (le_val_bound l Hl) as Hv. fold k in Hv. pose proof (pow2_pos k).
    replace (le_val l + 2 ^ k * b) with (le_val l + 2 ^ k * (b - 128) + 1 * 2 ^ (k + 7))
      by (rewrite Z.pow_add_r by lia; change (2 ^ 7) with 128; lia).
    replace (128 * 2 ^ k) with (2 ^ (k + 7)) by (rewrite Z.pow_add_r by lia; change (2 ^ 7) with 128; lia).
    assert (Hw : word (k + 7) (le_val l + 2 ^ k * (b - 128)))
      by (split; [nia|rewrite Z.pow_add_r by lia; change (2 ^ 7) with 128; nia]).
    rewrite <- lor_add_disjoint by (done || lia). rewrite Z.mul_1_l.
    rewrite <- (Z.mod_add b (-1)), Z.mod_small by lia.
    replace (b + -1 * 128) with (b - 128) by lia.
    apply Z.bits_inj'. intros i Hi. rewrite Z.ldiff_spec, Z.lor_spec, Z.pow2_bits_eqb by lia.
    destruct (Z.eqb_spec (k + 7) i) as [<-|]; [|by rewrite orb_false_r, andb_true_r].
    by rewrite (word_testbit_high (k + 7)), andb_false_r by (done || lia).
  - by rewrite Z.mod_small by lia.
Qed.

(** Little-endian bytes without a leading zero. *)
Definition trimmed (l : list Z) : Prop := is_bytes l /\ (l = [] \/ back 0 l <> 0).

Lemma trimmed_nil : trimmed []. Proof. split; [constructor|by left]. Qed.

Lemma trimmed_cons b l : trimmed (b :: l) -> word 8 b /\ trimmed l.
Proof.
  intros [Hb Hl]. apply Forall_cons in Hb as [Hb Hw]. split_and!; [done|].
  split; [done|]. destruct l as [|c l]; [by left|right]. by destruct Hl.
Qed.

Lemma serialize_loop_trimmed f a :
  0 <= a < 2 ^ (8 * Z.of_nat f) -> trimmed (serialize_loop f a) /\ le_val (serialize_loop f a) = a.
Proof.
  revert a. induction f as [|f IH]; intros a Ha; cbn [serialize_loop].
  { split; [apply trimmed_nil|]. change (2 ^ (8 * Z.of_nat 0)) with 1 in Ha.
    unfold le_val. cbn [pos_val]. lia. }
  destruct (Z.eqb_spec a 0) as [->|Hn]; [split; [apply trimmed_nil|done]|].
  rewrite Nat2Z.inj_succ in Ha. replace (8 * Z.succ (Z.of_nat f)) with (8 + 8 * Z.of_nat f) in Ha by lia.
  rewrite Z.pow_add_r in Ha by lia. change (2 ^ 8) with 256 in Ha.
  rewrite Z.shiftr_div_pow2 by lia. change (2 ^ 8) with 256. change 0xff with (2 ^ 8 - 1).
  rewrite land_ones_mod by lia. change (2 ^ 8) with 256.
  destruct (IH (a / 256)) as [[Hw Ht] Hv].
  { split; [apply Z.div_pos; lia|]. apply Z.div_lt_upper_bound; lia. }
  split; [split|].
  - constructor; [|done]. apply (word_mod 8). lia.
  - right. destruct (serialize_loop f (a / 256)) as [|c l] eqn:E.
    + cbn. unfold le_val in Hv. cbn [pos_val] in Hv. rewrite Z.mod_eq by lia. rewrite <- Hv. lia.
    + destruct Ht as [|Ht]; [done|]. unfold back in *. exact Ht.
  - unfold le_val in *. cbn [pos_val]. rewrite Hv. change (2 ^ 8) with 256.
    pose proof (Z.div_mod a 256 ltac:(lia)). lia.
Qed.

Lemma le_val_pos l : trimmed l -> l <> [] -> 0 < le_val l.
Proof.
  intros [Hw [?|Ht]] Hl; [done|]. destruct (exists_last Hl) as (i & b & ->).
  rewrite back_snoc in Ht. rewrite le_val_snoc. apply words_app in Hw as [Hi Hb].
  apply Forall_cons in Hb as [[Hb _] _]. pose proof (le_val_bound i Hi).
  pose proof (pow2_pos (8 * Z.of_nat (length i))). nia.
Qed.

Lemma trimmed_length l k : trimmed l -> le_val l < 2 ^ (8 * Z.of_nat k) -> (length l <= k)%nat.
Proof.
  intros [Hw [->|Ht]] Hk; [cbn; lia|]. destruct (decide (l = [])) as [->|Hl]; [cbn; lia|].
  destruct (exists_last Hl) as (i & b & ->). rewrite back_snoc in Ht. rewrite le_val_snoc in Hk.
  apply words_app in Hw as [Hi Hb]. apply Forall_cons in Hb as [[Hb _] _].
  pose proof (le_val_bound i Hi). pose proof (pow2_pos (8 * Z.of_nat (length i)) ltac:(lia)).
  assert (Hp : 2 ^ (8 * Z.of_nat (length i)) < 2 ^ (8 * Z.of_nat k)) by nia.
  apply Z.pow_lt_mono_r_iff in Hp; [|lia|lia]. rewrite length_app. cbn [length]. lia.
Qed.

Lemma serialize_loop_unique f l :
  trimmed l -> (length l <= f)%nat -> serialize_loop f (le_val l) = l.
Proof.
  revert l. induction f as [|f IH]; intros l Ht Hf.
  { by destruct l; [|cbn [length] in Hf; lia]. }
  cbn [serialize_loop]. destruct (decide (l = [])) as [->|Hl]; [done|].
  pose proof (le_val_pos l Ht Hl). destruct (Z.eqb_spec (le_val l) 0); [lia|].
  destruct l as [|b l]; [done|]. apply trimmed_cons in Ht as [[Hb0 Hb1] Ht].
  change 0xff with (2 ^ 8 - 1). rewrite land_ones_mod, Z.shiftr_div_pow2 by lia.
  unfold le_val. cbn [pos_val]. rewrite (Z.mul_comm (2 ^ 8)).
  rewrite Z.mod_add, Z.mod_small, Z.div_add, Z.div_small, Z.add_0_l by (change (2 ^ 8) with 256 in *; lia).
  f_equal. apply IH; [done|cbn [length] in Hf; lia].
Qed.

Definition sign_bit (n : Z) : Z := if n <? 0 then 128 else 0.

Lemma serialize_spec n :
  n <> 0 -> Z.abs n < 2 ^ 63 ->
  exists i t, trimmed (i ++ [t]) /\ 0 < t < 256 /\ le_val (i ++ [t]) = Z.abs n /\
    serialize n = if 128 <=? t then (i ++ [t]) ++ [sign_bit n] else i ++ [t + sign_bit n].
Proof.
  intros Hn Hb. unfold serialize. destruct (Z.eqb_spec n 0); [done|].
  replace (u64 (if n <? 0 then - n else n)) with (Z.abs n).
  2: { unfold u64. destruct (Z.ltb_spec n 0); rewrite Z.mod_small; lia. }
  destruct (serialize_loop_trimmed 8 (Z.abs n)) as [Ht Hv].
  { change (8 * Z.of_nat 8) with 64. lia. }
  set (r := serialize_loop 8 (Z.abs n)) in *. clearbody r.
  destruct (decide (r = [])) as [->|Hr]; [unfold le_val in Hv; cbn [pos_val] in Hv; lia|].
  destruct (exists_last Hr) as (i & t & ->). exists i, t. rewrite back_snoc.
  pose proof Ht as [Hw Hb0]. apply words_app in Hw as [Hi Hw]. apply Forall_cons in Hw as [Hw _].
  destruct Hb0 as [?|Hb0]; [by destruct i|]. rewrite back_snoc in Hb0. pose proof Hw as [Hw0 Hw1].
  change (2 ^ 8) with 256 in Hw1. rewrite byte_top_bit by done.
  split_and!; [done|lia|lia|done|]. unfold sign_bit. destruct (Z.leb_spec 128 t); [done|].
  destruct (Z.ltb_spec n 0); [|by rewrite Z.add_0_r]. unfold set_back.
  rewrite length_app. cbn [length]. rewrite Nat.add_sub, lor_80 by lia.
  replace (length i) with (length i + 0)%nat at 1 by lia. by rewrite insert_app_r.
Qed.

Lemma is_bytes_snoc l b : is_bytes l -> 0 <= b < 256 -> is_bytes (l ++ [b]).
Proof. intros. apply words_app. split; [done|]. by constructor. Qed.

Lemma trimmed_init i t : trimmed (i ++ [t]) -> is_bytes i.
Proof. intros [H _]. by apply words_app in H as [? _]. Qed.

Lemma serialize_bytes n : Z.abs n < 2 ^ 63 -> is_bytes (serialize n).
Proof.
  intros Hb. destruct (decide (n = 0)) as [->|Hn]; [by constructor|].
  destruct (serialize_spec n Hn Hb) as (i & t & Ht & Ht0 & _ & ->). pose proof (trimmed_init i t Ht).
  unfold sign_bit. destruct (Z.leb_spec 128 t), (Z.ltb_spec n 0);
    repeat apply is_bytes_snoc; done || lia.
Qed.

Lemma set_vch_serialize n : Z.abs n < 2 ^ 63 -> set_vch (serialize n) = n.
Proof.
  intros Hb. destruct (decide (n = 0)) as [->|Hn]; [done|]. pose proof (serialize_bytes n Hb) as Hs.
  destruct (serialize_spec n Hn Hb) as (i & t & Ht & Ht0 & Hv & E). rewrite E in *.
  destruct (Z.leb_spec 128 t).
  - rewrite set_vch_snoc by done. unfold sign_magnitude. rewrite Hv.
    unfold sign_bit. destruct (Z.ltb_spec n 0).
    + change (128 mod 128) with 0. change (128 <=? 128) with true. cbv iota. lia.
    + change (0 mod 128) with 0. change (128 <=? 0) with false. cbv iota. lia.
  - rewrite set_vch_snoc by done. rewrite le_val_snoc in Hv. unfold sign_magnitude, sign_bit.
    destruct (Z.ltb_spec n 0).
    + replace (t + 128) with (t + 1 * 128) by lia. rewrite Z.mod_add, Z.mod_small by lia.
      destruct (Z.leb_spec 128 (t + 1 * 128)); lia.
    + rewrite Z.add_0_r, Z.mod_small by lia. destruct (Z.leb_spec 128 t); lia.
Qed.

Lemma serialize_length n :
  Z.abs n < 2 ^ 63 -> (length (serialize n) <= nMaxNumSize)%nat <-> Z.abs n < 2 ^ 31.
Proof.
  intros Hb. destruct (decide (n = 0)) as [->|Hn]; [split; cbn; lia|].
  destruct (serialize_spec n Hn Hb) as (i & t & Ht & Ht0 & Hv & ->).
  rewrite le_val_snoc in Hv. pose proof (le_val_bound i (trimmed_init i t Ht)) as Hi.
  unfold nMaxNumSize.
  assert (Hl : (length i < 3)%nat \/ length i = 3%nat \/ (3 < length i)%nat) by lia.
  assert (Hp : (length i < 3)%nat -> 2 ^ (8 * Z.of_nat (length i)) <= 2 ^ 16)
    by (intros; apply Z.pow_le_mono_r; lia).
  assert (Hq : (3 < length i)%nat -> 2 ^ 32 <= 2 ^ (8 * Z.of_nat (length i)))
    by (intros; apply Z.pow_le_mono_r; lia).
  set (p := 2 ^ (8 * Z.of_nat (length i))) in *.
  assert (E3 : length i = 3%nat -> p = 2 ^ 24) by (unfold p; by intros ->).
  change (2 ^ 16) with 65536 in Hp. change (2 ^ 32) with 4294967296 in Hq. change (2 ^ 24) with 16777216 in E3.
  change (2 ^ 31) with 2147483648.
  destruct (Z.leb_spec 128 t); rewrite !length_app; cbn [length];
    (destruct Hl as [Hl|[Hl|Hl]]; [specialize (Hp Hl)|specialize (E3 Hl)|specialize (Hq Hl)];
     clearbody p; split; try lia; nia).
Qed.

(** The constructor's test, seen from the last byte. *)
Lemma CScriptNum_snoc l b m :
  is_bytes (l ++ [b]) ->
  CScriptNum (l ++ [b]) m =
    if (nMaxNumSize <=? length l)%nat then None
    else if m && (b mod 128 =? 0) && (back 0 l <? 128) then None
    else Some (set_vch (l ++ [b])).
Proof.
  intros Hl. pose proof Hl as Hw. apply words_app in Hw as [Hi Hb]. apply Forall_cons in Hb as [Hb _].
  unfold CScriptNum. rewrite length_app, back_snoc, land_7f, Nat.add_1_r.
  assert (E1 : (nMaxNumSize <? S (length l))%nat = (nMaxNumSize <=? length l)%nat).
  { destruct (Nat.ltb_spec nMaxNumSize (S (length l))), (Nat.leb_spec nMaxNumSize (length l)); done || lia. }
  rewrite E1. case_match; [done|]. change (0 <? S (length l))%nat with true. rewrite andb_true_r.
  assert (E2 : ((S (length l) <=? 1)%nat || (Z.land (nth (S (length l) - 2) (l ++ [b]) 0) 0x80 =? 0))
    = (back 0 l <? 128)); [|by rewrite E2].
  destruct (decide (l = [])) as [->|Hne]; [done|]. destruct (exists_last Hne) as (i & t & ->).
  rewrite back_snoc, length_app, Nat.add_1_r. destruct (Nat.leb_spec (S (S (length i))) 1); [lia|].
  rewrite <- app_assoc. cbn [orb app]. rewrite app_nth2 by lia.
  replace (S (S (length i)) - 2 - length i)%nat with 0%nat by lia. cbn [nth].
  apply words_app in Hi as [_ Ht]. apply Forall_cons in Ht as [Ht _]. pose proof (byte_top_bit t Ht) as E.
  destruct (Z.land t 0x80 =? 0), (Z.leb_spec 128 t), (Z.ltb_spec t 128); done || lia.
Qed.

Lemma CScriptNum_serialize n m :
  Z.abs n < 2 ^ 63 -> CScriptNum (serialize n) m = if Z.abs n <? 2 ^ 31 then Some n else None.
Proof.
  intros Hb. pose proof (serialize_length n Hb) as Hl. pose proof (set_vch_serialize n Hb) as Hs.
  destruct (decide (n = 0)) as [->|Hn]; [by destruct m|]. pose proof (serialize_bytes n Hb) as Hw.
  destruct (serialize_spec n Hn Hb) as (i & t & Ht & Ht0 & Hv & E). rewrite E in *.
  assert (H0 : ((128 <=? t) = true -> (back 0 (i ++ [t]) <? 128) = false) /\
    ((128 <=? t) = false -> ((t + sign_bit n) mod 128 =? 0) = false)).
  { rewrite back_snoc. split; [intros; apply Z.ltb_ge; lia|]. intros. apply Z.eqb_neq.
    unfold sign_bit. destruct (n <? 0); [replace (t + 128) with (t + 1 * 128) by lia; rewrite Z.mod_add by lia|
      rewrite Z.add_0_r]; rewrite Z.mod_small; lia. }
  destruct (128 <=? t); rewrite CScriptNum_snoc, Hs by done; rewrite length_app in Hl;
    cbn [length] in Hl; rewrite ?(proj1 H0), ?(proj2 H0), ?andb_false_r by done;
    unfold nMaxNumSize in *;
    match goal with |- context [Nat.leb 4 ?k] => destruct (Nat.leb_spec 4 k) end;
    rewrite ?length_app in *; cbn [length] in *; destruct (Z.ltb_spec (Z.abs n) (2 ^ 31)); done || lia.
Qed.

Lemma trimmed_inj l l' : trimmed l -> trimmed l' -> le_val l = le_val l' -> l = l'.
Proof.
  intros H H' E. rewrite <- (serialize_loop_unique (length l + length l') l) by (done || lia).
  rewrite E. apply serialize_loop_unique; [done|lia].
Qed.

Lemma serialize_trimmed n i t :
  trimmed (i ++ [t]) -> le_val (i ++ [t]) = Z.abs n -> Z.abs n < 2 ^ 63 ->
  serialize n = if 128 <=? t then (i ++ [t]) ++ [sign_bit n] else i ++ [t + sign_bit n].
Proof.
  intros Ht Hv Hb. pose proof (le_val_pos _ Ht ltac:(by destruct i)).
  destruct (serialize_spec n ltac:(lia) Hb) as (i' & t' & Ht' & _ & Hv' & ->).
  assert (E : i' ++ [t'] = i ++ [t]) by (apply trimmed_inj; [done|done|congruence]).
  by apply app_inj_tail in E as [-> ->].
Qed.

(** The sign and the magnitude of a number of at most four bytes. *)
Lemma set_vch_split l b :
  is_bytes (l ++ [b]) -> (length l < nMaxNumSize)%nat ->
  Z.abs (set_vch (l ++ [b])) = le_val l + 2 ^ (8 * Z.of_nat (length l)) * (b mod 128) /\
  Z.abs (set_vch (l ++ [b])) < 2 ^ 31 /\
  (set_vch (l ++ [b]) <> 0 -> b = b mod 128 + sign_bit (set_vch (l ++ [b]))).
Proof.
  intros Hv Hl. rewrite set_vch_snoc by done. unfold sign_magnitude, sign_bit, nMaxNumSize in *.
  apply words_app in Hv as [Hi Hb]. apply Forall_cons in Hb as [[Hb0 Hb1] _].
  change (2 ^ 8) with 256 in Hb1. pose proof (Z.mod_pos_bound b 128 ltac:(lia)).
  pose proof (le_val_bound l Hi).
  assert (Hp : 2 ^ (8 * Z.of_nat (length l)) <= 2 ^ 24) by (apply Z.pow_le_mono_r; lia).
  assert (Hbm : b = b mod 128 + if 128 <=? b then 128 else 0).
  { destruct (Z.leb_spec 128 b); [|rewrite Z.mod_small; lia].
    rewrite <- (Z.mod_add b (-1)), Z.mod_small; lia. }
  set (mag := le_val l + 2 ^ (8 * Z.of_nat (length l)) * (b mod 128)) in *.
  assert (0 <= mag < 2 ^ 31) by (unfold mag; change (2 ^ 31) with (2 ^ 24 * 128); nia).
  clearbody mag. destruct (128 <=? b); (split_and!; [lia|lia|]); intros Hn.
  - destruct (Z.ltb_spec (- mag) 0); lia.
  - destruct (Z.ltb_spec mag 0); lia.
Qed.

(** Only the minimal bytes of a number pass the test for minimality. *)
Lemma CScriptNum_minimal vch n :
  is_bytes vch -> CScriptNum vch true = Some n -> vch = serialize n.
Proof.
  intros Hv H. destruct (decide (vch = [])) as [->|Hne]; [by injection H as <-|].
  destruct (exists_last Hne) as (l & b & ->). rewrite CScriptNum_snoc in H by done.
  destruct (Nat.leb_spec nMaxNumSize (length l)) as [?|Hl]; [done|]. rewrite andb_true_l in H.
  destruct (set_vch_split l b Hv Hl) as (Hm & Hb & Hs).
  pose proof Hv as Hw. apply words_app in Hw as [Hi Hw]. apply Forall_cons in Hw as [[Hb0 Hb1] _].
  pose proof (Z.mod_pos_bound b 128 ltac:(lia)) as Hb128.
  destruct (Z.eqb_spec (b mod 128) 0) as [E0|E0].
  - destruct (Z.ltb_spec (back 0 l) 128) as [|Hbk]; [done|]. injection H as <-.
    rewrite E0, Z.mul_0_r, Z.add_0_r in Hm.
    assert (Hln : l <> []) by (intros ->; cbn in Hbk; lia).
    destruct (exists_last Hln) as (i & t & ->). rewrite back_snoc in Hbk.
    assert (Ht : trimmed (i ++ [t])) by (split; [done|right; rewrite back_snoc; lia]).
    pose proof (le_val_pos _ Ht Hln).
    rewrite (serialize_trimmed _ i t Ht) by (done || lia). rewrite (proj2 (Z.leb_le 128 t)) by lia.
    do 2 f_equal. rewrite (Hs ltac:(lia)) at 1. lia.
  - injection H as <-.
    assert (Ht : trimmed (l ++ [b mod 128])).
    { split; [apply is_bytes_snoc; [done|lia]|right; by rewrite back_snoc]. }
    rewrite <- le_val_snoc in Hm. pose proof (le_val_pos _ Ht ltac:(by destruct l)).
    rewrite (serialize_trimmed _ l (b mod 128) Ht) by (done || lia).
    rewrite (proj2 (Z.leb_gt 128 _)) by lia. do 2 f_equal. apply Hs. lia.
Qed.

Lemma CScriptNum_range vch m n :
  is_bytes vch -> CScriptNum vch m = Some n -> Z.abs n < 2 ^ 31.
Proof.
  intros Hv H. destruct (decide (vch = [])) as [->|Hne].
  { unfold CScriptNum in H. destruct m; by injection H as <-. }
  destruct (exists_last Hne) as (l & b & ->). rewrite CScriptNum_snoc in H by done.
  destruct (Nat.leb_spec nMaxNumSize (length l)) as [?|Hl]; [done|].
  destruct (m && _ && _); [done|]. injection H as <-. by apply set_vch_split.
Qed.

(** * Deleting an instruction *)

Lemma starts_with_spec b pc : starts_with b pc = true <-> exists q, pc = b ++ q.
Proof.
  unfold starts_with. rewrite andb_true_iff, bool_decide_eq_true, Nat.leb_le. split.
  - intros [_ E]. exists (drop (length b) pc). by rewrite <- E at 1; rewrite take_drop.
  - intros [q ->]. rewrite length_app, take_app_length. split; [lia|done].
Qed.

(** [b] is exactly one instruction, as [CScript(vchSig)] is. *)
Definition one_instruction (b : CScript) : Prop := fRet (GetOp b) = true /\ pc_next (GetOp b) = [].

Lemma one_instruction_ne b : one_instruction b -> b <> [].
Proof. by intros [H _] ->. Qed.

Lemma starts_with_instruction b h q :
  one_instruction b -> h <> [] ->
  (forall q, GetOp (h ++ q) = {| fRet := true; opcodeRet := opcodeRet (GetOp h);
     vchRet := vchRet (GetOp h); pc_next := q |}) ->
  starts_with b (h ++ q) = bool_decide (h = b).
Proof.
  intros [Hb Hn] Hh Hq. destruct (GetOp_local b Hb) as (b' & E & _ & Hbq).
  rewrite Hn, app_nil_r in E. subst b'. case_bool_decide as Ed.
  - apply starts_with_spec. exists q. by rewrite Ed.
  - apply not_true_iff_false. intros [q' E]%starts_with_spec. apply Ed.
    pose proof (f_equal pc_next (Hq q)) as E1. rewrite E, Hbq in E1. cbn [pc_next] in E1. subst q'.
    by apply app_inv_tail in E.
Qed.

Lemma starts_with_failed b pc :
  one_instruction b -> fRet (GetOp pc) = false -> starts_with b pc = false.
Proof.
  intros [Hb Hn] H. apply not_true_iff_false. intros [q ->]%starts_with_spec.
  destruct (GetOp_local b Hb) as (b' & E & _ & Hbq). rewrite Hn, app_nil_r in E. subst b'.
  by rewrite Hbq in H.
Qed.

Lemma erase_all_fuel f f' b pc n :
  b <> [] -> (length pc <= f)%nat -> (length pc <= f')%nat ->
  erase_all f b pc n = erase_all f' b pc n.
Proof.
  intros Hb. revert f' pc n. induction f as [|f IH]; intros [|f'] pc n Hf Hf'; cbn [erase_all].
  - done.
  - destruct pc; [by destruct b|cbn [length] in Hf; lia].
  - destruct pc; [by destruct b|cbn [length] in Hf'; lia].
  - destruct (starts_with b pc) eqn:E; [|done]. apply starts_with_spec in E as [q ->].
    rewrite drop_app_length. rewrite length_app in *. destruct b; [done|]. cbn [length] in *.
    by apply IH; lia.
Qed.

Definition kept (b : CScript) (l : list instr) : list instr :=
  List.filter (fun i => negb (bool_decide (i_raw i = b))) l.

Lemma find_and_delete_loop_spec b pc :
  one_instruction b ->
  forall f left n, (length pc <= f)%nat ->
    find_and_delete_loop f b left pc n =
      (left ++ concat (map i_raw (kept b (parse pc).1)) ++ (parse pc).2,
       n + Z.of_nat (length (parse pc).1 - length (kept b (parse pc).1))).
Proof.
  intros Hb. pose proof (one_instruction_ne b Hb) as Hbn.
  induction pc as [pc H|pc H IH] using script_ind; intros f left n Hf.
  { rewrite parse_failed by done. cbn [fst snd kept List.filter map concat app length].
    destruct f, (length pc) eqn:El; cbn [find_and_delete_loop]; rewrite ?El; cbn [erase_all];
      rewrite ?starts_with_failed, ?H by done; by rewrite Z.add_0_r. }
  destruct (parse_step pc H) as (h & E & Hh & Hq & ->). cbn [fst snd].
  assert (Hq' : forall q, GetOp (h ++ q) = {| fRet := true; opcodeRet := opcodeRet (GetOp h);
     vchRet := vchRet (GetOp h); pc_next := q |}).
  { intros q. rewrite Hq. pose proof (Hq []) as E0. rewrite app_nil_r in E0. by rewrite E0. }
  pose proof (starts_with_instruction b h (pc_next (GetOp pc)) Hb Hh Hq') as Hs.
  rewrite <- E in Hs. pose proof (GetOp_next_lt pc H) as Hlt.
  cbn [kept List.filter i_raw map length]. destruct (bool_decide_reflect (h = b)) as [->|Hhb].
  - (* erased *)
    cbn [negb]. transitivity (find_and_delete_loop f b left (pc_next (GetOp pc)) (n + 1)).
    + destruct f as [|f]; cbn [find_and_delete_loop]; [lia|].
      destruct (length pc) as [|m] eqn:El; [lia|]. cbn [erase_all]. rewrite Hs.
      assert (E2 : drop (length b) pc = pc_next (GetOp pc)) by (by rewrite E at 1; rewrite drop_app_length).
      rewrite E2. by rewrite (erase_all_fuel m (length (pc_next (GetOp pc)))) by (done || lia).
    + rewrite IH by lia. f_equal. fold (kept b (parse (pc_next (GetOp pc))).1).
      pose proof (List.filter_length_le (fun i => negb (bool_decide (i_raw i = b)))
        (parse (pc_next (GetOp pc))).1). unfold kept. lia.
  - (* kept *)
    cbn [negb map concat length i_raw]. destruct f as [|f]; [lia|]. cbn [find_and_delete_loop].
    destruct (length pc) as [|m] eqn:El; [lia|]. cbn [erase_all]. rewrite Hs, H, El.
    assert (E2 : take (S m - length (pc_next (GetOp pc))) pc = h).
    { rewrite <- El. rewrite E at 1 3. rewrite length_app, Nat.add_sub. by rewrite take_app_length. }
    rewrite E2, IH by lia. rewrite Nat.sub_succ. by rewrite <- !app_assoc.
Qed.

(** The instructions of a script that is known. *)
Lemma parse_op op rest :
  OP_PUSHDATA4 < op ->
  parse (op :: rest) = ({| i_opcode := op; i_data := []; i_raw := [op] |} :: (parse rest).1, (parse rest).2).
Proof.
  intros Hop. assert (E : GetOp (op :: rest) =
    {| fRet := true; opcodeRet := op; vchRet := []; pc_next := rest |}).
  { by rewrite GetOp_cons, (proj2 (Z.leb_gt op OP_PUSHDATA4)). }
  destruct (parse_step (op :: rest)) as (h & Eh & _ & _ & ->); [by rewrite E|].
  rewrite E in *. cbn [pc_next opcodeRet vchRet] in *. change (op :: rest) with ([op] ++ rest) in Eh.
  by apply app_inv_tail in Eh as <-.
Qed.

Lemma parse_push p op b rest :
  (forall q, GetOp (p ++ q) = {| fRet := true; opcodeRet := op; vchRet := b; pc_next := q |}) ->
  parse (p ++ rest) = ({| i_opcode := op; i_data := b; i_raw := p |} :: (parse rest).1, (parse rest).2).
Proof.
  intros E. destruct (parse_step (p ++ rest)) as (h & Eh & _ & _ & ->); [by rewrite E|].
  rewrite E in *. cbn [pc_next opcodeRet vchRet] in *. by apply app_inv_tail in Eh as <-.
Qed.

Lemma FindAndDelete_absent script b :
  one_instruction b -> Forall (fun i => i_raw i <> b) (parse script).1 ->
  FindAndDelete script b = (script, 0).
Proof.
  intros Hb Ha. unfold FindAndDelete. destruct (length b =? 0)%nat; [done|].
  rewrite find_and_delete_loop_spec by done.
  assert (E : kept b (parse script).1 = (parse script).1).
  { unfold kept. induction Ha as [|i l Hi Ha IH]; [done|]. cbn [List.filter].
    rewrite bool_decide_eq_false_2 by done. cbn [negb]. by rewrite IH. }
  rewrite E, Nat.sub_diag. cbn [app]. by rewrite parse_concat.
Qed.

(** * Counting signature operations *)

Lemma push_only_loop_spec f pc :
  (length pc <= f)%nat ->
  push_only_loop f pc = true <->
    (parse pc).2 = [] /\ Forall (fun i => i_opcode i <= OP_16) (parse pc).1.
Proof.
  revert f. induction pc as [pc H|pc H IH] using script_ind; intros f Hf.
  - rewrite parse_failed by done. cbn [fst snd]. destruct f; cbn [push_only_loop].
    { destruct pc; [by split|cbn [length] in Hf; lia]. }
    destruct (Nat.eqb_spec (length pc) 0).
    { destruct pc; [by split|done]. }
    rewrite H. cbn [negb]. split; [done|]. intros [-> _]. done.
  - destruct (parse_step pc H) as (h & E & Hh & _ & ->). cbn [fst snd].
    pose proof (GetOp_next_lt pc H). destruct f as [|f]; [lia|]. cbn [push_only_loop].
    destruct (Nat.eqb_spec (length pc) 0); [lia|]. rewrite H, Forall_cons. cbn [negb i_opcode].
    destruct (Z.ltb_spec OP_16 (opcodeRet (GetOp pc))).
    + split; [done|]. intros [_ [? _]]. lia.
    + rewrite IH by lia. tauto.
Qed.

Definition last_data (d : valtype) (l : list instr) : valtype := List.last (map i_data l) d.

Lemma last_push_spec f pc d :
  (length pc <= f)%nat ->
  last_push f pc d = if push_only_loop f pc then Some (last_data d (parse pc).1) else None.
Proof.
  revert f d. induction pc as [pc H|pc H IH] using script_ind; intros f d Hf.
  - rewrite parse_failed by done. destruct f; cbn [push_only_loop last_push]; [done|].
    destruct (Nat.eqb_spec (length pc) 0); [done|]. by rewrite H.
  - destruct (parse_step pc H) as (h & E & Hh & _ & ->). cbn [fst snd].
    pose proof (GetOp_next_lt pc H). destruct f as [|f]; [lia|]. cbn [push_only_loop last_push].
    destruct (Nat.eqb_spec (length pc) 0); [lia|]. rewrite H. cbn [negb].
    destruct (OP_16 <? opcodeRet (GetOp pc)); [done|]. rewrite IH by lia.
    case_match; [|done]. f_equal. unfold last_data. cbn [map i_data]. by rewrite last_cons_default.
Qed.

(** The weight of one instruction in the old count, and the count itself. *)
Definition sigop_weight (i : instr) : Z :=
  if (i_opcode i =? OP_CHECKSIG) || (i_opcode i =? OP_CHECKSIGVERIFY) then 1
  else if (i_opcode i =? OP_CHECKMULTISIG) || (i_opcode i =? OP_CHECKMULTISIGVERIFY) then 20
  else 0.

Lemma sigop_weight_range i : 0 <= sigop_weight i <= 20.
Proof. unfold sigop_weight. repeat case_match; lia. Qed.

Lemma sigop_loop_old f pc last n :
  (length pc <= f)%nat ->
  sigop_loop f false pc last n = n + zsum (map sigop_weight (parse pc).1).
Proof.
  revert f last n. induction pc as [pc H|pc H IH] using script_ind; intros f last n Hf.
  - rewrite parse_failed by done. destruct f; cbn [sigop_loop]; [cbn; lia|].
    case_match; [cbn; lia|]. rewrite H. cbn. lia.
  - destruct (parse_step pc H) as (h & E & Hh & _ & ->). pose proof (GetOp_next_lt pc H).
    destruct f as [|f]; [lia|]. cbn [sigop_loop fst snd map zsum foldr].
    destruct (Nat.eqb_spec (length pc) 0); [lia|]. rewrite H. cbn [negb andb].
    rewrite IH by lia. unfold zsum, sigop_weight. cbn [i_opcode foldr].
    destruct (_ || _); [lia|]. destruct (_ || _); lia.
Qed.

Lemma sigop_loop_shift f pc last n : sigop_loop f false pc last n = n + sigop_loop f false pc last 0.
Proof.
  revert pc last n. induction f as [|f IH]; intros pc last n; cbn [sigop_loop]; [lia|].
  case_match; [lia|]. case_match; [lia|]. cbn [andb].
  destruct (_ || _); [rewrite IH, (IH _ _ (0 + 1)); lia|].
  destruct (_ || _); [rewrite IH, (IH _ _ (0 + 20)); lia|apply IH].
Qed.

(** Counting accurately never counts more. *)
Lemma sigop_loop_accurate f pc last n :
  n <= sigop_loop f true pc last n <= n + (sigop_loop f false pc last 0).
Proof.
  revert pc last n. induction f as [|f IH]; intros pc last n; cbn [sigop_loop]; [lia|].
  case_match; [lia|]. case_match; [lia|]. cbn [andb].
  match goal with |- n <= sigop_loop _ _ ?p ?l ?m <= _ => pose proof (IH p l m) as B end.
  rewrite sigop_loop_shift. revert B. generalize (sigop_loop f false (pc_next (GetOp pc)) (opcodeRet (GetOp pc)) 0).
  intros k B. destruct (_ || _); [lia|]. destruct (_ || _); [|lia].
  destruct ((OP_1 <=? last) && (last <=? OP_16)) eqn:E; [|lia].
  apply andb_true_iff in E as [E1%Z.leb_le E2%Z.leb_le].
  assert (0 <= DecodeOP_N last <= 20); [|lia].
  unfold DecodeOP_N, OP_0, OP_1, OP_16 in *. destruct (Z.eqb_spec last 0); lia.
Qed.

(** * The properties *)

(** Script numbers: a 64-bit number is written as the bytes from which the
    constructor reads it back, unless it is out of the range of four bytes, when the
    constructor throws; of the byte strings only that one passes the test for
    minimality; and whatever is read is in range, so that [getint] does not clamp
    it. *)
Theorem script_number_roundtrip n m k vch :
  Z.abs n < 2 ^ 63 -> is_bytes vch ->
  CScriptNum (serialize n) m = (if Z.abs n <? 2 ^ 31 then Some n else None) /\
  (CScriptNum vch true = Some n <-> vch = serialize n /\ Z.abs n < 2 ^ 31) /\
  (CScriptNum vch m = Some k -> Z.abs k < 2 ^ 31 /\ getint k = k).
Proof.
  intros Hn Hv. split_and!; [by apply CScriptNum_serialize| |].
  - split.
    + intros H. split; [by apply CScriptNum_minimal|by apply CScriptNum_range in H].
    + intros [-> Hr]. rewrite CScriptNum_serialize by done. by rewrite (proj2 (Z.ltb_lt _ _) Hr).
  - intros H. apply CScriptNum_range in H; [|done]. split; [done|]. unfold getint, INT_MAX, INT_MIN.
    repeat case_match; lia.
Qed.

Lemma script_number_roundtrip_witness :
  serialize (-255) = [0xff; 0x80] /\ CScriptNum [0xff; 0x80] true = Some (-255) /\
  CScriptNum [0x80] true = None /\ CScriptNum [0x80] false = Some 0 /\
  CScriptNum (serialize (2 ^ 31)) false = None /\
  CScriptNum (serialize (-255)) true = (if Z.abs (-255) <? 2 ^ 31 then Some (-255) else None) /\
  (CScriptNum [0xff; 0x80] true = Some (-255) <->
    [0xff; 0x80] = serialize (-255) /\ Z.abs (-255) < 2 ^ 31) /\
  (CScriptNum [0xff; 0x80] true = Some (-255) -> Z.abs (-255) < 2 ^ 31 /\ getint (-255) = -255).
Proof.
  do 5 (split; [vm_compute; reflexivity|]).
  exact (script_number_roundtrip (-255) true (-255) [0xff; 0x80] ltac:(lia)
    ltac:(repeat constructor; vm_compute; congruence)).
Defined.

(** The number an instruction of a small integer or a push leaves. *)
Definition pushed_number (r : op_read) : Z :=
  if opcodeRet r <=? OP_PUSHDATA4 then set_vch (vchRet r) else opcodeRet r - (OP_1 - 1).

(** What is pushed is read back: [operator<<] of bytes (up to 2^32) appends one
    instruction that [GetOp] reads as these bytes, whatever follows, in the shortest
    of the four forms; [operator<<] of a number appends one instruction that pushes
    the number. *)
Theorem script_push_roundtrip s b n rest :
  Z.of_nat (length b) < 2 ^ 32 -> Z.abs n < 2 ^ 63 ->
  (exists p, push_data s b = s ++ p /\ GetOp (p ++ rest) =
     {| fRet := true; opcodeRet := push_opcode_of (Z.of_nat (length b)); vchRet := b; pc_next := rest |}) /\
  (exists p, push_int64 s n = s ++ p /\ fRet (GetOp (p ++ rest)) = true /\
     pc_next (GetOp (p ++ rest)) = rest /\ pushed_number (GetOp (p ++ rest)) = n).
Proof.
  intros Hb Hn. split.
  { destruct (push_data_spec s b Hb) as (p & E & H). by exists p. }
  unfold push_int64. destruct (_ || _) eqn:E1.
  - exists [n + (OP_1 - 1)]. split; [done|]. cbn [app].
    assert (Hr : OP_PUSHDATA4 < n + (OP_1 - 1)).
    { unfold OP_PUSHDATA4, OP_1. apply orb_true_iff in E1 as [E1%Z.eqb_eq|[E1%Z.leb_le _]%andb_true_iff]; lia. }
    rewrite GetOp_cons, (proj2 (Z.leb_gt _ _) Hr). unfold pushed_number. cbn [fRet pc_next opcodeRet].
    rewrite (proj2 (Z.leb_gt _ _) Hr). split_and!; [done|done|lia].
  - destruct (Z.eqb_spec n 0) as [->|Hn0].
    { exists [OP_0]. split; [done|]. change ([OP_0] ++ rest) with (OP_0 :: [] ++ [] ++ rest).
      by rewrite GetOp_data by done. }
    assert (Hl : (length (serialize n) <= 9)%nat).
    { destruct (serialize_spec n Hn0 Hn) as (i & t & Ht & Ht0 & Hv & ->).
      assert ((length (i ++ [t]) <= 8)%nat).
      { apply trimmed_length; [done|]. rewrite Hv. change (8 * Z.of_nat 8) with 64. lia. }
      case_match; rewrite !length_app in *; cbn [length] in *; lia. }
    destruct (push_data_spec s (serialize n)) as (p & E & H); [lia|].
    exists p. split; [done|]. rewrite H. split_and!; [done|done|]. unfold pushed_number. cbn [opcodeRet vchRet].
    assert (E2 : push_opcode_of (Z.of_nat (length (serialize n))) = Z.of_nat (length (serialize n))).
    { unfold push_opcode_of, OP_PUSHDATA1. case_match; [done|lia]. }
    rewrite E2, set_vch_serialize by done. unfold OP_PUSHDATA4. case_match; [done|lia].
Qed.

Lemma script_push_roundtrip_witness :
  push_int64 [] 1000 = [2; 0xe8; 3] /\
  Z.of_nat (length (repeat 7 300)) < 2 ^ 32 /\ Z.abs 1000 < 2 ^ 63 /\
  ((exists p, push_data [OP_DUP] (repeat 7 300) = [OP_DUP] ++ p /\ GetOp (p ++ [OP_EQUAL]) =
     {| fRet := true; opcodeRet := push_opcode_of (Z.of_nat (length (repeat 7 300)));
        vchRet := repeat 7 300; pc_next := [OP_EQUAL] |}) /\
   (exists p, push_int64 [OP_DUP] 1000 = [OP_DUP] ++ p /\ fRet (GetOp (p ++ [OP_EQUAL])) = true /\
     pc_next (GetOp (p ++ [OP_EQUAL])) = [OP_EQUAL] /\ pushed_number (GetOp (p ++ [OP_EQUAL])) = 1000)).
Proof.
  split; [vm_compute; reflexivity|]. split; [vm_compute; reflexivity|].
  split; [vm_compute; reflexivity|].
  exact (script_push_roundtrip [OP_DUP] (repeat 7 300) 1000 [OP_EQUAL]
    ltac:(vm_compute; reflexivity) ltac:(vm_compute; reflexivity)).
Defined.

(** [FindAndDelete] of a script that is one instruction, as the signature a
    script must not sign is, takes out exactly the instructions with these bytes:
    the others and a remainder that cannot be read stay, in their order, and the
    result is the number taken out. *)
Theorem FindAndDelete_filters script b :
  one_instruction b ->
  FindAndDelete script b =
    (concat (map i_raw (kept b (parse script).1)) ++ (parse script).2,
     Z.of_nat (length (parse script).1 - length (kept b (parse script).1))) /\
  concat (map i_raw (parse script).1) ++ (parse script).2 = script.
Proof.
  intros Hb. split; [|apply parse_concat]. unfold FindAndDelete.
  destruct (Nat.eqb_spec (length b) 0) as [E|_]; [by destruct b; [destruct Hb|]|].
  rewrite find_and_delete_loop_spec by done. by rewrite Z.add_0_l.
Qed.

Lemma FindAndDelete_filters_witness :
  one_instruction [2; 7; 8] /\
  FindAndDelete [2; 7; 8; OP_DUP; 3; 2; 7; 8; 2; 7; 8; 2; 7; 8; 9] [2; 7; 8] = ([OP_DUP; 3; 2; 7; 8; 9], 3) /\
  (FindAndDelete [2; 7; 8; OP_DUP; 2; 7] [2; 7; 8] =
    (concat (map i_raw (kept [2; 7; 8] (parse [2; 7; 8; OP_DUP; 2; 7]).1)) ++ (parse [2; 7; 8; OP_DUP; 2; 7]).2,
     Z.of_nat (length (parse [2; 7; 8; OP_DUP; 2; 7]).1 - length (kept [2; 7; 8] (parse [2; 7; 8; OP_DUP; 2; 7]).1))) /\
   concat (map i_raw (parse [2; 7; 8; OP_DUP; 2; 7]).1) ++ (parse [2; 7; 8; OP_DUP; 2; 7]).2
     = [2; 7; 8; OP_DUP; 2; 7]).
Proof.
  split; [vm_compute; split; reflexivity|]. split; [vm_compute; reflexivity|].
  exact (FindAndDelete_filters [2; 7; 8; OP_DUP; 2; 7] [2; 7; 8] ltac:(vm_compute; split; reflexivity)).
Defined.

(** The scans of script.cpp, against the list of instructions: the old count of
    signature operations is the sum of the instructions' weights and the accurate
    one never exceeds it; [IsPushOnly] holds exactly when the whole script is read
    and no instruction is above [OP_16]; and for a pay-to-script-hash output the
    count is that of the last thing a push-only [scriptSig] pushes. *)
Theorem script_scans script scriptSig :
  GetSigOpCount script false = zsum (map sigop_weight (parse script).1) /\
  0 <= GetSigOpCount script true <= GetSigOpCount script false /\
  (IsPushOnly scriptSig = true <->
     (parse scriptSig).2 = [] /\ Forall (fun i => i_opcode i <= OP_16) (parse scriptSig).1) /\
  GetSigOpCount_p2sh script scriptSig =
    (if negb (IsPayToScriptHash script) then GetSigOpCount script true
     else if IsPushOnly scriptSig
     then GetSigOpCount (last_data [] (parse scriptSig).1) true else 0).
Proof.
  split_and!.
  - unfold GetSigOpCount. by rewrite sigop_loop_old.
  - unfold GetSigOpCount. pose proof (sigop_loop_accurate (length script) script OP_INVALIDOPCODE 0). lia.
  - unfold GetSigOpCount. pose proof (sigop_loop_accurate (length script) script OP_INVALIDOPCODE 0). lia.
  - by apply push_only_loop_spec.
  - unfold GetSigOpCount_p2sh. destruct (negb _); [done|]. rewrite last_push_spec by done.
    unfold IsPushOnly. by destruct (push_only_loop _ _).
Qed.
