(* ===== verification/Transaction.v ===== *)
(** Transactions and blocks: primitives/transaction.h and .cpp, primitives/block.h,
    the hash of a block header (hash.h, block.cpp) and fee rates (amount.cpp).

    The serialization of each structure is the codec of its fields in their order;
    the hash a [CTransaction] keeps is that of its fields, so it is a function of
    them.  The field [prevPubKey] of [CTxIn] and the cached [vMerkleTree] and
    [payee] of [CBlock] are in memory only. *)

From stdpp Require Import countable.
From S2P Require Import Prelude Uint256 Arith256 Serialize Digest Hashes Script.

(** * Data *)

Record COutPoint := { out_hash : uint256; out_n : Z }.
Record CTxIn := { prevout : COutPoint; scriptSig : CScript; nSequence : Z }.
Record CTxOut := { nValue : Z; scriptPubKey : CScript }.
Record CTransaction := {
  tx_nVersion : Z;
  vin : list CTxIn;
  vout : list CTxOut;
  nLockTime : Z
}.

Record CBlockHeader := {
  bh_nVersion : Z;
  hashPrevBlock : uint256;
  hashMerkleRoot : uint256;
  bh_nTime : Z;
  bh_nBits : Z;
  bh_nNonce : Z
}.

Record CBlock := {
  header : CBlockHeader;
  vtx : list CTransaction;
  vchBlockSig : byte_list
}.

#[export] Instance COutPoint_eq_dec : EqDecision COutPoint.
Proof. solve_decision. Defined.
#[export] Instance CTxIn_eq_dec : EqDecision CTxIn.
Proof. solve_decision. Defined.
#[export] Instance CTxOut_eq_dec : EqDecision CTxOut.
Proof. solve_decision. Defined.
#[export] Instance CTransaction_eq_dec : EqDecision CTransaction.
Proof. solve_decision. Defined.

#[export] Program Instance COutPoint_countable : Countable COutPoint :=
  inj_countable' (fun p => (out_hash p, out_n p)) (fun x => {| out_hash := x.1; out_n := x.2 |}) _.
Next Obligation. by intros []. Qed.

(** * Methods *)

Definition UINT32_MAX : Z := 2 ^ 32 - 1.

Definition null_outpoint : COutPoint := {| out_hash := zero W256; out_n := UINT32_MAX |}.
Definition outpoint_IsNull (o : COutPoint) : bool := IsNull (out_hash o) && (out_n o =? UINT32_MAX).

(** [operator<], the order of [std::set] and [std::map] keys. *)
Definition outpoint_lt (a b : COutPoint) : bool :=
  lt (out_hash a) (out_hash b) || (eq (out_hash a) (out_hash b) && (out_n a <? out_n b)).

Definition IsFinal (i : CTxIn) : bool := nSequence i =? UINT32_MAX.

Definition null_txout : CTxOut := {| nValue := -1; scriptPubKey := [] |}.
Definition empty_txout : CTxOut := {| nValue := 0; scriptPubKey := [] |}.
Definition txout_IsNull (o : CTxOut) : bool := nValue o =? -1.
Definition txout_IsEmpty (o : CTxOut) : bool := (nValue o =? 0) && (length (scriptPubKey o) =? 0)%nat.

Definition tx_IsNull (tx : CTransaction) : bool := (length (vin tx) =? 0)%nat && (length (vout tx) =? 0)%nat.

Definition IsCoinBase (tx : CTransaction) : bool :=
  match vin tx with
  | [i] => outpoint_IsNull (prevout i)
  | _ => false
  end.

Definition IsCoinStake (tx : CTransaction) : bool :=
  match vin tx, vout tx with
  | i :: _, o :: _ :: _ => negb (outpoint_IsNull (prevout i)) && txout_IsEmpty o
  | _, _ => false
  end.

(** [vout[n]] is read after the test that [n] is the last index. *)
Definition IsMasternodeReward (o : COutPoint) (tx : CTransaction) : bool :=
  if negb (IsCoinStake tx) then false
  else
    (out_n o =? Z.of_nat (length (vout tx)) - 1) &&
    negb (bool_decide (scriptPubKey (nth 1 (vout tx) null_txout) =
                       scriptPubKey (nth (Z.to_nat (out_n o)) (vout tx) null_txout))).

(** The two exceptions of [GetValueOut]; the sum wraps in [int64_t]. *)
Fixpoint value_out_loop (nValueOut : Z) (outs : list CTxOut) : option Z :=
  match outs with
  | [] => Some nValueOut
  | o :: outs' =>
      if nValue o <? 0 then None
      else if s64 (nValueOut + nValue o) <? nValueOut then None
      else value_out_loop (s64 (nValueOut + nValue o)) outs'
  end.

Definition GetValueOut (tx : CTransaction) : option Z := value_out_loop 0 (vout tx).

(** [nTxSize] is an [unsigned int]. *)
Definition modified_size_step (nTxSize : Z) (i : CTxIn) : Z :=
  let offset := 41 + Z.min 110 (Z.of_nat (length (scriptSig i))) in
  if offset <? nTxSize then nTxSize - offset else nTxSize.

Definition block_IsProofOfStake (b : CBlock) : bool :=
  match vtx b with _ :: tx :: _ => IsCoinStake tx | _ => false end.

Definition GetProofOfStake (b : CBlock) : COutPoint * Z :=
  match vtx b with
  | _ :: tx :: _ =>
      if IsCoinStake tx then
        match vin tx with
        | i :: _ => (prevout i, bh_nTime (header b))
        | [] => (null_outpoint, 0)
        end
      else (null_outpoint, 0)
  | _ => (null_outpoint, 0)
  end.

(** ** Fee rates

    A [CFeeRate] is its [nSatoshisPerK]; the products and quotients with a [size_t]
    are in [uint64_t]. *)

Definition CFeeRate_of (nFeePaid nSize : Z) : Z :=
  if 0 <? nSize then s64 (u64 (s64 (nFeePaid * 1000)) / nSize) else 0.

Definition GetFee (nSatoshisPerK nSize : Z) : Z :=
  let nFee := s64 (u64 (u64 nSatoshisPerK * nSize) / 1000) in
  if (nFee =? 0) && (0 <? nSatoshisPerK) then nSatoshisPerK else nFee.

(** * Serialization *)

(** [base_uint::Serialize]: the bytes of the limbs. *)
Definition c_uint256 : codec uint256 := {|
  enc := to_bytes;
  dec bs := rbind (read_bytes 32 bs) (fun x => Ok (limbs_of_bytes W256 x.1, x.2));
  dom := wf256 |}.

(** [FLATDATA]: the hash and the number, as they lie in memory. *)
Definition c_outpoint : codec COutPoint :=
  c_iso (fun x => {| out_hash := x.1; out_n := x.2 |}) (fun o => (out_hash o, out_n o)) (c_pair c_uint256 (c_uint 4)).

Definition c_txin : codec CTxIn :=
  c_iso (fun x => {| prevout := x.1.1; scriptSig := x.1.2; nSequence := x.2 |})
    (fun i => ((prevout i, scriptSig i), nSequence i))
    (c_pair (c_pair c_outpoint c_bytes) (c_uint 4)).

Definition c_txout : codec CTxOut :=
  c_iso (fun x => {| nValue := x.1; scriptPubKey := x.2 |}) (fun o => (nValue o, scriptPubKey o))
    (c_pair (c_int 8) c_bytes).

Definition c_transaction : codec CTransaction :=
  c_iso (fun x => {| tx_nVersion := x.1.1.1; vin := x.1.1.2; vout := x.1.2; nLockTime := x.2 |})
    (fun t => (((tx_nVersion t, vin t), vout t), nLockTime t))
    (c_pair (c_pair (c_pair (c_int 4) (c_vector c_txin)) (c_vector c_txout)) (c_uint 4)).

Definition c_header : codec CBlockHeader :=
  c_iso (fun x => {| bh_nVersion := x.1.1.1.1.1; hashPrevBlock := x.1.1.1.1.2;
                     hashMerkleRoot := x.1.1.1.2; bh_nTime := x.1.1.2; bh_nBits := x.1.2;
                     bh_nNonce := x.2 |})
    (fun b => (((((bh_nVersion b, hashPrevBlock b), hashMerkleRoot b), bh_nTime b), bh_nBits b),
               bh_nNonce b))
    (c_pair (c_pair (c_pair (c_pair (c_pair (c_int 4) c_uint256) c_uint256) (c_uint 4)) (c_uint 4))
       (c_uint 4)).

(** The signature is there when the second transaction is a coinstake. *)
Definition c_block : codec CBlock :=
  c_iso (fun x => {| header := x.1.1; vtx := x.1.2; vchBlockSig := x.2 |})
    (fun b => ((header b, vtx b), vchBlockSig b))
    (c_when (c_pair c_header (c_vector c_transaction)) c_bytes
       (fun x => match x.2 with _ :: tx :: _ => IsCoinStake tx | _ => false end) []).

(** [SerializeHash], [CTransaction::GetHash] and [COutPoint::GetHash]. *)
Definition SerializeHash {A} (c : codec A) (a : A) : uint256 := Hash (enc c a).
Definition tx_GetHash (tx : CTransaction) : uint256 := SerializeHash c_transaction tx.
Definition outpoint_GetHash (o : COutPoint) : uint256 := Hash2 (to_bytes (out_hash o)) (le_bytes 4 (out_n o)).

(** [CalculateModifiedSize]; a size of zero means the transaction's own. *)
Definition CalculateModifiedSize (tx : CTransaction) (nTxSize : Z) : Z :=
  let nTxSize := if nTxSize =? 0 then u32 (Z.of_nat (length (enc c_transaction tx))) else nTxSize in
  fold_left modified_size_step (vin tx) nTxSize.

Definition IsDust (minRelayTxFee : Z) (o : CTxOut) : bool :=
  let nSize := Z.of_nat (length (enc c_txout o)) + 148 in
  nValue o <? s64 (3 * GetFee minRelayTxFee nSize).

(** * The hash of a block header

    [HashQuark] chains the six 512-bit functions of the sphlib sources that come
    with the repository; they are parameters, from bytes to 64 bytes. *)

Record sph := {
  blake512 : byte_list -> byte_list;
  bmw512 : byte_list -> byte_list;
  groestl512 : byte_list -> byte_list;
  jh512 : byte_list -> byte_list;
  keccak512 : byte_list -> byte_list;
  skein512 : byte_list -> byte_list
}.

(** [(hash & mask) != zero], with [uint512 mask = 8] over the bytes. *)
Definition W512 : nat := 16.
Definition quark_branch (h : byte_list) : bool :=
  negb (eq (band (limbs_of_bytes W512 h) (of_u64 W512 8)) (of_u64 W512 0)).

Definition trim256 (h : byte_list) : uint256 := take W256 (limbs_of_bytes W512 h).

Definition HashQuark (s : sph) (m : byte_list) : uint256 :=
  let h0 := blake512 s m in
  let h1 := bmw512 s h0 in
  let h2 := if quark_branch h1 then groestl512 s h1 else skein512 s h1 in
  let h3 := groestl512 s h2 in
  let h4 := jh512 s h3 in
  let h5 := if quark_branch h4 then blake512 s h4 else bmw512 s h4 in
  let h6 := keccak512 s h5 in
  let h7 := skein512 s h6 in
  let h8 := if quark_branch h7 then keccak512 s h7 else jh512 s h7 in
  trim256 h8.

(** From [nVersion] to [nNonce], as they lie in memory. *)
Definition header_GetHash (s : sph) (b : CBlockHeader) : uint256 := HashQuark s (enc c_header b).

(** * Laws of the codecs *)

#[export] Instance c_uint256_lawful : Lawful c_uint256.
Proof.
  intros h rest Hh. cbn [enc dec dom c_uint256] in *.
  assert (E : 32%nat = length (to_bytes h)) by (rewrite length_to_bytes; destruct Hh as [-> _]; done).
  rewrite E, read_bytes_app. cbn [rbind fst snd]. by rewrite limbs_to_bytes.
Qed.

Lemma limbs_of_bytes_bytes W bs :
  is_bytes bs -> length bs = (4 * W)%nat ->
  wf W (limbs_of_bytes W bs) /\ to_bytes (limbs_of_bytes W bs) = bs.
Proof.
  revert bs. induction W as [|W IH]; intros bs Hb Hl.
  - destruct bs; [|cbn [length] in Hl; lia]. split; [split; [done|constructor]|done].
  - destruct (IH (drop 4 bs)) as [[H1 H2] H3]; [auto with words|rewrite length_drop; lia|].
    assert (Ht : length (take 4 bs) = 4%nat) by (rewrite length_take; lia).
    assert (Hw : word 32 (le_val (take 4 bs))).
    { pose proof (le_val_bound (take 4 bs) ltac:(auto with words)) as B. by rewrite Ht in B. }
    cbn [limbs_of_bytes]. split.
    + split; [cbn [length]; lia|]. constructor; [exact Hw|exact H2].
    + change (to_bytes (?x :: ?a)) with (le_bytes 4 x ++ to_bytes a). rewrite H3.
      rewrite le_bytes_val by (auto with words). by rewrite take_drop.
Qed.

#[export] Instance c_uint256_canonical : Canonical c_uint256.
Proof.
  intros bs h rest Hb H. cbn [enc dec dom c_uint256] in *.
  apply rbind_ok in H as ([v r] & Hv & H). cbn [fst snd] in H.
  apply read_bytes_ok in Hv as (Hl & -> & Hv & Hr); [|done].
  destruct (limbs_of_bytes_bytes W256 v Hv Hl) as [Hw E].
  revert Hw E H. generalize (limbs_of_bytes W256 v). intros k Hw E [= <- <-].
  split_and!; [done|by rewrite E|done].
Qed.

Ltac iso_lawful := apply c_iso_lawful; [by intros []|apply _].
Ltac iso_canonical := apply c_iso_canonical; [intros; by repeat match goal with x : _ * _ |- _ => destruct x end|apply _].

#[export] Instance c_outpoint_lawful : Lawful c_outpoint. Proof. iso_lawful. Qed.
#[export] Instance c_outpoint_canonical : Canonical c_outpoint. Proof. iso_canonical. Qed.
#[export] Instance c_txin_lawful : Lawful c_txin. Proof. iso_lawful. Qed.
#[export] Instance c_txin_canonical : Canonical c_txin. Proof. iso_canonical. Qed.
#[export] Instance c_txout_lawful : Lawful c_txout. Proof. iso_lawful. Qed.
#[export] Instance c_txout_canonical : Canonical c_txout. Proof. iso_canonical. Qed.
#[export] Instance c_transaction_lawful : Lawful c_transaction. Proof. iso_lawful. Qed.
#[export] Instance c_transaction_canonical : Canonical c_transaction. Proof. iso_canonical. Qed.
#[export] Instance c_header_lawful : Lawful c_header. Proof. iso_lawful. Qed.
#[export] Instance c_header_canonical : Canonical c_header. Proof. iso_canonical. Qed.
#[export] Instance c_block_lawful : Lawful c_block. Proof. iso_lawful. Qed.
#[export] Instance c_block_canonical : Canonical c_block. Proof. iso_canonical. Qed.

Lemma enc_header_length b : dom c_header b -> length (enc c_header b) = 80%nat.
Proof.
  intros (((((_ & H1) & H2) & _) & _) & _). cbn [fst snd dom c_uint256] in *.
  cbn [enc c_header c_iso c_pair c_int c_uint c_uint256 fst snd]. rewrite !length_app, !length_le_bytes, !length_to_bytes.
  destruct H1 as [-> _], H2 as [-> _]. done.
Qed.

Lemma tx_GetHash_wf tx : wf256 (tx_GetHash tx).
Proof. exact (Hash_wf _). Qed.

(** * Amounts *)

Lemma value_out_loop_spec acc outs :
  0 <= acc < 2 ^ 63 -> Forall (fun o => - 2 ^ 63 <= nValue o < 2 ^ 63) outs ->
  value_out_loop acc outs =
    if forallb (fun o => 0 <=? nValue o) outs && (acc + zsum (map nValue outs) <? 2 ^ 63)
    then Some (acc + zsum (map nValue outs)) else None.
Proof.
  intros Ha Ho. revert acc Ha. induction Ho as [|o outs Ho Hos IH]; intros acc Ha.
  { cbn. rewrite Z.add_0_r. destruct (Z.ltb_spec acc (2 ^ 63)); [done|lia]. }
  cbn [value_out_loop forallb map zsum foldr]. fold (zsum (map nValue outs)).
  destruct (Z.ltb_spec (nValue o) 0) as [Hn|Hn]; [by rewrite (proj2 (Z.leb_gt 0 _))|].
  rewrite (proj2 (Z.leb_le 0 _)) by lia. cbn [andb].
  destruct (Z.lt_ge_cases (acc + nValue o) (2 ^ 63)) as [Hs|Hs].
  - rewrite s64_small by lia. destruct (Z.ltb_spec (acc + nValue o) acc); [lia|].
    rewrite IH by lia. by rewrite Z.add_assoc.
  - assert (E : s64 (acc + nValue o) = acc + nValue o - 2 ^ 64).
    { unfold s64. rewrite <- (Z.mod_add _ (-1)), Z.mod_small; lia. }
    rewrite E. destruct (Z.ltb_spec (acc + nValue o - 2 ^ 64) acc); [|lia].
    destruct (forallb (fun o => 0 <=? nValue o) outs) eqn:Ef; [|done]. cbn [andb].
    assert (0 <= zsum (map nValue outs)).
    { clear -Ef. induction outs as [|o outs IH]; [done|]. cbn [forallb map zsum foldr] in *.
      apply andb_true_iff in Ef as [H%Z.leb_le Ef]. specialize (IH Ef). unfold zsum in *. lia. }
    destruct (Z.ltb_spec (acc + (nValue o + zsum (map nValue outs))) (2 ^ 63)); [lia|done].
Qed.

(** * The properties *)

(** C33 Blocks and transactions on the wire: a well-formed block (fields in the range
    of their types, scripts and vectors of at most [MAX_SIZE], no signature unless
    the second transaction is a coinstake) is read back from what is written, a
    header takes 80 bytes, and whatever bytes are read as a block or as a transaction
    are the only ones for it, so that a transaction's identifier determines the bytes
    that were hashed. *)
Theorem block_serialization_roundtrip b tx bs rest :
  dom c_block b -> is_bytes bs ->
  dec c_block (enc c_block b ++ rest) = Ok (b, rest) /\
  length (enc c_header (header b)) = 80%nat /\
  (dec c_block bs = Ok (b, rest) -> bs = enc c_block b ++ rest) /\
  (dec c_transaction bs = Ok (tx, rest) ->
     dom c_transaction tx /\ bs = enc c_transaction tx ++ rest /\
     dec c_transaction (enc c_transaction tx ++ rest) = Ok (tx, rest)).
Proof.
  intros Hd Hb. split_and!.
  - by apply c_block_lawful.
  - apply enc_header_length. destruct Hd as [[H _] _]. exact H.
  - intros H. by apply c_block_canonical in H as (_ & ? & _).
  - intros H. apply c_transaction_canonical in H as (? & -> & _); [|done].
    split_and!; [done..|]. by apply c_transaction_lawful.
Qed.

(** A coinbase and a coinstake, in a block with a signature. *)
Definition example_coinbase : CTransaction := {|
  tx_nVersion := 1;
  vin := [{| prevout := null_outpoint; scriptSig := [1; 7]; nSequence := UINT32_MAX |}];
  vout := [{| nValue := 0; scriptPubKey := [] |}];
  nLockTime := 0 |}.

Definition example_coinstake : CTransaction := {|
  tx_nVersion := 1;
  vin := [{| prevout := {| out_hash := u256 5; out_n := 1 |}; scriptSig := []; nSequence := UINT32_MAX |}];
  vout := [empty_txout; {| nValue := 250000000; scriptPubKey := [OP_DUP; OP_CHECKSIG] |}];
  nLockTime := 0 |}.

Definition example_header : CBlockHeader := {|
  bh_nVersion := 4; hashPrevBlock := u256 1; hashMerkleRoot := u256 2; bh_nTime := 1500000000;
  bh_nBits := 0x1e0ffff0; bh_nNonce := 0 |}.

Definition example_block : CBlock := {|
  header := example_header; vtx := [example_coinbase; example_coinstake]; vchBlockSig := [48; 1] |}.

Ltac solve_dom :=
  repeat match goal with
  | |- _ /\ _ => split
  | |- Forall _ [] => constructor
  | |- Forall _ (_ :: _) => constructor
  | |- words _ _ => unfold words
  | |- length _ = _ => reflexivity
  | |- wf _ _ => split
  | |- if ?b then ?p else ?q => let v := eval vm_compute in b in change (if v then p else q); cbv iota
  | |- word _ _ => unfold word
  | |- _ <= _ => vm_compute; congruence
  | |- _ < _ => vm_compute; reflexivity
  | |- _ => progress cbn
  end.

Lemma example_block_dom : dom c_block example_block.
Proof. solve_dom. Qed.

Lemma block_serialization_roundtrip_witness :
  dom c_block example_block /\ is_bytes (enc c_block example_block ++ [7]) /\
  (dec c_block (enc c_block example_block ++ [7]) = Ok (example_block, [7]) /\
   length (enc c_header (header example_block)) = 80%nat /\
   (dec c_block (enc c_block example_block ++ [7]) = Ok (example_block, [7]) ->
      enc c_block example_block ++ [7] = enc c_block example_block ++ [7]) /\
   (dec c_transaction (enc c_block example_block ++ [7]) = Ok (example_coinbase, [7]) ->
     dom c_transaction example_coinbase /\
     enc c_block example_block ++ [7] = enc c_transaction example_coinbase ++ [7] /\
     dec c_transaction (enc c_transaction example_coinbase ++ [7]) = Ok (example_coinbase, [7]))).
Proof.
  assert (Hb : is_bytes (enc c_block example_block ++ [7])).
  { apply (bool_decide_unpack _). vm_compute. exact I. }
  split; [exact example_block_dom|]. split; [exact Hb|].
  exact (block_serialization_roundtrip example_block example_coinbase
    (enc c_block example_block ++ [7]) [7] example_block_dom Hb).
Defined.

(** [GetValueOut] throws exactly when an output is negative or the sum does not
    fit 63 bits: the test for wrap-around catches every overflow, although it runs on
    the wrapped sum; otherwise it returns the sum. *)
Theorem GetValueOut_exact tx :
  Forall (fun o => - 2 ^ 63 <= nValue o < 2 ^ 63) (vout tx) ->
  GetValueOut tx =
    if forallb (fun o => 0 <=? nValue o) (vout tx) && (zsum (map nValue (vout tx)) <? 2 ^ 63)
    then Some (zsum (map nValue (vout tx))) else None.
Proof. intros H. unfold GetValueOut. by rewrite value_out_loop_spec. Qed.

Lemma GetValueOut_exact_witness :
  Forall (fun o => - 2 ^ 63 <= nValue o < 2 ^ 63) (vout example_coinstake) /\
  GetValueOut example_coinstake = Some 250000000 /\
  GetValueOut example_coinstake =
    if forallb (fun o => 0 <=? nValue o) (vout example_coinstake) &&
       (zsum (map nValue (vout example_coinstake)) <? 2 ^ 63)
    then Some (zsum (map nValue (vout example_coinstake))) else None.
Proof.
  assert (H : Forall (fun o => - 2 ^ 63 <= nValue o < 2 ^ 63) (vout example_coinstake)).
  { repeat constructor; vm_compute; congruence. }
  split; [exact H|]. split; [vm_compute; reflexivity|]. exact (GetValueOut_exact _ H).
Defined.
