(* ===== verification/Pubkey.v ===== *)
(** Public keys and signature parsing: pubkey.h and pubkey.cpp.

    libsecp256k1 is a third-party library; the operations pubkey.cpp calls are the
    fields of [secp256k1], over its two opaque types. *)

From S2P Require Import Prelude Uint256 Arith256 Digest Hashes.

Record secp256k1 := {
  secp_pubkey : Type;
  secp_signature : Type;
  (* the result and what is written to the output *)
  ecdsa_signature_parse_compact : byte_list -> bool * secp_signature;
  ec_pubkey_parse : byte_list -> option secp_pubkey;
  ecdsa_signature_normalize : secp_signature -> bool * secp_signature;
  ecdsa_verify : secp_signature -> byte_list -> secp_pubkey -> bool;
  (* the flag is that of the compressed form *)
  ec_pubkey_serialize : secp_pubkey -> bool -> byte_list
}.

(** * Public keys

    The [size()] bytes of [vch] that mean something; none for an invalid key, whose
    first byte is [0xFF]. *)
Abbreviation CPubKey := (list Z) (only parsing).

Definition PUBLIC_KEY_SIZE : Z := 65.
Definition COMPRESSED_PUBLIC_KEY_SIZE : Z := 33.

Definition GetLen (chHeader : Z) : Z :=
  if (chHeader =? 2) || (chHeader =? 3) then COMPRESSED_PUBLIC_KEY_SIZE
  else if (chHeader =? 4) || (chHeader =? 6) || (chHeader =? 7) then PUBLIC_KEY_SIZE
  else 0.

(** [Set], the constructor from bytes. *)
Definition CPubKey_Set (vch : byte_list) : CPubKey :=
  let len := match vch with [] => 0 | h :: _ => GetLen h end in
  if negb (len =? 0) && (len =? Z.of_nat (length vch)) then vch else [].

Definition pubkey_size (k : CPubKey) : Z := match k with [] => 0 | h :: _ => GetLen h end.
Definition pubkey_IsValid (k : CPubKey) : bool := 0 <? pubkey_size k.
Definition IsCompressed (k : CPubKey) : bool := pubkey_size k =? COMPRESSED_PUBLIC_KEY_SIZE.
Definition GetID (k : CPubKey) : base_uint := Hash160 k.

(** * Signatures

    [pos] is the suffix of [input] that is left. *)

(** [while (... && input[pos] == 0)], which drops leading zeros. *)
Fixpoint skip_zeros (lenbyte : nat) (s : byte_list) : nat * byte_list :=
  match lenbyte with
  | O => (O, s)
  | S l' =>
      match s with
      | 0 :: s' => skip_zeros l' s'
      | _ => (lenbyte, s)
      end
  end.

(** [rlen = (rlen << 8) + input[pos]]. *)
Definition be_value (s : byte_list) : Z := fold_left (fun r b => Z.shiftl r 8 + b) s 0.

(** The length of an integer, in the short or the long form. *)
Definition der_length (s : byte_list) : option (Z * byte_list) :=
  match s with
  | [] => None
  | lenbyte :: s =>
      if negb (Z.land lenbyte 0x80 =? 0) then
        let lenbyte := Z.to_nat (lenbyte - 0x80) in
        if (length s <? lenbyte)%nat then None
        else
          let '(lenbyte, s) := skip_zeros lenbyte s in
          if (4 <=? lenbyte)%nat then None
          else Some (be_value (take lenbyte s), drop lenbyte s)
      else Some (lenbyte, s)
  end.

(** An integer element: tag, length, value. *)
Definition der_integer (s : byte_list) : option (byte_list * byte_list) :=
  match s with
  | 0x02 :: s =>
      match der_length s with
      | None => None
      | Some (rlen, s) =>
          if Z.of_nat (length s) <? rlen then None
          else Some (take (Z.to_nat rlen) s, drop (Z.to_nat rlen) s)
      end
  | _ => None
  end.

(** The sequence tag and its length, which is skipped. *)
Definition der_sequence (s : byte_list) : option byte_list :=
  match s with
  | 0x30 :: lenbyte :: s =>
      if negb (Z.land lenbyte 0x80 =? 0) then
        let lenbyte := Z.to_nat (lenbyte - 0x80) in
        if (length s <? lenbyte)%nat then None else Some (drop lenbyte s)
      else Some s
  | _ => None
  end.

(** One half of [tmpsig]; [None] for [overflow]. *)
Definition der_half (v : byte_list) : option byte_list :=
  let v := (skip_zeros (length v) v).2 in
  if (32 <? length v)%nat then None else Some (replicate (32 - length v) 0 ++ v).

(** The integers of a signature. *)
Definition der_rs (input : byte_list) : option (byte_list * byte_list) :=
  match der_sequence input with
  | None => None
  | Some s =>
      match der_integer s with
      | None => None
      | Some (r, s) =>
          match der_integer s with
          | None => None
          | Some (v, _) => Some (r, v)
          end
      end
  end.

Section Secp.
Context (lib : secp256k1).

(** [None] for the result 0; else the signature written. *)
Definition ecdsa_signature_parse_der_lax (input : byte_list) : option (secp_signature lib) :=
  match der_rs input with
  | None => None
  | Some (r, s) =>
      let invalid := (ecdsa_signature_parse_compact lib (replicate 64 0)).2 in
      match der_half r, der_half s with
      | Some r, Some s =>
          let '(ok, sig) := ecdsa_signature_parse_compact lib (r ++ s) in
          Some (if ok then sig else invalid)
      | _, _ => Some invalid
      end
  end.

(** [CPubKey::Verify]; the hash is passed as its bytes. *)
Definition Verify (k : CPubKey) (hash : uint256) (vchSig : byte_list) : bool :=
  if negb (pubkey_IsValid k) then false
  else
    match ec_pubkey_parse lib k with
    | None => false
    | Some pubkey =>
        match ecdsa_signature_parse_der_lax vchSig with
        | None => false
        | Some sig => ecdsa_verify lib (ecdsa_signature_normalize lib sig).2 (to_bytes hash) pubkey
        end
    end.

Definition IsFullyValid (k : CPubKey) : bool :=
  if negb (pubkey_IsValid k) then false
  else match ec_pubkey_parse lib k with None => false | Some _ => true end.

(** [CPubKey::Decompress]: [None] for the result false. *)
Definition pubkey_Decompress (k : CPubKey) : option CPubKey :=
  if negb (pubkey_IsValid k) then None
  else
    match ec_pubkey_parse lib k with
    | None => None
    | Some pubkey => Some (CPubKey_Set (ec_pubkey_serialize lib pubkey false))
    end.

Definition CheckLowS (vchSig : byte_list) : bool :=
  match ecdsa_signature_parse_der_lax vchSig with
  | None => false
  | Some sig => negb (ecdsa_signature_normalize lib sig).1
  end.
End Secp.

(** * Lemmas *)

Lemma CPubKey_Set_valid vch :
  pubkey_IsValid (CPubKey_Set vch) = true ->
  CPubKey_Set vch = vch /\ (length vch = 33%nat \/ length vch = 65%nat).
Proof.
  unfold CPubKey_Set. destruct vch as [|h vch]; [done|].
  destruct (Z.eqb_spec (GetLen h) 0) as [|Hn]; [done|]. cbn [negb andb].
  destruct (Z.eqb_spec (GetLen h) (Z.of_nat (length (h :: vch)))) as [E|]; [|done]. intros _.
  split; [done|]. revert E Hn. unfold GetLen, COMPRESSED_PUBLIC_KEY_SIZE, PUBLIC_KEY_SIZE.
  repeat case_match; lia.
Qed.
