(* ===== verification/Interp.v ===== *)
(** The script interpreter: script/interpreter.cpp, with the errors of
    script/script_error.h.

    The stacks are lists with the top first.  [EvalScript] changes the stack it is
    given and reports an error code; here it returns the new stack or the error, the
    stack it leaves on failure being used nowhere.  An exception that the code catches
    is the error [SCRIPT_ERR_UNKNOWN_ERROR]. *)

From S2P Require Import Prelude Uint256 Arith256 Serialize Digest Hashes Script Transaction Pubkey.

Inductive ScriptError : Type :=
| SCRIPT_ERR_UNKNOWN_ERROR
| SCRIPT_ERR_EVAL_FALSE
| SCRIPT_ERR_OP_RETURN
| SCRIPT_ERR_SCRIPT_SIZE
| SCRIPT_ERR_PUSH_SIZE
| SCRIPT_ERR_OP_COUNT
| SCRIPT_ERR_STACK_SIZE
| SCRIPT_ERR_SIG_COUNT
| SCRIPT_ERR_PUBKEY_COUNT
| SCRIPT_ERR_VERIFY
| SCRIPT_ERR_EQUALVERIFY
| SCRIPT_ERR_CHECKMULTISIGVERIFY
| SCRIPT_ERR_CHECKSIGVERIFY
| SCRIPT_ERR_NUMEQUALVERIFY
| SCRIPT_ERR_BAD_OPCODE
| SCRIPT_ERR_DISABLED_OPCODE
| SCRIPT_ERR_INVALID_STACK_OPERATION
| SCRIPT_ERR_INVALID_ALTSTACK_OPERATION
| SCRIPT_ERR_UNBALANCED_CONDITIONAL
| SCRIPT_ERR_SIG_HASHTYPE
| SCRIPT_ERR_SIG_DER
| SCRIPT_ERR_MINIMALDATA
| SCRIPT_ERR_SIG_PUSHONLY
| SCRIPT_ERR_SIG_HIGH_S
| SCRIPT_ERR_SIG_NULLDUMMY
| SCRIPT_ERR_PUBKEYTYPE
| SCRIPT_ERR_DISCOURAGE_UPGRADABLE_NOPS.

Abbreviation eval A := (result ScriptError A) (only parsing).

(** * Flags *)

Definition SIGHASH_ALL : Z := 1.
Definition SIGHASH_NONE : Z := 2.
Definition SIGHASH_SINGLE : Z := 3.
Definition SIGHASH_ANYONECANPAY : Z := 0x80.

Definition SCRIPT_VERIFY_P2SH : Z := Z.shiftl 1 0.
Definition SCRIPT_VERIFY_STRICTENC : Z := Z.shiftl 1 1.
Definition SCRIPT_VERIFY_DERSIG : Z := Z.shiftl 1 2.
Definition SCRIPT_VERIFY_LOW_S : Z := Z.shiftl 1 3.
Definition SCRIPT_VERIFY_NULLDUMMY : Z := Z.shiftl 1 4.
Definition SCRIPT_VERIFY_SIGPUSHONLY : Z := Z.shiftl 1 5.
Definition SCRIPT_VERIFY_MINIMALDATA : Z := Z.shiftl 1 6.
Definition SCRIPT_VERIFY_DISCOURAGE_UPGRADABLE_NOPS : Z := Z.shiftl 1 7.

(** [(flags & f) != 0]. *)
Definition has_flag (flags f : Z) : bool := negb (Z.land flags f =? 0).

(** * Encodings *)

Fixpoint CastToBool (vch : valtype) : bool :=
  match vch with
  | [] => false
  | b :: vch' =>
      if negb (b =? 0) then
        (* can be negative zero *)
        if (length vch' =? 0)%nat && (b =? 0x80) then false else true
      else CastToBool vch'
  end.

(** [vch[i]]; the code reads only inside the vector. *)
Definition at_ (l : valtype) (i : Z) : Z := nth (Z.to_nat i) l 0.
Definition zlen (l : valtype) : Z := Z.of_nat (length l).

Definition IsCompressedOrUncompressedPubKey (vchPubKey : valtype) : bool :=
  if zlen vchPubKey <? 33 then false
  else if at_ vchPubKey 0 =? 0x04 then zlen vchPubKey =? 65
  else if (at_ vchPubKey 0 =? 0x02) || (at_ vchPubKey 0 =? 0x03) then zlen vchPubKey =? 33
  else false.

(** Bit 7 of a byte. *)
Definition high (b : Z) : bool := negb (Z.land b 0x80 =? 0).

Definition IsValidSignatureEncoding (sig : valtype) : bool :=
  if zlen sig <? 9 then false
  else if 73 <? zlen sig then false
  else if negb (at_ sig 0 =? 0x30) then false
  else if negb (at_ sig 1 =? zlen sig - 3) then false
  else
    let lenR := at_ sig 3 in
    if zlen sig <=? 5 + lenR then false
    else
      let lenS := at_ sig (5 + lenR) in
      if negb (lenR + lenS + 7 =? zlen sig) then false
      else if negb (at_ sig 2 =? 0x02) then false
      else if lenR =? 0 then false
      else if high (at_ sig 4) then false
      else if (1 <? lenR) && (at_ sig 4 =? 0x00) && negb (high (at_ sig 5)) then false
      else if negb (at_ sig (lenR + 4) =? 0x02) then false
      else if lenS =? 0 then false
      else if high (at_ sig (lenR + 6)) then false
      else if (1 <? lenS) && (at_ sig (lenR + 6) =? 0x00) && negb (high (at_ sig (lenR + 7))) then false
      else true.

Definition IsDefinedHashtypeSignature (vchSig : valtype) : bool :=
  if (length vchSig =? 0)%nat then false
  else
    (* an [unsigned char] *)
    let nHashType := Z.ldiff (back 0 vchSig) SIGHASH_ANYONECANPAY in
    negb ((nHashType <? SIGHASH_ALL) || (SIGHASH_SINGLE <? nHashType)).

Definition CheckMinimalPush (data : valtype) (opcode : Z) : bool :=
  if zlen data =? 0 then opcode =? OP_0
  else if (zlen data =? 1) && (1 <=? at_ data 0) && (at_ data 0 <=? 16)
  then opcode =? OP_1 + (at_ data 0 - 1)
  else if (zlen data =? 1) && (at_ data 0 =? 0x81) then opcode =? OP_1NEGATE
  else if zlen data <=? 75 then opcode =? zlen data
  else if zlen data <=? 255 then opcode =? OP_PUSHDATA1
  else if zlen data <=? 65535 then opcode =? OP_PUSHDATA2
  else true.

(** * The interpreter *)

Local Open Scope result_scope.

Definition vchFalse : valtype := [].
Definition vchTrue : valtype := [1].
Definition vchBool (b : bool) : valtype := if b then vchTrue else vchFalse.

(** What changes from one instruction to the next. *)
Record eval_state := {
  stack : list valtype;
  altstack : list valtype;
  vfExec : list bool;           (* the innermost conditional first *)
  nOpCount : Z;
  pbegincodehash : CScript;
  pc : CScript
}.

Definition set_stack (st : eval_state) (s : list valtype) : eval_state :=
  {| stack := s; altstack := altstack st; vfExec := vfExec st; nOpCount := nOpCount st;
     pbegincodehash := pbegincodehash st; pc := pc st |}.
Definition set_altstack (st : eval_state) (s : list valtype) : eval_state :=
  {| stack := stack st; altstack := s; vfExec := vfExec st; nOpCount := nOpCount st;
     pbegincodehash := pbegincodehash st; pc := pc st |}.
Definition set_vfExec (st : eval_state) (v : list bool) : eval_state :=
  {| stack := stack st; altstack := altstack st; vfExec := v; nOpCount := nOpCount st;
     pbegincodehash := pbegincodehash st; pc := pc st |}.
Definition set_nOpCount (st : eval_state) (k : Z) : eval_state :=
  {| stack := stack st; altstack := altstack st; vfExec := vfExec st; nOpCount := k;
     pbegincodehash := pbegincodehash st; pc := pc st |}.
Definition set_pbegincodehash (st : eval_state) (p : CScript) : eval_state :=
  {| stack := stack st; altstack := altstack st; vfExec := vfExec st; nOpCount := nOpCount st;
     pbegincodehash := p; pc := pc st |}.
Definition set_pc (st : eval_state) (p : CScript) : eval_state :=
  {| stack := stack st; altstack := altstack st; vfExec := vfExec st; nOpCount := nOpCount st;
     pbegincodehash := pbegincodehash st; pc := p |}.

(** A number on the stack; the exception is caught. *)
Definition script_num (vch : valtype) (fRequireMinimal : bool) : eval Z :=
  match CScriptNum vch fRequireMinimal with
  | None => Err SCRIPT_ERR_UNKNOWN_ERROR
  | Some v => Ok v
  end.

Definition opcode_in (opcode : Z) (l : list Z) : bool := existsb (Z.eqb opcode) l.

Definition disabled_opcodes : list Z :=
  [OP_CAT; OP_SUBSTR; OP_LEFT; OP_RIGHT; OP_INVERT; OP_AND; OP_OR; OP_XOR; OP_2MUL; OP_2DIV;
   OP_MUL; OP_DIV; OP_MOD; OP_LSHIFT; OP_RSHIFT].

(** ** Control *)

Definition op_if (opcode : Z) (fExec : bool) (st : eval_state) : eval eval_state :=
  if fExec then
    match stack st with
    | [] => Err SCRIPT_ERR_UNBALANCED_CONDITIONAL
    | vch :: s =>
        let fValue := CastToBool vch in
        let fValue := if opcode =? OP_NOTIF then negb fValue else fValue in
        Ok (set_vfExec (set_stack st s) (fValue :: vfExec st))
    end
  else Ok (set_vfExec st (false :: vfExec st)).

Definition op_else (st : eval_state) : eval eval_state :=
  match vfExec st with
  | [] => Err SCRIPT_ERR_UNBALANCED_CONDITIONAL
  | b :: v => Ok (set_vfExec st (negb b :: v))
  end.

Definition op_endif (st : eval_state) : eval eval_state :=
  match vfExec st with
  | [] => Err SCRIPT_ERR_UNBALANCED_CONDITIONAL
  | _ :: v => Ok (set_vfExec st v)
  end.

(** ** Stack operations

    The operations that rearrange the stack, by what they do to it. *)

Definition stack_op (opcode : Z) (fRequireMinimal : bool) (s : list valtype) : eval (list valtype) :=
  let short := Err SCRIPT_ERR_INVALID_STACK_OPERATION in
  if opcode =? OP_2DROP then
    match s with _ :: _ :: s => Ok s | _ => short end
  else if opcode =? OP_2DUP then
    match s with x2 :: x1 :: _ => Ok (x2 :: x1 :: s) | _ => short end
  else if opcode =? OP_3DUP then
    match s with x3 :: x2 :: x1 :: _ => Ok (x3 :: x2 :: x1 :: s) | _ => short end
  else if opcode =? OP_2OVER then
    match s with _ :: _ :: x2 :: x1 :: _ => Ok (x2 :: x1 :: s) | _ => short end
  else if opcode =? OP_2ROT then
    match s with
    | x6 :: x5 :: x4 :: x3 :: x2 :: x1 :: s => Ok (x2 :: x1 :: x6 :: x5 :: x4 :: x3 :: s)
    | _ => short
    end
  else if opcode =? OP_2SWAP then
    match s with x4 :: x3 :: x2 :: x1 :: s => Ok (x2 :: x1 :: x4 :: x3 :: s) | _ => short end
  else if opcode =? OP_IFDUP then
    match s with x :: _ => Ok (if CastToBool x then x :: s else s) | _ => short end
  else if opcode =? OP_DEPTH then Ok (serialize (Z.of_nat (length s)) :: s)
  else if opcode =? OP_DROP then
    match s with _ :: s => Ok s | _ => short end
  else if opcode =? OP_DUP then
    match s with x :: _ => Ok (x :: s) | _ => short end
  else if opcode =? OP_NIP then
    match s with x2 :: _ :: s => Ok (x2 :: s) | _ => short end
  else if opcode =? OP_OVER then
    match s with _ :: x1 :: _ => Ok (x1 :: s) | _ => short end
  else if (opcode =? OP_PICK) || (opcode =? OP_ROLL) then
    match s with
    | top :: (_ :: _) as s =>
        v <-! script_num top fRequireMinimal ;;
        let n := getint v in
        if (n <? 0) || (Z.of_nat (length s) <=? n) then short
        else
          let vch := nth (Z.to_nat n) s [] in
          Ok (vch :: if opcode =? OP_ROLL then delete (Z.to_nat n) s else s)
    | _ => short
    end
  else if opcode =? OP_ROT then
    match s with x3 :: x2 :: x1 :: s => Ok (x1 :: x3 :: x2 :: s) | _ => short end
  else if opcode =? OP_SWAP then
    match s with x2 :: x1 :: s => Ok (x1 :: x2 :: s) | _ => short end
  else if opcode =? OP_TUCK then
    match s with x2 :: x1 :: s => Ok (x2 :: x1 :: x2 :: s) | _ => short end
  else (* [OP_SIZE] *)
    match s with x :: _ => Ok (serialize (zlen x) :: s) | _ => short end.

Definition stack_opcodes : list Z :=
  [OP_2DROP; OP_2DUP; OP_3DUP; OP_2OVER; OP_2ROT; OP_2SWAP; OP_IFDUP; OP_DEPTH; OP_DROP; OP_DUP;
   OP_NIP; OP_OVER; OP_PICK; OP_ROLL; OP_ROT; OP_SWAP; OP_TUCK; OP_SIZE].

Definition op_equal (opcode : Z) (s : list valtype) : eval (list valtype) :=
  match s with
  | vch2 :: vch1 :: s =>
      let fEqual := bool_decide (vch1 = vch2) in
      if opcode =? OP_EQUALVERIFY
      then if fEqual then Ok s else Err SCRIPT_ERR_EQUALVERIFY
      else Ok (vchBool fEqual :: s)
  | _ => Err SCRIPT_ERR_INVALID_STACK_OPERATION
  end.

(** ** Numbers *)

Definition b2z (b : bool) : Z := if b then 1 else 0.

Definition unary_op (opcode bn : Z) : Z :=
  if opcode =? OP_1ADD then bn + 1
  else if opcode =? OP_1SUB then bn - 1
  else if opcode =? OP_NEGATE then - bn
  else if opcode =? OP_ABS then if bn <? 0 then - bn else bn
  else if opcode =? OP_NOT then b2z (bn =? 0)
  else (* [OP_0NOTEQUAL] *) b2z (negb (bn =? 0)).

Definition unary_opcodes : list Z := [OP_1ADD; OP_1SUB; OP_NEGATE; OP_ABS; OP_NOT; OP_0NOTEQUAL].

Definition op_unary (opcode : Z) (fRequireMinimal : bool) (s : list valtype) : eval (list valtype) :=
  match s with
  | x :: s =>
      bn <-! script_num x fRequireMinimal ;; Ok (serialize (unary_op opcode bn) :: s)
  | _ => Err SCRIPT_ERR_INVALID_STACK_OPERATION
  end.

Definition binary_op (opcode bn1 bn2 : Z) : Z :=
  if opcode =? OP_ADD then bn1 + bn2
  else if opcode =? OP_SUB then bn1 - bn2
  else if opcode =? OP_BOOLAND then b2z (negb (bn1 =? 0) && negb (bn2 =? 0))
  else if opcode =? OP_BOOLOR then b2z (negb (bn1 =? 0) || negb (bn2 =? 0))
  else if opcode =? OP_NUMEQUAL then b2z (bn1 =? bn2)
  else if opcode =? OP_NUMEQUALVERIFY then b2z (bn1 =? bn2)
  else if opcode =? OP_NUMNOTEQUAL then b2z (negb (bn1 =? bn2))
  else if opcode =? OP_LESSTHAN then b2z (bn1 <? bn2)
  else if opcode =? OP_GREATERTHAN then b2z (bn2 <? bn1)
  else if opcode =? OP_LESSTHANOREQUAL then b2z (bn1 <=? bn2)
  else if opcode =? OP_GREATERTHANOREQUAL then b2z (bn2 <=? bn1)
  else if opcode =? OP_MIN then if bn1 <? bn2 then bn1 else bn2
  else (* [OP_MAX] *) if bn2 <? bn1 then bn1 else bn2.

Definition binary_opcodes : list Z :=
  [OP_ADD; OP_SUB; OP_BOOLAND; OP_BOOLOR; OP_NUMEQUAL; OP_NUMEQUALVERIFY; OP_NUMNOTEQUAL;
   OP_LESSTHAN; OP_GREATERTHAN; OP_LESSTHANOREQUAL; OP_GREATERTHANOREQUAL; OP_MIN; OP_MAX].

Definition op_binary (opcode : Z) (fRequireMinimal : bool) (s : list valtype) : eval (list valtype) :=
  match s with
  | x2 :: x1 :: s =>
      bn1 <-! script_num x1 fRequireMinimal ;;
      bn2 <-! script_num x2 fRequireMinimal ;;
      let vch := serialize (binary_op opcode bn1 bn2) in
      if opcode =? OP_NUMEQUALVERIFY
      then if CastToBool vch then Ok s else Err SCRIPT_ERR_NUMEQUALVERIFY
      else Ok (vch :: s)
  | _ => Err SCRIPT_ERR_INVALID_STACK_OPERATION
  end.

Definition op_within (fRequireMinimal : bool) (s : list valtype) : eval (list valtype) :=
  match s with
  | x3 :: x2 :: x1 :: s =>
      bn1 <-! script_num x1 fRequireMinimal ;;
      bn2 <-! script_num x2 fRequireMinimal ;;
      bn3 <-! script_num x3 fRequireMinimal ;;
      Ok (vchBool ((bn2 <=? bn1) && (bn1 <? bn3)) :: s)
  | _ => Err SCRIPT_ERR_INVALID_STACK_OPERATION
  end.

(** ** Hashes *)

Definition hash_opcodes : list Z := [OP_RIPEMD160; OP_SHA1; OP_SHA256; OP_HASH160; OP_HASH256].

Definition script_hash (opcode : Z) (vch : valtype) : valtype :=
  if opcode =? OP_RIPEMD160 then ripemd160_bytes vch
  else if opcode =? OP_SHA1 then sha1_bytes vch
  else if opcode =? OP_SHA256 then sha256_bytes vch
  else if opcode =? OP_HASH160 then Hash160_pieces [vch]
  else (* [OP_HASH256] *) Hash256_pieces [vch].

Definition op_hash (opcode : Z) (s : list valtype) : eval (list valtype) :=
  match s with
  | vch :: s => Ok (script_hash opcode vch :: s)
  | _ => Err SCRIPT_ERR_INVALID_STACK_OPERATION
  end.

(** ** Signatures *)

Section Eval.
Context (lib : secp256k1) (flags : Z).
(** [BaseSignatureChecker::CheckSig]. *)
Context (CheckSig : valtype -> valtype -> CScript -> bool).

Definition fRequireMinimal : bool := has_flag flags SCRIPT_VERIFY_MINIMALDATA.

Definition IsLowDERSignature (vchSig : valtype) : eval unit :=
  if negb (IsValidSignatureEncoding vchSig) then Err SCRIPT_ERR_SIG_DER
  else if negb (CheckLowS lib (take (length vchSig - 1) vchSig)) then Err SCRIPT_ERR_SIG_HIGH_S
  else Ok tt.

Definition CheckSignatureEncoding (vchSig : valtype) : eval unit :=
  if (length vchSig =? 0)%nat then Ok tt
  else if has_flag flags (Z.lor (Z.lor SCRIPT_VERIFY_DERSIG SCRIPT_VERIFY_LOW_S) SCRIPT_VERIFY_STRICTENC)
          && negb (IsValidSignatureEncoding vchSig)
  then Err SCRIPT_ERR_SIG_DER
  else
    _ <-! (if has_flag flags SCRIPT_VERIFY_LOW_S then IsLowDERSignature vchSig else Ok tt) ;;
    if has_flag flags SCRIPT_VERIFY_STRICTENC && negb (IsDefinedHashtypeSignature vchSig)
    then Err SCRIPT_ERR_SIG_HASHTYPE
    else Ok tt.

Definition CheckPubKeyEncoding (vchPubKey : valtype) : eval unit :=
  if has_flag flags SCRIPT_VERIFY_STRICTENC && negb (IsCompressedOrUncompressedPubKey vchPubKey)
  then Err SCRIPT_ERR_PUBKEYTYPE
  else Ok tt.

(** [scriptCode.FindAndDelete(CScript(vchSig))]. *)
Definition drop_signature (scriptCode : CScript) (vchSig : valtype) : CScript :=
  (FindAndDelete scriptCode (push_data [] vchSig)).1.

Definition op_checksig (opcode : Z) (st : eval_state) : eval eval_state :=
  match stack st with
  | vchPubKey :: vchSig :: s =>
      let scriptCode := drop_signature (pbegincodehash st) vchSig in
      _ <-! CheckSignatureEncoding vchSig ;;
      _ <-! CheckPubKeyEncoding vchPubKey ;;
      let fSuccess := CheckSig vchSig vchPubKey scriptCode in
      if opcode =? OP_CHECKSIGVERIFY
      then if fSuccess then Ok (set_stack st s) else Err SCRIPT_ERR_CHECKSIGVERIFY
      else Ok (set_stack st (vchBool fSuccess :: s))
  | _ => Err SCRIPT_ERR_INVALID_STACK_OPERATION
  end.

(** [while (fSuccess && nSigsCount > 0)]: the keys and signatures left, those
    nearest the top of the stack first.  A turn takes a key.  There are never fewer
    keys than signatures, so that the keys do not run out first. *)
Fixpoint multisig_loop (keys sigs : list valtype) (scriptCode : CScript) : eval bool :=
  match sigs with
  | [] => Ok true
  | vchSig :: sigs' =>
      match keys with
      | [] => Ok false
      | vchPubKey :: keys' =>
          _ <-! CheckSignatureEncoding vchSig ;;
          _ <-! CheckPubKeyEncoding vchPubKey ;;
          let fOk := CheckSig vchSig vchPubKey scriptCode in
          let sigs := if fOk then sigs' else sigs in
          if (length keys' <? length sigs)%nat then Ok false
          else multisig_loop keys' sigs scriptCode
      end
  end.

Definition op_checkmultisig (opcode : Z) (st : eval_state) : eval eval_state :=
  let s := stack st in
  let short := Err SCRIPT_ERR_INVALID_STACK_OPERATION in
  match s with
  | [] => short
  | top :: _ =>
      v <-! script_num top fRequireMinimal ;;
      let nKeysCount := getint v in
      if (nKeysCount <? 0) || (20 <? nKeysCount) then Err SCRIPT_ERR_PUBKEY_COUNT
      else
        let nOpCount := nOpCount st + nKeysCount in
        if 201 <? nOpCount then Err SCRIPT_ERR_OP_COUNT
        else
          let nk := Z.to_nat nKeysCount in
          if (length s <? 2 + nk)%nat then short
          else
            w <-! script_num (nth (1 + nk) s []) fRequireMinimal ;;
            let nSigsCount := getint w in
            if (nSigsCount <? 0) || (nKeysCount <? nSigsCount) then Err SCRIPT_ERR_SIG_COUNT
            else
              let ns := Z.to_nat nSigsCount in
              if (length s <? 3 + nk + ns)%nat then short
              else
                let keys := take nk (drop 1 s) in
                let sigs := take ns (drop (2 + nk) s) in
                let scriptCode := fold_left drop_signature sigs (pbegincodehash st) in
                fSuccess <-! multisig_loop keys sigs scriptCode ;;
                match drop (2 + nk + ns) s with
                | [] => short
                | dummy :: s =>
                    if has_flag flags SCRIPT_VERIFY_NULLDUMMY && negb (length dummy =? 0)%nat
                    then Err SCRIPT_ERR_SIG_NULLDUMMY
                    else
                      let st := set_nOpCount st nOpCount in
                      if opcode =? OP_CHECKMULTISIGVERIFY
                      then if fSuccess then Ok (set_stack st s) else Err SCRIPT_ERR_CHECKMULTISIGVERIFY
                      else Ok (set_stack st (vchBool fSuccess :: s))
                end
  end.

(** ** One instruction *)

Definition on_stack (st : eval_state) (r : eval (list valtype)) : eval eval_state :=
  s <-! r ;; Ok (set_stack st s).

(** [switch (opcode)]; [pc st] is past the instruction. *)
Definition exec_opcode (opcode : Z) (fExec : bool) (st : eval_state) : eval eval_state :=
  let s := stack st in
  if (opcode =? OP_1NEGATE) || ((OP_1 <=? opcode) && (opcode <=? OP_16))
  then Ok (set_stack st (serialize (opcode - (OP_1 - 1)) :: s))
  else if opcode =? OP_NOP then Ok st
  else if (OP_NOP1 <=? opcode) && (opcode <=? OP_NOP10) then
    if has_flag flags SCRIPT_VERIFY_DISCOURAGE_UPGRADABLE_NOPS
    then Err SCRIPT_ERR_DISCOURAGE_UPGRADABLE_NOPS else Ok st
  else if (opcode =? OP_IF) || (opcode =? OP_NOTIF) then op_if opcode fExec st
  else if opcode =? OP_ELSE then op_else st
  else if opcode =? OP_ENDIF then op_endif st
  else if opcode =? OP_VERIFY then
    match s with
    | [] => Err SCRIPT_ERR_INVALID_STACK_OPERATION
    | x :: s => if CastToBool x then Ok (set_stack st s) else Err SCRIPT_ERR_VERIFY
    end
  else if opcode =? OP_RETURN then Err SCRIPT_ERR_OP_RETURN
  else if opcode =? OP_TOALTSTACK then
    match s with
    | [] => Err SCRIPT_ERR_INVALID_STACK_OPERATION
    | x :: s => Ok (set_altstack (set_stack st s) (x :: altstack st))
    end
  else if opcode =? OP_FROMALTSTACK then
    match altstack st with
    | [] => Err SCRIPT_ERR_INVALID_ALTSTACK_OPERATION
    | x :: a => Ok (set_altstack (set_stack st (x :: s)) a)
    end
  else if opcode_in opcode stack_opcodes then on_stack st (stack_op opcode fRequireMinimal s)
  else if (opcode =? OP_EQUAL) || (opcode =? OP_EQUALVERIFY) then on_stack st (op_equal opcode s)
  else if opcode_in opcode unary_opcodes then on_stack st (op_unary opcode fRequireMinimal s)
  else if opcode_in opcode binary_opcodes then on_stack st (op_binary opcode fRequireMinimal s)
  else if opcode =? OP_WITHIN then on_stack st (op_within fRequireMinimal s)
  else if opcode_in opcode hash_opcodes then on_stack st (op_hash opcode s)
  else if opcode =? OP_CODESEPARATOR then Ok (set_pbegincodehash st (pc st))
  else if (opcode =? OP_CHECKSIG) || (opcode =? OP_CHECKSIGVERIFY) then op_checksig opcode st
  else if (opcode =? OP_CHECKMULTISIG) || (opcode =? OP_CHECKMULTISIGVERIFY)
  then op_checkmultisig opcode st
  else Err SCRIPT_ERR_BAD_OPCODE.

(** The body of [while (pc < pend)]. *)
Definition eval_step (st : eval_state) : eval eval_state :=
  let fExec := forallb id (vfExec st) in
  let r := GetOp (pc st) in
  if negb (fRet r) then Err SCRIPT_ERR_BAD_OPCODE
  else
    let opcode := opcodeRet r in
    let vchPushValue := vchRet r in
    let st := set_pc st (pc_next r) in
    if MAX_SCRIPT_ELEMENT_SIZE <? zlen vchPushValue then Err SCRIPT_ERR_PUSH_SIZE
    else
      let st := if OP_16 <? opcode then set_nOpCount st (nOpCount st + 1) else st in
      if (OP_16 <? opcode) && (201 <? nOpCount st) then Err SCRIPT_ERR_OP_COUNT
      else if opcode_in opcode disabled_opcodes then Err SCRIPT_ERR_DISABLED_OPCODE
      else
        st <-! (if fExec && (opcode <=? OP_PUSHDATA4) then
                  if fRequireMinimal && negb (CheckMinimalPush vchPushValue opcode)
                  then Err SCRIPT_ERR_MINIMALDATA
                  else Ok (set_stack st (vchPushValue :: stack st))
                else if fExec || ((OP_IF <=? opcode) && (opcode <=? OP_ENDIF))
                then exec_opcode opcode fExec st
                else Ok st) ;;
        if (1000 <? length (stack st) + length (altstack st))%nat then Err SCRIPT_ERR_STACK_SIZE
        else Ok st.

(** One turn of the loop, or its end. *)
Definition eval_turn (st : eval_state) : eval_state + eval (list valtype) :=
  match pc st with
  | [] =>
      inr (if (length (vfExec st) =? 0)%nat then Ok (stack st)
           else Err SCRIPT_ERR_UNBALANCED_CONDITIONAL)
  | _ :: _ =>
      match eval_step st with
      | Ok st => inl st
      | Err e => inr (Err e)
      end
  end.

Definition eval_init (s : list valtype) (script : CScript) : eval_state :=
  {| stack := s; altstack := []; vfExec := []; nOpCount := 0; pbegincodehash := script; pc := script |}.

(** Every turn takes at least a byte off [pc]; [None] if the fuel ran out. *)
Definition EvalScript (s : list valtype) (script : CScript) : option (eval (list valtype)) :=
  if 10000 <? zlen script then Some (Err SCRIPT_ERR_SCRIPT_SIZE)
  else run_loop eval_turn (S (length script)) (eval_init s script).

(** ** Verification of an input *)

(** An evaluation whose fuel is taken to be enough; see [EvalScript_total]. *)
Definition run_script (s : list valtype) (script : CScript) : eval (list valtype) :=
  default (Err SCRIPT_ERR_UNKNOWN_ERROR) (EvalScript s script).

(** The test of the top element. *)
Definition check_top (s : list valtype) : eval unit :=
  match s with
  | [] => Err SCRIPT_ERR_EVAL_FALSE
  | x :: _ => if CastToBool x then Ok tt else Err SCRIPT_ERR_EVAL_FALSE
  end.

(** [assert(!stackCopy.empty())] has no error of its own; see
    [VerifyScript_p2sh]. *)
Definition VerifyScript (scriptSig scriptPubKey : CScript) : eval unit :=
  if has_flag flags SCRIPT_VERIFY_SIGPUSHONLY && negb (IsPushOnly scriptSig)
  then Err SCRIPT_ERR_SIG_PUSHONLY
  else
    stackCopy <-! run_script [] scriptSig ;;
    s <-! run_script stackCopy scriptPubKey ;;
    _ <-! check_top s ;;
    if has_flag flags SCRIPT_VERIFY_P2SH && IsPayToScriptHash scriptPubKey then
      if negb (IsPushOnly scriptSig) then Err SCRIPT_ERR_SIG_PUSHONLY
      else
        match stackCopy with
        | [] => Err SCRIPT_ERR_UNKNOWN_ERROR
        | pubKeySerialized :: stackCopy =>
            s <-! run_script stackCopy pubKeySerialized ;; check_top s
        end
    else Ok tt.
End Eval.

(** * Lemmas *)

(** ** Sizes of elements *)

Lemma length_serialize_loop f a : (length (serialize_loop f a) <= f)%nat.
Proof.
  revert a. induction f as [|f IH]; intros a; cbn [serialize_loop]; [done|].
  destruct (a =? 0); cbn [length]; [lia|]. specialize (IH (Z.shiftr a 8)). lia.
Qed.

Lemma length_serialize v : (length (serialize v) <= 9)%nat.
Proof.
  unfold serialize, set_back. destruct (v =? 0); [cbn; lia|].
  pose proof (length_serialize_loop 8 (u64 (if v <? 0 then - v else v))).
  repeat case_match; rewrite ?length_app, ?length_insert; cbn [length]; lia.
Qed.

(** The compression functions keep the length of the state. *)
Lemma length_fold_blocks h k :
  (forall s c, length s = k -> length (Transform h s c) = k) ->
  forall n s m, length s = k -> length (fold_blocks h n s m) = k.
Proof.
  intros H n. induction n as [|n IH]; intros s m Hs; cbn [fold_blocks]; [done|]. by apply IH, H.
Qed.

Lemma length_write_word be n x : length (write_word be n x) = n.
Proof. unfold write_word. destruct be; by rewrite ?length_rev, length_le_bytes. Qed.

Lemma length_digest h m :
  (forall s c, length s = length (Initialize h) -> length (Transform h s c) = length (Initialize h)) ->
  length (digest h m) = (word_bytes h * length (Initialize h))%nat.
Proof.
  intros H. unfold digest, output. pose proof (length_fold_blocks h _ H
    (length (padded h m) / block h) (Initialize h) (padded h m) eq_refl) as Hl.
  revert Hl. generalize (fold_blocks h (length (padded h m) / block h) (Initialize h) (padded h m)).
  intros s <-. induction s as [|x s IH]; [cbn; lia|].
  cbn [mbind list_bind]. rewrite length_app, IH, length_write_word. cbn [length]. lia.
Qed.

Lemma length_sha_transform p s c : length s = 8%nat -> length (sha_transform p s c) = 8%nat.
Proof.
  intros Hs. unfold sha_transform. destruct (sha_rounds _ _ _ _ _) as [[[[[[[? ?] ?] ?] ?] ?] ?] ?].
  by rewrite length_zip_with, Hs.
Qed.

Lemma length_sha1_transform s c : length s = 5%nat -> length (sha1_transform s c) = 5%nat.
Proof.
  intros Hs. unfold sha1_transform. destruct (sha1_rounds _ _ _ _) as [[[[? ?] ?] ?] ?].
  by rewrite length_zip_with, Hs.
Qed.

Lemma length_rmd_transform s c : length s = 5%nat -> length (rmd_transform s c) = 5%nat.
Proof.
  intros Hs. unfold rmd_transform. destruct (rmd_line rmd_left _ _ _ _) as [[[[? ?] ?] ?] ?].
  by destruct (rmd_line rmd_right _ _ _ _) as [[[[? ?] ?] ?] ?].
Qed.

(** A hash of something in memory. *)
Lemma hash_one_piece h junk m :
  h ∈ [CSHA256; CSHA1; CRIPEMD160] -> length junk = 64%nat -> Z.of_nat (length m) < 2 ^ 61 ->
  hash_of_pieces h junk [m] = digest h m.
Proof.
  intros Hh Hj Hm. rewrite <- (app_nil_r m) at 2. change (m ++ []) with (concat [m]).
  assert (Hl : Z.of_nat (length (concat [m])) < 2 ^ 61) by (cbn; by rewrite app_nil_r).
  rewrite !elem_of_cons, elem_of_nil in Hh.
  destruct Hh as [->|[->|[->|[]]]]; apply pieces_digest; try done; cbn; lia || apply divide_64.
Qed.

Lemma length_script_hash op m :
  Z.of_nat (length m) < 2 ^ 61 -> (length (script_hash op m) <= 32)%nat.
Proof.
  intros Hm.
  assert (H256 : forall m, Z.of_nat (length m) < 2 ^ 61 -> length (hash_of_pieces CSHA256 junk64 [m]) = 32%nat).
  { intros m' Hm'. rewrite hash_one_piece by (done || set_solver). rewrite length_digest; [done|].
    apply length_sha_transform. }
  assert (H160 : forall m, Z.of_nat (length m) < 2 ^ 61 -> length (hash_of_pieces CRIPEMD160 junk64 [m]) = 20%nat).
  { intros m' Hm'. rewrite hash_one_piece by (done || set_solver). rewrite length_digest; [done|].
    apply length_rmd_transform. }
  unfold script_hash, ripemd160_bytes, sha1_bytes, Hash160_pieces, Hash256_pieces,
    ripemd160_bytes, sha256_bytes.
  repeat case_match.
  - rewrite H160 by done. lia.
  - rewrite hash_one_piece by (done || set_solver). rewrite length_digest; [cbn; lia|apply length_sha1_transform].
  - rewrite H256 by done. lia.
  - rewrite H160; [lia|]. rewrite H256 by done. lia.
  - rewrite H256; [lia|]. rewrite H256 by done. lia.
Qed.

(** An element within [MAX_SCRIPT_ELEMENT_SIZE]. *)
Definition small (v : valtype) : Prop := zlen v <= MAX_SCRIPT_ELEMENT_SIZE.

Lemma small_le v k : (length v <= k)%nat -> (k <= 520)%nat -> small v.
Proof. unfold small, zlen, MAX_SCRIPT_ELEMENT_SIZE. lia. Qed.

Lemma small_serialize v : small (serialize v).
Proof. apply (small_le _ 9); [apply length_serialize|lia]. Qed.

Lemma small_hash op v : small v -> small (script_hash op v).
Proof.
  unfold small at 1, zlen, MAX_SCRIPT_ELEMENT_SIZE. intros H.
  apply (small_le _ 32); [apply length_script_hash|]; lia.
Qed.

Lemma small_bool b : small (vchBool b).
Proof. by destruct b. Qed.

Lemma small_nil : small []. Proof. done. Qed.
#[local] Hint Resolve small_serialize small_hash small_bool small_nil : core.

Lemma Forall_nth_small i s : Forall small s -> small (nth i s []).
Proof.
  intros H. destruct (Nat.lt_ge_cases i (length s)); [|by rewrite nth_overflow].
  eapply Forall_forall in H; [exact H|]. by apply list_elem_of_In, nth_In.
Qed.

Lemma Forall_delete {A} (P : A -> Prop) i l : Forall P l -> Forall P (delete i l).
Proof. intros H. rewrite delete_take_drop. apply Forall_app. auto using Forall_take, Forall_drop. Qed.

Ltac invert_small :=
  repeat match goal with
  | H : Forall small (_ :: _) |- _ => apply Forall_cons in H as [? H]
  | H : rbind _ _ = Ok _ |- _ => apply rbind_ok in H as (? & ? & H)
  | H : Ok _ = Ok _ |- _ => apply Ok_inj in H; subst
  | H : Err _ = Ok _ |- _ => discriminate H
  | H : context [match ?x with _ => _ end] |- _ =>
      lazymatch type of H with _ = Ok _ => destruct x eqn:?; try discriminate H end
  end.

Lemma stack_op_small op m s s' : stack_op op m s = Ok s' -> Forall small s -> Forall small s'.
Proof.
  unfold stack_op. intros H Hs.
  repeat (destruct (_ =? _) in H at 1); invert_small; repeat case_match;
    repeat (apply Forall_cons; split); auto using Forall_nth_small, Forall_delete.
Qed.

(** ** What an instruction keeps *)

Section EvalLemmas.
Context (lib : secp256k1) (flags : Z) (CheckSig : valtype -> valtype -> CScript -> bool).
Implicit Types (st : eval_state) (s : list valtype).

Definition elements_small st : Prop := Forall small (stack st) /\ Forall small (altstack st).

(** [pc] stays, and small elements give small elements. *)
Definition keeps st (r : eval eval_state) : Prop :=
  forall st', r = Ok st' -> pc st' = pc st /\ (elements_small st -> elements_small st').

Ltac fold_keeps st := match goal with |- forall st', ?r = Ok st' -> _ => change (keeps st r) end.

Lemma keeps_err st e : keeps st (Err e).
Proof. by intros st' H. Qed.

Lemma keeps_set_stack st s : (elements_small st -> Forall small s) -> keeps st (Ok (set_stack st s)).
Proof. intros H st' E. apply Ok_inj in E. subst. split; [done|]. intros He. split; [auto|by destruct He]. Qed.

Lemma keeps_on_stack st r :
  (forall s', r = Ok s' -> Forall small (stack st) -> Forall small s') -> keeps st (on_stack st r).
Proof.
  intros H. destruct r as [s'|e]; [|apply keeps_err]. apply keeps_set_stack. intros [Hs _]. eauto.
Qed.
#[local] Hint Resolve keeps_err : core.

Lemma op_equal_small op s s' : op_equal op s = Ok s' -> Forall small s -> Forall small s'.
Proof. unfold op_equal. intros H Hs. invert_small; auto. Qed.

Lemma op_unary_small op m s s' : op_unary op m s = Ok s' -> Forall small s -> Forall small s'.
Proof. unfold op_unary. intros H Hs. invert_small; auto. Qed.

Lemma op_binary_small op m s s' : op_binary op m s = Ok s' -> Forall small s -> Forall small s'.
Proof. unfold op_binary. intros H Hs. invert_small; auto. Qed.

Lemma op_within_small m s s' : op_within m s = Ok s' -> Forall small s -> Forall small s'.
Proof. unfold op_within. intros H Hs. invert_small; auto. Qed.

Lemma op_hash_small op s s' : op_hash op s = Ok s' -> Forall small s -> Forall small s'.
Proof. unfold op_hash. intros H Hs. invert_small; auto. Qed.

Lemma op_if_keeps op fE st : keeps st (op_if op fE st).
Proof.
  unfold op_if. destruct fE; [destruct (stack st) eqn:E; [auto|]|].
  - intros st' H. apply Ok_inj in H. subst. split; [done|]. intros [Hs Ha]. rewrite E in Hs.
    apply Forall_cons in Hs as [_ Hs]. done.
  - intros st' H. apply Ok_inj in H. by subst.
Qed.

Lemma op_else_keeps st : keeps st (op_else st).
Proof. unfold op_else. destruct (vfExec st); [auto|]. intros st' H. apply Ok_inj in H. by subst. Qed.

Lemma op_endif_keeps st : keeps st (op_endif st).
Proof. unfold op_endif. destruct (vfExec st); [auto|]. intros st' H. apply Ok_inj in H. by subst. Qed.

Lemma op_checksig_keeps op st : keeps st (op_checksig lib flags CheckSig op st).
Proof.
  unfold op_checksig. destruct (stack st) as [|k [|sg s]] eqn:E; [auto..|]. intros st' H.
  apply rbind_ok in H as (? & _ & H). apply rbind_ok in H as (? & _ & H).
  assert (Hs : elements_small st -> Forall small s).
  { intros [Hs _]. rewrite E in Hs. by do 2 apply Forall_cons in Hs as [_ Hs]. }
  revert st' H. fold_keeps st. destruct (op =? OP_CHECKSIGVERIFY).
  - destruct (CheckSig _ _ _); [|auto]. by apply keeps_set_stack.
  - apply keeps_set_stack. intros H. constructor; auto.
Qed.

Lemma op_checkmultisig_keeps op st : keeps st (op_checkmultisig lib flags CheckSig op st).
Proof.
  unfold op_checkmultisig. destruct (stack st) as [|top s] eqn:E; [auto|]. rewrite <- E.
  intros st' H. apply rbind_ok in H as (v & _ & H).
  destruct ((getint v <? 0) || _); [done|]. destruct (201 <? _); [done|].
  destruct (_ <? _)%nat; [done|]. apply rbind_ok in H as (w & _ & H).
  destruct ((getint w <? 0) || _); [done|]. destruct (_ <? _)%nat; [done|].
  apply rbind_ok in H as (b & _ & H). destruct (drop _ (stack st)) as [|dummy s'] eqn:Ed; [done|].
  destruct (has_flag _ _ && _); [done|].
  assert (Hs : elements_small st -> Forall small s').
  { intros [Hs _]. apply (Forall_drop _ (2 + Z.to_nat (getint v) + Z.to_nat (getint w))) in Hs.
    rewrite Ed in Hs. by apply Forall_cons in Hs as [_ Hs]. }
  revert st' H. generalize (nOpCount st + getint v). intros k.
  assert (G : forall s'', (elements_small st -> Forall small s'') ->
    keeps st (Ok (set_stack (set_nOpCount st k) s''))).
  { intros s'' Hs'' st' H. apply Ok_inj in H. subst. split; [done|]. intros He.
    split; [by apply Hs''|by destruct He]. }
  fold_keeps st. destruct (op =? OP_CHECKMULTISIGVERIFY).
  - destruct b; [by apply G|auto].
  - apply G. intros H. constructor; auto.
Qed.

Lemma exec_opcode_keeps op fE st : keeps st (exec_opcode lib flags CheckSig op fE st).
Proof.
  assert (Hid : keeps st (Ok st)) by (intros st' H; apply Ok_inj in H; by subst).
  unfold exec_opcode.
  destruct (_ || _); [apply keeps_set_stack; intros [Hs _]; by constructor|].
  destruct (op =? OP_NOP); [done|]. destruct (_ && _); [by destruct (has_flag _ _)|].
  destruct (_ || _); [apply op_if_keeps|]. destruct (_ =? _); [apply op_else_keeps|].
  destruct (_ =? _); [apply op_endif_keeps|].
  destruct (_ =? _).
  { destruct (stack st) as [|x s] eqn:E; [auto|]. destruct (CastToBool x); [|auto].
    apply keeps_set_stack. intros [Hs _]. rewrite E in Hs. by apply Forall_cons in Hs as [_ Hs]. }
  destruct (_ =? _); [auto|].
  destruct (_ =? _).
  { destruct (stack st) as [|x s] eqn:E; [auto|]. intros st' H. apply Ok_inj in H. subst.
    split; [done|]. intros [Hs Ha]. rewrite E in Hs. apply Forall_cons in Hs as [Hx Hs].
    split; [done|by constructor]. }
  destruct (_ =? _).
  { destruct (altstack st) as [|x a] eqn:E; [auto|]. intros st' H. apply Ok_inj in H. subst.
    split; [done|]. intros [Hs Ha]. rewrite E in Ha. apply Forall_cons in Ha as [Hx Ha].
    split; [by constructor|done]. }
  destruct (opcode_in _ _); [apply keeps_on_stack, stack_op_small|].
  destruct (_ || _); [apply keeps_on_stack, op_equal_small|].
  destruct (opcode_in _ _); [apply keeps_on_stack, op_unary_small|].
  destruct (opcode_in _ _); [apply keeps_on_stack, op_binary_small|].
  destruct (_ =? _); [apply keeps_on_stack, op_within_small|].
  destruct (opcode_in _ _); [apply keeps_on_stack, op_hash_small|].
  destruct (_ =? _); [intros st' H; apply Ok_inj in H; by subst|].
  destruct (_ || _); [apply op_checksig_keeps|].
  destruct (_ || _); [apply op_checkmultisig_keeps|auto].
Qed.

(** An instruction shortens [pc], and leaves no more than a thousand elements. *)
Lemma eval_step_keeps st st' :
  eval_step lib flags CheckSig st = Ok st' ->
  fRet (GetOp (pc st)) = true /\ pc st' = pc_next (GetOp (pc st)) /\
  (elements_small st -> elements_small st') /\
  (length (stack st') + length (altstack st') <= 1000)%nat.
Proof.
  unfold eval_step. destruct (fRet (GetOp (pc st))); [|done]. cbn [negb].
  destruct (Z.ltb_spec MAX_SCRIPT_ELEMENT_SIZE (zlen (vchRet (GetOp (pc st))))) as [|Hp]; [done|].
  set (st1 := if OP_16 <? _ then _ else _). intros H.
  assert (E1 : pc st1 = pc_next (GetOp (pc st)) /\ stack st1 = stack st /\ altstack st1 = altstack st)
    by (unfold st1; by destruct (OP_16 <? _)). clearbody st1.
  destruct ((OP_16 <? _) && _); [done|]. destruct (opcode_in _ _); [done|].
  apply rbind_ok in H as (st2 & H2 & H). destruct (Nat.ltb_spec 1000 (length (stack st2) + length (altstack st2))); [done|].
  apply Ok_inj in H. subst st2.
  assert (K : keeps st1 (if forallb id (vfExec st) && (opcodeRet (GetOp (pc st)) <=? OP_PUSHDATA4)
     then if fRequireMinimal flags && negb (CheckMinimalPush (vchRet (GetOp (pc st))) (opcodeRet (GetOp (pc st))))
          then Err SCRIPT_ERR_MINIMALDATA else Ok (set_stack st1 (vchRet (GetOp (pc st)) :: stack st1))
     else if forallb id (vfExec st) || ((OP_IF <=? opcodeRet (GetOp (pc st))) && (opcodeRet (GetOp (pc st)) <=? OP_ENDIF))
     then exec_opcode lib flags CheckSig (opcodeRet (GetOp (pc st))) (forallb id (vfExec st)) st1 else Ok st1)).
  { destruct (_ && (_ <=? OP_PUSHDATA4)).
    - destruct (_ && negb _); [auto|]. apply keeps_set_stack. intros [Hs _]. by constructor.
    - destruct (_ || _); [apply exec_opcode_keeps|]. intros st2 E. apply Ok_inj in E. by subst. }
  destruct (K _ H2) as [Epc Hsm]. destruct E1 as (E1 & E2 & E3).
  split_and!; [done|by rewrite Epc|..|done].
  unfold elements_small in *. rewrite E2, E3 in Hsm. exact Hsm.
Qed.

(** ** Running a script *)

(** The loop from a state, with fuel that is enough. *)
Definition eval_from st : option (eval (list valtype)) :=
  run_loop (eval_turn lib flags CheckSig) (S (length (pc st))) st.

Lemma eval_turn_measure st st' :
  eval_turn lib flags CheckSig st = inl st' -> (length (pc st') < length (pc st))%nat.
Proof.
  unfold eval_turn. destruct (pc st) as [|b p] eqn:E; [done|].
  destruct (eval_step lib flags CheckSig st) as [st2|] eqn:E2; [|done]. intros [= ->].
  apply eval_step_keeps in E2 as (Hf & -> & _). rewrite E in *. by apply GetOp_next_lt.
Qed.

Lemma eval_from_total st : is_Some (eval_from st).
Proof.
  unfold eval_from. eapply (run_loop_total _ (fun _ => True) (fun st => length (pc st))); [|done|lia].
  intros s s' _ H. split; [done|by apply eval_turn_measure].
Qed.

Lemma eval_from_done st :
  pc st = [] ->
  eval_from st = Some (if (length (vfExec st) =? 0)%nat then Ok (stack st)
                       else Err SCRIPT_ERR_UNBALANCED_CONDITIONAL).
Proof. intros E. unfold eval_from. rewrite E. cbn [length run_loop]. unfold eval_turn. by rewrite E. Qed.

Lemma eval_from_step st :
  pc st <> [] ->
  eval_from st = match eval_step lib flags CheckSig st with
                 | Ok st' => eval_from st'
                 | Err e => Some (Err e)
                 end.
Proof.
  intros Hne. unfold eval_from at 1. cbn [run_loop].
  destruct (eval_turn lib flags CheckSig st) as [st'|r] eqn:Et.
  - pose proof (eval_turn_measure _ _ Et) as Hm. unfold eval_turn in Et.
    destruct (pc st) as [|b p] eqn:Ep; [done|].
    destruct (eval_step lib flags CheckSig st) as [st2|]; [|done]. injection Et as ->.
    destruct (eval_from_total st') as [r Hr]. rewrite Hr. unfold eval_from in Hr.
    eapply run_loop_mono; [exact Hr|]. lia.
  - unfold eval_turn in Et. destruct (pc st) as [|b p] eqn:Ep; [done|].
    destruct (eval_step lib flags CheckSig st) as [st2|]; [done|]. by injection Et as <-.
Qed.

(** Induction on the run of a script that succeeds. *)
Lemma eval_from_inv (I : eval_state -> Prop) st s :
  (forall st st', I st -> eval_step lib flags CheckSig st = Ok st' -> I st') ->
  I st -> eval_from st = Some (Ok s) -> exists st', I st' /\ stack st' = s /\ vfExec st' = [].
Proof.
  intros Hstep HI H. unfold eval_from in H.
  set (Q := fun r : eval (list valtype) => match r with
    | Ok s => exists st', I st' /\ stack st' = s /\ vfExec st' = [] | Err _ => True end).
  change (Q (Ok s)). eapply (run_loop_inv _ I Q); [| |exact HI|exact H];
    intros st1 x HI1 Ht; unfold eval_turn in Ht.
  - destruct (pc st1); [done|]. destruct (eval_step lib flags CheckSig st1) eqn:E; [|done].
    injection Ht as <-. eauto.
  - destruct (pc st1); [|destruct (eval_step lib flags CheckSig st1); [done|by injection Ht as <-]].
    injection Ht as <-. destruct (vfExec st1) eqn:Ev; [|done]. cbn. eauto.
Qed.

Lemma EvalScript_from s script :
  EvalScript lib flags CheckSig s script =
    if 10000 <? zlen script then Some (Err SCRIPT_ERR_SCRIPT_SIZE) else eval_from (eval_init s script).
Proof. done. Qed.

Lemma run_script_from s script r :
  zlen script <= 10000 -> eval_from (eval_init s script) = Some r ->
  run_script lib flags CheckSig s script = r.
Proof.
  intros Hl Hr. unfold run_script. rewrite EvalScript_from.
  by rewrite (proj2 (Z.ltb_ge 10000 _)), Hr by done.
Qed.

Lemma run_script_ok s script s' :
  run_script lib flags CheckSig s script = Ok s' ->
  zlen script <= 10000 /\ eval_from (eval_init s script) = Some (Ok s').
Proof.
  unfold run_script. rewrite EvalScript_from. destruct (Z.ltb_spec 10000 (zlen script)); [done|].
  destruct (eval_from (eval_init s script)) as [r|]; [|done]. intros E. cbn in E. by subst r.
Qed.
End EvalLemmas.

(** ** Symbolic execution *)

Section Steps.
Context (lib : secp256k1) (flags : Z) (CheckSig : valtype -> valtype -> CScript -> bool).
Implicit Types (st : eval_state) (s : list valtype).

Abbreviation eval_step' := (eval_step lib flags CheckSig).
Abbreviation eval_from' := (eval_from lib flags CheckSig).

(** The end of a step: the limit on the stacks. *)
Definition limit_stacks (r : eval eval_state) : eval eval_state :=
  st <-! r ;;
  if (1000 <? length (stack st) + length (altstack st))%nat then Err SCRIPT_ERR_STACK_SIZE else Ok st.

Lemma not_disabled_push op : op <= OP_PUSHDATA4 -> opcode_in op disabled_opcodes = false.
Proof.
  intros H. apply not_true_iff_false. intros [x [Hx E%Z.eqb_eq]]%existsb_exists.
  subst. revert Hx H. unfold OP_PUSHDATA4. cbn. intros Hx H.
  repeat destruct Hx as [<-|Hx]; vm_compute in H; done.
Qed.

Lemma eval_step_push st op v rest :
  GetOp (pc st) = {| fRet := true; opcodeRet := op; vchRet := v; pc_next := rest |} ->
  op <= OP_PUSHDATA4 -> small v -> forallb id (vfExec st) = true ->
  (fRequireMinimal flags = true -> CheckMinimalPush v op = true) ->
  eval_step' st = limit_stacks (Ok (set_stack (set_pc st rest) (v :: stack st))).
Proof.
  intros E Hop Hv Hx Hm. unfold eval_step. rewrite E. cbn [fRet opcodeRet vchRet pc_next negb].
  destruct (Z.ltb_spec MAX_SCRIPT_ELEMENT_SIZE (zlen v)); [unfold small in Hv; lia|].
  assert (H16 : (OP_16 <? op) = false) by (apply Z.ltb_ge; unfold OP_16, OP_PUSHDATA4 in *; lia).
  rewrite H16, not_disabled_push, Hx by done. cbn [andb]. rewrite (proj2 (Z.leb_le op OP_PUSHDATA4)) by done.
  destruct (fRequireMinimal flags); [by rewrite Hm|done].
Qed.

Lemma eval_step_op st op rest :
  pc st = op :: rest -> OP_16 < op -> opcode_in op disabled_opcodes = false ->
  nOpCount st < 201 -> forallb id (vfExec st) = true ->
  eval_step' st = limit_stacks (exec_opcode lib flags CheckSig op true
    (set_nOpCount (set_pc st rest) (nOpCount st + 1))).
Proof.
  intros E Hop Hd Hn Hx. unfold eval_step. rewrite E, GetOp_cons.
  assert (Hp : (op <=? OP_PUSHDATA4) = false) by (apply Z.leb_gt; unfold OP_16, OP_PUSHDATA4 in *; lia).
  rewrite Hp. cbn [fRet opcodeRet vchRet pc_next negb].
  change (MAX_SCRIPT_ELEMENT_SIZE <? zlen []) with false. rewrite (proj2 (Z.ltb_lt _ _) Hop).
  cbv iota. unfold set_nOpCount at 1. cbn [nOpCount set_pc].
  rewrite (proj2 (Z.ltb_ge 201 _)) by lia. cbn [andb]. rewrite Hd, Hx. cbn [andb orb]. by rewrite Hp.
Qed.

(** A push of two to seventy-five bytes is minimal. *)
Lemma minimal_direct_push b :
  2 <= zlen b <= 75 -> CheckMinimalPush b (push_opcode_of (zlen b)) = true.
Proof.
  intros Hb. unfold CheckMinimalPush, push_opcode_of, OP_PUSHDATA1.
  destruct (Z.eqb_spec (zlen b) 0); [lia|]. destruct (Z.eqb_spec (zlen b) 1); [lia|]. cbn [andb].
  rewrite (proj2 (Z.leb_le (zlen b) 75)), (proj2 (Z.ltb_lt (zlen b) 0x4c)) by lia. apply Z.eqb_refl.
Qed.

Lemma direct_push b :
  zlen b <= 75 -> push_data [] b = zlen b :: b /\ push_opcode_of (zlen b) = zlen b.
Proof.
  intros Hb. unfold push_data, push_opcode_of. fold (zlen b).
  by rewrite (proj2 (Z.ltb_lt (zlen b) OP_PUSHDATA1)) by (unfold OP_PUSHDATA1; lia).
Qed.

Lemma GetOp_direct_push b rest :
  zlen b <= 75 ->
  GetOp (push_data [] b ++ rest) =
    {| fRet := true; opcodeRet := zlen b; vchRet := b; pc_next := rest |}.
Proof.
  intros Hb. destruct (push_data_spec [] b) as (p & E & H); [unfold zlen in Hb; lia|].
  rewrite E. cbn [app]. rewrite H. f_equal. by apply direct_push.
Qed.

(** Direct pushes of two to seventy-five bytes, run from any stack with room. *)
Lemma eval_from_pushes bs st :
  Forall (fun b => 2 <= zlen b <= 75) bs -> vfExec st = [] ->
  pc st = concat (map (push_data []) bs) ->
  (length (stack st) + length (altstack st) + length bs <= 1000)%nat ->
  eval_from' st = Some (Ok (rev bs ++ stack st)).
Proof.
  intros Hbs. revert st. induction Hbs as [|b bs Hb Hbs IH]; intros st Hx Hpc Hl.
  { rewrite eval_from_done by done. by rewrite Hx. }
  cbn [map concat length] in *. destruct (direct_push b) as [Ep Eo]; [lia|].
  rewrite eval_from_step by (rewrite Hpc, Ep; done).
  rewrite (eval_step_push st (zlen b) b (concat (map (push_data []) bs))).
  - unfold limit_stacks. cbn [rbind].
    destruct (Nat.ltb_spec 1000 (length (b :: stack st) + length (altstack st))) as [H|_]; [cbn [length] in H; lia|].
    cbn [stack altstack set_stack set_pc] in *. cbn [length].
    destruct (Nat.ltb_spec 1000 (S (length (stack st)) + length (altstack st))); [lia|].
    rewrite IH; [|done|done|cbn [stack altstack set_stack set_pc length]; lia].
    cbn [rev stack set_stack]. by rewrite <- app_assoc.
  - rewrite Hpc. apply GetOp_direct_push. lia.
  - unfold OP_PUSHDATA4. lia.
  - unfold small, MAX_SCRIPT_ELEMENT_SIZE. lia.
  - by rewrite Hx.
  - intros _. rewrite <- Eo. by apply minimal_direct_push.
Qed.
End Steps.

(** ** Standard outputs *)

(** [OP_DUP OP_HASH160 <hash> OP_EQUALVERIFY OP_CHECKSIG]. *)
Definition p2pkh (h : valtype) : CScript :=
  [OP_DUP; OP_HASH160; 20] ++ h ++ [OP_EQUALVERIFY; OP_CHECKSIG].

(** [OP_HASH160 <hash> OP_EQUAL]. *)
Definition p2sh (h : valtype) : CScript := [OP_HASH160; 20] ++ h ++ [OP_EQUAL].

#[local] Strategy opaque [Hash160_pieces Hash256_pieces hash_of_pieces].

Section Standard.
Context (lib : secp256k1) (flags : Z) (CheckSig : valtype -> valtype -> CScript -> bool).
Implicit Types (st : eval_state) (s : list valtype) (h : valtype).

Abbreviation eval_from' := (eval_from lib flags CheckSig).
Abbreviation exec' := (exec_opcode lib flags CheckSig).

(** Instructions with a stack effect: the state after, or the error. *)
Lemma eval_from_op st op rest st' :
  pc st = op :: rest -> OP_16 < op -> opcode_in op disabled_opcodes = false ->
  nOpCount st < 201 -> vfExec st = [] ->
  exec' op true (set_nOpCount (set_pc st rest) (nOpCount st + 1)) = Ok st' ->
  (length (stack st') + length (altstack st') <= 1000)%nat ->
  eval_from' st = eval_from' st'.
Proof.
  intros E Hop Hd Hn Hx He Hl. rewrite eval_from_step by (by rewrite E).
  rewrite (eval_step_op lib flags CheckSig st op rest) by (done || by rewrite Hx).
  rewrite He. unfold limit_stacks. cbn [rbind].
  by destruct (Nat.ltb_spec 1000 (length (stack st') + length (altstack st'))); [lia|].
Qed.

Lemma eval_from_op_err st op rest e :
  pc st = op :: rest -> OP_16 < op -> opcode_in op disabled_opcodes = false ->
  nOpCount st < 201 -> vfExec st = [] ->
  exec' op true (set_nOpCount (set_pc st rest) (nOpCount st + 1)) = Err e ->
  eval_from' st = Some (Err e).
Proof.
  intros E Hop Hd Hn Hx He. rewrite eval_from_step by (by rewrite E).
  rewrite (eval_step_op lib flags CheckSig st op rest) by (done || by rewrite Hx). by rewrite He.
Qed.

Lemma eval_step_push20 st h rest :
  pc st = 20 :: h ++ rest -> length h = 20%nat -> vfExec st = [] ->
  eval_step lib flags CheckSig st = limit_stacks (Ok (set_stack (set_pc st rest) (h :: stack st))).
Proof.
  intros E Hh Hx. assert (Hz : zlen h = 20) by (unfold zlen; by rewrite Hh).
  apply (eval_step_push lib flags CheckSig st 20 h rest).
  - rewrite E. apply (GetOp_data 20 [] h rest); [done|]. unfold operand_size. cbn [app].
    change (20 <? OP_PUSHDATA1) with true. cbv iota. by rewrite Hh.
  - done.
  - unfold small, MAX_SCRIPT_ELEMENT_SIZE. lia.
  - by rewrite Hx.
  - intros _. rewrite <- (minimal_direct_push h) by lia. f_equal. by rewrite Hz.
Qed.

Lemma eval_from_push20 st h rest :
  pc st = 20 :: h ++ rest -> length h = 20%nat -> vfExec st = [] ->
  (length (stack st) + length (altstack st) < 1000)%nat ->
  eval_from' st = eval_from' (set_stack (set_pc st rest) (h :: stack st)).
Proof.
  intros E Hh Hx Hl. rewrite eval_from_step by (by rewrite E). rewrite (eval_step_push20 st h rest) by done.
  unfold limit_stacks. cbn [rbind stack altstack set_stack set_pc length].
  by destruct (Nat.ltb_spec 1000 (S (length (stack st)) + length (altstack st))); [lia|].
Qed.

(** The opcodes of the standard outputs, by their stack effects. *)
Lemma exec_dup st x s : stack st = x :: s -> exec' OP_DUP true st = Ok (set_stack st (x :: x :: s)).
Proof.
  intros E. change (exec' OP_DUP true st) with (on_stack st (stack_op OP_DUP (fRequireMinimal flags) (stack st))).
  by rewrite E.
Qed.

Lemma exec_hash160 st x s :
  stack st = x :: s -> exec' OP_HASH160 true st = Ok (set_stack st (Hash160_pieces [x] :: s)).
Proof.
  intros E. change (exec' OP_HASH160 true st) with (on_stack st (op_hash OP_HASH160 (stack st))).
  by rewrite E.
Qed.

Lemma exec_equalverify st x y s :
  stack st = x :: y :: s ->
  exec' OP_EQUALVERIFY true st =
    if bool_decide (y = x) then Ok (set_stack st s) else Err SCRIPT_ERR_EQUALVERIFY.
Proof.
  intros E. change (exec' OP_EQUALVERIFY true st) with (on_stack st (op_equal OP_EQUALVERIFY (stack st))).
  rewrite E. unfold op_equal. rewrite Z.eqb_refl. by destruct (bool_decide (y = x)).
Qed.

Lemma exec_equal st x y s :
  stack st = x :: y :: s -> exec' OP_EQUAL true st = Ok (set_stack st (vchBool (bool_decide (y = x)) :: s)).
Proof.
  intros E. change (exec' OP_EQUAL true st) with (on_stack st (op_equal OP_EQUAL (stack st))).
  by rewrite E.
Qed.

(** The verdict on a signature and a key. *)
Definition checksig_result (sig pk : valtype) (scriptCode : CScript) : eval bool :=
  _ <-! CheckSignatureEncoding lib flags sig ;;
  _ <-! CheckPubKeyEncoding flags pk ;; Ok (CheckSig sig pk scriptCode).

Lemma exec_checksig st pk sig s :
  stack st = pk :: sig :: s ->
  exec' OP_CHECKSIG true st =
    (b <-! checksig_result sig pk (drop_signature (pbegincodehash st) sig) ;;
     Ok (set_stack st (vchBool b :: s))).
Proof.
  intros E. change (exec' OP_CHECKSIG true st) with (op_checksig lib flags CheckSig OP_CHECKSIG st).
  unfold op_checksig, checksig_result. rewrite E.
  destruct (CheckSignatureEncoding lib flags sig) as [[]|]; [|done]. cbn [rbind].
  by destruct (CheckPubKeyEncoding flags pk) as [[]|].
Qed.

Lemma eval_from_p2pkh h pk sig s :
  length h = 20%nat -> (length s <= 900)%nat ->
  eval_from' (eval_init (pk :: sig :: s) (p2pkh h)) =
    Some (if bool_decide (Hash160_pieces [pk] = h)
          then b <-! checksig_result sig pk (drop_signature (p2pkh h) sig) ;; Ok (vchBool b :: s)
          else Err SCRIPT_ERR_EQUALVERIFY).
Proof.
  intros Hh Hs.
  erewrite eval_from_op; [|reflexivity..|by apply exec_dup|cbn; lia].
  erewrite eval_from_op; [|reflexivity..|by apply exec_hash160|cbn; lia].
  erewrite eval_from_push20; [|reflexivity|done|reflexivity|cbn; lia].
  cbn [set_stack set_pc set_nOpCount stack altstack vfExec nOpCount pbegincodehash pc eval_init].
  destruct (bool_decide (Hash160_pieces [pk] = h)) eqn:E.
  2: { erewrite eval_from_op_err; [reflexivity|reflexivity..|].
       erewrite exec_equalverify by reflexivity. by rewrite E. }
  erewrite eval_from_op; [|reflexivity..| |].
  2: { erewrite exec_equalverify by reflexivity. rewrite E. reflexivity. }
  2: { cbn; lia. }
  cbn [set_stack set_pc set_nOpCount stack altstack vfExec nOpCount pbegincodehash pc].
  match goal with |- eval_from' ?st = _ => set (st0 := st) end.
  pose proof (exec_checksig (set_nOpCount (set_pc st0 []) (nOpCount st0 + 1)) pk sig s eq_refl) as Ec.
  change (pbegincodehash (set_nOpCount (set_pc st0 []) (nOpCount st0 + 1))) with (p2pkh h) in Ec.
  destruct (checksig_result sig pk (drop_signature (p2pkh h) sig)) as [b|e]; cbn [rbind] in Ec.
  - erewrite (eval_from_op st0 OP_CHECKSIG [] _ eq_refl eq_refl eq_refl eq_refl eq_refl Ec) by (cbn; lia).
    by rewrite eval_from_done.
  - by rewrite (eval_from_op_err st0 OP_CHECKSIG [] _ eq_refl eq_refl eq_refl eq_refl eq_refl Ec).
Qed.

Lemma eval_from_p2sh h x s :
  length h = 20%nat -> (length s <= 998)%nat ->
  eval_from' (eval_init (x :: s) (p2sh h)) =
    Some (Ok (vchBool (bool_decide (Hash160_pieces [x] = h)) :: s)).
Proof.
  intros Hh Hs.
  erewrite eval_from_op; [|reflexivity..|by apply exec_hash160|cbn; lia].
  erewrite eval_from_push20; [|reflexivity|done|reflexivity|cbn; lia].
  erewrite eval_from_op; [|reflexivity..|by apply exec_equal|cbn; lia].
  by rewrite eval_from_done.
Qed.

(** A run that succeeds found room for every element. *)
Lemma eval_from_ok_step st s :
  eval_from' st = Some (Ok s) -> pc st <> [] ->
  exists st', eval_step lib flags CheckSig st = Ok st' /\ eval_from' st' = Some (Ok s).
Proof.
  intros H Hne. rewrite eval_from_step in H by done.
  destruct (eval_step lib flags CheckSig st) as [st'|]; [by exists st'|done].
Qed.

Lemma eval_from_p2sh_inv h stk s' :
  length h = 20%nat -> eval_from' (eval_init stk (p2sh h)) = Some (Ok s') ->
  exists x s, stk = x :: s /\ (length s <= 998)%nat.
Proof.
  intros Hh H. destruct stk as [|x s].
  { erewrite eval_from_op_err in H; [|reflexivity..]. done. }
  exists x, s. split; [done|].
  apply eval_from_ok_step in H as (st1 & H1 & H); [|done].
  erewrite eval_step_op in H1; [|reflexivity..]. erewrite exec_hash160 in H1 by reflexivity.
  unfold limit_stacks in H1. cbn [rbind] in H1. destruct (1000 <? _)%nat; [done|].
  apply Ok_inj in H1. subst st1. apply eval_from_ok_step in H as (st2 & H2 & _); [|done].
  erewrite eval_step_push20 in H2; [|reflexivity|done|reflexivity]. unfold limit_stacks in H2.
  cbn [rbind stack altstack set_stack set_pc set_nOpCount eval_init length] in H2.
  destruct (Nat.ltb_spec 1000 (S (S (length s)) + 0)); [done|]. lia.
Qed.
End Standard.

(** ** Multisignatures *)

Section Multisig.
Context (lib : secp256k1) (flags : Z) (CheckSig : valtype -> valtype -> CScript -> bool).

(** The signatures match keys in their order. *)
Definition matched (keys sigs : list valtype) (scriptCode : CScript) : Prop :=
  exists keys', keys' `sublist_of` keys /\ Forall2 (fun sig k => CheckSig sig k scriptCode = true) sigs keys'.

Lemma matched_cons_key k keys sigs code : matched keys sigs code -> matched (k :: keys) sigs code.
Proof. intros (l & Hl & HF). exists l. split; [by apply sublist_cons|done]. Qed.

Lemma matched_tail k keys sig sigs code :
  matched (k :: keys) (sig :: sigs) code -> matched keys sigs code.
Proof.
  intros (l & Hl & HF). inversion HF as [|? k' ? l' _ HF' E1 E2]; subst. exists l'. split; [|done].
  apply sublist_cons_r in Hl as [Hl|(l2 & [= -> ->] & Hl)]; [|done].
  etrans; [|exact Hl]. by apply sublist_cons.
Qed.

Lemma matched_step k keys sig sigs code :
  matched (k :: keys) (sig :: sigs) code <->
    matched keys (if CheckSig sig k code then sigs else sig :: sigs) code.
Proof.
  destruct (CheckSig sig k code) eqn:E; split.
  - apply matched_tail.
  - intros (l & Hl & HF). exists (k :: l). split; [by apply sublist_skip|by constructor].
  - intros (l & Hl & HF). apply sublist_cons_r in Hl as [Hl|(l2 & -> & Hl)]; [by exists l|].
    inversion HF; subst. congruence.
  - apply matched_cons_key.
Qed.

Lemma matched_length keys sigs code : matched keys sigs code -> (length sigs <= length keys)%nat.
Proof. intros (l & Hl & HF). apply Forall2_length in HF as ->. by apply sublist_length. Qed.

(** The greedy loop with its early exit decides [matched]. *)
Lemma multisig_loop_matched keys sigs code :
  Forall (fun sig => CheckSignatureEncoding lib flags sig = Ok tt) sigs ->
  Forall (fun k => CheckPubKeyEncoding flags k = Ok tt) keys ->
  exists b, multisig_loop lib flags CheckSig keys sigs code = Ok b /\ (b = true <-> matched keys sigs code).
Proof.
  intros Hs Hk. revert sigs Hs. induction Hk as [|k keys Hk1 Hk IH]; intros [|sig sigs] Hs;
    cbn [multisig_loop].
  - exists true. split; [done|]. split; [intros _; exists []; split; constructor|done].
  - exists false. split; [done|]. split; [done|]. intros H. apply matched_length in H. cbn [length] in H. lia.
  - exists true. split; [done|]. split; [intros _; exists []; split; [apply sublist_nil_l|constructor]|done].
  - apply Forall_cons in Hs as [Hs1 Hs]. rewrite Hs1, Hk1. cbn [rbind].
    assert (Hs2 : Forall (fun sig => CheckSignatureEncoding lib flags sig = Ok tt)
      (if CheckSig sig k code then sigs else sig :: sigs)) by (destruct (CheckSig sig k code); auto).
    setoid_rewrite matched_step. revert Hs2.
    generalize (if CheckSig sig k code then sigs else sig :: sigs). intros sigs2 Hs2.
    destruct (Nat.ltb_spec (length keys) (length sigs2)) as [Hl|Hl]; [|by apply IH].
    exists false. split; [done|]. split; [done|]. intros H. apply matched_length in H. lia.
Qed.

Lemma script_num_size n m : 0 <= n < 2 ^ 31 -> script_num (serialize n) m = Ok n.
Proof.
  intros Hn. unfold script_num. rewrite CScriptNum_serialize by lia.
  by rewrite (proj2 (Z.ltb_lt _ _)) by lia.
Qed.

Lemma getint_size n : 0 <= n < 2 ^ 31 -> getint n = n.
Proof. intros Hn. unfold getint, INT_MAX, INT_MIN. repeat case_match; lia. Qed.

(** The stack [OP_CHECKMULTISIG] expects. *)
Definition multisig_stack (keys sigs : list valtype) (dummy : valtype) (rest : list valtype) : list valtype :=
  serialize (Z.of_nat (length keys)) :: keys ++
  serialize (Z.of_nat (length sigs)) :: sigs ++ dummy :: rest.

Lemma length_multisig_stack keys sigs dummy rest :
  length (multisig_stack keys sigs dummy rest) = (3 + length keys + length sigs + length rest)%nat.
Proof.
  unfold multisig_stack. cbn [length]. rewrite length_app. cbn [length]. rewrite length_app.
  cbn [length]. lia.
Qed.

Lemma multisig_stack_parts keys sigs dummy rest :
  let m := multisig_stack keys sigs dummy rest in
  nth (1 + length keys) m [] = serialize (Z.of_nat (length sigs)) /\
  take (length keys) (drop 1 m) = keys /\
  drop (2 + length keys) m = sigs ++ dummy :: rest /\
  drop (2 + length keys + length sigs) m = dummy :: rest.
Proof.
  unfold multisig_stack.
  assert (E : drop (length keys + 1) (keys ++ serialize (Z.of_nat (length sigs)) :: sigs ++ dummy :: rest)
    = sigs ++ dummy :: rest).
  { rewrite cons_middle, app_assoc. apply drop_app_length'. rewrite length_app. cbn [length]. lia. }
  split_and!.
  - cbn [Nat.add nth]. by rewrite nth_middle.
  - cbn [drop]. by rewrite drop_0, take_app_length.
  - replace (2 + length keys)%nat with (S (length keys + 1)) by lia. cbn [drop]. exact E.
  - replace (2 + length keys + length sigs)%nat with (S (length keys + 1 + length sigs)) by lia.
    cbn [drop]. by rewrite <- drop_drop, E, drop_app_length.
Qed.

Lemma op_checkmultisig_eq op st keys sigs dummy rest :
  stack st = multisig_stack keys sigs dummy rest ->
  (length sigs <= length keys <= 20)%nat -> nOpCount st + Z.of_nat (length keys) <= 201 ->
  op_checkmultisig lib flags CheckSig op st =
    (b <-! multisig_loop lib flags CheckSig keys sigs
             (fold_left drop_signature sigs (pbegincodehash st)) ;;
     if has_flag flags SCRIPT_VERIFY_NULLDUMMY && negb (length dummy =? 0)%nat
     then Err SCRIPT_ERR_SIG_NULLDUMMY
     else
       let st := set_nOpCount st (nOpCount st + Z.of_nat (length keys)) in
       if op =? OP_CHECKMULTISIGVERIFY
       then if b then Ok (set_stack st rest) else Err SCRIPT_ERR_CHECKMULTISIGVERIFY
       else Ok (set_stack st (vchBool b :: rest))).
Proof.
  intros E Hl Hn. unfold op_checkmultisig. rewrite E.
  pose proof (length_multisig_stack keys sigs dummy rest) as Hlen.
  destruct (multisig_stack_parts keys sigs dummy rest) as (En & Ek & Es & Ed).
  set (m := multisig_stack keys sigs dummy rest) in *.
  assert (Em : exists m', m = serialize (Z.of_nat (length keys)) :: m') by (by eexists).
  destruct Em as [m' Em]. rewrite Em at 1. rewrite script_num_size by lia.
  cbn [rbind]. rewrite !getint_size by lia.
  rewrite (proj2 (Z.ltb_ge (Z.of_nat (length keys)) 0)), (proj2 (Z.ltb_ge 20 _)) by lia. cbn [orb].
  rewrite (proj2 (Z.ltb_ge 201 _)) by lia. rewrite Nat2Z.id, Hlen.
  rewrite (proj2 (Nat.ltb_ge _ (2 + _))) by lia.
  rewrite En, script_num_size by lia. cbn [rbind]. rewrite !getint_size by lia.
  rewrite (proj2 (Z.ltb_ge (Z.of_nat (length sigs)) 0)), (proj2 (Z.ltb_ge _ (Z.of_nat (length sigs)))) by lia.
  cbn [orb]. rewrite Nat2Z.id. rewrite (proj2 (Nat.ltb_ge _ (3 + _ + _))) by lia.
  by rewrite Ek, Es, take_app_length, Ed.
Qed.
End Multisig.

(** ** Signature encodings *)

(** The contents of a DER integer that is positive and has no needless zeros. *)
Definition der_int (v : valtype) : Prop :=
  v <> [] /\ high (at_ v 0) = false /\ ((1 < length v)%nat -> at_ v 0 = 0 -> high (at_ v 1) = true).

(** [<30> <total len> <02> <len R> <R> <02> <len S> <S> <hashtype>]. *)
Definition der_signature (r s : valtype) (hashtype : Z) : valtype :=
  [0x30; 4 + zlen r + zlen s; 0x02; zlen r] ++ r ++ [0x02; zlen s] ++ s ++ [hashtype].

Lemma at_app_r l1 l2 i : 0 <= i -> at_ (l1 ++ l2) (zlen l1 + i) = at_ l2 i.
Proof.
  intros Hi. unfold at_, zlen. rewrite Z2Nat.inj_add, Nat2Z.id by lia. by rewrite app_nth2_plus.
Qed.

Lemma at_app_l l1 l2 i : 0 <= i < zlen l1 -> at_ (l1 ++ l2) i = at_ l1 i.
Proof. intros Hi. unfold at_, zlen in *. apply app_nth1. lia. Qed.

Lemma der_int_check v w :
  v <> [] ->
  (high (at_ (v ++ w) 0) = false /\
   (1 <? zlen v) && (at_ (v ++ w) 0 =? 0) && negb (high (at_ (v ++ w) 1)) = false) <-> der_int v.
Proof.
  intros Hv. assert (0 < zlen v) by (destruct v; [done|unfold zlen; cbn [length]; lia]).
  rewrite at_app_l by lia. unfold der_int.
  destruct (Z.ltb_spec 1 (zlen v)) as [H1|H1]; cbn [andb].
  - rewrite at_app_l by lia. assert ((1 < length v)%nat) by (unfold zlen in H1; lia).
    destruct (Z.eqb_spec (at_ v 0) 0), (high (at_ v 1)); cbn [andb negb]; intuition congruence.
  - assert (~ (1 < length v)%nat) by (unfold zlen in H1; lia). intuition congruence.
Qed.

Lemma valid_encoding_form b0 b1 b2 c0 r s ht :
  let sig := [b0; b1; b2; zlen r] ++ r ++ [c0; zlen s] ++ s ++ [ht] in
  IsValidSignatureEncoding sig = true <->
    9 <= zlen sig <= 73 /\ b0 = 0x30 /\ b1 = zlen sig - 3 /\ b2 = 0x02 /\ c0 = 0x02 /\ der_int r /\ der_int s.
Proof.
  intros sig.
  assert (Hl : zlen sig = zlen r + zlen s + 7).
  { unfold sig, zlen. rewrite !length_app. cbn [length]. lia. }
  assert (Hr0 : 0 <= zlen r) by (unfold zlen; lia). assert (Hs0 : 0 <= zlen s) by (unfold zlen; lia).
  set (X := [c0; zlen s] ++ s ++ [ht]).
  assert (A : forall i, 0 <= i -> at_ sig (4 + i) = at_ (r ++ X) i).
  { intros i Hi. apply (at_app_r [b0; b1; b2; zlen r]). done. }
  assert (B : forall i, 0 <= i -> at_ sig (4 + (zlen r + i)) = at_ X i).
  { intros i Hi. rewrite A by lia. by apply at_app_r. }
  assert (C : forall i, 0 <= i -> at_ sig (4 + (zlen r + (2 + i))) = at_ (s ++ [ht]) i).
  { intros i Hi. rewrite B by lia. apply (at_app_r [c0; zlen s]). done. }
  unfold IsValidSignatureEncoding. cbv zeta.
  change (at_ sig 0) with b0. change (at_ sig 1) with b1. change (at_ sig 2) with b2.
  change (at_ sig 3) with (zlen r). change (at_ sig 4) with (at_ sig (4 + 0)).
  change (at_ sig 5) with (at_ sig (4 + 1)). rewrite (A 0), (A 1) by lia.
  assert (B1 : at_ sig (5 + zlen r) = zlen s)
    by (replace (5 + zlen r) with (4 + (zlen r + 1)) by lia; by rewrite (B 1) by lia).
  rewrite !B1. clear B1.
  replace (zlen r + 4) with (4 + (zlen r + 0)) by lia. rewrite (B 0) by lia. change (at_ X 0) with c0.
  replace (zlen r + 6) with (4 + (zlen r + (2 + 0))) by lia. rewrite (C 0) by lia.
  replace (zlen r + 7) with (4 + (zlen r + (2 + 1))) by lia. rewrite (C 1) by lia.
  rewrite Hl. pose proof (der_int_check r X) as Hr. pose proof (der_int_check s [ht]) as Hs.
  assert (Zr : zlen r = 0 <-> r = []) by (destruct r; unfold zlen; cbn [length]; split; [done|done|lia|done]).
  assert (Zs : zlen s = 0 <-> s = []) by (destruct s; unfold zlen; cbn [length]; split; [done|done|lia|done]).
  assert (Dr : der_int r -> r <> []) by (by intros [? _]). assert (Ds : der_int s -> s <> []) by (by intros [? _]).
  revert Hr Hs.
  generalize (high (at_ (r ++ X) 0)) ((1 <? zlen r) && (at_ (r ++ X) 0 =? 0) && negb (high (at_ (r ++ X) 1))).
  generalize (high (at_ (s ++ [ht]) 0)) ((1 <? zlen s) && (at_ (s ++ [ht]) 0 =? 0) && negb (high (at_ (s ++ [ht]) 1))).
  intros hs ps hr pr Hr Hs. clear A B C Hl. clearbody sig X.
  destruct (Z.ltb_spec (zlen r + zlen s + 7) 9); [split; [done|lia]|].
  destruct (Z.ltb_spec 73 (zlen r + zlen s + 7)); [split; [done|lia]|].
  destruct (Z.eqb_spec b0 0x30); cbn [negb]; [|split; [done|tauto]].
  destruct (Z.eqb_spec b1 (zlen r + zlen s + 7 - 3)); cbn [negb]; [|split; [done|tauto]].
  destruct (Z.leb_spec (zlen r + zlen s + 7) (5 + zlen r)); [lia|]. rewrite Z.eqb_refl. cbn [negb].
  destruct (Z.eqb_spec b2 0x02); cbn [negb]; [|split; [done|tauto]].
  destruct (Z.eqb_spec (zlen r) 0); [split; [done|tauto]|].
  destruct hr; [split; [done|intuition congruence]|]. destruct pr; [split; [done|intuition congruence]|].
  destruct (Z.eqb_spec c0 0x02); cbn [negb]; [|split; [done|tauto]].
  destruct (Z.eqb_spec (zlen s) 0); [split; [done|tauto]|].
  destruct hs; [split; [done|intuition congruence]|]. destruct ps; [split; [done|intuition congruence]|].
  split; [|done]. intros _. split_and!; [lia|lia|done..| |]; tauto.
Qed.

Lemma valid_encoding_split sig :
  is_bytes sig -> IsValidSignatureEncoding sig = true ->
  exists b0 b1 b2 c0 r s ht, sig = [b0; b1; b2; zlen r] ++ r ++ [c0; zlen s] ++ s ++ [ht].
Proof.
  intros Hb H. unfold IsValidSignatureEncoding in H.
  destruct (Z.ltb_spec (zlen sig) 9) as [|Hl]; [done|]. destruct (73 <? zlen sig); [done|].
  destruct (negb _); [done|]. destruct (negb _); [done|].
  destruct sig as [|b0 [|b1 [|b2 [|b3 t]]]]; try (unfold zlen in Hl; cbn [length] in Hl; lia).
  change (at_ (b0 :: b1 :: b2 :: b3 :: t) 3) with b3 in H.
  assert (Hb3 : 0 <= b3) by (do 4 (apply Forall_cons in Hb as [? Hb]); wunfold; lia).
  destruct (Z.leb_spec (zlen (b0 :: b1 :: b2 :: b3 :: t)) (5 + b3)) as [|H5]; [done|].
  assert (Ht : zlen (b0 :: b1 :: b2 :: b3 :: t) = 4 + zlen t) by (unfold zlen; cbn [length]; lia).
  rewrite Ht in *. set (r := take (Z.to_nat b3) t).
  assert (Hr : zlen r = b3) by (unfold r, zlen in *; rewrite length_take; lia).
  assert (Et : t = r ++ drop (Z.to_nat b3) t) by (unfold r; by rewrite take_drop).
  destruct (drop (Z.to_nat b3) t) as [|c0 [|c1 t3]] eqn:Ed;
    try (apply (f_equal length) in Ed; rewrite length_drop in Ed; unfold zlen in *; cbn [length] in Ed; lia).
  assert (Ec : at_ (b0 :: b1 :: b2 :: b3 :: t) (5 + b3) = c1).
  { replace (5 + b3) with (4 + (zlen r + 1)) by lia.
    rewrite (at_app_r [b0; b1; b2; b3] t) by lia. rewrite Et. by rewrite at_app_r. }
  rewrite Ec in H. destruct (Z.eqb_spec (b3 + c1 + 7) (4 + zlen t)) as [E|]; [|done].
  assert (Hc : 0 <= c1).
  { do 4 (apply Forall_cons in Hb as [_ Hb]). rewrite Et in Hb. apply words_app in Hb as [_ Hb].
    apply Forall_cons in Hb as [_ Hb]. apply Forall_cons in Hb as [Hc _]. wunfold; lia. }
  assert (H3 : zlen t3 = c1 + 1).
  { rewrite Et in E. unfold zlen in *. rewrite length_app in E. cbn [length] in E. lia. }
  assert (Hne : t3 <> []) by (intros ->; unfold zlen in H3; cbn [length] in H3; lia).
  destruct (exists_last Hne) as (s & ht & ->).
  exists b0, b1, b2, c0, r, s, ht. rewrite Hr.
  assert (Hs : zlen s = c1) by (unfold zlen in *; rewrite length_app in H3; cbn [length] in H3; lia).
  rewrite Hs. cbn [app]. by rewrite Et.
Qed.

(** The lax parser on a body in the strict form. *)
Lemma der_integer_strict v rest :
  zlen v < 128 -> der_integer (0x02 :: zlen v :: v ++ rest) = Some (v, rest).
Proof.
  intros Hv. assert (0 <= zlen v) by (unfold zlen; lia). cbn [der_integer der_length].
  rewrite land_80 by lia. rewrite (proj2 (Z.ltb_lt (zlen v) 128)) by lia. cbn [negb Z.eqb].
  assert (E : (Z.of_nat (length (v ++ rest)) <? zlen v) = false).
  { apply Z.ltb_ge. rewrite length_app. unfold zlen. lia. }
  rewrite E. unfold zlen. by rewrite Nat2Z.id, take_app_length, drop_app_length.
Qed.

Lemma der_rs_strict r s ht :
  zlen (der_signature r s ht) <= 73 ->
  der_rs (take (length (der_signature r s ht) - 1) (der_signature r s ht)) = Some (r, s).
Proof.
  intros Hl.
  assert (Ez : zlen (der_signature r s ht) = zlen r + zlen s + 7).
  { unfold der_signature, zlen. rewrite !length_app. cbn [length]. lia. }
  assert (0 <= zlen r) by (unfold zlen; lia). assert (0 <= zlen s) by (unfold zlen; lia).
  assert (E : der_signature r s ht =
    (0x30 :: 4 + zlen r + zlen s :: 0x02 :: zlen r :: r ++ 0x02 :: zlen s :: s ++ []) ++ [ht]).
  { unfold der_signature. cbn [app]. rewrite <- app_assoc. cbn [app]. by rewrite app_nil_r. }
  rewrite E at 2. rewrite E, length_app. cbn [length]. rewrite Nat.add_sub, take_app_length' by done.
  unfold der_rs. cbn [der_sequence]. rewrite land_80 by lia.
  rewrite (proj2 (Z.ltb_lt _ 128)) by lia. cbn [negb Z.eqb].
  by rewrite der_integer_strict, der_integer_strict by lia.
Qed.

(** ** Standard outputs, continued *)

Lemma one_instruction_push b : zlen b <= 75 -> one_instruction (push_data [] b).
Proof.
  intros Hb. pose proof (GetOp_direct_push b [] Hb) as E. rewrite app_nil_r in E.
  split; by rewrite E.
Qed.

(** A signature longer than the hash is not in the output script. *)
Lemma drop_signature_p2pkh h sig :
  length h = 20%nat -> 20 < zlen sig <= 75 -> drop_signature (p2pkh h) sig = p2pkh h.
Proof.
  intros Hh Hs. unfold drop_signature. rewrite FindAndDelete_absent; [done| |].
  - apply one_instruction_push. lia.
  - destruct (direct_push sig) as [-> _]; [lia|].
    assert (Hz : zlen h = 20) by (unfold zlen; by rewrite Hh).
    assert (L : forall x, (length x <= 21)%nat -> x <> zlen sig :: sig).
    { intros x Hx ->. cbn [length] in Hx. unfold zlen in Hs. lia. }
    unfold p2pkh. cbn [app]. rewrite !parse_op by done.
    change (20 :: h ++ [OP_EQUALVERIFY; OP_CHECKSIG]) with ((20 :: h) ++ [OP_EQUALVERIFY; OP_CHECKSIG]).
    rewrite (parse_push (20 :: h) 20 h [OP_EQUALVERIFY; OP_CHECKSIG]).
    + cbn [fst]. rewrite !parse_op by done. cbn [fst].
      repeat (apply Forall_cons; split; [cbn [i_raw]; apply L; cbn [length]; lia|]). constructor.
    + intros q. pose proof (GetOp_direct_push h q) as E. rewrite Hz in E.
      destruct (direct_push h) as [Ep _]; [lia|]. rewrite Ep, Hz in E. apply E. lia.
Qed.

Lemma push_only_pushes bs :
  Forall (fun b => zlen b <= 75) bs -> IsPushOnly (concat (map (push_data []) bs)) = true.
Proof.
  intros H. apply push_only_loop_spec; [done|]. induction H as [|b bs Hb Hbs [IH1 IH2]]; [by split; [|constructor]|].
  cbn [map concat]. rewrite (parse_push (push_data [] b) (zlen b) b) by (intros; by apply GetOp_direct_push).
  cbn [fst snd]. split; [done|]. constructor; [|done]. cbn [i_opcode]. unfold OP_16. lia.
Qed.

(** * The properties *)

(** C25 Evaluation always comes to an end (a byte of the script is read at each turn),
    and from a stack within the limits it leaves one within the limits: at most a
    thousand elements, none longer than 520 bytes. *)
Theorem EvalScript_total_bounded lib flags CheckSig s script :
  Forall small s -> (length s <= 1000)%nat ->
  exists r, EvalScript lib flags CheckSig s script = Some r /\
    forall s', r = Ok s' -> Forall small s' /\ (length s' <= 1000)%nat.
Proof.
  intros Hs Hl. rewrite EvalScript_from. destruct (10000 <? zlen script); [by eexists|].
  destruct (eval_from_total lib flags CheckSig (eval_init s script)) as [r Hr].
  exists r. split; [done|]. intros s' ->.
  set (I := fun st => elements_small st /\ (length (stack st) + length (altstack st) <= 1000)%nat).
  assert (H0 : I (eval_init s script)) by (split; [split; [exact Hs|by apply Forall_nil]|cbn; lia]).
  assert (Hstep : forall st st', I st -> eval_step lib flags CheckSig st = Ok st' -> I st').
  { intros st st' [He _] Hst. apply eval_step_keeps in Hst as (_ & _ & Hk & Hb). split; [by apply Hk|done]. }
  destruct (eval_from_inv lib flags CheckSig I _ _ Hstep H0 Hr) as (st & [[He _] Hb] & <- & _).
  split; [done|lia].
Qed.

(** A library whose signatures are their bytes, for examples: a signature is right
    when it starts with the first byte of the key. *)
Definition toy_secp : secp256k1 := {|
  secp_pubkey := byte_list;
  secp_signature := byte_list;
  ecdsa_signature_parse_compact bs := (true, bs);
  ec_pubkey_parse := Some;
  ecdsa_signature_normalize s := (false, s);
  ecdsa_verify s h k := at_ s 0 =? at_ k 0;
  ec_pubkey_serialize k compressed := k |}.
Definition toy_checksig (sig k : valtype) (code : CScript) : bool := at_ sig 0 =? at_ k 0.

Lemma EvalScript_total_bounded_witness :
  Forall small [[5]] /\ (length [[5]] <= 1000)%nat /\
  EvalScript toy_secp 0 toy_checksig [[5]] [OP_DUP; OP_ADD; OP_1ADD] = Some (Ok [[11]]) /\
  exists r, EvalScript toy_secp 0 toy_checksig [[5]] [OP_DUP; OP_ADD; OP_1ADD] = Some r /\
    forall s', r = Ok s' -> Forall small s' /\ (length s' <= 1000)%nat.
Proof.
  assert (Hs : Forall small [[5]]) by (repeat constructor; vm_compute; congruence).
  assert (Hl : (length [[5]] <= 1000)%nat) by (cbn; lia).
  split; [exact Hs|]. split; [exact Hl|]. split; [vm_compute; reflexivity|].
  exact (EvalScript_total_bounded toy_secp 0 toy_checksig [[5]] [OP_DUP; OP_ADD; OP_1ADD] Hs Hl).
Defined.

(** An output whose script [IsUnspendable] can be dropped from the unspent outputs:
    it evaluates to an error from every stack, and no input spends it under any flags
    and any signature checker. *)
Theorem unspendable_never_spent lib flags CheckSig s scriptSig scriptPubKey :
  IsUnspendable scriptPubKey = true ->
  (exists e, EvalScript lib flags CheckSig s scriptPubKey = Some (Err e)) /\
  (exists e, VerifyScript lib flags CheckSig scriptSig scriptPubKey = Err e).
Proof.
  intros H. destruct scriptPubKey as [|b script]; [done|]. apply Z.eqb_eq in H as ->.
  assert (G : forall s, exists e, EvalScript lib flags CheckSig s (OP_RETURN :: script) = Some (Err e)).
  { intros s0. rewrite EvalScript_from. destruct (10000 <? _); [by eexists|].
    rewrite (eval_from_op_err lib flags CheckSig _ OP_RETURN script SCRIPT_ERR_OP_RETURN) by done. by eexists. }
  split; [apply G|]. unfold VerifyScript. destruct (_ && _); [by eexists|].
  destruct (run_script lib flags CheckSig [] scriptSig) as [s1|e]; [|by eexists]. cbn [rbind].
  destruct (G s1) as [e E]. unfold run_script. rewrite E. by eexists.
Qed.

Lemma unspendable_never_spent_witness :
  IsUnspendable [OP_RETURN; 1; 7] = true /\
  (exists e, EvalScript toy_secp 0 toy_checksig [[1]] [OP_RETURN; 1; 7] = Some (Err e)) /\
  (exists e, VerifyScript toy_secp 0 toy_checksig [OP_1] [OP_RETURN; 1; 7] = Err e).
Proof.
  split; [reflexivity|].
  exact (unspendable_never_spent toy_secp 0 toy_checksig [[1]] [OP_1] [OP_RETURN; 1; 7] eq_refl).
Defined.

(** Paying to a public key's hash: a signature and a key pushed on an output
    [OP_DUP OP_HASH160 <hash> OP_EQUALVERIFY OP_CHECKSIG] are accepted exactly when the
    key has that hash, both encodings pass the checks of the flags and the checker
    accepts the signature over the output script; the error is the one of the first
    of these that fails. *)
Theorem pay_to_pubkey_hash lib flags CheckSig h pk sig :
  length h = 20%nat -> 20 < zlen sig <= 75 -> 2 <= zlen pk <= 75 ->
  VerifyScript lib flags CheckSig (push_data [] sig ++ push_data [] pk) (p2pkh h) =
    if bool_decide (Hash160_pieces [pk] = h) then
      b <-! checksig_result lib flags CheckSig sig pk (p2pkh h) ;;
      if b then Ok tt else Err SCRIPT_ERR_EVAL_FALSE
    else Err SCRIPT_ERR_EQUALVERIFY.
Proof.
  intros Hh Hs Hp. assert (E : push_data [] sig ++ push_data [] pk = concat (map (push_data []) [sig; pk])).
  { cbn [map concat]. by rewrite app_nil_r. }
  unfold VerifyScript. rewrite E, push_only_pushes by (repeat constructor; lia).
  rewrite andb_false_r.
  assert (El : zlen (concat (map (push_data []) [sig; pk])) = zlen sig + zlen pk + 2).
  { cbn [map concat]. destruct (direct_push sig) as [-> _]; [lia|]. destruct (direct_push pk) as [-> _]; [lia|].
    unfold zlen. rewrite app_nil_r, length_app. cbn [length]. lia. }
  assert (Ep : zlen (p2pkh h) = 25) by (unfold p2pkh, zlen; rewrite !length_app, Hh; done).
  rewrite (run_script_from lib flags CheckSig [] _ (Ok [pk; sig])); [|lia|].
  2: { by rewrite (eval_from_pushes lib flags CheckSig [sig; pk]) by (repeat constructor; cbn; lia). }
  cbn [rbind]. erewrite (run_script_from lib flags CheckSig [pk; sig] (p2pkh h)); [|lia|].
  2: { by rewrite eval_from_p2pkh, drop_signature_p2pkh by (done || cbn; lia). }
  assert (Esh : IsPayToScriptHash (p2pkh h) = false).
  { unfold IsPayToScriptHash. assert (length (p2pkh h) = 25%nat) as -> by (unfold zlen in Ep; lia). done. }
  rewrite Esh, andb_false_r.
  destruct (bool_decide _); [|done]. destruct (checksig_result _ _ _ _ _ _) as [[]|]; done.
Qed.

Definition toy_pk : valtype := [2; 9].
Definition toy_sig : valtype := 2 :: repeat 1 29.

Lemma pay_to_pubkey_hash_witness :
  VerifyScript toy_secp 0 toy_checksig (push_data [] toy_sig ++ push_data [] toy_pk)
    (p2pkh (Hash160_pieces [toy_pk])) = Ok tt /\
  length (Hash160_pieces [toy_pk]) = 20%nat /\ 20 < zlen toy_sig <= 75 /\ 2 <= zlen toy_pk <= 75 /\
  VerifyScript toy_secp 0 toy_checksig (push_data [] toy_sig ++ push_data [] toy_pk)
    (p2pkh (Hash160_pieces [toy_pk])) =
    (if bool_decide (Hash160_pieces [toy_pk] = Hash160_pieces [toy_pk]) then
       b <-! checksig_result toy_secp 0 toy_checksig toy_sig toy_pk (p2pkh (Hash160_pieces [toy_pk])) ;;
       if b then Ok tt else Err SCRIPT_ERR_EVAL_FALSE
     else Err SCRIPT_ERR_EQUALVERIFY).
Proof.
  assert (Hh : length (Hash160_pieces [toy_pk]) = 20%nat) by (vm_compute; reflexivity).
  assert (Hs : 20 < zlen toy_sig <= 75) by (vm_compute; split; congruence).
  assert (Hp : 2 <= zlen toy_pk <= 75) by (vm_compute; split; congruence).
  split; [vm_compute; reflexivity|]. split; [exact Hh|]. split; [exact Hs|]. split; [exact Hp|].
  exact (pay_to_pubkey_hash toy_secp 0 toy_checksig _ toy_pk toy_sig Hh Hs Hp).
Defined.

Lemma p2sh_form script :
  IsPayToScriptHash script = true ->
  exists h, length h = 20%nat /\ script = p2sh h.
Proof.
  unfold IsPayToScriptHash. intros H. apply andb_true_iff in H as [H H3%Z.eqb_eq].
  apply andb_true_iff in H as [H H2%Z.eqb_eq]. apply andb_true_iff in H as [H0%Nat.eqb_eq H1%Z.eqb_eq].
  do 23 (destruct script as [|? script]; [done|]). destruct script; [|done]. cbn [nth] in *. subst.
  match goal with |- context [OP_HASH160 :: 20 :: ?l] => exists (take 20 l) end. done.
Qed.

(** Paying to a script's hash: under [SCRIPT_VERIFY_P2SH] an input for an output of
    this form is accepted exactly when it only pushes, the last thing it leaves on the
    stack has the hash of the output, and this, run as a script on what lies below,
    leaves true on top.  The stack is not empty where the code asserts that it is
    not: from an empty stack the output script fails. *)
Theorem pay_to_script_hash lib flags CheckSig scriptSig scriptPubKey :
  has_flag flags SCRIPT_VERIFY_P2SH = true -> IsPayToScriptHash scriptPubKey = true ->
  run_script lib flags CheckSig [] scriptPubKey = Err SCRIPT_ERR_INVALID_STACK_OPERATION /\
  (VerifyScript lib flags CheckSig scriptSig scriptPubKey = Ok tt <->
   IsPushOnly scriptSig = true /\
   exists redeem s s',
     run_script lib flags CheckSig [] scriptSig = Ok (redeem :: s) /\ (length s <= 998)%nat /\
     Hash160_pieces [redeem] = take 20 (drop 2 scriptPubKey) /\
     run_script lib flags CheckSig s redeem = Ok s' /\ check_top s' = Ok tt).
Proof.
  intros Hf Hp. destruct (p2sh_form _ Hp) as (h & Hh & ->).
  assert (Hl : zlen (p2sh h) <= 10000) by (unfold p2sh, zlen; rewrite !length_app, Hh; cbn; lia).
  assert (Ht : take 20 (drop 2 (p2sh h)) = h) by (unfold p2sh; cbn [app drop]; by apply take_app_length').
  rewrite Ht. split.
  { apply run_script_from; [done|]. by erewrite eval_from_op_err by reflexivity. }
  unfold VerifyScript. rewrite Hf, Hp. cbn [andb]. split.
  - intros H. destruct (has_flag flags SCRIPT_VERIFY_SIGPUSHONLY && negb (IsPushOnly scriptSig)); [done|].
    apply rbind_ok in H as (stk & E1 & H). apply rbind_ok in H as (s1 & E2 & H).
    apply rbind_ok in H as ([] & E3 & H). destruct (IsPushOnly scriptSig); [|done]. split; [done|].
    apply run_script_ok in E2 as [_ E2].
    destruct (eval_from_p2sh_inv lib flags CheckSig h stk s1 Hh E2) as (x & s & -> & Hs).
    rewrite eval_from_p2sh in E2 by done. injection E2 as <-.
    apply rbind_ok in H as (s' & E4 & H). exists x, s, s'. split_and!; [done..| |done|done].
    destruct (bool_decide_reflect (Hash160_pieces [x] = h)); [done|]. by vm_compute in E3.
  - intros (Hpush & x & s & s' & E1 & Hs & Ex & E2 & E3). rewrite Hpush, andb_false_r, E1. cbn [rbind negb].
    rewrite (run_script_from lib flags CheckSig (x :: s) (p2sh h) (Ok (vchTrue :: s))); [|done|].
    2: { rewrite eval_from_p2sh by done. by rewrite bool_decide_eq_true_2. }
    cbn [rbind check_top]. change (CastToBool vchTrue) with true. cbv iota. cbn [rbind]. by rewrite E2.
Qed.

Definition toy_redeem : CScript := [OP_DUP; OP_EQUAL].

Lemma pay_to_script_hash_witness :
  has_flag SCRIPT_VERIFY_P2SH SCRIPT_VERIFY_P2SH = true /\
  IsPayToScriptHash (p2sh (Hash160_pieces [toy_redeem])) = true /\
  VerifyScript toy_secp SCRIPT_VERIFY_P2SH toy_checksig (push_data [OP_1] toy_redeem)
    (p2sh (Hash160_pieces [toy_redeem])) = Ok tt /\
  let spk := p2sh (Hash160_pieces [toy_redeem]) in
  let sig := push_data [OP_1] toy_redeem in
  run_script toy_secp SCRIPT_VERIFY_P2SH toy_checksig [] spk = Err SCRIPT_ERR_INVALID_STACK_OPERATION /\
  (VerifyScript toy_secp SCRIPT_VERIFY_P2SH toy_checksig sig spk = Ok tt <->
   IsPushOnly sig = true /\
   exists redeem s s',
     run_script toy_secp SCRIPT_VERIFY_P2SH toy_checksig [] sig = Ok (redeem :: s) /\ (length s <= 998)%nat /\
     Hash160_pieces [redeem] = take 20 (drop 2 spk) /\
     run_script toy_secp SCRIPT_VERIFY_P2SH toy_checksig s redeem = Ok s' /\ check_top s' = Ok tt).
Proof.
  assert (H1 : has_flag SCRIPT_VERIFY_P2SH SCRIPT_VERIFY_P2SH = true) by reflexivity.
  assert (H2 : IsPayToScriptHash (p2sh (Hash160_pieces [toy_redeem])) = true) by (vm_compute; reflexivity).
  split; [exact H1|]. split; [exact H2|]. split; [vm_compute; reflexivity|].
  exact (pay_to_script_hash toy_secp SCRIPT_VERIFY_P2SH toy_checksig _ _ H1 H2).
Defined.

(** [OP_CHECKMULTISIG] on [m] signatures and [n] keys that pass the encoding checks:
    the greedy pass with its early exit succeeds exactly when the signatures belong,
    in their order, to some [m] of the keys, over the script without any of them; it
    takes off all its arguments and the extra element, and counts the keys as
    operations. *)
Theorem multisig_greedy_correct lib flags CheckSig st keys sigs dummy rest :
  stack st = multisig_stack keys sigs dummy rest ->
  (length sigs <= length keys <= 20)%nat -> nOpCount st + Z.of_nat (length keys) <= 201 ->
  (has_flag flags SCRIPT_VERIFY_NULLDUMMY = true -> dummy = []) ->
  Forall (fun sig => CheckSignatureEncoding lib flags sig = Ok tt) sigs ->
  Forall (fun k => CheckPubKeyEncoding flags k = Ok tt) keys ->
  exists b,
    op_checkmultisig lib flags CheckSig OP_CHECKMULTISIG st =
      Ok (set_stack (set_nOpCount st (nOpCount st + Z.of_nat (length keys))) (vchBool b :: rest)) /\
    (b = true <-> matched CheckSig keys sigs (fold_left drop_signature sigs (pbegincodehash st))).
Proof.
  intros E Hl Hn Hd Hs Hk. rewrite (op_checkmultisig_eq _ _ _ _ _ _ _ _ _ E Hl Hn).
  destruct (multisig_loop_matched lib flags CheckSig keys sigs
    (fold_left drop_signature sigs (pbegincodehash st)) Hs Hk) as (b & -> & Hb).
  exists b. split; [|done]. cbn [rbind].
  destruct (has_flag flags SCRIPT_VERIFY_NULLDUMMY); [|done]. by rewrite Hd.
Qed.

Definition toy_multisig_state : eval_state :=
  eval_init (multisig_stack [[2; 1]; [3; 1]; [4; 1]] [[2; 5]; [4; 5]] [] [[7]]) [OP_CHECKMULTISIG].

Lemma multisig_greedy_correct_witness :
  op_checkmultisig toy_secp 0 toy_checksig OP_CHECKMULTISIG toy_multisig_state =
    Ok (set_stack (set_nOpCount toy_multisig_state 3) [[1]; [7]]) /\
  exists b,
    op_checkmultisig toy_secp 0 toy_checksig OP_CHECKMULTISIG toy_multisig_state =
      Ok (set_stack (set_nOpCount toy_multisig_state 3) (vchBool b :: [[7]])) /\
    (b = true <-> matched toy_checksig [[2; 1]; [3; 1]; [4; 1]] [[2; 5]; [4; 5]]
                    (fold_left drop_signature [[2; 5]; [4; 5]] (pbegincodehash toy_multisig_state))).
Proof.
  split; [vm_compute; reflexivity|].
  exact (multisig_greedy_correct toy_secp 0 toy_checksig toy_multisig_state
    [[2; 1]; [3; 1]; [4; 1]] [[2; 5]; [4; 5]] [] [[7]] eq_refl
    ltac:(cbn; lia) ltac:(cbn; lia) ltac:(intros; reflexivity)
    ltac:(repeat constructor) ltac:(repeat constructor)).
Defined.

(** Signature encodings: [IsValidSignatureEncoding] accepts exactly the DER form of
    two positive integers without needless zeros, with a hash type, of at most 73
    bytes; and of what it accepts the lax parser behind [CPubKey::Verify] reads these
    two integers. *)
Theorem strict_der_signatures sig :
  is_bytes sig ->
  (IsValidSignatureEncoding sig = true <->
     exists r s hashtype, sig = der_signature r s hashtype /\ zlen sig <= 73 /\ der_int r /\ der_int s) /\
  (forall r s hashtype, sig = der_signature r s hashtype -> zlen sig <= 73 ->
     der_rs (take (length sig - 1) sig) = Some (r, s)).
Proof.
  intros Hb. split; [split|].
  - intros H. destruct (valid_encoding_split sig Hb H) as (b0 & b1 & b2 & c0 & r & s & ht & E).
    rewrite E in H. apply valid_encoding_form in H as ([Hl1 Hl2] & -> & E1 & -> & -> & Hr & Hs).
    exists r, s, ht. assert (Hz : forall b, zlen ([48; b; 2; zlen r] ++ r ++ [2; zlen s] ++ s ++ [ht]) = zlen r + zlen s + 7).
    { intros b. unfold zlen. rewrite !length_app. cbn [length]. lia. }
    rewrite Hz in E1. assert (Es : sig = der_signature r s ht).
    { rewrite E. unfold der_signature. do 2 f_equal. f_equal. lia. }
    split_and!; [done| |done|done]. by rewrite E.
  - intros (r & s & ht & -> & Hl & Hr & Hs).
    assert (Hz : zlen (der_signature r s ht) = zlen r + zlen s + 7).
    { unfold der_signature, zlen. rewrite !length_app. cbn [length]. lia. }
    assert (0 < zlen r) by (destruct Hr as [Hr _], r; [done|unfold zlen; cbn [length]; lia]).
    assert (0 < zlen s) by (destruct Hs as [Hs _], s; [done|unfold zlen; cbn [length]; lia]).
    apply valid_encoding_form. fold (der_signature r s ht). rewrite Hz.
    split_and!; try done; lia.
  - intros r s ht -> Hl. by apply der_rs_strict.
Qed.

Lemma strict_der_signatures_witness :
  is_bytes (der_signature [0; 200] [17] 1) /\
  IsValidSignatureEncoding (der_signature [0; 200] [17] 1) = true /\
  (IsValidSignatureEncoding (der_signature [0; 200] [17] 1) = true <->
     exists r s hashtype, der_signature [0; 200] [17] 1 = der_signature r s hashtype /\
       zlen (der_signature [0; 200] [17] 1) <= 73 /\ der_int r /\ der_int s) /\
  (forall r s hashtype, der_signature [0; 200] [17] 1 = der_signature r s hashtype ->
     zlen (der_signature [0; 200] [17] 1) <= 73 ->
     der_rs (take (length (der_signature [0; 200] [17] 1) - 1) (der_signature [0; 200] [17] 1)) = Some (r, s)).
Proof.
  assert (Hb : is_bytes (der_signature [0; 200] [17] 1)) by (repeat constructor; vm_compute; congruence).
  split; [exact Hb|]. split; [vm_compute; reflexivity|]. exact (strict_der_signatures _ Hb).
Defined.
