(* ===== verification/Sighash.v ===== *)
(** Signature hashes and the transaction signature checker: the second half of
    script/interpreter.cpp, with the older [SignatureHash] that
    test/sighash_tests.cpp keeps for comparison. *)

From S2P Require Import Prelude Uint256 Arith256 Serialize Digest Hashes Script Transaction Pubkey Interp.

Definition null_txin : CTxIn := {| prevout := null_outpoint; scriptSig := []; nSequence := UINT32_MAX |}.

(** * [CTransactionSignatureSerializer] *)

Section Serializer.
Context (txTo : CTransaction) (scriptCode : CScript) (nIn nHashType : Z).

Definition fAnyoneCanPay : bool := negb (Z.land nHashType SIGHASH_ANYONECANPAY =? 0).
Definition fHashSingle : bool := Z.land nHashType 0x1f =? SIGHASH_SINGLE.
Definition fHashNone : bool := Z.land nHashType 0x1f =? SIGHASH_NONE.

(** The first pass over the script. *)
Fixpoint count_separators (fuel : nat) (it : CScript) (nCodeSeparators : Z) : Z :=
  match fuel with
  | O => nCodeSeparators
  | S f =>
      let r := GetOp it in
      if fRet r
      then count_separators f (pc_next r)
             (if opcodeRet r =? OP_CODESEPARATOR then nCodeSeparators + 1 else nCodeSeparators)
      else nCodeSeparators
  end.

(** The second pass: the pieces between separators.  When [GetOp] fails, [it] is
    where it stopped reading. *)
Fixpoint write_pieces (fuel : nat) (it itBegin : CScript) (s : byte_list) : byte_list :=
  let r := GetOp it in
  match fuel with
  | S f =>
      if fRet r then
        if opcodeRet r =? OP_CODESEPARATOR
        then write_pieces f (pc_next r) (pc_next r)
               (s ++ take (length itBegin - length (pc_next r) - 1) itBegin)
        else write_pieces f (pc_next r) itBegin s
      else s ++ (if (length itBegin =? 0)%nat then [] else take (length itBegin - length (pc_next r)) itBegin)
  | O => s ++ (if (length itBegin =? 0)%nat then [] else take (length itBegin - length (pc_next r)) itBegin)
  end.

Definition SerializeScriptCode : byte_list :=
  let nCodeSeparators := count_separators (length scriptCode) scriptCode 0 in
  WriteCompactSize (u64 (Z.of_nat (length scriptCode) - nCodeSeparators)) ++
  write_pieces (length scriptCode) scriptCode scriptCode [].

Definition SerializeInput (nInput : Z) : byte_list :=
  let nInput := if fAnyoneCanPay then nIn else nInput in
  let txin := nth (Z.to_nat nInput) (vin txTo) null_txin in
  enc c_outpoint (prevout txin) ++
  (if negb (nInput =? nIn) then enc c_bytes [] else SerializeScriptCode) ++
  (if negb (nInput =? nIn) && (fHashSingle || fHashNone) then enc (c_int 4) 0
   else enc (c_uint 4) (nSequence txin)).

Definition SerializeOutput (nOutput : Z) : byte_list :=
  if fHashSingle && negb (nOutput =? nIn) then enc c_txout null_txout
  else enc c_txout (nth (Z.to_nat nOutput) (vout txTo) null_txout).

(** The indices below [k], as the loops count them. *)
Definition below (k : Z) : list Z := map Z.of_nat (seq 0 (Z.to_nat k)).

Definition Serialize : byte_list :=
  let nInputs := if fAnyoneCanPay then 1 else Z.of_nat (length (vin txTo)) in
  let nOutputs := if fHashNone then 0 else if fHashSingle then nIn + 1 else Z.of_nat (length (vout txTo)) in
  enc (c_int 4) (tx_nVersion txTo) ++
  WriteCompactSize nInputs ++ (below nInputs ≫= SerializeInput) ++
  WriteCompactSize nOutputs ++ (below nOutputs ≫= SerializeOutput) ++
  enc (c_uint 4) (nLockTime txTo).
End Serializer.

(** [return 1] is the [uint256] of one. *)
Definition SignatureHash (scriptCode : CScript) (txTo : CTransaction) (nIn nHashType : Z) : uint256 :=
  if Z.of_nat (length (vin txTo)) <=? nIn then u256 1
  else if (Z.land nHashType 0x1f =? SIGHASH_SINGLE) && (Z.of_nat (length (vout txTo)) <=? nIn)
  then u256 1
  else Hash (Serialize txTo scriptCode nIn nHashType ++ enc (c_int 4) nHashType).

(** * [TransactionSignatureChecker] *)

Definition TransactionCheckSig (lib : secp256k1) (txTo : CTransaction) (nIn : Z)
    (vchSigIn vchPubKey : valtype) (scriptCode : CScript) : bool :=
  let pubkey := CPubKey_Set vchPubKey in
  if negb (pubkey_IsValid pubkey) then false
  else if (length vchSigIn =? 0)%nat then false
  else
    let nHashType := back 0 vchSigIn in
    let vchSig := take (length vchSigIn - 1) vchSigIn in
    let sighash := SignatureHash scriptCode txTo nIn nHashType in
    Verify lib pubkey sighash vchSig.

(** [VerifyScript] with the checker of an input. *)
Definition VerifyInput (lib : secp256k1) (flags : Z) (txTo : CTransaction) (nIn : Z) (scriptPubKey : CScript)
    : result ScriptError unit :=
  VerifyScript lib flags (TransactionCheckSig lib txTo nIn)
    (scriptSig (nth (Z.to_nat nIn) (vin txTo) null_txin)) scriptPubKey.

(** * The old definition

    It makes a copy of the transaction with the parts that are not signed blanked
    out, and serializes that. *)

Definition with_scriptSig (s : CScript) (i : CTxIn) : CTxIn :=
  {| prevout := prevout i; scriptSig := s; nSequence := nSequence i |}.
Definition with_nSequence (k : Z) (i : CTxIn) : CTxIn :=
  {| prevout := prevout i; scriptSig := scriptSig i; nSequence := k |}.

(** Change the inputs other than [nIn]. *)
Definition others (nIn : nat) (f : CTxIn -> CTxIn) (l : list CTxIn) : list CTxIn :=
  imap (fun i x => if (i =? nIn)%nat then x else f x) l.

Definition SignatureHashOld (scriptCode : CScript) (txTo : CTransaction) (nIn nHashType : Z) : uint256 :=
  if Z.of_nat (length (vin txTo)) <=? nIn then u256 1
  else
    let k := Z.to_nat nIn in
    let scriptCode := (FindAndDelete scriptCode [OP_CODESEPARATOR]).1 in
    let vin := map (with_scriptSig []) (vin txTo) in
    let vin := alter (with_scriptSig scriptCode) k vin in
    let finish vin vout :=
      let vin := if negb (Z.land nHashType SIGHASH_ANYONECANPAY =? 0)
                 then [nth k vin null_txin] else vin in
      Hash (enc c_transaction {| tx_nVersion := tx_nVersion txTo; vin := vin; vout := vout;
                                 nLockTime := nLockTime txTo |} ++ enc (c_int 4) nHashType) in
    if Z.land nHashType 0x1f =? SIGHASH_NONE then finish (others k (with_nSequence 0) vin) []
    else if Z.land nHashType 0x1f =? SIGHASH_SINGLE then
      if Z.of_nat (length (vout txTo)) <=? nIn then u256 1
      else finish (others k (with_nSequence 0) vin)
             (replicate k null_txout ++ [nth k (vout txTo) null_txout])
    else finish vin (vout txTo).

(** * Lemmas *)

Lemma GetOp_opcode op it : fRet (GetOp (op :: it)) = true -> opcodeRet (GetOp (op :: it)) = op.
Proof.
  rewrite GetOp_cons. destruct (op <=? OP_PUSHDATA4); [|done].
  destruct (operand_size op it) as [[k p]|]; [|done]. by destruct (_ <? k).
Qed.

(** An instruction is a separator exactly when its bytes are the opcode alone. *)
Lemma separator_raw it h :
  fRet (GetOp it) = true -> it = h ++ pc_next (GetOp it) -> h <> [] ->
  (opcodeRet (GetOp it) =? OP_CODESEPARATOR) = bool_decide (h = [OP_CODESEPARATOR]).
Proof.
  intros H E Hh. destruct it as [|op it]; [done|]. rewrite (GetOp_opcode op it H).
  destruct (Z.eqb_spec op OP_CODESEPARATOR) as [->|Hop]; symmetry.
  - apply bool_decide_eq_true. change (pc_next (GetOp (OP_CODESEPARATOR :: it))) with it in E.
    change (OP_CODESEPARATOR :: it) with ([OP_CODESEPARATOR] ++ it) in E. by apply app_inv_tail in E.
  - apply bool_decide_eq_false. intros ->. by injection E.
Qed.

Definition without_separators (it : CScript) : byte_list :=
  concat (map i_raw (kept [OP_CODESEPARATOR] (parse it).1)).

Lemma without_separators_step it :
  fRet (GetOp it) = true ->
  exists h, it = h ++ pc_next (GetOp it) /\ h <> [] /\
    (parse it).2 = (parse (pc_next (GetOp it))).2 /\
    (opcodeRet (GetOp it) =? OP_CODESEPARATOR) = bool_decide (h = [OP_CODESEPARATOR]) /\
    without_separators it =
      (if bool_decide (h = [OP_CODESEPARATOR]) then [] else h) ++ without_separators (pc_next (GetOp it)).
Proof.
  intros H. destruct (parse_step it H) as (h & E & Hh & _ & Ep). exists h.
  split_and!; [done|done|by rewrite Ep|by apply separator_raw|].
  unfold without_separators. rewrite Ep. cbn [fst kept List.filter i_raw].
  by destruct (bool_decide (h = [OP_CODESEPARATOR])).
Qed.

Lemma write_pieces_spec f it p s :
  (length it <= f)%nat -> (parse it).2 = [] ->
  write_pieces f it (p ++ it) s = s ++ p ++ without_separators it.
Proof.
  revert f p s. induction it as [it H|it H IH] using script_ind; intros f p s Hf Hp.
  - rewrite parse_failed in Hp by done. cbn [snd] in Hp. subst it.
    assert (E : (if (length (p ++ []) =? 0)%nat then [] else take (length (p ++ []) - length (A := Z) []) (p ++ [])) = p).
    { rewrite app_nil_r. destruct p as [|b p]; [done|]. cbn [length Nat.eqb]. apply take_ge. cbn [length]. lia. }
    destruct f; cbn [write_pieces GetOp fRet pc_next]; rewrite E; by rewrite app_nil_r.
  - destruct (without_separators_step it H) as (h & E & Hh & Ep & Es & Ew).
    pose proof (GetOp_next_lt it H). destruct f as [|f]; [lia|]. cbn [write_pieces].
    rewrite H, Es, Ew. rewrite Ep in Hp. case_bool_decide as Ed.
    + assert (Et : take (length (p ++ it) - length (pc_next (GetOp it)) - 1) (p ++ it) = p).
      { apply take_app_length'. rewrite E at 1. rewrite Ed, !length_app. cbn [length]. lia. }
      rewrite Et. pose proof (IH f [] (s ++ p) ltac:(lia) Hp) as G. cbn [app] in G. rewrite G.
      by rewrite <- app_assoc.
    + rewrite E at 2. rewrite app_assoc. rewrite IH by (done || lia). by rewrite <- app_assoc.
Qed.

Lemma count_separators_spec f it k :
  (length it <= f)%nat ->
  count_separators f it k + Z.of_nat (length (without_separators it)) + Z.of_nat (length (parse it).2)
    = k + Z.of_nat (length it).
Proof.
  revert f k. induction it as [it H|it H IH] using script_ind; intros f k Hf.
  - unfold without_separators. rewrite parse_failed by done. destruct f; cbn [count_separators]; rewrite ?H; cbn; lia.
  - destruct (without_separators_step it H) as (h & E & Hh & Ep & Es & Ew).
    pose proof (GetOp_next_lt it H). destruct f as [|f]; [lia|]. cbn [count_separators].
    rewrite H, Es, Ew, Ep, length_app.
    match goal with |- count_separators f ?i ?j + _ + _ = _ => pose proof (IH f j ltac:(lia)) as G end.
    assert (El : length it = (length h + length (pc_next (GetOp it)))%nat) by (by rewrite E at 1; rewrite length_app).
    case_bool_decide as Ed; [rewrite Ed in El|]; cbn [length] in *; lia.
Qed.

(** The script code without its separators, with its length. *)
Lemma SerializeScriptCode_spec code :
  (parse code).2 = [] -> Z.of_nat (length code) < 2 ^ 64 ->
  SerializeScriptCode code = enc c_bytes (FindAndDelete code [OP_CODESEPARATOR]).1.
Proof.
  intros Hp Hl. unfold SerializeScriptCode, FindAndDelete. cbn [length Nat.eqb].
  rewrite find_and_delete_loop_spec by done. cbn [fst]. rewrite Hp, app_nil_r. cbn [app].
  fold (without_separators code).
  pose proof (count_separators_spec (length code) code 0 ltac:(lia)) as Hc. rewrite Hp in Hc. cbn [length] in Hc.
  pose proof (write_pieces_spec (length code) code [] [] ltac:(lia) Hp) as Hw. cbn [app] in Hw.
  rewrite Hw. cbn [enc c_bytes]. unfold write_byte_vector. do 2 f_equal.
  assert (0 <= count_separators (length code) code 0).
  { clear. assert (G : forall f it k, 0 <= k -> 0 <= count_separators f it k); [|by apply G].
    induction f as [|f IH]; intros it k Hk; cbn [count_separators]; [done|]. destruct (fRet _); [|done].
    apply IH. case_match; lia. }
  rewrite u64_small by (wunfold; lia). lia.
Qed.

(** A traversal by index. *)
Lemma bind_below {A B} (d : A) (g : A -> list B) (f : Z -> list B) l :
  (forall i, (i < length l)%nat -> f (Z.of_nat i) = g (nth i l d)) ->
  below (Z.of_nat (length l)) ≫= f = l ≫= g.
Proof.
  intros H. unfold below. rewrite Nat2Z.id.
  assert (G : forall l' k, (forall i, (i < length l')%nat -> f (Z.of_nat (k + i)) = g (nth i l' d)) ->
    map Z.of_nat (seq k (length l')) ≫= f = l' ≫= g); [|by apply (G l 0%nat)].
  clear. induction l' as [|x l' IH]; intros k H; [done|]. cbn [length seq map mbind list_bind].
  pose proof (H 0%nat ltac:(cbn [length]; lia)) as H0. rewrite Nat.add_0_r in H0. cbn [nth] in H0. rewrite H0.
  f_equal. apply IH. intros i Hi. specialize (H (S i) ltac:(cbn [length]; lia)).
  replace (S k + i)%nat with (k + S i)%nat by lia. exact H.
Qed.

Lemma nth_others k f l i d :
  (i < length l)%nat -> nth i (others k f l) d = if (i =? k)%nat then nth i l d else f (nth i l d).
Proof.
  intros Hi. destruct (lookup_lt_is_Some_2 l i Hi) as [x Hx]. unfold others.
  rewrite !nth_lookup, list_lookup_imap, Hx. cbn. by destruct (i =? k)%nat.
Qed.

(** The inputs of the copy before the sequence numbers are changed. *)
Definition blanked (code : CScript) (k : nat) (l : list CTxIn) : list CTxIn :=
  alter (with_scriptSig code) k (map (with_scriptSig []) l).

Lemma length_blanked code k l : length (blanked code k l) = length l.
Proof. unfold blanked. by rewrite length_alter, length_map. Qed.

Lemma nth_blanked code k l i :
  (i < length l)%nat ->
  nth i (blanked code k l) null_txin =
    with_scriptSig (if (i =? k)%nat then code else []) (nth i l null_txin).
Proof.
  intros Hi. destruct (lookup_lt_is_Some_2 l i Hi) as [x Hx]. unfold blanked.
  rewrite !nth_lookup, Hx. destruct (Nat.eqb_spec i k) as [->|Hne].
  - rewrite list_lookup_alter_eq. change (map (with_scriptSig []) l) with (with_scriptSig [] <$> l).
    rewrite list_lookup_fmap, Hx. done.
  - rewrite list_lookup_alter_ne by done. change (map (with_scriptSig []) l) with (with_scriptSig [] <$> l).
    by rewrite list_lookup_fmap, Hx.
Qed.

Section Equivalence.
Context (txTo : CTransaction) (code : CScript) (nIn nHashType : Z).
Hypothesis (Hparse : (parse code).2 = []) (Hlen : Z.of_nat (length code) < 2 ^ 64).
Hypothesis (Hin : 0 <= nIn < Z.of_nat (length (vin txTo))).

Abbreviation k := (Z.to_nat nIn) (only parsing).
Abbreviation code' := ((FindAndDelete code [OP_CODESEPARATOR]).1) (only parsing).

(** The copy's inputs, with the sequence numbers of the others reset or not. *)
Definition copied_vin : list CTxIn :=
  let l := blanked code' k (vin txTo) in
  if fHashSingle nHashType || fHashNone nHashType then others k (with_nSequence 0) l else l.

Lemma length_copied_vin : length copied_vin = length (vin txTo).
Proof. unfold copied_vin, others. case_match; rewrite ?length_imap; apply length_blanked. Qed.

Lemma nth_copied_vin i :
  (i < length (vin txTo))%nat ->
  nth i copied_vin null_txin =
    let x := nth i (vin txTo) null_txin in
    {| prevout := prevout x;
       scriptSig := if (i =? k)%nat then code' else [];
       nSequence := if (fHashSingle nHashType || fHashNone nHashType) && negb (i =? k)%nat then 0 else nSequence x |}.
Proof.
  intros Hi. unfold copied_vin. destruct (fHashSingle nHashType || fHashNone nHashType); cbn [andb].
  - rewrite nth_others by (by rewrite length_blanked). rewrite nth_blanked by done.
    by destruct (i =? k)%nat.
  - by rewrite nth_blanked by done.
Qed.

Lemma eqb_of_nat i : (Z.of_nat i =? nIn) = (i =? k)%nat.
Proof. destruct (Z.eqb_spec (Z.of_nat i) nIn), (Nat.eqb_spec i k); done || lia. Qed.

(** One input is written as the copy has it. *)
Lemma SerializeInput_copied i :
  (i < length (vin txTo))%nat -> fAnyoneCanPay nHashType = false \/ i = k ->
  SerializeInput txTo code nIn nHashType (Z.of_nat i) = enc c_txin (nth i copied_vin null_txin).
Proof.
  intros Hi Ha. unfold SerializeInput.
  replace (if fAnyoneCanPay nHashType then nIn else Z.of_nat i) with (Z.of_nat i)
    by (destruct Ha as [->| ->]; [done|]; rewrite Z2Nat.id by lia; by destruct (fAnyoneCanPay nHashType)).
  rewrite Nat2Z.id, eqb_of_nat, nth_copied_vin, SerializeScriptCode_spec by done.
  cbn [enc c_txin c_iso c_pair fst snd prevout scriptSig nSequence]. rewrite <- !app_assoc.
  destruct (i =? k)%nat; cbn [negb andb].
  - by rewrite andb_false_r.
  - rewrite andb_true_r. by destruct (fHashSingle nHashType || fHashNone nHashType).
Qed.

Lemma inputs_copied :
  fAnyoneCanPay nHashType = false ->
  below (Z.of_nat (length (vin txTo))) ≫= SerializeInput txTo code nIn nHashType = copied_vin ≫= enc c_txin.
Proof.
  intros Ha. rewrite <- length_copied_vin. apply (bind_below null_txin). intros i Hi.
  rewrite length_copied_vin in Hi. apply SerializeInput_copied; auto.
Qed.

Lemma input_alone :
  fAnyoneCanPay nHashType = true ->
  SerializeInput txTo code nIn nHashType 0 = enc c_txin (nth k copied_vin null_txin).
Proof.
  intros Ha. rewrite <- (SerializeInput_copied k) by (auto; lia).
  unfold SerializeInput. by rewrite Ha.
Qed.

(** The copy's outputs. *)
Definition copied_vout : list CTxOut :=
  if fHashNone nHashType then []
  else if fHashSingle nHashType then replicate k null_txout ++ [nth k (vout txTo) null_txout]
  else vout txTo.

Lemma nth_replicate_default {A} (x : A) m i : nth i (replicate m x) x = x.
Proof. revert i. induction m as [|m IH]; intros [|i]; cbn; auto. Qed.

Lemma outputs_copied :
  let nOutputs := if fHashNone nHashType then 0
                  else if fHashSingle nHashType then nIn + 1 else Z.of_nat (length (vout txTo)) in
  nOutputs = Z.of_nat (length copied_vout) /\
  below nOutputs ≫= SerializeOutput txTo nIn nHashType = copied_vout ≫= enc c_txout.
Proof.
  cbv zeta. unfold copied_vout. destruct (fHashNone nHashType); [done|].
  destruct (fHashSingle nHashType) eqn:Es.
  - assert (El : nIn + 1 = Z.of_nat (length (replicate k null_txout ++ [nth k (vout txTo) null_txout]))).
    { rewrite length_app, length_replicate. cbn [length]. lia. }
    split; [exact El|]. rewrite El. apply (bind_below null_txout). intros i Hi.
    unfold SerializeOutput. rewrite Es, eqb_of_nat, Nat2Z.id. cbn [andb].
    rewrite length_app, length_replicate in Hi. cbn [length] in Hi. destruct (Nat.eqb_spec i k) as [->|Hne]; cbn [negb].
    + rewrite app_nth2 by (rewrite length_replicate; lia). by rewrite length_replicate, Nat.sub_diag.
    + rewrite app_nth1 by (rewrite length_replicate; lia). by rewrite nth_replicate_default.
  - split; [done|]. apply (bind_below null_txout). intros i Hi. unfold SerializeOutput. rewrite Es.
    cbn [andb]. by rewrite Nat2Z.id.
Qed.

Lemma Serialize_copied :
  Serialize txTo code nIn nHashType =
    enc c_transaction {| tx_nVersion := tx_nVersion txTo;
      vin := if fAnyoneCanPay nHashType then [nth k copied_vin null_txin] else copied_vin;
      vout := copied_vout; nLockTime := nLockTime txTo |}.
Proof.
  destruct outputs_copied as [E1 E2]. unfold Serialize. cbv zeta. rewrite E2, E1.
  cbn [enc c_transaction c_iso c_pair c_vector fst snd tx_nVersion vin vout nLockTime].
  rewrite <- !app_assoc. f_equal. destruct (fAnyoneCanPay nHashType) eqn:Ea.
  - change (below 1) with [0]. cbn [mbind list_bind]. rewrite input_alone by done. by rewrite !app_nil_r.
  - rewrite inputs_copied by done. by rewrite length_copied_vin.
Qed.
End Equivalence.

(** * The property *)

(** C34 The hash that signatures sign, computed without copying the transaction, is the
    one of the older definition, which copies the transaction, deletes the separators
    from the script, blanks out what the hash type leaves open and serializes: for
    every input number, hash type and script that can be read to its end. *)
Theorem SignatureHash_equiv_old scriptCode txTo nIn nHashType :
  (parse scriptCode).2 = [] -> Z.of_nat (length scriptCode) < 2 ^ 64 -> 0 <= nIn ->
  SignatureHash scriptCode txTo nIn nHashType = SignatureHashOld scriptCode txTo nIn nHashType.
Proof.
  intros Hp Hl H0. unfold SignatureHash, SignatureHashOld.
  destruct (Z.leb_spec (Z.of_nat (length (vin txTo))) nIn) as [|Hin]; [done|].
  pose proof (Serialize_copied txTo scriptCode nIn nHashType Hp Hl (conj H0 Hin)) as E.
  unfold copied_vin, copied_vout, fHashSingle, fHashNone, fAnyoneCanPay, blanked in E.
  unfold SIGHASH_NONE, SIGHASH_SINGLE in *.
  destruct (Z.eqb_spec (Z.land nHashType 0x1f) 3) as [E3|E3].
  - rewrite E3 in *. change (3 =? 2) with false in *. cbn [andb orb] in *. cbv iota in *.
    destruct (Z.of_nat (length (vout txTo)) <=? nIn); [done|]. by rewrite E.
  - cbn [andb orb] in *. rewrite E.
    by destruct (Z.eqb_spec (Z.land nHashType 0x1f) 2).
Qed.

Lemma SignatureHash_equiv_old_witness :
  (parse [OP_DUP; OP_CODESEPARATOR; 1; 7]).2 = [] /\
  Z.of_nat (length [OP_DUP; OP_CODESEPARATOR; 1; 7]) < 2 ^ 64 /\ 0 <= 0 /\
  SerializeScriptCode [OP_DUP; OP_CODESEPARATOR; 1; 7] = [3; OP_DUP; 1; 7] /\
  SignatureHash [OP_DUP; OP_CODESEPARATOR; 1; 7] example_coinstake 0 (Z.lor SIGHASH_SINGLE SIGHASH_ANYONECANPAY) =
  SignatureHashOld [OP_DUP; OP_CODESEPARATOR; 1; 7] example_coinstake 0 (Z.lor SIGHASH_SINGLE SIGHASH_ANYONECANPAY).
Proof.
  split; [vm_compute; reflexivity|]. split; [vm_compute; reflexivity|]. split; [lia|].
  split; [vm_compute; reflexivity|].
  exact (SignatureHash_equiv_old [OP_DUP; OP_CODESEPARATOR; 1; 7] example_coinstake 0 (Z.lor SIGHASH_SINGLE SIGHASH_ANYONECANPAY)
    ltac:(vm_compute; reflexivity) ltac:(vm_compute; reflexivity) ltac:(lia)).
Defined.
