(* ===== verification/Standard.v ===== *)
(** Standard scripts (script/standard.h, script/standard.cpp): which of the standard forms
    an output script has, what it pays to, and the script that pays to a destination; and
    the signature of a block (primitives/block.cpp), which is checked against the key that
    the coinstake pays to.

    [Solver] compares a script with templates, themselves scripts with opcodes that stand
    for data.  A script that is being read is the suffix that is left. *)

From S2P Require Import Prelude Uint256 Arith256 Digest Hashes Script Transaction Pubkey.

Definition OP_SMALLINTEGER : Z := 0xfa.
Definition OP_PUBKEYS : Z := 0xfb.
Definition OP_PUBKEYHASH : Z := 0xfd.
Definition OP_PUBKEY : Z := 0xfe.

Inductive txnouttype := TX_NONSTANDARD | TX_PUBKEY | TX_PUBKEYHASH | TX_SCRIPTHASH | TX_MULTISIG | TX_NULL_DATA.

#[export] Instance txnouttype_eq_dec : EqDecision txnouttype.
Proof. solve_decision. Defined.

(** [CTxDestination]. *)
Inductive CTxDestination := CNoDestination | CKeyID (id : base_uint) | CScriptID (id : base_uint).

(** * The solver *)

(** In the order of the [multimap]. *)
Definition mTemplates : list (txnouttype * CScript) :=
  [(TX_PUBKEY, [OP_PUBKEY; OP_CHECKSIG]);
   (TX_PUBKEYHASH, [OP_DUP; OP_HASH160; OP_PUBKEYHASH; OP_EQUALVERIFY; OP_CHECKSIG]);
   (TX_MULTISIG, [OP_SMALLINTEGER; OP_PUBKEYS; OP_SMALLINTEGER; OP_CHECKMULTISIG])].

(** [vch.size() >= 33 && vch.size() <= 65]. *)
Definition key_sized (vch : valtype) : bool := (33 <=? length vch)%nat && (length vch <=? 65)%nat.

(** The loop for [OP_PUBKEYS]; each turn reads an instruction. *)
Fixpoint take_pubkeys (fuel : nat) (r1 : op_read) (vSolutions : list valtype) : op_read * list valtype :=
  if key_sized (vchRet r1) then
    let vSolutions := vSolutions ++ [vchRet r1] in
    let r := GetOp (pc_next r1) in
    match fuel with
    | O => (r, vSolutions)
    | S fuel => if fRet r then take_pubkeys fuel r vSolutions else (r, vSolutions)
    end
  else (r1, vSolutions).

(** The comparison of an instruction with one of the template. *)
Definition match_op (r1 r2 : op_read) (vSolutions : list valtype) : option (list valtype) :=
  let '(opcode1, vch1) := (opcodeRet r1, vchRet r1) in
  let '(opcode2, vch2) := (opcodeRet r2, vchRet r2) in
  if opcode2 =? OP_PUBKEY then if key_sized vch1 then Some (vSolutions ++ [vch1]) else None
  else if opcode2 =? OP_PUBKEYHASH then if (length vch1 =? 20)%nat then Some (vSolutions ++ [vch1]) else None
  else if opcode2 =? OP_SMALLINTEGER then
    if (opcode1 =? OP_0) || ((OP_1 <=? opcode1) && (opcode1 <=? OP_16)) then Some (vSolutions ++ [[DecodeOP_N opcode1]]) else None
  else if (opcode1 =? opcode2) && bool_decide (vch1 = vch2) then Some vSolutions
  else None.

(** [while (true)]: each turn reads an instruction of the template. *)
Fixpoint compare (fuel : nat) (pc1 pc2 : CScript) (vSolutions : list valtype) : option (list valtype) :=
  if (length pc1 =? 0)%nat && (length pc2 =? 0)%nat then Some vSolutions
  else
    match fuel with
    | O => None
    | S fuel =>
        let r1 := GetOp pc1 in
        if negb (fRet r1) then None
        else
          let r2 := GetOp pc2 in
          if negb (fRet r2) then None
          else if opcodeRet r2 =? OP_PUBKEYS then
            let '(r1, vSolutions) := take_pubkeys (length (pc_next r1)) r1 vSolutions in
            let r2 := GetOp (pc_next r2) in
            if negb (fRet r2) then None
            else
              vSolutions ← match_op r1 r2 vSolutions;
              compare fuel (pc_next r1) (pc_next r2) vSolutions
          else
            vSolutions ← match_op r1 r2 vSolutions;
            compare fuel (pc_next r1) (pc_next r2) vSolutions
    end.

(** The counts of a multisignature script, single bytes, against the number of keys. *)
Definition multisig_counts (vSolutions : list valtype) : bool :=
  let m := nth 0 (nth 0 vSolutions []) 0 in
  let n := nth 0 (List.last vSolutions []) 0 in
  negb ((m <? 1) || (n <? 1) || (n <? m) || negb (Z.of_nat (length vSolutions) - 2 =? n)).

Fixpoint scan (templates : list (txnouttype * CScript)) (script : CScript) : txnouttype * list valtype * bool :=
  match templates with
  | [] => (TX_NONSTANDARD, [], false)
  | (t, script2) :: templates =>
      match compare (length script2) script script2 [] with
      | Some vSolutions =>
          match t with
          | TX_MULTISIG => (t, vSolutions, multisig_counts vSolutions)
          | _ => (t, vSolutions, true)
          end
      | None => scan templates script
      end
  end.

(** What is written to [typeRet] and to [vSolutionsRet], which callers pass empty. *)
Definition Solver (scriptPubKey : CScript) : txnouttype * list valtype * bool :=
  if IsPayToScriptHash scriptPubKey then (TX_SCRIPTHASH, [take 20 (drop 2 scriptPubKey)], true)
  else if match scriptPubKey with op :: rest => (op =? OP_RETURN) && IsPushOnly rest | [] => false end then (TX_NULL_DATA, [], true)
  else scan mTemplates scriptPubKey.

(** * Uses *)

Definition ScriptSigArgsExpected (t : txnouttype) (vSolutions : list valtype) : Z :=
  match t with
  | TX_NONSTANDARD | TX_NULL_DATA => -1
  | TX_PUBKEY => 1
  | TX_PUBKEYHASH => 2
  | TX_MULTISIG => match vSolutions with (m :: _) :: _ => m + 1 | _ => -1 end
  | TX_SCRIPTHASH => 1
  end.

(** The argument -datacarrier is on; the size is [nMaxDatacarrierBytes]. *)
Definition MAX_OP_RETURN_RELAY : Z := 83.

Definition IsStandard (datacarrier : bool) (scriptPubKey : CScript) : txnouttype * bool :=
  let '(whichType, vSolutions, ok) := Solver scriptPubKey in
  (whichType,
   if negb ok then false
   else
     match whichType with
     | TX_MULTISIG =>
         let m := nth 0 (nth 0 vSolutions []) 0 in
         let n := nth 0 (List.last vSolutions []) 0 in
         negb ((n <? 1) || (3 <? n)) && negb ((m <? 1) || (n <? m))
     | TX_NULL_DATA => datacarrier && (Z.of_nat (length scriptPubKey) <=? MAX_OP_RETURN_RELAY)
     | TX_NONSTANDARD => false
     | _ => true
     end).

(** [uint160(vector)]: the bytes of a solution of 20 bytes. *)
Definition uint160_of (v : valtype) : base_uint := limbs_of_bytes 5 v.

Definition ExtractDestination (scriptPubKey : CScript) : option CTxDestination :=
  let '(whichType, vSolutions, ok) := Solver scriptPubKey in
  if negb ok then None
  else
    match whichType, vSolutions with
    | TX_PUBKEY, v :: _ => let pubKey := CPubKey_Set v in if pubkey_IsValid pubKey then Some (CKeyID (GetID pubKey)) else None
    | TX_PUBKEYHASH, v :: _ => Some (CKeyID (uint160_of v))
    | TX_SCRIPTHASH, v :: _ => Some (CScriptID (uint160_of v))
    | _, _ => None
    end.

(** The type, the addresses and the number of signatures required. *)
Definition ExtractDestinations (scriptPubKey : CScript) : option (txnouttype * list CTxDestination * Z) :=
  let '(whichType, vSolutions, ok) := Solver scriptPubKey in
  if negb ok then None
  else
    match whichType with
    | TX_NULL_DATA => None
    | TX_MULTISIG =>
        let keys := filter (fun k => pubkey_IsValid k = true) (map CPubKey_Set (take (length vSolutions - 2) (drop 1 vSolutions))) in
        match keys with
        | [] => None
        | _ => Some (whichType, map (fun k => CKeyID (GetID k)) keys, nth 0 (nth 0 vSolutions []) 0)
        end
    | _ => d ← ExtractDestination scriptPubKey; Some (whichType, [d], 1)
    end.

Definition GetScriptForDestination (dest : CTxDestination) : CScript :=
  match dest with
  | CNoDestination => []
  | CKeyID id => push_opcode (push_opcode (push_data (push_opcode (push_opcode [] OP_DUP) OP_HASH160) (to_bytes id)) OP_EQUALVERIFY) OP_CHECKSIG
  | CScriptID id => push_opcode (push_data (push_opcode [] OP_HASH160) (to_bytes id)) OP_EQUAL
  end.

Definition GetScriptForMultisig (nRequired : Z) (keys : list byte_list) : CScript :=
  push_opcode (push_opcode (fold_left push_data keys (push_opcode [] (EncodeOP_N nRequired))) (EncodeOP_N (Z.of_nat (length keys)))) OP_CHECKMULTISIG.

(** * The signature of a block *)

Section BlockSignature.
Context (lib : secp256k1) (hashes : sph).

(** [vtx[1].vout[1]] exists: a coinstake has two outputs. *)
Definition CheckBlockSignature (block : CBlock) : bool :=
  if negb (block_IsProofOfStake block) then (length (vchBlockSig block) =? 0)%nat
  else
    match vtx block !! 1%nat ≫= fun tx => vout tx !! 1%nat with
    | None => false
    | Some txout =>
        let '(whichType, vSolutions, ok) := Solver (scriptPubKey txout) in
        if negb ok then false
        else
          match whichType, vSolutions with
          | TX_PUBKEY, v :: _ | TX_PUBKEYHASH, v :: _ =>
              let pubkey := CPubKey_Set v in
              if negb (pubkey_IsValid pubkey) then false
              else if (length (vchBlockSig block) =? 0)%nat then false
              else Verify lib pubkey (header_GetHash hashes (header block)) (vchBlockSig block)
          | _, _ => false
          end
    end.
End BlockSignature.

(** * The forms *)

(** The instructions of a script that can be read to its end. *)
Definition instrs (s : CScript) : option (list (Z * valtype)) :=
  match parse s with (l, []) => Some (map (fun i => (i_opcode i, i_data i)) l) | _ => None end.

Lemma instrs_step pc : fRet (GetOp pc) = true ->
  instrs pc = l ← instrs (pc_next (GetOp pc)); Some ((opcodeRet (GetOp pc), vchRet (GetOp pc)) :: l).
Proof.
  intros H. unfold instrs. destruct (parse_step pc H) as (h & _ & _ & _ & ->). destruct (parse (pc_next (GetOp pc))) as [l [|]]; reflexivity.
Qed.

Lemma instrs_failed pc : fRet (GetOp pc) = false -> pc <> [] -> instrs pc = None.
Proof. intros H Hn. unfold instrs. rewrite parse_failed by done. by destruct pc. Qed.

Lemma instrs_nonempty pc : pc <> [] -> instrs pc <> Some [].
Proof.
  intros Hn. destruct (fRet (GetOp pc)) eqn:F; [|by rewrite instrs_failed]. rewrite (instrs_step _ F). by destruct (instrs _).
Qed.

Lemma GetOp_nil : fRet (GetOp []) = false.
Proof. done. Qed.

(** A template opcode and what is left of the template. *)
Lemma GetOp_template op pc : OP_PUSHDATA4 < op -> GetOp (op :: pc) = {| fRet := true; opcodeRet := op; vchRet := []; pc_next := pc |}.
Proof. intros H. unfold GetOp. by rewrite (proj2 (Z.leb_gt _ _)). Qed.

Definition template (pc : CScript) : Prop := Forall (fun op => OP_PUSHDATA4 < op /\ op <> OP_INVALIDOPCODE) pc.

(** ** Comparison of lists of instructions *)

Definition read_of (i : Z * valtype) : op_read := {| fRet := true; opcodeRet := i.1; vchRet := i.2; pc_next := [] |}.

(** The keys at the front and the rest. *)
Fixpoint span_keys (l : list (Z * valtype)) : list valtype * list (Z * valtype) :=
  match l with
  | i :: l' => if key_sized i.2 then let '(ks, r) := span_keys l' in (i.2 :: ks, r) else ([], l)
  | [] => ([], [])
  end.

Fixpoint compare_list (tmpl : CScript) (l : list (Z * valtype)) (sols : list valtype) {struct tmpl} : option (list valtype) :=
  match tmpl, l with
  | [], [] => Some sols
  | t :: tmpl', i :: l' =>
      if t =? OP_PUBKEYS then
        let '(ks, r) := span_keys l in
        match tmpl', r with
        | t2 :: tmpl'', j :: r => s ← match_op (read_of j) (read_of (t2, [])) (sols ++ ks); compare_list tmpl'' r s
        | _, _ => None
        end
      else s ← match_op (read_of i) (read_of (t, [])) sols; compare_list tmpl' l' s
  | _, _ => None
  end.

Lemma span_cons i l : span_keys (i :: l) = if key_sized i.2 then (i.2 :: (span_keys l).1, (span_keys l).2) else ([], i :: l).
Proof. cbn. by destruct (span_keys l). Qed.

(** What a read that fails leaves. *)
Definition failed_read (r : op_read) : Prop := opcodeRet r = OP_INVALIDOPCODE /\ vchRet r = [].

Lemma GetOp_failed pc : fRet (GetOp pc) = false -> failed_read (GetOp pc).
Proof. intros H. split; [by apply GetOp_failed_opcode|]. revert H. unfold GetOp. by repeat case_match. Qed.

Lemma take_pubkeys_spec fuel : forall r1 sols, fRet r1 = true -> (length (pc_next r1) <= fuel)%nat ->
  let '(r, s) := take_pubkeys fuel r1 sols in
  match instrs (pc_next r1) with
  | Some l => let '(ks, rest) := span_keys ((opcodeRet r1, vchRet r1) :: l) in s = sols ++ ks /\
      match rest with
      | i :: rest => fRet r = true /\ opcodeRet r = i.1 /\ vchRet r = i.2 /\ instrs (pc_next r) = Some rest
      | [] => failed_read r
      end
  | None => failed_read r \/ instrs (pc_next r) = None
  end.
Proof.
  induction fuel as [|fuel IH]; intros r1 sols Hr Hf; cbn [take_pubkeys].
  - destruct (pc_next r1) eqn:E; [|cbn in Hf; lia]. change (instrs []) with (Some ([] : list (Z * valtype))). cbv iota. rewrite span_cons. cbn [snd].
    destruct (key_sized (vchRet r1)); [by split|]. rewrite E. by rewrite app_nil_r.
  - destruct (key_sized (vchRet r1)) eqn:K.
    2: { destruct (instrs (pc_next r1)) eqn:E; [|by right]. rewrite span_cons. cbn [snd]. rewrite K, app_nil_r. by split_and!. }
    destruct (fRet (GetOp (pc_next r1))) eqn:F.
    2: { destruct (pc_next r1) as [|b pc] eqn:E.
         - change (instrs []) with (Some ([] : list (Z * valtype))). cbv iota. rewrite span_cons. cbn [snd]. rewrite K. split; [done|]. by apply GetOp_failed.
         - rewrite (instrs_failed (b :: pc)) by done. left. by apply GetOp_failed. }
    pose proof (GetOp_next_lt _ F) as Hlt. specialize (IH (GetOp (pc_next r1)) (sols ++ [vchRet r1]) F ltac:(lia)).
    rewrite (instrs_step _ F). destruct (take_pubkeys _ _ _) as [r s]. destruct (instrs (pc_next (GetOp (pc_next r1)))) as [l|]; cbn [mbind option_bind]; [|done].
    rewrite (span_cons (opcodeRet r1, vchRet r1)). cbn [snd]. rewrite K. destruct (span_keys (_ :: l)) as [ks rest]. destruct IH as [-> IH]. cbn [fst snd].
    split; [by rewrite <- app_assoc|done].
Qed.

Lemma match_failed r op pc sols : failed_read r -> op <> OP_INVALIDOPCODE -> match_op r {| fRet := true; opcodeRet := op; vchRet := []; pc_next := pc |} sols = None.
Proof.
  intros [Eo Ev] Hop. unfold match_op. rewrite Eo, Ev. cbn [opcodeRet vchRet]. rewrite (proj2 (Z.eqb_neq OP_INVALIDOPCODE op)) by congruence.
  by repeat case_match.
Qed.

(** Only the opcodes and the data count. *)
Lemma match_op_read r op pc sols :
  match_op r {| fRet := true; opcodeRet := op; vchRet := []; pc_next := pc |} sols = match_op (read_of (opcodeRet r, vchRet r)) (read_of (op, [])) sols.
Proof. done. Qed.

Lemma compare_spec f : forall pc1 pc2 sols, template pc2 -> (length pc2 <= f)%nat ->
  compare f pc1 pc2 sols = (l ← instrs pc1; compare_list pc2 l sols).
Proof.
  induction f as [|f IH]; intros pc1 pc2 sols Ht Hf.
  { destruct pc2; [|cbn in Hf; lia]. destruct pc1 as [|b pc]; [done|]. cbn [compare length Nat.eqb andb].
    pose proof (instrs_nonempty (b :: pc)) as Hn. destruct (instrs _) as [[|]|]; [by destruct Hn|done..]. }
  cbn [compare]. destruct (fRet (GetOp pc1)) eqn:F.
  2: { cbn [negb]. destruct pc1 as [|b pc]; [|by rewrite (instrs_failed (b :: pc))]. by destruct pc2. }
  destruct pc1 as [|b pc]; [done|]. set (pc1 := b :: pc) in *. cbn [length Nat.eqb andb negb]. rewrite (instrs_step _ F).
  destruct pc2 as [|t tmpl]; [cbn; by destruct (instrs _)|]. apply Forall_cons in Ht as [[Ht1 Ht2] Ht]. cbn [length] in Hf.
  rewrite (GetOp_template t) by done. cbn [fRet opcodeRet pc_next negb]. destruct (t =? OP_PUBKEYS) eqn:Et.
  - pose proof (take_pubkeys_spec _ (GetOp pc1) sols F (le_n _)) as S. destruct (take_pubkeys _ _ _) as [r s].
    assert (Hlist : forall l, compare_list (t :: tmpl) ((opcodeRet (GetOp pc1), vchRet (GetOp pc1)) :: l) sols =
      let '(ks, rest) := span_keys ((opcodeRet (GetOp pc1), vchRet (GetOp pc1)) :: l) in
      match tmpl, rest with t2 :: tmpl'', j :: rest => s ← match_op (read_of j) (read_of (t2, [])) (sols ++ ks); compare_list tmpl'' rest s | _, _ => None end).
    { intros l. cbn [compare_list]. by rewrite Et. }
    destruct tmpl as [|t2 tmpl].
    { cbn [GetOp fRet negb]. destruct (instrs _); [|done]. cbn [mbind option_bind]. rewrite Hlist. by destruct (span_keys _). }
    apply Forall_cons in Ht as [[Ht3 Ht4] Ht]. rewrite (GetOp_template t2) by done. cbn [fRet opcodeRet pc_next negb].
    destruct (instrs (pc_next (GetOp pc1))) as [l|]; cbn [mbind option_bind].
    + rewrite Hlist. destruct (span_keys _) as [ks [|j rest]]; destruct S as [-> S]; [by rewrite match_failed|].
      destruct S as (_ & E1 & E2 & E3). rewrite match_op_read, E1, E2. destruct j as [o v]. cbn [fst snd].
      destruct (match_op _ _ _); [|done]. cbn [mbind option_bind]. rewrite IH by (done || (cbn in Hf; lia)). by rewrite E3.
    + destruct S as [S|S]; [by rewrite match_failed|]. destruct (match_op _ _ _); [|done]. cbn [mbind option_bind].
      rewrite IH by (done || (cbn in Hf; lia)). by rewrite S.
  - assert (Hlist : forall i l, compare_list (t :: tmpl) (i :: l) sols = s ← match_op (read_of i) (read_of (t, [])) sols; compare_list tmpl l s).
    { intros i l. cbn [compare_list]. by rewrite Et. }
    rewrite match_op_read. destruct (instrs (pc_next (GetOp pc1))) as [l|] eqn:El; cbn [mbind option_bind].
    + rewrite Hlist. destruct (match_op _ _ _); [|done]. cbn [mbind option_bind]. rewrite IH by (done || lia). by rewrite El.
    + destruct (match_op _ _ _); [|done]. cbn [mbind option_bind]. rewrite IH by (done || lia). by rewrite El.
Qed.

(** ** The forms *)

Lemma match_key i sols : match_op (read_of i) (read_of (OP_PUBKEY, [])) sols = if key_sized i.2 then Some (sols ++ [i.2]) else None.
Proof. done. Qed.
Lemma match_hash i sols : match_op (read_of i) (read_of (OP_PUBKEYHASH, [])) sols = if (length i.2 =? 20)%nat then Some (sols ++ [i.2]) else None.
Proof. done. Qed.
Lemma match_small i sols : match_op (read_of i) (read_of (OP_SMALLINTEGER, [])) sols =
  if (i.1 =? OP_0) || ((OP_1 <=? i.1) && (i.1 <=? OP_16)) then Some (sols ++ [[DecodeOP_N i.1]]) else None.
Proof. done. Qed.
Lemma match_exact t i sols : t ∈ [OP_CHECKSIG; OP_DUP; OP_HASH160; OP_EQUALVERIFY; OP_CHECKMULTISIG] ->
  match_op (read_of i) (read_of (t, [])) sols = if decide (i = (t, [])) then Some sols else None.
Proof.
  intros Ht. assert (E : forall e, match_op (read_of i) (read_of (t, e)) sols = if (i.1 =? t) && bool_decide (i.2 = e) then Some sols else None).
  { rewrite !elem_of_cons, list_elem_of_In in Ht. by destruct Ht as [->|[->|[->|[->|[->|[]]]]]]. }
  rewrite E. destruct i as [o v]. cbn [fst snd]. case_decide as D; [injection D as -> ->; by rewrite Z.eqb_refl, bool_decide_true|].
  destruct (Z.eqb_spec o t) as [->|]; [|done]. cbn [andb]. by case_bool_decide; subst.
Qed.

Ltac in_list := rewrite !elem_of_cons, list_elem_of_In; tauto.

Lemma compare_pubkey l sols : compare_list [OP_PUBKEY; OP_CHECKSIG] l [] = Some sols <->
  exists op k, l = [(op, k); (OP_CHECKSIG, [])] /\ key_sized k = true /\ sols = [k].
Proof.
  split.
  - intros H. destruct l as [|[op k] l]; [done|]. cbn [compare_list] in H. change (OP_PUBKEY =? OP_PUBKEYS) with false in H. cbv iota in H.
    rewrite match_key in H. cbn [snd] in H. destruct (key_sized k) eqn:K; [|done]. cbn [mbind option_bind app] in H.
    destruct l as [|i l]; [done|]. change (OP_CHECKSIG =? OP_PUBKEYS) with false in H. cbv iota in H. rewrite match_exact in H by in_list.
    case_decide as D; [|done]. destruct l; [|done]. injection H as <-. subst. by exists op, k.
  - intros (op & k & -> & K & ->). cbn [compare_list]. change (OP_PUBKEY =? OP_PUBKEYS) with false. change (OP_CHECKSIG =? OP_PUBKEYS) with false. cbv iota.
    rewrite match_key. cbn [snd]. rewrite K. cbn [mbind option_bind app]. rewrite match_exact by in_list. by rewrite decide_True.
Qed.

Lemma compare_pubkeyhash l sols : compare_list [OP_DUP; OP_HASH160; OP_PUBKEYHASH; OP_EQUALVERIFY; OP_CHECKSIG] l [] = Some sols <->
  exists op h, l = [(OP_DUP, []); (OP_HASH160, []); (op, h); (OP_EQUALVERIFY, []); (OP_CHECKSIG, [])] /\ length h = 20%nat /\ sols = [h].
Proof.
  assert (E : forall i1 i2 i3 i4 i5 r, compare_list [OP_DUP; OP_HASH160; OP_PUBKEYHASH; OP_EQUALVERIFY; OP_CHECKSIG] (i1 :: i2 :: i3 :: i4 :: i5 :: r) [] =
    if decide (i1 = (OP_DUP, [])) then if decide (i2 = (OP_HASH160, [])) then if (length i3.2 =? 20)%nat then
    if decide (i4 = (OP_EQUALVERIFY, [])) then if decide (i5 = (OP_CHECKSIG, [])) then match r with [] => Some [i3.2] | _ => None end else None else None else None else None else None).
  { intros i1 i2 i3 i4 i5 r. cbn [compare_list]. change (OP_DUP =? OP_PUBKEYS) with false. change (OP_HASH160 =? OP_PUBKEYS) with false.
    change (OP_PUBKEYHASH =? OP_PUBKEYS) with false. change (OP_EQUALVERIFY =? OP_PUBKEYS) with false. change (OP_CHECKSIG =? OP_PUBKEYS) with false. cbv iota.
    rewrite match_exact by in_list. case_decide; [|done]. cbn [mbind option_bind]. rewrite match_exact by in_list. case_decide; [|done]. cbn [mbind option_bind].
    rewrite match_hash. destruct (length i3.2 =? 20)%nat; [|done]. cbn [mbind option_bind]. rewrite match_exact by in_list. case_decide; [|done].
    cbn [mbind option_bind]. rewrite match_exact by in_list. by case_decide; [destruct r|]. }
  split.
  - intros H. destruct l as [|i1 [|i2 [|i3 [|i4 [|i5 r]]]]].
    1-5: exfalso; revert H; cbn [compare_list]; change (OP_DUP =? OP_PUBKEYS) with false; change (OP_HASH160 =? OP_PUBKEYS) with false;
      change (OP_PUBKEYHASH =? OP_PUBKEYS) with false; change (OP_EQUALVERIFY =? OP_PUBKEYS) with false; cbv iota;
      repeat (destruct (match_op _ _ _); cbn [mbind option_bind]); done.
    rewrite E in H. do 2 (case_decide; [|done]). destruct (Nat.eqb_spec (length i3.2) 20); [|done]. do 2 (case_decide; [|done]). destruct r; [|done].
    injection H as <-. subst. destruct i3 as [op h]. by exists op, h.
  - intros (op & h & -> & Hh & ->). rewrite E. cbn [snd]. rewrite Hh. do 2 rewrite decide_True by done. cbn [Nat.eqb]. by do 2 rewrite decide_True by done.
Qed.

(** Small numbers and their opcodes. *)
Definition small_op (op : Z) : bool := (op =? OP_0) || ((OP_1 <=? op) && (op <=? OP_16)).

Lemma small_EncodeOP_N n : 0 <= n <= 16 -> small_op (EncodeOP_N n) = true /\ DecodeOP_N (EncodeOP_N n) = n.
Proof.
  intros Hn. unfold small_op, EncodeOP_N, DecodeOP_N, OP_0, OP_1, OP_16. destruct (Z.eqb_spec n 0) as [->|]; [done|].
  rewrite (proj2 (Z.eqb_neq (0x51 + n - 1) 0)) by lia. split; [|lia]. cbn [orb]. apply andb_true_iff. lia.
Qed.

Lemma small_op_encode op : small_op op = true -> 0 <= DecodeOP_N op <= 16 /\ EncodeOP_N (DecodeOP_N op) = op.
Proof.
  unfold small_op, EncodeOP_N, DecodeOP_N, OP_0, OP_1, OP_16. destruct (Z.eqb_spec op 0) as [->|]; [done|]. cbn [orb]. rewrite andb_true_iff.
  intros. rewrite (proj2 (Z.eqb_neq (op - (0x51 - 1)) 0)) by lia. lia.
Qed.

(** The data of the small numbers and of the other opcodes that push nothing. *)
Lemma GetOp_no_data pc : fRet (GetOp pc) = true -> opcodeRet (GetOp pc) = OP_0 \/ OP_PUSHDATA4 < opcodeRet (GetOp pc) -> vchRet (GetOp pc) = [].
Proof.
  destruct pc as [|op pc]; [done|]. unfold GetOp. destruct (Z.leb_spec op OP_PUSHDATA4); [|done].
  destruct (if op <? OP_PUSHDATA1 then _ else _) as [[n pc']|] eqn:E; [|done]. destruct (Z.of_nat (length pc') <? n); [done|]. cbn [fRet opcodeRet vchRet].
  intros _ [->|]; [|lia]. injection E as <- <-. done.
Qed.

Lemma instrs_no_data s : forall l, instrs s = Some l -> Forall (fun i => i.1 = OP_0 \/ OP_PUSHDATA4 < i.1 -> i.2 = []) l.
Proof.
  induction s as [s H|s H IH] using script_ind; intros l E.
  - destruct s as [|b s]; [injection E as <-; constructor|]. by rewrite instrs_failed in E.
  - rewrite (instrs_step s H) in E. destruct (instrs (pc_next (GetOp s))) as [l'|] eqn:E'; [|done]. injection E as <-.
    constructor; [by apply GetOp_no_data|by apply IH].
Qed.

Lemma key_sized_nonempty v : key_sized v = true -> v <> [].
Proof. by intros H ->. Qed.

Lemma span_keys_app keys r : Forall (fun i => key_sized i.2 = true) keys -> match r with i :: _ => key_sized i.2 = false | [] => True end ->
  span_keys (keys ++ r) = (map snd keys, r).
Proof.
  intros Hk Hr. induction Hk as [|i keys Hi _ IH]; cbn [app map].
  - destruct r as [|i r]; [done|]. cbn. by rewrite Hr.
  - rewrite span_cons, Hi, IH. done.
Qed.

Lemma span_keys_spec l : exists keys, l = keys ++ (span_keys l).2 /\ (span_keys l).1 = map snd keys /\ Forall (fun i => key_sized i.2 = true) keys.
Proof.
  induction l as [|i l (keys & E & Ek & Hk)]; [by exists []|]. rewrite span_cons. destruct (key_sized i.2) eqn:K; [|by exists []].
  exists (i :: keys). cbn [fst snd app map]. split_and!; [by rewrite <- E|by rewrite Ek|by constructor].
Qed.

Lemma compare_multisig l sols : Forall (fun i => i.1 = OP_0 \/ OP_PUSHDATA4 < i.1 -> i.2 = []) l ->
  compare_list [OP_SMALLINTEGER; OP_PUBKEYS; OP_SMALLINTEGER; OP_CHECKMULTISIG] l [] = Some sols <->
  exists m keys n, 0 <= m <= 16 /\ 0 <= n <= 16 /\ Forall (fun i => key_sized i.2 = true) keys /\
    l = (EncodeOP_N m, []) :: keys ++ [(EncodeOP_N n, []); (OP_CHECKMULTISIG, [])] /\ sols = [m] :: map snd keys ++ [[n]].
Proof.
  intros Hl. assert (Hsmall : forall i, i ∈ l -> small_op i.1 = true -> i = (EncodeOP_N (DecodeOP_N i.1), []) /\ 0 <= DecodeOP_N i.1 <= 16).
  { intros [op v] Hi Hs. rewrite Forall_forall in Hl. destruct (small_op_encode op Hs) as [Hd He]. cbn [fst]. rewrite He. split; [|done].
    enough (v = []) as -> by done. apply (Hl (op, v) Hi). unfold small_op, OP_0, OP_1, OP_PUSHDATA4 in *. cbn [fst] in *. destruct (Z.eqb_spec op 0); [by left|]. cbn [orb] in Hs.
    apply andb_true_iff in Hs. right. lia. }
  cbn [compare_list]. change (OP_SMALLINTEGER =? OP_PUBKEYS) with false. change (OP_PUBKEYS =? OP_PUBKEYS) with true.
  change (OP_CHECKMULTISIG =? OP_PUBKEYS) with false. cbv iota. split.
  - intros H. destruct l as [|im l]; [done|]. rewrite match_small in H. fold (small_op im.1) in H. destruct (small_op im.1) eqn:Sm; [|done].
    cbn [mbind option_bind app] in H. destruct l as [|i l]; [done|]. destruct (span_keys_spec (i :: l)) as (keys & E & Ek & Hk).
    destruct (span_keys (i :: l)) as [ks r]. cbn [fst snd] in E, Ek. subst ks. destruct r as [|jn r]; [done|]. rewrite match_small in H. fold (small_op jn.1) in H.
    destruct (small_op jn.1) eqn:Sn; [|done]. cbn [mbind option_bind] in H. destruct r as [|ic r]; [done|]. rewrite match_exact in H by in_list.
    case_decide as D; [|done]. cbn [mbind option_bind] in H. destruct r; [|done]. injection H as <-. subst ic.
    destruct (Hsmall im) as [Em Bm]; [by left|done|]. destruct (Hsmall jn) as [En Bn]; [rewrite E; right; apply elem_of_app; right; by left|done|].
    exists (DecodeOP_N im.1), keys, (DecodeOP_N jn.1). split_and!; [lia..|done|by rewrite E, <- En, <- Em|done].
  - intros (m & keys & n & Hm & Hn & Hk & -> & ->). destruct (small_EncodeOP_N m Hm) as [Sm Dm]. destruct (small_EncodeOP_N n Hn) as [Sn Dn].
    rewrite match_small. cbn [fst]. fold (small_op (EncodeOP_N m)). rewrite Sm, Dm. cbn [mbind option_bind app].
    assert (Es : span_keys (keys ++ [(EncodeOP_N n, []); (OP_CHECKMULTISIG, [])]) = (map snd keys, [(EncodeOP_N n, []); (OP_CHECKMULTISIG, [])])).
    { by apply span_keys_app. }
    destruct (keys ++ _) as [|i l'] eqn:E; [by destruct keys|]. rewrite Es. rewrite match_small. cbn [fst]. fold (small_op (EncodeOP_N n)).
    rewrite Sn, Dn. cbn [mbind option_bind]. rewrite match_exact by in_list. by rewrite decide_True.
Qed.

(** The standard scripts and what is in them. *)
Inductive standard_form (s : CScript) : txnouttype -> list valtype -> Prop :=
  | form_scripthash h : length h = 20%nat -> s = OP_HASH160 :: 0x14 :: h ++ [OP_EQUAL] -> standard_form s TX_SCRIPTHASH [h]
  | form_data rest : s = OP_RETURN :: rest -> IsPushOnly rest = true -> standard_form s TX_NULL_DATA []
  | form_pubkey op k : (33 <= length k <= 65)%nat -> instrs s = Some [(op, k); (OP_CHECKSIG, [])] -> standard_form s TX_PUBKEY [k]
  | form_pubkeyhash op h : length h = 20%nat ->
      instrs s = Some [(OP_DUP, []); (OP_HASH160, []); (op, h); (OP_EQUALVERIFY, []); (OP_CHECKSIG, [])] -> standard_form s TX_PUBKEYHASH [h]
  | form_multisig m keys n : 1 <= m <= n -> n <= 16 -> Z.of_nat (length keys) = n -> Forall (fun i => (33 <= length i.2 <= 65)%nat) keys ->
      instrs s = Some ((EncodeOP_N m, []) :: keys ++ [(EncodeOP_N n, []); (OP_CHECKMULTISIG, [])]) ->
      standard_form s TX_MULTISIG ([m] :: map snd keys ++ [[n]]).

Lemma key_sized_iff v : key_sized v = true <-> (33 <= length v <= 65)%nat.
Proof. unfold key_sized. rewrite andb_true_iff, !Nat.leb_le. done. Qed.

Lemma templates_ok : Forall (fun t => template t.2) mTemplates.
Proof. repeat constructor; vm_compute; congruence. Qed.

Lemma multisig_counts_spec m ks n : multisig_counts ([m] :: ks ++ [[n]]) = true <-> 1 <= m <= n /\ Z.of_nat (length ks) = n.
Proof.
  unfold multisig_counts. cbn [nth]. rewrite last_cons_default, last_last. cbn [nth length]. rewrite length_app. cbn [length].
  rewrite negb_true_iff, !orb_false_iff, negb_false_iff, Z.eqb_eq, !Z.ltb_ge. lia.
Qed.

Lemma scripthash_iff s : IsPayToScriptHash s = true <-> exists h, length h = 20%nat /\ s = OP_HASH160 :: 0x14 :: h ++ [OP_EQUAL].
Proof.
  unfold IsPayToScriptHash. rewrite !andb_true_iff, Nat.eqb_eq, !Z.eqb_eq. split.
  - intros [[[Hl E0] E1] E22]. destruct s as [|a [|b s]]; [done..|]. cbn [nth length] in *. subst a b. exists (take 20 s).
    split; [rewrite length_take; lia|]. do 2 f_equal. rewrite <- (take_drop 20 s) at 1. f_equal. assert (length (drop 20 s) = 1%nat) by (rewrite length_drop; lia).
    destruct (drop 20 s) as [|x [|]] eqn:Ed; [done| |done]. f_equal. rewrite <- (take_drop 20 s), Ed, app_nth2 in E22 by (rewrite length_take; lia).
    rewrite length_take, Nat.min_l in E22 by lia. done.
  - intros (h & Hl & ->). cbn [nth length]. rewrite length_app, app_nth2 by lia. rewrite Hl. done.
Qed.

Lemma instrs_op op s : OP_PUSHDATA4 < op -> instrs (op :: s) = l ← instrs s; Some ((op, []) :: l).
Proof. intros H. rewrite instrs_step; rewrite GetOp_template by done; done. Qed.

Lemma instrs_push s b rest : Z.of_nat (length b) < 2 ^ 32 -> exists p, push_data s b = s ++ p /\
  instrs (p ++ rest) = l ← instrs rest; Some ((push_opcode_of (Z.of_nat (length b)), b) :: l).
Proof.
  intros Hb. destruct (push_data_spec s b Hb) as (p & Ep & G). exists p. split; [done|]. by rewrite instrs_step; rewrite G.
Qed.

Lemma instrs_scripthash h : length h = 20%nat -> instrs (OP_HASH160 :: 0x14 :: h ++ [OP_EQUAL]) = Some [(OP_HASH160, []); (0x14, h); (OP_EQUAL, [])].
Proof.
  intros Hh. rewrite instrs_op by done. destruct (instrs_push [] h [OP_EQUAL]) as (p & Ep & G); [lia|].
  assert (E : p = 0x14 :: h) by (unfold push_data in Ep; rewrite Hh in Ep; exact (eq_sym Ep)). rewrite E in G. cbn [app] in G. rewrite G, Hh.
  rewrite instrs_op by done. done.
Qed.

(** The first instruction of a script, if it can be read. *)
Lemma instrs_head op s l : OP_PUSHDATA4 < op -> instrs (op :: s) = Some l -> exists l', l = (op, []) :: l'.
Proof. intros Hop. rewrite instrs_op by done. destruct (instrs s); [|done]. intros [= <-]. eauto. Qed.

(** The forms that are found by the templates. *)
Lemma scan_iff s t sols : scan mTemplates s = (t, sols, true) <-> standard_form s t sols /\ t <> TX_SCRIPTHASH /\ t <> TX_NULL_DATA.
Proof.
  assert (T : forall t', t' ∈ mTemplates -> compare (length t'.2) s t'.2 [] = (l ← instrs s; compare_list t'.2 l [])).
  { intros t' Ht. apply compare_spec; [|done]. pose proof templates_ok as F. rewrite Forall_forall in F. by apply F. }
  pose proof (T _ ltac:(unfold mTemplates; left)) as T1. pose proof (T _ ltac:(unfold mTemplates; right; left)) as T2.
  pose proof (T _ ltac:(unfold mTemplates; right; right; left)) as T3. cbn [snd] in T1, T2, T3. clear T.
  unfold scan, mTemplates. rewrite T1, T2, T3. destruct (instrs s) as [l|] eqn:El; cbn [mbind option_bind].
  2: { split; [done|]. intros [F [F1 F2]]. inversion F; subst; congruence. }
  pose proof (instrs_no_data s l El) as Hd.
  destruct (compare_list [OP_PUBKEY; OP_CHECKSIG] l []) as [s1|] eqn:C1.
  { apply compare_pubkey in C1 as (op & k & -> & K & ->). split.
    - intros [= <- <-]. split; [|done]. apply key_sized_iff in K. by apply (form_pubkey _ op).
    - intros [F [F1 F2]]. inversion F as [| |op' k' Hk E|op' h' Hh E|m keys n Hm Hn Hl Hk E]; subst; try done; rewrite El in E; [by injection E as <- <-|done|].
      apply (f_equal (fmap length)) in E. cbn in E. injection E as E. rewrite length_app in E. cbn in E. destruct keys; [cbn in Hm; lia|cbn in E; lia]. }
  destruct (compare_list [OP_DUP; _; _; _; _] l []) as [s2|] eqn:C2.
  { apply compare_pubkeyhash in C2 as (op & h & -> & Hh & ->). split.
    - intros [= <- <-]. split; [|done]. by apply (form_pubkeyhash _ op).
    - intros [F [F1 F2]]. inversion F as [| |op' k' Hk E|op' h' Hh' E|m keys n Hm Hn Hl Hk E]; subst; try done; rewrite El in E; [done|by injection E as <- <-|].
      injection E as E _. exfalso. destruct (small_EncodeOP_N m ltac:(lia)) as [S _]. rewrite <- E in S. done. }
  destruct (compare_list [OP_SMALLINTEGER; _; _; _] l []) as [s3|] eqn:C3.
  2: { split; [done|]. intros [F [F1 F2]]. exfalso. inversion F as [| |op' k' Hk E|op' h' Hh' E|m keys n Hm Hn Hl Hk E]; subst; try done; rewrite El in E; injection E as ->.
    - enough (Some [k'] = None) by done. rewrite <- C1. symmetry. apply compare_pubkey. exists op', k'. by rewrite key_sized_iff.
    - enough (Some [h'] = None) by done. rewrite <- C2. symmetry. apply compare_pubkeyhash. by exists op', h'.
    - enough (Some ([m] :: map snd keys ++ [[Z.of_nat (length keys)]]) = None) by done. rewrite <- C3. symmetry. apply compare_multisig; [done|].
      exists m, keys, (Z.of_nat (length keys)). split_and!; [lia..| |done|done]. eapply Forall_impl; [exact Hk|]. intros i. apply key_sized_iff. }
  apply compare_multisig in C3 as (m & keys & n & Hm & Hn & Hk & -> & ->); [|done]. split.
  - intros [= <- <- Hc]. apply multisig_counts_spec in Hc as [Hmn Hlen]. rewrite length_map in Hlen. split; [|done].
    apply form_multisig; [done|lia|done| |done]. eapply Forall_impl; [exact Hk|]. intros i. apply key_sized_iff.
  - intros [F [F1 F2]]. inversion F as [| |op' k' Hk' E|op' h' Hh' E|m' keys' n' Hm' Hn' Hl' Hk' E]; subst; try done; rewrite El in E.
    + exfalso. enough (Some [k'] = None) by done. rewrite <- C1. symmetry. apply compare_pubkey. apply Some_inj in E. exists op', k'. by rewrite E, key_sized_iff.
    + exfalso. enough (Some [h'] = None) by done. rewrite <- C2. symmetry. apply compare_pubkeyhash. apply Some_inj in E. exists op', h'. by rewrite E.
    + injection E as E1 E2.
      assert (m = m') as ->.
      { destruct (small_EncodeOP_N m Hm) as [_ <-]. rewrite E1. by apply small_EncodeOP_N; lia. }
      apply app_inj_2 in E2 as [-> E3]; [|done]. injection E3 as E3.
      assert (n = Z.of_nat (length keys')) as ->.
      { destruct (small_EncodeOP_N n Hn) as [_ <-]. rewrite E3. by apply small_EncodeOP_N; lia. }
      f_equal. apply multisig_counts_spec. by rewrite length_map.
Qed.

Lemma Solver_form s t sols : Solver s = (t, sols, true) <-> standard_form s t sols.
Proof.
  unfold Solver. destruct (IsPayToScriptHash s) eqn:P.
  { apply scripthash_iff in P as (h & Hh & ->). pose proof (instrs_scripthash h Hh) as I. split.
    - intros [= <- <-]. cbn [drop]. rewrite drop_0, take_app_length' by done. by apply (form_scripthash _ h).
    - intros F. inversion F as [h' Hh' E|rest E|op k Hk E|op h' Hh' E|m keys n Hm Hn Hl Hk E]; subst; try done.
      + injection E as E. apply app_inj_2 in E as [-> _]; [|done]. cbn [drop]. by rewrite drop_0, take_app_length'.
      + rewrite I in E. congruence.
      + rewrite I in E. congruence.
      + rewrite I in E. injection E as E _. destruct (small_EncodeOP_N m ltac:(lia)) as [S _]. by rewrite <- E in S. }
  destruct (match s with [] => false | op :: rest => (op =? OP_RETURN) && IsPushOnly rest end) eqn:R.
  { destruct s as [|op rest]; [done|]. apply andb_true_iff in R as [->%Z.eqb_eq R]. split; [intros [= <- <-]; by apply (form_data _ rest)|].
    intros F. inversion F as [h' Hh' E|rest' E R'|op' k Hk E|op' h' Hh' E|m keys n Hm Hn Hl Hk E]; subst; try done;
      apply instrs_head in E as [l' E]; try done; injection E as E.
    all: try (subst; cbn in Hk; lia); try done. destruct (small_EncodeOP_N m ltac:(lia)) as [S _]. by rewrite E in S. }
  rewrite scan_iff. split; [by intros []|]. intros F. split; [done|]. split; intros ->; inversion F as [h' Hh' E|rest' E R'| | |]; subst.
  - assert (P' : IsPayToScriptHash (OP_HASH160 :: 0x14 :: h' ++ [OP_EQUAL]) = true) by (apply scripthash_iff; eauto). congruence.
  - by rewrite Z.eqb_refl, R' in R.
Qed.

(** The scripts that [Solver] recognises are exactly the standard ones, whatever push
    opcodes they use for their data: pay to a script's hash, byte for byte; a return with
    pushes behind it; a key of 33 to 65 bytes and a check of its signature; the hash of a
    key; and 1 to 16 keys of which so many must sign, the count being right.  What is
    found is the data; no script has two forms; and a script with fewer keys than its
    count, or the like, is called a multisignature script but refused. *)
Theorem Solver_classifies s t sols :
  (Solver s = (t, sols, true) <-> standard_form s t sols) /\
  (Solver s = (t, sols, false) -> t = TX_MULTISIG \/ (t = TX_NONSTANDARD /\ sols = [] /\ forall t' sols', ~ standard_form s t' sols')).
Proof.
  split; [apply Solver_form|]. intros E. destruct t; try by (exfalso; revert E; unfold Solver, scan, mTemplates; repeat case_match; congruence).
  - right. split; [done|]. split; [by revert E; unfold Solver, scan, mTemplates; repeat case_match; congruence|].
    intros t' sols' F. apply Solver_form in F. congruence.
  - by left.
Qed.

Lemma Solver_classifies_witness :
  let s := OP_DUP :: OP_HASH160 :: OP_PUSHDATA1 :: 20 :: repeat 7 20 ++ [OP_EQUALVERIFY; OP_CHECKSIG] in
  standard_form s TX_PUBKEYHASH [repeat 7 20] /\
  (TX_MULTISIG = TX_MULTISIG \/ (TX_MULTISIG = TX_NONSTANDARD /\ [[2]; repeat 2 33; [1]] = ([] : list valtype) /\
     forall t' sols', ~ standard_form (0x52 :: 33 :: repeat 2 33 ++ [OP_1; OP_CHECKMULTISIG]) t' sols')).
Proof.
  intros s. split.
  - apply (proj1 (Solver_classifies s TX_PUBKEYHASH [repeat 7 20])). vm_compute. reflexivity.
  - apply (proj2 (Solver_classifies (0x52 :: 33 :: repeat 2 33 ++ [OP_1; OP_CHECKMULTISIG]) TX_MULTISIG [[2]; repeat 2 33; [1]])). vm_compute. reflexivity.
Defined.

(** * Destinations *)

Lemma length_bytes160 id : wf 5 id -> length (to_bytes id) = 20%nat.
Proof. intros [Hl _]. rewrite length_to_bytes, Hl. done. Qed.

Lemma uint160_of_bytes id : wf 5 id -> uint160_of (to_bytes id) = id.
Proof. apply limbs_to_bytes. Qed.

Lemma instrs_nil : instrs [] = Some [].
Proof. done. Qed.

Lemma script_keyid id : wf 5 id -> standard_form (GetScriptForDestination (CKeyID id)) TX_PUBKEYHASH [to_bytes id].
Proof.
  intros Hid. cbn [GetScriptForDestination]. unfold push_opcode. cbn [app].
  pose proof (length_bytes160 id Hid) as Hl.
  destruct (instrs_push [OP_DUP; OP_HASH160] (to_bytes id) [OP_EQUALVERIFY; OP_CHECKSIG]) as (p & -> & E); [lia|].
  apply (form_pubkeyhash _ (push_opcode_of 20)); [done|]. rewrite <- !app_assoc. cbn [app]. do 2 (rewrite instrs_op by done). rewrite E, Hl.
  do 2 (rewrite instrs_op by done). done.
Qed.

Lemma script_scriptid id : wf 5 id -> standard_form (GetScriptForDestination (CScriptID id)) TX_SCRIPTHASH [to_bytes id].
Proof.
  intros Hid. pose proof (length_bytes160 id Hid) as Hl. apply (form_scripthash _ (to_bytes id)); [done|]. cbn [GetScriptForDestination].
  unfold push_opcode, push_data. cbn [app]. by rewrite Hl.
Qed.

(** The pushes of keys. *)
Lemma instrs_pushes keys rest l : Forall (fun k => Z.of_nat (length k) < 2 ^ 32) keys -> instrs rest = Some l -> forall s,
  exists p, fold_left push_data keys s = s ++ p /\ instrs (p ++ rest) = Some (map (fun k => (push_opcode_of (Z.of_nat (length k)), k)) keys ++ l).
Proof.
  intros Hk Hr. induction Hk as [|k keys Hk _ IH]; intros s; cbn [fold_left map app].
  - exists []. by rewrite app_nil_r.
  - destruct (push_data_spec s k Hk) as (p1 & -> & G). destruct (IH (s ++ p1)) as (p2 & -> & E). exists (p1 ++ p2). rewrite <- !app_assoc. split; [done|].
    rewrite instrs_step; rewrite G; [|done]. cbn [pc_next opcodeRet vchRet]. by rewrite E.
Qed.

Lemma EncodeOP_N_op n : 1 <= n <= 16 -> OP_PUSHDATA4 < EncodeOP_N n.
Proof. intros. unfold EncodeOP_N, OP_PUSHDATA4, OP_1. rewrite (proj2 (Z.eqb_neq n 0)) by lia. lia. Qed.

Lemma script_multisig m keys : 1 <= m <= Z.of_nat (length keys) -> Z.of_nat (length keys) <= 16 -> Forall (fun k => (33 <= length k <= 65)%nat) keys ->
  standard_form (GetScriptForMultisig m keys) TX_MULTISIG ([m] :: keys ++ [[Z.of_nat (length keys)]]).
Proof.
  intros Hm Hn Hk. unfold GetScriptForMultisig, push_opcode. rewrite app_nil_l. set (n := Z.of_nat (length keys)) in *.
  destruct (instrs_pushes keys ([EncodeOP_N n] ++ [OP_CHECKMULTISIG]) [(EncodeOP_N n, []); (OP_CHECKMULTISIG, [])]) with (s := [EncodeOP_N m]) as (p & -> & E).
  - eapply Forall_impl; [exact Hk|]. cbn. lia.
  - cbn [app]. rewrite instrs_op by (apply EncodeOP_N_op; lia). by rewrite instrs_op.
  - set (ks := map (fun k => (push_opcode_of (Z.of_nat (length k)), k)) keys) in *.
    assert (Ek : map snd ks = keys) by (unfold ks; rewrite map_map; apply map_id).
    assert (F : standard_form ((([EncodeOP_N m] ++ p) ++ [EncodeOP_N n]) ++ [OP_CHECKMULTISIG]) TX_MULTISIG ([m] :: map snd ks ++ [[n]])); [|by rewrite Ek in F].
    apply form_multisig; [done|done|unfold ks, n; by rewrite length_map| |].
    + unfold ks. apply Forall_fmap. exact Hk.
    + rewrite <- !app_assoc. cbn [app] in *. rewrite instrs_op by (apply EncodeOP_N_op; lia). by rewrite E.
Qed.

(** A key in its serialized form. *)
Definition wf_key (k : byte_list) : Prop := CPubKey_Set k = k /\ pubkey_IsValid k = true.

(** Scripts and destinations agree: the script for the hash of a key or of a script is
    standard and pays to that hash; the script for 1 to 16 keys, so many of which must
    sign, names exactly these keys and this number; and only the script for a script's
    hash pays to it. *)
Theorem destination_roundtrip id m keys datacarrier :
  wf 5 id -> Forall wf_key keys -> 1 <= m <= Z.of_nat (length keys) -> Z.of_nat (length keys) <= 16 ->
  (forall d, d ∈ [CKeyID id; CScriptID id] ->
     ExtractDestination (GetScriptForDestination d) = Some d /\ (IsStandard datacarrier (GetScriptForDestination d)).2 = true) /\
  ExtractDestinations (GetScriptForMultisig m keys) = Some (TX_MULTISIG, map (fun k => CKeyID (GetID k)) keys, m) /\
  (forall s, is_bytes s -> ExtractDestination s = Some (CScriptID id) -> s = GetScriptForDestination (CScriptID id)).
Proof.
  intros Hid Hk Hm Hn. split; [|split].
  - intros d Hd. rewrite !elem_of_cons, list_elem_of_In in Hd. destruct Hd as [->|[->|[]]]; unfold ExtractDestination, IsStandard.
    + rewrite (proj2 (Solver_form _ _ _) (script_keyid id Hid)). cbn [negb]. by rewrite uint160_of_bytes.
    + rewrite (proj2 (Solver_form _ _ _) (script_scriptid id Hid)). cbn [negb]. by rewrite uint160_of_bytes.
  - assert (Hs : Forall (fun k => (33 <= length k <= 65)%nat) keys).
    { eapply Forall_impl; [exact Hk|]. intros k [E V]. rewrite <- E in V. destruct (CPubKey_Set_valid k V) as [_ ?]. lia. }
    unfold ExtractDestinations. rewrite (proj2 (Solver_form _ _ _) (script_multisig m keys Hm Hn Hs)). cbn [negb].
    assert (E1 : take (length ([m] :: keys ++ [[Z.of_nat (length keys)]]) - 2) (drop 1 ([m] :: keys ++ [[Z.of_nat (length keys)]])) = keys).
    { cbn [drop length]. rewrite drop_0, length_app. cbn [length]. apply take_app_length'. lia. }
    rewrite E1. assert (E2 : filter (fun k => pubkey_IsValid k = true) (map CPubKey_Set keys) = keys).
    { clear -Hk. induction Hk as [|k keys [Ek V] _ IH]; [done|]. cbn [map]. rewrite Ek. by rewrite filter_cons_True, IH. }
    rewrite E2. destruct keys; [cbn in Hm; lia|done].
  - intros s Hb. unfold ExtractDestination. destruct (Solver s) as [[t sols] ok] eqn:E. destruct ok; [|done]. cbn [negb].
    apply Solver_form in E. destruct E as [h Hh ->|rest|op k| |]; [|done|by case_match|done|done]. intros Eh. injection Eh as Eh.
    cbn [GetScriptForDestination]. rewrite <- Eh. unfold push_opcode, push_data, uint160_of. cbn [app].
    assert (Hw : is_bytes h). { apply Forall_inv_tail, Forall_inv_tail in Hb. by apply words_app in Hb as []. }
    assert (Eb : to_bytes (limbs_of_bytes 5 h) = h) by (by apply limbs_of_bytes_bytes).
    rewrite Eb, Hh. done.
Qed.

(** A key with the header of a compressed one. *)
Definition example_key : byte_list := 2 :: repeat 9 32.

Lemma destination_roundtrip_witness :
  let id := limbs_of_bytes 5 (repeat 7 20) in
  ExtractDestination (GetScriptForDestination (CKeyID id)) = Some (CKeyID id) /\
  ExtractDestinations (GetScriptForMultisig 1 [example_key; example_key]) = Some (TX_MULTISIG, map (fun k => CKeyID (GetID k)) [example_key; example_key], 1).
Proof.
  intros id. assert (Hid : wf 5 id) by (apply limbs_of_bytes_wf; repeat constructor; done).
  assert (Hk : Forall wf_key [example_key; example_key]) by (repeat constructor).
  destruct (destination_roundtrip id 1 [example_key; example_key] true Hid Hk) as (H1 & H2 & _); [cbn; lia|cbn; lia|].
  split; [apply H1; left|exact H2].
Defined.

(** * The signature of a block *)

Lemma hash_sized_no_key v : length v = 20%nat -> pubkey_IsValid (CPubKey_Set v) = false.
Proof. intros H. destruct (pubkey_IsValid _) eqn:E; [|done]. destruct (CPubKey_Set_valid v E) as [_ ?]. lia. Qed.

(** C39 A block with proof of work has no signature; one with proof of stake has one that
    the key verifies which the second output of the coinstake names in a script of a key
    and a check of its signature.  No other script will do: for an output to the hash of a
    key the hash itself is taken for a key, which it never is. *)
Theorem CheckBlockSignature_iff lib hashes block :
  CheckBlockSignature lib hashes block = true <->
  (block_IsProofOfStake block = false /\ vchBlockSig block = []) \/
  (block_IsProofOfStake block = true /\ vchBlockSig block <> [] /\
   exists tx o k, vtx block !! 1%nat = Some tx /\ vout tx !! 1%nat = Some o /\ standard_form (scriptPubKey o) TX_PUBKEY [k] /\ wf_key k /\
     Verify lib k (header_GetHash hashes (header block)) (vchBlockSig block) = true).
Proof.
  unfold CheckBlockSignature. destruct (block_IsProofOfStake block); cbn [negb].
  2: { rewrite Nat.eqb_eq. split; [intros H; left; split; [done|by apply nil_length_inv]|by intros [[_ ->]|[? _]]]. }
  split.
  - intros H. right. split; [done|]. destruct (vtx block !! 1%nat) as [tx|]; [|done]. cbn [mbind option_bind] in H.
    destruct (vout tx !! 1%nat) as [o|] eqn:Eo; [|done]. destruct (Solver (scriptPubKey o)) as [[t sols] ok] eqn:E. destruct ok; [|done]. cbn [negb] in H.
    apply Solver_form in E. destruct E as [h|rest|op k Hk E|op h Hh E|]; try done; [|by rewrite hash_sized_no_key in H].
    destruct (pubkey_IsValid (CPubKey_Set k)) eqn:V; [|done]. cbn [negb] in H. destruct (vchBlockSig block) as [|b sig] eqn:Es; [done|]. cbn [length Nat.eqb] in H.
    split; [done|]. destruct (CPubKey_Set_valid k V) as [Ek _]. rewrite Ek in *. exists tx, o, k. split_and!; [done|done|by apply (form_pubkey _ op)|done|done].
  - intros [[? _]|(_ & Hs & tx & o & k & -> & Eo & F & [Ek V] & Hv)]; [done|]. cbn [mbind option_bind]. rewrite Eo.
    rewrite (proj2 (Solver_form _ _ _) F). cbn [negb]. rewrite Ek, V. cbn [negb]. destruct (vchBlockSig block); [done|exact Hv].
Qed.
