(* ===== verification/Merkle.v ===== *)
(** The Merkle tree of a block (primitives/block.cpp): [BuildMerkleTree] with the
    detection of duplicated transactions, [GetMerkleBranch] and [CheckMerkleBranch].

    The array [vMerkleTree] holds the levels of the tree one after the other; it is
    read by index as the code reads it.  Sizes are [nat], the index of a transaction
    is a [Z] (an [int] of the code, which [CheckMerkleBranch] compares with -1). *)

From S2P Require Import Prelude Uint256 Arith256 Hashes Transaction.

(** * Operations *)

(** [Hash(BEGIN(a), END(a), BEGIN(b), END(b))]. *)
Definition merkle_hash (a b : uint256) : uint256 := Hash2 (to_bytes a) (to_bytes b).

Lemma merkle_hash_wf a b : wf256 (merkle_hash a b).
Proof. apply Hash2_wf. Qed.
#[global] Opaque merkle_hash.

(** One turn of the inner loop, at index [i] of the level of [nSize] nodes that
    starts at [j]. *)
Definition merkle_pair (nSize j : nat) (st : list uint256 * bool) (i : nat) : list uint256 * bool :=
  let '(t, mutated) := st in
  let i2 := Nat.min (i + 1) (nSize - 1) in
  let left := nth (j + i) t (zero W256) in
  let right := nth (j + i2) t (zero W256) in
  let mutated :=
    if (i2 =? i + 1)%nat && (i2 + 1 =? nSize)%nat && eq left right then true else mutated in
  (t ++ [merkle_hash left right], mutated).

(** The inner loop: [i] is 0, 2, 4, ... below [nSize]. *)
Definition merkle_level (nSize j : nat) (st : list uint256 * bool) : list uint256 * bool :=
  fold_left (merkle_pair nSize j) (map (Nat.mul 2) (seq 0 ((nSize + 1) / 2))) st.

(** The outer loop; [None] when the fuel runs out. *)
Fixpoint merkle_loop (fuel nSize j : nat) (st : list uint256 * bool) : option (list uint256 * bool) :=
  match fuel with
  | O => None
  | S fuel =>
      if (1 <? nSize)%nat
      then merkle_loop fuel ((nSize + 1) / 2) (j + nSize) (merkle_level nSize j st)
      else Some st
  end.

(** The array, the root and the flag [*fMutated]. *)
Definition BuildMerkleTree (vtx : list CTransaction) : option (list uint256 * uint256 * bool) :=
  match merkle_loop (S (length vtx)) (length vtx) 0 (map tx_GetHash vtx, false) with
  | None => None
  | Some (t, mutated) =>
      Some (t, if (length t =? 0)%nat then zero W256 else back (zero W256) t, mutated)
  end.

(** A read of the array out of its bounds is [None]. *)
Definition tree_at (t : list uint256) (k : Z) : option uint256 :=
  if k <? 0 then None else t !! Z.to_nat k.

Fixpoint branch_loop (fuel nSize j : nat) (nIndex : Z) (t : list uint256) : option (list uint256) :=
  match fuel with
  | O => None
  | S fuel =>
      if (1 <? nSize)%nat then
        let i := Z.min (Z.lxor nIndex 1) (Z.of_nat nSize - 1) in
        match tree_at t (Z.of_nat j + i) with
        | None => None
        | Some h =>
            match branch_loop fuel ((nSize + 1) / 2) (j + nSize) (Z.shiftr nIndex 1) t with
            | None => None
            | Some br => Some (h :: br)
            end
        end
      else Some []
  end.

(** The cached array is built when it is empty. *)
Definition GetMerkleBranch (vMerkleTree : list uint256) (vtx : list CTransaction) (nIndex : Z)
  : option (list uint256) :=
  match (if (length vMerkleTree =? 0)%nat
         then match BuildMerkleTree vtx with None => None | Some (t, _, _) => Some t end
         else Some vMerkleTree) with
  | None => None
  | Some t => branch_loop (S (length vtx)) (length vtx) 0 nIndex t
  end.

Fixpoint check_branch_loop (hash : uint256) (vMerkleBranch : list uint256) (nIndex : Z) : uint256 :=
  match vMerkleBranch with
  | [] => hash
  | it :: br =>
      let hash := if negb (Z.land nIndex 1 =? 0) then merkle_hash it hash else merkle_hash hash it in
      check_branch_loop hash br (Z.shiftr nIndex 1)
  end.

Definition CheckMerkleBranch (hash : uint256) (vMerkleBranch : list uint256) (nIndex : Z) : uint256 :=
  if nIndex =? -1 then zero W256 else check_branch_loop hash vMerkleBranch nIndex.

(** * The tree as its levels *)

(** The level above: neighbours are hashed together, an odd last node with itself. *)
Fixpoint parents (l : list uint256) : list uint256 :=
  match l with
  | a :: b :: r => merkle_hash a b :: parents r
  | [a] => [merkle_hash a a]
  | [] => []
  end.

(** The pairs hashed to make the level above. *)
Fixpoint pairs (l : list uint256) : list (uint256 * uint256) :=
  match l with
  | a :: b :: r => (a, b) :: pairs r
  | [a] => [(a, a)]
  | [] => []
  end.

(** The level consists of pairs and the last one is a node twice. *)
Fixpoint ends_twice (l : list uint256) : bool :=
  match l with
  | [a; b] => bool_decide (a = b)
  | _ :: _ :: r => ends_twice r
  | _ => false
  end.

Fixpoint levels_above (fuel : nat) (l : list uint256) : list (list uint256) :=
  match fuel with
  | O => []
  | S fuel => if (1 <? length l)%nat then parents l :: levels_above fuel (parents l) else []
  end.

Definition merkle_levels (l : list uint256) : list (list uint256) := l :: levels_above (length l) l.
Definition merkle_root (l : list uint256) : uint256 := back (zero W256) (concat (merkle_levels l)).

(** All the pairs hashed to make the tree. *)
Fixpoint pairs_above (fuel : nat) (l : list uint256) : list (uint256 * uint256) :=
  match fuel with
  | O => []
  | S fuel => if (1 <? length l)%nat then pairs l ++ pairs_above fuel (parents l) else []
  end.

Definition merkle_pairs (l : list uint256) : list (uint256 * uint256) := pairs_above (length l) l.

(** The pairs hashed by [CheckMerkleBranch]. *)
Fixpoint branch_pairs (h : uint256) (br : list uint256) (nIndex : Z) : list (uint256 * uint256) :=
  match br with
  | [] => []
  | it :: br =>
      let p := if Z.odd nIndex then (it, h) else (h, it) in
      p :: branch_pairs (merkle_hash p.1 p.2) br (Z.shiftr nIndex 1)
  end.

(** No two different pairs among [ps] have the same hash. *)
Definition no_collision (ps : list (uint256 * uint256)) : Prop :=
  forall p q, p ∈ ps -> q ∈ ps -> merkle_hash p.1 p.2 = merkle_hash q.1 q.2 -> p = q.

(** * Lemmas *)

Lemma pair_list_ind {A} (P : list A -> Prop) :
  P [] -> (forall a, P [a]) -> (forall a b r, P r -> P (a :: b :: r)) -> forall l, P l.
Proof.
  intros H0 H1 H2 l. enough (P l /\ forall x, P (x :: l)) by tauto.
  induction l as [|a l [IH1 IH2]]; split; auto.
Qed.

Lemma half_up_SS n : ((S (S n) + 1) / 2 = S ((n + 1) / 2))%nat.
Proof. replace (S (S n) + 1)%nat with (n + 1 + 1 * 2)%nat by lia. rewrite Nat.div_add by lia. lia. Qed.

Lemma length_parents l : length (parents l) = ((length l + 1) / 2)%nat.
Proof.
  induction l as [|a|a b r IH] using pair_list_ind; [done..|].
  cbn [parents length]. by rewrite half_up_SS, IH.
Qed.

Lemma half_up_lt n : (1 < n -> (n + 1) / 2 < n)%nat.
Proof. intros. apply Nat.Div0.div_lt_upper_bound. lia. Qed.

Lemma half_up_pos n : (0 < n -> 0 < (n + 1) / 2)%nat.
Proof. intros. apply Nat.div_str_pos. lia. Qed.

Lemma parents_map l : parents l = map (fun p => merkle_hash p.1 p.2) (pairs l).
Proof. induction l as [|a|a b r IH] using pair_list_ind; cbn; [done..|]. by rewrite IH. Qed.

Lemma ends_twice_cons a b r :
  ends_twice (a :: b :: r) = if (length r =? 0)%nat then bool_decide (a = b) else ends_twice r.
Proof. by destruct r. Qed.

Lemma nth_level {A} (pre l1 : list A) a r out d :
  nth (length pre + length l1) (pre ++ (l1 ++ a :: r) ++ out) d = a.
Proof. rewrite app_nth2_plus, <- app_assoc, app_nth2 by lia. by rewrite Nat.sub_diag. Qed.

(** The inner loop, after the indices of [done]. *)
Lemma merkle_level_loop pre l2 : forall l1 out m,
  Nat.even (length l1) = true ->
  fold_left (merkle_pair (length l1 + length l2) (length pre))
    (map (Nat.mul 2) (seq (length l1 / 2) ((length l2 + 1) / 2))) (pre ++ (l1 ++ l2) ++ out, m)
  = (pre ++ (l1 ++ l2) ++ out ++ parents l2, m || ends_twice l2).
Proof.
  induction l2 as [|a|a b r IH] using pair_list_ind; intros l1 out m He.
  - cbn. by rewrite !app_nil_r, orb_false_r.
  - apply Nat.even_spec in He as [k Hk]. cbn -[Nat.mul Nat.div Nat.min].
    replace (length l1 / 2)%nat with k by (rewrite Hk, Nat.mul_comm, Nat.div_mul; lia).
    change ((1 + 1) / 2)%nat with 1%nat. cbn -[Nat.mul Nat.min]. rewrite <- Hk.
    replace (Nat.min (length l1 + 1) (length l1 + 1 - 1))%nat with (length l1) by lia.
    destruct (Nat.eqb_spec (length l1) (length l1 + 1)); [lia|]. cbn [andb].
    rewrite nth_level, orb_false_r. by rewrite <- !app_assoc.
  - pose proof He as He'. apply Nat.even_spec in He as [k Hk].
    assert (Hd : (length l1 / 2)%nat = k) by (rewrite Hk, Nat.mul_comm, Nat.div_mul; lia).
    cbn [length]. rewrite half_up_SS, Hd. cbn [seq map fold_left]. rewrite <- Hk.
    unfold merkle_pair at 2.
    replace (Nat.min (length l1 + 1) (length l1 + S (S (length r)) - 1)) with (length l1 + 1)%nat by lia.
    rewrite Nat.eqb_refl. cbn [andb]. rewrite nth_level.
    assert (nth (length pre + (length l1 + 1)) (pre ++ (l1 ++ a :: b :: r) ++ out) (zero W256) = b) as ->.
    { pose proof (nth_level pre (l1 ++ [a]) b r out (zero W256)) as H.
      rewrite length_app, <- (app_assoc l1) in H. exact H. }
    specialize (IH (l1 ++ [a; b]) (out ++ [merkle_hash a b])
      (if ((length l1 + 1 + 1 =? length l1 + S (S (length r)))%nat && eq a b) then true else m)).
    rewrite length_app in IH. cbn [length] in IH.
    replace ((length l1 + 2) / 2)%nat with (S k) in IH
      by (rewrite Hk; replace (2 * k + 2)%nat with (S k * 2)%nat by lia; by rewrite Nat.div_mul).
    replace (length l1 + 2 + length r)%nat with (length l1 + S (S (length r)))%nat in IH by lia.
    rewrite <- !app_assoc in IH. cbn [app] in IH.
    rewrite <- !app_assoc. cbn [app]. rewrite IH.
    + cbn [parents]. f_equal. rewrite ends_twice_cons.
      unfold eq. destruct (Nat.eqb_spec (length r) 0) as [E|E].
      * rewrite (proj2 (Nat.eqb_eq _ _)) by lia. apply nil_length_inv in E as ->. cbn.
        rewrite orb_false_r. case_bool_decide; [by rewrite orb_true_r|by rewrite orb_false_r].
      * rewrite (proj2 (Nat.eqb_neq _ _)) by lia. done.
    + rewrite Hk, Nat.add_comm. apply Nat.even_spec. exists (S k). lia.
Qed.

Lemma merkle_level_spec pre l m :
  merkle_level (length l) (length pre) (pre ++ l, m) = (pre ++ l ++ parents l, m || ends_twice l).
Proof. pose proof (merkle_level_loop pre l [] [] m eq_refl) as H. by rewrite !app_nil_r in H. Qed.

Lemma merkle_loop_spec fuel : forall fuel' pre l m,
  (length l < fuel)%nat -> (length l <= fuel')%nat ->
  merkle_loop fuel (length l) (length pre) (pre ++ l, m) =
  Some (pre ++ concat (l :: levels_above fuel' l),
        m || existsb ends_twice (l :: levels_above fuel' l)).
Proof.
  induction fuel as [|f IH]; intros [|f'] pre l m H H'; [lia..| |]; cbn [merkle_loop levels_above].
  - destruct (Nat.ltb_spec 1 (length l)); [lia|]. destruct l; [|cbn in *; lia]. cbn.
    by rewrite app_nil_r, orb_false_r.
  - destruct (Nat.ltb_spec 1 (length l)) as [E|E].
    + rewrite merkle_level_spec, <- length_app, <- length_parents, app_assoc.
      pose proof (half_up_lt _ E) as ?.
      rewrite (IH f') by (rewrite length_parents; lia). cbn [concat existsb]. by rewrite <- !app_assoc, <- !orb_assoc.
    + cbn. rewrite app_nil_r. destruct l as [|? [|]]; cbn in *; [by rewrite orb_false_r..|lia].
Qed.

Lemma BuildMerkleTree_levels vtx :
  BuildMerkleTree vtx =
  Some (concat (merkle_levels (map tx_GetHash vtx)), merkle_root (map tx_GetHash vtx),
        existsb ends_twice (merkle_levels (map tx_GetHash vtx))).
Proof.
  unfold BuildMerkleTree, merkle_root, merkle_levels.
  pose proof (merkle_loop_spec (S (length vtx)) (length vtx) [] (map tx_GetHash vtx) false) as H.
  rewrite !length_map in *. cbn [app length] in H. rewrite H by lia. cbn [orb].
  destruct vtx as [|tx vtx]; [done|]. reflexivity.
Qed.

(** The sibling of node [i] in level [l], as the code picks it. *)
Definition sibling (l : list uint256) (i : nat) : uint256 :=
  nth (Nat.min (if Nat.even i then i + 1 else i - 1) (length l - 1)) l (zero W256).

Fixpoint branch_of (fuel : nat) (l : list uint256) (i : nat) : list uint256 :=
  match fuel with
  | O => []
  | S fuel => if (1 <? length l)%nat then sibling l i :: branch_of fuel (parents l) (i / 2) else []
  end.

Lemma sibling_SS a b r i : (i < length r)%nat -> sibling (a :: b :: r) (S (S i)) = sibling r i.
Proof.
  intros H. unfold sibling. cbn [Nat.even].
  replace (Nat.min (if Nat.even i then S (S i) + 1 else S (S i) - 1) (length (a :: b :: r) - 1))
    with (S (S (Nat.min (if Nat.even i then i + 1 else i - 1) (length r - 1)))); [done|].
  cbn [length]. destruct (Nat.even i) eqn:E; [lia|]. destruct i; [done|lia].
Qed.

Lemma half_SS i : (S (S i) / 2)%nat = S (i / 2).
Proof. replace (S (S i)) with (i + 1 * 2)%nat by lia. rewrite Nat.div_add by lia. lia. Qed.

Lemma pairs_lookup l : forall i, (i < length l)%nat ->
  pairs l !! (i / 2)%nat =
  Some (if Nat.odd i then (sibling l i, nth i l (zero W256)) else (nth i l (zero W256), sibling l i)).
Proof.
  induction l as [|a|a b r IH] using pair_list_ind; intros i Hi; cbn [length] in Hi; [lia|..].
  - by replace i with 0%nat by lia.
  - destruct i as [|[|i]]; [done..|]. rewrite half_SS, sibling_SS by lia. cbn [pairs lookup list_lookup].
    rewrite IH by lia. change (Nat.odd (S (S i))) with (Nat.odd i). done.
Qed.

Lemma parents_lookup l i p : pairs l !! i = Some p -> nth i (parents l) (zero W256) = merkle_hash p.1 p.2.
Proof.
  intros H. apply nth_lookup_Some. by rewrite parents_map, list_lookup_fmap, H.
Qed.

Lemma half_lt_parents l i : (i < length l -> i / 2 < length (parents l))%nat.
Proof.
  intros H. rewrite length_parents. apply Nat.Div0.div_lt_upper_bound.
  pose proof (Nat.div_mod_eq (length l + 1) 2). pose proof (Nat.mod_upper_bound (length l + 1) 2). lia.
Qed.

(** Bit 0 and the shift of an index. *)
Lemma lxor_1 i : Z.lxor (Z.of_nat i) 1 = Z.of_nat (if Nat.even i then i + 1 else i - 1)%nat.
Proof.
  destruct (Nat.even i) eqn:E.
  - apply Nat.even_spec in E as [k ->]. rewrite !Nat2Z.inj_add, !Nat2Z.inj_mul. by destruct k.
  - assert (Nat.odd i = true) as O by (unfold Nat.odd; by rewrite E).
    apply Nat.odd_spec in O as [k ->]. rewrite Nat.add_sub, Nat2Z.inj_add, !Nat2Z.inj_mul. by destruct k.
Qed.

Lemma shiftr_1 i : Z.shiftr (Z.of_nat i) 1 = Z.of_nat (i / 2).
Proof. rewrite Z.shiftr_div_pow2, Nat2Z.inj_div by lia. done. Qed.

Lemma odd_of_nat i : Z.odd (Z.of_nat i) = Nat.odd i.
Proof.
  rewrite <- (Nat2Z.id i) at 2. rewrite <- Z.negb_even, <- Nat.negb_even. f_equal.
  destruct (Z.even (Z.of_nat i)) eqn:E.
  - apply Z.even_spec in E as [k Hk]. symmetry. apply Nat.even_spec. exists (Z.to_nat k). lia.
  - symmetry. apply not_true_is_false. intros [k Hk]%Nat.even_spec.
    apply not_true_iff_false in E. apply E, Z.even_spec. exists (Z.of_nat k). lia.
Qed.

Lemma land_1_odd z : negb (Z.land z 1 =? 0) = Z.odd z.
Proof.
  change 1 with (2 ^ 1 - 1) at 1. rewrite land_ones_mod by lia.
  change (2 ^ 1) with 2. rewrite Zmod_odd. by destruct (Z.odd z).
Qed.

Lemma list_lookup_nth {A} (l : list A) k d : (k < length l)%nat -> l !! k = Some (nth k l d).
Proof.
  intros H. destruct (lookup_lt_is_Some_2 l k H) as [x Hx]. rewrite Hx. f_equal.
  symmetry. by apply nth_lookup_Some.
Qed.

Lemma tree_at_level pre l r k :
  (k < length l)%nat -> tree_at (pre ++ l ++ r) (Z.of_nat (length pre) + Z.of_nat k) = Some (nth k l (zero W256)).
Proof.
  intros H. unfold tree_at. destruct (Z.ltb_spec (Z.of_nat (length pre) + Z.of_nat k) 0); [lia|].
  replace (Z.to_nat _) with (length pre + k)%nat by lia.
  rewrite lookup_app_r, Nat.add_comm, Nat.add_sub by lia.
  rewrite lookup_app_l by lia. by apply list_lookup_nth.
Qed.

Lemma branch_loop_spec fuel : forall fuel' pre l i,
  (length l < fuel)%nat -> (length l <= fuel')%nat -> (i < length l)%nat ->
  branch_loop fuel (length l) (length pre) (Z.of_nat i) (pre ++ concat (l :: levels_above fuel' l))
  = Some (branch_of fuel' l i).
Proof.
  induction fuel as [|f IH]; intros [|f'] pre l i H H' Hi; [lia..|]. cbn [branch_loop levels_above branch_of].
  destruct (Nat.ltb_spec 1 (length l)) as [E|E]; [|done].
  cbn [concat]. rewrite lxor_1.
  replace (Z.min _ _) with
    (Z.of_nat (Nat.min (if Nat.even i then i + 1 else i - 1) (length l - 1))) by lia.
  rewrite tree_at_level by lia. rewrite shiftr_1, <- length_app, <- length_parents, app_assoc.
  pose proof (half_up_lt _ E) as ?. pose proof (half_lt_parents _ _ Hi).
  change (parents l ++ concat (levels_above f' (parents l)))
    with (concat (parents l :: levels_above f' (parents l))).
  by rewrite IH by (rewrite ?length_parents in *; lia).
Qed.

Lemma length_branch_of fuel : forall l l' i i',
  length l = length l' -> length (branch_of fuel l i) = length (branch_of fuel l' i').
Proof.
  induction fuel as [|f IH]; intros l l' i i' H; [done|]. cbn. rewrite H. case_match; [|done].
  cbn. f_equal. apply IH. by rewrite !length_parents, H.
Qed.

Lemma root_above f l :
  (1 < length l)%nat ->
  back (zero W256) (concat (l :: levels_above (S f) l)) =
  back (zero W256) (concat (parents l :: levels_above f (parents l))).
Proof.
  intros E. cbn [levels_above]. rewrite (proj2 (Nat.ltb_lt _ _) E). cbn [concat].
  pose proof (half_up_pos (length l) ltac:(lia)) as P. rewrite <- length_parents in P.
  destruct (parents l) as [|x r]; [cbn in P; lia|]. cbn [app].
  unfold back. induction l as [|y [|z l] IH]; [done..|].
  transitivity (List.last ((z :: l) ++ x :: r ++ concat (levels_above f (x :: r))) (zero W256)); [done|].
  destruct l; [done|]. apply IH. cbn; lia.
Qed.

(** A step of the check: the pair hashed and the rest. *)
Lemma check_branch_step h it br i :
  check_branch_loop h (it :: br) (Z.of_nat i) =
  let p := if Nat.odd i then (it, h) else (h, it) in
  check_branch_loop (merkle_hash p.1 p.2) br (Z.of_nat (i / 2)).
Proof. cbn [check_branch_loop]. rewrite land_1_odd, odd_of_nat, shiftr_1. by destruct (Nat.odd i). Qed.

Lemma check_branch_complete fuel : forall l i,
  (length l <= fuel)%nat -> (i < length l)%nat ->
  check_branch_loop (nth i l (zero W256)) (branch_of fuel l i) (Z.of_nat i) =
  back (zero W256) (concat (l :: levels_above fuel l)).
Proof.
  induction fuel as [|f IH]; intros l i H Hi; [lia|]. cbn [branch_of].
  destruct (Nat.ltb_spec 1 (length l)) as [E|E].
  - rewrite check_branch_step, (root_above f) by done. cbv zeta.
    pose proof (pairs_lookup l i Hi) as P.
    replace (if Nat.odd i then _ else _) with
      (if Nat.odd i then (sibling l i, nth i l (zero W256)) else (nth i l (zero W256), sibling l i)) by done.
    rewrite <- (parents_lookup l (i / 2) _ P). apply IH; [|by apply half_lt_parents].
    rewrite length_parents. pose proof (half_up_lt _ E). lia.
  - cbn [levels_above]. rewrite (proj2 (Nat.ltb_ge _ _) E).
    destruct l as [|x [|]]; cbn in Hi, E; [lia| |lia]. by replace i with 0%nat by lia.
Qed.

Lemma no_collision_sub ps qs : (forall p, p ∈ qs -> p ∈ ps) -> no_collision ps -> no_collision qs.
Proof. intros S N p q Hp Hq. apply N; auto. Qed.

Ltac solve_elem := rewrite ?elem_of_app, ?elem_of_cons, ?elem_of_app, ?elem_of_cons; tauto.

Lemma check_branch_sound fuel : forall l i h br,
  (length l <= fuel)%nat -> (i < length l)%nat ->
  length br = length (branch_of fuel l i) ->
  no_collision (pairs_above fuel l ++ branch_pairs h br (Z.of_nat i)) ->
  check_branch_loop h br (Z.of_nat i) = back (zero W256) (concat (l :: levels_above fuel l)) ->
  h = nth i l (zero W256) /\ br = branch_of fuel l i.
Proof.
  induction fuel as [|f IH]; intros l i h br H Hi Hl Hn; [lia|]. cbn [branch_of] in *.
  destruct (Nat.ltb_spec 1 (length l)) as [E|E].
  - destruct br as [|it br]; [done|]. cbn in Hl. injection Hl as Hl.
    rewrite check_branch_step, (root_above f) by done. cbv zeta. intros Hc.
    cbn [branch_pairs] in Hn. rewrite odd_of_nat, shiftr_1 in Hn.
    set (p := if Nat.odd i then (it, h) else (h, it)) in *.
    pose proof (half_up_lt _ E) as ?. pose proof (half_lt_parents _ _ Hi).
    cbn [pairs_above] in Hn. rewrite (proj2 (Nat.ltb_lt _ _) E) in Hn.
    destruct (IH (parents l) (i / 2)%nat (merkle_hash p.1 p.2) br) as [I1 ->]; [|done|done| |done|].
    { rewrite length_parents. lia. }
    { revert Hn. apply no_collision_sub. intros q.
      solve_elem. }
    pose proof (pairs_lookup l i Hi) as P. rewrite (parents_lookup l (i / 2) _ P) in I1.
    apply Hn in I1; [|solve_elem
                     |apply list_elem_of_lookup_2 in P; solve_elem].
    unfold p in I1. by destruct (Nat.odd i); injection I1 as -> ->.
  - destruct br; [|done]. cbn [levels_above]. rewrite (proj2 (Nat.ltb_ge _ _) E).
    destruct l as [|x [|]]; cbn in Hi, E; [lia| |lia]. by replace i with 0%nat by lia.
Qed.

(** The number of levels is logarithmic. *)
Lemma log2_up_half n : (1 < n)%nat -> Nat.log2_up n = S (Nat.log2_up ((n + 1) / 2)).
Proof.
  intros H. pose proof (Nat.div_mod_eq (n + 1) 2). pose proof (Nat.mod_upper_bound (n + 1) 2).
  rewrite (Nat.log2_up_eqn n) by done. f_equal.
  destruct (decide (n = 2%nat)) as [->|]; [done|].
  rewrite Nat.log2_up_eqn by lia.
  assert (Hp : (Nat.pred n = 2 * Nat.pred ((n + 1) / 2) \/ Nat.pred n = 2 * Nat.pred ((n + 1) / 2) + 1)%nat) by lia.
  destruct Hp as [-> | ->].
  - by rewrite Nat.log2_double by lia.
  - by rewrite Nat.log2_succ_double by lia.
Qed.

Lemma length_branch_log fuel : forall l i,
  (length l <= fuel)%nat -> (0 < length l)%nat -> length (branch_of fuel l i) = Nat.log2_up (length l).
Proof.
  induction fuel as [|f IH]; intros l i H H0; [lia|]. cbn [branch_of].
  destruct (Nat.ltb_spec 1 (length l)) as [E|E].
  - pose proof (half_up_lt _ E). pose proof (half_up_pos _ H0).
    cbn [length]. rewrite IH by (rewrite length_parents; lia).
    by rewrite length_parents, (log2_up_half (length l)).
  - by replace (length l) with 1%nat by lia.
Qed.

Lemma cons_eq {A} (x y : A) l m : x :: l = y :: m -> x = y /\ l = m.
Proof. by intros [= -> ->]. Qed.

Lemma parents_nil l : parents l = [] -> l = [].
Proof. by destruct l as [|? [|]]. Qed.

Lemma parents_inj l1 : forall l2,
  no_collision (pairs l1 ++ pairs l2) -> ends_twice l1 = false -> ends_twice l2 = false ->
  parents l1 = parents l2 -> l1 = l2.
Proof.
  induction l1 as [|a|a b r IH] using pair_list_ind; intros l2 Hn E1 E2 Hp.
  - symmetry in Hp. by apply parents_nil in Hp.
  - destruct l2 as [|c [|d r']]; [done|..]; cbn [parents] in Hp; apply cons_eq in Hp as [Hh Hr]; cbn [pairs app] in Hn.
    + eapply (Hn (a, a) (c, c)) in Hh; [|solve_elem..]. congruence.
    + symmetry in Hr. apply parents_nil in Hr as ->.
      eapply (Hn (a, a) (c, d)) in Hh; [|solve_elem..].
      cbn in E2. case_bool_decide; congruence.
  - rewrite ends_twice_cons in E1.
    destruct l2 as [|c [|d r']]; [done|..]; cbn [parents] in Hp; apply cons_eq in Hp as [Hh Hr]; cbn [pairs app] in Hn.
    + apply parents_nil in Hr as ->. eapply (Hn (a, b) (c, c)) in Hh; [|solve_elem..].
      cbn in E1. case_bool_decide; congruence.
    + rewrite ends_twice_cons in E2.
      eapply (Hn (a, b) (c, d)) in Hh; [|solve_elem..]. apply pair_eq in Hh as [-> ->]. do 2 f_equal.
      apply IH; [|by destruct r as [|? []]|by destruct r' as [|? []]|done].
      revert Hn. apply no_collision_sub. intros q. cbn. solve_elem.
Qed.

Lemma merkle_levels_inj f : forall f' l1 l2,
  (length l1 <= f)%nat -> (length l2 <= f')%nat -> (0 < length l1)%nat -> (0 < length l2)%nat ->
  Nat.log2_up (length l1) = Nat.log2_up (length l2) ->
  no_collision (pairs_above f l1 ++ pairs_above f' l2) ->
  existsb ends_twice (l1 :: levels_above f l1) = false ->
  existsb ends_twice (l2 :: levels_above f' l2) = false ->
  back (zero W256) (concat (l1 :: levels_above f l1)) = back (zero W256) (concat (l2 :: levels_above f' l2)) ->
  l1 = l2.
Proof.
  induction f as [|f IH]; intros [|f'] l1 l2 F1 F2 P1 P2 HL Hn E1 E2 HR; [lia..|].
  destruct (Nat.ltb_spec 1 (length l1)) as [L1|L1].
  - assert (L2 : (1 < length l2)%nat).
    { rewrite log2_up_half in HL by done. destruct (decide (length l2 = 1%nat)) as [X|]; [|lia].
      by rewrite X in HL. }
    rewrite (log2_up_half (length l1)), (log2_up_half (length l2)) in HL by done. injection HL as HL.
    rewrite !root_above in HR by done. cbn [levels_above pairs_above] in *.
    rewrite (proj2 (Nat.ltb_lt _ _) L1) in *. rewrite (proj2 (Nat.ltb_lt _ _) L2) in *.
    cbn [existsb] in E1, E2. apply orb_false_iff in E1 as [E1 E1'], E2 as [E2 E2'].
    pose proof (half_up_lt _ L1). pose proof (half_up_lt _ L2).
    pose proof (half_up_pos _ P1). pose proof (half_up_pos _ P2).
    apply parents_inj; [|done..|].
    + revert Hn. apply no_collision_sub. intros q. solve_elem.
    + apply (IH f'); rewrite ?length_parents; try done; [lia..|].
      revert Hn. apply no_collision_sub. intros q. solve_elem.
  - assert (L2 : (length l2 = 1)%nat).
    { replace (length l1) with 1%nat in HL by lia. destruct (Nat.ltb_spec 1 (length l2)); [|lia].
      by rewrite (log2_up_half (length l2)) in HL. }
    cbn [levels_above] in HR. rewrite (proj2 (Nat.ltb_ge _ _) L1), L2 in HR.
    destruct l1 as [|x [|]], l2 as [|y [|]]; cbn in *; try done; try lia. congruence.
Qed.

Lemma parents_dup l a : Nat.even (length l) = true -> parents (l ++ [a; a]) = parents (l ++ [a]).
Proof.
  induction l as [|x|x y r IH] using pair_list_ind; intros H; [done..|]. cbn. f_equal. by apply IH.
Qed.

Lemma ends_twice_dup l a : Nat.even (length l) = true -> ends_twice (l ++ [a; a]) = true.
Proof.
  induction l as [|x|x y r IH] using pair_list_ind; intros H; [by apply bool_decide_eq_true|done|].
  cbn [app]. rewrite ends_twice_cons, length_app, Nat.add_comm. by apply IH.
Qed.

Lemma levels_above_mono f : forall f' l, (length l <= f)%nat -> (length l <= f')%nat ->
  levels_above f l = levels_above f' l.
Proof.
  induction f as [|f IH]; intros [|f'] l H H'; cbn [levels_above]; [done|..].
  1, 2: by rewrite (proj2 (Nat.ltb_ge _ _)) by lia.
  destruct (Nat.ltb_spec 1 (length l)) as [E|E]; [|done]. pose proof (half_up_lt _ E).
  f_equal. apply IH; rewrite length_parents; lia.
Qed.

Lemma merkle_root_dup l a :
  Nat.even (length l) = true -> l <> [] ->
  merkle_root (l ++ [a; a]) = merkle_root (l ++ [a]) /\ existsb ends_twice (merkle_levels (l ++ [a; a])) = true.
Proof.
  intros He Hl. assert (2 <= length l)%nat by (destruct l as [|? [|]]; cbn in *; done || lia).
  unfold merkle_root, merkle_levels. split; [|cbn [existsb]; by rewrite ends_twice_dup].
  rewrite !length_app. cbn [length]. rewrite (Nat.add_comm _ 2), (Nat.add_comm _ 1). cbn [Nat.add].
  rewrite (root_above (S (length l)) (l ++ [a; a])) by (rewrite length_app; cbn [length]; lia).
  rewrite (root_above (length l) (l ++ [a])) by (rewrite length_app; cbn [length]; lia).
  rewrite parents_dup by done.
  rewrite (levels_above_mono (S (length l)) (length l)); [done|..];
    rewrite length_parents, length_app; cbn [length];
    pose proof (half_up_lt (length l + 1)); lia.
Qed.

Lemma no_collision_same ps p : (forall q, q ∈ ps -> q = p) -> no_collision ps.
Proof. intros H a b Ha Hb _. by rewrite (H a Ha), (H b Hb). Qed.

(** * Properties *)

(** For every transaction of a block [GetMerkleBranch] succeeds, from an empty or a
    filled [vMerkleTree], with a branch of logarithmic length that
    [CheckMerkleBranch] accepts for the root [BuildMerkleTree] computes; and, unless
    two different pairs of hashes collide, it is the only branch of that length that
    [CheckMerkleBranch] accepts at this index, for no other hash. *)
Theorem merkle_branch_correct vtx i h br' :
  (i < length vtx)%nat ->
  no_collision (merkle_pairs (map tx_GetHash vtx) ++ branch_pairs h br' (Z.of_nat i)) ->
  exists tree root mutated br,
    BuildMerkleTree vtx = Some (tree, root, mutated) /\
    GetMerkleBranch [] vtx (Z.of_nat i) = Some br /\
    GetMerkleBranch tree vtx (Z.of_nat i) = Some br /\
    length br = Nat.log2_up (length vtx) /\
    CheckMerkleBranch (nth i (map tx_GetHash vtx) (zero W256)) br (Z.of_nat i) = root /\
    (length br' = length br -> CheckMerkleBranch h br' (Z.of_nat i) = root ->
     h = nth i (map tx_GetHash vtx) (zero W256) /\ br' = br).
Proof.
  intros Hi Hn. set (l := map tx_GetHash vtx) in *.
  assert (Hl : length l = length vtx) by apply length_map.
  pose proof (branch_loop_spec (S (length vtx)) (length l) [] l i) as B. rewrite Hl in B.
  specialize (B ltac:(lia) ltac:(lia) Hi). cbn [app length] in B.
  exists (concat (merkle_levels l)), (merkle_root l), (existsb ends_twice (merkle_levels l)), (branch_of (length l) l i).
  unfold CheckMerkleBranch. destruct (Z.eqb_spec (Z.of_nat i) (-1)); [lia|].
  split_and!.
  - apply BuildMerkleTree_levels.
  - unfold GetMerkleBranch. cbn [length Nat.eqb]. rewrite BuildMerkleTree_levels. fold l.
    unfold merkle_levels. by rewrite Hl.
  - unfold GetMerkleBranch. unfold merkle_levels at 1 2. destruct l as [|x l'] eqn:E; [cbn in Hl; lia|].
    cbn [concat app length Nat.eqb]. by rewrite <- Hl in B |- *.
  - rewrite length_branch_log by lia. by rewrite Hl.
  - apply check_branch_complete; lia.
  - intros H1 H2. by apply (check_branch_sound (length l)); try lia.
Qed.

(** C27 Unless two different pairs of hashes collide, two blocks of transactions with
    trees of the same height, the same root and neither flagged as mutated have the
    same transaction hashes; and the known way to keep the root, to repeat the last
    transaction of an odd list, is always flagged. *)
Theorem merkle_root_binds vtx1 vtx2 t1 t2 root :
  (0 < length vtx1)%nat -> (0 < length vtx2)%nat ->
  Nat.log2_up (length vtx1) = Nat.log2_up (length vtx2) ->
  no_collision (merkle_pairs (map tx_GetHash vtx1) ++ merkle_pairs (map tx_GetHash vtx2)) ->
  BuildMerkleTree vtx1 = Some (t1, root, false) ->
  BuildMerkleTree vtx2 = Some (t2, root, false) ->
  map tx_GetHash vtx1 = map tx_GetHash vtx2 /\
  (forall vtx tx, vtx <> [] -> Nat.even (length vtx) = true ->
    exists t t' root' mutated,
      BuildMerkleTree (vtx ++ [tx]) = Some (t, root', mutated) /\
      BuildMerkleTree (vtx ++ [tx; tx]) = Some (t', root', true)).
Proof.
  rewrite !BuildMerkleTree_levels. intros P1 P2 HL Hn B1 B2. split.
  - assert (R : merkle_root (map tx_GetHash vtx1) = root /\ merkle_root (map tx_GetHash vtx2) = root /\
      existsb ends_twice (merkle_levels (map tx_GetHash vtx1)) = false /\
      existsb ends_twice (merkle_levels (map tx_GetHash vtx2)) = false)
      by (split_and!; congruence).
    destruct R as (R1 & R2 & M1 & M2).
    apply (merkle_levels_inj (length (map tx_GetHash vtx1)) (length (map tx_GetHash vtx2)));
      [lia|lia|by rewrite length_map..|by rewrite !length_map|done|done|done|].
    exact (eq_trans R1 (eq_sym R2)).
  - intros vtx tx Hne He.
    pose proof (merkle_root_dup (map tx_GetHash vtx) (tx_GetHash tx)) as [D1 D2];
      [by rewrite length_map|by destruct vtx|].
    rewrite !BuildMerkleTree_levels, !map_app. cbn [map]. rewrite <- D1, D2. eauto 10.
Qed.

(** Two transactions; their pair is the only one hashed. *)
Definition example_vtx : list CTransaction := [example_coinbase; example_coinstake].
Definition example_txids : list uint256 := map tx_GetHash example_vtx.

Lemma example_pairs a b : no_collision (merkle_pairs [a; b] ++ branch_pairs b [a] 1).
Proof. apply (no_collision_same _ (a, b)). intros q. cbn. rewrite !elem_of_cons, elem_of_nil. tauto. Qed.

Lemma example_pairs_twice a b : no_collision (merkle_pairs [a; b] ++ merkle_pairs [a; b]).
Proof. apply (no_collision_same _ (a, b)). intros q. cbn. rewrite !elem_of_cons, elem_of_nil. tauto. Qed.

Lemma example_not_mutated a b : a <> b -> existsb ends_twice (merkle_levels [a; b]) = false.
Proof. intros H. cbn. by rewrite bool_decide_eq_false_2. Qed.

Lemma example_build :
  BuildMerkleTree example_vtx = Some (concat (merkle_levels example_txids), merkle_root example_txids, false).
Proof.
  rewrite BuildMerkleTree_levels. change (map tx_GetHash example_vtx) with example_txids.
  unfold example_txids at 3. cbn [map example_vtx].
  rewrite example_not_mutated; [reflexivity|].
  apply (bool_decide_unpack _). vm_compute. exact I.
Qed.

Lemma merkle_branch_correct_witness :
  (1 < length example_vtx)%nat /\
  exists tree root mutated br,
    BuildMerkleTree example_vtx = Some (tree, root, mutated) /\
    GetMerkleBranch [] example_vtx 1 = Some br /\
    GetMerkleBranch tree example_vtx 1 = Some br /\
    length br = Nat.log2_up (length example_vtx) /\
    CheckMerkleBranch (nth 1 example_txids (zero W256)) br 1 = root /\
    (length [tx_GetHash example_coinbase] = length br ->
     CheckMerkleBranch (tx_GetHash example_coinstake) [tx_GetHash example_coinbase] 1 = root ->
     tx_GetHash example_coinstake = nth 1 example_txids (zero W256) /\ [tx_GetHash example_coinbase] = br).
Proof.
  assert (H : (1 < length example_vtx)%nat) by (vm_compute; lia).
  split; [exact H|].
  exact (merkle_branch_correct example_vtx 1 (tx_GetHash example_coinstake) [tx_GetHash example_coinbase] H
    (example_pairs _ _)).
Defined.

Lemma merkle_root_binds_witness :
  map tx_GetHash example_vtx = map tx_GetHash example_vtx /\
  (forall vtx tx, vtx <> [] -> Nat.even (length vtx) = true ->
    exists t t' root' mutated,
      BuildMerkleTree (vtx ++ [tx]) = Some (t, root', mutated) /\
      BuildMerkleTree (vtx ++ [tx; tx]) = Some (t', root', true)).
Proof.
  apply (merkle_root_binds example_vtx example_vtx (concat (merkle_levels example_txids))
           (concat (merkle_levels example_txids)) (merkle_root example_txids)).
  1, 2: cbn; lia.
  - reflexivity.
  - exact (example_pairs_twice _ _).
  - exact example_build.
  - exact example_build.
Defined.
