(* ===== verification/Compressor.v ===== *)
(** The compact form of amounts and scripts in the coin database: compressor.h and
    compressor.cpp.

    A script is written as one of six special forms, or as its size plus six and its
    bytes.  [Unserialize] writes over a script that is already there: it is an
    argument, kept when a key of a special form cannot be decompressed. *)

From S2P Require Import Prelude Uint256 Arith256 Serialize Digest Hashes Script Transaction Pubkey.

(** * Amounts *)

(** [while (((n % 10) == 0) && e < 9)]: at most nine turns. *)
Fixpoint amount_loop (fuel : nat) (n e : Z) : Z * Z :=
  match fuel with
  | O => (n, e)
  | S fuel => if (n mod 10 =? 0) && (e <? 9) then amount_loop fuel (n / 10) (e + 1) else (n, e)
  end.

Definition CompressAmount (n : Z) : Z :=
  if n =? 0 then 0
  else
    let '(n, e) := amount_loop 9 n 0 in
    if e <? 9 then
      let d := n mod 10 in
      let n := n / 10 in
      u64 (1 + (n * 9 + d - 1) * 10 + e)
    else u64 (1 + (n - 1) * 10 + 9).

(** [while (e) { n *= 10; e--; }]. *)
Fixpoint times_ten (e : nat) (n : Z) : Z :=
  match e with O => n | S e => times_ten e (u64 (n * 10)) end.

Definition DecompressAmount (x : Z) : Z :=
  if x =? 0 then 0
  else
    let x := x - 1 in
    let e := x mod 10 in
    let x := x / 10 in
    let n := if e <? 9 then
               let d := x mod 9 + 1 in
               u64 (x / 9 * 10 + d)
             else u64 (x + 1) in
    times_ten (Z.to_nat e) n.

(** * Scripts *)

Definition nSpecialScripts : Z := 6.
Definition byte_at (s : byte_list) (i : nat) : Z := nth i s 0.

Definition IsToKeyID (script : CScript) : option byte_list :=
  if (length script =? 25)%nat && (byte_at script 0 =? OP_DUP) && (byte_at script 1 =? OP_HASH160)
     && (byte_at script 2 =? 20) && (byte_at script 23 =? OP_EQUALVERIFY)
     && (byte_at script 24 =? OP_CHECKSIG)
  then Some (take 20 (drop 3 script)) else None.

Definition IsToScriptID (script : CScript) : option byte_list :=
  if (length script =? 23)%nat && (byte_at script 0 =? OP_HASH160) && (byte_at script 1 =? 20)
     && (byte_at script 22 =? OP_EQUAL)
  then Some (take 20 (drop 2 script)) else None.

Section Compressor.
Context (lib : secp256k1).

Definition IsToPubKey (script : CScript) : option CPubKey :=
  if (length script =? 35)%nat && (byte_at script 0 =? 33) && (byte_at script 34 =? OP_CHECKSIG)
     && ((byte_at script 1 =? 2) || (byte_at script 1 =? 3))
  then Some (CPubKey_Set (take 33 (drop 1 script)))
  else if (length script =? 67)%nat && (byte_at script 0 =? 65) && (byte_at script 66 =? OP_CHECKSIG)
     && (byte_at script 1 =? 4)
  then
    let pubkey := CPubKey_Set (take 65 (drop 1 script)) in
    if IsFullyValid lib pubkey then Some pubkey else None
  else None.

(** [None] for the result false. *)
Definition Compress (script : CScript) : option byte_list :=
  match IsToKeyID script with
  | Some keyID => Some (0 :: keyID)
  | None =>
  match IsToScriptID script with
  | Some scriptID => Some (1 :: scriptID)
  | None =>
  match IsToPubKey script with
  | Some pubkey =>
      let h := byte_at pubkey 0 in
      let x := take 32 (drop 1 pubkey) in
      if (h =? 2) || (h =? 3) then Some (h :: x)
      else if h =? 4 then Some (Z.lor 4 (Z.land (byte_at pubkey 64) 1) :: x)
      else None
  | None => None
  end end end.

Definition GetSpecialSize (nSize : Z) : Z :=
  if (nSize =? 0) || (nSize =? 1) then 20
  else if (nSize =? 2) || (nSize =? 3) || (nSize =? 4) || (nSize =? 5) then 32
  else 0.

(** [None] for the result false, which leaves the script as it is. *)
Definition Decompress (nSize : Z) (data : byte_list) : option CScript :=
  if nSize =? 0 then
    Some ([OP_DUP; OP_HASH160; 20] ++ take 20 data ++ [OP_EQUALVERIFY; OP_CHECKSIG])
  else if nSize =? 1 then Some ([OP_HASH160; 20] ++ take 20 data ++ [OP_EQUAL])
  else if (nSize =? 2) || (nSize =? 3) then Some ([33; nSize] ++ take 32 data ++ [OP_CHECKSIG])
  else if (nSize =? 4) || (nSize =? 5) then
    match pubkey_Decompress lib (CPubKey_Set ((nSize - 2) :: take 32 data)) with
    | None => None
    | Some pubkey => Some ([65] ++ take 65 pubkey ++ [OP_CHECKSIG])
    end
  else None.

Definition script_GetSerializeSize (script : CScript) : Z :=
  match Compress script with
  | Some compr => Z.of_nat (length compr)
  | None =>
      let nSize := Z.of_nat (length script) + nSpecialScripts in
      Z.of_nat (length script) + GetSizeOfVarInt 32 nSize
  end.

Definition script_Serialize (script : CScript) : byte_list :=
  match Compress script with
  | Some compr => compr
  | None => WriteVarInt 32 (Z.of_nat (length script) + nSpecialScripts) ++ script
  end.

Local Open Scope result_scope.

Definition script_Unserialize (script : CScript) : reader CScript := fun bs =>
  n <-! ReadVarInt 32 bs ;;
  if n.1 <? nSpecialScripts then
    v <-! read_bytes (Z.to_nat (GetSpecialSize n.1)) n.2 ;;
    Ok (default script (Decompress n.1 v.1), v.2)
  else read_bytes (Z.to_nat (n.1 - nSpecialScripts)) n.2.

(** [CTxOutCompressor], over an output that is being read into. *)
Definition txout_Serialize (o : CTxOut) : byte_list :=
  WriteVarInt 64 (CompressAmount (u64 (nValue o))) ++ script_Serialize (scriptPubKey o).

Definition txout_Unserialize (o : CTxOut) : reader CTxOut := fun bs =>
  v <-! ReadVarInt 64 bs ;;
  s <-! script_Unserialize (scriptPubKey o) v.2 ;;
  Ok ({| nValue := s64 (DecompressAmount v.1); scriptPubKey := s.1 |}, s.2).
End Compressor.

(** * Lemmas on amounts *)

Lemma amount_loop_spec fuel : forall n e,
  0 < n -> 0 <= e -> e + Z.of_nat fuel = 9 ->
  exists k m, amount_loop fuel n e = (m, e + k) /\ n = m * 10 ^ k /\ 0 < m /\
    0 <= k /\ e + k <= 9 /\ (e + k < 9 -> m mod 10 <> 0).
Proof.
  induction fuel as [|f IH]; intros n e Hn He Hf; cbn [amount_loop].
  - exists 0, n. rewrite Z.add_0_r, Z.pow_0_r. split_and!; try lia. done.
  - destruct (Z.eqb_spec (n mod 10) 0) as [E|E]; cbn [andb].
    + destruct (Z.ltb_spec e 9); [|lia]. pose proof (Z.div_mod n 10 ltac:(lia)).
      destruct (IH (n / 10) (e + 1)) as (k & m & -> & E2 & ? & ? & ? & ?); [lia..|].
      exists (k + 1), m. replace (e + 1 + k) with (e + (k + 1)) in * by lia.
      rewrite Z.pow_add_r, Z.pow_1_r by lia. split_and!; try done; nia.
    + exists 0, n. rewrite Z.add_0_r, Z.pow_0_r. split_and!; try lia. done.
Qed.

Lemma amount_loop_mul k : forall fuel v e,
  (k <= fuel)%nat -> e + Z.of_nat fuel = 9 -> (v mod 10 <> 0 \/ k = fuel) ->
  amount_loop fuel (v * 10 ^ Z.of_nat k) e = (v, e + Z.of_nat k).
Proof.
  induction k as [|k IH]; intros [|f] v e Hk Hf Hv; cbn [amount_loop]; try lia.
  - by rewrite Z.mul_1_r, Z.add_0_r.
  - rewrite Z.mul_1_r. destruct Hv as [Hv|]; [|lia].
    rewrite (proj2 (Z.eqb_neq _ _) Hv). cbn [andb]. by rewrite Z.add_0_r.
  - rewrite Nat2Z.inj_succ, Z.pow_succ_r by lia.
    replace (v * (10 * 10 ^ Z.of_nat k)) with (v * 10 ^ Z.of_nat k * 10) by lia.
    rewrite Z.mod_mul, Z.div_mul by lia. cbn [Z.eqb andb]. destruct (Z.ltb_spec e 9); [|lia].
    rewrite IH by lia. f_equal. lia.
Qed.

Lemma pow10_ge_1 k : 1 <= 10 ^ Z.of_nat k.
Proof. pose proof (Z.pow_pos_nonneg 10 (Z.of_nat k)). lia. Qed.

Lemma times_ten_exact e : forall n, 0 <= n -> n * 10 ^ Z.of_nat e < 2 ^ 64 ->
  times_ten e n = n * 10 ^ Z.of_nat e.
Proof.
  induction e as [|e IH]; intros n Hn H; cbn [times_ten]; [cbn; lia|].
  pose proof (pow10_ge_1 e). rewrite Nat2Z.inj_succ, Z.pow_succ_r in * by lia.
  rewrite u64_small by (wunfold; nia). rewrite IH by nia. lia.
Qed.

Lemma mod_div_unique a b q r : 0 <= r < b -> a = b * q + r -> a mod b = r /\ a / b = q.
Proof.
  intros Hr ->. split; symmetry; [apply (Z.mod_unique_pos _ _ q)|apply (Z.div_unique_pos _ _ _ r)]; lia.
Qed.

(** The code of [m] times a power of ten, and its value. *)
Definition amount_code (m e : Z) : Z :=
  if e <? 9 then 1 + (m / 10 * 9 + m mod 10 - 1) * 10 + e else 1 + (m - 1) * 10 + 9.

Lemma amount_code_bound m e :
  0 < m -> 0 <= e <= 9 -> (e < 9 -> m mod 10 <> 0) -> 0 < amount_code m e <= 9 * (m * 10 ^ e) + 9.
Proof.
  intros Hm He Hd. unfold amount_code.
  assert (1 <= 10 ^ e) by (rewrite <- (Z2Nat.id e) by lia; apply pow10_ge_1).
  pose proof (Z.div_mod m 10 ltac:(lia)). pose proof (Z.mod_pos_bound m 10 ltac:(lia)).
  destruct (Z.ltb_spec e 9); [specialize (Hd ltac:(lia)); nia|].
  replace e with 9 by lia. change (10 ^ 9) with 1000000000. lia.
Qed.

Lemma DecompressAmount_code m e :
  0 < m -> 0 <= e <= 9 -> (e < 9 -> m mod 10 <> 0) -> m * 10 ^ e < 2 ^ 64 ->
  DecompressAmount (amount_code m e) = m * 10 ^ e.
Proof.
  intros Hm He Hd Hb. pose proof (amount_code_bound m e Hm He Hd).
  assert (1 <= 10 ^ e) by (rewrite <- (Z2Nat.id e) by lia; apply pow10_ge_1).
  assert (m < 2 ^ 64) by nia.
  unfold DecompressAmount. destruct (Z.eqb_spec (amount_code m e) 0); [lia|]. cbv zeta.
  pose proof (Z.div_mod m 10 ltac:(lia)). pose proof (Z.mod_pos_bound m 10 ltac:(lia)).
  assert (Hx : (amount_code m e - 1) mod 10 = e /\
               (amount_code m e - 1) / 10 = if e <? 9 then m / 10 * 9 + m mod 10 - 1 else m - 1).
  { unfold amount_code. destruct (Z.ltb_spec e 9); apply mod_div_unique; lia. }
  destruct Hx as [-> ->].
  assert (Hv : (if e <? 9 then u64 ((if e <? 9 then m / 10 * 9 + m mod 10 - 1 else m - 1) / 9 * 10 +
                   ((if e <? 9 then m / 10 * 9 + m mod 10 - 1 else m - 1) mod 9 + 1))
                else u64 ((if e <? 9 then m / 10 * 9 + m mod 10 - 1 else m - 1) + 1)) = m).
  { destruct (Z.ltb_spec e 9) as [L|]; [specialize (Hd L)|rewrite u64_small; wunfold; lia].
    destruct (mod_div_unique (m / 10 * 9 + m mod 10 - 1) 9 (m / 10) (m mod 10 - 1)) as [-> ->]; [lia..|].
    rewrite u64_small; wunfold; lia. }
  rewrite Hv, times_ten_exact; rewrite ?Z2Nat.id; lia.
Qed.

Lemma CompressAmount_code m e :
  0 < m -> 0 <= e <= 9 -> (e < 9 -> m mod 10 <> 0) -> amount_code m e < 2 ^ 64 ->
  CompressAmount (m * 10 ^ e) = amount_code m e.
Proof.
  intros Hm He Hd Hb. pose proof (amount_code_bound m e Hm He Hd).
  assert (1 <= 10 ^ e) by (rewrite <- (Z2Nat.id e) by lia; apply pow10_ge_1).
  unfold CompressAmount. destruct (Z.eqb_spec (m * 10 ^ e) 0); [nia|].
  pose proof (amount_loop_mul (Z.to_nat e) 9 m 0 ltac:(lia) eq_refl) as L.
  rewrite Z2Nat.id, Z.add_0_l in L by lia. rewrite L by lia. clear L.
  unfold amount_code in *. destruct (Z.ltb_spec e 9); apply u64_small; wunfold; lia.
Qed.

(** * Lemmas on scripts *)

Lemma WriteVarInt_length w n : Z.of_nat (length (WriteVarInt w n)) = GetSizeOfVarInt w n.
Proof.
  unfold WriteVarInt, GetSizeOfVarInt.
  pose proof (size_varint_loop_length (varint_fuel w) n 0 []) as H. simpl in H. lia.
Qed.

(** Splits a list of a known length into its elements. *)
Ltac explode s H :=
  repeat (destruct s as [|? s]; [discriminate H|]); destruct s; [|discriminate H]; clear H.

Ltac split_tests H :=
  repeat (apply andb_prop in H; destruct H as [H ?]); apply Nat.eqb_eq in H;
  repeat match goal with E : (_ =? _) = true |- _ => apply Z.eqb_eq in E end.

Lemma IsToKeyID_spec s h :
  IsToKeyID s = Some h -> s = [OP_DUP; OP_HASH160; 20] ++ h ++ [OP_EQUALVERIFY; OP_CHECKSIG] /\ length h = 20%nat.
Proof.
  unfold IsToKeyID. case_match eqn:E; [|done]. intros [= <-]. split_tests E.
  explode s E. cbn in *. subst. done.
Qed.

Lemma IsToScriptID_spec s h :
  IsToScriptID s = Some h -> s = [OP_HASH160; 20] ++ h ++ [OP_EQUAL] /\ length h = 20%nat.
Proof.
  unfold IsToScriptID. case_match eqn:E; [|done]. intros [= <-]. split_tests E.
  explode s E. cbn in *. subst. done.
Qed.

(** What libsecp256k1 documents of the two forms of a public key: the uncompressed
    form of a key is unique, and the compressed form is the parity of Y and X. *)
Record key_laws (lib : secp256k1) : Prop := {
  uncompressed_form k p : ec_pubkey_parse lib (4 :: k) = Some p -> length k = 64%nat ->
    ec_pubkey_serialize lib p false = 4 :: k;
  compressed_form x y p : ec_pubkey_parse lib (4 :: x ++ y) = Some p -> length x = 32%nat -> length y = 32%nat ->
    ec_pubkey_parse lib (2 + List.last y 0 mod 2 :: x) = Some p
}.

Section Laws.
Context (lib : secp256k1) (laws : key_laws lib).

Lemma IsToPubKey_spec s k :
  IsToPubKey lib s = Some k ->
  (exists h x, (h = 2 \/ h = 3) /\ length x = 32%nat /\ k = h :: x /\ s = [33; h] ++ x ++ [OP_CHECKSIG]) \/
  (exists x y p, length x = 32%nat /\ length y = 32%nat /\ k = 4 :: x ++ y /\
     s = [65] ++ (4 :: x ++ y) ++ [OP_CHECKSIG] /\ ec_pubkey_parse lib k = Some p).
Proof.
  unfold IsToPubKey. case_match eqn:E.
  - intros [= <-]. left. apply andb_prop in E as [E H1]. apply orb_true_iff in H1. rewrite !Z.eqb_eq in H1.
    split_tests E. explode s E. cbn [byte_at nth] in *. subst.
    match goal with |- exists h x, _ /\ _ /\ CPubKey_Set (take 33 (drop 1 (33 :: ?a :: ?l))) = _ /\ _ =>
      exists a, (take 32 l) end.
    split; [exact H1|]. split; [done|]. split; [|done]. by destruct H1 as [-> | ->].
  - clear E. case_match eqn:E; [|done]. case_match eqn:V; [|done]. intros [= <-].
    unfold IsFullyValid in V. destruct (negb _); [done|]. case_match eqn:P; [|done]. clear V. right. split_tests E. explode s E. cbn [byte_at nth] in *. subst.
    match type of P with ec_pubkey_parse lib (CPubKey_Set (take 65 (drop 1 (65 :: 4 :: ?l)))) = Some ?p =>
      exists (take 32 l), (take 32 (drop 32 l)), p end.
    by split_and!.
Qed.

Lemma parity y : 0 <= y -> Z.lor 4 (Z.land y 1) = 4 + y mod 2.
Proof.
  intros. change (Z.land y 1) with (Z.land y (2 ^ 1 - 1)). rewrite land_ones_mod by lia. change (2 ^ 1) with 2.
  pose proof (Z.mod_pos_bound y 2). assert (y mod 2 = 0 \/ y mod 2 = 1) as [-> | ->] by lia; done.
Qed.

Lemma read_special_code b rest : 0 <= b < 6 -> ReadVarInt 32 (b :: rest) = Ok (b, rest).
Proof. intros Hb. assert (b = 0 \/ b = 1 \/ b = 2 \/ b = 3 \/ b = 4 \/ b = 5) by lia. by intuition subst. Qed.

Lemma Decompress_key h x y p :
  (h = 4 \/ h = 5) -> h - 2 = 2 + List.last y 0 mod 2 -> length x = 32%nat -> length y = 32%nat ->
  ec_pubkey_parse lib (4 :: x ++ y) = Some p ->
  Decompress lib h x = Some ([65] ++ (4 :: x ++ y) ++ [OP_CHECKSIG]).
Proof.
  intros Hh E Lx Ly P. unfold Decompress, pubkey_Decompress.
  replace (CPubKey_Set (h - 2 :: take 32 x)) with (h - 2 :: x); swap 1 2.
  { rewrite <- Lx, firstn_all. unfold CPubKey_Set, GetLen, COMPRESSED_PUBLIC_KEY_SIZE.
    destruct Hh as [-> | ->]; cbn [Z.sub Z.add Z.opp Z.pos_sub Z.eqb orb negb andb length]; by rewrite Lx. }
  assert (pubkey_IsValid (h - 2 :: x) = true) as -> by (by destruct Hh as [-> | ->]).
  rewrite E, (compressed_form _ laws _ _ _ P Lx Ly). cbn [negb].
  rewrite (uncompressed_form _ laws _ _ P) by (rewrite length_app; lia).
  assert (L : length (4 :: x ++ y) = 65%nat) by (cbn; rewrite length_app; lia).
  replace (CPubKey_Set (4 :: x ++ y)) with (4 :: x ++ y) by (unfold CPubKey_Set; by rewrite L).
  assert (take 65 (4 :: x ++ y) = 4 :: x ++ y) as -> by (rewrite <- L; apply firstn_all).
  by destruct Hh as [-> | ->].
Qed.
End Laws.

Lemma Decompress_Compress lib s c :
  key_laws lib -> is_bytes s -> Compress lib s = Some c ->
  exists b d, c = b :: d /\ 0 <= b < 6 /\ length d = Z.to_nat (GetSpecialSize b) /\ Decompress lib b d = Some s.
Proof.
  intros laws Hs. unfold Compress. case_match eqn:K.
  { intros [= <-]. apply IsToKeyID_spec in K as [-> L]. eexists 0, _. split_and!; try done.
    cbn. by rewrite <- L, firstn_all. }
  clear K. case_match eqn:K.
  { intros [= <-]. apply IsToScriptID_spec in K as [-> L]. eexists 1, _. split_and!; try done.
    cbn. by rewrite <- L, firstn_all. }
  clear K. case_match eqn:K; [|done]. apply (IsToPubKey_spec lib) in K as
    [(h & x & Hh & L & -> & ->)|(x & y & p & Lx & Ly & -> & -> & P)].
  - cbn [byte_at nth drop]. rewrite <- L, firstn_all.
    destruct Hh as [-> | ->]; cbn [Z.eqb orb Pos.eqb]; intros [= <-]; eexists _, _;
      (split_and!; [done|lia|lia|exact L|cbn; by rewrite <- L, firstn_all]).
  - assert (E : byte_at (4 :: x ++ y) 64 = List.last y 0).
    { unfold byte_at. cbn [nth]. rewrite app_nth2, Lx, last_nth, Ly by lia. done. }
    rewrite E. cbn [byte_at nth drop].
    rewrite drop_0, take_app_length' by done.
    assert (Hy : 0 <= List.last y 0).
    { apply Forall_app in Hs as [_ Hs]. cbn in Hs. apply Forall_cons in Hs as [_ Hs].
      apply Forall_app in Hs as [Hs _]. apply Forall_app in Hs as [_ Hs].
      rewrite last_nth. pose proof (words_nth 8 y (length y - 1)%nat ltac:(lia) Hs) as W. apply W. }
    rewrite parity by done. pose proof (Z.mod_pos_bound (List.last y 0) 2).
    intros [= <-]. exists (4 + List.last y 0 mod 2), x.
    assert (D : List.last y 0 mod 2 = 0 \/ List.last y 0 mod 2 = 1) by lia.
    split_and!; [done|lia|lia|by destruct D as [-> | ->]|].
    apply (Decompress_key lib laws _ _ _ p); [lia|lia|done..].
Qed.

Definition dom_script (s : CScript) : Prop := is_bytes s /\ Z.of_nat (length s) + nSpecialScripts < 2 ^ 32.

Lemma script_Unserialize_app lib s0 s rest :
  key_laws lib -> dom_script s ->
  script_Unserialize lib s0 (script_Serialize lib s ++ rest) = Ok (s, rest).
Proof.
  intros laws [Hs Hl]. unfold script_Serialize, script_Unserialize. case_match eqn:C.
  - destruct (Decompress_Compress _ _ _ laws Hs C) as (b & d & -> & Hb & Ld & D).
    cbn [app]. rewrite read_special_code by done. cbn [rbind fst snd].
    destruct (Z.ltb_spec b nSpecialScripts); [|unfold nSpecialScripts in *; lia].
    rewrite <- Ld, read_bytes_app. cbn [rbind fst snd]. by rewrite D.
  - unfold nSpecialScripts in *. rewrite <- app_assoc, ReadVarInt_app by lia. cbn [rbind fst snd].
    destruct (Z.ltb_spec (Z.of_nat (length s) + 6) 6); [lia|].
    replace (Z.to_nat _) with (length s) by lia. apply read_bytes_app.
Qed.

Lemma script_Serialize_size lib s :
  Z.of_nat (length (script_Serialize lib s)) = script_GetSerializeSize lib s.
Proof.
  unfold script_Serialize, script_GetSerializeSize. case_match; [done|].
  rewrite length_app, Nat2Z.inj_add, WriteVarInt_length. lia.
Qed.

Definition MAX_AMOUNT : Z := 2 ^ 60.

Lemma amount_code_exists n :
  0 < n -> exists m e, n = m * 10 ^ e /\ 0 < m /\ 0 <= e <= 9 /\ (e < 9 -> m mod 10 <> 0).
Proof.
  intros Hn. destruct (amount_loop_spec 9 n 0) as (k & m & _ & -> & ? & ? & ? & ?); [lia..|].
  exists m, k. split_and!; try done; lia.
Qed.

Lemma DecompressAmount_CompressAmount n :
  0 <= n < MAX_AMOUNT -> 0 <= CompressAmount n < 2 ^ 64 /\ DecompressAmount (CompressAmount n) = n.
Proof.
  unfold MAX_AMOUNT. intros Hn. destruct (decide (n = 0)) as [->|]; [done|].
  destruct (amount_code_exists n) as (m & e & -> & Hm & He & Hd); [lia|].
  pose proof (amount_code_bound m e Hm He Hd).
  rewrite CompressAmount_code by (done || lia). split; [lia|]. apply DecompressAmount_code; done || lia.
Qed.

Lemma CompressAmount_DecompressAmount x :
  0 <= x <= 10 ^ 10 -> CompressAmount (DecompressAmount x) = x.
Proof.
  intros Hx. destruct (decide (x = 0)) as [->|]; [done|].
  pose proof (Z.div_mod (x - 1) 10 ltac:(lia)). pose proof (Z.mod_pos_bound (x - 1) 10 ltac:(lia)).
  set (q := (x - 1) / 10) in *. set (e := (x - 1) mod 10) in *.
  pose proof (Z.div_mod q 9 ltac:(lia)). pose proof (Z.mod_pos_bound q 9 ltac:(lia)).
  set (m := if e <? 9 then q / 9 * 10 + (q mod 9 + 1) else q + 1).
  assert (Hc : 0 < m /\ (e < 9 -> m mod 10 <> 0) /\ amount_code m e = x /\ m * 10 ^ e < MAX_AMOUNT).
  { unfold amount_code, m, MAX_AMOUNT. destruct (Z.ltb_spec e 9).
    - destruct (mod_div_unique (q / 9 * 10 + (q mod 9 + 1)) 10 (q / 9) (q mod 9 + 1)) as [-> ->]; [lia..|].
      pose proof (Z.pow_le_mono_r 10 e 8 ltac:(lia) ltac:(lia)) as Hp. change (10 ^ 8) with 100000000 in Hp.
      split_and!; [lia|lia|lia|]. change (10 ^ 10) with 10000000000 in Hx. nia.
    - replace e with 9 by lia. change (10 ^ 9) with 1000000000. split_and!; lia. }
  destruct Hc as (Hm & Hd & Hc & Hb). unfold MAX_AMOUNT in Hb.
  rewrite <- Hc at 1. rewrite DecompressAmount_code by (done || lia).
  rewrite CompressAmount_code; [done|done|lia|done|lia].
Qed.

Definition dom_txout (o : CTxOut) : Prop := 0 <= nValue o < MAX_AMOUNT /\ dom_script (scriptPubKey o).

Lemma txout_Unserialize_app lib o0 o rest :
  key_laws lib -> dom_txout o ->
  txout_Unserialize lib o0 (txout_Serialize lib o ++ rest) = Ok (o, rest).
Proof.
  intros laws [Hv Hs]. unfold txout_Serialize, txout_Unserialize.
  destruct (DecompressAmount_CompressAmount _ Hv) as [Hc Hd]. unfold MAX_AMOUNT in Hv.
  rewrite u64_small by (wunfold; lia).
  rewrite <- app_assoc, ReadVarInt_app by lia. cbn [rbind fst snd].
  rewrite script_Unserialize_app by done. cbn [rbind fst snd].
  rewrite Hd, s64_small by lia. by destruct o.
Qed.

(** * Properties *)

(** The compact amounts are one-to-one: every amount below 2^60 (the supply is below
    2^51) gets a code of 64 bits without overflow and is read back from it, and every
    number up to 10^10 is the code of the amount it stands for. *)
Theorem amount_compression_bijective n x :
  0 <= n < MAX_AMOUNT -> 0 <= x <= 10 ^ 10 ->
  0 <= CompressAmount n < 2 ^ 64 /\
  DecompressAmount (CompressAmount n) = n /\
  CompressAmount (DecompressAmount x) = x.
Proof.
  intros Hn Hx. destruct (DecompressAmount_CompressAmount n Hn) as [? ?].
  split; [done|]. split; [done|]. by apply CompressAmount_DecompressAmount.
Qed.

Lemma amount_compression_bijective_witness :
  CompressAmount 60000000000 = 0x258 /\ 0 <= CompressAmount 60000000000 < 2 ^ 64 /\
  DecompressAmount (CompressAmount 60000000000) = 60000000000 /\
  CompressAmount (DecompressAmount 123456) = 123456.
Proof.
  split; [vm_compute; reflexivity|].
  exact (amount_compression_bijective 60000000000 123456 ltac:(unfold MAX_AMOUNT; lia) ltac:(lia)).
Defined.

(** With the two forms of a public key related as libsecp256k1 documents, every
    output survives its compact serialization, whatever script was there before
    reading: each of the special script forms, and any other script; the size of the
    script part is the one announced. *)
Theorem txout_compression_roundtrip lib o0 o rest :
  key_laws lib -> dom_txout o ->
  txout_Unserialize lib o0 (txout_Serialize lib o ++ rest) = Ok (o, rest) /\
  Z.of_nat (length (script_Serialize lib (scriptPubKey o))) = script_GetSerializeSize lib (scriptPubKey o).
Proof. intros laws Ho. split; [by apply txout_Unserialize_app|apply script_Serialize_size]. Qed.

(** Keys on a toy curve: Y is 0 or 1. *)
Definition toy_keys : secp256k1 := {|
  secp_pubkey := byte_list * Z;
  secp_signature := byte_list;
  ecdsa_signature_parse_compact bs := (true, bs);
  ec_pubkey_parse k :=
    match k with
    | 4 :: r =>
        let y := List.last r 0 in
        if bool_decide (take 31 (drop 32 r) = replicate 31 0) && ((y =? 0) || (y =? 1))
        then Some (take 32 r, y) else None
    | h :: r => if (h =? 2) || (h =? 3) then Some (r, h - 2) else None
    | [] => None
    end;
  ecdsa_signature_normalize s := (false, s);
  ecdsa_verify s h k := true;
  ec_pubkey_serialize k compressed :=
    if compressed then (2 + k.2) :: k.1 else 4 :: k.1 ++ replicate 31 0 ++ [k.2] |}.

Lemma toy_key_laws : key_laws toy_keys.
Proof.
  split.
  - intros k p H L. cbn in H. case_match eqn:E; [|done]. apply Some_inj in H as <-.
    apply andb_prop in E as [E _]. apply bool_decide_eq_true in E.
    cbn [ec_pubkey_serialize toy_keys fst snd].
    f_equal. rewrite last_nth, L. change (64 - 1)%nat with 63%nat.
    change (replicate 31 0) with [0;0;0;0;0;0;0;0;0;0;0;0;0;0;0;0;0;0;0;0;0;0;0;0;0;0;0;0;0;0;0].
    rewrite <- E. clear E. by explode k L.
  - intros x y p H Lx Ly. cbn in H. case_match eqn:E; [|done]. apply Some_inj in H as <-.
    apply andb_prop in E as [E1 E2]. apply orb_true_iff in E2. rewrite !Z.eqb_eq in E2.
    rewrite take_app_length' by done.
    assert (Z' : List.last (x ++ y) 0 = List.last y 0).
    { rewrite !last_nth, length_app, app_nth2 by lia. f_equal. lia. }
    rewrite Z' in *. by destruct E2 as [-> | ->].
Qed.

Definition toy_uncompressed : CScript :=
  [65] ++ (4 :: replicate 32 9 ++ replicate 31 0 ++ [1]) ++ [OP_CHECKSIG].

Lemma txout_compression_roundtrip_witness :
  let o := {| nValue := 250000000; scriptPubKey := toy_uncompressed |} in
  length (txout_Serialize toy_keys o) = 35%nat /\
  txout_Unserialize toy_keys null_txout (txout_Serialize toy_keys o ++ [7]) = Ok (o, [7]) /\
  Z.of_nat (length (script_Serialize toy_keys toy_uncompressed)) = script_GetSerializeSize toy_keys toy_uncompressed.
Proof.
  intros o. split; [vm_compute; reflexivity|].
  refine (txout_compression_roundtrip toy_keys null_txout o [7] toy_key_laws _).
  split; [unfold MAX_AMOUNT; cbn; lia|]. split; [|vm_compute; reflexivity].
  apply (bool_decide_unpack _). vm_compute. exact I.
Defined.
