(* ===== verification/Coins.v ===== *)
(** The unspent outputs of a transaction and the undo data of a block: [CCoins]
    (coins.h, coins.cpp), [CTxInUndo] and [CTxUndo] (undo.h) and their formats on disk.

    Spent outputs are null ([nValue] is -1) and dropped at the end of [vout]. *)

From S2P Require Import Prelude Uint256 Arith256 Serialize Script Transaction Pubkey Compressor.

(** * Data *)

Record CCoins := {
  fCoinBase : bool;
  fCoinStake : bool;
  c_vout : list CTxOut;
  c_nHeight : Z;
  c_nVersion : Z
}.

Record CTxInUndo := {
  u_txout : CTxOut;
  u_fCoinBase : bool;
  u_fCoinStake : bool;
  u_nHeight : Z;
  u_nVersion : Z
}.

#[export] Instance CCoins_eq_dec : EqDecision CCoins.
Proof. solve_decision. Defined.

(** The empty constructor, and [Clear]. *)
Definition empty_coins : CCoins :=
  {| fCoinBase := false; fCoinStake := false; c_vout := []; c_nHeight := 0; c_nVersion := 0 |}.

Definition set_vout (c : CCoins) (v : list CTxOut) : CCoins :=
  {| fCoinBase := fCoinBase c; fCoinStake := fCoinStake c; c_vout := v;
     c_nHeight := c_nHeight c; c_nVersion := c_nVersion c |}.

(** * Methods *)

(** [while (vout.size() > 0 && vout.back().IsNull()) vout.pop_back()], on the vector
    from its back. *)
Fixpoint pop_null (r : list CTxOut) : list CTxOut :=
  match r with
  | [] => []
  | o :: r' => if txout_IsNull o then pop_null r' else r
  end.

Definition Cleanup (c : CCoins) : CCoins := set_vout c (reverse (pop_null (reverse (c_vout c)))).

Definition ClearUnspendable (c : CCoins) : CCoins :=
  Cleanup (set_vout c (map (fun o => if IsUnspendable (scriptPubKey o) then null_txout else o) (c_vout c))).

(** [FromTx], and the constructor from a transaction. *)
Definition FromTx (tx : CTransaction) (nHeightIn : Z) : CCoins :=
  ClearUnspendable {| fCoinBase := IsCoinBase tx; fCoinStake := IsCoinStake tx; c_vout := vout tx;
                      c_nHeight := nHeightIn; c_nVersion := tx_nVersion tx |}.

Definition IsPruned (c : CCoins) : bool := forallb txout_IsNull (c_vout c).

(** [IsAvailable(unsigned int)]. *)
Definition IsAvailable (c : CCoins) (nPos : Z) : bool :=
  match c_vout c !! Z.to_nat nPos with None => false | Some o => negb (txout_IsNull o) end.

(** [operator==]. *)
Definition coins_eq (a b : CCoins) : bool :=
  if IsPruned a && IsPruned b then true
  else Bool.eqb (fCoinBase a) (fCoinBase b) && Bool.eqb (fCoinStake a) (fCoinStake b)
       && (c_nHeight a =? c_nHeight b) && (c_nVersion a =? c_nVersion b)
       && bool_decide (c_vout a = c_vout b).

(** [Spend(const COutPoint&, CTxInUndo&)]: [None] for the result false. *)
Definition Spend (c : CCoins) (out : COutPoint) : option (CCoins * CTxInUndo) :=
  match c_vout c !! Z.to_nat (out_n out) with
  | None => None
  | Some o =>
      if txout_IsNull o then None
      else
        let c' := Cleanup (set_vout c (<[Z.to_nat (out_n out) := null_txout]> (c_vout c))) in
        Some (c',
          if (length (c_vout c') =? 0)%nat then
            {| u_txout := o; u_nHeight := c_nHeight c'; u_fCoinBase := fCoinBase c';
               u_fCoinStake := fCoinStake c'; u_nVersion := c_nVersion c' |}
          else
            {| u_txout := o; u_nHeight := 0; u_fCoinBase := false; u_fCoinStake := false; u_nVersion := 0 |})
  end.

(** * The format on disk *)

(** Output [i] of the vector is there and not spent. *)
Definition avail (v : list CTxOut) (i : nat) : bool :=
  match v !! i with None => false | Some o => negb (txout_IsNull o) end.

(** The number of [b] with [2 + b * 8 < vout.size()]. *)
Definition mask_blocks (v : list CTxOut) : nat := (length v - 2 + 7) / 8.

Definition mask_step (v : list CTxOut) (st : nat * nat) (b : nat) : nat * nat :=
  let '(nLastUsedByte, nNonzeroBytes) := st in
  let fZero := forallb (fun i => negb (avail v (2 + b * 8 + i))) (seq 0 8) in
  if negb fZero then ((b + 1)%nat, (nNonzeroBytes + 1)%nat) else st.

(** [CalcMaskSize]: the number of bytes of the bit mask and of those that are not zero. *)
Definition CalcMaskSize (v : list CTxOut) : nat * nat :=
  fold_left (mask_step v) (seq 0 (mask_blocks v)) (0%nat, 0%nat).

(** The byte [chAvail] of block [b]. *)
Definition mask_byte (v : list CTxOut) (b : nat) : Z :=
  fold_left (fun ch i => if avail v (2 + b * 8 + i) then Z.lor ch (Z.shiftl 1 (Z.of_nat i)) else ch)
    (seq 0 8) 0.

Definition coins_code (scale : Z) (c : CCoins) (nMaskCode : Z) : Z :=
  let fFirst := avail (c_vout c) 0 in
  let fSecond := avail (c_vout c) 1 in
  u32 (scale * (nMaskCode - (if fFirst || fSecond then 0 else 1)) + (if fCoinBase c then 1 else 0)
       + (if fCoinStake c then 2 else 0) + (if fFirst then 4 else 0) + (if fSecond then 8 else 0)).

Section Coins.
Context (lib : secp256k1).

(** [None] when the assertion that something is unspent fails. *)
Definition coins_Serialize (c : CCoins) : option byte_list :=
  let v := c_vout c in
  let '(nMaskSize, nMaskCode) := CalcMaskSize v in
  if negb (avail v 0 || avail v 1 || negb (nMaskCode =? 0)%nat) then None
  else
    let nCode := coins_code 16 c (Z.of_nat nMaskCode) in
    Some (WriteVarInt 32 (c_nVersion c) ++ WriteVarInt 32 nCode
          ++ map (mask_byte v) (seq 0 nMaskSize)
          ++ (v ≫= fun o => if txout_IsNull o then [] else txout_Serialize lib o)
          ++ WriteVarInt 32 (c_nHeight c)).

Definition coins_GetSerializeSize (c : CCoins) : option Z :=
  let v := c_vout c in
  let '(nMaskSize, nMaskCode) := CalcMaskSize v in
  if negb (avail v 0 || avail v 1 || negb (nMaskCode =? 0)%nat) then None
  else
    let nCode := coins_code 8 c (Z.of_nat nMaskCode) in
    Some (GetSizeOfVarInt 32 (c_nVersion c) + GetSizeOfVarInt 32 nCode + Z.of_nat nMaskSize
          + zsum (map (fun o => if txout_IsNull o then 0
                                else GetSizeOfVarInt 64 (CompressAmount (u64 (nValue o)))
                                     + script_GetSerializeSize lib (scriptPubKey o)) v)
          + GetSizeOfVarInt 32 (c_nHeight c)).

Local Open Scope result_scope.

(** The bits of [chAvail], the lowest first. *)
Definition mask_bits (chAvail : Z) : list bool :=
  map (fun p => negb (Z.land chAvail (Z.shiftl 1 (Z.of_nat p)) =? 0)) (seq 0 8).

(** [while (nMaskCode > 0)]: every turn reads a byte. *)
Fixpoint read_mask (nMaskCode : Z) (vAvail : list bool) (bs : byte_list)
  : result ser_error (list bool * byte_list) :=
  if 0 <? nMaskCode then
    match bs with
    | [] => Err EndOfData
    | chAvail :: bs =>
        read_mask (if negb (chAvail =? 0) then nMaskCode - 1 else nMaskCode)
          (vAvail ++ mask_bits chAvail) bs
    end
  else Ok (vAvail, bs).

Fixpoint read_outs (vAvail : list bool) : reader (list CTxOut) := fun bs =>
  match vAvail with
  | [] => Ok ([], bs)
  | a :: vAvail =>
      o <-! (if a then txout_Unserialize lib null_txout bs else Ok (null_txout, bs)) ;;
      r <-! read_outs vAvail o.2 ;;
      Ok (o.1 :: r.1, r.2)
  end.

Definition coins_Unserialize : reader CCoins := fun bs =>
  ver <-! ReadVarInt 32 bs ;;
  code <-! ReadVarInt 32 ver.2 ;;
  let nCode := code.1 in
  let vAvail := [negb (Z.land nCode 4 =? 0); negb (Z.land nCode 8 =? 0)] in
  let nMaskCode := nCode / 16 + (if negb (Z.land nCode 12 =? 0) then 0 else 1) in
  av <-! read_mask nMaskCode vAvail code.2 ;;
  outs <-! read_outs av.1 av.2 ;;
  h <-! ReadVarInt 32 outs.2 ;;
  Ok (Cleanup {| fCoinBase := negb (Z.land nCode 1 =? 0); fCoinStake := negb (Z.land nCode 2 =? 0);
                 c_vout := outs.1; c_nHeight := s32 h.1; c_nVersion := s32 ver.1 |}, h.2).

(** ** Undo data *)

Definition undo_code (u : CTxInUndo) : Z :=
  u32 (u_nHeight u * 4 + (if u_fCoinBase u then 2 else 0) + (if u_fCoinStake u then 1 else 0)).

Definition undo_Serialize (u : CTxInUndo) : byte_list :=
  WriteVarInt 32 (undo_code u) ++ (if 0 <? u_nHeight u then WriteVarInt 32 (u_nVersion u) else [])
  ++ txout_Serialize lib (u_txout u).

(** Over a default-constructed [CTxInUndo]. *)
Definition undo_Unserialize : reader CTxInUndo := fun bs =>
  code <-! ReadVarInt 32 bs ;;
  let nHeight := Z.shiftr code.1 2 in
  ver <-! (if 0 <? nHeight then v <-! ReadVarInt 32 code.2 ;; Ok (s32 v.1, v.2) else Ok (0, code.2)) ;;
  o <-! txout_Unserialize lib null_txout ver.2 ;;
  Ok ({| u_txout := o.1; u_fCoinBase := negb (Z.land code.1 2 =? 0);
         u_fCoinStake := negb (Z.land code.1 1 =? 0); u_nHeight := nHeight; u_nVersion := ver.1 |}, o.2).

Definition dom_undo (u : CTxInUndo) : Prop :=
  dom_txout (u_txout u) /\ 0 <= u_nHeight u < 2 ^ 30 /\ 0 <= u_nVersion u < 2 ^ 31 /\
  (u_nHeight u = 0 -> u_nVersion u = 0).

Definition c_undo : codec CTxInUndo := {| enc := undo_Serialize; dec := undo_Unserialize; dom := dom_undo |}.

(** [CTxUndo] and [CBlockUndo]. *)
Definition c_txundo : codec (list CTxInUndo) := c_vector c_undo.
Definition c_blockundo : codec (list (list CTxInUndo)) := c_vector c_txundo.
End Coins.

(** * Lemmas on spent outputs *)

Lemma pop_null_app_null r p : pop_null (replicate p null_txout ++ r) = pop_null r.
Proof. by induction p. Qed.

Lemma pop_null_idem r : pop_null (pop_null r) = pop_null r.
Proof. induction r as [|o r IH]; [done|]. cbn. destruct (txout_IsNull o) eqn:E; [done|]. cbn. by rewrite E. Qed.

Lemma Cleanup_idem c : Cleanup (Cleanup c) = Cleanup c.
Proof.
  unfold Cleanup. cbn [set_vout c_vout fCoinBase fCoinStake c_nHeight c_nVersion].
  by rewrite reverse_involutive, pop_null_idem.
Qed.

(** What the popping leaves is the front of the vector; the rest is null. *)
Lemma pop_null_split r : exists l, r = l ++ pop_null r /\ Forall (fun o => txout_IsNull o = true) l.
Proof.
  induction r as [|o r (l & E & F)]; [by exists []|]. cbn. destruct (txout_IsNull o) eqn:N.
  - exists (o :: l). cbn. rewrite <- E. by split; [|constructor].
  - by exists [].
Qed.

Lemma cleanup_split v : exists l, v = reverse (pop_null (reverse v)) ++ l /\ Forall (fun o => txout_IsNull o = true) l.
Proof.
  destruct (pop_null_split (reverse v)) as (l & E & F). exists (reverse l). split.
  - by rewrite <- reverse_app, <- E, reverse_involutive.
  - by apply Forall_reverse.
Qed.

Lemma avail_cleanup v i : avail (reverse (pop_null (reverse v))) i = avail v i.
Proof.
  destruct (cleanup_split v) as (l & E & F). set (w := reverse (pop_null (reverse v))) in *.
  rewrite E. unfold avail. destruct (decide (i < length w)%nat).
  - by rewrite lookup_app_l.
  - rewrite (lookup_ge_None_2 w) by lia. rewrite lookup_app_r by lia. case_match eqn:L; [|done].
    eapply Forall_lookup_1 in L; [|done]. by rewrite L.
Qed.

Lemma IsAvailable_avail c n : IsAvailable c n = avail (c_vout c) (Z.to_nat n).
Proof. done. Qed.

Lemma IsAvailable_Cleanup c n : IsAvailable (Cleanup c) n = IsAvailable c n.
Proof. apply avail_cleanup. Qed.

(** The last output of a cleaned vector is not spent. *)
Lemma cleaned_last v : v <> [] -> reverse (pop_null (reverse v)) = v -> avail v (length v - 1) = true.
Proof.
  intros Hne E. destruct v as [|x w _] using rev_ind; [done|].
  rewrite reverse_app in E. change (reverse [x]) with [x] in E. cbn [app pop_null] in E. unfold avail. rewrite length_app, Nat.add_sub.
  rewrite list_lookup_middle by done. destruct (txout_IsNull x) eqn:N; [|done].
  apply (f_equal length) in E. rewrite length_app, length_reverse in E. cbn in E.
  destruct (pop_null_split (reverse w)) as (l & Ew & _). apply (f_equal length) in Ew.
  rewrite length_app, length_reverse in Ew. lia.
Qed.

(** * Lemmas on the bit mask *)

Lemma mask_bits_byte v b : mask_bits (mask_byte v b) = map (fun i => avail v (2 + b * 8 + i)) (seq 0 8).
Proof.
  unfold mask_byte. cbn [seq fold_left map].
  repeat match goal with |- context [avail v ?i] => generalize (avail v i); intros ? end.
  repeat match goal with b : bool |- _ => destruct b end; reflexivity.
Qed.

Lemma mask_byte_zero v b :
  (mask_byte v b =? 0) = forallb (fun i => negb (avail v (2 + b * 8 + i))) (seq 0 8).
Proof.
  unfold mask_byte. cbn [seq fold_left forallb].
  repeat match goal with |- context [avail v ?i] => generalize (avail v i); intros ? end.
  repeat match goal with b : bool |- _ => destruct b end; reflexivity.
Qed.

Lemma mask_byte_bound v b : 0 <= mask_byte v b < 256.
Proof.
  unfold mask_byte. cbn [seq fold_left].
  repeat match goal with |- context [avail v ?i] => generalize (avail v i); intros ? end.
  repeat match goal with b : bool |- _ => destruct b end; split; done.
Qed.

Definition nonzero_bytes (l : byte_list) : nat := length (filter (fun b => b <> 0) l).

Lemma nonzero_bytes_zeros l : Forall (fun b => b = 0) l -> nonzero_bytes l = 0%nat.
Proof.
  unfold nonzero_bytes. induction 1 as [|b l -> _ IH]; [done|]. by rewrite filter_cons_False by auto.
Qed.

Lemma mask_loop_spec v k :
  let '(s, c) := fold_left (mask_step v) (seq 0 k) (0%nat, 0%nat) in
  (s <= k)%nat /\ (s = 0%nat \/ mask_byte v (s - 1) <> 0) /\
  (forall b, (s <= b < k)%nat -> mask_byte v b = 0) /\
  c = nonzero_bytes (map (mask_byte v) (seq 0 s)).
Proof.
  induction k as [|k IH]; [cbn; split_and!; [lia|by left|lia|done]|].
  rewrite seq_S, fold_left_app. cbn [fold_left Nat.add].
  destruct (fold_left _ _ _) as [s c]. destruct IH as (H1 & H2 & H3 & ->).
  unfold mask_step. rewrite <- mask_byte_zero. destruct (Z.eqb_spec (mask_byte v k) 0) as [E|E]; cbn [negb].
  - split_and!; [lia|done| |done]. intros b Hb. destruct (decide (b = k)) as [->|]; [done|]. apply H3; lia.
  - split_and!; [lia|right; by rewrite Nat.add_sub|lia|].
    replace (k + 1)%nat with (s + S (k - s))%nat by lia.
    rewrite seq_app, map_app. unfold nonzero_bytes. rewrite filter_app, length_app. cbn [Nat.add].
    rewrite seq_S, map_app, filter_app, length_app. replace (s + (k - s))%nat with k by lia. cbn [map].
    rewrite (filter_cons_True _ (mask_byte v k)) by done. cbn [length filter].
    enough (length (filter (fun b => b <> 0) (map (mask_byte v) (seq s (k - s)))) = 0%nat) as -> by reflexivity.
    apply nonzero_bytes_zeros. rewrite Forall_map, Forall_seq. intros j Hj. cbn. apply H3. lia.
Qed.

Lemma CalcMaskSize_spec v s c :
  CalcMaskSize v = (s, c) ->
  (s = 0%nat \/ mask_byte v (s - 1) <> 0) /\ (s <= mask_blocks v)%nat /\
  (forall i, avail v i = true -> (i < 2 + 8 * s)%nat) /\
  c = nonzero_bytes (map (mask_byte v) (seq 0 s)).
Proof.
  unfold CalcMaskSize. intros H. pose proof (mask_loop_spec v (mask_blocks v)) as L. rewrite H in L.
  destruct L as (L1 & L2 & L3 & ->). split_and!; [done|done| |done]. intros i Hi.
  destruct (decide (i < 2 + 8 * s)%nat) as [|Hge]; [done|exfalso].
  assert (Hl : (i < length v)%nat) by (unfold avail in Hi; case_match eqn:E; [by apply lookup_lt_Some in E|done]).
  set (b := ((i - 2) / 8)%nat). pose proof (Nat.div_mod_eq (i - 2) 8) as D.
  pose proof (Nat.mod_upper_bound (i - 2) 8 ltac:(lia)) as M. fold b in D.
  assert (Hb : (s <= b < mask_blocks v)%nat).
  { unfold mask_blocks. pose proof (Nat.div_mod_eq (length v - 2 + 7) 8).
    pose proof (Nat.mod_upper_bound (length v - 2 + 7) 8 ltac:(lia)). lia. }
  specialize (L3 b Hb). apply Z.eqb_eq in L3. rewrite mask_byte_zero, forallb_forall in L3.
  specialize (L3 ((i - 2) mod 8)%nat). rewrite in_seq in L3. specialize (L3 ltac:(lia)).
  replace (2 + b * 8 + (i - 2) mod 8)%nat with i in L3 by lia. by rewrite Hi in L3.
Qed.

Lemma read_mask_app ms rest : forall acc,
  (ms = [] \/ List.last ms 0 <> 0) ->
  read_mask (Z.of_nat (nonzero_bytes ms)) acc (ms ++ rest) = Ok (acc ++ (ms ≫= mask_bits), rest).
Proof.
  induction ms as [|m ms IH]; intros acc Hl.
  - cbn. rewrite app_nil_r. by destruct rest.
  - destruct Hl as [|Hl]; [done|].
    assert (Hms : ms = [] \/ List.last ms 0 <> 0) by (destruct ms; [by left|right; exact Hl]).
    assert (Hc : m = 0 -> nonzero_bytes ms <> 0%nat).
    { intros ->. destruct Hms as [->|Hms]; [done|]. destruct ms as [|x ms _] using rev_ind; [done|].
      rewrite last_last in Hms. unfold nonzero_bytes. rewrite filter_app, length_app.
      rewrite (filter_cons_True _ x) by done. cbn [length]. lia. }
    unfold nonzero_bytes. cbn [app read_mask mbind list_bind].
    destruct (Z.eqb_spec m 0) as [->|Hm].
    + rewrite filter_cons_False by auto. destruct (Z.ltb_spec 0 (Z.of_nat (length (filter (λ b : Z, b ≠ 0) ms)))).
      2: { specialize (Hc eq_refl). unfold nonzero_bytes in Hc. lia. }
      cbn [negb]. fold (nonzero_bytes ms). rewrite IH by done. by rewrite <- app_assoc.
    + rewrite filter_cons_True by done. cbn [length].
      destruct (Z.ltb_spec 0 (Z.of_nat (S (length (filter (λ b : Z, b ≠ 0) ms))))); [|lia].
      cbn [negb]. rewrite Nat2Z.inj_succ, <- Z.add_1_r, Z.add_simpl_r. fold (nonzero_bytes ms).
      rewrite IH by done. by rewrite <- app_assoc.
Qed.

(** Outputs that can be written: null ones exactly so, the others in the domain. *)
Definition wf_out (o : CTxOut) : Prop := if txout_IsNull o then o = null_txout else dom_txout o.

Lemma read_outs_app lib v p rest :
  key_laws lib -> Forall wf_out v ->
  read_outs lib (map (fun o => negb (txout_IsNull o)) v ++ replicate p false)
    ((v ≫= fun o => if txout_IsNull o then [] else txout_Serialize lib o) ++ rest)
  = Ok (v ++ replicate p null_txout, rest).
Proof.
  intros laws H. induction H as [|o v Ho _ IH]; cbn [map app mbind list_bind].
  - induction p as [|p IHp]; [done|]. cbn [replicate read_outs rbind fst snd]. by rewrite IHp.
  - unfold wf_out in Ho. rewrite <- app_assoc. destruct (txout_IsNull o); cbn [negb read_outs].
    + cbn [rbind fst snd app]. rewrite IH. cbn [rbind fst snd]. by rewrite Ho.
    + rewrite txout_Unserialize_app by done. cbn [rbind fst snd]. rewrite IH. done.
Qed.

Lemma map_avail_seq v n :
  (length v <= n)%nat ->
  map (avail v) (seq 0 n) = map (fun o => negb (txout_IsNull o)) v ++ replicate (n - length v) false.
Proof.
  intros Hn. apply list_eq. intros i. rewrite list_lookup_fmap.
  destruct (decide (i < n)%nat) as [Hi|Hi].
  - rewrite lookup_seq_lt by done. cbn. unfold avail.
    destruct (decide (i < length v)%nat) as [Hv|Hv].
    + rewrite lookup_app_l by (by rewrite length_map). rewrite list_lookup_fmap.
      destruct (lookup_lt_is_Some_2 v i Hv) as [o ->]. done.
    + rewrite lookup_app_r by (rewrite length_map; lia). rewrite length_map.
      rewrite (lookup_ge_None_2 v) by lia. by rewrite lookup_replicate_2 by lia.
  - rewrite lookup_seq_ge by lia. cbn. symmetry. apply lookup_ge_None_2.
    rewrite length_app, length_map, length_replicate. lia.
Qed.

Lemma mask_bits_seq v s : forall k,
  (map (mask_byte v) (seq k s) ≫= mask_bits) = map (avail v) (seq (2 + k * 8) (8 * s)).
Proof.
  induction s as [|s IH]; intros k; [done|]. cbn [seq map mbind list_bind].
  replace (8 * S s)%nat with (8 + 8 * s)%nat by lia. rewrite seq_app, map_app. f_equal.
  - rewrite mask_bits_byte, <- (Nat.add_0_r (2 + k * 8)), <- fmap_add_seq, Nat.add_0_r. symmetry. apply map_map.
  - rewrite IH. do 2 f_equal. lia.
Qed.

(** * Lemmas on the codes *)

Lemma land_low m r k : 0 <= r < 16 -> 0 <= k < 16 -> Z.land (16 * m + r) k = Z.land r k.
Proof.
  intros Hr Hk.
  assert (E : forall x, Z.land x k = Z.land (x mod 16) k).
  { intros x. change 16 with (2 ^ 4). rewrite <- (land_ones_mod x 4) by lia.
    rewrite <- Z.land_assoc, (Z.land_comm (2 ^ 4 - 1)), land_ones_mod by lia.
    by rewrite (Z.mod_small k) by lia. }
  rewrite E. f_equal. rewrite Z.add_comm, Z.mul_comm, Z_mod_plus_full, Z.mod_small; lia.
Qed.

Lemma coins_code_spec c n (f := avail (c_vout c) 0) (s := avail (c_vout c) 1) :
  0 <= n < 2 ^ 27 -> (f || s = false -> 1 <= n) ->
  let code := coins_code 16 c n in
  0 <= code < 2 ^ 32 /\
  negb (Z.land code 1 =? 0) = fCoinBase c /\ negb (Z.land code 2 =? 0) = fCoinStake c /\
  negb (Z.land code 4 =? 0) = f /\ negb (Z.land code 8 =? 0) = s /\
  code / 16 + (if negb (Z.land code 12 =? 0) then 0 else 1) = n.
Proof.
  intros Hn H0. unfold coins_code. fold f s.
  set (k := n - (if f || s then 0 else 1)).
  set (r := (if fCoinBase c then 1 else 0) + (if fCoinStake c then 2 else 0) + (if f then 4 else 0) + (if s then 8 else 0)).
  assert (Hr : 0 <= r < 16) by (unfold r; repeat case_match; lia).
  assert (Hk : 0 <= k < 2 ^ 27) by (unfold k; destruct (f || s); [|specialize (H0 eq_refl)]; lia).
  replace (16 * k + _ + _ + _ + _) with (16 * k + r) by (unfold r; lia).
  rewrite u32_small by (wunfold; lia). cbv zeta. rewrite !land_low by lia.
  assert ((16 * k + r) / 16 = k) as -> by (symmetry; apply (Z.div_unique_pos _ _ _ r); lia).
  split; [lia|].
  assert (L : negb (Z.land r 12 =? 0) = f || s)
    by (unfold r; clear; destruct (fCoinBase c), (fCoinStake c), f, s; reflexivity).
  rewrite L. unfold r, k. clear. split_and!; try lia;
    destruct (fCoinBase c), (fCoinStake c), f, s; reflexivity.
Qed.

Record wf_coins (c : CCoins) : Prop := {
  wf_outs : Forall wf_out (c_vout c);
  wf_clean : Cleanup c = c;
  wf_length : Z.of_nat (length (c_vout c)) < 2 ^ 28;
  wf_height : 0 <= c_nHeight c < 2 ^ 31;
  wf_version : 0 <= c_nVersion c < 2 ^ 31
}.

Lemma wf_clean_vout c : Cleanup c = c -> reverse (pop_null (reverse (c_vout c))) = c_vout c.
Proof. intros H. by rewrite <- H at 2. Qed.

Lemma unpruned_nonempty c : IsPruned c = false -> c_vout c <> [].
Proof. unfold IsPruned. by destruct (c_vout c). Qed.

Lemma coins_mask c s n :
  wf_coins c -> IsPruned c = false -> CalcMaskSize (c_vout c) = (s, n) ->
  (length (c_vout c) <= 2 + 8 * s)%nat /\ Z.of_nat n < 2 ^ 27 /\
  (avail (c_vout c) 0 || avail (c_vout c) 1 = false -> n <> 0%nat).
Proof.
  intros [_ Hc Hl _ _] Hp HS. apply CalcMaskSize_spec in HS as (S1 & S2 & S3 & ->).
  pose proof (unpruned_nonempty c Hp) as Hne. apply wf_clean_vout in Hc.
  pose proof (cleaned_last _ Hne Hc) as La. pose proof (S3 _ La) as Li.
  assert (length (c_vout c) <> 0%nat) by (by destruct (c_vout c)).
  split; [lia|]. split.
  - assert (nonzero_bytes (map (mask_byte (c_vout c)) (seq 0 s)) <= s)%nat.
    { unfold nonzero_bytes. etrans; [apply length_filter|]. by rewrite length_map, length_seq. }
    unfold mask_blocks in S2. pose proof (Nat.div_mod_eq (length (c_vout c) - 2 + 7) 8). lia.
  - intros Hf. apply orb_false_iff in Hf as [Hf0 Hf1].
    assert (s <> 0%nat).
    { intros ->. assert (length (c_vout c) - 1 = 0 \/ length (c_vout c) - 1 = 1)%nat as [E|E] by lia;
        rewrite E in La; congruence. }
    destruct S1 as [|S1]; [lia|]. replace s with (S (s - 1)) by lia.
    rewrite seq_S, map_app. unfold nonzero_bytes. rewrite filter_app, length_app. cbn [map Nat.add].
    rewrite filter_cons_True by done. cbn [length]. lia.
Qed.

Lemma coins_roundtrip_lem lib c rest :
  key_laws lib -> wf_coins c -> IsPruned c = false ->
  exists bs, coins_Serialize lib c = Some bs /\ coins_Unserialize lib (bs ++ rest) = Ok (c, rest).
Proof.
  intros laws Hw Hp. unfold coins_Serialize. destruct (CalcMaskSize (c_vout c)) as [s n] eqn:HS.
  destruct (coins_mask _ _ _ Hw Hp HS) as (M1 & M2 & M3).
  apply CalcMaskSize_spec in HS as (S1 & _ & _ & Hn).
  assert (A : avail (c_vout c) 0 || avail (c_vout c) 1 || negb (n =? 0)%nat = true).
  { destruct (avail (c_vout c) 0 || avail (c_vout c) 1) eqn:A; [done|].
    by rewrite (proj2 (Nat.eqb_neq _ _) (M3 eq_refl)). }
  rewrite A. cbn [negb]. eexists. split; [reflexivity|]. destruct Hw as [Ho Hc Hl Hh Hv].
  destruct (coins_code_spec c (Z.of_nat n)) as (C0 & C1 & C2 & C4 & C8 & CN); [lia|intros E; specialize (M3 E); lia|].
  unfold coins_Unserialize. rewrite <- !app_assoc.
  rewrite ReadVarInt_app by lia. cbn [rbind fst snd]. rewrite ReadVarInt_app by lia. cbn [rbind fst snd].
  rewrite C1, C2, C4, C8, CN, Hn.
  rewrite read_mask_app.
  2: { destruct S1 as [->|S1]; [by left|]. destruct (decide (s = 0%nat)) as [->|]; [by left|]. right.
       replace s with (S (s - 1)) by lia. rewrite seq_S, map_app. cbn [map Nat.add]. by rewrite last_last. }
  cbn [rbind fst snd]. rewrite mask_bits_seq.
  assert (E : [avail (c_vout c) 0; avail (c_vout c) 1] ++ map (avail (c_vout c)) (seq (2 + 0 * 8) (8 * s))
              = map (avail (c_vout c)) (seq 0 (2 + 8 * s))) by reflexivity.
  rewrite E, map_avail_seq by done. rewrite read_outs_app by done. cbn [rbind fst snd].
  rewrite ReadVarInt_app by lia. cbn [rbind fst snd]. do 2 f_equal.
  rewrite !s32_small by lia. unfold Cleanup. cbn [set_vout c_vout fCoinBase fCoinStake c_nHeight c_nVersion].
  rewrite reverse_app, reverse_replicate, pop_null_app_null, wf_clean_vout by done. by destruct c.
Qed.

(** * Lemmas on undo data *)

Lemma undo_code_spec u :
  0 <= u_nHeight u < 2 ^ 30 ->
  0 <= undo_code u < 2 ^ 32 /\ Z.shiftr (undo_code u) 2 = u_nHeight u /\
  negb (Z.land (undo_code u) 2 =? 0) = u_fCoinBase u /\ negb (Z.land (undo_code u) 1 =? 0) = u_fCoinStake u.
Proof.
  intros Hh. unfold undo_code.
  set (r := (if u_fCoinBase u then 2 else 0) + (if u_fCoinStake u then 1 else 0)).
  assert (Hr : 0 <= r < 4) by (unfold r; repeat case_match; lia).
  replace (u_nHeight u * 4 + _ + _) with (4 * u_nHeight u + r) by (unfold r; lia).
  rewrite u32_small by (wunfold; lia). rewrite Z.shiftr_div_pow2 by lia. change (2 ^ 2) with 4.
  split; [lia|]. split; [symmetry; apply (Z.div_unique_pos _ _ _ r); lia|].
  assert (L : forall k, 0 <= k < 16 -> Z.land (4 * u_nHeight u + r) k = Z.land (4 * (u_nHeight u mod 4) + r) k).
  { intros k Hk. pose proof (Z.div_mod (u_nHeight u) 4). pose proof (Z.mod_pos_bound (u_nHeight u) 4).
    rewrite <- (land_low (u_nHeight u / 4) (4 * (u_nHeight u mod 4) + r) k) by lia. f_equal. lia. }
  rewrite !L by lia. pose proof (Z.mod_pos_bound (u_nHeight u) 4 ltac:(lia)).
  assert (u_nHeight u mod 4 = 0 \/ u_nHeight u mod 4 = 1 \/ u_nHeight u mod 4 = 2 \/ u_nHeight u mod 4 = 3)
    as [-> | [-> | [-> | ->]]] by lia; unfold r; destruct (u_fCoinBase u), (u_fCoinStake u); done.
Qed.

Lemma c_undo_lawful lib : key_laws lib -> Lawful (c_undo lib).
Proof.
  intros laws u rest (Ho & Hh & Hv & Hz). cbn [c_undo enc dec]. unfold undo_Serialize, undo_Unserialize.
  destruct (undo_code_spec u Hh) as (C0 & CH & CB & CS).
  rewrite <- app_assoc, ReadVarInt_app by lia. cbn [rbind fst snd]. rewrite CH, CB, CS.
  destruct (Z.ltb_spec 0 (u_nHeight u)) as [L|L].
  - rewrite <- app_assoc, ReadVarInt_app by lia. cbn [rbind fst snd].
    rewrite txout_Unserialize_app by done. cbn [rbind fst snd]. rewrite s32_small by lia. by destruct u.
  - cbn [app rbind fst snd]. rewrite txout_Unserialize_app by done. cbn [rbind fst snd].
    rewrite <- (Hz ltac:(lia)). by destruct u.
Qed.

Lemma c_blockundo_lawful lib : key_laws lib -> Lawful (c_blockundo lib).
Proof.
  intros laws. pose proof (c_undo_lawful lib laws). unfold c_blockundo, c_txundo. exact _.
Qed.

(** * Properties *)

(** ** Negative versions

    The compact encoding writes one byte of a negative version. *)

(** The version that is read back. *)
Definition stored_version (v : Z) : Z := if v <? 0 then v mod 128 else v.

Definition stored_coins (c : CCoins) : CCoins := {|
  fCoinBase := fCoinBase c; fCoinStake := fCoinStake c; c_vout := c_vout c; c_nHeight := c_nHeight c; c_nVersion := stored_version (c_nVersion c) |}.

(** An undo record with height 0 (which is not that of a last output) has no version. *)
Definition stored_undo (u : CTxInUndo) : CTxInUndo := {|
  u_txout := u_txout u; u_fCoinBase := u_fCoinBase u; u_fCoinStake := u_fCoinStake u; u_nHeight := u_nHeight u;
  u_nVersion := if 0 <? u_nHeight u then stored_version (u_nVersion u) else 0 |}.

Lemma WriteVarInt_stored v : WriteVarInt 32 (stored_version v) = WriteVarInt 32 v.
Proof.
  unfold stored_version. destruct (Z.ltb_spec v 0) as [Hv|]; [|done]. unfold WriteVarInt. change (varint_fuel 32) with 5%nat. cbn [write_varint_loop length Nat.eqb].
  rewrite !land_7f, Z.mod_mod by lia. pose proof (Z.mod_pos_bound v 128 ltac:(lia)).
  by rewrite (proj2 (Z.leb_le (v mod 128) 127)), (proj2 (Z.leb_le v 127)) by lia.
Qed.

Lemma coins_Serialize_stored lib c : coins_Serialize lib (stored_coins c) = coins_Serialize lib c.
Proof. unfold coins_Serialize. cbn [stored_coins c_vout c_nHeight c_nVersion]. by rewrite WriteVarInt_stored. Qed.

Lemma undo_Serialize_stored lib u : undo_Serialize lib (stored_undo u) = undo_Serialize lib u.
Proof.
  unfold undo_Serialize. cbn [stored_undo u_txout u_nHeight u_nVersion]. destruct (0 <? u_nHeight u); [by rewrite WriteVarInt_stored|done].
Qed.

Lemma enc_vector_map {A} (c : codec A) f l : (forall x, enc c (f x) = enc c x) -> enc (c_vector c) (map f l) = enc (c_vector c) l.
Proof.
  intros E. cbn [c_vector enc]. rewrite length_map. f_equal. induction l as [|x l IH]; [done|]. cbn [map mbind list_bind]. by rewrite E, IH.
Qed.

(** C35 What the coin database and the undo files give back: the unspent outputs of a
    transaction, whatever their number and whichever are spent, are read from their
    compressed format with its bit mask, as long as one output is left (else the code's
    assertion fails), and so is the undo data of a block, each with nothing lost but a
    negative version, of which the last seven bits are kept, and the version of undo data
    without a height.  Amounts, scripts, heights and counts are those the format has room for. *)
Theorem coins_and_undo_roundtrip lib c vu rest :
  key_laws lib -> wf_coins (stored_coins c) -> IsPruned c = false -> dom (c_blockundo lib) (map (map stored_undo) vu) ->
  (exists bs, coins_Serialize lib c = Some bs /\ coins_Unserialize lib (bs ++ rest) = Ok (stored_coins c, rest)) /\
  dec (c_blockundo lib) (enc (c_blockundo lib) vu ++ rest) = Ok (map (map stored_undo) vu, rest) /\
  (0 <= c_nVersion c -> stored_coins c = c).
Proof.
  intros laws Hw Hp Hu. split_and!.
  - rewrite <- coins_Serialize_stored. by apply coins_roundtrip_lem.
  - assert (enc (c_blockundo lib) (map (map stored_undo) vu) = enc (c_blockundo lib) vu) as <-; [|by apply c_blockundo_lawful].
    unfold c_blockundo, c_txundo. apply enc_vector_map. intros l. apply enc_vector_map. intros u. apply undo_Serialize_stored.
  - intros Hv. unfold stored_coins, stored_version. rewrite (proj2 (Z.ltb_ge _ _) Hv). by destruct c.
Qed.

Definition example_out (n : Z) : CTxOut := {| nValue := n; scriptPubKey := [OP_DUP; OP_CHECKSIG] |}.

(** Outputs 0, 1, 2 and 12 of 13 are left, of a coinstake. *)
Definition example_coins : CCoins := {|
  fCoinBase := false; fCoinStake := true;
  c_vout := [example_out 7; example_out 8; example_out 900000000] ++ replicate 9 null_txout ++ [example_out 1];
  c_nHeight := 203998; c_nVersion := 1 |}.

Definition example_undo : CTxInUndo :=
  {| u_txout := example_out 5; u_fCoinBase := false; u_fCoinStake := true; u_nHeight := 120; u_nVersion := 1 |}.

Lemma example_out_dom n : 0 <= n < MAX_AMOUNT -> dom_txout (example_out n).
Proof. intros H. split; [exact H|]. split; [|done]. repeat constructor; vm_compute; congruence. Qed.

Lemma example_out_wf n : 0 <= n < MAX_AMOUNT -> wf_out (example_out n).
Proof.
  intros H. unfold wf_out, txout_IsNull. cbn [nValue example_out].
  destruct (Z.eqb_spec n (-1)); [lia|]. by apply example_out_dom.
Qed.

Lemma example_coins_wf : wf_coins example_coins.
Proof.
  split; [|vm_compute; reflexivity|vm_compute; reflexivity|vm_compute; split; congruence..].
  cbn [c_vout example_coins app]. repeat (apply Forall_cons; split; [apply example_out_wf; unfold MAX_AMOUNT; lia|]).
  apply Forall_app. split; [by apply Forall_replicate|].
  apply Forall_cons. split; [apply example_out_wf; unfold MAX_AMOUNT; lia|constructor].
Qed.

Lemma example_undo_dom : dom (c_blockundo toy_keys) [[example_undo]; []].
Proof.
  assert (H : dom_undo example_undo).
  { split; [apply example_out_dom; unfold MAX_AMOUNT; lia|]. cbn. lia. }
  assert (L : forall A (l : list A), Z.of_nat (length l) <= 2 -> Z.of_nat (length l) <= MAX_SIZE)
    by (unfold MAX_SIZE; lia).
  split; [by apply L|]. apply Forall_cons. split; [split; [by apply L|by apply Forall_singleton]|].
  apply Forall_singleton. split; [by apply L|constructor].
Qed.

(** The same coins with version -2, of which 126 is read back. *)
Definition negative_coins : CCoins := {|
  fCoinBase := false; fCoinStake := true; c_vout := c_vout example_coins; c_nHeight := 203998; c_nVersion := -2 |}.

Lemma negative_coins_wf : wf_coins (stored_coins negative_coins).
Proof. pose proof example_coins_wf as [H1 H2 H3 H4 _]. split; [exact H1| |exact H3|exact H4|vm_compute; split; [discriminate|reflexivity]]. reflexivity. Qed.

Lemma coins_and_undo_roundtrip_witness :
  c_nVersion (stored_coins negative_coins) = 126 /\
  (exists bs, coins_Serialize toy_keys negative_coins = Some bs /\
     coins_Unserialize toy_keys (bs ++ [7]) = Ok (stored_coins negative_coins, [7])) /\
  dec (c_blockundo toy_keys) (enc (c_blockundo toy_keys) [[example_undo]; []] ++ [7]) = Ok (map (map stored_undo) [[example_undo]; []], [7]) /\
  (0 <= c_nVersion negative_coins -> stored_coins negative_coins = negative_coins).
Proof.
  split; [vm_compute; reflexivity|].
  apply (coins_and_undo_roundtrip toy_keys negative_coins [[example_undo]; []] [7]).
  - exact toy_key_laws.
  - exact negative_coins_wf.
  - reflexivity.
  - exact example_undo_dom.
Defined.

(** [GetSerializeSize] codes the header with 8 where [Serialize] has 16: with eight
    non-zero bytes of bit mask it is one less than the size written. *)
Definition wide_coins : CCoins := {|
  fCoinBase := false; fCoinStake := false; c_vout := replicate 66 (example_out 1); c_nHeight := 1; c_nVersion := 1 |}.

Lemma GetSerializeSize_short :
  exists bs n, coins_Serialize toy_keys wide_coins = Some bs /\
    coins_GetSerializeSize toy_keys wide_coins = Some n /\ Z.of_nat (length bs) = n + 1.
Proof. eexists _, _. split; [vm_compute; reflexivity|]. split; vm_compute; reflexivity. Qed.
