(* ===== verification/CoinsView.v ===== *)
(** Views of the unspent outputs (coins.h, coins.cpp) and the coin database (txdb.cpp).

    [CCoinsView] is the class of the operations a view offers and [CCoinsViewLaws] what
    it promises: it stands for a function [content] from transaction ids to coins, in
    which a fully spent entry and a missing one are the same.  The instances are
    [CCoinsViewDB], on a key-value store, and [CCoinsViewCache], on any view; the cache
    fills on reading, so every operation gives back the view.

    A [CCoinsModifier] lives from [ModifyCoins] to its destructor; [ModifyCoins] takes
    the change made between the two, so the assertions on [hasModifier] hold. *)

From stdpp Require Import gmap.
From S2P Require Import Prelude Uint256 Arith256 Serialize Script Transaction Pubkey Compressor Coins.

(** * Cache entries *)

Record CCoinsCacheEntry := { coins : CCoins; DIRTY : bool; FRESH : bool }.

Abbreviation CCoinsMap := (gmap uint256 CCoinsCacheEntry) (only parsing).

(** How an operation can end the program: a failed assertion, or an exception of the
    database. *)
Inductive view_error := AssertionFailed | DatabaseError.

(** What the coins of a transaction mean: nothing once everything is spent. *)
Definition norm (c : CCoins) : CCoins := if IsPruned c then empty_coins else c.

(** * The interface *)

Class CCoinsView (V : Type) := {
  GetCoins : V -> uint256 -> V * option CCoins;
  HaveCoins : V -> uint256 -> V * bool;
  GetBestBlock : V -> V * uint256;
  BatchWrite : V -> list (uint256 * CCoinsCacheEntry) -> uint256 -> result view_error (V * bool)
}.

(** A batch that a view must accept.  [holds] tells which entries it has handed out: a
    dirty entry is one of those, or it was fresh, so that the view has nothing for it. *)
Record batch_ok (content : uint256 -> CCoins) (holds : uint256 -> Prop)
    (m : list (uint256 * CCoinsCacheEntry)) : Prop := {
  batch_nodup : NoDup m.*1;
  batch_wf k e : (k, e) ∈ m -> wf256 k /\ wf_coins (coins e);
  batch_fresh k e : (k, e) ∈ m -> FRESH e = true -> content k = empty_coins;
  batch_held k e : (k, e) ∈ m -> FRESH e = false -> holds k
}.

(** The content after a batch. *)
Definition batch_content (content : uint256 -> CCoins) (m : list (uint256 * CCoinsCacheEntry)) (k : uint256) : CCoins :=
  match list_find (fun p => p.1 = k) m with
  | Some (_, (_, e)) => if DIRTY e then norm (coins e) else content k
  | None => content k
  end.

(** What a view that is only read promises. *)
Class CCoinsViewReads (V : Type) `{CCoinsView V} := {
  content : V -> uint256 -> CCoins;
  best : V -> uint256;
  holds : V -> uint256 -> Prop;
  view_inv : V -> Prop;
  GetCoins_law v k v' r : view_inv v -> wf256 k -> GetCoins v k = (v', r) ->
    view_inv v' /\ best v' = best v /\
    (forall k', wf256 k' -> content v' k' = content v k') /\ (forall k', holds v k' -> holds v' k') /\
    match r with
    | None => content v k = empty_coins
    | Some c => norm c = content v k /\ wf_coins c /\ holds v' k
    end;
  GetBestBlock_law v v' h : view_inv v -> GetBestBlock v = (v', h) ->
    view_inv v' /\ best v' = best v /\ (forall k', wf256 k' -> content v' k' = content v k') /\
    (forall k', holds v k' -> holds v' k') /\ h = best v
}.

(** What one that is also written promises. *)
Class CCoinsViewLaws (V : Type) `{CCoinsViewReads V} := {
  HaveCoins_law v k v' b : view_inv v -> wf256 k -> HaveCoins v k = (v', b) ->
    view_inv v' /\ best v' = best v /\ (forall k', wf256 k' -> content v' k' = content v k') /\
    b = negb (IsPruned (content v k));
  BatchWrite_no_assert v m h : view_inv v -> batch_ok (content v) (holds v) m ->
    BatchWrite v m h <> Err AssertionFailed;
  BatchWrite_law v m h v' : view_inv v -> batch_ok (content v) (holds v) m -> h <> zero W256 -> wf256 h ->
    BatchWrite v m h = Ok (v', true) ->
    view_inv v' /\ best v' = h /\ (forall k, wf256 k -> content v' k = batch_content (content v) m k)
}.

(** * The cache *)

Record CCoinsViewCache (V : Type) := {
  base : V;
  hashBlock : uint256;
  cacheCoins : CCoinsMap
}.
Arguments base {V}.
Arguments hashBlock {V}.
Arguments cacheCoins {V}.
Arguments Build_CCoinsViewCache {V}.

Section Cache.
Context {V : Type} `{CCoinsView V}.
Abbreviation cache := (CCoinsViewCache V).

(** The constructor. *)
Definition new_cache (baseIn : V) : cache := {| base := baseIn; hashBlock := zero W256; cacheCoins := ∅ |}.

Definition set_base (c : cache) (b : V) : cache :=
  {| base := b; hashBlock := hashBlock c; cacheCoins := cacheCoins c |}.
Definition set_cacheCoins (c : cache) (m : CCoinsMap) : cache :=
  {| base := base c; hashBlock := hashBlock c; cacheCoins := m |}.

(** The iterator returned is the entry, [None] for [end()]. *)
Definition FetchCoins (c : cache) (txid : uint256) : cache * option CCoinsCacheEntry :=
  match cacheCoins c !! txid with
  | Some it => (c, Some it)
  | None =>
      let '(b, r) := GetCoins (base c) txid in
      let c := set_base c b in
      match r with
      | None => (c, None)
      | Some tmp =>
          let ret := {| coins := tmp; DIRTY := false; FRESH := IsPruned tmp |} in
          (set_cacheCoins c (<[txid := ret]> (cacheCoins c)), Some ret)
      end
  end.

Definition cache_GetCoins (c : cache) (txid : uint256) : cache * option CCoins :=
  let '(c, it) := FetchCoins c txid in (c, option_map coins it).

(** [AccessCoins]: the pointer is the coins, [None] for NULL. *)
Definition AccessCoins (c : cache) (txid : uint256) : cache * option CCoins :=
  let '(c, it) := FetchCoins c txid in (c, option_map coins it).

Definition cache_HaveCoins (c : cache) (txid : uint256) : cache * bool :=
  let '(c, it) := FetchCoins c txid in
  (c, match it with None => false | Some e => negb (length (c_vout (coins e)) =? 0)%nat end).

(** The entry [ModifyCoins] makes a modifier for. *)
Definition modifier_entry (c : cache) (txid : uint256) : cache * CCoinsCacheEntry :=
  let '(c, e) :=
    match cacheCoins c !! txid with
    | Some e => (c, e)
    | None =>
        let '(b, r) := GetCoins (base c) txid in
        (set_base c b,
         match r with
         | None => {| coins := empty_coins; DIRTY := false; FRESH := true |}
         | Some tmp => {| coins := tmp; DIRTY := false; FRESH := IsPruned tmp |}
         end)
    end in
  (c, {| coins := coins e; DIRTY := true; FRESH := FRESH e |}).

(** [ModifyCoins], the change [f] through the modifier, with its result, and the
    destructor [~CCoinsModifier]. *)
Definition ModifyCoins {A} (c : cache) (txid : uint256) (f : CCoins -> CCoins * A) : cache * A :=
  let '(c, e) := modifier_entry c txid in
  let '(cs, a) := f (coins e) in
  let cs := Cleanup cs in
  let m :=
    if FRESH e && IsPruned cs then delete txid (cacheCoins c)
    else <[txid := {| coins := cs; DIRTY := DIRTY e; FRESH := FRESH e |}]> (cacheCoins c) in
  (set_cacheCoins c m, a).

Definition cache_GetBestBlock (c : cache) : cache * uint256 :=
  if bool_decide (hashBlock c = zero W256) then
    let '(b, h) := GetBestBlock (base c) in
    ({| base := b; hashBlock := h; cacheCoins := cacheCoins c |}, h)
  else (c, hashBlock c).

Definition SetBestBlock (c : cache) (h : uint256) : cache :=
  {| base := base c; hashBlock := h; cacheCoins := cacheCoins c |}.

(** One turn of the loop of [BatchWrite]: the entry [e] of the child, ours before and
    after. *)
Definition batch_one (e : CCoinsCacheEntry) (itUs : option CCoinsCacheEntry) : result view_error (option CCoinsCacheEntry) :=
  if DIRTY e then
    match itUs with
    | None =>
        if negb (IsPruned (coins e)) then
          if FRESH e then Ok (Some {| coins := coins e; DIRTY := true; FRESH := true |})
          else Err AssertionFailed
        else Ok None
    | Some us =>
        if FRESH us && IsPruned (coins e) then Ok None
        else Ok (Some {| coins := coins e; DIRTY := true; FRESH := FRESH us |})
    end
  else Ok itUs.

Local Open Scope result_scope.

Fixpoint batch_loop (mapCoins : list (uint256 * CCoinsCacheEntry)) (m : CCoinsMap) : result view_error CCoinsMap :=
  match mapCoins with
  | [] => Ok m
  | (k, e) :: mapCoins =>
      us <-! batch_one e (m !! k) ;; batch_loop mapCoins (partial_alter (fun _ => us) k m)
  end.

Definition cache_BatchWrite (c : cache) (mapCoins : list (uint256 * CCoinsCacheEntry)) (h : uint256) : result view_error (cache * bool) :=
  m <-! batch_loop mapCoins (cacheCoins c) ;;
  Ok ({| base := base c; hashBlock := h; cacheCoins := m |}, true).

(** The elements are passed in the order of [map_to_list]; the laws hold for any. *)
Definition Flush (c : cache) : result view_error (cache * bool) :=
  r <-! BatchWrite (base c) (map_to_list (cacheCoins c)) (hashBlock c) ;;
  Ok ({| base := r.1; hashBlock := hashBlock c; cacheCoins := ∅ |}, r.2).

Definition GetCacheSize (c : cache) : nat := size (cacheCoins c).

#[export] Instance CCoinsViewCache_view : CCoinsView cache := {
  GetCoins := cache_GetCoins;
  HaveCoins := cache_HaveCoins;
  GetBestBlock := cache_GetBestBlock;
  BatchWrite := cache_BatchWrite
}.

(** ** Inputs of a transaction *)

(** [None] for the failed assertion. *)
Definition GetOutputFor (c : cache) (input : CTxIn) : cache * option CTxOut :=
  let '(c, cs) := AccessCoins c (out_hash (prevout input)) in
  (c, match cs with
      | None => None
      | Some cs => if IsAvailable cs (out_n (prevout input)) then c_vout cs !! Z.to_nat (out_n (prevout input)) else None
      end).

Fixpoint value_in_loop (c : cache) (ins : list CTxIn) (nResult : Z) : cache * option Z :=
  match ins with
  | [] => (c, Some nResult)
  | i :: ins =>
      let '(c, o) := GetOutputFor c i in
      match o with
      | None => (c, None)
      | Some o => value_in_loop c ins (s64 (nResult + nValue o))
      end
  end.

Definition GetValueIn (c : cache) (tx : CTransaction) : cache * option Z :=
  if IsCoinBase tx then (c, Some 0) else value_in_loop c (vin tx) 0.

Fixpoint have_inputs_loop (c : cache) (ins : list CTxIn) : cache * bool :=
  match ins with
  | [] => (c, true)
  | i :: ins =>
      let '(c, cs) := AccessCoins c (out_hash (prevout i)) in
      match cs with
      | None => (c, false)
      | Some cs => if negb (IsAvailable cs (out_n (prevout i))) then (c, false) else have_inputs_loop c ins
      end
  end.

Definition HaveInputs (c : cache) (tx : CTransaction) : cache * bool :=
  if negb (IsCoinBase tx) then have_inputs_loop c (vin tx) else (c, true).
End Cache.

(** * Lemmas *)

Lemma norm_idem c : norm (norm c) = norm c.
Proof. unfold norm. destruct (IsPruned c) eqn:E; [done|]. by rewrite E. Qed.

Lemma IsPruned_norm c : IsPruned (norm c) = IsPruned c.
Proof. unfold norm. by destruct (IsPruned c) eqn:E. Qed.

Lemma norm_pruned c : IsPruned c = true -> norm c = empty_coins.
Proof. unfold norm. by intros ->. Qed.

Lemma norm_empty c : norm c = empty_coins -> IsPruned c = true.
Proof. intros H. by rewrite <- IsPruned_norm, H. Qed.

(** The code's equality is equality of the meanings. *)
Lemma coins_eq_norm a b : coins_eq a b = true <-> norm a = norm b.
Proof.
  unfold coins_eq, norm. destruct (IsPruned a) eqn:A, (IsPruned b) eqn:B; cbn [andb]; [done| | |].
  - split; [|intros <-; done]. rewrite !andb_true_iff, bool_decide_eq_true. intros [_ E].
    unfold IsPruned in *. by rewrite E, B in A.
  - split; [|intros ->; done]. rewrite !andb_true_iff, bool_decide_eq_true. intros [_ E].
    unfold IsPruned in *. by rewrite E, B in A.
  - rewrite !andb_true_iff, bool_decide_eq_true, !Z.eqb_eq, !eqb_true_iff.
    destruct a, b; cbn. split; [intros ((((-> & ->) & ->) & ->) & ->); done|by intros [= -> -> -> -> ->]].
Qed.

Lemma wf_empty_coins : wf_coins empty_coins.
Proof. split; cbn; try lia; [constructor|done]. Qed.

Lemma cleaned_pruned c : Cleanup c = c -> IsPruned c = (length (c_vout c) =? 0)%nat.
Proof.
  intros Hc. unfold IsPruned. destruct (c_vout c) as [|o v] eqn:E; [done|].
  destruct (forallb txout_IsNull (o :: v)) eqn:F; [|done]. rewrite forallb_forall in F.
  apply wf_clean_vout in Hc. rewrite E in Hc. pose proof (cleaned_last (o :: v) ltac:(done) Hc) as A.
  unfold avail in A. case_match eqn:L; [|done]. apply list_elem_of_lookup_2, list_elem_of_In, F in L.
  by rewrite L in A.
Qed.

Lemma batch_content_not_in f m k : k ∉ m.*1 -> batch_content f m k = f k.
Proof.
  intros H. unfold batch_content. case_match eqn:E; [|done]. destruct p as [i [k' e]].
  apply list_find_Some in E as (E & Hk & _). cbn in Hk. subst. exfalso. apply H.
  apply list_elem_of_lookup_2 in E. apply list_elem_of_fmap. by exists (k, e).
Qed.

Lemma batch_content_in f m k e :
  NoDup m.*1 -> (k, e) ∈ m -> batch_content f m k = if DIRTY e then norm (coins e) else f k.
Proof.
  intros Hn Hi. unfold batch_content. case_match eqn:E.
  - destruct p as [i [k' e']]. apply list_find_Some in E as (E & Hk & _). cbn in Hk. subst.
    apply list_elem_of_lookup_1 in Hi as [j Hj].
    assert (i = j) as ->.
    { eapply NoDup_lookup; [exact Hn|..]; rewrite list_lookup_fmap; [by rewrite E|by rewrite Hj]. }
    rewrite E in Hj. by injection Hj as ->.
  - apply list_find_None in E. rewrite Forall_forall in E. by destruct (E _ Hi).
Qed.

Section CacheLaws.
Context {V : Type} `{CCoinsViewReads V}.
Abbreviation cache := (CCoinsViewCache V).

Definition cache_content (c : cache) (k : uint256) : CCoins :=
  match cacheCoins c !! k with Some e => norm (coins e) | None => content (base c) k end.
Definition cache_best (c : cache) : uint256 :=
  if bool_decide (hashBlock c = zero W256) then best (base c) else hashBlock c.
Definition cache_holds (c : cache) (k : uint256) : Prop := is_Some (cacheCoins c !! k).

(** An entry against the parent: fresh ones are missing there, clean ones the same. *)
Record entry_inv (b : V) (k : uint256) (e : CCoinsCacheEntry) : Prop := {
  ei_key : wf256 k;
  ei_wf : wf_coins (coins e);
  ei_fresh : FRESH e = true -> content b k = empty_coins;
  ei_clean : DIRTY e = false -> norm (coins e) = content b k;
  ei_held : FRESH e = false -> holds b k
}.

Record cache_inv (c : cache) : Prop := {
  ci_base : view_inv (base c);
  ci_entries : map_Forall (entry_inv (base c)) (cacheCoins c)
}.

(** The parent may change as long as it means the same and hands out no less. *)
Definition same_view (b b' : V) : Prop :=
  view_inv b' /\ best b' = best b /\ (forall k, wf256 k -> content b' k = content b k) /\
  (forall k, holds b k -> holds b' k).

Lemma entry_inv_same b b' k e : same_view b b' -> entry_inv b k e -> entry_inv b' k e.
Proof.
  intros (_ & _ & Hc & Hh) [K W F C D].
  split; [done|done|intros; rewrite Hc by done; auto..|auto].
Qed.

Lemma cache_inv_set_base c b : same_view (base c) b -> cache_inv c -> cache_inv (set_base c b).
Proof.
  intros S [Hb He]. split; [apply S|]. intros k e Hk. eapply entry_inv_same; [exact S|]. by apply He.
Qed.

Definition same_cache (c c' : cache) : Prop :=
  cache_inv c' /\ cache_best c' = cache_best c /\ (forall k, wf256 k -> cache_content c' k = cache_content c k) /\
  (forall k, cache_holds c k -> cache_holds c' k).

Lemma same_cache_set_base c b : same_view (base c) b -> cache_inv c -> same_cache c (set_base c b).
Proof.
  intros S I. split; [by apply cache_inv_set_base|]. destruct S as (_ & Sb & Sc & _).
  split_and!; unfold cache_best, cache_content, cache_holds; cbn; [by rewrite Sb| |done].
  intros k Hk. case_match; [done|by apply Sc].
Qed.

Lemma same_cache_trans a b c : same_cache a b -> same_cache b c -> same_cache a c.
Proof.
  intros (I1 & B1 & C1 & H1) (I2 & B2 & C2 & H2). split_and!; [done|congruence| |auto].
  intros k Hk. by rewrite C2, C1.
Qed.

Lemma same_cache_refl c : cache_inv c -> same_cache c c.
Proof. by intros. Qed.

(** Putting an entry for a key the cache has nothing for. *)
Lemma same_cache_insert c k e :
  cache_inv c -> entry_inv (base c) k e -> cacheCoins c !! k = None -> norm (coins e) = content (base c) k ->
  same_cache c (set_cacheCoins c (<[k := e]> (cacheCoins c))).
Proof.
  intros [Ib Ie] He Hk Hn. split_and!.
  - split; [done|]. cbn. by apply map_Forall_insert_2.
  - done.
  - intros k' _. unfold cache_content. cbn. destruct (decide (k' = k)) as [->|].
    + by rewrite lookup_insert_eq, Hk.
    + by rewrite lookup_insert_ne.
  - intros k' [e' He']. unfold cache_holds. cbn. destruct (decide (k' = k)) as [->|]; [by rewrite Hk in He'|].
    rewrite lookup_insert_ne by done. eauto.
Qed.

Lemma FetchCoins_spec c k c' it :
  cache_inv c -> wf256 k -> FetchCoins c k = (c', it) ->
  same_cache c c' /\
  match it with
  | None => cache_content c k = empty_coins
  | Some e => norm (coins e) = cache_content c k /\ wf_coins (coins e) /\ cacheCoins c' !! k = Some e
  end.
Proof.
  intros I Hk. unfold FetchCoins. destruct (cacheCoins c !! k) as [e|] eqn:L.
  - intros [= <- <-]. split; [by apply same_cache_refl|]. unfold cache_content. rewrite L.
    split_and!; [done| |done]. destruct I as [_ Ie]. apply (Ie k e L).
  - destruct (GetCoins (base c) k) as [b r] eqn:G.
    destruct (GetCoins_law _ _ _ _ (ci_base _ I) Hk G) as (Gi & Gb & Gc & Gh & Gr).
    assert (S : same_view (base c) b) by done.
    pose proof (same_cache_set_base c b S I) as Sc.
    destruct r as [tmp|]; intros [= <- <-].
    + destruct Gr as (Gn & Gw & Gk). rewrite <- (Gc k Hk) in Gn.
      split.
      * eapply same_cache_trans; [exact Sc|]. apply (same_cache_insert (set_base c b)); [exact (proj1 Sc)| |done|exact Gn].
        split; [done|done|cbn; intros P; by rewrite <- Gn, norm_pruned|done|done].
      * cbn. unfold cache_content. rewrite L, lookup_insert_eq. by rewrite <- (Gc k Hk).
    + split; [done|]. unfold cache_content. by rewrite L.
Qed.

Lemma modifier_entry_spec c k c' e :
  cache_inv c -> wf256 k -> modifier_entry c k = (c', e) ->
  same_cache c c' /\ cacheCoins c' = cacheCoins c /\
  norm (coins e) = cache_content c k /\ wf_coins (coins e) /\ DIRTY e = true /\ entry_inv (base c') k e.
Proof.
  intros I Hk. unfold modifier_entry. destruct (cacheCoins c !! k) as [e0|] eqn:L.
  - intros [= <- <-]. split; [by apply same_cache_refl|]. unfold cache_content. rewrite L. cbn.
    destruct I as [_ Ie]. destruct (Ie k e0 L) as [K W F C D]. split_and!; try done.
  - destruct (GetCoins (base c) k) as [b r] eqn:G.
    destruct (GetCoins_law _ _ _ _ (ci_base _ I) Hk G) as (Gi & Gb & Gc & Gh & Gr).
    assert (S : same_view (base c) b) by done.
    pose proof (same_cache_set_base c b S I) as Sc. unfold cache_content. rewrite L.
    destruct r as [tmp|]; intros [= <- <-]; cbn.
    + destruct Gr as (Gn & Gw & Gk). split_and!; try done.
      split; [done|done|cbn; intros P; by rewrite Gc, <- Gn, norm_pruned|done|done].
    + split_and!; try done.
      split; [done|exact wf_empty_coins|cbn; intros _; by rewrite Gc|done|done].
Qed.

(** ** Modification *)

Lemma ModifyCoins_spec {A} c k (f : CCoins -> CCoins * A) c' a :
  cache_inv c -> wf256 k -> ModifyCoins c k f = (c', a) ->
  exists cs, wf_coins cs /\ norm cs = cache_content c k /\ a = (f cs).2 /\
    (wf_coins (Cleanup (f cs).1) ->
     cache_inv c' /\ cache_best c' = cache_best c /\
     (forall k', wf256 k' -> cache_content c' k' =
        if bool_decide (k' = k) then norm (Cleanup (f cs).1) else cache_content c k')).
Proof.
  intros I Hk. unfold ModifyCoins. destruct (modifier_entry c k) as [c1 e] eqn:M.
  destruct (modifier_entry_spec _ _ _ _ I Hk M) as ((I1 & B1 & C1 & _) & Hm & Hn & Hw & Hd & He).
  destruct (f (coins e)) as [cs a'] eqn:Hf. intros [= <- <-]. exists (coins e). rewrite Hf. cbn [fst snd].
  split_and!; try done. intros Hc. destruct (FRESH e && IsPruned (Cleanup cs)) eqn:E.
  - apply andb_prop in E as [E1 E2]. split_and!.
    + split; [apply I1|]. cbn. apply map_Forall_delete, I1.
    + done.
    + intros k' Hk'. rewrite <- (C1 k' Hk'). unfold cache_content. cbn. case_bool_decide as D.
      * subst. rewrite lookup_delete_eq, (norm_pruned _ E2). by apply He.
      * by rewrite lookup_delete_ne.
  - split_and!.
    + split; [apply I1|]. cbn. apply map_Forall_insert_2; [|apply I1].
      destruct He as [K W F C D]. split; try done. cbn. intros X. by rewrite Hd in X.
    + done.
    + intros k' Hk'. rewrite <- (C1 k' Hk'). unfold cache_content. cbn. case_bool_decide as D.
      * subst. by rewrite lookup_insert_eq.
      * by rewrite lookup_insert_ne.
Qed.

(** ** Batches *)

Lemma batch_loop_spec m : forall cc,
  NoDup m.*1 -> (forall k e, (k, e) ∈ m -> exists x, batch_one e (cc !! k) = Ok x) ->
  exists cc', batch_loop m cc = Ok cc' /\
    (forall k, k ∉ m.*1 -> cc' !! k = cc !! k) /\
    (forall k e, (k, e) ∈ m -> batch_one e (cc !! k) = Ok (cc' !! k)).
Proof.
  induction m as [|[k0 e0] m IH]; intros cc Hn Hx.
  - exists cc. split_and!; [done..|]. intros k e Hin. by apply elem_of_nil in Hin.
  - cbn in Hn. apply NoDup_cons in Hn as [Hk0 Hn].
    destruct (Hx k0 e0) as [x0 E0]; [by apply elem_of_cons; left|]. cbn [batch_loop]. rewrite E0. cbn [rbind].
    assert (Hne : forall k e, (k, e) ∈ m -> k <> k0).
    { intros k e Hin ->. apply Hk0, list_elem_of_fmap. by exists (k0, e). }
    destruct (IH (partial_alter (fun _ => x0) k0 cc) Hn) as (cc' & -> & R1 & R2).
    { intros k e Hin. rewrite lookup_partial_alter_ne by (by eapply not_eq_sym, Hne). apply Hx. by apply elem_of_cons; right. }
    exists cc'. split_and!; [done| |].
    + intros k Hk. cbn in Hk. apply not_elem_of_cons in Hk as [? Hk].
      rewrite R1 by done. by rewrite lookup_partial_alter_ne.
    + intros k e Hin. apply elem_of_cons in Hin as [[= -> ->]|Hin].
      * rewrite R1 by done. by rewrite lookup_partial_alter_eq.
      * rewrite <- (R2 k e Hin). by rewrite lookup_partial_alter_ne by (by eapply not_eq_sym, Hne).
Qed.

(** One entry of a batch that the cache must accept. *)
Lemma batch_one_spec c k e :
  cache_inv c -> wf256 k -> wf_coins (coins e) ->
  (FRESH e = true -> cache_content c k = empty_coins) -> (FRESH e = false -> cache_holds c k) ->
  exists x, batch_one e (cacheCoins c !! k) = Ok x /\
    (forall e', x = Some e' -> entry_inv (base c) k e') /\
    match x with Some e' => norm (coins e') | None => content (base c) k end =
      if DIRTY e then norm (coins e) else cache_content c k.
Proof.
  intros [_ Ie] Hk Hw Hf Hh. unfold batch_one, cache_content in *. destruct (DIRTY e).
  2: { eexists. split; [reflexivity|]. split; [|done]. intros e' E. by apply Ie. }
  destruct (cacheCoins c !! k) as [us|] eqn:L.
  - destruct (Ie k us L) as [_ _ F _ D]. destruct (FRESH us && IsPruned (coins e)) eqn:E.
    + apply andb_prop in E as [E1 E2]. eexists. split; [reflexivity|]. split; [done|].
      rewrite norm_pruned by done. auto.
    + eexists. split; [reflexivity|]. split; [|done]. intros e' [= <-]. by split.
  - destruct (FRESH e) eqn:Fe.
    2: { destruct (Hh eq_refl) as [? X]. congruence. }
    destruct (IsPruned (coins e)) eqn:P; cbn [negb].
    + eexists. split; [reflexivity|]. split; [done|]. rewrite norm_pruned by done. auto.
    + eexists. split; [reflexivity|]. split; [|done]. intros e' [= <-]. split; auto; done.
Qed.

Lemma cache_BatchWrite_spec c m h :
  cache_inv c -> batch_ok (cache_content c) (cache_holds c) m ->
  exists c', cache_BatchWrite c m h = Ok (c', true) /\ cache_inv c' /\ hashBlock c' = h /\
    (forall k, wf256 k -> cache_content c' k = batch_content (cache_content c) m k).
Proof.
  intros I [Bn Bw Bf Bh].
  assert (Hone : forall k e, (k, e) ∈ m -> exists x, batch_one e (cacheCoins c !! k) = Ok x /\
    (forall e', x = Some e' -> entry_inv (base c) k e') /\
    match x with Some e' => norm (coins e') | None => content (base c) k end =
      if DIRTY e then norm (coins e) else cache_content c k).
  { intros k e Hin. destruct (Bw k e Hin). apply batch_one_spec; eauto. }
  destruct (batch_loop_spec m (cacheCoins c) Bn) as (cc & E & R1 & R2).
  { intros k e Hin. destruct (Hone k e Hin) as (x & Ex & _). eauto. }
  unfold cache_BatchWrite. rewrite E. cbn [rbind].
  assert (Hin : forall k e, (k, e) ∈ m -> (forall e', cc !! k = Some e' -> entry_inv (base c) k e') /\
    match cc !! k with Some e' => norm (coins e') | None => content (base c) k end =
      if DIRTY e then norm (coins e) else cache_content c k).
  { intros k e Hi. destruct (Hone k e Hi) as (x & Ex & Hx). rewrite (R2 k e Hi) in Ex. by apply Ok_inj in Ex as <-. }
  assert (Hcase : forall k, k ∈ m.*1 -> exists e, (k, e) ∈ m).
  { intros k Hi. apply list_elem_of_fmap in Hi as ([k' e] & -> & Hi). by exists e. }
  eexists. split; [reflexivity|]. split; [|split; [done|]].
  - split; [apply I|]. cbn. intros k e' He'. destruct (decide (k ∈ m.*1)) as [Hi|Hi].
    + destruct (Hcase k Hi) as [e Hi']. by apply (Hin k e Hi').
    + rewrite R1 in He' by done. by apply I.
  - intros k _. unfold cache_content at 1. cbn. destruct (decide (k ∈ m.*1)) as [Hi|Hi].
    + destruct (Hcase k Hi) as [e Hi']. rewrite (batch_content_in _ _ k e) by done. by apply (Hin k e Hi').
    + rewrite batch_content_not_in, R1 by done. done.
Qed.

Lemma cache_GetBestBlock_spec c c' h :
  cache_inv c -> cache_GetBestBlock c = (c', h) -> same_cache c c' /\ h = cache_best c.
Proof.
  intros I. unfold cache_GetBestBlock, cache_best. case_bool_decide as Z0.
  - destruct (GetBestBlock (base c)) as [b h'] eqn:G. intros [= <- <-].
    destruct (GetBestBlock_law _ _ _ (ci_base _ I) G) as (Gi & Gb & Gc & Gh & ->).
    assert (S : same_view (base c) b) by done.
    destruct (same_cache_set_base c b S I) as (S1 & _ & S3 & S4).
    split; [|done]. split_and!; [by split; apply S1| |done|done].
    unfold cache_best. cbn. rewrite Z0, (bool_decide_eq_true_2 (zero W256 = zero W256)) by done.
    case_bool_decide; [by rewrite Gb|done].
  - intros [= <- <-]. split; [by apply same_cache_refl|done].
Qed.

#[export] Program Instance CCoinsViewCache_reads : CCoinsViewReads cache := {
  content := cache_content;
  best := cache_best;
  holds := cache_holds;
  view_inv := cache_inv
}.
Next Obligation.
  intros c k c' r I Hk G. cbn in G. unfold cache_GetCoins in G. destruct (FetchCoins c k) as [c1 it] eqn:F.
  injection G as <- <-. destruct (FetchCoins_spec _ _ _ _ I Hk F) as ((S1 & S2 & S3 & S4) & R).
  split_and!; try done. destruct it as [e|]; [|done]. destruct R as (? & ? & ?). split_and!; try done. by eexists.
Qed.
Next Obligation.
  intros c c' h I G. destruct (cache_GetBestBlock_spec _ _ _ I G) as ((S1 & S2 & S3 & S4) & ->). done.
Qed.

#[export] Program Instance CCoinsViewCache_laws : CCoinsViewLaws cache := {}.
Next Obligation.
  intros c k c' b I Hk G. change (content c k) with (cache_content c k). cbn in G. unfold cache_HaveCoins in G. destruct (FetchCoins c k) as [c1 it] eqn:F.
  injection G as <- <-. destruct (FetchCoins_spec _ _ _ _ I Hk F) as ((S1 & S2 & S3 & S4) & R).
  split_and!; try done. destruct it as [e|].
  - destruct R as (<- & W & _). rewrite IsPruned_norm, cleaned_pruned; [done|apply W].
  - by rewrite R.
Qed.
Next Obligation.
  intros c m h I B. destruct (cache_BatchWrite_spec c m h I B) as (c' & E & _). cbn. by rewrite E.
Qed.
Next Obligation.
  intros c m h c' I B Hh _ G. destruct (cache_BatchWrite_spec c m h I B) as (c1 & E & I1 & H1 & C1).
  cbn in G. rewrite E in G. apply Ok_inj in G. injection G as <-. split_and!; [done| |done].
  cbn. unfold cache_best. rewrite H1. by rewrite bool_decide_eq_false_2.
Qed.

(** What a cache hands to its parent when it is flushed. *)
Lemma flush_batch_ok c : cache_inv c -> batch_ok (content (base c)) (holds (base c)) (map_to_list (cacheCoins c)).
Proof.
  intros [_ Ie]. split; [apply NoDup_fst_map_to_list|..]; intros k e Hin%elem_of_map_to_list;
    destruct (Ie k e Hin); auto.
Qed.

Lemma flush_content c k :
  cache_inv c -> batch_content (content (base c)) (map_to_list (cacheCoins c)) k = cache_content c k.
Proof.
  intros [_ Ie]. unfold cache_content. destruct (cacheCoins c !! k) as [e|] eqn:L.
  - rewrite (batch_content_in _ _ k e); [|apply NoDup_fst_map_to_list|by apply elem_of_map_to_list].
    destruct (DIRTY e) eqn:D; [done|]. symmetry. by apply (Ie k e L).
  - apply batch_content_not_in. intros Hi%list_elem_of_fmap. destruct Hi as ([k' e] & -> & Hi).
    apply elem_of_map_to_list in Hi. cbn in L. congruence.
Qed.
End CacheLaws.

(** * The coin database

    LevelDB is a third-party library: its store, a lookup and an atomic batch. *)

Inductive db_op := Put (key value : byte_list) | Delete (key : byte_list).

Record leveldb := {
  store : Type;
  db_Get : store -> byte_list -> option byte_list;      (* None: not found *)
  db_Write : store -> list db_op -> option store        (* None: a status that is not ok *)
}.

(** The value of a key after the operations. *)
Definition op_get (ops : list db_op) (old : option byte_list) (k : byte_list) : option byte_list :=
  fold_left (fun r op =>
    match op with
    | Put k' v => if decide (k = k') then Some v else r
    | Delete k' => if decide (k = k') then None else r
    end) ops old.

(** What LevelDB documents of a batch that was written. *)
Definition store_laws (ldb : leveldb) : Prop :=
  forall s ops s', db_Write ldb s ops = Some s' -> forall k, db_Get ldb s' k = op_get ops (db_Get ldb s k) k.

Record CCoinsViewDB (lib : secp256k1) (ldb : leveldb) := { db : store ldb }.
Arguments db {lib ldb}.
Arguments Build_CCoinsViewDB {lib ldb}.

(** [make_pair('c', txid)] and ['B'], serialized. *)
Definition coin_key (txid : uint256) : byte_list := 0x63 :: to_bytes txid.
Definition best_key : byte_list := [0x42].

Section DB.
Context {lib : secp256k1} {ldb : leveldb}.
Abbreviation view := (CCoinsViewDB lib ldb).

(** [CLevelDBWrapper::Read], which catches the exceptions of [Unserialize]. *)
Definition Read {A} (dec : reader A) (v : view) (key : byte_list) : option A :=
  match db_Get ldb (db v) key with
  | None => None
  | Some strValue => match dec strValue with Ok (a, _) => Some a | Err _ => None end
  end.

Definition Exists (v : view) (key : byte_list) : bool :=
  match db_Get ldb (db v) key with None => false | Some _ => true end.

Definition db_GetCoins (v : view) (txid : uint256) : view * option CCoins :=
  (v, Read (coins_Unserialize lib) v (coin_key txid)).

Definition db_HaveCoins (v : view) (txid : uint256) : view * bool := (v, Exists v (coin_key txid)).

Definition db_GetBestBlock (v : view) : view * uint256 :=
  (v, match Read (dec c_uint256) v best_key with None => zero W256 | Some h => h end).

(** [BatchWriteCoins]: [None] when the serialization fails its assertion. *)
Definition BatchWriteCoins (batch : list db_op) (hash : uint256) (cs : CCoins) : option (list db_op) :=
  if IsPruned cs then Some (batch ++ [Delete (coin_key hash)])
  else
    match coins_Serialize lib cs with
    | None => None
    | Some bs => Some (batch ++ [Put (coin_key hash) bs])
    end.

Fixpoint db_batch_loop (mapCoins : list (uint256 * CCoinsCacheEntry)) (batch : list db_op) : option (list db_op) :=
  match mapCoins with
  | [] => Some batch
  | (k, e) :: mapCoins =>
      match (if DIRTY e then BatchWriteCoins batch k (coins e) else Some batch) with
      | None => None
      | Some batch => db_batch_loop mapCoins batch
      end
  end.

Definition BatchWriteHashBestChain (batch : list db_op) (hash : uint256) : list db_op :=
  batch ++ [Put best_key (to_bytes hash)].

Definition db_BatchWrite (v : view) (mapCoins : list (uint256 * CCoinsCacheEntry)) (h : uint256) : result view_error (view * bool) :=
  match db_batch_loop mapCoins [] with
  | None => Err AssertionFailed
  | Some batch =>
      let batch := if negb (bool_decide (h = zero W256)) then BatchWriteHashBestChain batch h else batch in
      match db_Write ldb (db v) batch with
      | None => Err DatabaseError
      | Some s => Ok ({| db := s |}, true)
      end
  end.

#[export] Instance CCoinsViewDB_view : CCoinsView view := {
  GetCoins := db_GetCoins;
  HaveCoins := db_HaveCoins;
  GetBestBlock := db_GetBestBlock;
  BatchWrite := db_BatchWrite
}.

(** ** Laws *)

(** Every coin record is the serialization of coins that are not pruned. *)
Record db_inv (v : view) : Prop := {
  di_coins k bs : wf256 k -> db_Get ldb (db v) (coin_key k) = Some bs ->
    exists c, coins_Serialize lib c = Some bs /\ wf_coins c /\ IsPruned c = false;
  di_best bs : db_Get ldb (db v) best_key = Some bs -> exists h, bs = to_bytes h /\ wf256 h
}.

Definition db_content (v : view) (k : uint256) : CCoins :=
  match Read (coins_Unserialize lib) v (coin_key k) with Some c => norm c | None => empty_coins end.
Definition db_best (v : view) : uint256 :=
  match Read (dec c_uint256) v best_key with None => zero W256 | Some h => h end.

Lemma coin_key_inj a b : wf256 a -> wf256 b -> coin_key a = coin_key b -> a = b.
Proof.
  intros Ha Hb [= E]. pose proof (lawful (c := c_uint256) a [] Ha) as La.
  pose proof (lawful (c := c_uint256) b [] Hb) as Lb. cbn [enc c_uint256] in La, Lb.
  rewrite E, Lb in La. apply Ok_inj in La. congruence.
Qed.

(** The coins behind a record. *)
Lemma Read_coins v k c bs :
  key_laws lib -> db_Get ldb (db v) (coin_key k) = Some bs -> coins_Serialize lib c = Some bs ->
  wf_coins c -> IsPruned c = false -> Read (coins_Unserialize lib) v (coin_key k) = Some c.
Proof.
  intros laws Hg Hs Hw Hp. unfold Read. rewrite Hg.
  destruct (coins_roundtrip_lem lib c [] laws Hw Hp) as (bs' & Hs' & Hr). rewrite Hs in Hs'.
  apply Some_inj in Hs' as <-. by rewrite app_nil_r in Hr; rewrite Hr.
Qed.

Lemma op_get_app ops1 ops2 old k : op_get (ops1 ++ ops2) old k = op_get ops2 (op_get ops1 old k) k.
Proof. apply fold_left_app. Qed.

(** What a batch of coins does to the records. *)
Definition entry_record (e : CCoinsCacheEntry) (old : option byte_list) : option byte_list :=
  if DIRTY e then if IsPruned (coins e) then None else coins_Serialize lib (coins e) else old.

Lemma db_batch_loop_spec m : forall batch,
  key_laws lib -> NoDup m.*1 -> (forall k e, (k, e) ∈ m -> wf256 k /\ wf_coins (coins e)) ->
  exists ops, db_batch_loop m batch = Some (batch ++ ops) /\
    (forall k old, wf256 k -> k ∉ m.*1 -> op_get ops old (coin_key k) = old) /\
    (forall k e old, (k, e) ∈ m -> op_get ops old (coin_key k) = entry_record e old) /\
    (forall old, op_get ops old best_key = old).
Proof.
  induction m as [|[k0 e0] m IH]; intros batch laws Hn Hw.
  - exists []. rewrite app_nil_r. split_and!; [done..| |done]. intros k e old Hin. by apply elem_of_nil in Hin.
  - cbn in Hn. apply NoDup_cons in Hn as [Hk0 Hn].
    destruct (Hw k0 e0) as [Wk0 We0]; [by apply elem_of_cons; left|].
    assert (Hw' : forall k e, (k, e) ∈ m -> wf256 k /\ wf_coins (coins e))
      by (intros; apply Hw; by apply elem_of_cons; right).
    assert (Hop : exists op1, (if DIRTY e0 then BatchWriteCoins batch k0 (coins e0) else Some batch) = Some (batch ++ op1) /\
      (forall old, op_get op1 old (coin_key k0) = entry_record e0 old) /\
      (forall k old, wf256 k -> k <> k0 -> op_get op1 old (coin_key k) = old) /\
      (forall old, op_get op1 old best_key = old)).
    { unfold entry_record, BatchWriteCoins. destruct (DIRTY e0); [|exists []; by rewrite app_nil_r].
      assert (Hd : forall k, wf256 k -> k <> k0 -> coin_key k <> coin_key k0)
        by (intros k Wk Hk E; by apply Hk, coin_key_inj).
      destruct (IsPruned (coins e0)) eqn:P.
      - exists [Delete (coin_key k0)]. unfold op_get; cbn [fold_left].
        split_and!; [done|intros; by rewrite decide_True|intros|done].
        by rewrite decide_False by auto.
      - destruct (coins_roundtrip_lem lib (coins e0) [] laws We0 P) as (bs & -> & _).
        exists [Put (coin_key k0) bs]. unfold op_get; cbn [fold_left].
        split_and!; [done|intros; by rewrite decide_True|intros|done].
        by rewrite decide_False by auto. }
    destruct Hop as (op1 & E1 & O1 & O2 & O3). cbn [db_batch_loop]. rewrite E1.
    destruct (IH (batch ++ op1) laws Hn Hw') as (ops & -> & R1 & R2 & R3).
    exists (op1 ++ ops). rewrite app_assoc. split_and!; [done|..].
    + intros k old Wk Hk. cbn in Hk. apply not_elem_of_cons in Hk as [? Hk]. rewrite op_get_app, R1, O2; done.
    + intros k e old Hin. rewrite op_get_app. apply elem_of_cons in Hin as [[= -> ->]|Hin].
      * by rewrite R1, O1.
      * destruct (Hw' k e Hin). rewrite (R2 k e) by done. rewrite O2; [done|done|].
        intros ->. apply Hk0, list_elem_of_fmap. by exists (k0, e).
    + intros old. by rewrite op_get_app, O3, R3.
Qed.
End DB.

Lemma coins_Serialize_inj lib a b bs :
  key_laws lib -> wf_coins a -> IsPruned a = false -> wf_coins b -> IsPruned b = false ->
  coins_Serialize lib a = Some bs -> coins_Serialize lib b = Some bs -> a = b.
Proof.
  intros laws Wa Pa Wb Pb Sa Sb.
  destruct (coins_roundtrip_lem lib a [] laws Wa Pa) as (b1 & E1 & X1).
  destruct (coins_roundtrip_lem lib b [] laws Wb Pb) as (b2 & E2 & X2). congruence.
Qed.

Section DBLaws.
Context {lib : secp256k1} {ldb : leveldb} (KL : key_laws lib) (SL : store_laws ldb).

Lemma db_content_record (v : CCoinsViewDB lib ldb) k :
  db_inv v -> wf256 k ->
  match db_Get ldb (db v) (coin_key k) with
  | None => db_content v k = empty_coins
  | Some bs => exists c, coins_Serialize lib c = Some bs /\ wf_coins c /\ IsPruned c = false /\
      Read (coins_Unserialize lib) v (coin_key k) = Some c /\ db_content v k = c
  end.
Proof.
  intros [Dc _] Wk. destruct (db_Get ldb (db v) (coin_key k)) as [bs|] eqn:G.
  - destruct (Dc k bs Wk G) as (c & Hs & Hw & Hp). pose proof (Read_coins v k c bs KL G Hs Hw Hp) as R.
    exists c. split_and!; try done. unfold db_content. rewrite R. unfold norm. by rewrite Hp.
  - unfold db_content, Read. by rewrite G.
Qed.

Lemma db_BatchWrite_spec (v : CCoinsViewDB lib ldb) m h v' :
  db_inv v -> batch_ok (db_content v) (fun _ => True) m -> wf256 h -> db_BatchWrite v m h = Ok (v', true) ->
  db_inv v' /\ (h <> zero W256 -> db_best v' = h) /\
  (forall k, wf256 k -> db_content v' k = batch_content (db_content v) m k).
Proof.
  intros I [Bn Bw _ _] Wh. unfold db_BatchWrite.
  destruct (db_batch_loop_spec m [] KL Bn Bw) as (ops & -> & R1 & R2 & R3). cbn [app].
  set (batch := if negb (bool_decide (h = zero W256)) then BatchWriteHashBestChain ops h else ops).
  destruct (db_Write ldb (db v) batch) as [s|] eqn:W; [|done]. intros E. apply Ok_inj in E. injection E as <-.
  specialize (SL _ _ _ W).
  assert (Gc : forall k, db_Get ldb s (coin_key k) = op_get ops (db_Get ldb (db v) (coin_key k)) (coin_key k)).
  { intros k. rewrite SL. unfold batch. case_bool_decide; [done|]. cbn [negb]. unfold BatchWriteHashBestChain.
    rewrite op_get_app. unfold op_get at 1. cbn [fold_left]. by rewrite decide_False by done. }
  assert (Gb : db_Get ldb s best_key = if bool_decide (h = zero W256) then db_Get ldb (db v) best_key else Some (to_bytes h)).
  { rewrite SL. unfold batch. case_bool_decide; cbn [negb]; [apply R3|]. unfold BatchWriteHashBestChain.
    rewrite op_get_app. unfold op_get at 1. cbn [fold_left]. by rewrite decide_True. }
  assert (I' : db_inv (lib := lib) {| db := s |}).
  { split; cbn [db].
    - intros k bs Wk. rewrite Gc. destruct (decide (k ∈ m.*1)) as [Hk|Hk].
      + apply list_elem_of_fmap in Hk as ([k' e] & -> & Hin). cbn [fst] in *. rewrite (R2 k' e) by done.
        unfold entry_record. destruct (DIRTY e); [|by apply I]. destruct (IsPruned (coins e)) eqn:P; [done|].
        intros Hs. exists (coins e). by destruct (Bw k' e Hin).
      + rewrite R1 by done. by apply I.
    - intros bs. rewrite Gb. case_bool_decide; [apply I|]. intros [= <-]. eauto. }
  split; [done|]. split.
  - intros Hh. unfold db_best, Read. cbn [db]. rewrite Gb, bool_decide_eq_false_2 by done.
    pose proof (lawful (c := c_uint256) h [] Wh) as L. cbn [enc c_uint256] in L. rewrite app_nil_r in L. by rewrite L.
  - intros k Wk. pose proof (db_content_record _ k I' Wk) as C'. cbn [db] in C'. rewrite Gc in C'.
    pose proof (db_content_record _ k I Wk) as C. destruct (decide (k ∈ m.*1)) as [Hk|Hk].
    + apply list_elem_of_fmap in Hk as ([k' e] & -> & Hin). cbn [fst] in *. rewrite (R2 k' e) in C' by done.
      rewrite (batch_content_in _ _ k' e) by done. unfold entry_record in C'. destruct (DIRTY e) eqn:De.
      * destruct (Bw k' e Hin) as [_ We]. unfold norm. destruct (IsPruned (coins e)) eqn:P; [done|].
        destruct (coins_roundtrip_lem lib (coins e) [] KL We P) as (bs & Hs & Hr). rewrite Hs in C'.
        destruct C' as (c & Hs' & Hw' & Hp' & _ & ->). by apply (coins_Serialize_inj lib c (coins e) bs).
      * destruct (db_Get ldb (db v) (coin_key k')) as [bs|]; [|congruence].
        destruct C as (c & Hs & Hw & Hp & _ & ->), C' as (c' & Hs' & Hw' & Hp' & _ & ->).
        by apply (coins_Serialize_inj lib c' c bs).
    + rewrite R1 in C' by done. rewrite batch_content_not_in by done.
      destruct (db_Get ldb (db v) (coin_key k)) as [bs|]; [|congruence].
      destruct C as (c & Hs & Hw & Hp & _ & ->), C' as (c' & Hs' & Hw' & Hp' & _ & ->).
      by apply (coins_Serialize_inj lib c' c bs).
Qed.

Program Definition CCoinsViewDB_reads : CCoinsViewReads (CCoinsViewDB lib ldb) := {|
  content := db_content;
  best := db_best;
  holds := fun _ _ => True;
  view_inv := db_inv
|}.
Next Obligation.
  intros v k v' r I Wk [= <- <-]. split_and!; try done. pose proof (db_content_record v k I Wk) as C.
  destruct (db_Get ldb (db v) (coin_key k)) as [bs|] eqn:G.
  - destruct C as (c & Hs & Hw & Hp & -> & ->). split_and!; try done. unfold norm. by rewrite Hp.
  - unfold Read. by rewrite G.
Qed.
Next Obligation. by intros v v' h I [= <- <-]. Qed.

#[local] Existing Instance CCoinsViewDB_reads.

Program Definition CCoinsViewDB_laws : CCoinsViewLaws (CCoinsViewDB lib ldb) := {| HaveCoins_law := _ |}.
Next Obligation.
  intros v k v' b I Wk [= <- <-]. change (content v k) with (db_content v k). split_and!; try done. pose proof (db_content_record v k I Wk) as C.
  unfold Exists. destruct (db_Get ldb (db v) (coin_key k)) as [bs|] eqn:G.
  - destruct C as (c & Hs & Hw & Hp & _ & ->). by rewrite Hp.
  - by rewrite C.
Qed.
Next Obligation.
  intros v m h I [Bn Bw _ _]. cbn. unfold db_BatchWrite.
  destruct (db_batch_loop_spec m [] KL Bn Bw) as (ops & -> & _). by destruct (db_Write _ _ _).
Qed.
Next Obligation.
  intros v m h v' I B Hh Wh E. destruct (db_BatchWrite_spec v m h v' I B Wh E) as (? & ? & ?). auto.
Qed.
End DBLaws.

(** * The specification: a set of unspent outputs *)

Record utxo_set := { u_content : uint256 -> CCoins; u_best : uint256 }.

(** What a client does with a view and what it learns. *)
Inductive view_event :=
| EAccess (k : uint256) (r : CCoins)
| EHave (k : uint256) (b : bool)
| EBest (h : uint256)
| EModify (k : uint256) (f : CCoins -> CCoins)
| ESetBest (h : uint256)
| EFlush.

Definition same_set (s s' : utxo_set) : Prop :=
  u_best s' = u_best s /\ (forall k, wf256 k -> u_content s' k = u_content s k).

Definition spec_step (s : utxo_set) (ev : view_event) (s' : utxo_set) : Prop :=
  match ev with
  | EAccess k r => r = u_content s k /\ same_set s s'
  | EHave k b => b = negb (IsPruned (u_content s k)) /\ same_set s s'
  | EBest h => h = u_best s /\ same_set s s'
  | EModify k f => u_best s' = u_best s /\ (forall k', wf256 k' ->
      u_content s' k' = if bool_decide (k' = k) then norm (Cleanup (f (u_content s k))) else u_content s k')
  | ESetBest h => u_best s' = h /\ (forall k, wf256 k -> u_content s' k = u_content s k)
  | EFlush => same_set s s'
  end.

(** The events a client may cause: a change keeps coins well formed and does not look
    at what a spent transaction was. *)
Definition good_event (ev : view_event) : Prop :=
  match ev with
  | EAccess k _ | EHave k _ => wf256 k
  | EBest _ | EFlush => True
  | EModify k f => wf256 k /\ (forall c, wf_coins c -> wf_coins (Cleanup (f c))) /\
      (forall c, wf_coins c -> norm (Cleanup (f (norm c))) = norm (Cleanup (f c)))
  | ESetBest h => wf256 h /\ h <> zero W256
  end.

Inductive steps {S : Type} (step : S -> view_event -> S -> Prop) : S -> list view_event -> S -> Prop :=
| steps_nil s : steps step s [] s
| steps_cons s ev s' evs s'' : step s ev s' -> steps step s' evs s'' -> steps step s (ev :: evs) s''.

Section Refinement.
Context {V : Type} `{CCoinsViewLaws V}.
Abbreviation cache := (CCoinsViewCache V).

Definition meaning (r : option CCoins) : CCoins := match r with Some c => norm c | None => empty_coins end.

(** The operations of the cache as events. *)
Inductive cache_step : cache -> view_event -> cache -> Prop :=
| step_access c k c' r : AccessCoins c k = (c', r) -> cache_step c (EAccess k (meaning r)) c'
| step_have c k c' b : HaveCoins c k = (c', b) -> cache_step c (EHave k b) c'
| step_best c c' h : GetBestBlock c = (c', h) -> cache_step c (EBest h) c'
| step_modify c k (f : CCoins -> CCoins) c' :
    ModifyCoins c k (fun cs => (f cs, tt)) = (c', tt) -> cache_step c (EModify k f) c'
| step_set_best c h : cache_step c (ESetBest h) (SetBestBlock c h)
| step_flush c c' : hashBlock c <> zero W256 -> wf256 (hashBlock c) -> Flush c = Ok (c', true) -> cache_step c EFlush c'.

Definition abs (c : cache) : utxo_set := {| u_content := cache_content c; u_best := cache_best c |}.

Lemma Flush_spec c c' :
  cache_inv c -> hashBlock c <> zero W256 -> wf256 (hashBlock c) -> Flush c = Ok (c', true) ->
  cache_inv c' /\ cacheCoins c' = ∅ /\ cache_best c' = cache_best c /\
  (forall k, wf256 k -> cache_content c' k = cache_content c k) /\
  best (base c') = hashBlock c /\ (forall k, wf256 k -> content (base c') k = cache_content c k).
Proof.
  intros I Hh Wh E. unfold Flush in E. apply rbind_ok in E as ([b ok] & E & E'). cbn [fst snd] in E'.
  apply Ok_inj in E'. injection E' as <- ->.
  destruct (BatchWrite_law _ _ _ _ (ci_base _ I) (flush_batch_ok c I) Hh Wh E) as (I' & B & C).
  assert (C' : forall k, wf256 k -> content b k = cache_content c k)
    by (intros k Wk; rewrite C by done; by apply flush_content).
  split_and!; [by split; [|apply map_Forall_empty]|done| | |done|done].
  - unfold cache_best. cbn. by rewrite B, !bool_decide_eq_false_2.
  - intros k Wk. unfold cache_content at 1. cbn. rewrite lookup_empty. auto.
Qed.

Lemma Flush_no_assert c : cache_inv c -> Flush c <> Err AssertionFailed.
Proof.
  intros I E. pose proof (BatchWrite_no_assert _ _ (hashBlock c) (ci_base _ I) (flush_batch_ok c I)) as N.
  unfold Flush in E. destruct (BatchWrite (base c) (map_to_list (cacheCoins c)) (hashBlock c)) as [[b ok]|e]; [done|].
  cbn in E. congruence.
Qed.

End Refinement.

(** Flushed into a cache, the parent has the child's block. *)
Lemma Flush_base_hash {V} `{CCoinsView V} (c c' : CCoinsViewCache (CCoinsViewCache V)) ok :
  Flush c = Ok (c', ok) -> hashBlock (base c') = hashBlock c.
Proof.
  intros E. unfold Flush in E. apply rbind_ok in E as ([b o] & E & E'). apply Ok_inj in E'. injection E' as <- _.
  cbn in E. unfold cache_BatchWrite in E. apply rbind_ok in E as (m & _ & E). apply Ok_inj in E. by injection E as <- _.
Qed.

Section Simulation.
Context {V : Type} `{CCoinsViewLaws V}.
Abbreviation cache := (CCoinsViewCache V).

(** One operation of the cache is one of the set. *)
Lemma cache_step_refines c ev c' :
  cache_inv c -> good_event ev -> cache_step c ev c' -> cache_inv c' /\ spec_step (abs c) ev (abs c').
Proof.
  intros I G S. destruct S as [c k c' r E|c k c' b E|c c' h E|c k f c' E|c h|c c' Hh Wh E]; cbn in G.
  - unfold AccessCoins in E. destruct (FetchCoins c k) as [c1 it] eqn:F. injection E as <- <-.
    destruct (FetchCoins_spec _ _ _ _ I G F) as ((S1 & S2 & S3 & S4) & R). split; [done|]. split; [|by split].
    destruct it as [e|]; cbn; [apply R|by rewrite R].
  - destruct (@HaveCoins_law cache _ _ CCoinsViewCache_laws _ _ _ _ I G E) as (? & ? & ? & ?). by split_and!.
  - destruct (@GetBestBlock_law cache _ CCoinsViewCache_reads _ _ _ I E) as (? & ? & ? & ? & ->). by split_and!.
  - destruct G as (Wk & Gw & Gn). destruct (ModifyCoins_spec _ _ _ _ _ I Wk E) as (cs & Wc & Nc & _ & M).
    cbn [fst] in M. destruct (M (Gw _ Wc)) as (M1 & M2 & M3). split; [done|]. split; [done|]. intros k' Wk'.
    cbn. rewrite M3 by done. case_bool_decide; [|done]. by rewrite <- Nc, Gn.
  - destruct G as (Wh & Hh). split; [split; apply I|]. split; [|done].
    cbn. unfold cache_best. cbn. by rewrite bool_decide_eq_false_2.
  - destruct (Flush_spec _ _ I Hh Wh E) as (F1 & F2 & F3 & F4 & _). by split_and!.
Qed.

(** C8 A cache over any view that keeps its promises behaves as the plain set of unspent
    outputs it stands for: whatever sequence of look-ups, changes and flushes is made, the
    answers are those of the set, the flags of the entries stay true of the parent, and
    neither a look-up nor a change nor a flush writes anything wrong. *)
Theorem cache_refines_set c evs c' :
  cache_inv c -> Forall good_event evs -> steps cache_step c evs c' ->
  cache_inv c' /\ steps spec_step (abs c) evs (abs c').
Proof.
  intros I G S. induction S as [c|c ev c1 evs c2 S1 _ IH]; [by split; [|constructor]|].
  apply Forall_cons in G as [Ge G]. destruct (cache_step_refines c ev c1 I Ge S1) as [I1 S1'].
  destruct (IH I1 G) as [I2 S2]. split; [done|]. by econstructor.
Qed.
End Simulation.

(** A store for the examples. *)
Definition toy_store : leveldb := {|
  store := gmap byte_list byte_list;
  db_Get s k := s !! k;
  db_Write s ops := Some (fold_left (fun s op => match op with Put k v => <[k := v]> s | Delete k => delete k s end) ops s) |}.

Lemma toy_store_laws : store_laws toy_store.
Proof.
  intros s ops s' [= <-] k. cbn. revert s. induction ops as [|op ops IH]; intros s; [done|].
  cbn [fold_left]. rewrite IH. unfold op_get. cbn [fold_left]. f_equal. destruct op as [k' v|k']; case_decide as D.
  - by rewrite D, lookup_insert_eq.
  - by rewrite lookup_insert_ne.
  - by rewrite D, lookup_delete_eq.
  - by rewrite lookup_delete_ne.
Qed.

Abbreviation toy_db := (CCoinsViewDB toy_keys toy_store).
#[export] Instance toy_db_reads : CCoinsViewReads toy_db := CCoinsViewDB_reads toy_key_laws.
#[export] Instance toy_db_laws : CCoinsViewLaws toy_db := CCoinsViewDB_laws toy_key_laws toy_store_laws.

Definition empty_db : toy_db := {| db := ∅ |}.

Lemma empty_db_inv : view_inv empty_db.
Proof. split; cbn; [intros k bs _|intros bs]; by rewrite lookup_empty. Qed.

Lemma new_cache_inv {V} `{CCoinsViewReads V} (b : V) : view_inv b -> cache_inv (new_cache b).
Proof. intros I. split; [exact I|]. apply map_Forall_empty. Qed.

(** A change that puts coins in place of whatever there was. *)
Definition put (cs : CCoins) (_ : CCoins) : CCoins := cs.

Lemma put_good k cs : wf256 k -> wf_coins cs -> good_event (EModify k (put cs)).
Proof. intros Wk Wc. split_and!; [done| |done]. intros c _. unfold put. by rewrite (wf_clean _ Wc). Qed.

(** A cache over the empty database that has been given coins and a best block. *)
Definition coins_cache (k : uint256) (cs : CCoins) (h : uint256) : CCoinsViewCache toy_db :=
  SetBestBlock (ModifyCoins (new_cache empty_db) k (fun c => (put cs c, tt))).1 h.

Lemma coins_cache_inv k cs h : wf256 k -> wf_coins cs -> cache_inv (coins_cache k cs h).
Proof.
  intros Wk Wc. destruct (ModifyCoins (new_cache empty_db) k (fun c => (put cs c, tt))) as [c []] eqn:E.
  destruct (ModifyCoins_spec _ _ _ _ _ (new_cache_inv _ empty_db_inv) Wk E) as (x & _ & _ & _ & M).
  destruct (M ltac:(cbn; unfold put; by rewrite (wf_clean _ Wc))) as (M1 & _). unfold coins_cache. rewrite E. split; apply M1.
Qed.

(** A cache over the empty database after a change. *)
Definition one_coin : CCoinsViewCache toy_db :=
  SetBestBlock (ModifyCoins (new_cache empty_db) (u256 5) (fun cs => (put example_coins cs, tt))).1 (u256 9).
Definition one_coin_flushed : CCoinsViewCache toy_db :=
  match Flush one_coin with Ok (c, _) => c | Err _ => one_coin end.

Lemma one_coin_steps :
  steps cache_step (new_cache empty_db)
    [EModify (u256 5) (put example_coins); ESetBest (u256 9); EFlush; EHave (u256 5) true] (HaveCoins one_coin_flushed (u256 5)).1.
Proof.
  eapply steps_cons; [apply (step_modify _ _ _ (ModifyCoins (new_cache empty_db) (u256 5) (fun cs => (put example_coins cs, tt))).1); by destruct (ModifyCoins _ _ _) as [? []]|].
  eapply steps_cons; [apply step_set_best|].
  eapply steps_cons.
  { apply (step_flush one_coin one_coin_flushed); [done|by apply wf_u256; wunfold; lia|vm_compute; reflexivity]. }
  eapply steps_cons; [|apply steps_nil].
  apply step_have. vm_compute. reflexivity.
Qed.

Lemma one_coin_good :
  Forall good_event [EModify (u256 5) (put example_coins); ESetBest (u256 9); EFlush; EHave (u256 5) true].
Proof.
  assert (W : forall n, 0 <= n < 2 ^ 64 -> wf256 (u256 n)) by (intros; apply wf_u256; wunfold; lia).
  repeat (apply Forall_cons; split); [|split; [apply W; lia|done]|exact I|apply W; lia|constructor].
  apply put_good; [apply W; lia|exact example_coins_wf].
Qed.

Lemma cache_refines_set_witness :
  Forall good_event [EModify (u256 5) (put example_coins); ESetBest (u256 9); EFlush; EHave (u256 5) true] /\
  cache_inv (HaveCoins one_coin_flushed (u256 5)).1 /\
  steps spec_step (abs (new_cache empty_db))
    [EModify (u256 5) (put example_coins); ESetBest (u256 9); EFlush; EHave (u256 5) true]
    (abs (HaveCoins one_coin_flushed (u256 5)).1).
Proof.
  split; [exact one_coin_good|].
  exact (cache_refines_set (new_cache empty_db) _ _ (new_cache_inv _ empty_db_inv) one_coin_good one_coin_steps).
Defined.

(** C9 Two caches over the coin database, as the node stacks them while it connects a
    block: flushing the upper into the lower and the lower into LevelDB never fails an
    assertion, and when the database takes the batch, it then holds, record by record in
    its compressed format, exactly the unspent outputs the upper cache showed, with the
    block they belong to. *)
Theorem flush_reaches_disk lib ldb (KL : key_laws lib) (SL : store_laws ldb)
    (RV := CCoinsViewDB_reads KL) (LV := CCoinsViewDB_laws KL SL) (c : CCoinsViewCache (CCoinsViewCache (CCoinsViewDB lib ldb))) :
  cache_inv c -> hashBlock c <> zero W256 -> wf256 (hashBlock c) ->
  Flush c <> Err AssertionFailed /\
  (forall c', Flush c = Ok (c', true) ->
     Flush (base c') <> Err AssertionFailed /\
     (forall p, Flush (base c') = Ok (p, true) ->
        db_best (base p) = hashBlock c /\
        (forall k, wf256 k -> db_content (base p) k = cache_content c k) /\
        (forall k, wf256 k -> db_Get ldb (db (base p)) (coin_key k) =
           if IsPruned (cache_content c k) then None else coins_Serialize lib (cache_content c k)))).
Proof.
  intros I Hh Wh. split; [by apply Flush_no_assert|]. intros c' E.
  destruct (Flush_spec c c' I Hh Wh E) as ((I' & _) & _ & _ & _ & B & C).
  split; [by apply Flush_no_assert|]. intros p Ep. cbn in I', B, C.
  pose proof (Flush_base_hash c c' true E) as Hb. rewrite <- Hb in Hh, Wh.
  destruct (Flush_spec (base c') p I' Hh Wh Ep) as ((Ip & _) & _ & _ & _ & Bp & Cp). cbn in Ip, Bp, Cp.
  split; [congruence|]. split; [intros k Wk; rewrite Cp by done; auto|]. intros k Wk.
  pose proof (db_content_record KL _ k Ip Wk) as R. rewrite (Cp k Wk), (C k Wk) in R.
  destruct (db_Get ldb (db (base p)) (coin_key k)) as [bs|].
  - destruct R as (cs & Hs & Hw & Hp & _ & ->). by rewrite Hp.
  - by rewrite R.
Qed.

Definition stacked : CCoinsViewCache (CCoinsViewCache toy_db) :=
  SetBestBlock (ModifyCoins (new_cache (new_cache empty_db)) (u256 5) (fun cs => (put example_coins cs, tt))).1 (u256 9).

Lemma stacked_inv : cache_inv stacked.
Proof.
  pose proof (new_cache_inv (new_cache empty_db) (new_cache_inv empty_db empty_db_inv)) as I.
  destruct (ModifyCoins (new_cache (new_cache empty_db)) (u256 5) (fun cs => (put example_coins cs, tt))) as [c []] eqn:E.
  assert (W : wf256 (u256 5)) by (apply wf_u256; wunfold; lia).
  destruct (ModifyCoins_spec _ _ _ _ _ I W E) as (cs & _ & _ & _ & M).
  destruct (M example_coins_wf) as (M1 & _). unfold stacked. rewrite E. split; apply M1.
Qed.

Lemma flush_reaches_disk_witness :
  cache_inv stacked /\ (exists c', Flush stacked = Ok (c', true)) /\
  Flush stacked <> Err AssertionFailed /\
  (forall c', Flush stacked = Ok (c', true) ->
     Flush (base c') <> Err AssertionFailed /\
     (forall p, Flush (base c') = Ok (p, true) ->
        db_best (base p) = u256 9 /\
        (forall k, wf256 k -> db_content (base p) k = cache_content stacked k) /\
        (forall k, wf256 k -> db_Get toy_store (db (base p)) (coin_key k) =
           if IsPruned (cache_content stacked k) then None
           else coins_Serialize toy_keys (cache_content stacked k)))).
Proof.
  split; [exact stacked_inv|]. split; [eexists; vm_compute; reflexivity|].
  apply (flush_reaches_disk toy_keys toy_store toy_key_laws toy_store_laws stacked stacked_inv); [done|].
  apply wf_u256. wunfold. lia.
Defined.
