(* ===== verification/Validation.v ===== *)
(** Validation of transactions (main.cpp, main.h): the checks without context and those
    against the unspent outputs, and the change a transaction makes to them.

    The functions that the code passes a [CValidationState] and a [CCoinsViewCache] are
    actions of the monad [M]: an action ends with a result, rejects (returns false) or
    stops (a failed assertion, an exception that is not caught, or a read out of the
    bounds of a container).  Logging is left out.  What the code reads from elsewhere,
    such as the heights of the blocks in [mapBlockIndex], is an argument. *)

From Stdlib Require Import Strings.String.
From stdpp Require Import gmap.
From S2P Require Import Prelude Uint256 Arith256 Params Serialize Script Transaction Pubkey Compressor Interp Sighash Coins CoinsView.

Local Open Scope Z_scope.
#[local] Abbreviation length := Datatypes.length.

(** * Constants *)

Definition MAX_BLOCK_SIZE : Z := 2000000.
Definition MAX_BLOCK_SIGOPS : Z := MAX_BLOCK_SIZE / 50.
Definition LOCKTIME_THRESHOLD : Z := 500000000.
Definition REJECT_INVALID : Z := 0x10.
Definition REJECT_NONSTANDARD : Z := 0x40.

Definition MANDATORY_SCRIPT_VERIFY_FLAGS : Z := SCRIPT_VERIFY_P2SH.
Definition STANDARD_SCRIPT_VERIFY_FLAGS : Z :=
  Z.lor MANDATORY_SCRIPT_VERIFY_FLAGS (Z.lor SCRIPT_VERIFY_DERSIG (Z.lor SCRIPT_VERIFY_STRICTENC
    (Z.lor SCRIPT_VERIFY_MINIMALDATA (Z.lor SCRIPT_VERIFY_NULLDUMMY SCRIPT_VERIFY_DISCOURAGE_UPGRADABLE_NOPS)))).
Definition STANDARD_NOT_MANDATORY_VERIFY_FLAGS : Z :=
  Z.ldiff STANDARD_SCRIPT_VERIFY_FLAGS MANDATORY_SCRIPT_VERIFY_FLAGS.

(** * The validation state *)

Inductive mode_state := MODE_VALID | MODE_INVALID | MODE_ERROR.

Record CValidationState := {
  mode : mode_state;
  nDoS : Z;
  strRejectReason : string;
  chRejectCode : Z;
  corruptionPossible : bool
}.

Definition valid_state : CValidationState :=
  {| mode := MODE_VALID; nDoS := 0; strRejectReason := ""; chRejectCode := 0; corruptionPossible := false |}.

(** The state after [DoS]; the value it returns is its argument [ret]. *)
Definition DoS (st : CValidationState) (level chRejectCodeIn : Z) (strRejectReasonIn : string) (corruptionIn : bool) : CValidationState :=
  match mode st with
  | MODE_ERROR =>
      {| mode := MODE_ERROR; nDoS := nDoS st; strRejectReason := strRejectReasonIn;
         chRejectCode := chRejectCodeIn; corruptionPossible := corruptionIn |}
  | _ =>
      {| mode := MODE_INVALID; nDoS := nDoS st + level; strRejectReason := strRejectReasonIn;
         chRejectCode := chRejectCodeIn; corruptionPossible := corruptionIn |}
  end.

Definition Invalid (st : CValidationState) (code : Z) (reason : string) : CValidationState := DoS st 0 code reason false.

(** * Checks without context *)

Definition MoneyRange (ps : CChainParams) (nValueOut : Z) : bool :=
  (0 <=? nValueOut) && (nValueOut <=? MaxMoneyOut ps).

(** The loop over the outputs: the state of the rejection, or the total. *)
Fixpoint check_outputs (ps : CChainParams) (tx : CTransaction) (outs : list CTxOut) (nValueOut : Z) (st : CValidationState)
  : CValidationState + Z :=
  match outs with
  | [] => inr nValueOut
  | o :: outs =>
      if txout_IsEmpty o && negb (IsCoinBase tx) && negb (IsCoinStake tx) then inl (DoS st 100 0 "" false)
      else if nValue o <? 0 then inl (DoS st 100 REJECT_INVALID "bad-txns-vout-negative" false)
      else if MaxMoneyOut ps <? nValue o then inl (DoS st 100 REJECT_INVALID "bad-txns-vout-toolarge" false)
      else
        let nValueOut := s64 (nValueOut + nValue o) in
        if negb (MoneyRange ps nValueOut) then inl (DoS st 100 REJECT_INVALID "bad-txns-txouttotal-toolarge" false)
        else check_outputs ps tx outs nValueOut st
  end.

(** [set<COutPoint> vInOutPoints]: whether an input is found in it. *)
Fixpoint duplicate_input (vInOutPoints : gset COutPoint) (ins : list CTxIn) : bool :=
  match ins with
  | [] => false
  | i :: ins =>
      if decide (prevout i ∈ vInOutPoints) then true
      else duplicate_input ({[prevout i]} ∪ vInOutPoints) ins
  end.

Definition CheckTransaction (ps : CChainParams) (tx : CTransaction) (st : CValidationState) : CValidationState * bool :=
  if (length (vin tx) =? 0)%nat then (DoS st 10 REJECT_INVALID "bad-txns-vin-empty" false, false)
  else if (length (vout tx) =? 0)%nat then (DoS st 10 REJECT_INVALID "bad-txns-vout-empty" false, false)
  else if MAX_BLOCK_SIZE <? Z.of_nat (length (enc c_transaction tx))
  then (DoS st 100 REJECT_INVALID "bad-txns-oversize" false, false)
  else
    match check_outputs ps tx (vout tx) 0 st with
    | inl st => (st, false)
    | inr _ =>
        if duplicate_input ∅ (vin tx) then (DoS st 100 REJECT_INVALID "bad-txns-inputs-duplicate" false, false)
        else if IsCoinBase tx then
          let size := match vin tx with i :: _ => Z.of_nat (length (scriptSig i)) | [] => 0 end in
          if (size <? 2) || (150 <? size) then (DoS st 100 REJECT_INVALID "bad-cb-length" false, false)
          else (st, true)
        else if existsb (fun i => outpoint_IsNull (prevout i)) (vin tx)
        then (DoS st 10 REJECT_INVALID "bad-txns-prevout-null" false, false)
        else (st, true)
    end.

(** [chain_height] and [adjusted_time] stand for [chainActive.Height()] and
    [GetAdjustedTime()]. *)
Definition IsFinalTx (chain_height adjusted_time : Z) (tx : CTransaction) (nBlockHeight nBlockTime : Z) : bool :=
  if nLockTime tx =? 0 then true
  else
    let nBlockHeight := if nBlockHeight =? 0 then chain_height else nBlockHeight in
    let nBlockTime := if nBlockTime =? 0 then adjusted_time else nBlockTime in
    if nLockTime tx <? (if nLockTime tx <? LOCKTIME_THRESHOLD then nBlockHeight else nBlockTime) then true
    else forallb IsFinal (vin tx).

Definition GetLegacySigOpCount (tx : CTransaction) : Z :=
  u32 (zsum (map (fun i => GetSigOpCount (scriptSig i) false) (vin tx))
       + zsum (map (fun o => GetSigOpCount (scriptPubKey o) false) (vout tx))).

(** * Actions *)

Section Actions.
Context {V : Type} `{CCoinsView V}.
Abbreviation cache := (CCoinsViewCache V).

Inductive outcome (A : Type) :=
| Done (view : cache) (st : CValidationState) (a : A)
| Reject (view : cache) (st : CValidationState)
| Stop.
Arguments Done {A}.
Arguments Reject {A}.
Arguments Stop {A}.

Definition M (A : Type) : Type := cache -> CValidationState -> outcome A.

Definition mret {A} (a : A) : M A := fun c st => Done c st a.
Definition bind {A B} (m : M A) (k : A -> M B) : M B := fun c st =>
  match m c st with
  | Done c st a => k a c st
  | Reject c st => Reject c st
  | Stop => Stop
  end.
Definition stop {A} : M A := fun _ _ => Stop.
Definition reject_DoS {A} (level code : Z) (reason : string) : M A := fun c st => Reject c (DoS st level code reason false).
Definition reject_Invalid {A} (code : Z) (reason : string) : M A := fun c st => Reject c (Invalid st code reason).
(** [return error(...)], which leaves the state alone. *)
Definition reject_error {A} : M A := fun c st => Reject c st.
(** An operation of the view. *)
Definition view_op {A} (f : cache -> cache * A) : M A := fun c st => let '(c, a) := f c in Done c st a.
Definition stop_if_none {A} (o : option A) : M A := match o with Some a => mret a | None => stop end.

End Actions.
Arguments outcome V A : clear implicits.
Arguments M V A : clear implicits.
Arguments Done {V A}.
Arguments Reject {V A}.
Arguments Stop {V A}.

Declare Scope action_scope.
Notation "x <-- m ;; k" := (bind m (fun x => k)) (at level 100, m at next level, right associativity) : action_scope.
Notation "'guard' b 'orelse' r ;; k" := (if b : bool then k else r) (at level 100, b at next level, r at next level, right associativity) : action_scope.
Local Open Scope action_scope.

Section Validation.
Context {V : Type} `{CCoinsView V} (lib : secp256k1) (ps : CChainParams).
Abbreviation cache := (CCoinsViewCache V).

(** * Spending and adding outputs *)

Definition spend_with (out : COutPoint) (cs : CCoins) : CCoins * option CTxInUndo :=
  match Spend cs out with
  | None => (cs, None)
  | Some (cs', undo) => (cs', Some undo)
  end.

Fixpoint spend_inputs (ins : list CTxIn) : M V (list CTxInUndo) :=
  match ins with
  | [] => mret []
  | i :: ins =>
      ret <-- view_op (fun c => ModifyCoins c (out_hash (prevout i)) (spend_with (prevout i))) ;;
      undo <-- stop_if_none ret ;;
      rest <-- spend_inputs ins ;;
      mret (undo :: rest)
  end.

(** [UpdateCoins], with the [vprevout] of the undo data. *)
Definition UpdateCoins (tx : CTransaction) (nHeight : Z) : M V (list CTxInUndo) :=
  txundo <-- (if negb (IsCoinBase tx) then spend_inputs (vin tx) else mret []) ;;
  _ <-- view_op (fun c => ModifyCoins c (tx_GetHash tx) (fun _ => (FromTx tx nHeight, tt))) ;;
  mret txundo.

(** * Checks against the unspent outputs *)

Fixpoint p2sh_sigops_loop (ins : list CTxIn) (nSigOps : Z) : M V Z :=
  match ins with
  | [] => mret nSigOps
  | i :: ins =>
      o <-- view_op (fun c => GetOutputFor c i) ;;
      prevout <-- stop_if_none o ;;
      p2sh_sigops_loop ins
        (if IsPayToScriptHash (scriptPubKey prevout)
         then u32 (nSigOps + GetSigOpCount_p2sh (scriptPubKey prevout) (scriptSig i)) else nSigOps)
  end.

Definition GetP2SHSigOpCount (tx : CTransaction) : M V Z :=
  if IsCoinBase tx then mret 0 else p2sh_sigops_loop (vin tx) 0.

(** A script to verify: [CScriptCheck]. *)
Record CScriptCheck := { sc_scriptPubKey : CScript; sc_tx : CTransaction; sc_nIn : Z; sc_nFlags : Z }.

(** [operator()]: the error, if any. *)
Definition run_check (k : CScriptCheck) : bool :=
  match VerifyInput lib (sc_nFlags k) (sc_tx k) (sc_nIn k) (sc_scriptPubKey k) with Ok _ => true | Err _ => false end.

(** The inexpensive checks of the inputs: the total value. *)
Fixpoint input_values (nSpendHeight : Z) (ins : list CTxIn) (nValueIn : Z) : M V Z :=
  match ins with
  | [] => mret nValueIn
  | i :: ins =>
      r <-- view_op (fun c => AccessCoins c (out_hash (prevout i))) ;;
      coins <-- stop_if_none r ;;
      guard negb ((fCoinBase coins || fCoinStake coins) && (nSpendHeight - c_nHeight coins <? COINBASE_MATURITY ps))
        orelse reject_Invalid REJECT_INVALID "bad-txns-premature-spend-of-coinbase" ;;
      o <-- stop_if_none (c_vout coins !! Z.to_nat (out_n (prevout i))) ;;
      let nValueIn := s64 (nValueIn + nValue o) in
      guard MoneyRange ps (nValue o) && MoneyRange ps nValueIn
        orelse reject_DoS 100 REJECT_INVALID "bad-txns-inputvalues-outofrange" ;;
      input_values nSpendHeight ins nValueIn
  end.

(** The script checks, collected when [pvChecks] is there and run when it is not. *)
Fixpoint script_checks (tx : CTransaction) (flags : Z) (pvChecks : bool) (i : Z) (ins : list CTxIn) : M V (list CScriptCheck) :=
  match ins with
  | [] => mret []
  | inp :: ins =>
      r <-- view_op (fun c => AccessCoins c (out_hash (prevout inp))) ;;
      coins <-- stop_if_none r ;;
      o <-- stop_if_none (c_vout coins !! Z.to_nat (out_n (prevout inp))) ;;
      let check := {| sc_scriptPubKey := scriptPubKey o; sc_tx := tx; sc_nIn := i; sc_nFlags := flags |} in
      if pvChecks then
        rest <-- script_checks tx flags pvChecks (i + 1) ins ;; mret (check :: rest)
      else
        guard run_check check orelse
          (let check' := {| sc_scriptPubKey := scriptPubKey o; sc_tx := tx; sc_nIn := i;
                            sc_nFlags := Z.ldiff flags STANDARD_NOT_MANDATORY_VERIFY_FLAGS |} in
           if negb (Z.land flags STANDARD_NOT_MANDATORY_VERIFY_FLAGS =? 0) && run_check check'
           then reject_Invalid REJECT_NONSTANDARD "non-mandatory-script-verify-flag"
           else reject_DoS 100 REJECT_INVALID "mandatory-script-verify-flag-failed") ;;
        script_checks tx flags pvChecks (i + 1) ins
  end.

(** [block_height] gives the height of the blocks in [mapBlockIndex]. *)
Definition CheckInputs (block_height : uint256 -> option Z) (tx : CTransaction) (fScriptChecks : bool) (flags : Z) (pvChecks : bool)
  : M V (list CScriptCheck) :=
  if negb (IsCoinBase tx) then
    have <-- view_op (fun c => HaveInputs c tx) ;;
    guard have orelse reject_Invalid 0 "" ;;
    h <-- view_op GetBestBlock ;;
    pindexPrev <-- stop_if_none (block_height h) ;;
    let nSpendHeight := pindexPrev + 1 in
    nValueIn <-- input_values nSpendHeight (vin tx) 0 ;;
    _ <-- (if negb (IsCoinStake tx) then
             out <-- stop_if_none (GetValueOut tx) ;;
             guard negb (nValueIn <? out) orelse reject_DoS 100 REJECT_INVALID "bad-txns-in-belowout" ;;
             let nTxFee := s64 (nValueIn - out) in
             guard negb (nTxFee <? 0) orelse reject_DoS 100 REJECT_INVALID "bad-txns-fee-negative" ;;
             guard MoneyRange ps nTxFee orelse reject_DoS 100 REJECT_INVALID "bad-txns-fee-outofrange" ;;
             mret tt
           else mret tt) ;;
    if fScriptChecks then script_checks tx flags pvChecks 0 (vin tx) else mret []
  else mret [].
End Validation.

(** * Checks without context: what they accept *)

(** The transactions [CheckTransaction] lets through. *)
Record tx_valid (ps : CChainParams) (tx : CTransaction) : Prop := {
  tv_vin : vin tx <> [];
  tv_vout : vout tx <> [];
  tv_size : Z.of_nat (length (enc c_transaction tx)) <= MAX_BLOCK_SIZE;
  tv_empty : IsCoinBase tx = false -> IsCoinStake tx = false -> Forall (fun o => txout_IsEmpty o = false) (vout tx);
  tv_values : Forall (fun o => 0 <= nValue o <= MaxMoneyOut ps) (vout tx);
  tv_total : zsum (map nValue (vout tx)) <= MaxMoneyOut ps;
  tv_distinct : NoDup (map prevout (vin tx));
  tv_coinbase i : IsCoinBase tx = true -> vin tx = [i] -> 2 <= Z.of_nat (length (scriptSig i)) <= 150;
  tv_prevouts : IsCoinBase tx = false -> Forall (fun i => outpoint_IsNull (prevout i) = false) (vin tx)
}.

(** A rejection with a ban score. *)
Definition punished (st st' : CValidationState) : Prop :=
  exists level code reason, (level = 10 \/ level = 100) /\ st' = DoS st level code reason false.

Lemma punished_not_valid st st' : punished st st' -> mode st' <> MODE_VALID /\ (mode st <> MODE_ERROR -> nDoS st < nDoS st').
Proof. intros (l & k & r & Hl & ->). unfold DoS. destruct (mode st); cbn; split; done || lia. Qed.

(** [case_if] splits on the next test of a function that returns early. *)
Ltac case_if :=
  match goal with |- context [if ?b then _ else _] => let E := fresh "E" in destruct b eqn:E end.

Ltac punish := eexists _, _, _; split; [|reflexivity]; auto.

Lemma Forall_false_existsb {A} (p : A -> bool) l : Forall (fun x => p x = false) l <-> existsb p l = false.
Proof.
  induction l as [|x l IH]; [split; [done|constructor]|]. rewrite Forall_cons, IH. symmetry. apply orb_false_iff.
Qed.

(** The loop over the outputs, the total so far being in range. *)
Lemma check_outputs_spec ps tx st outs : forall acc,
  0 <= acc <= MaxMoneyOut ps -> MaxMoneyOut ps < 2 ^ 62 ->
  match check_outputs ps tx outs acc st with
  | inr r => (IsCoinBase tx = false -> IsCoinStake tx = false -> Forall (fun o => txout_IsEmpty o = false) outs) /\
      Forall (fun o => 0 <= nValue o <= MaxMoneyOut ps) outs /\
      r = acc + zsum (map nValue outs) /\ r <= MaxMoneyOut ps
  | inl st' => punished st st' /\
      ~ ((IsCoinBase tx = false -> IsCoinStake tx = false -> Forall (fun o => txout_IsEmpty o = false) outs) /\
         Forall (fun o => 0 <= nValue o <= MaxMoneyOut ps) outs /\ acc + zsum (map nValue outs) <= MaxMoneyOut ps)
  end.
Proof.
  induction outs as [|o outs IH]; intros acc Ha Hm; cbn [check_outputs].
  { split_and!; [done|constructor|cbn; lia..]. }
  case_if.
  { split; [punish|]. apply andb_true_iff in E as [[E1 E2%negb_true_iff]%andb_true_iff E3%negb_true_iff].
    intros (F & _). specialize (F E2 E3). apply Forall_cons in F as [F _]. congruence. }
  destruct (Z.ltb_spec (nValue o) 0).
  { split; [punish|]. intros (_ & F & _). apply Forall_cons in F as [F _]. lia. }
  destruct (Z.ltb_spec (MaxMoneyOut ps) (nValue o)).
  { split; [punish|]. intros (_ & F & _). apply Forall_cons in F as [F _]. lia. }
  rewrite s64_small by lia. unfold MoneyRange.
  destruct (Z.leb_spec 0 (acc + nValue o)); [|lia]. cbn [map zsum foldr]. fold (zsum (map nValue outs)).
  destruct (Z.leb_spec (acc + nValue o) (MaxMoneyOut ps)); cbn [andb negb].
  2: { split; [punish|]. intros (_ & F & S). apply Forall_cons in F as [_ F].
       assert (0 <= zsum (map nValue outs)).
       { clear -F. induction F as [|x l [? _] _ IHF]; [done|]. cbn. unfold zsum in IHF. lia. }
       lia. }
  specialize (IH (acc + nValue o) ltac:(lia) Hm). destruct (check_outputs _ _ _ _ _).
  - destruct IH as [P N]. split; [done|]. intros (F1 & F2 & F3). apply N. split_and!; [|by apply Forall_cons in F2 as []|lia].
    intros A B. specialize (F1 A B). by apply Forall_cons in F1 as [].
  - destruct IH as (I1 & I2 & -> & I3). split_and!; [|by constructor; [lia|]|lia..].
    intros A B. constructor; [|by apply I1]. rewrite A, B, !andb_true_r in E. done.
Qed.

Lemma duplicate_input_spec ins : forall s,
  duplicate_input s ins = false <-> NoDup (map prevout ins) /\ Forall (fun i => prevout i ∉ s) ins.
Proof.
  induction ins as [|i ins IH]; intros s; cbn [duplicate_input map].
  { split; [|done]. split; constructor. }
  rewrite NoDup_cons, Forall_cons. case_decide as D; [split; [done|intros (_ & N & _); done]|].
  rewrite IH. rewrite !Forall_forall. setoid_rewrite not_elem_of_union. setoid_rewrite not_elem_of_singleton.
  split.
  - intros (N & F). split_and!; [|done..|intros x Hx; by apply F].
    intros Hin. apply list_elem_of_fmap in Hin as (x & E & Hx). by destruct (F x Hx).
  - intros ((Hn & N) & _ & F). split; [done|]. intros x Hx. split; [|by apply F].
    intros E. apply Hn. apply list_elem_of_fmap. by exists x.
Qed.

Lemma CheckTransaction_spec ps tx st :
  0 <= MaxMoneyOut ps < 2 ^ 62 ->
  (CheckTransaction ps tx st = (st, true) /\ tx_valid ps tx) \/
  (exists st', CheckTransaction ps tx st = (st', false) /\ punished st st' /\ ~ tx_valid ps tx).
Proof.
  intros Hm. unfold CheckTransaction.
  destruct (length (vin tx) =? 0)%nat eqn:Ei.
  { right. eexists. split; [reflexivity|]. split; [punish|]. intros [N _ _ _ _ _ _ _ _]. by destruct (vin tx). }
  destruct (length (vout tx) =? 0)%nat eqn:Eo.
  { right. eexists. split; [reflexivity|]. split; [punish|]. intros [_ N _ _ _ _ _ _ _]. by destruct (vout tx). }
  destruct (Z.ltb_spec MAX_BLOCK_SIZE (Z.of_nat (length (enc c_transaction tx)))) as [Hs|Hs].
  { right. eexists. split; [reflexivity|]. split; [punish|]. intros []. lia. }
  pose proof (check_outputs_spec ps tx st (vout tx) 0 ltac:(lia) (proj2 Hm)) as O.
  destruct (check_outputs ps tx (vout tx) 0 st) as [st'|r].
  { right. exists st'. split; [done|]. destruct O as [P N]. split; [done|]. intros []. by apply N. }
  destruct O as (O1 & O2 & O3 & O4). destruct (duplicate_input ∅ (vin tx)) eqn:Ed.
  { right. eexists. split; [reflexivity|]. split; [punish|]. intros [_ _ _ _ _ _ N _ _].
    apply not_false_iff_true in Ed. apply Ed, duplicate_input_spec. split; [done|]. apply Forall_forall. set_solver. }
  apply duplicate_input_spec in Ed as [Ed _].
  assert (vin tx <> []) by (by destruct (vin tx)). assert (vout tx <> []) by (by destruct (vout tx)).
  destruct (IsCoinBase tx) eqn:Eb.
  - assert (exists i, vin tx = [i]) as [i Hi].
    { unfold IsCoinBase in Eb. destruct (vin tx) as [|i [|]]; try done. by exists i. }
    case_if.
    + right. eexists. split; [reflexivity|]. split; [punish|]. intros [_ _ _ _ _ _ _ C _].
      specialize (C i Eb Hi). rewrite Hi in E. cbn iota in E. lia.
    + left. split; [done|]. split; try done; try lia; rewrite Eb; [done| |done].
      intros j _ Hj. rewrite Hi in Hj, E. injection Hj as <-. cbn iota in E. lia.
  - case_if.
    + right. eexists. split; [reflexivity|]. split; [punish|]. intros [_ _ _ _ _ _ _ _ C].
      specialize (C Eb). apply Forall_false_existsb in C. congruence.
    + left. split; [done|]. split; try done; try lia; rewrite Eb; [done..|]. intros _. by apply Forall_false_existsb.
Qed.

(** C30 [CheckTransaction] accepts exactly the transactions with inputs and outputs, of
    at most the size of a block, none of whose outputs is empty unless it is a coinbase or
    a coinstake, whose output values are each in the range of money and add up to a value
    in that range (the running sum is tested before it can wrap), whose inputs are distinct
    and, unless it is a coinbase, not null, and whose coinbase script has 2 to 150 bytes.
    An accepted one leaves the validation state alone; any other makes it invalid, with a
    higher ban score unless the state was in error already, which [DoS] leaves as it is. *)
Theorem CheckTransaction_iff ps tx st st' ok :
  0 <= MaxMoneyOut ps < 2 ^ 62 -> CheckTransaction ps tx st = (st', ok) ->
  (ok = true <-> tx_valid ps tx) /\
  (ok = true -> st' = st) /\
  (ok = false -> mode st' <> MODE_VALID /\ (mode st <> MODE_ERROR -> nDoS st < nDoS st')).
Proof.
  intros Hm E. destruct (CheckTransaction_spec ps tx st Hm) as [[E' V]|(s & E' & P & N)];
    rewrite E in E'; apply pair_eq in E' as [-> ->].
  - done.
  - split_and!; [done|done|]. intros _. by apply punished_not_valid.
Qed.

Lemma CheckTransaction_iff_witness :
  CheckTransaction mainParams example_coinstake valid_state = (valid_state, true) /\
  ((true = true <-> tx_valid mainParams example_coinstake) /\
   (true = true -> valid_state = valid_state) /\
   (true = false -> mode valid_state <> MODE_VALID /\
      (mode valid_state <> MODE_ERROR -> nDoS valid_state < nDoS valid_state))).
Proof.
  assert (E : CheckTransaction mainParams example_coinstake valid_state = (valid_state, true)) by (vm_compute; reflexivity).
  split; [exact E|]. apply (CheckTransaction_iff mainParams example_coinstake valid_state valid_state true); [|exact E].
  split; vm_compute; congruence.
Defined.

(** * Reasoning on actions

    [reads m]: whatever [m] ends with, the view means what it meant. *)

Lemma value_out_loop_mono outs : forall acc r, value_out_loop acc outs = Some r -> acc <= r.
Proof.
  induction outs as [|o outs IH]; intros acc r; cbn [value_out_loop]; [intros [= ->]; done|].
  case_if; [done|]. case_if; [done|]. intros L%IH. lia.
Qed.

(** The output an input spends, with the coins it is of. *)
Definition utxo (content : uint256 -> CCoins) (out : COutPoint) : option (CCoins * CTxOut) :=
  let cs := content (out_hash out) in
  match c_vout cs !! Z.to_nat (out_n out) with
  | Some o => if txout_IsNull o then None else Some (cs, o)
  | None => None
  end.

Definition spent (content : uint256 -> CCoins) (ins : list CTxIn) : option (list (CCoins * CTxOut)) :=
  mapM (fun i => utxo content (prevout i)) ins.

Definition wf_in (i : CTxIn) : Prop := wf256 (out_hash (prevout i)) /\ word 32 (out_n (prevout i)).

Lemma utxo_coins content out cs :
  norm cs = content (out_hash out) ->
  utxo content out =
    match c_vout cs !! Z.to_nat (out_n out) with
    | Some o => if txout_IsNull o then None else Some (cs, o)
    | None => None
    end.
Proof.
  intros E. unfold utxo. rewrite <- E. unfold norm. destruct (IsPruned cs) eqn:P; [|done].
  cbn [empty_coins c_vout]. rewrite lookup_nil. case_match eqn:L; [|done].
  unfold IsPruned in P. rewrite forallb_forall in P. apply list_elem_of_lookup_2, list_elem_of_In, P in L. by rewrite L.
Qed.

Lemma utxo_available content out cs :
  norm cs = content (out_hash out) ->
  IsAvailable cs (out_n out) = bool_decide (is_Some (utxo content out)).
Proof.
  intros E. rewrite (utxo_coins _ _ _ E). unfold IsAvailable. case_match; [|done]. by destruct (txout_IsNull _).
Qed.

Section Reads.
Context {V : Type} `{CCoinsViewReads V}.
Abbreviation cache := (CCoinsViewCache V).

Lemma bind_Done {A B} (m : M V A) (k : A -> M V B) c st c' st' b :
  bind m k c st = Done c' st' b <-> exists c1 st1 a, m c st = Done c1 st1 a /\ k a c1 st1 = Done c' st' b.
Proof.
  unfold bind. destruct (m c st) as [c1 st1 a| |]; split; [eauto 6|intros (? & ? & ? & [= -> -> ->] & ?); done| |
    intros (? & ? & ? & [=] & _)| |intros (? & ? & ? & [=] & _)]; done.
Qed.

Lemma bind_mret {A B} (a : A) (k : A -> M V B) : bind (mret a) k = k a.
Proof. done. Qed.

Lemma bind_view_op {A B} (f : cache -> cache * A) (k : A -> M V B) c st c1 a :
  f c = (c1, a) -> bind (view_op f) k c st = k a c1 st.
Proof. intros E. unfold bind, view_op. by rewrite E. Qed.

Lemma bind_Done_eq {A B} (m : M V A) (k : A -> M V B) c st c1 st1 a :
  m c st = Done c1 st1 a -> bind m k c st = k a c1 st1.
Proof. intros E. unfold bind. by rewrite E. Qed.

Lemma bind_Reject_eq {A B} (m : M V A) (k : A -> M V B) c st c1 st1 :
  m c st = Reject c1 st1 -> bind m k c st = Reject c1 st1.
Proof. intros E. unfold bind. by rewrite E. Qed.

Definition reads {A} (m : M V A) : Prop := forall c st, cache_inv c ->
  match m c st with
  | Done c' _ _ | Reject c' _ => same_cache c c'
  | Stop => True
  end.

Lemma reads_bind {A B} (m : M V A) (k : A -> M V B) : reads m -> (forall a, reads (k a)) -> reads (bind m k).
Proof.
  intros Hm Hk c st I. unfold bind. specialize (Hm c st I). destruct (m c st) as [c1 st1 a| |]; [|done..].
  specialize (Hk a c1 st1 (proj1 Hm)). destruct (k a c1 st1); [eapply same_cache_trans; eassumption..|done].
Qed.

Lemma reads_mret {A} (a : A) : reads (mret a). Proof. intros c st I. by apply same_cache_refl. Qed.
Lemma reads_stop {A} : reads (stop (A := A)). Proof. done. Qed.
Lemma reads_stop_if_none {A} (o : option A) : reads (stop_if_none o).
Proof. destruct o; [apply reads_mret|done]. Qed.
Lemma reads_reject_DoS {A} level code reason : reads (reject_DoS (A := A) level code reason).
Proof. intros c st I. by apply same_cache_refl. Qed.
Lemma reads_reject_Invalid {A} code reason : reads (reject_Invalid (A := A) code reason).
Proof. intros c st I. by apply same_cache_refl. Qed.
Lemma reads_guard {A} (b : bool) (k r : M V A) : reads k -> reads r -> reads (if b then k else r).
Proof. by destruct b. Qed.

Lemma reads_view_op {A} (f : cache -> cache * A) :
  (forall c c' a, cache_inv c -> f c = (c', a) -> same_cache c c') -> reads (view_op f).
Proof. intros Hf c st I. unfold view_op. destruct (f c) as [c' a] eqn:E. by apply (Hf c c' a). Qed.

(** ** The look-ups *)

Lemma AccessCoins_spec c k c' r :
  cache_inv c -> wf256 k -> AccessCoins c k = (c', r) ->
  same_cache c c' /\ match r with None => cache_content c k = empty_coins | Some cs => norm cs = cache_content c k end.
Proof.
  intros I Hk E. unfold AccessCoins in E. destruct (FetchCoins c k) as [c1 it] eqn:F. injection E as <- <-.
  destruct (FetchCoins_spec _ _ _ _ I Hk F) as [S R]. split; [done|]. destruct it; [apply R|done].
Qed.

Lemma utxo_same (c c' : cache) out :
  same_cache c c' -> wf256 (out_hash out) -> utxo (cache_content c') out = utxo (cache_content c) out.
Proof. intros (_ & _ & Hc & _) Hk. unfold utxo. by rewrite Hc. Qed.

Lemma spent_same (c c' : cache) ins :
  same_cache c c' -> Forall wf_in ins -> spent (cache_content c') ins = spent (cache_content c) ins.
Proof.
  intros S. unfold spent. induction 1 as [|i ins [Hi _] _ IH]; [done|]. cbn. by rewrite (utxo_same c c'), IH.
Qed.

Lemma have_inputs_loop_spec ins : forall c c' b,
  cache_inv c -> Forall wf_in ins -> have_inputs_loop c ins = (c', b) ->
  same_cache c c' /\ b = bool_decide (is_Some (spent (cache_content c) ins)).
Proof.
  induction ins as [|i ins IH]; intros c c' b I W E; cbn [have_inputs_loop] in E.
  { injection E as <- <-. split; [by apply same_cache_refl|done]. }
  apply Forall_cons in W as [[Wi _] W]. destruct (AccessCoins c (out_hash (prevout i))) as [c1 r] eqn:A.
  destruct (AccessCoins_spec _ _ _ _ I Wi A) as [S R]. unfold spent. cbn [mapM].
  destruct r as [cs|].
  - rewrite (utxo_available _ _ _ R) in E. case_bool_decide as D; cbn [negb] in E.
    + destruct D as [p ->]. destruct (IH _ _ _ (proj1 S) W E) as [S' ->].
      split; [by eapply same_cache_trans|]. rewrite (spent_same c c1) by done. unfold spent. cbn.
      by destruct (mapM _ ins).
    + injection E as <- <-. split; [done|]. destruct (utxo _ _); [by destruct D|done].
  - injection E as <- <-. split; [done|]. unfold utxo. by rewrite R.
Qed.

Lemma HaveInputs_spec c tx c' b :
  cache_inv c -> Forall wf_in (vin tx) -> HaveInputs c tx = (c', b) ->
  same_cache c c' /\ (IsCoinBase tx = false -> b = bool_decide (is_Some (spent (cache_content c) (vin tx)))).
Proof.
  intros I W. unfold HaveInputs. destruct (IsCoinBase tx); cbn [negb].
  - intros [= <- <-]. split; [by apply same_cache_refl|done].
  - intros E. by destruct (have_inputs_loop_spec _ _ _ _ I W E).
Qed.

Lemma GetOutputFor_same c i c' o : cache_inv c -> wf_in i -> GetOutputFor c i = (c', o) -> same_cache c c'.
Proof.
  intros I [W _]. unfold GetOutputFor. destruct (AccessCoins c (out_hash (prevout i))) as [c1 r] eqn:A. intros [= <- _].
  by apply (AccessCoins_spec _ _ _ _ I W) in A as [S _].
Qed.

Lemma GetValueIn_same c tx c' o : cache_inv c -> Forall wf_in (vin tx) -> GetValueIn c tx = (c', o) -> same_cache c c'.
Proof.
  intros I W. unfold GetValueIn. case_if; [intros [= <- _]; by apply same_cache_refl|]. clear E.
  assert (G : forall ins c acc c' o, cache_inv c -> Forall wf_in ins -> value_in_loop c ins acc = (c', o) -> same_cache c c').
  { clear. intros ins. induction ins as [|i ins IH]; intros c acc c' o I W; cbn [value_in_loop].
    { intros [= <- _]. by apply same_cache_refl. }
    apply Forall_cons in W as [Wi W]. destruct (GetOutputFor c i) as [c1 r] eqn:G.
    apply GetOutputFor_same in G; [|done..]. destruct r as [r|]; [|intros [= <- _]; done].
    intros E. apply IH in E; [|apply G|done]. by eapply same_cache_trans. }
  by apply G.
Qed.
End Reads.

Create HintDb reads.
#[export] Hint Resolve reads_bind reads_mret reads_stop reads_stop_if_none reads_reject_DoS reads_reject_Invalid reads_guard : reads.

Section CheckInputsSpec.
Context {V : Type} `{CCoinsViewReads V} (lib : secp256k1) (ps : CChainParams).
Abbreviation cache := (CCoinsViewCache V).

(** An output that may be spent in a block at the height: old enough, its value in range. *)
Definition may_spend (nSpendHeight : Z) (p : CCoins * CTxOut) : Prop :=
  (fCoinBase p.1 || fCoinStake p.1 = true -> COINBASE_MATURITY ps <= nSpendHeight - c_nHeight p.1) /\
  0 <= nValue p.2 <= MaxMoneyOut ps.

Definition total (outs : list (CCoins * CTxOut)) : Z := zsum (map (fun p => nValue p.2) outs).

Fixpoint checks_of (tx : CTransaction) (flags i : Z) (outs : list (CCoins * CTxOut)) : list CScriptCheck :=
  match outs with
  | [] => []
  | p :: outs => {| sc_scriptPubKey := scriptPubKey p.2; sc_tx := tx; sc_nIn := i; sc_nFlags := flags |} :: checks_of tx flags (i + 1) outs
  end.

Lemma total_nonneg h outs : Forall (may_spend h) outs -> 0 <= total outs.
Proof. induction 1 as [|p outs [_ ?] _ IH]; [done|]. unfold total, zsum in *. cbn. lia. Qed.

(** One turn of the loops: the coins accessed are those the input spends. *)
Lemma access_spent (c : cache) i ins outs0 :
  cache_inv c -> Forall wf_in (i :: ins) -> spent (cache_content c) (i :: ins) = Some outs0 ->
  exists p outs c', outs0 = p :: outs /\ AccessCoins c (out_hash (prevout i)) = (c', Some p.1) /\ same_cache c c' /\
    c_vout p.1 !! Z.to_nat (out_n (prevout i)) = Some p.2 /\
    Forall wf_in ins /\ spent (cache_content c') ins = Some outs.
Proof.
  intros I [Wi W]%Forall_cons Hs. unfold spent in Hs. cbn [mapM] in Hs.
  apply bind_Some in Hs as (q & Hq & Hs). apply bind_Some in Hs as (qs & Hqs & [= <-]).
  destruct (AccessCoins c (out_hash (prevout i))) as [c' r] eqn:A.
  destruct (AccessCoins_spec _ _ _ _ I (proj1 Wi) A) as [S R]. exists q, qs, c'. destruct r as [cs|].
  - rewrite (utxo_coins _ _ _ R) in Hq. case_match eqn:L; [|done]. case_match; [done|].
    apply Some_inj in Hq as <-. split_and!; try done. by rewrite (spent_same c c').
  - unfold utxo in Hq. by rewrite R in Hq.
Qed.

Definition immature (h : Z) (cs : CCoins) : bool := (fCoinBase cs || fCoinStake cs) && (h - c_nHeight cs <? COINBASE_MATURITY ps).

Lemma input_values_step h i ins acc (c c1 : cache) st cs o :
  AccessCoins c (out_hash (prevout i)) = (c1, Some cs) -> c_vout cs !! Z.to_nat (out_n (prevout i)) = Some o ->
  input_values ps h (i :: ins) acc c st =
    if immature h cs then Reject c1 (Invalid st REJECT_INVALID "bad-txns-premature-spend-of-coinbase")
    else if MoneyRange ps (nValue o) && MoneyRange ps (s64 (acc + nValue o)) then input_values ps h ins (s64 (acc + nValue o)) c1 st
    else Reject c1 (DoS st 100 REJECT_INVALID "bad-txns-inputvalues-outofrange" false).
Proof.
  intros A L. unfold immature. cbn [input_values]. rewrite (bind_view_op _ _ _ _ _ _ A). cbn [stop_if_none].
  rewrite bind_mret. cbv beta.
  destruct ((fCoinBase cs || fCoinStake cs) && _); cbn [negb]; [done|]. rewrite L. cbn [stop_if_none]. rewrite bind_mret. by case_if.
Qed.

Lemma may_spend_iff h p : may_spend h p <-> immature h p.1 = false /\ MoneyRange ps (nValue p.2) = true.
Proof.
  unfold may_spend, immature, MoneyRange. destruct (fCoinBase p.1 || fCoinStake p.1); cbn [andb]; [lia|].
  split; [intros [_ ?]|intros [_ ?]]; split; done || lia.
Qed.

Lemma Reject_not_valid (c : cache) st level code reason :
  exists st', Reject (A := Z) c (DoS st level code reason false) = Reject c st' /\ mode st' <> MODE_VALID.
Proof. eexists. split; [reflexivity|]. unfold DoS. by destruct (mode st). Qed.

Lemma input_values_spec h ins outs st : forall (c : cache) acc,
  cache_inv c -> Forall wf_in ins -> 0 <= acc <= MaxMoneyOut ps -> MaxMoneyOut ps < 2 ^ 62 ->
  spent (cache_content c) ins = Some outs ->
  exists c', same_cache c c' /\
    (Forall (may_spend h) outs /\ acc + total outs <= MaxMoneyOut ps /\
       input_values ps h ins acc c st = Done c' st (acc + total outs)
     \/ ~ (Forall (may_spend h) outs /\ acc + total outs <= MaxMoneyOut ps) /\
       exists st', input_values ps h ins acc c st = Reject c' st' /\ mode st' <> MODE_VALID).
Proof.
  revert outs. induction ins as [|i ins IH]; intros outs c acc I W Ha Hm Hs.
  { injection Hs as <-. exists c. split; [by apply same_cache_refl|]. left. unfold total. cbn. rewrite Z.add_0_r. split_and!; [constructor|lia|done]. }
  destruct (access_spent c i ins outs I W Hs) as (p & outs' & c1 & -> & A & S & L & W' & Hs'). rename outs' into outs.
  rewrite (input_values_step _ _ _ _ _ _ _ _ _ A L). setoid_rewrite Forall_cons. setoid_rewrite may_spend_iff.
  assert (T : total (p :: outs) = nValue p.2 + total outs) by done. rewrite T, Z.add_assoc.
  destruct (immature h p.1); [exists c1; split; [done|]; right; split; [intros [[[? _] _] _]; done|apply Reject_not_valid]|].
  destruct (MoneyRange ps (nValue p.2)) eqn:M1; cbn [andb].
  2: { exists c1; split; [done|]; right; split; [intros [[[_ ?] _] _]; done|apply Reject_not_valid]. }
  unfold MoneyRange in M1. rewrite s64_small by lia. destruct (MoneyRange ps (acc + nValue p.2)) eqn:M2; unfold MoneyRange in M2.
  - destruct (IH outs c1 (acc + nValue p.2) (proj1 S) W' ltac:(lia) Hm Hs') as (c2 & S2 & R).
    exists c2. split; [by eapply same_cache_trans|]. destruct R as [(R1 & R2 & R3)|(R1 & R2)]; [by left|right].
    split; [|done]. intros [[_ F] G]. by apply R1.
  - exists c1. split; [done|]. right. split; [|apply Reject_not_valid]. intros [[_ F%total_nonneg] G]. lia.
Qed.

Lemma script_checks_step tx flags pv i inp ins (c c1 : cache) st cs o
    (k := fun f => {| sc_scriptPubKey := scriptPubKey o; sc_tx := tx; sc_nIn := i; sc_nFlags := f |}) :
  AccessCoins c (out_hash (prevout inp)) = (c1, Some cs) -> c_vout cs !! Z.to_nat (out_n (prevout inp)) = Some o ->
  script_checks lib tx flags pv i (inp :: ins) c st =
    if pv then bind (script_checks lib tx flags pv (i + 1) ins) (fun rest => mret (k flags :: rest)) c1 st
    else if run_check lib (k flags) then script_checks lib tx flags pv (i + 1) ins c1 st
    else if negb (Z.land flags STANDARD_NOT_MANDATORY_VERIFY_FLAGS =? 0)
            && run_check lib (k (Z.ldiff flags STANDARD_NOT_MANDATORY_VERIFY_FLAGS))
    then Reject c1 (Invalid st REJECT_NONSTANDARD "non-mandatory-script-verify-flag")
    else Reject c1 (DoS st 100 REJECT_INVALID "mandatory-script-verify-flag-failed" false).
Proof.
  intros A L. cbn [script_checks]. rewrite (bind_view_op _ _ _ _ _ _ A). cbn [stop_if_none]. rewrite bind_mret. cbv beta. rewrite L.
  cbn [stop_if_none]. rewrite bind_mret. cbv beta zeta. destruct pv; [done|]. subst k. cbv beta. case_if; [done|]. by case_if.
Qed.

Lemma script_checks_spec tx flags (pv : bool) ins outs st : forall (c : cache) i,
  cache_inv c -> Forall wf_in ins -> spent (cache_content c) ins = Some outs ->
  exists c', same_cache c c' /\
    (if pv then script_checks lib tx flags pv i ins c st = Done c' st (checks_of tx flags i outs)
     else forallb (run_check lib) (checks_of tx flags i outs) = true /\ script_checks lib tx flags pv i ins c st = Done c' st [] \/
          forallb (run_check lib) (checks_of tx flags i outs) = false /\
          exists st', script_checks lib tx flags pv i ins c st = Reject c' st' /\ mode st' <> MODE_VALID).
Proof.
  revert outs. induction ins as [|inp ins IH]; intros outs c i I W Hs.
  { injection Hs as <-. exists c. split; [by apply same_cache_refl|]. destruct pv; [done|by left]. }
  destruct (access_spent c inp ins outs I W Hs) as (p & outs' & c1 & -> & A & S & L & W' & Hs'). rename outs' into outs.
  rewrite (script_checks_step _ _ _ _ _ _ _ _ _ _ _ A L). cbn [checks_of forallb].
  destruct (IH outs c1 (i + 1) (proj1 S) W' Hs') as (c2 & S2 & R). destruct pv.
  - exists c2. split; [by eapply same_cache_trans|]. unfold bind. by rewrite R.
  - destruct (run_check lib _); cbn [andb].
    + exists c2. split; [by eapply same_cache_trans|]. exact R.
    + exists c1. split; [done|]. right. split; [done|].
      case_if; (eexists; split; [reflexivity|]); unfold Invalid, DoS; by destruct (mode st).
Qed.

(** What [CheckInputs] asks of a transaction that spends [outs], at the height [h]. *)
Record spends_ok (tx : CTransaction) (flags h : Z) (run : bool) (outs : list (CCoins * CTxOut)) : Prop := {
  so_each : Forall (may_spend h) outs;
  so_total : total outs <= MaxMoneyOut ps;
  so_covers : IsCoinStake tx = false -> exists out, GetValueOut tx = Some out /\ out <= total outs;
  so_scripts : run = true -> forallb (run_check lib) (checks_of tx flags 0 outs) = true
}.

(** The part of [CheckInputs] between the two loops. *)
Definition fee_check (tx : CTransaction) (nValueIn : Z) : M V unit :=
  if negb (IsCoinStake tx) then
    out <-- stop_if_none (GetValueOut tx) ;;
    guard negb (nValueIn <? out) orelse reject_DoS 100 REJECT_INVALID "bad-txns-in-belowout" ;;
    let nTxFee := s64 (nValueIn - out) in
    guard negb (nTxFee <? 0) orelse reject_DoS 100 REJECT_INVALID "bad-txns-fee-negative" ;;
    guard MoneyRange ps nTxFee orelse reject_DoS 100 REJECT_INVALID "bad-txns-fee-outofrange" ;;
    mret tt
  else mret tt.

Lemma fee_check_spec tx v (c : cache) st :
  0 <= v <= MaxMoneyOut ps -> MaxMoneyOut ps < 2 ^ 62 ->
  (fee_check tx v c st = Done c st tt /\ (IsCoinStake tx = false -> exists out, GetValueOut tx = Some out /\ out <= v)) \/
  (exists st', fee_check tx v c st = Reject c st' /\ mode st' <> MODE_VALID /\
     ~ (IsCoinStake tx = false -> exists out, GetValueOut tx = Some out /\ out <= v)) \/
  (fee_check tx v c st = Stop /\ IsCoinStake tx = false /\ GetValueOut tx = None).
Proof.
  intros Hv Hm. unfold fee_check. destruct (IsCoinStake tx); cbn [negb]; [by left|].
  destruct (GetValueOut tx) as [out|] eqn:E; cbn [stop_if_none]; [|by right; right].
  rewrite bind_mret. pose proof (value_out_loop_mono _ _ _ E) as Ho.
  destruct (Z.ltb_spec v out); cbn [negb].
  - right. left. eexists. split; [reflexivity|]. split; [unfold DoS; by destruct (mode st)|].
    intros F. destruct (F eq_refl) as (? & [= <-] & ?). lia.
  - left. rewrite s64_small by lia. cbv zeta. unfold MoneyRange. destruct (Z.ltb_spec (v - out) 0); [lia|]. cbn [negb].
    replace ((0 <=? _) && _) with true by lia. split; [done|]. intros _. by exists out.
Qed.

Lemma CheckInputs_unfold block_height tx fScriptChecks flags pv :
  IsCoinBase tx = false ->
  CheckInputs lib ps block_height tx fScriptChecks flags pv =
    bind (view_op (fun c : cache => HaveInputs c tx)) (fun have =>
    if have then
      bind (view_op GetBestBlock) (fun h =>
      bind (stop_if_none (block_height h)) (fun prev =>
      bind (input_values ps (prev + 1) (vin tx) 0) (fun v =>
      bind (fee_check tx v) (fun _ =>
      if fScriptChecks then script_checks lib tx flags pv 0 (vin tx) else mret []))))
    else reject_Invalid 0 "").
Proof. intros E. unfold CheckInputs. by rewrite E. Qed.

Section Spec.
Context (block_height : uint256 -> option Z) (tx : CTransaction) (fScriptChecks : bool) (flags : Z) (pv : bool).
Context (NB : IsCoinBase tx = false) (W : Forall wf_in (vin tx)) (Hm : 0 <= MaxMoneyOut ps < 2 ^ 62).

(** How a run of [CheckInputs] may end. *)
Definition CheckInputs_result (c : cache) (st : CValidationState) (r : outcome V (list CScriptCheck)) : Prop :=
  let accepted outs := exists prev, spent (cache_content c) (vin tx) = Some outs /\
    block_height (cache_best c) = Some prev /\ spends_ok tx flags (prev + 1) (fScriptChecks && negb pv) outs in
  match r with
  | Done c' st' checks => same_cache c c' /\ st' = st /\
      exists outs, accepted outs /\ checks = if fScriptChecks && pv then checks_of tx flags 0 outs else []
  | Reject c' st' => same_cache c c' /\ mode st' <> MODE_VALID /\ forall outs, ~ accepted outs
  | Stop => block_height (cache_best c) = None \/ IsCoinStake tx = false /\ GetValueOut tx = None
  end.

Lemma CheckInputs_spec c st :
  cache_inv c -> CheckInputs_result c st (CheckInputs lib ps block_height tx fScriptChecks flags pv c st).
Proof.
  intros I. unfold CheckInputs_result. cbv zeta. rewrite CheckInputs_unfold by done. destruct (HaveInputs c tx) as [c1 b] eqn:Hi.
  rewrite (bind_view_op _ _ _ _ _ _ Hi). destruct (HaveInputs_spec _ _ _ _ I W Hi) as [S1 Hb]. specialize (Hb NB).
  case_bool_decide as D; subst b.
  2: { split; [done|]. split; [unfold Invalid, DoS; by destruct (mode st)|]. intros outs (? & E & _). by destruct D; exists outs. }
  destruct D as [outs Hs]. destruct (GetBestBlock c1) as [c2 h] eqn:Hg. rewrite (bind_view_op _ _ _ _ _ _ Hg).
  destruct (cache_GetBestBlock_spec _ _ _ (proj1 S1) Hg) as [S2 ->].
  pose proof (same_cache_trans _ _ _ S1 S2) as S12. rewrite (proj1 (proj2 S1)).
  destruct (block_height (cache_best c)) as [prev|] eqn:Hh; cbn [stop_if_none]; [|by left]. rewrite bind_mret.
  destruct (input_values_spec (prev + 1) (vin tx) outs st c2 0 (proj1 S2) W ltac:(lia) (proj2 Hm)) as (c3 & S3 & R).
  { by rewrite (spent_same c). }
  pose proof (same_cache_trans _ _ _ S12 S3) as S13. rewrite Z.add_0_l in R.
  assert (U : forall outs' p', spent (cache_content c) (vin tx) = Some outs' /\ Some prev = Some p' -> outs' = outs /\ p' = prev).
  { intros ? ? [? ?]. split; congruence. }
  destruct R as [(R1 & R2 & R3)|(R1 & st' & R2 & R3)].
  2: { rewrite (bind_Reject_eq _ _ _ _ _ _ R2). split; [done|]. split; [done|]. intros outs' (p' & E1 & E2 & [A B _ _]).
       destruct (U outs' p') as [-> ->]; [done|]. by apply R1. }
  rewrite (bind_Done_eq _ _ _ _ _ _ _ R3). pose proof (total_nonneg _ _ R1) as Ht.
  destruct (fee_check_spec tx (total outs) c3 st ltac:(lia) (proj2 Hm)) as [(F1 & F2)|[(st' & F1 & F2 & F3)|(F1 & F2)]].
  3: { unfold bind. rewrite F1. by right. }
  2: { rewrite (bind_Reject_eq _ _ _ _ _ _ F1). split; [done|]. split; [done|]. intros outs' (p' & E1 & E2 & [_ _ C _]).
       destruct (U outs' p') as [-> ->]; done. }
  rewrite (bind_Done_eq _ _ _ _ _ _ _ F1). destruct fScriptChecks; cbn [andb].
  2: { split; [done|]. split; [done|]. exists outs. split; [|done]. exists prev. by split_and!; [..|split]. }
  destruct (script_checks_spec tx flags pv (vin tx) outs st c3 0 (proj1 S3) W) as (c4 & S4 & R); [by rewrite (spent_same c)|].
  pose proof (same_cache_trans _ _ _ S13 S4) as S14. destruct pv; cbn [negb].
  - rewrite R. split; [done|]. split; [done|]. exists outs. split; [|done]. exists prev. by split_and!; [..|split].
  - destruct R as [(R & ->)|(R & st' & -> & N)].
    + split; [done|]. split; [done|]. exists outs. split; [|done]. exists prev. by split_and!; [..|split].
    + split; [done|]. split; [done|]. intros outs' (p' & E1 & E2 & [_ _ _ C]).
      destruct (U outs' p') as [-> ->]; [done|]. rewrite C in R by done. done.
Qed.
End Spec.
End CheckInputsSpec.

(** C6 A coinbase passes [CheckInputs] at once, with nothing to check and no look at the
    coins.  Any other transaction passes exactly when every input spends an output that
    is there and not spent, old enough if it is of a coinbase or a coinstake, with a value
    in the range of money, the values adding up to one in that range and, unless it is a
    coinstake, to no less than the outputs; and when, if scripts are to be checked and there
    is no queue for them, all verify, while with a queue exactly those checks are handed
    back.  This is for a cache that keeps its invariant.  Passing or not, the unspent
    outputs are not changed; a transaction that fails makes the state invalid; and
    the only ways to stop are a best block that is not in the index and a [GetValueOut]
    that throws. *)
Theorem CheckInputs_iff {V} `{CCoinsViewReads V} lib ps block_height tx fScriptChecks flags pv (c : CCoinsViewCache V) st :
  0 <= MaxMoneyOut ps < 2 ^ 62 -> Forall wf_in (vin tx) -> cache_inv c ->
  (IsCoinBase tx = true -> CheckInputs lib ps block_height tx fScriptChecks flags pv c st = Done c st []) /\
  (IsCoinBase tx = false -> CheckInputs_result lib ps block_height tx fScriptChecks flags pv c st
    (CheckInputs lib ps block_height tx fScriptChecks flags pv c st)).
Proof. intros Hm W I. split; intros NB; [unfold CheckInputs; by rewrite NB|by apply CheckInputs_spec]. Qed.

(** Spends output 2 of [example_coins]. *)
Definition example_spend : CTransaction := {|
  tx_nVersion := 1;
  vin := [{| prevout := {| out_hash := u256 5; out_n := 2 |}; scriptSig := []; nSequence := UINT32_MAX |}];
  vout := [example_out 600000000]; nLockTime := 0 |}.

Lemma one_coin_inv : cache_inv one_coin.
Proof. apply (coins_cache_inv (u256 5) example_coins); [apply wf_u256; wunfold; lia|exact example_coins_wf]. Qed.

Lemma CheckInputs_iff_witness :
  (exists c', CheckInputs toy_keys mainParams (fun _ => Some 204100) example_spend true SCRIPT_VERIFY_P2SH true one_coin valid_state
     = Done c' valid_state [{| sc_scriptPubKey := [OP_DUP; OP_CHECKSIG]; sc_tx := example_spend; sc_nIn := 0; sc_nFlags := SCRIPT_VERIFY_P2SH |}]) /\
  (IsCoinBase example_spend = true ->
    CheckInputs toy_keys mainParams (fun _ => Some 204100) example_spend true SCRIPT_VERIFY_P2SH true one_coin valid_state = Done one_coin valid_state []) /\
  (IsCoinBase example_spend = false -> CheckInputs_result toy_keys mainParams (fun _ => Some 204100) example_spend true SCRIPT_VERIFY_P2SH true one_coin valid_state
    (CheckInputs toy_keys mainParams (fun _ => Some 204100) example_spend true SCRIPT_VERIFY_P2SH true one_coin valid_state)).
Proof.
  split; [eexists; vm_compute; reflexivity|].
  apply CheckInputs_iff; [split; vm_compute; congruence| |exact one_coin_inv].
  apply Forall_cons. split; [|constructor]. split; [apply wf_u256; wunfold; lia|split; vm_compute; congruence].
Defined.
