(* ===== verification/Connect.v ===== *)
(** Connecting a block to the set of unspent outputs and disconnecting it again
    (main.cpp, checkpoints.cpp, masternode-payments.cpp).

    The state of the masternode and budget managers, the block index and the undo data on
    disk are arguments.  The undo file, the transaction index, the timers and the signals
    are left out. *)

From stdpp Require Import gmap.
From Stdlib Require Import Strings.String.
From S2P Require Import Prelude Uint256 Arith256 Params Subsidy Serialize Script Transaction Pubkey Compressor Interp Sighash Coins CoinsView Validation.

Local Open Scope Z_scope.
Local Open Scope action_scope.
#[local] Abbreviation length := Datatypes.length.

Definition SOFT_FORK_VERSION_110 : Z := 250000.

Section Connect.
Context {V : Type} `{CCoinsView V} (lib : secp256k1) (ps : CChainParams).
Abbreviation cache := (CCoinsViewCache V).

(** * Connecting a block *)

(** The fields of [CBlockIndex] that are read: the hash ([phashBlock] may be null), the
    height, and hash, height and money supply of [pprev]. *)
Record IndexView := {
  pi_hash : option uint256;
  pi_nHeight : Z;
  pi_pprev : option (uint256 * Z * Z)
}.

(** What the node knows besides. *)
Record NodeView := {
  networkID : Network;
  fEnabled : bool;                               (* Checkpoints::fEnabled *)
  mapCheckpoints : list (Z * uint256);           (* in ascending order *)
  nScriptCheckThreads : Z;
  block_heights : uint256 -> option Z;           (* mapBlockIndex *)
  chain_tip : option (uint256 * Z);              (* chainActive.Tip() *)
  masternode_synced : bool;
  superblocks_enabled : bool;                    (* SPORK_13 *)
  IsBudgetPaymentBlock : Z -> bool
}.

Definition chain_Height (node : NodeView) : Z := match chain_tip node with Some (_, h) => h | None => -1 end.

(** [Checkpoints::CheckBlock]. *)
Definition Checkpoints_CheckBlock (node : NodeView) (nHeight : Z) (hash : uint256) (fMatchesCheckpoint : bool) : bool :=
  if negb (fEnabled node) then true
  else
    match list_find (fun p => p.1 = nHeight) (mapCheckpoints node) with
    | None => negb fMatchesCheckpoint
    | Some (_, (_, h)) => eq hash h
    end.

Definition GetTotalBlocksEstimate (node : NodeView) : Z :=
  if negb (fEnabled node) then 0 else (List.last (mapCheckpoints node) (0, zero W256)).1.

Definition GetBudgetPaymentCycleBlocks (node : NodeView) : Z :=
  match networkID node with MAIN => 43200 | _ => 144 end.

Definition IsBlockValueValid (node : NodeView) (hashPrev : uint256) (nExpectedValue nMinted : Z) : bool :=
  match chain_tip node with
  | None => true
  | Some (tip, tip_height) =>
      let nHeight :=
        if eq tip hashPrev then tip_height + 1
        else match block_heights node hashPrev with Some h => h + 1 | None => 0 end in
      if negb (masternode_synced node) then
        if Z.rem nHeight (GetBudgetPaymentCycleBlocks node) <? 100 then true else negb (nExpectedValue <? nMinted)
      else if negb (superblocks_enabled node) then nMinted <=? nExpectedValue
      else if IsBudgetPaymentBlock node nHeight then true
      else negb (nExpectedValue <? nMinted)
  end.

(** The running totals of [ConnectBlock], its undo data and the queued checks. *)
Record Totals := {
  t_nFees : Z;
  t_nSigOps : Z;
  t_nValueOut : Z;
  t_nValueIn : Z;
  t_vtxundo : list (list CTxInUndo);
  t_checks : list CScriptCheck
}.

Definition no_totals : Totals :=
  {| t_nFees := 0; t_nSigOps := 0; t_nValueOut := 0; t_nValueIn := 0; t_vtxundo := []; t_checks := [] |}.

(** A rejection by [CheckInputs] counts only when the checkpoints reject the block too;
    the state it left stays. *)
Definition check_inputs_or_checkpoint (node : NodeView) (pindex : IndexView) (tx : CTransaction) (fScriptChecks : bool) : M V (list CScriptCheck) :=
  fun c st =>
    match CheckInputs lib ps (block_heights node) tx fScriptChecks (Z.lor SCRIPT_VERIFY_P2SH SCRIPT_VERIFY_DERSIG)
            (negb (nScriptCheckThreads node =? 0)) c st with
    | Reject c st =>
        match pi_hash pindex with
        | None => Stop
        | Some hash =>
            if negb (Checkpoints_CheckBlock node (pi_nHeight pindex) hash false) then Reject c st else Done c st []
        end
    | r => r
    end.

(** The body of the loop for a transaction that is not a coinbase. *)
Definition connect_inputs (node : NodeView) (pindex : IndexView) (tx : CTransaction) (fScriptChecks : bool) (t : Totals) : M V Totals :=
  have <-- view_op (fun c => HaveInputs c tx) ;;
  guard have orelse reject_DoS 100 REJECT_INVALID "bad-txns-inputs-missingorspent" ;;
  p2sh <-- GetP2SHSigOpCount tx ;;
  let nSigOps := u32 (t_nSigOps t + p2sh) in
  guard negb (MAX_BLOCK_SIGOPS <? nSigOps) orelse reject_DoS 100 REJECT_INVALID "bad-blk-sigops" ;;
  nFees <-- (if negb (IsCoinStake tx) then
               v <-- view_op (fun c => GetValueIn c tx) ;;
               vin <-- stop_if_none v ;;
               vout <-- stop_if_none (GetValueOut tx) ;;
               mret (s64 (t_nFees t + s64 (vin - vout)))
             else mret (t_nFees t)) ;;
  v <-- view_op (fun c => GetValueIn c tx) ;;
  vin <-- stop_if_none v ;;
  vChecks <-- check_inputs_or_checkpoint node pindex tx fScriptChecks ;;
  mret {| t_nFees := nFees; t_nSigOps := nSigOps; t_nValueOut := t_nValueOut t;
          t_nValueIn := s64 (t_nValueIn t + vin); t_vtxundo := t_vtxundo t; t_checks := t_checks t ++ vChecks |}.

Definition connect_tx (node : NodeView) (pindex : IndexView) (fScriptChecks : bool) (i : nat) (tx : CTransaction) (t : Totals) : M V Totals :=
  let nSigOps := u32 (t_nSigOps t + GetLegacySigOpCount tx) in
  guard negb (MAX_BLOCK_SIGOPS <? nSigOps) orelse reject_DoS 100 REJECT_INVALID "bad-blk-sigops" ;;
  let t := {| t_nFees := t_nFees t; t_nSigOps := nSigOps; t_nValueOut := t_nValueOut t;
              t_nValueIn := t_nValueIn t; t_vtxundo := t_vtxundo t; t_checks := t_checks t |} in
  t <-- (if negb (IsCoinBase tx) then connect_inputs node pindex tx fScriptChecks t else mret t) ;;
  out <-- stop_if_none (GetValueOut tx) ;;
  undo <-- UpdateCoins tx (pi_nHeight pindex) ;;
  mret {| t_nFees := t_nFees t; t_nSigOps := t_nSigOps t; t_nValueOut := s64 (t_nValueOut t + out);
          t_nValueIn := t_nValueIn t;
          t_vtxundo := if (0 <? i)%nat then t_vtxundo t ++ [undo] else t_vtxundo t;
          t_checks := t_checks t |}.

Fixpoint connect_txs (node : NodeView) (pindex : IndexView) (fScriptChecks : bool) (i : nat) (txs : list CTransaction) (t : Totals) : M V Totals :=
  match txs with
  | [] => mret t
  | tx :: txs =>
      t <-- connect_tx node pindex fScriptChecks i tx t ;;
      connect_txs node pindex fScriptChecks (S i) txs t
  end.

(** The test for overwritten transactions, made only when the index has no hash. *)
Fixpoint bip30_loop (txs : list CTransaction) : M V unit :=
  match txs with
  | [] => mret tt
  | tx :: txs =>
      coins <-- view_op (fun c => AccessCoins c (tx_GetHash tx)) ;;
      guard (match coins with Some cs => IsPruned cs | None => true end)
        orelse reject_DoS 100 REJECT_INVALID "bad-txns-BIP30" ;;
      bip30_loop txs
  end.

(** What [ConnectBlock] leaves in [pindex], and the undo data it writes. *)
Record Connected := { nMoneySupply_set : Z; nMint_set : Z; blockundo : list (list CTxInUndo) }.

(** [ConnectBlock] after [CheckBlock], for a block whose hash is [hash] and the genesis
    block [genesis].  The undo file and the indexes on disk are left out. *)
Definition ConnectBlock (node : NodeView) (genesis hash : uint256) (block : CBlock) (pindex : IndexView) (fJustCheck : bool) : M V (option Connected) :=
  let hashPrev := match pi_pprev pindex with Some (h, _, _) => h | None => zero W256 end in
  best <-- view_op GetBestBlock ;;
  guard eq hashPrev best orelse stop ;;
  if eq hash genesis then
    h <-- stop_if_none (pi_hash pindex) ;;
    _ <-- view_op (fun c => (SetBestBlock c h, tt)) ;; mret None
  else
  guard negb ((pi_nHeight pindex <=? LAST_POW_BLOCK ps) && block_IsProofOfStake block)
    orelse reject_DoS 100 REJECT_INVALID "PoS-early" ;;
  guard negb ((LAST_POW_BLOCK ps <? pi_nHeight pindex) && negb (block_IsProofOfStake block))
    orelse reject_DoS 100 REJECT_INVALID "PoW-ended" ;;
  let fScriptChecks := GetTotalBlocksEstimate node <=? pi_nHeight pindex in
  let fEnforceBIP30 := match pi_hash pindex with None => true | Some _ => false end in
  _ <-- (if fEnforceBIP30 then bip30_loop (vtx block) else mret tt) ;;
  t <-- connect_txs node pindex fScriptChecks 0 (vtx block) no_totals ;;
  let nMoneySupplyPrev := match pi_pprev pindex with Some (_, _, s) => s | None => 0 end in
  let nMoneySupply := s64 (nMoneySupplyPrev + t_nValueOut t - t_nValueIn t) in
  let nMint := s64 (nMoneySupply - nMoneySupplyPrev + t_nFees t) in
  prev <-- stop_if_none (pi_pprev pindex) ;;
  let nExpectedMint := GetBlockValue (networkID node) ps prev.1.2 in
  let nExpectedMint :=
    if negb (block_IsProofOfStake block) || match networkID node with MAIN => false | _ => true end
       || (SOFT_FORK_VERSION_110 <=? chain_Height node)
    then s64 (nExpectedMint + t_nFees t) else nExpectedMint in
  guard IsBlockValueValid node (hashPrevBlock (header block)) nExpectedMint nMint
    orelse reject_DoS 100 REJECT_INVALID "bad-cb-amount" ;;
  guard negb (fScriptChecks && negb (nScriptCheckThreads node =? 0)) || forallb (run_check lib) (t_checks t)
    orelse reject_DoS 100 0 "" ;;
  _ <-- (if fJustCheck then mret tt
         else h <-- stop_if_none (pi_hash pindex) ;; view_op (fun c => (SetBestBlock c h, tt))) ;;
  mret (Some {| nMoneySupply_set := nMoneySupply; nMint_set := nMint; blockundo := t_vtxundo t |}).

(** * Disconnecting a block *)

(** The outputs of a transaction: compared with those of the block, then removed. *)
Definition remove_outputs (tx : CTransaction) (nHeight : Z) (outs : CCoins) : CCoins * bool :=
  let outs := ClearUnspendable outs in
  let outsBlock := FromTx tx nHeight in
  let outs :=
    if c_nVersion outsBlock <? 0
    then {| fCoinBase := fCoinBase outs; fCoinStake := fCoinStake outs; c_vout := c_vout outs;
            c_nHeight := c_nHeight outs; c_nVersion := c_nVersion outsBlock |}
    else outs in
  (empty_coins, coins_eq outs outsBlock).

(** [vout.resize(n)] when the vector is shorter. *)
Definition grow (n : Z) (v : list CTxOut) : list CTxOut :=
  if Z.of_nat (length v) <? n then v ++ replicate (Z.to_nat n - length v) null_txout else v.

(** An input: its output is put back; the metadata too if it was the last one.  The
    result is [None] for a write past the end of the vector. *)
Definition restore_input (out : COutPoint) (undo : CTxInUndo) (coins : CCoins) : CCoins * option bool :=
  let '(coins, clean) :=
    if negb (u_nHeight undo =? 0) then
      ({| fCoinBase := u_fCoinBase undo; fCoinStake := false; c_vout := [];
          c_nHeight := u_nHeight undo; c_nVersion := u_nVersion undo |}, IsPruned coins)
    else (coins, negb (IsPruned coins)) in
  let clean := if IsAvailable coins (out_n out) then false else clean in
  let vout := grow (u32 (out_n out + 1)) (c_vout coins) in
  (set_vout coins (<[Z.to_nat (out_n out) := u_txout undo]> vout),
   if (Z.to_nat (out_n out) <? length vout)%nat then Some clean else None).

(** The inputs, the last one first. *)
Fixpoint restore_inputs (ins : list (COutPoint * CTxInUndo)) (fClean : bool) : M V bool :=
  match ins with
  | [] => mret fClean
  | (out, undo) :: ins =>
      r <-- view_op (fun c => ModifyCoins c (out_hash out) (restore_input out undo)) ;;
      clean <-- stop_if_none r ;;
      restore_inputs ins (fClean && clean)
  end.

Definition disconnect_tx (nHeight : Z) (tx : CTransaction) (txundo : option (list CTxInUndo)) (fClean : bool) : M V bool :=
  clean <-- view_op (fun c => ModifyCoins c (tx_GetHash tx) (remove_outputs tx nHeight)) ;;
  let fClean := fClean && clean in
  if negb (IsCoinBase tx) then
    txundo <-- stop_if_none txundo ;;
    guard (length txundo =? length (vin tx))%nat orelse reject_error ;;
    restore_inputs (rev (combine (map prevout (vin tx)) txundo)) fClean
  else mret fClean.

(** The transactions with their undo data ([None] for the first), the last one first. *)
Fixpoint disconnect_txs (nHeight : Z) (txs : list (CTransaction * option (list CTxInUndo))) (fClean : bool) : M V bool :=
  match txs with
  | [] => mret fClean
  | (tx, txundo) :: txs =>
      fClean <-- disconnect_tx nHeight tx txundo fClean ;;
      disconnect_txs nHeight txs fClean
  end.

(** [DisconnectBlock]: its result is [fClean]; [undo] is what was read from disk. *)
Definition DisconnectBlock (block : CBlock) (hash hashPrev : uint256) (nHeight : Z) (undo : option (list (list CTxInUndo))) : M V bool :=
  best <-- view_op GetBestBlock ;;
  guard eq hash best orelse stop ;;
  match undo with
  | None => reject_error
  | Some vtxundo =>
      guard (length vtxundo + 1 =? length (vtx block))%nat orelse reject_error ;;
      fClean <-- disconnect_txs nHeight (rev (combine (vtx block) (None :: map Some vtxundo))) true ;;
      _ <-- view_op (fun c => (SetBestBlock c hashPrev, tt)) ;;
      mret fClean
  end.
End Connect.

(** * Spending an output and putting it back *)

Lemma cleanup_incl v o : o ∈ reverse (pop_null (reverse v)) -> o ∈ v.
Proof. destruct (cleanup_split v) as (l & E & _). intros Hx. rewrite E. apply elem_of_app. by left. Qed.

Lemma cleanup_Forall (P : CTxOut -> Prop) v : Forall P v -> Forall P (reverse (pop_null (reverse v))).
Proof.
  rewrite !Forall_forall. intros H x Hx. by apply H, cleanup_incl.
Qed.

Lemma cleanup_length v : (length (reverse (pop_null (reverse v))) <= length v)%nat.
Proof. destruct (cleanup_split v) as (l & E & _). rewrite E at 2. rewrite length_app. lia. Qed.

Lemma Cleanup_wf c :
  Forall wf_out (c_vout c) -> Z.of_nat (length (c_vout c)) < 2 ^ 28 -> 0 <= c_nHeight c < 2 ^ 31 -> 0 <= c_nVersion c < 2 ^ 31 ->
  wf_coins (Cleanup c).
Proof.
  intros Ho Hl Hh Hv. split; [by apply cleanup_Forall|apply Cleanup_idem| |done|done].
  cbn. pose proof (cleanup_length (c_vout c)). lia.
Qed.

Lemma null_wf_out o : wf_out o -> txout_IsNull o = true -> o = null_txout.
Proof. unfold wf_out. intros W E. by rewrite E in W. Qed.

Lemma nulls_replicate l : Forall wf_out l -> Forall (fun o => txout_IsNull o = true) l -> l = replicate (length l) null_txout.
Proof.
  induction l as [|o l IH]; [done|]. rewrite !Forall_cons. intros [Wo Wl] [No Nl]. cbn. f_equal; [by apply null_wf_out|auto].
Qed.

(** The vector grown back after the spent outputs at its end were dropped. *)
Lemma grow_spent v n o (w := <[n := null_txout]> v) :
  Forall wf_out v -> reverse (pop_null (reverse v)) = v -> v !! n = Some o -> txout_IsNull o = false ->
  grow (Z.of_nat n + 1) (reverse (pop_null (reverse w))) = w.
Proof.
  intros Wv Hc Hn No. destruct (cleanup_split w) as (l & E & Nl). set (v' := reverse (pop_null (reverse w))) in *.
  pose proof (lookup_lt_Some _ _ _ Hn) as Ln.
  assert (Lw : length w = length v) by apply length_insert.
  assert (Wl : Forall wf_out l).
  { assert (Forall wf_out w) as Ww by (apply Forall_insert; [done|]; done). rewrite E in Ww. by apply Forall_app in Ww as []. }
  pose proof (nulls_replicate l Wl Nl) as El.
  assert (Hl : l <> [] -> n = (length v - 1)%nat).
  { intros Hne. destruct (decide (n = (length v - 1)%nat)) as [|D]; [done|exfalso].
    pose proof (cleaned_last v ltac:(by intros ->) Hc) as A. unfold avail in A.
    assert (X : v !! (length v - 1)%nat = l !! (length l - 1)%nat).
    { rewrite <- (list_lookup_insert_ne v n (length v - 1) null_txout) by done. fold w. rewrite E.
      rewrite <- Lw, E, length_app in *. assert (length l <> 0%nat) by (by destruct l).
      rewrite lookup_app_r by lia. f_equal. lia. }
    rewrite X in A. case_match eqn:L; [|done]. eapply Forall_lookup_1 in L; [|exact Nl]. by rewrite L in A. }
  rewrite E, El. apply (f_equal length) in E. rewrite length_app, Lw in E. unfold grow.
  destruct (Z.ltb_spec (Z.of_nat (length v')) (Z.of_nat n + 1)).
  - do 2 f_equal. destruct (decide (l = [])) as [->|D]; [cbn in *; lia|]. specialize (Hl D). lia.
  - assert (l = []) as ->; [|by rewrite app_nil_r]. destruct l as [|x l]; [done|]. specialize (Hl ltac:(done)). cbn in E. lia.
Qed.

Lemma Spend_inv cs out cs' u :
  Spend cs out = Some (cs', u) ->
  exists o, c_vout cs !! Z.to_nat (out_n out) = Some o /\ txout_IsNull o = false /\
    cs' = Cleanup (set_vout cs (<[Z.to_nat (out_n out) := null_txout]> (c_vout cs))) /\
    u = if (length (c_vout cs') =? 0)%nat then
          {| u_txout := o; u_nHeight := c_nHeight cs; u_fCoinBase := fCoinBase cs; u_fCoinStake := fCoinStake cs; u_nVersion := c_nVersion cs |}
        else {| u_txout := o; u_nHeight := 0; u_fCoinBase := false; u_fCoinStake := false; u_nVersion := 0 |}.
Proof. unfold Spend. case_match; [|done]. destruct (txout_IsNull _) eqn:N; [done|]. intros [= <- <-]. eauto. Qed.

Lemma Spend_wf cs out cs' u : wf_coins cs -> Spend cs out = Some (cs', u) -> wf_coins cs'.
Proof.
  intros [Wo Wc Wl Wh Wv] (o & L & N & -> & _)%Spend_inv. apply Cleanup_wf; cbn; try done.
  - by apply Forall_insert.
  - by rewrite length_insert.
Qed.

(** What was spent was there. *)
Lemma Spend_unpruned cs out cs' u : Spend cs out = Some (cs', u) -> IsPruned cs = false.
Proof.
  intros (o & L & N & _)%Spend_inv. unfold IsPruned. destruct (forallb _ _) eqn:F; [|done].
  rewrite forallb_forall in F. apply list_elem_of_lookup_2, list_elem_of_In, F in L. congruence.
Qed.

Definition forget_stake (cs : CCoins) : CCoins :=
  {| fCoinBase := fCoinBase cs; fCoinStake := false; c_vout := c_vout cs; c_nHeight := c_nHeight cs; c_nVersion := c_nVersion cs |}.

(** [restore_input] after [Spend] gives the coins back; those spent completely have lost
    the mark of a coinstake. *)
Lemma Spend_restore cs out cs' u ds :
  wf_coins cs -> word 32 (out_n out) -> 0 < c_nHeight cs -> Spend cs out = Some (cs', u) -> norm ds = norm cs' ->
  restore_input out u ds = (if IsPruned cs' then forget_stake cs else cs, Some true).
Proof.
  intros W Hw Hh HS Hn. pose proof (Spend_wf _ _ _ _ W HS) as W'. destruct W as [Wo Wc Wl _ _].
  apply Spend_inv in HS as (o & L & N & -> & ->). set (n := Z.to_nat (out_n out)) in *.
  pose proof (lookup_lt_Some _ _ _ L) as Ln. pose proof (wf_clean_vout _ Wc) as Wcv.
  set (cs' := Cleanup (set_vout cs _)) in *.
  assert (G : grow (Z.of_nat n + 1) (c_vout cs') = <[n := null_txout]> (c_vout cs)) by exact (grow_spent _ n o Wo Wcv L N).
  assert (Hu : u32 (out_n out + 1) = Z.of_nat n + 1).
  { unfold word in Hw. unfold n in *. rewrite Z2Nat.id by lia. apply u32_small. wunfold. lia. }
  assert (I : <[n := o]> (<[n := null_txout]> (c_vout cs)) = c_vout cs) by (rewrite list_insert_insert_eq; by apply list_insert_id).
  assert (B : (n <? length (<[n := null_txout]> (c_vout cs)))%nat = true) by (apply Nat.ltb_lt; by rewrite length_insert).
  rewrite (cleaned_pruned cs' (wf_clean _ W')). unfold restore_input. fold n. rewrite Hu.
  destruct (length (c_vout cs') =? 0)%nat eqn:E; cbn [u_nHeight u_fCoinBase u_nVersion u_txout].
  - assert (c_vout cs' = []) as E' by (by destruct (c_vout cs')). rewrite E' in G.
    destruct (Z.eqb_spec (c_nHeight cs) 0); [lia|]. cbn [negb c_vout].
    assert (P : IsPruned ds = true).
    { apply norm_empty. rewrite Hn. apply norm_pruned. rewrite (cleaned_pruned cs' (wf_clean _ W')). by rewrite E'. }
    rewrite P, G, I, B. unfold IsAvailable. cbn [c_vout]. by rewrite lookup_nil.
  - assert (P : IsPruned cs' = false) by (by rewrite (cleaned_pruned cs' (wf_clean _ W'))).
    assert (ds = cs') as ->.
    { assert (Pd : IsPruned ds = false) by (by rewrite <- IsPruned_norm, Hn, IsPruned_norm). unfold norm in Hn. by rewrite P, Pd in Hn. }
    assert (A : IsAvailable cs' (out_n out) = false).
    { unfold cs'. rewrite IsAvailable_Cleanup, IsAvailable_avail. cbn [set_vout c_vout]. unfold avail.
      by rewrite list_lookup_insert_eq. }
    cbn [Z.eqb negb]. rewrite P, A, G, I, B. by destruct cs.
Qed.

(** * The outputs of a transaction *)

(** The ranges the fields of a transaction have when it passed the earlier checks. *)
Record wf_tx (tx : CTransaction) : Prop := {
  wt_vin : Forall wf_in (vin tx);
  wt_vout : Forall dom_txout (vout tx);
  wt_length : Z.of_nat (length (vout tx)) < 2 ^ 28;
  wt_version : 0 <= tx_nVersion tx < 2 ^ 31
}.

Definition drop_unspendable (o : CTxOut) : CTxOut := if IsUnspendable (scriptPubKey o) then null_txout else o.

Lemma drop_unspendable_idem o : drop_unspendable (drop_unspendable o) = drop_unspendable o.
Proof. unfold drop_unspendable. destruct (IsUnspendable (scriptPubKey o)) eqn:E; [done|by rewrite E]. Qed.

Lemma dom_txout_wf o : dom_txout o -> wf_out o.
Proof. intros D. unfold wf_out, txout_IsNull. destruct D as [D ?]. destruct (Z.eqb_spec (nValue o) (-1)); [lia|done]. Qed.

Lemma ClearUnspendable_idem c : ClearUnspendable (ClearUnspendable c) = ClearUnspendable c.
Proof.
  unfold ClearUnspendable. fold drop_unspendable. set (v := map drop_unspendable (c_vout c)).
  assert (F : Forall (fun o => drop_unspendable o = o) v).
  { unfold v. rewrite Forall_map. apply Forall_forall. intros o _. apply drop_unspendable_idem. }
  assert (E : map drop_unspendable (c_vout (Cleanup (set_vout c v))) = c_vout (Cleanup (set_vout c v))).
  { cbn [Cleanup set_vout c_vout]. apply cleanup_Forall in F. revert F. generalize (reverse (pop_null (reverse v))).
    intros l. induction 1 as [|o l Ho _ IH]; cbn; [done|by rewrite Ho, IH]. }
  rewrite E. unfold set_vout at 1. cbn. rewrite <- (Cleanup_idem (set_vout c v)). by unfold Cleanup, set_vout; cbn.
Qed.

Lemma ClearUnspendable_pruned c : IsPruned c = true -> norm (ClearUnspendable c) = empty_coins.
Proof.
  intros P. apply norm_pruned. unfold IsPruned in *. rewrite forallb_forall in *. intros o Ho.
  apply list_elem_of_In, cleanup_incl, list_elem_of_fmap in Ho as (o' & -> & Ho).
  case_if; [done|]. by apply P, list_elem_of_In.
Qed.

Lemma FromTx_wf tx h : wf_tx tx -> 0 <= h < 2 ^ 31 -> wf_coins (FromTx tx h).
Proof.
  intros [_ Wo Wl Wv] Hh. apply Cleanup_wf; cbn; try done; [|by rewrite length_map].
  apply Forall_map. eapply Forall_impl; [exact Wo|]. intros o Ho. cbn. case_if; [done|by apply dom_txout_wf].
Qed.

(** Coins that mean the outputs of the transaction are found to be them, and removed. *)
Lemma remove_outputs_clean tx h ds :
  0 <= tx_nVersion tx -> norm ds = norm (FromTx tx h) -> remove_outputs tx h ds = (empty_coins, true).
Proof.
  intros Hv Hn. unfold remove_outputs. cbv zeta. change (c_nVersion (FromTx tx h)) with (tx_nVersion tx).
  destruct (Z.ltb_spec (tx_nVersion tx) 0); [lia|]. f_equal. apply coins_eq_norm.
  destruct (IsPruned (FromTx tx h)) eqn:P.
  - rewrite (norm_pruned _ P) in Hn |- *. by apply ClearUnspendable_pruned, norm_empty.
  - assert (ds = FromTx tx h) as ->; [|by unfold FromTx; rewrite ClearUnspendable_idem].
    assert (Pd : IsPruned ds = false) by (by rewrite <- IsPruned_norm, Hn, IsPruned_norm).
    unfold norm in Hn. by rewrite P, Pd in Hn.
Qed.

(** * Connecting and disconnecting *)

Section Undo.
Context {V : Type} `{CCoinsViewLaws V}.
Abbreviation cache := (CCoinsViewCache V).

(** Two caches that stand for the same unspent outputs, of whichever block. *)
Definition same_meaning (c d : cache) : Prop := forall k, wf256 k -> cache_content d k = cache_content c k.

#[export] Instance same_meaning_equiv : Equivalence same_meaning.
Proof.
  split; [done|intros a b E k Hk; by rewrite E|]. intros a b c E F k Hk. by rewrite F, E.
Qed.

Lemma same_cache_meaning (c d : cache) : same_cache c d -> same_meaning c d.
Proof. by intros (_ & _ & ? & _). Qed.

(** The heights kept with unspent outputs are positive: a height of zero in the undo
    data says that something of the transaction is left. *)
Definition heights (c : cache) : Prop :=
  forall k, wf256 k -> IsPruned (cache_content c k) = false -> 0 < c_nHeight (cache_content c k).

Lemma heights_same (c d : cache) : same_meaning c d -> heights c -> heights d.
Proof. intros E Hh k Hk. rewrite E by done. auto. Qed.

(** A cache that differs from another at one key. *)
Definition changed (c : cache) (k : uint256) (cs : CCoins) (c' : cache) : Prop :=
  cache_inv c' /\ cache_best c' = cache_best c /\
  forall k', wf256 k' -> cache_content c' k' = if bool_decide (k' = k) then cs else cache_content c k'.

(** Taking back the change of one key. *)
Lemma changed_back (c c' d d' : cache) k cs :
  wf256 k -> changed c k cs c' -> same_meaning c' d -> changed d k (cache_content c k) d' -> same_meaning c d'.
Proof.
  intros Hk (_ & _ & C1) C2 (_ & _ & C3) k' Hk'. rewrite C3 by done.
  case_bool_decide as D; [by subst|]. by rewrite C2, C1, bool_decide_eq_false_2.
Qed.

Lemma spend_with_spec (c c1 : cache) out r :
  cache_inv c -> wf256 (out_hash out) -> ModifyCoins c (out_hash out) (spend_with out) = (c1, r) ->
  forall u, r = Some u ->
  exists cs', Spend (cache_content c (out_hash out)) out = Some (cs', u) /\ wf_coins (cache_content c (out_hash out)) /\
    IsPruned (cache_content c (out_hash out)) = false /\ changed c (out_hash out) (norm cs') c1.
Proof.
  intros I Hk E u ->. destruct (ModifyCoins_spec _ _ _ _ _ I Hk E) as (cs & W & N & R & M).
  unfold spend_with in R, M. destruct (Spend cs out) as [[cs' u']|] eqn:HS; [|done]. apply Some_inj in R as ->.
  pose proof (Spend_unpruned _ _ _ _ HS) as P. assert (cs = cache_content c (out_hash out)) as ->.
  { rewrite <- N. unfold norm. by rewrite P. }
  exists cs'. pose proof (Spend_wf _ _ _ _ W HS) as W'. cbn [fst] in M. rewrite (wf_clean _ W') in M.
  by split_and!; [..|apply M].
Qed.

Lemma restore_inputs_app l1 l2 b : forall (c : cache) st,
  restore_inputs (l1 ++ l2) b c st = bind (restore_inputs l1 b) (fun b => restore_inputs l2 b) c st.
Proof.
  revert b. induction l1 as [|[out u] l1 IH]; intros b c st; [done|]. cbn [app restore_inputs].
  unfold bind, view_op. destruct (ModifyCoins c (out_hash out) (restore_input out u)) as [c1 r].
  destruct r as [clean|]; cbn [stop_if_none mret]; [|done]. apply IH.
Qed.

(** One input put back. *)
Lemma restore_one (c c1 d : cache) out cs' u st b :
  cache_inv d -> wf256 (out_hash out) -> word 32 (out_n out) -> heights c ->
  Spend (cache_content c (out_hash out)) out = Some (cs', u) -> wf_coins (cache_content c (out_hash out)) ->
  u_fCoinStake u = false -> changed c (out_hash out) (norm cs') c1 -> same_meaning c1 d ->
  exists d', restore_inputs [(out, u)] b d st = Done d' st b /\ cache_inv d' /\ same_meaning c d'.
Proof.
  intros Id Hk Hw Hh HS W Hu Hc Hd. cbn [restore_inputs].
  destruct (ModifyCoins d (out_hash out) (restore_input out u)) as [d' r] eqn:E.
  rewrite (bind_view_op _ _ _ _ _ _ E). destruct (ModifyCoins_spec _ _ _ _ _ Id Hk E) as (ds & Wd & N & -> & M).
  pose proof (Spend_unpruned _ _ _ _ HS) as P.
  assert (R : restore_input out u ds = (cache_content c (out_hash out), Some true)).
  { rewrite (Spend_restore _ _ _ _ ds W Hw (Hh _ Hk P) HS).
    - case_if; [|done]. f_equal. apply Spend_inv in HS as (o & _ & _ & Ec & Eu). rewrite Eu in Hu.
      rewrite (cleaned_pruned cs') in E0 by (rewrite Ec; apply Cleanup_idem). rewrite E0 in Hu. cbn in Hu.
      unfold forget_stake. rewrite <- Hu. by destruct (cache_content c (out_hash out)).
    - rewrite N. destruct Hc as (_ & _ & Hc). rewrite Hd, Hc by done. by rewrite bool_decide_eq_true_2. }
  rewrite R in M |- *. cbn [fst snd stop_if_none] in M |- *. rewrite bind_mret. cbn [restore_inputs]. rewrite andb_true_r.
  rewrite (wf_clean _ W) in M. destruct (M W) as (M1 & M2 & M3). exists d'. split; [done|]. split; [done|].
  apply (changed_back c c1 d d' (out_hash out) (norm cs')); [done..|]. split_and!; [done|done|].
  intros k' Hk'. rewrite M3 by done. case_bool_decide; [|done]. unfold norm. by rewrite P.
Qed.

(** What a change made by connecting keeps: the keys in [ks] apart, nothing appears. *)
Record keeps (ks : list uint256) (c c' : cache) : Prop := {
  kp_inv : cache_inv c';
  kp_heights : heights c';
  kp_best : cache_best c' = cache_best c;
  kp_empty k : wf256 k -> k ∉ ks -> cache_content c k = empty_coins -> cache_content c' k = empty_coins
}.

Lemma keeps_trans k1 k2 a b c : keeps k1 a b -> keeps k2 b c -> keeps (k1 ++ k2) a c.
Proof.
  intros [I1 Ha B1 E1] [I2 Hb B2 E2]. split; [done|done|congruence|]. intros k Hk Hn Hc.
  apply not_elem_of_app in Hn as [? ?]. auto.
Qed.

Lemma changed_heights (c c' : cache) k cs :
  wf256 k -> heights c -> changed c k (norm cs) c' -> 0 < c_nHeight cs -> heights c'.
Proof.
  intros Hk Hh (_ & _ & C) Hp k' Hk'. rewrite C by done. case_bool_decide; [|by apply Hh].
  rewrite IsPruned_norm. unfold norm. by intros ->.
Qed.

Definition no_stake (us : list CTxInUndo) : Prop := Forall (fun u => u_fCoinStake u = false) us.

Lemma spend_inputs_undo ins : forall (c : cache) st c' st' us,
  cache_inv c -> Forall wf_in ins -> heights c -> spend_inputs ins c st = Done c' st' us ->
  length us = length ins /\ st' = st /\ keeps [] c c' /\
  (no_stake us -> forall d std b, cache_inv d -> same_meaning c' d ->
     exists d', restore_inputs (rev (combine (map prevout ins) us)) b d std = Done d' std b /\ cache_inv d' /\ same_meaning c d').
Proof.
  induction ins as [|i ins IH]; intros c st c' st' us I W Hh E.
  { injection E as <- <- <-. split_and!; try done. intros _ d std b Id Hd. by exists d. }
  apply Forall_cons in W as [[Wk Wn] W]. cbn [spend_inputs] in E.
  destruct (ModifyCoins c (out_hash (prevout i)) (spend_with (prevout i))) as [c1 r] eqn:M.
  rewrite (bind_view_op _ _ _ _ _ _ M) in E. destruct r as [u|]; [|done]. cbn [stop_if_none] in E. rewrite bind_mret in E.
  apply bind_Done in E as (c2 & st2 & us' & E & E'). injection E' as <- <- <-.
  destruct (spend_with_spec _ _ _ _ I Wk M u eq_refl) as (cs' & HS & Wc & P & C).
  assert (Hh1 : heights c1).
  { apply (changed_heights c c1 (out_hash (prevout i)) cs'); [done..|]. apply Spend_inv in HS as (o & _ & _ & -> & _). by apply Hh. }
  destruct (IH _ _ _ _ _ (proj1 C) W Hh1 E) as (L & -> & K & R). split_and!; [by cbn; rewrite L|done| |].
  - apply (keeps_trans [] [] c c1); [|done]. split; [apply C|done|apply C|]. intros k Hk _ Ek. destruct C as (_ & _ & C).
    rewrite C by done. case_bool_decide as D; [|done]. subst k. by rewrite Ek in P.
  - intros [Hu Hus]%Forall_cons d std b Id Hd. cbn [map combine rev]. setoid_rewrite restore_inputs_app.
    destruct (R Hus d std b Id Hd) as (d1 & E1 & Id1 & Hd1).
    destruct (restore_one c c1 d1 (prevout i) cs' u std b Id1 Wk Wn Hh HS Wc Hu C Hd1) as (d2 & E2 & Id2 & Hd2).
    exists d2. split; [|done]. by rewrite (bind_Done_eq _ _ _ _ _ _ _ E1).
Qed.

(** The outputs added under a fresh key and removed again. *)
Lemma add_outputs_undo (c c1 : cache) tx h :
  cache_inv c -> wf_tx tx -> 0 < h < 2 ^ 31 -> heights c -> cache_content c (tx_GetHash tx) = empty_coins ->
  ModifyCoins c (tx_GetHash tx) (fun _ => (FromTx tx h, tt)) = (c1, tt) ->
  keeps [tx_GetHash tx] c c1 /\
  forall d d' r, cache_inv d -> same_meaning c1 d -> ModifyCoins d (tx_GetHash tx) (remove_outputs tx h) = (d', r) ->
    r = true /\ cache_inv d' /\ same_meaning c d'.
Proof.
  intros I W Hr Hh Hf E. pose proof (tx_GetHash_wf tx) as Hk. revert Hk Hf E. generalize (tx_GetHash tx). intros k Hk Hf E.
  pose proof (FromTx_wf tx h W ltac:(lia)) as Wf. destruct (ModifyCoins_spec _ _ _ _ _ I Hk E) as (cs & _ & _ & _ & M).
  cbn [fst] in M. rewrite (wf_clean _ Wf) in M. assert (C : changed c k (norm (FromTx tx h)) c1) by by apply M.
  split.
  - split; [apply C|by apply (changed_heights c c1 k (FromTx tx h)); cbn; [..|lia]|apply C|].
    intros k' Hk' Hn Ek. destruct C as (_ & _ & C). rewrite C by done. rewrite bool_decide_eq_false_2; [done|].
    intros ->. by apply Hn, list_elem_of_singleton.
  - intros d d' r Id Hd Ed. destruct (ModifyCoins_spec _ _ _ _ _ Id Hk Ed) as (ds & _ & N & -> & Md).
    assert (R : remove_outputs tx h ds = (empty_coins, true)).
    { apply remove_outputs_clean; [apply W|]. rewrite N. destruct C as (_ & _ & C).
      rewrite Hd, C by done. by rewrite bool_decide_eq_true_2. }
    rewrite R in Md |- *. cbn [fst snd] in Md |- *. destruct (Md wf_empty_coins) as (M1 & M2 & M3).
    split; [done|]. split; [done|]. apply (changed_back c c1 d d' k (norm (FromTx tx h))); [done..|]. rewrite Hf. by split_and!.
Qed.

Lemma UpdateCoins_undo tx h (c : cache) st c' st' us :
  cache_inv c -> wf_tx tx -> 0 < h < 2 ^ 31 -> heights c -> cache_content c (tx_GetHash tx) = empty_coins ->
  UpdateCoins tx h c st = Done c' st' us ->
  st' = st /\ keeps [tx_GetHash tx] c c' /\
  (no_stake us -> forall d std b ou, cache_inv d -> same_meaning c' d -> (IsCoinBase tx = false -> ou = Some us) ->
     exists d', disconnect_tx h tx ou b d std = Done d' std b /\ cache_inv d' /\ same_meaning c d').
Proof.
  intros I W Hr Hh Hf E. unfold UpdateCoins in E. apply bind_Done in E as (c1 & st1 & us1 & E1 & E2).
  destruct (ModifyCoins c1 (tx_GetHash tx) (fun _ => (FromTx tx h, tt))) as [c2 []] eqn:M.
  rewrite (bind_view_op _ _ _ _ _ _ M) in E2. injection E2 as <- <- <-.
  assert (S : st1 = st /\ keeps [] c c1 /\
    (no_stake us1 -> forall d std b ou, cache_inv d -> same_meaning c1 d -> (IsCoinBase tx = false -> ou = Some us1) ->
     exists d', (if negb (IsCoinBase tx) then
        bind (stop_if_none ou) (fun txundo =>
        if (length txundo =? length (vin tx))%nat then restore_inputs (rev (combine (map prevout (vin tx)) txundo)) b else reject_error)
      else mret b) d std = Done d' std b /\ cache_inv d' /\ same_meaning c d')).
  { destruct (IsCoinBase tx); cbn [negb] in E1 |- *.
    - injection E1 as <- <- <-. split_and!; [done|by split; auto|]. intros _ d std b ou Id Hd _. by exists d.
    - destruct (spend_inputs_undo _ _ _ _ _ _ I (wt_vin _ W) Hh E1) as (L & -> & K & R). split_and!; [done|done|].
      intros Hus d std b ou Id Hd Ho. rewrite (Ho eq_refl). cbn [stop_if_none]. rewrite bind_mret.
      rewrite L, Nat.eqb_refl. by apply R. }
  destruct S as (-> & K & R).
  assert (Hf1 : cache_content c1 (tx_GetHash tx) = empty_coins).
  { apply K; [apply tx_GetHash_wf|by apply not_elem_of_nil|done]. }
  destruct (add_outputs_undo c1 c2 tx h (kp_inv _ _ _ K) W Hr (kp_heights _ _ _ K) Hf1 M) as [K2 R2].
  split_and!; [done|by apply (keeps_trans [] _ c c1)|]. intros Hus d std b ou Id Hd Ho. unfold disconnect_tx.
  destruct (ModifyCoins d (tx_GetHash tx) (remove_outputs tx h)) as [d1 r] eqn:Ed.
  destruct (R2 d d1 r Id Hd Ed) as (-> & Id1 & Hd1). setoid_rewrite (bind_view_op _ _ _ _ _ _ Ed).
  rewrite andb_true_r. by apply R.
Qed.
End Undo.

(** ** Blocks *)

Section Blocks.
Context {V : Type} `{CCoinsViewLaws V} (lib : secp256k1) (ps : CChainParams).
Abbreviation cache := (CCoinsViewCache V).
Context (Hm : 0 <= MaxMoneyOut ps < 2 ^ 62).

Lemma p2sh_sigops_loop_reads ins : Forall wf_in ins -> forall n, reads (V := V) (p2sh_sigops_loop ins n).
Proof.
  induction 1 as [|i ins Wi _ IH]; intros n; cbn [p2sh_sigops_loop]; [apply reads_mret|].
  apply reads_bind; [apply reads_view_op; intros c c' a I E; by apply GetOutputFor_same in E|].
  intros o. apply reads_bind; [apply reads_stop_if_none|]. intros p. apply IH.
Qed.

Lemma check_inputs_or_checkpoint_reads node pindex tx fs :
  Forall wf_in (vin tx) -> IsCoinBase tx = false -> reads (V := V) (check_inputs_or_checkpoint lib ps node pindex tx fs).
Proof.
  intros W NB c st I. unfold check_inputs_or_checkpoint.
  pose proof (CheckInputs_spec lib ps (block_heights node) tx fs (Z.lor SCRIPT_VERIFY_P2SH SCRIPT_VERIFY_DERSIG)
    (negb (nScriptCheckThreads node =? 0)) NB W Hm c st I) as R. unfold CheckInputs_result in R.
  destruct (CheckInputs _ _ _ _ _ _ _ _ _); [apply R| |done].
  destruct (pi_hash pindex); [|done]. case_if; apply R.
Qed.

Lemma connect_inputs_reads node pindex tx fs t :
  Forall wf_in (vin tx) -> IsCoinBase tx = false -> reads (V := V) (connect_inputs lib ps node pindex tx fs t).
Proof.
  intros W NB. unfold connect_inputs.
  assert (Hv : reads (V := V) (view_op (fun c => GetValueIn c tx)))
    by (apply reads_view_op; intros c c' a I E; by apply GetValueIn_same in E).
  apply reads_bind; [apply reads_view_op; intros c c' a I E; by apply HaveInputs_spec in E as []|]. intros b.
  apply reads_guard; [|apply reads_reject_DoS]. apply reads_bind.
  { unfold GetP2SHSigOpCount. apply reads_guard; [apply reads_mret|by apply p2sh_sigops_loop_reads]. }
  intros p. apply reads_guard; [|apply reads_reject_DoS]. apply reads_bind.
  { apply reads_guard; auto 10 with reads. }
  intros f. apply reads_bind; [done|]. intros v. apply reads_bind; [auto with reads|]. intros x.
  apply reads_bind; [by apply check_inputs_or_checkpoint_reads|]. auto with reads.
Qed.

(** Steps through the binds of an action that is done. *)
Ltac inv_Done E :=
  lazymatch type of E with
  | bind _ _ _ _ = Done _ _ _ =>
      let c := fresh "c" in let st := fresh "st" in let a := fresh "a" in let E1 := fresh "E" in
      apply bind_Done in E as (c & st & a & E1 & E); inv_Done E
  | (if ?b then _ else _) _ _ = Done _ _ _ => let B := fresh "B" in tryif (destruct b eqn:B; [|discriminate E]) then inv_Done E else idtac
  | _ => idtac
  end.

Lemma connect_inputs_vtxundo node pindex tx fs t (c : cache) st c' st' t' :
  connect_inputs lib ps node pindex tx fs t c st = Done c' st' t' -> t_vtxundo t' = t_vtxundo t.
Proof. intros E. unfold connect_inputs in E. inv_Done E. by injection E as _ _ <-. Qed.

(** A transaction is connected by [UpdateCoins], after reading. *)
Lemma connect_tx_inv node pindex fs i tx t (c : cache) st c' st' t' :
  cache_inv c -> Forall wf_in (vin tx) -> connect_tx lib ps node pindex fs i tx t c st = Done c' st' t' ->
  exists c1 st1 us, same_cache c c1 /\ UpdateCoins tx (pi_nHeight pindex) c1 st1 = Done c' st' us /\
    t_vtxundo t' = if (0 <? i)%nat then t_vtxundo t ++ [us] else t_vtxundo t.
Proof.
  intros I W E. unfold connect_tx in E. cbv zeta in E. inv_Done E. injection E as <- <- <-.
  match goal with X : stop_if_none _ _ _ = Done _ _ _ |- _ => destruct (GetValueOut tx); [|done]; injection X as -> -> -> end.
  match goal with X : UpdateCoins _ _ ?c ?s = Done _ _ ?u |- _ => exists c, s, u; split; [|split; [exact X|]] end; cbn [t_vtxundo].
  - destruct (IsCoinBase tx) eqn:NB; cbn [negb] in E0; [injection E0 as <- <- <-; by apply same_cache_refl|].
    match type of E0 with connect_inputs _ _ _ _ _ _ ?t1 _ _ = _ =>
      pose proof (connect_inputs_reads node pindex tx fs t1 W NB c st I) as R end. by rewrite E0 in R.
  - assert (t_vtxundo a = t_vtxundo t) as ->; [|done]. destruct (IsCoinBase tx); cbn [negb] in E0.
    + by injection E0 as _ _ <-.
    + by apply connect_inputs_vtxundo in E0.
Qed.

(** The transactions with their undo data, as [DisconnectBlock] goes through them. *)
Definition undo_pairs (txs : list CTransaction) (uss : list (list CTxInUndo)) : list (CTransaction * option (list CTxInUndo)) :=
  rev (combine txs (map Some uss)).

Lemma disconnect_txs_app h l1 l2 b : forall (c : cache) st,
  disconnect_txs h (l1 ++ l2) b c st = bind (disconnect_txs h l1 b) (fun b => disconnect_txs h l2 b) c st.
Proof.
  revert b. induction l1 as [|[tx u] l1 IH]; intros b c st; [done|]. cbn [app disconnect_txs]. unfold bind.
  destruct (disconnect_tx h tx u b c st); [|done..]. apply IH.
Qed.

(** Transactions that may be connected: well formed, with new and different hashes. *)
Record fresh_txs (c : cache) (txs : list CTransaction) : Prop := {
  ft_wf : Forall wf_tx txs;
  ft_distinct : NoDup (map tx_GetHash txs);
  ft_new tx : tx ∈ txs -> cache_content c (tx_GetHash tx) = empty_coins
}.

Lemma fresh_txs_tail (c c' : cache) tx txs : keeps [tx_GetHash tx] c c' -> fresh_txs c (tx :: txs) -> fresh_txs c' txs.
Proof.
  intros K [W D N]. apply Forall_cons in W as [_ W]. rewrite map_cons in D. apply NoDup_cons in D as [Dn D]. split; [done|done|].
  intros tx' Ht. apply K; [apply tx_GetHash_wf| |apply N; by apply elem_of_cons; right].
  intros E%list_elem_of_singleton. apply Dn. rewrite <- E. apply list_elem_of_fmap. by exists tx'.
Qed.

(** One transaction connected, and how it is disconnected. *)
Lemma connect_tx_undo node pindex fs i tx txs t (c : cache) st c' st' t' :
  cache_inv c -> heights c -> 0 < pi_nHeight pindex < 2 ^ 31 -> fresh_txs c (tx :: txs) ->
  connect_tx lib ps node pindex fs i tx t c st = Done c' st' t' ->
  exists us, t_vtxundo t' = (if (0 <? i)%nat then t_vtxundo t ++ [us] else t_vtxundo t) /\
    keeps [tx_GetHash tx] c c' /\ (IsCoinBase tx = true -> us = []) /\
    (no_stake us -> forall d std b ou, cache_inv d -> same_meaning c' d -> (IsCoinBase tx = false -> ou = Some us) ->
       exists d', disconnect_tx (pi_nHeight pindex) tx ou b d std = Done d' std b /\ cache_inv d' /\ same_meaning c d').
Proof.
  intros I Hh Hr F E. pose proof (Forall_inv (ft_wf _ _ F)) as W.
  destruct (connect_tx_inv _ _ _ _ _ _ _ _ _ _ _ I (wt_vin _ W) E) as (c1 & st1 & us & S & U & T). exists us.
  pose proof (same_cache_meaning _ _ S) as Sm.
  assert (Hf : cache_content c1 (tx_GetHash tx) = empty_coins).
  { rewrite Sm by apply tx_GetHash_wf. apply (ft_new _ _ F). by apply elem_of_cons; left. }
  destruct (UpdateCoins_undo tx _ c1 st1 c' st' us (proj1 S) W Hr (heights_same _ _ Sm Hh) Hf U) as (_ & K & R).
  split; [done|]. split; [|split].
  - apply (keeps_trans [] _ c c1); [|done]. split; [apply S|by apply (heights_same c)|apply S|].
    intros k Hk _ Ek. by rewrite Sm.
  - intros NB. unfold UpdateCoins in U. rewrite NB in U. cbn [negb] in U. apply bind_Done in U as (? & ? & ? & U1 & U2).
    injection U1 as _ _ <-. apply bind_Done in U2 as (? & ? & ? & _ & U2). by injection U2 as _ _ <-.
  - intros Hu d std b ou Id Hd Ho. destruct (R Hu d std b ou Id Hd Ho) as (d' & E' & Id' & Hd').
    exists d'. split; [done|]. split; [done|]. by transitivity c1.
Qed.

Lemma connect_txs_undo node pindex fs txs : forall i t (c : cache) st c' st' t',
  (0 < i)%nat -> cache_inv c -> heights c -> 0 < pi_nHeight pindex < 2 ^ 31 -> fresh_txs c txs ->
  connect_txs lib ps node pindex fs i txs t c st = Done c' st' t' ->
  exists uss, t_vtxundo t' = t_vtxundo t ++ uss /\ length uss = length txs /\ cache_inv c' /\ cache_best c' = cache_best c /\
    (Forall no_stake uss -> forall d std b, cache_inv d -> same_meaning c' d ->
       exists d', disconnect_txs (pi_nHeight pindex) (undo_pairs txs uss) b d std = Done d' std b /\ cache_inv d' /\ same_meaning c d').
Proof.
  induction txs as [|tx txs IH]; intros i t c st c' st' t' Hi I Hh Hr F E.
  { injection E as <- <- <-. exists []. split_and!; [by rewrite app_nil_r|done..|]. intros _ d std b Id Hd. by exists d. }
  cbn [connect_txs] in E. apply bind_Done in E as (c1 & st1 & t1 & E1 & E2).
  destruct (connect_tx_undo _ _ _ _ _ _ _ _ _ _ _ _ I Hh Hr F E1) as (us & T1 & K & _ & R).
  apply Nat.ltb_lt in Hi as Hi'. rewrite Hi' in T1.
  destruct (IH (S i) t1 c1 st1 c' st' t' ltac:(lia) (kp_inv _ _ _ K) (kp_heights _ _ _ K) Hr (fresh_txs_tail _ _ _ _ K F) E2)
    as (uss & T2 & L & I' & B & R').
  exists (us :: uss). split_and!; [by rewrite T2, T1, <- app_assoc|by cbn; rewrite L|done|rewrite B; apply K|].
  intros [Hu Hus]%Forall_cons d std b Id Hd. unfold undo_pairs. cbn [map combine rev]. fold (undo_pairs txs uss).
  destruct (R' Hus d std b Id Hd) as (d1 & E1' & Id1 & Hd1).
  destruct (R Hu d1 std b (Some us) Id1 Hd1 ltac:(done)) as (d2 & E2' & Id2 & Hd2). exists d2. split; [|done].
  rewrite disconnect_txs_app, (bind_Done_eq _ _ _ _ _ _ _ E1'). cbn [disconnect_txs].
  by rewrite (bind_Done_eq _ _ _ _ _ _ _ E2').
Qed.

(** The loop over all the transactions, the first of which leaves no undo data. *)
Lemma connect_block_txs_undo node pindex fs cb txs t (c : cache) st c' st' t' :
  cache_inv c -> heights c -> 0 < pi_nHeight pindex < 2 ^ 31 -> IsCoinBase cb = true -> fresh_txs c (cb :: txs) ->
  t_vtxundo t = [] -> connect_txs lib ps node pindex fs 0 (cb :: txs) t c st = Done c' st' t' ->
  length (t_vtxundo t') = length txs /\ cache_inv c' /\ cache_best c' = cache_best c /\
  (Forall no_stake (t_vtxundo t') -> forall d std b, cache_inv d -> same_meaning c' d ->
     exists d', disconnect_txs (pi_nHeight pindex) (rev (combine (cb :: txs) (None :: map Some (t_vtxundo t')))) b d std = Done d' std b /\
       cache_inv d' /\ same_meaning c d').
Proof.
  intros I Hh Hr NB F T0 E. cbn [connect_txs] in E. apply bind_Done in E as (c1 & st1 & t1 & E1 & E2).
  destruct (connect_tx_undo _ _ _ _ _ _ _ _ _ _ _ _ I Hh Hr F E1) as (us & T1 & K & U & R). cbn [Nat.ltb Nat.leb] in T1.
  destruct (connect_txs_undo _ _ _ _ _ _ _ _ _ _ _ Nat.lt_0_1 (kp_inv _ _ _ K) (kp_heights _ _ _ K) Hr (fresh_txs_tail _ _ _ _ K F) E2)
    as (uss & T2 & L & I' & B & R'). rewrite T1, T0 in T2. cbn [app] in T2. rewrite T2.
  split_and!; [done|done|rewrite B; apply K|]. intros Hus d std b Id Hd. cbn [combine rev]. fold (undo_pairs txs uss).
  destruct (R' Hus d std b Id Hd) as (d1 & E1' & Id1 & Hd1).
  assert (Hu : no_stake us) by (rewrite (U NB); constructor).
  destruct (R Hu d1 std b None Id1 Hd1 ltac:(by rewrite NB)) as (d2 & E2' & Id2 & Hd2). exists d2. split; [|done].
  rewrite disconnect_txs_app, (bind_Done_eq _ _ _ _ _ _ _ E1'). cbn [disconnect_txs].
  by rewrite (bind_Done_eq _ _ _ _ _ _ _ E2').
Qed.

(** A block that was connected, up to the new best block. *)
Lemma ConnectBlock_inv node genesis hash block pindex hashPrev hp sp (c : cache) st c' st' r :
  cache_inv c -> pi_hash pindex = Some hash -> pi_pprev pindex = Some (hashPrev, hp, sp) ->
  ConnectBlock lib ps node genesis hash block pindex false c st = Done c' st' (Some r) ->
  cache_best c = hashPrev /\ exists fs c1 c2 st1 st2 t, same_cache c c1 /\
    connect_txs lib ps node pindex fs 0 (vtx block) no_totals c1 st1 = Done c2 st2 t /\
    c' = SetBestBlock c2 hash /\ blockundo r = t_vtxundo t.
Proof.
  intros I Ph Pp E. unfold ConnectBlock in E. cbv zeta in E. rewrite Ph, Pp in E. cbn [stop_if_none fst snd] in E.
  inv_Done E. destruct (eq hash genesis); [inv_Done E; discriminate E|]. inv_Done E.
  match goal with X : connect_txs _ _ _ _ _ _ _ _ ?c1 ?s1 = Done ?c2 ?s2 ?t |- _ => rename X into Et end.
  match goal with X : view_op GetBestBlock c st = Done ?c1 _ _ |- _ =>
    unfold view_op in X; destruct (GetBestBlock c) as [cb hb] eqn:G; injection X as <- <- <- end.
  destruct (cache_GetBestBlock_spec _ _ _ I G) as [S ->]. split.
  { match goal with X : eq _ _ = true |- _ => by apply bool_decide_eq_true_1 in X end. }
  repeat match goal with
  | X : mret _ _ _ = Done _ _ _ |- _ => injection X as <- <- <-
  end.
  eexists _, _, _, _, _, _. split; [exact S|]. split; [exact Et|].
  split; [by injection E4 as <- _ _|done].
Qed.

(** A block on the view's tip that may be connected: the index is complete, the heights of
    the unspent outputs are positive, the first transaction is the coinbase. *)
Record connectable (pindex : IndexView) (hash hashPrev : uint256) (block : CBlock) (c : cache) : Prop := {
  cn_hash : pi_hash pindex = Some hash;
  cn_hash_null : hash <> zero W256;
  cn_prev : exists hp sp, pi_pprev pindex = Some (hashPrev, hp, sp);
  cn_prev_null : hashPrev <> zero W256;
  cn_height : 0 < pi_nHeight pindex < 2 ^ 31;
  cn_coinbase : exists cb txs, vtx block = cb :: txs /\ IsCoinBase cb = true;
  cn_fresh : fresh_txs c (vtx block);
  cn_heights : heights c
}.

Lemma SetBestBlock_meaning (c : cache) h :
  cache_inv c -> h <> zero W256 -> cache_inv (SetBestBlock c h) /\ cache_best (SetBestBlock c h) = h /\
  forall k, cache_content (SetBestBlock c h) k = cache_content c k.
Proof.
  intros [] Hh. split; [by split|]. split; [|done]. unfold cache_best. cbn. by rewrite bool_decide_eq_false_2.
Qed.

Lemma disconnect_connected node genesis hash hashPrev block pindex (c : cache) st c' st' r :
  cache_inv c -> connectable pindex hash hashPrev block c ->
  ConnectBlock lib ps node genesis hash block pindex false c st = Done c' st' (Some r) ->
  Forall no_stake (blockundo r) ->
  exists d, DisconnectBlock block hash hashPrev (pi_nHeight pindex) (Some (blockundo r)) c' st' = Done d st' true /\
    cache_inv d /\ cache_best d = cache_best c /\ same_meaning c d.
Proof.
  intros I [Ph Hz (hp & sp & Pp) Hpz Hr (cb & txs & Ev & NB) F Hh] E Hu.
  destruct (ConnectBlock_inv _ _ _ _ _ _ _ _ _ _ _ _ _ I Ph Pp E) as (Bc & fs & c1 & c2 & st1 & st2 & t & S & Et & -> & Eu).
  rewrite Ev in *. pose proof (same_cache_meaning _ _ S) as Sm.
  assert (F1 : fresh_txs c1 (cb :: txs)).
  { destruct F as [W D N]. split; [done|done|]. intros tx Ht. rewrite Sm; [by apply N|apply tx_GetHash_wf]. }
  destruct (connect_block_txs_undo _ _ _ _ _ no_totals _ _ _ _ _ (proj1 S) (heights_same _ _ Sm Hh) Hr NB F1 eq_refl Et)
    as (L & I2 & B2 & R). rewrite Eu in *.
  destruct (SetBestBlock_meaning c2 hash I2 Hz) as (I3 & B3 & C3).
  unfold DisconnectBlock. destruct (GetBestBlock (SetBestBlock c2 hash)) as [d0 h0] eqn:G.
  rewrite (bind_view_op _ _ _ _ _ _ G). destruct (cache_GetBestBlock_spec _ _ _ I3 G) as [S0 ->]. rewrite B3.
  unfold eq at 1. rewrite bool_decide_eq_true_2 by done. rewrite Ev. cbn [length]. rewrite L, Nat.add_1_r, Nat.eqb_refl.
  assert (Hd0 : same_meaning c2 d0) by (intros k Hk; rewrite <- C3; by apply S0).
  destruct (R Hu d0 st' true (proj1 S0) Hd0) as (d1 & E1 & Id1 & Hd1). rewrite (bind_Done_eq _ _ _ _ _ _ _ E1).
  destruct (SetBestBlock_meaning d1 hashPrev Id1 Hpz) as (I4 & B4 & C4). exists (SetBestBlock d1 hashPrev).
  split; [done|]. split; [done|]. split; [congruence|]. intros k Hk. rewrite C4, Hd1 by done. by apply Sm.
Qed.
End Blocks.

(** C3 [DisconnectBlock] undoes [ConnectBlock]: a block that was connected to a view, with
    whatever it spends and however the transactions in it depend on one another, is
    disconnected with the undo data that connecting it produced, cleanly, and the view then
    holds the unspent outputs and the best block it held before, output for output.  It
    asks that no undo record is of a coinstake spent completely (see
    [disconnect_forgets_coinstake]), that the hashes of the transactions are new, and that
    the first transaction is the coinbase, the only one without undo data. *)
Theorem disconnect_undoes_connect {V} `{CCoinsViewLaws V} lib ps node genesis hash hashPrev block pindex
    (c : CCoinsViewCache V) st c' st' r :
  0 <= MaxMoneyOut ps < 2 ^ 62 -> cache_inv c -> connectable pindex hash hashPrev block c ->
  ConnectBlock lib ps node genesis hash block pindex false c st = Done c' st' (Some r) ->
  Forall no_stake (blockundo r) ->
  exists d, DisconnectBlock block hash hashPrev (pi_nHeight pindex) (Some (blockundo r)) c' st' = Done d st' true /\
    cache_inv d /\ cache_best d = cache_best c /\ forall k, wf256 k -> cache_content d k = cache_content c k.
Proof. intros Hm I C E Hu. by apply (disconnect_connected lib ps Hm node genesis hash hashPrev block pindex c st). Qed.

(** A block at height 150 that spends the one output of an old transaction. *)
Definition true_out (n : Z) : CTxOut := {| nValue := n; scriptPubKey := [OP_1] |}.
Definition old_coins : CCoins :=
  {| fCoinBase := false; fCoinStake := false; c_vout := [null_txout; true_out 500]; c_nHeight := 10; c_nVersion := 1 |}.

Definition cb_tx : CTransaction := {|
  tx_nVersion := 1; vin := [{| prevout := null_outpoint; scriptSig := [1; 7]; nSequence := UINT32_MAX |}];
  vout := [true_out 100]; nLockTime := 0 |}.
Definition spend_tx : CTransaction := {|
  tx_nVersion := 1;
  vin := [{| prevout := {| out_hash := u256 5; out_n := 1 |}; scriptSig := []; nSequence := UINT32_MAX |}];
  vout := [true_out 400; {| nValue := 0; scriptPubKey := [OP_RETURN] |}]; nLockTime := 0 |}.
Definition a_block : CBlock := {| header := example_header; vtx := [cb_tx; spend_tx]; vchBlockSig := [] |}.
Definition a_index : IndexView := {| pi_hash := Some (u256 11); pi_nHeight := 150; pi_pprev := Some (u256 9, 149, 1000) |}.
Definition a_node : NodeView := {|
  networkID := MAIN; fEnabled := true; mapCheckpoints := []; nScriptCheckThreads := 0;
  block_heights := fun _ => Some 149; chain_tip := Some (u256 9, 149); masternode_synced := false;
  superblocks_enabled := false; IsBudgetPaymentBlock := fun _ => false |}.
Definition cache_with (cs : CCoins) : CCoinsViewCache toy_db :=
  SetBestBlock (ModifyCoins (new_cache empty_db) (u256 5) (fun c => (put cs c, tt))).1 (u256 9).

Definition a_connected : outcome toy_db (option Connected) :=
  ConnectBlock toy_keys mainParams a_node (zero W256) (u256 11) a_block a_index false (cache_with old_coins) valid_state.

Definition the {A} (d : A) (o : outcome toy_db (option A)) : A := match o with Done _ _ (Some a) => a | _ => d end.
Definition the_view (o : outcome toy_db (option Connected)) : CCoinsViewCache toy_db :=
  match o with Done c _ _ => c | _ => new_cache empty_db end.
Definition nothing_connected : Connected := {| nMoneySupply_set := 0; nMint_set := 0; blockundo := [] |}.

Lemma wf256_small n : 0 <= n < 2 ^ 64 -> wf256 (u256 n).
Proof. intros Hn. apply wf_u256. wunfold. lia. Qed.

Lemma cache_with_spec cs :
  wf_coins cs -> cache_inv (cache_with cs) /\
  forall k, wf256 k -> cache_content (cache_with cs) k = if bool_decide (k = u256 5) then norm cs else empty_coins.
Proof.
  intros W. pose proof (new_cache_inv _ empty_db_inv) as I.
  destruct (ModifyCoins (new_cache empty_db) (u256 5) (fun c => (put cs c, tt))) as [c []] eqn:E.
  destruct (ModifyCoins_spec _ _ _ _ _ I (wf256_small 5 ltac:(lia)) E) as (cs0 & _ & _ & _ & M).
  cbn [fst] in M. unfold put in M at 1 2. rewrite (wf_clean _ W) in M. destruct (M W) as (M1 & M2 & M3).
  unfold cache_with. rewrite E. cbn [fst]. destruct (SetBestBlock_meaning c (u256 9) M1) as (I' & _ & C); [done|].
  split; [done|]. intros k Hk. by rewrite C, M3.
Qed.

Lemma true_out_dom n : 0 <= n < MAX_AMOUNT -> dom_txout (true_out n).
Proof. intros Hn. split; [exact Hn|]. split; [|done]. repeat constructor; vm_compute; congruence. Qed.

Lemma true_out_wf n : 0 <= n < MAX_AMOUNT -> wf_out (true_out n).
Proof. intros Hn. by apply dom_txout_wf, true_out_dom. Qed.

Lemma old_coins_wf : wf_coins old_coins.
Proof.
  split; [|vm_compute; reflexivity|vm_compute; reflexivity|vm_compute; split; congruence..].
  apply Forall_cons. split; [done|]. apply Forall_cons. split; [apply true_out_wf; unfold MAX_AMOUNT; lia|constructor].
Qed.

Lemma a_block_wf : Forall wf_tx (vtx a_block).
Proof.
  assert (W : forall n, 0 <= n < 2 ^ 64 -> wf256 (u256 n)) by exact wf256_small.
  apply Forall_cons. split; [|apply Forall_cons; split; [|constructor]].
  - split; [|apply Forall_cons; split; [apply true_out_dom; unfold MAX_AMOUNT; lia|constructor]|done|done].
    apply Forall_cons. split; [|constructor]. split; [apply (W 0); lia|split; vm_compute; congruence].
  - split; [| |done|done].
    + apply Forall_cons. split; [|constructor]. split; [apply W; lia|split; vm_compute; congruence].
    + apply Forall_cons. split; [apply true_out_dom; unfold MAX_AMOUNT; lia|]. apply Forall_cons. split; [|constructor].
      split; [unfold MAX_AMOUNT; cbn; lia|]. split; [|done]. repeat constructor; vm_compute; congruence.
Qed.

Lemma a_block_connectable : connectable a_index (u256 11) (u256 9) a_block (cache_with old_coins).
Proof.
  destruct (cache_with_spec old_coins old_coins_wf) as [I C]. split; try done.
  - by exists 149, 1000.
  - by exists cb_tx, [spend_tx].
  - split; [exact a_block_wf|apply (bool_decide_unpack _); vm_compute; exact Logic.I|].
    intros tx Ht. rewrite C by apply tx_GetHash_wf. rewrite bool_decide_eq_false_2; [done|].
    change (vtx a_block) with [cb_tx; spend_tx] in Ht. rewrite !elem_of_cons, elem_of_nil in Ht.
    destruct Ht as [->|[->|[]]]; apply (bool_decide_unpack _); vm_compute; exact Logic.I.
  - intros k Hk. rewrite C by done. case_bool_decide; [|done]. intros _. vm_compute. reflexivity.
Qed.

Lemma disconnect_undoes_connect_witness :
  connectable a_index (u256 11) (u256 9) a_block (cache_with old_coins) /\
  blockundo (the nothing_connected a_connected) <> [] /\
  exists d, DisconnectBlock a_block (u256 11) (u256 9) 150 (Some (blockundo (the nothing_connected a_connected)))
      (the_view a_connected) valid_state = Done d valid_state true /\
    cache_inv d /\ cache_best d = cache_best (cache_with old_coins) /\
    forall k, wf256 k -> cache_content d k = cache_content (cache_with old_coins) k.
Proof.
  split; [exact a_block_connectable|]. split; [vm_compute; congruence|].
  apply (disconnect_undoes_connect toy_keys mainParams a_node (zero W256) (u256 11) (u256 9) a_block a_index
    (cache_with old_coins) valid_state).
  - split; vm_compute; congruence.
  - exact (proj1 (cache_with_spec old_coins old_coins_wf)).
  - exact a_block_connectable.
  - vm_compute. reflexivity.
  - apply (bool_decide_unpack _). vm_compute. exact Logic.I.
Defined.

(** ** Two defects *)

Lemma forget_stake_wf cs : wf_coins cs -> wf_coins (forget_stake cs).
Proof.
  intros [A B X Y Z]. split; try done. unfold Cleanup, set_vout. cbn [forget_stake c_vout fCoinBase fCoinStake c_nHeight c_nVersion].
  by rewrite (wf_clean_vout _ B).
Qed.

(** The undo data of a coinstake whose last output is spent holds [fCoinStake], but
    [DisconnectBlock] puts back [fCoinBase], the height and the version only: spending the
    last output and restoring it reports a clean result and gives the coins back without
    their mark, so that [CheckInputs] no longer asks for maturity. *)
Theorem disconnect_forgets_coinstake {V} `{CCoinsViewLaws V} ps (c c1 c2 : CCoinsViewCache V) out u r :
  cache_inv c -> wf256 (out_hash out) -> word 32 (out_n out) -> heights c ->
  let cs := cache_content c (out_hash out) in
  fCoinStake cs = true -> fCoinBase cs = false ->
  ModifyCoins c (out_hash out) (spend_with out) = (c1, Some u) ->
  IsPruned (cache_content c1 (out_hash out)) = true ->
  ModifyCoins c1 (out_hash out) (restore_input out u) = (c2, r) ->
  u_fCoinStake u = true /\ r = Some true /\
  cache_content c2 (out_hash out) = forget_stake cs /\
  (forall h, immature ps h cs = (h - c_nHeight cs <? COINBASE_MATURITY ps)) /\
  (forall h, immature ps h (cache_content c2 (out_hash out)) = false).
Proof.
  intros I Hk Hw Hh cs Hst Hcb E1 Hp E2. destruct (spend_with_spec _ _ _ _ I Hk E1 u eq_refl) as (cs' & HS & W & P & C).
  fold cs in HS, W, P. assert (Hp' : IsPruned cs' = true).
  { destruct C as (_ & _ & C). rewrite C, bool_decide_eq_true_2 in Hp by done. by rewrite IsPruned_norm in Hp. }
  destruct (ModifyCoins_spec _ _ _ _ _ (proj1 C) Hk E2) as (ds & _ & N & -> & M).
  assert (R : restore_input out u ds = (forget_stake cs, Some true)).
  { rewrite (Spend_restore cs out cs' u ds W Hw (Hh _ Hk P) HS); [by rewrite Hp'|].
    rewrite N. destruct C as (_ & _ & C). by rewrite C, bool_decide_eq_true_2. }
  rewrite R in M |- *. cbn [fst snd] in M |- *.
  pose proof (forget_stake_wf cs W) as Wf.
  rewrite (wf_clean _ Wf) in M. destruct (M Wf) as (_ & _ & M3).
  assert (Ec : cache_content c2 (out_hash out) = forget_stake cs).
  { rewrite M3, bool_decide_eq_true_2 by done. unfold norm. by change (IsPruned (forget_stake cs)) with (IsPruned cs); rewrite P. }
  split; [|split; [done|split; [done|]]].
  - apply Spend_inv in HS as (o & _ & _ & Ecs & ->). rewrite (cleaned_pruned cs') in Hp' by (rewrite Ecs; apply Cleanup_idem).
    by rewrite Hp'.
  - split; intros h; unfold immature; [by rewrite Hcb, Hst|rewrite Ec; cbn; by rewrite Hcb].
Qed.

Definition stake_coins : CCoins :=
  {| fCoinBase := false; fCoinStake := true; c_vout := [null_txout; true_out 500]; c_nHeight := 140; c_nVersion := 1 |}.

Lemma stake_coins_wf : wf_coins stake_coins.
Proof.
  split; [|vm_compute; reflexivity|vm_compute; reflexivity|vm_compute; split; congruence..].
  apply Forall_cons. split; [done|]. apply Forall_cons. split; [apply true_out_wf; unfold MAX_AMOUNT; lia|constructor].
Qed.

Definition stake_out : COutPoint := {| out_hash := u256 5; out_n := 1 |}.
Definition stake_spent : CCoinsViewCache toy_db * option CTxInUndo := ModifyCoins (cache_with stake_coins) (u256 5) (spend_with stake_out).
Definition stake_undo : CTxInUndo := default example_undo stake_spent.2.
Definition stake_restored : CCoinsViewCache toy_db * option bool := ModifyCoins stake_spent.1 (u256 5) (restore_input stake_out stake_undo).

Lemma disconnect_forgets_coinstake_witness :
  immature mainParams 150 (cache_content (cache_with stake_coins) (u256 5)) = true /\
  u_fCoinStake stake_undo = true /\ stake_restored.2 = Some true /\
  cache_content stake_restored.1 (u256 5) = forget_stake (cache_content (cache_with stake_coins) (u256 5)) /\
  (forall h, immature mainParams h (cache_content (cache_with stake_coins) (u256 5)) = (h - 140 <? COINBASE_MATURITY mainParams)) /\
  (forall h, immature mainParams h (cache_content stake_restored.1 (u256 5)) = false).
Proof.
  split; [vm_compute; reflexivity|]. destruct (cache_with_spec stake_coins stake_coins_wf) as [I C].
  apply (disconnect_forgets_coinstake mainParams (cache_with stake_coins) stake_spent.1 stake_restored.1 stake_out stake_undo stake_restored.2).
  - exact I.
  - apply wf256_small. lia.
  - split; vm_compute; congruence.
  - intros k Hk. rewrite C by done. case_bool_decide; [|done]. intros _. vm_compute. reflexivity.
  - vm_compute. reflexivity.
  - vm_compute. reflexivity.
  - vm_compute. reflexivity.
  - vm_compute. reflexivity.
  - vm_compute. reflexivity.
Defined.

(** [ConnectBlock] returns false for a transaction that fails [CheckInputs] only when
    [Checkpoints::CheckBlock] rejects the block as well.  At a height without a checkpoint
    that never happens, and a rejection by [CheckInputs] (inputs too young, values out of
    range, outputs above inputs, a script that fails) is dropped: the transaction counts
    as connected, with no script check queued for it. *)
Theorem CheckInputs_failure_ignored {V} `{CCoinsView V} lib ps node pindex tx fs (c : CCoinsViewCache V) st hash :
  pi_hash pindex = Some hash -> fEnabled node = true -> Forall (fun p => p.1 <> pi_nHeight pindex) (mapCheckpoints node) ->
  (forall c' st', check_inputs_or_checkpoint lib ps node pindex tx fs c st <> Reject c' st') /\
  (forall c' st', CheckInputs lib ps (block_heights node) tx fs (Z.lor SCRIPT_VERIFY_P2SH SCRIPT_VERIFY_DERSIG)
       (negb (nScriptCheckThreads node =? 0)) c st = Reject c' st' ->
     check_inputs_or_checkpoint lib ps node pindex tx fs c st = Done c' st' []).
Proof.
  intros Ph Fe Fc. unfold check_inputs_or_checkpoint. rewrite Ph. unfold Checkpoints_CheckBlock. rewrite Fe. cbn [negb].
  rewrite (proj2 (list_find_None _ _) Fc). cbn [negb]. destruct (CheckInputs _ _ _ _ _ _ _ _ _); split; try done.
  intros c' st' E. by injection E as -> ->.
Qed.

(** An output nobody can spend with an empty script, and a transaction that spends it and
    creates 21 times its value. *)
Definition locked_coins : CCoins :=
  {| fCoinBase := false; fCoinStake := false; c_vout := [null_txout; example_out 500]; c_nHeight := 10; c_nVersion := 1 |}.
Definition theft_tx : CTransaction := {|
  tx_nVersion := 1;
  vin := [{| prevout := {| out_hash := u256 5; out_n := 1 |}; scriptSig := []; nSequence := UINT32_MAX |}];
  vout := [true_out 10500]; nLockTime := 0 |}.
Definition theft_block : CBlock := {| header := example_header; vtx := [cb_tx; theft_tx]; vchBlockSig := [] |}.

Lemma CheckInputs_failure_ignored_witness :
  let checked := CheckInputs toy_keys mainParams (block_heights a_node) theft_tx true
    (Z.lor SCRIPT_VERIFY_P2SH SCRIPT_VERIFY_DERSIG) false (cache_with locked_coins) valid_state in
  let connected := ConnectBlock toy_keys mainParams a_node (zero W256) (u256 11) theft_block a_index false
    (cache_with locked_coins) valid_state in
  match checked with Reject _ st => strRejectReason st = "bad-txns-in-belowout"%string | _ => False end /\
  match connected with Done c _ (Some _) => cache_best c = u256 11 | _ => False end /\
  ((forall c' st', check_inputs_or_checkpoint toy_keys mainParams a_node a_index theft_tx true (cache_with locked_coins) valid_state <> Reject c' st') /\
   (forall c' st', checked = Reject c' st' ->
      check_inputs_or_checkpoint toy_keys mainParams a_node a_index theft_tx true (cache_with locked_coins) valid_state = Done c' st' [])).
Proof.
  cbv zeta. split; [vm_compute; reflexivity|]. split; [vm_compute; reflexivity|].
  apply (CheckInputs_failure_ignored toy_keys mainParams a_node a_index theft_tx true (cache_with locked_coins) valid_state (u256 11)).
  - reflexivity.
  - reflexivity.
  - constructor.
Defined.
