(* ===== verification/Signer.v ===== *)
(** The signing of texts: [CMasternodeSigner] (masternode-helpers.cpp) and
    [CPubKey::RecoverCompact] (pubkey.cpp).

    The recovery module of libsecp256k1 is the record [secp256k1_recovery]; the signing
    with a secret key is an argument of what uses it.  Texts are lists of bytes. *)

From Stdlib Require Import Strings.String Strings.Ascii.
From S2P Require Import Prelude Uint256 Arith256 Serialize Digest Hashes Pubkey.

Local Open Scope Z_scope.
#[local] Abbreviation length := Datatypes.length.

(** * Texts *)

Fixpoint text (s : string) : byte_list :=
  match s with
  | EmptyString => []
  | String a s => Z.of_nat (nat_of_ascii a) :: text s
  end.

(** [boost::lexical_cast<std::string>] of a number; [fuel] is the number of its bits. *)
Fixpoint digits (fuel : nat) (n : Z) (acc : byte_list) : byte_list :=
  match fuel with
  | O => acc
  | S fuel =>
      let acc := (48 + n mod 10) :: acc in
      if n <? 10 then acc else digits fuel (n / 10) acc
  end.

Definition decimal (n : Z) : byte_list :=
  let m := digits (S (Z.to_nat (Z.log2 (Z.abs n)))) (Z.abs n) [] in
  if n <? 0 then 45 :: m else m.

Example decimal_examples : map decimal [0; 7; 10; -205; 4070908800] = map text ["0"; "7"; "10"; "-205"; "4070908800"]%string.
Proof. reflexivity. Qed.

(** * Signatures of texts *)

Record secp256k1_recovery (lib : secp256k1) := {
  secp_recoverable : Type;
  recoverable_signature_parse_compact : byte_list -> Z -> option secp_recoverable;
  ecdsa_recover : secp_recoverable -> byte_list -> option (secp_pubkey lib)
}.
Arguments recoverable_signature_parse_compact {lib}.
Arguments ecdsa_recover {lib}.

Definition COMPACT_SIGNATURE_SIZE : nat := 65.

Definition strMessageMagic : byte_list := text "DarkNet Signed Message:" ++ [10].

(** What is signed: the hash of both strings as they are serialized. *)
Definition message_hash (strMessage : byte_list) : uint256 :=
  Hash (write_byte_vector strMessageMagic ++ write_byte_vector strMessage).

Section Signer.
Context (lib : secp256k1) (rec : secp256k1_recovery lib).

(** [None] for the result false. *)
Definition RecoverCompact (hash : uint256) (vchSig : byte_list) : option CPubKey :=
  if negb (length vchSig =? COMPACT_SIGNATURE_SIZE)%nat then None
  else
    let header := nth 0 vchSig 0 - 27 in
    let recid := Z.land header 3 in
    let fComp := negb (Z.land header 4 =? 0) in
    sig ← recoverable_signature_parse_compact rec (drop 1 vchSig) recid;
    pubkey ← ecdsa_recover rec sig (to_bytes hash);
    Some (CPubKey_Set (ec_pubkey_serialize lib pubkey fComp)).

Definition VerifyMessage (pubkey : CPubKey) (vchSig : byte_list) (strMessage : byte_list) : bool :=
  match RecoverCompact (message_hash strMessage) vchSig with
  | None => false
  | Some pubkey2 => eq (GetID pubkey2) (GetID pubkey)
  end.

(** [SignMessage], over [CKey::SignCompact] of the key, and the check that follows it. *)
Definition sign_and_verify (SignCompact : uint256 -> option byte_list) (pubkey : CPubKey) (strMessage : byte_list) : option byte_list :=
  vchSig ← SignCompact (message_hash strMessage);
  if VerifyMessage pubkey vchSig strMessage then Some vchSig else None.

Lemma VerifyMessage_short pubkey vchSig m : length vchSig <> COMPACT_SIGNATURE_SIZE -> VerifyMessage pubkey vchSig m = false.
Proof. intros H. unfold VerifyMessage, RecoverCompact. by rewrite (proj2 (Nat.eqb_neq _ _) H). Qed.
End Signer.

(** A library in which a signature is the key it was made with. *)
Definition signer_keys : secp256k1 := {|
  secp_pubkey := byte_list; secp_signature := byte_list; ecdsa_signature_parse_compact bs := (true, bs); ec_pubkey_parse := Some;
  ecdsa_signature_normalize s := (false, s); ecdsa_verify s h k := true; ec_pubkey_serialize k compressed := k |}.
Definition signer_recovery : secp256k1_recovery signer_keys := {|
  secp_recoverable := byte_list; recoverable_signature_parse_compact sig recid := Some sig;
  ecdsa_recover (sig hash : byte_list) := Some (take 33 sig : secp_pubkey signer_keys) |}.
Definition signer_key : byte_list := 2 :: repeat 7 32.
Definition signer_signature : byte_list := 31 :: signer_key ++ repeat 0 31.

Example signer_verifies : VerifyMessage signer_keys signer_recovery signer_key signer_signature (text "spork") = true.
Proof. vm_compute. reflexivity. Qed.
