(* ===== verification/Sporks.v ===== *)
(** Sporks (spork.h, spork.cpp, sporkdb.cpp): values that the holder of a key can change on
    every node, which switch rules on and off.

    [GetHash] hashes the memory between two fields, with the four bytes of padding after
    [nSporkID]; what these hold is an argument.  The database of sporks is a map from the
    number to the message; reprocessing the last blocks is left to the caller, who gets
    the number of blocks. *)

From Stdlib Require Import Strings.String.
From stdpp Require Import gmap sorting.
From S2P Require Import Prelude Uint256 Arith256 Serialize Digest Hashes Pubkey Transaction Signer.

Local Open Scope Z_scope.
#[local] Abbreviation length := Datatypes.length.

(** * Numbers and names *)

Definition SPORK_START : Z := 10001.
Definition SPORK_END : Z := 10014.
Definition SPORK_2_SWIFTTX : Z := 10001.
Definition SPORK_3_SWIFTTX_BLOCK_FILTERING : Z := 10002.
Definition SPORK_5_MAX_VALUE : Z := 10004.
Definition SPORK_7_MASTERNODE_SCANNING : Z := 10006.
Definition SPORK_8_MASTERNODE_PAYMENT_ENFORCEMENT : Z := 10007.
Definition SPORK_9_MASTERNODE_BUDGET_ENFORCEMENT : Z := 10008.
Definition SPORK_10_MASTERNODE_PAY_UPDATED_NODES : Z := 10009.
Definition SPORK_11_RESET_BUDGET : Z := 10010.
Definition SPORK_12_RECONSIDER_BLOCKS : Z := 10011.
Definition SPORK_13_ENABLE_SUPERBLOCKS : Z := 10012.
Definition SPORK_14_NEW_PROTOCOL_ENFORCEMENT : Z := 10013.
Definition SPORK_15_NEW_PROTOCOL_ENFORCEMENT_2 : Z := 10014.

(** The value of each without a message. *)
Definition spork_defaults : list (Z * Z) := [
  (SPORK_2_SWIFTTX, 978307200); (SPORK_3_SWIFTTX_BLOCK_FILTERING, 1424217600); (SPORK_5_MAX_VALUE, 1000);
  (SPORK_7_MASTERNODE_SCANNING, 978307200); (SPORK_8_MASTERNODE_PAYMENT_ENFORCEMENT, 4070908800);
  (SPORK_9_MASTERNODE_BUDGET_ENFORCEMENT, 4070908800); (SPORK_10_MASTERNODE_PAY_UPDATED_NODES, 4070908800);
  (SPORK_11_RESET_BUDGET, 0); (SPORK_12_RECONSIDER_BLOCKS, 0); (SPORK_13_ENABLE_SUPERBLOCKS, 4070908800);
  (SPORK_14_NEW_PROTOCOL_ENFORCEMENT, 4070908800); (SPORK_15_NEW_PROTOCOL_ENFORCEMENT_2, 4070908800)].

Definition spork_names : list (string * Z) := [
  ("SPORK_2_SWIFTTX", SPORK_2_SWIFTTX); ("SPORK_3_SWIFTTX_BLOCK_FILTERING", SPORK_3_SWIFTTX_BLOCK_FILTERING);
  ("SPORK_5_MAX_VALUE", SPORK_5_MAX_VALUE); ("SPORK_7_MASTERNODE_SCANNING", SPORK_7_MASTERNODE_SCANNING);
  ("SPORK_8_MASTERNODE_PAYMENT_ENFORCEMENT", SPORK_8_MASTERNODE_PAYMENT_ENFORCEMENT);
  ("SPORK_9_MASTERNODE_BUDGET_ENFORCEMENT", SPORK_9_MASTERNODE_BUDGET_ENFORCEMENT);
  ("SPORK_10_MASTERNODE_PAY_UPDATED_NODES", SPORK_10_MASTERNODE_PAY_UPDATED_NODES);
  ("SPORK_11_RESET_BUDGET", SPORK_11_RESET_BUDGET); ("SPORK_12_RECONSIDER_BLOCKS", SPORK_12_RECONSIDER_BLOCKS);
  ("SPORK_13_ENABLE_SUPERBLOCKS", SPORK_13_ENABLE_SUPERBLOCKS);
  ("SPORK_14_NEW_PROTOCOL_ENFORCEMENT", SPORK_14_NEW_PROTOCOL_ENFORCEMENT);
  ("SPORK_15_NEW_PROTOCOL_ENFORCEMENT_2", SPORK_15_NEW_PROTOCOL_ENFORCEMENT_2)]%string.

Definition GetSporkIDByName (strName : string) : Z :=
  match find (fun e => (e.1 =? strName)%string) spork_names with Some e => e.2 | None => -1 end.

Definition GetSporkNameByID (id : Z) : string :=
  match find (fun e => e.2 =? id) spork_names with Some e => e.1 | None => "Unknown"%string end.

Definition known_spork (id : Z) : bool := negb (GetSporkNameByID id =? "Unknown")%string.

(** * Messages *)

Record CSporkMessage := { spork_vchSig : byte_list; nSporkID : Z; spork_nValue : Z; nTimeSigned : Z }.

#[export] Instance CSporkMessage_eq_dec : EqDecision CSporkMessage.
Proof. solve_decision. Defined.

Definition c_spork : codec CSporkMessage :=
  c_iso (fun x => {| nSporkID := x.1.1.1; spork_nValue := x.1.1.2; nTimeSigned := x.1.2; spork_vchSig := x.2 |})
    (fun s => (((nSporkID s, spork_nValue s), nTimeSigned s), spork_vchSig s))
    (c_pair (c_pair (c_pair (c_int 4) (c_int 8)) (c_int 8)) c_bytes).

(** The text that is signed. *)
Definition spork_text (s : CSporkMessage) : byte_list := decimal (nSporkID s) ++ decimal (spork_nValue s) ++ decimal (nTimeSigned s).

Record SporkState := {
  mapSporks : gmap uint256 CSporkMessage;
  mapSporksActive : gmap Z CSporkMessage;
  sporkDB : gmap Z CSporkMessage
}.

Definition no_sporks : SporkState := {| mapSporks := ∅; mapSporksActive := ∅; sporkDB := ∅ |}.

Section Sporks.
Context (lib : secp256k1) (rec : secp256k1_recovery lib) (s512 : sph) (padding : CSporkMessage -> byte_list) (SporkKey : byte_list).

Definition spork_GetHash (s : CSporkMessage) : uint256 :=
  HashQuark s512 (enc (c_int 4) (nSporkID s) ++ padding s ++ enc (c_int 8) (spork_nValue s) ++ enc (c_int 8) (nTimeSigned s)).

(** The messages in memory after this one. *)
Definition activate_spork (spork : CSporkMessage) (s : SporkState) : SporkState := {|
  mapSporks := <[spork_GetHash spork := spork]> (mapSporks s);
  mapSporksActive := <[nSporkID spork := spork]> (mapSporksActive s);
  sporkDB := sporkDB s |}.

Definition WriteSpork (id : Z) (spork : CSporkMessage) (s : SporkState) : SporkState :=
  {| mapSporks := mapSporks s; mapSporksActive := mapSporksActive s; sporkDB := <[id := spork]> (sporkDB s) |}.

(** [for (int i = SPORK_START; i <= SPORK_END; ++i)]. *)
Definition LoadSporksFromDB (s : SporkState) : SporkState :=
  foldl (fun s i =>
    if negb (known_spork i) then s
    else match sporkDB s !! i with None => s | Some spork => activate_spork spork s end)
    s (map (fun k => SPORK_START + Z.of_nat k) (seq 0 (Z.to_nat (SPORK_END - SPORK_START + 1)))).

(** ** Values *)

Definition GetSporkValue (s : SporkState) (id : Z) : Z :=
  match mapSporksActive s !! id with
  | Some spork => spork_nValue spork
  | None => match find (fun e => e.1 =? id) spork_defaults with Some e => e.2 | None => -1 end
  end.

Definition IsSporkActive (s : SporkState) (now : Z) (id : Z) : bool :=
  let r := GetSporkValue s id in
  if r =? -1 then false else r <? now.

Definition MIN_PEER_PROTO_VERSION : Z := 70924.
Definition MIN_PEER_PROTO_VERSION_AFTER_ENFORCEMENT : Z := 70923.

Definition ActiveProtocol (s : SporkState) (now : Z) : Z :=
  if IsSporkActive s now SPORK_14_NEW_PROTOCOL_ENFORCEMENT then MIN_PEER_PROTO_VERSION_AFTER_ENFORCEMENT else MIN_PEER_PROTO_VERSION.

(** ** Changes *)

(** The result true is for a signature that does not verify. *)
Definition CheckSignature (spork : CSporkMessage) : bool :=
  if VerifyMessage lib rec (CPubKey_Set SporkKey) (spork_vchSig spork) (spork_text spork) then false else true.

(** [ExecuteSpork]: how many blocks are processed again.  The value is passed as an int. *)
Definition ExecuteSpork (id nValue : Z) : option Z :=
  let nValue := s32 nValue in
  if (id =? SPORK_12_RECONSIDER_BLOCKS) && (0 <? nValue) then Some nValue else None.

(** What [ProcessSpork] does for a message: the new state, what [Misbehaving] is called
    with (0: not called), whether it is relayed, the blocks to process again. *)
Definition ProcessSpork (fLiteMode has_tip : bool) (spork : CSporkMessage) (s : SporkState) : SporkState * Z * bool * option Z :=
  if fLiteMode then (s, 0, false, None)
  else if negb has_tip then (s, 0, false, None)
  else if negb (known_spork (nSporkID spork)) then (s, 0, false, None)
  else if match mapSporksActive s !! nSporkID spork with Some old => nTimeSigned spork <=? nTimeSigned old | None => false end
  then (s, 0, false, None)
  else if negb (CheckSignature spork) then (s, 100, false, None)
  else (WriteSpork (nSporkID spork) spork (activate_spork spork s), 0, true, ExecuteSpork (nSporkID spork) (spork_nValue spork)).

(** The answer to getsporks: the messages in the order of their numbers. *)
Definition getsporks (s : SporkState) : list CSporkMessage :=
  omap (fun id => mapSporksActive s !! id) (merge_sort Z.le (map fst (map_to_list (mapSporksActive s)))).

(** [UpdateSpork] of the node that holds the key. *)
Definition UpdateSpork (SignCompact : uint256 -> option byte_list) (pubkey : byte_list) (now id nValue : Z) (s : SporkState) : option SporkState :=
  let msg := {| spork_vchSig := []; nSporkID := id; spork_nValue := nValue; nTimeSigned := now |} in
  vchSig ← sign_and_verify lib rec SignCompact pubkey (spork_text msg);
  Some (activate_spork {| spork_vchSig := vchSig; nSporkID := id; spork_nValue := nValue; nTimeSigned := now |} s).

(** [SetPrivKey]: the message it signs is one without values (here: zeros). *)
Definition SetPrivKey (vchSig : byte_list) : bool :=
  CheckSignature {| spork_vchSig := vchSig; nSporkID := 0; spork_nValue := 0; nTimeSigned := 0 |}.

(** * What messages do *)

(** A node that receives messages and starts again: memory is lost, the database stays. *)
Definition restart (s : SporkState) : SporkState := LoadSporksFromDB {| mapSporks := ∅; mapSporksActive := ∅; sporkDB := sporkDB s |}.

Inductive spork_step : SporkState -> SporkState -> Prop :=
| step_message lite tip spork s : spork_step s (ProcessSpork lite tip spork s).1.1.1
| step_restart s : spork_step s (restart s).

(** The database holds what is active, each message under its number, and nothing else. *)
Record sporks_inv (s : SporkState) : Prop := {
  si_db : sporkDB s = mapSporksActive s;
  si_known id spork : mapSporksActive s !! id = Some spork -> known_spork id = true /\ nSporkID spork = id
}.

Lemma known_range id : known_spork id = true -> SPORK_START <= id <= SPORK_END.
Proof.
  unfold known_spork, GetSporkNameByID. destruct (find _ _) as [e|] eqn:F; [|done]. intros _. apply find_some in F as [I E%Z.eqb_eq]. subst id.
  unfold SPORK_START, SPORK_END. unfold spork_names in I. cbn [In] in I. repeat (destruct I as [<-|I]; [vm_compute; split; congruence|]). done.
Qed.

(** What the loop over the numbers [l] activates. *)
Lemma load_active l : forall s (id : Z),
  (forall (id : Z) (spork : CSporkMessage), sporkDB s !! id = Some spork -> nSporkID spork = id) ->
  let s' := foldl (fun s i => if negb (known_spork i) then s else match sporkDB s !! i with None => s | Some spork => activate_spork spork s end) s l in
  sporkDB s' = sporkDB s /\
  (sporkDB s !! id = None -> mapSporksActive s' !! id = mapSporksActive s !! id) /\
  (forall x : CSporkMessage, sporkDB s !! id = Some x -> mapSporksActive s !! id = Some x \/ id ∈ l /\ known_spork id = true -> mapSporksActive s' !! id = Some x).
Proof.
  induction l as [|i l IH]; intros s id W; cbn [foldl].
  { split_and!; try done. by intros x _ [|[[]%not_elem_of_nil _]]. }
  set (s1 := if negb _ then _ else _).
  assert (D : sporkDB s1 = sporkDB s) by (unfold s1; destruct (known_spork i); [|done]; by destruct (sporkDB s !! i)).
  assert (N1 : sporkDB s !! id = None -> mapSporksActive s1 !! id = mapSporksActive s !! id).
  { intros E. unfold s1. destruct (known_spork i); [|done]. destruct (sporkDB s !! i) as [y|] eqn:Ei; [|done]. cbn. rewrite (W i y Ei), lookup_insert_ne; [done|congruence]. }
  assert (A1 : forall x, sporkDB s !! id = Some x -> mapSporksActive s !! id = Some x \/ id = i /\ known_spork id = true -> mapSporksActive s1 !! id = Some x).
  { intros x E H. unfold s1. destruct (decide (id = i)) as [->|N].
    - rewrite E. destruct (known_spork i); [|by destruct H as [|[_ ?]]]. cbn. rewrite (W i x E). apply lookup_insert_eq.
    - destruct H as [H|[-> _]]; [|done]. destruct (known_spork i); [|done]. destruct (sporkDB s !! i) as [y|] eqn:Ei; [|done]. cbn. rewrite (W i y Ei). by rewrite lookup_insert_ne. }
  destruct (IH s1 id) as (D' & N' & A'). { intros j x. rewrite D. apply W. }
  rewrite D in N', A'. split_and!; [congruence| |].
  - intros E. rewrite (N' E). by apply N1.
  - intros x E [H|[[->|I]%elem_of_cons Kn]]; apply A'; auto.
Qed.

(** Starting again changes nothing: this is what the database is for. *)
Lemma restart_same s : sporks_inv s -> mapSporksActive (restart s) = mapSporksActive s /\ sporkDB (restart s) = sporkDB s.
Proof.
  intros [D K]. unfold restart, LoadSporksFromDB. set (s0 := {| mapSporks := ∅; mapSporksActive := ∅; sporkDB := sporkDB s |}).
  assert (W : forall id spork, sporkDB s0 !! id = Some spork -> nSporkID spork = id) by (cbn; rewrite D; intros id x E; by destruct (K id x E)).
  split; [|exact (proj1 (load_active _ s0 0 W))]. apply map_eq. intros id. destruct (load_active (map (fun k => SPORK_START + Z.of_nat k) (seq 0 (Z.to_nat (SPORK_END - SPORK_START + 1)))) s0 id W) as (_ & N & A).
  cbn [s0 sporkDB mapSporksActive] in N, A. rewrite D in N, A. destruct (mapSporksActive s !! id) as [x|] eqn:E.
  - apply A; [done|]. right. destruct (K id x E) as [Hk _]. split; [|done]. apply known_range in Hk.
    apply list_elem_of_fmap. exists (Z.to_nat (id - SPORK_START)). split; [lia|]. apply elem_of_seq. unfold SPORK_START, SPORK_END in *. lia.
  - by rewrite N.
Qed.

Lemma restart_inv s : sporks_inv s -> sporks_inv (restart s).
Proof. intros I. destruct (restart_same s I) as [A D], I as [E K]. split; [congruence|]. intros id x. rewrite A. apply K. Qed.

(** The cases of a message. *)
Lemma ProcessSpork_cases lite tip spork s s' dos relay n : ProcessSpork lite tip spork s = (s', dos, relay, n) ->
  s' = s /\ relay = false \/
  (s' = WriteSpork (nSporkID spork) spork (activate_spork spork s) /\ known_spork (nSporkID spork) = true /\ CheckSignature spork = true /\
   forall old, mapSporksActive s !! nSporkID spork = Some old -> nTimeSigned old < nTimeSigned spork).
Proof.
  unfold ProcessSpork. intros E. destruct lite; [injection E as <- <- <- <-; by left|]. destruct tip; [|injection E as <- <- <- <-; by left].
  destruct (known_spork (nSporkID spork)) eqn:Kn; [|injection E as <- <- <- <-; by left]. cbn [negb] in E.
  destruct (mapSporksActive s !! nSporkID spork) as [old|] eqn:O.
  - destruct (Z.leb_spec (nTimeSigned spork) (nTimeSigned old)); [injection E as <- <- <- <-; by left|].
    destruct (CheckSignature spork) eqn:C; injection E as <- <- <- <-; [right|by left]. split_and!; try done. by intros ? [= <-].
  - destruct (CheckSignature spork) eqn:C; injection E as <- <- <- <-; [right|by left]. by split_and!.
Qed.

Lemma message_inv lite tip spork s : sporks_inv s -> sporks_inv (ProcessSpork lite tip spork s).1.1.1.
Proof.
  intros I. destruct (ProcessSpork _ _ _ _) as [[[s' d] r] n] eqn:E. cbn [fst]. destruct (ProcessSpork_cases _ _ _ _ _ _ _ _ E) as [[-> _]|(-> & Kn & _)]; [done|].
  destruct I as [D K]. split; cbn; [by rewrite D|]. intros id x. destruct (decide (id = nSporkID spork)) as [->|N].
  - rewrite lookup_insert_eq. by intros [= <-].
  - rewrite lookup_insert_ne by congruence. apply K.
Qed.

(** The values only get newer. *)
Definition newer (s s' : SporkState) : Prop :=
  forall id old, mapSporksActive s !! id = Some old -> exists x, mapSporksActive s' !! id = Some x /\ (x = old \/ nTimeSigned old < nTimeSigned x).

Lemma message_newer lite tip spork s : newer s (ProcessSpork lite tip spork s).1.1.1.
Proof.
  intros id old H. destruct (ProcessSpork _ _ _ _) as [[[s' d] r] n] eqn:E. cbn [fst].
  destruct (ProcessSpork_cases _ _ _ _ _ _ _ _ E) as [[-> _]|(-> & _ & _ & O)]; [by eauto|]. cbn.
  destruct (decide (id = nSporkID spork)) as [->|N]; [rewrite lookup_insert_eq|rewrite lookup_insert_ne by congruence]; eauto.
Qed.

(** Whatever messages arrive and however often the node starts again, the database of
    sporks holds exactly the active ones, each under its known number; a value is only
    replaced by one that was signed later; and starting again gives every spork the value
    it had. *)
Theorem sporks_persist s : rtc spork_step no_sporks s ->
  sporks_inv s /\ (forall s', spork_step s s' -> newer s s') /\ forall id, GetSporkValue (restart s) id = GetSporkValue s id.
Proof.
  intros R. assert (I : sporks_inv s).
  { revert s R. apply (rtc_ind_r sporks_inv no_sporks).
    - split; [done|]. intros id x. cbn. by rewrite lookup_empty.
    - intros y z _ St Iy. destruct St; [by apply message_inv|by apply restart_inv]. }
  split; [done|]. split.
  - intros s' St. destruct St as [lite tip spork s|s]; [apply message_newer|]. intros id old H. rewrite (proj1 (restart_same s I)). by eauto.
  - intros id. unfold GetSporkValue. by rewrite (proj1 (restart_same s I)).
Qed.

End Sporks.

(** The text does not tell where a number ends: a signature is good for other values. *)
Example spork_text_ambiguous :
  spork_text {| spork_vchSig := []; nSporkID := 10012; spork_nValue := 1; nTimeSigned := 530000000 |} =
  spork_text {| spork_vchSig := []; nSporkID := 10012; spork_nValue := 15; nTimeSigned := 30000000 |}.
Proof. vm_compute. reflexivity. Qed.

(** * Witnesses *)

Definition spork_sph : sph := {|
  blake512 m := replicate 64 1; bmw512 m := m; groestl512 m := m; jh512 m := m; keccak512 m := m; skein512 m := m |}.
Definition zero_padding (m : CSporkMessage) : byte_list := replicate 4 0.
Definition superblocks_on : CSporkMessage := {| spork_vchSig := []; nSporkID := SPORK_13_ENABLE_SUPERBLOCKS; spork_nValue := 5; nTimeSigned := 1530000000 |}.
Definition after_message : SporkState :=
  (ProcessSpork signer_keys signer_recovery spork_sph zero_padding signer_key false true superblocks_on no_sporks).1.1.1.

Example superblocks_active : IsSporkActive no_sporks 1600000000 SPORK_13_ENABLE_SUPERBLOCKS = false /\ IsSporkActive after_message 1600000000 SPORK_13_ENABLE_SUPERBLOCKS = true.
Proof. vm_compute. by split. Qed.

Lemma sporks_persist_witness :
  sporks_inv after_message /\
  (forall s', spork_step signer_keys signer_recovery spork_sph zero_padding signer_key after_message s' -> newer after_message s') /\
  forall id, GetSporkValue (restart spork_sph zero_padding after_message) id = GetSporkValue after_message id.
Proof.
  assert (R : rtc (spork_step signer_keys signer_recovery spork_sph zero_padding signer_key) no_sporks after_message) by (apply rtc_once; constructor).
  exact (sporks_persist signer_keys signer_recovery spork_sph zero_padding signer_key after_message R).
Defined.

