(* ===== verification/Masternodes.v ===== *)
(** Masternodes: masternode.h, masternode.cpp and masternodeman.cpp.

    [CMasternodeMan] keeps the list of masternodes, fed by announcements (mnb) and pings
    (mnp) of the network.  A pointer to a masternode is its place in the vector.  A
    [CMasternodeBroadcast] has no fields of its own and is a [CMasternode] here.  What the
    other parts know at the moment of a call (the clock, the chain, the sporks, the coins)
    is the record [World]; a lock that is tried is obtained; messages that are sent are
    left out.  [None] is a null pointer that is followed, or a read past the end. *)

From Stdlib Require Import Strings.String Floats.SpecFloat.
From stdpp Require Import gmap sorting.
From S2P Require Import Prelude Uint256 Arith256 Params Subsidy Chain Serialize Digest Hashes Script Pubkey Transaction Standard Signer Sporks.

Local Open Scope Z_scope.
#[local] Abbreviation length := Datatypes.length.

Definition MASTERNODE_MIN_CONFIRMATIONS : Z := 15.
Definition MASTERNODE_MIN_MNP_SECONDS : Z := 10 * 60.
Definition MASTERNODE_MIN_MNB_SECONDS : Z := 5 * 60.
Definition MASTERNODE_EXPIRATION_SECONDS : Z := 120 * 60.
Definition MASTERNODE_REMOVAL_SECONDS : Z := 130 * 60.
Definition MASTERNODE_CHECK_SECONDS : Z := 5.
Definition MN_WINNER_MINIMUM_AGE : Z := 8000.
Definition MASTERNODES_DSEG_SECONDS : Z := 3 * 60 * 60.
Definition MASTERNODE_SYNC_THRESHOLD : Z := 2.

(** * Data *)

(** [CService]: the sixteen bytes of [CNetAddr] and the port. *)
Record CService := { ip : byte_list; port : Z }.

Definition pchIPv4 : byte_list := [0; 0; 0; 0; 0; 0; 0; 0; 0; 0; 0xff; 0xff].
Definition GetByte (a : CService) (n : nat) : Z := nth (15 - n) (ip a) 0.
Definition IsIPv4 (a : CService) : bool := bool_decide (take 12 (ip a) = pchIPv4).
Definition IsRFC1918 (a : CService) : bool :=
  IsIPv4 a && ((GetByte a 3 =? 10) || (GetByte a 3 =? 192) && (GetByte a 2 =? 168) || (GetByte a 3 =? 172) && ((16 <=? GetByte a 2) && (GetByte a 2 <=? 31))).
Definition IsLocal (a : CService) : bool :=
  if IsIPv4 a && ((GetByte a 3 =? 127) || (GetByte a 3 =? 0)) then true else bool_decide (ip a = replicate 15 0 ++ [1]).

Record CMasternodePing := { ping_vin : CTxIn; blockHash : uint256; ping_sigTime : Z; ping_vchSig : byte_list }.

Definition null_txin : CTxIn := {| prevout := null_outpoint; scriptSig := []; nSequence := UINT32_MAX |}.
Definition null_ping : CMasternodePing := {| ping_vin := null_txin; blockHash := u256 0; ping_sigTime := 0; ping_vchSig := [] |}.

(** [operator==]: the time and the signature are not compared. *)
Definition ping_eq (a b : CMasternodePing) : bool := bool_decide (ping_vin a = ping_vin b) && eq (blockHash a) (blockHash b).

Inductive mn_state := MASTERNODE_PRE_ENABLED | MASTERNODE_ENABLED | MASTERNODE_EXPIRED | MASTERNODE_OUTPOINT_SPENT | MASTERNODE_REMOVE
  | MASTERNODE_WATCHDOG_EXPIRED | MASTERNODE_POSE_BAN | MASTERNODE_VIN_SPENT | MASTERNODE_POS_ERROR.

#[export] Instance mn_state_eq_dec : EqDecision mn_state.
Proof. solve_decision. Defined.

Record CMasternode := {
  mn_vin : CTxIn;
  mn_addr : CService;
  pubKeyCollateralAddress : byte_list;
  pubKeyMasternode : byte_list;
  mn_sig : byte_list;
  activeState : mn_state;
  mn_sigTime : Z;
  lastPing : CMasternodePing;
  cacheInputAge : Z;
  cacheInputAgeBlock : Z;
  unitTest : bool;
  protocolVersion : Z;
  lastTimeChecked : Z
}.

Definition set_state (x : mn_state) (mn : CMasternode) : CMasternode := {|
  mn_vin := mn_vin mn; mn_addr := mn_addr mn; pubKeyCollateralAddress := pubKeyCollateralAddress mn; pubKeyMasternode := pubKeyMasternode mn;
  mn_sig := mn_sig mn; activeState := x; mn_sigTime := mn_sigTime mn; lastPing := lastPing mn; cacheInputAge := cacheInputAge mn;
  cacheInputAgeBlock := cacheInputAgeBlock mn; unitTest := unitTest mn; protocolVersion := protocolVersion mn; lastTimeChecked := lastTimeChecked mn |}.

Definition set_checked (t : Z) (mn : CMasternode) : CMasternode := {|
  mn_vin := mn_vin mn; mn_addr := mn_addr mn; pubKeyCollateralAddress := pubKeyCollateralAddress mn; pubKeyMasternode := pubKeyMasternode mn;
  mn_sig := mn_sig mn; activeState := activeState mn; mn_sigTime := mn_sigTime mn; lastPing := lastPing mn; cacheInputAge := cacheInputAge mn;
  cacheInputAgeBlock := cacheInputAgeBlock mn; unitTest := unitTest mn; protocolVersion := protocolVersion mn; lastTimeChecked := t |}.

Definition set_ping (p : CMasternodePing) (mn : CMasternode) : CMasternode := {|
  mn_vin := mn_vin mn; mn_addr := mn_addr mn; pubKeyCollateralAddress := pubKeyCollateralAddress mn; pubKeyMasternode := pubKeyMasternode mn;
  mn_sig := mn_sig mn; activeState := activeState mn; mn_sigTime := mn_sigTime mn; lastPing := p; cacheInputAge := cacheInputAge mn;
  cacheInputAgeBlock := cacheInputAgeBlock mn; unitTest := unitTest mn; protocolVersion := protocolVersion mn; lastTimeChecked := lastTimeChecked mn |}.

Definition set_age (age height : Z) (mn : CMasternode) : CMasternode := {|
  mn_vin := mn_vin mn; mn_addr := mn_addr mn; pubKeyCollateralAddress := pubKeyCollateralAddress mn; pubKeyMasternode := pubKeyMasternode mn;
  mn_sig := mn_sig mn; activeState := activeState mn; mn_sigTime := mn_sigTime mn; lastPing := lastPing mn; cacheInputAge := age;
  cacheInputAgeBlock := height; unitTest := unitTest mn; protocolVersion := protocolVersion mn; lastTimeChecked := lastTimeChecked mn |}.

(** The constructor from a broadcast. *)
Definition masternode_of (mnb : CMasternode) : CMasternode := {|
  mn_vin := mn_vin mnb; mn_addr := mn_addr mnb; pubKeyCollateralAddress := pubKeyCollateralAddress mnb; pubKeyMasternode := pubKeyMasternode mnb;
  mn_sig := mn_sig mnb; activeState := MASTERNODE_ENABLED; mn_sigTime := mn_sigTime mnb; lastPing := lastPing mnb; cacheInputAge := 0;
  cacheInputAgeBlock := 0; unitTest := false; protocolVersion := protocolVersion mnb; lastTimeChecked := 0 |}.

(** The fields of a broadcast that [UpdateFromNewBroadcast] takes over before the ping. *)
Definition take_over (mnb mn : CMasternode) : CMasternode := {|
  mn_vin := mn_vin mn; mn_addr := mn_addr mnb; pubKeyCollateralAddress := pubKeyCollateralAddress mnb; pubKeyMasternode := pubKeyMasternode mnb;
  mn_sig := mn_sig mnb; activeState := activeState mn; mn_sigTime := mn_sigTime mnb; lastPing := lastPing mn; cacheInputAge := cacheInputAge mn;
  cacheInputAgeBlock := cacheInputAgeBlock mn; unitTest := unitTest mn; protocolVersion := protocolVersion mnb; lastTimeChecked := 0 |}.

Definition IsEnabled (mn : CMasternode) : bool := bool_decide (activeState mn = MASTERNODE_ENABLED).

(** The node's own masternode, when it runs one. *)
Record CActiveMasternode := { fMasterNode : bool; active_vin : CTxIn; active_pubKeyMasternode : byte_list }.

(** What is known at the moment of a call: the clock, [GetAdjustedTime], the chain and its
    index, the sporks, whether the network is the main one, the spending of an output as
    [AcceptableInputs] sees it (whether it is accepted, and the score of an invalid one),
    [GetInputAge], [GetTransaction], the node's own masternode, and whether the next
    [push_back] moves the vector. *)
Record World := {
  w_time : Z;
  w_adjusted : Z;
  w_store : store;
  w_chain : chain;
  w_index : gmap uint256 ptr;
  w_sporks : SporkState;
  w_main : bool;
  w_shutdown : bool;
  w_collateral : CScript;
  w_acceptable : CTransaction -> bool * option Z;
  w_input_age : COutPoint -> Z;
  w_transaction : uint256 -> option (CTransaction * uint256);
  w_active : CActiveMasternode;
  w_moves : bool
}.

(** The state of the manager, with the cache of block hashes and what [masternodeSync]
    counts for announcements. *)
Record CMasternodeMan := {
  vMasternodes : list CMasternode;
  mAskedUsForMasternodeList : gmap byte_list Z;
  mWeAskedForMasternodeList : gmap byte_list Z;
  mWeAskedForMasternodeListEntry : gmap COutPoint Z;
  mapSeenMasternodeBroadcast : gmap uint256 CMasternode;
  mapSeenMasternodePing : gmap uint256 CMasternodePing;
  mapCacheBlockHashes : gmap Z uint256;
  mapSeenSyncMNB : gmap uint256 Z;
  lastMasternodeList : Z
}.

Definition set_list (l : list CMasternode) (s : CMasternodeMan) : CMasternodeMan := {|
  vMasternodes := l; mAskedUsForMasternodeList := mAskedUsForMasternodeList s; mWeAskedForMasternodeList := mWeAskedForMasternodeList s;
  mWeAskedForMasternodeListEntry := mWeAskedForMasternodeListEntry s; mapSeenMasternodeBroadcast := mapSeenMasternodeBroadcast s;
  mapSeenMasternodePing := mapSeenMasternodePing s; mapCacheBlockHashes := mapCacheBlockHashes s; mapSeenSyncMNB := mapSeenSyncMNB s;
  lastMasternodeList := lastMasternodeList s |}.

Definition set_seen (b : gmap uint256 CMasternode) (p : gmap uint256 CMasternodePing) (s : CMasternodeMan) : CMasternodeMan := {|
  vMasternodes := vMasternodes s; mAskedUsForMasternodeList := mAskedUsForMasternodeList s; mWeAskedForMasternodeList := mWeAskedForMasternodeList s;
  mWeAskedForMasternodeListEntry := mWeAskedForMasternodeListEntry s; mapSeenMasternodeBroadcast := b;
  mapSeenMasternodePing := p; mapCacheBlockHashes := mapCacheBlockHashes s; mapSeenSyncMNB := mapSeenSyncMNB s;
  lastMasternodeList := lastMasternodeList s |}.

Definition set_asked (us we : gmap byte_list Z) (entry : gmap COutPoint Z) (s : CMasternodeMan) : CMasternodeMan := {|
  vMasternodes := vMasternodes s; mAskedUsForMasternodeList := us; mWeAskedForMasternodeList := we;
  mWeAskedForMasternodeListEntry := entry; mapSeenMasternodeBroadcast := mapSeenMasternodeBroadcast s;
  mapSeenMasternodePing := mapSeenMasternodePing s; mapCacheBlockHashes := mapCacheBlockHashes s; mapSeenSyncMNB := mapSeenSyncMNB s;
  lastMasternodeList := lastMasternodeList s |}.

Definition set_hashes (c : gmap Z uint256) (s : CMasternodeMan) : CMasternodeMan := {|
  vMasternodes := vMasternodes s; mAskedUsForMasternodeList := mAskedUsForMasternodeList s; mWeAskedForMasternodeList := mWeAskedForMasternodeList s;
  mWeAskedForMasternodeListEntry := mWeAskedForMasternodeListEntry s; mapSeenMasternodeBroadcast := mapSeenMasternodeBroadcast s;
  mapSeenMasternodePing := mapSeenMasternodePing s; mapCacheBlockHashes := c; mapSeenSyncMNB := mapSeenSyncMNB s;
  lastMasternodeList := lastMasternodeList s |}.

Definition set_sync (m : gmap uint256 Z) (t : Z) (s : CMasternodeMan) : CMasternodeMan := {|
  vMasternodes := vMasternodes s; mAskedUsForMasternodeList := mAskedUsForMasternodeList s; mWeAskedForMasternodeList := mWeAskedForMasternodeList s;
  mWeAskedForMasternodeListEntry := mWeAskedForMasternodeListEntry s; mapSeenMasternodeBroadcast := mapSeenMasternodeBroadcast s;
  mapSeenMasternodePing := mapSeenMasternodePing s; mapCacheBlockHashes := mapCacheBlockHashes s; mapSeenSyncMNB := m;
  lastMasternodeList := t |}.

(** [std::sort(v.rbegin(), v.rend(), less)] by a number: from the highest to the lowest,
    equal ones in whatever order the algorithm leaves them. *)
Class StdSort := { sort_down {A} (key : A -> Z) (l : list A) : list A }.

Class StdSortLaws `{StdSort} : Prop := {
  sort_down_perm {A} (key : A -> Z) (l : list A) : sort_down key l ≡ₚ l;
  sort_down_sorted {A} (key : A -> Z) (l : list A) : StronglySorted (fun a b => key b <= key a) (sort_down key l)
}.

(** * Block hashes *)

(** [for (...; BlockReading && BlockReading->nHeight > 0; ...)], from the [n]-th block back. *)
Fixpoint walk_back (fuel : nat) (st : store) (n nBlocksAgo : Z) (p : ptr) : option uint256 :=
  match fuel with
  | O => None
  | S fuel =>
      if negb (0 <? height_of st p) then None
      else if nBlocksAgo <=? n then Some (phashBlock (deref st p))
      else match pprev_of st p with None => None | Some q => walk_back fuel st (n + 1) nBlocksAgo q end
  end.

Definition GetBlockHash (st : store) (c : chain) (nBlockHeight : Z) (cache : gmap Z uint256) : gmap Z uint256 * option uint256 :=
  match Tip c with
  | None => (cache, None)
  | Some tip =>
      let height := height_of st tip in
      let nBlockHeight := if nBlockHeight =? 0 then height else nBlockHeight in
      match cache !! nBlockHeight with
      | Some hash => (cache, Some hash)
      | None =>
          if (height =? 0) || (height + 1 <? nBlockHeight) then (cache, None)
          else
            let nBlocksAgo := if 0 <? nBlockHeight then height + 1 - nBlockHeight else 0 in
            match walk_back (S (Z.to_nat height)) st 0 nBlocksAgo tip with
            | Some hash => (<[nBlockHeight := hash]> cache, Some hash)
            | None => (cache, None)
            end
      end
  end.

Section Masternodes.
Context `{StdSort} (lib : secp256k1) (rec : secp256k1_recovery lib).
Context (addr_text : CService -> byte_list) (txin_text : CTxIn -> byte_list).

Section World.
Context (W : World).

Definition mn_block_hash (nBlockHeight : Z) (s : CMasternodeMan) : CMasternodeMan * option uint256 :=
  let '(c, r) := GetBlockHash (w_store W) (w_chain W) (s32 nBlockHeight) (mapCacheBlockHashes s) in (set_hashes c s, r).

Definition CalculateScore (mn : CMasternode) (nBlockHeight : Z) (s : CMasternodeMan) : CMasternodeMan * uint256 :=
  match Tip (w_chain W) with
  | None => (s, u256 0)
  | Some _ =>
      let aux := add (out_hash (prevout (mn_vin mn))) (u256 (out_n (prevout (mn_vin mn)))) in
      match mn_block_hash nBlockHeight s with
      | (s, None) => (s, u256 0)
      | (s, Some hash) =>
          let hash2 := Hash (to_bytes hash) in
          let hash3 := Hash (to_bytes hash ++ to_bytes aux) in
          (s, if gt hash3 hash2 then sub hash3 hash2 else sub hash2 hash3)
      end
  end.

(** * One masternode *)

Definition IsBroadcastedWithin (mn : CMasternode) (seconds : Z) : bool := w_adjusted W - mn_sigTime mn <? seconds.

Definition IsPingedWithin (mn : CMasternode) (seconds now : Z) : bool :=
  let now := if now =? -1 then w_adjusted W else now in
  if ping_eq (lastPing mn) null_ping then false else now - ping_sigTime (lastPing mn) <? seconds.

(** [CTxOut((GetMNCollateral1(height) - 0.01) * COIN, collateralPubKey)]: the transaction
    that would spend the collateral. *)
Definition collateral_value (nHeight : Z) : Z :=
  int64_of_double (double_mul (SFsub 53 1024 (double_of_Z (GetMNCollateral1 nHeight)) (SFdiv 53 1024 (double_of_Z 1) (double_of_Z 100))) (double_of_Z COIN)).

Definition spend_collateral (vin : CTxIn) : CTransaction := {|
  tx_nVersion := 1; vin := [vin]; vout := [{| nValue := collateral_value (Height (w_chain W)); scriptPubKey := w_collateral W |}]; nLockTime := 0 |}.

Definition mn_Check (forceCheck : bool) (mn : CMasternode) : CMasternode :=
  if w_shutdown W then mn
  else if negb forceCheck && (w_time W - lastTimeChecked mn <? MASTERNODE_CHECK_SECONDS) then mn
  else
    let mn := set_checked (w_time W) mn in
    if bool_decide (activeState mn = MASTERNODE_VIN_SPENT) then mn
    else if negb (IsPingedWithin mn MASTERNODE_REMOVAL_SECONDS (-1)) then set_state MASTERNODE_REMOVE mn
    else if negb (IsPingedWithin mn MASTERNODE_EXPIRATION_SECONDS (-1)) then set_state MASTERNODE_EXPIRED mn
    else if ping_sigTime (lastPing mn) - mn_sigTime mn <? MASTERNODE_MIN_MNP_SECONDS then set_state MASTERNODE_PRE_ENABLED mn
    else if negb (unitTest mn) && negb (w_acceptable W (spend_collateral (mn_vin mn))).1 then set_state MASTERNODE_VIN_SPENT mn
    else set_state MASTERNODE_ENABLED mn.

Definition GetMasternodeInputAge (mn : CMasternode) : CMasternode * Z :=
  match Tip (w_chain W) with
  | None => (mn, 0)
  | Some _ =>
      let height := Height (w_chain W) in
      let mn := if cacheInputAge mn =? 0 then set_age (w_input_age W (prevout (mn_vin mn))) height mn else mn in
      (mn, s32 (cacheInputAge mn + (height - cacheInputAgeBlock mn)))
  end.

(** * The list *)

Definition find_vin (v : CTxIn) (s : CMasternodeMan) : option nat :=
  fst <$> list_find (fun mn => prevout (mn_vin mn) = prevout v) (vMasternodes s).

Definition find_payee (payee : CScript) (s : CMasternodeMan) : option nat :=
  fst <$> list_find (fun mn => GetScriptForDestination (CKeyID (GetID (pubKeyCollateralAddress mn))) = payee) (vMasternodes s).

Definition find_pubkey (k : byte_list) (s : CMasternodeMan) : option nat :=
  fst <$> list_find (fun mn => pubKeyMasternode mn = k) (vMasternodes s).

(** [push_back]: the copy has not been checked, nor have the others if the vector moves. *)
Definition push_masternode (mn : CMasternode) (l : list CMasternode) : list CMasternode :=
  (if w_moves W then map (set_checked 0) l else l) ++ [set_checked 0 mn].

Definition mn_Add (mn : CMasternode) (s : CMasternodeMan) : CMasternodeMan * bool :=
  if negb (IsEnabled mn) then (s, false)
  else match find_vin (mn_vin mn) s with
       | Some _ => (s, false)
       | None => (set_list (push_masternode mn (vMasternodes s)) s, true)
       end.

(** [vector::erase]: the elements after it are assigned to their predecessors, which keep
    their [lastTimeChecked]. *)
Fixpoint erase_at (i : nat) (l : list CMasternode) : list CMasternode :=
  match l, i with
  | [], _ => []
  | x :: l', S i => x :: erase_at i l'
  | x :: l', O => match l' with [] => [] | y :: _ => set_checked (lastTimeChecked x) y :: erase_at 0 l' end
  end.

Definition mn_Remove (v : CTxIn) (s : CMasternodeMan) : CMasternodeMan :=
  match list_find (fun mn => mn_vin mn = v) (vMasternodes s) with
  | Some (i, _) => set_list (erase_at i (vMasternodes s)) s
  | None => s
  end.

Definition man_Check (s : CMasternodeMan) : CMasternodeMan := set_list (map (mn_Check false) (vMasternodes s)) s.

Definition GetMinMasternodePaymentsProto : Z :=
  if IsSporkActive (w_sporks W) (w_time W) SPORK_10_MASTERNODE_PAY_UPDATED_NODES then ActiveProtocol (w_sporks W) (w_time W) else MIN_PEER_PROTO_VERSION.

Definition CountEnabled (proto : Z) (s : CMasternodeMan) : CMasternodeMan * Z :=
  let proto := if proto =? -1 then GetMinMasternodePaymentsProto else proto in
  let s := man_Check s in
  (s, Z.of_nat (length (base.filter (fun mn => (protocolVersion mn <? proto) || negb (IsEnabled mn) = false) (vMasternodes s)))).

(** Whether a masternode is too young where spork 8 asks for an age. *)
Definition too_young (mn : CMasternode) : bool :=
  IsSporkActive (w_sporks W) (w_time W) SPORK_8_MASTERNODE_PAYMENT_ENFORCEMENT && (w_adjusted W - mn_sigTime mn <? MN_WINNER_MINIMUM_AGE).

(** The loops over the list that check the masternodes they do not skip before. *)
Definition check_unless (skip : CMasternode -> bool) (l : list CMasternode) : list CMasternode :=
  map (fun mn => if skip mn then mn else mn_Check false mn) l.

Definition stable_size (s : CMasternodeMan) : CMasternodeMan * Z :=
  let skip mn := (protocolVersion mn <? ActiveProtocol (w_sporks W) (w_time W)) || too_young mn in
  let l := check_unless skip (vMasternodes s) in
  (set_list l s, Z.of_nat (length (base.filter (fun mn => skip mn || negb (IsEnabled mn) = false) l))).

(** The scores of masternodes, in their order. *)
Fixpoint scores (nBlockHeight : Z) (l : list CMasternode) (s : CMasternodeMan) : CMasternodeMan * list (Z * CTxIn) :=
  match l with
  | [] => (s, [])
  | mn :: l =>
      let '(s, n) := CalculateScore mn nBlockHeight s in
      let '(s, r) := scores nBlockHeight l s in
      (s, (default 0 (GetCompact n false), mn_vin mn) :: r)
  end.

Fixpoint rank_of (v : CTxIn) (rank : Z) (l : list (Z * CTxIn)) : Z :=
  match l with
  | [] => -1
  | x :: l => if bool_decide (prevout x.2 = prevout v) then rank + 1 else rank_of v (rank + 1) l
  end.

Definition GetMasternodeRank (v : CTxIn) (nBlockHeight minProtocol : Z) (fOnlyActive : bool) (s : CMasternodeMan) : CMasternodeMan * Z :=
  match mn_block_hash nBlockHeight s with
  | (s, None) => (s, -1)
  | (s, Some _) =>
      let skip mn := (protocolVersion mn <? minProtocol) || too_young mn in
      let l := if fOnlyActive then check_unless skip (vMasternodes s) else vMasternodes s in
      let s := set_list l s in
      let '(s, vec) := scores nBlockHeight (base.filter (fun mn => skip mn || (fOnlyActive && negb (IsEnabled mn)) = false) l) s in
      (s, rank_of v 0 (sort_down fst vec))
  end.

(** The result is the place of the winner. *)
Fixpoint current_loop (i : nat) (nBlockHeight minProtocol : Z) (l : list CMasternode) (score : Z) (winner : option nat) (s : CMasternodeMan) : CMasternodeMan * option nat :=
  match l with
  | [] => (s, winner)
  | mn :: l =>
      if (protocolVersion mn <? minProtocol) || negb (IsEnabled mn) then current_loop (S i) nBlockHeight minProtocol l score winner s
      else
        let '(s, n) := CalculateScore mn nBlockHeight s in
        let n2 := default 0 (GetCompact n false) in
        if score <? n2 then current_loop (S i) nBlockHeight minProtocol l n2 (Some i) s
        else current_loop (S i) nBlockHeight minProtocol l score winner s
  end.

Definition GetCurrentMasterNode (nBlockHeight minProtocol : Z) (s : CMasternodeMan) : CMasternodeMan * option nat :=
  let s := man_Check s in
  current_loop 0 nBlockHeight minProtocol (vMasternodes s) 0 None s.

(** * Pings *)

Definition ping_GetHash (p : CMasternodePing) : uint256 := Hash (enc c_txin (ping_vin p) ++ enc (c_int 8) (ping_sigTime p)).

Definition ping_text (p : CMasternodePing) : byte_list := txin_text (ping_vin p) ++ GetHex (blockHash p) ++ decimal (ping_sigTime p).

(** The new value of [nDos], and the result. *)
Definition ping_VerifySignature (pubkey : byte_list) (p : CMasternodePing) (nDos : Z) : Z * bool :=
  if VerifyMessage lib rec pubkey (ping_vchSig p) (ping_text p) then (nDos, true) else (33, false).

Definition mnb_GetHash (mnb : CMasternode) : uint256 := Hash (enc (c_int 8) (mn_sigTime mnb) ++ enc c_bytes (pubKeyCollateralAddress mnb)).

Definition update_mn (i : nat) (f : CMasternode -> CMasternode) (s : CMasternodeMan) : CMasternodeMan := set_list (alter f i (vMasternodes s)) s.

(** The ping is stored with the masternode at [i] and with the announcement it came from. *)
Definition accept_ping (i : nat) (pmn : CMasternode) (p : CMasternodePing) (s : CMasternodeMan) : CMasternodeMan :=
  let s := update_mn i (set_ping p) s in
  set_seen (alter (set_ping p) (mnb_GetHash pmn) (mapSeenMasternodeBroadcast s)) (mapSeenMasternodePing s) s.

Definition ping_CheckAndUpdate (p : CMasternodePing) (nDos : Z) (fRequireEnabled fCheckSigTimeOnly : bool) (s : CMasternodeMan) : CMasternodeMan * Z * bool :=
  if w_adjusted W + 60 * 60 <? ping_sigTime p then (s, 1, false)
  else if ping_sigTime p <=? w_adjusted W - 60 * 60 then (s, 1, false)
  else
    let found := i ← find_vin (ping_vin p) s; mn ← vMasternodes s !! i; Some (i, mn) in
    if fCheckSigTimeOnly then
      match found with
      | Some (_, pmn) => let '(nDos, ok) := ping_VerifySignature (pubKeyMasternode pmn) p nDos in (s, nDos, ok)
      | None => (s, nDos, true)
      end
    else
      match found with
      | None => (s, nDos, false)
      | Some (i, pmn) =>
          if protocolVersion pmn <? GetMinMasternodePaymentsProto then (s, nDos, false)
          else if fRequireEnabled && negb (IsEnabled pmn) then (s, nDos, false)
          else if IsPingedWithin pmn (MASTERNODE_MIN_MNP_SECONDS - 60) (ping_sigTime p) then (s, nDos, false)
          else
            let '(nDos, ok) := ping_VerifySignature (pubKeyMasternode pmn) p nDos in
            if negb ok then (s, nDos, false)
            else
              match w_index W !! blockHash p with
              | None => (s, nDos, false)
              | Some q =>
                  if height_of (w_store W) q <? Height (w_chain W) - 24 then (s, nDos, false)
                  else
                    let s := update_mn i (mn_Check true) (accept_ping i pmn p s) in
                    (s, nDos, match vMasternodes s !! i with Some mn => IsEnabled mn | None => false end)
              end
      end.

(** * Announcements *)

Definition GetStrMessage (mnb : CMasternode) : byte_list :=
  addr_text (mn_addr mnb) ++ decimal (mn_sigTime mnb) ++ pubKeyCollateralAddress mnb ++ pubKeyMasternode mnb ++ decimal (protocolVersion mnb).

(** [masternodeSync.AddedMasternodeList]. *)
Definition AddedMasternodeList (hash : uint256) (s : CMasternodeMan) : CMasternodeMan :=
  match mapSeenMasternodeBroadcast s !! hash with
  | Some _ =>
      let n := default 0 (mapSeenSyncMNB s !! hash) in
      if n <? MASTERNODE_SYNC_THRESHOLD then set_sync (<[hash := n + 1]> (mapSeenSyncMNB s)) (w_time W) s
      else set_sync (<[hash := n]> (mapSeenSyncMNB s)) (lastMasternodeList s) s
  | None =>
      set_sync (match mapSeenSyncMNB s !! hash with Some _ => mapSeenSyncMNB s | None => <[hash := 1]> (mapSeenSyncMNB s) end) (w_time W) s
  end.

(** [map::insert]: an entry that is there stays. *)
Definition insert_new {A} (k : uint256) (x : A) (m : gmap uint256 A) : gmap uint256 A := match m !! k with Some _ => m | None => <[k := x]> m end.

Definition UpdateFromNewBroadcast (i : nat) (mnb : CMasternode) (s : CMasternodeMan) : CMasternodeMan * bool :=
  match vMasternodes s !! i with
  | None => (s, false)
  | Some mn =>
      if negb (mn_sigTime mn <? mn_sigTime mnb) then (s, false)
      else
        let s := update_mn i (take_over mnb) s in
        let '(s, _, ok) := if ping_eq (lastPing mnb) null_ping then (s, 0, true) else ping_CheckAndUpdate (lastPing mnb) 0 false false s in
        let s :=
          if ok : bool then
            let s := update_mn i (set_ping (lastPing mnb)) s in
            set_seen (mapSeenMasternodeBroadcast s) (insert_new (ping_GetHash (lastPing mnb)) (lastPing mnb) (mapSeenMasternodePing s)) s
          else s in
        (s, true)
  end.

Definition mnb_CheckAndUpdate (mnb : CMasternode) (nDos : Z) (s : CMasternodeMan) : CMasternodeMan * Z * bool :=
  if w_adjusted W + 60 * 60 <? mn_sigTime mnb then (s, 1, false)
  else if ping_eq (lastPing mnb) null_ping then (s, nDos, false)
  else
  let '(s, nDos, ok) := ping_CheckAndUpdate (lastPing mnb) nDos false true s in
  if negb ok then (s, nDos, false)
  else if protocolVersion mnb <? GetMinMasternodePaymentsProto then (s, nDos, false)
  else if negb (length (GetScriptForDestination (CKeyID (GetID (pubKeyCollateralAddress mnb)))) =? 25)%nat then (s, 100, false)
  else if negb (length (GetScriptForDestination (CKeyID (GetID (pubKeyMasternode mnb)))) =? 25)%nat then (s, 100, false)
  else if negb (length (scriptSig (mn_vin mnb)) =? 0)%nat then (s, nDos, false)
  else if negb (VerifyMessage lib rec (pubKeyCollateralAddress mnb) (mn_sig mnb) (GetStrMessage mnb)) then (s, 100, false)
  else
    match i ← find_vin (mn_vin mnb) s; mn ← vMasternodes s !! i; Some (i, mn) with
    | None => (s, nDos, true)
    | Some (i, pmn) =>
        if mn_sigTime mnb <=? mn_sigTime pmn then (s, nDos, false)
        else if negb (IsEnabled pmn) then (s, nDos, true)
        else if bool_decide (pubKeyCollateralAddress pmn = pubKeyCollateralAddress mnb) && negb (IsBroadcastedWithin pmn MASTERNODE_MIN_MNB_SECONDS) then
          let '(s, updated) := UpdateFromNewBroadcast i mnb s in
          let s := if updated : bool then update_mn i (mn_Check false) s else s in
          (AddedMasternodeList (mnb_GetHash mnb) s, nDos, true)
        else (s, nDos, true)
    end.

(** The announcement may be sent again. *)
Definition forget_seen (hash : uint256) (s : CMasternodeMan) : CMasternodeMan :=
  set_sync (delete hash (mapSeenSyncMNB s)) (lastMasternodeList s)
    (set_seen (delete hash (mapSeenMasternodeBroadcast s)) (mapSeenMasternodePing s) s).

Definition CheckInputsAndAdd (mnb : CMasternode) (nDoS : Z) (s : CMasternodeMan) : option (CMasternodeMan * Z * bool) :=
  let me := w_active W in
  if fMasterNode me && bool_decide (prevout (mn_vin mnb) = prevout (active_vin me)) && bool_decide (pubKeyMasternode mnb = active_pubKeyMasternode me) then Some (s, nDoS, true)
  else if ping_eq (lastPing mnb) null_ping then Some (s, nDoS, false)
  else
  let '(s, nDoS, ok) := ping_CheckAndUpdate (lastPing mnb) nDoS false true s in
  if negb ok then Some (s, nDoS, false)
  else
  let pmn := i ← find_vin (mn_vin mnb) s; vMasternodes s !! i in
  if match pmn with Some mn => IsEnabled mn | None => false end then Some (s, nDoS, true)
  else
  let s := match pmn with Some mn => mn_Remove (mn_vin mn) s | None => s end in
  let '(ok, score) := w_acceptable W (spend_collateral (mn_vin mnb)) in
  if negb ok then Some (s, default nDoS score, false)
  else if w_input_age W (prevout (mn_vin mnb)) <? MASTERNODE_MIN_CONFIRMATIONS then Some (forget_seen (mnb_GetHash mnb) s, nDoS, false)
  else
  let add := (mn_Add (masternode_of mnb) s).1 in
  match w_transaction W (out_hash (prevout (mn_vin mnb))) with
  | Some (_, hashBlock) =>
      match w_index W !! hashBlock with
      | Some p =>
          pConf ← chain_at (w_chain W) (height_of (w_store W) p + MASTERNODE_MIN_CONFIRMATIONS - 1);
          if mn_sigTime mnb <? GetBlockTime (deref (w_store W) pConf) then Some (s, nDoS, false) else Some (add, nDoS, true)
      | None => Some (add, nDoS, true)
      end
  | None => Some (add, nDoS, true)
  end.

(** [IsVinAssociatedWithPubkey]: an output of the transaction, whichever. *)
Definition IsVinAssociatedWithPubkey (v : CTxIn) (pubkey : byte_list) : bool :=
  let h := Height (w_chain W) in
  match w_transaction W (out_hash (prevout v)) with
  | None => false
  | Some (tx, _) =>
      existsb (fun out => ((nValue out =? GetMNCollateral h * COIN) || (nValue out =? GetMNCollateral1 h * COIN))
        && bool_decide (scriptPubKey out = GetScriptForDestination (CKeyID (GetID pubkey)))) (vout tx)
  end.

(** * Messages

    Each returns the new state and what [Misbehaving] is called with (0: not called). *)

Definition process_mnb (mnb : CMasternode) (s : CMasternodeMan) : option (CMasternodeMan * Z) :=
  let hash := mnb_GetHash mnb in
  match mapSeenMasternodeBroadcast s !! hash with
  | Some _ => Some (AddedMasternodeList hash s, 0)
  | None =>
      let s := set_seen (<[hash := mnb]> (mapSeenMasternodeBroadcast s)) (mapSeenMasternodePing s) s in
      let '(s, nDoS, ok) := mnb_CheckAndUpdate mnb 0 s in
      if negb ok then Some (s, Z.max 0 nDoS)
      else if negb (IsVinAssociatedWithPubkey (mn_vin mnb) (pubKeyCollateralAddress mnb)) then Some (s, 33)
      else
        r ← CheckInputsAndAdd mnb nDoS s;
        let '(s, nDoS, ok) := r in
        Some (if ok : bool then (AddedMasternodeList hash s, 0) else (s, Z.max 0 nDoS))
  end.

(** [AskForMN]. *)
Definition AskForMN (v : CTxIn) (s : CMasternodeMan) : CMasternodeMan :=
  let ask := set_asked (mAskedUsForMasternodeList s) (mWeAskedForMasternodeList s)
    (<[prevout v := w_time W + MASTERNODE_MIN_MNP_SECONDS]> (mWeAskedForMasternodeListEntry s)) s in
  match mWeAskedForMasternodeListEntry s !! prevout v with
  | Some t => if w_time W <? t then s else ask
  | None => ask
  end.

Definition process_mnp (mnp : CMasternodePing) (s : CMasternodeMan) : CMasternodeMan * Z :=
  let hash := ping_GetHash mnp in
  match mapSeenMasternodePing s !! hash with
  | Some _ => (s, 0)
  | None =>
      let s := set_seen (mapSeenMasternodeBroadcast s) (<[hash := mnp]> (mapSeenMasternodePing s)) s in
      let '(s, nDoS, ok) := ping_CheckAndUpdate mnp 0 true false s in
      if ok : bool then (s, 0)
      else if 0 <? nDoS then (AskForMN (ping_vin mnp) s, nDoS)
      else match find_vin (ping_vin mnp) s with Some _ => (s, 0) | None => (AskForMN (ping_vin mnp) s, 0) end
  end.

(** The announcements sent in answer to dseg, and the ones seen afterwards. *)
Fixpoint dseg_loop (v : CTxIn) (l : list CMasternode) (seen : gmap uint256 CMasternode) : gmap uint256 CMasternode * list uint256 :=
  match l with
  | [] => (seen, [])
  | mn :: l =>
      if IsRFC1918 (mn_addr mn) || negb (IsEnabled mn) || negb (bool_decide (v = null_txin) || bool_decide (v = mn_vin mn)) then dseg_loop v l seen
      else
        let hash := mnb_GetHash mn in
        let seen := insert_new hash mn seen in
        if bool_decide (v = mn_vin mn) then (seen, [hash])
        else let '(seen, r) := dseg_loop v l seen in (seen, hash :: r)
  end.

(** [from] is the address of the peer. *)
Definition process_dseg (from : CService) (v : CTxIn) (s : CMasternodeMan) : CMasternodeMan * Z * list uint256 :=
  let whole := bool_decide (v = null_txin) && negb (IsRFC1918 from || IsLocal from) && w_main W in
  if whole && match mAskedUsForMasternodeList s !! ip from with Some t => w_time W <? t | None => false end then (s, 34, [])
  else
    let s := if whole then set_asked (<[ip from := w_time W + MASTERNODES_DSEG_SECONDS]> (mAskedUsForMasternodeList s)) (mWeAskedForMasternodeList s) (mWeAskedForMasternodeListEntry s) s else s in
    let '(seen, r) := dseg_loop v (vMasternodes s) (mapSeenMasternodeBroadcast s) in
    (set_seen seen (mapSeenMasternodePing s) s, 0, r).

(** [DsegUpdate] for a peer: whether it is asked for the list. *)
Definition DsegUpdate (peer : CService) (s : CMasternodeMan) : CMasternodeMan * bool :=
  if w_main W && negb (IsRFC1918 peer || IsLocal peer) && match mWeAskedForMasternodeList s !! ip peer with Some t => w_time W <? t | None => false end
  then (s, false)
  else (set_asked (mAskedUsForMasternodeList s) (<[ip peer := w_time W + MASTERNODES_DSEG_SECONDS]> (mWeAskedForMasternodeList s)) (mWeAskedForMasternodeListEntry s) s, true).

(** The node's own announcement. *)
Definition UpdateMasternodeList (mnb : CMasternode) (s : CMasternodeMan) : CMasternodeMan :=
  let s := set_seen (insert_new (mnb_GetHash mnb) mnb (mapSeenMasternodeBroadcast s)) (insert_new (ping_GetHash (lastPing mnb)) (lastPing mnb) (mapSeenMasternodePing s)) s in
  let s := AddedMasternodeList (mnb_GetHash mnb) s in
  match find_vin (mn_vin mnb) s with
  | None => (mn_Add (masternode_of mnb) s).1
  | Some i => (UpdateFromNewBroadcast i mnb s).1
  end.

(** * Cleaning *)

(** What is forgotten with a masternode. *)
Definition forget_masternode (mn : CMasternode) (s : CMasternodeMan) : CMasternodeMan :=
  let gone := base.filter (fun e => mn_vin e.2 = mn_vin mn) (mapSeenMasternodeBroadcast s) in
  let s := set_seen (mapSeenMasternodeBroadcast s ∖ gone) (mapSeenMasternodePing s) s in
  let s := set_sync (base.filter (fun e => gone !! e.1 = None) (mapSeenSyncMNB s)) (lastMasternodeList s) s in
  set_asked (mAskedUsForMasternodeList s) (mWeAskedForMasternodeList s) (delete (prevout (mn_vin mn)) (mWeAskedForMasternodeListEntry s)) s.

Definition removable (forceExpiredRemoval : bool) (mn : CMasternode) : bool :=
  bool_decide (activeState mn = MASTERNODE_REMOVE) || bool_decide (activeState mn = MASTERNODE_VIN_SPENT)
  || forceExpiredRemoval && bool_decide (activeState mn = MASTERNODE_EXPIRED) || (protocolVersion mn <? GetMinMasternodePaymentsProto).

(** The list from the place [i] on; [fuel] is the number of masternodes. *)
Fixpoint remove_loop (fuel : nat) (force : bool) (i : nat) (s : CMasternodeMan) : CMasternodeMan :=
  match fuel, vMasternodes s !! i with
  | S fuel, Some mn =>
      if removable force mn then remove_loop fuel force i (set_list (erase_at i (vMasternodes s)) (forget_masternode mn s))
      else remove_loop fuel force (S i) s
  | _, _ => s
  end.

(** The announcements in the order of their hashes: after one is erased, the count of the
    next one is erased in its place, and there may be no next one. *)
Fixpoint expire_loop (keys : list uint256) (s : CMasternodeMan) : option CMasternodeMan :=
  match keys with
  | [] => Some s
  | k :: keys =>
      match mapSeenMasternodeBroadcast s !! k with
      | None => expire_loop keys s
      | Some mnb =>
          if ping_sigTime (lastPing mnb) <? w_time W - MASTERNODE_REMOVAL_SECONDS * 2 then
            let s := set_seen (delete k (mapSeenMasternodeBroadcast s)) (mapSeenMasternodePing s) s in
            k' ← head keys;
            next ← mapSeenMasternodeBroadcast s !! k';
            expire_loop keys (set_sync (delete (mnb_GetHash next) (mapSeenSyncMNB s)) (lastMasternodeList s) s)
          else expire_loop keys s
      end
  end.

Definition hash_order (a b : uint256) : Prop := val a <= val b.
#[local] Instance hash_order_dec a b : Decision (hash_order a b). Proof. apply Z.le_dec. Defined.
Definition in_hash_order {A} (m : gmap uint256 A) : list uint256 := merge_sort hash_order (map fst (map_to_list m)).

Definition CheckAndRemove (forceExpiredRemoval : bool) (s : CMasternodeMan) : option CMasternodeMan :=
  let s := man_Check s in
  let s := remove_loop (length (vMasternodes s)) forceExpiredRemoval 0 s in
  let s := set_asked (base.filter (fun e => w_time W <= e.2) (mAskedUsForMasternodeList s)) (base.filter (fun e => w_time W <= e.2) (mWeAskedForMasternodeList s))
    (base.filter (fun e => w_time W <= e.2) (mWeAskedForMasternodeListEntry s)) s in
  s ← expire_loop (in_hash_order (mapSeenMasternodeBroadcast s)) s;
  Some (set_seen (mapSeenMasternodeBroadcast s) (base.filter (fun e => w_time W - MASTERNODE_REMOVAL_SECONDS * 2 <= ping_sigTime e.2) (mapSeenMasternodePing s)) s).
End World.
End Masternodes.

#[global] Arguments mnb_GetHash : simpl never.
#[global] Arguments ping_GetHash : simpl never.

(** * What a masternode claims

    Checks and pings change the state of a masternode, not what its announcement says. *)

Definition claims (mn : CMasternode) : CTxIn * (CService * byte_list * byte_list * byte_list * Z * Z) :=
  (mn_vin mn, (mn_addr mn, pubKeyCollateralAddress mn, pubKeyMasternode mn, mn_sig mn, mn_sigTime mn, protocolVersion mn)).
Definition all_claims (s : CMasternodeMan) := map claims (vMasternodes s).

Section Invariant.
Context `{StdSort} (lib : secp256k1) (rec : secp256k1_recovery lib).
Context (addr_text : CService -> byte_list) (txin_text : CTxIn -> byte_list).

(** The announcement is signed with the key of the collateral. *)
Definition announced (mn : CMasternode) : Prop :=
  VerifyMessage lib rec (pubKeyCollateralAddress mn) (mn_sig mn) (GetStrMessage addr_text mn) = true.

Lemma claims_announced a b : (claims a).2 = (claims b).2 -> announced a -> announced b.
Proof. unfold announced, GetStrMessage, claims. cbn [snd]. intros [= -> -> -> -> -> ->]. done. Qed.

Lemma claims_check W f mn : claims (mn_Check W f mn) = claims mn.
Proof. unfold mn_Check. by repeat case_match. Qed.

Lemma map_alter_same {A B} (g : A -> B) (f : A -> A) i l : (forall x, g (f x) = g x) -> map g (alter f i l) = map g l.
Proof.
  intros E. revert i. induction l as [|x l IH]; intros [|i]; cbn; try done; [by rewrite E|by rewrite IH].
Qed.

Lemma claims_update s i f : (forall mn, claims (f mn) = claims mn) -> all_claims (update_mn i f s) = all_claims s.
Proof. intros E. unfold all_claims. cbn. by apply map_alter_same. Qed.

Lemma claims_man_check W s : all_claims (man_Check W s) = all_claims s.
Proof. unfold all_claims. cbn. rewrite map_map. apply map_ext. intros mn. apply claims_check. Qed.

Lemma claims_check_unless W skip l : map claims (check_unless W skip l) = map claims l.
Proof. unfold check_unless. rewrite map_map. apply map_ext. intros mn. destruct (skip mn); [done|apply claims_check]. Qed.

Lemma claims_accept_ping i pmn p s : all_claims (accept_ping i pmn p s) = all_claims s.
Proof. unfold accept_ping, all_claims. cbn. by apply map_alter_same. Qed.

Lemma claims_checked_map t l : map claims (map (set_checked t) l) = map claims l.
Proof. rewrite map_map. by apply map_ext. Qed.

Lemma claims_erase i l : map claims (erase_at i l) = delete i (map claims l).
Proof.
  revert i. induction l as [|x l IH]; intros i; [by destruct i|]. destruct i as [|i]; cbn; [|f_equal; apply IH].
  destruct l as [|y l]; [done|]. cbn. f_equal. apply (IH 0%nat).
Qed.

(** ** The invariant *)

Record man_inv (s : CMasternodeMan) : Prop := {
  mi_distinct : NoDup (map (fun c => prevout c.1) (all_claims s));
  mi_announced : Forall announced (vMasternodes s);
  mi_broadcasts h b : mapSeenMasternodeBroadcast s !! h = Some b -> mnb_GetHash b = h;
  mi_pings h p : mapSeenMasternodePing s !! h = Some p -> ping_GetHash p = h;
  mi_counts h n : mapSeenSyncMNB s !! h = Some n -> 0 <= n <= MASTERNODE_SYNC_THRESHOLD
}.

(** The parts of the state that are not the list. *)
Definition seen_inv (s : CMasternodeMan) : Prop :=
  (forall h b, mapSeenMasternodeBroadcast s !! h = Some b -> mnb_GetHash b = h) /\
  (forall h p, mapSeenMasternodePing s !! h = Some p -> ping_GetHash p = h) /\
  (forall h n, mapSeenSyncMNB s !! h = Some n -> 0 <= n <= MASTERNODE_SYNC_THRESHOLD).

Definition list_inv (s : CMasternodeMan) : Prop := NoDup (map (fun c => prevout c.1) (all_claims s)) /\ Forall announced (vMasternodes s).

Lemma man_inv_parts s : man_inv s <-> list_inv s /\ seen_inv s.
Proof. split; [by intros []|]. by intros [[] (? & ? & ?)]. Qed.

(** The list after an operation that keeps what is claimed, or drops some. *)
Definition claim_signed (c : CTxIn * (CService * byte_list * byte_list * byte_list * Z * Z)) : Prop :=
  let '(_, (addr, k1, k2, sig, t, v)) := c in VerifyMessage lib rec k1 sig (addr_text addr ++ decimal t ++ k1 ++ k2 ++ decimal v) = true.

Lemma announced_claims l : Forall announced l <-> Forall claim_signed (map claims l).
Proof. symmetry. apply Forall_fmap. Qed.

Lemma map_sublist {A B} (f : A -> B) l k : l `sublist_of` k -> map f l `sublist_of` map f k.
Proof. induction 1; cbn; by constructor. Qed.

Lemma list_inv_sub s s' : all_claims s' `sublist_of` all_claims s -> list_inv s -> list_inv s'.
Proof.
  intros S [N A]. rewrite announced_claims, Forall_forall in A. split.
  - apply (sublist_NoDup _ (map (fun c => prevout c.1) (all_claims s))); [done|by apply map_sublist].
  - apply announced_claims, Forall_forall. intros c I. apply A. by apply (elem_of_sublist (all_claims s')).
Qed.

Lemma list_inv_same s s' : all_claims s' = all_claims s -> list_inv s -> list_inv s'.
Proof. intros E. apply list_inv_sub. by rewrite E. Qed.

(** Changes that leave the maps of what was seen alone. *)
Definition same_seen (s s' : CMasternodeMan) : Prop :=
  mapSeenMasternodeBroadcast s' = mapSeenMasternodeBroadcast s /\ mapSeenMasternodePing s' = mapSeenMasternodePing s /\ mapSeenSyncMNB s' = mapSeenSyncMNB s.

Lemma seen_inv_same s s' : same_seen s s' -> seen_inv s -> seen_inv s'.
Proof. unfold seen_inv. by intros (-> & -> & ->). Qed.

Lemma seen_accept_ping i pmn p s : seen_inv s -> seen_inv (accept_ping i pmn p s).
Proof.
  intros (B & P & C). unfold accept_ping. split_and!; cbn; [|done|done]. intros h b. rewrite lookup_alter_Some.
  intros [(_ & x & E & ->)|[_ E]]; [|by apply B]. by apply B in E.
Qed.

Lemma seen_added W hash s : seen_inv s -> seen_inv (AddedMasternodeList W hash s).
Proof.
  intros (B & P & C). unfold AddedMasternodeList. unfold MASTERNODE_SYNC_THRESHOLD in *.
  assert (D : 0 <= default 0 (mapSeenSyncMNB s !! hash) <= 2) by (destruct (mapSeenSyncMNB s !! hash) eqn:E; cbn; [by apply C in E|lia]).
  assert (I : forall k t, 0 <= k <= 2 -> seen_inv (set_sync (<[hash := k]> (mapSeenSyncMNB s)) t s)).
  { intros k t Hk. split_and!; [done|done|]. intros h n. cbn. rewrite lookup_insert_Some. intros [[_ <-]|[_ E]]; [done|by apply C in E]. }
  destruct (mapSeenMasternodeBroadcast s !! hash); [destruct (Z.ltb_spec (default 0 (mapSeenSyncMNB s !! hash)) 2); apply I; lia|].
  destruct (mapSeenSyncMNB s !! hash); [by split_and!|apply I; lia].
Qed.

Lemma claims_added W hash s : all_claims (AddedMasternodeList W hash s) = all_claims s.
Proof. unfold AddedMasternodeList. by repeat case_match. Qed.

Lemma seen_insert_broadcast hash b s : hash = mnb_GetHash b -> seen_inv s -> seen_inv (set_seen (<[hash := b]> (mapSeenMasternodeBroadcast s)) (mapSeenMasternodePing s) s).
Proof. intros -> (B & P & C). split_and!; cbn; [|done|done]. intros h x. rewrite lookup_insert_Some. intros [[<- <-]|[_ E]]; [done|by apply B]. Qed.

Lemma insert_new_lookup {A} k (x : A) m h y : insert_new k x m !! h = Some y -> m !! h = Some y \/ h = k /\ y = x.
Proof. unfold insert_new. destruct (m !! k); [by left|]. rewrite lookup_insert_Some. intros [[<- <-]|[_ ?]]; [by right|by left]. Qed.

(** ** Every operation keeps it *)

Lemma ping_update W p d req only s s' d' ok : ping_CheckAndUpdate lib rec txin_text W p d req only s = (s', d', ok) ->
  all_claims s' = all_claims s /\ (seen_inv s -> seen_inv s').
Proof.
  unfold ping_CheckAndUpdate. intros E.
  assert (Same : forall d0 ok0, (s, d0, ok0) = (s', d', ok) -> all_claims s' = all_claims s /\ (seen_inv s -> seen_inv s')) by (intros ? ? [= <- <- <-]; by split).
  destruct (_ <? ping_sigTime p); [by eapply Same|]. destruct (ping_sigTime p <=? _); [by eapply Same|].
  destruct (i ← find_vin _ s; _) as [[i pmn]|]; destruct only; try (by eapply Same).
  { destruct (ping_VerifySignature _ _ _ _ p d) as [d1 ok1]; by eapply Same. }
  destruct (protocolVersion pmn <? _); [by eapply Same|]. destruct (req && _); [by eapply Same|]. destruct (IsPingedWithin _ _ _ _); [by eapply Same|].
  destruct (ping_VerifySignature _ _ _ _ p d) as [d1 ok1]. destruct ok1; cbn [negb] in E; [|by eapply Same]. destruct (w_index W !! _) as [q|]; [|by eapply Same].
  destruct (_ <? Height _ - 24); [by eapply Same|]. injection E as <- <- <-. split.
  - rewrite claims_update by (intros; apply claims_check). apply claims_accept_ping.
  - intros I. by apply (seen_inv_same (accept_ping i pmn p s)), seen_accept_ping.
Qed.

Lemma find_vin_claims v s i : find_vin v s = Some i -> exists mn, vMasternodes s !! i = Some mn /\ prevout (mn_vin mn) = prevout v.
Proof.
  unfold find_vin. destruct (list_find _ _) as [[j mn]|] eqn:F; [|done]. intros [= <-]. apply list_find_Some in F as (L & E & _). by exists mn.
Qed.

Lemma find_vin_none v s : find_vin v s = None -> prevout v ∉ map (fun c => prevout c.1) (all_claims s).
Proof.
  unfold find_vin. destruct (list_find _ _) as [[j mn]|] eqn:F; [done|]. intros _. apply list_find_None in F. rewrite Forall_forall in F.
  unfold all_claims. rewrite map_map. intros (mn & E & I)%list_elem_of_fmap. by apply (F mn).
Qed.

Lemma list_inv_update s s' i mn mnb : list_inv s -> vMasternodes s !! i = Some mn -> announced mnb ->
  all_claims s' = <[i := claims (take_over mnb mn)]> (all_claims s) -> list_inv s'.
Proof.
  intros I L A E. assert (I' : list_inv (update_mn i (take_over mnb) s)).
  { destruct I as [N F]. split.
    - unfold all_claims in *. cbn [update_mn set_list vMasternodes]. rewrite map_map in *. rewrite (map_alter_same (fun mn => prevout (claims mn).1) (take_over mnb)); [done|by intros].
    - cbn [update_mn set_list vMasternodes]. apply Forall_alter; [done|]. intros x _ _. by apply (claims_announced mnb). }
  revert I'. apply list_inv_same. rewrite E. unfold all_claims. cbn [update_mn set_list vMasternodes].
  clear E A I. revert i L. induction (vMasternodes s) as [|x l IH]; intros [|i] L; cbn in *; try done; [by injection L as ->|]. f_equal. by apply IH.
Qed.

Lemma update_from_spec W i mnb s s' b mn : UpdateFromNewBroadcast lib rec txin_text W i mnb s = (s', b) -> vMasternodes s !! i = Some mn ->
  (all_claims s' = all_claims s \/ all_claims s' = <[i := claims (take_over mnb mn)]> (all_claims s)) /\ (seen_inv s -> seen_inv s').
Proof.
  unfold UpdateFromNewBroadcast. intros E L. rewrite L in E. destruct (mn_sigTime mn <? _); cbn [negb] in E; [|injection E as <- <-; by split; [left|]].
  set (s1 := update_mn i (take_over mnb) s) in E.
  assert (C1 : all_claims s1 = <[i := claims (take_over mnb mn)]> (all_claims s)).
  { unfold all_claims, s1. cbn [update_mn set_list vMasternodes]. clear E s1. revert i L.
    induction (vMasternodes s) as [|x l IH]; intros [|i] L; cbn in *; try done; [by injection L as ->|]. f_equal. by apply IH. }
  destruct (if ping_eq _ _ then _ else _) as [[s2 d] ok] eqn:P.
  assert (P2 : all_claims s2 = all_claims s1 /\ (seen_inv s1 -> seen_inv s2)).
  { destruct (ping_eq _ _); [by injection P as <- <- <-|by apply ping_update in P]. }
  destruct P2 as [C2 I2]. assert (I1 : seen_inv s -> seen_inv s1) by by apply seen_inv_same.
  destruct ok; injection E as <- <-; split; try (right; congruence); try tauto.
  - right. rewrite <- C1, <- C2. apply (claims_update s2). by intros.
  - intros I. apply I1, I2 in I as (B & P' & C). split_and!; cbn; [done| |done]. intros h p [E| [-> ->]]%insert_new_lookup; [by apply P'|done].
Qed.

Lemma mnb_update_spec W mnb d s s' d' ok : mnb_CheckAndUpdate lib rec addr_text txin_text W mnb d s = (s', d', ok) ->
  (all_claims s' = all_claims s \/
   announced mnb /\ exists i mn, vMasternodes s !! i = Some mn /\ prevout (mn_vin mn) = prevout (mn_vin mnb) /\
     pubKeyCollateralAddress mn = pubKeyCollateralAddress mnb /\ all_claims s' = <[i := claims (take_over mnb mn)]> (all_claims s)) /\
  (seen_inv s -> seen_inv s') /\
  (ok = true -> announced mnb /\ scriptSig (mn_vin mnb) = [] /\ GetMinMasternodePaymentsProto W <= protocolVersion mnb /\ mn_sigTime mnb <= w_adjusted W + 60 * 60).
Proof.
  unfold mnb_CheckAndUpdate. intros E.
  assert (Same : forall d0, (s, d0, false) = (s', d', ok) -> (all_claims s' = all_claims s \/
   announced mnb /\ exists i mn, vMasternodes s !! i = Some mn /\ prevout (mn_vin mn) = prevout (mn_vin mnb) /\
     pubKeyCollateralAddress mn = pubKeyCollateralAddress mnb /\ all_claims s' = <[i := claims (take_over mnb mn)]> (all_claims s)) /\
  (seen_inv s -> seen_inv s') /\
  (ok = true -> announced mnb /\ scriptSig (mn_vin mnb) = [] /\ GetMinMasternodePaymentsProto W <= protocolVersion mnb /\ mn_sigTime mnb <= w_adjusted W + 60 * 60)).
  { intros d0 [= <- <- <-]. split_and!; [by left|done|done]. }
  destruct (Z.ltb_spec (w_adjusted W + 60 * 60) (mn_sigTime mnb)) as [|Ht]; [by eapply Same|]. destruct (ping_eq _ _); [by eapply Same|].
  destruct (ping_CheckAndUpdate _ _ _ _ _ _ _ _ s) as [[s1 d1] ok1] eqn:P. assert (s1 = s) as ->.
  { unfold ping_CheckAndUpdate in P. repeat case_match; by simplify_eq. }
  destruct ok1; cbn [negb] in E; [|by eapply Same]. destruct (Z.ltb_spec (protocolVersion mnb) (GetMinMasternodePaymentsProto W)); [by eapply Same|].
  do 2 match type of E with (if negb (length (GetScriptForDestination ?x) =? 25)%nat then _ else _) = _ => destruct (negb (length (GetScriptForDestination x) =? 25)%nat); [by eapply Same|] end.
  destruct (Nat.eqb_spec (length (scriptSig (mn_vin mnb))) 0) as [Hs|]; cbn [negb] in E; [|by eapply Same]. apply nil_length_inv in Hs.
  destruct (VerifyMessage _ _ _ _ _) eqn:V; cbn [negb] in E; [|by eapply Same]. assert (A : announced mnb) by done.
  assert (Done : forall s2 d2 b, (s2, d2, b) = (s', d', ok) -> (all_claims s2 = all_claims s \/
      exists i mn, vMasternodes s !! i = Some mn /\ prevout (mn_vin mn) = prevout (mn_vin mnb) /\
     pubKeyCollateralAddress mn = pubKeyCollateralAddress mnb /\ all_claims s2 = <[i := claims (take_over mnb mn)]> (all_claims s)) ->
    (seen_inv s -> seen_inv s2) -> (all_claims s' = all_claims s \/
   announced mnb /\ exists i mn, vMasternodes s !! i = Some mn /\ prevout (mn_vin mn) = prevout (mn_vin mnb) /\
     pubKeyCollateralAddress mn = pubKeyCollateralAddress mnb /\ all_claims s' = <[i := claims (take_over mnb mn)]> (all_claims s)) /\
  (seen_inv s -> seen_inv s') /\
  (ok = true -> announced mnb /\ scriptSig (mn_vin mnb) = [] /\ GetMinMasternodePaymentsProto W <= protocolVersion mnb /\ mn_sigTime mnb <= w_adjusted W + 60 * 60)).
  { intros s2 d2 b [= <- <- <-] [C|C] I; split_and!; try done; [by left|by right]. }
  destruct (find_vin (mn_vin mnb) s) as [i|] eqn:F; cbn [mbind option_bind] in E; [|by eapply Done; [exact E|left|]].
  apply find_vin_claims in F as (pmn & L & Ep). rewrite L in E. cbn [mbind option_bind] in E.
  destruct (mn_sigTime mnb <=? mn_sigTime pmn); [by eapply Done; [exact E|left|]|]. destruct (negb (IsEnabled pmn)); [by eapply Done; [exact E|left|]|].
  destruct (_ && _) eqn:K; [|by eapply Done; [exact E|left|]]. apply andb_true_iff in K as [K%bool_decide_eq_true _].
  destruct (UpdateFromNewBroadcast _ _ _ _ _ _ s) as [s2 upd] eqn:U.
  destruct (update_from_spec _ _ _ _ _ _ _ U L) as [C2 I2]. eapply Done; [exact E| |].
  - rewrite claims_added. destruct upd; [rewrite claims_update by (intros; apply claims_check)|]; (destruct C2 as [->| ->]; [by left|right; by exists i, pmn]).
  - intros I. apply seen_added. destruct upd; [apply (seen_inv_same s2); [done|]|]; auto.
Qed.

Lemma list_inv_mnb W mnb d s s' d' ok : mnb_CheckAndUpdate lib rec addr_text txin_text W mnb d s = (s', d', ok) -> list_inv s -> list_inv s'.
Proof.
  intros E I. destruct (mnb_update_spec _ _ _ _ _ _ _ E) as ([C|(A & i & mn & L & _ & _ & C)] & _); [by apply (list_inv_same s)|].
  by apply (list_inv_update s _ i mn mnb).
Qed.

Lemma list_inv_erase s s' i : list_inv s -> list_inv (set_list (erase_at i (vMasternodes s)) s').
Proof. apply list_inv_sub. unfold all_claims at 1. cbn [set_list vMasternodes]. rewrite claims_erase. apply sublist_delete. Qed.

Lemma list_inv_remove v s : list_inv s -> list_inv (mn_Remove v s).
Proof. intros I. unfold mn_Remove. destruct (list_find _ _) as [[i x]|]; [by apply list_inv_erase|done]. Qed.

Lemma claims_push W mn l : map claims (push_masternode W mn l) = map claims l ++ [claims mn].
Proof. unfold push_masternode. rewrite map_app. f_equal. destruct (w_moves W); [apply claims_checked_map|done]. Qed.

Lemma list_inv_add W mnb s : announced mnb -> list_inv s -> list_inv (mn_Add W (masternode_of mnb) s).1.
Proof.
  intros A [N F]. unfold mn_Add. cbn [masternode_of IsEnabled activeState]. destruct (negb _); [done|]. destruct (find_vin _ s) eqn:Fi; [done|].
  apply find_vin_none in Fi. rewrite announced_claims in F. unfold list_inv. rewrite announced_claims. unfold all_claims in *. cbn [fst set_list vMasternodes]. rewrite claims_push. split.
  - rewrite map_app. apply NoDup_app. split_and!; [done| |by apply NoDup_singleton]. intros x I ->%list_elem_of_singleton. by apply Fi.
  - apply Forall_app. by split; [|constructor].
Qed.

Lemma ping_time_only W p d req s : (ping_CheckAndUpdate lib rec txin_text W p d req true s).1.1 = s.
Proof. unfold ping_CheckAndUpdate. by repeat case_match. Qed.

(** What is added: the announcement was checked against the coins. *)
Definition collateral_checked (W : World) (mnb : CMasternode) : Prop :=
  (w_acceptable W (spend_collateral W (mn_vin mnb))).1 = true /\ MASTERNODE_MIN_CONFIRMATIONS <= w_input_age W (prevout (mn_vin mnb)) /\
  forall tx hash p, w_transaction W (out_hash (prevout (mn_vin mnb))) = Some (tx, hash) -> w_index W !! hash = Some p ->
    exists q, chain_at (w_chain W) (height_of (w_store W) p + MASTERNODE_MIN_CONFIRMATIONS - 1) = Some q /\ GetBlockTime (deref (w_store W) q) <= mn_sigTime mnb.

Lemma inputs_spec W mnb d s s' d' ok : CheckInputsAndAdd lib rec txin_text W mnb d s = Some (s', d', ok) ->
  (seen_inv s -> seen_inv s') /\
  (all_claims s' `sublist_of` all_claims s \/
   collateral_checked W mnb /\ exists s1, all_claims s1 `sublist_of` all_claims s /\ s' = (mn_Add W (masternode_of mnb) s1).1).
Proof.
  unfold CheckInputsAndAdd. destruct (_ && _ && _); [intros [= <- <- <-]; split; [done|by left]|]. destruct (ping_eq _ _); [intros [= <- <- <-]; split; [done|by left]|].
  pose proof (ping_time_only W (lastPing mnb) d false s) as Es. destruct (ping_CheckAndUpdate _ _ _ _ _ _ _ _ s) as [[s1 d1] ok1]. cbn in Es. subst s1.
  destruct ok1; cbn [negb]; [|intros [= <- <- <-]; split; [done|by left]].
  set (pmn := i ← find_vin _ s; _). destruct (match pmn with Some mn => _ | None => _ end); [intros [= <- <- <-]; split; [done|by left]|].
  set (s1 := match pmn with Some mn => mn_Remove (mn_vin mn) s | None => s end).
  assert (S1 : all_claims s1 `sublist_of` all_claims s /\ (seen_inv s -> seen_inv s1)).
  { unfold s1. destruct pmn as [mn|]; [|done]. unfold mn_Remove. destruct (list_find _ _) as [[i x]|]; [|done]. split; [|by apply seen_inv_same].
    unfold all_claims at 1. cbn [set_list vMasternodes]. rewrite claims_erase. apply sublist_delete. }
  destruct S1 as [S1 I1]. destruct (w_acceptable W _) as [acc score] eqn:Ea. destruct acc; cbn [negb]; [|intros [= <- <- <-]; split; [done|by left]].
  destruct (Z.ltb_spec (w_input_age W (prevout (mn_vin mnb))) MASTERNODE_MIN_CONFIRMATIONS) as [|Hage].
  { intros [= <- <- <-]. split; [|by left]. intros I. apply I1 in I as (B & P & C). unfold forget_seen. split_and!; cbn; [|done|].
    - intros h b [_ E]%lookup_delete_Some. by apply B.
    - intros h n [_ E]%lookup_delete_Some. by apply C in E. }
  assert (Iadd : seen_inv s -> seen_inv (mn_Add W (masternode_of mnb) s1).1).
  { intros I. apply I1 in I. unfold mn_Add. destruct (negb _); [done|]. by destruct (find_vin _ s1). }
  unfold collateral_checked. rewrite Ea. destruct (w_transaction W _) as [[tx hash]|]; [destruct (w_index W !! hash) as [p|] eqn:Ei|]; cbn [mbind option_bind].
  - destruct (chain_at _ _) as [q|] eqn:Eq; cbn [mbind option_bind]; [|done]. destruct (Z.ltb_spec (mn_sigTime mnb) (GetBlockTime (deref (w_store W) q))).
    { intros [= <- <- <-]. split; [done|by left]. }
    intros [= <- <- <-]. split; [done|]. right. split; [|by exists s1]. split_and!; [done|done|]. intros ? ? ? [= <- <-]. rewrite Ei. intros [= <-]. eauto.
  - intros [= <- <- <-]. split; [done|]. right. split; [|by exists s1]. split_and!; [done|done|]. intros ? ? ? [= <- <-]. by rewrite Ei.
  - intros [= <- <- <-]. split; [done|]. right. split; [|by exists s1]. by split_and!.
Qed.

(** ** A history of the manager *)

(** What has arrived: an announcement of the network, or the node's own. *)
Inductive arrival := received (W : World) (mnb : CMasternode) | own (W : World) (mnb : CMasternode).

Definition vetted (W : World) (mnb : CMasternode) : Prop :=
  announced mnb /\ scriptSig (mn_vin mnb) = [] /\ GetMinMasternodePaymentsProto W <= protocolVersion mnb /\ mn_sigTime mnb <= w_adjusted W + 60 * 60 /\
  IsVinAssociatedWithPubkey W (mn_vin mnb) (pubKeyCollateralAddress mnb) = true /\ collateral_checked W mnb.

Inductive history : list arrival -> CMasternodeMan -> Prop :=
| history_start hashes : history [] {| vMasternodes := []; mAskedUsForMasternodeList := ∅; mWeAskedForMasternodeList := ∅; mWeAskedForMasternodeListEntry := ∅;
    mapSeenMasternodeBroadcast := ∅; mapSeenMasternodePing := ∅; mapCacheBlockHashes := hashes; mapSeenSyncMNB := ∅; lastMasternodeList := 0 |}
| history_mnb W mnb es s s' dos : history es s -> process_mnb lib rec addr_text txin_text W mnb s = Some (s', dos) -> history (received W mnb :: es) s'
| history_own W mnb es s : history es s -> announced mnb -> history (own W mnb :: es) (UpdateMasternodeList lib rec txin_text W mnb s)
| history_mnp W mnp es s : history es s -> history es (process_mnp lib rec txin_text W mnp s).1
| history_dseg W from v es s : history es s -> history es (process_dseg W from v s).1.1
| history_ask W peer es s : history es s -> history es (DsegUpdate W peer s).1
| history_count W proto es s : history es s -> history es (CountEnabled W proto s).1
| history_stable W es s : history es s -> history es (stable_size W s).1
| history_rank W v h proto active es s : history es s -> history es (GetMasternodeRank W v h proto active s).1
| history_current W h proto es s : history es s -> history es (GetCurrentMasterNode W h proto s).1
| history_clean W force es s s' : history es s -> CheckAndRemove W force s = Some s' -> history es s'.

(** The collateral key in what is claimed. *)
Definition claimed_key (c : CTxIn * (CService * byte_list * byte_list * byte_list * Z * Z)) : byte_list := c.2.1.1.1.1.2.

(** What is claimed for each masternode comes from an announcement in the history for its
    outpoint, with the signature of its collateral key, and this key was vetted for the
    outpoint, unless the node's own announcement gives it. *)
Definition sourced (es : list arrival) (c : CTxIn * (CService * byte_list * byte_list * byte_list * Z * Z)) : Prop :=
  (exists W mnb, (received W mnb ∈ es \/ own W mnb ∈ es) /\ announced mnb /\ prevout (mn_vin mnb) = prevout c.1 /\ (claims mnb).2 = c.2) /\
  (exists W mnb, prevout (mn_vin mnb) = prevout c.1 /\ pubKeyCollateralAddress mnb = claimed_key c /\
     (received W mnb ∈ es /\ vetted W mnb \/ own W mnb ∈ es)).

Definition man_ok (es : list arrival) (s : CMasternodeMan) : Prop := list_inv s /\ seen_inv s /\ Forall (sourced es) (all_claims s).

Lemma sourced_mono es e c : sourced es c -> sourced (e :: es) c.
Proof.
  intros [(W & b & I & A) (W' & b' & E & K & I')]. split; [exists W, b; set_solver|exists W', b'; set_solver].
Qed.

Lemma man_ok_sub es s s' : all_claims s' `sublist_of` all_claims s -> (seen_inv s -> seen_inv s') -> man_ok es s -> man_ok es s'.
Proof.
  intros S I (L & N & F). split_and!; [by apply (list_inv_sub s)|by apply I|]. rewrite Forall_forall in *. intros c Ic. apply F. by apply (elem_of_sublist (all_claims s')).
Qed.

Lemma man_ok_same es s s' : all_claims s' = all_claims s -> (seen_inv s -> seen_inv s') -> man_ok es s -> man_ok es s'.
Proof. intros E. apply man_ok_sub. by rewrite E. Qed.

Lemma man_ok_mono es e s : man_ok es s -> man_ok (e :: es) s.
Proof. intros (L & N & F). split_and!; [done|done|]. eapply Forall_impl; [exact F|]. intros c. apply sourced_mono. Qed.

(** An announcement replaces what is claimed for a masternode of the list. *)
Lemma man_ok_update es W mnb s s' i mn : man_ok es s ->
  (received W mnb ∈ es /\ pubKeyCollateralAddress mn = pubKeyCollateralAddress mnb \/ own W mnb ∈ es) -> announced mnb ->
  vMasternodes s !! i = Some mn -> prevout (mn_vin mn) = prevout (mn_vin mnb) ->
  all_claims s' = <[i := claims (take_over mnb mn)]> (all_claims s) -> seen_inv s' -> man_ok es s'.
Proof.
  intros (L & N & F) Ie A Li Ep E Is. split_and!; [by apply (list_inv_update s _ i mn mnb)|done|]. rewrite E. apply Forall_insert; [done|]. split.
  - exists W, mnb. split_and!; [tauto|done|by symmetry|done].
  - destruct Ie as [[_ Ek]|Io]; [|exists W, mnb; split_and!; [by symmetry|done|by right]]. rewrite Forall_forall in F.
    destruct (F (claims mn)) as [_ (W' & b & Eb & Kb & V)]; [apply list_elem_of_fmap; exists mn; split; [done|by apply list_elem_of_lookup_2 in Li]|].
    exists W', b. split_and!; [done| |done]. rewrite Kb. exact Ek.
Qed.

Lemma man_ok_add es W mnb s : man_ok es s -> announced mnb -> (received W mnb ∈ es /\ vetted W mnb \/ own W mnb ∈ es) -> man_ok es (mn_Add W (masternode_of mnb) s).1.
Proof.
  intros (L & N & F) A V. split_and!; [by apply list_inv_add| |].
  - unfold mn_Add. destruct (negb _); [done|]. by destruct (find_vin _ s).
  - unfold mn_Add. destruct (negb _); [done|]. destruct (find_vin _ s); [done|]. unfold all_claims. cbn [fst set_list vMasternodes]. rewrite claims_push.
    apply Forall_app. split; [done|]. constructor; [|done]. split; exists W, mnb; [split_and!; [tauto|done|done|done]|by split_and!].
Qed.

Lemma process_mnb_ok es W mnb s s' dos : man_ok es s -> process_mnb lib rec addr_text txin_text W mnb s = Some (s', dos) -> man_ok (received W mnb :: es) s'.
Proof.
  intros O E. apply (man_ok_mono es (received W mnb)) in O. revert O. generalize (received W mnb :: es), (list_elem_of_here (received W mnb) es). clear es. intros es Ie O.
  unfold process_mnb in E. destruct (mapSeenMasternodeBroadcast s !! _) as [b|].
  { injection E as <- _. apply (man_ok_same es s); [apply claims_added|apply seen_added|done]. }
  set (s1 := set_seen _ _ s) in E. assert (O1 : man_ok es s1).
  { apply (man_ok_same es s); [done| |done]. intros I. by apply seen_insert_broadcast. }
  destruct (mnb_CheckAndUpdate _ _ _ _ _ _ _ s1) as [[s2 d] ok] eqn:U. destruct (mnb_update_spec _ _ _ _ _ _ _ U) as (C & I2 & Ok).
  assert (O2 : man_ok es s2).
  { destruct C as [C|(A & i & mn & L & Ep & Ek & C)]; [by apply (man_ok_same es s1)|]. apply (man_ok_update es W mnb s1 s2 i mn); try done; [by left|]. apply I2, O1. }
  destruct ok; cbn [negb] in E; [|by injection E as <- _]. destruct (Ok eq_refl) as (A & Hs & Hp & Ht).
  destruct (IsVinAssociatedWithPubkey _ _ _) eqn:Hv; cbn [negb] in E; [|by injection E as <- _].
  destruct (CheckInputsAndAdd _ _ _ _ _ _ s2) as [[[s3 d3] ok3]|] eqn:Ci; [|done]. cbn [mbind option_bind] in E.
  destruct (inputs_spec _ _ _ _ _ _ _ Ci) as [I3 C3].
  assert (O3 : man_ok es s3).
  { destruct C3 as [S|(V & sx & S & ->)]; [by apply (man_ok_sub es s2)|].
    assert (Ox : man_ok es (set_list (vMasternodes sx) s2)) by (by apply (man_ok_sub es s2)).
    apply (man_ok_same es (mn_Add W (masternode_of mnb) (set_list (vMasternodes sx) s2)).1); [|intros _; apply I3, O2|].
    - unfold mn_Add. destruct (negb _); [done|]. unfold find_vin. cbn [set_list vMasternodes]. by destruct (_ <$> _).
    - apply man_ok_add; [done|done|]. left. split; [done|]. by split_and!. }
  destruct ok3; injection E as <- _; [|done]. apply (man_ok_same es s3); [apply claims_added|apply seen_added|done].
Qed.

Lemma process_own_ok es W mnb s : man_ok es s -> announced mnb -> man_ok (own W mnb :: es) (UpdateMasternodeList lib rec txin_text W mnb s).
Proof.
  intros O A. apply (man_ok_mono es (own W mnb)) in O. revert O. generalize (own W mnb :: es), (list_elem_of_here (own W mnb) es). clear es. intros es Ie O.
  unfold UpdateMasternodeList. set (s0 := set_seen _ _ s). set (s1 := AddedMasternodeList W _ s0).
  assert (O1 : man_ok es s1).
  { apply (man_ok_same es s); [by unfold s1; rewrite claims_added| |done]. intros (B & P & C). apply seen_added. split_and!; cbn; [| |done].
    - intros h b [E|[-> ->]]%insert_new_lookup; [by apply B|done].
    - intros h b [E|[-> ->]]%insert_new_lookup; [by apply P|done]. }
  destruct (find_vin _ s1) as [i|] eqn:F; [|by apply man_ok_add; [| |right]]. apply find_vin_claims in F as (mn & L & Ep).
  destruct (UpdateFromNewBroadcast _ _ _ _ _ _ s1) as [s2 b] eqn:U. cbn [fst]. destruct (update_from_spec _ _ _ _ _ _ _ U L) as [[C|C] I].
  - by apply (man_ok_same es s1).
  - apply (man_ok_update es W mnb s1 s2 i mn); try done; [by right|]. apply I, O1.
Qed.

(** Operations that change neither what is claimed nor what was seen. *)
Definition inert (s s' : CMasternodeMan) : Prop := all_claims s' = all_claims s /\ same_seen s s'.

Lemma inert_ok es s s' : inert s s' -> man_ok es s -> man_ok es s'.
Proof. intros [C S]. apply man_ok_same; [done|]. by apply seen_inv_same. Qed.

#[local] Instance inert_preorder : PreOrder inert.
Proof.
  split.
  - intros s. by repeat split.
  - intros a b c [C (B1 & P1 & S1)] [C' (B2 & P2 & S2)]. split; [congruence|]. split_and!; congruence.
Qed.

Lemma inert_list l s : map claims l = all_claims s -> inert s (set_list l s).
Proof. intros E. by split. Qed.

Lemma inert_hash W h s : inert s (mn_block_hash W h s).1.
Proof. unfold mn_block_hash. by destruct (GetBlockHash _ _ _ _). Qed.

Lemma inert_score W mn h s : inert s (CalculateScore W mn h s).1.
Proof.
  unfold CalculateScore. destruct (Tip _); [|done]. pose proof (inert_hash W h s) as I. by destruct (mn_block_hash W h s) as [s1 [hash|]].
Qed.

Lemma inert_scores W h l s : inert s (scores W h l s).1.
Proof.
  revert s. induction l as [|mn l IH]; intros s; cbn [scores]; [done|]. pose proof (inert_score W mn h s) as I. destruct (CalculateScore W mn h s) as [s1 n].
  specialize (IH s1). destruct (scores W h l s1) as [s2 r]. by transitivity s1.
Qed.

Lemma inert_current W i h proto l score winner s : inert s (current_loop W i h proto l score winner s).1.
Proof.
  revert i score winner s. induction l as [|mn l IH]; intros i score winner s; cbn [current_loop]; [done|]. destruct (_ || _); [apply IH|].
  pose proof (inert_score W mn h s) as I. destruct (CalculateScore W mn h s) as [s1 n]. cbn [fst] in I. destruct (score <? _); by transitivity s1.
Qed.

Lemma inert_check W s : inert s (man_Check W s).
Proof. apply inert_list. rewrite map_map. apply map_ext. intros mn. apply claims_check. Qed.

Lemma inert_rank W v h proto active s : inert s (GetMasternodeRank W v h proto active s).1.
Proof.
  unfold GetMasternodeRank. pose proof (inert_hash W h s) as I. destruct (mn_block_hash W h s) as [s1 [hash|]]; [|done]. cbn [fst] in I.
  set (l := if active then _ else _). assert (I1 : inert s1 (set_list l s1)) by (apply inert_list; unfold l; destruct active; [apply claims_check_unless|done]).
  pose proof (inert_scores W h (base.filter (fun mn => (protocolVersion mn <? proto) || too_young W mn || (active && negb (IsEnabled mn)) = false) l) (set_list l s1)) as I2.
  destruct (scores _ _ _ _) as [s2 vec]. cbn [fst] in *. by transitivity s1; [|transitivity (set_list l s1)].
Qed.

Lemma mnp_ok es W p s : man_ok es s -> man_ok es (process_mnp lib rec txin_text W p s).1.
Proof.
  intros O. unfold process_mnp. destruct (mapSeenMasternodePing s !! _) eqn:Hn; [done|]. set (s1 := set_seen _ _ s).
  assert (O1 : man_ok es s1).
  { apply (man_ok_same es s); [done| |done]. intros (B & P & C). split_and!; cbn; [done| |done]. intros h x. rewrite lookup_insert_Some.
    intros [[<- <-]|[_ E]]; [done|by apply P]. }
  destruct (ping_CheckAndUpdate _ _ _ _ _ _ _ _ s1) as [[s2 d] ok] eqn:U. destruct (ping_update _ _ _ _ _ _ _ _ _ U) as [C I].
  assert (O2 : man_ok es s2) by by apply (man_ok_same es s1).
  assert (Oa : forall v, man_ok es (AskForMN W v s2)).
  { intros v. apply (inert_ok es s2); [|done]. unfold AskForMN. destruct (mWeAskedForMasternodeListEntry s2 !! _); [|by repeat split]. case_match; by repeat split. }
  destruct ok; [done|]. destruct (0 <? d); [apply Oa|]. destruct (find_vin _ s2); [done|apply Oa].
Qed.

Lemma dseg_seen v l seen : (forall h b, seen !! h = Some b -> mnb_GetHash b = h) -> forall h b, (dseg_loop v l seen).1 !! h = Some b -> mnb_GetHash b = h.
Proof.
  revert seen. induction l as [|mn l IH]; intros seen I; cbn [dseg_loop]; [done|]. destruct (_ || _); [by apply IH|].
  assert (I' : forall h b, insert_new (mnb_GetHash mn) mn seen !! h = Some b -> mnb_GetHash b = h) by (intros h b [E|[-> ->]]%insert_new_lookup; [by apply I|done]).
  case_match; [done|]. specialize (IH _ I'). by destruct (dseg_loop v l _).
Qed.

Lemma dseg_ok es W from v s : man_ok es s -> man_ok es (process_dseg W from v s).1.1.
Proof.
  intros O. unfold process_dseg. case_match; [done|]. match goal with |- context [dseg_loop v (vMasternodes ?x)] => set (s1 := x) end.
  assert (O1 : man_ok es s1) by (apply (inert_ok es s); [unfold s1; destruct (_ && _ && w_main W); by repeat split|done]).
  pose proof (dseg_seen v (vMasternodes s1) (mapSeenMasternodeBroadcast s1)) as D. destruct (dseg_loop _ _ _) as [seen r]. cbn [fst] in *.
  apply (man_ok_same es s1); [done| |done]. intros (B & P & C). split_and!; cbn; [by apply D|done|done].
Qed.

Lemma seen_forget mn s : seen_inv s -> seen_inv (forget_masternode mn s).
Proof.
  intros (B & P & C). split_and!; cbn; [|done|].
  - intros h b [E _]%lookup_difference_Some. by apply B.
  - intros h n [E _]%map_lookup_filter_Some. by apply C in E.
Qed.

Lemma remove_loop_ok es W fuel force i s : man_ok es s -> man_ok es (remove_loop W fuel force i s).
Proof.
  revert i s. induction fuel as [|fuel IH]; intros i s O; cbn [remove_loop]; [done|]. destruct (vMasternodes s !! i) as [mn|]; [|done].
  destruct (removable _ _ _); apply IH; [|done]. apply (man_ok_sub es s); [| |done].
  - unfold all_claims at 1. cbn [set_list vMasternodes]. rewrite claims_erase. apply sublist_delete.
  - intros I. by apply (seen_inv_same (forget_masternode mn s)), seen_forget.
Qed.

Lemma expire_ok es W keys s s' : man_ok es s -> expire_loop W keys s = Some s' -> man_ok es s'.
Proof.
  revert s. induction keys as [|k keys IH]; intros s O; cbn [expire_loop]; [by intros [= <-]|]. destruct (mapSeenMasternodeBroadcast s !! k) as [mnb|]; [|by apply IH].
  destruct (_ <? _); [|by apply IH]. destruct (head keys) as [k'|]; [|done]. cbn [mbind option_bind set_seen mapSeenMasternodeBroadcast].
  destruct (delete k _ !! k') as [next|]; [|done]. cbn [mbind option_bind]. apply IH. apply (man_ok_same es s); [done| |done].
  intros (B & P & C). split_and!; cbn; [|done|].
  - intros h b [_ E]%lookup_delete_Some. by apply B.
  - intros h n [_ E]%lookup_delete_Some. by apply C in E.
Qed.

Lemma clean_ok es W force s s' : man_ok es s -> CheckAndRemove W force s = Some s' -> man_ok es s'.
Proof.
  intros O. unfold CheckAndRemove. set (s1 := remove_loop _ _ _ _ _). set (s2 := set_asked _ _ _ s1).
  destruct (expire_loop W _ s2) as [s3|] eqn:E; [|done]. cbn [mbind option_bind]. intros [= <-].
  assert (O3 : man_ok es s3).
  { apply (expire_ok es W (in_hash_order (mapSeenMasternodeBroadcast s2)) s2 s3); [|exact E]. apply (inert_ok es s1); [done|]. apply remove_loop_ok, (inert_ok es s); [apply inert_check|done]. }
  apply (man_ok_same es s3); [done| |done]. intros (B & P & C). split_and!; cbn; [done| |done]. intros h p [Ep _]%map_lookup_filter_Some. by apply P.
Qed.

Lemma history_ok es s : history es s -> man_ok es s.
Proof.
  induction 1 as [hashes|W mnb es s s' dos _ IH E|W mnb es s _ IH A|W mnp es s _ IH|W from v es s _ IH|W peer es s _ IH|W proto es s _ IH|W es s _ IH
    |W v h proto active es s _ IH|W h proto es s _ IH|W force es s s' _ IH E].
  - split_and!; [split; constructor|split_and!; cbn; intros ? ?; by rewrite lookup_empty|constructor].
  - by apply (process_mnb_ok es W mnb s s' dos).
  - by apply process_own_ok.
  - by apply mnp_ok.
  - by apply dseg_ok.
  - apply (inert_ok es s); [|done]. unfold DsegUpdate. case_match; by repeat split.
  - apply (inert_ok es s); [apply inert_check|done].
  - apply (inert_ok es s); [apply inert_list, claims_check_unless|done].
  - apply (inert_ok es s); [apply inert_rank|done].
  - apply (inert_ok es s); [|done]. unfold GetCurrentMasterNode. transitivity (man_Check W s); [apply inert_check|apply inert_current].
  - by apply (clean_ok es W force s s').
Qed.

(** C23 Whatever messages arrive, with whatever clock, chain and coins, and however often
    the list is counted, ranked and cleaned: no outpoint is in the list of masternodes
    twice; the address, keys, time and version of each masternode are those of one
    announcement for its outpoint that its collateral key signed and that did arrive (or is
    the node's own); and this same collateral key was vetted for this outpoint: an
    announcement of the two arrived that passed every check: signature, version, time, the
    key's output in the transaction, unspent and confirmed collateral, not older than its
    fifteenth confirmation.  So nobody takes over a masternode with another key.  The
    announcements the node makes and signs itself are exempt: a masternode that one of them
    put in the list, or gave its key to, need not have passed the checks. *)
Theorem masternodes_vetted es s : history es s ->
  NoDup (map (fun mn => prevout (mn_vin mn)) (vMasternodes s)) /\
  (forall mn, mn ∈ vMasternodes s -> announced mn /\ sourced es (claims mn)) /\
  (forall h b, mapSeenMasternodeBroadcast s !! h = Some b -> mnb_GetHash b = h) /\ (forall h n, mapSeenSyncMNB s !! h = Some n -> 0 <= n <= MASTERNODE_SYNC_THRESHOLD).
Proof.
  intros Hist. destruct (history_ok es s Hist) as ([N A] & (B & _ & C) & F). split_and!; [|intros mn I; split|done|done].
  - unfold all_claims in N. by rewrite map_map in N.
  - rewrite Forall_forall in A. by apply A.
  - rewrite Forall_forall in F. apply F. apply list_elem_of_fmap. by exists mn.
Qed.

(** An announcement is marked as seen, by a hash of its time and its collateral key only,
    before its signature is checked.  Whoever sends one with these two and with anything
    else wrong is given 100 points for it, the list does not change, and from then on, on
    every node with any view of the clock and the coins, the genuine announcement of the
    masternode is dropped without a look at it. *)
Theorem bogus_announcement_wins W (bogus genuine : CMasternode) s :
  mapSeenMasternodeBroadcast s !! mnb_GetHash genuine = None ->
  mn_sigTime bogus = mn_sigTime genuine -> pubKeyCollateralAddress bogus = pubKeyCollateralAddress genuine ->
  VerifyMessage lib rec (pubKeyCollateralAddress bogus) (mn_sig bogus) (GetStrMessage addr_text bogus) = false ->
  exists s' dos, process_mnb lib rec addr_text txin_text W bogus s = Some (s', dos) /\ vMasternodes s' = vMasternodes s /\
    forall W', exists s'', process_mnb lib rec addr_text txin_text W' genuine s' = Some (s'', 0) /\ vMasternodes s'' = vMasternodes s.
Proof.
  intros Hn Et Ek V. assert (Eh : mnb_GetHash bogus = mnb_GetHash genuine) by (unfold mnb_GetHash; by rewrite Et, Ek).
  unfold process_mnb. rewrite Eh, Hn. set (s1 := set_seen _ _ s).
  assert (U : exists d, mnb_CheckAndUpdate lib rec addr_text txin_text W bogus 0 s1 = (s1, d, false)).
  { unfold mnb_CheckAndUpdate. rewrite V. cbn [negb]. destruct (_ <? mn_sigTime bogus); [by eexists|]. destruct (ping_eq _ _); [by eexists|].
    pose proof (ping_time_only W (lastPing bogus) 0 false s1) as Es. destruct (ping_CheckAndUpdate _ _ _ _ _ _ _ _ s1) as [[s2 d] ok]. cbn in Es. subst s2.
    destruct ok; cbn [negb]; [|by eexists]. repeat case_match; by eexists. }
  destruct U as [d ->]. cbn [negb]. eexists _, _. split; [reflexivity|]. split; [done|]. intros W'. cbn [mapSeenMasternodeBroadcast s1 set_seen].
  rewrite lookup_insert_eq. eexists. split; [reflexivity|]. unfold AddedMasternodeList. cbn [mapSeenMasternodeBroadcast s1 set_seen]. rewrite lookup_insert_eq. by case_match.
Qed.
End Invariant.

(** * Block hashes by height *)

Lemma walk_back_spec st c fuel : wf_chain st c -> forall i n N p, c !! i = Some (Some p) -> (i < fuel)%nat ->
  walk_back fuel st n N p =
    (let k := Z.to_nat (N - n) in if (k <? i)%nat then q ← mjoin (c !! (i - k)%nat); Some (phashBlock (deref st q)) else None).
Proof.
  intros Wf. induction fuel as [|fuel IH]; intros i n N p L Hf; [lia|]. cbn [walk_back].
  destruct (Wf _ _ L) as (p' & [= <-] & _ & Hh & Hp). rewrite Hh. destruct i as [|i].
  { change (0 <? Z.of_nat 0) with false. cbv zeta. by destruct (Z.to_nat (N - n)). }
  rewrite (proj2 (Z.ltb_lt 0 _)) by lia. cbn [negb]. destruct (Z.leb_spec N n) as [Hn|Hn].
  - assert (k0 : Z.to_nat (N - n) = 0%nat) by lia. rewrite k0. cbn [Nat.ltb Nat.leb]. by rewrite Nat.sub_0_r, L.
  - specialize (Hp ltac:(lia)). cbn [Nat.sub] in Hp. rewrite Nat.sub_0_r in Hp.
    destruct (Wf _ _ Hp) as (q & Eq & _). rewrite Eq in *. rewrite (IH i) by (done || lia). cbv zeta.
    replace (Z.to_nat (N - n)) with (S (Z.to_nat (N - (n + 1)))) by lia. set (k := Z.to_nat (N - (n + 1))).
    change ((S k <? S i)%nat) with ((k <? i)%nat). destruct (k <? i)%nat; [|done]. by replace (S i - S k)%nat with (i - k)%nat by lia.
Qed.

Lemma tip_lookup st c : wf_chain st c -> 0 <= Height c -> exists tip, Tip c = Some tip /\ c !! Z.to_nat (Height c) = Some (Some tip) /\ height_of st tip = Height c.
Proof.
  intros Wf Hh. unfold Height in *. unfold Tip. rewrite (proj2 (Nat.ltb_ge _ _)) by lia.
  destruct (lookup_lt_is_Some_2 c (length c - 1)) as [x L]; [lia|]. destruct (Wf _ _ L) as (tip & -> & _ & Ht & _).
  exists tip. rewrite L. split_and!; [done| |lia]. by replace (Z.to_nat (Z.of_nat (length c) - 1)) with (length c - 1)%nat by lia.
Qed.

(** The hash for a height: of the block before it; of the tip for a negative height, of
    the block before the tip for height 0; never of the genesis block. *)
Definition block_hash_at (st : store) (c : chain) (h : Z) : option uint256 :=
  let h := if h =? 0 then Height c else h in
  let i := if 0 <? h then h - 1 else Height c in
  if (0 <? i) && (i <=? Height c) then q ← chain_at c i; Some (phashBlock (deref st q)) else None.

(** [GetBlockHash] answers with the hash of the block before the height that is asked
    for, and remembers it: from then on the answer for this height is the same on every
    chain, also after the block has left the active chain. *)
Theorem GetBlockHash_correct st c h cache : wf_chain st c -> 0 < Height c -> cache !! (if h =? 0 then Height c else h) = None ->
  exists cache', GetBlockHash st c h cache = (cache', block_hash_at st c h) /\
    forall hash, block_hash_at st c h = Some hash -> forall st2 c2, is_Some (Tip c2) -> h <> 0 -> GetBlockHash st2 c2 h cache' = (cache', Some hash).
Proof.
  intros Wf Hc Hn. destruct (tip_lookup st c Wf ltac:(lia)) as (tip & Et & Lt & Ht).
  unfold GetBlockHash at 1. rewrite Et, Ht, Hn. rewrite (proj2 (Z.eqb_neq (Height c) 0)) by lia. cbn [orb].
  assert (R : forall N, 0 <= N -> walk_back (S (Z.to_nat (Height c))) st 0 N tip =
    (let i := Height c - N in if (0 <? i) && (i <=? Height c) then q ← chain_at c i; Some (phashBlock (deref st q)) else None)).
  { intros N HN. rewrite (walk_back_spec st c _ Wf (Z.to_nat (Height c))) by (done || lia). cbv zeta. rewrite Z.sub_0_r.
    destruct (Nat.ltb_spec (Z.to_nat N) (Z.to_nat (Height c))).
    - rewrite (proj2 (Z.ltb_lt 0 _)), (proj2 (Z.leb_le _ _)) by lia. cbn [andb]. unfold chain_at. unfold Height in *.
      rewrite (proj2 (Z.ltb_ge _ _)), (proj2 (Z.leb_gt _ _)) by lia. cbn [orb]. replace (Z.to_nat (Z.of_nat (length c) - 1) - Z.to_nat N)%nat with (Z.to_nat (Z.of_nat (length c) - 1 - N)) by lia.
      by destruct (c !! _).
    - by rewrite (proj2 (Z.ltb_ge 0 _)) by lia. }
  set (h' := if h =? 0 then Height c else h) in *. assert (Eb : block_hash_at st c h =
    if Height c + 1 <? h' then None else walk_back (S (Z.to_nat (Height c))) st 0 (if 0 <? h' then Height c + 1 - h' else 0) tip).
  { unfold block_hash_at. fold h'. cbv zeta. destruct (Z.ltb_spec (Height c + 1) h').
    - rewrite (proj2 (Z.ltb_lt 0 h')) by lia. by rewrite (proj2 (Z.leb_gt (h' - 1) _)), andb_false_r by lia.
    - rewrite R by (destruct (Z.ltb_spec 0 h'); lia). cbv zeta. destruct (Z.ltb_spec 0 h'); [|by rewrite Z.sub_0_r]. by replace (Height c - (Height c + 1 - h')) with (h' - 1) by lia. }
  assert (Stale : forall hash st2 c2, is_Some (Tip c2) -> h <> 0 -> GetBlockHash st2 c2 h (<[h' := hash]> cache) = (<[h' := hash]> cache, Some hash)).
  { intros hash st2 c2 [t E] Hh. unfold GetBlockHash. rewrite E. unfold h'. rewrite (proj2 (Z.eqb_neq h 0) Hh). by rewrite lookup_insert_eq. }
  rewrite Eb. destruct (Height c + 1 <? h'); [by exists cache|]. destruct (walk_back _ _ _ _ tip) as [hash|]; [|by exists cache].
  exists (<[h' := hash]> cache). split; [done|]. intros x [= <-]. by apply Stale.
Qed.

(** * Ranks *)

Section Rank.
Context `{StdSortLaws} (W : World).

(** The score of a masternode for a block, and the number it is compared by. *)
Definition score_value (hash : uint256) (mn : CMasternode) : uint256 :=
  let aux := add (out_hash (prevout (mn_vin mn))) (u256 (out_n (prevout (mn_vin mn)))) in
  let hash2 := Hash (to_bytes hash) in
  let hash3 := Hash (to_bytes hash ++ to_bytes aux) in
  if gt hash3 hash2 then sub hash3 hash2 else sub hash2 hash3.
Definition score_for (hash : uint256) (mn : CMasternode) : Z := default 0 (GetCompact (score_value hash mn) false).

Lemma hash_remembered h s s' hash : mn_block_hash W h s = (s', Some hash) -> mn_block_hash W h s' = (s', Some hash).
Proof.
  unfold mn_block_hash, GetBlockHash. destruct (Tip (w_chain W)) as [tip|]; [|done]. set (k := if s32 h =? 0 then _ else _).
  destruct (mapCacheBlockHashes s !! k) as [x|] eqn:E.
  - intros [= <- <-]. cbn [set_hashes mapCacheBlockHashes]. rewrite E. by destruct s.
  - destruct (_ || _); [done|]. destruct (walk_back _ _ _ _ _) as [x|]; [|done]. intros [= <- <-]. cbn [set_hashes mapCacheBlockHashes]. by rewrite lookup_insert_eq.
Qed.

Lemma scores_pure h s hash l : mn_block_hash W h s = (s, Some hash) -> scores W h l s = (s, map (fun mn => (score_for hash mn, mn_vin mn)) l).
Proof.
  intros E. assert (Ec : forall mn, CalculateScore W mn h s = (s, score_value hash mn)).
  { intros mn. unfold CalculateScore, score_value. rewrite E. destruct (Tip (w_chain W)) eqn:T; [cbv beta iota zeta; reflexivity|]. exfalso. unfold mn_block_hash, GetBlockHash in E. by rewrite T in E. }
  induction l as [|mn l IH]; cbn [scores map]; [done|]. rewrite Ec, IH. unfold score_for. cbv beta iota zeta. reflexivity.
Qed.

Lemma rank_of_spec v r l : NoDup (map (fun x => prevout x.2) l) ->
  (prevout v ∉ map (fun x => prevout x.2) l -> rank_of v r l = -1) /\
  forall i x, l !! i = Some x -> prevout x.2 = prevout v -> rank_of v r l = r + Z.of_nat i + 1.
Proof.
  revert r. induction l as [|y l IH]; intros r N; cbn [rank_of map]; [by split|]. inversion N as [|? ? Ny N']; subst. destruct (IH (r + 1) N') as [A B]. split.
  - intros Hv. rewrite bool_decide_false by set_solver. apply A. set_solver.
  - intros i x L E. destruct i as [|i]; cbn in L; [injection L as ->; rewrite bool_decide_true by done; lia|].
    rewrite bool_decide_false; [rewrite (B i x) by done; lia|]. intros E'. apply Ny. rewrite E', <- E. apply list_elem_of_fmap. exists x. split; [done|]. by apply list_elem_of_lookup_2 in L.
Qed.

(** How many elements of a list are above and how many at least at the [i]-th of a list
    that goes down. *)
Lemma sorted_counts {A} (key : A -> Z) (l : list A) i x : StronglySorted (fun a b => key b <= key a) l -> l !! i = Some x ->
  (length (base.filter (fun y => (key x < key y)%Z) l) <= i)%nat /\ (i < length (base.filter (fun y => (key x <= key y)%Z) l))%nat.
Proof.
  intros S. revert i. induction S as [|y l S IH F]; intros i L; [by rewrite lookup_nil in L|]. rewrite !filter_cons. destruct i as [|i]; cbn in L.
  - injection L as ->. rewrite decide_False by lia. rewrite decide_True by lia. cbn. split; [|lia]. replace (base.filter _ l) with (@nil A); [done|].
    symmetry. clear IH S. induction F as [|z k Hz F IH]; [done|]. rewrite filter_cons, decide_False by lia. exact IH.
  - destruct (IH i L) as [C1 C2]. rewrite Forall_forall in F. assert (Hx : key x <= key y) by (apply F; by apply list_elem_of_lookup_2 in L).
    rewrite (decide_True (P := key x <= key y)) by done. case_decide; cbn; lia.
Qed.

Lemma filter_map_length {A B} (f : A -> B) (P : B -> Prop) `{forall b, Decision (P b)} (l : list A) :
  length (base.filter P (map f l)) = length (base.filter (fun a => P (f a)) l).
Proof. induction l as [|a l IH]; [done|]. cbn [map]. rewrite !filter_cons. case_decide; cbn; by rewrite IH. Qed.

(** The masternodes that are ranked. *)
Definition ranked (minProtocol : Z) (fOnlyActive : bool) (s : CMasternodeMan) : list CMasternode :=
  let skip mn := (protocolVersion mn <? minProtocol) || too_young W mn in
  base.filter (fun mn => skip mn || (fOnlyActive && negb (IsEnabled mn)) = false) (if fOnlyActive then check_unless W skip (vMasternodes s) else vMasternodes s).

(** What a rank [r] says. *)
Definition rank_spec (v : CTxIn) (l : list CMasternode) (hash : option uint256) (r : Z) : Prop :=
  match hash with
  | None => r = -1
  | Some hash =>
      (prevout v ∉ map (fun mn => prevout (mn_vin mn)) l -> r = -1) /\
      forall mn, mn ∈ l -> prevout (mn_vin mn) = prevout v ->
        Z.of_nat (length (base.filter (fun x => score_for hash mn < score_for hash x) l)) < r <= Z.of_nat (length (base.filter (fun x => score_for hash mn <= score_for hash x) l))
  end.

(** The rank of a masternode for a block is its place by score among the masternodes
    that are recent enough in version, old enough and (if asked) enabled at the moment:
    more than the number of those with a higher score, at most the number of those with as
    high a one; and it is -1 for a masternode that is not among them, and for all when the
    block is not known. *)
Theorem GetMasternodeRank_correct v h minProtocol fOnlyActive s : NoDup (map (fun mn => prevout (mn_vin mn)) (vMasternodes s)) ->
  rank_spec v (ranked minProtocol fOnlyActive s) (mn_block_hash W h s).2 (GetMasternodeRank W v h minProtocol fOnlyActive s).2.
Proof.
  intros N. set (l := ranked minProtocol fOnlyActive s). unfold rank_spec, GetMasternodeRank.
  destruct (mn_block_hash W h s) as [s1 [hash|]] eqn:E; cbn [fst snd]; [|done].
  assert (Ev : vMasternodes s1 = vMasternodes s) by (unfold mn_block_hash in E; destruct (GetBlockHash _ _ _ _); by injection E as <- _).
  rewrite Ev. fold (ranked minProtocol fOnlyActive s). fold l. apply hash_remembered in E.
  set (l0 := if fOnlyActive then _ else vMasternodes s) in *.
  assert (E' : mn_block_hash W h (set_list l0 s1) = (set_list l0 s1, Some hash)).
  { unfold mn_block_hash in *. cbn [set_list mapCacheBlockHashes]. destruct (GetBlockHash _ _ _ _) as [c x]. injection E as E ->. f_equal. rewrite <- E at 2. done. }
  rewrite (scores_pure h _ hash _ E'). cbn [snd]. change (base.filter _ l0) with l. clear E E'. generalize (score_for hash). intros g.
  assert (Nl : NoDup (map (fun mn => prevout (mn_vin mn)) l)).
  { apply (sublist_NoDup _ (map (fun mn => prevout (mn_vin mn)) l0)); [|apply map_sublist, sublist_filter].
    unfold l0. destruct fOnlyActive; [|done]. replace (map _ (check_unless _ _ _)) with (map (fun mn => prevout (mn_vin mn)) (vMasternodes s)); [done|].
    unfold check_unless. rewrite map_map. apply map_ext. intros mn. case_match; [done|]. symmetry. exact (f_equal (fun c => prevout c.1) (claims_check W false mn)). }
  set (f := fun mn => (g mn, mn_vin mn)). set (vec := sort_down fst (map f l)). assert (P : vec ≡ₚ map f l) by apply sort_down_perm.
  assert (Nv : NoDup (map (fun x => prevout x.2) vec)) by (rewrite P, map_map; exact Nl).
  destruct (rank_of_spec v 0 vec Nv) as [A B]. split.
  - intros Hv. apply A. rewrite P, map_map. exact Hv.
  - intros mn I Ep. assert (Iv : f mn ∈ vec) by (rewrite P; apply list_elem_of_fmap; by exists mn). apply list_elem_of_lookup in Iv as [i Li].
    rewrite (B i (f mn) Li Ep). destruct (sorted_counts fst vec i (f mn) (sort_down_sorted _ _) Li) as [C1 C2]. rewrite P in C1, C2.
    unfold f in C1, C2. rewrite filter_map_length in C1, C2. cbn [fst] in C1, C2. lia.
Qed.
End Rank.

(** * Witnesses *)

Definition down {A} (key : A -> Z) (a b : A) : Prop := key b <= key a.
#[export] Instance down_dec {A} (key : A -> Z) a b : Decision (down key a b). Proof. apply Z.le_dec. Defined.
Definition merge_sort_down : StdSort := {| sort_down A key l := merge_sort (down key) l |}.

Lemma merge_sort_down_laws : @StdSortLaws merge_sort_down.
Proof.
  split; intros A key l; cbn; [apply merge_sort_Permutation|].
  assert (T : Transitive (down key)) by (intros x y z; unfold down; lia). assert (O : Total (down key)) by (intros x y; unfold down; lia).
  apply (StronglySorted_merge_sort (down key)).
Qed.

Definition example_vin : CTxIn := {| prevout := {| out_hash := u256 5; out_n := 0 |}; scriptSig := []; nSequence := UINT32_MAX |}.
Definition example_ping : CMasternodePing := {| ping_vin := example_vin; blockHash := u256 1; ping_sigTime := 1001000; ping_vchSig := signer_signature |}.
Definition example_mnb (sig : byte_list) : CMasternode := {|
  mn_vin := example_vin; mn_addr := {| ip := pchIPv4 ++ [8; 8; 8; 8]; port := 17333 |}; pubKeyCollateralAddress := signer_key; pubKeyMasternode := signer_key;
  mn_sig := sig; activeState := MASTERNODE_ENABLED; mn_sigTime := 1000000; lastPing := example_ping; cacheInputAge := 0; cacheInputAgeBlock := 0;
  unitTest := false; protocolVersion := 70924; lastTimeChecked := 0 |}.

Definition example_world : World := {|
  w_time := 1001100; w_adjusted := 1001100; w_store := example_store; w_chain := example_chain; w_index := ∅; w_sporks := no_sporks;
  w_main := true; w_shutdown := false; w_collateral := []; w_acceptable tx := (true, None); w_input_age o := 20;
  w_transaction h := Some ({| tx_nVersion := 1; vin := []; vout := [{| nValue := 1000 * COIN; scriptPubKey := GetScriptForDestination (CKeyID (GetID signer_key)) |}]; nLockTime := 0 |}, u256 77);
  w_active := {| fMasterNode := false; active_vin := null_txin; active_pubKeyMasternode := [] |}; w_moves := true |}.

Definition no_masternodes : CMasternodeMan := {| vMasternodes := []; mAskedUsForMasternodeList := ∅; mWeAskedForMasternodeList := ∅; mWeAskedForMasternodeListEntry := ∅;
  mapSeenMasternodeBroadcast := ∅; mapSeenMasternodePing := ∅; mapCacheBlockHashes := ∅; mapSeenSyncMNB := ∅; lastMasternodeList := 0 |}.

Definition no_text {A} (a : A) : byte_list := [].
Definition example_announce (sig : byte_list) (s : CMasternodeMan) : option (CMasternodeMan * Z) :=
  process_mnb signer_keys signer_recovery no_text no_text example_world (example_mnb sig) s.

Example announced_masternode : (fun r => (map mn_sigTime (vMasternodes r.1), r.2)) <$> example_announce signer_signature no_masternodes = Some ([1000000], 0).
Proof. vm_compute. reflexivity. Qed.

Definition one_masternode : CMasternodeMan := default no_masternodes (fst <$> example_announce signer_signature no_masternodes).

Lemma masternodes_vetted_witness :
  NoDup (map (fun mn => prevout (mn_vin mn)) (vMasternodes one_masternode)) /\
  (forall mn, mn ∈ vMasternodes one_masternode -> announced signer_keys signer_recovery no_text mn /\ sourced signer_keys signer_recovery no_text [received example_world (example_mnb signer_signature)] (claims mn)) /\
  (forall h b, mapSeenMasternodeBroadcast one_masternode !! h = Some b -> mnb_GetHash b = h) /\ (forall h n, mapSeenSyncMNB one_masternode !! h = Some n -> 0 <= n <= MASTERNODE_SYNC_THRESHOLD).
Proof.
  assert (Hist : @history merge_sort_down signer_keys signer_recovery no_text no_text [received example_world (example_mnb signer_signature)] one_masternode).
  { apply (history_mnb _ _ _ _ _ _ [] no_masternodes one_masternode 0); [apply history_start|]. vm_compute. reflexivity. }
  exact (@masternodes_vetted merge_sort_down signer_keys signer_recovery no_text no_text _ _ Hist).
Defined.

Lemma bogus_announcement_wins_witness :
  exists s' dos, example_announce [] no_masternodes = Some (s', dos) /\ vMasternodes s' = vMasternodes no_masternodes /\
    forall W', exists s'', process_mnb signer_keys signer_recovery no_text no_text W' (example_mnb signer_signature) s' = Some (s'', 0) /\ vMasternodes s'' = vMasternodes no_masternodes.
Proof.
  assert (Hn : mapSeenMasternodeBroadcast no_masternodes !! mnb_GetHash (example_mnb signer_signature) = None) by (apply lookup_empty).
  assert (V : VerifyMessage signer_keys signer_recovery (pubKeyCollateralAddress (example_mnb [])) (mn_sig (example_mnb [])) (GetStrMessage no_text (example_mnb [])) = false) by reflexivity.
  exact (bogus_announcement_wins signer_keys signer_recovery no_text no_text example_world (example_mnb []) (example_mnb signer_signature) no_masternodes Hn eq_refl eq_refl V).
Defined.

Lemma GetBlockHash_correct_witness :
  exists cache', GetBlockHash example_store example_chain 4 ∅ = (cache', block_hash_at example_store example_chain 4) /\
    forall hash, block_hash_at example_store example_chain 4 = Some hash -> forall st2 c2, is_Some (Tip c2) -> 4 <> 0 -> GetBlockHash st2 c2 4 cache' = (cache', Some hash).
Proof.
  assert (Hh : 0 < Height example_chain) by (vm_compute; reflexivity).
  assert (Hn : (∅ : gmap Z uint256) !! (if 4 =? 0 then Height example_chain else 4) = None) by (apply lookup_empty).
  exact (GetBlockHash_correct example_store example_chain 4 ∅ example_chain_wf Hh Hn).
Defined.

Example block_hash_at_four : block_hash_at example_store example_chain 4 = Some (phashBlock (deref example_store 3)) /\ block_hash_at example_store example_chain (-100) = Some (phashBlock (deref example_store 5)).
Proof. by vm_compute. Qed.

Lemma GetMasternodeRank_correct_witness :
  rank_spec example_vin (ranked example_world 70924 true one_masternode) (mn_block_hash example_world 4 one_masternode).2
    (@GetMasternodeRank merge_sort_down example_world example_vin 4 70924 true one_masternode).2.
Proof.
  assert (N : NoDup (map (fun mn => prevout (mn_vin mn)) (vMasternodes one_masternode))).
  { assert (E : map (fun mn => prevout (mn_vin mn)) (vMasternodes one_masternode) = [prevout example_vin]) by (vm_compute; reflexivity). rewrite E. apply NoDup_singleton. }
  exact (@GetMasternodeRank_correct merge_sort_down merge_sort_down_laws example_world example_vin 4 70924 true one_masternode N).
Defined.

Example example_rank : (@GetMasternodeRank merge_sort_down example_world example_vin 4 70924 true one_masternode).2 = 1 /\
  (@GetMasternodeRank merge_sort_down example_world null_txin 4 70924 true one_masternode).2 = -1.
Proof. by vm_compute. Qed.
