(* ===== verification/Payments.v ===== *)
(** The payments to masternodes (masternode-payments.h, masternode-payments.cpp, with the
    parts of masternode.cpp and masternodeman.cpp that look at payments).

    The best masternodes of a block vote for the one that a later block has to pay; a vote
    is a [CMasternodePaymentWinner].  The functions are on the state of this file and on
    the list of masternodes.  [script_text] is [CScript::ToString]. *)

From Stdlib Require Import Strings.String Floats.SpecFloat.
From stdpp Require Import gmap sorting.
From S2P Require Import Prelude Uint256 Arith256 Params Subsidy Chain Serialize Digest Hashes Script Pubkey Transaction Standard Signer Sporks Masternodes.

Local Open Scope Z_scope.
#[local] Abbreviation length := Datatypes.length.

Definition MNPAYMENTS_SIGNATURES_REQUIRED : Z := 6.
Definition MNPAYMENTS_SIGNATURES_TOTAL : Z := 10.

(** * The payees of a block *)

Record CMasternodePayee := { payee_scriptPubKey : CScript; nVotes : Z }.

Record CMasternodeBlockPayees := { bp_nBlockHeight : Z; vecPayments : list CMasternodePayee }.

Fixpoint AddPayee (payeeIn : CScript) (nIncrement : Z) (l : list CMasternodePayee) : list CMasternodePayee :=
  match l with
  | [] => [{| payee_scriptPubKey := payeeIn; nVotes := nIncrement |}]
  | p :: l =>
      if bool_decide (payee_scriptPubKey p = payeeIn) then {| payee_scriptPubKey := payee_scriptPubKey p; nVotes := s32 (nVotes p + nIncrement) |} :: l
      else p :: AddPayee payeeIn nIncrement l
  end.

(** The first payee with the most votes. *)
Fixpoint best_payee (l : list CMasternodePayee) (payee : option CScript) (votes : Z) : option CScript :=
  match l with
  | [] => payee
  | p :: l => if votes <? nVotes p then best_payee l (Some (payee_scriptPubKey p)) (nVotes p) else best_payee l payee votes
  end.

(** [None] for the result false. *)
Definition GetPayee (b : CMasternodeBlockPayees) : option CScript := best_payee (vecPayments b) None (-1).

Definition HasPayeeWithVotes (b : CMasternodeBlockPayees) (payee : CScript) (nVotesReq : Z) : bool :=
  existsb (fun p => (nVotesReq <=? nVotes p) && bool_decide (payee_scriptPubKey p = payee)) (vecPayments b).

(** Whether an output pays enough to the payee (at most enough in the first blocks). *)
Definition pays (nBlockHeight required : Z) (payee : CScript) (out : CTxOut) : bool :=
  bool_decide (payee = scriptPubKey out) &&
    ((nBlockHeight <=? 225000) && (nValue out <=? required) || (225000 <? nBlockHeight) && (required <=? nValue out)).

Definition max_signatures (l : list CMasternodePayee) : Z :=
  foldl (fun m p => if (m <=? nVotes p) && (MNPAYMENTS_SIGNATURES_REQUIRED <=? nVotes p) then nVotes p else m) 0 l.

Definition bp_IsTransactionValid (net : Network) (ps : CChainParams) (b : CMasternodeBlockPayees) (tx : CTransaction) : bool :=
  let h := bp_nBlockHeight b in
  let required := GetMasternodePayment ps h (GetBlockValue net ps h) in
  if max_signatures (vecPayments b) <? MNPAYMENTS_SIGNATURES_REQUIRED then true
  else existsb (fun p => (MNPAYMENTS_SIGNATURES_REQUIRED <=? nVotes p) && existsb (pays h required (payee_scriptPubKey p)) (vout tx)) (vecPayments b).

(** * Votes *)

Record CMasternodePaymentWinner := { vinMasternode : CTxIn; win_nBlockHeight : Z; win_payee : CScript; win_vchSig : byte_list }.

Definition c_winner : codec CMasternodePaymentWinner :=
  c_iso (fun x => {| vinMasternode := x.1.1.1; win_nBlockHeight := x.1.1.2; win_payee := x.1.2; win_vchSig := x.2 |})
    (fun w => (((vinMasternode w, win_nBlockHeight w), win_payee w), win_vchSig w))
    (c_pair (c_pair (c_pair c_txin (c_int 4)) c_bytes) c_bytes).

Definition winner_GetHash (w : CMasternodePaymentWinner) : uint256 :=
  Hash (enc c_bytes (win_payee w) ++ enc (c_int 4) (win_nBlockHeight w) ++ enc c_outpoint (prevout (vinMasternode w))).

(** [COutPoint::ToStringShort]. *)
Definition ToStringShort (o : COutPoint) : byte_list := take 64 (GetHex (out_hash o)) ++ [45] ++ decimal (out_n o).

(** The state of [CMasternodePayments], with what [masternodeSync] counts for winners. *)
Record CMasternodePayments := {
  mapMasternodePayeeVotes : gmap uint256 CMasternodePaymentWinner;
  mapMasternodeBlocks : gmap Z CMasternodeBlockPayees;
  mapMasternodesLastVote : gmap uint256 Z;
  nLastBlockHeight : Z;
  mapSeenSyncMNW : gmap uint256 Z;
  lastMasternodeWinner : Z
}.

Definition no_payments : CMasternodePayments := {| mapMasternodePayeeVotes := ∅; mapMasternodeBlocks := ∅; mapMasternodesLastVote := ∅;
  nLastBlockHeight := 0; mapSeenSyncMNW := ∅; lastMasternodeWinner := 0 |}.

Definition set_votes (v : gmap uint256 CMasternodePaymentWinner) (b : gmap Z CMasternodeBlockPayees) (p : CMasternodePayments) : CMasternodePayments := {|
  mapMasternodePayeeVotes := v; mapMasternodeBlocks := b; mapMasternodesLastVote := mapMasternodesLastVote p;
  nLastBlockHeight := nLastBlockHeight p; mapSeenSyncMNW := mapSeenSyncMNW p; lastMasternodeWinner := lastMasternodeWinner p |}.
Definition set_last_vote (m : gmap uint256 Z) (p : CMasternodePayments) : CMasternodePayments := {|
  mapMasternodePayeeVotes := mapMasternodePayeeVotes p; mapMasternodeBlocks := mapMasternodeBlocks p; mapMasternodesLastVote := m;
  nLastBlockHeight := nLastBlockHeight p; mapSeenSyncMNW := mapSeenSyncMNW p; lastMasternodeWinner := lastMasternodeWinner p |}.
Definition set_last_height (h : Z) (p : CMasternodePayments) : CMasternodePayments := {|
  mapMasternodePayeeVotes := mapMasternodePayeeVotes p; mapMasternodeBlocks := mapMasternodeBlocks p; mapMasternodesLastVote := mapMasternodesLastVote p;
  nLastBlockHeight := h; mapSeenSyncMNW := mapSeenSyncMNW p; lastMasternodeWinner := lastMasternodeWinner p |}.
Definition set_sync_mnw (m : gmap uint256 Z) (t : Z) (p : CMasternodePayments) : CMasternodePayments := {|
  mapMasternodePayeeVotes := mapMasternodePayeeVotes p; mapMasternodeBlocks := mapMasternodeBlocks p; mapMasternodesLastVote := mapMasternodesLastVote p;
  nLastBlockHeight := nLastBlockHeight p; mapSeenSyncMNW := m; lastMasternodeWinner := t |}.

(** [Clear]. *)
Definition pay_Clear (p : CMasternodePayments) : CMasternodePayments := set_votes ∅ ∅ p.

(** [CanVote]: whether the masternode may vote for the height; it has then voted. *)
Definition CanVote (o : COutPoint) (nBlockHeight : Z) (p : CMasternodePayments) : CMasternodePayments * bool :=
  let key := add (out_hash o) (u256 (out_n o)) in
  match mapMasternodesLastVote p !! key with
  | Some h => if h =? nBlockHeight then (p, false) else (set_last_vote (<[key := nBlockHeight]> (mapMasternodesLastVote p)) p, true)
  | None => (set_last_vote (<[key := nBlockHeight]> (mapMasternodesLastVote p)) p, true)
  end.

(** [masternodeSync.AddedMasternodeWinner]. *)
Definition AddedMasternodeWinner (now : Z) (hash : uint256) (p : CMasternodePayments) : CMasternodePayments :=
  match mapMasternodePayeeVotes p !! hash with
  | Some _ =>
      let n := default 0 (mapSeenSyncMNW p !! hash) in
      if n <? MASTERNODE_SYNC_THRESHOLD then set_sync_mnw (<[hash := n + 1]> (mapSeenSyncMNW p)) now p
      else set_sync_mnw (<[hash := n]> (mapSeenSyncMNW p)) (lastMasternodeWinner p) p
  | None =>
      set_sync_mnw (match mapSeenSyncMNW p !! hash with Some _ => mapSeenSyncMNW p | None => <[hash := 1]> (mapSeenSyncMNW p) end) now p
  end.

(** The payees of a block, and the payee with the most votes. *)
Definition GetBlockPayee (nBlockHeight : Z) (p : CMasternodePayments) : option CScript := b ← mapMasternodeBlocks p !! nBlockHeight; GetPayee b.

Section Payments.
Context `{StdSort} (lib : secp256k1) (rec : secp256k1_recovery lib) (script_text : CScript -> byte_list) (net : Network) (ps : CChainParams).
Context (W : World).

(** [IsTransactionValid]: where spork 8 is on, the masternodes are checked to be counted,
    but the required payment does not depend on the count. *)
Definition pay_IsTransactionValid (tx : CTransaction) (nBlockHeight : Z) (m : CMasternodeMan) (p : CMasternodePayments) : CMasternodeMan * bool :=
  match mapMasternodeBlocks p !! nBlockHeight with
  | Some b => (if IsSporkActive (w_sporks W) (w_time W) SPORK_8_MASTERNODE_PAYMENT_ENFORCEMENT then (stable_size W m).1 else m, bp_IsTransactionValid net ps b tx)
  | None => (m, true)
  end.

Definition AddWinningMasternode (w : CMasternodePaymentWinner) (m : CMasternodeMan) (p : CMasternodePayments) : CMasternodeMan * CMasternodePayments * bool :=
  match mn_block_hash W (win_nBlockHeight w - 100) m with
  | (m, None) => (m, p, false)
  | (m, Some _) =>
      let hash := winner_GetHash w in
      match mapMasternodePayeeVotes p !! hash with
      | Some _ => (m, p, false)
      | None =>
          let h := win_nBlockHeight w in
          let b := default {| bp_nBlockHeight := h; vecPayments := [] |} (mapMasternodeBlocks p !! h) in
          (m, set_votes (<[hash := w]> (mapMasternodePayeeVotes p))
                (<[h := {| bp_nBlockHeight := bp_nBlockHeight b; vecPayments := AddPayee (win_payee w) 1 (vecPayments b) |}]> (mapMasternodeBlocks p)) p, true)
      end
  end.

(** * The message mnw *)

Definition active_protocol : Z := ActiveProtocol (w_sporks W) (w_time W).

Definition winner_text (w : CMasternodePaymentWinner) : byte_list :=
  ToStringShort (prevout (vinMasternode w)) ++ decimal (win_nBlockHeight w) ++ script_text (win_payee w).

Definition winner_IsValid (w : CMasternodePaymentWinner) (m : CMasternodeMan) : CMasternodeMan * bool :=
  match i ← find_vin (vinMasternode w) m; vMasternodes m !! i with
  | None => (AskForMN W (vinMasternode w) m, false)
  | Some pmn =>
      if protocolVersion pmn <? active_protocol then (m, false)
      else
        let '(m, n) := GetMasternodeRank W (vinMasternode w) (win_nBlockHeight w - 100) active_protocol true m in
        (m, negb (MNPAYMENTS_SIGNATURES_TOTAL <? n))
  end.

Definition winner_SignatureValid (w : CMasternodePaymentWinner) (m : CMasternodeMan) : bool :=
  match i ← find_vin (vinMasternode w) m; vMasternodes m !! i with
  | None => false
  | Some pmn => VerifyMessage lib rec (pubKeyMasternode pmn) (win_vchSig w) (winner_text w)
  end.

(** [nHeight - CountEnabled() * 1.25]: exact in a double, then truncated. *)
Definition first_block (nHeight nEnabled : Z) : Z := Z.quot (4 * nHeight - 5 * nEnabled) 4.

(** The handler, of a node that is not in lite mode and whose chain is synced: the new
    states and what [Misbehaving] is called with (0: not called). *)
Definition process_mnw (peer_version : Z) (synced : bool) (w : CMasternodePaymentWinner) (m : CMasternodeMan) (p : CMasternodePayments) : CMasternodeMan * CMasternodePayments * Z :=
  if peer_version <? active_protocol then (m, p, 0)
  else match Tip (w_chain W) with
  | None => (m, p, 0)
  | Some _ =>
    let nHeight := Height (w_chain W) in
    match mapMasternodePayeeVotes p !! winner_GetHash w with
    | Some _ => (m, AddedMasternodeWinner (w_time W) (winner_GetHash w) p, 0)
    | None =>
        let '(m, n) := CountEnabled W (-1) m in
        if (win_nBlockHeight w <? first_block nHeight n) || (nHeight + 20 <? win_nBlockHeight w) then (m, p, 0)
        else
        let '(m, ok) := winner_IsValid w m in
        if negb ok then (m, p, 0)
        else
        let '(p, ok) := CanVote (prevout (vinMasternode w)) (win_nBlockHeight w) p in
        if negb ok then (m, p, 0)
        else if negb (winner_SignatureValid w m) then (AskForMN W (vinMasternode w) m, p, if synced then 20 else 0)
        else
        let '(m, p, added) := AddWinningMasternode w m p in
        (m, if added : bool then AddedMasternodeWinner (w_time W) (winner_GetHash w) p else p, 0)
    end
  end.

(** [Sync]: the winners announced in answer to mnget. *)
Definition pay_Sync (nCountNeeded : Z) (m : CMasternodeMan) (p : CMasternodePayments) : CMasternodeMan * list uint256 :=
  match Tip (w_chain W) with
  | None => (m, [])
  | Some _ =>
      let nHeight := Height (w_chain W) in
      let '(m, n) := CountEnabled W (-1) m in
      let nCountNeeded := Z.min nCountNeeded (Z.quot (5 * n) 4) in
      (m, map (fun e => winner_GetHash e.2) (base.filter (fun e => nHeight - nCountNeeded <= win_nBlockHeight e.2 <= nHeight + 20) (map_to_list (mapMasternodePayeeVotes p))))
  end.

(** The answer to mnget: on the main network a peer is answered once. *)
Definition process_mnget (fulfilled : bool) (nCountNeeded : Z) (m : CMasternodeMan) (p : CMasternodePayments) : CMasternodeMan * Z * list uint256 :=
  if w_main W && fulfilled then (m, 20, []) else let '(m, r) := pay_Sync nCountNeeded m p in (m, 0, r).

(** * Old votes *)

Definition old_vote (nHeight nLimit h : Z) : bool := nLimit <? nHeight - h.

Definition CleanPaymentList (m : CMasternodeMan) (p : CMasternodePayments) : CMasternodePayments :=
  match Tip (w_chain W) with
  | None => p
  | Some _ =>
      let nHeight := Height (w_chain W) in
      let nLimit := Z.max (Z.quot (5 * Z.of_nat (length (vMasternodes m))) 4) 1000 in
      let old := base.filter (fun e => old_vote nHeight nLimit (win_nBlockHeight e.2) = true) (mapMasternodePayeeVotes p) in
      let blocks := foldr (fun e b => delete (win_nBlockHeight e.2) b) (mapMasternodeBlocks p) (map_to_list old) in
      set_sync_mnw (base.filter (fun e => old !! e.1 = None) (mapSeenSyncMNW p)) (lastMasternodeWinner p)
        (set_votes (base.filter (fun e => old_vote nHeight nLimit (win_nBlockHeight e.2) = false) (mapMasternodePayeeVotes p)) blocks p)
  end.

(** * The next masternode to pay *)

Definition mn_payee (mn : CMasternode) : CScript := GetScriptForDestination (CKeyID (GetID (pubKeyCollateralAddress mn))).

Definition IsScheduled (mn : CMasternode) (nNotBlockHeight : Z) (p : CMasternodePayments) : bool :=
  match Tip (w_chain W) with
  | None => false
  | Some _ =>
      let nHeight := Height (w_chain W) in
      existsb (fun k =>
        let h := nHeight + Z.of_nat k in
        negb (h =? nNotBlockHeight) && match GetBlockPayee h p with Some payee => bool_decide (mn_payee mn = payee) | None => false end) (seq 0 9)
  end.

(** The hash of a masternode that breaks ties, as a number. *)
Definition mn_tie (mn : CMasternode) : Z := default 0 (GetCompact (Hash (enc c_txin (mn_vin mn) ++ enc (c_int 8) (mn_sigTime mn))) false).

(** From the block at [q] back, up to [left] blocks. *)
Fixpoint last_paid (fuel : nat) (left : Z) (mnpayee : CScript) (nOffset : Z) (p : CMasternodePayments) (q : ptr) : Z :=
  match fuel with
  | O => 0
  | S fuel =>
      if negb (0 <? height_of (w_store W) q) then 0
      else if left <=? 0 then 0
      else if match mapMasternodeBlocks p !! height_of (w_store W) q with Some b => HasPayeeWithVotes b mnpayee 2 | None => false end
      then nTime (deref (w_store W) q) + nOffset
      else match pprev_of (w_store W) q with None => 0 | Some q => last_paid fuel (left - 1) mnpayee nOffset p q end
  end.

Definition GetLastPaid (mn : CMasternode) (m : CMasternodeMan) (p : CMasternodePayments) : CMasternodeMan * Z :=
  match Tip (w_chain W) with
  | None => (m, 0)
  | Some tip =>
      let '(m, n) := CountEnabled W (-1) m in
      (m, last_paid (S (Z.to_nat (height_of (w_store W) tip))) (Z.quot (5 * n) 4) (mn_payee mn) (mn_tie mn mod 150) p tip)
  end.

Definition SecondsSincePayment (mn : CMasternode) (m : CMasternodeMan) (p : CMasternodePayments) : CMasternodeMan * Z :=
  let '(m, paid) := GetLastPaid mn m p in
  let sec := w_adjusted W - paid in
  let month := 60 * 60 * 24 * 30 in
  (m, if sec <? month then sec else month + mn_tie mn).

(** The masternodes at the places [l] that can be paid, with the time since their last
    payment. *)
Fixpoint queue_loop (l : list nat) (nBlockHeight nMnCount : Z) (fFilterSigTime : bool) (m : CMasternodeMan) (p : CMasternodePayments) : CMasternodeMan * list (Z * CTxIn) :=
  match l with
  | [] => (m, [])
  | i :: l =>
      let m := update_mn i (mn_Check W false) m in
      match vMasternodes m !! i with
      | None => (m, [])
      | Some mn =>
          if negb (IsEnabled mn) || (protocolVersion mn <? GetMinMasternodePaymentsProto W) || IsScheduled mn nBlockHeight p
             || fFilterSigTime && SFltb (double_of_Z (w_adjusted W))
                  (SFadd 53 1024 (double_of_Z (mn_sigTime mn)) (double_mul (double_mul (double_of_Z nMnCount) (tenths 26)) (double_of_Z 60)))
          then queue_loop l nBlockHeight nMnCount fFilterSigTime m p
          else
            let '(mn, age) := GetMasternodeInputAge W mn in
            let m := update_mn i (fun _ => mn) m in
            if age <? nMnCount then queue_loop l nBlockHeight nMnCount fFilterSigTime m p
            else
              let '(m, sec) := SecondsSincePayment mn m p in
              let '(m, r) := queue_loop l nBlockHeight nMnCount fFilterSigTime m p in
              (m, (sec, mn_vin mn) :: r)
      end
  end.

(** The best score among the first tenth. *)
Fixpoint best_loop (l : list (Z * CTxIn)) (nBlockHeight nTenthNetwork nCountTenth : Z) (nHigh : uint256) (best : option nat) (m : CMasternodeMan) : CMasternodeMan * option nat :=
  match l with
  | [] => (m, best)
  | x :: l =>
      match i ← find_vin x.2 m; mn ← vMasternodes m !! i; Some (i, mn) with
      | None => (m, best)
      | Some (i, mn) =>
          let '(m, n) := CalculateScore W mn (nBlockHeight - 100) m in
          let '(nHigh, best) := if gt n nHigh then (n, Some i) else (nHigh, best) in
          if nTenthNetwork <=? nCountTenth + 1 then (m, best) else best_loop l nBlockHeight nTenthNetwork (nCountTenth + 1) nHigh best m
      end
  end.

(** One pass of [GetNextMasternodeInQueueForPayment], over the queue. *)
Definition payment_queue (nBlockHeight : Z) (fFilterSigTime : bool) (m : CMasternodeMan) (p : CMasternodePayments) : CMasternodeMan * list (Z * CTxIn) * Z :=
  let '(m, nMnCount) := CountEnabled W (-1) m in
  let '(m, vec) := queue_loop (seq 0 (length (vMasternodes m))) nBlockHeight nMnCount fFilterSigTime m p in
  (m, vec, nMnCount).

(** The place of the masternode to pay, and how many could be. *)
Definition GetNextMasternodeInQueueForPayment (nBlockHeight : Z) (fFilterSigTime : bool) (m : CMasternodeMan) (p : CMasternodePayments) : CMasternodeMan * option nat * Z :=
  let '(m, vec, nMnCount) := payment_queue nBlockHeight fFilterSigTime m p in
  let '(m, vec) :=
    if fFilterSigTime && (Z.of_nat (length vec) <? nMnCount / 3) then let '(m, vec, _) := payment_queue nBlockHeight false m p in (m, vec) else (m, vec) in
  let '(m, n) := CountEnabled W (-1) m in
  let '(m, best) := best_loop (sort_down fst vec) nBlockHeight (n / 10) 0 (u256 0) None m in
  (m, best, Z.of_nat (length vec)).

(** [ProcessBlock]: the node votes with its own masternode.  [key] is what [SetKey] makes of
    the masternode's key: signing with it, and the public key. *)
Definition pay_ProcessBlock (budget_block : bool) (key : option ((uint256 -> option byte_list) * byte_list)) (nBlockHeight : Z) (m : CMasternodeMan) (p : CMasternodePayments)
    : CMasternodeMan * CMasternodePayments * bool :=
  let v := active_vin (w_active W) in
  if negb (fMasterNode (w_active W)) then (m, p, false)
  else
  let '(m, n) := GetMasternodeRank W v (nBlockHeight - 100) active_protocol true m in
  if (n =? -1) || (MNPAYMENTS_SIGNATURES_TOTAL <? n) || (nBlockHeight <=? nLastBlockHeight p) then (m, p, false)
  else
  let '(m, w) :=
    if budget_block then (m, {| vinMasternode := v; win_nBlockHeight := 0; win_payee := []; win_vchSig := [] |})
    else
      let '(m, best, _) := GetNextMasternodeInQueueForPayment nBlockHeight true m p in
      (m, match i ← best; vMasternodes m !! i with
          | Some mn => {| vinMasternode := v; win_nBlockHeight := nBlockHeight; win_payee := mn_payee mn; win_vchSig := [] |}
          | None => {| vinMasternode := v; win_nBlockHeight := 0; win_payee := []; win_vchSig := [] |}
          end) in
  match key with
  | None => (m, p, false)
  | Some (SignCompact, pubkey) =>
      match sign_and_verify lib rec SignCompact pubkey (winner_text w) with
      | None => (m, p, false)
      | Some sig =>
          let w := {| vinMasternode := vinMasternode w; win_nBlockHeight := win_nBlockHeight w; win_payee := win_payee w; win_vchSig := sig |} in
          let '(m, p, added) := AddWinningMasternode w m p in
          if added : bool then (m, set_last_height nBlockHeight p, true) else (m, p, false)
      end
  end.

(** [FillBlockPayee] of [CMasternodePayments]: the outputs of the coinbase or coinstake with
    the payment.  The value of a block is that of the block before. *)
Definition with_value (v : Z) (out : CTxOut) : CTxOut := {| nValue := v; scriptPubKey := scriptPubKey out |}.

Definition mn_FillBlockPayee (fProofOfStake : bool) (outs : list CTxOut) (m : CMasternodeMan) (p : CMasternodePayments) : option (CMasternodeMan * list CTxOut) :=
  match Tip (w_chain W) with
  | None => Some (m, outs)
  | Some _ =>
      let nHeight := Height (w_chain W) in
      let '(m, payee) :=
        match GetBlockPayee (nHeight + 1) p with
        | Some payee => (m, Some payee)
        | None => let '(m, i) := GetCurrentMasterNode W 0 0 m in (m, i ← i; mn ← vMasternodes m !! i; Some (mn_payee mn))
        end in
      let blockValue := GetBlockValue net ps nHeight in
      let payment := GetMasternodePayment ps nHeight blockValue in
      match payee with
      | None => Some (m, outs)
      | Some payee =>
          let out := {| nValue := payment; scriptPubKey := payee |} in
          if fProofOfStake then
            i ← last outs;
            Some (m, take (length outs - 1) outs ++ [with_value (s64 (nValue i - payment)) i; out])
          else
            let first := default null_txout (head outs) in
            Some (m, [with_value (s64 (blockValue - payment)) first; out])
      end
  end.

(** [GetOldestBlock] and [GetNewestBlock]. *)
Definition GetOldestBlock (p : CMasternodePayments) : Z := foldr Z.min (2 ^ 31 - 1) (map fst (map_to_list (mapMasternodeBlocks p))).
Definition GetNewestBlock (p : CMasternodePayments) : Z := foldr Z.max 0 (map fst (map_to_list (mapMasternodeBlocks p))).
End Payments.

#[global] Arguments winner_GetHash : simpl never.

(** * Votes and counts *)

Definition votes_for (s : CScript) (l : list CMasternodePayee) : Z :=
  match find (fun p => bool_decide (payee_scriptPubKey p = s)) l with Some p => nVotes p | None => 0 end.

(** The votes in the map for a payee at a height. *)
Definition ballots (h : Z) (s : CScript) (m : gmap uint256 CMasternodePaymentWinner) : gmap uint256 CMasternodePaymentWinner :=
  base.filter (fun e => win_nBlockHeight e.2 = h /\ win_payee e.2 = s) m.

Lemma AddPayee_votes s s' l : votes_for s (AddPayee s' 1 l) = if decide (s = s') then s32 (votes_for s l + 1) else votes_for s l.
Proof.
  unfold votes_for. induction l as [|p l IH]; cbn [AddPayee find].
  - destruct (decide (s = s')) as [->|N]; [by rewrite bool_decide_true|by rewrite bool_decide_false by done].
  - destruct (bool_decide_reflect (payee_scriptPubKey p = s')) as [<-|N']; cbn [find payee_scriptPubKey].
    + destruct (decide (s = payee_scriptPubKey p)) as [->|N]; [by rewrite bool_decide_true|by rewrite bool_decide_false by done].
    + destruct (bool_decide_reflect (payee_scriptPubKey p = s)) as [<-|N]; [by rewrite decide_False|exact IH].
Qed.

Lemma AddPayee_scripts s l : map payee_scriptPubKey (AddPayee s 1 l) = if decide (s ∈ map payee_scriptPubKey l) then map payee_scriptPubKey l else map payee_scriptPubKey l ++ [s].
Proof.
  induction l as [|p l IH]; cbn [AddPayee map]; [done|]. destruct (bool_decide_reflect (payee_scriptPubKey p = s)) as [<-|N]; cbn [map payee_scriptPubKey].
  - rewrite decide_True; [done|left].
  - rewrite IH. destruct (decide (s ∈ map payee_scriptPubKey l)); [rewrite decide_True; [done|by right]|rewrite decide_False; [done|]]. intros [->|]%elem_of_cons; done.
Qed.

Lemma votes_for_elem p l : NoDup (map payee_scriptPubKey l) -> p ∈ l -> votes_for (payee_scriptPubKey p) l = nVotes p.
Proof.
  unfold votes_for. induction l as [|q l IH]; intros N I; [by apply not_elem_of_nil in I|]. cbn [map find] in *. inversion N as [|? ? Nq N']; subst.
  apply elem_of_cons in I as [<-|I]; [by rewrite bool_decide_true|]. rewrite bool_decide_false; [by apply IH|].
  intros E. apply Nq. rewrite E. apply list_elem_of_fmap. by exists p.
Qed.

Lemma s32_le x : 0 <= x -> s32 x <= x.
Proof. intros H. unfold s32. pose proof (Z.mod_le (x + 2 ^ 31) (2 ^ 32) ltac:(lia) ltac:(lia)). lia. Qed.

Lemma s32_add x y : s32 (s32 x + y) = s32 (x + y).
Proof.
  unfold s32. f_equal. replace ((x + 2 ^ 31) mod 2 ^ 32 - 2 ^ 31 + y + 2 ^ 31) with ((x + 2 ^ 31) mod 2 ^ 32 + y) by lia.
  rewrite Zplus_mod_idemp_l. f_equal. lia.
Qed.

(** What has been counted. *)
Record tally (p : CMasternodePayments) : Prop := {
  ta_key h w : mapMasternodePayeeVotes p !! h = Some w -> winner_GetHash w = h;
  ta_height h b : mapMasternodeBlocks p !! h = Some b -> bp_nBlockHeight b = h /\ NoDup (map payee_scriptPubKey (vecPayments b));
  ta_count h s : match mapMasternodeBlocks p !! h with Some b => votes_for s (vecPayments b) | None => 0 end = s32 (Z.of_nat (size (ballots h s (mapMasternodePayeeVotes p))))
}.

Lemma ballots_insert h s k w m : m !! k = None ->
  size (ballots h s (<[k := w]> m)) = if decide (win_nBlockHeight w = h /\ win_payee w = s) then S (size (ballots h s m)) else size (ballots h s m).
Proof.
  intros Hn. unfold ballots. case_decide as D.
  - rewrite map_filter_insert_True by done. apply map_size_insert_None. apply map_lookup_filter_None. by left.
  - rewrite map_filter_insert_False by done. by rewrite delete_id.
Qed.

Lemma filter_none {A} (P : uint256 * A -> Prop) `{forall x, Decision (P x)} (m : gmap uint256 A) : (forall k x, m !! k = Some x -> ~ P (k, x)) -> base.filter P m = ∅.
Proof. intros E. apply map_empty. intros k. apply map_lookup_filter_None. right. intros x L. by apply E. Qed.

(** The same counts in another state. *)
Lemma tally_same p p' : mapMasternodePayeeVotes p' = mapMasternodePayeeVotes p -> mapMasternodeBlocks p' = mapMasternodeBlocks p -> tally p -> tally p'.
Proof. intros Ev Eb [K Hh C]. split; rewrite ?Ev, ?Eb; done. Qed.

Section Tally.
Context `{StdSort} (lib : secp256k1) (rec : secp256k1_recovery lib) (script_text : CScript -> byte_list) (net : Network) (ps : CChainParams).

Lemma add_winning_spec W w m p m' p' b : AddWinningMasternode W w m p = (m', p', b) ->
  p' = p /\ b = false \/
  (b = true /\ mapMasternodePayeeVotes p !! winner_GetHash w = None /\ mapMasternodePayeeVotes p' = <[winner_GetHash w := w]> (mapMasternodePayeeVotes p) /\ (tally p -> tally p')).
Proof.
  unfold AddWinningMasternode. destruct (mn_block_hash W _ m) as [m1 [hash|]]; [|intros [= <- <- <-]; by left].
  destruct (mapMasternodePayeeVotes p !! _) as [x|] eqn:Hn; [intros [= <- <- <-]; by left|]. intros [= <- <- <-]. right. split_and!; [done|done|done|].
  intros [K Hh C]. set (h := win_nBlockHeight w) in *. set (b0 := default _ (mapMasternodeBlocks p !! h)).
  assert (Hb0 : bp_nBlockHeight b0 = h /\ NoDup (map payee_scriptPubKey (vecPayments b0)) /\ forall s, votes_for s (vecPayments b0) = s32 (Z.of_nat (size (ballots h s (mapMasternodePayeeVotes p))))).
  { unfold b0. specialize (C h). destruct (mapMasternodeBlocks p !! h) as [x|] eqn:E; cbn [default vecPayments bp_nBlockHeight].
    - destruct (Hh _ _ E). by split_and!.
    - split_and!; [done|constructor|]. intros s. by rewrite <- C. }
  destruct Hb0 as (E0 & N0 & C0). split; cbn [set_votes mapMasternodePayeeVotes mapMasternodeBlocks].
  - intros k x. rewrite lookup_insert_Some. intros [[<- <-]|[_ E]]; [done|by apply K].
  - intros k x. rewrite lookup_insert_Some. intros [[<- <-]|[_ E]]; [|by apply Hh]. cbn [bp_nBlockHeight vecPayments]. split; [done|].
    rewrite AddPayee_scripts. case_decide; [done|]. apply NoDup_app. split_and!; [done| |apply NoDup_singleton]. intros x I ->%list_elem_of_singleton. done.
  - intros k s. rewrite ballots_insert by done. destruct (decide (k = h)) as [->|Nk].
    + rewrite lookup_insert_eq. cbn [vecPayments]. rewrite AddPayee_votes, C0. destruct (decide (s = win_payee w)) as [->|Ns].
      * rewrite decide_True by done. rewrite s32_add. f_equal. lia.
      * rewrite decide_False by (intros [_ ?]; congruence). done.
    + rewrite lookup_insert_ne by done. rewrite decide_False by (intros [E _]; apply Nk; by rewrite <- E). apply C.
Qed.

Lemma clean_blocks_lookup (old : list (uint256 * CMasternodePaymentWinner)) b h :
  foldr (fun e b => delete (win_nBlockHeight e.2) b) b old !! h = if decide (h ∈ map (fun e => win_nBlockHeight e.2) old) then None else (b : gmap Z CMasternodeBlockPayees) !! h.
Proof.
  induction old as [|e old IH]; cbn [foldr map]; [done|]. destruct (decide (h = win_nBlockHeight e.2)) as [->|N].
  - rewrite lookup_delete_eq, decide_True; [done|left].
  - rewrite lookup_delete_ne by done. rewrite IH. destruct (decide (h ∈ map (fun e => win_nBlockHeight e.2) old)).
    + by rewrite decide_True by (by right).
    + rewrite decide_False; [done|]. by intros [->|]%elem_of_cons.
Qed.

Lemma clean_tally W m p : tally p -> tally (CleanPaymentList W m p).
Proof.
  intros [K Hh C]. unfold CleanPaymentList. destruct (Tip _); [|done]. set (nHeight := Height _). set (nLimit := Z.max _ _).
  set (old := base.filter (fun e => old_vote nHeight nLimit (win_nBlockHeight e.2) = true) _).
  split; cbn [set_sync_mnw set_votes mapMasternodePayeeVotes mapMasternodeBlocks].
  - intros h w [E _]%map_lookup_filter_Some. by apply K.
  - intros h b. rewrite clean_blocks_lookup. case_decide; [done|]. apply Hh.
  - intros h s. rewrite clean_blocks_lookup. unfold ballots. rewrite map_filter_filter.
    destruct (old_vote nHeight nLimit h) eqn:O.
    + replace (base.filter _ (mapMasternodePayeeVotes p)) with (∅ : gmap uint256 CMasternodePaymentWinner).
      * rewrite map_size_empty. case_decide as D; [done|]. specialize (C h s). unfold ballots in C. rewrite C. f_equal.
        replace (base.filter _ _) with (∅ : gmap uint256 CMasternodePaymentWinner); [by rewrite map_size_empty|]. symmetry. apply filter_none. intros k w E [Eh _].
        apply D. apply list_elem_of_fmap. exists (k, w). split; [done|]. apply elem_of_map_to_list. apply map_lookup_filter_Some. split; [done|]. cbn in *. by rewrite Eh.
      * symmetry. apply filter_none. intros k w E [[Eh _] F]. cbn in *. rewrite Eh in F. congruence.
    + rewrite decide_False.
      * rewrite (C h s). unfold ballots. do 3 f_equal. apply map_filter_ext. intros k w E. cbn. split; [intros [Eh Es]; split; [done|by rewrite Eh]|by intros [? _]].
      * intros ([k w] & Eh & I)%list_elem_of_fmap. apply elem_of_map_to_list, map_lookup_filter_Some in I as [_ F]. cbn in *. rewrite <- Eh in F. congruence.
Qed.

(** ** A history of votes *)

Inductive vote_event := voted (W : World) (m : CMasternodeMan) (w : CMasternodePaymentWinner) | own_vote (w : CMasternodePaymentWinner).

(** The checks of a vote when it arrives: its masternode is known, is not ranked below the
    tenth, and signed it. *)
Definition vote_checked (W : World) (m : CMasternodeMan) (w : CMasternodePaymentWinner) : Prop :=
  let r := winner_IsValid W w (CountEnabled W (-1) m).1 in r.2 = true /\ winner_SignatureValid lib rec script_text w r.1 = true.

Inductive pay_history : list vote_event -> CMasternodePayments -> Prop :=
| pay_start : pay_history [] no_payments
| pay_mnw W version synced w m es p : pay_history es p -> pay_history (voted W m w :: es) (process_mnw lib rec script_text W version synced w m p).1.2
| pay_own W budget key h m es p m' p' w : pay_history es p -> pay_ProcessBlock lib rec script_text W budget key h m p = (m', p', true) ->
    mapMasternodePayeeVotes p' = <[winner_GetHash w := w]> (mapMasternodePayeeVotes p) -> pay_history (own_vote w :: es) p'
| pay_clean W m es p : pay_history es p -> pay_history es (CleanPaymentList W m p)
| pay_clear es p : pay_history es p -> pay_history es (pay_Clear p).

Definition vote_sourced (es : list vote_event) (w : CMasternodePaymentWinner) : Prop :=
  own_vote w ∈ es \/ exists W m, voted W m w ∈ es /\ vote_checked W m w.

Lemma mnw_cases W version synced w m p : let p' := (process_mnw lib rec script_text W version synced w m p).1.2 in
  mapMasternodePayeeVotes p' = mapMasternodePayeeVotes p /\ mapMasternodeBlocks p' = mapMasternodeBlocks p \/
  (vote_checked W m w /\ mapMasternodePayeeVotes p' = <[winner_GetHash w := w]> (mapMasternodePayeeVotes p) /\ (tally p -> tally p')).
Proof.
  cbv zeta. unfold process_mnw, vote_checked. destruct (version <? _); [by left|]. destruct (Tip _); [|by left].
  destruct (mapMasternodePayeeVotes p !! _); [left; unfold AddedMasternodeWinner; cbn [fst snd]; by repeat case_match|].
  destruct (CountEnabled W (-1) m) as [m1 count]. cbn [fst]. destruct (_ || _); [by left|]. destruct (winner_IsValid W w m1) as [m2 [|]]; cbn [negb fst snd]; [|by left].
  destruct (CanVote _ _ p) as [p1 ok] eqn:Cv. assert (E1 : mapMasternodePayeeVotes p1 = mapMasternodePayeeVotes p /\ mapMasternodeBlocks p1 = mapMasternodeBlocks p).
  { unfold CanVote in Cv. repeat case_match; by injection Cv as <- <-. }
  destruct E1 as [Ev Eb]. destruct ok; cbn [negb]; [|by left]. destruct (winner_SignatureValid _ _ _ w m2); cbn [negb]; [|by left].
  destruct (AddWinningMasternode W w m2 p1) as [[m3 p2] added] eqn:A. cbn [fst snd]. destruct (add_winning_spec _ _ _ _ _ _ _ A) as [[-> ->]|(-> & _ & E2 & T)]; [by left|].
  right. set (p3 := AddedMasternodeWinner _ _ p2). assert (E3 : mapMasternodePayeeVotes p3 = mapMasternodePayeeVotes p2 /\ mapMasternodeBlocks p3 = mapMasternodeBlocks p2) by (unfold p3, AddedMasternodeWinner; by repeat case_match).
  destruct E3 as [Ev3 Eb3]. split_and!; [done|done|by rewrite Ev3, E2, Ev|]. intros Tp. apply (tally_same p2); [done|done|]. apply T. by apply (tally_same p).
Qed.

Lemma own_tally W budget key h m p m' p' : pay_ProcessBlock lib rec script_text W budget key h m p = (m', p', true) -> tally p -> tally p'.
Proof.
  unfold pay_ProcessBlock. intros E T. destruct (negb _); [done|]. destruct (GetMasternodeRank _ _ _ _ _ m) as [m1 n]. destruct (_ || _ || _); [done|].
  destruct (if budget then _ else _) as [m2 w]. destruct key as [[sign pubkey]|]; [|done]. destruct (sign_and_verify _ _ _ _ _) as [sig|]; [|done].
  destruct (AddWinningMasternode W _ m2 p) as [[m3 p3] added] eqn:A. destruct (add_winning_spec _ _ _ _ _ _ _ A) as [[-> ->]|(-> & _ & _ & T3)]; [done|].
  injection E as <- <-. apply (tally_same p3); [done|done|by apply T3].
Qed.

Lemma pay_history_ok es p : pay_history es p -> tally p /\ forall k w, mapMasternodePayeeVotes p !! k = Some w -> vote_sourced es w.
Proof.
  assert (Mono : forall e es w, vote_sourced es w -> vote_sourced (e :: es) w) by (intros e es' w [I|(W & m & I & V)]; [left; by right|right; exists W, m; split; [by right|done]]).
  assert (Empty : forall q, mapMasternodePayeeVotes q = ∅ -> mapMasternodeBlocks q = ∅ -> tally q /\ forall k w es', mapMasternodePayeeVotes q !! k = Some w -> vote_sourced es' w).
  { intros q E1 E2. split; [split|]; rewrite ?E1, ?E2; intros *; by rewrite ?lookup_empty. }
  induction 1 as [|W version synced w m es p _ [T S]|W budget key h m es p m' p' w _ [T S] E Ev|W m es p _ [T S]|es p _ [T S]].
  - destruct (Empty no_payments) as [T S]; eauto.
  - destruct (mnw_cases W version synced w m p) as [[Ev Eb]|(V & Ev & T')].
    + split; [by apply (tally_same p)|]. rewrite Ev. intros k x Ex. by eapply Mono, S.
    + split; [by apply T'|]. rewrite Ev. intros k x. rewrite lookup_insert_Some. intros [[<- <-]|[_ Ex]]; [|by eapply Mono, S]. right. exists W, m. split; [left|done].
  - split; [by apply (own_tally W budget key h m p m')|]. rewrite Ev. intros k x. rewrite lookup_insert_Some. intros [[<- <-]|[_ Ex]]; [left; left|by eapply Mono, S].
  - split; [by apply clean_tally|]. intros k x. unfold CleanPaymentList. destruct (Tip _); [|apply S]. cbn. intros [Ex _]%map_lookup_filter_Some. by eapply S.
  - destruct (Empty (pay_Clear p)) as [T' S']; eauto.
Qed.

(** ** What a refused block says *)

Lemma max_signatures_le l : forall m, 0 <= m -> MNPAYMENTS_SIGNATURES_REQUIRED <= foldl (fun m p => if (m <=? nVotes p) && (MNPAYMENTS_SIGNATURES_REQUIRED <=? nVotes p) then nVotes p else m) m l ->
  MNPAYMENTS_SIGNATURES_REQUIRED <= m \/ exists p, p ∈ l /\ MNPAYMENTS_SIGNATURES_REQUIRED <= nVotes p.
Proof.
  induction l as [|p l IH]; intros m Hm Hr; cbn [foldl] in Hr; [by left|].
  destruct (Z.leb_spec MNPAYMENTS_SIGNATURES_REQUIRED (nVotes p)); [right; exists p; split; [left|done]|]. rewrite andb_false_r in Hr.
  destruct (IH m Hm Hr) as [|(q & I & ?)]; [by left|]. right. exists q. split; [by right|done].
Qed.

(** The voters for a payee are different masternodes. *)
Lemma voters_distinct p h s : tally p -> NoDup (map (fun e => prevout (vinMasternode e.2)) (map_to_list (ballots h s (mapMasternodePayeeVotes p)))).
Proof.
  intros [K _ _]. pose proof (NoDup_fst_map_to_list (ballots h s (mapMasternodePayeeVotes p))) as N.
  assert (F : forall e, e ∈ map_to_list (ballots h s (mapMasternodePayeeVotes p)) -> e.1 = winner_GetHash e.2 /\ win_nBlockHeight e.2 = h /\ win_payee e.2 = s).
  { intros [k w] I%elem_of_map_to_list. apply map_lookup_filter_Some in I as [E [Eh Es]]. cbn in *. split_and!; [|done|done]. symmetry. by apply K. }
  induction (map_to_list _) as [|e l IH]; [constructor|]. cbn [map fmap list_fmap] in *. inversion N as [|? ? Ne N']; subst. constructor; [|apply IH; [done|intros; apply F; by right]].
  intros (e' & E & I)%list_elem_of_fmap. apply Ne. apply list_elem_of_fmap. exists e'. split; [|done].
  destruct (F e ltac:(left)) as (-> & Eh & Es). destruct (F e' ltac:(by right)) as (-> & Eh' & Es'). unfold winner_GetHash. by rewrite E, Eh, Es, Eh', Es'.
Qed.

(** C22 Whatever votes have arrived, a block is refused for its payment to a masternode only
    if for some payee there are votes of at least six different masternodes (outpoints) for
    this block, each of which is the node's own or was checked when it arrived (its
    masternode was known, it was not ranked below the tenth, and it signed the vote), and
    no output of the transaction pays this payee what is required. *)
Theorem refused_payment_has_votes es p W m tx h : pay_history es p ->
  (pay_IsTransactionValid net ps W tx h m p).2 = false ->
  exists payee ws, MNPAYMENTS_SIGNATURES_REQUIRED <= Z.of_nat (length ws) /\ NoDup (map (fun w => prevout (vinMasternode w)) ws) /\
    (forall w, w ∈ ws -> win_nBlockHeight w = h /\ win_payee w = payee /\ mapMasternodePayeeVotes p !! winner_GetHash w = Some w /\ vote_sourced es w) /\
    forall out, out ∈ vout tx -> pays h (GetMasternodePayment ps h (GetBlockValue net ps h)) payee out = false.
Proof.
  intros Hist Hv. destruct (pay_history_ok es p Hist) as [T S]. unfold pay_IsTransactionValid in Hv.
  destruct (mapMasternodeBlocks p !! h) as [b|] eqn:Eb; [|done]. cbn [snd] in Hv. unfold bp_IsTransactionValid in Hv. destruct (ta_height p T h b Eb) as [Hh N]. rewrite Hh in Hv.
  destruct (Z.ltb_spec (max_signatures (vecPayments b)) MNPAYMENTS_SIGNATURES_REQUIRED) as [|Hm]; [done|].
  destruct (max_signatures_le (vecPayments b) 0 ltac:(lia) Hm) as [Hq|(q & Iq & Hq)]; [by vm_compute in Hq|].
  pose proof (ta_count p T h (payee_scriptPubKey q)) as C. rewrite Eb, (votes_for_elem q _ N Iq) in C. set (s := payee_scriptPubKey q) in *.
  exists s, (map snd (map_to_list (ballots h s (mapMasternodePayeeVotes p)))). split_and!.
  - rewrite length_map, length_map_to_list. pose proof (s32_le (Z.of_nat (size (ballots h s (mapMasternodePayeeVotes p)))) ltac:(lia)). lia.
  - rewrite map_map. by apply voters_distinct.
  - intros w ([k w'] & -> & I)%list_elem_of_fmap. apply elem_of_map_to_list, map_lookup_filter_Some in I as [E [Eh Es]]. cbn in *.
    pose proof (ta_key p T k w' E) as <-. split_and!; [done|done|done|by apply (S (winner_GetHash w'))].
  - intros out Io. destruct (pays _ _ s out) eqn:P; [|done]. exfalso. apply not_true_iff_false in Hv. apply Hv. apply existsb_exists. exists q.
    split; [by apply list_elem_of_In|]. rewrite (proj2 (Z.leb_le _ _) Hq). cbn [andb]. apply existsb_exists. exists out. split; [by apply list_elem_of_In|exact P].
Qed.

(** ** Votes without a signature *)

Lemma CanVote_again o h p : (CanVote o h (CanVote o h p).1).2 = false /\ mapMasternodePayeeVotes (CanVote o h p).1 = mapMasternodePayeeVotes p.
Proof.
  unfold CanVote. set (key := add _ _). destruct (mapMasternodesLastVote p !! key) as [x|] eqn:E.
  - destruct (Z.eqb_spec x h) as [->|]; cbn [fst].
    + rewrite E, Z.eqb_refl. by split.
    + cbn [set_last_vote mapMasternodesLastVote]. by rewrite lookup_insert_eq, Z.eqb_refl.
  - cbn [set_last_vote mapMasternodesLastVote fst]. by rewrite lookup_insert_eq, Z.eqb_refl.
Qed.

(** That a masternode has voted for a height is recorded before its signature is
    checked.  After anyone has sent a vote in the name of a masternode, unsigned, the
    masternode's own vote for this height is not counted on this node, for whatever payee
    and whatever the node knows then. *)
Theorem unsigned_vote_counts W version synced (forged genuine : CMasternodePaymentWinner) m p :
  active_protocol W <= version -> is_Some (Tip (w_chain W)) -> mapMasternodePayeeVotes p !! winner_GetHash forged = None ->
  let r := CountEnabled W (-1) m in
  first_block (Height (w_chain W)) r.2 <= win_nBlockHeight forged <= Height (w_chain W) + 20 ->
  let v := winner_IsValid W forged r.1 in v.2 = true -> winner_SignatureValid lib rec script_text forged v.1 = false ->
  prevout (vinMasternode genuine) = prevout (vinMasternode forged) -> win_nBlockHeight genuine = win_nBlockHeight forged ->
  let p' := (process_mnw lib rec script_text W version synced forged m p).1.2 in
  mapMasternodePayeeVotes p' = mapMasternodePayeeVotes p /\
  forall W' version' synced' m', mapMasternodePayeeVotes (process_mnw lib rec script_text W' version' synced' genuine m' p').1.2 = mapMasternodePayeeVotes p.
Proof.
  intros Hp [tip Et] Hn r Hh v Hv Hs Eo Eh. destruct (CanVote_again (prevout (vinMasternode forged)) (win_nBlockHeight forged) p) as [A Ev].
  set (p1 := (CanVote (prevout (vinMasternode forged)) (win_nBlockHeight forged) p).1) in *.
  assert (R : (process_mnw lib rec script_text W version synced forged m p).1.2 = p1).
  { unfold process_mnw. rewrite (proj2 (Z.ltb_ge _ _) Hp), Et, Hn. fold r. destruct r as [m1 count] eqn:Er. cbn [fst snd] in *.
    rewrite (proj2 (Z.ltb_ge _ _)), (proj2 (Z.ltb_ge _ _)) by lia. cbn [orb]. fold v. destruct v as [m2 ok]. cbn [fst snd] in *. subst ok. cbn [negb].
    unfold p1. destruct (CanVote _ _ p) as [p2 [|]]; cbn [negb fst snd]; [|done]. by rewrite Hs. }
  cbv zeta. rewrite R. split; [done|]. intros W' version' synced' m'. rewrite <- Ev. unfold process_mnw.
  destruct (version' <? _); [done|]. destruct (Tip (w_chain W')); [|done]. destruct (mapMasternodePayeeVotes p1 !! _); [unfold AddedMasternodeWinner; cbn [fst snd]; by repeat case_match|].
  destruct (CountEnabled W' (-1) m') as [m1 count]. destruct (_ || _); [done|]. destruct (winner_IsValid W' genuine m1) as [m2 [|]]; cbn [negb]; [|done].
  rewrite Eo, Eh. assert (Es : CanVote (prevout (vinMasternode forged)) (win_nBlockHeight forged) p1 = (p1, false)); [|by rewrite Es].
  unfold CanVote in A |- *. repeat case_match; done.
Qed.

(** A masternode that is not ranked, because it is too young or not enabled, passes the
    test of its rank. *)
Lemma unranked_is_valid W w m m' : (match i ← find_vin (vinMasternode w) m; vMasternodes m !! i with Some mn => active_protocol W <= protocolVersion mn | None => False end) ->
  GetMasternodeRank W (vinMasternode w) (win_nBlockHeight w - 100) (active_protocol W) true m = (m', -1) -> winner_IsValid W w m = (m', true).
Proof.
  intros Hf Hr. unfold winner_IsValid. destruct (i ← _; _) as [mn|]; [|done]. rewrite (proj2 (Z.ltb_ge _ _) Hf), Hr. done.
Qed.

(** ** The payment of a block of one's own *)

Lemma best_payee_max l : forall payee v,
  (forall q, q ∈ l -> nVotes q <= v) /\ best_payee l payee v = payee \/
  exists p, p ∈ l /\ best_payee l payee v = Some (payee_scriptPubKey p) /\ v < nVotes p /\ forall q, q ∈ l -> nVotes q <= nVotes p.
Proof.
  induction l as [|p l IH]; intros payee v; cbn [best_payee]; [left; split; [intros q []%elem_of_nil|done]|].
  destruct (Z.ltb_spec v (nVotes p)) as [Hv|Hv].
  - right. destruct (IH (Some (payee_scriptPubKey p)) (nVotes p)) as [[M E]|(q & I & E & Hq & M)].
    + exists p. split_and!; [left|done|done|]. intros q [->|I]%elem_of_cons; [lia|by apply M].
    + exists q. split_and!; [by right|done|lia|]. intros x [->|Ix]%elem_of_cons; [lia|by apply M].
  - destruct (IH payee v) as [[M E]|(q & I & E & Hq & M)].
    + left. split; [|done]. intros q [->|I]%elem_of_cons; [lia|by apply M].
    + right. exists q. split_and!; [by right|done|done|]. intros x [->|Ix]%elem_of_cons; [lia|by apply M].
Qed.

(** A transaction that pays the payee with the most votes is accepted. *)
Lemma best_paid_valid b tx s v : GetPayee b = Some s -> {| nValue := v; scriptPubKey := s |} ∈ vout tx ->
  pays (bp_nBlockHeight b) (GetMasternodePayment ps (bp_nBlockHeight b) (GetBlockValue net ps (bp_nBlockHeight b))) s {| nValue := v; scriptPubKey := s |} = true ->
  bp_IsTransactionValid net ps b tx = true.
Proof.
  intros G I P. unfold bp_IsTransactionValid. destruct (Z.ltb_spec (max_signatures (vecPayments b)) MNPAYMENTS_SIGNATURES_REQUIRED) as [|Hm]; [done|].
  destruct (max_signatures_le (vecPayments b) 0 ltac:(lia) Hm) as [Hq|(q & Iq & Hq)]; [by vm_compute in Hq|].
  unfold GetPayee in G. destruct (best_payee_max (vecPayments b) None (-1)) as [[_ E]|(p & Ip & E & _ & M)]; [congruence|]. rewrite E in G. injection G as <-.
  apply existsb_exists. exists p. split; [by apply list_elem_of_In|]. specialize (M q Iq). rewrite (proj2 (Z.leb_le _ _)) by lia. cbn [andb].
  apply existsb_exists. eexists. split; [apply list_elem_of_In; exact I|exact P].
Qed.

Lemma own_payment W fProofOfStake outs outs' m m' p tx payee b :
  is_Some (Tip (w_chain W)) -> let h := Height (w_chain W) in let required k := GetMasternodePayment ps k (GetBlockValue net ps k) in
  mapMasternodeBlocks p !! (h + 1) = Some b -> bp_nBlockHeight b = h + 1 -> GetPayee b = Some payee ->
  mn_FillBlockPayee net ps W fProofOfStake outs m p = Some (m', outs') -> vout tx = outs' ->
  (if h + 1 <=? 225000 then required h <= required (h + 1) else required (h + 1) <= required h) ->
  (pay_IsTransactionValid net ps W tx (h + 1) m' p).2 = true.
Proof.
  intros [tip Et] h required Eb Hb G F Ev R. unfold pay_IsTransactionValid. rewrite Eb. cbn [snd].
  apply (best_paid_valid b tx payee (required h)); [done| |].
  - unfold mn_FillBlockPayee in F. rewrite Et in F. unfold GetBlockPayee in F. fold h in F. rewrite Eb in F. cbn [mbind option_bind] in F. rewrite G in F. rewrite Ev.
    destruct fProofOfStake.
    + destruct (last outs) as [i|]; [|done]. cbn [mbind option_bind] in F. injection F as <- <-. apply elem_of_app. right. right. left.
    + injection F as <- <-. right. left.
  - unfold pays. cbn [scriptPubKey nValue]. rewrite bool_decide_true by done. rewrite Hb. fold (required (h + 1)). rewrite Z.ltb_antisym.
    destruct (h + 1 <=? 225000); cbn [andb orb negb]; [rewrite orb_false_r|]; by apply Z.leb_le.
Qed.
End Tally.

(** ** The payments of successive heights *)

Lemma payment_tenths h : GetMasternodePayment mainParams h (GetBlockValue MAIN mainParams h) * 10 = (if h <? 200 then 0 else if h <=? 40000 then 8 else 9) * block_reward h.
Proof.
  unfold GetBlockValue. rewrite schedule_table. destruct (shares_exact _ (block_reward_value h)) as (B & E8 & E9).
  unfold GetMasternodePayment. change (LAST_POW_BLOCK mainParams) with 200. destruct (h <? 200); [done|]. destruct (Z.eqb_spec (block_reward h) 0); [lia|]. cbn [orb].
  destruct (h <=? 40000); lia.
Qed.

Lemma reward_steps j : (2 <= j)%nat -> nth j reward_tenths 50 <= nth (S j) reward_tenths 50 /\ (j < 22)%nat \/ nth (S j) reward_tenths 50 <= nth j reward_tenths 50 /\ (22 <= j)%nat.
Proof.
  intros Hj. destruct (decide (52 <= j)%nat); [right; rewrite !nth_overflow by (cbn; lia); lia|].
  do 52 (destruct j as [|j]; [first [lia|cbn; lia]|]). lia.
Qed.

Lemma reward_span h : 200 <= h -> block_reward h = nth (Z.to_nat (h / 10000)) reward_tenths 50 * 10000000.
Proof.
  intros Hh. unfold block_reward. rewrite (proj2 (Z.eqb_neq h 0)), (proj2 (Z.eqb_neq h 5)), (proj2 (Z.ltb_ge h 0)) by lia. done.
Qed.

(** The payment grows with the height until 225000 and falls after it, but for the first
    two steps of the schedule, where the reward falls. *)
Lemma payment_steps h : 0 <= h -> h <> 9999 -> h <> 19999 -> let required k := GetMasternodePayment mainParams k (GetBlockValue MAIN mainParams k) in
  if h + 1 <=? 225000 then required h <= required (h + 1) else required (h + 1) <= required h.
Proof.
  intros H0 N1 N2 required. pose proof (payment_tenths h) as E. pose proof (payment_tenths (h + 1)) as E'. fold (required h) in E. fold (required (h + 1)) in E'.
  destruct (shares_exact _ (block_reward_value (h + 1))) as (B & _ & _).
  destruct (Z.ltb_spec h 200) as [L|L].
  - rewrite (proj2 (Z.leb_le (h + 1) 225000)) by lia. repeat case_match; lia.
  - rewrite (proj2 (Z.ltb_ge (h + 1) 200)) in E' by lia. rewrite reward_span in E, E' by lia.
    assert (0 <= nth (Z.to_nat (h / 10000)) reward_tenths 50) by (destruct (shares_exact _ (block_reward_value h)) as (B' & _ & _); rewrite reward_span in B' by lia; lia).
    destruct (decide ((h + 1) mod 10000 = 0)) as [M|M].
    + assert (Q : (h + 1) / 10000 = h / 10000 + 1) by (Z.div_mod_to_equations; lia). assert (2 <= h / 10000) by (Z.div_mod_to_equations; lia).
      rewrite Q, Z2Nat.inj_add, Nat.add_1_r in E' by lia. destruct (reward_steps (Z.to_nat (h / 10000)) ltac:(lia)) as [[S L2]|[S L2]].
      * rewrite (proj2 (Z.leb_le (h + 1) 225000)) by (Z.div_mod_to_equations; lia). destruct (Z.leb_spec h 40000), (Z.leb_spec (h + 1) 40000); lia.
      * assert (225000 < h) by (Z.div_mod_to_equations; lia). rewrite (proj2 (Z.leb_gt (h + 1) 225000)) by (Z.div_mod_to_equations; lia). rewrite (proj2 (Z.leb_gt h 40000)) in E by lia. rewrite (proj2 (Z.leb_gt (h + 1) 40000)) in E' by lia. lia.
    + assert (Q : (h + 1) / 10000 = h / 10000) by (Z.div_mod_to_equations; lia). rewrite Q in E'. destruct (Z.leb_spec (h + 1) 225000).
      * destruct (Z.leb_spec h 40000), (Z.leb_spec (h + 1) 40000); lia.
      * rewrite (proj2 (Z.leb_gt h 40000)) in E by lia. rewrite (proj2 (Z.leb_gt (h + 1) 40000)) in E' by lia. lia.
Qed.

(** On the main network, the outputs a node makes for the next block (of which it
    computes the payment at the height of the tip, not of the block) are accepted by the
    check of the payment to a masternode, for every tally of votes, unless the block is
    number 10000 or 20000, where the reward falls. *)
Theorem own_payment_accepted W fProofOfStake outs outs' m m' p tx payee b :
  is_Some (Tip (w_chain W)) -> let h := Height (w_chain W) in 0 <= h -> h <> 9999 -> h <> 19999 ->
  mapMasternodeBlocks p !! (h + 1) = Some b -> bp_nBlockHeight b = h + 1 -> GetPayee b = Some payee ->
  mn_FillBlockPayee MAIN mainParams W fProofOfStake outs m p = Some (m', outs') -> vout tx = outs' ->
  (pay_IsTransactionValid MAIN mainParams W tx (h + 1) m' p).2 = true.
Proof. intros T h H0 N1 N2 Eb Hb G F Ev. exact (own_payment MAIN mainParams W fProofOfStake outs outs' m m' p tx payee b T Eb Hb G F Ev (payment_steps h H0 N1 N2)). Qed.

(** * Witnesses *)

(** Six masternodes with one key, which have expired, and the vote of each for the block
    at [h]: with no rank among the enabled ones it counts. *)
Definition late_world : World := {|
  w_time := 1101100; w_adjusted := 1101100; w_store := w_store example_world; w_chain := w_chain example_world; w_index := ∅; w_sporks := no_sporks;
  w_main := true; w_shutdown := false; w_collateral := []; w_acceptable := w_acceptable example_world; w_input_age := w_input_age example_world;
  w_transaction := w_transaction example_world; w_active := w_active example_world; w_moves := true |}.
Definition voter (i : nat) : CTxIn := {| prevout := {| out_hash := u256 5; out_n := Z.of_nat i |}; scriptSig := []; nSequence := UINT32_MAX |}.
Definition six_masternodes : CMasternodeMan :=
  set_list (map (fun i => {| mn_vin := voter i; mn_addr := mn_addr (example_mnb []); pubKeyCollateralAddress := signer_key; pubKeyMasternode := signer_key;
    mn_sig := []; activeState := MASTERNODE_ENABLED; mn_sigTime := 1000000; lastPing := example_ping; cacheInputAge := 0; cacheInputAgeBlock := 0;
    unitTest := false; protocolVersion := 70924; lastTimeChecked := 0 |}) (seq 0 6)) no_masternodes.
Definition vote_of (h : Z) (i : nat) : CMasternodePaymentWinner := {| vinMasternode := voter i; win_nBlockHeight := h; win_payee := [81]; win_vchSig := signer_signature |}.
Definition vote_step (h : Z) (i : nat) (p : CMasternodePayments) : CMasternodePayments :=
  (@process_mnw merge_sort_down signer_keys signer_recovery no_text late_world 70924 true (vote_of h i) six_masternodes p).1.2.
Definition six_votes : CMasternodePayments := foldr (vote_step 6) no_payments (seq 0 6).
Definition no_outputs : CTransaction := {| tx_nVersion := 1; vin := []; vout := []; nLockTime := 0 |}.

Lemma six_votes_history vs : @pay_history merge_sort_down signer_keys signer_recovery no_text (map (fun i => voted late_world six_masternodes (vote_of 6 i)) vs) (foldr (vote_step 6) no_payments vs).
Proof. induction vs as [|i vs IH]; cbn [map foldr]; [apply pay_start|]. by apply pay_mnw. Qed.

Lemma refused_payment_has_votes_witness :
  exists payee ws, MNPAYMENTS_SIGNATURES_REQUIRED <= Z.of_nat (length ws) /\ NoDup (map (fun w => prevout (vinMasternode w)) ws) /\
    (forall w, w ∈ ws -> win_nBlockHeight w = 6 /\ win_payee w = payee /\ mapMasternodePayeeVotes six_votes !! winner_GetHash w = Some w /\
      @vote_sourced merge_sort_down signer_keys signer_recovery no_text (map (fun i => voted late_world six_masternodes (vote_of 6 i)) (seq 0 6)) w) /\
    forall out, out ∈ vout no_outputs -> pays 6 (GetMasternodePayment mainParams 6 (GetBlockValue MAIN mainParams 6)) payee out = false.
Proof.
  assert (V : (pay_IsTransactionValid MAIN mainParams example_world no_outputs 6 no_masternodes six_votes).2 = false) by (vm_compute; reflexivity).
  exact (@refused_payment_has_votes merge_sort_down signer_keys signer_recovery no_text MAIN mainParams _ six_votes example_world no_masternodes no_outputs 6 (six_votes_history (seq 0 6)) V).
Defined.

(** An unsigned vote in the name of the first masternode, for another payee. *)
Definition forged_vote : CMasternodePaymentWinner := {| vinMasternode := voter 0; win_nBlockHeight := 6; win_payee := [82]; win_vchSig := [] |}.

Lemma unsigned_vote_counts_witness :
  let p' := (@process_mnw merge_sort_down signer_keys signer_recovery no_text late_world 70924 true forged_vote six_masternodes no_payments).1.2 in
  mapMasternodePayeeVotes p' = ∅ /\
  forall W' version' synced' m', mapMasternodePayeeVotes (@process_mnw merge_sort_down signer_keys signer_recovery no_text W' version' synced' (vote_of 6 0) m' p').1.2 = ∅.
Proof.
  assert (Hp : active_protocol late_world <= 70924) by (vm_compute; discriminate).
  assert (Ht : is_Some (Tip (w_chain late_world))) by (vm_compute; eauto).
  assert (Hn : mapMasternodePayeeVotes no_payments !! winner_GetHash forged_vote = None) by (apply lookup_empty).
  assert (Hh : let r := CountEnabled late_world (-1) six_masternodes in first_block (Height (w_chain late_world)) r.2 <= win_nBlockHeight forged_vote <= Height (w_chain late_world) + 20) by (vm_compute; split; discriminate).
  assert (Hv : (@winner_IsValid merge_sort_down late_world forged_vote (CountEnabled late_world (-1) six_masternodes).1).2 = true) by (vm_compute; reflexivity).
  assert (Hs : winner_SignatureValid signer_keys signer_recovery no_text forged_vote (@winner_IsValid merge_sort_down late_world forged_vote (CountEnabled late_world (-1) six_masternodes).1).1 = false) by (vm_compute; reflexivity).
  exact (@unsigned_vote_counts merge_sort_down signer_keys signer_recovery no_text late_world 70924 true forged_vote (vote_of 6 0) six_masternodes no_payments Hp Ht Hn Hh Hv Hs eq_refl eq_refl).
Defined.

(** A stake of 10, the last block of the example chain being number 5. *)
Definition own_outputs : list CTxOut := [null_txout; {| nValue := 10 * COIN; scriptPubKey := [83] |}].
Definition own_payees : CMasternodeBlockPayees := {| bp_nBlockHeight := 6; vecPayments := [{| payee_scriptPubKey := [81]; nVotes := 6 |}] |}.

Lemma own_payment_accepted_witness :
  (pay_IsTransactionValid MAIN mainParams example_world {| tx_nVersion := 1; vin := []; vout := own_outputs ++ [{| nValue := 0; scriptPubKey := [81] |}]; nLockTime := 0 |} 6 no_masternodes
    (set_votes ∅ {[6 := own_payees]} no_payments)).2 = true.
Proof.
  assert (F : mn_FillBlockPayee MAIN mainParams example_world true own_outputs no_masternodes (set_votes ∅ {[6 := own_payees]} no_payments) =
    Some (no_masternodes, own_outputs ++ [{| nValue := 0; scriptPubKey := [81] |}])) by (vm_compute; reflexivity).
  assert (T : is_Some (Tip (w_chain example_world))) by (vm_compute; eauto).
  assert (H0 : 0 <= Height (w_chain example_world)) by (vm_compute; discriminate).
  assert (N1 : Height (w_chain example_world) <> 9999) by (vm_compute; discriminate).
  assert (N2 : Height (w_chain example_world) <> 19999) by (vm_compute; discriminate).
  assert (Eb : mapMasternodeBlocks (set_votes ∅ {[6 := own_payees]} no_payments) !! (Height (w_chain example_world) + 1) = Some own_payees) by (vm_compute; reflexivity).
  exact (own_payment_accepted example_world true own_outputs _ no_masternodes no_masternodes _ {| tx_nVersion := 1; vin := []; vout := _; nLockTime := 0 |} [81] own_payees T H0 N1 N2 Eb eq_refl eq_refl F eq_refl).
Defined.

(** At height 10000 the payment made is that of 9999, twice what block 10000 may pay
    (until height 225000 the required payment is a maximum). *)
Example payment_at_boundary : GetMasternodePayment mainParams 9999 (GetBlockValue MAIN mainParams 9999) = 80000000 /\
  GetMasternodePayment mainParams 10000 (GetBlockValue MAIN mainParams 10000) = 40000000.
Proof. by vm_compute. Qed.
