(* ===== verification/Budget.v ===== *)
(** The budget of the masternodes (masternode-budget.h, masternode-budget.cpp, and the
    functions of masternode-payments.cpp that choose between a payment of the budget and one
    to a masternode).

    Masternodes vote on proposals; near the end of a cycle the accepted proposals become a
    finalized budget, masternodes vote on it, and each of the first blocks of the next
    cycle pays one of its payments.  The functions are on the state of this file and on the
    list of masternodes; the broadcasts of the code, which are the same data, are the same
    records.  [mapPayment_History] is a variable of the file, here a field. *)

From Stdlib Require Import Strings.String Floats.SpecFloat.
From stdpp Require Import gmap sorting.
From S2P Require Import Prelude Uint256 Arith256 Params Subsidy Chain Serialize Digest Hashes Script Pubkey Transaction Standard Connect Signer Sporks Masternodes Payments.

Local Open Scope Z_scope.
#[local] Abbreviation length := Datatypes.length.

Definition VOTE_ABSTAIN : Z := 0.
Definition VOTE_YES : Z := 1.
Definition VOTE_NO : Z := 2.
Definition PROPOSAL_FEE_TX : Z := 50 * COIN.
Definition BUDGET_VOTE_UPDATE_MIN : Z := 60 * 60.

Inductive TrxValidationStatus := InValid | Valid | DoublePayment | VoteThreshold.

#[export] Instance TrxValidationStatus_eq_dec : EqDecision TrxValidationStatus.
Proof. solve_decision. Defined.

(** * Votes, payments, budgets, proposals *)

Record CBudgetVote := { bv_fValid : bool; bv_fSynced : bool; bv_vin : CTxIn; bv_nProposalHash : uint256; nVote : Z; bv_nTime : Z; bv_vchSig : byte_list }.

Definition vote_GetHash (v : CBudgetVote) : uint256 :=
  Hash (enc c_txin (bv_vin v) ++ enc c_uint256 (bv_nProposalHash v) ++ enc (c_int 4) (nVote v) ++ enc (c_int 8) (bv_nTime v)).

Record CFinalizedBudgetVote := { fv_fValid : bool; fv_fSynced : bool; fv_vin : CTxIn; nBudgetHash : uint256; fv_nTime : Z; fv_vchSig : byte_list }.

Definition fvote_GetHash (v : CFinalizedBudgetVote) : uint256 :=
  Hash (enc c_txin (fv_vin v) ++ enc c_uint256 (nBudgetHash v) ++ enc (c_int 8) (fv_nTime v)).

Record CTxBudgetPayment := { nProposalHash : uint256; payment_payee : CScript; payment_nAmount : Z }.

Definition c_payment : codec CTxBudgetPayment :=
  c_iso (fun x => {| nProposalHash := x.2; payment_payee := x.1.1; payment_nAmount := x.1.2 |})
    (fun p => ((payment_payee p, payment_nAmount p), nProposalHash p)) (c_pair (c_pair c_bytes (c_int 8)) c_uint256).

Record CFinalizedBudget := {
  fAutoChecked : bool; fb_fValid : bool; strBudgetName : byte_list; fb_nBlockStart : Z; vecBudgetPayments : list CTxBudgetPayment;
  fb_mapVotes : gmap uint256 CFinalizedBudgetVote; fb_nFeeTXHash : uint256; fb_nTime : Z
}.

Definition fb_GetHash (b : CFinalizedBudget) : uint256 :=
  Hash (enc c_bytes (strBudgetName b) ++ enc (c_int 4) (fb_nBlockStart b) ++ enc (c_vector c_payment) (vecBudgetPayments b)).

Record CBudgetProposal := {
  nAlloted : Z; pr_fValid : bool; strProposalName : byte_list; strURL : byte_list; pr_nBlockStart : Z; nBlockEnd : Z; nAmount : Z;
  address : CScript; pr_nTime : Z; pr_nFeeTXHash : uint256; pr_mapVotes : gmap uint256 CBudgetVote
}.

Definition pr_GetHash (p : CBudgetProposal) : uint256 :=
  Hash (enc c_bytes (strProposalName p) ++ enc c_bytes (strURL p) ++ enc (c_int 4) (pr_nBlockStart p) ++ enc (c_int 4) (nBlockEnd p)
    ++ enc (c_int 8) (nAmount p) ++ enc c_bytes (address p)).

Definition fb_with (auto valid : bool) (votes : gmap uint256 CFinalizedBudgetVote) (time : Z) (b : CFinalizedBudget) : CFinalizedBudget := {|
  fAutoChecked := auto; fb_fValid := valid; strBudgetName := strBudgetName b; fb_nBlockStart := fb_nBlockStart b; vecBudgetPayments := vecBudgetPayments b;
  fb_mapVotes := votes; fb_nFeeTXHash := fb_nFeeTXHash b; fb_nTime := time |}.
Definition pr_with (allotted : Z) (valid : bool) (votes : gmap uint256 CBudgetVote) (time : Z) (p : CBudgetProposal) : CBudgetProposal := {|
  nAlloted := allotted; pr_fValid := valid; strProposalName := strProposalName p; strURL := strURL p; pr_nBlockStart := pr_nBlockStart p;
  nBlockEnd := nBlockEnd p; nAmount := nAmount p; address := address p; pr_nTime := time; pr_nFeeTXHash := pr_nFeeTXHash p; pr_mapVotes := votes |}.
Definition bv_with (valid synced : bool) (v : CBudgetVote) : CBudgetVote := {|
  bv_fValid := valid; bv_fSynced := synced; bv_vin := bv_vin v; bv_nProposalHash := bv_nProposalHash v; nVote := nVote v; bv_nTime := bv_nTime v; bv_vchSig := bv_vchSig v |}.
Definition fv_with (valid synced : bool) (v : CFinalizedBudgetVote) : CFinalizedBudgetVote := {|
  fv_fValid := valid; fv_fSynced := synced; fv_vin := fv_vin v; nBudgetHash := nBudgetHash v; fv_nTime := fv_nTime v; fv_vchSig := fv_vchSig v |}.

(** The copy constructors: a copy is valid and has not been checked; the copy constructor
    of a proposal does not set [nAlloted], which [GetBudget] sets before it is read. *)
Definition fb_copy (b : CFinalizedBudget) : CFinalizedBudget := fb_with false true (fb_mapVotes b) (fb_nTime b) b.
Definition pr_copy (p : CBudgetProposal) : CBudgetProposal := pr_with 0 true (pr_mapVotes p) (pr_nTime p) p.

Definition GetBlockEnd (b : CFinalizedBudget) : Z := fb_nBlockStart b + (Z.of_nat (length (vecBudgetPayments b)) - 1).
Definition GetVoteCount (b : CFinalizedBudget) : Z := Z.of_nat (size (fb_mapVotes b)).

Definition GetBudgetPaymentByBlock (b : CFinalizedBudget) (nBlockHeight : Z) : option CTxBudgetPayment :=
  let i := nBlockHeight - fb_nBlockStart b in
  if i <? 0 then None
  else if Z.of_nat (length (vecBudgetPayments b)) - 1 <? i then None
  else vecBudgetPayments b !! Z.to_nat i.

(** [GetPayeeAndAmount]. *)
Definition GetPayeeAndAmount (b : CFinalizedBudget) (nBlockHeight : Z) : option (CScript * Z) :=
  p ← GetBudgetPaymentByBlock b nBlockHeight; Some (payment_payee p, payment_nAmount p).

Definition GetTotalPayout (b : CFinalizedBudget) : Z := foldl (fun r p => s64 (r + payment_nAmount p)) 0 (vecBudgetPayments b).

Definition votes_of (n : Z) (p : CBudgetProposal) : Z := Z.of_nat (size (base.filter (fun e => nVote e.2 = n /\ bv_fValid e.2 = true) (pr_mapVotes p))).
Definition GetYeas := votes_of VOTE_YES.
Definition GetNays := votes_of VOTE_NO.
Definition GetAbstains := votes_of VOTE_ABSTAIN.

(** [COutPoint::GetHash], under which the vote of a masternode is kept. *)
Definition outpoint_GetHash (o : COutPoint) : uint256 := Hash (enc c_outpoint o).

(** When a vote is not taken: it is older than the one there or too soon after it, or too
    far in the future. *)
Definition vote_refused (now : Z) (old : option Z) (t : Z) : bool :=
  match old with Some o => (t <? o) || (s64 (t - o) <? BUDGET_VOTE_UPDATE_MIN) | None => false end || (now + 60 * 60 <? t).

Definition pr_AddOrUpdateVote (now : Z) (v : CBudgetVote) (p : CBudgetProposal) : option CBudgetProposal :=
  let hash := outpoint_GetHash (prevout (bv_vin v)) in
  if vote_refused now (bv_nTime <$> pr_mapVotes p !! hash) (bv_nTime v) then None
  else Some (pr_with (nAlloted p) (pr_fValid p) (<[hash := v]> (pr_mapVotes p)) (pr_nTime p) p).

Definition fb_AddOrUpdateVote (now : Z) (v : CFinalizedBudgetVote) (b : CFinalizedBudget) : option CFinalizedBudget :=
  let hash := outpoint_GetHash (prevout (fv_vin v)) in
  if vote_refused now (fv_nTime <$> fb_mapVotes b !! hash) (fv_nTime v) then None
  else Some (fb_with (fAutoChecked b) (fb_fValid b) (<[hash := v]> (fb_mapVotes b)) (fb_nTime b) b).

(** * The manager *)

Record CBudgetManager := {
  mapProposals : gmap uint256 CBudgetProposal;
  mapFinalizedBudgets : gmap uint256 CFinalizedBudget;
  mapSeenMasternodeBudgetProposals : gmap uint256 CBudgetProposal;
  mapSeenMasternodeBudgetVotes : gmap uint256 CBudgetVote;
  mapOrphanMasternodeBudgetVotes : gmap uint256 CBudgetVote;
  mapSeenFinalizedBudgets : gmap uint256 CFinalizedBudget;
  mapSeenFinalizedBudgetVotes : gmap uint256 CFinalizedBudgetVote;
  mapOrphanFinalizedBudgetVotes : gmap uint256 CFinalizedBudgetVote;
  askedForSourceProposalOrBudget : gmap uint256 Z;
  vecImmatureBudgetProposals : list CBudgetProposal;
  vecImmatureFinalizedBudgets : list CFinalizedBudget;
  mapPayment_History : gmap uint256 Z;
  mapSeenSyncBudget : gmap uint256 Z;
  lastBudgetItem : Z
}.

Definition no_budgets : CBudgetManager := {|
  mapProposals := ∅; mapFinalizedBudgets := ∅; mapSeenMasternodeBudgetProposals := ∅; mapSeenMasternodeBudgetVotes := ∅; mapOrphanMasternodeBudgetVotes := ∅;
  mapSeenFinalizedBudgets := ∅; mapSeenFinalizedBudgetVotes := ∅; mapOrphanFinalizedBudgetVotes := ∅; askedForSourceProposalOrBudget := ∅;
  vecImmatureBudgetProposals := []; vecImmatureFinalizedBudgets := []; mapPayment_History := ∅; mapSeenSyncBudget := ∅; lastBudgetItem := 0 |}.

Definition set_main (p : gmap uint256 CBudgetProposal) (f : gmap uint256 CFinalizedBudget) (b : CBudgetManager) : CBudgetManager := {|
  mapProposals := p; mapFinalizedBudgets := f; mapSeenMasternodeBudgetProposals := mapSeenMasternodeBudgetProposals b; mapSeenMasternodeBudgetVotes := mapSeenMasternodeBudgetVotes b;
  mapOrphanMasternodeBudgetVotes := mapOrphanMasternodeBudgetVotes b; mapSeenFinalizedBudgets := mapSeenFinalizedBudgets b; mapSeenFinalizedBudgetVotes := mapSeenFinalizedBudgetVotes b;
  mapOrphanFinalizedBudgetVotes := mapOrphanFinalizedBudgetVotes b; askedForSourceProposalOrBudget := askedForSourceProposalOrBudget b;
  vecImmatureBudgetProposals := vecImmatureBudgetProposals b; vecImmatureFinalizedBudgets := vecImmatureFinalizedBudgets b; mapPayment_History := mapPayment_History b;
  mapSeenSyncBudget := mapSeenSyncBudget b; lastBudgetItem := lastBudgetItem b |}.
Definition set_seen_budget (p : gmap uint256 CBudgetProposal) (v : gmap uint256 CBudgetVote) (f : gmap uint256 CFinalizedBudget) (fv : gmap uint256 CFinalizedBudgetVote) (b : CBudgetManager) : CBudgetManager := {|
  mapProposals := mapProposals b; mapFinalizedBudgets := mapFinalizedBudgets b; mapSeenMasternodeBudgetProposals := p; mapSeenMasternodeBudgetVotes := v;
  mapOrphanMasternodeBudgetVotes := mapOrphanMasternodeBudgetVotes b; mapSeenFinalizedBudgets := f; mapSeenFinalizedBudgetVotes := fv;
  mapOrphanFinalizedBudgetVotes := mapOrphanFinalizedBudgetVotes b; askedForSourceProposalOrBudget := askedForSourceProposalOrBudget b;
  vecImmatureBudgetProposals := vecImmatureBudgetProposals b; vecImmatureFinalizedBudgets := vecImmatureFinalizedBudgets b; mapPayment_History := mapPayment_History b;
  mapSeenSyncBudget := mapSeenSyncBudget b; lastBudgetItem := lastBudgetItem b |}.
Definition set_orphans (v : gmap uint256 CBudgetVote) (fv : gmap uint256 CFinalizedBudgetVote) (asked : gmap uint256 Z) (b : CBudgetManager) : CBudgetManager := {|
  mapProposals := mapProposals b; mapFinalizedBudgets := mapFinalizedBudgets b; mapSeenMasternodeBudgetProposals := mapSeenMasternodeBudgetProposals b;
  mapSeenMasternodeBudgetVotes := mapSeenMasternodeBudgetVotes b; mapOrphanMasternodeBudgetVotes := v; mapSeenFinalizedBudgets := mapSeenFinalizedBudgets b;
  mapSeenFinalizedBudgetVotes := mapSeenFinalizedBudgetVotes b; mapOrphanFinalizedBudgetVotes := fv; askedForSourceProposalOrBudget := asked;
  vecImmatureBudgetProposals := vecImmatureBudgetProposals b; vecImmatureFinalizedBudgets := vecImmatureFinalizedBudgets b; mapPayment_History := mapPayment_History b;
  mapSeenSyncBudget := mapSeenSyncBudget b; lastBudgetItem := lastBudgetItem b |}.
Definition set_immature (p : list CBudgetProposal) (f : list CFinalizedBudget) (b : CBudgetManager) : CBudgetManager := {|
  mapProposals := mapProposals b; mapFinalizedBudgets := mapFinalizedBudgets b; mapSeenMasternodeBudgetProposals := mapSeenMasternodeBudgetProposals b;
  mapSeenMasternodeBudgetVotes := mapSeenMasternodeBudgetVotes b; mapOrphanMasternodeBudgetVotes := mapOrphanMasternodeBudgetVotes b; mapSeenFinalizedBudgets := mapSeenFinalizedBudgets b;
  mapSeenFinalizedBudgetVotes := mapSeenFinalizedBudgetVotes b; mapOrphanFinalizedBudgetVotes := mapOrphanFinalizedBudgetVotes b;
  askedForSourceProposalOrBudget := askedForSourceProposalOrBudget b; vecImmatureBudgetProposals := p; vecImmatureFinalizedBudgets := f; mapPayment_History := mapPayment_History b;
  mapSeenSyncBudget := mapSeenSyncBudget b; lastBudgetItem := lastBudgetItem b |}.
Definition set_history (h : gmap uint256 Z) (b : CBudgetManager) : CBudgetManager := {|
  mapProposals := mapProposals b; mapFinalizedBudgets := mapFinalizedBudgets b; mapSeenMasternodeBudgetProposals := mapSeenMasternodeBudgetProposals b;
  mapSeenMasternodeBudgetVotes := mapSeenMasternodeBudgetVotes b; mapOrphanMasternodeBudgetVotes := mapOrphanMasternodeBudgetVotes b; mapSeenFinalizedBudgets := mapSeenFinalizedBudgets b;
  mapSeenFinalizedBudgetVotes := mapSeenFinalizedBudgetVotes b; mapOrphanFinalizedBudgetVotes := mapOrphanFinalizedBudgetVotes b;
  askedForSourceProposalOrBudget := askedForSourceProposalOrBudget b; vecImmatureBudgetProposals := vecImmatureBudgetProposals b; vecImmatureFinalizedBudgets := vecImmatureFinalizedBudgets b;
  mapPayment_History := h; mapSeenSyncBudget := mapSeenSyncBudget b; lastBudgetItem := lastBudgetItem b |}.
Definition set_sync_budget (m : gmap uint256 Z) (t : Z) (b : CBudgetManager) : CBudgetManager := {|
  mapProposals := mapProposals b; mapFinalizedBudgets := mapFinalizedBudgets b; mapSeenMasternodeBudgetProposals := mapSeenMasternodeBudgetProposals b;
  mapSeenMasternodeBudgetVotes := mapSeenMasternodeBudgetVotes b; mapOrphanMasternodeBudgetVotes := mapOrphanMasternodeBudgetVotes b; mapSeenFinalizedBudgets := mapSeenFinalizedBudgets b;
  mapSeenFinalizedBudgetVotes := mapSeenFinalizedBudgetVotes b; mapOrphanFinalizedBudgetVotes := mapOrphanFinalizedBudgetVotes b;
  askedForSourceProposalOrBudget := askedForSourceProposalOrBudget b; vecImmatureBudgetProposals := vecImmatureBudgetProposals b; vecImmatureFinalizedBudgets := vecImmatureFinalizedBudgets b;
  mapPayment_History := mapPayment_History b; mapSeenSyncBudget := m; lastBudgetItem := t |}.

Definition set_proposals (p : gmap uint256 CBudgetProposal) (b : CBudgetManager) : CBudgetManager := set_main p (mapFinalizedBudgets b) b.
Definition set_finalized (f : gmap uint256 CFinalizedBudget) (b : CBudgetManager) : CBudgetManager := set_main (mapProposals b) f b.

(** The entries of a map in the order of its keys. *)
Definition entries {A} (m : gmap uint256 A) : list (uint256 * A) := omap (fun k => x ← m !! k; Some (k, x)) (in_hash_order m).

(** The dates of the cycles. *)
Definition budget_cycle (net : Network) : Z := match net with MAIN => 43200 | _ => 144 end.
Definition Budget_Fee_Confirmations (net : Network) : Z := match net with MAIN | UNITTEST => 6 | _ => 3 end.
Definition next_cycle (net : Network) (nHeight : Z) : Z := nHeight - Z.rem nHeight (budget_cycle net) + budget_cycle net.

(** A decimal literal with two digits, times [COIN]. *)
Definition hundredths_coin (n : Z) : Z := int64_of_double (double_mul (SFdiv 53 1024 (double_of_Z n) (double_of_Z 100)) (double_of_Z COIN)).

Definition budget_subsidy (ps : CChainParams) (nHeight : Z) : Z :=
  if (LAST_POW_BLOCK ps <? nHeight) && (nHeight <=? 5000) then hundredths_coin 105
  else if (5000 <? nHeight) && (nHeight <=? 25000) then times_coin 315
  else if (25000 <? nHeight) && (nHeight <=? 100000) then hundredths_coin 2205
  else if (100000 <? nHeight) && (nHeight <=? 1050000) then times_coin 105
  else if (1050000 <? nHeight) && (nHeight <=? 2100000) then hundredths_coin 525
  else if (2100000 <? nHeight) && (nHeight <=? 3150000) then hundredths_coin 263
  else hundredths_coin 131.

Section Budget.
Context `{StdSort} (lib : secp256k1) (rec : secp256k1_recovery lib) (script_text : CScript -> byte_list) (net : Network) (ps : CChainParams).
(** [GetIXConfirmations]: what the locks of instant transactions count for. *)
Context (ix_confirmations : uint256 -> Z).
Context (W : World).

Definition enabled (m : CMasternodeMan) : CMasternodeMan * Z := CountEnabled W (active_protocol W) m.

(** * Signatures *)

Definition vote_text (v : CBudgetVote) : byte_list :=
  ToStringShort (prevout (bv_vin v)) ++ GetHex (bv_nProposalHash v) ++ decimal (nVote v) ++ decimal (bv_nTime v).
Definition fvote_text (v : CFinalizedBudgetVote) : byte_list := ToStringShort (prevout (fv_vin v)) ++ GetHex (nBudgetHash v) ++ decimal (fv_nTime v).

Definition signed_by (vin : CTxIn) (sig text : byte_list) (fSignatureCheck : bool) (m : CMasternodeMan) : bool :=
  match i ← find_vin vin m; vMasternodes m !! i with
  | None => false
  | Some pmn => if negb fSignatureCheck then true else VerifyMessage lib rec (pubKeyMasternode pmn) sig text
  end.

Definition vote_SignatureValid (fSignatureCheck : bool) (v : CBudgetVote) (m : CMasternodeMan) : bool := signed_by (bv_vin v) (bv_vchSig v) (vote_text v) fSignatureCheck m.
Definition fvote_SignatureValid (fSignatureCheck : bool) (v : CFinalizedBudgetVote) (m : CMasternodeMan) : bool := signed_by (fv_vin v) (fv_vchSig v) (fvote_text v) fSignatureCheck m.

(** [CleanAndRemove]: votes are marked, not removed. *)
Definition pr_CleanAndRemove (fSignatureCheck : bool) (m : CMasternodeMan) (p : CBudgetProposal) : CBudgetProposal :=
  pr_with (nAlloted p) (pr_fValid p) ((fun v => bv_with (vote_SignatureValid fSignatureCheck v m) (bv_fSynced v) v) <$> pr_mapVotes p) (pr_nTime p) p.
Definition fb_CleanAndRemove (fSignatureCheck : bool) (m : CMasternodeMan) (b : CFinalizedBudget) : CFinalizedBudget :=
  fb_with (fAutoChecked b) (fb_fValid b) ((fun v => fv_with (fvote_SignatureValid fSignatureCheck v m) (fv_fSynced v) v) <$> fb_mapVotes b) (fb_nTime b) b.

(** * Validity *)

Definition find_script (hash : uint256) : CScript := push_data [OP_RETURN] (to_bytes hash).

(** [IsBudgetCollateralValid], with [nTime] and [nConf] as they are after it. *)
Definition IsBudgetCollateralValid (nTxCollateralHash nExpectedHash : uint256) (nTime : Z) : bool * Z * Z :=
  match w_transaction W nTxCollateralHash with
  | None => (false, nTime, 0)
  | Some (tx, nBlockHash) =>
      if (length (vout tx) <? 1)%nat then (false, nTime, 0)
      else if negb (nLockTime tx =? 0) then (false, nTime, 0)
      else if negb (forallb (fun o => IsNormalPaymentScript (scriptPubKey o) || IsUnspendable (scriptPubKey o)) (vout tx)) then (false, nTime, 0)
      else if negb (existsb (fun o => bool_decide (scriptPubKey o = find_script nExpectedHash) && (PROPOSAL_FEE_TX <=? nValue o)) (vout tx)) then (false, nTime, 0)
      else
        let conf := ix_confirmations nTxCollateralHash in
        let '(conf, nTime) :=
          if eq nBlockHash (u256 0) then (conf, nTime)
          else match w_index W !! nBlockHash with
               | Some p =>
                   if Contains (w_store W) (w_chain W) p
                   then (conf + (Height (w_chain W) - height_of (w_store W) p + 1), Chain.nTime (deref (w_store W) p)) else (conf, nTime)
               | None => (conf, nTime)
               end in
        (Budget_Fee_Confirmations net <=? conf, nTime, conf)
  end.

Definition GetTotalBudget (nHeight : Z) : Z :=
  match Tip (w_chain W) with
  | None => 0
  | Some _ =>
      match net with
      | TESTNET => Z.quot (500 * COIN) 100 * 10 * 146
      | _ => if nHeight <=? LAST_POW_BLOCK ps then 0 else Z.quot (budget_subsidy ps nHeight) 100 * 10 * 1440 * 30
      end
  end.

Definition GetBlockStartCycle (p : CBudgetProposal) : Z := pr_nBlockStart p - Z.rem (pr_nBlockStart p) (budget_cycle net).
Definition GetTotalPaymentCount (p : CBudgetProposal) : Z := Z.quot (nBlockEnd p - GetBlockStartCycle p) (budget_cycle net).

Definition pr_IsValid (p : CBudgetProposal) (m : CMasternodeMan) : CMasternodeMan * CBudgetProposal * bool :=
  let '(m, n) := enabled m in
  if n / 10 <? GetNays p - GetYeas p then (m, p, false)
  else if pr_nBlockStart p <? 0 then (m, p, false)
  else if nBlockEnd p <? pr_nBlockStart p then (m, p, false)
  else if nAmount p <? 10 * COIN then (m, p, false)
  else if bool_decide (address p = []) then (m, p, false)
  else
    let '(ok, nTime, _) := IsBudgetCollateralValid (pr_nFeeTXHash p) (pr_GetHash p) (pr_nTime p) in
    let p := pr_with (nAlloted p) (pr_fValid p) (pr_mapVotes p) nTime p in
    if negb ok then (m, p, false)
    else if IsPayToScriptHash (address p) then (m, p, false)
    else if GetTotalBudget (pr_nBlockStart p) <? nAmount p then (m, p, false)
    else match Tip (w_chain W) with
         | None => (m, p, true)
         | Some _ => (m, p, negb (s32 (pr_nBlockStart p + budget_cycle net * GetTotalPaymentCount p) <? Height (w_chain W)))
         end.

Definition fb_IsValid (b : CFinalizedBudget) : CFinalizedBudget * bool :=
  if negb (Z.rem (fb_nBlockStart b) (budget_cycle net) =? 0) then (b, false)
  else if 100 <? GetBlockEnd b - fb_nBlockStart b then (b, false)
  else if 100 <? Z.of_nat (length (vecBudgetPayments b)) then (b, false)
  else if bool_decide (strBudgetName b = []) then (b, false)
  else if fb_nBlockStart b =? 0 then (b, false)
  else if eq (fb_nFeeTXHash b) (u256 0) then (b, false)
  else if GetTotalBudget (fb_nBlockStart b) <? GetTotalPayout b then (b, false)
  else
    let '(ok, nTime, _) := IsBudgetCollateralValid (fb_nFeeTXHash b) (fb_GetHash b) (fb_nTime b) in
    let b := fb_with (fAutoChecked b) (fb_fValid b) (fb_mapVotes b) nTime b in
    if negb ok then (b, false)
    else match Tip (w_chain W) with
         | None => (b, true)
         | Some _ => (b, negb (GetBlockEnd b <? next_cycle net (Height (w_chain W)) - 2 * budget_cycle net))
         end.

Definition IsEstablished (p : CBudgetProposal) : bool :=
  pr_nTime p <? w_time W - match net with MAIN => 60 * 60 * 24 | _ => 60 * 5 end.

(** * Payments of a finalized budget *)

(** Whether the proposal has been paid in this cycle; if not, it now has. *)
Definition IsPaidAlready (b : CFinalizedBudget) (hash : uint256) (nBlockHeight : Z) (history : gmap uint256 Z) : gmap uint256 Z * bool :=
  let history := base.filter (fun e => fb_nBlockStart b <= e.2 <= GetBlockEnd b) history in
  match history !! hash with
  | None => (<[hash := nBlockHeight]> history, false)
  | Some _ => (history, true)
  end.

Definition pays_exactly (payment : CTxBudgetPayment) (out : CTxOut) : bool :=
  bool_decide (payment_payee payment = scriptPubKey out) && (payment_nAmount payment =? nValue out).

Fixpoint payment_loop (b : CFinalizedBudget) (payment : CTxBudgetPayment) (nBlockHeight : Z) (outs : list CTxOut) (status : TrxValidationStatus) (history : gmap uint256 Z)
    : gmap uint256 Z * TrxValidationStatus :=
  match outs with
  | [] => (history, status)
  | out :: outs =>
      if pays_exactly payment out then
        let '(history, paid) := IsPaidAlready b (nProposalHash payment) nBlockHeight history in
        if paid : bool then (history, DoublePayment) else payment_loop b payment nBlockHeight outs Valid history
      else payment_loop b payment nBlockHeight outs status history
  end.

Definition fb_IsTransactionValid (b : CFinalizedBudget) (tx : CTransaction) (nBlockHeight : Z) (history : gmap uint256 Z) : gmap uint256 Z * TrxValidationStatus :=
  match GetBudgetPaymentByBlock b nBlockHeight with
  | None => (history, InValid)
  | Some payment => payment_loop b payment nBlockHeight (vout tx) InValid history
  end.

Definition covers (b : CFinalizedBudget) (h : Z) : bool := (fb_nBlockStart b <=? h) && (h <=? GetBlockEnd b).

Definition highest_count (start h : Z) (m : gmap uint256 CFinalizedBudget) : Z :=
  foldl (fun n e => if (n <? GetVoteCount e.2) && covers e.2 h then GetVoteCount e.2 else n) start (entries m).

Definition bud_IsBudgetPaymentBlock (nBlockHeight : Z) (m : CMasternodeMan) (b : CBudgetManager) : CMasternodeMan * bool :=
  let '(m, n) := enabled m in
  (m, n / 20 <? highest_count (-1) nBlockHeight (mapFinalizedBudgets b)).

(** Over the budgets with enough votes: the history, the status of the last that covers the
    height (the first that is valid ends the loop), and whether there was one. *)
Fixpoint valid_loop (l : list (uint256 * CFinalizedBudget)) (tx : CTransaction) (h nCountThreshold : Z) (status : TrxValidationStatus) (fThreshold : bool) (history : gmap uint256 Z)
    : gmap uint256 Z * TrxValidationStatus :=
  match l with
  | [] => (history, if fThreshold then status else VoteThreshold)
  | (_, b) :: l =>
      if nCountThreshold <? GetVoteCount b then
        if covers b h then
          let '(history, status) := fb_IsTransactionValid b tx h history in
          if bool_decide (status = Valid) then (history, Valid) else valid_loop l tx h nCountThreshold status true history
        else valid_loop l tx h nCountThreshold status true history
      else valid_loop l tx h nCountThreshold status fThreshold history
  end.

Definition bud_IsTransactionValid (tx : CTransaction) (nBlockHeight : Z) (m : CMasternodeMan) (b : CBudgetManager) : CMasternodeMan * CBudgetManager * TrxValidationStatus :=
  let '(m, n) := enabled m in
  let nHighestCount := highest_count 0 nBlockHeight (mapFinalizedBudgets b) in
  if nHighestCount <? n / 20 then (m, b, InValid)
  else
    let '(m, n) := enabled m in
    let '(history, status) := valid_loop (entries (mapFinalizedBudgets b)) tx nBlockHeight (nHighestCount - n / 10) InValid false (mapPayment_History b) in
    (m, set_history history b, status).

(** The payment with the most votes for the next block. *)
Fixpoint payee_loop (l : list (uint256 * CFinalizedBudget)) (h nHighestCount : Z) (best : option (CScript * Z)) : Z * option (CScript * Z) :=
  match l with
  | [] => (nHighestCount, best)
  | (_, b) :: l =>
      match (if (nHighestCount <? GetVoteCount b) && covers b h then GetPayeeAndAmount b h else None) with
      | Some p => payee_loop l h (GetVoteCount b) (Some p)
      | None => payee_loop l h nHighestCount best
      end
  end.

Definition bud_FillBlockPayee (fProofOfStake : bool) (outs : list CTxOut) (b : CBudgetManager) : list CTxOut :=
  match Tip (w_chain W) with
  | None => outs
  | Some _ =>
      let nHeight := Height (w_chain W) in
      let '(n, best) := payee_loop (entries (mapFinalizedBudgets b)) (nHeight + 1) 0 None in
      let '(payee, amount) := default ([], 0) best in
      let out := {| nValue := amount; scriptPubKey := payee |} in
      if fProofOfStake then (if 0 <? n then outs ++ [out] else outs)
      else
        let outs := match outs with [] => [] | o :: outs => with_value (GetBlockValue net ps nHeight) o :: outs end in
        if 0 <? n then [default null_txout (head outs); out] else outs
  end.

(** * Which payment a block makes *)

(** [IsBlockPayeeValid], [None] where the transaction that is read is not there.  A block
    of a node that is not synced passes. *)
Definition IsBlockPayeeValid (synced : bool) (vtx : list CTransaction) (nBlockHeight : Z) (m : CMasternodeMan) (p : CMasternodePayments) (b : CBudgetManager)
    : option (CMasternodeMan * CBudgetManager * bool) :=
  if negb synced then Some (m, b, true)
  else
    tx ← vtx !! (if LAST_POW_BLOCK ps <? nBlockHeight then 1%nat else 0%nat);
    let spork id := IsSporkActive (w_sporks W) (w_time W) id in
    let masternode m b :=
      let '(m, ok) := pay_IsTransactionValid net ps W tx nBlockHeight m p in
      (m, b, if ok : bool then true else negb (spork SPORK_8_MASTERNODE_PAYMENT_ENFORCEMENT)) in
    Some (
      if spork SPORK_13_ENABLE_SUPERBLOCKS then
        let '(m, budget_block) := bud_IsBudgetPaymentBlock nBlockHeight m b in
        if budget_block : bool then
          let '(m, b, status) := bud_IsTransactionValid tx nBlockHeight m b in
          match status with
          | Valid => (m, b, true)
          | InValid => if spork SPORK_9_MASTERNODE_BUDGET_ENFORCEMENT then (m, b, false) else masternode m b
          | _ => masternode m b
          end
        else masternode m b
      else masternode m b).

Definition FillBlockPayee (fProofOfStake : bool) (outs : list CTxOut) (m : CMasternodeMan) (p : CMasternodePayments) (b : CBudgetManager) : option (CMasternodeMan * list CTxOut) :=
  match Tip (w_chain W) with
  | None => Some (m, outs)
  | Some _ =>
      if IsSporkActive (w_sporks W) (w_time W) SPORK_13_ENABLE_SUPERBLOCKS then
        let '(m, budget_block) := bud_IsBudgetPaymentBlock (Height (w_chain W) + 1) m b in
        if budget_block : bool then Some (m, bud_FillBlockPayee fProofOfStake outs b) else mn_FillBlockPayee net ps W fProofOfStake outs m p
      else mn_FillBlockPayee net ps W fProofOfStake outs m p
  end.

(** * The budget of the next cycle *)

Definition by_votes (votes : Z) (fee : uint256) : Z := votes * 2 ^ 256 + val fee.

(** The proposals in the order of their votes, with the hash of the fee where these are
    equal. *)
Definition ranked_proposals (m : gmap uint256 CBudgetProposal) : list (uint256 * CBudgetProposal) :=
  sort_down (fun e => by_votes (GetYeas e.2 - GetNays e.2) (pr_nFeeTXHash e.2)) (entries m).

Definition in_period (nBlockStart : Z) (p : CBudgetProposal) : bool :=
  pr_fValid p && (pr_nBlockStart p <=? nBlockStart) && (nBlockStart + budget_cycle net - 1 <=? nBlockEnd p).

Definition set_allotted (k : uint256) (n : Z) (b : CBudgetManager) : CBudgetManager :=
  set_proposals (alter (fun p => pr_with n (pr_fValid p) (pr_mapVotes p) (pr_nTime p) p) k (mapProposals b)) b.

Fixpoint budget_loop (l : list (uint256 * CBudgetProposal)) (nBlockStart nTotalBudget nBudgetAllocated : Z) (m : CMasternodeMan) (b : CBudgetManager)
    : CMasternodeMan * CBudgetManager * list (uint256 * CBudgetProposal) :=
  match l with
  | [] => (m, b, [])
  | (k, p) :: l =>
      let '(m, supported) := if in_period nBlockStart p then (let '(m, n) := enabled m in (m, n / 10 <? GetYeas p - GetNays p)) else (m, false) in
      if supported && IsEstablished p then
        if s64 (nAmount p + nBudgetAllocated) <=? nTotalBudget then
          let '(m, b, r) := budget_loop l nBlockStart nTotalBudget (s64 (nBudgetAllocated + nAmount p)) m (set_allotted k (nAmount p) b) in
          (m, b, (k, p) :: r)
        else budget_loop l nBlockStart nTotalBudget nBudgetAllocated m (set_allotted k 0 b)
      else budget_loop l nBlockStart nTotalBudget nBudgetAllocated m b
  end.

(** [GetBudget]: the proposals that get money, in order. *)
Definition GetBudget (m : CMasternodeMan) (b : CBudgetManager) : CMasternodeMan * CBudgetManager * list (uint256 * CBudgetProposal) :=
  let b := set_proposals (pr_CleanAndRemove false m <$> mapProposals b) b in
  match Tip (w_chain W) with
  | None => (m, b, [])
  | Some _ =>
      let nBlockStart := next_cycle net (Height (w_chain W)) in
      budget_loop (ranked_proposals (mapProposals b)) nBlockStart (GetTotalBudget nBlockStart) 0 m b
  end.

(** [GetFinalizedBudgets]. *)
Definition GetFinalizedBudgets (b : CBudgetManager) : list (uint256 * CFinalizedBudget) :=
  sort_down (fun e => by_votes (GetVoteCount e.2) (fb_nFeeTXHash e.2)) (entries (mapFinalizedBudgets b)).

(** [FindProposal] by name: the one with the most votes for it. *)
Definition FindProposal (name : byte_list) (b : CBudgetManager) : option (uint256 * CBudgetProposal) :=
  foldl (fun best e =>
    if bool_decide (strProposalName e.2 = name) && (match best with Some x => GetYeas x.2 | None => -99999 end <? GetYeas e.2) then Some e else best)
    None (entries (mapProposals b)).

(** * Votes and budgets that arrive *)

(** [masternodeSync.AddedBudgetItem]. *)
Definition AddedBudgetItem (hash : uint256) (b : CBudgetManager) : CBudgetManager :=
  if bool_decide (is_Some (mapSeenMasternodeBudgetProposals b !! hash)) || bool_decide (is_Some (mapSeenMasternodeBudgetVotes b !! hash))
     || bool_decide (is_Some (mapSeenFinalizedBudgets b !! hash)) || bool_decide (is_Some (mapSeenFinalizedBudgetVotes b !! hash)) then
    let n := default 0 (mapSeenSyncBudget b !! hash) in
    if n <? MASTERNODE_SYNC_THRESHOLD then set_sync_budget (<[hash := n + 1]> (mapSeenSyncBudget b)) (w_time W) b
    else set_sync_budget (<[hash := n]> (mapSeenSyncBudget b)) (lastBudgetItem b) b
  else set_sync_budget (insert_new hash 1 (mapSeenSyncBudget b)) (w_time W) b.

(** The vote of a peer ([synced]: whether the synchronisation is complete) or, with [None],
    an orphan or a vote of one's own. *)
Definition UpdateProposal (v : CBudgetVote) (peer : option bool) (b : CBudgetManager) : CBudgetManager * bool :=
  let h := bv_nProposalHash v in
  match mapProposals b !! h with
  | None =>
      match peer with
      | Some true => (set_orphans (<[h := v]> (mapOrphanMasternodeBudgetVotes b)) (mapOrphanFinalizedBudgetVotes b) (insert_new h (w_time W) (askedForSourceProposalOrBudget b)) b, false)
      | _ => (b, false)
      end
  | Some p => match pr_AddOrUpdateVote (w_time W) v p with
              | Some p => (set_proposals (<[h := p]> (mapProposals b)) b, true)
              | None => (b, false)
              end
  end.

Definition UpdateFinalizedBudget (v : CFinalizedBudgetVote) (peer : option bool) (b : CBudgetManager) : CBudgetManager * bool :=
  let h := nBudgetHash v in
  match mapFinalizedBudgets b !! h with
  | None =>
      match peer with
      | Some true => (set_orphans (mapOrphanMasternodeBudgetVotes b) (<[h := v]> (mapOrphanFinalizedBudgetVotes b)) (insert_new h (w_time W) (askedForSourceProposalOrBudget b)) b, false)
      | _ => (b, false)
      end
  | Some f => match fb_AddOrUpdateVote (w_time W) v f with
              | Some f => (set_finalized (<[h := f]> (mapFinalizedBudgets b)) b, true)
              | None => (b, false)
              end
  end.

(** [CheckOrphanVotes]. *)
Definition try_orphan_vote (b : CBudgetManager) (e : uint256 * CBudgetVote) : CBudgetManager :=
  let '(b, ok) := UpdateProposal e.2 None b in
  if ok : bool then set_orphans (delete e.1 (mapOrphanMasternodeBudgetVotes b)) (mapOrphanFinalizedBudgetVotes b) (askedForSourceProposalOrBudget b) b else b.
Definition try_orphan_fvote (b : CBudgetManager) (e : uint256 * CFinalizedBudgetVote) : CBudgetManager :=
  let '(b, ok) := UpdateFinalizedBudget e.2 None b in
  if ok : bool then set_orphans (mapOrphanMasternodeBudgetVotes b) (delete e.1 (mapOrphanFinalizedBudgetVotes b)) (askedForSourceProposalOrBudget b) b else b.
Definition CheckOrphanVotes (b : CBudgetManager) : CBudgetManager :=
  let b := foldl try_orphan_vote b (entries (mapOrphanMasternodeBudgetVotes b)) in
  foldl try_orphan_fvote b (entries (mapOrphanFinalizedBudgetVotes b)).

Definition AddProposal (p : CBudgetProposal) (m : CMasternodeMan) (b : CBudgetManager) : CMasternodeMan * CBudgetManager * bool :=
  let '(m, p, ok) := pr_IsValid p m in
  if negb ok then (m, b, false)
  else match mapProposals b !! pr_GetHash p with
       | Some _ => (m, b, false)
       | None => (m, set_proposals (<[pr_GetHash p := pr_copy p]> (mapProposals b)) b, true)
       end.

Definition AddFinalizedBudget (f : CFinalizedBudget) (b : CBudgetManager) : CBudgetManager * bool :=
  let '(f, ok) := fb_IsValid f in
  if negb ok then (b, false)
  else match mapFinalizedBudgets b !! fb_GetHash f with
       | Some _ => (b, false)
       | None => (set_finalized (<[fb_GetHash f := fb_copy f]> (mapFinalizedBudgets b)) b, true)
       end.

(** The messages; what [Misbehaving] is called with is last (0: not called). *)
Definition process_mprop (p : CBudgetProposal) (m : CMasternodeMan) (b : CBudgetManager) : CMasternodeMan * CBudgetManager :=
  let h := pr_GetHash p in
  match mapSeenMasternodeBudgetProposals b !! h with
  | Some _ => (m, AddedBudgetItem h b)
  | None =>
      let '(ok, nTime, nConf) := IsBudgetCollateralValid (pr_nFeeTXHash p) h (pr_nTime p) in
      let p := pr_with (nAlloted p) (pr_fValid p) (pr_mapVotes p) nTime p in
      if negb ok then (m, if 1 <=? nConf then set_immature (vecImmatureBudgetProposals b ++ [pr_copy p]) (vecImmatureFinalizedBudgets b) b else b)
      else
        let b := set_seen_budget (<[h := pr_copy p]> (mapSeenMasternodeBudgetProposals b)) (mapSeenMasternodeBudgetVotes b) (mapSeenFinalizedBudgets b) (mapSeenFinalizedBudgetVotes b) b in
        let '(m, p, ok) := pr_IsValid p m in
        if negb ok then (m, b)
        else
          let '(m, b, _) := AddProposal (pr_copy p) m b in
          (m, CheckOrphanVotes (AddedBudgetItem h b))
  end.

Definition process_mvote (synced : bool) (v : CBudgetVote) (m : CMasternodeMan) (b : CBudgetManager) : CMasternodeMan * CBudgetManager * Z :=
  let v := bv_with true false v in
  let h := vote_GetHash v in
  match mapSeenMasternodeBudgetVotes b !! h with
  | Some _ => (m, AddedBudgetItem h b, 0)
  | None =>
      match find_vin (bv_vin v) m with
      | None => (AskForMN W (bv_vin v) m, b, 0)
      | Some _ =>
          let b := set_seen_budget (mapSeenMasternodeBudgetProposals b) (<[h := v]> (mapSeenMasternodeBudgetVotes b)) (mapSeenFinalizedBudgets b) (mapSeenFinalizedBudgetVotes b) b in
          if negb (vote_SignatureValid true v m) then (AskForMN W (bv_vin v) m, b, if synced then 20 else 0)
          else
            let '(b, ok) := UpdateProposal v (Some synced) b in
            (m, if ok : bool then AddedBudgetItem h b else b, 0)
      end
  end.

Definition process_fbs (f : CFinalizedBudget) (b : CBudgetManager) : CBudgetManager :=
  let h := fb_GetHash f in
  match mapSeenFinalizedBudgets b !! h with
  | Some _ => AddedBudgetItem h b
  | None =>
      let '(ok, nTime, nConf) := IsBudgetCollateralValid (fb_nFeeTXHash f) h (fb_nTime f) in
      let f := fb_with (fAutoChecked f) (fb_fValid f) (fb_mapVotes f) nTime f in
      if negb ok then (if 1 <=? nConf then set_immature (vecImmatureBudgetProposals b) (vecImmatureFinalizedBudgets b ++ [fb_copy f]) b else b)
      else
        let b := set_seen_budget (mapSeenMasternodeBudgetProposals b) (mapSeenMasternodeBudgetVotes b) (<[h := fb_copy f]> (mapSeenFinalizedBudgets b)) (mapSeenFinalizedBudgetVotes b) b in
        let '(f, ok) := fb_IsValid f in
        if negb ok then b
        else CheckOrphanVotes (AddedBudgetItem h (AddFinalizedBudget (fb_copy f) b).1)
  end.

Definition process_fbvote (synced : bool) (v : CFinalizedBudgetVote) (m : CMasternodeMan) (b : CBudgetManager) : CMasternodeMan * CBudgetManager * Z :=
  let v := fv_with true false v in
  let h := fvote_GetHash v in
  match mapSeenFinalizedBudgetVotes b !! h with
  | Some _ => (m, AddedBudgetItem h b, 0)
  | None =>
      match find_vin (fv_vin v) m with
      | None => (AskForMN W (fv_vin v) m, b, 0)
      | Some _ =>
          let b := set_seen_budget (mapSeenMasternodeBudgetProposals b) (mapSeenMasternodeBudgetVotes b) (mapSeenFinalizedBudgets b) (<[h := v]> (mapSeenFinalizedBudgetVotes b)) b in
          if negb (fvote_SignatureValid true v m) then (AskForMN W (fv_vin v) m, b, if synced then 20 else 0)
          else
            let '(b, ok) := UpdateFinalizedBudget v (Some synced) b in
            (m, if ok : bool then AddedBudgetItem h b else b, 0)
      end
  end.

(** * A masternode's own vote *)

(** [SubmitVote], for the budget under the key [k].  [key] is what [SetKey] makes of the
    masternode's key. *)
Definition SubmitVote (key : option ((uint256 -> option byte_list) * byte_list)) (f : CFinalizedBudget) (b : CBudgetManager) : CBudgetManager :=
  match key with
  | None => b
  | Some (SignCompact, pubkey) =>
      let v := {| fv_fValid := true; fv_fSynced := false; fv_vin := active_vin (w_active W); nBudgetHash := fb_GetHash f; fv_nTime := w_adjusted W; fv_vchSig := [] |} in
      match sign_and_verify lib rec SignCompact pubkey (fvote_text v) with
      | None => b
      | Some sig =>
          let v := {| fv_fValid := true; fv_fSynced := false; fv_vin := fv_vin v; nBudgetHash := nBudgetHash v; fv_nTime := fv_nTime v; fv_vchSig := sig |} in
          let '(b, ok) := UpdateFinalizedBudget v None b in
          if ok : bool then set_seen_budget (mapSeenMasternodeBudgetProposals b) (mapSeenMasternodeBudgetVotes b) (mapSeenFinalizedBudgets b) (insert_new (fvote_GetHash v) v (mapSeenFinalizedBudgetVotes b)) b
          else b
      end
  end.

(** Whether the payments are those of the proposals, in their order.  The payees are
    compared as texts. *)
Definition same_payment (payment : CTxBudgetPayment) (e : uint256 * CBudgetProposal) : bool :=
  eq (nProposalHash payment) (pr_GetHash e.2) && bool_decide (script_text (payment_payee payment) = script_text (address e.2)) && (payment_nAmount payment =? nAmount e.2).

Definition budget_matches (payments : list CTxBudgetPayment) (proposals : list (uint256 * CBudgetProposal)) : bool :=
  negb (length proposals =? 0)%nat && (length proposals =? length payments)%nat && forallb (fun x => same_payment x.1 x.2) (zip payments proposals).

(** [AutoCheck] of the budget under [k]: [lucky] is whether [rand() % 4] is 0, [auto] the
    mode of the budget. *)
Definition AutoCheck (auto lucky : bool) (key : option ((uint256 -> option byte_list) * byte_list)) (k : uint256) (m : CMasternodeMan) (b : CBudgetManager) : CMasternodeMan * CBudgetManager :=
  match Tip (w_chain W), mapFinalizedBudgets b !! k with
  | Some _, Some f =>
      if negb (fMasterNode (w_active W)) || fAutoChecked f then (m, b)
      else if negb lucky then (m, b)
      else
        let b := set_finalized (<[k := fb_with true (fb_fValid f) (fb_mapVotes f) (fb_nTime f) f]> (mapFinalizedBudgets b)) b in
        if negb auto then (m, b)
        else
          let '(m, b, proposals) := GetBudget m b in
          if budget_matches (vecBudgetPayments f) proposals then (m, SubmitVote key f b) else (m, b)
  | _, _ => (m, b)
  end.

(** * Cleaning *)

(** The finalized budgets that stay, as copies, under their hashes. *)
Fixpoint clean_finalized (ks : list uint256) (auto : bool) (lucky : uint256 -> bool) (key : option ((uint256 -> option byte_list) * byte_list)) (tmp : gmap uint256 CFinalizedBudget)
    (m : CMasternodeMan) (b : CBudgetManager) : CMasternodeMan * CBudgetManager * gmap uint256 CFinalizedBudget :=
  match ks with
  | [] => (m, b, tmp)
  | k :: ks =>
      match mapFinalizedBudgets b !! k with
      | None => clean_finalized ks auto lucky key tmp m b
      | Some f =>
          let '(f, ok) := fb_IsValid f in
          let f := fb_with (fAutoChecked f) ok (fb_mapVotes f) (fb_nTime f) f in
          let b := set_finalized (<[k := f]> (mapFinalizedBudgets b)) b in
          if ok : bool then
            let '(m, b) := AutoCheck auto (lucky k) key k m b in
            let f := default f (mapFinalizedBudgets b !! k) in
            clean_finalized ks auto lucky key (insert_new (fb_GetHash f) (fb_copy f) tmp) m b
          else clean_finalized ks auto lucky key tmp m b
      end
  end.

Fixpoint clean_proposals (l : list (uint256 * CBudgetProposal)) (tmp : gmap uint256 CBudgetProposal) (m : CMasternodeMan) : CMasternodeMan * gmap uint256 CBudgetProposal :=
  match l with
  | [] => (m, tmp)
  | (_, p) :: l =>
      let '(m, p, ok) := pr_IsValid p m in
      clean_proposals l (if ok : bool then insert_new (pr_GetHash p) (pr_copy p) tmp else tmp) m
  end.

Definition bud_CheckAndRemove (auto : bool) (lucky : uint256 -> bool) (key : option ((uint256 -> option byte_list) * byte_list)) (m : CMasternodeMan) (b : CBudgetManager)
    : CMasternodeMan * CBudgetManager :=
  let '(m, b, tmpF) := clean_finalized (in_hash_order (mapFinalizedBudgets b)) auto lucky key ∅ m b in
  let '(m, tmpP) := clean_proposals (entries (mapProposals b)) ∅ m in
  (m, set_main tmpP tmpF b).

Definition ClearSeen (b : CBudgetManager) : CBudgetManager := set_seen_budget ∅ ∅ ∅ ∅ b.

(** [Clear]. *)
Definition bud_Clear (b : CBudgetManager) : CBudgetManager := set_orphans ∅ ∅ (askedForSourceProposalOrBudget b) (ClearSeen (set_main ∅ ∅ b)).

(** [ResetSync] and [MarkSynced] on the votes of what is valid and has been seen. *)
Definition mark_votes (f : CBudgetVote -> CBudgetVote) (g : CFinalizedBudgetVote -> CFinalizedBudgetVote) (b : CBudgetManager) : CBudgetManager :=
  set_main
    (map_imap (fun k p => Some (if bool_decide (is_Some (mapSeenMasternodeBudgetProposals b !! k)) && pr_fValid p
      then pr_with (nAlloted p) (pr_fValid p) (f <$> pr_mapVotes p) (pr_nTime p) p else p)) (mapProposals b))
    (map_imap (fun k x => Some (if bool_decide (is_Some (mapSeenFinalizedBudgets b !! k)) && fb_fValid x
      then fb_with (fAutoChecked x) (fb_fValid x) (g <$> fb_mapVotes x) (fb_nTime x) x else x)) (mapFinalizedBudgets b)) b.
Definition ResetSync : CBudgetManager -> CBudgetManager := mark_votes (fun v => bv_with (bv_fValid v) false v) (fun v => fv_with (fv_fValid v) false v).
Definition MarkSynced : CBudgetManager -> CBudgetManager :=
  mark_votes (fun v => if bv_fValid v then bv_with true true v else v) (fun v => if fv_fValid v then fv_with true true v else v).

(** [Sync]: what is announced to a peer, proposals and finalized budgets. *)
Inductive budget_inv := MSG_BUDGET_PROPOSAL (h : uint256) | MSG_BUDGET_VOTE (h : uint256) | MSG_BUDGET_FINALIZED (h : uint256) | MSG_BUDGET_FINALIZED_VOTE (h : uint256).

Definition bud_Sync (nProp : uint256) (fPartial : bool) (b : CBudgetManager) : list budget_inv * list budget_inv :=
  let wanted k := eq nProp (u256 0) || eq k nProp in
  (entries (mapSeenMasternodeBudgetProposals b) ≫= (fun e =>
     match mapProposals b !! e.1 with
     | Some p => if pr_fValid p && wanted e.1 then
         MSG_BUDGET_PROPOSAL (pr_GetHash e.2) ::
         (entries (pr_mapVotes p) ≫= (fun v => if bv_fValid v.2 && (negb fPartial || negb (bv_fSynced v.2)) then [MSG_BUDGET_VOTE (vote_GetHash v.2)] else []))
       else []
     | None => []
     end),
   entries (mapSeenFinalizedBudgets b) ≫= (fun e =>
     match mapFinalizedBudgets b !! e.1 with
     | Some x => if fb_fValid x && wanted e.1 then
         MSG_BUDGET_FINALIZED (fb_GetHash e.2) ::
         (entries (fb_mapVotes x) ≫= (fun v => if fv_fValid v.2 && (negb fPartial || negb (fv_fSynced v.2)) then [MSG_BUDGET_FINALIZED_VOTE (fvote_GetHash v.2)] else []))
       else []
     | None => []
     end)).

(** The message mnvs: on the main network a peer gets the whole list once. *)
Definition process_mnvs (fulfilled : bool) (nProp : uint256) (b : CBudgetManager) : Z * (list budget_inv * list budget_inv) :=
  if w_main W && eq nProp (u256 0) && fulfilled then (20, ([], [])) else (0, bud_Sync nProp false b).

(** The broadcasts that wait for confirmations. *)
Fixpoint mature_proposals (l : list CBudgetProposal) (m : CMasternodeMan) (b : CBudgetManager) : CMasternodeMan * CBudgetManager * list CBudgetProposal :=
  match l with
  | [] => (m, b, [])
  | p :: l =>
      let '(ok, nTime, _) := IsBudgetCollateralValid (pr_nFeeTXHash p) (pr_GetHash p) (pr_nTime p) in
      let p := pr_with (nAlloted p) (pr_fValid p) (pr_mapVotes p) nTime p in
      if negb ok then let '(m, b, r) := mature_proposals l m b in (m, b, p :: r)
      else
        let '(m, p, ok) := pr_IsValid p m in
        if negb ok then mature_proposals l m b
        else let '(m, b, _) := AddProposal (pr_copy p) m b in mature_proposals l m b
  end.

Fixpoint mature_finalized (l : list CFinalizedBudget) (b : CBudgetManager) : CBudgetManager * list CFinalizedBudget :=
  match l with
  | [] => (b, [])
  | f :: l =>
      let '(ok, nTime, _) := IsBudgetCollateralValid (fb_nFeeTXHash f) (fb_GetHash f) (fb_nTime f) in
      let f := fb_with (fAutoChecked f) (fb_fValid f) (fb_mapVotes f) nTime f in
      if negb ok then let '(b, r) := mature_finalized l b in (b, f :: r)
      else
        let '(f, ok) := fb_IsValid f in
        if negb ok then mature_finalized l b
        else mature_finalized l (AddFinalizedBudget (fb_copy f) b).1
  end.

(** [NewBlock], of a node that does not suggest budgets.  [late] is whether the
    synchronisation is past the budget, [clear] whether the random height for forgetting
    what was seen has come. *)
Definition NewBlock (late synced clear auto : bool) (lucky : uint256 -> bool) (key : option ((uint256 -> option byte_list) * byte_list)) (m : CMasternodeMan) (b : CBudgetManager)
    : CMasternodeMan * CBudgetManager :=
  if negb late then (m, b)
  else if negb (Z.rem (Height (w_chain W)) 14 =? 0) then (m, b)
  else
    let b := if synced then MarkSynced (if clear then ResetSync (ClearSeen b) else b) else b in
    let '(m, b) := bud_CheckAndRemove auto lucky key m b in
    let b := set_orphans (mapOrphanMasternodeBudgetVotes b) (mapOrphanFinalizedBudgetVotes b)
      (base.filter (fun e => w_time W - 60 * 60 * 24 < e.2) (askedForSourceProposalOrBudget b)) b in
    let b := set_main (pr_CleanAndRemove false m <$> mapProposals b) (fb_CleanAndRemove false m <$> mapFinalizedBudgets b) b in
    let immature := vecImmatureBudgetProposals b in
    let '(m, b, rest) := mature_proposals immature m b in
    let b := set_immature rest (vecImmatureFinalizedBudgets b) b in
    let '(b, rest) := mature_finalized (vecImmatureFinalizedBudgets b) b in
    (m, set_immature (vecImmatureBudgetProposals b) rest b).
End Budget.

#[global] Arguments vote_GetHash : simpl never.
#[global] Arguments fvote_GetHash : simpl never.
#[global] Arguments pr_GetHash : simpl never.
#[global] Arguments fb_GetHash : simpl never.
#[global] Arguments outpoint_GetHash : simpl never.

(** * Lists of entries *)

Lemma entries_elem {A} (m : gmap uint256 A) k x : (k, x) ∈ entries m <-> m !! k = Some x.
Proof.
  unfold entries. rewrite list_elem_of_omap. split.
  - intros (k' & I & E). destruct (m !! k') as [y|] eqn:Ey; [|done]. cbn in E. by injection E as <- <-.
  - intros E. exists k. split; [|by rewrite E]. unfold in_hash_order. rewrite merge_sort_Permutation. apply list_elem_of_fmap. exists (k, x). split; [done|]. by apply elem_of_map_to_list.
Qed.

Lemma covers_payment f h : covers f h = true -> is_Some (GetBudgetPaymentByBlock f h).
Proof.
  unfold covers, GetBudgetPaymentByBlock, GetBlockEnd. rewrite andb_true_iff, !Z.leb_le. intros [A B].
  rewrite (proj2 (Z.ltb_ge _ _)), (proj2 (Z.ltb_ge _ _)) by lia. apply lookup_lt_is_Some. lia.
Qed.

Lemma payment_covers f h p : GetBudgetPaymentByBlock f h = Some p -> covers f h = true.
Proof.
  unfold covers, GetBudgetPaymentByBlock, GetBlockEnd. destruct (Z.ltb_spec (h - fb_nBlockStart f) 0); [done|]. case_match eqn:E; [done|]. apply Z.ltb_ge in E. intros _.
  rewrite andb_true_iff, !Z.leb_le. lia.
Qed.

(** The highest number of votes is at least that of every budget that covers the height,
    and is that of one of them, or where the search starts. *)
Lemma highest_count_spec h (l : list (uint256 * CFinalizedBudget)) : forall start,
  let n := foldl (fun n e => if (n <? GetVoteCount e.2) && covers e.2 h then GetVoteCount e.2 else n) start l in
  start <= n /\ (forall e, e ∈ l -> covers e.2 h = true -> GetVoteCount e.2 <= n) /\ (n = start \/ exists e, e ∈ l /\ covers e.2 h = true /\ GetVoteCount e.2 = n).
Proof.
  induction l as [|e l IH]; intros start n; cbn [foldl] in n; [split_and!; [lia|intros e []%elem_of_nil|by left]|].
  destruct (IH (if (start <? GetVoteCount e.2) && covers e.2 h then GetVoteCount e.2 else start)) as (A & B & C). fold n in A, B, C.
  destruct (covers e.2 h) eqn:Ce; rewrite ?andb_true_r, ?andb_false_r in *.
  - destruct (Z.ltb_spec start (GetVoteCount e.2)).
    + split_and!; [lia|intros x [->|I]%elem_of_cons Cx; [done|by apply B]|]. destruct C as [C|(x & I & Cx & Ex)]; right; [exists e; split_and!; [left|done|lia]|exists x; split_and!; [by right|done|done]].
    + split_and!; [lia|intros x [->|I]%elem_of_cons Cx; [lia|by apply B]|]. destruct C as [C|(x & I & Cx & Ex)]; [by left|right; exists x; split_and!; [by right|done|done]].
  - split_and!; [done|intros x [->|I]%elem_of_cons Cx; [congruence|by apply B]|]. destruct C as [C|(x & I & Cx & Ex)]; [by left|right; exists x; split_and!; [by right|done|done]].
Qed.

(** * Checks do not change twice *)

Section Checks.
Context `{StdSort} (net : Network) (ps : CChainParams) (W : World).

Lemma mn_Check_again mn : mn_Check W false (mn_Check W false mn) = mn_Check W false mn.
Proof.
  assert (T : forall x, w_shutdown W = false -> lastTimeChecked x = w_time W -> mn_Check W false x = x).
  { intros x S E. unfold mn_Check. rewrite S, E. cbn [negb andb]. by rewrite (proj2 (Z.ltb_lt _ _)) by (unfold MASTERNODE_CHECK_SECONDS; lia). }
  destruct (w_shutdown W) eqn:S; [unfold mn_Check; by rewrite S|]. unfold mn_Check at 2 3. rewrite S. destruct (negb false && _) eqn:E.
  - unfold mn_Check. by rewrite S, E.
  - repeat case_match; by apply T.
Qed.

Lemma enabled_again m : enabled W (enabled W m).1 = enabled W m.
Proof.
  unfold enabled, CountEnabled. cbn [fst]. assert (E : man_Check W (man_Check W m) = man_Check W m).
  { unfold man_Check, set_list. cbn. f_equal. rewrite map_map. apply map_ext. apply mn_Check_again. }
  by rewrite E.
Qed.

(** * The check of a payment *)

Lemma payment_loop_none f payment h status history outs : (forall out, out ∈ outs -> pays_exactly payment out = false) -> payment_loop f payment h outs status history = (history, status).
Proof.
  induction outs as [|out outs IH]; intros Hn; cbn [payment_loop]; [done|]. rewrite (Hn out) by left. apply IH. intros x I. apply Hn. by right.
Qed.

(** A budget whose payment the transaction makes as its last output only. *)
Lemma payment_last f tx h payment history outs out : GetBudgetPaymentByBlock f h = Some payment -> vout tx = outs ++ [out] ->
  (forall x, x ∈ outs -> pays_exactly payment x = false) -> history !! nProposalHash payment = None ->
  if pays_exactly payment out then (fb_IsTransactionValid f tx h history).2 = Valid else fb_IsTransactionValid f tx h history = (history, InValid).
Proof.
  intros Ep Ev Hn Hh. unfold fb_IsTransactionValid. rewrite Ep, Ev. clear Ev. induction outs as [|x outs IH]; cbn [app payment_loop].
  - destruct (pays_exactly payment out); [|done]. unfold IsPaidAlready. assert (E : base.filter (fun e : uint256 * Z => fb_nBlockStart f <= e.2 <= GetBlockEnd f) history !! nProposalHash payment = None) by (apply map_lookup_filter_None; by left).
    by rewrite E.
  - rewrite (Hn x) by left. apply IH. intros y I. apply Hn. by right.
Qed.

Lemma valid_loop_finds l tx h threshold outs out : vout tx = outs ++ [out] ->
  forall history status seen,
  (forall e payment, e ∈ l -> GetBudgetPaymentByBlock e.2 h = Some payment -> history !! nProposalHash payment = None /\ forall x, x ∈ outs -> pays_exactly payment x = false) ->
  (exists e payment, e ∈ l /\ threshold < GetVoteCount e.2 /\ GetBudgetPaymentByBlock e.2 h = Some payment /\ pays_exactly payment out = true) ->
  (valid_loop l tx h threshold status seen history).2 = Valid.
Proof.
  intros Ev. induction l as [|[k f] l IH]; intros history status seen Hl (e & payment & I & Ht & Ep & Hp); [by apply not_elem_of_nil in I|].
  cbn [valid_loop]. assert (Rest : forall status seen, (k, f) = e \/ (valid_loop l tx h threshold status seen history).2 = Valid).
  { intros s b. apply elem_of_cons in I as [->|I]; [by left|]. right. apply IH; [intros x q Ix; apply Hl; by right|]. exists e, payment. by split_and!. }
  destruct (Z.ltb_spec threshold (GetVoteCount f)) as [Hf|Hf].
  - destruct (covers f h) eqn:Cf.
    + destruct (covers_payment f h Cf) as [q Eq]. destruct (Hl (k, f) q ltac:(left) Eq) as [Hh Ho]. pose proof (payment_last f tx h q history outs out Eq Ev Ho Hh) as L.
      destruct (pays_exactly q out) eqn:Pq.
      * destruct (fb_IsTransactionValid f tx h history) as [history' s']. cbn [snd] in L. subst s'. by rewrite bool_decide_true.
      * rewrite L. rewrite bool_decide_false by done. destruct (Rest InValid true) as [<-|R]; [|exact R]. cbn [snd] in Ep. rewrite Eq in Ep. injection Ep as ->. congruence.
    + destruct (Rest status true) as [<-|R]; [|exact R]. cbn [snd] in Ep. apply payment_covers in Ep. congruence.
  - destruct (Rest status seen) as [<-|R]; [cbn [snd] in Ht; lia|exact R].
Qed.

(** The search for the payee finds that of a budget with the highest count. *)
Lemma payee_loop_spec h l : forall n best,
  let r := payee_loop l h n best in
  r.1 = foldl (fun n e => if (n <? GetVoteCount e.2) && covers e.2 h then GetVoteCount e.2 else n) n l /\
  (r = (n, best) \/ exists e payment, e ∈ l /\ GetVoteCount e.2 = r.1 /\ GetBudgetPaymentByBlock e.2 h = Some payment /\ r.2 = Some (payment_payee payment, payment_nAmount payment)).
Proof.
  induction l as [|[k f] l IH]; intros n best r; cbn [payee_loop foldl snd] in r |- *; [split; [done|by left]|]. unfold r. clear r.
  destruct ((n <? GetVoteCount f) && covers f h) eqn:E.
  - apply andb_true_iff in E as [_ Cf]. destruct (covers_payment f h Cf) as [q Eq]. unfold GetPayeeAndAmount. rewrite Eq. cbn [mbind option_bind].
    destruct (IH (GetVoteCount f) (Some (payment_payee q, payment_nAmount q))) as [A B]. split; [exact A|]. right. destruct B as [->|(e & p & I & R)].
    + exists (k, f), q. split_and!; [left|done|done|done].
    + exists e, p. split; [by right|exact R].
  - destruct (IH n best) as [A [B|(e & p & I & R)]]; (split; [exact A|]); [by left|]. right. exists e, p. split; [by right|exact R].
Qed.

(** The payment of the budget that a staking node adds to its block (that of the budget
    with the most votes) passes the node's own check of budget payments. *)
Lemma own_budget_payment outs tx m b :
  let h := Height (w_chain W) + 1 in
  is_Some (Tip (w_chain W)) -> 10 <= (enabled W m).2 -> (bud_IsBudgetPaymentBlock W h m b).2 = true ->
  (forall k f payment, mapFinalizedBudgets b !! k = Some f -> GetBudgetPaymentByBlock f h = Some payment ->
     mapPayment_History b !! nProposalHash payment = None /\ forall out, out ∈ outs -> pays_exactly payment out = false) ->
  vout tx = bud_FillBlockPayee net ps W true outs b -> (bud_IsTransactionValid W tx h m b).2 = Valid.
Proof.
  intros h [tip Et] Hn Hb Hf Ev. unfold bud_IsBudgetPaymentBlock in Hb. unfold bud_IsTransactionValid. destruct (enabled W m) as [m1 n] eqn:E1. cbn [snd] in *.
  pose proof (enabled_again m) as Ea. rewrite E1 in Ea. cbn [fst] in Ea. rewrite Ea. apply Z.ltb_lt in Hb.
  set (l := entries (mapFinalizedBudgets b)) in *. unfold highest_count in *. fold l in Hb |- *.
  destruct (highest_count_spec h l (-1)) as (A & B & C). set (top := foldl _ (-1) l) in *.
  assert (Pos : 0 <= n / 20) by (apply Z.div_pos; lia).
  destruct C as [C|(e & I & Ce & Ve)]; [lia|].
  destruct (highest_count_spec h l 0) as (A0 & B0 & C0). destruct (payee_loop_spec h l 0 None) as [P1 P2]. set (top0 := foldl _ 0 l) in *.
  assert (Et0 : top0 = top). { specialize (B0 e I Ce). destruct C0 as [C0|(x & Ix & Cx & Vx)]; [lia|]. specialize (B x Ix Cx). lia. }
  rewrite (proj2 (Z.ltb_ge _ _)) by lia. unfold bud_FillBlockPayee in Ev. rewrite Et in Ev. fold h in Ev. fold l in Ev.
  destruct (payee_loop l h 0 None) as [n0 best]. cbn [fst snd] in *. destruct P2 as [[= Hz]|(x & payment & Ix & Vx & Ep & ->)]; [lia|]. cbn [default] in Ev.
  rewrite (proj2 (Z.ltb_lt 0 n0)) in Ev by lia.
  assert (V : (valid_loop l tx h (top0 - n / 10) InValid false (mapPayment_History b)).2 = Valid).
  { apply (valid_loop_finds l tx h _ outs _ Ev).
    - intros [k f] q Iq Eq. apply entries_elem in Iq. by apply (Hf k f q).
    - exists x, payment. split_and!; [done| |done|].
      + assert (1 <= n / 10) by (apply Z.div_le_lower_bound; lia). lia.
      + unfold pays_exactly. cbn [scriptPubKey nValue]. by rewrite bool_decide_true, Z.eqb_refl. }
  destruct (valid_loop _ _ _ _ _ _ _) as [history status]. exact V.
Qed.

(** * A block that is checked twice *)

(** The transaction makes the payment once, and the history has it after. *)
Lemma payment_loop_valid f payment h outs : forall history history', fb_nBlockStart f <= h <= GetBlockEnd f ->
  payment_loop f payment h outs InValid history = (history', Valid) ->
  (exists out, out ∈ outs /\ pays_exactly payment out = true) /\ base.filter (fun e : uint256 * Z => fb_nBlockStart f <= e.2 <= GetBlockEnd f) history' = history' /\
  history' !! nProposalHash payment = Some h.
Proof.
  induction outs as [|out outs IH]; intros history history' Hc E; cbn [payment_loop] in E; [done|]. destruct (pays_exactly payment out) eqn:P.
  - unfold IsPaidAlready in E. set (kept := base.filter _ history) in E. destruct (kept !! nProposalHash payment); [done|].
    assert (Hl : forall outs', payment_loop f payment h outs' Valid (<[nProposalHash payment := h]> kept) = (history', Valid) -> history' = <[nProposalHash payment := h]> kept).
    { intros outs'. induction outs' as [|x outs' IH']; cbn [payment_loop]; [by intros [= <-]|]. destruct (pays_exactly payment x); [|exact IH'].
      unfold IsPaidAlready. rewrite map_filter_insert_True by done. by rewrite lookup_insert_eq. }
    apply Hl in E as ->. split_and!; [exists out; split; [left|done]| |by rewrite lookup_insert_eq].
    rewrite map_filter_insert_True by done. f_equal. unfold kept. rewrite map_filter_filter. apply map_filter_ext. intros k x _. tauto.
  - destruct (IH history history' Hc E) as [(x & I & Px) R]. split; [|exact R]. exists x. split; [by right|done].
Qed.

Lemma payment_loop_double f payment h outs : forall history status, base.filter (fun e : uint256 * Z => fb_nBlockStart f <= e.2 <= GetBlockEnd f) history = history ->
  is_Some (history !! nProposalHash payment) -> (exists out, out ∈ outs /\ pays_exactly payment out = true) -> payment_loop f payment h outs status history = (history, DoublePayment).
Proof.
  induction outs as [|out outs IH]; intros history status F [x Hx] (o & I & P); [by apply not_elem_of_nil in I|]. cbn [payment_loop].
  destruct (pays_exactly payment out) eqn:Po; [unfold IsPaidAlready; by rewrite F, Hx|]. apply IH; [done|by exists x|]. apply elem_of_cons in I as [->|I]; [congruence|]. by exists o.
Qed.

Lemma paid_then_double f tx h history history' : fb_IsTransactionValid f tx h history = (history', Valid) -> fb_IsTransactionValid f tx h history' = (history', DoublePayment).
Proof.
  unfold fb_IsTransactionValid. destruct (GetBudgetPaymentByBlock f h) as [payment|] eqn:Ep; [|done]. intros E. pose proof (payment_covers f h payment Ep) as C.
  unfold covers in C. rewrite andb_true_iff, !Z.leb_le in C. destruct (payment_loop_valid f payment h (vout tx) history history' C E) as (Ex & F & L). apply payment_loop_double; [done|by exists h|done].
Qed.

Lemma entries_singleton {A} k (x : A) : entries {[k := x]} = [(k, x)].
Proof. unfold entries, in_hash_order. rewrite map_to_list_singleton. cbn. by rewrite lookup_singleton_eq. Qed.

Lemma budget_valid_parts tx h m b m1 b1 : bud_IsTransactionValid W tx h m b = (m1, b1, Valid) ->
  m1 = (enabled W m).1 /\ exists history, b1 = set_history history b /\ (enabled W m).2 / 20 <= highest_count 0 h (mapFinalizedBudgets b) /\
    valid_loop (entries (mapFinalizedBudgets b)) tx h (highest_count 0 h (mapFinalizedBudgets b) - (enabled W m).2 / 10) InValid false (mapPayment_History b) = (history, Valid).
Proof.
  unfold bud_IsTransactionValid. pose proof (enabled_again m) as Ea. destruct (enabled W m) as [m2 n]. cbn [fst snd] in *. destruct (Z.ltb_spec (highest_count 0 h (mapFinalizedBudgets b)) (n / 20)); [done|].
  rewrite Ea. destruct (valid_loop _ _ _ _ _ _ _) as [history status]. intros [= <- <- ->]. split; [done|]. exists history. by split_and!.
Qed.

(** A block whose budget payment was found valid is, when it is checked again (as when
    it is connected after it was checked on arrival, or after a reorganisation), taken to
    pay its proposal a second time: it then passes only if it also makes the payment to a
    masternode that the votes ask for, or if that payment is not enforced. *)
Theorem budget_block_rechecked k f vtx tx h m p b m1 b1 :
  mapFinalizedBudgets b = {[k := f]} -> IsSporkActive (w_sporks W) (w_time W) SPORK_13_ENABLE_SUPERBLOCKS = true ->
  vtx !! (if LAST_POW_BLOCK ps <? h then 1%nat else 0%nat) = Some tx ->
  (bud_IsBudgetPaymentBlock W h m b).2 = true -> bud_IsTransactionValid W tx h m b = (m1, b1, Valid) ->
  IsBlockPayeeValid net ps W true vtx h m p b = Some (m1, b1, true) /\
  exists m2, IsBlockPayeeValid net ps W true vtx h m1 p b1 =
    Some (m2, b1, if (pay_IsTransactionValid net ps W tx h m1 p).2 then true else negb (IsSporkActive (w_sporks W) (w_time W) SPORK_8_MASTERNODE_PAYMENT_ENFORCEMENT)).
Proof.
  intros Ef S13 Et Hb Ev. destruct (budget_valid_parts _ _ _ _ _ _ Ev) as (-> & history & -> & Hn & V). pose proof (enabled_again m) as Ea.
  unfold bud_IsBudgetPaymentBlock in Hb. unfold IsBlockPayeeValid. cbn [negb]. rewrite Et. cbn [mbind option_bind]. rewrite S13. unfold bud_IsBudgetPaymentBlock.
  rewrite Ea. destruct (enabled W m) as [m' n] eqn:En. cbn [fst snd] in *. rewrite Hb. split.
  - assert (Ev' : bud_IsTransactionValid W tx h m' b = (m', set_history history b, Valid)); [|by rewrite Ev'].
    unfold bud_IsTransactionValid in Ev |- *. by rewrite Ea, ?En, Ea in *.
  - change (mapFinalizedBudgets (set_history history b)) with (mapFinalizedBudgets b). rewrite Hb.
    rewrite Ef, entries_singleton in V. cbn [valid_loop] in V.
    assert (D : bud_IsTransactionValid W tx h m' (set_history history b) = (m', set_history history b, DoublePayment)).
    { unfold bud_IsTransactionValid. rewrite Ea. change (mapFinalizedBudgets (set_history history b)) with (mapFinalizedBudgets b). rewrite (proj2 (Z.ltb_ge _ _)) by exact Hn. rewrite Ea, Ef, entries_singleton.
      cbn [valid_loop mapPayment_History set_history]. destruct (_ <? GetVoteCount f); [|done]. destruct (covers f h); [|done].
      destruct (fb_IsTransactionValid f tx h (mapPayment_History b)) as [history' status] eqn:F. assert (status = Valid /\ history' = history) as [-> ->].
      { destruct status; cbn in V; try discriminate; by injection V as ->. }
      rewrite (paid_then_double _ _ _ _ _ F). done. }
    rewrite D. destruct (pay_IsTransactionValid net ps W tx h m' p) as [m2 ok]. by exists m2.
Qed.
End Checks.

(** * The choice of the proposals *)

Section Choice.
Context `{StdSortLaws} (lib : secp256k1) (rec : secp256k1_recovery lib) (net : Network) (ps : CChainParams) (W : World).

Lemma budget_subsidy_small nHeight : 0 <= budget_subsidy ps nHeight <= 10000000000.
Proof. unfold budget_subsidy. generalize (LAST_POW_BLOCK ps). intros last. repeat case_match; vm_compute; split; discriminate. Qed.

Lemma total_budget_small nHeight : 0 <= GetTotalBudget net ps W nHeight < 2 ^ 62.
Proof.
  pose proof (budget_subsidy_small nHeight) as S. assert (G : 0 <= Z.quot (budget_subsidy ps nHeight) 100 * 10 * 1440 * 30 < 2 ^ 62).
  { revert S. generalize (budget_subsidy ps nHeight). intros x S. rewrite Z.quot_div_nonneg by lia. pose proof (Z.div_pos x 100 ltac:(lia) ltac:(lia)). pose proof (Z.div_le_upper_bound x 100 100000000 ltac:(lia) ltac:(lia)). lia. }
  unfold GetTotalBudget. destruct (Tip _); [|lia]. assert (G' : 0 <= (if nHeight <=? LAST_POW_BLOCK ps then 0 else Z.quot (budget_subsidy ps nHeight) 100 * 10 * 1440 * 30) < 2 ^ 62) by (destruct (nHeight <=? _); lia).
  destruct net; [exact G'|vm_compute; split; [discriminate|reflexivity]|exact G'|exact G'].
Qed.

(** What a proposal needs, of [n] enabled masternodes. *)
Definition eligible (nBlockStart n : Z) (p : CBudgetProposal) : bool := in_period net nBlockStart p && (n / 10 <? GetYeas p - GetNays p) && IsEstablished net W p.

Definition rank_key (e : uint256 * CBudgetProposal) : Z := by_votes (GetYeas e.2 - GetNays e.2) (pr_nFeeTXHash e.2).
Definition allotted (l : list (uint256 * CBudgetProposal)) : Z := zsum (map (fun e => nAmount e.2) l).

(** The loop takes the eligible proposals that fit into what is left. *)
Fixpoint taken (l : list (uint256 * CBudgetProposal)) (n nBlockStart left : Z) : list (uint256 * CBudgetProposal) :=
  match l with
  | [] => []
  | e :: l => if eligible nBlockStart n e.2 && (nAmount e.2 <=? left) then e :: taken l n nBlockStart (left - nAmount e.2) else taken l n nBlockStart left
  end.

Lemma budget_loop_taken l nBlockStart total m n : enabled W m = (m, n) -> total < 2 ^ 62 -> Forall (fun e => 0 <= nAmount e.2 < 2 ^ 62) l ->
  forall allocated b, 0 <= allocated <= total -> exists b', budget_loop net W l nBlockStart total allocated m b = (m, b', taken l n nBlockStart (total - allocated)).
Proof.
  intros En Ht. induction l as [|[k p] l IH]; intros F allocated b Ha; cbn [budget_loop taken]; [by exists b|]. inversion F as [|? ? Hp F']; subst. cbn [snd] in *.
  assert (E : (if in_period net nBlockStart p then let '(m0, n0) := enabled W m in (m0, n0 / 10 <? GetYeas p - GetNays p) else (m, false)) = (m, in_period net nBlockStart p && (n / 10 <? GetYeas p - GetNays p))).
  { destruct (in_period _ _ p); [by rewrite En|done]. }
  rewrite E. unfold eligible. destruct (in_period _ _ p && _ && IsEstablished _ _ p) eqn:El; cbn [andb].
  - rewrite s64_small by lia. destruct (Z.leb_spec (nAmount p + allocated) total).
    + rewrite (proj2 (Z.leb_le _ _)) by lia. rewrite s64_small by lia. destruct (IH F' (allocated + nAmount p) (set_allotted k (nAmount p) b) ltac:(lia)) as [b' ->].
      exists b'. by replace (total - (allocated + nAmount p)) with (total - allocated - nAmount p) by lia.
    + rewrite (proj2 (Z.leb_gt _ _)) by lia. by apply IH.
  - by apply IH.
Qed.

Lemma taken_sublist l n s : forall left, taken l n s left `sublist_of` l.
Proof. induction l as [|e l IH]; intros left; cbn [taken]; [constructor|]. case_match; [by constructor|by constructor]. Qed.

Lemma taken_allotted l n s : forall left, 0 <= left -> allotted (taken l n s left) <= left.
Proof.
  unfold allotted. induction l as [|e l IH]; intros left Hl; cbn [taken map zsum foldr]; [done|]. destruct (eligible s n e.2 && (nAmount e.2 <=? left)) eqn:E; [|by apply IH].
  apply andb_true_iff in E as [_ E%Z.leb_le]. cbn [map zsum foldr]. specialize (IH (left - nAmount e.2) ltac:(lia)). unfold zsum in IH. lia.
Qed.

Lemma taken_eligible l n s e : forall left, e ∈ taken l n s left -> eligible s n e.2 = true.
Proof.
  induction l as [|x l IH]; intros left; cbn [taken]; [by intros []%elem_of_nil|]. destruct (eligible s n x.2 && _) eqn:E; [|apply IH].
  intros [->|I]%elem_of_cons; [by apply andb_true_iff in E as [? _]|by apply (IH (left - nAmount x.2))].
Qed.

(** What is eligible and not taken did not fit beside what was taken before it. *)
Lemma taken_refused l n s e : StronglySorted (fun a b => rank_key b <= rank_key a) l -> e ∈ l -> eligible s n e.2 = true -> forall left, ~ e ∈ taken l n s left ->
  exists before, before `sublist_of` taken l n s left /\ Forall (fun x => rank_key e <= rank_key x) before /\ left < allotted before + nAmount e.2.
Proof.
  induction 1 as [|x l S IH F]; intros I El left N; [by apply not_elem_of_nil in I|]. cbn [taken] in *.
  apply elem_of_cons in I as [<-|I].
  - rewrite El in N |- *. cbn [andb] in *. destruct (Z.leb_spec (nAmount e.2) left); [exfalso; apply N; left|]. exists []. split_and!; [apply sublist_nil_l|constructor|]. unfold allotted. cbn. lia.
  - rewrite Forall_forall in F. destruct (eligible s n x.2 && (nAmount x.2 <=? left)).
    + destruct (IH I El (left - nAmount x.2)) as (before & Sub & Fb & L); [intros I'; apply N; by right|].
      exists (x :: before). split_and!; [by constructor|constructor; [by apply F|done]|]. unfold allotted, zsum in *. cbn [map foldr]. lia.
    + by apply IH.
Qed.

Lemma sorted_sublist {A} (R : relation A) k l : k `sublist_of` l -> StronglySorted R l -> StronglySorted R k.
Proof.
  induction 1 as [|x k l Sub IH|x k l Sub IH]; intros S; [constructor| |]; inversion S as [|? ? S' F]; subst; [|by apply IH].
  constructor; [by apply IH|]. rewrite Forall_forall in F |- *. intros y I. apply F. exact (elem_of_sublist _ _ _ I Sub).
Qed.

(** What is chosen for the next cycle. *)
Definition choice_spec (m : CMasternodeMan) (b : CBudgetManager) : Prop :=
  let nBlockStart := next_cycle net (Height (w_chain W)) in
  let total := GetTotalBudget net ps W nBlockStart in
  let current := pr_CleanAndRemove lib rec false m <$> mapProposals b in
  let chosen := (GetBudget lib rec net ps W m b).2 in
  Forall (fun e => current !! e.1 = Some e.2 /\ eligible nBlockStart (enabled W m).2 e.2 = true) chosen /\
  StronglySorted (fun a b => rank_key b <= rank_key a) chosen /\ NoDup (map fst chosen) /\ allotted chosen <= total /\
  forall k p, current !! k = Some p -> eligible nBlockStart (enabled W m).2 p = true -> ~ (k, p) ∈ chosen ->
    exists before, before `sublist_of` chosen /\ Forall (fun x => rank_key (k, p) <= rank_key x) before /\ total < allotted before + nAmount p.

(** C20 The proposals that get money in the next cycle: they are valid, cover the cycle, are
    old enough and have the support of more than a tenth of the enabled masternodes; they
    come in the order of their votes, none twice; what they get together is at most the
    budget of the cycle; and a proposal that could get money and does not would not fit
    into the budget together with chosen ones that rank at least as high. *)
Theorem GetBudget_correct m b : enabled W m = (m, (enabled W m).2) -> is_Some (Tip (w_chain W)) ->
  (forall k p, mapProposals b !! k = Some p -> 0 <= nAmount p < 2 ^ 62) -> choice_spec m b.
Proof.
  intros En [tip Et] Hp. unfold choice_spec. set (nBlockStart := next_cycle net _). set (total := GetTotalBudget net ps W _). set (current := _ <$> mapProposals b). cbv zeta. set (chosen := (GetBudget lib rec net ps W m b).2). unfold chosen, GetBudget. rewrite Et. cbv zeta. clear chosen. fold current. set (b0 := set_proposals current b). change (mapProposals b0) with current.
  fold nBlockStart. fold total. set (l := ranked_proposals current).
  assert (El : forall k p, (k, p) ∈ l <-> current !! k = Some p) by (intros k p; unfold l, ranked_proposals; rewrite sort_down_perm; apply entries_elem).
  assert (Sl : StronglySorted (fun a b => rank_key b <= rank_key a) l) by apply sort_down_sorted.
  assert (Nl : NoDup (map fst l)).
  { unfold l, ranked_proposals. rewrite sort_down_perm. unfold entries. assert (N : NoDup (in_hash_order current)) by (unfold in_hash_order; rewrite merge_sort_Permutation; apply NoDup_fst_map_to_list).
    assert (Sub : forall ks, map fst (omap (fun k => x ← current !! k; Some (k, x)) ks) `sublist_of` ks).
    { induction ks as [|k ks IHk]; [constructor|]. cbn. destruct (current !! k); cbn; by constructor. }
    exact (sublist_NoDup _ _ N (Sub _)). }
  assert (Fl : Forall (fun e => 0 <= nAmount e.2 < 2 ^ 62) l).
  { apply Forall_forall. intros [k p] I%El. unfold current in I. rewrite lookup_fmap in I. destruct (mapProposals b !! k) as [q|] eqn:E; [|done]. cbn in I. injection I as <-. by apply (Hp k q). }
  destruct (total_budget_small nBlockStart) as [T0 T1]. fold total in T0, T1.
  destruct (budget_loop_taken l nBlockStart total m _ En T1 Fl 0 b0 ltac:(lia)) as [b' ->]. cbn [snd]. rewrite Z.sub_0_r. set (n := (enabled W m).2).
  pose proof (taken_sublist l n nBlockStart total) as Sub. split_and!.
  - apply Forall_forall. intros [k p] I. split; [apply El; exact (elem_of_sublist _ _ _ I Sub)|by apply (taken_eligible l n nBlockStart _ total)].
  - exact (sorted_sublist _ _ _ Sub Sl).
  - exact (sublist_NoDup _ _ Nl (map_sublist fst _ _ Sub)).
  - by apply taken_allotted.
  - intros k p I%El Ep N. by apply (taken_refused l n nBlockStart (k, p)).
Qed.
End Choice.

(** * Where the votes come from *)

Section Votes.
Context `{StdSort} (lib : secp256k1) (rec : secp256k1_recovery lib) (script_text : CScript -> byte_list) (net : Network) (ps : CChainParams).
Context (ix_confirmations : uint256 -> Z).

(** What happened: votes that arrived, with the list of masternodes then, and the work of
    the node's own masternode. *)
Inductive budget_event := got_vote (m : CMasternodeMan) (v : CBudgetVote) | got_fvote (m : CMasternodeMan) (v : CFinalizedBudgetVote) | own_work (W : World).

Definition vote_src (es : list budget_event) (v : CBudgetVote) : Prop :=
  exists m v0, got_vote m v0 ∈ es /\ vote_SignatureValid lib rec true v0 m = true /\ v = bv_with (bv_fValid v) (bv_fSynced v) v0.
Definition fvote_src (es : list budget_event) (v : CFinalizedBudgetVote) : Prop :=
  (exists m v0, got_fvote m v0 ∈ es /\ fvote_SignatureValid lib rec true v0 m = true /\ v = fv_with (fv_fValid v) (fv_fSynced v) v0) \/
  (exists W, own_work W ∈ es /\ fv_vin v = active_vin (w_active W)).

Definition pr_ok (es : list budget_event) (P : uint256) (p : CBudgetProposal) : Prop :=
  pr_GetHash p = P /\ map_Forall (fun k v => k = outpoint_GetHash (prevout (bv_vin v)) /\ bv_nProposalHash v = P /\ vote_src es v) (pr_mapVotes p).
Definition fb_ok (es : list budget_event) (P : uint256) (f : CFinalizedBudget) : Prop :=
  fb_GetHash f = P /\ map_Forall (fun k v => k = outpoint_GetHash (prevout (fv_vin v)) /\ nBudgetHash v = P /\ fvote_src es v) (fb_mapVotes f).

Record binv (es : list budget_event) (b : CBudgetManager) : Prop := {
  bi_prop : map_Forall (pr_ok es) (mapProposals b);
  bi_fin : map_Forall (fb_ok es) (mapFinalizedBudgets b);
  bi_orphans : map_Forall (fun _ v => vote_src es v) (mapOrphanMasternodeBudgetVotes b);
  bi_forphans : map_Forall (fun _ v => fvote_src es v) (mapOrphanFinalizedBudgetVotes b);
  bi_imm : Forall (fun p => pr_mapVotes p = ∅) (vecImmatureBudgetProposals b);
  bi_fimm : Forall (fun f => fb_mapVotes f = ∅) (vecImmatureFinalizedBudgets b)
}.

Lemma vote_src_mono es e v : vote_src es v -> vote_src (e :: es) v.
Proof. intros (m & v0 & I & R). exists m, v0. split; [by right|exact R]. Qed.
Lemma fvote_src_mono es e v : fvote_src es v -> fvote_src (e :: es) v.
Proof. intros [(m & v0 & I & R)|(W & I & R)]; [left; exists m, v0|right; exists W]; (split; [by right|exact R]). Qed.

Lemma binv_mono es e b : binv es b -> binv (e :: es) b.
Proof.
  intros [A B C D E F]. split; try done.
  - intros P p I. destruct (A P p I) as [Hh V]. split; [done|]. intros k v Iv. destruct (V k v Iv) as (? & ? & ?). split_and!; [done|done|by apply vote_src_mono].
  - intros P p I. destruct (B P p I) as [Hh V]. split; [done|]. intros k v Iv. destruct (V k v Iv) as (? & ? & ?). split_and!; [done|done|by apply fvote_src_mono].
  - intros k v I. by apply vote_src_mono, (C k v).
  - intros k v I. by apply fvote_src_mono, (D k v).
Qed.

Lemma binv_same es b b' : mapProposals b' = mapProposals b -> mapFinalizedBudgets b' = mapFinalizedBudgets b ->
  mapOrphanMasternodeBudgetVotes b' = mapOrphanMasternodeBudgetVotes b -> mapOrphanFinalizedBudgetVotes b' = mapOrphanFinalizedBudgetVotes b ->
  vecImmatureBudgetProposals b' = vecImmatureBudgetProposals b -> vecImmatureFinalizedBudgets b' = vecImmatureFinalizedBudgets b -> binv es b -> binv es b'.
Proof. intros E1 E2 E3 E4 E5 E6 [A B C D E F]. split; by rewrite ?E1, ?E2, ?E3, ?E4, ?E5, ?E6. Qed.

(** A change of the two main maps. *)
Lemma binv_main es p f b : map_Forall (pr_ok es) p -> map_Forall (fb_ok es) f -> binv es b -> binv es (set_main p f b).
Proof. intros A' B' [A B C D E F]. by split. Qed.

Lemma pr_ok_with es P n valid time p : pr_ok es P p -> pr_ok es P (pr_with n valid (pr_mapVotes p) time p).
Proof. by intros [A B]. Qed.

Lemma pr_ok_votes es P n valid time (g : CBudgetVote -> bool * bool) p : pr_ok es P p -> pr_ok es P (pr_with n valid ((fun v => bv_with (g v).1 (g v).2 v) <$> pr_mapVotes p) time p).
Proof.
  intros [A B]. split; [done|]. cbn [pr_mapVotes pr_with]. intros k v. rewrite lookup_fmap. destruct (pr_mapVotes p !! k) as [v'|] eqn:Ev; [|done]. cbn. intros [= <-].
  destruct (B k v' Ev) as (K & Hp & m & v0 & I & S & Eq). split_and!; [done|done|]. exists m, v0. split_and!; [done|done|]. cbn [bv_fValid bv_fSynced bv_with]. rewrite Eq. done.
Qed.

Lemma fb_ok_votes es P auto valid time (g : CFinalizedBudgetVote -> bool * bool) f : fb_ok es P f -> fb_ok es P (fb_with auto valid ((fun v => fv_with (g v).1 (g v).2 v) <$> fb_mapVotes f) time f).
Proof.
  intros [A B]. split; [done|]. cbn [fb_mapVotes fb_with]. intros k v. rewrite lookup_fmap. destruct (fb_mapVotes f !! k) as [v'|] eqn:Ev; [|done]. cbn. intros [= <-].
  destruct (B k v' Ev) as (K & Hp & S). split_and!; [done|done|]. destruct S as [(m & v0 & I & S & Eq)|S]; [left|by right]. exists m, v0. split_and!; [done|done|]. cbn. rewrite Eq. done.
Qed.

Lemma fmap_ok {A} (P : uint256 -> A -> Prop) (g : A -> A) (m : gmap uint256 A) : (forall k x, P k x -> P k (g x)) -> map_Forall P m -> map_Forall P (g <$> m).
Proof. intros G Hm k x. rewrite lookup_fmap. destruct (m !! k) eqn:E; [|done]. cbn. intros [= <-]. by apply G, Hm. Qed.

Lemma insert_new_ok {A} (P : uint256 -> A -> Prop) (k : uint256) (x : A) (m : gmap uint256 A) : P k x -> map_Forall P m -> map_Forall P (insert_new k x m).
Proof. intros Hx Hm. unfold insert_new. destruct (m !! k); [done|]. by apply map_Forall_insert_2. Qed.

Context (W : World).

Lemma pr_IsValid_same p m m' p' ok : pr_IsValid net ps ix_confirmations W p m = (m', p', ok) -> exists t, p' = pr_with (nAlloted p) (pr_fValid p) (pr_mapVotes p) t p.
Proof.
  assert (S : p = pr_with (nAlloted p) (pr_fValid p) (pr_mapVotes p) (pr_nTime p) p) by by destruct p.
  unfold pr_IsValid. destruct (enabled W m) as [m1 n]. repeat (case_match; [intros [= <- <- <-]; by eexists|]).
  destruct (IsBudgetCollateralValid _ _ _ _ _ _) as [[ok' t] c]. intros E. exists t. repeat case_match; by injection E as <- <- <-.
Qed.

Lemma fb_IsValid_same f f' ok : fb_IsValid net ps ix_confirmations W f = (f', ok) -> exists t, f' = fb_with (fAutoChecked f) (fb_fValid f) (fb_mapVotes f) t f.
Proof.
  assert (S : f = fb_with (fAutoChecked f) (fb_fValid f) (fb_mapVotes f) (fb_nTime f) f) by by destruct f.
  unfold fb_IsValid. repeat (case_match; [intros [= <- <-]; by eexists|]).
  destruct (IsBudgetCollateralValid _ _ _ _ _ _) as [[ok' t] c]. intros E. exists t. repeat case_match; by injection E as <- <-.
Qed.

Lemma update_proposal_ok es v peer b : vote_src es v -> binv es b -> binv es (UpdateProposal W v peer b).1.
Proof.
  intros Sv Hb. unfold UpdateProposal. destruct (mapProposals b !! bv_nProposalHash v) as [p|] eqn:Ep.
  - unfold pr_AddOrUpdateVote. destruct (vote_refused _ _ _); [done|]. cbn [fst]. apply binv_main; [|apply Hb|done]. apply map_Forall_insert_2; [|apply Hb].
    destruct (bi_prop es b Hb _ _ Ep) as [A B]. split; [done|]. cbn [pr_mapVotes pr_with]. apply map_Forall_insert_2; [by split_and!|done].
  - destruct peer as [[|]|]; cbn [fst]; [|done|done]. destruct Hb as [A B C D E F]. split; cbn; try done. by apply map_Forall_insert_2.
Qed.

Lemma update_finalized_ok es v peer b : fvote_src es v -> binv es b -> binv es (UpdateFinalizedBudget W v peer b).1.
Proof.
  intros Sv Hb. unfold UpdateFinalizedBudget. destruct (mapFinalizedBudgets b !! nBudgetHash v) as [p|] eqn:Ep.
  - unfold fb_AddOrUpdateVote. destruct (vote_refused _ _ _); [done|]. cbn [fst]. apply binv_main; [apply Hb| |done]. apply map_Forall_insert_2; [|apply Hb].
    destruct (bi_fin es b Hb _ _ Ep) as [A B]. split; [done|]. cbn [fb_mapVotes fb_with]. apply map_Forall_insert_2; [by split_and!|done].
  - destruct peer as [[|]|]; cbn [fst]; [|done|done]. destruct Hb as [A B C D E F]. split; cbn; try done. by apply map_Forall_insert_2.
Qed.

Lemma orphans_erased es o fo a b : binv es b -> o ⊆ mapOrphanMasternodeBudgetVotes b -> fo ⊆ mapOrphanFinalizedBudgetVotes b -> binv es (set_orphans o fo a b).
Proof.
  intros [A B C D E F] So Sf. split; cbn; try done; intros k v I; [apply (C k)|apply (D k)]; by eapply lookup_weaken.
Qed.

Lemma check_orphans_ok es b : binv es b -> binv es (CheckOrphanVotes W b).
Proof.
  intros Hb. unfold CheckOrphanVotes.
  assert (F1 : forall l b0, Forall (fun e => vote_src es e.2) l -> binv es b0 -> binv es (foldl (try_orphan_vote W) b0 l)).
  { induction l as [|e l IH]; intros b0 F Hb0; cbn [foldl]; [done|]. inversion F; subst. apply IH; [done|]. unfold try_orphan_vote. pose proof (update_proposal_ok es e.2 None b0 ltac:(done) Hb0) as U.
    destruct (UpdateProposal W e.2 None b0) as [b1 [|]]; [|exact U]. apply orphans_erased; [exact U|apply delete_subseteq|done]. }
  assert (F2 : forall l b0, Forall (fun e => fvote_src es e.2) l -> binv es b0 -> binv es (foldl (try_orphan_fvote W) b0 l)).
  { induction l as [|e l IH]; intros b0 F Hb0; cbn [foldl]; [done|]. inversion F; subst. apply IH; [done|]. unfold try_orphan_fvote. pose proof (update_finalized_ok es e.2 None b0 ltac:(done) Hb0) as U.
    destruct (UpdateFinalizedBudget W e.2 None b0) as [b1 [|]]; [|exact U]. apply orphans_erased; [exact U|done|apply delete_subseteq]. }
  assert (Hb1 : binv es (foldl (try_orphan_vote W) b (entries (mapOrphanMasternodeBudgetVotes b)))).
  { apply F1; [|done]. apply Forall_forall. intros [k v] I%entries_elem. by apply (bi_orphans es b Hb k). }
  apply F2; [|exact Hb1]. apply Forall_forall. intros [k v] I%entries_elem. by apply (bi_forphans es _ Hb1 k).
Qed.

Lemma added_item_ok es h b : binv es b -> binv es (AddedBudgetItem W h b).
Proof. apply binv_same; unfold AddedBudgetItem; by repeat case_match. Qed.

Lemma seen_ok es p v f fv b : binv es b -> binv es (set_seen_budget p v f fv b).
Proof. by apply binv_same. Qed.

Lemma add_proposal_ok es p m b : pr_mapVotes p = ∅ -> binv es b -> binv es (AddProposal net ps ix_confirmations W p m b).1.2.
Proof.
  intros Ep Hb. unfold AddProposal. destruct (pr_IsValid _ _ _ _ p m) as [[m' p'] ok] eqn:E. apply pr_IsValid_same in E as [t ->]. destruct ok; cbn [negb]; [|done].
  case_match; [done|]. cbn [fst snd]. apply binv_main; [|apply Hb|done]. apply map_Forall_insert_2; [|apply Hb]. split; [done|]. cbn. rewrite Ep. intros k v. by rewrite lookup_empty.
Qed.

Lemma add_finalized_ok es f b : fb_mapVotes f = ∅ -> binv es b -> binv es (AddFinalizedBudget net ps ix_confirmations W f b).1.
Proof.
  intros Ep Hb. unfold AddFinalizedBudget. destruct (fb_IsValid _ _ _ _ f) as [f' ok] eqn:E. apply fb_IsValid_same in E as [t ->]. destruct ok; cbn [negb]; [|done].
  case_match; [done|]. cbn [fst snd]. apply binv_main; [apply Hb| |done]. apply map_Forall_insert_2; [|apply Hb]. split; [done|]. cbn. rewrite Ep. intros k v. by rewrite lookup_empty.
Qed.

Lemma mprop_ok es p m b : pr_mapVotes p = ∅ -> binv es b -> binv es (process_mprop net ps ix_confirmations W p m b).2.
Proof.
  intros Ep Hb. unfold process_mprop. case_match; [by apply added_item_ok|]. destruct (IsBudgetCollateralValid _ _ _ _ _ _) as [[ok t] c]. destruct ok; cbn [negb].
  - destruct (pr_IsValid _ _ _ _ _ m) as [[m' p'] ok] eqn:E. apply pr_IsValid_same in E as [t' ->]. destruct ok; cbn [negb]; [|by apply seen_ok].
    destruct (AddProposal _ _ _ _ _ _ _) as [[m2 b2] x] eqn:Ea. cbn [snd]. apply check_orphans_ok, added_item_ok.
    assert (A : binv es (m2, b2, x).1.2); [|exact A]. rewrite <- Ea. apply add_proposal_ok; [done|]. by apply seen_ok.
  - cbn [snd]. case_match; [|done]. destruct Hb as [A B C D E F]. split; cbn; try done. apply Forall_app. split; [done|]. by repeat constructor.
Qed.

Lemma fbs_ok es f b : fb_mapVotes f = ∅ -> binv es b -> binv es (process_fbs net ps ix_confirmations W f b).
Proof.
  intros Ep Hb. unfold process_fbs. case_match; [by apply added_item_ok|]. destruct (IsBudgetCollateralValid _ _ _ _ _ _) as [[ok t] c]. destruct ok; cbn [negb].
  - destruct (fb_IsValid _ _ _ _ _) as [f' ok] eqn:E. apply fb_IsValid_same in E as [t' ->]. destruct ok; cbn [negb]; [|by apply seen_ok].
    apply check_orphans_ok, added_item_ok, add_finalized_ok; [done|]. by apply seen_ok.
  - case_match; [|done]. destruct Hb as [A B C D E F]. split; cbn; try done. apply Forall_app. split; [done|]. by repeat constructor.
Qed.

Lemma mvote_ok es synced v m b : binv es b -> binv (got_vote m v :: es) (process_mvote lib rec W synced v m b).1.2.
Proof.
  intros Hb%(binv_mono es (got_vote m v)). unfold process_mvote. case_match; [by apply added_item_ok|]. case_match; [|done]. case_match eqn:S; [by apply seen_ok|].
  apply negb_false_iff in S. pose proof (update_proposal_ok (got_vote m v :: es) (bv_with true false v) (Some synced)) as U.
  destruct (UpdateProposal _ _ _ _) as [b2 ok] eqn:E. cbn [fst snd]. assert (B2 : binv (got_vote m v :: es) b2).
  { assert (B2 : binv (got_vote m v :: es) (b2, ok).1); [|exact B2]. rewrite <- E. apply U; [|by apply seen_ok]. exists m, v. split_and!; [left|exact S|done]. }
  destruct ok; [by apply added_item_ok|done].
Qed.

Lemma fbvote_ok es synced v m b : binv es b -> binv (got_fvote m v :: es) (process_fbvote lib rec W synced v m b).1.2.
Proof.
  intros Hb%(binv_mono es (got_fvote m v)). unfold process_fbvote. case_match; [by apply added_item_ok|]. case_match; [|done]. case_match eqn:S; [by apply seen_ok|].
  apply negb_false_iff in S. pose proof (update_finalized_ok (got_fvote m v :: es) (fv_with true false v) (Some synced)) as U.
  destruct (UpdateFinalizedBudget _ _ _ _) as [b2 ok] eqn:E. cbn [fst snd]. assert (B2 : binv (got_fvote m v :: es) b2).
  { assert (B2 : binv (got_fvote m v :: es) (b2, ok).1); [|exact B2]. rewrite <- E. apply U; [|by apply seen_ok]. left. exists m, v. split_and!; [left|exact S|done]. }
  destruct ok; [by apply added_item_ok|done].
Qed.

Lemma get_budget_ok es m b : binv es b -> binv es (GetBudget lib rec net ps W m b).1.2.
Proof.
  intros Hb. unfold GetBudget. set (b0 := set_proposals _ b). assert (Hb0 : binv es b0).
  { apply binv_main; [|apply Hb|done]. apply fmap_ok; [|apply Hb]. intros P p. exact (pr_ok_votes es P _ _ _ (fun v => (vote_SignatureValid lib rec false v m, bv_fSynced v)) p). }
  destruct (Tip _); [|done]. generalize (ranked_proposals (mapProposals b0)). intros l. generalize 0. clearbody b0. revert m b0 Hb0. induction l as [|[k p] l IH]; intros m b0 Hb0 a; cbn [budget_loop]; [done|].
  assert (Sa : forall n, binv es (set_allotted k n b0)).
  { intros n0. apply binv_main; [|apply Hb0|done]. intros P q. rewrite lookup_alter_Some. intros [(<- & q' & E & ->)|[_ E]]; [|by apply (bi_prop es b0 Hb0)].
    apply pr_ok_with. by apply (bi_prop es b0 Hb0). }
  destruct (if in_period _ _ p then _ else _) as [m' s]. destruct (s && _); [|by apply IH]. case_match; [|by apply IH].
  destruct (budget_loop _ _ l _ _ _ m' _) as [[m2 b2] r] eqn:E. cbn [fst snd]. assert (R : binv es (m2, b2, r).1.2); [|exact R]. rewrite <- E. by apply IH.
Qed.

Lemma budget_clean_ok es m b : binv es b -> binv es (set_main (pr_CleanAndRemove lib rec false m <$> mapProposals b) (fb_CleanAndRemove lib rec false m <$> mapFinalizedBudgets b) b).
Proof.
  intros Hb. apply binv_main; [| |done]; apply fmap_ok; try apply Hb; intros P x.
  - exact (pr_ok_votes es P _ _ _ (fun v => (vote_SignatureValid lib rec false v m, bv_fSynced v)) x).
  - exact (fb_ok_votes es P _ _ _ (fun v => (fvote_SignatureValid lib rec false v m, fv_fSynced v)) x).
Qed.

Lemma budget_mark_ok es (f : CBudgetVote -> bool * bool) (g : CFinalizedBudgetVote -> bool * bool) b :
  binv es b -> binv es (mark_votes (fun v => bv_with (f v).1 (f v).2 v) (fun v => fv_with (g v).1 (g v).2 v) b).
Proof.
  intros Hb. apply binv_main; [| |done]; intros k x; rewrite map_lookup_imap.
  - destruct (mapProposals b !! k) as [p|] eqn:E; [|done]. cbn. intros [= <-]. pose proof (bi_prop es b Hb k p E) as O. case_match; [by apply pr_ok_votes|done].
  - destruct (mapFinalizedBudgets b !! k) as [p|] eqn:E; [|done]. cbn. intros [= <-]. pose proof (bi_fin es b Hb k p E) as O. case_match; [by apply fb_ok_votes|done].
Qed.

Lemma reset_ok es b : binv es b -> binv es (ResetSync b).
Proof. exact (budget_mark_ok es (fun v => (bv_fValid v, false)) (fun v => (fv_fValid v, false)) b). Qed.

Lemma synced_ok es b : binv es b -> binv es (MarkSynced b).
Proof.
  unfold MarkSynced. assert (E : forall f f' g g' b, (forall v, f v = f' v) -> (forall v, g v = g' v) -> mark_votes f g b = mark_votes f' g' b).
  { intros f f' g g' b' Ef Eg. unfold mark_votes. f_equal.
    - apply map_imap_ext. intros k. destruct (mapProposals b' !! k) as [x|]; [|done]. cbn [fmap option_fmap option_map]. destruct (_ && _); [|done]. do 3 f_equal. by apply map_fmap_ext.
    - apply map_imap_ext. intros k. destruct (mapFinalizedBudgets b' !! k) as [x|]; [|done]. cbn [fmap option_fmap option_map]. destruct (_ && _); [|done]. do 3 f_equal. by apply map_fmap_ext. }
  rewrite (E _ (fun v => bv_with (bv_fValid v) (if bv_fValid v then true else bv_fSynced v) v) _ (fun v => fv_with (fv_fValid v) (if fv_fValid v then true else fv_fSynced v) v)).
  - exact (budget_mark_ok es (fun v => (bv_fValid v, if bv_fValid v then true else bv_fSynced v)) (fun v => (fv_fValid v, if fv_fValid v then true else fv_fSynced v)) b).
  - intros v. destruct v as [[|]]; done.
  - intros v. destruct v as [[|]]; done.
Qed.

Lemma auto_check_ok es auto lucky key k m b : own_work W ∈ es -> binv es b -> binv es (AutoCheck lib rec script_text net ps W auto lucky key k m b).2.
Proof.
  intros Ho Hb. unfold AutoCheck. destruct (Tip _); [|done]. destruct (mapFinalizedBudgets b !! k) as [f|] eqn:Ef; [|done]. case_match; [done|]. case_match; [done|].
  set (b0 := set_finalized _ b). assert (Hb0 : binv es b0).
  { apply binv_main; [apply Hb| |done]. apply map_Forall_insert_2; [|apply Hb]. exact (bi_fin es b Hb k f Ef). }
  case_match; [done|]. pose proof (get_budget_ok es m b0 Hb0) as G. destruct (GetBudget _ _ _ _ _ m b0) as [[m1 b1] l]. cbn [fst snd] in *. case_match; [|done]. cbn [snd].
  unfold SubmitVote. destruct key as [[sign pubkey]|]; [|done]. destruct (sign_and_verify _ _ _ _ _) as [sig|]; [|done].
  set (v := {| fv_fValid := true; fv_vchSig := sig |}). assert (Sv : fvote_src es v) by (right; by exists W).
  pose proof (update_finalized_ok es v None b1 Sv G) as U. destruct (UpdateFinalizedBudget W v None b1) as [b2 [|]]; [by apply seen_ok|exact U].
Qed.

Lemma clean_finalized_ok es ks auto lucky key : own_work W ∈ es -> forall tmp m b, map_Forall (fb_ok es) tmp -> binv es b ->
  let r := clean_finalized lib rec script_text net ps ix_confirmations W ks auto lucky key tmp m b in binv es r.1.2 /\ map_Forall (fb_ok es) r.2.
Proof.
  intros Ho. induction ks as [|k ks IH]; intros tmp m b Ht Hb; cbn [clean_finalized]; [done|]. destruct (mapFinalizedBudgets b !! k) as [f|] eqn:Ef; [|by apply IH].
  destruct (fb_IsValid _ _ _ _ f) as [f' ok] eqn:E. apply fb_IsValid_same in E as [t ->]. pose proof (bi_fin es b Hb k f Ef) as Of.
  set (f0 := fb_with _ ok _ _ _). assert (Of0 : fb_ok es k f0) by exact Of.
  assert (Hb0 : binv es (set_finalized (<[k := f0]> (mapFinalizedBudgets b)) b)) by (apply binv_main; [apply Hb|apply map_Forall_insert_2; [done|apply Hb]|done]).
  destruct ok; [|by apply IH]. pose proof (auto_check_ok es auto (lucky k) key k m _ Ho Hb0) as A. destruct (AutoCheck _ _ _ _ _ _ _ _ _ _ _ _) as [m1 b1]. cbn [snd] in A.
  apply IH; [|exact A]. apply insert_new_ok; [|done]. destruct (mapFinalizedBudgets b1 !! k) as [f1|] eqn:E1; cbn [from_option id].
  - destruct (bi_fin es b1 A k f1 E1) as [E V]. split; [done|]. rewrite E. exact V.
  - destruct Of0 as [E V]. split; [done|]. rewrite E. exact V.
Qed.

Lemma clean_proposals_ok es l : forall tmp m, Forall (fun e => pr_ok es e.1 e.2) l -> map_Forall (pr_ok es) tmp -> map_Forall (pr_ok es) (clean_proposals net ps ix_confirmations W l tmp m).2.
Proof.
  induction l as [|[k p] l IH]; intros tmp m F Ht; cbn [clean_proposals]; [done|]. inversion F as [|? ? Hp F']; subst. destruct (pr_IsValid _ _ _ _ p m) as [[m' p'] ok] eqn:E. apply pr_IsValid_same in E as [t ->].
  apply IH; [done|]. destruct ok; [|done]. apply insert_new_ok; [|done]. destruct Hp as [Eh V]. cbn [fst snd] in *. split; [done|]. change (pr_GetHash (pr_with _ _ _ t p)) with (pr_GetHash p). rewrite Eh. exact V.
Qed.

Lemma remove_ok es auto lucky key m b : own_work W ∈ es -> binv es b -> binv es (bud_CheckAndRemove lib rec script_text net ps ix_confirmations W auto lucky key m b).2.
Proof.
  intros Ho Hb. unfold bud_CheckAndRemove. pose proof (clean_finalized_ok es (in_hash_order (mapFinalizedBudgets b)) auto lucky key Ho ∅ m b (map_Forall_empty _) Hb) as C.
  destruct (clean_finalized _ _ _ _ _ _ _ _ _ _ _ _ _ _) as [[m1 b1] tf]. destruct C as [C1 C2]. cbn [fst snd] in *.
  pose proof (clean_proposals_ok es (entries (mapProposals b1)) ∅ m1) as P. destruct (clean_proposals _ _ _ _ _ _ _) as [m2 tp]. cbn [snd] in *. apply binv_main; [|done|done]. apply P; [|apply map_Forall_empty].
  apply Forall_forall. intros [k p] I%entries_elem. by apply (bi_prop es b1 C1).
Qed.

Lemma mature_proposals_ok es l : forall m b, Forall (fun p => pr_mapVotes p = ∅) l -> binv es b ->
  let r := mature_proposals net ps ix_confirmations W l m b in binv es r.1.2 /\ Forall (fun p => pr_mapVotes p = ∅) r.2.
Proof.
  induction l as [|p l IH]; intros m b F Hb; cbn [mature_proposals]; [done|]. inversion F as [|? ? Hp F']; subst. destruct (IsBudgetCollateralValid _ _ _ _ _ _) as [[ok t] c].
  destruct ok; cbn [negb].
  - destruct (pr_IsValid _ _ _ _ _ m) as [[m' p'] ok] eqn:E. apply pr_IsValid_same in E as [t' ->]. destruct ok; cbn [negb]; [|by apply IH].
    destruct (AddProposal _ _ _ _ _ _ _) as [[m2 b2] x] eqn:Ea. apply IH; [done|]. assert (A : binv es (m2, b2, x).1.2); [|exact A]. rewrite <- Ea. by apply add_proposal_ok.
  - specialize (IH m b F' Hb). destruct (mature_proposals _ _ _ _ l m b) as [[m2 b2] r]. destruct IH. split; [done|]. by constructor.
Qed.

Lemma mature_finalized_ok es l : forall b, Forall (fun p => fb_mapVotes p = ∅) l -> binv es b ->
  let r := mature_finalized net ps ix_confirmations W l b in binv es r.1 /\ Forall (fun p => fb_mapVotes p = ∅) r.2.
Proof.
  induction l as [|p l IH]; intros b F Hb; cbn [mature_finalized]; [done|]. inversion F as [|? ? Hp F']; subst. destruct (IsBudgetCollateralValid _ _ _ _ _ _) as [[ok t] c].
  destruct ok; cbn [negb].
  - destruct (fb_IsValid _ _ _ _ _) as [p' ok] eqn:E. apply fb_IsValid_same in E as [t' ->]. destruct ok; cbn [negb]; [|by apply IH]. apply IH; [done|]. by apply add_finalized_ok.
  - specialize (IH b F' Hb). destruct (mature_finalized _ _ _ _ l b) as [b2 r]. destruct IH. split; [done|]. by constructor.
Qed.

Lemma immature_ok es p f b : Forall (fun p => pr_mapVotes p = ∅) p -> Forall (fun f => fb_mapVotes f = ∅) f -> binv es b -> binv es (set_immature p f b).
Proof. intros Fp Ff [A B C D E F]. by split. Qed.

Lemma new_block_ok es late synced clear auto lucky key m b : own_work W ∈ es -> binv es b -> binv es (NewBlock lib rec script_text net ps ix_confirmations W late synced clear auto lucky key m b).2.
Proof.
  intros Ho Hb. unfold NewBlock. case_match; [done|]. case_match; [done|]. set (b0 := if synced then _ else b). assert (Hb0 : binv es b0).
  { unfold b0. destruct synced; [|done]. apply synced_ok. destruct clear; [|done]. apply reset_ok. by apply seen_ok. }
  pose proof (remove_ok es auto lucky key m b0 Ho Hb0) as R. destruct (bud_CheckAndRemove _ _ _ _ _ _ _ _ _ _ _ _) as [m1 b1]. cbn [snd] in R.
  set (b2 := set_main _ _ _). assert (Hb2 : binv es b2).
  { unfold b2. assert (Hs : binv es (set_orphans (mapOrphanMasternodeBudgetVotes b1) (mapOrphanFinalizedBudgetVotes b1) (base.filter (fun e => w_time W - 60 * 60 * 24 < e.2) (askedForSourceProposalOrBudget b1)) b1)) by (by apply orphans_erased).
    exact (budget_clean_ok es m1 _ Hs). }
  pose proof (mature_proposals_ok es (vecImmatureBudgetProposals b2) m1 b2 (bi_imm es b2 Hb2) Hb2) as M. destruct (mature_proposals _ _ _ _ _ _ _) as [[m3 b3] rest]. destruct M as [M1 M2]. cbn [fst snd] in *.
  assert (Hi : binv es (set_immature rest (vecImmatureFinalizedBudgets b3) b3)) by (apply immature_ok; [done|apply M1|done]).
  pose proof (mature_finalized_ok es (vecImmatureFinalizedBudgets (set_immature rest (vecImmatureFinalizedBudgets b3) b3)) _ (bi_fimm es _ Hi) Hi) as N.
  destruct (mature_finalized _ _ _ _ _ _) as [b4 rest2]. destruct N as [N1 N2]. cbn [fst snd] in *. apply immature_ok; [apply N1|done|done].
Qed.
End Votes.

(** ** A history of the budget *)

Section History.
Context `{StdSort} (lib : secp256k1) (rec : secp256k1_recovery lib) (script_text : CScript -> byte_list) (net : Network) (ps : CChainParams).
Context (ix_confirmations : uint256 -> Z).

(** Broadcasts carry no votes. *)
Inductive budget_history : list budget_event -> CBudgetManager -> Prop :=
| bud_start : budget_history [] no_budgets
| bud_mprop W p m es b : budget_history es b -> pr_mapVotes p = ∅ -> budget_history es (process_mprop net ps ix_confirmations W p m b).2
| bud_mvote W synced v m es b : budget_history es b -> budget_history (got_vote m v :: es) (process_mvote lib rec W synced v m b).1.2
| bud_fbs W f es b : budget_history es b -> fb_mapVotes f = ∅ -> budget_history es (process_fbs net ps ix_confirmations W f b)
| bud_fbvote W synced v m es b : budget_history es b -> budget_history (got_fvote m v :: es) (process_fbvote lib rec W synced v m b).1.2
| bud_check W tx h m es b : budget_history es b -> budget_history es (bud_IsTransactionValid W tx h m b).1.2
| bud_get W m es b : budget_history es b -> budget_history es (GetBudget lib rec net ps W m b).1.2
| bud_remove W auto lucky key m es b : budget_history es b -> budget_history (own_work W :: es) (bud_CheckAndRemove lib rec script_text net ps ix_confirmations W auto lucky key m b).2
| bud_block W late synced clear auto lucky key m es b : budget_history es b ->
    budget_history (own_work W :: es) (NewBlock lib rec script_text net ps ix_confirmations W late synced clear auto lucky key m b).2
| bud_reset es b : budget_history es b -> budget_history es (ResetSync b)
| bud_clear es b : budget_history es b -> budget_history es (bud_Clear b).

Lemma check_payment_ok es W tx h m b : binv lib rec es b -> binv lib rec es (bud_IsTransactionValid W tx h m b).1.2.
Proof.
  intros Hb. unfold bud_IsTransactionValid. destruct (enabled W m) as [m1 n]. case_match; [done|]. destruct (enabled W m1) as [m2 n2]. destruct (valid_loop _ _ _ _ _ _ _) as [hist s]. by apply (binv_same lib rec es b).
Qed.

Lemma budget_history_ok es b : budget_history es b -> binv lib rec es b.
Proof.
  induction 1 as [|W p m es b _ IH Ep|W synced v m es b _ IH|W f es b _ IH Ep|W synced v m es b _ IH|W tx h m es b _ IH|W m es b _ IH|W auto lucky key m es b _ IH|W late synced clear auto lucky key m es b _ IH|es b _ IH|es b _ IH].
  - by split.
  - by apply mprop_ok.
  - by apply mvote_ok.
  - by apply fbs_ok.
  - by apply fbvote_ok.
  - by apply check_payment_ok.
  - by apply get_budget_ok.
  - apply remove_ok; [left|by apply binv_mono].
  - apply new_block_ok; [left|by apply binv_mono].
  - by apply reset_ok.
  - destruct IH as [A B C D E F]. by split.
Qed.

(** C21 Whatever messages and blocks arrive, the votes a proposal or a finalized budget has
    are for it (it is kept under its own hash), at most one for each masternode, and each
    was signed by the key the masternode had when the vote arrived, or is a vote of the
    node's own masternode. *)
Theorem budget_votes_signed es b : budget_history es b ->
  (forall P p, mapProposals b !! P = Some p -> pr_GetHash p = P /\
     (forall k v, pr_mapVotes p !! k = Some v -> bv_nProposalHash v = P /\ vote_src lib rec es v) /\
     forall k1 k2 v1 v2, pr_mapVotes p !! k1 = Some v1 -> pr_mapVotes p !! k2 = Some v2 -> prevout (bv_vin v1) = prevout (bv_vin v2) -> k1 = k2) /\
  (forall P f, mapFinalizedBudgets b !! P = Some f -> fb_GetHash f = P /\
     (forall k v, fb_mapVotes f !! k = Some v -> nBudgetHash v = P /\ fvote_src lib rec es v) /\
     forall k1 k2 v1 v2, fb_mapVotes f !! k1 = Some v1 -> fb_mapVotes f !! k2 = Some v2 -> prevout (fv_vin v1) = prevout (fv_vin v2) -> k1 = k2).
Proof.
  intros Hh%budget_history_ok. split.
  - intros P p E. destruct (bi_prop _ _ es b Hh P p E) as [Eh V]. split_and!; [done|intros k v Ev; by destruct (V k v Ev)|]. intros k1 k2 v1 v2 E1 E2 Eo.
    destruct (V k1 v1 E1) as [-> _], (V k2 v2 E2) as [-> _]. by rewrite Eo.
  - intros P f E. destruct (bi_fin _ _ es b Hh P f E) as [Eh V]. split_and!; [done|intros k v Ev; by destruct (V k v Ev)|]. intros k1 k2 v1 v2 E1 E2 Eo.
    destruct (V k1 v1 E1) as [-> _], (V k2 v2 E2) as [-> _]. by rewrite Eo.
Qed.
End History.

(** * Side effects of cleaning *)

(** That a budget has been checked is forgotten at every cleaning, since a copy is kept. *)
Lemma checked_forgotten `{StdSort} lib rec script_text net ps ix W auto lucky key m b :
  map_Forall (fun _ f => fAutoChecked f = false) (mapFinalizedBudgets (bud_CheckAndRemove lib rec script_text net ps ix W auto lucky key m b).2).
Proof.
  unfold bud_CheckAndRemove. generalize (in_hash_order (mapFinalizedBudgets b)). intros ks.
  assert (C : forall tmp m b, map_Forall (fun _ f => fAutoChecked f = false) tmp -> map_Forall (fun _ f => fAutoChecked f = false) (clean_finalized lib rec script_text net ps ix W ks auto lucky key tmp m b).2).
  { induction ks as [|k ks IH]; intros tmp m0 b0 Ht; cbn [clean_finalized]; [done|]. destruct (mapFinalizedBudgets b0 !! k) as [f|]; [|by apply IH]. destruct (fb_IsValid _ _ _ _ f) as [f' [|]]; [|by apply IH].
    destruct (AutoCheck _ _ _ _ _ _ _ _ _ _ _ _) as [m1 b1]. apply IH. by apply insert_new_ok. }
  specialize (C ∅ m b (map_Forall_empty _)). destruct (clean_finalized _ _ _ _ _ _ _ _ _ _ _ _ _ _) as [[m1 b1] tf]. destruct (clean_proposals _ _ _ _ _ _ _) as [m2 tp]. exact C.
Qed.

(** After [ClearSeen] there is nothing for [ResetSync] to mark: no vote is sent again. *)
Lemma cleared_not_reset b : mapProposals (ResetSync (ClearSeen b)) = mapProposals b /\ mapFinalizedBudgets (ResetSync (ClearSeen b)) = mapFinalizedBudgets b.
Proof.
  assert (Id : forall A (g : uint256 -> A -> A) (m : gmap uint256 A), (forall k x, g k x = x) -> map_imap (fun k x => Some (g k x)) m = m).
  { intros A g m G. apply map_eq. intros k. rewrite map_lookup_imap. destruct (m !! k); [|done]. cbn. by rewrite G. }
  split; apply Id; intros k x; cbn; rewrite lookup_empty; by rewrite bool_decide_false by (intros [? [=]]).
Qed.

(** * What a budget block may mint *)

Section Minting.
Context `{StdSort} (net : Network) (ps : CChainParams) (W : World).

(** C19 In a block with a payment of the budget the amount that is minted has no bound.  The
    conditions are: the block follows the tip, the votes make its height one of a budget
    payment, at least ten masternodes are enabled, spork 13 is on, the node is synced and
    enforces superblocks, no payment that a finalized budget has for this height was made
    before ([mapPayment_History] does not hold its proposal), and none of the outputs is one
    of these payments already.  Then a stake with such outputs, to which the node adds the
    payment of the budget, passes both checks of the block's payments, the one of its value
    ([IsBlockValueValid], which asks the budget as it is) and the one of its payee, whatever
    it mints and whatever was expected. *)
Theorem budget_block_mints_anything (node : NodeView) hash outs tx vtx m p b nExpectedValue nMinted :
  let h := Height (w_chain W) + 1 in
  is_Some (Tip (w_chain W)) -> 10 <= (enabled W m).2 -> (bud_IsBudgetPaymentBlock W h m b).2 = true ->
  (forall k f payment, mapFinalizedBudgets b !! k = Some f -> GetBudgetPaymentByBlock f h = Some payment ->
     mapPayment_History b !! nProposalHash payment = None /\ forall out, out ∈ outs -> pays_exactly payment out = false) ->
  IsSporkActive (w_sporks W) (w_time W) SPORK_13_ENABLE_SUPERBLOCKS = true ->
  vout tx = bud_FillBlockPayee net ps W true outs b -> vtx !! (if LAST_POW_BLOCK ps <? h then 1%nat else 0%nat) = Some tx ->
  chain_tip node = Some (hash, Height (w_chain W)) -> wf256 hash -> superblocks_enabled node = true -> masternode_synced node = true ->
  IsBudgetPaymentBlock node h = (bud_IsBudgetPaymentBlock W h m b).2 ->
  IsBlockValueValid node hash nExpectedValue nMinted = true /\
  exists m' b', IsBlockPayeeValid net ps W true vtx h m p b = Some (m', b', true).
Proof.
  intros h T Hn Hb Hf S13 Ev Et Ec Wh Es Em Eb. split.
  - unfold IsBlockValueValid. rewrite Ec, (eq_spec W256 hash hash Wh Wh), Z.eqb_refl, Em, Es. cbn [negb]. fold h. by rewrite Eb, Hb.
  - pose proof (own_budget_payment net ps W outs tx m b T Hn Hb Hf Ev) as V. unfold IsBlockPayeeValid. cbn [negb]. rewrite Et. cbn [mbind option_bind]. rewrite S13.
    destruct (bud_IsTransactionValid W tx h m b) as [[m1 b1] status] eqn:E. cbn [snd] in V. fold h in V. rewrite E in V. cbn [snd] in V. subst status. destruct (budget_valid_parts _ _ _ _ _ _ _ E) as (-> & _).
    unfold bud_IsBudgetPaymentBlock in Hb |- *. pose proof (enabled_again W m) as Ea. assert (E' : bud_IsTransactionValid W tx h (enabled W m).1 b = bud_IsTransactionValid W tx h m b) by (unfold bud_IsTransactionValid; by rewrite Ea).
    destruct (enabled W m) as [m1 n]. cbn [fst snd] in *. rewrite Hb, E', E. by eexists _, _.
Qed.
End Minting.

(** * Witnesses *)

(** Ten masternodes with one key; sporks 8 and 13 are on ([after_message] has 13). *)
Definition ten_masternodes : CMasternodeMan :=
  set_list (map (fun i => {| mn_vin := voter i; mn_addr := mn_addr (example_mnb []); pubKeyCollateralAddress := signer_key; pubKeyMasternode := signer_key;
    mn_sig := []; activeState := MASTERNODE_ENABLED; mn_sigTime := 1000000; lastPing := example_ping; cacheInputAge := 0; cacheInputAgeBlock := 0;
    unitTest := false; protocolVersion := 70924; lastTimeChecked := 1001100 |}) (seq 0 10)) no_masternodes.

Definition budget_world (tx : CTransaction) : World := {|
  w_time := 1001100; w_adjusted := 1001100; w_store := example_store; w_chain := example_chain; w_index := ∅; w_sporks := after_message;
  w_main := true; w_shutdown := false; w_collateral := []; w_acceptable tx := (true, None); w_input_age o := 20; w_transaction h := Some (tx, u256 0);
  w_active := {| fMasterNode := false; active_vin := null_txin; active_pubKeyMasternode := [] |}; w_moves := true |}.

(** A finalized budget for block 6 with one payment and the vote of one masternode. *)
Definition example_payment : CTxBudgetPayment := {| nProposalHash := u256 70; payment_payee := [81]; payment_nAmount := 20 * COIN |}.
Definition example_fvote : CFinalizedBudgetVote := {| fv_fValid := true; fv_fSynced := false; fv_vin := voter 0; nBudgetHash := u256 7; fv_nTime := 1000; fv_vchSig := signer_signature |}.
Definition example_budget : CFinalizedBudget := {| fAutoChecked := false; fb_fValid := true; strBudgetName := [109]; fb_nBlockStart := 6; vecBudgetPayments := [example_payment];
  fb_mapVotes := {[u256 1 := example_fvote]}; fb_nFeeTXHash := u256 8; fb_nTime := 900 |}.
Definition one_budget : CBudgetManager := set_finalized {[u256 7 := example_budget]} no_budgets.

(** A stake that mints a million coins beside the payment. *)
Definition greedy_outputs : list CTxOut := [null_txout; {| nValue := 1000000 * COIN; scriptPubKey := [83] |}].
Definition greedy_stake : CTransaction := {| tx_nVersion := 1; vin := []; vout := greedy_outputs ++ [{| nValue := 20 * COIN; scriptPubKey := [81] |}]; nLockTime := 0 |}.
Definition budget_node : NodeView := {| networkID := MAIN; fEnabled := true; mapCheckpoints := []; nScriptCheckThreads := 0; block_heights := fun _ => None;
  chain_tip := Some (u256 9, 5); masternode_synced := true; superblocks_enabled := true; IsBudgetPaymentBlock := fun _ => true |}.

Lemma budget_block_mints_anything_witness :
  IsBlockValueValid budget_node (u256 9) (20 * COIN) (1000020 * COIN) = true /\
  exists m' b', IsBlockPayeeValid MAIN mainParams (budget_world no_outputs) true [greedy_stake] (Height (w_chain (budget_world no_outputs)) + 1) ten_masternodes no_payments one_budget = Some (m', b', true).
Proof.
  assert (T : is_Some (Tip (w_chain (budget_world no_outputs)))) by (vm_compute; eauto).
  assert (Hn : 10 <= (enabled (budget_world no_outputs) ten_masternodes).2) by (vm_compute; discriminate).
  assert (Hb : (bud_IsBudgetPaymentBlock (budget_world no_outputs) (Height (w_chain (budget_world no_outputs)) + 1) ten_masternodes one_budget).2 = true) by (vm_compute; reflexivity).
  assert (Hf : forall k f payment, mapFinalizedBudgets one_budget !! k = Some f -> GetBudgetPaymentByBlock f (Height (w_chain (budget_world no_outputs)) + 1) = Some payment ->
    mapPayment_History one_budget !! nProposalHash payment = None /\ forall out, out ∈ greedy_outputs -> pays_exactly payment out = false).
  { intros k f payment E Ep. cbn [one_budget set_finalized set_main mapFinalizedBudgets] in E. apply lookup_singleton_Some in E as [_ <-]. vm_compute in Ep. injection Ep as <-. split; [apply lookup_empty|].
    intros out I. unfold greedy_outputs in I. rewrite !elem_of_cons in I. destruct I as [->|[->|I]]; [vm_compute; reflexivity..|]. destruct (not_elem_of_nil _ I). }
  assert (S13 : IsSporkActive (w_sporks (budget_world no_outputs)) (w_time (budget_world no_outputs)) SPORK_13_ENABLE_SUPERBLOCKS = true) by (vm_compute; reflexivity).
  assert (Ev : vout greedy_stake = bud_FillBlockPayee MAIN mainParams (budget_world no_outputs) true greedy_outputs one_budget) by (vm_compute; reflexivity).
  assert (Et : [greedy_stake] !! (if LAST_POW_BLOCK mainParams <? Height (w_chain (budget_world no_outputs)) + 1 then 1%nat else 0%nat) = Some greedy_stake) by (vm_compute; reflexivity).
  assert (Ec : chain_tip budget_node = Some (u256 9, Height (w_chain (budget_world no_outputs)))) by (vm_compute; reflexivity).
  assert (Wh : wf256 (u256 9)) by (apply wf_u256; split; [discriminate|reflexivity]).
  assert (Eb : IsBudgetPaymentBlock budget_node (Height (w_chain (budget_world no_outputs)) + 1) = (bud_IsBudgetPaymentBlock (budget_world no_outputs) (Height (w_chain (budget_world no_outputs)) + 1) ten_masternodes one_budget).2) by (vm_compute; reflexivity).
  exact (budget_block_mints_anything MAIN mainParams (budget_world no_outputs) budget_node (u256 9) greedy_outputs greedy_stake [greedy_stake] ten_masternodes no_payments one_budget
    (20 * COIN) (1000020 * COIN) T Hn Hb Hf S13 Ev Et Ec Wh eq_refl eq_refl Eb).
Defined.

Lemma budget_block_rechecked_witness :
  exists m1 b1, IsBlockPayeeValid MAIN mainParams (budget_world no_outputs) true [greedy_stake] 6 ten_masternodes six_votes one_budget = Some (m1, b1, true) /\
    exists m2, IsBlockPayeeValid MAIN mainParams (budget_world no_outputs) true [greedy_stake] 6 m1 six_votes b1 =
      Some (m2, b1, if (pay_IsTransactionValid MAIN mainParams (budget_world no_outputs) greedy_stake 6 m1 six_votes).2 then true
        else negb (IsSporkActive (w_sporks (budget_world no_outputs)) (w_time (budget_world no_outputs)) SPORK_8_MASTERNODE_PAYMENT_ENFORCEMENT)).
Proof.
  set (r := bud_IsTransactionValid (budget_world no_outputs) greedy_stake 6 ten_masternodes one_budget). exists r.1.1, r.1.2.
  assert (S13 : IsSporkActive (w_sporks (budget_world no_outputs)) (w_time (budget_world no_outputs)) SPORK_13_ENABLE_SUPERBLOCKS = true) by (vm_compute; reflexivity).
  assert (Et : [greedy_stake] !! (if LAST_POW_BLOCK mainParams <? 6 then 1%nat else 0%nat) = Some greedy_stake) by (vm_compute; reflexivity).
  assert (Hb : (bud_IsBudgetPaymentBlock (budget_world no_outputs) 6 ten_masternodes one_budget).2 = true) by (vm_compute; reflexivity).
  assert (Ev : bud_IsTransactionValid (budget_world no_outputs) greedy_stake 6 ten_masternodes one_budget = (r.1.1, r.1.2, Valid)).
  { assert (S : r.2 = Valid) by (vm_compute; reflexivity). rewrite <- S. unfold r. by destruct (bud_IsTransactionValid _ _ _ _ _) as [[? ?] ?]. }
  exact (budget_block_rechecked MAIN mainParams (budget_world no_outputs) (u256 7) example_budget [greedy_stake] greedy_stake 6 ten_masternodes six_votes one_budget r.1.1 r.1.2 eq_refl S13 Et Hb Ev).
Defined.

(** Two proposals that do not fit together; the collateral is that of the first. *)
Definition example_vote (i : nat) (h : uint256) : CBudgetVote := {| bv_fValid := true; bv_fSynced := false; bv_vin := voter i; bv_nProposalHash := h; nVote := VOTE_YES; bv_nTime := 1000; bv_vchSig := signer_signature |}.
Definition example_proposal (n amount : Z) : CBudgetProposal := {| nAlloted := 0; pr_fValid := true; strProposalName := [n]; strURL := []; pr_nBlockStart := 43200; nBlockEnd := 90000;
  nAmount := amount; address := [81]; pr_nTime := 900; pr_nFeeTXHash := u256 n; pr_mapVotes := ∅ |}.
Definition voted_proposal (n amount : Z) (voters : nat) (p : CBudgetProposal) : CBudgetProposal :=
  pr_with 0 true (list_to_map (map (fun i => (u256 (Z.of_nat i), example_vote i (u256 n))) (seq 0 voters))) 900 p.
Definition two_proposals : CBudgetManager := set_proposals (list_to_map [(u256 1, voted_proposal 1 0 2 (example_proposal 1 (60000 * COIN))); (u256 2, voted_proposal 2 0 3 (example_proposal 2 (50000 * COIN)))]) no_budgets.

Lemma GetBudget_correct_witness : @choice_spec merge_sort_down signer_keys signer_recovery MAIN mainParams (budget_world no_outputs) ten_masternodes two_proposals.
Proof.
  assert (E : enabled (budget_world no_outputs) ten_masternodes = (ten_masternodes, (enabled (budget_world no_outputs) ten_masternodes).2)) by (vm_compute; reflexivity).
  assert (T : is_Some (Tip (w_chain (budget_world no_outputs)))) by (vm_compute; eauto).
  assert (A : forall k p, mapProposals two_proposals !! k = Some p -> 0 <= nAmount p < 2 ^ 62).
  { intros k p. cbn [two_proposals set_proposals set_main mapProposals list_to_map foldr uncurry fst snd]. rewrite !lookup_insert_Some, lookup_empty. intros [[_ <-]|[_ [[_ <-]|[_ [=]]]]]; vm_compute; split; (discriminate || reflexivity). }
  exact (@GetBudget_correct merge_sort_down merge_sort_down_laws signer_keys signer_recovery MAIN mainParams (budget_world no_outputs) ten_masternodes two_proposals E T A).
Defined.

Example example_choice : map (fun e => nAmount e.2) (@GetBudget merge_sort_down signer_keys signer_recovery MAIN mainParams (budget_world no_outputs) ten_masternodes two_proposals).2 = [50000 * COIN].
Proof. vm_compute. reflexivity. Qed.

(** A proposal arrives with its collateral, then a vote for it. *)
Definition new_proposal : CBudgetProposal := example_proposal 1 (60000 * COIN).
Definition collateral_world : World := budget_world {| tx_nVersion := 1; vin := []; vout := [{| nValue := 50 * COIN; scriptPubKey := find_script (pr_GetHash new_proposal) |}]; nLockTime := 0 |}.
Definition a_vote : CBudgetVote := example_vote 0 (pr_GetHash new_proposal).
Definition after_proposal : CBudgetManager := (process_mprop MAIN mainParams (fun _ => 6) collateral_world new_proposal ten_masternodes no_budgets).2.
Definition after_vote : CBudgetManager := (process_mvote signer_keys signer_recovery collateral_world true a_vote ten_masternodes after_proposal).1.2.

Lemma budget_votes_signed_witness :
  (forall P p, mapProposals after_vote !! P = Some p -> pr_GetHash p = P /\
     (forall k v, pr_mapVotes p !! k = Some v -> bv_nProposalHash v = P /\ vote_src signer_keys signer_recovery [got_vote ten_masternodes a_vote] v) /\
     forall k1 k2 v1 v2, pr_mapVotes p !! k1 = Some v1 -> pr_mapVotes p !! k2 = Some v2 -> prevout (bv_vin v1) = prevout (bv_vin v2) -> k1 = k2) /\
  (forall P f, mapFinalizedBudgets after_vote !! P = Some f -> fb_GetHash f = P /\
     (forall k v, fb_mapVotes f !! k = Some v -> nBudgetHash v = P /\ fvote_src signer_keys signer_recovery [got_vote ten_masternodes a_vote] v) /\
     forall k1 k2 v1 v2, fb_mapVotes f !! k1 = Some v1 -> fb_mapVotes f !! k2 = Some v2 -> prevout (fv_vin v1) = prevout (fv_vin v2) -> k1 = k2).
Proof.
  assert (Hist : @budget_history merge_sort_down signer_keys signer_recovery no_text MAIN mainParams (fun _ => 6) [got_vote ten_masternodes a_vote] after_vote).
  { apply bud_mvote. apply bud_mprop; [apply bud_start|reflexivity]. }
  exact (@budget_votes_signed merge_sort_down signer_keys signer_recovery no_text MAIN mainParams (fun _ => 6) _ _ Hist).
Defined.
