(* ===== verification/PartialMerkle.v ===== *)
(** Partial Merkle trees (merkleblock.h, merkleblock.cpp): the proof that some of the
    transactions of a block are in it, sent to lightweight clients.

    The nodes of the tree are visited depth first; a bit tells for each whether a match is
    below it and a hash is stored where the visit stops.  Heights, positions and counts are
    [nat], as in [Merkle]: for the numbers of transactions that [ExtractMatches] admits no
    [unsigned int] of the code wraps. *)

From S2P Require Import Prelude Uint256 Arith256 Serialize Hashes Transaction Merkle Validation.

#[local] Abbreviation length := Datatypes.length.

(** * Data and operations *)

Record CPartialMerkleTree := {
  nTransactions : nat;
  vBits : list bool;
  vHash : list uint256;
  fBad : bool
}.

Definition CalcTreeWidth (nTransactions height : nat) : nat := ((nTransactions + 2 ^ height - 1) / 2 ^ height)%nat.

(** [None] for a read past the end of [vTxid]. *)
Fixpoint CalcHash (nTransactions height pos : nat) (vTxid : list uint256) : option uint256 :=
  match height with
  | O => vTxid !! pos
  | S height =>
      l ← CalcHash nTransactions height (pos * 2) vTxid;
      r ← (if (pos * 2 + 1 <? CalcTreeWidth nTransactions height)%nat
               then CalcHash nTransactions height (pos * 2 + 1) vTxid else Some l);
      Some (merkle_hash l r)
  end.

(** The loop over the leaves below a node. *)
Definition parent_of_match (nTransactions height pos : nat) (vMatch : list bool) : bool :=
  existsb (fun p => (p <? nTransactions)%nat && nth p vMatch false) (seq (pos * 2 ^ height) (2 ^ height)).

(** The bits and hashes added to [vBits] and [vHash]. *)
Fixpoint TraverseAndBuild (nTransactions height pos : nat) (vTxid : list uint256) (vMatch : list bool)
  : option (list bool * list uint256) :=
  let fParentOfMatch := parent_of_match nTransactions height pos vMatch in
  let store := h ← CalcHash nTransactions height pos vTxid; Some ([fParentOfMatch], [h]) in
  match height with
  | O => store
  | S height =>
      if negb fParentOfMatch then store
      else
        l ← TraverseAndBuild nTransactions height (pos * 2) vTxid vMatch;
        r ← (if (pos * 2 + 1 <? CalcTreeWidth nTransactions height)%nat
             then TraverseAndBuild nTransactions height (pos * 2 + 1) vTxid vMatch else Some ([], []));
        Some (fParentOfMatch :: l.1 ++ r.1, l.2 ++ r.2)
  end.

(** What [TraverseAndExtract] changes: [fBad], the counters and [vMatch]. *)
Record extract_state := {
  bad : bool;
  nBitsUsed : nat;
  nHashUsed : nat;
  matches : list uint256
}.

Definition set_bad (st : extract_state) : extract_state :=
  {| bad := true; nBitsUsed := nBitsUsed st; nHashUsed := nHashUsed st; matches := matches st |}.
Definition use_bit (st : extract_state) : extract_state :=
  {| bad := bad st; nBitsUsed := nBitsUsed st + 1; nHashUsed := nHashUsed st; matches := matches st |}.
(** A stored hash, which is a match or not. *)
Definition use_hash (m : bool) (hash : uint256) (st : extract_state) : extract_state :=
  {| bad := bad st; nBitsUsed := nBitsUsed st; nHashUsed := nHashUsed st + 1;
     matches := if m then matches st ++ [hash] else matches st |}.

Definition take_hash (t : CPartialMerkleTree) (m : bool) (st : extract_state) : uint256 * extract_state :=
  match vHash t !! nHashUsed st with
  | None => (zero W256, set_bad st)
  | Some hash => (hash, use_hash m hash st)
  end.

Fixpoint TraverseAndExtract (t : CPartialMerkleTree) (height pos : nat) (st : extract_state) : uint256 * extract_state :=
  match vBits t !! nBitsUsed st with
  | None => (zero W256, set_bad st)
  | Some fParentOfMatch =>
      let st := use_bit st in
      match height with
      | O => take_hash t fParentOfMatch st
      | S height =>
          if negb fParentOfMatch then take_hash t false st
          else
            let '(l, st) := TraverseAndExtract t height (pos * 2) st in
            let '(r, st) :=
              if (pos * 2 + 1 <? CalcTreeWidth (nTransactions t) height)%nat
              then TraverseAndExtract t height (pos * 2 + 1) st else (l, st) in
            (merkle_hash l r, st)
      end
  end.

(** [while (CalcTreeWidth(nHeight) > 1) nHeight++]; [None] when the fuel runs out. *)
Fixpoint height_loop (fuel n nHeight : nat) : option nat :=
  match fuel with
  | O => None
  | S fuel => if (1 <? CalcTreeWidth n nHeight)%nat then height_loop fuel n (S nHeight) else Some nHeight
  end.

Definition tree_height (n : nat) : option nat := height_loop (S (Nat.log2_up n)) n 0.

(** The constructor from a list of transaction ids and a mask. *)
Definition build_tree (vTxid : list uint256) (vMatch : list bool) : option CPartialMerkleTree :=
  let n := length vTxid in
  nHeight ← tree_height n;
  bh ← TraverseAndBuild n nHeight 0 vTxid vMatch;
  Some {| nTransactions := n; vBits := bh.1; vHash := bh.2; fBad := false |}.

Definition empty_tree : CPartialMerkleTree := {| nTransactions := 0; vBits := []; vHash := []; fBad := true |}.

(** The root, or 0, the matches and [fBad] afterwards; [None] when the loop for the
    height does not end. *)
Definition ExtractMatches (t : CPartialMerkleTree) : option (uint256 * list uint256 * bool) :=
  if (nTransactions t =? 0)%nat then Some (zero W256, [], fBad t)
  else if (Z.to_nat (MAX_BLOCK_SIZE / 60) <? nTransactions t)%nat then Some (zero W256, [], fBad t)
  else if (nTransactions t <? length (vHash t))%nat then Some (zero W256, [], fBad t)
  else if (length (vBits t) <? length (vHash t))%nat then Some (zero W256, [], fBad t)
  else
    nHeight ← tree_height (nTransactions t);
    let '(hashMerkleRoot, st) :=
      TraverseAndExtract t nHeight 0 {| bad := fBad t; nBitsUsed := 0; nHashUsed := 0; matches := [] |} in
    let root :=
      if bad st then zero W256
      else if negb ((nBitsUsed st + 7) / 8 =? (length (vBits t) + 7) / 8)%nat then zero W256
      else if negb (nHashUsed st =? length (vHash t))%nat then zero W256
      else hashMerkleRoot in
    Some (root, matches st, bad st).

(** ** Serialization *)

(** [vBytes[p / 8] |= vBits[p] << (p % 8)] and back. *)
Definition bits_byte (vBits : list bool) (i : nat) : Z :=
  fold_left (fun b p => Z.lor b (Z.shiftl (if nth (8 * i + p) vBits false then 1 else 0) (Z.of_nat p))) (seq 0 8) 0.
Definition pack_bits (vBits : list bool) : byte_list := map (bits_byte vBits) (seq 0 ((length vBits + 7) / 8)).
Definition unpack_bits (vBytes : byte_list) : list bool :=
  vBytes ≫= fun b => map (fun p => negb (Z.land b (Z.shiftl 1 (Z.of_nat p)) =? 0)) (seq 0 8).

Local Open Scope result_scope.

Definition c_tree_parts : codec (Z * list uint256 * byte_list) := c_pair (c_pair (c_uint 4) (c_vector c_uint256)) c_bytes.

Definition tree_Serialize (t : CPartialMerkleTree) : byte_list :=
  enc c_tree_parts (Z.of_nat (nTransactions t), vHash t, pack_bits (vBits t)).

Definition tree_Unserialize : reader CPartialMerkleTree := fun bs =>
  r <-! dec c_tree_parts bs ;;
  let '(n, hashes, vBytes) := r.1 in
  Ok ({| nTransactions := Z.to_nat n; vBits := unpack_bits vBytes; vHash := hashes; fBad := false |}, r.2).

(** * Lemmas *)

(** The nodes at a height, the leaves at height 0. *)
Definition level (l : list uint256) (height : nat) : list uint256 := Nat.iter height parents l.

Lemma level_S l h : level l (S h) = parents (level l h).
Proof. done. Qed.

Lemma length_level l h : length (level l h) = CalcTreeWidth (length l) h.
Proof.
  unfold CalcTreeWidth. induction h as [|h IH].
  - change (level l 0) with l. change (2 ^ 0)%nat with 1%nat. rewrite Nat.div_1_r. lia.
  - rewrite level_S, length_parents, IH. pose proof (Nat.pow_nonzero 2 h ltac:(lia)).
    rewrite Nat.pow_succ_r'. set (k := (2 ^ h)%nat) in *.
    replace ((length l + k - 1) / k + 1)%nat with ((length l + k - 1 + 1 * k) / k)%nat by (by rewrite Nat.div_add).
    rewrite Nat.Div0.div_div, (Nat.mul_comm k). f_equal. lia.
Qed.

Lemma level_node l h pos :
  (pos < length (level l (S h)))%nat ->
  nth pos (level l (S h)) (zero W256) =
    merkle_hash (nth (pos * 2) (level l h) (zero W256))
      (nth (if (pos * 2 + 1 <? length (level l h))%nat then pos * 2 + 1 else pos * 2) (level l h) (zero W256)) /\
  (pos * 2 < length (level l h))%nat /\
  (nth (pos * 2) (level l h) (zero W256),
   nth (if (pos * 2 + 1 <? length (level l h))%nat then pos * 2 + 1 else pos * 2) (level l h) (zero W256)) ∈ pairs (level l h).
Proof.
  rewrite level_S. generalize (level l h). clear l h. intros l Hp. rewrite length_parents in Hp.
  assert (Hl : (pos * 2 < length l)%nat).
  { pose proof (Nat.div_mod_eq (length l + 1) 2). pose proof (Nat.mod_upper_bound (length l + 1) 2). lia. }
  pose proof (pairs_lookup l (pos * 2) Hl) as P.
  assert (O : Nat.odd (pos * 2) = false) by (rewrite Nat.mul_comm; unfold Nat.odd; by rewrite Nat.even_mul).
  rewrite O, Nat.div_mul in P by lia. unfold sibling in P. unfold Nat.odd in O. apply negb_false_iff in O. rewrite O in P.
  replace (Nat.min (pos * 2 + 1) (length l - 1))%nat with (if (pos * 2 + 1 <? length l)%nat then pos * 2 + 1 else pos * 2)%nat in P
    by (destruct (Nat.ltb_spec (pos * 2 + 1) (length l)); lia).
  split; [by rewrite (parents_lookup l pos _ P)|]. split; [done|]. by apply list_elem_of_lookup_2 in P.
Qed.

Lemma CalcHash_level l h : forall pos,
  (pos < CalcTreeWidth (length l) h)%nat -> CalcHash (length l) h pos l = Some (nth pos (level l h) (zero W256)).
Proof.
  induction h as [|h IH]; intros pos Hp; rewrite <- length_level in Hp; cbn [CalcHash].
  - by apply list_lookup_nth.
  - destruct (level_node l h pos Hp) as (E & Hl & _). rewrite length_level in E, Hl. rewrite (IH (pos * 2)%nat) by done. cbn [mbind option_bind].
    revert E. destruct (Nat.ltb_spec (pos * 2 + 1) (CalcTreeWidth (length l) h)); [rewrite (IH (pos * 2 + 1)%nat) by done|]; cbn [mbind option_bind]; by intros ->.
Qed.

(** The root is the only node of the last level. *)
Lemma root_level fuel : forall l h,
  (0 < length l)%nat -> (length l <= fuel)%nat -> length (level l h) = 1%nat ->
  (forall h', (h' < h)%nat -> (1 < length (level l h'))%nat) ->
  back (zero W256) (concat (l :: levels_above fuel l)) = nth 0 (level l h) (zero W256).
Proof.
  induction fuel as [|f IH]; intros l h H0 Hf H1 Hh; [lia|]. destruct h as [|h].
  - change (level l 0) with l in *. destruct l as [|x [|]]; [cbn in *; lia|by destruct f|done].
  - specialize (Hh 0%nat ltac:(lia)) as H2. change (level l 0) with l in H2. rewrite root_above by done.
    assert (Ln : forall k, level l (S k) = level (parents l) k) by (intros k; apply Nat.iter_succ_r).
    rewrite Ln in *. pose proof (half_up_lt _ H2). apply IH; rewrite ?length_parents; [apply half_up_pos; lia|lia|done|].
    intros h' Hlt. rewrite <- Ln. apply Hh. lia.
Qed.

Lemma CalcTreeWidth_pos n h : (0 < n -> 0 < CalcTreeWidth n h)%nat.
Proof. intros. pose proof (Nat.pow_nonzero 2 h ltac:(lia)). apply Nat.div_str_pos. lia. Qed.

Lemma CalcTreeWidth_small n h : (n <= 2 ^ h -> CalcTreeWidth n h <= 1)%nat.
Proof.
  intros. pose proof (Nat.pow_nonzero 2 h ltac:(lia)). unfold CalcTreeWidth.
  apply Nat.lt_succ_r, Nat.Div0.div_lt_upper_bound. lia.
Qed.

Lemma height_loop_spec fuel : forall n h,
  (0 < n)%nat -> (Nat.log2_up n < h + fuel)%nat -> (h <= Nat.log2_up n)%nat -> (forall h', (h' < h)%nat -> (1 < CalcTreeWidth n h')%nat) ->
  exists H, height_loop fuel n h = Some H /\ CalcTreeWidth n H = 1%nat /\ (forall h', (h' < H)%nat -> (1 < CalcTreeWidth n h')%nat).
Proof.
  induction fuel as [|f IH]; intros n h Hn Hf Hle Hh; [lia|]. cbn [height_loop].
  destruct (Nat.ltb_spec 1 (CalcTreeWidth n h)) as [E|E].
  - assert (h <> Nat.log2_up n).
    { intros ->. pose proof (CalcTreeWidth_small n (Nat.log2_up n)). destruct (decide (n = 1%nat)) as [->|]; [cbn in *; lia|].
      pose proof (Nat.log2_up_spec n ltac:(lia)). lia. }
    apply IH; [done|lia|lia|]. intros h' Hlt. destruct (decide (h' = h)) as [->|]; [done|]. apply Hh. lia.
  - exists h. split; [done|]. split; [|done]. pose proof (CalcTreeWidth_pos n h Hn). lia.
Qed.

Lemma tree_height_spec n :
  (0 < n)%nat -> exists H, tree_height n = Some H /\ CalcTreeWidth n H = 1%nat /\ (H <= Nat.log2_up n)%nat /\
    (forall h', (h' < H)%nat -> (1 < CalcTreeWidth n h')%nat).
Proof.
  intros Hn. destruct (height_loop_spec (S (Nat.log2_up n)) n 0) as (H & E & E1 & Hh); [done|lia|lia|lia|].
  exists H. split_and!; [done|done| |done]. destruct (decide (H <= Nat.log2_up n)%nat) as [|Hgt]; [done|].
  specialize (Hh (Nat.log2_up n) ltac:(lia)). pose proof (CalcTreeWidth_small n (Nat.log2_up n)) as Hs.
  destruct (decide (n = 1%nat)) as [->|]; [cbn in *; lia|]. pose proof (Nat.log2_up_spec n ltac:(lia)). lia.
Qed.

Lemma tree_root l H :
  (0 < length l)%nat -> CalcTreeWidth (length l) H = 1%nat -> (forall h', (h' < H)%nat -> (1 < CalcTreeWidth (length l) h')%nat) ->
  nth 0 (level l H) (zero W256) = merkle_root l.
Proof.
  intros Hl H1 Hh. symmetry. apply root_level; [done|done|by rewrite length_level|]. intros h' ?. rewrite length_level. auto.
Qed.

(** ** Building, then extracting *)

(** The leaves below a node, and those of them that match. *)
Definition leaves {A} (l : list A) (height pos : nat) : list A := take (2 ^ height) (drop (pos * 2 ^ height) l).

Lemma leaves_S {A} (l : list A) h pos : leaves l (S h) pos = leaves l h (pos * 2) ++ leaves l h (pos * 2 + 1).
Proof.
  unfold leaves. rewrite Nat.pow_succ_r'. set (k := (2 ^ h)%nat).
  replace (2 * k)%nat with (k + k)%nat by lia. rewrite <- take_take_drop, drop_drop. f_equal; f_equal; f_equal; lia.
Qed.

Lemma leaves_beyond {A} (l : list A) h pos : (CalcTreeWidth (length l) h <= pos)%nat -> leaves l h pos = [].
Proof.
  intros Hp. unfold leaves. rewrite drop_ge; [apply take_nil|]. unfold CalcTreeWidth in Hp.
  pose proof (Nat.pow_nonzero 2 h ltac:(lia)). pose proof (Nat.div_mod_eq (length l + 2 ^ h - 1) (2 ^ h)).
  pose proof (Nat.mod_upper_bound (length l + 2 ^ h - 1) (2 ^ h)). nia.
Qed.

Lemma leaves_length {A B} (l : list A) (m : list B) h pos :
  length l = length m -> length (leaves l h pos) = length (leaves m h pos).
Proof. intros E. unfold leaves. rewrite !length_take, !length_drop. lia. Qed.

Lemma leaves_top {A} (l : list A) h : (length l <= 2 ^ h)%nat -> leaves l h 0 = l.
Proof. intros Hl. unfold leaves. cbn [Nat.mul drop]. by apply take_ge. Qed.

Definition selected (l : list uint256) (m : list bool) : list uint256 := map fst (filter (fun p => p.2 = true) (zip l m)).

Lemma selected_app l1 l2 m1 m2 : length l1 = length m1 -> selected (l1 ++ l2) (m1 ++ m2) = selected l1 m1 ++ selected l2 m2.
Proof. intros E. unfold selected. by rewrite zip_with_app, filter_app, map_app. Qed.

Lemma selected_none l m : existsb id m = false -> selected l m = [].
Proof.
  revert m. induction l as [|x l IH]; intros [|b m]; try done. cbn. intros [-> E]%orb_false_iff.
  by apply IH.
Qed.

Lemma parent_of_match_leaves n h pos m :
  length m = n -> parent_of_match n h pos m = existsb id (leaves m h pos).
Proof.
  intros Hm. unfold parent_of_match, leaves. apply eq_true_iff_eq. rewrite !existsb_exists. split.
  - intros (p & Hp & E). apply in_seq in Hp. apply andb_true_iff in E as [E1 E2]. exists true. split; [|done].
    apply list_elem_of_In, list_elem_of_lookup. exists (p - pos * 2 ^ h)%nat. rewrite lookup_take_lt, lookup_drop by lia.
    replace (pos * 2 ^ h + (p - pos * 2 ^ h))%nat with p by lia. rewrite <- E2. apply list_lookup_nth. apply Nat.ltb_lt in E1. by rewrite Hm.
  - intros (b & Hb & E). unfold id in E. subst b. apply list_elem_of_In, list_elem_of_lookup in Hb as [i Hi].
    pose proof (lookup_lt_Some _ _ _ Hi) as Hl. rewrite length_take, length_drop in Hl.
    rewrite lookup_take_lt, lookup_drop in Hi by lia. exists (pos * 2 ^ h + i)%nat. split; [apply in_seq; lia|].
    apply andb_true_iff. split; [apply Nat.ltb_lt; lia|]. by apply nth_lookup_Some.
Qed.

(** The state after a visit that used the given bits and hashes and found the matches. *)
Definition after (bits : list bool) (hashes ms : list uint256) (st : extract_state) : extract_state :=
  {| bad := bad st; nBitsUsed := nBitsUsed st + length bits; nHashUsed := nHashUsed st + length hashes; matches := matches st ++ ms |}.

Lemma after_after b1 h1 m1 b2 h2 m2 st : after b2 h2 m2 (after b1 h1 m1 st) = after (b1 ++ b2) (h1 ++ h2) (m1 ++ m2) st.
Proof. unfold after. cbn. rewrite !length_app, !Nat.add_assoc, <- app_assoc. done. Qed.

(** What is next in the tree: the bits and the hashes. *)
Definition next_in (t : CPartialMerkleTree) (st : extract_state) (bits : list bool) (hashes : list uint256) : Prop :=
  (exists rest, drop (nBitsUsed st) (vBits t) = bits ++ rest) /\ (exists rest, drop (nHashUsed st) (vHash t) = hashes ++ rest).

Lemma next_in_app t st b1 b2 h1 h2 ms :
  next_in t st (b1 ++ b2) (h1 ++ h2) -> next_in t st b1 h1 /\ next_in t (after b1 h1 ms st) b2 h2.
Proof.
  intros [[rb Eb] [rh Eh]]. rewrite <- app_assoc in Eb, Eh. split; [split; eauto|]. unfold next_in. cbn.
  rewrite <- !drop_drop, Eb, Eh, !drop_app_length. eauto.
Qed.

Lemma next_in_bit t st b bits hashes : next_in t st (b :: bits) hashes -> vBits t !! nBitsUsed st = Some b /\ next_in t (after [b] [] [] st) bits hashes.
Proof.
  intros N. split; [|by apply (next_in_app t st [b] bits [] hashes [])]. destruct N as [[r E] _].
  rewrite <- (Nat.add_0_r (nBitsUsed st)), <- lookup_drop, E. done.
Qed.

Lemma take_hash_next t m st h hashes :
  next_in t st [] (h :: hashes) -> take_hash t m st = (h, after [] [h] (if m then [h] else []) st).
Proof.
  intros [_ [r E]]. unfold take_hash. rewrite <- (Nat.add_0_r (nHashUsed st)), <- lookup_drop, E. cbn.
  unfold use_hash, after. cbn. rewrite Nat.add_0_r. by destruct m; rewrite ?app_nil_r.
Qed.

Lemma use_bit_after b st : use_bit st = after [b] [] [] st.
Proof. unfold use_bit, after. cbn. by rewrite Nat.add_0_r, app_nil_r. Qed.

(** Building a node succeeds; extracting it gives back its hash and its matches. *)
Lemma build_extract l m h : forall pos,
  length m = length l -> (pos < CalcTreeWidth (length l) h)%nat ->
  exists bits hashes, TraverseAndBuild (length l) h pos l m = Some (bits, hashes) /\
    (length hashes <= length bits)%nat /\ (length hashes <= length (leaves l h pos))%nat /\
    forall t st, nTransactions t = length l -> next_in t st bits hashes ->
      TraverseAndExtract t h pos st =
        (nth pos (level l h) (zero W256), after bits hashes (selected (leaves l h pos) (leaves m h pos)) st).
Proof.
  induction h as [|h IH]; intros pos Hm Hp; pose proof (CalcHash_level l _ pos Hp) as C;
    cbn [TraverseAndBuild]; rewrite (parent_of_match_leaves (length l) _ pos m Hm).
  - rewrite C. cbn [mbind option_bind]. eexists _, _. split; [reflexivity|].
    assert (Hl : (pos < length l)%nat) by (rewrite <- length_level in Hp; exact Hp).
    assert (E : forall A (x : list A) d, (pos < length x)%nat -> leaves x 0 pos = [nth pos x d]).
    { intros A x d Hx. unfold leaves. change (2 ^ 0)%nat with 1%nat. rewrite Nat.mul_1_r.
      rewrite (drop_S _ (nth pos x d) pos) by (by apply list_lookup_nth). done. }
    rewrite (E _ l (zero W256)), (E _ m false) by lia. cbn [length].
    split; [done|]. split; [done|]. intros t st Ht N. apply next_in_bit in N as [Nb N]. cbn [TraverseAndExtract].
    rewrite Nb. rewrite (use_bit_after (existsb id [nth pos m false]) st), (take_hash_next _ _ _ _ _ N).
    rewrite after_after. cbn [existsb id app]. rewrite orb_false_r. unfold id. f_equal. f_equal.
    by destruct (nth pos m false).
  - destruct (existsb id (leaves m (S h) pos)) eqn:F; cbn [negb].
    2: { rewrite C. cbn [mbind option_bind]. eexists _, _. split; [reflexivity|]. cbn [length].
         split; [done|]. split.
         { unfold leaves. rewrite length_take, length_drop. unfold CalcTreeWidth in Hp. pose proof (Nat.pow_nonzero 2 (S h) ltac:(lia)).
           pose proof (Nat.div_mod_eq (length l + 2 ^ S h - 1) (2 ^ S h)). nia. }
         intros t st Ht N. apply next_in_bit in N as [Nb N]. cbn [TraverseAndExtract]. rewrite Nb. cbn [negb].
         rewrite (use_bit_after false st), (take_hash_next _ _ _ _ _ N), after_after, selected_none by done. done. }
    rewrite <- length_level in Hp. destruct (level_node l h pos Hp) as (En & Hl & _). rewrite length_level in En, Hl.
    destruct (IH (pos * 2)%nat Hm Hl) as (b1 & h1 & B1 & L1 & M1 & X1). rewrite B1. cbn [mbind option_bind].
    rewrite (leaves_S l), (leaves_S m). revert En.
    destruct (Nat.ltb_spec (pos * 2 + 1) (CalcTreeWidth (length l) h)) as [Hr|Hr]; intros En.
    + destruct (IH (pos * 2 + 1)%nat Hm Hr) as (b2 & h2 & B2 & L2 & M2 & X2). rewrite B2. cbn [mbind option_bind fst snd].
      eexists _, _. split; [reflexivity|]. cbn [length]. rewrite !length_app. split; [lia|]. split; [lia|].
      intros t st Ht N. apply next_in_bit in N as [Nb N]. cbn [TraverseAndExtract]. rewrite Nb. cbn [negb].
      rewrite (use_bit_after true st).
      apply (next_in_app _ _ _ _ _ _ (selected (leaves l h (pos * 2)) (leaves m h (pos * 2)))) in N as [N1 N2].
      rewrite (X1 _ _ Ht N1), Ht, (proj2 (Nat.ltb_lt _ _) Hr), (X2 _ _ Ht N2), !after_after, <- En.
      by rewrite selected_app by (by apply leaves_length).
    + cbn [mbind option_bind fst snd]. rewrite !app_nil_r. eexists _, _. split; [reflexivity|]. cbn [length].
      rewrite length_app. split; [lia|]. split; [lia|].
      intros t st Ht N. apply next_in_bit in N as [Nb N]. cbn [TraverseAndExtract]. rewrite Nb. cbn [negb].
      rewrite (use_bit_after true st), (X1 _ _ Ht N), Ht, (proj2 (Nat.ltb_ge _ _) Hr), after_after, <- En.
      rewrite selected_app by (by apply leaves_length). rewrite (leaves_beyond l h (pos * 2 + 1)) by done. by rewrite app_nil_r.
Qed.

Lemma width_one_leaves n h : CalcTreeWidth n h = 1%nat -> (n <= 2 ^ h)%nat.
Proof.
  unfold CalcTreeWidth. intros E. pose proof (Nat.pow_nonzero 2 h ltac:(lia)).
  pose proof (Nat.div_mod_eq (n + 2 ^ h - 1) (2 ^ h)). pose proof (Nat.mod_upper_bound (n + 2 ^ h - 1) (2 ^ h)). lia.
Qed.

(** A tree extracts what it was built from, with up to seven bits of padding too. *)
Lemma extract_built l m t pad :
  length m = length l -> (0 < length l)%nat -> Z.of_nat (length l) <= MAX_BLOCK_SIZE / 60 -> build_tree l m = Some t ->
  ((length (vBits t ++ pad) + 7) / 8 = (length (vBits t) + 7) / 8)%nat ->
  ExtractMatches {| nTransactions := nTransactions t; vBits := vBits t ++ pad; vHash := vHash t; fBad := false |}
    = Some (merkle_root l, selected l m, false).
Proof.
  intros Hm H0 Hmax. unfold build_tree. destruct (tree_height_spec (length l) H0) as (H & E & E1 & _ & Hh). rewrite E.
  cbn [mbind option_bind]. destruct (build_extract l m H 0 Hm) as (bits & hashes & B & L1 & L2 & X); [lia|].
  rewrite B. cbn [mbind option_bind fst snd]. intros [= <-]. cbn [vBits vHash nTransactions]. intros Hpad.
  unfold ExtractMatches. cbn [vBits vHash nTransactions fBad].
  rewrite (proj2 (Nat.eqb_neq _ _)) by lia. rewrite (proj2 (Nat.ltb_ge _ _)) by lia.
  assert (L3 : (length hashes <= length l)%nat) by (unfold leaves in L2; rewrite length_take, length_drop in L2; lia).
  rewrite (proj2 (Nat.ltb_ge _ _)) by done. rewrite (proj2 (Nat.ltb_ge _ _)) by (rewrite length_app; lia).
  rewrite E. cbn [mbind option_bind]. rewrite X; [|done|].
  2: { split; cbn; [by exists pad|exists []; by rewrite app_nil_r]. }
  cbn [bad after nBitsUsed nHashUsed matches app Nat.add]. rewrite Hpad, !Nat.eqb_refl. cbn [negb].
  rewrite (tree_root l H H0 E1 Hh), !leaves_top by (rewrite ?Hm; by apply width_one_leaves). done.
Qed.

Lemma built_ok l m :
  length m = length l -> (0 < length l)%nat -> exists t, build_tree l m = Some t /\ nTransactions t = length l /\
    (length (vHash t) <= length l)%nat /\ fBad t = false.
Proof.
  intros Hm H0. unfold build_tree. destruct (tree_height_spec (length l) H0) as (H & -> & E1 & _ & _). cbn [mbind option_bind].
  destruct (build_extract l m H 0 Hm) as (bits & hashes & -> & L1 & L2 & _); [lia|]. cbn [mbind option_bind fst snd].
  eexists. split; [reflexivity|]. split_and!; [done| |done]. unfold leaves in L2. rewrite length_take, length_drop in L2. cbn. lia.
Qed.

(** ** Serialization *)

Lemma CalcHash_wf n h l : Forall wf256 l -> forall pos x, CalcHash n h pos l = Some x -> wf256 x.
Proof.
  intros W. destruct h as [|h]; intros pos x E; cbn [CalcHash] in E; [by eapply Forall_lookup_1 in E|].
  apply bind_Some in E as (a & _ & E). apply bind_Some in E as (b & _ & E). apply Some_inj in E as <-. apply merkle_hash_wf.
Qed.

Lemma TraverseAndBuild_bounds n h l m : Forall wf256 l -> forall pos bits hashes,
  TraverseAndBuild n h pos l m = Some (bits, hashes) -> Forall wf256 hashes /\ (length bits < 2 ^ S h)%nat.
Proof.
  intros W. induction h as [|h IH]; intros pos bits hashes E; cbn [TraverseAndBuild] in E.
  - apply bind_Some in E as (x & C & [= <- <-]). apply CalcHash_wf in C; [|done]. split; [by constructor|cbn; lia].
  - pose proof (Nat.pow_nonzero 2 h ltac:(lia)) as P. rewrite !Nat.pow_succ_r'. destruct (negb _).
    + apply bind_Some in E as (x & C & [= <- <-]). apply CalcHash_wf in C; [|done]. split; [by constructor|cbn; lia].
    + apply bind_Some in E as ([b1 h1] & E1 & E). apply bind_Some in E as ([b2 h2] & E2 & [= <- <-]). cbn [fst snd].
      apply IH in E1 as [W1 L1]. rewrite Nat.pow_succ_r' in L1.
      assert (Forall wf256 h2 /\ (length b2 < 2 * 2 ^ h)%nat) as [W2 L2].
      { destruct (_ <? _)%nat; [apply IH in E2; by rewrite Nat.pow_succ_r' in E2|]. injection E2 as <- <-. split; [constructor|cbn; lia]. }
      split; [by apply Forall_app|]. cbn [length]. rewrite length_app. lia.
Qed.

Lemma bits_byte_bits v i :
  map (fun p => negb (Z.land (bits_byte v i) (Z.shiftl 1 (Z.of_nat p)) =? 0)) (seq 0 8) = map (fun p => nth (8 * i + p) v false) (seq 0 8) /\
  0 <= bits_byte v i < 256.
Proof.
  unfold bits_byte. cbn [seq fold_left map].
  repeat match goal with |- context [nth ?k v false] => generalize (nth k v false); intros ? end.
  repeat match goal with b : bool |- _ => destruct b end; (split; [reflexivity|split; done]).
Qed.

Lemma map_nth_seq {A} (v : list A) d k : forall a, map (fun p => nth p v d) (seq a k) = take k (drop a v) ++ replicate (k - length (drop a v)) d.
Proof.
  induction k as [|k IH]; intros a; [done|]. cbn [seq map]. rewrite IH. destruct (decide (a < length v)%nat) as [Ha|Ha].
  - rewrite (drop_S v (nth a v d) a) by (by apply list_lookup_nth). cbn [take app length Nat.sub]. done.
  - rewrite !drop_ge by lia. rewrite nth_overflow by lia. rewrite !take_nil. cbn. by rewrite Nat.sub_0_r.
Qed.

Lemma unpack_pack v :
  unpack_bits (pack_bits v) = v ++ replicate (8 * ((length v + 7) / 8) - length v) false /\ is_bytes (pack_bits v).
Proof.
  unfold pack_bits, unpack_bits. split.
  - transitivity (map (fun p => nth p v false) (seq 0 (8 * ((length v + 7) / 8)))).
    + generalize ((length v + 7) / 8)%nat. intros k. induction k as [|k IH]; [done|].
      rewrite (seq_S k 0), map_app, bind_app, IH. cbn [Nat.add map]. rewrite (Nat.mul_succ_r 8 k), (seq_app (8 * k) 8 0), map_app. f_equal.
      unfold mbind, list_bind. rewrite app_nil_r, (proj1 (bits_byte_bits v k)), Nat.add_0_l.
      replace (seq (8 * k) 8) with (seq (8 * k + 0) 8) by (by rewrite Nat.add_0_r). rewrite <- fmap_add_seq. symmetry. apply map_map.
    + rewrite map_nth_seq. rewrite drop_0. rewrite take_ge; [done|].
      pose proof (Nat.div_mod_eq (length v + 7) 8). pose proof (Nat.mod_upper_bound (length v + 7) 8 ltac:(lia)). lia.
  - apply Forall_map, Forall_forall. intros i _. cbn. apply bits_byte_bits.
Qed.

Lemma tree_serialization t rest :
  Z.of_nat (nTransactions t) < 2 ^ 32 -> Forall wf256 (vHash t) -> Z.of_nat (length (vHash t)) <= MAX_SIZE ->
  Z.of_nat (length (vBits t)) <= MAX_SIZE ->
  tree_Unserialize (tree_Serialize t ++ rest) =
    Ok ({| nTransactions := nTransactions t; vBits := vBits t ++ replicate (8 * ((length (vBits t) + 7) / 8) - length (vBits t)) false;
           vHash := vHash t; fBad := false |}, rest).
Proof.
  intros Hn Hw Hh Hb. destruct (unpack_pack (vBits t)) as [E B]. unfold tree_Unserialize, tree_Serialize.
  rewrite lawful; [cbn [rbind fst snd]; by rewrite E, Nat2Z.id|].
  split; [split; [change (0 <= Z.of_nat (nTransactions t) < 2 ^ 32); lia|by split]|]. split; [done|].
  change (Z.of_nat (length (pack_bits (vBits t))) <= MAX_SIZE). unfold pack_bits. rewrite length_map, length_seq.
  etrans; [|exact Hb]. apply Nat2Z.inj_le. apply Nat.lt_succ_r, Nat.Div0.div_lt_upper_bound.
  destruct (vBits t); cbn [length]; lia.
Qed.

(** * Properties *)

(** The partial Merkle tree built for a list of transaction ids and a mask always
    exists, survives its serialization (up to the padding of the last byte of flags) and
    extracts, before and after, to the root of the block's Merkle tree and to exactly the
    ids that the mask selects, in their order. *)
Theorem partial_tree_roundtrip l m rest :
  length m = length l -> (0 < length l)%nat -> Z.of_nat (length l) <= MAX_BLOCK_SIZE / 60 -> Forall wf256 l ->
  exists t t', build_tree l m = Some t /\
    tree_Unserialize (tree_Serialize t ++ rest) = Ok (t', rest) /\
    ExtractMatches t = Some (merkle_root l, selected l m, false) /\
    ExtractMatches t' = Some (merkle_root l, selected l m, false).
Proof.
  intros Hm H0 Hmax Hw. destruct (built_ok l m Hm H0) as (t & B & Ht & Hh & Hb).
  assert (S : Z.of_nat (length (vBits t)) < 2 ^ 17 /\ Forall wf256 (vHash t)).
  { unfold build_tree in B. destruct (tree_height_spec (length l) H0) as (H & E & _ & HH & _). rewrite E in B. cbn [mbind option_bind] in B.
    apply bind_Some in B as ([bits hashes] & B & [= <-]). apply TraverseAndBuild_bounds in B as [W L]; [|done]. split; [|done]. cbn [vBits].
    assert (HH' : (H <= 16)%nat).
    { etrans; [exact HH|]. apply Nat.log2_up_le_pow2; [done|]. change (MAX_BLOCK_SIZE / 60) with 33333 in Hmax.
      apply Nat2Z.inj_le. rewrite Nat2Z.inj_pow. change (Z.of_nat 2 ^ Z.of_nat 16) with 65536. lia. }
    apply (Nat.pow_le_mono_r 2) in HH'; [|lia]. rewrite Nat.pow_succ_r' in L.
    apply Nat2Z.inj_le in HH'. rewrite (Nat2Z.inj_pow 2 16) in HH'. change (Z.of_nat 2 ^ Z.of_nat 16) with 65536 in HH'.
    change (2 ^ 17) with 131072. lia. }
  exists t. eexists. split; [done|]. change (MAX_BLOCK_SIZE / 60) with 33333 in Hmax. split_and!.
  - apply tree_serialization; [lia|apply S|unfold MAX_SIZE; lia|unfold MAX_SIZE; lia].
  - pose proof (extract_built l m t [] Hm H0 Hmax B) as X. rewrite app_nil_r in X. rewrite <- X by done. f_equal. by destruct t; cbn in *; subst.
  - apply extract_built; try done. rewrite length_app, length_replicate.
    pose proof (Nat.div_mod_eq (length (vBits t) + 7) 8). pose proof (Nat.mod_upper_bound (length (vBits t) + 7) 8 ltac:(lia)).
    set (k := ((length (vBits t) + 7) / 8)%nat) in *. replace (length (vBits t) + (8 * k - length (vBits t)) + 7)%nat with (k * 8 + 7)%nat by lia.
    rewrite Nat.div_add_l by lia. cbn [Nat.div Nat.divmod fst]. lia.
Qed.

(** ** What a tree from elsewhere can show *)

(** The pairs that an extraction hashes. *)
Fixpoint extract_pairs (t : CPartialMerkleTree) (height pos : nat) (st : extract_state) : list (uint256 * uint256) :=
  match height, vBits t !! nBitsUsed st with
  | S height, Some true =>
      let '(l, st1) := TraverseAndExtract t height (pos * 2) (use_bit st) in
      extract_pairs t height (pos * 2) (use_bit st) ++
      (if (pos * 2 + 1 <? CalcTreeWidth (nTransactions t) height)%nat
       then (l, (TraverseAndExtract t height (pos * 2 + 1) st1).1) :: extract_pairs t height (pos * 2 + 1) st1
       else [(l, l)])
  | _, _ => []
  end.

Definition tree_pairs (t : CPartialMerkleTree) : list (uint256 * uint256) :=
  match tree_height (nTransactions t) with
  | None => []
  | Some h => extract_pairs t h 0 {| bad := fBad t; nBitsUsed := 0; nHashUsed := 0; matches := [] |}
  end.

Lemma take_hash_bad t m st : bad st = true -> bad (take_hash t m st).2 = true.
Proof. intros B. unfold take_hash. by case_match. Qed.

(** [fBad] is never cleared. *)
Lemma extract_bad t h : forall pos st, bad st = true -> bad (TraverseAndExtract t h pos st).2 = true.
Proof.
  induction h as [|h IH]; intros pos st B; cbn [TraverseAndExtract]; (case_match; [|done]); [by apply take_hash_bad|].
  destruct (negb _); [by apply take_hash_bad|].
  destruct (TraverseAndExtract t h (pos * 2) (use_bit st)) as [l s1] eqn:E1.
  assert (B1 : bad s1 = true) by (pose proof (IH (pos * 2)%nat (use_bit st) B) as X; by rewrite E1 in X).
  case_if; [|done]. destruct (TraverseAndExtract t h (pos * 2 + 1) s1) as [r s2] eqn:E2.
  pose proof (IH (pos * 2 + 1)%nat s1 B1) as X. by rewrite E2 in X.
Qed.

Lemma take_hash_sound t m st hs st' :
  take_hash t m st = (hs, st') -> bad st' = false -> matches st' = matches st ++ (if m then [hs] else []).
Proof. unfold take_hash. case_match; intros [= <- <-]; [|done]. intros _. cbn. destruct m; by rewrite ?app_nil_r. Qed.

Lemma extract_sound l t S h : forall pos st hs st',
  nTransactions t = length l -> no_collision S -> (forall k p, (k < h)%nat -> p ∈ pairs (level l k) -> p ∈ S) ->
  (forall p, p ∈ extract_pairs t h pos st -> p ∈ S) ->
  TraverseAndExtract t h pos st = (hs, st') -> bad st' = false -> (pos < CalcTreeWidth (length l) h)%nat ->
  hs = nth pos (level l h) (zero W256) ->
  exists ms, matches st' = matches st ++ ms /\ ms `sublist_of` leaves l h pos.
Proof.
  induction h as [|h IH]; intros pos st hs st' Ht HS HL HX E B Hp Hh; cbn [TraverseAndExtract] in E.
  - destruct (vBits t !! nBitsUsed st) as [b|]; [|injection E as <- <-; done].
    apply take_hash_sound in E; [|done]. eexists. split; [exact E|]. destruct b; [|apply sublist_nil_l].
    rewrite <- length_level in Hp. change (level l 0) with l in *. unfold leaves. change (2 ^ 0)%nat with 1%nat. rewrite Nat.mul_1_r.
    rewrite (drop_S _ hs pos) by (rewrite Hh; by apply list_lookup_nth). cbn. by apply sublist_skip, sublist_nil_l.
  - cbn [extract_pairs] in HX. destruct (vBits t !! nBitsUsed st) as [b|]; [|injection E as <- <-; done].
    destruct b; cbn [negb] in E.
    2: { apply take_hash_sound in E; [|done]. exists []. split; [exact E|apply sublist_nil_l]. }
    destruct (TraverseAndExtract t h (pos * 2) (use_bit st)) as [a s1] eqn:E1.
    rewrite <- length_level in Hp. destruct (level_node l h pos Hp) as (En & Hl & Hin).
    apply HL in Hin; [|lia]. rewrite length_level in En, Hl, Hin. rewrite Ht in E, HX. rewrite leaves_S.
    assert (HLL : forall k p, (k < h)%nat -> p ∈ pairs (level l k) -> p ∈ S) by (intros k p ?; apply HL; lia).
    revert En Hin E HX. destruct (Nat.ltb_spec (pos * 2 + 1) (CalcTreeWidth (length l) h)) as [Hr|Hr]; intros En Hin E HX.
    + destruct (TraverseAndExtract t h (pos * 2 + 1) s1) as [b s2] eqn:E2. injection E as <- <-. cbn [fst] in HX.
      assert (B1 : bad s1 = false).
      { destruct (bad s1) eqn:B1; [|done]. pose proof (extract_bad t h (pos * 2 + 1) s1 B1) as X. rewrite E2 in X. cbn in X. congruence. }
      assert (P : (a, b) = (nth (pos * 2) (level l h) (zero W256), nth (pos * 2 + 1) (level l h) (zero W256))).
      { apply HS; [apply HX, elem_of_app; right; apply elem_of_cons; by left|exact Hin|]. cbn [fst snd]. by rewrite Hh, En. }
      apply pair_eq in P as [Pa Pb].
      destruct (IH (pos * 2)%nat (use_bit st) a s1 Ht HS HLL ltac:(intros p Hpp; apply HX; solve_elem) E1 B1 Hl Pa) as (m1 & M1 & S1).
      destruct (IH (pos * 2 + 1)%nat s1 b s2 Ht HS HLL ltac:(intros p Hpp; apply HX; solve_elem) E2 B Hr Pb) as (m2 & M2 & S2).
      exists (m1 ++ m2). split; [rewrite M2, M1; cbn; by rewrite <- app_assoc|by apply sublist_app].
    + injection E as <- <-.
      assert (P : (a, a) = (nth (pos * 2) (level l h) (zero W256), nth (pos * 2) (level l h) (zero W256))).
      { apply HS; [apply HX, elem_of_app; right; apply elem_of_cons; by left|exact Hin|]. cbn [fst snd]. by rewrite Hh, En. }
      apply pair_eq in P as [Pa _].
      destruct (IH (pos * 2)%nat (use_bit st) a s1 Ht HS HLL ltac:(intros p Hpp; apply HX; solve_elem) E1 B Hl Pa) as (m1 & M1 & S1).
      exists m1. split; [done|]. by apply sublist_inserts_r.
Qed.

(** The pairs of the levels are those of the tree. *)
Lemma pairs_above_level fuel : forall l k p,
  (length l <= fuel)%nat -> (forall k', (k' <= k)%nat -> (1 < length (level l k'))%nat) -> p ∈ pairs (level l k) -> p ∈ pairs_above fuel l.
Proof.
  induction fuel as [|f IH]; intros l k p Hf Hk Hp; pose proof (Hk 0%nat ltac:(lia)) as H0; change (level l 0) with l in H0; [lia|].
  cbn [pairs_above]. rewrite (proj2 (Nat.ltb_lt _ _) H0). apply elem_of_app. destruct k as [|k]; [by left|right].
  assert (Ln : forall j, level l (S j) = level (parents l) j) by (intros j; apply Nat.iter_succ_r).
  pose proof (half_up_lt _ H0). apply (IH _ k); [rewrite length_parents; lia| |by rewrite <- Ln].
  intros k' ?. rewrite <- Ln. apply Hk. lia.
Qed.

(** A partial Merkle tree from an untrusted peer proves what it claims: if extracting it
    gives the root of the block's Merkle tree, for the number of transactions of the block,
    then every match is a transaction id of the block and they come in the order of the
    block, unless two different pairs of hashes collide among those of the block's tree and
    those the extraction hashes. *)
Theorem partial_tree_sound l t ms b :
  (0 < length l)%nat -> nTransactions t = length l -> merkle_root l <> zero W256 ->
  no_collision (merkle_pairs l ++ tree_pairs t) ->
  ExtractMatches t = Some (merkle_root l, ms, b) -> ms `sublist_of` l /\ b = false.
Proof.
  intros H0 Ht Hz HS. unfold ExtractMatches, tree_pairs in *. rewrite Ht in *.
  destruct (tree_height_spec (length l) H0) as (H & E & E1 & _ & Hh). rewrite E in *. cbn [mbind option_bind].
  repeat (case_if; [intros X; by apply Some_inj, pair_eq in X as [X _]; apply pair_eq in X as [X _]|]).
  destruct (TraverseAndExtract t H 0 _) as [hs st] eqn:T. intros X. apply Some_inj, pair_eq in X as [X Xb].
  apply pair_eq in X as [X Xm]. subst ms b. destruct (bad st) eqn:B; [congruence|]. split; [|done].
  destruct (negb _); [congruence|]. destruct (negb _); [congruence|].
  destruct (extract_sound l t _ H 0 {| bad := fBad t; nBitsUsed := 0; nHashUsed := 0; matches := [] |} hs st Ht HS) as (ms & Em & Hs); [| |exact T|done|lia| |].
  - intros k p Hk Hp. apply elem_of_app. left. apply (pairs_above_level (length l) l k); [done| |done].
    intros k' Hk'. rewrite length_level. apply Hh. lia.
  - intros p Hp. apply elem_of_app. by right.
  - rewrite (tree_root l H H0 E1 Hh). done.
  - cbn in Em. rewrite Em. by rewrite leaves_top in Hs by (by apply width_one_leaves).
Qed.

(** Three ids, of which the second and the third match. *)
Definition three_ids : list uint256 := [u256 1; u256 2; u256 3].
Definition three_mask : list bool := [false; true; true].
Definition three_tree : CPartialMerkleTree := default empty_tree (build_tree three_ids three_mask).

Lemma three_ids_wf : Forall wf256 three_ids.
Proof. repeat (apply Forall_cons; split; [apply wf_u256; wunfold; lia|]). constructor. Qed.

Lemma partial_tree_roundtrip_witness :
  selected three_ids three_mask = [u256 2; u256 3] /\
  exists t t', build_tree three_ids three_mask = Some t /\
    tree_Unserialize (tree_Serialize t ++ [7]) = Ok (t', [7]) /\
    ExtractMatches t = Some (merkle_root three_ids, selected three_ids three_mask, false) /\
    ExtractMatches t' = Some (merkle_root three_ids, selected three_ids three_mask, false).
Proof.
  split; [reflexivity|].
  apply (partial_tree_roundtrip three_ids three_mask [7]); [reflexivity|cbn; lia|vm_compute; congruence|exact three_ids_wf].
Defined.

(** For distinct pairs the hashes are computed and compared. *)
Lemma no_collision_computed ps :
  bool_decide (NoDup (map (fun p => merkle_hash p.1 p.2) (remove_dups ps))) = true -> no_collision ps.
Proof.
  rewrite bool_decide_eq_true. intros N p q Hp Hq E. apply elem_of_remove_dups, list_elem_of_lookup in Hp as [i Hi].
  apply elem_of_remove_dups, list_elem_of_lookup in Hq as [j Hj].
  assert (i = j) as ->; [|congruence]. eapply NoDup_lookup; [exact N|..]; rewrite list_lookup_fmap; [by rewrite Hi|by rewrite Hj, E].
Qed.

Lemma partial_tree_sound_witness :
  merkle_root three_ids <> zero W256 /\
  ExtractMatches three_tree = Some (merkle_root three_ids, [u256 2; u256 3], false) /\
  [u256 2; u256 3] `sublist_of` three_ids /\ false = false.
Proof.
  assert (Z0 : merkle_root three_ids <> zero W256) by (apply (bool_decide_unpack _); vm_compute; exact I).
  assert (X : ExtractMatches three_tree = Some (merkle_root three_ids, [u256 2; u256 3], false)) by (vm_compute; reflexivity).
  split; [exact Z0|]. split; [exact X|].
  apply (partial_tree_sound three_ids three_tree); [cbn; lia|vm_compute; reflexivity|exact Z0| |exact X].
  apply no_collision_computed. vm_compute. reflexivity.
Defined.
