(* ===== verification/Bloom.v ===== *)
(** Bloom filters (bloom.h, bloom.cpp, with [MurmurHash3] of hash.cpp), the messages that set
    the filter of a peer (main.cpp), the relay of transactions through it (net.cpp), and
    [CMerkleBlock] (merkleblock.cpp), the part of a block that a filter matches.

    [None] is the division by zero of [Hash] on a filter without bytes.  The constructor
    that computes a size from a rate of false positives is for clients and uses logarithms:
    a filter is here made of its size and its number of hash functions. *)

From S2P Require Import Prelude Uint256 Arith256 Serialize Digest Hashes Script Transaction Pubkey Standard Merkle Validation PartialMerkle.

#[local] Abbreviation length := Datatypes.length.

Definition MAX_BLOOM_FILTER_SIZE : Z := 36000.
Definition MAX_HASH_FUNCS : Z := 50.
Definition BLOOM_UPDATE_NONE : Z := 0.
Definition BLOOM_UPDATE_ALL : Z := 1.
Definition BLOOM_UPDATE_P2PUBKEY_ONLY : Z := 2.
Definition BLOOM_UPDATE_MASK : Z := 3.

(** * The hash function *)

Definition murmur_c1 : Z := 0xcc9e2d51.
Definition murmur_c2 : Z := 0x1b873593.

Definition murmur_mix (k1 : Z) : Z := u32 (rotl 32 (u32 (k1 * murmur_c1)) 15 * murmur_c2).

(** The blocks of four bytes, then the tail. *)
Fixpoint murmur_body (nblocks : nat) (h1 : Z) (data : byte_list) : Z * byte_list :=
  match nblocks with
  | O => (h1, data)
  | S n =>
      let h1 := Z.lxor h1 (murmur_mix (le_val (take 4 data))) in
      murmur_body n (u32 (rotl 32 h1 13 * 5 + 0xe6546b64)) (drop 4 data)
  end.

Definition murmur_tail (h1 : Z) (tail : byte_list) : Z :=
  match tail with
  | [] => h1
  | _ => Z.lxor h1 (murmur_mix (le_val (take 3 tail)))
  end.

Definition murmur_final (h1 : Z) : Z :=
  let h1 := Z.lxor h1 (Z.shiftr h1 16) in
  let h1 := u32 (h1 * 0x85ebca6b) in
  let h1 := Z.lxor h1 (Z.shiftr h1 13) in
  let h1 := u32 (h1 * 0xc2b2ae35) in
  Z.lxor h1 (Z.shiftr h1 16).

Definition MurmurHash3 (nHashSeed : Z) (vDataToHash : byte_list) : Z :=
  let n := length vDataToHash in
  let '(h1, tail) := murmur_body (n / 4) nHashSeed vDataToHash in
  murmur_final (u32 (Z.lxor (murmur_tail h1 tail) (Z.of_nat n))).

(** The vectors of hash_tests.cpp. *)
Example murmur_empty : MurmurHash3 0xfba4c795 [] = 0x6a396f08. Proof. reflexivity. Qed.
Example murmur_one : MurmurHash3 0xfba4c795 [0] = 0xea3f0b17. Proof. reflexivity. Qed.
Example murmur_seven : MurmurHash3 0 [0; 0x11; 0x22; 0x33; 0x44; 0x55; 0x66] = 0xb074502c. Proof. reflexivity. Qed.

(** * The filter *)

Record CBloomFilter := {
  vData : byte_list;
  isFull : bool;
  isEmpty : bool;
  nHashFuncs : Z;
  nTweak : Z;
  bf_nFlags : Z
}.

Definition set_data (v : byte_list) (full empty : bool) (f : CBloomFilter) : CBloomFilter := {|
  vData := v; isFull := full; isEmpty := empty; nHashFuncs := nHashFuncs f; nTweak := nTweak f; bf_nFlags := bf_nFlags f |}.

(** The default constructor. *)
Definition default_filter : CBloomFilter := {| vData := []; isFull := true; isEmpty := false; nHashFuncs := 0; nTweak := 0; bf_nFlags := 0 |}.

(** A filter of [size] bytes, as the other constructor leaves it. *)
Definition new_filter (size : nat) (funcs nTweakIn nFlagsIn : Z) : CBloomFilter := {|
  vData := replicate size 0; isFull := false; isEmpty := false; nHashFuncs := Z.min (u32 funcs) MAX_HASH_FUNCS; nTweak := nTweakIn; bf_nFlags := nFlagsIn |}.

(** [Hash]. *)
Definition filter_Hash (f : CBloomFilter) (nHashNum : Z) (vDataToHash : byte_list) : option Z :=
  let bits := Z.of_nat (length (vData f)) * 8 in
  if bits =? 0 then None else Some (MurmurHash3 (u32 (nHashNum * 0xFBA4C795 + nTweak f)) vDataToHash mod bits).

(** [vData[nIndex >> 3] & (1 << (7 & nIndex))], and the setting of that bit. *)
Definition has_bit (v : byte_list) (nIndex : Z) : bool :=
  negb (Z.land (nth (Z.to_nat (Z.shiftr nIndex 3)) v 0) (Z.shiftl 1 (Z.land 7 nIndex)) =? 0).
Definition set_bit (v : byte_list) (nIndex : Z) : byte_list :=
  let i := Z.to_nat (Z.shiftr nIndex 3) in
  <[i := Z.lor (nth i v 0) (Z.shiftl 1 (Z.land 7 nIndex))]> v.

(** [for (i = 0; i < nHashFuncs; i++)], from [i] on. *)
Fixpoint insert_loop (n : nat) (i : Z) (vKey : byte_list) (f : CBloomFilter) : option CBloomFilter :=
  match n with
  | O => Some f
  | S n =>
      nIndex ← filter_Hash f i vKey;
      insert_loop n (i + 1) vKey (set_data (set_bit (vData f) nIndex) (isFull f) (isEmpty f) f)
  end.

Definition filter_insert (vKey : byte_list) (f : CBloomFilter) : option CBloomFilter :=
  if isFull f then Some f
  else
    f ← insert_loop (Z.to_nat (nHashFuncs f)) 0 vKey f;
    Some (set_data (vData f) (isFull f) false f).

Definition insert_outpoint (outpoint : COutPoint) (f : CBloomFilter) : option CBloomFilter := filter_insert (enc c_outpoint outpoint) f.
Definition insert_hash (hash : uint256) (f : CBloomFilter) : option CBloomFilter := filter_insert (to_bytes hash) f.

Fixpoint contains_loop (n : nat) (i : Z) (vKey : byte_list) (f : CBloomFilter) : option bool :=
  match n with
  | O => Some true
  | S n =>
      nIndex ← filter_Hash f i vKey;
      if has_bit (vData f) nIndex then contains_loop n (i + 1) vKey f else Some false
  end.

Definition contains (vKey : byte_list) (f : CBloomFilter) : option bool :=
  if isFull f then Some true else if isEmpty f then Some false else contains_loop (Z.to_nat (nHashFuncs f)) 0 vKey f.

Definition contains_outpoint (outpoint : COutPoint) (f : CBloomFilter) : option bool := contains (enc c_outpoint outpoint) f.
Definition contains_hash (hash : uint256) (f : CBloomFilter) : option bool := contains (to_bytes hash) f.

Definition clear (f : CBloomFilter) : CBloomFilter := set_data (replicate (length (vData f)) 0) false true f.

Definition IsWithinSizeConstraints (f : CBloomFilter) : bool :=
  (Z.of_nat (length (vData f)) <=? MAX_BLOOM_FILTER_SIZE) && (nHashFuncs f <=? MAX_HASH_FUNCS).

Definition UpdateEmptyFull (f : CBloomFilter) : CBloomFilter :=
  set_data (vData f) (forallb (fun b => b =? 0xff) (vData f)) (forallb (fun b => b =? 0) (vData f)) f.

(** ** Transactions *)

(** Going through the data of a script up to one for which [p] holds; [fuel] is the number
    of bytes. *)
Fixpoint scan_data (fuel : nat) (p : byte_list -> option bool) (pc : CScript) : option bool :=
  match pc, fuel with
  | [], _ => Some false
  | _, O => None
  | _, S fuel =>
      let r := GetOp pc in
      if negb (fRet r) then Some false
      else if (length (vchRet r) =? 0)%nat then scan_data fuel p (pc_next r)
      else
        b ← p (vchRet r);
        if b : bool then Some true else scan_data fuel p (pc_next r)
  end.

(** What happens to the filter when the data of an output match. *)
Definition update_output (hash : uint256) (i : nat) (txout : CTxOut) (f : CBloomFilter) : option CBloomFilter :=
  let outpoint := {| out_hash := hash; out_n := Z.of_nat i |} in
  if Z.land (bf_nFlags f) BLOOM_UPDATE_MASK =? BLOOM_UPDATE_ALL then insert_outpoint outpoint f
  else if Z.land (bf_nFlags f) BLOOM_UPDATE_MASK =? BLOOM_UPDATE_P2PUBKEY_ONLY then
    let '(type, _, ok) := Solver (scriptPubKey txout) in
    if ok && (bool_decide (type = TX_PUBKEY) || bool_decide (type = TX_MULTISIG)) then insert_outpoint outpoint f else Some f
  else Some f.

(** The outputs from [i] on. *)
Fixpoint outputs_loop (hash : uint256) (i : nat) (outs : list CTxOut) (fFound : bool) (f : CBloomFilter) : option (bool * CBloomFilter) :=
  match outs with
  | [] => Some (fFound, f)
  | txout :: outs =>
      b ← scan_data (length (scriptPubKey txout)) (fun data => contains data f) (scriptPubKey txout);
      if b : bool then
        f ← update_output hash i txout f;
        outputs_loop hash (S i) outs true f
      else outputs_loop hash (S i) outs fFound f
  end.

Fixpoint inputs_loop (ins : list CTxIn) (f : CBloomFilter) : option bool :=
  match ins with
  | [] => Some false
  | txin :: ins =>
      b ← contains_outpoint (prevout txin) f;
      if b : bool then Some true
      else
        b ← scan_data (length (scriptSig txin)) (fun data => contains data f) (scriptSig txin);
        if b : bool then Some true else inputs_loop ins f
  end.

Definition IsRelevantAndUpdate (tx : CTransaction) (f : CBloomFilter) : option (bool * CBloomFilter) :=
  if isFull f then Some (true, f)
  else if isEmpty f then Some (false, f)
  else
    let hash := tx_GetHash tx in
    found ← contains_hash hash f;
    r ← outputs_loop hash 0 (vout tx) found f;
    if r.1 : bool then Some (true, r.2)
    else
      b ← inputs_loop (vin tx) r.2;
      Some (b, r.2).

(** ** Serialization *)

Definition c_filter : codec CBloomFilter :=
  c_iso (fun x => {| vData := x.1.1.1; isFull := true; isEmpty := false; nHashFuncs := x.1.1.2; nTweak := x.1.2; bf_nFlags := x.2 |})
    (fun f => (((vData f, nHashFuncs f), nTweak f), bf_nFlags f))
    (c_pair (c_pair (c_pair c_bytes (c_uint 4)) (c_uint 4)) (c_uint 1)).

(** * The filter of a peer *)

(** [pfilter] is never null: the constructor of [CNode] and every message give it one. *)
Record NodeFilter := { pfilter : CBloomFilter; fRelayTxes : bool }.

(** The messages, as data: [None] for the body of a filterclear. *)
Inductive filter_message := filterload (f : CBloomFilter) | filteradd (vData : byte_list) | filterclear.

(** The handlers: the new state and what [Misbehaving] is called with (0: not called).
    [fBloom] is whether the node offers [NODE_BLOOM]. *)
Definition handle_filter (fBloom : bool) (m : filter_message) (n : NodeFilter) : option (NodeFilter * Z) :=
  if negb fBloom then Some (n, 100)
  else
    match m with
    | filterload f =>
        if negb (IsWithinSizeConstraints f) then Some ({| pfilter := pfilter n; fRelayTxes := true |}, 100)
        else Some ({| pfilter := UpdateEmptyFull f; fRelayTxes := true |}, 0)
    | filteradd v =>
        if MAX_SCRIPT_ELEMENT_SIZE <? Z.of_nat (length v) then Some (n, 100)
        else
          f ← filter_insert v (pfilter n);
          Some ({| pfilter := f; fRelayTxes := fRelayTxes n |}, 0)
    | filterclear => Some ({| pfilter := default_filter; fRelayTxes := true |}, 0)
    end.

(** [RelayTransaction] for one peer: whether the transaction is announced. *)
Definition relay_transaction (tx : CTransaction) (n : NodeFilter) : option (NodeFilter * bool) :=
  if negb (fRelayTxes n) then Some (n, false)
  else
    r ← IsRelevantAndUpdate tx (pfilter n);
    Some ({| pfilter := r.2; fRelayTxes := true |}, r.1).

(** * Filtered blocks *)

Record CMerkleBlock := {
  mb_header : CBlockHeader;
  txn : CPartialMerkleTree;
  vMatchedTxn : list (nat * uint256)
}.

(** [vMatch], [vHashes] and [vMatchedTxn], for the transactions from [i] on. *)
Fixpoint match_loop (i : nat) (txs : list CTransaction) (f : CBloomFilter) : option (list bool * list uint256 * list (nat * uint256) * CBloomFilter) :=
  match txs with
  | [] => Some ([], [], [], f)
  | tx :: txs =>
      let hash := tx_GetHash tx in
      r ← IsRelevantAndUpdate tx f;
      q ← match_loop (S i) txs r.2;
      let '(vMatch, vHashes, matched, f) := q in
      Some (r.1 :: vMatch, hash :: vHashes, if r.1 : bool then (i, hash) :: matched else matched, f)
  end.

Definition make_merkle_block (block : CBlock) (f : CBloomFilter) : option (CMerkleBlock * CBloomFilter) :=
  r ← match_loop 0 (vtx block) f;
  let '(vMatch, vHashes, matched, f) := r in
  t ← build_tree vHashes vMatch;
  Some ({| mb_header := header block; txn := t; vMatchedTxn := matched |}, f).

(** * Bits *)

Lemma land_shiftl_testbit x k : 0 <= k -> negb (Z.land x (Z.shiftl 1 k) =? 0) = Z.testbit x k.
Proof.
  intros Hk. rewrite Z.shiftl_1_l. destruct (Z.testbit x k) eqn:T.
  - rewrite negb_true_iff, Z.eqb_neq. intros E. apply (f_equal (fun z => Z.testbit z k)) in E.
    rewrite Z.land_spec, T, Z.pow2_bits_true, Z.bits_0 in E by done. done.
  - rewrite negb_false_iff, Z.eqb_eq. apply Z.bits_inj'. intros n Hn. rewrite Z.land_spec, Z.bits_0, Z.pow2_bits_eqb by done.
    destruct (Z.eqb_spec k n) as [<-|]; [by rewrite T|apply andb_false_r].
Qed.

Lemma land_7 n : Z.land 7 n = n mod 8.
Proof. rewrite Z.land_comm. apply (Z.land_ones n 3). lia. Qed.

Lemma has_bit_testbit v n : 0 <= n -> has_bit v n = Z.testbit (nth (Z.to_nat (n / 8)) v 0) (n mod 8).
Proof.
  intros Hn. unfold has_bit. rewrite land_7, land_shiftl_testbit by (apply Z.mod_pos_bound; lia). rewrite Z.shiftr_div_pow2 by lia. done.
Qed.

Lemma nth_insert v i j x : (i < length v)%nat -> nth j (<[i := x]> v) (0 : Z) = if (i =? j)%nat then x else nth j v 0.
Proof.
  intros Hi. rewrite !nth_lookup. destruct (Nat.eqb_spec i j) as [<-|Hne].
  - by rewrite list_lookup_insert_eq.
  - by rewrite list_lookup_insert_ne.
Qed.

(** The bits after one is set. *)
Lemma has_set_bit v n m : 0 <= n < Z.of_nat (length v) * 8 -> 0 <= m -> has_bit (set_bit v n) m = (n =? m) || has_bit v m.
Proof.
  intros Hn Hm. rewrite !has_bit_testbit by done. unfold set_bit.
  rewrite land_7, Z.shiftr_div_pow2 by lia. change (2 ^ 3) with 8.
  pose proof (Z.div_lt_upper_bound n 8 (Z.of_nat (length v)) ltac:(lia) ltac:(lia)). pose proof (Z.div_pos n 8 ltac:(lia) ltac:(lia)).
  pose proof (Z.div_pos m 8 ltac:(lia) ltac:(lia)). pose proof (Z.mod_pos_bound n 8 ltac:(lia)). pose proof (Z.mod_pos_bound m 8 ltac:(lia)).
  rewrite nth_insert by lia. destruct (Nat.eqb_spec (Z.to_nat (n / 8)) (Z.to_nat (m / 8))) as [E|E].
  - rewrite E, Z.lor_spec, Z.shiftl_1_l, Z.pow2_bits_eqb by lia. rewrite orb_comm. f_equal.
    destruct (Z.eqb_spec (n mod 8) (m mod 8)), (Z.eqb_spec n m); try done.
    + pose proof (Z.div_mod n 8 ltac:(lia)). pose proof (Z.div_mod m 8 ltac:(lia)). lia.
    + congruence.
  - destruct (Z.eqb_spec n m) as [->|]; [done|done].
Qed.

Lemma length_set_bit v n : length (set_bit v n) = length v.
Proof. apply length_insert. Qed.

Lemma set_bit_bytes v n : is_bytes v -> is_bytes (set_bit v n).
Proof.
  intros W. unfold set_bit. apply Forall_insert; [done|]. rewrite land_7, Z.shiftl_1_l.
  pose proof (Z.mod_pos_bound n 8 ltac:(lia)). set (x := nth _ v 0).
  assert (Hx : word 8 x).
  { unfold x. rewrite nth_lookup. destruct (v !! _) as [y|] eqn:L; [|by split]. unfold words in W. rewrite Forall_lookup in W. by apply (W _ _ L). }
  assert (Hp : word 8 (2 ^ (n mod 8))) by (split; [lia|apply Z.pow_lt_mono_r; lia]).
  by apply word_lor.
Qed.

(** * What a filter keeps *)

(** The filter can be asked without a division by zero. *)
Definition usable (f : CBloomFilter) : Prop := isFull f = true \/ vData f <> [].

(** Nothing that was in the filter gets lost. *)
Record keeps (f f' : CBloomFilter) : Prop := {
  kp_length : length (vData f') = length (vData f);
  kp_funcs : nHashFuncs f' = nHashFuncs f;
  kp_tweak : nTweak f' = nTweak f;
  kp_flags : bf_nFlags f' = bf_nFlags f;
  kp_full : isFull f' = isFull f;
  kp_empty : isEmpty f' = true -> isEmpty f = true;
  kp_bits n : 0 <= n -> has_bit (vData f) n = true -> has_bit (vData f') n = true;
  kp_bytes : is_bytes (vData f) -> is_bytes (vData f')
}.

#[export] Instance keeps_preorder : PreOrder keeps.
Proof.
  split.
  - intros f. by split.
  - intros f g h [] []. split; try congruence; auto.
Qed.

Lemma keeps_usable f f' : keeps f f' -> usable f -> usable f'.
Proof.
  intros K [U|U]; [left; by rewrite (kp_full _ _ K)|right]. intros E. apply U, nil_length_inv. by rewrite <- (kp_length _ _ K), E.
Qed.

(** The bit for a hash function. *)
Definition index (f : CBloomFilter) (i : Z) (key : byte_list) : Z :=
  MurmurHash3 (u32 (i * 0xFBA4C795 + nTweak f)) key mod (Z.of_nat (length (vData f)) * 8).

Lemma filter_Hash_index f i key : vData f <> [] -> filter_Hash f i key = Some (index f i key) /\ 0 <= index f i key < Z.of_nat (length (vData f)) * 8.
Proof.
  intros Hv. assert (0 < length (vData f))%nat by (destruct (vData f); [done|cbn; lia]). unfold filter_Hash.
  rewrite (proj2 (Z.eqb_neq _ _)) by lia. split; [done|]. apply Z.mod_pos_bound. lia.
Qed.

Lemma index_keeps f f' i key : keeps f f' -> index f' i key = index f i key.
Proof. intros K. unfold index. by rewrite (kp_length _ _ K), (kp_tweak _ _ K). Qed.

Lemma contains_loop_spec n : forall i key f, vData f <> [] ->
  exists b, contains_loop n i key f = Some b /\ (b = true <-> forall j, i <= j < i + Z.of_nat n -> has_bit (vData f) (index f j key) = true).
Proof.
  induction n as [|n IH]; intros i key f Hv; cbn [contains_loop].
  { exists true. split; [done|]. split; [lia|done]. }
  destruct (filter_Hash_index f i key Hv) as [-> _]. cbn [mbind option_bind]. destruct (has_bit _ _) eqn:B.
  - destruct (IH (i + 1) key f Hv) as (b & -> & H). exists b. split; [done|]. rewrite H. split; intros A j Hj.
    + destruct (decide (j = i)) as [->|]; [done|]. apply A. lia.
    + apply A. lia.
  - exists false. split; [done|]. split; [done|]. intros A. rewrite A in B; [done|lia].
Qed.

Lemma insert_loop_spec n : forall i key f, vData f <> [] ->
  exists f', insert_loop n i key f = Some f' /\ keeps f f' /\ forall j, i <= j < i + Z.of_nat n -> has_bit (vData f') (index f j key) = true.
Proof.
  induction n as [|n IH]; intros i key f Hv; cbn [insert_loop].
  { exists f. split_and!; [done|done|lia]. }
  destruct (filter_Hash_index f i key Hv) as [-> Hi]. cbn [mbind option_bind]. set (g := set_data _ _ _ f).
  assert (K : keeps f g).
  { split; try done; cbn [g set_data vData]; [apply length_set_bit| |apply set_bit_bytes].
    intros m Hm B. by rewrite has_set_bit, B, orb_true_r by done. }
  destruct (IH (i + 1) key g) as (f' & -> & K' & B').
  { intros E. cbn in E. apply (f_equal length) in E. rewrite length_set_bit in E. by apply nil_length_inv in E. }
  exists f'. split; [done|]. split; [by transitivity g|]. intros j Hj. destruct (decide (j = i)) as [->|].
  - apply (kp_bits _ _ K'); [lia|]. cbn [g set_data vData]. by rewrite has_set_bit, Z.eqb_refl by lia.
  - rewrite <- (index_keeps f g) by done. apply B'. lia.
Qed.

(** What is inserted is contained. *)
Lemma filter_insert_spec key f : usable f ->
  exists f', filter_insert key f = Some f' /\ keeps f f' /\ contains key f' = Some true /\
    (isFull f = false -> forall j, 0 <= j < Z.of_nat (Z.to_nat (nHashFuncs f)) -> has_bit (vData f') (index f' j key) = true).
Proof.
  intros U. unfold filter_insert. destruct (isFull f) eqn:F.
  { exists f. split_and!; try done. unfold contains. by rewrite F. }
  destruct U as [U|U]; [congruence|]. destruct (insert_loop_spec (Z.to_nat (nHashFuncs f)) 0 key f U) as (g & -> & K & B).
  cbn [mbind option_bind]. set (f' := set_data _ _ _ g). assert (K' : keeps f f') by (destruct K; by split).
  assert (Hb : forall j, 0 <= j < Z.of_nat (Z.to_nat (nHashFuncs f)) -> has_bit (vData f') (index f' j key) = true).
  { intros j Hj. rewrite (index_keeps f f') by done. apply B. lia. }
  exists f'. split; [done|]. split; [done|]. split; [|done]. unfold contains. rewrite (kp_full _ _ K'), F. cbn [f' set_data isEmpty].
  fold f'. destruct (contains_loop_spec (Z.to_nat (nHashFuncs f')) 0 key f') as (b & E & H).
  { destruct (keeps_usable f f' K' (or_intror U)) as [X|X]; [|done]. rewrite (kp_full _ _ K') in X. congruence. }
  change (nHashFuncs g) with (nHashFuncs f'). rewrite E. f_equal. apply H. rewrite (kp_funcs _ _ K'). intros j Hj. apply Hb. lia.
Qed.

Lemma contains_total key f : usable f -> is_Some (contains key f).
Proof.
  intros U. unfold contains. destruct (isFull f) eqn:F; [eauto|]. destruct (isEmpty f); [eauto|]. destruct U as [U|U]; [congruence|].
  destruct (contains_loop_spec (Z.to_nat (nHashFuncs f)) 0 key f U) as (b & -> & _). eauto.
Qed.

Lemma contains_keeps f f' key : keeps f f' -> usable f -> contains key f = Some true -> contains key f' = Some true.
Proof.
  intros K U. unfold contains. rewrite (kp_full _ _ K). destruct (isFull f) eqn:F; [done|]. destruct (isEmpty f) eqn:E; [done|].
  destruct (isEmpty f') eqn:E'; [by rewrite (kp_empty _ _ K) in E|]. intros C. destruct U as [U|U]; [congruence|].
  assert (U' : vData f' <> []) by (intros X; apply U, nil_length_inv; by rewrite <- (kp_length _ _ K), X).
  destruct (contains_loop_spec (Z.to_nat (nHashFuncs f)) 0 key f U) as (b & Eb & H). rewrite C in Eb. apply Some_inj in Eb as <-.
  destruct (contains_loop_spec (Z.to_nat (nHashFuncs f')) 0 key f' U') as (b' & -> & H'). f_equal. apply H'. intros j Hj.
  rewrite (index_keeps f f') by done. apply (kp_bits _ _ K); [apply filter_Hash_index, U|]. apply H; [done|]. by rewrite <- (kp_funcs _ _ K).
Qed.

(** * Relevant transactions *)

(** The data a script pushes, up to where it cannot be read. *)
Fixpoint script_data (fuel : nat) (pc : CScript) : list byte_list :=
  match pc, fuel with
  | [], _ | _, O => []
  | _, S fuel =>
      let r := GetOp pc in
      if negb (fRet r) then []
      else if (length (vchRet r) =? 0)%nat then script_data fuel (pc_next r)
      else vchRet r :: script_data fuel (pc_next r)
  end.

Definition data_of (pc : CScript) : list byte_list := script_data (length pc) pc.

Lemma scan_data_spec p : (forall d, is_Some (p d)) -> forall fuel pc, (length pc <= fuel)%nat ->
  exists b, scan_data fuel p pc = Some b /\ (b = true <-> exists d, d ∈ script_data fuel pc /\ p d = Some true).
Proof.
  intros Hp. assert (Hn : false = true <-> exists d, d ∈ ([] : list byte_list) /\ p d = Some true).
  { split; [done|]. by intros (d & I%not_elem_of_nil & _). }
  induction fuel as [|fuel IH]; intros [|op pc] Hl; cbn [scan_data script_data]; try (by exists false); cbn [length] in Hl; [lia|].
  destruct (fRet (GetOp (op :: pc))) eqn:R; cbn [negb]; [|by exists false].
  pose proof (GetOp_next_lt (op :: pc) R) as Hlt. cbn [length] in Hlt. destruct (IH (pc_next (GetOp (op :: pc))) ltac:(lia)) as (b & E & H).
  destruct (length (vchRet (GetOp (op :: pc))) =? 0)%nat; [by exists b|]. destruct (Hp (vchRet (GetOp (op :: pc)))) as [c Ec]. rewrite Ec.
  cbn [mbind option_bind]. destruct c.
  - exists true. split; [done|]. split; [|done]. intros _. eexists. split; [left|done].
  - exists b. split; [done|]. rewrite H. split; intros (d & I & D); [by exists d; split; [right|]|].
    apply elem_of_cons in I as [->|I]; [congruence|by exists d].
Qed.

Lemma data_scan f pc : usable f ->
  exists b, scan_data (length pc) (fun d => contains d f) pc = Some b /\ (b = true <-> exists d, d ∈ data_of pc /\ contains d f = Some true).
Proof. intros U. apply scan_data_spec; [|done]. intros d. by apply contains_total. Qed.

(** The outputs whose match makes the filter follow what spends them. *)
Definition followed (f : CBloomFilter) (txout : CTxOut) : Prop :=
  Z.land (bf_nFlags f) BLOOM_UPDATE_MASK = BLOOM_UPDATE_ALL \/
  Z.land (bf_nFlags f) BLOOM_UPDATE_MASK = BLOOM_UPDATE_P2PUBKEY_ONLY /\
    exists type v, Solver (scriptPubKey txout) = (type, v, true) /\ (type = TX_PUBKEY \/ type = TX_MULTISIG).

Lemma followed_keeps f f' txout : keeps f f' -> followed f txout -> followed f' txout.
Proof. intros K. unfold followed. by rewrite (kp_flags _ _ K). Qed.

Lemma update_output_spec hash i txout f : usable f ->
  exists f', update_output hash i txout f = Some f' /\ keeps f f' /\
    (followed f txout -> contains_outpoint {| out_hash := hash; out_n := Z.of_nat i |} f' = Some true).
Proof.
  intros U. unfold update_output, contains_outpoint.
  destruct (filter_insert_spec (enc c_outpoint {| out_hash := hash; out_n := Z.of_nat i |}) f U) as (g & E & K & C & _).
  unfold insert_outpoint, followed. destruct (Z.eqb_spec (Z.land (bf_nFlags f) BLOOM_UPDATE_MASK) BLOOM_UPDATE_ALL) as [|N1]; [by exists g|].
  destruct (Z.eqb_spec (Z.land (bf_nFlags f) BLOOM_UPDATE_MASK) BLOOM_UPDATE_P2PUBKEY_ONLY) as [|N2].
  2: { exists f. split_and!; try done. by intros [?|[? _]]. }
  destruct (Solver (scriptPubKey txout)) as [[type v] ok]. destruct (ok && _) eqn:B.
  - by exists g.
  - exists f. split_and!; try done. intros [?|(_ & t & v' & [= <- <- ->] & T)]; [done|]. apply orb_false_iff in B as [B1 B2].
    apply bool_decide_eq_false in B1, B2. by destruct T.
Qed.

Lemma outputs_loop_spec hash outs : forall i found f, usable f ->
  exists b f', outputs_loop hash i outs found f = Some (b, f') /\ keeps f f' /\ (found = true -> b = true) /\
    (forall k out d, outs !! k = Some out -> d ∈ data_of (scriptPubKey out) -> contains d f = Some true ->
       b = true /\ (followed f out -> contains_outpoint {| out_hash := hash; out_n := Z.of_nat (i + k) |} f' = Some true)) /\
    (b = true -> found = true \/ exists out d, out ∈ outs /\ d ∈ data_of (scriptPubKey out) /\ contains d f' = Some true).
Proof.
  induction outs as [|out outs IH]; intros i found f U; cbn [outputs_loop].
  { exists found, f. split_and!; try done. by left. }
  destruct (data_scan f (scriptPubKey out) U) as (b & -> & H). cbn [mbind option_bind]. destruct b.
  - destruct (update_output_spec hash i out f U) as (g & -> & K & C). cbn [mbind option_bind].
    destruct (IH (S i) true g (keeps_usable _ _ K U)) as (b & f' & -> & K' & F & A & B). specialize (F eq_refl) as ->.
    exists true, f'. split_and!; try done; [by transitivity g| |].
    + intros k o d. destruct k as [|k]; cbn [lookup list_lookup].
      * intros [= <-] I D. split; [done|]. intros Fo. rewrite Nat.add_0_r.
        apply (contains_keeps g); [done|by apply (keeps_usable f)|by apply C].
      * intros L I D. split; [done|]. intros Fo. rewrite Nat.add_succ_r. apply (A k o d L I); [by apply (contains_keeps f)|].
        by apply (followed_keeps f).
    + intros _. right. destruct (proj1 H eq_refl) as (d & I & D). exists out, d. split; [left|]. split; [done|].
      apply (contains_keeps g); [done|by apply (keeps_usable f)|by apply (contains_keeps f)].
  - destruct (IH (S i) found f U) as (b & f' & -> & K' & F & A & B). exists b, f'. split_and!; try done.
    + intros k o d. destruct k as [|k]; cbn [lookup list_lookup].
      * intros [= <-] I D. exfalso. enough (false = true) by done. apply H. by exists d.
      * rewrite Nat.add_succ_r. apply A.
    + intros Hb. destruct (B Hb) as [?|(o & d & I & X)]; [by left|right]. exists o, d. split; [by right|done].
Qed.

Lemma inputs_loop_spec f ins : usable f ->
  exists b, inputs_loop ins f = Some b /\ (b = true <-> exists txin, txin ∈ ins /\
    (contains_outpoint (prevout txin) f = Some true \/ exists d, d ∈ data_of (scriptSig txin) /\ contains d f = Some true)).
Proof.
  intros U. induction ins as [|txin ins (b & E & IH)]; cbn [inputs_loop].
  { exists false. split; [done|]. split; [done|]. by intros (x & I%not_elem_of_nil & _). }
  unfold contains_outpoint in *. destruct (contains_total (enc c_outpoint (prevout txin)) f U) as [c Ec]. rewrite Ec. cbn [mbind option_bind]. destruct c.
  { exists true. split; [done|]. split; [|done]. intros _. exists txin. split; [left|by left]. }
  destruct (data_scan f (scriptSig txin) U) as (c & -> & H). cbn [mbind option_bind]. destruct c.
  { exists true. split; [done|]. split; [|done]. intros _. exists txin. split; [left|right]. by apply H. }
  exists b. split; [done|]. rewrite IH. split; intros (x & I & X); [exists x; split; [by right|done]|].
  apply elem_of_cons in I as [->|I]; [|by exists x]. destruct X as [X|X]; [congruence|]. exfalso. enough (false = true) by done. by apply H.
Qed.

(** What makes a transaction interesting to a filter: its hash, what its outputs push, what
    it spends and what its inputs push. *)
Inductive touches (tx : CTransaction) : byte_list -> Prop :=
| touches_hash : touches tx (to_bytes (tx_GetHash tx))
| touches_output out d : out ∈ vout tx -> d ∈ data_of (scriptPubKey out) -> touches tx d
| touches_outpoint txin : txin ∈ vin tx -> touches tx (enc c_outpoint (prevout txin))
| touches_input txin d : txin ∈ vin tx -> d ∈ data_of (scriptSig txin) -> touches tx d.

Lemma IsRelevantAndUpdate_spec tx f : usable f ->
  exists b f', IsRelevantAndUpdate tx f = Some (b, f') /\ keeps f f' /\
    (forall key, touches tx key -> contains key f = Some true -> b = true) /\
    (b = true -> exists key, touches tx key /\ contains key f' = Some true) /\
    (forall k out d, vout tx !! k = Some out -> d ∈ data_of (scriptPubKey out) -> contains d f = Some true -> followed f out ->
       contains_outpoint {| out_hash := tx_GetHash tx; out_n := Z.of_nat k |} f' = Some true).
Proof.
  intros U. unfold IsRelevantAndUpdate. destruct (isFull f) eqn:F.
  { exists true, f. assert (Hc : forall key, contains key f = Some true) by (intros key; unfold contains; by rewrite F).
    split_and!; try done; [intros _; eexists; split; [apply touches_hash|apply Hc]|intros; apply Hc]. }
  destruct (isEmpty f) eqn:Em.
  { exists false, f. assert (Hc : forall key, contains key f <> Some true) by (intros key; unfold contains; by rewrite F, Em).
    split_and!; try done; intros; exfalso; by eapply Hc. }
  unfold contains_hash. destruct (contains_total (to_bytes (tx_GetHash tx)) f U) as [found Ef]. rewrite Ef. cbn [mbind option_bind].
  destruct (outputs_loop_spec (tx_GetHash tx) (vout tx) 0 found f U) as (b & g & -> & K & Hf & A & B). cbn [mbind option_bind fst snd].
  pose proof (keeps_usable _ _ K U) as Ug. destruct b.
  - exists true, g. split_and!; try done.
    + intros _. destruct (B eq_refl) as [->|(out & d & I & J & C)].
      * eexists. split; [apply touches_hash|by apply (contains_keeps f)].
      * exists d. split; [by eapply touches_output|done].
    + intros k out d L I D Fo. by apply (A k out d).
  - destruct (inputs_loop_spec g (vin tx) Ug) as (b & -> & H). cbn [mbind option_bind]. exists b, g. split_and!; try done.
    + intros key T C. destruct T as [|out d I J|txin I|txin d I J].
      * rewrite C in Ef. apply Some_inj in Ef as <-. by specialize (Hf eq_refl).
      * apply list_elem_of_lookup_1 in I as [k L]. by destruct (A k out d L J C).
      * apply H. exists txin. split; [done|left]. by apply (contains_keeps f).
      * apply H. exists txin. split; [done|right]. exists d. split; [done|by apply (contains_keeps f)].
    + intros Hb. apply H in Hb as (txin & I & [C|(d & J & C)]); eexists; (split; [|exact C]); [by apply touches_outpoint|by eapply touches_input].
    + intros k out d L I D Fo. by apply (A k out d).
Qed.

(** * Filtered blocks *)

(** Transaction [j] of the list spends an output of transaction [k] that the filter follows. *)
Definition spends_followed (txs : list CTransaction) (f : CBloomFilter) (k j : nat) : Prop :=
  exists a b n out d txin, (k < j)%nat /\ txs !! k = Some a /\ txs !! j = Some b /\ vout a !! n = Some out /\ d ∈ data_of (scriptPubKey out) /\
    contains d f = Some true /\ followed f out /\ txin ∈ vin b /\ prevout txin = {| out_hash := tx_GetHash a; out_n := Z.of_nat n |}.

Lemma spends_followed_tail tx txs f g k j : keeps f g -> usable f -> spends_followed (tx :: txs) f (S k) j -> spends_followed txs g k (Nat.pred j).
Proof.
  intros K U (a & b & n & out & d & txin & Hk & La & Lb & Lo & Id & Cd & Fo & It & Ep). destruct j as [|j]; [lia|].
  exists a, b, n, out, d, txin. split_and!; try done; [cbn; lia|by apply (contains_keeps f)|by apply (followed_keeps f)].
Qed.

Lemma match_loop_spec txs : forall i f, usable f ->
  exists vMatch matched f', match_loop i txs f = Some (vMatch, map tx_GetHash txs, matched, f') /\ keeps f f' /\ length vMatch = length txs /\
    map snd matched = selected (map tx_GetHash txs) vMatch /\
    (forall k tx key, txs !! k = Some tx -> touches tx key -> contains key f = Some true -> ((i + k)%nat, tx_GetHash tx) ∈ matched) /\
    (forall k j, spends_followed txs f k j -> exists tx, txs !! j = Some tx /\ ((i + j)%nat, tx_GetHash tx) ∈ matched) /\
    (forall n h, (n, h) ∈ matched -> exists k tx key, n = (i + k)%nat /\ txs !! k = Some tx /\ h = tx_GetHash tx /\ touches tx key /\ contains key f' = Some true).
Proof.
  induction txs as [|tx txs IH]; intros i f U; cbn [match_loop].
  { exists [], [], f. split_and!; try done; [by intros k j (a & ? & ? & ? & ? & ? & ? & ? & _)|by intros n h I%not_elem_of_nil]. }
  destruct (IsRelevantAndUpdate_spec tx f U) as (b & g & -> & K & Hin & Hout & Hfo). cbn [mbind option_bind fst snd].
  pose proof (keeps_usable _ _ K U) as Ug. destruct (IH (S i) g Ug) as (vm & ms & f' & -> & K' & L & Sel & A & B & C). cbn [mbind option_bind].
  assert (Hcons : forall x, x ∈ ms -> x ∈ (if b then (i, tx_GetHash tx) :: ms else ms)) by (intros x Hx; destruct b; [by right|done]).
  assert (A' : forall k y key, (tx :: txs) !! S k = Some y -> touches y key -> contains key g = Some true ->
    ((i + S k)%nat, tx_GetHash y) ∈ (if b then (i, tx_GetHash tx) :: ms else ms)).
  { intros k y key Ly T D. rewrite Nat.add_succ_r. by apply Hcons, (A k y key). }
  exists (b :: vm), (if b then (i, tx_GetHash tx) :: ms else ms), f'. split; [done|]. split; [by transitivity g|]. split; [cbn; by rewrite L|]. split; [|split; [|split]].
  - unfold selected in *. cbn [map zip zip_with]. rewrite filter_cons. cbn [snd]. destruct b; [rewrite decide_True by done; cbn [map snd fst]; by rewrite Sel|by rewrite decide_False].
  - intros k y key Ly T D. destruct k as [|k].
    + injection Ly as <-. rewrite (Hin key T D), Nat.add_0_r. left.
    + by apply (A' k y key); [..|apply (contains_keeps f)].
  - intros k j Sp. destruct k as [|k].
    + destruct Sp as (a & y & n & out & d & txin & Hk & La & Ly & Lo & Id & Cd & Fo & It & Ep). injection La as <-. destruct j as [|j]; [lia|].
      exists y. split; [done|]. apply (A' j y (enc c_outpoint (prevout txin))); [done|by apply touches_outpoint|].
      rewrite Ep. by apply (Hfo n out d).
    + assert (Hj : (S k < j)%nat) by (by destruct Sp as (? & ? & ? & ? & ? & ? & ? & _)). apply (spends_followed_tail tx txs f g k j K U) in Sp.
      destruct (B k (Nat.pred j) Sp) as (y & Ly & I). destruct j as [|j]; [lia|]. exists y. split; [done|]. rewrite Nat.add_succ_r. by apply Hcons.
  - intros n h I. assert (Hms : (n, h) ∈ ms -> exists k y key, n = (i + k)%nat /\ (tx :: txs) !! k = Some y /\ h = tx_GetHash y /\ touches y key /\ contains key f' = Some true).
    { intros Im. destruct (C n h Im) as (k & y & key & -> & Ly & Eh & T & D). exists (S k), y, key. split_and!; try done. lia. }
    destruct b; [|by apply Hms]. apply elem_of_cons in I as [[= -> ->]|I]; [|by apply Hms].
    destruct (Hout eq_refl) as (key & T & D). exists 0%nat, tx, key. split_and!; [lia|done|done|done|by apply (contains_keeps g)].
Qed.

(** ** Over the wire *)

(** A client's filter: the keys inserted in a new one. *)
Definition client_filter (size : nat) (funcs tweak flags : Z) (keys : list byte_list) : option CBloomFilter :=
  foldl (fun f key => f ← f; filter_insert key f) (Some (new_filter size funcs tweak flags)) keys.

Definition has_all (f : CBloomFilter) (key : byte_list) : Prop := forall j, 0 <= j < nHashFuncs f -> has_bit (vData f) (index f j key) = true.

Lemma client_filter_spec size funcs tweak flags keys : (0 < size)%nat ->
  exists f, client_filter size funcs tweak flags keys = Some f /\ keeps (new_filter size funcs tweak flags) f /\ forall key, key ∈ keys -> has_all f key.
Proof.
  intros Hs. unfold client_filter. induction keys as [|key keys (f & E & K & H)] using rev_ind.
  { exists (new_filter size funcs tweak flags). split; [done|]. split; [done|]. by intros key I%not_elem_of_nil. }
  rewrite foldl_app, E. cbn [foldl mbind option_bind].
  assert (U : usable (new_filter size funcs tweak flags)) by (right; destruct size; [lia|done]).
  destruct (filter_insert_spec key f (keeps_usable _ _ K U)) as (g & -> & K' & _ & B). exists g. split; [done|]. split; [by transitivity f|].
  intros k [I| ->%list_elem_of_singleton]%elem_of_app; intros j Hj.
  - rewrite (kp_funcs _ _ K') in Hj. rewrite (index_keeps f g) by done. apply (kp_bits _ _ K'); [|by apply H].
    assert (V : vData f <> []) by (intros V; apply (f_equal length) in V; rewrite (kp_length _ _ K) in V; cbn in V; rewrite length_replicate in V; lia).
    apply filter_Hash_index, V.
  - apply B; [by rewrite (kp_full _ _ K)|]. rewrite (kp_funcs _ _ K') in Hj. lia.
Qed.

(** What a node does with the filter it was sent: the client adds data, transactions are
    matched. *)
Inductive filter_step : CBloomFilter -> CBloomFilter -> Prop :=
| step_filteradd key f f' : filter_insert key f = Some f' -> filter_step f f'
| step_match tx b f f' : IsRelevantAndUpdate tx f = Some (b, f') -> filter_step f f'.

Lemma filter_steps_keep f f' : usable f -> rtc filter_step f f' -> keeps f f'.
Proof.
  intros U R. revert U. induction R as [f|f g h S R IH]; intros U; [done|].
  assert (K : keeps f g).
  { destruct S as [key f f' E|tx b f f' E].
    - destruct (filter_insert_spec key f U) as (x & E' & K & _). rewrite E in E'. by apply Some_inj in E' as <-.
    - destruct (IsRelevantAndUpdate_spec tx f U) as (c & x & E' & K & _). rewrite E in E'. injection E' as <- <-. done. }
  transitivity g; [done|]. apply IH. by apply (keeps_usable f).
Qed.

Lemma has_bit_nonzero v n : has_bit v n = true -> forallb (fun b => b =? 0) v = false.
Proof.
  intros B. destruct (forallb _ v) eqn:A; [|done]. unfold has_bit in B. assert (E : nth (Z.to_nat (Z.shiftr n 3)) v 0 = 0).
  { destruct (nth_in_or_default (Z.to_nat (Z.shiftr n 3)) v 0) as [I|E]; [|done]. rewrite forallb_forall in A. by apply A, Z.eqb_eq in I. }
  by rewrite E, Z.land_0_l in B.
Qed.

(** C40 What a client put into its filter is never missed.  The filter a client builds, of
    1 to 36000 bytes and with at least one hash function, can be built without a division
    by zero and is read back from the message filterload as it was sent; a node that offers
    the service takes it without complaint; and whatever data are added to it and whatever
    transactions are matched with it afterwards, each key of the client is contained. *)
Theorem filter_no_false_negatives size funcs tweak flags keys rest n :
  (0 < size)%nat -> Z.of_nat size <= MAX_BLOOM_FILTER_SIZE -> 0 < funcs < 2 ^ 32 -> word 32 tweak -> word 8 flags ->
  exists f f', client_filter size funcs tweak flags keys = Some f /\ dec c_filter (enc c_filter f ++ rest) = Ok (f', rest) /\
    exists n', handle_filter true (filterload f') n = Some (n', 0) /\ fRelayTxes n' = true /\
      forall g, rtc filter_step (pfilter n') g -> (forall key, key ∈ keys -> contains key g = Some true) /\
        forall tx, exists b g', IsRelevantAndUpdate tx g = Some (b, g') /\ (forall key, key ∈ keys -> touches tx key -> b = true).
Proof.
  intros Hs Hm Hf Ht Hw. destruct (client_filter_spec size funcs tweak flags keys Hs) as (f & E & K & A).
  pose proof (kp_length _ _ K) as Hl. pose proof (kp_funcs _ _ K) as Hn. cbn in Hl, Hn. rewrite length_replicate in Hl.
  unfold u32 in Hn. rewrite Z.mod_small in Hn by lia. unfold MAX_BLOOM_FILTER_SIZE, MAX_HASH_FUNCS in *.
  set (f' := {| vData := vData f; isFull := true; isEmpty := false; nHashFuncs := nHashFuncs f; nTweak := nTweak f; bf_nFlags := bf_nFlags f |}).
  exists f, f'. split; [done|]. split.
  { unfold c_filter. cbn [c_iso enc dec]. assert (D : dom (c_pair (c_pair (c_pair c_bytes (c_uint 4)) (c_uint 4)) (c_uint 1)) (((vData f, nHashFuncs f), nTweak f), bf_nFlags f)).
    { pose proof (kp_tweak _ _ K) as Et. pose proof (kp_flags _ _ K) as Eg. cbn [new_filter nTweak bf_nFlags] in Et, Eg. rewrite Et, Eg, Hn.
      cbn. unfold word in Ht, Hw. change (8 * Z.of_nat 4) with 32. change (8 * Z.of_nat 1) with 8.
      repeat split; try lia; [apply (kp_bytes _ _ K); cbn; by apply Forall_replicate|unfold MAX_SIZE; lia]. }
    rewrite (lawful _ rest D). done. }
  eexists. unfold handle_filter, IsWithinSizeConstraints. cbn [negb f' vData nHashFuncs]. rewrite (proj2 (Z.leb_le _ _)) by (unfold MAX_BLOOM_FILTER_SIZE; lia).
  rewrite (proj2 (Z.leb_le (nHashFuncs f) MAX_HASH_FUNCS)) by (unfold MAX_HASH_FUNCS; lia). cbn [andb negb]. split; [reflexivity|]. split; [done|].
  cbn [pfilter]. set (u := UpdateEmptyFull f'). assert (V : vData u <> []) by (cbn; intros V; rewrite V in Hl; cbn in Hl; lia).
  assert (U : usable u) by by right. intros g R. pose proof (filter_steps_keep u g U R) as Kg. pose proof (keeps_usable _ _ Kg U) as Ug.
  assert (C : forall key, key ∈ keys -> contains key g = Some true).
  { intros key I. apply (contains_keeps u); [done|done|]. unfold contains. destruct (isFull u); [done|].
    assert (B0 : has_bit (vData f) (index f 0 key) = true) by (apply A; [done|lia]).
    assert (Em : isEmpty u = false) by exact (has_bit_nonzero _ _ B0). rewrite Em.
    destruct (contains_loop_spec (Z.to_nat (nHashFuncs u)) 0 key u V) as (b & -> & H). f_equal. apply H. intros j Hj.
    apply (A key I). change (nHashFuncs u) with (nHashFuncs f) in Hj. lia. }
  split; [done|]. intros tx. destruct (IsRelevantAndUpdate_spec tx g Ug) as (b & g' & Er & _ & H & _). exists b, g'. split; [done|].
  intros key I T. apply (H key T). by apply C.
Qed.

(** The filtered block for a filter always exists; its tree extracts to the root of the
    block's Merkle tree with exactly the transactions that are announced; among these are
    all that touch a key of the filter, and all that spend an output, earlier in the block,
    whose data the filter has and that it follows; and each one touches something that the
    filter contains afterwards. *)
Theorem merkle_block_complete block f :
  usable f -> (0 < length (vtx block))%nat -> Z.of_nat (length (vtx block)) <= MAX_BLOCK_SIZE / 60 ->
  exists mb f', make_merkle_block block f = Some (mb, f') /\ mb_header mb = header block /\ keeps f f' /\
    ExtractMatches (txn mb) = Some (merkle_root (map tx_GetHash (vtx block)), map snd (vMatchedTxn mb), false) /\
    (forall k tx key, vtx block !! k = Some tx -> touches tx key -> contains key f = Some true -> (k, tx_GetHash tx) ∈ vMatchedTxn mb) /\
    (forall k j, spends_followed (vtx block) f k j -> exists tx, vtx block !! j = Some tx /\ (j, tx_GetHash tx) ∈ vMatchedTxn mb) /\
    (forall k h, (k, h) ∈ vMatchedTxn mb -> exists tx key, vtx block !! k = Some tx /\ h = tx_GetHash tx /\ touches tx key /\ contains key f' = Some true).
Proof.
  intros U H0 Hm. destruct (match_loop_spec (vtx block) 0 f U) as (vm & ms & f' & E & K & L & Sel & A & B & C).
  unfold make_merkle_block. rewrite E. cbn [mbind option_bind]. set (ids := map tx_GetHash (vtx block)) in *.
  assert (Hl : length vm = length ids) by (unfold ids; by rewrite length_map).
  destruct (built_ok ids vm Hl ltac:(rewrite <- Hl, L; done)) as (t & Et & Hn & _ & Hb). rewrite Et. cbn [mbind option_bind].
  eexists _, f'. split; [reflexivity|]. cbn [mb_header txn vMatchedTxn]. split; [done|]. split; [done|]. split; [|split; [done|split; [done|]]].
  - pose proof (extract_built ids vm t [] Hl ltac:(rewrite <- Hl, L; done) ltac:(rewrite <- Hl, L; done) Et) as X. rewrite app_nil_r in X.
    rewrite Sel. rewrite <- X by done. f_equal. by destruct t; cbn in *; subst.
  - intros k h I. destruct (C k h I) as (j & tx & key & -> & Ly & Eh & T & D). by exists tx, key.
Qed.

(** * Witnesses *)

Definition example_key : byte_list := repeat 7 20.
Definition example_node : NodeFilter := {| pfilter := default_filter; fRelayTxes := false |}.

Lemma filter_no_false_negatives_witness :
  exists f f', client_filter 16 3 5 1 [example_key] = Some f /\ dec c_filter (enc c_filter f ++ []) = Ok (f', []) /\
    exists n', handle_filter true (filterload f') example_node = Some (n', 0) /\ fRelayTxes n' = true /\
      forall g, rtc filter_step (pfilter n') g -> (forall key, key ∈ [example_key] -> contains key g = Some true) /\
        forall tx, exists b g', IsRelevantAndUpdate tx g = Some (b, g') /\ (forall key, key ∈ [example_key] -> touches tx key -> b = true).
Proof.
  assert (H1 : (0 < 16)%nat) by lia. assert (H2 : Z.of_nat 16 <= MAX_BLOOM_FILTER_SIZE) by (vm_compute; congruence).
  assert (H3 : 0 < 3 < 2 ^ 32) by lia. assert (H4 : word 32 5) by (unfold word; lia). assert (H5 : word 8 1) by (unfold word; lia).
  exact (filter_no_false_negatives 16 3 5 1 [example_key] [] example_node H1 H2 H3 H4 H5).
Defined.

(** The filter has the hash that the first transaction pays to; the second one spends it,
    the third one has nothing to do with it. *)
Definition example_filter : CBloomFilter := default default_filter (client_filter 16 3 5 1 [example_key]).
Definition paying_tx : CTransaction := {|
  tx_nVersion := 1; vin := []; vout := [{| nValue := 5; scriptPubKey := push_data [OP_DUP; OP_HASH160] example_key ++ [OP_EQUALVERIFY; OP_CHECKSIG] |}]; nLockTime := 0 |}.
Definition spending_tx (tx : CTransaction) : CTransaction := {|
  tx_nVersion := 1; vin := [{| prevout := {| out_hash := tx_GetHash tx; out_n := 0 |}; scriptSig := [OP_1]; nSequence := 0 |}]; vout := []; nLockTime := 0 |}.
Definition filtered_block : CBlock := {|
  header := {| bh_nVersion := 4; hashPrevBlock := zero W256; hashMerkleRoot := zero W256; bh_nTime := 0; bh_nBits := 0; bh_nNonce := 0 |};
  vtx := [paying_tx; spending_tx paying_tx; {| tx_nVersion := 1; vin := []; vout := []; nLockTime := 9 |}]; vchBlockSig := [] |}.

Example filtered_block_matches : (fun r => map fst (vMatchedTxn r.1)) <$> make_merkle_block filtered_block example_filter = Some [0%nat; 1%nat].
Proof. vm_compute. reflexivity. Qed.

Lemma merkle_block_complete_witness :
  exists mb f', make_merkle_block filtered_block example_filter = Some (mb, f') /\ mb_header mb = header filtered_block /\ keeps example_filter f' /\
    ExtractMatches (txn mb) = Some (merkle_root (map tx_GetHash (vtx filtered_block)), map snd (vMatchedTxn mb), false) /\
    (forall k tx key, vtx filtered_block !! k = Some tx -> touches tx key -> contains key example_filter = Some true -> (k, tx_GetHash tx) ∈ vMatchedTxn mb) /\
    (forall k j, spends_followed (vtx filtered_block) example_filter k j -> exists tx, vtx filtered_block !! j = Some tx /\ (j, tx_GetHash tx) ∈ vMatchedTxn mb) /\
    (forall k h, (k, h) ∈ vMatchedTxn mb -> exists tx key, vtx filtered_block !! k = Some tx /\ h = tx_GetHash tx /\ touches tx key /\ contains key f' = Some true).
Proof.
  assert (U : usable example_filter) by (right; intros E; apply (f_equal length) in E; vm_compute in E; congruence).
  assert (H1 : (0 < length (vtx filtered_block))%nat) by (cbn; lia).
  assert (H2 : Z.of_nat (length (vtx filtered_block)) <= MAX_BLOCK_SIZE / 60) by (vm_compute; congruence).
  exact (merkle_block_complete filtered_block example_filter U H1 H2).
Defined.
