(* ===== verification/Mempool.v ===== *)
(** The memory pool (txmempool.h, txmempool.cpp): the transactions waiting for a block,
    the index of the outputs they spend, and the view of the coins with the pool on top.

    A [CInPoint] points into the node of [mapTx] that holds the transaction.  The nodes of
    a [std::map] do not move, so a pointer is the key of its node; following it when the
    key is gone is the error [Dangling].  The lock [cs] makes each operation one step.
    The fee estimator is fed by [removeForBlock] and read by the RPC code only; it is not
    modelled. *)

From Stdlib Require Import Floats.SpecFloat.
From stdpp Require Import gmap sorting.
From S2P Require Import Prelude Uint256 Arith256 Params Subsidy Serialize Hashes Script Transaction Pubkey Coins CoinsView Validation.

(** * Sums over maps *)

Section MapSum.
Context {K A : Type} `{Countable K} (f : A -> Z).

Definition map_sum (m : gmap K A) : Z := map_fold (fun _ a s => f a + s) 0 m.

Lemma map_sum_empty : map_sum ∅ = 0.
Proof. apply map_fold_empty. Qed.

Lemma map_sum_insert m k a : m !! k = None -> map_sum (<[k := a]> m) = f a + map_sum m.
Proof. intros. apply (map_fold_insert_L (fun _ a s => f a + s)); [intros; lia|done]. Qed.

Lemma map_sum_delete m k a : m !! k = Some a -> map_sum m = f a + map_sum (delete k m).
Proof. intros. apply (map_fold_delete_L (fun _ a s => f a + s)); [intros; lia|done]. Qed.

Lemma map_sum_nonneg m : (forall a, 0 <= f a) -> 0 <= map_sum m.
Proof.
  intros Hf. induction m as [|k a m Hk IH] using map_ind; [by rewrite map_sum_empty|].
  rewrite map_sum_insert by done. specialize (Hf a). lia.
Qed.
End MapSum.

Lemma map_sum_ext {K A} `{Countable K} (f g : A -> Z) (m : gmap K A) :
  (forall k a, m !! k = Some a -> f a = g a) -> map_sum f m = map_sum g m.
Proof.
  induction m as [|k a m Hk IH] using map_ind; intros E; [by rewrite !map_sum_empty|].
  rewrite !map_sum_insert by done. f_equal; [apply (E k), lookup_insert_eq|].
  apply IH. intros k' a' Hl. apply (E k'). rewrite lookup_insert_ne; [done|]. intros <-. by rewrite Hk in Hl.
Qed.

(** * Data *)

Definition MEMPOOL_HEIGHT : Z := 0x7FFFFFFF.

Record CTxMemPoolEntry := {
  entry_tx : CTransaction;
  nFee : Z;
  nTxSize : Z;
  nModSize : Z;
  nTime : Z;
  dPriority : spec_float;
  entry_nHeight : Z
}.

(** The constructor. *)
Definition new_entry (tx : CTransaction) (fee time : Z) (priority : spec_float) (height : Z) : CTxMemPoolEntry :=
  let size := Z.of_nat (length (enc c_transaction tx)) in
  {| entry_tx := tx; nFee := fee; nTxSize := size; nModSize := CalculateModifiedSize tx size;
     nTime := time; dPriority := priority; entry_nHeight := height |}.

Definition double_add : spec_float -> spec_float -> spec_float := SFadd 53 1024.
Definition double_div : spec_float -> spec_float -> spec_float := SFdiv 53 1024.

(** [None] when [GetValueOut] throws. *)
Definition GetPriority (e : CTxMemPoolEntry) (currentHeight : Z) : option spec_float :=
  out ← GetValueOut (entry_tx e);
  let nValueIn := s64 (out + nFee e) in
  let deltaPriority :=
    double_div (double_mul (double_of_Z (u32 (currentHeight - entry_nHeight e))) (double_of_Z nValueIn)) (double_of_Z (nModSize e)) in
  Some (double_add (dPriority e) deltaPriority).

(** [ptx] is the key of the node. *)
Record CInPoint := { ptx : uint256; in_n : Z }.

Record CTxMemPool := {
  fSanityCheck : bool;
  nTransactionsUpdated : Z;
  minRelayFee : Z;
  totalTxSize : Z;
  mapTx : gmap uint256 CTxMemPoolEntry;
  mapNextTx : gmap COutPoint CInPoint;
  mapDeltas : gmap uint256 (spec_float * Z)
}.

Inductive pool_error := Dangling | NoFuel.

(** The constructor leaves [totalTxSize] out; the one pool of the program is a global, so
    that it starts at zero. *)
Definition new_pool (minRelayFee : Z) : CTxMemPool :=
  {| fSanityCheck := false; nTransactionsUpdated := 0; minRelayFee := minRelayFee; totalTxSize := 0;
     mapTx := ∅; mapNextTx := ∅; mapDeltas := ∅ |}.

Definition setSanityCheck (b : bool) (m : CTxMemPool) : CTxMemPool :=
  {| fSanityCheck := b; nTransactionsUpdated := nTransactionsUpdated m; minRelayFee := minRelayFee m;
     totalTxSize := totalTxSize m; mapTx := mapTx m; mapNextTx := mapNextTx m; mapDeltas := mapDeltas m |}.

Definition set_content (n size : Z) (txs : gmap uint256 CTxMemPoolEntry) (next : gmap COutPoint CInPoint) (m : CTxMemPool) : CTxMemPool :=
  {| fSanityCheck := fSanityCheck m; nTransactionsUpdated := n; minRelayFee := minRelayFee m;
     totalTxSize := size; mapTx := txs; mapNextTx := next; mapDeltas := mapDeltas m |}.

Definition set_deltas (d : gmap uint256 (spec_float * Z)) (m : CTxMemPool) : CTxMemPool :=
  {| fSanityCheck := fSanityCheck m; nTransactionsUpdated := nTransactionsUpdated m; minRelayFee := minRelayFee m;
     totalTxSize := totalTxSize m; mapTx := mapTx m; mapNextTx := mapNextTx m; mapDeltas := d |}.

(** * Operations *)

Definition AddTransactionsUpdated (n : Z) (m : CTxMemPool) : CTxMemPool :=
  set_content (u32 (nTransactionsUpdated m + n)) (totalTxSize m) (mapTx m) (mapNextTx m) m.

Definition exists_tx (m : CTxMemPool) (hash : uint256) : bool := bool_decide (is_Some (mapTx m !! hash)).
Definition lookup_tx (m : CTxMemPool) (hash : uint256) : option CTransaction := entry_tx <$> mapTx m !! hash.

(** The nodes in the order of the map. *)
Definition key_le (a b : uint256 * CTxMemPoolEntry) : Prop := le a.1 b.1 = true.
#[export] Instance key_le_dec : RelDecision key_le := fun a b => decide (le a.1 b.1 = true).

Definition entries (m : CTxMemPool) : list (uint256 * CTxMemPoolEntry) := merge_sort key_le (map_to_list (mapTx m)).

Definition queryHashes (m : CTxMemPool) : list uint256 := map fst (entries m).

(** The transaction an in-point points to. *)
Definition deref (m : CTxMemPool) (p : CInPoint) : result pool_error CTransaction :=
  match mapTx m !! ptx p with Some e => Ok (entry_tx e) | None => Err Dangling end.

(** The loop of [addUnchecked] over the inputs. *)
Fixpoint index_inputs (hash : uint256) (i : nat) (ins : list CTxIn) (next : gmap COutPoint CInPoint) : gmap COutPoint CInPoint :=
  match ins with
  | [] => next
  | txin :: ins => index_inputs hash (S i) ins (<[prevout txin := {| ptx := hash; in_n := Z.of_nat i |}]> next)
  end.

Definition addUnchecked (hash : uint256) (entry : CTxMemPoolEntry) (m : CTxMemPool) : CTxMemPool :=
  set_content (u32 (nTransactionsUpdated m + 1)) (u64 (totalTxSize m + nTxSize entry))
    (<[hash := entry]> (mapTx m)) (index_inputs hash 0 (vin (entry_tx entry)) (mapNextTx m)) m.

Local Open Scope result_scope.

(** The hashes of the pool's transactions that spend an output of [hash], from output [i] on. *)
Fixpoint spenders (m : CTxMemPool) (hash : uint256) (i : nat) (outs : list CTxOut) : result pool_error (list uint256) :=
  match outs with
  | [] => Ok []
  | _ :: outs =>
      match mapNextTx m !! {| out_hash := hash; out_n := Z.of_nat i |} with
      | None => spenders m hash (S i) outs
      | Some it => tx <-! deref m it ;; rest <-! spenders m hash (S i) outs ;; Ok (tx_GetHash tx :: rest)
      end
  end.

(** The end of the body of the loop of [remove]. *)
Definition erase (hash : uint256) (e : CTxMemPoolEntry) (m : CTxMemPool) : CTxMemPool :=
  set_content (u32 (nTransactionsUpdated m + 1)) (u64 (totalTxSize m - nTxSize e))
    (delete hash (mapTx m)) (foldl (fun next txin => delete (prevout txin) next) (mapNextTx m) (vin (entry_tx e))) m.

Fixpoint remove_loop (fuel : nat) (fRecursive : bool) (m : CTxMemPool) (txToRemove : list uint256) (removed : list CTransaction)
  : result pool_error (CTxMemPool * list CTransaction) :=
  match txToRemove, fuel with
  | [], _ => Ok (m, removed)
  | _, O => Err NoFuel
  | hash :: txToRemove, S fuel =>
      match mapTx m !! hash with
      | None => remove_loop fuel fRecursive m txToRemove removed
      | Some e =>
          more <-! (if fRecursive then spenders m hash 0 (vout (entry_tx e)) else Ok []) ;;
          remove_loop fuel fRecursive (erase hash e m) (txToRemove ++ more) (removed ++ [entry_tx e])
      end
  end.

(** Every turn takes an element off the queue, and every removal puts on at most one for
    each output. *)
Definition remove_fuel (m : CTxMemPool) (txToRemove : list uint256) : nat :=
  (length txToRemove + Z.to_nat (map_sum (fun e => Z.of_nat (length (vout (entry_tx e)))) (mapTx m)))%nat.

Definition remove (origTx : CTransaction) (removed : list CTransaction) (fRecursive : bool) (m : CTxMemPool)
  : result pool_error (CTxMemPool * list CTransaction) :=
  let hash := tx_GetHash origTx in
  more <-! (if fRecursive && negb (exists_tx m hash) then spenders m hash 0 (vout origTx) else Ok []) ;;
  remove_loop (remove_fuel m (hash :: more)) fRecursive m (hash :: more) removed.

Fixpoint conflicts_loop (tx : CTransaction) (ins : list CTxIn) (m : CTxMemPool) (removed : list CTransaction)
  : result pool_error (CTxMemPool * list CTransaction) :=
  match ins with
  | [] => Ok (m, removed)
  | txin :: ins =>
      match mapNextTx m !! prevout txin with
      | None => conflicts_loop tx ins m removed
      | Some it =>
          txConflict <-! deref m it ;;
          if negb (bool_decide (tx_GetHash txConflict = tx_GetHash tx)) then
            r <-! remove txConflict removed true m ;; conflicts_loop tx ins r.1 r.2
          else conflicts_loop tx ins m removed
      end
  end.

Definition removeConflicts (tx : CTransaction) (removed : list CTransaction) (m : CTxMemPool) : result pool_error (CTxMemPool * list CTransaction) :=
  conflicts_loop tx (vin tx) m removed.

Definition ClearPrioritisation (hash : uint256) (m : CTxMemPool) : CTxMemPool := set_deltas (delete hash (mapDeltas m)) m.

Definition PrioritiseTransaction (hash : uint256) (dPriorityDelta : spec_float) (nFeeDelta : Z) (m : CTxMemPool) : CTxMemPool :=
  let deltas := default (S754_zero false, 0) (mapDeltas m !! hash) in
  set_deltas (<[hash := (double_add deltas.1 dPriorityDelta, s64 (deltas.2 + nFeeDelta))]> (mapDeltas m)) m.

Definition ApplyDeltas (m : CTxMemPool) (hash : uint256) (d : spec_float * Z) : spec_float * Z :=
  match mapDeltas m !! hash with
  | None => d
  | Some deltas => (double_add d.1 deltas.1, s64 (d.2 + deltas.2))
  end.

(** The second loop of [removeForBlock]; the first feeds the fee estimator. *)
Fixpoint removeForBlock (vtx : list CTransaction) (m : CTxMemPool) (conflicts : list CTransaction)
  : result pool_error (CTxMemPool * list CTransaction) :=
  match vtx with
  | [] => Ok (m, conflicts)
  | tx :: vtx =>
      r <-! remove tx [] false m ;;
      r <-! removeConflicts tx conflicts r.1 ;;
      removeForBlock vtx (ClearPrioritisation (tx_GetHash tx) r.1) r.2
  end.

Definition clear (m : CTxMemPool) : CTxMemPool := set_content (u32 (nTransactionsUpdated m + 1)) 0 ∅ ∅ m.

(** [pruneSpent]: the outputs of [hashTx] that the pool spends, in the order of the index. *)
Definition spent_outputs (m : CTxMemPool) (hashTx : uint256) : list Z :=
  merge_sort Z.le (map (fun p => out_n p.1) (filter (fun p => out_hash p.1 = hashTx) (map_to_list (mapNextTx m)))).

(** [CCoins::Spend(int)]. *)
Definition spend_pos (cs : CCoins) (nPos : Z) : CCoins := (spend_with {| out_hash := zero W256; out_n := u32 nPos |} cs).1.

Definition pruneSpent (m : CTxMemPool) (hashTx : uint256) (coins : CCoins) : CCoins := foldl spend_pos coins (spent_outputs m hashTx).

(** ** Transactions that a reorganization made immature *)

Section Coinbase.
Context {V : Type} `{CCoinsView V} (ps : CChainParams).
Abbreviation cache := (CCoinsViewCache V).

(** Whether the transaction goes; [None] for the failed assertion. *)
Fixpoint immature_spend (m : CTxMemPool) (nMemPoolHeight : Z) (ins : list CTxIn) (c : cache) : cache * option bool :=
  match ins with
  | [] => (c, Some false)
  | txin :: ins =>
      if exists_tx m (out_hash (prevout txin)) then immature_spend m nMemPoolHeight ins c
      else
        let '(c, coins) := AccessCoins c (out_hash (prevout txin)) in
        match coins with
        | None => if fSanityCheck m then (c, None) else (c, Some true)
        | Some coins =>
            if (fCoinBase coins || fCoinStake coins) && (u32 (nMemPoolHeight - c_nHeight coins) <? COINBASE_MATURITY ps)
            then (c, Some true) else immature_spend m nMemPoolHeight ins c
        end
  end.

Fixpoint immature_txs (m : CTxMemPool) (nMemPoolHeight : Z) (es : list (uint256 * CTxMemPoolEntry)) (c : cache) : cache * option (list CTransaction) :=
  match es with
  | [] => (c, Some [])
  | (_, e) :: es =>
      let '(c, b) := immature_spend m nMemPoolHeight (vin (entry_tx e)) c in
      match b with
      | None => (c, None)
      | Some b =>
          let '(c, rest) := immature_txs m nMemPoolHeight es c in
          (c, (fun l => if b : bool then entry_tx e :: l else l) <$> rest)
      end
  end.

Fixpoint remove_all (txs : list CTransaction) (m : CTxMemPool) : result pool_error CTxMemPool :=
  match txs with
  | [] => Ok m
  | tx :: txs => r <-! remove tx [] true m ;; remove_all txs r.1
  end.

Definition removeCoinbaseSpends (nMemPoolHeight : Z) (m : CTxMemPool) (c : cache) : cache * option (result pool_error CTxMemPool) :=
  let '(c, txs) := immature_txs m nMemPoolHeight (entries m) c in
  (c, (fun l => remove_all l m) <$> txs).
End Coinbase.

(** ** The sanity check *)

Section Check.
Context {V : Type} `{CCoinsView V} (lib : secp256k1) (ps : CChainParams) (block_height : uint256 -> option Z).
Abbreviation cache := (CCoinsViewCache V).

Local Open Scope action_scope.

(** [mempoolDuplicate] is a cache over [pcoins]; an operation on [pcoins] itself. *)
Definition pcoins_op {A} (f : cache -> cache * A) : M cache A :=
  view_op (fun d => let '(c, a) := f (base d) in (set_base d c, a)).

Definition assert_that (b : bool) : M cache unit := if b then mret tt else stop.

(** An action that starts from a state of its own and must not fail. *)
Definition assert_accepts {A} (act : M cache A) : M cache A := fun d st =>
  match act d valid_state with Done d _ a => Done d st a | _ => Stop end.

(** The inputs of the entry under [key]; whether it depends on another entry. *)
Fixpoint check_entry_inputs (m : CTxMemPool) (key : uint256) (i : nat) (ins : list CTxIn) (fDependsWait : bool) : M cache bool :=
  match ins with
  | [] => mret fDependsWait
  | txin :: ins =>
      let n := out_n (prevout txin) in
      wait <-- match mapTx m !! out_hash (prevout txin) with
               | Some e2 =>
                   _ <-- assert_that match vout (entry_tx e2) !! Z.to_nat n with None => false | Some o => negb (txout_IsNull o) end ;;
                   mret true
               | None =>
                   coins <-- pcoins_op (fun c => AccessCoins c (out_hash (prevout txin))) ;;
                   _ <-- assert_that match coins with None => false | Some coins => IsAvailable coins n end ;;
                   mret fDependsWait
               end ;;
      _ <-- assert_that match mapNextTx m !! prevout txin with
                        | None => false
                        | Some it3 => bool_decide (ptx it3 = key) && (in_n it3 =? Z.of_nat i)
                        end ;;
      check_entry_inputs m key (S i) ins wait
  end.

Definition check_spends (tx : CTransaction) : M cache unit :=
  _ <-- assert_accepts (CheckInputs lib ps block_height tx false 0 false) ;;
  _ <-- assert_accepts (UpdateCoins tx 1000000) ;;
  mret tt.

Fixpoint check_entries (m : CTxMemPool) (es : list (uint256 * CTxMemPoolEntry)) (checkTotal : Z) (waiting : list CTransaction)
  : M cache (Z * list CTransaction) :=
  match es with
  | [] => mret (checkTotal, waiting)
  | (key, e) :: es =>
      wait <-- check_entry_inputs m key 0 (vin (entry_tx e)) false ;;
      _ <-- (if wait then mret tt else check_spends (entry_tx e)) ;;
      check_entries m es (u64 (checkTotal + nTxSize e)) (if wait then waiting ++ [entry_tx e] else waiting)
  end.

(** The loop over the entries that wait for others; it ends in [inr] when the fuel runs out. *)
Fixpoint check_waiting (fuel : nat) (waiting : list CTransaction) (stepsSinceLastRemove : nat) : M cache (unit + unit) :=
  match waiting, fuel with
  | [], _ => mret (inl tt)
  | _, O => mret (inr tt)
  | tx :: waiting, S fuel =>
      have <-- view_op (fun d => HaveInputs d tx) ;;
      if have then
        _ <-- check_spends tx ;; check_waiting fuel waiting 0
      else
        _ <-- assert_that (S stepsSinceLastRemove <? length (waiting ++ [tx]))%nat ;;
        check_waiting fuel (waiting ++ [tx]) (S stepsSinceLastRemove)
  end.

(** Enough for [n] entries: before each removal fewer steps than there are entries. *)
Definition waiting_fuel (n : nat) : nat := (n * n + n)%nat.

(** The loop over the index. *)
Definition check_next (m : CTxMemPool) (p : COutPoint * CInPoint) : bool :=
  match mapTx m !! ptx p.2 with
  | None => false
  | Some e =>
      exists_tx m (tx_GetHash (entry_tx e)) && bool_decide (tx_GetHash (entry_tx e) = ptx p.2)
      && match vin (entry_tx e) !! Z.to_nat (in_n p.2) with
         | None => false
         | Some i => bool_decide (p.1 = prevout i)
         end
  end.

Definition check (m : CTxMemPool) : M cache (unit + unit) :=
  if negb (fSanityCheck m) then mret (inl tt)
  else
    r <-- check_entries m (entries m) 0 [] ;;
    w <-- check_waiting (waiting_fuel (length r.2)) r.2 0 ;;
    _ <-- assert_that (forallb (check_next m) (map_to_list (mapNextTx m))) ;;
    _ <-- assert_that (totalTxSize m =? r.1) ;;
    mret w.
End Check.

(** ** The view of the coins with the pool on top: [CCoinsViewMemPool] *)

Record CCoinsViewMemPool (V : Type) := { vmp_base : V; vmp_pool : CTxMemPool }.
Arguments vmp_base {V}.
Arguments vmp_pool {V}.
Arguments Build_CCoinsViewMemPool {V}.

Section View.
Context {V : Type} `{CCoinsView V}.

Definition mempool_GetCoins (v : CCoinsViewMemPool V) (txid : uint256) : CCoinsViewMemPool V * option CCoins :=
  match lookup_tx (vmp_pool v) txid with
  | Some tx => (v, Some (FromTx tx MEMPOOL_HEIGHT))
  | None =>
      let '(b, r) := GetCoins (vmp_base v) txid in
      (Build_CCoinsViewMemPool b (vmp_pool v),
       match r with Some coins => if IsPruned coins then None else Some coins | None => None end)
  end.

Definition mempool_HaveCoins (v : CCoinsViewMemPool V) (txid : uint256) : CCoinsViewMemPool V * bool :=
  if exists_tx (vmp_pool v) txid then (v, true)
  else let '(b, r) := HaveCoins (vmp_base v) txid in (Build_CCoinsViewMemPool b (vmp_pool v), r).

(** What it does not redefine goes to [base]. *)
#[export] Instance CCoinsViewMemPool_view : CCoinsView (CCoinsViewMemPool V) := {
  GetCoins := mempool_GetCoins;
  HaveCoins := mempool_HaveCoins;
  GetBestBlock v := let '(b, h) := GetBestBlock (vmp_base v) in (Build_CCoinsViewMemPool b (vmp_pool v), h);
  BatchWrite v m h := (r <-! BatchWrite (vmp_base v) m h ;; Ok (Build_CCoinsViewMemPool r.1 (vmp_pool v), r.2))%result
}.
End View.

(** * The invariant *)

(** The pool knows its transactions by their hashes, the index is exactly the inputs of
    these transactions (so that no two spend the same output), and the total is the sum
    of the sizes. *)
Record pool_ok (m : CTxMemPool) : Prop := {
  ok_key h e : mapTx m !! h = Some e -> tx_GetHash (entry_tx e) = h;
  ok_size h e : mapTx m !! h = Some e -> nTxSize e = Z.of_nat (length (enc c_transaction (entry_tx e)));
  ok_index o p : mapNextTx m !! o = Some p <->
    exists e i txin, mapTx m !! ptx p = Some e /\ in_n p = Z.of_nat i /\ vin (entry_tx e) !! i = Some txin /\ prevout txin = o;
  ok_total : totalTxSize m = u64 (map_sum nTxSize (mapTx m))
}.

Lemma new_pool_ok fee : pool_ok (new_pool fee).
Proof.
  split; cbn; try done. intros o p. split; [by rewrite lookup_empty|].
  intros (e & i & txin & He & _). by rewrite lookup_empty in He.
Qed.

Lemma lookup_deletes {A} (ins : list CTxIn) (next : gmap COutPoint A) o :
  foldl (fun next txin => delete (prevout txin) next) next ins !! o = if decide (o ∈ map prevout ins) then None else next !! o.
Proof.
  revert next. induction ins as [|i ins IH]; intros next; [done|]. cbn [foldl map]. rewrite IH.
  destruct (decide (o ∈ map prevout ins)) as [Hi|Hi].
  - by rewrite decide_True by (by apply elem_of_cons; right).
  - destruct (decide (o = prevout i)) as [->|Hne].
    + rewrite decide_True by (by apply elem_of_cons; left). apply lookup_delete_eq.
    + rewrite decide_False by (intros [?|?]%elem_of_cons; done). by apply lookup_delete_ne.
Qed.

Lemma lookup_index_inputs hash ins : NoDup (map prevout ins) -> forall i next o p,
  index_inputs hash i ins next !! o = Some p <->
  (exists j txin, ins !! j = Some txin /\ prevout txin = o /\ p = Build_CInPoint hash (Z.of_nat (i + j))) \/
  ((o ∉ map prevout ins) /\ next !! o = Some p).
Proof.
  induction ins as [|x ins IH]; cbn [map index_inputs]; intros Hn i next o p.
  - split; [intros ?; right; split; [apply not_elem_of_nil|done]|]. by intros [(j & y & Hj & _)|[_ ?]].
  - apply NoDup_cons in Hn as [Hx Hn]. rewrite (IH Hn). split.
    + intros [(j & y & Hj & Ho & ->)|[Ho Hp]].
      * left. exists (S j), y. split; [done|]. split; [done|]. by rewrite Nat.add_succ_r.
      * destruct (decide (o = prevout x)) as [->|Hne].
        -- rewrite lookup_insert_eq in Hp. apply Some_inj in Hp. subst p. left. exists O, x. by rewrite Nat.add_0_r.
        -- rewrite lookup_insert_ne in Hp by done. right. split; [|done]. by intros [?|?]%elem_of_cons.
    + intros [([|j] & y & Hj & Ho & ->)|[Ho Hp]].
      * cbn in Hj. apply Some_inj in Hj. subst y o. right. rewrite lookup_insert_eq, Nat.add_0_r. done.
      * left. exists j, y. split; [done|]. split; [done|]. by rewrite Nat.add_succ_r.
      * right. apply not_elem_of_cons in Ho as [Hne Ho]. by rewrite lookup_insert_ne.
Qed.

(** ** Every operation keeps it *)

(** What [AcceptToMemoryPool] has checked. *)
Record may_add (m : CTxMemPool) (tx : CTransaction) : Prop := {
  add_new : mapTx m !! tx_GetHash tx = None;
  add_distinct : NoDup (map prevout (vin tx));
  add_unspent : Forall (fun o => mapNextTx m !! o = None) (map prevout (vin tx))
}.

Lemma addUnchecked_ok m tx fee time pri height : pool_ok m -> may_add m tx ->
  pool_ok (addUnchecked (tx_GetHash tx) (new_entry tx fee time pri height) m).
Proof.
  intros [Hk Hs Hi Ht] [An Ad Au]. set (h := tx_GetHash tx) in *. set (e := new_entry tx fee time pri height).
  split; unfold addUnchecked, set_content; cbn [mapTx mapNextTx totalTxSize].
  - intros h' e'. destruct (decide (h' = h)) as [->|Hne]; [rewrite lookup_insert_eq|rewrite lookup_insert_ne by done; apply Hk].
    intros E. apply Some_inj in E. by subst e'.
  - intros h' e'. destruct (decide (h' = h)) as [->|Hne]; [rewrite lookup_insert_eq|rewrite lookup_insert_ne by done; apply Hs].
    intros E. apply Some_inj in E. by subst e'.
  - intros o p. change (vin (entry_tx e)) with (vin tx). rewrite (lookup_index_inputs h (vin tx) Ad). split.
    + intros [(j & txin & Hj & Ho & ->)|[Ho Hp]].
      * exists e, j, txin. cbn [ptx in_n]. by rewrite lookup_insert_eq.
      * apply Hi in Hp as (e' & j & txin & He' & Hr). exists e', j, txin. split; [|done].
        rewrite lookup_insert_ne; [done|]. intros E. rewrite <- E in He'. congruence.
    + intros (e' & j & txin & He' & Hn & Hj & Ho). destruct (decide (ptx p = h)) as [E|E].
      * rewrite E, lookup_insert_eq in He'. apply Some_inj in He'. subst e'. left. exists j, txin.
        split; [done|]. split; [done|]. destruct p; cbn in *. by subst.
      * rewrite lookup_insert_ne in He' by done. right.
        assert (Hp : mapNextTx m !! o = Some p) by (apply Hi; eauto 10).
        split; [|done]. intros Hin. rewrite Forall_forall in Au. rewrite (Au _ Hin) in Hp. done.
  - rewrite map_sum_insert by done. rewrite Ht. wunfold. rewrite Z.add_mod_idemp_l by done. f_equal. cbn. lia.
Qed.

Lemma erase_ok m h e : pool_ok m -> mapTx m !! h = Some e -> pool_ok (erase h e m).
Proof.
  intros [Hk Hs Hi Ht] He. split; unfold erase, set_content; cbn [mapTx mapNextTx totalTxSize].
  - intros h' e' [_ E]%lookup_delete_Some. by apply Hk.
  - intros h' e' [_ E]%lookup_delete_Some. by apply (Hs h').
  - intros o p. rewrite lookup_deletes. case_decide as Hin.
    + split; [done|]. intros (e' & j & txin & He' & Hn & Hj & Ho). apply lookup_delete_Some in He' as [Hne He'].
      exfalso. apply list_elem_of_fmap in Hin as (x & Hx & Hin). apply list_elem_of_lookup_1 in Hin as [j' Hin].
      assert (E1 : mapNextTx m !! o = Some {| ptx := h; in_n := Z.of_nat j' |}) by (apply Hi; eauto 10).
      assert (E2 : mapNextTx m !! o = Some p) by (apply Hi; eauto 10).
      rewrite E1 in E2. apply Some_inj in E2. by subst p.
    + rewrite Hi. split; intros (e' & j & txin & He' & Hn & Hj & Ho).
      * exists e', j, txin. split; [|done]. apply lookup_delete_Some. split; [|done]. intros E.
        rewrite <- E, He in He'. apply Some_inj in He'. subst e'. apply Hin. subst o.
        apply list_elem_of_fmap. exists txin. split; [done|]. by apply list_elem_of_lookup_2 in Hj.
      * apply lookup_delete_Some in He' as [_ He']. eauto 10.
  - rewrite Ht, (map_sum_delete _ _ _ _ He). wunfold. rewrite Zminus_mod_idemp_l. f_equal. lia.
Qed.

(** No two transactions of the pool spend the same output. *)
Lemma pool_no_double_spend m h1 h2 e1 e2 i1 i2 : pool_ok m ->
  mapTx m !! h1 = Some e1 -> mapTx m !! h2 = Some e2 ->
  i1 ∈ vin (entry_tx e1) -> i2 ∈ vin (entry_tx e2) -> prevout i1 = prevout i2 -> h1 = h2.
Proof.
  intros P H1 H2 [j1 I1]%list_elem_of_lookup_1 [j2 I2]%list_elem_of_lookup_1 E.
  assert (A1 : mapNextTx m !! prevout i1 = Some {| ptx := h1; in_n := Z.of_nat j1 |}) by (apply (ok_index _ P); eauto 10).
  assert (A2 : mapNextTx m !! prevout i1 = Some {| ptx := h2; in_n := Z.of_nat j2 |}) by (apply (ok_index _ P); eauto 10).
  rewrite A1 in A2. by injection A2.
Qed.

(** * Removal *)

(** [b] spends an output that [a] has. *)
Definition child (a b : CTransaction) : Prop :=
  exists txin, txin ∈ vin b /\ out_hash (prevout txin) = tx_GetHash a /\ 0 <= out_n (prevout txin) < Z.of_nat (length (vout a)).

Definition in_pool (m : CTxMemPool) (tx : CTransaction) : Prop := entry_tx <$> mapTx m !! tx_GetHash tx = Some tx.

(** The pool's own transaction with the hash of [tx], or [tx]. *)
Definition resolve (m : CTxMemPool) (tx : CTransaction) : CTransaction := default tx (lookup_tx m (tx_GetHash tx)).

(** [tx] and what depends on it, through transactions of the pool. *)
Definition descends (m : CTxMemPool) : CTransaction -> CTransaction -> Prop := rtc (fun a b => child a b /\ in_pool m b).

Lemma in_pool_iff m tx : pool_ok m -> in_pool m tx <-> exists h e, mapTx m !! h = Some e /\ entry_tx e = tx.
Proof.
  intros P. unfold in_pool. split.
  - intros (e & He & Ht)%fmap_Some. eauto.
  - intros (h & e & He & <-). rewrite (ok_key _ P _ _ He). by rewrite He.
Qed.

(** The index finds the spender of an output. *)
Lemma index_spender m b txin : pool_ok m -> in_pool m b -> txin ∈ vin b ->
  exists j, mapNextTx m !! prevout txin = Some (Build_CInPoint (tx_GetHash b) j).
Proof.
  intros P (e & He & Ht)%fmap_Some [j Hj]%list_elem_of_lookup_1. exists (Z.of_nat j).
  apply (ok_index _ P). rewrite Ht in Hj. by exists e, j, txin.
Qed.

Lemma index_inv m o p : pool_ok m -> mapNextTx m !! o = Some p ->
  exists b txin, deref m p = Ok b /\ in_pool m b /\ tx_GetHash b = ptx p /\ txin ∈ vin b /\ prevout txin = o.
Proof.
  intros P (e & j & txin & He & _ & Hj & Ho)%(ok_index _ P). pose proof (ok_key _ P _ _ He) as Hk.
  exists (entry_tx e), txin. unfold deref, in_pool. rewrite Hk, He. repeat split; try done.
  by apply list_elem_of_lookup_2 in Hj.
Qed.

Lemma spenders_spec m hash outs : pool_ok m -> forall i,
  exists l, spenders m hash i outs = Ok l /\ (length l <= length outs)%nat /\
    forall h, h ∈ l <-> exists b txin, in_pool m b /\ tx_GetHash b = h /\ txin ∈ vin b /\
      out_hash (prevout txin) = hash /\ Z.of_nat i <= out_n (prevout txin) < Z.of_nat (i + length outs).
Proof.
  intros P. induction outs as [|x outs IH]; intros i; cbn [spenders length].
  { exists []. split; [done|]. split; [cbn; lia|]. intros h. split; [by intros ?%elem_of_nil|]. intros (b & txin & _ & _ & _ & _ & H). lia. }
  destruct (IH (S i)) as (l & El & Hlen & Hl).
  destruct (mapNextTx m !! {| out_hash := hash; out_n := Z.of_nat i |}) as [it|] eqn:E.
  - destruct (index_inv _ _ _ P E) as (b & txin & Hd & Hb & Hkey & Hin & Ho). rewrite Hd, El. cbn [rbind].
    exists (tx_GetHash b :: l). split; [done|]. split; [cbn [length]; lia|]. intros h. rewrite elem_of_cons, Hl. split.
    + intros [->|(b' & y & H)]; [|exists b', y; split_and!; try apply H; lia].
      exists b, txin. rewrite Ho. cbn [out_hash out_n]. split_and!; try done; lia.
    + intros (b' & y & Hb' & Hk' & Hy & Hh & Hn).
      destruct (decide (out_n (prevout y) = Z.of_nat i)) as [En|En]; [left|right; exists b', y; split_and!; try done; lia].
      destruct (index_spender _ _ _ P Hb' Hy) as [j Hj].
      replace (prevout y) with (Build_COutPoint hash (Z.of_nat i)) in Hj by (destruct (prevout y); cbn in *; by subst).
      rewrite E in Hj. apply Some_inj in Hj. subst it. by rewrite Hkey, <- Hk'.
  - rewrite El. exists l. split; [done|]. split; [lia|]. intros h. rewrite Hl. split; intros (b & y & Hb & Hk & Hy & Hh & Hn).
    + exists b, y. split_and!; try done; lia.
    + exists b, y. split_and!; try done; [|lia]. destruct (decide (out_n (prevout y) = Z.of_nat i)) as [En|]; [|lia].
      destruct (index_spender _ _ _ P Hb Hy) as [j Hj].
      replace (prevout y) with (Build_COutPoint hash (Z.of_nat i)) in Hj by (destruct (prevout y); cbn in *; by subst).
      by rewrite E in Hj.
Qed.

(** The children found for [a] are the hashes of its children in the pool. *)
Lemma spenders_children m a : pool_ok m ->
  exists l, spenders m (tx_GetHash a) 0 (vout a) = Ok l /\ (length l <= length (vout a))%nat /\
    forall h, h ∈ l <-> exists b, in_pool m b /\ tx_GetHash b = h /\ child a b.
Proof.
  intros P. destruct (spenders_spec m (tx_GetHash a) (vout a) P 0) as (l & El & Hlen & Hl). exists l. split; [done|]. split; [done|].
  intros h. rewrite Hl. unfold child. split.
  - intros (b & y & ?). exists b. split_and!; try apply H. exists y. split_and!; try apply H; lia.
  - intros (b & Hb & Hk & y & ?). exists b, y. split_and!; try apply H; try done; lia.
Qed.

Definition queue_fuel (m : CTxMemPool) : Z := map_sum (fun e => Z.of_nat (length (vout (entry_tx e)))) (mapTx m).

(** The loop has removed [r] from [m0], [q] is still to do. *)
Record removing (m0 : CTxMemPool) (root : CTransaction) (m : CTxMemPool) (q : list uint256) (r : list CTransaction) : Prop := {
  rm_ok : pool_ok m;
  rm_map h : mapTx m !! h = if decide (h ∈ map tx_GetHash r) then None else mapTx m0 !! h;
  rm_nodup : NoDup (map tx_GetHash r);
  rm_desc b : b ∈ r -> in_pool m0 b /\ descends m0 root b;
  rm_queue b : tx_GetHash b ∈ q -> in_pool m0 b -> descends m0 root b;
  rm_closed a b : a ∈ r \/ (a = root /\ ~ in_pool m0 root) -> child a b -> in_pool m0 b -> tx_GetHash b ∈ q \/ b ∈ r;
  rm_root : in_pool m0 root -> tx_GetHash root ∈ q \/ root ∈ r
}.

Lemma in_pool_unique m a b : in_pool m a -> in_pool m b -> tx_GetHash a = tx_GetHash b -> a = b.
Proof. unfold in_pool. intros A B E. rewrite E in A. rewrite A in B. by apply Some_inj in B. Qed.

(** What is in the pool later was there before, and what is gone has been removed. *)
Lemma removing_in_pool m0 root m q r b : removing m0 root m q r -> in_pool m b <-> in_pool m0 b /\ b ∉ r.
Proof.
  intros R. unfold in_pool at 1. rewrite (rm_map _ _ _ _ _ R). case_decide as D.
  - split; [done|]. intros [Hb Hn]. exfalso. apply Hn. apply list_elem_of_fmap in D as (a & Ea & Ha).
    by rewrite (in_pool_unique m0 b a Hb (proj1 (rm_desc _ _ _ _ _ R a Ha)) Ea).
  - split; [|by intros []]. intros Hb. split; [done|]. intros Hr. apply D. apply list_elem_of_fmap. by exists b.
Qed.

(** The hash taken off the queue is not in the pool any more, or never was. *)
Lemma removing_skip m0 root m h q r : removing m0 root m (h :: q) r -> mapTx m !! h = None -> removing m0 root m q r.
Proof.
  intros R E. assert (G : forall b, in_pool m0 b -> tx_GetHash b ∈ h :: q -> tx_GetHash b ∈ q \/ b ∈ r).
  { intros b Hb [Hh|Hq]%elem_of_cons; [|by left]. destruct (decide (b ∈ r)); [by right|]. exfalso.
    assert (Hm : in_pool m b) by (by apply (removing_in_pool _ _ _ _ _ _ R)). unfold in_pool in Hm. by rewrite Hh, E in Hm. }
  destruct R as [R1 R2 R3 R4 R5 R6 R7]. split; try done.
  - intros b Hq. apply R5. by apply elem_of_cons; right.
  - intros a b Ha Hc Hb. destruct (R6 a b Ha Hc Hb); [|by right]. by apply G.
  - intros Hr. destruct (R7 Hr); [|by right]. by apply G.
Qed.

Lemma removing_erase m0 root m h q r e l : removing m0 root m (h :: q) r -> mapTx m !! h = Some e ->
  (forall h', h' ∈ l <-> exists b, in_pool m b /\ tx_GetHash b = h' /\ child (entry_tx e) b) ->
  removing m0 root (erase h e m) (q ++ l) (r ++ [entry_tx e]).
Proof.
  intros R E L. pose proof (ok_key _ (rm_ok _ _ _ _ _ R) _ _ E) as Hk.
  assert (Hm : in_pool m (entry_tx e)) by (unfold in_pool; by rewrite Hk, E).
  pose proof Hm as [Hm0 Hr]%(removing_in_pool _ _ _ _ _ _ R).
  assert (G : forall b, in_pool m0 b -> tx_GetHash b ∈ h :: q -> tx_GetHash b ∈ q ++ l \/ b ∈ r ++ [entry_tx e]).
  { intros b Hb [Hh|Hq]%elem_of_cons; [|left; by apply elem_of_app; left]. right. apply elem_of_app. right. apply list_elem_of_singleton.
    apply (in_pool_unique m0); [done..|]. by rewrite Hk. }
  assert (D : descends m0 root (entry_tx e)) by (apply (rm_queue _ _ _ _ _ R); [rewrite Hk; by apply elem_of_cons; left|done]).
  pose proof R as [R1 R2 R3 R4 R5 R6 R7]. split.
  - by apply erase_ok.
  - intros h'. rewrite map_app. cbn [map]. unfold erase, set_content. cbn [mapTx].
    destruct (decide (h' = h)) as [->|Hne].
    + rewrite lookup_delete_eq, decide_True; [done|]. apply elem_of_app. right. by apply list_elem_of_singleton.
    + rewrite lookup_delete_ne by done. rewrite R2. apply decide_ext. rewrite elem_of_app, list_elem_of_singleton, Hk.
      split; [by left|by intros [?|?]].
  - rewrite map_app. apply NoDup_app. split; [done|]. split; [|apply NoDup_singleton]. cbn [map]. intros h' Hr' Hs%list_elem_of_singleton.
    apply list_elem_of_fmap in Hr' as (a & Ea & Ha). apply Hr.
    rewrite <- (in_pool_unique m0 a (entry_tx e)); [done|by apply R4|done|congruence].
  - intros b [Hb|Hb%list_elem_of_singleton]%elem_of_app; [by apply R4|]. by subst b.
  - intros b [Hb|Hb]%elem_of_app Hb0; [apply R5; [by apply elem_of_cons; right|done]|].
    apply L in Hb as (b' & Hb' & Eb & Hc). apply (removing_in_pool _ _ _ _ _ _ R) in Hb' as [Hb' _].
    rewrite <- (in_pool_unique m0 b' b Hb' Hb0 Eb). eapply rtc_r; [exact D|done].
  - intros a b [[Ha|Ha%list_elem_of_singleton]%elem_of_app|Ha] Hc Hb.
    + destruct (R6 a b (or_introl Ha) Hc Hb) as [Hq|Hq]; [by apply G|right; by apply elem_of_app; left].
    + subst a. destruct (decide (b ∈ r)); [right; by apply elem_of_app; left|]. left. apply elem_of_app. right. apply L.
      exists b. split_and!; try done. by apply (removing_in_pool _ _ _ _ _ _ R).
    + destruct (R6 a b (or_intror Ha) Hc Hb) as [Hq|Hq]; [by apply G|right; by apply elem_of_app; left].
  - intros Hroot. destruct (R7 Hroot) as [Hq|Hq]; [by apply G|right; by apply elem_of_app; left].
Qed.

Lemma queue_fuel_nonneg m : 0 <= queue_fuel m.
Proof. apply map_sum_nonneg. intros; lia. Qed.

Lemma queue_fuel_erase m h e : mapTx m !! h = Some e -> queue_fuel m = Z.of_nat (length (vout (entry_tx e))) + queue_fuel (erase h e m).
Proof. apply (map_sum_delete (fun e => Z.of_nat (length (vout (entry_tx e))))). Qed.

Lemma remove_loop_spec m0 root fuel : forall m q r pre, removing m0 root m q r ->
  (length q + Z.to_nat (queue_fuel m) <= fuel)%nat ->
  exists m' r', remove_loop fuel true m q (pre ++ r) = Ok (m', pre ++ r') /\ removing m0 root m' [] r'.
Proof.
  induction fuel as [|fuel IH]; intros m [|h q] r pre R Hf; cbn [remove_loop]; cbn [length] in Hf; try lia; [by exists m, r..|].
  destruct (mapTx m !! h) as [e|] eqn:E.
  - pose proof (ok_key _ (rm_ok _ _ _ _ _ R) _ _ E) as Hk.
    destruct (spenders_children m (entry_tx e) (rm_ok _ _ _ _ _ R)) as (l & El & Hlen & Hl).
    rewrite Hk in El. rewrite El. cbn [rbind]. rewrite <- app_assoc.
    apply IH; [by apply removing_erase|]. rewrite length_app.
    pose proof (queue_fuel_erase m h e E). pose proof (queue_fuel_nonneg (erase h e m)). lia.
  - apply IH; [by apply removing_skip with h|lia].
Qed.

(** Once the queue is empty, everything that descends from the root is gone. *)
Lemma removing_done m0 root m r b : removing m0 root m [] r -> in_pool m0 b -> descends m0 root b -> b ∈ r.
Proof.
  intros R Hb Hd. revert b Hd Hb.
  apply (rtc_ind_r (fun b => in_pool m0 b -> b ∈ r)); [|intros y z Hy [Hc Hz] IH].
  - intros Hb. destruct (rm_root _ _ _ _ _ R Hb) as [H%elem_of_nil|H]; done.
  - intros _. enough (Hy' : y ∈ r \/ (y = root /\ ~ in_pool m0 root)).
    { destruct (rm_closed _ _ _ _ _ R y z Hy' Hc Hz) as [H%elem_of_nil|H]; done. }
    destruct (decide (entry_tx <$> mapTx m0 !! tx_GetHash y = Some y)) as [Hp|Hp]; [left; by apply IH|right].
    apply rtc_inv_r in Hy as [<-|(y' & _ & _ & Hp')]; [done|by destruct Hp].
Qed.

Lemma resolve_hash m tx : pool_ok m -> tx_GetHash (resolve m tx) = tx_GetHash tx.
Proof.
  intros P. unfold resolve, lookup_tx. destruct (mapTx m !! tx_GetHash tx) as [e|] eqn:E; [|done]. cbn. by apply (ok_key _ P).
Qed.

Lemma resolve_new m tx : mapTx m !! tx_GetHash tx = None -> resolve m tx = tx.
Proof. unfold resolve, lookup_tx. by intros ->. Qed.

Lemma resolve_in_pool m tx : pool_ok m -> in_pool m (resolve m tx) <-> is_Some (mapTx m !! tx_GetHash tx).
Proof.
  intros P. unfold in_pool. rewrite resolve_hash by done. unfold resolve, lookup_tx.
  by destruct (mapTx m !! tx_GetHash tx); cbn; split; try done; intros [].
Qed.

Lemma removing_start m root q : pool_ok m ->
  (forall b, tx_GetHash b ∈ q -> in_pool m b -> descends m root b) ->
  (forall b, ~ in_pool m root -> child root b -> in_pool m b -> tx_GetHash b ∈ q) ->
  (in_pool m root -> tx_GetHash root ∈ q) -> removing m root m q [].
Proof.
  intros P H1 H2 H3. split; cbn [map].
  - done.
  - intros h. by rewrite decide_False by (by intros ?%elem_of_nil).
  - apply NoDup_nil_2.
  - by intros b ?%elem_of_nil.
  - done.
  - intros a b [?%elem_of_nil|[-> Hn]] Hc Hb; [done|]. left. by apply H2.
  - intros Hr. left. by apply H3.
Qed.

(** [remove] in its recursive form, for any pool that satisfies the invariant. *)
Lemma remove_recursive_spec tx pre m : pool_ok m ->
  exists m' r, remove tx pre true m = Ok (m', pre ++ r) /\ removing m (resolve m tx) m' [] r.
Proof.
  intros P. unfold remove, exists_tx. cbn [andb]. set (h := tx_GetHash tx).
  assert (G : forall l, removing m (resolve m tx) m (h :: l) [] ->
    exists m' r, remove_loop (remove_fuel m (h :: l)) true m (h :: l) pre = Ok (m', pre ++ r) /\ removing m (resolve m tx) m' [] r).
  { intros l R. pose proof (remove_loop_spec m _ (remove_fuel m (h :: l)) m (h :: l) [] pre R) as G. rewrite app_nil_r in G.
    apply G. unfold remove_fuel, queue_fuel. lia. }
  assert (Q : forall b, tx_GetHash b = h -> in_pool m b -> descends m (resolve m tx) b).
  { intros b Hb Hp. replace (resolve m tx) with b; [constructor|]. apply (in_pool_unique m); [done| |by rewrite resolve_hash].
    apply resolve_in_pool; [done|]. fold h. rewrite <- Hb. unfold in_pool in Hp. by destruct (mapTx m !! tx_GetHash b). }
  case_bool_decide as Hin; cbn [negb].
  - cbn [rbind]. apply G, removing_start; [done|..].
    + intros b Hb%list_elem_of_singleton. by apply Q.
    + intros b Hn. exfalso. apply Hn. by apply resolve_in_pool.
    + intros _. rewrite resolve_hash by done. by apply list_elem_of_singleton.
  - destruct (spenders_children m tx P) as (l & El & _ & Hl). fold h in El. rewrite El. cbn [rbind].
    assert (Hr : resolve m tx = tx) by (apply resolve_new; fold h; by apply eq_None_not_Some).
    apply G, removing_start; [done|..].
    + intros b [Hb|Hb]%elem_of_cons Hp; [by apply Q|]. apply Hl in Hb as (b' & Hb' & Eb & Hc).
      rewrite Hr. apply rtc_once. split; [|done]. by rewrite <- (in_pool_unique m b' b Hb' Hp Eb).
    + rewrite Hr. intros b _ Hc Hb. apply elem_of_cons. right. apply Hl. by exists b.
    + intros Hn. exfalso. apply Hin. by apply resolve_in_pool.
Qed.

(** Removing a transaction recursively always ends without following a stale pointer,
    whatever the transaction.  It keeps the invariant, and it takes out exactly the
    pool's transaction of that hash, when there is one, and the transactions of the pool
    that depend on it through outputs it has; these, each once, are appended to the list
    of the removed.  The children of a transaction that is not in the pool go as well. *)
Theorem remove_recursive_correct tx pre m : pool_ok m ->
  exists m' r, remove tx pre true m = Ok (m', pre ++ r) /\ pool_ok m' /\ NoDup (map tx_GetHash r) /\
    (forall b, b ∈ r <-> in_pool m b /\ descends m (resolve m tx) b) /\
    (forall b, in_pool m' b <-> in_pool m b /\ ~ descends m (resolve m tx) b).
Proof.
  intros P. destruct (remove_recursive_spec tx pre m P) as (m' & r & E & R).
  exists m', r. split; [done|]. split; [apply R|]. split; [apply R|].
  assert (D : forall b, b ∈ r <-> in_pool m b /\ descends m (resolve m tx) b).
  { intros b. split; [apply R|]. intros []. by apply (removing_done _ _ _ _ _ R). }
  split; [done|]. intros b. rewrite (removing_in_pool _ _ _ _ _ _ R), D. split; [intros []; split; [done|]; tauto|intros []; split; [done|]; tauto].
Qed.

Lemma remove_loop_nil fuel rec m r : remove_loop fuel rec m [] r = Ok (m, r).
Proof. by destruct fuel. Qed.

(** [remove] without its recursion takes out the transaction of that hash only. *)
Lemma remove_plain_spec tx pre m : pool_ok m ->
  exists m' r, remove tx pre false m = Ok (m', pre ++ r) /\ pool_ok m' /\
    (forall b, in_pool m' b <-> in_pool m b /\ tx_GetHash b <> tx_GetHash tx).
Proof.
  intros P. unfold remove. cbn [andb rbind]. set (h := tx_GetHash tx). unfold remove_fuel. cbn [length Nat.add remove_loop].
  destruct (mapTx m !! h) as [e|] eqn:E.
  - exists (erase h e m), [entry_tx e]. cbn [rbind app]. split; [apply remove_loop_nil|]. split; [by apply erase_ok|].
    intros b. unfold in_pool, erase, set_content. cbn [mapTx]. destruct (decide (tx_GetHash b = h)) as [->|Hne].
    + rewrite lookup_delete_eq. split; [done|by intros [_ ?]].
    + rewrite lookup_delete_ne by done. split; [done|by intros []].
  - exists m, []. rewrite app_nil_r. split; [apply remove_loop_nil|]. split; [done|].
    intros b. split; [|by intros []]. intros Hb. split; [done|]. intros Eh. unfold in_pool in Hb. by rewrite Eh, E in Hb.
Qed.

(** ** Conflicts with the transactions of a block *)

(** [b] is another transaction that spends an output one of [ins] spends. *)
Definition conflicts_with (tx : CTransaction) (ins : list CTxIn) (b : CTransaction) : Prop :=
  tx_GetHash b <> tx_GetHash tx /\ exists i j, i ∈ ins /\ j ∈ vin b /\ prevout j = prevout i.

(** What goes because of the conflicts. *)
Definition dragged (m : CTxMemPool) (tx : CTransaction) (ins : list CTxIn) (b : CTransaction) : Prop :=
  exists c, in_pool m c /\ conflicts_with tx ins c /\ descends m c b.

Lemma descends_mono m m1 c b : (forall x, in_pool m1 x -> in_pool m x) -> descends m1 c b -> descends m c b.
Proof. intros H. apply rtc_subrel. intros x y [? ?]. auto. Qed.

(** A path that avoids what descends from [c0] survives the removal of [c0]. *)
Lemma descends_avoiding m m1 c0 c b : (forall x, in_pool m1 x <-> in_pool m x /\ ~ descends m c0 x) ->
  descends m c b -> ~ descends m c0 b -> descends m1 c b.
Proof.
  intros H Hd. revert b Hd. apply (rtc_ind_r (fun b => ~ descends m c0 b -> descends m1 c b)); [constructor|].
  intros y z _ [Hc Hz] IH Hn. assert (Hy : ~ descends m c0 y) by (intros Hy; apply Hn; by eapply rtc_r).
  eapply rtc_r; [by apply IH|]. split; [done|]. by apply H.
Qed.

Lemma dragged_step m m1 tx i ins c0 j0 : pool_ok m -> in_pool m c0 -> j0 ∈ vin c0 -> prevout j0 = prevout i ->
  tx_GetHash c0 <> tx_GetHash tx -> (forall x, in_pool m1 x <-> in_pool m x /\ ~ descends m c0 x) ->
  forall b, in_pool m1 b /\ ~ dragged m1 tx ins b <-> in_pool m b /\ ~ dragged m tx (i :: ins) b.
Proof.
  intros P H0 Hj0 Ej0 Hne H1 b. split.
  - intros [Hb Hd]. pose proof Hb as [Hm Hn]%H1. split; [done|]. intros (c & Hc & [Hne' (i' & j & Hi & Hj & Ej)] & Hcb).
    apply elem_of_cons in Hi as [->|Hi].
    + apply Hn. destruct (index_spender _ _ _ P H0 Hj0) as [k0 K0], (index_spender _ _ _ P Hc Hj) as [k K].
      rewrite Ej, <- Ej0, K0 in K. apply Some_inj in K. apply (f_equal ptx) in K. cbn [ptx] in K.
      rewrite (in_pool_unique _ _ _ H0 Hc K). exact Hcb.
    + apply Hd. exists c. split; [apply H1; split; [done|]|].
      * intros Hc0. apply Hn. by transitivity c.
      * split; [split; [done|by exists i', j]|]. by apply (descends_avoiding m m1 c0).
  - intros [Hm Hd]. assert (Hb : in_pool m1 b).
    { apply H1. split; [done|]. intros Hc0. apply Hd. exists c0. split; [done|]. split; [|done]. split; [done|].
      exists i, j0. split; [by apply elem_of_cons; left|done]. }
    split; [done|]. intros (c & Hc & [Hne' (i' & j & Hi & Hj & Ej)] & Hcb). apply Hd. exists c. split; [by apply H1|].
    split; [split; [done|]; exists i', j; split; [by apply elem_of_cons; right|done]|].
    apply (descends_mono m m1); [|done]. intros x Hx. by apply H1.
Qed.

Lemma dragged_skip m tx i ins : (forall c j, in_pool m c -> j ∈ vin c -> prevout j = prevout i -> tx_GetHash c = tx_GetHash tx) ->
  forall b, dragged m tx (i :: ins) b <-> dragged m tx ins b.
Proof.
  intros H b. split; intros (c & Hc & [Hne (i' & j & Hi & Hj & Ej)] & Hcb); exists c; (split; [done|]); (split; [split; [done|]|done]); exists i', j.
  - apply elem_of_cons in Hi as [->|Hi]; [by destruct Hne; apply (H c j)|done].
  - split; [by apply elem_of_cons; right|done].
Qed.

Lemma conflicts_loop_spec tx ins : forall m pre, pool_ok m ->
  exists m' r, conflicts_loop tx ins m pre = Ok (m', pre ++ r) /\ pool_ok m' /\
    (forall b, in_pool m' b <-> in_pool m b /\ ~ dragged m tx ins b).
Proof.
  induction ins as [|i ins IH]; intros m pre P; cbn [conflicts_loop].
  { exists m, []. rewrite app_nil_r. split; [done|]. split; [done|]. intros b. split; [|by intros []].
    intros Hb. split; [done|]. by intros (c & _ & [_ (i & j & ?%elem_of_nil & _)] & _). }
  assert (Skip : (forall c j, in_pool m c -> j ∈ vin c -> prevout j = prevout i -> tx_GetHash c = tx_GetHash tx) ->
    exists m' r, conflicts_loop tx ins m pre = Ok (m', pre ++ r) /\ pool_ok m' /\
      (forall b, in_pool m' b <-> in_pool m b /\ ~ dragged m tx (i :: ins) b)).
  { intros H. destruct (IH m pre P) as (m' & r & E & P' & D). exists m', r. split; [done|]. split; [done|].
    intros b. by rewrite D, (dragged_skip m tx i ins H). }
  destruct (mapNextTx m !! prevout i) as [it|] eqn:E.
  - destruct (index_inv _ _ _ P E) as (c0 & j0 & Hd & H0 & Hk & Hj0 & Ej0). rewrite Hd. cbn [rbind].
    case_bool_decide as Hh; cbn [negb].
    + apply Skip. intros c j Hc Hj Ej. destruct (index_spender _ _ _ P Hc Hj) as [k K]. rewrite Ej, E in K.
      apply Some_inj in K. subst it. cbn [ptx] in Hk. congruence.
    + destruct (remove_recursive_spec c0 pre m P) as (m1 & r1 & -> & R). cbn [rbind fst snd].
      assert (Hres : resolve m c0 = c0) by (unfold resolve, lookup_tx, in_pool in *; by rewrite H0).
      rewrite Hres in R. destruct (IH m1 (pre ++ r1) (rm_ok _ _ _ _ _ R)) as (m' & r & -> & P' & D).
      exists m', (r1 ++ r). split; [by rewrite <- app_assoc|]. split; [done|]. intros b. rewrite D.
      apply (dragged_step m m1 tx i ins c0 j0 P H0 Hj0 Ej0 Hh). intros x. rewrite (removing_in_pool _ _ _ _ _ _ R).
      split; intros [Hx Hn]; (split; [done|]); intros Hx'; apply Hn.
      * by apply (removing_done _ _ _ _ _ R).
      * by apply (rm_desc _ _ _ _ _ R).
  - apply Skip. intros c j Hc Hj Ej. destruct (index_spender _ _ _ P Hc Hj) as [k K]. by rewrite Ej, E in K.
Qed.

Lemma ClearPrioritisation_ok h m : pool_ok m -> pool_ok (ClearPrioritisation h m).
Proof. by intros []; split. Qed.

(** A transaction [b] of the pool goes with the block: it is in it, or it depends on one
    that conflicts with it. *)
Definition goes_with (m : CTxMemPool) (vtx : list CTransaction) (b : CTransaction) : Prop :=
  exists tx, tx ∈ vtx /\ (tx_GetHash b = tx_GetHash tx \/ dragged m tx (vin tx) b).

(** [b] has nothing to do with [tx]: it is another transaction and spends other outputs. *)
Definition clear_of (tx b : CTransaction) : Prop :=
  tx_GetHash b <> tx_GetHash tx /\ forall i j, i ∈ vin tx -> j ∈ vin b -> prevout j <> prevout i.

Lemma dragged_mono m m1 tx ins b : (forall x, in_pool m1 x -> in_pool m x) -> dragged m1 tx ins b -> dragged m tx ins b.
Proof. intros H (c & Hc & Hk & Hd). exists c. split; [by apply H|]. split; [done|]. by apply (descends_mono m m1). Qed.

Lemma dragged_self m tx ins b : in_pool m b -> conflicts_with tx ins b -> dragged m tx ins b.
Proof. intros. exists b. split; [done|]. split; [done|]. constructor. Qed.

(** One transaction of the block. *)
Lemma remove_for_tx tx pre m : pool_ok m ->
  exists m1 d m' r, remove tx [] false m = Ok (m1, d) /\ removeConflicts tx pre m1 = Ok (m', pre ++ r) /\ pool_ok m' /\
    (forall b, in_pool m' b -> in_pool m b /\ clear_of tx b) /\
    (forall b, in_pool m b -> ~ goes_with m [tx] b -> in_pool m' b).
Proof.
  intros P. destruct (remove_plain_spec tx [] m P) as (m1 & d & E1 & P1 & D1).
  destruct (conflicts_loop_spec tx (vin tx) m1 pre P1) as (m' & r & E & P' & D).
  exists m1, d, m', r. split; [done|]. split; [done|]. split; [done|]. split.
  - intros b [Hb Hn]%D. pose proof Hb as [Hm Hh]%D1. split; [done|]. split; [done|]. intros i j Hi Hj Ej. apply Hn.
    apply dragged_self; [done|]. split; [done|]. by exists i, j.
  - intros b Hb Hn. apply D. split.
    + apply D1. split; [done|]. intros Eh. apply Hn. exists tx. split; [by apply list_elem_of_singleton|by left].
    + intros Hd. apply Hn. exists tx. split; [by apply list_elem_of_singleton|right].
      apply (dragged_mono m m1); [intros x Hx; by apply D1|done].
Qed.

Lemma removeForBlock_spec vtx : forall m pre, pool_ok m ->
  exists m' r, removeForBlock vtx m pre = Ok (m', pre ++ r) /\ pool_ok m' /\
    (forall b, in_pool m' b -> in_pool m b /\ Forall (fun tx => clear_of tx b) vtx) /\
    (forall b, in_pool m b -> ~ goes_with m vtx b -> in_pool m' b).
Proof.
  induction vtx as [|tx vtx IH]; intros m pre P; cbn [removeForBlock].
  { exists m, []. rewrite app_nil_r. split; [done|]. split; [done|]. split; [|done]. intros b Hb. split; [done|constructor]. }
  destruct (remove_for_tx tx pre m P) as (m1 & d & m2 & r1 & E1 & E2 & P2 & A2 & B2). rewrite E1. cbn [rbind fst]. rewrite E2. cbn [rbind fst snd].
  destruct (IH (ClearPrioritisation (tx_GetHash tx) m2) (pre ++ r1) (ClearPrioritisation_ok _ _ P2)) as (m' & r & E & P' & A & B).
  rewrite E. exists m', (r1 ++ r). rewrite <- app_assoc. split; [done|]. split; [done|]. split.
  - intros b [Hb Hf]%A. apply A2 in Hb as [Hm Hc]. split; [done|]. by constructor.
  - intros b Hb Hn. apply B.
    + apply B2; [done|]. intros (x & Hx%list_elem_of_singleton & H). apply Hn. exists x. split; [by apply elem_of_cons; left|done].
    + intros (x & Hx & H). apply Hn. exists x. split; [by apply elem_of_cons; right|]. destruct H as [?|H]; [by left|right].
      apply (dragged_mono m m2); [intros y Hy; by apply A2|done].
Qed.

(** When a block comes in, the pool never follows a stale pointer and keeps its
    invariant; afterwards no transaction of the pool is in the block or spends an output
    the block spends, and a transaction that is not in the block and depends on no
    conflicting one stays. *)
Theorem removeForBlock_correct vtx m pre : pool_ok m ->
  exists m' r, removeForBlock vtx m pre = Ok (m', pre ++ r) /\ pool_ok m' /\
    (forall b, in_pool m' b -> in_pool m b /\ Forall (fun tx => clear_of tx b) vtx) /\
    (forall b, in_pool m b -> ~ goes_with m vtx b -> in_pool m' b).
Proof. apply removeForBlock_spec. Qed.

(** ** All operations *)

(** The operations other than additions, as steps. *)
Inductive pool_op (m : CTxMemPool) : CTxMemPool -> Prop :=
| op_remove tx pre rec m' r : remove tx pre rec m = Ok (m', r) -> pool_op m m'
| op_conflicts tx pre m' r : removeConflicts tx pre m = Ok (m', r) -> pool_op m m'
| op_block vtx pre m' r : removeForBlock vtx m pre = Ok (m', r) -> pool_op m m'
| op_coinbase txs m' : remove_all txs m = Ok m' -> pool_op m m'
| op_clear : pool_op m (clear m)
| op_prioritise h d f : pool_op m (PrioritiseTransaction h d f m)
| op_clear_priority h : pool_op m (ClearPrioritisation h m)
| op_updated n : pool_op m (AddTransactionsUpdated n m)
| op_sanity b : pool_op m (setSanityCheck b m).

(** With additions that come after the checks [may_add] of a caller. *)
Inductive pool_step (m : CTxMemPool) : CTxMemPool -> Prop :=
| step_add tx fee time pri height : may_add m tx ->
    pool_step m (addUnchecked (tx_GetHash tx) (new_entry tx fee time pri height) m)
| step_op m' : pool_op m m' -> pool_step m m'.

Lemma remove_total tx pre rec m : pool_ok m -> exists m' r, remove tx pre rec m = Ok (m', r) /\ pool_ok m'.
Proof.
  intros P. destruct rec.
  - destruct (remove_recursive_spec tx pre m P) as (m' & r & -> & R). exists m', (pre ++ r). split; [done|apply R].
  - destruct (remove_plain_spec tx pre m P) as (m' & r & -> & P' & _). by exists m', (pre ++ r).
Qed.

Lemma removeConflicts_total tx pre m : pool_ok m -> exists m' r, removeConflicts tx pre m = Ok (m', r) /\ pool_ok m'.
Proof.
  intros P. destruct (conflicts_loop_spec tx (vin tx) m pre P) as (m' & r & E & P' & _). by exists m', (pre ++ r).
Qed.

Lemma removeForBlock_total vtx m pre : pool_ok m -> exists m' r, removeForBlock vtx m pre = Ok (m', r) /\ pool_ok m'.
Proof. intros P. destruct (removeForBlock_spec vtx m pre P) as (m' & r & E & P' & _). by exists m', (pre ++ r). Qed.

Lemma remove_all_total txs : forall m, pool_ok m -> exists m', remove_all txs m = Ok m' /\ pool_ok m'.
Proof.
  induction txs as [|tx txs IH]; intros m P; cbn [remove_all]; [by exists m|].
  destruct (remove_total tx [] true m P) as (m1 & r1 & -> & P1). cbn [rbind fst]. by apply IH.
Qed.

Lemma pool_op_ok m m' : pool_op m m' -> pool_ok m -> pool_ok m'.
Proof.
  intros S P. destruct S as [tx pre rec m' r E|tx pre m' r E|vtx pre m' r E|txs m' E| | | | |].
  - destruct (remove_total tx pre rec m P) as (m2 & r2 & E2 & P2). rewrite E in E2. apply Ok_inj in E2. by injection E2 as -> _.
  - destruct (removeConflicts_total tx pre m P) as (m2 & r2 & E2 & P2). rewrite E in E2. apply Ok_inj in E2. by injection E2 as -> _.
  - destruct (removeForBlock_total vtx m pre P) as (m2 & r2 & E2 & P2). rewrite E in E2. apply Ok_inj in E2. by injection E2 as -> _.
  - destruct (remove_all_total txs m P) as (m2 & E2 & P2). rewrite E in E2. apply Ok_inj in E2. by subst.
  - split; cbn; [by intros h e ?%lookup_empty_Some..| |by rewrite map_sum_empty]. intros o p.
    split; [by intros ?%lookup_empty_Some|]. by intros (e & i & txin & ?%lookup_empty_Some & _).
  - by destruct P; split.
  - by apply ClearPrioritisation_ok.
  - by destruct P; split.
  - by destruct P; split.
Qed.

Lemma pool_step_ok m m' : pool_step m m' -> pool_ok m -> pool_ok m'.
Proof. intros [tx fee time pri height A|m2 S] P; [by apply addUnchecked_ok|by apply (pool_op_ok m)]. Qed.

Lemma pool_reachable_ok fee m : rtc pool_step (new_pool fee) m -> pool_ok m.
Proof. intros R. pose proof (new_pool_ok fee) as P. induction R as [|m1 m2 m3 S _ IH]; [done|]. by apply IH, (pool_step_ok m1). Qed.

(** The assertions of the sanity check over the index hold. *)
Lemma check_next_ok m : pool_ok m -> forallb (check_next m) (map_to_list (mapNextTx m)) = true.
Proof.
  intros P. apply forallb_forall. intros [o p] Hin. apply list_elem_of_In, elem_of_map_to_list in Hin.
  apply (ok_index _ P) in Hin as (e & i & txin & He & Hn & Hi & Ho). pose proof (ok_key _ P _ _ He) as Hk.
  unfold check_next. cbn [fst snd]. rewrite He, Hk, Hn, Nat2Z.id, Hi. unfold exists_tx. rewrite He.
  rewrite !bool_decide_eq_true_2; [done|by subst o|done|by eexists].
Qed.

(** The loop over the waiting entries ends within its fuel. *)
Lemma check_waiting_ends {V} `{CCoinsView V} lib ps bh fuel : forall waiting steps d st d' st' r,
  (length waiting * length waiting + length waiting <= fuel + steps)%nat -> (steps < length waiting)%nat \/ waiting = [] ->
  check_waiting (V := V) lib ps bh fuel waiting steps d st = Done d' st' r -> r = inl tt.
Proof.
  induction fuel as [|fuel IH]; intros [|tx waiting] steps d st d' st' r Hf Hs; cbn [check_waiting]; try by intros [= _ _ <-].
  - cbn [length] in *. destruct Hs; [lia|done].
  - destruct Hs as [Hs|Hs]; [|done]. cbn [length] in Hf, Hs. intros (d1 & st1 & have & _ & E)%bind_Done. destruct have.
    + apply bind_Done in E as (d2 & st2 & [] & _ & E). apply IH in E; [done|lia|].
      destruct waiting; [by right|left; cbn [length]; lia].
    + apply bind_Done in E as (d2 & st2 & [] & E2 & E). unfold assert_that in E2. case_match eqn:Hlt; [|done].
      apply Nat.ltb_lt in Hlt. rewrite length_app in Hlt. cbn [length] in Hlt.
      apply IH in E; [done|rewrite length_app; cbn [length]; lia|left; rewrite length_app; cbn [length]; lia].
Qed.

(** The outputs pruned from the coins of [h] are the ones the pool spends. *)
Lemma spent_outputs_spec m h n : n ∈ spent_outputs m h <-> is_Some (mapNextTx m !! {| out_hash := h; out_n := n |}).
Proof.
  unfold spent_outputs. rewrite (merge_sort_Permutation Z.le). split.
  - intros ([[h' n'] p] & -> & Hin)%list_elem_of_fmap. apply list_elem_of_filter in Hin as [Eh Hin]. cbn in Eh. subst h'.
    apply elem_of_map_to_list in Hin. by exists p.
  - intros [p Hp]. apply list_elem_of_fmap. exists ({| out_hash := h; out_n := n |}, p). split; [done|].
    apply list_elem_of_filter. split; [done|]. by apply elem_of_map_to_list.
Qed.

(** What the invariant says of a pool: the keys are the hashes of the transactions, the
    index maps exactly the outputs they spend to where they are spent, so that no two
    transactions spend the same output and the assertions of the sanity check over the
    index hold; the total is the sum of the sizes in 64 bits; and no removal can fail. *)
Definition pool_consistent (m : CTxMemPool) : Prop :=
  (forall h e, mapTx m !! h = Some e -> tx_GetHash (entry_tx e) = h) /\
  (forall o p, mapNextTx m !! o = Some p <-> exists e i txin,
     mapTx m !! ptx p = Some e /\ in_n p = Z.of_nat i /\ vin (entry_tx e) !! i = Some txin /\ prevout txin = o) /\
  (forall h1 h2 e1 e2 i1 i2, mapTx m !! h1 = Some e1 -> mapTx m !! h2 = Some e2 ->
     i1 ∈ vin (entry_tx e1) -> i2 ∈ vin (entry_tx e2) -> prevout i1 = prevout i2 -> h1 = h2) /\
  forallb (check_next m) (map_to_list (mapNextTx m)) = true /\
  totalTxSize m = u64 (map_sum (fun e => Z.of_nat (length (enc c_transaction (entry_tx e)))) (mapTx m)) /\
  (forall tx pre rec, is_ok (remove tx pre rec m) = true) /\
  (forall vtx pre, is_ok (removeForBlock vtx m pre) = true).

Lemma pool_ok_consistent m : pool_ok m -> pool_consistent m.
Proof.
  intros P. split; [apply P|]. split; [apply P|].
  split; [intros h1 h2 e1 e2 i1 i2; by apply pool_no_double_spend|]. split; [by apply check_next_ok|].
  split; [rewrite (ok_total _ P); f_equal; apply map_sum_ext, (ok_size _ P)|]. split.
  - intros tx pre rec. by destruct (remove_total tx pre rec m P) as (m' & r & -> & _).
  - intros vtx pre. by destruct (removeForBlock_total vtx m pre P) as (m' & r & -> & _).
Qed.

(** Every pool that the operations reach is consistent, when additions come after the
    checks that [addUnchecked] leaves to its caller. *)
Theorem mempool_invariant fee m : rtc pool_step (new_pool fee) m -> pool_consistent m.
Proof. intros R. apply pool_ok_consistent. exact (pool_reachable_ok _ _ R). Qed.

(** * Examples *)

Definition example_child : CTransaction := {|
  tx_nVersion := 1;
  vin := [{| prevout := {| out_hash := tx_GetHash example_spend; out_n := 0 |}; scriptSig := []; nSequence := UINT32_MAX |}];
  vout := [example_out 500000000]; nLockTime := 0 |}.

Definition add_example (tx : CTransaction) (m : CTxMemPool) : CTxMemPool :=
  addUnchecked (tx_GetHash tx) (new_entry tx 1000 0 (S754_zero false) 100) m.

Definition example_pool : CTxMemPool := add_example example_child (add_example example_spend (new_pool 1000)).

(** A block with another transaction that spends what [example_spend] spends. *)
Definition example_rival : CTransaction := {|
  tx_nVersion := 2; vin := vin example_spend; vout := vout example_spend; nLockTime := 0 |}.

Lemma may_add_dec m tx :
  bool_decide (mapTx m !! tx_GetHash tx = None) && bool_decide (NoDup (map prevout (vin tx)))
  && forallb (fun o => bool_decide (mapNextTx m !! o = None)) (map prevout (vin tx)) = true -> may_add m tx.
Proof.
  intros [[H1%bool_decide_eq_true H2%bool_decide_eq_true]%andb_true_iff H3]%andb_true_iff. split; [done..|].
  apply Forall_forall. intros o Ho. rewrite forallb_forall in H3. apply list_elem_of_In, H3 in Ho. by apply bool_decide_eq_true in Ho.
Qed.

Lemma example_pool_reachable : rtc pool_step (new_pool 1000) example_pool.
Proof.
  eapply rtc_l; [apply (step_add _ example_spend 1000 0 (S754_zero false) 100), may_add_dec; vm_compute; reflexivity|].
  apply rtc_once. apply (step_add _ example_child 1000 0 (S754_zero false) 100), may_add_dec. vm_compute. reflexivity.
Qed.

Lemma example_pool_ok : pool_ok example_pool.
Proof. apply (pool_reachable_ok 1000), example_pool_reachable. Qed.

Lemma remove_recursive_correct_witness :
  (exists m', remove example_spend [] true example_pool = Ok (m', [example_spend; example_child]) /\ mapTx m' = ∅) /\
  exists m' r, remove example_spend [] true example_pool = Ok (m', [] ++ r) /\ pool_ok m'.
Proof.
  split; [eexists; split; vm_compute; reflexivity|].
  destruct (remove_recursive_correct example_spend [] example_pool example_pool_ok) as (m' & r & E & P & _).
  exists m', r. split; [exact E|exact P].
Defined.

Lemma removeForBlock_correct_witness :
  (exists m', removeForBlock [example_rival] example_pool [] = Ok (m', [example_spend; example_child]) /\ mapTx m' = ∅) /\
  exists m' r, removeForBlock [example_rival] example_pool [] = Ok (m', [] ++ r) /\ pool_ok m'.
Proof.
  split; [eexists; split; vm_compute; reflexivity|].
  destruct (removeForBlock_correct [example_rival] example_pool [] example_pool_ok) as (m' & r & E & P & _).
  exists m', r. split; [exact E|exact P].
Defined.
