(* ===== verification/Policy.v ===== *)
(** The admission of transactions to the memory pool (main.cpp, coins.cpp): the policy on
    standard transactions and fees, and [AcceptToMemoryPool].

    [AcceptToMemoryPool] looks the inputs up in a cache over the memory pool over
    [pcoinsTip], then puts an empty view under the cache and checks the transaction
    against what the cache holds.  The first part is an action over the view
    [CCoinsViewMemPool], the second one over the empty view.  The pool is the only one,
    the global [mempool].  Notifications of the wallet and log lines are left out. *)

From Stdlib Require Import Strings.String Floats.SpecFloat.
From stdpp Require Import gmap.
From S2P Require Import Prelude Uint256 Arith256 Params Subsidy Serialize Script Transaction Pubkey Interp Sighash Standard Compressor Coins CoinsView Validation Mempool.

Local Open Scope Z_scope.
#[local] Abbreviation length := Datatypes.length.

(** * Settings and surroundings *)

Definition CURRENT_VERSION : Z := 1.
Definition MAX_STANDARD_TX_SIZE : Z := 100000.
Definition MAX_P2SH_SIGOPS : Z := 15.
Definition MAX_TX_SIGOPS : Z := MAX_BLOCK_SIGOPS / 5.
Definition DEFAULT_BLOCK_PRIORITY_SIZE : Z := 50000.
Definition REJECT_DUPLICATE : Z := 0x12.
Definition REJECT_INSUFFICIENTFEE : Z := 0x42.

(** What the command line and the network choose: [minRelayTxFee] is the rate,
    [limitfreerelay] is in thousands of bytes per minute. *)
Record RelayPolicy := {
  RequireStandard : bool;
  datacarrier : bool;
  fIsBareMultisigStd : bool;
  minRelayTxFee : Z;
  relaypriority : bool;
  limitfreerelay : Z
}.

(** What the node knows when the transaction comes: [chainActive.Height()],
    [GetAdjustedTime()], [GetTime()], the heights of the blocks in [mapBlockIndex], and
    the inputs that a transaction lock reserves, [mapLockedInputs]. *)
Record Surroundings := {
  chain_height : Z;
  adjusted_time : Z;
  now : Z;
  block_height : uint256 -> option Z;
  mapLockedInputs : gmap COutPoint uint256
}.

(** [dFreeCount] and [nLastTime], of the rate limiter for free transactions. *)
Record FreeLimiter := { dFreeCount : spec_float; nLastTime : Z }.

Definition double_zero : spec_float := S754_zero false.

(** * Standard transactions *)

(** The reason of the first input that is not standard, if there is one. *)
Fixpoint standard_inputs (ins : list CTxIn) : option string :=
  match ins with
  | [] => None
  | txin :: ins =>
      if 1650 <? Z.of_nat (length (scriptSig txin)) then Some "scriptsig-size"%string
      else if negb (IsPushOnly (scriptSig txin)) then Some "scriptsig-not-pushonly"%string
      else standard_inputs ins
  end.

(** The loop over the outputs: the reason, or the number of data outputs. *)
Fixpoint standard_outputs (p : RelayPolicy) (outs : list CTxOut) (nDataOut : Z) : string + Z :=
  match outs with
  | [] => inr nDataOut
  | txout :: outs =>
      let '(whichType, ok) := IsStandard (datacarrier p) (scriptPubKey txout) in
      if negb ok then inl "scriptpubkey"%string
      else if bool_decide (whichType = TX_NULL_DATA) then standard_outputs p outs (u32 (nDataOut + 1))
      else if bool_decide (whichType = TX_MULTISIG) && negb (fIsBareMultisigStd p) then inl "bare-multisig"%string
      else if IsDust (minRelayTxFee p) txout then inl "dust"%string
      else standard_outputs p outs nDataOut
  end.

(** [None] for a standard transaction, or the reason. *)
Definition IsStandardTx (p : RelayPolicy) (e : Surroundings) (tx : CTransaction) : option string :=
  if (CURRENT_VERSION <? tx_nVersion tx) || (tx_nVersion tx <? 1) then Some "version"%string
  else if negb (IsFinalTx (chain_height e) (adjusted_time e) tx (chain_height e + 1) 0) then Some "non-final"%string
  else if MAX_STANDARD_TX_SIZE <=? u32 (Z.of_nat (length (enc c_transaction tx))) then Some "tx-size"%string
  else
    match standard_inputs (vin tx) with
    | Some reason => Some reason
    | None =>
        match standard_outputs p (vout tx) 0 with
        | inl reason => Some reason
        | inr nDataOut => if 1 <? nDataOut then Some "multi-op-return"%string else None
        end
    end.

(** The body of the loop of [AreInputsStandard] once the output spent is there: the value
    that the function returns in it, [None] to go on. *)
Definition input_standard (lib : secp256k1) (prevScript scriptSig : CScript) : option bool :=
  let '(whichType, vSolutions, ok) := Solver prevScript in
  if negb ok then Some false
  else
    let nArgsExpected := ScriptSigArgsExpected whichType vSolutions in
    if nArgsExpected <? 0 then Some false
    else
      match run_script lib 0 (fun _ _ _ => false) [] scriptSig with
      | Err _ => Some false
      | Ok stack =>
          let args nArgsExpected := if negb (Z.of_nat (length stack) =? u32 nArgsExpected) then Some false else None in
          if bool_decide (whichType = TX_SCRIPTHASH) then
            match stack with
            | [] => Some false
            | subscript :: _ =>
                let '(whichType2, vSolutions2, ok2) := Solver subscript in
                if ok2 then
                  let tmpExpected := ScriptSigArgsExpected whichType2 vSolutions2 in
                  if tmpExpected <? 0 then Some false else args (nArgsExpected + tmpExpected)
                else Some (GetSigOpCount subscript true <=? MAX_P2SH_SIGOPS)
            end
          else args nArgsExpected
      end.

(** * Fees and priority *)

Definition AllowFreeThreshold : spec_float := double_of_Z (COIN * 1440 / 250).
Definition AllowFree (dPriority : spec_float) : bool := SFltb AllowFreeThreshold dPriority.

(** [CTransaction::ComputePriority] with its default size. *)
Definition ComputePriority (tx : CTransaction) (dPriorityInputs : spec_float) : spec_float :=
  let nTxSize := CalculateModifiedSize tx 0 in
  if nTxSize =? 0 then double_zero else double_div dPriorityInputs (double_of_Z nTxSize).

(** What an input adds to the priority. *)
Definition input_priority (nHeight : Z) (coins : CCoins) (n : Z) (dResult : spec_float) : spec_float :=
  match c_vout coins !! Z.to_nat n with
  | Some o =>
      if IsAvailable coins n && (c_nHeight coins <? nHeight)
      then double_add dResult (double_of_Z (s64 (nValue o * s32 (nHeight - c_nHeight coins)))) else dResult
  | None => dResult
  end.

Definition GetMinRelayFee (p : RelayPolicy) (ps : CChainParams) (mempool : CTxMemPool) (tx : CTransaction) (nBytes : Z) (fAllowFree : bool) : Z :=
  let deltas := ApplyDeltas mempool (tx_GetHash tx) (double_zero, 0) in
  if SFltb double_zero deltas.1 || (0 <? deltas.2) then 0
  else
    let nMinFee := GetFee (minRelayTxFee p) nBytes in
    let nMinFee := if fAllowFree && (nBytes <? DEFAULT_BLOCK_PRIORITY_SIZE - 1000) then 0 else nMinFee in
    if negb (MoneyRange ps nMinFee) then MaxMoneyOut ps else nMinFee.

(** The rate limiter: the counters after the transaction, and whether it passes.  [decay n]
    is [pow(1.0 - 1.0/600.0, n)] of the mathematical library. *)
Definition rate_limit (decay : Z -> spec_float) (p : RelayPolicy) (nNow nSize : Z) (l : FreeLimiter) : FreeLimiter * bool :=
  let d := double_mul (dFreeCount l) (decay (nNow - nLastTime l)) in
  if SFleb (double_of_Z (s64 (limitfreerelay p * 10 * 1000))) d then ({| dFreeCount := d; nLastTime := nNow |}, false)
  else ({| dFreeCount := double_add d (double_of_Z nSize); nLastTime := nNow |}, true).

Local Open Scope action_scope.

Section Checks.
Context {V : Type} `{CCoinsView V} (lib : secp256k1).

(** [AreInputsStandard] *)
Fixpoint standard_spends (ins : list CTxIn) : M V bool :=
  match ins with
  | [] => mret true
  | i :: ins =>
      o <-- view_op (fun c => GetOutputFor c i) ;;
      prev <-- stop_if_none o ;;
      match input_standard lib (scriptPubKey prev) (scriptSig i) with
      | Some b => mret b
      | None => standard_spends ins
      end
  end.

Definition AreInputsStandard (tx : CTransaction) : M V bool :=
  if IsCoinBase tx then mret true else standard_spends (vin tx).

(** [CCoinsViewCache::GetPriority]: the loop over the inputs. *)
Fixpoint spent_priority (nHeight : Z) (ins : list CTxIn) (dResult : spec_float) : M V spec_float :=
  match ins with
  | [] => mret dResult
  | i :: ins =>
      r <-- view_op (fun c => AccessCoins c (out_hash (prevout i))) ;;
      coins <-- stop_if_none r ;;
      spent_priority nHeight ins (input_priority nHeight coins (out_n (prevout i)) dResult)
  end.

Definition view_GetPriority (tx : CTransaction) (nHeight : Z) : M V spec_float :=
  if IsCoinBase tx || IsCoinStake tx then mret double_zero
  else d <-- spent_priority nHeight (vin tx) double_zero ;; mret (ComputePriority tx d).

(** Whether the view has coins for every input. *)
Fixpoint have_parents (ins : list CTxIn) : M V bool :=
  match ins with
  | [] => mret true
  | i :: ins =>
      have <-- view_op (fun c => HaveCoins c (out_hash (prevout i))) ;;
      if have : bool then have_parents ins else mret false
  end.

(** The part that looks the inputs up: their value, or whether the function returns false
    with [*pfMissingInputs] set. *)
Definition collect_inputs (tx : CTransaction) : M V (bool + Z) :=
  have <-- view_op (fun c => HaveCoins c (tx_GetHash tx)) ;;
  if have : bool then mret (inl false)
  else
    present <-- have_parents (vin tx) ;;
    if negb present then mret (inl true)
    else
      inputs <-- view_op (fun c => HaveInputs c tx) ;;
      guard inputs orelse reject_Invalid REJECT_DUPLICATE "bad-txns-inputs-spent" ;;
      _ <-- view_op GetBestBlock ;;
      r <-- view_op (fun c => GetValueIn c tx) ;;
      nValueIn <-- stop_if_none r ;;
      mret (inr nValueIn).

Context (ps : CChainParams) (p : RelayPolicy) (e : Surroundings).

(** The checks between the look-up and the fees: the fees. *)
Definition check_spends_standard (tx : CTransaction) (nValueIn : Z) : M V Z :=
  standard <-- (if RequireStandard p then AreInputsStandard tx else mret true) ;;
  guard standard orelse reject_error ;;
  n <-- GetP2SHSigOpCount tx ;;
  guard negb (MAX_TX_SIGOPS <? u32 (GetLegacySigOpCount tx + n))
    orelse reject_DoS 0 REJECT_NONSTANDARD "bad-txns-too-many-sigops" ;;
  nValueOut <-- stop_if_none (GetValueOut tx) ;;
  _ <-- view_GetPriority tx (chain_height e) ;;
  mret (s64 (nValueIn - nValueOut)).

(** The checks of the fees before the rate limiter. *)
Definition check_fees (mempool : CTxMemPool) (fLimitFree : bool) (tx : CTransaction) (nSize nFees : Z) : M V unit :=
  guard negb (fLimitFree && (nFees <? GetMinRelayFee p ps mempool tx nSize true))
    orelse reject_DoS 0 REJECT_INSUFFICIENTFEE "insufficient fee" ;;
  if relaypriority p && (nFees <? GetFee (minRelayTxFee p) nSize) then
    dPriority <-- view_GetPriority tx (chain_height e + 1) ;;
    guard AllowFree dPriority orelse reject_DoS 0 REJECT_INSUFFICIENTFEE "insufficient priority" ;;
    mret tt
  else mret tt.

(** The same part of [AcceptableInputs], which leaves standard spending out; its entry is
    given the priority, but is not kept. *)
Definition check_spends_sigops (tx : CTransaction) (nValueIn : Z) : M V Z :=
  n <-- GetP2SHSigOpCount tx ;;
  guard negb (MAX_TX_SIGOPS <? u32 (GetLegacySigOpCount tx + n))
    orelse reject_DoS 0 REJECT_NONSTANDARD "bad-txns-too-many-sigops" ;;
  nValueOut <-- stop_if_none (GetValueOut tx) ;;
  _ <-- view_GetPriority tx (chain_height e) ;;
  mret (s64 (nValueIn - nValueOut)).

(** The checks after the rate limiter. *)
Definition check_scripts (fRejectInsaneFee : bool) (tx : CTransaction) (nSize nFees : Z) : M V unit :=
  guard negb (fRejectInsaneFee && (s64 (GetFee (minRelayTxFee p) nSize * 10000) <? nFees)) orelse reject_error ;;
  _ <-- CheckInputs lib ps (block_height e) tx true STANDARD_SCRIPT_VERIFY_FLAGS false ;;
  _ <-- CheckInputs lib ps (block_height e) tx true MANDATORY_SCRIPT_VERIFY_FLAGS false ;;
  mret tt.

(** The same part of [AcceptableInputs], in which no script is run. *)
Definition check_values (fRejectInsaneFee : bool) (tx : CTransaction) (nSize nFees : Z) : M V unit :=
  guard negb (fRejectInsaneFee && (s64 (GetFee (minRelayTxFee p) nSize * 10000) <? nFees)) orelse reject_error ;;
  _ <-- CheckInputs lib ps (block_height e) tx false STANDARD_SCRIPT_VERIFY_FLAGS false ;;
  mret tt.
End Checks.

(** * The empty view

    The class [CCoinsView] itself, which finds nothing. *)

#[export] Instance CCoinsView_dummy : CCoinsView unit := {
  GetCoins v _ := (v, None);
  HaveCoins v _ := (v, false);
  GetBestBlock v := (v, zero W256);
  BatchWrite v _ _ := Ok (v, false)
}.

(** [SetBackend], to a view of another class. *)
Definition SetBackend {V W : Type} (c : CCoinsViewCache V) (viewIn : W) : CCoinsViewCache W :=
  Build_CCoinsViewCache viewIn (hashBlock c) (cacheCoins c).

(** * AcceptToMemoryPool *)

(** What a call leaves behind: the pool, [pcoinsTip], the rate limiter and the validation
    state; [*pfMissingInputs]; and what it returns. *)
Record Admission (V : Type) := {
  a_pool : CTxMemPool;
  a_tip : CCoinsViewCache V;
  a_limiter : FreeLimiter;
  a_state : CValidationState;
  fMissingInputs : bool;
  accepted : bool
}.
Arguments a_pool {V}.
Arguments a_tip {V}.
Arguments a_limiter {V}.
Arguments a_state {V}.
Arguments fMissingInputs {V}.
Arguments accepted {V}.

(** The conflict with a transaction lock, and with a transaction in the pool. *)
Definition lock_conflict (e : Surroundings) (tx : CTransaction) : bool :=
  existsb (fun i => match mapLockedInputs e !! prevout i with
                    | Some h => negb (bool_decide (h = tx_GetHash tx))
                    | None => false
                    end) (vin tx).

Definition pool_conflict (pool : CTxMemPool) (tx : CTransaction) : bool :=
  existsb (fun i => bool_decide (is_Some (mapNextTx pool !! prevout i))) (vin tx).

Section Accept.
Context {V : Type} `{CCoinsView V} (lib : secp256k1) (ps : CChainParams) (p : RelayPolicy) (decay : Z -> spec_float).

(** The part of [AcceptToMemoryPool] after the look-up of the inputs: [view] is the cache
    with the empty view below, [nValueIn] their value.  [None] when the program stops. *)
Definition admit_spends (e : Surroundings) (pool : CTxMemPool) (pcoinsTip : CCoinsViewCache V) (l : FreeLimiter) (tx : CTransaction)
    (fLimitFree fRejectInsaneFee ignoreFees : bool) (nValueIn : Z) (view : CCoinsViewCache unit) (st : CValidationState) : option (Admission V) :=
  let finish pool l st ok :=
    Some {| a_pool := pool; a_tip := pcoinsTip; a_limiter := l; a_state := st; fMissingInputs := false; accepted := ok |} in
  match check_spends_standard lib p e tx nValueIn view st with
  | Stop => None
  | Reject _ st => finish pool l st false
  | Done view st nFees =>
      let entry := new_entry tx nFees (now e) double_zero (chain_height e) in
      let nSize := u32 (nTxSize entry) in
      match (if ignoreFees then mret tt else check_fees ps p e pool fLimitFree tx nSize nFees) view st with
      | Stop => None
      | Reject _ st => finish pool l st false
      | Done view st _ =>
          let '(l, pass) :=
            if negb ignoreFees && (fLimitFree && (nFees <? GetFee (minRelayTxFee p) nSize))
            then rate_limit decay p (now e) nSize l else (l, true) in
          if negb pass then finish pool l (DoS st 0 REJECT_INSUFFICIENTFEE "rate limited free transaction" false) false
          else
            match check_scripts lib ps p e fRejectInsaneFee tx nSize nFees view st with
            | Stop => None
            | Reject _ st => finish pool l st false
            | Done _ st _ => finish (addUnchecked (tx_GetHash tx) entry pool) l st true
            end
      end
  end.

Definition AcceptToMemoryPool (e : Surroundings) (pool : CTxMemPool) (pcoinsTip : CCoinsViewCache V) (l : FreeLimiter) (st : CValidationState)
    (tx : CTransaction) (fLimitFree fRejectInsaneFee ignoreFees : bool) : option (Admission V) :=
  let refuse tip st missing :=
    Some {| a_pool := pool; a_tip := tip; a_limiter := l; a_state := st; fMissingInputs := missing; accepted := false |} in
  let '(st, ok) := CheckTransaction ps tx st in
  if negb ok then refuse pcoinsTip st false
  else if IsCoinBase tx then refuse pcoinsTip (DoS st 100 REJECT_INVALID "coinbase" false) false
  else if IsCoinStake tx then refuse pcoinsTip (DoS st 100 REJECT_INVALID "coinstake" false) false
  else
    match (if RequireStandard p then IsStandardTx p e tx else None) with
    | Some reason => refuse pcoinsTip (DoS st 0 REJECT_NONSTANDARD reason false) false
    | None =>
        if exists_tx pool (tx_GetHash tx) then refuse pcoinsTip st false
        else if lock_conflict e tx then refuse pcoinsTip (DoS st 0 REJECT_INVALID "tx-lock-conflict" false) false
        else if pool_conflict pool tx then refuse pcoinsTip st false
        else
          match collect_inputs tx (new_cache (Build_CCoinsViewMemPool pcoinsTip pool)) st with
          | Stop => None
          | Reject view st => refuse (vmp_base (base view)) st false
          | Done view st (inl missing) => refuse (vmp_base (base view)) st missing
          | Done view st (inr nValueIn) =>
              admit_spends e pool (vmp_base (base view)) l tx fLimitFree fRejectInsaneFee ignoreFees nValueIn (SetBackend view tt) st
          end
    end.

(** The part of [AcceptableInputs] after the look-up of the inputs: the limiter, the state
    and what is returned. *)
Definition accept_spends (e : Surroundings) (pool : CTxMemPool) (l : FreeLimiter) (tx : CTransaction)
    (fLimitFree fRejectInsaneFee : bool) (nValueIn : Z) (view : CCoinsViewCache unit) (st : CValidationState)
    : option (FreeLimiter * CValidationState * bool) :=
  match check_spends_sigops e tx nValueIn view st with
  | Stop => None
  | Reject _ st => Some (l, st, false)
  | Done view st nFees =>
      let nSize := u32 (nTxSize (new_entry tx nFees (now e) double_zero (chain_height e))) in
      match check_fees ps p e pool fLimitFree tx nSize nFees view st with
      | Stop => None
      | Reject _ st => Some (l, st, false)
      | Done view st _ =>
          let '(l, pass) :=
            if fLimitFree && (nFees <? GetFee (minRelayTxFee p) nSize) then rate_limit decay p (now e) nSize l else (l, true) in
          if negb pass then Some (l, DoS st 0 REJECT_INSUFFICIENTFEE "rate limited free transaction" false, false)
          else
            match check_values lib ps p e fRejectInsaneFee tx nSize nFees view st with
            | Stop => None
            | Reject _ st => Some (l, st, false)
            | Done _ st _ => Some (l, st, true)
            end
      end
  end.

(** [AcceptableInputs], with a rate limiter of its own: [pcoinsTip], the limiter, the
    state, [*pfMissingInputs] and what is returned. *)
Definition AcceptableInputs (e : Surroundings) (pool : CTxMemPool) (pcoinsTip : CCoinsViewCache V) (l : FreeLimiter) (st : CValidationState)
    (tx : CTransaction) (fLimitFree fRejectInsaneFee : bool) : option (CCoinsViewCache V * FreeLimiter * CValidationState * bool * bool) :=
  let '(st, ok) := CheckTransaction ps tx st in
  if negb ok then Some (pcoinsTip, l, st, false, false)
  else if IsCoinBase tx then Some (pcoinsTip, l, DoS st 100 REJECT_INVALID "coinbase" false, false, false)
  else if exists_tx pool (tx_GetHash tx) then Some (pcoinsTip, l, st, false, false)
  else if lock_conflict e tx then Some (pcoinsTip, l, DoS st 0 REJECT_INVALID "tx-lock-conflict" false, false, false)
  else if pool_conflict pool tx then Some (pcoinsTip, l, st, false, false)
  else
    match collect_inputs tx (new_cache (Build_CCoinsViewMemPool pcoinsTip pool)) st with
    | Stop => None
    | Reject view st => Some (vmp_base (base view), l, st, false, false)
    | Done view st (inl missing) => Some (vmp_base (base view), l, st, missing, false)
    | Done view st (inr nValueIn) =>
        r ← accept_spends e pool l tx fLimitFree fRejectInsaneFee nValueIn (SetBackend view tt) st;
        Some (vmp_base (base view), r.1.1, r.1.2, false, r.2)
    end.
End Accept.

(** * The view over the pool as a view that is read *)

Section PoolView.
Context {V : Type} `{CCoinsViewReads V}.

(** The coins of the pool's transactions are well formed. *)
Definition pool_coins_wf (m : CTxMemPool) : Prop := forall k tx, lookup_tx m k = Some tx -> wf_coins (FromTx tx MEMPOOL_HEIGHT).

Definition mempool_content (v : CCoinsViewMemPool V) (k : uint256) : CCoins :=
  match lookup_tx (vmp_pool v) k with Some tx => norm (FromTx tx MEMPOOL_HEIGHT) | None => content (vmp_base v) k end.

Definition mempool_holds (v : CCoinsViewMemPool V) (k : uint256) : Prop :=
  is_Some (lookup_tx (vmp_pool v) k) \/ holds (vmp_base v) k.

#[export] Program Instance CCoinsViewMemPool_reads : CCoinsViewReads (CCoinsViewMemPool V) := {
  content := mempool_content;
  best v := best (vmp_base v);
  holds := mempool_holds;
  view_inv v := view_inv (vmp_base v) /\ pool_coins_wf (vmp_pool v)
}.
Next Obligation.
  intros v k v' r [I P] Hk E. cbn in E. unfold mempool_GetCoins in E. unfold mempool_content, mempool_holds.
  destruct (lookup_tx (vmp_pool v) k) as [tx|] eqn:L.
  - injection E as <- <-. split_and!; try done; [by apply (P k)|left; by rewrite L].
  - destruct (GetCoins (vmp_base v) k) as [b r0] eqn:G. injection E as <- <-.
    destruct (GetCoins_law _ _ _ _ I Hk G) as (Gi & Gb & Gc & Gh & Gr). cbn [vmp_base vmp_pool]. split_and!; try done.
    + intros k' Hk'. destruct (lookup_tx (vmp_pool v) k'); auto.
    + intros k' [?|?]; [by left|right; auto].
    + destruct r0 as [c|]; [|done]. destruct Gr as (Gn & Gw & Gk). destruct (IsPruned c) eqn:Pc.
      * by rewrite <- Gn, norm_pruned.
      * split_and!; [done|done|by right].
Qed.
Next Obligation.
  intros v v' h [I P] E. cbn in E. destruct (GetBestBlock (vmp_base v)) as [b h'] eqn:G. injection E as <- <-.
  destruct (GetBestBlock_law _ _ _ I G) as (Gi & Gb & Gc & Gh & ->). unfold mempool_content, mempool_holds. cbn [vmp_base vmp_pool].
  split_and!; try done.
  - intros k' Hk'. destruct (lookup_tx (vmp_pool v) k'); auto.
  - intros k' [?|?]; [by left|right; auto].
Qed.
End PoolView.

(** * Reading through to the view below

    [tracks R m]: the action leaves the meaning of the view, and changes the view below
    the cache only as reading may, by steps of [R]. *)

Section Tracks.
Context {V : Type} `{CCoinsViewReads V} (R : V -> V -> Prop).
Abbreviation cache := (CCoinsViewCache V).

Class reading_steps : Prop := {
  rs_refl v : R v v;
  rs_trans a b c : R a b -> R b c -> R a c;
  rs_GetCoins v k v' r : view_inv v -> wf256 k -> GetCoins v k = (v', r) -> R v v';
  rs_GetBestBlock v v' h : view_inv v -> GetBestBlock v = (v', h) -> R v v'
}.
Context `{reading_steps}.

Record tracks (c c' : cache) : Prop := {
  tr_same : same_cache c c';
  tr_base : R (base c) (base c');
  tr_hash : hashBlock c <> zero W256 -> hashBlock c' = hashBlock c
}.

Lemma tracks_refl c : cache_inv c -> tracks c c.
Proof. split; [by apply same_cache_refl|apply rs_refl|done]. Qed.

Lemma tracks_trans a b c : tracks a b -> tracks b c -> tracks a c.
Proof. intros [? ? Ha] [? ? Hb]. split; [by eapply same_cache_trans|by eapply rs_trans|]. intros Hz. rewrite Hb; rewrite Ha; done. Qed.

Lemma AccessCoins_tracks (c c' : cache) k r : cache_inv c -> wf256 k -> AccessCoins c k = (c', r) ->
  tracks c c' /\ match r with
                 | Some cs => norm cs = cache_content c k /\ cache_holds c' k
                 | None => cache_content c k = empty_coins
                 end.
Proof.
  intros I Hk E. unfold AccessCoins in E. destruct (FetchCoins c k) as [c1 it] eqn:F. injection E as <- <-.
  destruct (FetchCoins_spec _ _ _ _ I Hk F) as [S Q]. split.
  - unfold FetchCoins in F. destruct (cacheCoins c !! k); [injection F as <- _; by split; [|apply rs_refl|]|].
    destruct (GetCoins (base c) k) as [b q] eqn:G. apply (rs_GetCoins _ _ _ _ (ci_base _ I) Hk) in G.
    by destruct q; injection F as <- _; split.
  - destruct it as [e|]; cbn; [|done]. destruct Q as (? & _ & L). split; [done|]. by exists e.
Qed.

Lemma cache_HaveCoins_tracks (c c' : cache) k b : cache_inv c -> wf256 k -> HaveCoins c k = (c', b) ->
  tracks c c' /\ b = negb (IsPruned (cache_content c k)).
Proof.
  intros I Hk E. split; [|by destruct (@HaveCoins_law cache _ _ CCoinsViewCache_laws c k c' b I Hk E) as (_ & _ & _ & ->)]. cbn in E. unfold cache_HaveCoins in E.
  destruct (AccessCoins c k) as [c1 r] eqn:A. pose proof (AccessCoins_tracks _ _ _ _ I Hk A) as [T _].
  unfold AccessCoins in A. destruct (FetchCoins c k) as [c2 it]. injection A as -> _. by injection E as <- _.
Qed.

Lemma cache_GetBestBlock_tracks (c c' : cache) h : cache_inv c -> GetBestBlock c = (c', h) ->
  tracks c c' /\ h = cache_best c /\ (h <> zero W256 -> hashBlock c' <> zero W256).
Proof.
  intros I E. destruct (cache_GetBestBlock_spec _ _ _ I E) as [S Eh]. split; [|split; [done|]].
  - cbn in E. unfold cache_GetBestBlock in E. case_bool_decide; [|injection E as <- _; by split; [|apply rs_refl|]].
    destruct (GetBestBlock (base c)) as [b h'] eqn:G. injection E as <- _. by split; [|apply (rs_GetBestBlock _ _ _ (ci_base _ I) G)|].
  - intros Nz. cbn in E. unfold cache_GetBestBlock in E. case_bool_decide; [|by injection E as <- _].
    destruct (GetBestBlock (base c)) as [b h']. injection E as <- ->. done.
Qed.

(** ** The look-ups of [AcceptToMemoryPool] *)

Definition held (c : cache) (ins : list CTxIn) : Prop := Forall (fun i => cache_holds c (out_hash (prevout i))) ins.

Lemma held_same c c' ins : same_cache c c' -> held c ins -> held c' ins.
Proof. intros (_ & _ & _ & Hh) F. eapply Forall_impl; [exact F|]. intros i. apply Hh. Qed.

Lemma have_parents_spec ins st : forall c, cache_inv c -> Forall wf_in ins ->
  exists c' b, have_parents ins c st = Done c' st b /\ tracks c c' /\
    (b = false -> spent (cache_content c) ins = None).
Proof.
  induction ins as [|i ins IH]; intros c I W.
  { exists c, true. split; [done|]. by split; [apply tracks_refl|]. }
  apply Forall_cons in W as [[Wi _] W]. cbn [have_parents]. destruct (HaveCoins c (out_hash (prevout i))) as [c1 b] eqn:E.
  rewrite (bind_view_op _ _ _ _ _ _ E). destruct (cache_HaveCoins_tracks _ _ _ _ I Wi E) as [T Eb]. destruct b.
  - destruct (IH c1 (proj1 (tr_same _ _ T)) W) as (c2 & b & -> & T2 & F). exists c2, b. split; [done|].
    split; [by eapply tracks_trans|]. intros Hb. specialize (F Hb). rewrite (spent_same c c1) in F by (done || apply T).
    unfold spent in *. cbn [mapM]. rewrite F. by destruct (utxo _ _).
  - exists c1, false. split; [done|]. split; [done|]. intros _. unfold spent. cbn [mapM].
    assert (utxo (cache_content c) (prevout i) = None) as ->; [|done].
    symmetry in Eb. apply negb_false_iff in Eb. unfold utxo. unfold IsPruned in Eb. rewrite forallb_forall in Eb.
    case_match eqn:L; [|done]. apply list_elem_of_lookup_2, list_elem_of_In, Eb in L. by rewrite L.
Qed.

Lemma have_inputs_tracks ins : forall c c' b, cache_inv c -> Forall wf_in ins -> have_inputs_loop c ins = (c', b) ->
  tracks c c' /\ (b = true -> held c' ins).
Proof.
  induction ins as [|i ins IH]; intros c c' b I W E; cbn [have_inputs_loop] in E.
  { injection E as <- <-. split; [by apply tracks_refl|]. intros _. constructor. }
  apply Forall_cons in W as [[Wi _] W]. destruct (AccessCoins c (out_hash (prevout i))) as [c1 r] eqn:A.
  destruct (AccessCoins_tracks _ _ _ _ I Wi A) as [T Q].
  destruct r as [cs|]; [|injection E as <- <-; split; [done|discriminate]].
  destruct (negb _); [injection E as <- <-; split; [done|discriminate]|].
  destruct (IH c1 c' b (proj1 (tr_same _ _ T)) W E) as [T2 Hb]. split; [by eapply tracks_trans|]. intros ->.
  apply Forall_cons. split; [apply T2, Q|by apply Hb].
Qed.

(** The sum of the values, as the code adds them up. *)
Definition sum_values (outs : list (CCoins * CTxOut)) (nResult : Z) : Z := foldl (fun acc p => s64 (acc + nValue p.2)) nResult outs.

Lemma value_in_tracks ins : forall outs c acc, cache_inv c -> Forall wf_in ins -> spent (cache_content c) ins = Some outs ->
  exists c', value_in_loop c ins acc = (c', Some (sum_values outs acc)) /\ tracks c c'.
Proof.
  induction ins as [|i ins IH]; intros outs c acc I W Hs.
  { injection Hs as <-. exists c. split; [done|by apply tracks_refl]. }
  destruct (access_spent c i ins outs I W Hs) as (q & outs' & c1 & -> & A & S & L & W' & Hs').
  cbn [value_in_loop]. unfold GetOutputFor. rewrite A.
  apply Forall_cons in W as [[Wi _] _]. destruct (AccessCoins_tracks _ _ _ _ I Wi A) as [T [Q _]].
  assert (IsAvailable q.1 (out_n (prevout i)) = true) as ->.
  { rewrite (utxo_available _ _ _ Q). apply bool_decide_eq_true. unfold spent in Hs. cbn [mapM] in Hs.
    apply bind_Some in Hs as (x & Hx & _). by exists x. }
  rewrite L. destruct (IH outs' c1 (s64 (acc + nValue q.2)) (proj1 (tr_same _ _ T)) W' Hs') as (c2 & -> & T2).
  exists c2. split; [done|by eapply tracks_trans].
Qed.

(** How the look-up may end. *)
Definition collect_result (tx : CTransaction) (c : cache) (st : CValidationState) (r : outcome V (bool + Z)) : Prop :=
  match r with
  | Done c' st' (inl m) => tracks c c' /\ st' = st /\
      (IsPruned (cache_content c (tx_GetHash tx)) = false \/ spent (cache_content c) (vin tx) = None)
  | Done c' st' (inr v) => tracks c c' /\ st' = st /\ IsPruned (cache_content c (tx_GetHash tx)) = true /\
      held c' (vin tx) /\ hashBlock c' <> zero W256 /\
      exists outs, spent (cache_content c) (vin tx) = Some outs /\ v = sum_values outs 0
  | Reject c' st' => tracks c c' /\ mode st' <> MODE_VALID /\ spent (cache_content c) (vin tx) = None
  | Stop => False
  end.

Lemma collect_inputs_spec tx c st :
  cache_inv c -> cache_best c <> zero W256 -> IsCoinBase tx = false -> Forall wf_in (vin tx) ->
  collect_result tx c st (collect_inputs tx c st).
Proof.
  intros I Hb NB W. unfold collect_inputs. destruct (HaveCoins c (tx_GetHash tx)) as [c1 b] eqn:E1.
  rewrite (bind_view_op _ _ _ _ _ _ E1). destruct (cache_HaveCoins_tracks _ _ _ _ I (tx_GetHash_wf tx) E1) as [T1 ->].
  destruct (IsPruned (cache_content c (tx_GetHash tx))) eqn:P; cbn [negb]; [|split; [done|]; split; [done|by left]].
  destruct (have_parents_spec (vin tx) st c1 (proj1 (tr_same _ _ T1)) W) as (c2 & b & E2 & T2 & F2).
  rewrite (bind_Done_eq _ _ _ _ _ _ _ E2). rewrite (spent_same c c1) in F2 by (done || apply T1).
  pose proof (tracks_trans _ _ _ T1 T2) as T12. destruct b; cbn [negb]; [|split; [done|]; split; [done|right; auto]].
  destruct (HaveInputs c2 tx) as [c3 b] eqn:E3. rewrite (bind_view_op _ _ _ _ _ _ E3).
  destruct (HaveInputs_spec _ _ _ _ (proj1 (tr_same _ _ T12)) W E3) as [_ B]. specialize (B NB).
  unfold HaveInputs in E3. rewrite NB in E3. cbn [negb] in E3.
  destruct (have_inputs_tracks _ _ _ _ (proj1 (tr_same _ _ T12)) W E3) as [T3 H3].
  pose proof (tracks_trans _ _ _ T12 T3) as T13. rewrite (spent_same c c2) in B by (done || apply T12). subst b.
  case_bool_decide as D.
  2: { split; [done|]. split; [unfold Invalid, DoS; by destruct (mode st)|]. destruct (spent _ _); [by destruct D|done]. }
  destruct D as [outs Hs]. destruct (GetBestBlock c3) as [c4 h] eqn:E4. rewrite (bind_view_op _ _ _ _ _ _ E4).
  destruct (cache_GetBestBlock_tracks _ _ _ (proj1 (tr_same _ _ T13)) E4) as (T4 & Eh & Hz).
  pose proof (tracks_trans _ _ _ T13 T4) as T14.
  destruct (value_in_tracks (vin tx) outs c4 0 (proj1 (tr_same _ _ T14)) W) as (c5 & E5 & T5).
  { by rewrite (spent_same c c4) by (done || apply T14). }
  assert (E5' : GetValueIn c4 tx = (c5, Some (sum_values outs 0))) by (unfold GetValueIn; by rewrite NB).
  rewrite (bind_view_op _ _ _ _ _ _ E5'). cbn [stop_if_none]. rewrite bind_mret.
  pose proof (tracks_trans _ _ _ T14 T5) as T15. split; [done|]. split; [done|]. split; [done|].
  split; [eapply held_same; [apply (tracks_trans _ _ _ T4 T5)|auto]|]. split; [|by exists outs].
  assert (Hh : h <> zero W256) by (rewrite Eh, (proj1 (proj2 (tr_same _ _ T13))); done).
  specialize (Hz Hh). by rewrite (tr_hash _ _ T5).
Qed.
End Tracks.

(** * Another view below the cache

    Once the cache holds the coins of the inputs, what is checked does not depend on the
    view below: this is what lets the code put the empty view there. *)

Section Switch.
Context {V W : Type} `{CCoinsView V} `{CCoinsView W} (c : CCoinsViewCache V) (w : W).

(** Run on the cache and on the cache over [w], two actions end alike and leave it. *)
Definition same_end {A} (o : outcome V A) (o' : outcome W A) : Prop :=
  match o, o' with
  | Done c1 st a, Done d1 st' a' => c1 = c /\ d1 = SetBackend c w /\ st' = st /\ a' = a
  | Reject c1 st, Reject d1 st' => c1 = c /\ d1 = SetBackend c w /\ st' = st
  | Stop, Stop => True
  | _, _ => False
  end.

Definition agree {A} (m : M V A) (m' : M W A) : Prop := forall st, same_end (m c st) (m' (SetBackend c w) st).

Lemma agree_bind {A B} (m : M V A) m' (k : A -> M V B) k' : agree m m' -> (forall a, agree (k a) (k' a)) -> agree (bind m k) (bind m' k').
Proof.
  intros Hm Hk st. unfold bind. specialize (Hm st). destruct (m c st), (m' (SetBackend c w) st); try done.
  destruct Hm as (-> & -> & -> & ->). apply Hk.
Qed.

Lemma agree_mret {A} (a : A) : agree (mret a) (mret a). Proof. by intros st. Qed.
Lemma agree_stop {A} : agree (stop (A := A)) stop. Proof. by intros st. Qed.
Lemma agree_stop_if_none {A} (o : option A) : agree (stop_if_none o) (stop_if_none o).
Proof. by intros st; destruct o. Qed.
Lemma agree_DoS {A} l k r : agree (reject_DoS (A := A) l k r) (reject_DoS l k r). Proof. by intros st. Qed.
Lemma agree_Invalid {A} k r : agree (reject_Invalid (A := A) k r) (reject_Invalid k r). Proof. by intros st. Qed.
Lemma agree_error {A} : agree (reject_error (A := A)) reject_error. Proof. by intros st. Qed.
Lemma agree_if {A} (b : bool) (k r : M V A) k' r' : agree k k' -> agree r r' -> agree (if b then k else r) (if b then k' else r').
Proof. by destruct b. Qed.
Lemma agree_view_op {A} (f : CCoinsViewCache V -> _ * A) f' a :
  f c = (c, a) -> f' (SetBackend c w) = (SetBackend c w, a) -> agree (view_op f) (view_op f').
Proof. intros E E' st. unfold view_op. by rewrite E, E'. Qed.

Context (Nz : hashBlock c <> zero W256).

Lemma agree_GetBestBlock : agree (view_op GetBestBlock) (view_op GetBestBlock).
Proof.
  apply (agree_view_op _ _ (hashBlock c)); cbn; unfold cache_GetBestBlock; cbn [hashBlock SetBackend];
    by rewrite bool_decide_eq_false_2.
Qed.

Definition holds_parent (i : CTxIn) : Prop := is_Some (cacheCoins c !! out_hash (prevout i)).

Lemma Access_held i : holds_parent i -> exists cs, AccessCoins c (out_hash (prevout i)) = (c, Some cs) /\
  AccessCoins (SetBackend c w) (out_hash (prevout i)) = (SetBackend c w, Some cs).
Proof.
  intros [e He]. exists (coins e). unfold AccessCoins, FetchCoins. cbn [cacheCoins SetBackend]. by rewrite He.
Qed.

Lemma agree_Access i : holds_parent i ->
  agree (view_op (fun c => AccessCoins c (out_hash (prevout i)))) (view_op (fun c => AccessCoins c (out_hash (prevout i)))).
Proof. intros (cs & E & E')%Access_held. by apply (agree_view_op _ _ (Some cs)). Qed.

Lemma agree_GetOutputFor i : holds_parent i ->
  agree (view_op (fun c => GetOutputFor c i)) (view_op (fun c => GetOutputFor c i)).
Proof.
  intros (cs & E & E')%Access_held. eapply agree_view_op; unfold GetOutputFor; [by rewrite E|by rewrite E'].
Qed.

Lemma agree_HaveInputs tx : Forall holds_parent (vin tx) ->
  agree (view_op (fun c => HaveInputs c tx)) (view_op (fun c => HaveInputs c tx)).
Proof.
  intros F. assert (exists b, have_inputs_loop c (vin tx) = (c, b) /\ have_inputs_loop (SetBackend c w) (vin tx) = (SetBackend c w, b)) as (b & E & E').
  { induction F as [|i ins (cs & E & E')%Access_held _ (b & IH & IH')]; [by exists true|]. cbn [have_inputs_loop].
    rewrite E, E'. destruct (negb _); [by exists false|]. rewrite IH, IH'. by exists b. }
  unfold HaveInputs. destruct (negb (IsCoinBase tx)) eqn:B; eapply agree_view_op; rewrite ?B; [apply E|apply E'|done|done].
Qed.
End Switch.

Create HintDb agree.
#[export] Hint Resolve agree_bind agree_mret agree_stop agree_stop_if_none agree_DoS agree_Invalid agree_error agree_if
  agree_GetBestBlock agree_Access agree_GetOutputFor agree_HaveInputs : agree.
#[export] Hint Extern 2 (forall _, agree _ _ _ _) => intro : agree.

Section SwitchChecks.
Context {V W : Type} `{CCoinsView V} `{CCoinsView W} (c : CCoinsViewCache V) (w : W) (lib : secp256k1) (ps : CChainParams).
Context (Nz : hashBlock c <> zero W256).

Ltac over_inputs ins :=
  induction ins as [|? ins IH]; intros; [apply agree_mret|];
  match goal with F : Forall _ (_ :: _) |- _ => apply Forall_cons in F as [? ?] end.

Lemma agree_standard_spends ins : Forall (holds_parent c) ins -> agree c w (standard_spends lib ins) (standard_spends lib ins).
Proof.
  over_inputs ins. cbn [standard_spends]. apply agree_bind; [auto with agree|intros o].
  apply agree_bind; [auto with agree|intros prev]. destruct (input_standard _ _ _); auto with agree.
Qed.

Lemma agree_p2sh ins n : Forall (holds_parent c) ins -> agree c w (p2sh_sigops_loop ins n) (p2sh_sigops_loop ins n).
Proof. revert n. over_inputs ins. cbn [p2sh_sigops_loop]. auto 10 with agree. Qed.

Lemma agree_priority h ins d : Forall (holds_parent c) ins -> agree c w (spent_priority h ins d) (spent_priority h ins d).
Proof. revert d. over_inputs ins. cbn [spent_priority]. auto 10 with agree. Qed.

Lemma agree_input_values h ins v : Forall (holds_parent c) ins -> agree c w (input_values ps h ins v) (input_values ps h ins v).
Proof. revert v. over_inputs ins. cbn [input_values]. auto 20 with agree. Qed.

Lemma agree_script_checks tx flags pv ins i : Forall (holds_parent c) ins ->
  agree c w (script_checks lib tx flags pv i ins) (script_checks lib tx flags pv i ins).
Proof. revert i. over_inputs ins. cbn [script_checks]. auto 20 with agree. Qed.

Lemma agree_CheckInputs bh tx run flags pv : Forall (holds_parent c) (vin tx) ->
  agree c w (CheckInputs lib ps bh tx run flags pv) (CheckInputs lib ps bh tx run flags pv).
Proof.
  intros F. unfold CheckInputs. apply agree_if; [|auto with agree]. apply agree_bind; [by apply agree_HaveInputs|intros b].
  apply agree_if; [|auto with agree]. apply agree_bind; [by apply agree_GetBestBlock|intros h].
  apply agree_bind; [auto with agree|intros prev]. apply agree_bind; [by apply agree_input_values|intros v].
  apply agree_bind; [auto 20 with agree|intros _]. apply agree_if; [by apply agree_script_checks|auto with agree].
Qed.
End SwitchChecks.

(** * What the checks compute *)

(** The loop of [AreInputsStandard] over the outputs that are spent. *)
Fixpoint all_standard (lib : secp256k1) (ins : list CTxIn) (outs : list (CCoins * CTxOut)) : bool :=
  match ins, outs with
  | i :: ins, q :: outs =>
      match input_standard lib (scriptPubKey q.2) (scriptSig i) with Some b => b | None => all_standard lib ins outs end
  | _, _ => true
  end.

Fixpoint p2sh_count (ins : list CTxIn) (outs : list (CCoins * CTxOut)) (n : Z) : Z :=
  match ins, outs with
  | i :: ins, q :: outs =>
      p2sh_count ins outs
        (if IsPayToScriptHash (scriptPubKey q.2) then u32 (n + GetSigOpCount_p2sh (scriptPubKey q.2) (scriptSig i)) else n)
  | _, _ => n
  end.

Fixpoint priority_sum (h : Z) (ins : list CTxIn) (outs : list (CCoins * CTxOut)) (d : spec_float) : spec_float :=
  match ins, outs with
  | i :: ins, q :: outs => priority_sum h ins outs (input_priority h q.1 (out_n (prevout i)) d)
  | _, _ => d
  end.

Section Values.
Context {V : Type} `{CCoinsViewReads V} (lib : secp256k1) (ps : CChainParams).
Abbreviation cache := (CCoinsViewCache V).

(** An action that ends with [a] and leaves the meaning of the view. *)
Definition yields {A} (m : M V A) (a : A) (c : cache) (st : CValidationState) : Prop :=
  exists c', m c st = Done c' st a /\ same_cache c c'.

Lemma yields_bind {A B} (m : M V A) a (k : A -> M V B) b c st :
  yields m a c st -> (forall c', same_cache c c' -> yields (k a) b c' st) -> yields (bind m k) b c st.
Proof.
  intros (c1 & E & S) Hk. destruct (Hk c1 S) as (c2 & E2 & S2). exists c2.
  rewrite (bind_Done_eq _ _ _ _ _ _ _ E). split; [done|by eapply same_cache_trans].
Qed.

Lemma yields_mret {A} (a : A) c st : cache_inv c -> yields (mret a) a c st.
Proof. intros I. exists c. split; [done|by apply same_cache_refl]. Qed.

Lemma output_spent c i ins outs0 :
  cache_inv c -> Forall wf_in (i :: ins) -> spent (cache_content c) (i :: ins) = Some outs0 ->
  exists q outs c', outs0 = q :: outs /\ AccessCoins c (out_hash (prevout i)) = (c', Some q.1) /\
    GetOutputFor c i = (c', Some q.2) /\ same_cache c c' /\ Forall wf_in ins /\ spent (cache_content c') ins = Some outs.
Proof.
  intros I W Hs. destruct (access_spent c i ins outs0 I W Hs) as (q & outs & c1 & -> & A & S & L & W' & Hs').
  exists q, outs, c1. split_and!; try done. unfold GetOutputFor. rewrite A.
  apply Forall_cons in W as [[Wi _] _]. destruct (AccessCoins_spec _ _ _ _ I Wi A) as [_ Q].
  assert (IsAvailable q.1 (out_n (prevout i)) = true) as ->; [|by rewrite L].
  rewrite (utxo_available _ _ _ Q). apply bool_decide_eq_true. unfold spent in Hs. cbn [mapM] in Hs.
  apply bind_Some in Hs as (x & Hx & _). by exists x.
Qed.

Lemma standard_spends_yields ins outs st : forall c, cache_inv c -> Forall wf_in ins -> spent (cache_content c) ins = Some outs ->
  yields (standard_spends lib ins) (all_standard lib ins outs) c st.
Proof.
  revert outs. induction ins as [|i ins IH]; intros outs c I W Hs; [by injection Hs as <-; apply yields_mret|].
  destruct (output_spent c i ins outs I W Hs) as (q & outs' & c1 & -> & _ & G & S & W' & Hs').
  unfold yields. cbn [standard_spends all_standard]. rewrite (bind_view_op _ _ _ _ _ _ G). cbn [stop_if_none]. rewrite bind_mret.
  destruct (input_standard _ _ _) as [b|]; [by exists c1|].
  destruct (IH outs' c1 (proj1 S) W' Hs') as (c2 & E & S2). exists c2. split; [done|by eapply same_cache_trans].
Qed.

Lemma p2sh_yields ins outs st : forall c n, cache_inv c -> Forall wf_in ins -> spent (cache_content c) ins = Some outs ->
  yields (p2sh_sigops_loop ins n) (p2sh_count ins outs n) c st.
Proof.
  revert outs. induction ins as [|i ins IH]; intros outs c n I W Hs; [by injection Hs as <-; apply yields_mret|].
  destruct (output_spent c i ins outs I W Hs) as (q & outs' & c1 & -> & _ & G & S & W' & Hs').
  unfold yields. cbn [p2sh_sigops_loop p2sh_count]. rewrite (bind_view_op _ _ _ _ _ _ G). cbn [stop_if_none]. rewrite bind_mret.
  edestruct (IH outs' c1) as (c2 & E & S2); [apply S|done..|]. exists c2. split; [exact E|by eapply same_cache_trans].
Qed.

Lemma priority_yields h ins outs st : forall c d, cache_inv c -> Forall wf_in ins -> spent (cache_content c) ins = Some outs ->
  yields (spent_priority h ins d) (priority_sum h ins outs d) c st.
Proof.
  revert outs. induction ins as [|i ins IH]; intros outs c d I W Hs; [by injection Hs as <-; apply yields_mret|].
  destruct (output_spent c i ins outs I W Hs) as (q & outs' & c1 & -> & A & _ & S & W' & Hs').
  unfold yields. cbn [spent_priority priority_sum]. rewrite (bind_view_op _ _ _ _ _ _ A). cbn [stop_if_none]. rewrite bind_mret.
  edestruct (IH outs' c1) as (c2 & E & S2); [apply S|done..|]. exists c2. split; [exact E|by eapply same_cache_trans].
Qed.
End Values.

Lemma valid_GetValueOut ps tx : MaxMoneyOut ps < 2 ^ 62 -> tx_valid ps tx -> GetValueOut tx = Some (zsum (map nValue (vout tx))).
Proof.
  intros Hm [_ _ _ _ Tv Tt _ _ _]. unfold GetValueOut. rewrite value_out_loop_spec.
  - rewrite Z.add_0_l. replace (forallb _ _) with true; [|symmetry; apply forallb_forall].
    + by rewrite (proj2 (Z.ltb_lt _ _)) by lia.
    + intros o Ho%list_elem_of_In. rewrite Forall_forall in Tv. specialize (Tv o Ho). lia.
  - lia.
  - eapply Forall_impl; [exact Tv|]. cbn. lia.
Qed.

(** Values in the range of money that add up to one in it do so without wrapping. *)
Lemma sum_values_total ps h outs : Forall (may_spend ps h) outs -> total outs <= MaxMoneyOut ps -> MaxMoneyOut ps < 2 ^ 62 ->
  sum_values outs 0 = total outs.
Proof.
  intros F Ht Hm. enough (G : forall acc, 0 <= acc -> acc + total outs <= MaxMoneyOut ps -> sum_values outs acc = acc + total outs).
  { apply (G 0); lia. }
  clear Ht. induction F as [|q outs [_ Hq] F IH]; intros acc Ha Ht; [unfold total; cbn; lia|].
  pose proof (total_nonneg _ _ _ F) as Hp. change (total (q :: outs)) with (nValue q.2 + total outs) in *.
  unfold sum_values in *. cbn [foldl]. rewrite s64_small by lia. rewrite IH by lia. lia.
Qed.

(** * What is admitted *)

Section Admissible.
Context {V : Type} `{CCoinsViewReads V} (lib : secp256k1) (ps : CChainParams) (p : RelayPolicy) (decay : Z -> spec_float).

(** The unspent outputs that the pool and the chain have together. *)
Definition coins_seen (pool : CTxMemPool) (tip : CCoinsViewCache V) (k : uint256) : CCoins :=
  match lookup_tx pool k with Some tx => norm (FromTx tx MEMPOOL_HEIGHT) | None => cache_content tip k end.

Definition value_out (tx : CTransaction) : Z := zsum (map nValue (vout tx)).
Definition tx_size (tx : CTransaction) : Z := u32 (Z.of_nat (length (enc c_transaction tx))).

(** The priority of the transaction in a block at the height. *)
Definition priority_at (h : Z) (tx : CTransaction) (outs : list (CCoins * CTxOut)) : spec_float :=
  ComputePriority tx (priority_sum h (vin tx) outs double_zero).

(** The rules on fees. *)
Record fee_enough (e : Surroundings) (pool : CTxMemPool) (l : FreeLimiter) (fLimitFree : bool) (tx : CTransaction)
    (outs : list (CCoins * CTxOut)) (nFees : Z) : Prop := {
  fe_relay : fLimitFree = true -> GetMinRelayFee p ps pool tx (tx_size tx) true <= nFees;
  fe_priority : relaypriority p = true -> nFees < GetFee (minRelayTxFee p) (tx_size tx) ->
    AllowFree (priority_at (chain_height e + 1) tx outs) = true;
  fe_rate : fLimitFree = true -> nFees < GetFee (minRelayTxFee p) (tx_size tx) ->
    (rate_limit decay p (now e) (tx_size tx) l).2 = true
}.

(** The transactions that the pool takes, spending [outs]. *)
Record admissible (e : Surroundings) (pool : CTxMemPool) (tip : CCoinsViewCache V) (l : FreeLimiter) (tx : CTransaction)
    (fLimitFree fRejectInsaneFee ignoreFees : bool) (outs : list (CCoins * CTxOut)) : Prop := {
  ad_valid : tx_valid ps tx;
  ad_loose : IsCoinBase tx = false /\ IsCoinStake tx = false;
  ad_standard : RequireStandard p = true -> IsStandardTx p e tx = None /\ all_standard lib (vin tx) outs = true;
  ad_new : mapTx pool !! tx_GetHash tx = None /\ IsPruned (cache_content tip (tx_GetHash tx)) = true;
  ad_locks : lock_conflict e tx = false;
  ad_conflicts : Forall (fun o => mapNextTx pool !! o = None) (map prevout (vin tx));
  ad_spent : spent (coins_seen pool tip) (vin tx) = Some outs;
  ad_sigops : u32 (GetLegacySigOpCount tx + p2sh_count (vin tx) outs 0) <= MAX_TX_SIGOPS;
  ad_fees : ignoreFees = false -> fee_enough e pool l fLimitFree tx outs (total outs - value_out tx);
  ad_sane : fRejectInsaneFee = true -> total outs - value_out tx <= s64 (GetFee (minRelayTxFee p) (tx_size tx) * 10000);
  ad_scripts : exists prev, block_height e (cache_best tip) = Some prev /\
    spends_ok lib ps tx STANDARD_SCRIPT_VERIFY_FLAGS (prev + 1) true outs /\
    spends_ok lib ps tx MANDATORY_SCRIPT_VERIFY_FLAGS (prev + 1) true outs
}.
End Admissible.

(** * The checks over the empty view *)

Section Dummy.
Context {V : Type} `{CCoinsViewReads V} (lib : secp256k1) (ps : CChainParams) (p : RelayPolicy) (e : Surroundings).
Context (c : CCoinsViewCache V) (tx : CTransaction) (outs : list (CCoins * CTxOut)).
Context (I : cache_inv c) (Nz : hashBlock c <> zero W256) (Hh : held c (vin tx)) (W : Forall wf_in (vin tx)).
Context (NB : IsCoinBase tx = false) (NS : IsCoinStake tx = false) (Hs : spent (cache_content c) (vin tx) = Some outs).
Context (Tv : tx_valid ps tx) (Hm : 0 <= MaxMoneyOut ps < 2 ^ 62).
Abbreviation d := (SetBackend c tt).

Lemma dummy_yields {A} (m : M V A) (m' : M unit A) a st : agree c tt m m' -> yields m a c st -> m' d st = Done d st a.
Proof.
  intros G (c1 & E & _). specialize (G st). rewrite E in G. destruct (m' d st); try done. by destruct G as (_ & -> & -> & ->).
Qed.

Lemma dummy_standard st : AreInputsStandard lib tx d st = Done d st (all_standard lib (vin tx) outs).
Proof.
  unfold AreInputsStandard. rewrite NB. eapply dummy_yields; [by apply agree_standard_spends|by apply standard_spends_yields].
Qed.

Lemma dummy_p2sh st : GetP2SHSigOpCount tx d st = Done d st (p2sh_count (vin tx) outs 0).
Proof. unfold GetP2SHSigOpCount. rewrite NB. eapply dummy_yields; [by apply agree_p2sh|by apply p2sh_yields]. Qed.

Lemma dummy_priority h st : view_GetPriority tx h d st = Done d st (priority_at h tx outs).
Proof.
  unfold view_GetPriority. rewrite NB, NS. cbn [orb].
  assert (E : spent_priority h (vin tx) double_zero d st = Done d st (priority_sum h (vin tx) outs double_zero)).
  { eapply dummy_yields; [by apply agree_priority|by apply priority_yields]. }
  by rewrite (bind_Done_eq _ _ _ _ _ _ _ E).
Qed.

(** What [CheckInputs] asks, with the scripts if they are run. *)
Definition inputs_ok (run : bool) (flags : Z) : Prop :=
  exists prev, block_height e (cache_best c) = Some prev /\ spends_ok lib ps tx flags (prev + 1) run outs.

Lemma dummy_CheckInputs run flags st : is_Some (block_height e (cache_best c)) ->
  (inputs_ok run flags /\ exists l, CheckInputs lib ps (block_height e) tx run flags false d st = Done d st l) \/
  (~ inputs_ok run flags /\ exists st', CheckInputs lib ps (block_height e) tx run flags false d st = Reject d st').
Proof.
  intros [prev Hb]. pose proof (CheckInputs_spec lib ps (block_height e) tx run flags false NB W Hm c st I) as R.
  pose proof (agree_CheckInputs c tt lib ps Nz (block_height e) tx run flags false Hh st) as G.
  assert (U : forall os, (exists q, spent (cache_content c) (vin tx) = Some os /\ block_height e (cache_best c) = Some q /\
    spends_ok lib ps tx flags (q + 1) (run && negb false) os) -> inputs_ok run flags).
  { intros os (q & Eo & Eq & Ok). rewrite Hs in Eo. apply Some_inj in Eo as <-. rewrite andb_true_r in Ok. by exists q. }
  unfold CheckInputs_result in R. destruct (CheckInputs _ _ _ _ _ _ _ c st) as [c1 st1 l|c1 st1|];
    destruct (CheckInputs _ _ _ _ _ _ _ d st) as [d1 st1' l'|d1 st1'|]; try done.
  - destruct G as (-> & -> & -> & ->), R as (_ & -> & os & Ok & _). left. split; [by apply (U os)|by exists l].
  - destruct G as (-> & -> & ->), R as (_ & _ & N). right. split; [|by exists st1]. intros (q & Eq & Ok). apply (N outs).
    exists q. rewrite andb_true_r. by split_and!.
  - destruct R as [R|[_ R]]; [congruence|]. rewrite (valid_GetValueOut ps) in R by (done || lia). done.
Qed.

Lemma dummy_spends v st :
  let ok := (RequireStandard p = true -> all_standard lib (vin tx) outs = true) /\
            u32 (GetLegacySigOpCount tx + p2sh_count (vin tx) outs 0) <= MAX_TX_SIGOPS in
  (ok /\ check_spends_standard lib p e tx v d st = Done d st (s64 (v - value_out tx))) \/
  (~ ok /\ exists st', check_spends_standard lib p e tx v d st = Reject d st').
Proof.
  cbv zeta. unfold check_spends_standard.
  assert (E : (if RequireStandard p then AreInputsStandard lib tx else mret true) d st =
    Done d st (if RequireStandard p then all_standard lib (vin tx) outs else true)).
  { destruct (RequireStandard p); [apply dummy_standard|done]. }
  rewrite (bind_Done_eq _ _ _ _ _ _ _ E). destruct (if RequireStandard p then _ else true) eqn:S.
  2: { right. destruct (RequireStandard p); [|done]. split; [|by exists st]. intros [Q _]. specialize (Q eq_refl). congruence. }
  rewrite (bind_Done_eq _ _ _ _ _ _ _ (dummy_p2sh st)). case_if; [apply negb_true_iff, Z.ltb_ge in E0|apply negb_false_iff, Z.ltb_lt in E0].
  - left. split; [split; [intros Q; by rewrite Q in S|done]|]. rewrite (valid_GetValueOut ps) by (done || lia). cbn [stop_if_none].
    rewrite bind_mret. by rewrite (bind_Done_eq _ _ _ _ _ _ _ (dummy_priority _ st)).
  - right. split; [lia|]. by eexists.
Qed.

Lemma dummy_fees pool fLimitFree nFees st :
  let ok := (fLimitFree = true -> GetMinRelayFee p ps pool tx (tx_size tx) true <= nFees) /\
            (relaypriority p = true -> nFees < GetFee (minRelayTxFee p) (tx_size tx) ->
               AllowFree (priority_at (chain_height e + 1) tx outs) = true) in
  (ok /\ check_fees ps p e pool fLimitFree tx (tx_size tx) nFees d st = Done d st tt) \/
  (~ ok /\ exists st', check_fees ps p e pool fLimitFree tx (tx_size tx) nFees d st = Reject d st').
Proof.
  cbv zeta. unfold check_fees. case_if; [apply negb_true_iff, andb_false_iff in E|apply negb_false_iff, andb_true_iff in E as [-> E%Z.ltb_lt]].
  2: { right. split; [|by eexists]. intros [Q _]. specialize (Q eq_refl). lia. }
  assert (Q : fLimitFree = true -> GetMinRelayFee p ps pool tx (tx_size tx) true <= nFees).
  { intros ->. destruct E as [E|E]; [done|]. by apply Z.ltb_ge in E. }
  case_if.
  - apply andb_true_iff in E0 as [Er E0%Z.ltb_lt]. rewrite (bind_Done_eq _ _ _ _ _ _ _ (dummy_priority _ st)).
    case_if; [left; by split|right]. split; [|by eexists]. intros [_ F]. specialize (F Er E0). congruence.
  - left. split; [|done]. split; [done|]. intros Er L%Z.ltb_lt. by rewrite Er, L in E0.
Qed.

Lemma dummy_scripts fRejectInsaneFee nFees st : is_Some (block_height e (cache_best c)) ->
  let ok := (fRejectInsaneFee = true -> nFees <= s64 (GetFee (minRelayTxFee p) (tx_size tx) * 10000)) /\
            inputs_ok true STANDARD_SCRIPT_VERIFY_FLAGS /\ inputs_ok true MANDATORY_SCRIPT_VERIFY_FLAGS in
  (ok /\ check_scripts lib ps p e fRejectInsaneFee tx (tx_size tx) nFees d st = Done d st tt) \/
  (~ ok /\ exists st', check_scripts lib ps p e fRejectInsaneFee tx (tx_size tx) nFees d st = Reject d st').
Proof.
  intros Hb. cbv zeta. unfold check_scripts. case_if; [apply negb_true_iff, andb_false_iff in E|apply negb_false_iff, andb_true_iff in E as [-> E%Z.ltb_lt]].
  2: { right. split; [|by eexists]. intros [Q _]. specialize (Q eq_refl). lia. }
  destruct (dummy_CheckInputs true STANDARD_SCRIPT_VERIFY_FLAGS st Hb) as [(O1 & l1 & E1)|(O1 & st1 & E1)].
  2: { right. split; [tauto|]. exists st1. by rewrite (bind_Reject_eq _ _ _ _ _ _ E1). }
  rewrite (bind_Done_eq _ _ _ _ _ _ _ E1).
  destruct (dummy_CheckInputs true MANDATORY_SCRIPT_VERIFY_FLAGS st Hb) as [(O2 & l2 & E2)|(O2 & st2 & E2)].
  2: { right. split; [tauto|]. exists st2. by rewrite (bind_Reject_eq _ _ _ _ _ _ E2). }
  rewrite (bind_Done_eq _ _ _ _ _ _ _ E2). left. split; [|done]. split_and!; [|done..].
  intros ->. destruct E as [E|E]; [done|]. by apply Z.ltb_ge in E.
Qed.

Lemma dummy_sigops v st : u32 (GetLegacySigOpCount tx + p2sh_count (vin tx) outs 0) <= MAX_TX_SIGOPS ->
  check_spends_sigops e tx v d st = Done d st (s64 (v - value_out tx)).
Proof.
  intros Hn. unfold check_spends_sigops. rewrite (bind_Done_eq _ _ _ _ _ _ _ (dummy_p2sh st)).
  replace (MAX_TX_SIGOPS <? _) with false by (symmetry; by apply Z.ltb_ge). cbn [negb].
  rewrite (valid_GetValueOut ps) by (done || lia). cbn [stop_if_none]. rewrite bind_mret.
  by rewrite (bind_Done_eq _ _ _ _ _ _ _ (dummy_priority _ st)).
Qed.

Lemma dummy_values fRejectInsaneFee nFees st : inputs_ok true STANDARD_SCRIPT_VERIFY_FLAGS ->
  (fRejectInsaneFee = true -> nFees <= s64 (GetFee (minRelayTxFee p) (tx_size tx) * 10000)) ->
  check_values lib ps p e fRejectInsaneFee tx (tx_size tx) nFees d st = Done d st tt.
Proof.
  intros (prev & Hp & [S1 S2 S3 S4]) Hf. unfold check_values. replace (fRejectInsaneFee && _) with false.
  2: { symmetry. destruct fRejectInsaneFee; [|done]. apply Z.ltb_ge. auto. }
  cbn [negb]. destruct (dummy_CheckInputs false STANDARD_SCRIPT_VERIFY_FLAGS st) as [(_ & l & E)|(N & _)]; [by eexists| |].
  - by rewrite (bind_Done_eq _ _ _ _ _ _ _ E).
  - destruct N. exists prev. split; [done|]. by split.
Qed.
End Dummy.

(** * What [AcceptToMemoryPool] does *)

Section Verdict.
Context {V : Type} `{CCoinsViewReads V} (lib : secp256k1) (ps : CChainParams) (p : RelayPolicy) (decay : Z -> spec_float).
Context (e : Surroundings) (pool : CTxMemPool) (tip : CCoinsViewCache V) (l : FreeLimiter) (st : CValidationState) (tx : CTransaction).
Context (fLimitFree fRejectInsaneFee ignoreFees : bool).

Definition admits (outs : list (CCoins * CTxOut)) : Prop :=
  admissible lib ps p decay e pool tip l tx fLimitFree fRejectInsaneFee ignoreFees outs.

(** A result that is right: the transaction was taken because it is admissible, or the pool
    is as it was. *)
Definition right_verdict (r : option (Admission V)) : Prop :=
  exists a, r = Some a /\ same_cache tip (a_tip a) /\
    if accepted a then
      a_state a = st /\ exists outs, admits outs /\
        a_pool a = addUnchecked (tx_GetHash tx) (new_entry tx (total outs - value_out tx) (now e) double_zero (chain_height e)) pool
    else a_pool a = pool /\ forall outs, ~ admits outs.

Lemma refused t l' st' m : same_cache tip t -> (forall outs, ~ admits outs) ->
  right_verdict (Some {| a_pool := pool; a_tip := t; a_limiter := l'; a_state := st'; fMissingInputs := m; accepted := false |}).
Proof. intros S N. eexists. split; [reflexivity|]. by split. Qed.

(** The pool below the cache stays, and [pcoinsTip] is only read. *)
Definition tip_kept (v v' : CCoinsViewMemPool (CCoinsViewCache V)) : Prop :=
  vmp_pool v' = vmp_pool v /\ (cache_inv (vmp_base v) -> same_cache (vmp_base v) (vmp_base v')).

#[local] Instance tip_kept_steps : reading_steps tip_kept.
Proof.
  split.
  - intros v. split; [done|]. apply same_cache_refl.
  - intros a b c [P1 S1] [P2 S2]. split; [congruence|]. intros I. specialize (S1 I). specialize (S2 (proj1 S1)). by eapply same_cache_trans.
  - intros v k v' r [I P] Hk E. cbn in E. unfold mempool_GetCoins in E. destruct (lookup_tx _ _).
    + injection E as <- _. split; [done|]. apply same_cache_refl.
    + destruct (GetCoins (vmp_base v) k) as [b r0] eqn:G. injection E as <- _. split; [done|]. intros _. cbn [vmp_base].
      cbn in G. unfold cache_GetCoins in G. destruct (FetchCoins _ _) as [c1 it] eqn:F. injection G as <- _.
      by apply (FetchCoins_spec _ _ _ _ I Hk) in F as [S _].
  - intros v v' h [I P] E. cbn in E. destruct (cache_GetBestBlock (vmp_base v)) as [b h'] eqn:G. injection E as <- _.
    split; [done|]. intros _. by apply (cache_GetBestBlock_spec _ _ _ I) in G as [S _].
Qed.

Context (Hm : 0 <= MaxMoneyOut ps < 2 ^ 62) (I : cache_inv tip) (Nz : cache_best tip <> zero W256).
Context (Hb : is_Some (block_height e (cache_best tip))) (P : pool_coins_wf pool) (W : Forall wf_in (vin tx)).

Abbreviation start := (new_cache (Build_CCoinsViewMemPool tip pool)).

Lemma start_inv : cache_inv start.
Proof. apply new_cache_inv. by split. Qed.

Lemma start_best : cache_best start = cache_best tip.
Proof. unfold cache_best at 1. cbn [hashBlock new_cache base]. by rewrite bool_decide_eq_true_2. Qed.

Lemma start_content k : cache_content start k = coins_seen pool tip k.
Proof. done. Qed.

Lemma coins_seen_new k : mapTx pool !! k = None -> coins_seen pool tip k = cache_content tip k.
Proof. intros E. unfold coins_seen, lookup_tx. by rewrite E. Qed.

Lemma kept_tip c : tracks tip_kept start c -> same_cache tip (vmp_base (base c)).
Proof. intros [_ [_ T] _]. by apply T. Qed.

(** The fees do not wrap when the inputs are in range. *)
Lemma fees_exact h flags outs : tx_valid ps tx -> IsCoinStake tx = false -> spends_ok lib ps tx flags h true outs ->
  s64 (sum_values outs 0 - value_out tx) = total outs - value_out tx.
Proof.
  intros Tv NS [Se St Sc _]. rewrite (sum_values_total ps h) by (done || lia). destruct (Sc NS) as (out & Eo & Ho).
  rewrite (valid_GetValueOut ps) in Eo by (done || lia). apply Some_inj in Eo. fold (value_out tx) in Eo.
  pose proof (value_out_loop_mono _ _ _ (valid_GetValueOut ps tx ltac:(lia) Tv)). fold (value_out tx) in *.
  rewrite s64_small; lia.
Qed.

Lemma admits_fees outs : admits outs -> s64 (sum_values outs 0 - value_out tx) = total outs - value_out tx.
Proof. intros [Tv [_ NS] _ _ _ _ _ _ _ _ (prev & _ & S & _)]. by eapply fees_exact. Qed.

Lemma pool_conflict_none : pool_conflict pool tx = false <-> Forall (fun o => mapNextTx pool !! o = None) (map prevout (vin tx)).
Proof.
  unfold pool_conflict. rewrite <- Forall_false_existsb, Forall_map. apply Forall_proper; [|done]. intros i.
  rewrite bool_decide_eq_false. symmetry. apply eq_None_not_Some.
Qed.

Lemma admits_uses outs outs' : spent (coins_seen pool tip) (vin tx) = Some outs -> admits outs' -> outs' = outs.
Proof. intros Hs A. pose proof (ad_spent _ _ _ _ _ _ _ _ _ _ _ _ _ A). congruence. Qed.

(** The part after the look-up, the checks before it being passed. *)
Lemma admit_spends_verdict c outs :
  tracks tip_kept start c -> held c (vin tx) -> hashBlock c <> zero W256 -> spent (coins_seen pool tip) (vin tx) = Some outs ->
  tx_valid ps tx -> IsCoinBase tx = false -> IsCoinStake tx = false -> (RequireStandard p = true -> IsStandardTx p e tx = None) ->
  mapTx pool !! tx_GetHash tx = None -> IsPruned (cache_content tip (tx_GetHash tx)) = true -> lock_conflict e tx = false ->
  Forall (fun o => mapNextTx pool !! o = None) (map prevout (vin tx)) ->
  right_verdict (admit_spends lib ps p decay e pool (vmp_base (base c)) l tx fLimitFree fRejectInsaneFee ignoreFees
    (sum_values outs 0) (SetBackend c tt) st).
Proof.
  intros T Hh Hz Hs Tv NB NS Hstd Hnew Hpr Hl Hc. pose proof (tr_same _ _ _ T) as S. pose proof (proj1 S) as Ic.
  assert (Hs' : spent (cache_content c) (vin tx) = Some outs) by by rewrite (spent_same start c).
  assert (Bc : cache_best c = cache_best tip) by (rewrite (proj1 (proj2 S)); apply start_best).
  assert (Hb' : is_Some (block_height e (cache_best c))) by by rewrite Bc.
  assert (R : forall l' st', (forall outs', admits outs' -> outs' = outs -> False) -> right_verdict
    (Some {| a_pool := pool; a_tip := vmp_base (base c); a_limiter := l'; a_state := st'; fMissingInputs := false; accepted := false |})).
  { intros l' st' N. apply refused; [by apply kept_tip|]. intros outs' A. by apply (N outs' A), (admits_uses outs). }
  unfold admit_spends. set (fee := s64 (sum_values outs 0 - value_out tx)).
  assert (Fx : admits outs -> fee = total outs - value_out tx) by apply admits_fees.
  destruct (dummy_spends lib ps p e c tx outs Ic Hh W NB NS Hs' Tv Hm (sum_values outs 0) st) as [([O1 O2] & E1)|(N & st1 & E1)]; rewrite E1.
  2: { apply R. intros ? A ->. apply N. split; [intros Q; by apply (ad_standard _ _ _ _ _ _ _ _ _ _ _ _ _ A Q)|]. apply A. }
  fold fee. cbv zeta. change (u32 (nTxSize (new_entry tx fee (now e) double_zero (chain_height e)))) with (tx_size tx).
  assert (E2 : (ignoreFees = false -> (fLimitFree = true -> GetMinRelayFee p ps pool tx (tx_size tx) true <= fee) /\
      (relaypriority p = true -> fee < GetFee (minRelayTxFee p) (tx_size tx) -> AllowFree (priority_at (chain_height e + 1) tx outs) = true)) /\
      (if ignoreFees then mret tt else check_fees ps p e pool fLimitFree tx (tx_size tx) fee) (SetBackend c tt) st = Done (SetBackend c tt) st tt \/
    ~ admits outs /\ exists st', (if ignoreFees then mret tt else check_fees ps p e pool fLimitFree tx (tx_size tx) fee) (SetBackend c tt) st = Reject (SetBackend c tt) st').
  { destruct ignoreFees eqn:Ei; [by left|].
    destruct (dummy_fees ps p e c tx outs Ic Hh W NB NS Hs' pool fLimitFree fee st) as [(O & E2)|(N & E2)]; [by left|right].
    split; [|done]. intros A. apply N. rewrite (Fx A). by destruct (ad_fees _ _ _ _ _ _ _ _ _ _ _ _ _ A Ei). }
  destruct E2 as [[O3 ->]|[N [st2 ->]]]; [|apply R; intros ? A ->; done].
  destruct (if negb ignoreFees && _ then _ else _) as [l' pass] eqn:E3. destruct pass; cbn [negb].
  2: { apply R. intros ? A ->. destruct (negb ignoreFees && _) eqn:Q; [|done].
       apply andb_true_iff in Q as [Q1%negb_true_iff [Q2 Q3%Z.ltb_lt]%andb_true_iff].
       pose proof (fe_rate _ _ _ _ _ _ _ _ _ _ (ad_fees _ _ _ _ _ _ _ _ _ _ _ _ _ A Q1) Q2) as F.
       rewrite <- (Fx A), E3 in F. by specialize (F Q3). }
  destruct (dummy_scripts lib ps p e c tx outs Ic Hz Hh W NB Hs' Tv Hm fRejectInsaneFee fee st Hb') as [((O4 & O5 & O6) & ->)|(N & st3 & ->)].
  2: { apply R. intros ? A ->. apply N. rewrite (Fx A). destruct (ad_scripts _ _ _ _ _ _ _ _ _ _ _ _ _ A) as (prev & Hp & S1 & S2).
       split; [apply A|]. unfold inputs_ok. rewrite Bc. split; exists prev; by split. }
  destruct O5 as (prev & Hp & S1), O6 as (prev' & Hp' & S2). rewrite Bc in Hp, Hp'. replace prev' with prev in S2 by congruence.
  pose proof (fees_exact _ _ _ Tv NS S1) as Fe. fold fee in Fe. eexists. split; [reflexivity|]. split; [by apply kept_tip|].
  cbn [accepted a_state a_pool]. split; [done|]. exists outs. split; [|by rewrite Fe]. rewrite Fe in *.
  split; try done; [by auto| |by exists prev].
  intros Ei. specialize (O3 Ei) as [? ?]. split; [done..|]. intros Q L%Z.ltb_lt. rewrite Ei, Q, L in E3. cbn [negb andb] in E3. by rewrite E3.
Qed.

Ltac refuse := apply refused; [first [assumption | by apply same_cache_refl]|intros outs'; intros A].

Lemma AcceptToMemoryPool_verdict :
  right_verdict (AcceptToMemoryPool lib ps p decay e pool tip l st tx fLimitFree fRejectInsaneFee ignoreFees).
Proof.
  unfold AcceptToMemoryPool. destruct (CheckTransaction_spec ps tx st Hm) as [[E Tv]|(s & E & _ & N)]; rewrite E; cbn [negb].
  2: { refuse. by destruct N; apply A. }
  destruct (IsCoinBase tx) eqn:NB; [refuse; by destruct (ad_loose _ _ _ _ _ _ _ _ _ _ _ _ _ A); congruence|].
  destruct (IsCoinStake tx) eqn:NS; [refuse; by destruct (ad_loose _ _ _ _ _ _ _ _ _ _ _ _ _ A); congruence|].
  destruct (if RequireStandard p then IsStandardTx p e tx else None) as [reason|] eqn:ES.
  { refuse. destruct (bool_dec (RequireStandard p) true) as [Q|Q%not_true_is_false]; rewrite Q in ES; [|done].
    destruct (ad_standard _ _ _ _ _ _ _ _ _ _ _ _ _ A Q); congruence. }
  unfold exists_tx. case_bool_decide as X.
  { refuse. destruct (ad_new _ _ _ _ _ _ _ _ _ _ _ _ _ A) as [X' _]. rewrite X' in X. by destruct X. }
  destruct (lock_conflict e tx) eqn:L; [refuse; pose proof (ad_locks _ _ _ _ _ _ _ _ _ _ _ _ _ A); congruence|].
  destruct (pool_conflict pool tx) eqn:C.
  { refuse. pose proof (proj2 pool_conflict_none (ad_conflicts _ _ _ _ _ _ _ _ _ _ _ _ _ A)). congruence. }
  pose proof (collect_inputs_spec tip_kept tx start st start_inv ltac:(by rewrite start_best) NB W) as G.
  unfold collect_result in G.
  destruct (collect_inputs tx start st) as [c st1 [m|v]|c st1|]; [| | |done].
  - destruct G as (T & -> & N). pose proof (kept_tip c T). refuse. pose proof (ad_spent _ _ _ _ _ _ _ _ _ _ _ _ _ A) as Sp.
    destruct N as [N|N]; [|change (spent (coins_seen pool tip) (vin tx) = None) in N; congruence]. destruct (ad_new _ _ _ _ _ _ _ _ _ _ _ _ _ A) as [X' Pr].
    rewrite start_content, coins_seen_new in N by done. congruence.
  - destruct G as (T & -> & Pr & Hh & Hz & outs & Hs & ->). apply admit_spends_verdict; try done.
    + intros Q. by rewrite Q in ES.
    + by apply eq_None_not_Some.
    + rewrite start_content, coins_seen_new in Pr; [done|by apply eq_None_not_Some].
    + by apply pool_conflict_none.
  - destruct G as (T & _ & N). pose proof (kept_tip c T). refuse. pose proof (ad_spent _ _ _ _ _ _ _ _ _ _ _ _ _ A) as Sp.
    change (spent (coins_seen pool tip) (vin tx) = None) in N. congruence.
Qed.

(** A transaction that the pool takes with its fees checked passes [AcceptableInputs]. *)
Lemma admits_acceptable outs : ignoreFees = false -> admits outs ->
  exists t l', AcceptableInputs lib ps p decay e pool tip l st tx fLimitFree fRejectInsaneFee = Some (t, l', st, false, true) /\
    same_cache tip t.
Proof.
  intros Hi A. pose proof A as [Tv [NB NS] _ [Hnew Hpr] Hl Hc Hs Hsig Hf Hsane (prev & Hp & S1 & _)]. specialize (Hf Hi) as [F1 F2 F3].
  unfold AcceptableInputs. destruct (CheckTransaction_spec ps tx st Hm) as [[E _]|(s & _ & _ & N)]; [rewrite E; cbn [negb]|done].
  rewrite NB. unfold exists_tx. rewrite bool_decide_eq_false_2 by (rewrite Hnew; by intros [? ?]). rewrite Hl.
  rewrite (proj2 pool_conflict_none Hc). 
  pose proof (collect_inputs_spec tip_kept tx start st start_inv ltac:(by rewrite start_best) NB W) as G.
  unfold collect_result in G. change (spent (cache_content start)) with (spent (coins_seen pool tip)) in G.
  rewrite (start_content (tx_GetHash tx)), coins_seen_new, Hs in G by done.
  destruct (collect_inputs tx start st) as [c st1 [m|v]|c st1|]; [destruct G as (_ & _ & [?|?]); congruence| |by destruct G as (_ & _ & ?)|done].
  destruct G as (T & -> & _ & Hh & Hz & outs' & [= <-] & ->). pose proof (tr_same _ _ _ T) as Sc. pose proof (proj1 Sc) as Ic.
  assert (Hs' : spent (cache_content c) (vin tx) = Some outs) by by rewrite (spent_same start c).
  assert (Bc : cache_best c = cache_best tip) by (rewrite (proj1 (proj2 Sc)); apply start_best).
  unfold accept_spends. rewrite (dummy_sigops ps e c tx outs) by (done || lia). rewrite (admits_fees outs A).
  set (fee := total outs - value_out tx) in *.
  change (u32 (nTxSize (new_entry tx fee (now e) double_zero (chain_height e)))) with (tx_size tx).
  destruct (dummy_fees ps p e c tx outs Ic Hh W NB NS Hs' pool fLimitFree fee st) as [(_ & ->)|(N & _)]; [|by destruct N].
  destruct (if fLimitFree && _ then _ else _) as [l' pass] eqn:E3.
  assert (pass = true) as ->.
  { destruct (fLimitFree && _) eqn:Q; [|congruence]. apply andb_true_iff in Q as [Q1 Q2%Z.ltb_lt]. specialize (F3 Q1 Q2).
    by rewrite E3 in F3. }
  cbn [negb]. rewrite (dummy_values lib ps p e c tx outs) by (try done; try lia; unfold inputs_ok; rewrite Bc; by exists prev).
  cbn. exists (vmp_base (base c)), l'. split; [done|]. by apply kept_tip.
Qed.
End Verdict.

(** C7 A transaction is taken into the memory pool exactly when it is admissible: valid on
    its own and loose, standard where the network asks for it, unknown to the pool and to
    the chain, in no conflict with a transaction lock or another transaction of the pool,
    spending unspent outputs of the pool and the chain in the standard way, with few enough
    signature operations, with fees that are enough for its size and priority and pass the
    rate limiter, and not insane where this is asked, and with inputs that pass
    [CheckInputs] with the standard flags and with the mandatory ones.  The pool then gets
    the entry with the fee that is paid, and the validation state is untouched; otherwise
    the pool is as it was.  [pcoinsTip] is only read, the pool keeps its invariant, and the
    program does not stop.  This includes that the look-ups over the empty view give what
    the pool and the chain have. *)
Theorem AcceptToMemoryPool_iff {V} `{CCoinsViewReads V} lib ps p decay e pool (tip : CCoinsViewCache V) l st tx
    fLimitFree fRejectInsaneFee ignoreFees :
  0 <= MaxMoneyOut ps < 2 ^ 62 -> cache_inv tip -> cache_best tip <> zero W256 ->
  is_Some (block_height e (cache_best tip)) -> pool_coins_wf pool -> Forall wf_in (vin tx) ->
  exists a, AcceptToMemoryPool lib ps p decay e pool tip l st tx fLimitFree fRejectInsaneFee ignoreFees = Some a /\
    same_cache tip (a_tip a) /\ (pool_ok pool -> pool_ok (a_pool a)) /\
    if accepted a then
      a_state a = st /\ exists outs, admissible lib ps p decay e pool tip l tx fLimitFree fRejectInsaneFee ignoreFees outs /\
        a_pool a = addUnchecked (tx_GetHash tx) (new_entry tx (total outs - value_out tx) (now e) double_zero (chain_height e)) pool
    else a_pool a = pool /\
      forall outs, ~ admissible lib ps p decay e pool tip l tx fLimitFree fRejectInsaneFee ignoreFees outs.
Proof.
  intros Hm I Nz Hb P W.
  destruct (AcceptToMemoryPool_verdict lib ps p decay e pool tip l st tx fLimitFree fRejectInsaneFee ignoreFees Hm I Nz Hb P W)
    as (a & E & S & R).
  exists a. split; [done|]. split; [done|]. split; [|done]. intros Ok. destruct (accepted a).
  - destruct R as (_ & outs & A & ->). apply addUnchecked_ok; [done|]. split; [|apply (tv_distinct _ _ (ad_valid _ _ _ _ _ _ _ _ _ _ _ _ _ A))|].
    + by destruct (ad_new _ _ _ _ _ _ _ _ _ _ _ _ _ A).
    + by destruct A.
  - by destruct R as [-> _].
Qed.

(** ** Every pool of the node *)

Section PoolHistory.
Context {V : Type} `{CCoinsView V} (lib : secp256k1) (ps : CChainParams) (p : RelayPolicy) (decay : Z -> spec_float).

Lemma CheckTransaction_distinct tx st st' : CheckTransaction ps tx st = (st', true) -> NoDup (map prevout (vin tx)).
Proof.
  unfold CheckTransaction. do 3 (case_match; [done|]). destruct (check_outputs _ _ _ _ _); [done|].
  destruct (duplicate_input ∅ (vin tx)) eqn:E; [done|]. intros _. by apply duplicate_input_spec in E as [E _].
Qed.

(** Whatever the coins, the clock and the options are, [AcceptToMemoryPool] leaves the pool
    or adds a transaction that [addUnchecked] may be given. *)
Lemma AcceptToMemoryPool_adds e pool tip l st tx fLimitFree fRejectInsaneFee ignoreFees a :
  AcceptToMemoryPool lib ps p decay e pool tip l st tx fLimitFree fRejectInsaneFee ignoreFees = Some a ->
  a_pool a = pool \/
  exists nFees, may_add pool tx /\ a_pool a = addUnchecked (tx_GetHash tx) (new_entry tx nFees (now e) double_zero (chain_height e)) pool.
Proof.
  unfold AcceptToMemoryPool. destruct (CheckTransaction ps tx st) as [st1 ok] eqn:Ec. destruct ok; cbn [negb]; [|by intros [= <-]; left].
  apply CheckTransaction_distinct in Ec. destruct (IsCoinBase tx); [by intros [= <-]; left|]. destruct (IsCoinStake tx); [by intros [= <-]; left|].
  destruct (if RequireStandard p then _ else _); [by intros [= <-]; left|]. destruct (exists_tx pool (tx_GetHash tx)) eqn:Ex; [by intros [= <-]; left|].
  destruct (lock_conflict e tx); [by intros [= <-]; left|]. destruct (pool_conflict pool tx) eqn:Ep; [by intros [= <-]; left|].
  assert (may_add pool tx) as Hadd.
  { split; [|done|by apply pool_conflict_none]. unfold exists_tx in Ex. apply bool_decide_eq_false in Ex. by apply eq_None_not_Some. }
  destruct (collect_inputs _ _ _) as [view st2 [missing|nValueIn]|view st2|]; [by intros [= <-]; left| |by intros [= <-]; left|done].
  unfold admit_spends. destruct (check_spends_standard _ _ _ _ _ _ _) as [v3 st3 nFees|v3 st3|]; [|by intros [= <-]; left|done].
  match goal with |- match ?x with Done _ _ _ => _ | _ => _ end = _ -> _ => destruct x as [v4 st4 []|v4 st4|] end; [|by intros [= <-]; left|done].
  destruct (if negb ignoreFees && _ then _ else _) as [l' pass]. destruct pass; cbn [negb]; [|by intros [= <-]; left].
  match goal with |- match ?x with Done _ _ _ => _ | _ => _ end = _ -> _ => destruct x as [v5 st5 []|v5 st5|] end; [|by intros [= <-]; left|done].
  intros [= <-]. right. by exists nFees.
Qed.

(** What the node does to the pool: it offers a transaction to [AcceptToMemoryPool], with any
    coins, clock, limiter and options, or runs another operation. *)
Inductive pool_change (m : CTxMemPool) : CTxMemPool -> Prop :=
| change_accept e tip l st tx fLimitFree fRejectInsaneFee ignoreFees a :
    AcceptToMemoryPool lib ps p decay e m tip l st tx fLimitFree fRejectInsaneFee ignoreFees = Some a -> pool_change m (a_pool a)
| change_op m' : pool_op m m' -> pool_change m m'.

(** C26 In every pool that the node can reach from an empty one, by offering transactions of
    any kind to [AcceptToMemoryPool], the only caller of [addUnchecked], with whatever coins,
    and by removing them, for a block, a conflict or otherwise, the keys are the hashes of
    the transactions; the index maps exactly the outputs they spend to where they are spent,
    so that no two transactions of the pool spend the same output and the assertions of the
    sanity check over the index hold; the total is the sum of the sizes in 64 bits; and no
    removal can fail. *)
Theorem node_pool_consistent fee m : rtc pool_change (new_pool fee) m -> pool_consistent m.
Proof.
  intros R. apply pool_ok_consistent. pose proof (new_pool_ok fee) as P. induction R as [|m1 m2 m3 S _ IH]; [done|]. apply IH.
  destruct S as [e tip l st tx f1 f2 f3 a E|m' S]; [|by apply (pool_op_ok m1)].
  destruct (AcceptToMemoryPool_adds _ _ _ _ _ _ _ _ _ _ E) as [->|(nFees & A & ->)]; [done|by apply addUnchecked_ok].
Qed.
End PoolHistory.

(** [AcceptableInputs], with which the collateral of a masternode is tried, refuses nothing that the memory pool takes: with the rate limiters in the same
    state, a transaction that [AcceptToMemoryPool] takes without overriding the fees passes
    it, and it leaves the validation state and the coins alone. *)
Theorem AcceptableInputs_weaker {V} `{CCoinsViewReads V} lib ps p decay e pool (tip : CCoinsViewCache V) l st tx
    fLimitFree fRejectInsaneFee a :
  0 <= MaxMoneyOut ps < 2 ^ 62 -> cache_inv tip -> cache_best tip <> zero W256 ->
  is_Some (block_height e (cache_best tip)) -> pool_coins_wf pool -> Forall wf_in (vin tx) ->
  AcceptToMemoryPool lib ps p decay e pool tip l st tx fLimitFree fRejectInsaneFee false = Some a -> accepted a = true ->
  exists t l', AcceptableInputs lib ps p decay e pool tip l st tx fLimitFree fRejectInsaneFee = Some (t, l', st, false, true) /\
    same_cache tip t.
Proof.
  intros Hm I Nz Hb P W E Ha.
  destruct (AcceptToMemoryPool_verdict lib ps p decay e pool tip l st tx fLimitFree fRejectInsaneFee false Hm I Nz Hb P W)
    as (a' & E' & _ & R).
  rewrite E in E'. apply Some_inj in E' as <-. rewrite Ha in R. destruct R as (_ & outs & A & _).
  by apply (admits_acceptable lib ps p decay e pool tip l st tx fLimitFree fRejectInsaneFee false Hm I Nz P W outs).
Qed.

(** An output that anyone may spend, in the chain at height 50. *)
Definition free_coins : CCoins := {|
  fCoinBase := false; fCoinStake := false; c_vout := [{| nValue := 10 * COIN; scriptPubKey := [OP_1] |}]; c_nHeight := 50; c_nVersion := 1 |}.

Definition free_tip : CCoinsViewCache toy_db := coins_cache (u256 5) free_coins (u256 9).

Definition free_spend : CTransaction := {|
  tx_nVersion := 1;
  vin := [{| prevout := {| out_hash := u256 5; out_n := 0 |}; scriptSig := []; nSequence := UINT32_MAX |}];
  vout := [{| nValue := 995000000; scriptPubKey := [OP_1] |}]; nLockTime := 0 |}.

Definition relay_policy (std : bool) : RelayPolicy := {|
  RequireStandard := std; datacarrier := true; fIsBareMultisigStd := true; minRelayTxFee := 10000; relaypriority := true; limitfreerelay := 15 |}.

Definition example_surroundings : Surroundings := {|
  chain_height := 100; adjusted_time := 1543200000; now := 1543200000; block_height := fun _ => Some 100; mapLockedInputs := ∅ |}.

Definition idle_limiter : FreeLimiter := {| dFreeCount := double_zero; nLastTime := 0 |}.

Definition example_admission (std : bool) : option (Admission toy_db) :=
  AcceptToMemoryPool toy_keys mainParams (relay_policy std) (fun _ => double_zero) example_surroundings (new_pool 10000) free_tip idle_limiter
    valid_state free_spend true true false.

(** It is taken on a network that does not ask for standard transactions, and only there. *)
Example free_spend_taken : option_map accepted (example_admission false) = Some true.
Proof. vm_compute. reflexivity. Qed.
Example free_spend_refused : option_map accepted (example_admission true) = Some false.
Proof. vm_compute. reflexivity. Qed.

Lemma free_coins_wf : wf_coins free_coins.
Proof.
  split; [|vm_compute; reflexivity|vm_compute; reflexivity|vm_compute; split; congruence..].
  constructor; [|constructor]. split; [vm_compute; split; congruence|]. split; [repeat constructor; vm_compute; congruence|done].
Qed.

Lemma free_tip_inv : cache_inv free_tip.
Proof. apply coins_cache_inv; [apply wf_u256; wunfold; lia|exact free_coins_wf]. Qed.

Lemma AcceptToMemoryPool_iff_witness :
  0 <= MaxMoneyOut mainParams < 2 ^ 62 /\ cache_inv free_tip /\ cache_best free_tip <> zero W256 /\
  exists a, example_admission false = Some a /\ same_cache free_tip (a_tip a) /\ (pool_ok (new_pool 10000) -> pool_ok (a_pool a)) /\
    if accepted a then
      a_state a = valid_state /\ exists outs,
        admissible toy_keys mainParams (relay_policy false) (fun _ => double_zero) example_surroundings (new_pool 10000) free_tip idle_limiter
          free_spend true true false outs /\
        a_pool a = addUnchecked (tx_GetHash free_spend)
          (new_entry free_spend (total outs - value_out free_spend) (now example_surroundings) double_zero (chain_height example_surroundings))
          (new_pool 10000)
    else a_pool a = new_pool 10000 /\
      forall outs, ~ admissible toy_keys mainParams (relay_policy false) (fun _ => double_zero) example_surroundings (new_pool 10000)
        free_tip idle_limiter free_spend true true false outs.
Proof.
  assert (Hm : 0 <= MaxMoneyOut mainParams < 2 ^ 62) by (split; vm_compute; congruence).
  assert (Nz : cache_best free_tip <> zero W256) by (vm_compute; congruence).
  split; [exact Hm|]. split; [exact free_tip_inv|]. split; [exact Nz|].
  apply (AcceptToMemoryPool_iff toy_keys mainParams (relay_policy false) (fun _ => double_zero) example_surroundings (new_pool 10000)
           free_tip idle_limiter valid_state free_spend true true false Hm free_tip_inv Nz).
  - by eexists.
  - intros k tx E. unfold lookup_tx in E. cbn [mapTx new_pool] in E. by rewrite lookup_empty in E.
  - constructor; [|constructor]. split; [apply wf_u256|]; wunfold; cbn; lia.
Defined.

(** The pool after the transaction has been taken, and after a block with it. *)
Definition pool_with_spend : CTxMemPool := from_option a_pool (new_pool 10000) (example_admission false).
Definition pool_after_block : CTxMemPool := match removeForBlock [free_spend] pool_with_spend [] with Ok r => r.1 | Err _ => pool_with_spend end.

Lemma node_pool_consistent_witness :
  (size (mapTx pool_with_spend), size (mapTx pool_after_block)) = (1%nat, 0%nat) /\ pool_consistent pool_with_spend.
Proof.
  assert (A : rtc (pool_change (V := toy_db) toy_keys mainParams (relay_policy false) (fun _ => double_zero)) (new_pool 10000) pool_with_spend).
  { unfold pool_with_spend. destruct (example_admission false) as [a|] eqn:E; [|apply rtc_refl]. apply rtc_once. by eapply change_accept. }
  split; [vm_compute; reflexivity|].
  exact (node_pool_consistent (V := toy_db) toy_keys mainParams (relay_policy false) (fun _ => double_zero) 10000 pool_with_spend A).
Defined.

Lemma AcceptableInputs_weaker_witness :
  exists a, example_admission false = Some a /\ accepted a = true /\
  exists t l', AcceptableInputs toy_keys mainParams (relay_policy false) (fun _ => double_zero) example_surroundings (new_pool 10000)
      free_tip idle_limiter valid_state free_spend true true = Some (t, l', valid_state, false, true) /\ same_cache free_tip t.
Proof.
  pose proof free_spend_taken as T. destruct (example_admission false) as [a|] eqn:E; [|discriminate T].
  assert (Ha : accepted a = true) by (by injection T). exists a. split; [done|]. split; [done|].
  assert (Hm : 0 <= MaxMoneyOut mainParams < 2 ^ 62) by (split; vm_compute; congruence).
  assert (Nz : cache_best free_tip <> zero W256) by (vm_compute; congruence).
  assert (P : pool_coins_wf (new_pool 10000)).
  { intros k tx El. unfold lookup_tx in El. cbn [mapTx new_pool] in El. by rewrite lookup_empty in El. }
  assert (W : Forall wf_in (vin free_spend)).
  { constructor; [|constructor]. split; [apply wf_u256|]; wunfold; cbn; lia. }
  exact (AcceptableInputs_weaker toy_keys mainParams (relay_policy false) (fun _ => double_zero) example_surroundings (new_pool 10000)
           free_tip idle_limiter valid_state free_spend true true a Hm free_tip_inv Nz (ex_intro _ 100 eq_refl) P W E Ha).
Defined.

(** ** The check of pay-to-script-hash inputs ends the check of the others

    A script hash whose script is in no standard form, but has few signature operations,
    makes [AreInputsStandard] return at once: what later inputs spend is not looked at. *)

Definition p2sh_output : CTxOut := {| nValue := COIN; scriptPubKey := [OP_HASH160; 20] ++ replicate 20 0 ++ [OP_EQUAL] |}.
Definition odd_output : CTxOut := {| nValue := COIN; scriptPubKey := [OP_1] |}.
Definition spend_with_script (sig : CScript) : CTxIn :=
  {| prevout := {| out_hash := u256 5; out_n := 0 |}; scriptSig := sig; nSequence := UINT32_MAX |}.

Lemma odd_output_slips :
  all_standard toy_keys [spend_with_script [1; OP_1]; spend_with_script []] [(free_coins, p2sh_output); (free_coins, odd_output)] = true /\
  all_standard toy_keys [spend_with_script []; spend_with_script [1; OP_1]] [(free_coins, odd_output); (free_coins, p2sh_output)] = false.
Proof. by vm_compute. Qed.
