(* ===== verification/BestChain.v ===== *)
(** The choice of the best chain (main.cpp): the set of candidates ordered by work,
    [FindMostWorkChain], [PruneBlockIndexCandidates], the arrival of a block's data in
    [ReceivedBlockTransactions], and the marks for invalid blocks.

    The state is the block tree and the active chain of Chain.v with the sets main.cpp
    keeps next to them.  An address is a number, so the comparison of pointers that breaks
    ties is the comparison of numbers.  The log lines and the warnings about large forks
    are left out. *)

From stdpp Require Import gmap sorting.
From S2P Require Import Prelude Uint256 Arith256 Transaction Chain.

(** * State *)

Record ChainState := {
  tree : store;
  chainActive : chain;
  setBlockIndexCandidates : gset ptr;
  mapBlocksUnlinked : list (ptr * ptr);    (* a multimap, in the order of insertion *)
  pindexBestInvalid : option ptr;
  nBlockSequenceId : Z;
  setDirtyBlockIndex : gset ptr
}.

(** A failed assertion, a null pointer that is followed, or a loop that has not ended. *)
Inductive chain_error := AssertionFailed | NullPointer | OutOfFuel.

Definition BLOCK_FAILED_VALID : Z := 32.
Definition BLOCK_FAILED_CHILD : Z := 64.

(** ** Assignments *)

Definition set_tree (t : store) (s : ChainState) : ChainState :=
  {| tree := t; chainActive := chainActive s; setBlockIndexCandidates := setBlockIndexCandidates s;
     mapBlocksUnlinked := mapBlocksUnlinked s; pindexBestInvalid := pindexBestInvalid s;
     nBlockSequenceId := nBlockSequenceId s; setDirtyBlockIndex := setDirtyBlockIndex s |}.
Definition set_chain (c : chain) (s : ChainState) : ChainState :=
  {| tree := tree s; chainActive := c; setBlockIndexCandidates := setBlockIndexCandidates s;
     mapBlocksUnlinked := mapBlocksUnlinked s; pindexBestInvalid := pindexBestInvalid s;
     nBlockSequenceId := nBlockSequenceId s; setDirtyBlockIndex := setDirtyBlockIndex s |}.
Definition set_candidates (c : gset ptr) (s : ChainState) : ChainState :=
  {| tree := tree s; chainActive := chainActive s; setBlockIndexCandidates := c;
     mapBlocksUnlinked := mapBlocksUnlinked s; pindexBestInvalid := pindexBestInvalid s;
     nBlockSequenceId := nBlockSequenceId s; setDirtyBlockIndex := setDirtyBlockIndex s |}.
Definition set_unlinked (l : list (ptr * ptr)) (s : ChainState) : ChainState :=
  {| tree := tree s; chainActive := chainActive s; setBlockIndexCandidates := setBlockIndexCandidates s;
     mapBlocksUnlinked := l; pindexBestInvalid := pindexBestInvalid s;
     nBlockSequenceId := nBlockSequenceId s; setDirtyBlockIndex := setDirtyBlockIndex s |}.
Definition set_best_invalid (p : option ptr) (s : ChainState) : ChainState :=
  {| tree := tree s; chainActive := chainActive s; setBlockIndexCandidates := setBlockIndexCandidates s;
     mapBlocksUnlinked := mapBlocksUnlinked s; pindexBestInvalid := p;
     nBlockSequenceId := nBlockSequenceId s; setDirtyBlockIndex := setDirtyBlockIndex s |}.
Definition set_sequence (n : Z) (s : ChainState) : ChainState :=
  {| tree := tree s; chainActive := chainActive s; setBlockIndexCandidates := setBlockIndexCandidates s;
     mapBlocksUnlinked := mapBlocksUnlinked s; pindexBestInvalid := pindexBestInvalid s;
     nBlockSequenceId := n; setDirtyBlockIndex := setDirtyBlockIndex s |}.
Definition add_dirty (p : ptr) (s : ChainState) : ChainState :=
  {| tree := tree s; chainActive := chainActive s; setBlockIndexCandidates := setBlockIndexCandidates s;
     mapBlocksUnlinked := mapBlocksUnlinked s; pindexBestInvalid := pindexBestInvalid s;
     nBlockSequenceId := nBlockSequenceId s; setDirtyBlockIndex := {[p]} ∪ setDirtyBlockIndex s |}.

(** The fields of a [CBlockIndex] that change after its creation. *)
Record mutable_fields := {
  m_nFile : Z; m_nDataPos : Z; m_nUndoPos : Z; m_nTx : Z; m_nChainTx : Z; m_nStatus : Z; m_nFlags : Z;
  m_nMint : Z; m_nMoneySupply : Z; m_nSequenceId : Z
}.

Definition fields_of (b : CBlockIndex) : mutable_fields :=
  {| m_nFile := nFile b; m_nDataPos := nDataPos b; m_nUndoPos := nUndoPos b; m_nTx := nTx b; m_nChainTx := nChainTx b;
     m_nStatus := nStatus b; m_nFlags := nFlags b; m_nMint := nMint b; m_nMoneySupply := nMoneySupply b;
     m_nSequenceId := nSequenceId b |}.

Definition set_fields (m : mutable_fields) (b : CBlockIndex) : CBlockIndex := {|
  phashBlock := phashBlock b; pprev := pprev b; pnext := pnext b; pskip := pskip b; bnChainTrust := bnChainTrust b;
  nHeight := nHeight b; nFile := m_nFile m; nDataPos := m_nDataPos m; nUndoPos := m_nUndoPos m;
  nChainWork := nChainWork b; nTx := m_nTx m; nChainTx := m_nChainTx m; nStatus := m_nStatus m; nFlags := m_nFlags m;
  nStakeModifier := nStakeModifier b; nStakeModifierChecksum := nStakeModifierChecksum b;
  prevoutStake := prevoutStake b; nStakeTime := nStakeTime b; hashProofOfStake := hashProofOfStake b;
  nMint := m_nMint m; nMoneySupply := m_nMoneySupply m; nVersion := nVersion b; hashMerkleRoot := hashMerkleRoot b;
  nTime := nTime b; nBits := nBits b; nNonce := nNonce b; nSequenceId := m_nSequenceId m |}.

Definition set_status (status : Z) (b : CBlockIndex) : CBlockIndex :=
  set_fields {| m_nFile := nFile b; m_nDataPos := nDataPos b; m_nUndoPos := nUndoPos b; m_nTx := nTx b;
    m_nChainTx := nChainTx b; m_nStatus := status; m_nFlags := nFlags b; m_nMint := nMint b;
    m_nMoneySupply := nMoneySupply b; m_nSequenceId := nSequenceId b |} b.

(** An assignment through a pointer. *)
Definition assign (p : ptr) (f : CBlockIndex -> CBlockIndex) (s : ChainState) : ChainState :=
  set_tree (<[p := f (deref (tree s) p)]> (tree s)) s.

(** [pindex->nStatus |= flag]. *)
Definition mark (p : ptr) (flag : Z) : ChainState -> ChainState := assign p (fun b => set_status (Z.lor (nStatus b) flag) b).

Definition has_flag (s : ChainState) (p : ptr) (mask : Z) : bool := nonzero (Z.land (nStatus (deref (tree s) p)) mask).

Definition erase_candidate (p : ptr) (s : ChainState) : ChainState := set_candidates (setBlockIndexCandidates s ∖ {[p]}) s.
Definition insert_candidate (p : ptr) (s : ChainState) : ChainState := set_candidates ({[p]} ∪ setBlockIndexCandidates s) s.

(** * The order of the candidates *)

(** [CBlockIndexWorkComparator]. *)
Definition work_lt (st : store) (pa pb : ptr) : bool :=
  let a := deref st pa in
  let b := deref st pb in
  if gt (nChainWork a) (nChainWork b) then false
  else if lt (nChainWork a) (nChainWork b) then true
  else if nSequenceId a <? nSequenceId b then false
  else if nSequenceId b <? nSequenceId a then true
  else if (pa <? pb)%nat then false
  else if (pb <? pa)%nat then true
  else false.

Definition not_better (st : store) (pa pb : ptr) : Prop := work_lt st pb pa = false.
#[export] Instance not_better_dec st : RelDecision (not_better st) := fun a b => decide (work_lt st b a = false).

(** The set from [begin()] on. *)
Definition in_order (s : ChainState) : list ptr := merge_sort (not_better (tree s)) (elements (setBlockIndexCandidates s)).

Definition best_candidate (s : ChainState) : option ptr := last (in_order s).

(** * Operations *)

Local Open Scope result_scope.

(** The loop of [FindMostWorkChain] over the path to the active chain: [None] when all is
    well, else the block at fault and [fFailedChain]. *)
Fixpoint test_path (fuel : nat) (s : ChainState) (pindexTest : option ptr) : result chain_error (option (ptr * bool)) :=
  match pindexTest with
  | None => Ok None
  | Some p =>
      if Contains (tree s) (chainActive s) p then Ok None
      else
        match fuel with
        | O => Err OutOfFuel
        | S fuel =>
            if negb (nonzero (nChainTx (deref (tree s) p)) || (height_of (tree s) p =? 0)) then Err AssertionFailed
            else
              let fFailedChain := has_flag s p BLOCK_FAILED_MASK in
              let fMissingData := negb (has_flag s p BLOCK_HAVE_DATA) in
              if fFailedChain || fMissingData then Ok (Some (p, fFailedChain))
              else test_path fuel s (pprev_of (tree s) p)
        end
  end.

(** The loop that removes the chain from [pindexFailed] to [pindexTest]. *)
Fixpoint drop_path (fuel : nat) (fFailedChain : bool) (pindexTest pindexFailed : ptr) (s : ChainState) : result chain_error ChainState :=
  if (pindexFailed =? pindexTest)%nat then Ok s
  else
    match fuel, pprev_of (tree s) pindexFailed with
    | O, _ => Err OutOfFuel
    | _, None => Err NullPointer
    | S fuel, Some pp =>
        let s := if fFailedChain then mark pindexFailed BLOCK_FAILED_CHILD s
                 else set_unlinked (mapBlocksUnlinked s ++ [(pp, pindexFailed)]) s in
        drop_path fuel fFailedChain pindexTest pp (erase_candidate pindexFailed s)
    end.

Definition work_of (s : ChainState) (p : ptr) : uint256 := nChainWork (deref (tree s) p).

(** [pindexBestInvalid == NULL || pindexNew->nChainWork > pindexBestInvalid->nChainWork]. *)
Definition note_invalid (p : ptr) (s : ChainState) : ChainState :=
  if match pindexBestInvalid s with None => true | Some q => gt (work_of s p) (work_of s q) end
  then set_best_invalid (Some p) s else s.

Fixpoint find_most_work (fuel : nat) (s : ChainState) : result chain_error (ChainState * option ptr) :=
  match best_candidate s, fuel with
  | None, _ => Ok (s, None)
  | _, O => Err OutOfFuel
  | Some pindexNew, S fuel =>
      let depth := S (Z.to_nat (height_of (tree s) pindexNew)) in
      t <-! test_path depth s (Some pindexNew) ;;
      match t with
      | None => Ok (s, Some pindexNew)
      | Some (pindexTest, fFailedChain) =>
          let s := if fFailedChain then note_invalid pindexNew s else s in
          s <-! drop_path depth fFailedChain pindexTest pindexNew s ;;
          find_most_work fuel (erase_candidate pindexTest s)
      end
  end.

(** Every turn removes a candidate. *)
Definition FindMostWorkChain (s : ChainState) : result chain_error (ChainState * option ptr) :=
  find_most_work (size (setBlockIndexCandidates s)) s.

Fixpoint prune_loop (st : store) (tip : ptr) (l : list ptr) (cands : gset ptr) : gset ptr :=
  match l with
  | [] => cands
  | p :: l => if work_lt st p tip then prune_loop st tip l (cands ∖ {[p]}) else cands
  end.

Definition PruneBlockIndexCandidates (s : ChainState) : result chain_error ChainState :=
  match in_order s, Tip (chainActive s) with
  | [], _ => Err AssertionFailed
  | _ :: _, None => Err NullPointer
  | l, Some tip =>
      let cands := prune_loop (tree s) tip l (setBlockIndexCandidates s) in
      if bool_decide (cands = ∅) then Err AssertionFailed else Ok (set_candidates cands s)
  end.

(** [InvalidChainFound]: its log line follows the tip. *)
Definition InvalidChainFound (p : ptr) (s : ChainState) : result chain_error ChainState :=
  match Tip (chainActive s) with None => Err NullPointer | Some _ => Ok (note_invalid p s) end.

(** [InvalidBlockFound], without the message to the peer. *)
Definition InvalidBlockFound (p : ptr) (corruption : bool) (s : ChainState) : result chain_error ChainState :=
  if negb corruption then InvalidChainFound p (erase_candidate p (add_dirty p (mark p BLOCK_FAILED_VALID s)))
  else Ok s.

(** The start of [ReceivedBlockTransactions]: the block's own entry. *)
Definition received_index (block : CBlock) (pos : CDiskBlockPos) (b : CBlockIndex) : CBlockIndex :=
  set_fields {|
    m_nFile := posFile pos; m_nDataPos := posPos pos; m_nUndoPos := 0;
    m_nTx := u32 (Z.of_nat (length (vtx block))); m_nChainTx := 0;
    m_nStatus := (RaiseValidity (Z.lor (nStatus b) BLOCK_HAVE_DATA) BLOCK_VALID_TRANSACTIONS).1;
    m_nFlags := if block_IsProofOfStake block then Z.lor (nFlags b) BLOCK_PROOF_OF_STAKE else nFlags b;
    m_nMint := nMint b; m_nMoneySupply := nMoneySupply b; m_nSequenceId := nSequenceId b |} b.

(** A block whose parents all have their data: [nChainTx] and [nSequenceId]. *)
Definition linked_index (chain_tx sequence : Z) (b : CBlockIndex) : CBlockIndex :=
  set_fields {|
    m_nFile := nFile b; m_nDataPos := nDataPos b; m_nUndoPos := nUndoPos b; m_nTx := nTx b; m_nChainTx := chain_tx;
    m_nStatus := nStatus b; m_nFlags := nFlags b; m_nMint := nMint b; m_nMoneySupply := nMoneySupply b;
    m_nSequenceId := sequence |} b.

(** The loop over the blocks that can be connected now; the fuel is
    one turn for each element of [mapBlocksUnlinked] and one for the block. *)
Fixpoint link_loop (fuel : nat) (queue : list ptr) (s : ChainState) : result chain_error ChainState :=
  match queue, fuel with
  | [], _ => Ok s
  | _, O => Err OutOfFuel
  | p :: queue, S fuel =>
      let parent_tx := match pprev_of (tree s) p with Some q => nChainTx (deref (tree s) q) | None => 0 end in
      let s := assign p (fun b => linked_index (u32 (parent_tx + nTx b)) (nBlockSequenceId s) b) s in
      let s := set_sequence (u32 (nBlockSequenceId s + 1)) s in
      let s := if match Tip (chainActive s) with None => true | Some t => negb (work_lt (tree s) p t) end
               then insert_candidate p s else s in
      let children := map snd (filter (fun e => e.1 = p) (mapBlocksUnlinked s)) in
      link_loop fuel (queue ++ children) (set_unlinked (filter (fun e => e.1 <> p) (mapBlocksUnlinked s)) s)
  end.

Definition ReceivedBlockTransactions (block : CBlock) (pindexNew : ptr) (pos : CDiskBlockPos) (s : ChainState) : result chain_error ChainState :=
  let s := add_dirty pindexNew (assign pindexNew (received_index block pos) s) in
  match pprev_of (tree s) pindexNew with
  | None => link_loop (S (length (mapBlocksUnlinked s))) [pindexNew] s
  | Some q =>
      if nonzero (nChainTx (deref (tree s) q)) then link_loop (S (length (mapBlocksUnlinked s))) [pindexNew] s
      else if IsValid (nStatus (deref (tree s) q)) BLOCK_VALID_TREE
      then Ok (set_unlinked (mapBlocksUnlinked s ++ [(q, pindexNew)]) s)
      else Ok s
  end.

(** ** Taking back the verdict on a block *)

Definition clear_failed (p : ptr) : ChainState -> ChainState :=
  assign p (fun b => set_status (Z.land (nStatus b) (Z.lxor (2 ^ 32 - 1) BLOCK_FAILED_MASK)) b).

(** A block of the map that is the block or descends from it. *)
Definition reconsider_one (pindex : ptr) (nHeight : Z) (p : ptr) (s : ChainState) : result chain_error ChainState :=
  if negb (IsValid (nStatus (deref (tree s) p)) BLOCK_VALID_TRANSACTIONS)
     && bool_decide (GetAncestor (tree s) p nHeight = Some pindex) then
    let s := add_dirty p (clear_failed p s) in
    s <-! (if IsValid (nStatus (deref (tree s) p)) BLOCK_VALID_TRANSACTIONS && nonzero (nChainTx (deref (tree s) p)) then
             match Tip (chainActive s) with
             | None => Err NullPointer
             | Some t => Ok (if work_lt (tree s) t p then insert_candidate p s else s)
             end
           else Ok s) ;;
    Ok (if bool_decide (pindexBestInvalid s = Some p) then set_best_invalid None s else s)
  else Ok s.

Fixpoint reconsider_loop (pindex : ptr) (nHeight : Z) (l : list ptr) (s : ChainState) : result chain_error ChainState :=
  match l with
  | [] => Ok s
  | p :: l => s <-! reconsider_one pindex nHeight p s ;; reconsider_loop pindex nHeight l s
  end.

Fixpoint reconsider_ancestors (fuel : nat) (pindex : option ptr) (s : ChainState) : result chain_error ChainState :=
  match pindex, fuel with
  | None, _ => Ok s
  | _, O => Err OutOfFuel
  | Some p, S fuel =>
      let s := if has_flag s p BLOCK_FAILED_MASK then add_dirty p (clear_failed p s) else s in
      reconsider_ancestors fuel (pprev_of (tree s) p) s
  end.

(** The blocks of [mapBlockIndex]; its order does not matter. *)
Definition all_blocks (s : ChainState) : list ptr := (map_to_list (tree s)).*1.

Definition ReconsiderBlock (pindex : ptr) (s : ChainState) : result chain_error ChainState :=
  s <-! reconsider_loop pindex (height_of (tree s) pindex) (all_blocks s) s ;;
  reconsider_ancestors (S (Z.to_nat (height_of (tree s) pindex))) (Some pindex) s.

(** * The tree seen through changes of status

    Marks, and what connecting a block writes to its entry, leave the shape of the tree
    and the order of the blocks alone. *)

Definition shape (b : CBlockIndex) : option ptr * option ptr * Z * uint256 * Z * Z :=
  (pprev b, pskip b, nHeight b, nChainWork b, nSequenceId b, nChainTx b).

Definition same_tree (st st' : store) : Prop := forall p, shape <$> st' !! p = shape <$> st !! p.

#[export] Instance same_tree_equiv : Equivalence same_tree.
Proof. split; [by intros st p|by intros st st' H p|]. intros st1 st2 st3 H1 H2 p. by rewrite H2. Qed.

Lemma same_tree_assign s p f : is_Some (tree s !! p) -> (forall b, shape (f b) = shape b) -> same_tree (tree s) (tree (assign p f s)).
Proof.
  intros [b Hb] Hf q. unfold assign, set_tree. cbn [tree]. destruct (decide (q = p)) as [->|Hne].
  - rewrite lookup_insert_eq, Hb. unfold deref. rewrite Hb. cbn. by rewrite Hf.
  - by rewrite lookup_insert_ne.
Qed.

(** ** Places in the tree *)

Definition frame (b : CBlockIndex) : option ptr * option ptr * Z * uint256 := (pprev b, pskip b, nHeight b, nChainWork b).

Definition same_frame (st st' : store) : Prop := forall p, frame <$> st' !! p = frame <$> st !! p.

#[export] Instance same_frame_equiv : Equivalence same_frame.
Proof. split; [by intros st p|by intros st st' H p|]. intros st1 st2 st3 H1 H2 p. by rewrite H2. Qed.

Lemma same_frame_assign s p f : is_Some (tree s !! p) -> (forall b, frame (f b) = frame b) -> same_frame (tree s) (tree (assign p f s)).
Proof.
  intros [b Hb] Hf q. unfold assign, set_tree. cbn [tree]. destruct (decide (q = p)) as [->|Hne].
  - rewrite lookup_insert_eq, Hb. unfold deref. rewrite Hb. cbn. by rewrite Hf.
  - by rewrite lookup_insert_ne.
Qed.

Lemma same_tree_frame st st' : same_tree st st' -> same_frame st st'.
Proof.
  intros E p. specialize (E p). destruct (st' !! p) as [b'|], (st !! p) as [b|]; cbn in *; try done. apply Some_inj in E.
  f_equal. unfold frame. by injection E as -> -> -> -> _ _.
Qed.

Section Frame.
Context (st st' : store) (E : same_frame st st').

Lemma frame_deref p : frame (deref st' p) = frame (deref st p).
Proof. specialize (E p). unfold deref. destruct (st !! p), (st' !! p); cbn in *; try done. by apply Some_inj in E. Qed.

Lemma frame_valid p : is_Some (st' !! p) <-> is_Some (st !! p).
Proof. specialize (E p). rewrite <- !(fmap_is_Some frame). by rewrite E. Qed.

Lemma frame_pprev p : pprev_of st' p = pprev_of st p.
Proof. pose proof (frame_deref p) as H. unfold pprev_of. by injection H. Qed.

Lemma frame_height p : height_of st' p = height_of st p.
Proof. pose proof (frame_deref p) as H. unfold height_of. by injection H. Qed.

Lemma frame_work p : nChainWork (deref st' p) = nChainWork (deref st p).
Proof. pose proof (frame_deref p) as H. by injection H. Qed.

Lemma frame_anc k p : anc st' k p = anc st k p.
Proof.
  revert p. induction k as [|k IH]; intros p; cbn [anc]; [done|]. rewrite frame_pprev.
  destruct (pprev_of st p); [apply IH|done].
Qed.

Lemma frame_ancestor x p : ancestor st' x p <-> ancestor st x p.
Proof. unfold ancestor. by setoid_rewrite frame_anc. Qed.

Lemma frame_contains c p : Contains st' c p = Contains st c p.
Proof. unfold Contains. by rewrite frame_height. Qed.

Lemma frame_wf_store : wf_store st -> wf_store st'.
Proof.
  intros W p b' Hb'. pose proof (E p) as Ep. rewrite Hb' in Ep. destruct (st !! p) as [b|] eqn:Hb; [|done].
  cbn in Ep. apply Some_inj in Ep. destruct (W p b Hb) as [Hh H]. injection Ep as Epp Es Eh _.
  unfold wf_index. rewrite Epp, Es, Eh. split; [done|]. destruct (pprev b) as [q|]; [|done].
  by rewrite frame_valid, frame_height, frame_anc.
Qed.

Lemma frame_wf_chain c : wf_chain st c -> wf_chain st' c.
Proof.
  intros W i x Hi. destruct (W i x Hi) as (p & -> & Hp & Hh & Hb). exists p. by rewrite frame_valid, frame_height, frame_pprev.
Qed.
End Frame.

Section Same.
Context (st st' : store) (E : same_tree st st').

Lemma same_shape p : shape (deref st' p) = shape (deref st p).
Proof. specialize (E p). unfold deref. destruct (st !! p), (st' !! p); cbn in *; try done. by apply Some_inj in E. Qed.

Lemma same_valid p : is_Some (st' !! p) <-> is_Some (st !! p).
Proof. apply frame_valid. by apply same_tree_frame. Qed.

Lemma same_pprev p : pprev_of st' p = pprev_of st p.
Proof. apply frame_pprev. by apply same_tree_frame. Qed.

Lemma same_height p : height_of st' p = height_of st p.
Proof. apply frame_height. by apply same_tree_frame. Qed.

Lemma same_work p : nChainWork (deref st' p) = nChainWork (deref st p).
Proof. apply frame_work. by apply same_tree_frame. Qed.

Lemma same_sequence p : nSequenceId (deref st' p) = nSequenceId (deref st p).
Proof. pose proof (same_shape p) as H. by injection H. Qed.

Lemma same_chain_tx p : nChainTx (deref st' p) = nChainTx (deref st p).
Proof. pose proof (same_shape p) as H. by injection H. Qed.

Lemma same_anc k p : anc st' k p = anc st k p.
Proof. apply frame_anc. by apply same_tree_frame. Qed.

Lemma same_ancestor x p : ancestor st' x p <-> ancestor st x p.
Proof. apply frame_ancestor. by apply same_tree_frame. Qed.

Lemma same_contains c p : Contains st' c p = Contains st c p.
Proof. apply frame_contains. by apply same_tree_frame. Qed.

Lemma same_work_lt a b : work_lt st' a b = work_lt st a b.
Proof. unfold work_lt. by rewrite !same_work, !same_sequence. Qed.

Lemma same_wf_store : wf_store st -> wf_store st'.
Proof. apply frame_wf_store. by apply same_tree_frame. Qed.

Lemma same_wf_chain c : wf_chain st c -> wf_chain st' c.
Proof. apply frame_wf_chain. by apply same_tree_frame. Qed.
End Same.

(** ** What holds of every tree the node builds *)

Record tree_ok (st : store) : Prop := {
  t_wf : wf_store st;
  t_work_wf p : wf256 (nChainWork (deref st p));
  t_work p q : is_Some (st !! p) -> pprev_of st p = Some q -> val (nChainWork (deref st q)) < val (nChainWork (deref st p));
  t_linked p q : is_Some (st !! p) -> pprev_of st p = Some q -> nChainTx (deref st p) <> 0 ->
    nChainTx (deref st q) <> 0 \/ height_of st q = 0
}.

Lemma tree_ok_same st st' : same_tree st st' -> tree_ok st -> tree_ok st'.
Proof.
  intros E [W1 W2 W3 W4]. split.
  - by apply (same_wf_store st).
  - intros p. by rewrite (same_work st st' E).
  - intros p q. rewrite (same_valid st st' E), (same_pprev st st' E), !(same_work st st' E). apply W3.
  - intros p q. rewrite (same_valid st st' E), (same_pprev st st' E), !(same_chain_tx st st' E), (same_height st st' E). apply W4.
Qed.

(** A block that is not known to be bad, and whose data are here. *)
Definition good (st : store) (p : ptr) : Prop :=
  nonzero (Z.land (nStatus (deref st p)) BLOCK_FAILED_MASK) = false /\ nonzero (Z.land (nStatus (deref st p)) BLOCK_HAVE_DATA) = true.

Definition valid_branch (st : store) (p : ptr) : Prop := forall x, ancestor st x p -> good st x.

Lemma valid_branch_ancestor st x p : ancestor st x p -> valid_branch st p -> valid_branch st x.
Proof. intros [i Hi] V y [j Hj]. apply V. exists (i + j)%nat. by rewrite (anc_app _ _ _ _ _ Hi). Qed.

(** The ancestors of an active block are active. *)
Lemma active_ancestor st c x p : wf_store st -> wf_chain st c -> is_Some (st !! p) -> ancestor st x p ->
  Contains st c p = true -> Contains st c x = true.
Proof.
  intros W C Hp [k Hk] H. apply (Contains_lookup st W) in H; [|done].
  destruct (anc_height st W k p x Hp Hk) as [Hx Eh]. pose proof (height_nonneg st W x Hx).
  apply (Contains_lookup st W); [done|].
  pose proof (chain_below st W c _ p k C H ltac:(lia)) as B. rewrite Hk in B. rewrite <- B. f_equal. lia.
Qed.

(** ** The order *)

Section Order.
Context (st : store) (T : forall p, wf256 (nChainWork (deref st p))).

Lemma work_lt_iff a b : work_lt st a b = true <->
  val (nChainWork (deref st a)) < val (nChainWork (deref st b)) \/
  (val (nChainWork (deref st a)) = val (nChainWork (deref st b)) /\
   (nSequenceId (deref st b) < nSequenceId (deref st a) \/ (nSequenceId (deref st a) = nSequenceId (deref st b) /\ (b < a)%nat))).
Proof.
  unfold work_lt. rewrite (gt_spec W256), (lt_spec W256) by apply T.
  repeat case_match; rewrite ?Z.ltb_lt, ?Z.ltb_ge, ?Nat.ltb_lt, ?Nat.ltb_ge in *; split; intros; try done; lia.
Qed.

Lemma work_lt_irrefl a : work_lt st a a = false.
Proof. apply not_true_iff_false. rewrite work_lt_iff. lia. Qed.

Lemma work_lt_trans a b c : work_lt st a b = true -> work_lt st b c = true -> work_lt st a c = true.
Proof. rewrite !work_lt_iff. lia. Qed.

(** Different blocks are ordered one way or the other. *)
Lemma work_lt_total a b : work_lt st a b = false -> work_lt st b a = false -> a = b.
Proof. rewrite <- !not_true_iff_false, !work_lt_iff. lia. Qed.

Lemma work_lt_asym a b : work_lt st a b = true -> work_lt st b a = false.
Proof. rewrite <- not_true_iff_false, !work_lt_iff. lia. Qed.

#[local] Instance not_better_trans : Transitive (not_better st).
Proof. intros a b c. unfold not_better. rewrite <- !not_true_iff_false, !work_lt_iff. lia. Qed.

#[local] Instance not_better_total : Total (not_better st).
Proof. intros a b. unfold not_better. destruct (work_lt st b a) eqn:E; [right; by apply work_lt_asym|by left]. Qed.

Lemma sorted_last (l : list ptr) m : StronglySorted (not_better st) l -> last l = Some m -> forall p, p ∈ l -> work_lt st m p = false.
Proof.
  induction 1 as [|x l Hs IH Hx]; [done|]. intros Hl p Hp. destruct l as [|y l].
  - apply Some_inj in Hl. subst. apply list_elem_of_singleton in Hp as ->. apply work_lt_irrefl.
  - change (last (y :: l) = Some m) in Hl. apply elem_of_cons in Hp as [->|Hp]; [|by apply IH].
    rewrite Forall_forall in Hx. apply Hx. by apply last_Some_elem_of.
Qed.

(** The loop that prunes stops at the first block that is good enough; so it takes out
    exactly the worse ones. *)
Lemma prune_loop_spec tip l : StronglySorted (not_better st) l -> forall cands p,
  p ∈ prune_loop st tip l cands <-> p ∈ cands /\ ~ (p ∈ l /\ work_lt st p tip = true).
Proof.
  induction 1 as [|x l Hs IH Hx]; intros cands p; cbn [prune_loop].
  { split; [intros Hp; split; [done|]; by intros [?%elem_of_nil _]|by intros []]. }
  destruct (work_lt st x tip) eqn:Ex.
  - rewrite IH, elem_of_difference, elem_of_singleton, elem_of_cons. split.
    + intros [[Hp Hne] Hn]. split; [done|]. intros [[->|Hl] Hw]; [done|]. by apply Hn.
    + intros [Hp Hn]. split; [split; [done|]|]; [intros ->; apply Hn; split; [by left|done]|]. intros [Hl Hw]. apply Hn. split; [by right|done].
  - split; [|by intros []]. intros Hp. split; [done|]. intros [[->|Hl]%elem_of_cons Hw]; [congruence|].
    rewrite Forall_forall in Hx. specialize (Hx p Hl). unfold not_better in Hx.
    revert Hx Hw Ex. rewrite <- !not_true_iff_false, !work_lt_iff. lia.
Qed.
End Order.

Lemma in_order_elem s p : p ∈ in_order s <-> p ∈ setBlockIndexCandidates s.
Proof. unfold in_order. by rewrite (merge_sort_Permutation (not_better (tree s))), elem_of_elements. Qed.

Lemma in_order_sorted s : tree_ok (tree s) -> StronglySorted (not_better (tree s)) (in_order s).
Proof.
  intros T. unfold in_order. apply StronglySorted_merge_sort; [apply not_better_trans|apply not_better_total]; apply T.
Qed.

Lemma best_candidate_some s p : tree_ok (tree s) -> best_candidate s = Some p ->
  p ∈ setBlockIndexCandidates s /\ forall q, q ∈ setBlockIndexCandidates s -> work_lt (tree s) p q = false.
Proof.
  intros T E. unfold best_candidate in E. split; [apply in_order_elem; by apply last_Some_elem_of|].
  intros q Hq. apply (sorted_last (tree s) (t_work_wf _ T) (in_order s)); [by apply in_order_sorted|done|by apply in_order_elem].
Qed.

Lemma best_candidate_none s : best_candidate s = None -> setBlockIndexCandidates s = ∅.
Proof.
  intros E. apply set_eq. intros p. rewrite <- in_order_elem. unfold best_candidate in E. apply last_None in E. rewrite E.
  split; [by intros ?%elem_of_nil|by intros ?%elem_of_empty].
Qed.

Lemma Prune_spec s tip p : tree_ok (tree s) -> Tip (chainActive s) = Some tip ->
  p ∈ setBlockIndexCandidates s -> work_lt (tree s) p tip = false ->
  exists cands, PruneBlockIndexCandidates s = Ok (set_candidates cands s) /\
    forall q, q ∈ cands <-> q ∈ setBlockIndexCandidates s /\ work_lt (tree s) q tip = false.
Proof.
  intros T Ht Hp Hw. unfold PruneBlockIndexCandidates. rewrite Ht.
  pose proof (proj2 (in_order_elem s p) Hp) as Hin.
  assert (S : forall q, q ∈ prune_loop (tree s) tip (in_order s) (setBlockIndexCandidates s) <->
    q ∈ setBlockIndexCandidates s /\ work_lt (tree s) q tip = false).
  { intros q. rewrite (prune_loop_spec _ (t_work_wf _ T)) by (by apply in_order_sorted). rewrite in_order_elem, <- not_true_iff_false.
    split; intros [Hq Hn]; (split; [done|]); [intros Hq'; by apply Hn|by intros [_ Hq']]. }
  destruct (in_order s) as [|x l]; [by apply elem_of_nil in Hin|].
  eexists. split; [|exact S]. case_bool_decide as He; [|done]. exfalso.
  apply (not_elem_of_empty (C := gset ptr) p). rewrite <- He. by apply S.
Qed.

(** ** The tip *)

Lemma tip_contained st c t : wf_store st -> wf_chain st c -> Tip c = Some t -> is_Some (st !! t) /\ Contains st c t = true /\
  height_of st t = Z.of_nat (length c) - 1.
Proof.
  intros W C T. unfold Tip in T. destruct (Nat.ltb_spec (length c) 1); [done|].
  destruct (c !! (length c - 1)%nat) as [x|] eqn:E; [|done]. cbn in T. subst x.
  destruct (C _ _ E) as (p & Ep & Hp & Hh & _). apply Some_inj in Ep. subst p. split; [done|].
  split; [|lia]. apply (Contains_lookup st W); [done|]. by rewrite Hh, Nat2Z.id.
Qed.

Lemma chain_tip st c : wf_chain st c -> c <> [] -> exists t, Tip c = Some t.
Proof.
  intros C N. unfold Tip. destruct c as [|x c]; [done|]. cbn [length]. destruct (Nat.ltb_spec (S (length c)) 1); [lia|].
  destruct ((x :: c) !! (S (length c) - 1)%nat) as [y|] eqn:E.
  - destruct (C _ _ E) as (p & -> & _). by exists p.
  - apply lookup_ge_None_1 in E. cbn [length] in E. lia.
Qed.

(** * The search *)

(** The state during a call: the chain is a chain of good blocks, every block has an
    ancestor on it, and the candidates have all their parents' transactions. *)
Record state_ok (s : ChainState) : Prop := {
  so_tree : tree_ok (tree s);
  so_chain : wf_chain (tree s) (chainActive s);
  so_tip : chainActive s <> [];
  so_active x : is_Some (tree s !! x) -> Contains (tree s) (chainActive s) x = true -> good (tree s) x;
  so_rooted p : is_Some (tree s !! p) -> exists g, common_block (tree s) (chainActive s) p g;
  so_cand p : p ∈ setBlockIndexCandidates s -> is_Some (tree s !! p) /\ (nChainTx (deref (tree s) p) <> 0 \/ height_of (tree s) p = 0)
}.

(** What the search may change. *)
Record search_step (s s' : ChainState) : Prop := {
  ss_same : same_tree (tree s) (tree s');
  ss_chain : chainActive s' = chainActive s;
  ss_status x : nStatus (deref (tree s') x) = nStatus (deref (tree s) x) \/
    (nStatus (deref (tree s') x) = Z.lor (nStatus (deref (tree s) x)) BLOCK_FAILED_CHILD /\ ~ valid_branch (tree s) x);
  ss_cands p : p ∈ setBlockIndexCandidates s' -> p ∈ setBlockIndexCandidates s;
  ss_removed p : p ∈ setBlockIndexCandidates s -> p ∉ setBlockIndexCandidates s' -> ~ valid_branch (tree s) p
}.

Lemma failed_child_not_good z : nonzero (Z.land (Z.lor z BLOCK_FAILED_CHILD) BLOCK_FAILED_MASK) = true.
Proof.
  unfold nonzero. apply negb_true_iff, Z.eqb_neq. intros H. apply (f_equal (fun x => Z.testbit x 6)) in H.
  rewrite Z.land_spec, Z.lor_spec, Z.bits_0 in H. unfold BLOCK_FAILED_CHILD, BLOCK_FAILED_MASK in H.
  change (Z.testbit 64 6) with true in H. change (Z.testbit (Z.lor 32 64) 6) with true in H. by rewrite orb_true_r in H.
Qed.

(** A failed block stays one: the marks are never taken back here. *)
Lemma search_valid s s' p : search_step s s' -> valid_branch (tree s') p <-> valid_branch (tree s) p.
Proof.
  intros S. assert (G : forall x, good (tree s') x -> good (tree s) x).
  { intros x [H1 H2]. unfold good. destruct (ss_status _ _ S x) as [E|[E _]]; rewrite E in H1, H2; [done|].
    by rewrite failed_child_not_good in H1. }
  split; intros V x Hx; [apply G, V; by apply (same_ancestor _ _ (ss_same _ _ S))|].
  apply (same_ancestor _ _ (ss_same _ _ S)) in Hx. destruct (ss_status _ _ S x) as [E|[_ Hn]].
  - unfold good. rewrite E. by apply V.
  - exfalso. apply Hn. by apply (valid_branch_ancestor _ x p).
Qed.

Lemma search_refl s : search_step s s.
Proof. split; [done|done|by left|done|done]. Qed.

Lemma search_trans s1 s2 s3 : search_step s1 s2 -> search_step s2 s3 -> search_step s1 s3.
Proof.
  intros S1 S2. split.
  - transitivity (tree s2); [apply S1|apply S2].
  - rewrite (ss_chain _ _ S2). apply S1.
  - intros x. destruct (ss_status _ _ S2 x) as [->|[-> Hn]]; [apply S1|]. rewrite (search_valid _ _ x S1) in Hn.
    right. split; [|done]. destruct (ss_status _ _ S1 x) as [->|[-> _]]; [done|]. by rewrite <- Z.lor_assoc.
  - intros p Hp. by apply S1, S2.
  - intros p Hp Hn. destruct (decide (p ∈ setBlockIndexCandidates s2)) as [H2|H2].
    + rewrite <- (search_valid _ _ p S1). by apply (ss_removed _ _ S2).
    + by apply (ss_removed _ _ S1).
Qed.

Lemma search_ok s s' : search_step s s' -> state_ok s -> state_ok s'.
Proof.
  intros S [O1 O2 O3 O4 O5 O6]. pose proof (ss_same _ _ S) as E. pose proof (ss_chain _ _ S) as C. split; rewrite ?C.
  - by apply (tree_ok_same (tree s)).
  - by apply (same_wf_chain (tree s)).
  - done.
  - intros x Hx Hc. rewrite (same_valid _ _ E) in Hx. rewrite (same_contains _ _ E) in Hc.
    destruct (ss_status _ _ S x) as [Es|[_ Hn]]; [unfold good; rewrite Es; by apply O4|]. exfalso. apply Hn.
    intros y Hy. destruct (ancestor_height _ (t_wf _ O1) y x Hx Hy) as [Hy' _]. apply O4; [done|].
    by apply (active_ancestor (tree s) (chainActive s) y x); [apply O1|..].
  - intros p. rewrite (same_valid _ _ E). intros Hp. destruct (O5 p Hp) as [g Hg]. exists g.
    destruct Hg as [Ha Hc]. split; [exact (proj2 (same_ancestor _ _ E g p) Ha)|by rewrite (same_contains _ _ E)].
  - intros p Hp. apply S, O6 in Hp. by rewrite (same_valid _ _ E), (same_chain_tx _ _ E), (same_height _ _ E).
Qed.

(** ** The walk down to the active chain *)

Lemma test_path_spec s fuel : state_ok s -> forall p, is_Some (tree s !! p) -> (Z.to_nat (height_of (tree s) p) < fuel)%nat ->
  (nChainTx (deref (tree s) p) <> 0 \/ height_of (tree s) p = 0) ->
  exists r, test_path fuel s (Some p) = Ok r /\
    match r with
    | None => valid_branch (tree s) p
    | Some (t, failed) => exists k, anc (tree s) k p = Some t /\ ~ good (tree s) t /\ failed = has_flag s t BLOCK_FAILED_MASK
    end.
Proof.
  intros O. pose proof (t_wf _ (so_tree _ O)) as W. induction fuel as [|fuel IH]; intros p Hp Hf Hl; [lia|]. cbn [test_path].
  destruct (Contains (tree s) (chainActive s) p) eqn:Hc.
  { exists None. split; [done|]. intros x Hx. destruct (ancestor_height _ W x p Hp Hx) as [Hx' _]. apply (so_active _ O); [done|].
    by apply (active_ancestor (tree s) (chainActive s) x p); [|apply (so_chain _ O)|..]. }
  assert (Ha : nonzero (nChainTx (deref (tree s) p)) || (height_of (tree s) p =? 0) = true).
  { unfold nonzero. destruct Hl as [Hl|Hl]; [by rewrite (proj2 (Z.eqb_neq _ _) Hl)|]. rewrite Hl. apply orb_true_r. }
  rewrite Ha. cbn [negb]. unfold has_flag at 1 2.
  destruct (nonzero (Z.land _ BLOCK_FAILED_MASK)) eqn:F; cbn [orb].
  { eexists. split; [done|]. exists 0%nat. split; [done|]. split; [|by unfold has_flag; rewrite F]. intros [G _]. congruence. }
  destruct (nonzero (Z.land _ BLOCK_HAVE_DATA)) eqn:D; cbn [negb].
  2:{ eexists. split; [done|]. exists 0%nat. split; [done|]. split; [|by unfold has_flag; rewrite F]. intros [_ G]. congruence. }
  destruct (pprev_of (tree s) p) as [q|] eqn:Eq.
  - pose proof (height_nonneg _ W p Hp). assert (0 < height_of (tree s) p).
    { destruct (decide (height_of (tree s) p = 0)) as [E0|]; [|lia]. by rewrite (parent_none _ W p Hp E0) in Eq. }
    destruct (parent_valid _ W p Hp ltac:(lia)) as (q' & Eq' & Hq & Ehq). rewrite Eq in Eq'. apply Some_inj in Eq'. subst q'.
    destruct (IH q Hq ltac:(lia)) as (r & -> & R).
    { destruct Hl as [Hl|Hl]; [by apply (t_linked _ (so_tree _ O) p)|lia]. }
    exists r. split; [done|]. destruct r as [[t failed]|].
    + destruct R as (k & Ek & R). exists (S k). cbn [anc]. by rewrite Eq.
    + intros x [k Hk]. destruct k as [|k]; cbn [anc] in Hk; [apply Some_inj in Hk; subst x; by split|].
      rewrite Eq in Hk. apply R. by exists k.
  - destruct fuel; exists None; (split; [done|]); intros x [[|k] Hk]; cbn [anc] in Hk; try (apply Some_inj in Hk; subst x; by split); by rewrite Eq in Hk.
Qed.

Lemma deref_assign s p f x : deref (tree (assign p f s)) x = if decide (x = p) then f (deref (tree s) p) else deref (tree s) x.
Proof.
  unfold assign, set_tree. cbn [tree]. unfold deref at 1. case_decide as E; [subst; by rewrite lookup_insert_eq|by rewrite lookup_insert_ne].
Qed.

Lemma same_mark s p flag : is_Some (tree s !! p) -> same_tree (tree s) (tree (mark p flag s)).
Proof. intros Hp. by apply same_tree_assign. Qed.

Lemma mark_status s p flag x : nStatus (deref (tree (mark p flag s)) x) =
  if decide (x = p) then Z.lor (nStatus (deref (tree s) p)) flag else nStatus (deref (tree s) x).
Proof.
  unfold mark, assign, set_tree. cbn [tree]. unfold deref at 1. case_decide as E.
  - subst. by rewrite lookup_insert_eq.
  - by rewrite lookup_insert_ne by done.
Qed.

(** A block of a branch that is no good is marked, if the fault is a failure, and loses
    its place among the candidates. *)
Lemma drop_one_step s p pp (failed : bool) : is_Some (tree s !! p) -> ~ valid_branch (tree s) p ->
  search_step s (erase_candidate p (if failed then mark p BLOCK_FAILED_CHILD s
                                    else set_unlinked (mapBlocksUnlinked s ++ [(pp, p)]) s)).
Proof.
  intros Hp Hn. assert (C : forall q (X : gset ptr), q ∈ X -> q ∉ X ∖ {[p]} -> q = p).
  { intros q X Hq Hq'. destruct (decide (q = p)); [done|]. exfalso. apply Hq'. by apply elem_of_difference; rewrite elem_of_singleton. }
  split; destruct failed; unfold erase_candidate, set_candidates; cbn [tree chainActive setBlockIndexCandidates]; try done.
  - by apply same_mark.
  - intros x. rewrite mark_status. case_decide as E; [|by left]. subst x. by right.
  - by left.
  - by intros q [Hq _]%elem_of_difference.
  - by intros q [Hq _]%elem_of_difference.
  - intros q Hq Hq'. by rewrite (C q _ Hq Hq').
  - intros q Hq Hq'. by rewrite (C q _ Hq Hq').
Qed.

Lemma drop_path_spec t failed fuel : forall s p k, state_ok s -> is_Some (tree s !! p) -> anc (tree s) k p = Some t -> (k <= fuel)%nat ->
  ~ good (tree s) t ->
  exists s', drop_path fuel failed t p s = Ok s' /\ search_step s s' /\
    (t <> p -> p ∉ setBlockIndexCandidates s').
Proof.
  induction fuel as [|fuel IH]; intros s p k O Hp Hk Hf Hg; cbn [drop_path].
  { replace k with 0%nat in Hk by lia. cbn [anc] in Hk. apply Some_inj in Hk. subst. rewrite Nat.eqb_refl.
    exists s. split; [done|]. split; [apply search_refl|done]. }
  destruct (Nat.eqb_spec p t) as [->|Hne].
  { exists s. split; [done|]. split; [apply search_refl|done]. }
  destruct k as [|k]; cbn [anc] in Hk; [apply Some_inj in Hk; congruence|].
  destruct (pprev_of (tree s) p) as [q|] eqn:Eq; [|done]. change (anc (tree s) k q = Some t) in Hk.
  assert (Hn : ~ valid_branch (tree s) p).
  { intros V. apply Hg, V. exists (S k). cbn [anc]. by rewrite Eq. }
  pose proof (drop_one_step s p q failed Hp Hn) as S1. set (s1 := erase_candidate p _) in S1 |- *.
  pose proof (search_ok _ _ S1 O) as O1. pose proof (ss_same _ _ S1) as E1.
  destruct (IH s1 q k O1) as (s' & E & S2 & _); [|by rewrite (same_anc _ _ E1)|lia| |].
  - apply (same_valid _ _ E1). destruct (anc_height _ (t_wf _ (so_tree _ O)) 1 p q Hp) as [Hq _]; [cbn [anc]; by rewrite Eq|done].
  - intros [G1 G2]. apply Hg. unfold good. destruct (ss_status _ _ S1 t) as [Es|[Es _]]; rewrite Es in G1, G2; [done|].
    by rewrite failed_child_not_good in G1.
  - exists s'. split; [done|]. split; [by apply (search_trans _ s1)|]. intros _ Hp'. apply (ss_cands _ _ S2) in Hp'.
    unfold s1, erase_candidate, set_candidates in Hp'. cbn in Hp'. apply elem_of_difference in Hp' as [_ Hp'].
    apply Hp'. by apply elem_of_singleton.
Qed.

Lemma search_note p s : search_step s (note_invalid p s).
Proof. unfold note_invalid. case_match; [|apply search_refl]. split; cbn; [done|done|by left|done|done]. Qed.

Lemma search_erase t s : ~ valid_branch (tree s) t -> search_step s (erase_candidate t s).
Proof.
  intros Hn. split; unfold erase_candidate, set_candidates; cbn [tree chainActive setBlockIndexCandidates]; [done|done|by left| |].
  - by intros p [Hp _]%elem_of_difference.
  - intros p Hp Hp'. destruct (decide (p = t)) as [->|]; [done|]. exfalso. apply Hp'. by apply elem_of_difference; rewrite elem_of_singleton.
Qed.

Lemma fewer_candidates (X Y : gset ptr) p : (forall q, q ∈ X -> q ∈ Y) -> p ∈ Y -> p ∉ X -> (size X < size Y)%nat.
Proof. intros H1 H2 H3. apply subset_size. split; [by intros q; apply H1|]. intros H4. by apply H3, H4. Qed.

(** What the search has found. *)
Definition found (s : ChainState) (r : option ptr) : Prop :=
  match r with
  | None => setBlockIndexCandidates s = ∅
  | Some p => p ∈ setBlockIndexCandidates s /\ valid_branch (tree s) p /\
      forall q, q ∈ setBlockIndexCandidates s -> work_lt (tree s) p q = false
  end.

Lemma find_most_work_spec fuel : forall s, state_ok s -> (size (setBlockIndexCandidates s) <= fuel)%nat ->
  exists s' r, find_most_work fuel s = Ok (s', r) /\ search_step s s' /\ found s' r.
Proof.
  induction fuel as [|fuel IH]; intros s O Hf; cbn [find_most_work].
  { destruct (best_candidate s) as [p|] eqn:B.
    - apply (best_candidate_some s p (so_tree _ O)) in B as [B _].
      destruct (size_non_empty_iff (setBlockIndexCandidates s)) as [_ H]. exfalso. apply H; [|lia]. set_solver.
    - apply best_candidate_none in B. exists s, None. split; [done|]. split; [apply search_refl|done]. }
  destruct (best_candidate s) as [p|] eqn:B.
  2:{ apply best_candidate_none in B. exists s, None. split; [done|]. split; [apply search_refl|done]. }
  apply (best_candidate_some s p (so_tree _ O)) in B as [Hp Hbest]. destruct (so_cand _ O p Hp) as [Hv Hl].
  destruct (test_path_spec s (S (Z.to_nat (height_of (tree s) p))) O p Hv ltac:(lia) Hl) as (r & -> & R). cbn [rbind].
  destruct r as [[t failed]|]; [|exists s, (Some p); split; [done|]; split; [apply search_refl|done]].
  destruct R as (k & Ek & Hg & ->). destruct (anc_height _ (t_wf _ (so_tree _ O)) k p t Hv Ek) as [Ht Eh].
  pose proof (height_nonneg _ (t_wf _ (so_tree _ O)) t Ht).
  set (s1 := if has_flag s t BLOCK_FAILED_MASK then note_invalid p s else s).
  assert (S1 : search_step s s1) by (unfold s1; case_match; [apply search_note|apply search_refl]).
  assert (T1 : tree s1 = tree s) by (unfold s1, note_invalid; by repeat case_match).
  assert (C1 : setBlockIndexCandidates s1 = setBlockIndexCandidates s) by (unfold s1, note_invalid; by repeat case_match).
  pose proof (search_ok _ _ S1 O) as O1.
  destruct (drop_path_spec t (has_flag s t BLOCK_FAILED_MASK) (S (Z.to_nat (height_of (tree s) p))) s1 p k O1) as (s2 & -> & S2 & D2);
    rewrite ?T1; [done|done|lia|done|]. cbn [rbind].
  assert (Hn : ~ valid_branch (tree s) t) by (intros V; apply Hg, V, ancestor_refl).
  assert (S3 : search_step s2 (erase_candidate t s2)).
  { apply search_erase. rewrite (search_valid _ _ t S2), T1. done. }
  pose proof (search_trans _ _ _ S1 (search_trans _ _ _ S2 S3)) as S13.
  destruct (IH (erase_candidate t s2)) as (s' & r & E & S4 & F).
  - by apply (search_ok s).
  - enough (size (setBlockIndexCandidates (erase_candidate t s2)) < size (setBlockIndexCandidates s))%nat by lia.
    apply (fewer_candidates _ _ p); [apply S13|done|]. unfold erase_candidate, set_candidates. cbn [setBlockIndexCandidates].
    intros [H1 H2]%elem_of_difference. rewrite elem_of_singleton in H2. by apply D2.
  - exists s', r. split; [done|]. split; [by apply (search_trans _ _ _ S13)|done].
Qed.

(** C10 [FindMostWorkChain] always returns.  A block it returns is a candidate, and neither
    it nor an ancestor of it is known to be invalid or lacks its data; no candidate of
    which that holds has more work.  It returns nothing only when there is no such
    candidate.  On the way it drops only candidates of branches that are invalid or
    incomplete, and changes the status only of blocks of such branches. *)
Theorem FindMostWorkChain_best s : state_ok s ->
  exists s' r, FindMostWorkChain s = Ok (s', r) /\ state_ok s' /\
    match r with
    | None => setBlockIndexCandidates s' = ∅
    | Some b => b ∈ setBlockIndexCandidates s /\ b ∈ setBlockIndexCandidates s' /\ valid_branch (tree s) b
    end /\
    (forall p, p ∈ setBlockIndexCandidates s -> valid_branch (tree s) p -> exists b, r = Some b /\ work_lt (tree s) b p = false) /\
    (forall p, p ∈ setBlockIndexCandidates s -> p ∉ setBlockIndexCandidates s' -> ~ valid_branch (tree s) p) /\
    (forall p, valid_branch (tree s) p -> nStatus (deref (tree s') p) = nStatus (deref (tree s) p)).
Proof.
  intros O. destruct (find_most_work_spec _ s O (Nat.le_refl _)) as (s' & r & E & S & F).
  exists s', r. split; [exact E|]. split; [by apply (search_ok s)|]. split; [|split; [|split]].
  - destruct r as [b|]; [|done]. destruct F as (Hb & Hv & _). split; [by apply S|]. split; [done|]. by apply (search_valid _ _ b S).
  - intros p Hp Hv. assert (Hp' : p ∈ setBlockIndexCandidates s').
    { destruct (decide (p ∈ setBlockIndexCandidates s')); [done|]. by destruct (ss_removed _ _ S p). }
    destruct r as [b|]; [|cbn in F; rewrite F in Hp'; by apply elem_of_empty in Hp'].
    exists b. split; [done|]. rewrite <- (same_work_lt _ _ (ss_same _ _ S)). by apply F.
  - apply S.
  - intros p Hv. by destruct (ss_status _ _ S p) as [|[_ Hn]].
Qed.

(** * An example

    The tree of Chain.v: [5] and [7] are the tips of two branches from [3], the first one
    active. *)

Definition set_work (work : uint256) (b : CBlockIndex) : CBlockIndex := {|
  phashBlock := phashBlock b; pprev := pprev b; pnext := pnext b; pskip := pskip b; bnChainTrust := bnChainTrust b;
  nHeight := nHeight b; nFile := nFile b; nDataPos := nDataPos b; nUndoPos := nUndoPos b;
  nChainWork := work; nTx := nTx b; nChainTx := nChainTx b; nStatus := nStatus b; nFlags := nFlags b;
  nStakeModifier := nStakeModifier b; nStakeModifierChecksum := nStakeModifierChecksum b;
  prevoutStake := prevoutStake b; nStakeTime := nStakeTime b; hashProofOfStake := hashProofOfStake b;
  nMint := nMint b; nMoneySupply := nMoneySupply b; nVersion := nVersion b; hashMerkleRoot := hashMerkleRoot b;
  nTime := nTime b; nBits := nBits b; nNonce := nNonce b; nSequenceId := nSequenceId b |}.

Definition received (b : CBlockIndex) : CBlockIndex :=
  set_fields {| m_nFile := 0; m_nDataPos := 0; m_nUndoPos := 0; m_nTx := 1; m_nChainTx := nHeight b + 1;
    m_nStatus := BLOCK_VALID_TRANSACTIONS + BLOCK_HAVE_DATA; m_nFlags := 0; m_nMint := 0; m_nMoneySupply := 0; m_nSequenceId := 1 |} b.

(** [state_ok] is decidable; for examples. *)
Definition tree_check (st : store) : bool :=
  forallb (fun e => let '(p, b) := e in
    bool_decide (wf_index st b) && bool_decide (wf256 (nChainWork b)) &&
    match pprev b with
    | None => true
    | Some q => (val (nChainWork (deref st q)) <? val (nChainWork b)) &&
                ((nChainTx b =? 0) || negb (nChainTx (deref st q) =? 0) || (height_of st q =? 0))
    end) (map_to_list st).

Definition chain_check (st : store) (c : chain) : bool :=
  forallb (fun i => match c !! i with
    | Some (Some p) => bool_decide (is_Some (st !! p)) && (height_of st p =? Z.of_nat i) &&
        ((i =? 0)%nat || bool_decide (c !! (i - 1)%nat = Some (pprev_of st p)))
    | _ => false
    end) (seq 0 (length c)).

Definition good_check (st : store) (p : ptr) : bool :=
  negb (nonzero (Z.land (nStatus (deref st p)) BLOCK_FAILED_MASK)) && nonzero (Z.land (nStatus (deref st p)) BLOCK_HAVE_DATA).

Definition state_check (s : ChainState) : bool :=
  tree_check (tree s) && chain_check (tree s) (chainActive s) && negb (length (chainActive s) =? 0)%nat &&
  forallb (fun p => (negb (Contains (tree s) (chainActive s) p) || good_check (tree s) p) &&
    match FindFork (tree s) (chainActive s) p with Some (Some _) => true | _ => false end) (all_blocks s) &&
  forallb (fun p => bool_decide (is_Some (tree s !! p)) && (negb (nChainTx (deref (tree s) p) =? 0) || (height_of (tree s) p =? 0)))
    (elements (setBlockIndexCandidates s)).

Lemma wf_null_work : wf256 (nChainWork null_index).
Proof. apply (bool_decide_unpack _). vm_compute. exact I. Qed.

Lemma tree_check_ok st : tree_check st = true -> tree_ok st.
Proof.
  intros H. assert (G : forall p b, st !! p = Some b -> wf_index st b /\ wf256 (nChainWork b) /\
    forall q, pprev b = Some q -> val (nChainWork (deref st q)) < val (nChainWork b) /\
      (nChainTx b <> 0 -> nChainTx (deref st q) <> 0 \/ height_of st q = 0)).
  { intros p b Hb. unfold tree_check in H. rewrite forallb_forall in H. specialize (H (p, b)). cbn in H.
    rewrite <- list_elem_of_In, elem_of_map_to_list in H. specialize (H Hb). rewrite !andb_true_iff, !bool_decide_eq_true in H.
    destruct H as [[H1 H2] H3]. split; [done|]. split; [done|]. intros q Hq. rewrite Hq in H3. lia. }
  split.
  - intros p b Hb. by apply (G p b).
  - intros p. unfold deref. destruct (st !! p) as [b|] eqn:Hb; [by apply (G p b)|apply wf_null_work].
  - intros p q [b Hb] Hq. unfold pprev_of, deref in Hq |- *. rewrite Hb in *. by apply (G p b).
  - intros p q [b Hb] Hq. unfold pprev_of in Hq. unfold deref in Hq |- * at 1. rewrite Hb in *. by apply (G p b).
Qed.

Lemma chain_check_ok st c : chain_check st c = true -> wf_chain st c.
Proof.
  intros H i x Hi. unfold chain_check in H. rewrite forallb_forall in H. specialize (H i).
  rewrite in_seq in H. pose proof (lookup_lt_Some _ _ _ Hi). specialize (H ltac:(lia)). rewrite Hi in H.
  destruct x as [p|]; [|done]. exists p. rewrite !andb_true_iff, orb_true_iff, !bool_decide_eq_true, Z.eqb_eq, Nat.eqb_eq in H.
  destruct H as [[H1 H2] H3]. split_and!; [done..|]. intros Hn. by destruct H3.
Qed.

Lemma state_check_ok s : state_check s = true -> state_ok s.
Proof.
  unfold state_check. rewrite !andb_true_iff. intros [[[[T C] L] A] K]. apply tree_check_ok in T. apply chain_check_ok in C.
  rewrite forallb_forall in A, K. assert (A' : forall x, is_Some (tree s !! x) -> In x (all_blocks s)).
  { intros x [b Hb]. apply list_elem_of_In. unfold all_blocks. apply list_elem_of_fmap. exists (x, b). split; [done|]. by apply elem_of_map_to_list. }
  split.
  - done.
  - done.
  - by destruct (chainActive s).
  - intros x Hx Hc. specialize (A x (A' x Hx)). rewrite Hc in A. cbn [negb orb] in A. unfold good_check in A.
    rewrite !andb_true_iff, negb_true_iff in A. split; apply A.
  - intros p Hp. specialize (A p (A' p Hp)). apply andb_true_iff in A as [_ A].
    destruct (FindFork_total _ (t_wf _ T) (chainActive s) p Hp) as (r & E & F). rewrite E in A. destruct r as [g|]; [|done].
    exists g. apply F.
  - intros p Hp. specialize (K p). rewrite <- list_elem_of_In, elem_of_elements in K. specialize (K Hp).
    rewrite andb_true_iff, bool_decide_eq_true in K. split; [apply K|]. lia.
Qed.

(** The work of block [p] is [10 p + 1]; block [8] on top of [7] has failed. *)
Definition example_best_store : store :=
  let st := example_add example_store (8%nat, Some 7%nat, 1300) in
  let st := map_imap (fun p b => Some (received (set_work (u256 (10 * Z.of_nat p + 1)) b))) st in
  <[8%nat := set_status (BLOCK_VALID_TRANSACTIONS + BLOCK_HAVE_DATA + BLOCK_FAILED_VALID) (deref st 8%nat)]> st.

Definition example_state : ChainState := {|
  tree := example_best_store; chainActive := example_chain; setBlockIndexCandidates := {[5%nat; 7%nat; 8%nat]};
  mapBlocksUnlinked := []; pindexBestInvalid := None; nBlockSequenceId := 2; setDirtyBlockIndex := ∅ |}.

Lemma example_state_ok : state_ok example_state.
Proof. apply state_check_ok. vm_compute. reflexivity. Qed.

Lemma FindMostWorkChain_best_witness :
  (exists s', FindMostWorkChain example_state = Ok (s', Some 7%nat) /\ setBlockIndexCandidates s' = {[5%nat; 7%nat]}) /\
  exists s' r, FindMostWorkChain example_state = Ok (s', r) /\ state_ok s'.
Proof.
  split; [eexists; split; vm_compute; reflexivity|].
  destruct (FindMostWorkChain_best example_state example_state_ok) as (s' & r & E & O & _).
  exists s', r. split; [exact E|exact O].
Defined.
