(* ===== verification/Received.v ===== *)
(** The arrival of blocks (main.cpp, [ReceivedBlockTransactions] of BestChain.v): a block
    is linked, that is its [nChainTx] is set, exactly when the data of all its ancestors
    are here; blocks that come before their parents wait in [mapBlocksUnlinked]. *)

From stdpp Require Import gmap.
From S2P Require Import Prelude Uint256 Arith256 Transaction Chain BestChain.

#[local] Abbreviation length := Datatypes.length.

Definition has_data (st : store) (p : ptr) : Prop := nonzero (Z.land (nStatus (deref st p)) BLOCK_HAVE_DATA) = true.
Definition linked (st : store) (p : ptr) : Prop := nChainTx (deref st p) <> 0.

#[export] Instance has_data_dec st p : Decision (has_data st p).
Proof. unfold has_data. apply _. Defined.
#[export] Instance linked_dec st p : Decision (linked st p).
Proof. unfold linked. apply _. Defined.

(** The transactions of the parents, as [link_loop] reads them. *)
Definition parent_tx (st : store) (p : ptr) : Z := match pprev_of st p with Some q => nChainTx (deref st q) | None => 0 end.

(** The number of transactions of a branch. *)
Fixpoint branch_tx (n : nat) (st : store) (p : ptr) : Z :=
  nTx (deref st p) + match n, pprev_of st p with S n, Some q => branch_tx n st q | _, _ => 0 end.

Definition chain_tx (st : store) (p : ptr) : Z := branch_tx (Z.to_nat (height_of st p)) st p.

(** What holds between arrivals. *)
Record received_ok (s : ChainState) : Prop := {
  ro_state : state_ok s;
  ro_tx p : is_Some (tree s !! p) -> 0 <= nTx (deref (tree s) p) /\ (has_data (tree s) p -> 0 < nTx (deref (tree s) p));
  ro_sum p : is_Some (tree s !! p) -> linked (tree s) p ->
    nChainTx (deref (tree s) p) = nTx (deref (tree s) p) + parent_tx (tree s) p /\ has_data (tree s) p /\
    forall q, pprev_of (tree s) p = Some q -> linked (tree s) q;
  ro_unlinked q p : (q, p) ∈ mapBlocksUnlinked s ->
    is_Some (tree s !! p) /\ pprev_of (tree s) p = Some q /\ has_data (tree s) p /\ ~ linked (tree s) q;
  ro_waiting p : is_Some (tree s !! p) -> has_data (tree s) p -> ~ linked (tree s) p ->
    exists q, pprev_of (tree s) p = Some q /\ (q, p) ∈ mapBlocksUnlinked s;
  ro_active x : is_Some (tree s !! x) -> Contains (tree s) (chainActive s) x = true -> linked (tree s) x
}.

(** The counter of transactions does not overflow. *)
Definition tx_room (st : store) : Prop := forall p, is_Some (st !! p) -> chain_tx st p < 2 ^ 32.

Lemma chain_tx_step st p : wf_store st -> is_Some (st !! p) ->
  chain_tx st p = nTx (deref st p) + match pprev_of st p with Some q => chain_tx st q | None => 0 end.
Proof.
  intros W Hp. unfold chain_tx at 1. pose proof (height_nonneg st W p Hp) as H0.
  destruct (decide (height_of st p = 0)) as [E|E].
  - rewrite E. simpl. by rewrite (parent_none st W p Hp E).
  - destruct (parent_valid st W p Hp ltac:(lia)) as (q & Eq & Hq & Eh). rewrite Eq.
    replace (Z.to_nat (height_of st p)) with (S (Z.to_nat (height_of st q))) by lia. cbn [branch_tx]. by rewrite Eq.
Qed.

(** Induction from parents to children. *)
Lemma tree_ind st (P : ptr -> Prop) : wf_store st ->
  (forall p, is_Some (st !! p) -> (forall q, pprev_of st p = Some q -> P q) -> P p) -> forall p, is_Some (st !! p) -> P p.
Proof.
  intros W H p Hp. remember (Z.to_nat (height_of st p)) as n eqn:En. revert p Hp En.
  induction n as [n IH] using lt_wf_ind. intros p Hp ->. apply H; [done|]. intros q Hq. pose proof (height_nonneg st W p Hp) as H0.
  destruct (decide (height_of st p = 0)) as [E|E]; [by rewrite (parent_none st W p Hp E) in Hq|].
  destruct (parent_valid st W p Hp ltac:(lia)) as (r & Er & Hr & Eh). rewrite Hq in Er. injection Er as <-.
  eapply IH; [|done|reflexivity]. pose proof (height_nonneg st W q Hr). lia.
Qed.

Lemma chain_tx_nonneg st : wf_store st -> (forall x, is_Some (st !! x) -> 0 <= nTx (deref st x)) ->
  forall p, is_Some (st !! p) -> 0 <= chain_tx st p.
Proof.
  intros W H. apply (tree_ind st (fun p => 0 <= chain_tx st p) W). intros p Hp IH. rewrite chain_tx_step by done.
  specialize (H p Hp). destruct (pprev_of st p) as [q|]; [pose proof (IH q eq_refl); lia|lia].
Qed.

Lemma linked_chain_tx st : wf_store st ->
  (forall p, is_Some (st !! p) -> linked st p -> nChainTx (deref st p) = nTx (deref st p) + parent_tx st p /\
     forall q, pprev_of st p = Some q -> linked st q) ->
  forall p, is_Some (st !! p) -> linked st p -> nChainTx (deref st p) = chain_tx st p.
Proof.
  intros W H. apply (tree_ind st (fun p => linked st p -> nChainTx (deref st p) = chain_tx st p) W).
  intros p Hp IH L. destruct (H p Hp L) as [E Hq]. rewrite chain_tx_step, E by done. unfold parent_tx.
  destruct (pprev_of st p) as [q|]; [|done]. by rewrite IH; [..|apply Hq].
Qed.

(** Linked blocks are those whose ancestors all have data. *)
Lemma linked_iff s : received_ok s -> forall p, is_Some (tree s !! p) ->
  linked (tree s) p <-> forall x, ancestor (tree s) x p -> has_data (tree s) x.
Proof.
  intros R. pose proof (t_wf _ (so_tree _ (ro_state _ R))) as W.
  apply (tree_ind (tree s) (fun p => linked (tree s) p <-> forall x, ancestor (tree s) x p -> has_data (tree s) x) W).
  intros p Hp IH. split.
  - intros L. destruct (ro_sum _ R p Hp L) as (_ & D & Hq). intros x [[|i] Hi]; cbn [anc] in Hi; [by injection Hi as <-|].
    destruct (pprev_of (tree s) p) as [q|] eqn:Eq; [|done]. apply (IH q eq_refl); [by apply Hq|]. by exists i.
  - intros D. destruct (decide (linked (tree s) p)) as [L|L]; [done|exfalso].
    destruct (ro_waiting _ R p Hp) as (q & Eq & Hu); [apply D; by exists O|done|].
    destruct (ro_unlinked _ R q p Hu) as (_ & _ & _ & Hn). apply Hn. apply (IH q Eq). intros x [i Hi]. apply D. exists (S i). cbn [anc]. by rewrite Eq.
Qed.

(** * The loop *)

Section Loop.
Context (s0 : ChainState) (t : ptr) (Ht : Tip (chainActive s0) = Some t) (Hlt : linked (tree s0) t).

(** The state between two turns. *)
Record link_inv (queue : list ptr) (s : ChainState) : Prop := {
  li_frame : same_frame (tree s0) (tree s);
  li_kept x : nTx (deref (tree s) x) = nTx (deref (tree s0) x) /\ nStatus (deref (tree s) x) = nStatus (deref (tree s0) x);
  li_hash x : phashBlock (deref (tree s) x) = phashBlock (deref (tree s0) x);
  li_old x : linked (tree s0) x -> shape (deref (tree s) x) = shape (deref (tree s0) x);
  li_chain : chainActive s = chainActive s0;
  li_tree : tree_ok (tree s);
  li_cand p : p ∈ setBlockIndexCandidates s -> is_Some (tree s !! p) /\ (linked (tree s) p \/ height_of (tree s) p = 0);
  li_sum p : is_Some (tree s !! p) -> linked (tree s) p ->
    nChainTx (deref (tree s) p) = nTx (deref (tree s) p) + parent_tx (tree s) p /\ has_data (tree s) p /\
    forall q, pprev_of (tree s) p = Some q -> linked (tree s) q;
  li_unlinked q p : (q, p) ∈ mapBlocksUnlinked s ->
    is_Some (tree s !! p) /\ pprev_of (tree s) p = Some q /\ has_data (tree s) p /\ ~ linked (tree s) q /\ ~ linked (tree s0) p;
  li_queue p : p ∈ queue -> is_Some (tree s !! p) /\ has_data (tree s) p /\ ~ linked (tree s0) p /\
    forall q, pprev_of (tree s) p = Some q -> linked (tree s) q;
  li_waiting p : is_Some (tree s !! p) -> has_data (tree s) p -> ~ linked (tree s) p ->
    p ∈ queue \/ exists q, pprev_of (tree s) p = Some q /\ (q, p) ∈ mapBlocksUnlinked s;
  li_new x : is_Some (tree s !! x) -> linked (tree s) x -> ~ linked (tree s0) x ->
    x ∈ setBlockIndexCandidates s \/ work_lt (tree s) x t = true;
  li_kept_cand x : x ∈ setBlockIndexCandidates s0 -> x ∈ setBlockIndexCandidates s
}.

Context (Htx : forall p, is_Some (tree s0 !! p) -> 0 <= nTx (deref (tree s0) p) /\ (has_data (tree s0) p -> 0 < nTx (deref (tree s0) p))).
Context (Hroom : tx_room (tree s0)).

Lemma li_valid queue s x : link_inv queue s -> is_Some (tree s !! x) <-> is_Some (tree s0 !! x).
Proof using. intros L. apply frame_valid, L. Qed.

Lemma chain_tx_kept queue s x : link_inv queue s -> chain_tx (tree s) x = chain_tx (tree s0) x.
Proof using.
  intros L. unfold chain_tx. rewrite (frame_height _ _ (li_frame _ _ L)). generalize (Z.to_nat (height_of (tree s0) x)) as n.
  intros n. revert x. induction n as [|n IH]; intros x; cbn [branch_tx]; rewrite (proj1 (li_kept _ _ L x)); [done|].
  rewrite (frame_pprev _ _ (li_frame _ _ L)). destruct (pprev_of (tree s0) x); [by rewrite IH|done].
Qed.

(** The value a queued block gets. *)
Lemma queued_value queue s p : link_inv queue s -> p ∈ queue ->
  u32 (parent_tx (tree s) p + nTx (deref (tree s) p)) = nTx (deref (tree s) p) + parent_tx (tree s) p /\ 0 < nTx (deref (tree s) p) + parent_tx (tree s) p.
Proof using Htx Hroom.
  intros L Hp. destruct (li_queue _ _ L p Hp) as (Hv & D & _ & Hq). pose proof (t_wf _ (li_tree _ _ L)) as W.
  assert (Hv0 : is_Some (tree s0 !! p)) by (by apply (li_valid queue s)).
  assert (Hpar : 0 <= parent_tx (tree s) p /\ nTx (deref (tree s) p) + parent_tx (tree s) p = chain_tx (tree s) p).
  { rewrite (chain_tx_step _ _ W Hv). unfold parent_tx. destruct (pprev_of (tree s) p) as [q|] eqn:Eq; [|lia].
    assert (Hvq : is_Some (tree s !! q)).
    { destruct (deref_valid _ W p Hv) as [_ H]. unfold pprev_of in Eq. rewrite Eq in H. apply H. }
    rewrite (linked_chain_tx _ W (fun x Hx Lx => conj (proj1 (li_sum _ _ L x Hx Lx)) (proj2 (proj2 (li_sum _ _ L x Hx Lx)))) q Hvq (Hq q eq_refl)).
    split; [|done]. apply (chain_tx_nonneg _ W); [|done]. intros x Hx. rewrite (proj1 (li_kept _ _ L x)). by apply Htx, (li_valid queue s). }
  destruct Hpar as [H0 Hc]. pose proof (Hroom p Hv0) as Hr. rewrite <- (chain_tx_kept queue s p L), <- Hc in Hr.
  destruct (Htx p Hv0) as [_ H1]. rewrite <- (proj1 (li_kept _ _ L p)) in H1.
  assert (D0 : has_data (tree s0) p) by (unfold has_data in *; by rewrite <- (proj2 (li_kept _ _ L p))).
  specialize (H1 D0). rewrite u32_small by (unfold word; lia). split; lia.
Qed.
(** ** One turn *)

Definition turn (p : ptr) (s : ChainState) : ChainState :=
  let s1 := assign p (fun b => linked_index (u32 (parent_tx (tree s) p + nTx b)) (nBlockSequenceId s) b) s in
  let s2 := set_sequence (u32 (nBlockSequenceId s1 + 1)) s1 in
  let s3 := if negb (work_lt (tree s2) p t) then insert_candidate p s2 else s2 in
  set_unlinked (filter (fun e => e.1 <> p) (mapBlocksUnlinked s3)) s3.

Lemma turn_tree p s : tree (turn p s) = tree (assign p (fun b => linked_index (u32 (parent_tx (tree s) p + nTx b)) (nBlockSequenceId s) b) s).
Proof using. unfold turn. cbn [tree set_unlinked]. by destruct (negb _). Qed.

Lemma turn_cands p s x : x ∈ setBlockIndexCandidates (turn p s) <->
  x ∈ setBlockIndexCandidates s \/ (x = p /\ work_lt (tree (turn p s)) p t = false).
Proof using.
  rewrite turn_tree. unfold turn. cbn [setBlockIndexCandidates set_unlinked tree set_sequence].
  destruct (work_lt _ p t); cbn [negb insert_candidate set_candidates set_sequence setBlockIndexCandidates assign set_tree].
  - split; [by left|intros [?|[_ ?]]; done].
  - rewrite elem_of_union, elem_of_singleton. split; [intros [->|?]; [by right|by left]|intros [?|[-> _]]; [by right|by left]].
Qed.

Lemma turn_unlinked p s : mapBlocksUnlinked (turn p s) = filter (fun e => e.1 <> p) (mapBlocksUnlinked s).
Proof using. unfold turn. by destruct (negb _). Qed.

Lemma turn_chain p s : chainActive (turn p s) = chainActive s.
Proof using. unfold turn. by destruct (negb _). Qed.

Lemma turn_inv queue s p : link_inv (p :: queue) s ->
  link_inv (queue ++ map snd (filter (fun e => e.1 = p) (mapBlocksUnlinked s))) (turn p s).
Proof using Ht Htx Hroom Hlt.
  intros L. assert (Hpq : p ∈ p :: queue) by apply list_elem_of_here.
  destruct (li_queue _ _ L p Hpq) as (Hv & D & Hn0 & Hq). destruct (queued_value _ _ _ L Hpq) as [Eval Hpos].
  set (b := linked_index (nTx (deref (tree s) p) + parent_tx (tree s) p) (nBlockSequenceId s) (deref (tree s) p)).
  assert (Ed : forall x, deref (tree (turn p s)) x = if decide (x = p) then b else deref (tree s) x).
  { intros x. rewrite turn_tree, deref_assign. destruct (decide (x = p)) as [->|]; [|done]. unfold b. by rewrite <- Eval. }
  assert (F : same_frame (tree s) (tree (turn p s))) by (rewrite turn_tree; by apply same_frame_assign).
  assert (Hstat : forall x, nStatus (deref (tree (turn p s)) x) = nStatus (deref (tree s) x)).
  { intros x. rewrite Ed. by destruct (decide (x = p)) as [->|]. }
  assert (Hntx : forall x, nTx (deref (tree (turn p s)) x) = nTx (deref (tree s) x)).
  { intros x. rewrite Ed. by destruct (decide (x = p)) as [->|]. }
  assert (Hd : forall x, has_data (tree (turn p s)) x <-> has_data (tree s) x) by (intros x; unfold has_data; by rewrite Hstat).
  assert (Hl : forall x, linked (tree (turn p s)) x <-> x = p \/ linked (tree s) x).
  { intros x. unfold linked. rewrite Ed. destruct (decide (x = p)) as [->|Hx]; cbn [b linked_index set_fields nChainTx m_nChainTx].
    - split; [by left|]. intros _. lia.
    - split; [by right|]. by intros [?|?]. }
  assert (Hc : forall x, x <> p \/ linked (tree s) p -> nChainTx (deref (tree (turn p s)) x) = nChainTx (deref (tree s) x)).
  { intros x Hx. rewrite Ed. destruct (decide (x = p)) as [->|]; [|done]. destruct Hx as [?|Hlp]; [done|].
    cbn [b linked_index set_fields nChainTx m_nChainTx]. symmetry. apply (li_sum _ _ L p Hv Hlp). }
  assert (Hval : forall x, is_Some (tree (turn p s) !! x) <-> is_Some (tree s !! x)) by (intros x; by apply frame_valid).
  assert (Hpp : forall x, pprev_of (tree (turn p s)) x = pprev_of (tree s) x) by (intros x; by apply frame_pprev).
  assert (Hsum : forall x, is_Some (tree (turn p s) !! x) -> linked (tree (turn p s)) x ->
    nChainTx (deref (tree (turn p s)) x) = nTx (deref (tree (turn p s)) x) + parent_tx (tree (turn p s)) x /\ has_data (tree (turn p s)) x /\
    forall q, pprev_of (tree (turn p s)) x = Some q -> linked (tree (turn p s)) q).
  { intros x Hx Lx. rewrite Hval in Hx. rewrite Hl in Lx. rewrite Hd, Hntx, Hpp. unfold parent_tx. rewrite Hpp.
    assert (Hself : forall q, pprev_of (tree s) p = Some q -> q <> p).
    { intros q Eq ->. destruct (deref_valid _ (t_wf _ (li_tree _ _ L)) p Hv) as [_ H]. unfold pprev_of in Eq. rewrite Eq in H.
      destruct H as (_ & H & _). unfold height_of in H. lia. }
    destruct (decide (x = p)) as [->|Hne].
    - rewrite Ed, decide_True by done. cbn [b linked_index set_fields nChainTx m_nChainTx]. split_and!; [|done|intros q Eq; apply Hl; right; by apply Hq].
      f_equal. unfold parent_tx. destruct (pprev_of (tree s) p) as [q|] eqn:Eq; [|done]. symmetry. apply Hc. left. by apply Hself.
    - destruct Lx as [?|Lx]; [done|]. destruct (li_sum _ _ L x Hx Lx) as (E1 & E2 & E3). rewrite Hc by (by left).
      split_and!; [|done|intros q Eq; apply Hl; right; by apply E3]. rewrite E1. f_equal. unfold parent_tx.
      destruct (pprev_of (tree s) x) as [q|] eqn:Eq; [|done]. symmetry. apply Hc. destruct (decide (q = p)) as [->|]; [right; by apply E3|by left]. }
  split.
  - transitivity (tree s); [apply L|done].
  - intros x. rewrite Hntx, Hstat. apply L.
  - intros x. rewrite <- (li_hash _ _ L x), Ed. by destruct (decide (x = p)) as [->|].
  - intros x Lx. rewrite <- (li_old _ _ L x Lx). rewrite Ed. destruct (decide (x = p)) as [->|]; [done|done].
  - rewrite turn_chain. apply L.
  - destruct (li_tree _ _ L) as [T1 T2 T3 T4]. split.
    + by apply (frame_wf_store (tree s)).
    + intros x. by rewrite (frame_work _ _ F).
    + intros x y. rewrite (frame_valid _ _ F), (frame_pprev _ _ F), !(frame_work _ _ F). apply T3.
    + intros x y Hx Hy Lx. left. by apply (Hsum x Hx Lx).
  - intros x Hx. rewrite Hval, Hl, (frame_height _ _ F). apply turn_cands in Hx as [Hx|[-> _]]; [|by split; [|left; left]].
    destruct (li_cand _ _ L x Hx) as [? [?|?]]; split; auto.
  - exact Hsum.
  - intros q x Hx. rewrite turn_unlinked in Hx. apply list_elem_of_filter in Hx as [Hne Hx]. cbn in Hne. rewrite Hval, Hpp, Hd, Hl.
    destruct (li_unlinked _ _ L q x Hx) as (H1 & H2 & H3 & H4 & H5). split_and!; try done. by intros [?|?].
  - intros x Hx. rewrite Hval, Hd, Hpp. setoid_rewrite Hl. apply elem_of_app in Hx as [Hx|Hx].
    + destruct (li_queue _ _ L x) as (H1 & H2 & H3 & H4); [by apply elem_of_cons; right|]. split_and!; try done. intros q Eq. right. by apply H4.
    + apply list_elem_of_fmap in Hx as ([q y] & -> & Hx). apply list_elem_of_filter in Hx as [Hq' Hx]. cbn in Hq'. subst q.
      destruct (li_unlinked _ _ L p y Hx) as (H1 & H2 & H3 & H4 & H5). cbn. split_and!; try done. intros q Eq. rewrite H2 in Eq. injection Eq as <-. by left.
  - intros x. rewrite Hval, Hd, Hl, Hpp, turn_unlinked. intros Hx Dx Nx.
    destruct (li_waiting _ _ L x Hx Dx) as [Hin|(q & Eq & Hin)]; [tauto| |].
    + left. apply elem_of_app. left. apply elem_of_cons in Hin as [->|Hin]; [|done]. destruct Nx. by left.
    + destruct (decide (q = p)) as [->|Hne].
      * left. apply elem_of_app. right. apply list_elem_of_fmap. exists (p, x). split; [done|]. by apply list_elem_of_filter.
      * right. exists q. split; [done|]. by apply list_elem_of_filter.
  - intros x Hx Lx Nx. rewrite Hval in Hx. rewrite Hl in Lx. rewrite turn_cands. destruct (decide (x = p)) as [->|Hne].
    + destruct (work_lt (tree (turn p s)) p t) eqn:Ew; [by right|left; by right].
    + destruct Lx as [?|Lx]; [done|]. destruct (li_new _ _ L x Hx Lx Nx) as [?|Hw]; [left; by left|right].
      rewrite <- Hw. assert (Htp : t <> p) by (intros ->; done).
      unfold work_lt. rewrite !Ed. by rewrite !decide_False by done.
  - intros x Hx. apply turn_cands. left. by apply L.
Qed.

Lemma filter_length_split {A} (P : A -> Prop) `{!forall x, Decision (P x)} (l : list A) :
  (length (filter P l) + length (filter (fun x => ~ P x) l) = length l)%nat.
Proof using. induction l as [|x l IH]; [done|]. rewrite !filter_cons. destruct (decide (P x)), (decide (~ P x)); simpl; try tauto; lia. Qed.

Lemma link_loop_turn fuel p queue s : Tip (chainActive s) = Some t ->
  link_loop (S fuel) (p :: queue) s = link_loop fuel (queue ++ map snd (filter (fun e => e.1 = p) (mapBlocksUnlinked s))) (turn p s).
Proof using.
  intros T. cbn [link_loop]. fold (parent_tx (tree s) p). set (s1 := assign p _ s). set (s2 := set_sequence _ s1).
  change (chainActive s2) with (chainActive s). rewrite T. unfold turn. fold s1. fold s2. by destruct (negb _).
Qed.

Lemma link_loop_spec fuel : forall queue s, (length queue + length (mapBlocksUnlinked s) <= fuel)%nat -> link_inv queue s ->
  exists s', link_loop fuel queue s = Ok s' /\ link_inv [] s'.
Proof using Ht Hlt Htx Hroom.
  induction fuel as [|fuel IH]; intros [|p queue] s Hf L; [by exists s|simpl in Hf; lia|by exists s|].
  rewrite link_loop_turn by (by rewrite (li_chain _ _ L)). apply IH; [|by apply turn_inv].
  rewrite turn_unlinked, length_app, length_map. simpl in Hf.
  pose proof (filter_length_split (fun e : ptr * ptr => e.1 = p) (mapBlocksUnlinked s)). lia.
Qed.
End Loop.

(** * The arrival *)

Section Arrival.
Context (block : CBlock) (p : ptr) (pos : CDiskBlockPos) (s : ChainState) (R : received_ok s).
Context (Hp : is_Some (tree s !! p)) (Hd : ~ has_data (tree s) p) (Hn : 0 < Z.of_nat (length (vtx block)) < 2 ^ 32).
Context (Hparent : forall q, pprev_of (tree s) p = Some q -> IsValid (nStatus (deref (tree s) q)) BLOCK_VALID_TREE = true).

Definition arrived : ChainState := add_dirty p (assign p (received_index block pos) s).
Context (Hroom : tx_room (tree arrived)).

Lemma not_linked_yet : ~ linked (tree s) p.
Proof using R Hp Hd. intros L. by destruct (ro_sum _ R p Hp L) as (_ & ? & _). Qed.

Lemma deref_arrived x : deref (tree arrived) x = if decide (x = p) then received_index block pos (deref (tree s) p) else deref (tree s) x.
Proof using. apply deref_assign. Qed.

Lemma arrived_same : same_tree (tree s) (tree arrived).
Proof using R Hp Hd.
  intros x. unfold arrived, assign, set_tree, add_dirty. cbn [tree]. destruct (decide (x = p)) as [->|]; [|by rewrite lookup_insert_ne].
  destruct Hp as [b Hb]. rewrite lookup_insert_eq, Hb. cbn [fmap option_fmap option_map]. unfold shape. cbn [received_index set_fields pprev pskip nHeight nChainWork nSequenceId nChainTx m_nChainTx m_nSequenceId].
  pose proof not_linked_yet as L. unfold linked, deref in L. rewrite Hb in L. unfold deref. rewrite Hb. cbn [default from_option id] in *.
  repeat f_equal. destruct (decide (nChainTx b = 0)); [by symmetry|done].
Qed.

Lemma received_status z m : Z.land (RaiseValidity z BLOCK_VALID_TRANSACTIONS).1 m = Z.land z m \/ Z.land (Z.lxor (2 ^ 32 - 1) BLOCK_VALID_MASK) m <> m \/ Z.land BLOCK_VALID_TRANSACTIONS m <> 0.
Proof using.
  unfold RaiseValidity. repeat case_match; cbn [fst]; [by left| |by left].
  destruct (decide (Z.land (Z.lxor (2 ^ 32 - 1) BLOCK_VALID_MASK) m = m)) as [E1|]; [|by right; left].
  destruct (decide (Z.land BLOCK_VALID_TRANSACTIONS m = 0)) as [E2|]; [left|by right; right].
  by rewrite Z.land_lor_distr_l, E2, Z.lor_0_r, <- Z.land_assoc, E1.
Qed.

Lemma arrived_data x : has_data (tree arrived) x <-> x = p \/ has_data (tree s) x.
Proof using.
  unfold has_data. rewrite deref_arrived. destruct (decide (x = p)) as [->|Hx]; [|split; [by right|by intros [?|?]]].
  split; [by left|]. intros _. cbn [received_index set_fields nStatus m_nStatus].
  destruct (received_status (Z.lor (nStatus (deref (tree s) p)) BLOCK_HAVE_DATA) BLOCK_HAVE_DATA) as [->|[H|H]]; [|by destruct H|by destruct H].
  rewrite Z.land_lor_distr_l. unfold nonzero. apply negb_true_iff, Z.eqb_neq. intros E. apply (f_equal (fun z => Z.testbit z 3)) in E.
  rewrite Z.lor_spec, !Z.land_spec in E. cbn in E. by rewrite orb_true_r in E.
Qed.

Lemma arrived_linked x : linked (tree arrived) x <-> linked (tree s) x.
Proof using R Hp Hd. unfold linked. by rewrite (same_chain_tx _ _ arrived_same). Qed.

Lemma arrived_good x : good (tree s) x -> good (tree arrived) x.
Proof using.
  unfold good. rewrite deref_arrived. destruct (decide (x = p)) as [->|Hx]; [|done]. intros [G1 G2]. split.
  - cbn [received_index set_fields nStatus m_nStatus].
    destruct (received_status (Z.lor (nStatus (deref (tree s) p)) BLOCK_HAVE_DATA) BLOCK_FAILED_MASK) as [->|[H|H]]; [|by destruct H|by destruct H].
    rewrite Z.land_lor_distr_l. by rewrite Z.lor_0_r.
  - pose proof (proj2 (arrived_data p) (or_introl eq_refl)) as H. unfold has_data in H. by rewrite deref_arrived, decide_True in H.
Qed.

Lemma arrived_tx x : is_Some (tree arrived !! x) -> 0 <= nTx (deref (tree arrived) x) /\ (has_data (tree arrived) x -> 0 < nTx (deref (tree arrived) x)).
Proof using R Hp Hd Hn.
  rewrite (same_valid _ _ arrived_same), arrived_data. intros Hx. rewrite deref_arrived. destruct (decide (x = p)) as [->|Hne].
  - cbn [received_index set_fields nTx m_nTx]. rewrite u32_small by (unfold word; lia). lia.
  - destruct (ro_tx _ R x Hx) as [H1 H2]. split; [done|]. by intros [?|?]; [|apply H2].
Qed.

(** The state in which the block has data and the loop has not begun; the block is in
    the queue or waits. *)
Lemma arrived_inv queue unlinked :
  (forall x, x ∈ queue -> x = p /\ forall q, pprev_of (tree s) p = Some q -> linked (tree s) q) ->
  (forall q x, (q, x) ∈ unlinked <-> (q, x) ∈ mapBlocksUnlinked s \/ x = p /\ pprev_of (tree s) p = Some q /\ ~ linked (tree s) q /\ queue = []) ->
  (p ∈ queue \/ exists q, pprev_of (tree s) p = Some q /\ (q, p) ∈ unlinked) ->
  forall t, link_inv arrived t queue (set_unlinked unlinked arrived).
Proof using R Hp Hd.
  intros Hqueue Hunl Hwait t. pose proof arrived_same as E. pose proof (ro_state _ R) as [O1 O2 O3 O4 O5 O6].
  assert (E' : forall x, pprev_of (tree arrived) x = pprev_of (tree s) x) by (intros x; by apply same_pprev).
  split; cbn [tree chainActive set_unlinked setBlockIndexCandidates mapBlocksUnlinked].
  - done.
  - done.
  - done.
  - done.
  - done.
  - by apply (tree_ok_same (tree s)).
  - intros x Hx. rewrite (same_valid _ _ E), arrived_linked, (same_height _ _ E). exact (O6 x Hx).
  - intros x. rewrite (same_valid _ _ E), arrived_linked, (same_chain_tx _ _ E), arrived_data. unfold parent_tx. rewrite E'. intros Hx Lx.
    destruct (ro_sum _ R x Hx Lx) as (E1 & E2 & E3).
    assert (Hxp : x <> p) by (intros ->; by apply not_linked_yet).
    rewrite deref_arrived, decide_False by done. split_and!; [|by right|intros q Eq; apply arrived_linked; by apply E3].
    rewrite E1. unfold parent_tx. destruct (pprev_of (tree s) x); [|done]. by rewrite (same_chain_tx _ _ E).
  - intros q x Hx. rewrite (same_valid _ _ E), E', arrived_data, !arrived_linked. apply Hunl in Hx as [Hx|(-> & Hq & Hl & _)].
    + destruct (ro_unlinked _ R q x Hx) as (H1 & H2 & H3 & H4). split_and!; [done|done|by right|done|]. intros L. apply H4. by apply (ro_sum _ R x H1 L).
    + split_and!; [done|done|by left|done|apply not_linked_yet].
  - intros x Hx. destruct (Hqueue x Hx) as [-> Hl]. rewrite (same_valid _ _ E), arrived_data, arrived_linked. split_and!; [done|by left|apply not_linked_yet|].
    intros q. rewrite E', arrived_linked. apply Hl.
  - intros x. rewrite (same_valid _ _ E), arrived_data, arrived_linked, E'. intros Hx Dx Lx. destruct (decide (x = p)) as [->|Hne]; [done|].
    destruct Dx as [?|Dx]; [done|]. destruct (ro_waiting _ R x Hx Dx Lx) as (q & Eq & Hu). right. exists q. split; [done|]. apply Hunl. by left.
  - intros x _ L1 L2. by destruct L2.
  - done.
Qed.
Lemma arrived_active x : is_Some (tree arrived !! x) -> Contains (tree arrived) (chainActive s) x = true -> good (tree arrived) x /\ linked (tree arrived) x.
Proof using R Hp Hd.
  rewrite (same_valid _ _ arrived_same), (same_contains _ _ arrived_same). intros Hx Hc.
  split; [apply arrived_good; by apply (so_active _ (ro_state _ R))|apply arrived_linked; by apply (ro_active _ R)].
Qed.

(** The end of the loop, or no loop at all. *)
Lemma settled_ok t s' : link_inv arrived t [] s' -> received_ok s'.
Proof using R Hp Hd Hn.
  intros L. pose proof arrived_same as E. pose proof (li_frame _ _ _ _ L) as F. pose proof (ro_state _ R) as [O1 O2 O3 O4 O5 O6].
  assert (Hchain : chainActive s' = chainActive s) by apply L.
  assert (Hgood : forall x, good (tree s') x <-> good (tree arrived) x) by (intros x; unfold good; by rewrite (proj2 (li_kept _ _ _ _ L x))).
  assert (Hold : forall x, linked (tree arrived) x -> linked (tree s') x).
  { intros x Lx. pose proof (li_old _ _ _ _ L x Lx) as Es. unfold linked in *. injection Es as _ _ _ _ _ Es. by rewrite Es. }
  assert (G : same_frame (tree s) (tree s')) by (transitivity (tree arrived); [by apply same_tree_frame|done]).
  assert (Hact : forall x, is_Some (tree s' !! x) -> Contains (tree s') (chainActive s') x = true -> good (tree arrived) x /\ linked (tree arrived) x).
  { intros x. rewrite Hchain, (frame_valid _ _ F), (frame_contains _ _ F). apply arrived_active. }
  split.
  - split.
    + apply L.
    + rewrite Hchain. by apply (frame_wf_chain (tree s)).
    + by rewrite Hchain.
    + intros x Hx Hc. apply Hgood. by apply Hact.
    + intros x. rewrite (frame_valid _ _ G). intros Hx. destruct (O5 x Hx) as (g & Hg & Hc). exists g. rewrite Hchain. split.
      * exact (proj2 (frame_ancestor _ _ G g x) Hg).
      * by rewrite (frame_contains _ _ G).
    + intros x Hx. exact (li_cand _ _ _ _ L x Hx).
  - intros x Hx. destruct (li_kept _ _ _ _ L x) as [E1 E2]. unfold has_data. rewrite E1, E2. apply arrived_tx. by apply (frame_valid _ _ F).
  - exact (li_sum _ _ _ _ L).
  - intros q x Hx. destruct (li_unlinked _ _ _ _ L q x Hx) as (H1 & H2 & H3 & H4 & _). done.
  - intros x Hx Dx Lx. destruct (li_waiting _ _ _ _ L x Hx Dx Lx) as [Hin|?]; [by apply not_elem_of_nil in Hin|done].
  - intros x Hx Hc. apply Hold. by apply Hact.
Qed.

Lemma received_spec t : Tip (chainActive s) = Some t -> exists s', ReceivedBlockTransactions block p pos s = Ok s' /\ link_inv arrived t [] s'.
Proof using R Hp Hd Hn Hparent Hroom.
  intros T. assert (Htl : linked (tree arrived) t).
  { destruct (tip_contained _ _ _ (t_wf _ (so_tree _ (ro_state _ R))) (so_chain _ (ro_state _ R)) T) as (Ht & Hc & _). apply arrived_linked.
    by apply (ro_active _ R). }
  assert (E : forall x, pprev_of (tree arrived) x = pprev_of (tree s) x) by (intros x; by apply same_pprev, arrived_same).
  assert (Hloop : (forall q, pprev_of (tree s) p = Some q -> linked (tree s) q) ->
    exists s', link_loop (S (length (mapBlocksUnlinked arrived))) [p] arrived = Ok s' /\ link_inv arrived t [] s').
  { intros Hq. apply (link_loop_spec arrived t T Htl arrived_tx Hroom); [simpl; lia|].
    apply (arrived_inv [p] (mapBlocksUnlinked s)); [|intros q x; split; [by left|intros [?|(_ & _ & _ & ?)]; [done|discriminate]]|left; apply list_elem_of_here].
    intros x Hx. by apply list_elem_of_singleton in Hx as ->. }
  unfold ReceivedBlockTransactions. fold arrived. rewrite E. destruct (pprev_of (tree s) p) as [q|] eqn:Eq; [|by apply Hloop].
  destruct (nonzero (nChainTx (deref (tree arrived) q))) eqn:El.
  { apply Hloop. intros q' [= <-]. apply arrived_linked. unfold linked, nonzero in *. by apply negb_true_iff, Z.eqb_neq in El. }
  assert (Hnl : ~ linked (tree s) q).
  { rewrite <- arrived_linked. unfold linked, nonzero in *. apply negb_false_iff, Z.eqb_eq in El. intros H. by apply H. }
  assert (Hqp : q <> p).
  { intros ->. destruct (deref_valid _ (t_wf _ (so_tree _ (ro_state _ R))) p Hp) as [_ H]. unfold pprev_of in Eq. rewrite Eq in H.
    destruct H as (_ & H & _). unfold height_of in H. lia. }
  rewrite deref_arrived, decide_False by done. rewrite (Hparent q eq_refl). eexists. split; [reflexivity|].
  apply (arrived_inv [] (mapBlocksUnlinked s ++ [(q, p)])).
  - intros x Hx. by apply not_elem_of_nil in Hx.
  - intros q' x. rewrite elem_of_app, list_elem_of_singleton. split; [intros [?|[= -> ->]]; [by left|by right]|].
    intros [?|(-> & Hq' & _)]; [by left|right]. congruence.
  - right. exists q. split; [done|]. apply elem_of_app. right. by apply list_elem_of_singleton.
Qed.
End Arrival.

(** C5 When the data of a block arrive, [ReceivedBlockTransactions] links exactly the blocks
    all of whose ancestors have data, those that were waiting for the block included;
    every block newly linked becomes a candidate unless the tip is better; and what holds
    between arrivals is kept.  The parent must not be known to be invalid, and the count
    of the transactions of a branch must fit into 32 bits. *)
Theorem ReceivedBlockTransactions_links block p pos s :
  received_ok s -> is_Some (tree s !! p) -> ~ has_data (tree s) p -> 0 < Z.of_nat (length (vtx block)) < 2 ^ 32 ->
  (forall q, pprev_of (tree s) p = Some q -> IsValid (nStatus (deref (tree s) q)) BLOCK_VALID_TREE = true) ->
  tx_room (tree (arrived block p pos s)) ->
  exists s', ReceivedBlockTransactions block p pos s = Ok s' /\ received_ok s' /\ same_frame (tree s) (tree s') /\ chainActive s' = chainActive s /\
    (forall x, is_Some (tree s !! x) -> linked (tree s') x <-> forall y, ancestor (tree s) y x -> y = p \/ has_data (tree s) y) /\
    (forall x, is_Some (tree s !! x) -> linked (tree s') x -> ~ linked (tree s) x ->
       x ∈ setBlockIndexCandidates s' \/ exists t, Tip (chainActive s) = Some t /\ work_lt (tree s') x t = true) /\
    (forall x, x ∈ setBlockIndexCandidates s -> x ∈ setBlockIndexCandidates s').
Proof.
  intros R Hp Hd Hn Hpar Hroom. destruct (chain_tip _ _ (so_chain _ (ro_state _ R)) (so_tip _ (ro_state _ R))) as [t T].
  destruct (received_spec block p pos s R Hp Hd Hn Hpar Hroom t T) as (s' & Es & L). exists s'. split; [done|].
  pose proof (settled_ok block p pos s R Hp Hd Hn t s' L) as R'.
  assert (G : same_frame (tree s) (tree s')) by (transitivity (tree (arrived block p pos s)); [by apply same_tree_frame, arrived_same|apply L]).
  split; [done|]. split; [done|]. split; [apply L|]. split; [|split].
  - intros x Hx. rewrite (linked_iff s' R' x) by (by apply (frame_valid _ _ G)). setoid_rewrite (frame_ancestor _ _ G).
    setoid_rewrite <- (arrived_data block p pos s). unfold has_data.
    split; intros H y Hy; specialize (H y Hy); by rewrite (proj2 (li_kept _ _ _ _ L y)) in *.
  - intros x Hx Lx Nx. destruct (li_new _ _ _ _ L x) as [?|Hw]; [by apply (frame_valid _ _ G)|done|by rewrite arrived_linked|by left|right; eauto].
  - apply L.
Qed.

(** * An example *)

(** [received_ok] without [ro_state], by computation. *)
Definition received_check (s : ChainState) : bool :=
  let st := tree s in
  forallb (fun p =>
    (0 <=? nTx (deref st p)) && (bool_decide (~ has_data st p) || (0 <? nTx (deref st p))) &&
    (bool_decide (~ linked st p) ||
       (nChainTx (deref st p) =? nTx (deref st p) + parent_tx st p) && bool_decide (has_data st p) &&
       match pprev_of st p with Some q => bool_decide (linked st q) | None => true end) &&
    (bool_decide (~ has_data st p) || bool_decide (linked st p) ||
       match pprev_of st p with Some q => bool_decide ((q, p) ∈ mapBlocksUnlinked s) | None => false end) &&
    (negb (Contains st (chainActive s) p) || bool_decide (linked st p))) (all_blocks s) &&
  forallb (fun e => bool_decide (is_Some (st !! e.2)) && bool_decide (pprev_of st e.2 = Some e.1) && bool_decide (has_data st e.2) &&
    bool_decide (~ linked st e.1)) (mapBlocksUnlinked s).

Lemma received_check_ok s : state_check s = true -> received_check s = true -> received_ok s.
Proof.
  intros Hs H. unfold received_check in H. apply andb_true_iff in H as [A U]. rewrite forallb_forall in A, U.
  assert (A' : forall x, is_Some (tree s !! x) -> In x (all_blocks s)).
  { intros x [b Hb]. apply list_elem_of_In. unfold all_blocks. apply list_elem_of_fmap. exists (x, b). split; [done|]. by apply elem_of_map_to_list. }
  assert (B : forall p, is_Some (tree s !! p) -> _) by (intros p Hp; specialize (A p (A' p Hp)); cbn beta in A; rewrite !andb_true_iff, !orb_true_iff in A; exact A).
  split.
  - by apply state_check_ok.
  - intros p Hp. destruct (B p Hp) as [[[[B1 B2] _] _] _]. split; [lia|]. intros D. destruct B2 as [B2|B2]; [by apply bool_decide_eq_true in B2|lia].
  - intros p Hp L. destruct (B p Hp) as [[[_ B3] _] _]. destruct B3 as [B3|B3]; [by apply bool_decide_eq_true in B3|].
    rewrite !andb_true_iff, bool_decide_eq_true in B3. destruct B3 as [[B3 D] B4]. split; [lia|]. split; [done|]. intros q Eq. rewrite Eq in B4.
    by apply bool_decide_eq_true in B4.
  - intros q p Hin. specialize (U (q, p)). rewrite <- list_elem_of_In in U. specialize (U Hin). cbn in U.
    rewrite !andb_true_iff, !bool_decide_eq_true in U. tauto.
  - intros p Hp D L. destruct (B p Hp) as [[_ B4] _]. destruct B4 as [[B4|B4]|B4].
    + by apply bool_decide_eq_true in B4.
    + by apply bool_decide_eq_true in B4.
    + destruct (pprev_of (tree s) p) as [q|]; [|done]. apply bool_decide_eq_true in B4. by exists q.
  - intros x Hx Hc. destruct (B x Hx) as [_ B5]. rewrite Hc in B5. destruct B5 as [B5|B5]; [done|]. by apply bool_decide_eq_true in B5.
Qed.

(** Of block 6 only the header is here; 7 and 8 on top of it wait. *)
Definition waiting_state : ChainState :=
  let header_only b := set_fields {| m_nFile := 0; m_nDataPos := 0; m_nUndoPos := 0; m_nTx := 0; m_nChainTx := 0; m_nStatus := BLOCK_VALID_TREE;
    m_nFlags := 0; m_nMint := 0; m_nMoneySupply := 0; m_nSequenceId := 0 |} b in
  let unlinked b := set_fields {| m_nFile := 0; m_nDataPos := 0; m_nUndoPos := 0; m_nTx := 1; m_nChainTx := 0;
    m_nStatus := BLOCK_VALID_TRANSACTIONS + BLOCK_HAVE_DATA; m_nFlags := 0; m_nMint := 0; m_nMoneySupply := 0; m_nSequenceId := 0 |} b in
  {| tree := alter unlinked 8%nat (alter unlinked 7%nat (alter header_only 6%nat example_best_store)); chainActive := example_chain;
     setBlockIndexCandidates := {[5%nat]}; mapBlocksUnlinked := [(6%nat, 7%nat); (7%nat, 8%nat)]; pindexBestInvalid := None;
     nBlockSequenceId := 2; setDirtyBlockIndex := ∅ |}.

Definition arriving_pos : CDiskBlockPos := {| posFile := 0; posPos := 5000 |}.

Lemma waiting_ok : received_ok waiting_state.
Proof. apply received_check_ok; vm_compute; reflexivity. Qed.

Lemma tx_room_check st : forallb (fun e => chain_tx st e.1 <? 2 ^ 32) (map_to_list st) = true -> tx_room st.
Proof.
  intros H p [b Hb]. rewrite forallb_forall in H. specialize (H (p, b)). rewrite <- list_elem_of_In, elem_of_map_to_list in H. specialize (H Hb). cbn in H. lia.
Qed.

(** All three are linked and become candidates. *)
Lemma ReceivedBlockTransactions_links_witness :
  (exists s', ReceivedBlockTransactions Transaction.example_block 6%nat arriving_pos waiting_state = Ok s' /\
     setBlockIndexCandidates s' = {[5%nat; 6%nat; 7%nat; 8%nat]} /\ mapBlocksUnlinked s' = []) /\
  exists s', ReceivedBlockTransactions Transaction.example_block 6%nat arriving_pos waiting_state = Ok s' /\ received_ok s'.
Proof.
  split; [eexists; split_and!; vm_compute; reflexivity|].
  destruct (ReceivedBlockTransactions_links Transaction.example_block 6%nat arriving_pos waiting_state waiting_ok) as (s' & E & R & _).
  - vm_compute. eauto.
  - apply (bool_decide_unpack _). vm_compute. exact I.
  - vm_compute. split; reflexivity.
  - intros q Hq. apply Some_inj in Hq. subst q. vm_compute. reflexivity.
  - apply tx_room_check. vm_compute. reflexivity.
  - exists s'. split; [exact E|exact R].
Defined.
