(* ===== verification/Orphans.v ===== *)
(** Orphan transactions (main.cpp): transactions from peers whose inputs are not known
    yet, and the handler of the message that brings a transaction.

    The two maps are [mapOrphanTransactions] and [mapOrphanTransactionsByPrev]; going
    through a map or a set is in the order of its keys.  Numbers from the generator of
    random hashes are an argument.  What the handler does to peers is a list of effects;
    the sanity check of the pool, which is off by default, and the bookkeeping of
    inventories are left out. *)

From Stdlib Require Import Strings.String Floats.SpecFloat.
From stdpp Require Import gmap sorting.
From S2P Require Import Prelude Uint256 Arith256 Params Serialize Hashes Script Transaction Pubkey Interp Standard Compressor Coins CoinsView Validation Connect Mempool Policy.

Local Open Scope Z_scope.
#[local] Abbreviation length := Datatypes.length.

(** * State *)

Record COrphanTx := { orphan_tx : CTransaction; fromPeer : Z }.

Record OrphanMaps := {
  mapOrphanTransactions : gmap uint256 COrphanTx;
  mapOrphanTransactionsByPrev : gmap uint256 (gset uint256)
}.

Definition no_orphans : OrphanMaps := {| mapOrphanTransactions := ∅; mapOrphanTransactionsByPrev := ∅ |}.

(** The keys of a map or of a set in their order. *)
Definition hash_le (a b : uint256) : Prop := le a b = true.
#[export] Instance hash_le_dec : RelDecision hash_le := fun a b => decide (le a b = true).
Definition in_order (l : list uint256) : list uint256 := merge_sort hash_le l.

Definition orphan_keys (o : OrphanMaps) : list uint256 := in_order (map_to_list (mapOrphanTransactions o)).*1.

(** * Operations *)

Definition insert_prev (hash : uint256) (byPrev : gmap uint256 (gset uint256)) (txin : CTxIn) : gmap uint256 (gset uint256) :=
  <[out_hash (prevout txin) := {[hash]} ∪ default ∅ (byPrev !! out_hash (prevout txin))]> byPrev.

Definition AddOrphanTx (tx : CTransaction) (peer : Z) (o : OrphanMaps) : OrphanMaps * bool :=
  let hash := tx_GetHash tx in
  if bool_decide (is_Some (mapOrphanTransactions o !! hash)) then (o, false)
  else if 5000 <? u32 (Z.of_nat (length (enc c_transaction tx))) then (o, false)
  else
    ({| mapOrphanTransactions := <[hash := {| orphan_tx := tx; fromPeer := peer |}]> (mapOrphanTransactions o);
        mapOrphanTransactionsByPrev := foldl (insert_prev hash) (mapOrphanTransactionsByPrev o) (vin tx) |}, true).

Definition erase_prev (hash : uint256) (byPrev : gmap uint256 (gset uint256)) (txin : CTxIn) : gmap uint256 (gset uint256) :=
  match byPrev !! out_hash (prevout txin) with
  | None => byPrev
  | Some s =>
      let s := s ∖ {[hash]} in
      if bool_decide (s = ∅) then delete (out_hash (prevout txin)) byPrev else <[out_hash (prevout txin) := s]> byPrev
  end.

Definition EraseOrphanTx (hash : uint256) (o : OrphanMaps) : OrphanMaps :=
  match mapOrphanTransactions o !! hash with
  | None => o
  | Some it =>
      {| mapOrphanTransactions := delete hash (mapOrphanTransactions o);
         mapOrphanTransactionsByPrev := foldl (erase_prev hash) (mapOrphanTransactionsByPrev o) (vin (orphan_tx it)) |}
  end.

(** The loop of [EraseOrphansFor] over the keys that are left; [None] when the iterator
    points to an element that is gone. *)
Fixpoint erase_for (peer : Z) (keys : list uint256) (o : OrphanMaps) : option OrphanMaps :=
  match keys with
  | [] => Some o
  | k :: keys =>
      maybeErase ← mapOrphanTransactions o !! k;
      erase_for peer keys
        (if fromPeer maybeErase =? peer then EraseOrphanTx (tx_GetHash (orphan_tx maybeErase)) o else o)
  end.

Definition EraseOrphansFor (peer : Z) (o : OrphanMaps) : option OrphanMaps := erase_for peer (orphan_keys o) o.

(** [lower_bound], or the first key. *)
Definition evicted_key (randomhash : uint256) (keys : list uint256) : option uint256 :=
  match find (fun k => negb (lt k randomhash)) keys with Some k => Some k | None => head keys end.

(** The loop of [LimitOrphanTxSize]: [rand] gives the random hashes, [nEvicted] counts. *)
Fixpoint limit_loop (fuel : nat) (rand : Z -> uint256) (nMaxOrphans nEvicted : Z) (o : OrphanMaps) : OrphanMaps * Z :=
  if nMaxOrphans <? Z.of_nat (size (mapOrphanTransactions o)) then
    match fuel, evicted_key (rand nEvicted) (orphan_keys o) with
    | S fuel, Some k => limit_loop fuel rand nMaxOrphans (u32 (nEvicted + 1)) (EraseOrphanTx k o)
    | _, _ => (o, nEvicted)
    end
  else (o, nEvicted).

(** Each turn erases an orphan. *)
Definition LimitOrphanTxSize (rand : Z -> uint256) (nMaxOrphans : Z) (o : OrphanMaps) : OrphanMaps * Z :=
  limit_loop (size (mapOrphanTransactions o)) rand nMaxOrphans 0 o.

(** * The maps agree *)

(** An orphan waits for a transaction. *)
Definition waits_for (o : OrphanMaps) (h p : uint256) : Prop :=
  exists it, mapOrphanTransactions o !! h = Some it /\ p ∈ map (fun i => out_hash (prevout i)) (vin (orphan_tx it)).

Record orphans_ok (o : OrphanMaps) : Prop := {
  oo_key h it : mapOrphanTransactions o !! h = Some it -> tx_GetHash (orphan_tx it) = h;
  oo_prev p h : h ∈ default ∅ (mapOrphanTransactionsByPrev o !! p) <-> waits_for o h p;
  oo_nonempty p : mapOrphanTransactionsByPrev o !! p <> Some ∅
}.

Abbreviation parents tx := (map (fun i => out_hash (prevout i)) (vin tx)).

Lemma lookup_insert_prevs hash ins : forall byPrev p h,
  h ∈ default ∅ (foldl (insert_prev hash) byPrev ins !! p) <->
  h ∈ default ∅ (byPrev !! p) \/ h = hash /\ p ∈ map (fun i => out_hash (prevout i)) ins.
Proof.
  induction ins as [|i ins IH]; intros byPrev p h; cbn [foldl map]; [set_solver|].
  rewrite IH. unfold insert_prev at 1. destruct (decide (p = out_hash (prevout i))) as [->|Hne].
  - rewrite lookup_insert_eq. cbn [default]. set_solver.
  - rewrite lookup_insert_ne by done. set_solver.
Qed.

Lemma insert_prevs_nonempty hash ins : forall byPrev, (forall p, byPrev !! p <> Some ∅) -> forall p, foldl (insert_prev hash) byPrev ins !! p <> Some ∅.
Proof.
  induction ins as [|i ins IH]; intros byPrev N; cbn [foldl]; [done|]. apply IH. intros p. unfold insert_prev.
  destruct (decide (p = out_hash (prevout i))) as [->|Hne]; [|by rewrite lookup_insert_ne].
  rewrite lookup_insert_eq. intros E%Some_inj. set_solver.
Qed.

Lemma lookup_erase_prevs hash ins : forall byPrev p h,
  h ∈ default ∅ (foldl (erase_prev hash) byPrev ins !! p) <->
  h ∈ default ∅ (byPrev !! p) /\ ~ (h = hash /\ p ∈ map (fun i => out_hash (prevout i)) ins).
Proof.
  induction ins as [|i ins IH]; intros byPrev p h; cbn [foldl map]; [set_solver|].
  rewrite IH. set (q := out_hash (prevout i)).
  assert (E : h ∈ default ∅ (erase_prev hash byPrev i !! p) <-> h ∈ default ∅ (byPrev !! p) /\ ~ (h = hash /\ p = q)).
  { unfold erase_prev. fold q. destruct (byPrev !! q) as [s|] eqn:L.
    - destruct (decide (p = q)) as [->|Hne].
      + rewrite L. case_bool_decide as D; [rewrite lookup_delete_eq|rewrite lookup_insert_eq]; cbn [default]; set_solver.
      + case_bool_decide; [rewrite lookup_delete_ne by done|rewrite lookup_insert_ne by done]; set_solver.
    - destruct (decide (p = q)) as [->|Hne]; [rewrite L; cbn [default]; set_solver|set_solver]. }
  rewrite E. set_solver.
Qed.

Lemma erase_prevs_nonempty hash ins : forall byPrev, (forall p, byPrev !! p <> Some ∅) -> forall p, foldl (erase_prev hash) byPrev ins !! p <> Some ∅.
Proof.
  induction ins as [|i ins IH]; intros byPrev N; cbn [foldl]; [done|]. apply IH. intros p. unfold erase_prev.
  destruct (byPrev !! out_hash (prevout i)) as [s|]; [|done]. case_bool_decide as D.
  - destruct (decide (p = out_hash (prevout i))) as [->|Hne]; [by rewrite lookup_delete_eq|by rewrite lookup_delete_ne].
  - destruct (decide (p = out_hash (prevout i))) as [->|Hne]; [|by rewrite lookup_insert_ne].
    rewrite lookup_insert_eq. by intros [= E].
Qed.

Lemma AddOrphanTx_ok tx peer o : orphans_ok o -> orphans_ok (AddOrphanTx tx peer o).1.
Proof.
  intros [K P N]. unfold AddOrphanTx. case_bool_decide as D; [by split|]. case_if; [by split|]. cbn [fst].
  apply eq_None_not_Some in D. split; cbn [mapOrphanTransactions mapOrphanTransactionsByPrev].
  - intros h it. destruct (decide (h = tx_GetHash tx)) as [->|Hne].
    + rewrite lookup_insert_eq. intros E'%Some_inj. by subst it.
    + rewrite lookup_insert_ne by done. apply K.
  - intros p h. rewrite lookup_insert_prevs, P. unfold waits_for. cbn [mapOrphanTransactions].
    destruct (decide (h = tx_GetHash tx)) as [->|Hne].
    + rewrite lookup_insert_eq. split.
      * intros [(it & E' & _)|[_ Hp]]; [congruence|]. eexists. split; [reflexivity|done].
      * intros (it & E'%Some_inj & Hp). subst it. right. by split.
    + rewrite lookup_insert_ne by done. split; [intros [?|[? _]]; done|by left].
  - by apply insert_prevs_nonempty.
Qed.

(** What erasing does to the first map; the second follows it. *)
Lemma EraseOrphanTx_ok hash o : orphans_ok o ->
  orphans_ok (EraseOrphanTx hash o) /\ mapOrphanTransactions (EraseOrphanTx hash o) = delete hash (mapOrphanTransactions o).
Proof.
  intros [K P N]. unfold EraseOrphanTx. destruct (mapOrphanTransactions o !! hash) as [it|] eqn:L.
  2: { split; [by split|]. by rewrite delete_id. }
  split; [|done]. split; cbn [mapOrphanTransactions mapOrphanTransactionsByPrev].
  - intros h it' [_ E]%lookup_delete_Some. by apply K.
  - intros p h. rewrite lookup_erase_prevs, P. unfold waits_for. cbn [mapOrphanTransactions]. split.
    + intros [(it' & E & Hp) Nh]. exists it'. split; [|done]. apply lookup_delete_Some. split; [|done]. intros ->.
      apply Nh. rewrite L in E. apply Some_inj in E. by subst it'.
    + intros (it' & [Hne E]%lookup_delete_Some & Hp). split; [by exists it'|]. intros [-> _]. done.
  - by apply erase_prevs_nonempty.
Qed.

Lemma orphan_keys_perm o : orphan_keys o ≡ₚ (map_to_list (mapOrphanTransactions o)).*1.
Proof. apply merge_sort_Permutation. Qed.

Lemma elem_of_orphan_keys o k : k ∈ orphan_keys o <-> is_Some (mapOrphanTransactions o !! k).
Proof.
  rewrite orphan_keys_perm, list_elem_of_fmap. split.
  - intros ([k' it] & -> & Hi%elem_of_map_to_list). by exists it.
  - intros [it Hi]. exists (k, it). split; [done|]. by apply elem_of_map_to_list.
Qed.

Lemma orphan_keys_NoDup o : NoDup (orphan_keys o).
Proof. rewrite orphan_keys_perm. apply NoDup_fst_map_to_list. Qed.

Lemma erase_for_spec peer keys : forall o, orphans_ok o -> NoDup keys -> Forall (fun k => is_Some (mapOrphanTransactions o !! k)) keys ->
  exists o', erase_for peer keys o = Some o' /\ orphans_ok o' /\
    forall k, mapOrphanTransactions o' !! k =
      match mapOrphanTransactions o !! k with
      | Some it => if (fromPeer it =? peer) && bool_decide (k ∈ keys) then None else Some it
      | None => None
      end.
Proof.
  induction keys as [|k keys IH]; intros o Ok Hn Hk; cbn [erase_for].
  { exists o. split; [done|]. split; [done|]. intros k. destruct (mapOrphanTransactions o !! k); [|done]. by rewrite andb_false_r. }
  apply NoDup_cons in Hn as [Nk Hn]. apply Forall_cons in Hk as [[it Hit] Hk]. rewrite Hit. cbn [mbind option_bind].
  rewrite (oo_key _ Ok k it Hit). set (o1 := if fromPeer it =? peer then _ else _).
  assert (O1 : orphans_ok o1 /\ forall k', mapOrphanTransactions o1 !! k' =
    if (fromPeer it =? peer) && bool_decide (k' = k) then None else mapOrphanTransactions o !! k').
  { subst o1. destruct (fromPeer it =? peer); [|by split]. destruct (EraseOrphanTx_ok k o Ok) as [Ok' E]. split; [done|].
    intros k'. rewrite E. cbn [andb]. case_bool_decide as D; [subst k'; apply lookup_delete_eq|by apply lookup_delete_ne]. }
  destruct O1 as [Ok1 L1]. destruct (IH o1 Ok1 Hn) as (o' & E & Ok' & L).
  { rewrite Forall_forall in Hk |- *. intros k' Hk'. rewrite L1, (bool_decide_eq_false_2 (k' = k)), andb_false_r by (by intros ->). auto. }
  exists o'. split; [done|]. split; [done|]. intros k'. rewrite L, L1. destruct (decide (k' = k)) as [->|Hne].
  - rewrite Hit, (bool_decide_eq_true_2 (k = k)), (bool_decide_eq_true_2 (k ∈ k :: keys)), (bool_decide_eq_false_2 (k ∈ keys)) by set_solver.
    by destruct (fromPeer it =? peer) eqn:F; cbn [andb]; rewrite ?Hit, ?F.
  - rewrite (bool_decide_eq_false_2 (k' = k)), andb_false_r by done. destruct (mapOrphanTransactions o !! k') as [it'|]; [|done].
    replace (bool_decide (k' ∈ k :: keys)) with (bool_decide (k' ∈ keys)); [done|]. apply bool_decide_ext. set_solver.
Qed.

Lemma EraseOrphansFor_spec peer o : orphans_ok o ->
  exists o', EraseOrphansFor peer o = Some o' /\ orphans_ok o' /\
    forall k, mapOrphanTransactions o' !! k =
      match mapOrphanTransactions o !! k with Some it => if fromPeer it =? peer then None else Some it | None => None end.
Proof.
  intros Ok. destruct (erase_for_spec peer (orphan_keys o) o Ok (orphan_keys_NoDup o)) as (o' & E & Ok' & L).
  { apply Forall_forall. intros k. apply elem_of_orphan_keys. }
  exists o'. split; [done|]. split; [done|]. intros k. rewrite L. destruct (mapOrphanTransactions o !! k) as [it|] eqn:Hk; [|done].
  rewrite bool_decide_eq_true_2, andb_true_r; [done|]. apply elem_of_orphan_keys. by exists it.
Qed.

Lemma evicted_key_in h keys k : evicted_key h keys = Some k -> k ∈ keys.
Proof.
  unfold evicted_key. destruct (find _ keys) as [k'|] eqn:F.
  - intros [= ->]. by apply find_some in F as [F%list_elem_of_In _].
  - destruct keys; [done|]. intros [= ->]. by left.
Qed.

Lemma evicted_key_some h keys : keys <> [] -> is_Some (evicted_key h keys).
Proof. unfold evicted_key. destruct (find _ keys); [by eexists|]. destruct keys; [done|by eexists]. Qed.

(** The loop keeps orphans, and never has fewer than the limit or than it started with. *)
Lemma limit_loop_spec fuel rand nMax : forall n o, orphans_ok o -> 0 <= nMax -> 0 <= n -> (size (mapOrphanTransactions o) <= fuel)%nat ->
  n + Z.of_nat (size (mapOrphanTransactions o)) < 2 ^ 32 ->
  let r := limit_loop fuel rand nMax n o in
  orphans_ok r.1 /\ mapOrphanTransactions r.1 ⊆ mapOrphanTransactions o /\
  Z.of_nat (size (mapOrphanTransactions r.1)) = Z.min nMax (Z.of_nat (size (mapOrphanTransactions o))) /\
  r.2 - n = Z.of_nat (size (mapOrphanTransactions o)) - Z.of_nat (size (mapOrphanTransactions r.1)).
Proof.
  induction fuel as [|fuel IH]; intros n o Ok Hm Hn Hf Hb; cbn [limit_loop].
  { destruct (Z.ltb_spec nMax (Z.of_nat (size (mapOrphanTransactions o)))); [lia|]. cbn [fst snd]. split_and!; [done|done|lia|lia]. }
  destruct (Z.ltb_spec nMax (Z.of_nat (size (mapOrphanTransactions o)))) as [L|L]; [|cbn [fst snd]; split_and!; [done|done|lia|lia]].
  destruct (evicted_key_some (rand n) (orphan_keys o)) as [k Hk].
  { intros E. pose proof (orphan_keys_perm o) as P. rewrite E in P. apply Permutation_nil, fmap_nil_inv, map_to_list_empty_iff in P.
    rewrite P, map_size_empty in L. lia. }
  rewrite Hk. apply evicted_key_in, elem_of_orphan_keys in Hk as [it Hit].
  destruct (EraseOrphanTx_ok k o Ok) as [Ok' E]. rewrite (u32_small (n + 1)) by (clear -L Hm Hn Hb; wunfold; lia).
  assert (S : size (mapOrphanTransactions o) = S (size (mapOrphanTransactions (EraseOrphanTx k o)))).
  { rewrite E, map_size_delete_Some; [|by exists it]. lia. }
  destruct (IH (n + 1) (EraseOrphanTx k o) Ok' Hm ltac:(lia) ltac:(lia) ltac:(lia)) as (R1 & R2 & R3 & R4).
  split_and!; [done| |lia|lia]. etransitivity; [exact R2|]. rewrite E. apply delete_subseteq.
Qed.

Lemma LimitOrphanTxSize_spec rand nMax o : orphans_ok o -> 0 <= nMax -> Z.of_nat (size (mapOrphanTransactions o)) < 2 ^ 32 ->
  let r := LimitOrphanTxSize rand nMax o in
  orphans_ok r.1 /\ mapOrphanTransactions r.1 ⊆ mapOrphanTransactions o /\
  Z.of_nat (size (mapOrphanTransactions r.1)) = Z.min nMax (Z.of_nat (size (mapOrphanTransactions o))) /\
  r.2 = Z.of_nat (size (mapOrphanTransactions o)) - Z.of_nat (size (mapOrphanTransactions r.1)).
Proof.
  intros Ok Hm Hb. destruct (limit_loop_spec (size (mapOrphanTransactions o)) rand nMax 0 o Ok Hm ltac:(lia) ltac:(lia) ltac:(lia)) as (R1 & R2 & R3 & R4).
  unfold LimitOrphanTxSize. cbv zeta. split_and!; [done|done|done|lia].
Qed.

(** * The message that brings a transaction

    [ProcessMessage] for "tx". *)

(** What is done to peers. *)
Inductive peer_effect :=
| RelayTransaction (tx : CTransaction)
| Misbehaving (peer howmuch : Z)
| PushReject (chRejectCode : Z) (reason : string) (hash : uint256).

Definition MAX_REJECT_MESSAGE_LENGTH : nat := 111.

Record TxNode (V : Type) := {
  n_orphans : OrphanMaps;
  n_pool : CTxMemPool;
  n_tip : CCoinsViewCache V;
  n_limiter : FreeLimiter
}.
Arguments n_orphans {V}.
Arguments n_pool {V}.
Arguments n_tip {V}.
Arguments n_limiter {V}.
Arguments Build_TxNode {V}.

Definition set_orphans {V} (o : OrphanMaps) (s : TxNode V) : TxNode V := Build_TxNode o (n_pool s) (n_tip s) (n_limiter s).

(** [mapOrphanTransactions[hash]], which makes an entry when there is none. *)
Definition empty_tx : CTransaction := {| tx_nVersion := 1; vin := []; vout := []; nLockTime := 0 |}.
Definition orphan_at (o : OrphanMaps) (hash : uint256) : OrphanMaps * COrphanTx :=
  match mapOrphanTransactions o !! hash with
  | Some it => (o, it)
  | None =>
      let it := {| orphan_tx := empty_tx; fromPeer := 0 |} in
      ({| mapOrphanTransactions := <[hash := it]> (mapOrphanTransactions o);
          mapOrphanTransactionsByPrev := mapOrphanTransactionsByPrev o |}, it)
  end.

Section Handler.
Context {V : Type} `{CCoinsView V} (lib : secp256k1) (ps : CChainParams) (p : RelayPolicy) (decay : Z -> spec_float) (e : Surroundings).
Abbreviation node := (TxNode V).

(** [AcceptToMemoryPool] on the state of the node; the state, [*pfMissingInputs] and what
    it returns. *)
Definition accept_tx (s : node) (tx : CTransaction) : option (node * CValidationState * bool * bool) :=
  a ← AcceptToMemoryPool lib ps p decay e (n_pool s) (n_tip s) (n_limiter s) valid_state tx true false false;
  Some (Build_TxNode (n_orphans s) (a_pool a) (a_tip a) (a_limiter a), a_state a, fMissingInputs a, accepted a).

(** The ban score that a state asks for. *)
Definition ban_score (st : CValidationState) : Z := match mode st with MODE_INVALID => nDoS st | _ => 0 end.

(** The loop over the orphans that wait for a transaction; [vWorkQueue] is what is pushed,
    [out] what is done to peers. *)
Record Resolver := {
  r_node : node;
  vWorkQueue : list uint256;
  vEraseQueue : list uint256;
  setMisbehaving : gset Z;
  r_out : list peer_effect
}.

Definition try_orphan (r : Resolver) (orphanHash : uint256) : option Resolver :=
  let '(o, it) := orphan_at (n_orphans (r_node r)) orphanHash in
  let r := Build_Resolver (set_orphans o (r_node r)) (vWorkQueue r) (vEraseQueue r) (setMisbehaving r) (r_out r) in
  if bool_decide (fromPeer it ∈ setMisbehaving r) then Some r
  else
    a ← accept_tx (r_node r) (orphan_tx it);
    let '(s, stateDummy, fMissingInputs2, ok) := a in
    if ok : bool then
      Some (Build_Resolver s (vWorkQueue r ++ [orphanHash]) (vEraseQueue r ++ [orphanHash]) (setMisbehaving r)
              (r_out r ++ [RelayTransaction (orphan_tx it)]))
    else if negb fMissingInputs2 then
      let bad := 0 <? ban_score stateDummy in
      Some (Build_Resolver s (vWorkQueue r) (vEraseQueue r ++ [orphanHash])
              (if bad then {[fromPeer it]} ∪ setMisbehaving r else setMisbehaving r)
              (if bad then r_out r ++ [Misbehaving (fromPeer it) (ban_score stateDummy)] else r_out r))
    else Some (Build_Resolver s (vWorkQueue r) (vEraseQueue r) (setMisbehaving r) (r_out r)).

Fixpoint try_orphans (r : Resolver) (hashes : list uint256) : option Resolver :=
  match hashes with
  | [] => Some r
  | h :: hashes => r ← try_orphan r h; try_orphans r hashes
  end.

(** The loop over [vWorkQueue] from the place it has reached. *)
Fixpoint resolve_loop (fuel : nat) (r : Resolver) : option Resolver :=
  match vWorkQueue r, fuel with
  | [], _ => Some r
  | _, O => None
  | h :: queue, S fuel =>
      let r := Build_Resolver (r_node r) queue (vEraseQueue r) (setMisbehaving r) (r_out r) in
      match mapOrphanTransactionsByPrev (n_orphans (r_node r)) !! h with
      | None => resolve_loop fuel r
      | Some itByPrev => r ← try_orphans r (in_order (elements itByPrev)); resolve_loop fuel r
      end
  end.

(** Each turn takes a hash off the queue, and an orphan is put on it once. *)
Definition resolve_fuel (o : OrphanMaps) : nat := S (size (mapOrphanTransactions o)).

(** The handler: [maxorphantx] is the argument -maxorphantx. *)
Definition process_tx (maxorphantx : Z) (rand : Z -> uint256) (fWhitelisted : bool) (peer : Z) (tx : CTransaction) (s : node)
    : option (node * list peer_effect) :=
  let hash := tx_GetHash tx in
  a ← accept_tx s tx;
  let '(s, state, missing, ok) := a in
  r ← (if ok : bool then
         r ← resolve_loop (resolve_fuel (n_orphans s)) (Build_Resolver s [hash] [] ∅ [RelayTransaction tx]);
         Some (set_orphans (foldl (fun o h => EraseOrphanTx h o) (n_orphans (r_node r)) (vEraseQueue r)) (r_node r), r_out r)
       else if missing : bool then
         let o := (AddOrphanTx tx peer (n_orphans s)).1 in
         Some (set_orphans (LimitOrphanTxSize rand (u32 (Z.max 0 maxorphantx)) o).1 s, [])
       else Some (s, if fWhitelisted then [RelayTransaction tx] else []));
  Some (r.1,
        r.2 ++ match mode state with
               | MODE_INVALID =>
                   PushReject (chRejectCode state) (substring 0 MAX_REJECT_MESSAGE_LENGTH (strRejectReason state)) hash
                   :: (if 0 <? nDoS state then [Misbehaving peer (nDoS state)] else [])
               | _ => []
               end).
End Handler.

(** * What the handler keeps *)

Section Spec.
Context {V : Type} `{CCoinsViewReads V} (lib : secp256k1) (ps : CChainParams) (p : RelayPolicy) (decay : Z -> spec_float) (e : Surroundings).
Context (Hstd : RequireStandard p = true) (Hm : 0 <= MaxMoneyOut ps < MAX_AMOUNT).
Abbreviation node := (TxNode V).

(** A transaction that was read from the network. *)
Abbreviation received := (dom c_transaction).

Lemma received_in tx : received tx -> Forall wf_in (vin tx).
Proof. intros [[[_ [_ D]] _] _]. eapply Forall_impl; [exact D|]. by intros i [[[? ?] _] _]. Qed.

Lemma received_wf tx : received tx -> tx_valid ps tx -> IsStandardTx p e tx = None -> wf_tx tx.
Proof.
  intros D Tv S. split.
  - by apply received_in.
  - destruct D as [[_ [_ D]] _]. pose proof (tv_values _ _ Tv) as Hv. apply Forall_forall. intros o Ho.
    rewrite Forall_forall in D, Hv. specialize (D o Ho) as [_ [Db Dl]]. specialize (Hv o Ho). split; [lia|].
    split; [done|]. unfold MAX_SIZE, nSpecialScripts in *. cbn in Dl. lia.
  - destruct D as [[_ [D _]] _]. unfold MAX_SIZE in D. cbn in D. lia.
  - unfold IsStandardTx, CURRENT_VERSION in S. destruct (_ || _) eqn:E in S; [done|]. lia.
Qed.

Record node_ok (s : node) : Prop := {
  nk_orphans : orphans_ok (n_orphans s);
  nk_received h it : mapOrphanTransactions (n_orphans s) !! h = Some it -> received (orphan_tx it);
  nk_pool : pool_ok (n_pool s);
  nk_coins : pool_coins_wf (n_pool s);
  nk_tip : cache_inv (n_tip s);
  nk_best : cache_best (n_tip s) <> zero W256;
  nk_height : is_Some (block_height e (cache_best (n_tip s)))
}.

Lemma node_ok_orphans o s : node_ok s -> orphans_ok o -> (forall h it, mapOrphanTransactions o !! h = Some it -> received (orphan_tx it)) ->
  node_ok (set_orphans o s).
Proof. intros [] ? ?. by split. Qed.

Lemma accept_tx_spec s tx : node_ok s -> received tx ->
  exists s' st m ok, accept_tx lib ps p decay e s tx = Some (s', st, m, ok) /\ node_ok s' /\ n_orphans s' = n_orphans s /\
    if ok : bool then mapTx (n_pool s) !! tx_GetHash tx = None /\
      exists en, mapTx (n_pool s') = <[tx_GetHash tx := en]> (mapTx (n_pool s)) else n_pool s' = n_pool s.
Proof.
  intros [Ko Kr Kp Kc Kt Kb Kh] D. unfold accept_tx.
  assert (Hm' : 0 <= MaxMoneyOut ps < 2 ^ 62) by (unfold MAX_AMOUNT in Hm; lia).
  destruct (AcceptToMemoryPool_verdict lib ps p decay e (n_pool s) (n_tip s) (n_limiter s) valid_state tx true false false
    Hm' Kt Kb Kh Kc (received_in tx D)) as (a & E & S & R).
  rewrite E. cbn [mbind option_bind]. eexists _, _, _, _. split; [reflexivity|].
  assert (Kt' : cache_inv (a_tip a)) by apply S. assert (Kb' : cache_best (a_tip a) = cache_best (n_tip s)) by apply S.
  destruct (accepted a) eqn:A.
  - destruct R as (_ & outs & Ad & Ep). destruct (ad_new _ _ _ _ _ _ _ _ _ _ _ _ _ Ad) as [Hnew _].
    split; [|split; [done|]]; [|split; [done|]; rewrite Ep; by eexists].
    split; cbn [n_orphans n_pool n_tip]; rewrite ?Kb'; try done.
    + rewrite Ep. apply addUnchecked_ok; [done|]. split; [done|apply (tv_distinct _ _ (ad_valid _ _ _ _ _ _ _ _ _ _ _ _ _ Ad))|by destruct Ad].
    + rewrite Ep. intros k t L. unfold lookup_tx in L. cbn [addUnchecked set_content mapTx] in L.
      destruct (decide (k = tx_GetHash tx)) as [->|Hne]; [|rewrite lookup_insert_ne in L by done; by apply (Kc k)].
      rewrite lookup_insert_eq in L. cbn in L. apply Some_inj in L. subst t. apply FromTx_wf; [|unfold MEMPOOL_HEIGHT; lia].
      apply received_wf; [done|by destruct Ad|]. by destruct (ad_standard _ _ _ _ _ _ _ _ _ _ _ _ _ Ad Hstd).
  - destruct R as [Ep _]. split; [|by split]. split; cbn [n_orphans n_pool n_tip]; rewrite ?Ep, ?Kb'; done.
Qed.

(** ** The orphans that wait for it *)

(** The orphans that the pool does not have. *)
Definition pending (s : node) : nat :=
  size (filter (fun kv : uint256 * COrphanTx => mapTx (n_pool s) !! kv.1 = None) (mapOrphanTransactions (n_orphans s))).

Definition relays_pooled (m : CTxMemPool) (out : list peer_effect) : Prop :=
  Forall (fun x => match x with RelayTransaction t => is_Some (mapTx m !! tx_GetHash t) | _ => True end) out.

Definition pool_grows (m m' : CTxMemPool) : Prop := forall k, is_Some (mapTx m !! k) -> is_Some (mapTx m' !! k).

Lemma relays_grow m m' out : pool_grows m m' -> relays_pooled m out -> relays_pooled m' out.
Proof. intros G F. eapply Forall_impl; [exact F|]. intros [t| |]; [apply G|done|done]. Qed.

(** From one state of the loops to another. *)
Record resolves (r r' : Resolver (V := V)) : Prop := {
  rv_ok : node_ok (r_node r');
  rv_orphans : n_orphans (r_node r') = n_orphans (r_node r);
  rv_grows : pool_grows (n_pool (r_node r)) (n_pool (r_node r'));
  rv_relays : relays_pooled (n_pool (r_node r)) (r_out r) -> relays_pooled (n_pool (r_node r')) (r_out r')
}.

Definition measure (r : Resolver (V := V)) : nat := (length (vWorkQueue r) + pending (r_node r))%nat.

Lemma resolves_refl r : node_ok (r_node r) -> resolves r r.
Proof. intros K. split; [done|done|by intros k|done]. Qed.

Lemma resolves_trans a b c : resolves a b -> resolves b c -> resolves a c.
Proof. intros [? Ha ? ?] [? Hb ? ?]. split; [done|congruence|intros k ?; auto|auto]. Qed.

Lemma set_orphans_same (s : node) : set_orphans (n_orphans s) s = s.
Proof. by destruct s. Qed.

Lemma try_orphan_spec r h : node_ok (r_node r) -> is_Some (mapOrphanTransactions (n_orphans (r_node r)) !! h) ->
  exists r', try_orphan lib ps p decay e r h = Some r' /\ resolves r r' /\ (measure r' <= measure r)%nat.
Proof.
  intros K [it Hit]. unfold try_orphan, orphan_at. rewrite Hit, set_orphans_same. cbn [setMisbehaving r_node].
  case_bool_decide as B; [exists r; split; [by destruct r|]; split; [by apply resolves_refl|done]|].
  destruct (accept_tx_spec (r_node r) (orphan_tx it) K (nk_received _ K h it Hit)) as (s' & st & m & ok & E & K' & Eo & R).
  rewrite E. cbn [mbind option_bind vWorkQueue vEraseQueue r_out]. pose proof (oo_key _ (nk_orphans _ K) h it Hit) as Hh.
  destruct ok.
  - destruct R as (Hnew & en & Ep). rewrite Hh in Hnew, Ep. eexists. split; [reflexivity|].
    assert (G : pool_grows (n_pool (r_node r)) (n_pool s')).
    { intros k Hk. rewrite Ep. destruct (decide (k = h)) as [->|]; [rewrite lookup_insert_eq; by eexists|by rewrite lookup_insert_ne]. }
    split.
    + split; cbn [r_node r_out]; [done|done|done|]. intros F. apply Forall_app. split; [by apply (relays_grow _ _ _ G)|].
      constructor; [|done]. rewrite Hh, Ep, lookup_insert_eq. by eexists.
    + unfold measure, pending. cbn [r_node vWorkQueue]. rewrite length_app, Eo. cbn [length].
      enough (size (filter (fun kv : uint256 * COrphanTx => mapTx (n_pool s') !! kv.1 = None) (mapOrphanTransactions (n_orphans (r_node r)))) <
        size (filter (fun kv : uint256 * COrphanTx => mapTx (n_pool (r_node r)) !! kv.1 = None) (mapOrphanTransactions (n_orphans (r_node r)))))%nat by lia.
      apply map_subset_size. split.
      * apply map_subseteq_spec. intros k x. rewrite !map_lookup_filter_Some. cbn [fst]. intros [L N]. split; [done|].
        apply eq_None_not_Some. intros Q. apply G in Q. rewrite N in Q. by destruct Q.
      * intros Sub. rewrite map_subseteq_spec in Sub. specialize (Sub h it). rewrite !map_lookup_filter_Some in Sub. cbn [fst] in Sub.
        destruct Sub as [_ Sub]; [by split|]. by rewrite Ep, lookup_insert_eq in Sub.
  - assert (G : forall q er b out, (relays_pooled (n_pool (r_node r)) (r_out r) -> relays_pooled (n_pool (r_node r)) out) ->
      length q = length (vWorkQueue r) -> resolves r (Build_Resolver s' q er b out) /\ (measure (Build_Resolver s' q er b out) <= measure r)%nat).
    { intros q er b out F Lq. split.
      - split; cbn [r_node r_out]; rewrite ?R; [done|done|by intros k|done].
      - unfold measure, pending. cbn [r_node vWorkQueue]. by rewrite R, Eo, Lq. }
    destruct m; cbn [negb]; (eexists; split; [reflexivity|]); apply G; try done. case_if; [|done].
    intros F. apply Forall_app. split; [done|]. by constructor.
Qed.

Lemma try_orphans_spec hs : forall r, node_ok (r_node r) -> Forall (fun h => is_Some (mapOrphanTransactions (n_orphans (r_node r)) !! h)) hs ->
  exists r', try_orphans lib ps p decay e r hs = Some r' /\ resolves r r' /\ (measure r' <= measure r)%nat.
Proof.
  induction hs as [|h hs IH]; intros r K F; cbn [try_orphans]; [exists r; by split_and!; [|apply resolves_refl|]|].
  apply Forall_cons in F as [Fh F]. destruct (try_orphan_spec r h K Fh) as (r1 & E & R & M). rewrite E. cbn [mbind option_bind].
  destruct (IH r1 (rv_ok _ _ R)) as (r2 & E2 & R2 & M2); [by rewrite (rv_orphans _ _ R)|].
  exists r2. split; [done|]. split; [by eapply resolves_trans|lia].
Qed.

Lemma resolve_loop_spec fuel : forall r, node_ok (r_node r) -> (measure r <= fuel)%nat ->
  exists r', resolve_loop lib ps p decay e fuel r = Some r' /\ resolves r r'.
Proof.
  induction fuel as [|fuel IH]; intros r K Hf.
  - exists r. split; [|by apply resolves_refl]. unfold measure in Hf. destruct r as [n [|h q] er b out]; [done|]. cbn in Hf. lia.
  - destruct r as [n [|h q] er b out]; [eexists; split; [reflexivity|by apply resolves_refl]|].
    cbn [resolve_loop vWorkQueue r_node vEraseQueue setMisbehaving r_out] in *. set (r1 := Build_Resolver n q er b out).
    assert (M1 : (S (measure r1) <= S fuel)%nat) by exact Hf.
    assert (R1 : resolves (Build_Resolver n (h :: q) er b out) r1) by (split; [done|done|by intros k|done]).
    destruct (mapOrphanTransactionsByPrev (n_orphans n) !! h) as [s|] eqn:L.
    + destruct (try_orphans_spec (in_order (elements s)) r1 K) as (r2 & E & R2 & M2).
      { apply Forall_forall. intros x Hx. unfold in_order in Hx. rewrite merge_sort_Permutation, elem_of_elements in Hx.
        destruct (proj1 (oo_prev _ (nk_orphans _ K) h x)) as (it & Hit & _); [by rewrite L|by exists it]. }
      rewrite E. cbn [mbind option_bind]. destruct (IH r2 (rv_ok _ _ R2)) as (r3 & E3 & R3); [lia|].
      exists r3. split; [done|]. by eapply resolves_trans; [exact R1|eapply resolves_trans].
    + destruct (IH r1 K) as (r3 & E3 & R3); [lia|]. exists r3. split; [done|by eapply resolves_trans].
Qed.

Lemma erase_all_spec hs : forall o, orphans_ok o ->
  orphans_ok (foldl (fun o h => EraseOrphanTx h o) o hs) /\
  mapOrphanTransactions (foldl (fun o h => EraseOrphanTx h o) o hs) ⊆ mapOrphanTransactions o.
Proof.
  induction hs as [|h hs IH]; intros o Ok; cbn [foldl]; [done|]. destruct (EraseOrphanTx_ok h o Ok) as [Ok' E].
  destruct (IH _ Ok') as [? Sub]. split; [done|]. etransitivity; [exact Sub|]. rewrite E. apply delete_subseteq.
Qed.

Lemma node_ok_fewer o s : node_ok s -> orphans_ok o -> mapOrphanTransactions o ⊆ mapOrphanTransactions (n_orphans s) -> node_ok (set_orphans o s).
Proof.
  intros K Ok Sub. apply node_ok_orphans; [done..|]. intros h it L. apply (nk_received _ K h). eapply map_subseteq_spec; eassumption.
Qed.
(** Every transaction that is relayed is in the pool, or it came from a whitelisted peer. *)
Definition relays_ok (fWhitelisted : bool) (tx : CTransaction) (m : CTxMemPool) (out : list peer_effect) : Prop :=
  forall t, RelayTransaction t ∈ out -> is_Some (mapTx m !! tx_GetHash t) \/ fWhitelisted = true /\ t = tx.

Lemma relays_pooled_ok w tx m out : relays_pooled m out -> relays_ok w tx m out.
Proof. intros F t Hi. left. unfold relays_pooled in F. rewrite Forall_forall in F. exact (F _ Hi). Qed.

Lemma relays_ok_app w tx m out out' : relays_ok w tx m out -> (forall t, RelayTransaction t ∉ out') -> relays_ok w tx m (out ++ out').
Proof. intros F N t [Hi|Hi]%elem_of_app; [by apply F|by destruct (N t)]. Qed.

(** The answer to the peer relays nothing. *)
Lemma answer_no_relay st hash peer t : RelayTransaction t ∉
  match mode st with
  | MODE_INVALID =>
      PushReject (chRejectCode st) (substring 0 MAX_REJECT_MESSAGE_LENGTH (strRejectReason st)) hash
      :: (if 0 <? nDoS st then [Misbehaving peer (nDoS st)] else [])
  | _ => []
  end.
Proof. destruct (mode st); try apply not_elem_of_nil. case_if; set_solver. Qed.

Lemma process_tx_spec limit rand w peer tx s : node_ok s -> received tx -> 0 <= limit < 2 ^ 31 ->
  Z.of_nat (size (mapOrphanTransactions (n_orphans s))) <= limit ->
  exists s' out, process_tx lib ps p decay e limit rand w peer tx s = Some (s', out) /\ node_ok s' /\
    pool_grows (n_pool s) (n_pool s') /\ relays_ok w tx (n_pool s') out /\
    Z.of_nat (size (mapOrphanTransactions (n_orphans s'))) <= limit.
Proof.
  intros K D Hl Hs. unfold process_tx. destruct (accept_tx_spec s tx K D) as (s1 & st & m & ok & E & K1 & Eo & R).
  rewrite E. cbn [mbind option_bind]. rewrite <- Eo in Hs. destruct ok.
  - destruct R as (Hnew & en & Ep).
    assert (G : pool_grows (n_pool s) (n_pool s1)).
    { intros k Hk. rewrite Ep. destruct (decide (k = tx_GetHash tx)) as [->|]; [rewrite lookup_insert_eq; by eexists|by rewrite lookup_insert_ne]. }
    set (r := Build_Resolver s1 [tx_GetHash tx] [] ∅ [RelayTransaction tx]).
    destruct (resolve_loop_spec (resolve_fuel (n_orphans s1)) r K1) as (r' & E' & [Rk Ro Rg Rr]).
    { unfold measure, resolve_fuel, pending. cbn [r vWorkQueue r_node length].
      pose proof (map_subseteq_size _ _ (map_filter_subseteq (fun kv : uint256 * COrphanTx => mapTx (n_pool s1) !! kv.1 = None) (mapOrphanTransactions (n_orphans s1)))).
      lia. }
    rewrite E'. cbn [mbind option_bind fst snd]. eexists _, _. split; [reflexivity|].
    destruct (erase_all_spec (vEraseQueue r') _ (nk_orphans _ Rk)) as [Ok' Sub]. split_and!.
    + by apply node_ok_fewer.
    + intros k Hk. by apply Rg, G.
    + apply relays_ok_app; [|intros t; apply answer_no_relay]. apply relays_pooled_ok, Rr. constructor; [|done].
      cbn [r r_node]. rewrite Ep, lookup_insert_eq. by eexists.
    + cbn [set_orphans n_orphans]. rewrite Ro in Sub. cbn [r r_node] in Sub. apply map_subseteq_size in Sub. rewrite Ro. cbn [r r_node]. lia.
  - destruct m; cbn [mbind option_bind fst snd]; (eexists _, _; split; [reflexivity|]).
    + set (o := (AddOrphanTx tx peer (n_orphans s1)).1).
      assert (Ho : orphans_ok o) by apply AddOrphanTx_ok, K1.
      assert (Hso : Z.of_nat (size (mapOrphanTransactions o)) < 2 ^ 32).
      { subst o. unfold AddOrphanTx. case_bool_decide as X; [cbn; lia|]. case_if; cbn [fst mapOrphanTransactions]; [lia|].
        rewrite map_size_insert_None by by apply eq_None_not_Some. lia. }
      rewrite Z.max_r, u32_small by (wunfold; lia).
      destruct (LimitOrphanTxSize_spec rand limit o Ho ltac:(lia) Hso) as (L1 & L2 & L3 & _). split_and!.
      * apply node_ok_orphans; [done|done|]. intros h it Lh. apply (map_subseteq_spec _ _) with (1 := L2) in Lh. subst o. revert Lh.
        unfold AddOrphanTx. case_bool_decide as X; [apply (nk_received _ K1)|]. case_if; cbn [fst mapOrphanTransactions]; [apply (nk_received _ K1)|].
        destruct (decide (h = tx_GetHash tx)) as [->|Hne]; [|rewrite lookup_insert_ne by done; apply (nk_received _ K1)].
        rewrite lookup_insert_eq. by intros <-%Some_inj.
      * cbn [set_orphans n_pool]. rewrite R. by intros k.
      * intros t Hi. rewrite app_nil_l in Hi. by apply answer_no_relay in Hi.
      * cbn [set_orphans n_orphans]. lia.
    + split_and!; [done|rewrite R; by intros k| |done]. apply relays_ok_app; [|intros t; apply answer_no_relay].
      destruct w; [|intros t Hi; by apply not_elem_of_nil in Hi]. intros t Hi. right. split; [done|]. set_solver.
Qed.
End Spec.

(** * The properties *)

Inductive orphan_step : OrphanMaps -> OrphanMaps -> Prop :=
| step_add tx peer o : orphan_step o (AddOrphanTx tx peer o).1
| step_erase hash o : orphan_step o (EraseOrphanTx hash o)
| step_erase_for peer o o' : EraseOrphansFor peer o = Some o' -> orphan_step o o'
| step_limit rand nMax o : 0 <= nMax -> Z.of_nat (size (mapOrphanTransactions o)) < 2 ^ 32 -> orphan_step o (LimitOrphanTxSize rand nMax o).1.

Lemma no_orphans_ok : orphans_ok no_orphans.
Proof.
  split; cbn.
  - intros h it. by rewrite lookup_empty.
  - intros q h. rewrite lookup_empty. cbn [default]. split; [set_solver|]. intros (it & L & _). cbn [mapOrphanTransactions no_orphans] in L. by rewrite lookup_empty in L.
  - intros q. by rewrite lookup_empty.
Qed.

Lemma orphan_step_ok o o' : orphan_step o o' -> orphans_ok o -> orphans_ok o'.
Proof.
  intros [tx peer o1|hash o1|peer o1 o2 E|rand nMax o1 Hm Hs] Ok.
  - by apply AddOrphanTx_ok.
  - by apply EraseOrphanTx_ok.
  - destruct (EraseOrphansFor_spec peer o1 Ok) as (o3 & E' & Ok' & _). rewrite E in E'. by apply Some_inj in E' as <-.
  - by apply LimitOrphanTxSize_spec.
Qed.

(** However orphans are added and erased, one by one, for a peer that leaves, or at
    random to respect the limit, the second map is exact: under a hash it has the orphans
    that spend an output of that transaction, all of them and nothing else, and no empty
    sets.  So going through it never meets an orphan that is gone; erasing the orphans of a
    peer never follows a dead iterator and leaves exactly those of the others; and limiting
    them leaves as many as allowed, all of them old ones, and counts what it evicts. *)
Theorem orphan_maps_agree o : rtc orphan_step no_orphans o ->
  orphans_ok o /\
  (forall peer, exists o', EraseOrphansFor peer o = Some o' /\
     forall k it, mapOrphanTransactions o' !! k = Some it <-> mapOrphanTransactions o !! k = Some it /\ fromPeer it <> peer) /\
  (forall rand nMax, 0 <= nMax -> Z.of_nat (size (mapOrphanTransactions o)) < 2 ^ 32 ->
     let r := LimitOrphanTxSize rand nMax o in
     mapOrphanTransactions r.1 ⊆ mapOrphanTransactions o /\
     Z.of_nat (size (mapOrphanTransactions r.1)) = Z.min nMax (Z.of_nat (size (mapOrphanTransactions o))) /\
     r.2 = Z.of_nat (size (mapOrphanTransactions o)) - Z.of_nat (size (mapOrphanTransactions r.1))).
Proof.
  intros R. assert (Ok : orphans_ok o).
  { refine (rtc_ind_r orphans_ok no_orphans no_orphans_ok _ o R). intros y z _ S Oy. by eapply orphan_step_ok. }
  split; [done|]. split.
  - intros peer. destruct (EraseOrphansFor_spec peer o Ok) as (o' & E & _ & L). exists o'. split; [done|]. intros k it. rewrite L.
    destruct (mapOrphanTransactions o !! k) as [it'|]; [|by split; [|intros [? _]]].
    destruct (Z.eqb_spec (fromPeer it') peer); split; try done; [by intros [[= ->] ?]|by intros [= ->]|by intros [[= ->] _]].
  - intros rand nMax Hm Hs. by destruct (LimitOrphanTxSize_spec rand nMax o Ok Hm Hs) as (_ & ? & ? & ?).
Qed.

(** C11 On a network that asks for standard transactions, the handler of a transaction from
    a peer always ends, also when the transaction lets orphans in that let other orphans
    in: the queue does not run on.  It keeps the memory pool, the orphans and the coins
    consistent and the number of orphans within the limit, the pool loses nothing, and what
    is relayed is in the pool or came from a whitelisted peer. *)
Theorem process_tx_correct {V} `{CCoinsViewReads V} lib ps p decay e maxorphantx rand fWhitelisted peer tx (s : TxNode V) :
  RequireStandard p = true -> 0 <= MaxMoneyOut ps < MAX_AMOUNT -> node_ok e s -> dom c_transaction tx -> 0 <= maxorphantx < 2 ^ 31 ->
  Z.of_nat (size (mapOrphanTransactions (n_orphans s))) <= maxorphantx ->
  exists s' out, process_tx lib ps p decay e maxorphantx rand fWhitelisted peer tx s = Some (s', out) /\ node_ok e s' /\
    pool_grows (n_pool s) (n_pool s') /\ relays_ok fWhitelisted tx (n_pool s') out /\
    Z.of_nat (size (mapOrphanTransactions (n_orphans s'))) <= maxorphantx.
Proof. intros Hstd Hm K D Hl Hs. by apply process_tx_spec. Qed.

(** ** An orphan and its parent *)

(** Pays to the hash of the script [OP_1], which anyone can satisfy. *)
Definition open_script : CScript := GetScriptForDestination (CScriptID (Hash160 [OP_1])).
Definition open_sig : CScript := [1; OP_1].

Definition open_coins : CCoins := {|
  fCoinBase := false; fCoinStake := false; c_vout := [{| nValue := 10 * COIN; scriptPubKey := open_script |}]; c_nHeight := 50; c_nVersion := 1 |}.

Definition open_tip : CCoinsViewCache toy_db := coins_cache (u256 5) open_coins (u256 9).

Definition open_spend (hash : uint256) (v : Z) : CTransaction := {|
  tx_nVersion := 1; vin := [{| prevout := {| out_hash := hash; out_n := 0 |}; scriptSig := open_sig; nSequence := UINT32_MAX |}];
  vout := [{| nValue := v; scriptPubKey := open_script |}]; nLockTime := 0 |}.

Definition parent_tx : CTransaction := open_spend (u256 5) (9 * COIN).
Definition child_tx : CTransaction := open_spend (tx_GetHash parent_tx) (8 * COIN).

Definition example_node : TxNode toy_db := Build_TxNode no_orphans (new_pool 10000) open_tip idle_limiter.
Definition example_process (peer : Z) (tx : CTransaction) (s : TxNode toy_db) : option (TxNode toy_db * list peer_effect) :=
  process_tx toy_keys mainParams (relay_policy true) (fun _ => double_zero) example_surroundings 100 u256 false peer tx s.

(** The child comes first and is kept; with its parent both are relayed. *)
Example orphan_resolved :
  (r1 ← example_process 3 child_tx example_node;
   r2 ← example_process 4 parent_tx r1.1;
   Some (r1.2, r2.2, size (mapOrphanTransactions (n_orphans r1.1)), size (mapOrphanTransactions (n_orphans r2.1)))) =
  Some ([], [RelayTransaction parent_tx; RelayTransaction child_tx], 1%nat, 0%nat).
Proof. vm_compute. reflexivity. Qed.

Lemma orphan_maps_agree_witness :
  let o := (AddOrphanTx parent_tx 3 no_orphans).1 in
  rtc orphan_step no_orphans o /\ orphans_ok o /\
  (forall peer, exists o', EraseOrphansFor peer o = Some o' /\
     forall k it, mapOrphanTransactions o' !! k = Some it <-> mapOrphanTransactions o !! k = Some it /\ fromPeer it <> peer) /\
  (forall rand nMax, 0 <= nMax -> Z.of_nat (size (mapOrphanTransactions o)) < 2 ^ 32 ->
     let r := LimitOrphanTxSize rand nMax o in
     mapOrphanTransactions r.1 ⊆ mapOrphanTransactions o /\
     Z.of_nat (size (mapOrphanTransactions r.1)) = Z.min nMax (Z.of_nat (size (mapOrphanTransactions o))) /\
     r.2 = Z.of_nat (size (mapOrphanTransactions o)) - Z.of_nat (size (mapOrphanTransactions r.1))).
Proof.
  intros o. assert (R : rtc orphan_step no_orphans o) by (apply rtc_once, step_add). split; [exact R|].
  exact (orphan_maps_agree o R).
Defined.

Lemma open_coins_wf : wf_coins open_coins.
Proof.
  split; [|vm_compute; reflexivity|vm_compute; reflexivity|vm_compute; split; congruence..].
  constructor; [|constructor]. split; [vm_compute; split; congruence|]. split; [|vm_compute; reflexivity].
  apply Forall_forall. intros x Hx. apply list_elem_of_In in Hx. vm_compute in Hx. wunfold. intuition lia.
Qed.

Lemma open_tip_inv : cache_inv open_tip.
Proof. apply coins_cache_inv; [apply wf_u256; wunfold; lia|exact open_coins_wf]. Qed.

Lemma example_node_ok : node_ok example_surroundings example_node.
Proof.
  split; cbn [example_node n_orphans n_pool n_tip].
  - exact no_orphans_ok.
  - intros h it L. cbn [mapOrphanTransactions no_orphans] in L. by rewrite lookup_empty in L.
  - apply new_pool_ok.
  - intros k tx El. unfold lookup_tx in El. cbn [mapTx new_pool] in El. by rewrite lookup_empty in El.
  - exact open_tip_inv.
  - vm_compute. congruence.
  - by eexists.
Qed.

Lemma open_script_bytes : is_bytes open_script.
Proof. apply Forall_forall. intros x Hx. apply list_elem_of_In in Hx. vm_compute in Hx. wunfold. intuition lia. Qed.

Lemma parent_tx_received : dom c_transaction parent_tx.
Proof.
  refine (conj (conj (conj _ (conj _ _)) (conj _ _)) _).
  - vm_compute. split; congruence.
  - vm_compute. congruence.
  - constructor; [|constructor]. refine (conj (conj (conj _ _) (conj _ _)) _).
    + apply wf_u256. wunfold. lia.
    + vm_compute. split; congruence.
    + repeat constructor; vm_compute; congruence.
    + vm_compute. congruence.
    + vm_compute. split; congruence.
  - vm_compute. congruence.
  - constructor; [|constructor]. refine (conj _ (conj open_script_bytes _)); [vm_compute; split; congruence|vm_compute; congruence].
  - vm_compute. split; congruence.
Qed.

Lemma process_tx_correct_witness :
  RequireStandard (relay_policy true) = true /\ node_ok example_surroundings example_node /\ dom c_transaction parent_tx /\
  exists s' out, example_process 4 parent_tx example_node = Some (s', out) /\ node_ok example_surroundings s' /\
    pool_grows (n_pool example_node) (n_pool s') /\ relays_ok false parent_tx (n_pool s') out /\
    Z.of_nat (size (mapOrphanTransactions (n_orphans s'))) <= 100.
Proof.
  split; [reflexivity|]. split; [exact example_node_ok|]. split; [exact parent_tx_received|].
  assert (Hm : 0 <= MaxMoneyOut mainParams < MAX_AMOUNT) by (split; vm_compute; congruence).
  assert (Hl : 0 <= 100 < 2 ^ 31) by lia.
  assert (Hs : Z.of_nat (size (mapOrphanTransactions (n_orphans example_node))) <= 100) by (vm_compute; congruence).
  exact (process_tx_correct toy_keys mainParams (relay_policy true) (fun _ => double_zero) example_surroundings 100 u256 false 4 parent_tx
           example_node eq_refl Hm example_node_ok parent_tx_received Hl Hs).
Defined.
