(* ===== verification/Download.v ===== *)
(** What the node keeps about its peers, and the download of blocks from them (main.cpp):
    [CNodeState], the blocks in flight, and [FindNextBlocksToDownload].

    A [list] of the code has nodes that do not move: here each has an address, and an
    iterator is the address.  Blocks and the active chain are those of Chain.v.  [None]
    is a failed assertion or a null or dead pointer that is followed.  Names, addresses
    and the messages that wait for a peer are left out. *)

From stdpp Require Import gmap sorting.
From S2P Require Import Prelude Uint256 Arith256 Params BestChain Mempool Orphans Chain.

Local Open Scope Z_scope.
#[local] Abbreviation length := Datatypes.length.

(** * State *)

Definition MAX_BLOCKS_IN_TRANSIT_PER_PEER : Z := 16.
Definition BLOCK_STALLING_TIMEOUT : Z := 2.
Definition BLOCK_DOWNLOAD_WINDOW : Z := 1024.

Abbreviation NodeId := Z (only parsing).

Record QueuedBlock := {
  q_hash : uint256;
  q_pindex : option ptr;
  q_nTime : Z;
  nValidatedQueuedBefore : Z;
  fValidatedHeaders : bool
}.

Record CNodeState := {
  fCurrentlyConnected : bool;
  nMisbehavior : Z;
  fShouldBan : bool;
  pindexBestKnownBlock : option ptr;
  hashLastUnknownBlock : uint256;
  pindexLastCommonBlock : option ptr;
  fSyncStarted : bool;
  nStallingSince : Z;
  vBlocksInFlight : list (Z * QueuedBlock);
  nBlocksInFlight : Z;
  fPreferredDownload : bool
}.

(** The constructor. *)
Definition new_node_state : CNodeState := {|
  fCurrentlyConnected := false; nMisbehavior := 0; fShouldBan := false; pindexBestKnownBlock := None;
  hashLastUnknownBlock := zero W256; pindexLastCommonBlock := None; fSyncStarted := false; nStallingSince := 0;
  vBlocksInFlight := []; nBlocksInFlight := 0; fPreferredDownload := false |}.

Definition set_flags (connected shouldBan sync preferred : bool) (misbehavior : Z) (n : CNodeState) : CNodeState := {|
  fCurrentlyConnected := connected; nMisbehavior := misbehavior; fShouldBan := shouldBan; pindexBestKnownBlock := pindexBestKnownBlock n;
  hashLastUnknownBlock := hashLastUnknownBlock n; pindexLastCommonBlock := pindexLastCommonBlock n; fSyncStarted := sync;
  nStallingSince := nStallingSince n; vBlocksInFlight := vBlocksInFlight n; nBlocksInFlight := nBlocksInFlight n; fPreferredDownload := preferred |}.

Definition set_known (best : option ptr) (unknown : uint256) (common : option ptr) (n : CNodeState) : CNodeState := {|
  fCurrentlyConnected := fCurrentlyConnected n; nMisbehavior := nMisbehavior n; fShouldBan := fShouldBan n; pindexBestKnownBlock := best;
  hashLastUnknownBlock := unknown; pindexLastCommonBlock := common; fSyncStarted := fSyncStarted n;
  nStallingSince := nStallingSince n; vBlocksInFlight := vBlocksInFlight n; nBlocksInFlight := nBlocksInFlight n; fPreferredDownload := fPreferredDownload n |}.

Definition set_flight (stalling : Z) (v : list (Z * QueuedBlock)) (count : Z) (n : CNodeState) : CNodeState := {|
  fCurrentlyConnected := fCurrentlyConnected n; nMisbehavior := nMisbehavior n; fShouldBan := fShouldBan n; pindexBestKnownBlock := pindexBestKnownBlock n;
  hashLastUnknownBlock := hashLastUnknownBlock n; pindexLastCommonBlock := pindexLastCommonBlock n; fSyncStarted := fSyncStarted n;
  nStallingSince := stalling; vBlocksInFlight := v; nBlocksInFlight := count; fPreferredDownload := fPreferredDownload n |}.

(** The variables of main.cpp; [next_address] is where the next list node will be. *)
Record Peers := {
  mapNodeState : gmap NodeId CNodeState;
  mapBlocksInFlight : gmap uint256 (NodeId * Z);
  nQueuedValidatedHeaders : Z;
  nPreferredDownload : Z;
  nSyncStarted : Z;
  orphans : OrphanMaps;
  next_address : Z
}.

Definition set_nodes (m : gmap NodeId CNodeState) (s : Peers) : Peers := {|
  mapNodeState := m; mapBlocksInFlight := mapBlocksInFlight s; nQueuedValidatedHeaders := nQueuedValidatedHeaders s;
  nPreferredDownload := nPreferredDownload s; nSyncStarted := nSyncStarted s; orphans := orphans s; next_address := next_address s |}.

Definition no_peers : Peers := {|
  mapNodeState := ∅; mapBlocksInFlight := ∅; nQueuedValidatedHeaders := 0; nPreferredDownload := 0; nSyncStarted := 0;
  orphans := no_orphans; next_address := 0 |}.

(** [State]. *)
Definition State (s : Peers) (pnode : NodeId) : option CNodeState := mapNodeState s !! pnode.

(** A change of a peer's state. *)
Definition update_state (pnode : NodeId) (f : CNodeState -> CNodeState) (s : Peers) : option Peers :=
  n ← State s pnode; Some (set_nodes (<[pnode := f n]> (mapNodeState s)) s).

(** * Peers that come and go *)

(** What [UpdatePreferredDownload] and [SendMessages] look at in a [CNode]. *)
Record CNode := { fInbound : bool; fWhitelisted : bool; fOneShot : bool; fClient : bool }.

Definition UpdatePreferredDownload (node : CNode) (pnode : NodeId) (s : Peers) : option Peers :=
  n ← State s pnode;
  let preferred := (negb (fInbound node) || fWhitelisted node) && negb (fOneShot node) && negb (fClient node) in
  Some {| mapNodeState := <[pnode := set_flags (fCurrentlyConnected n) (fShouldBan n) (fSyncStarted n) preferred (nMisbehavior n) n]> (mapNodeState s);
          mapBlocksInFlight := mapBlocksInFlight s; nQueuedValidatedHeaders := nQueuedValidatedHeaders s;
          nPreferredDownload := nPreferredDownload s - Z.b2z (fPreferredDownload n) + Z.b2z preferred;
          nSyncStarted := nSyncStarted s; orphans := orphans s; next_address := next_address s |}.

(** [insert] leaves a state that is there alone. *)
Definition InitializeNode (nodeid : NodeId) (s : Peers) : Peers :=
  match State s nodeid with
  | Some _ => s
  | None => set_nodes (<[nodeid := new_node_state]> (mapNodeState s)) s
  end.

Definition FinalizeNode (nodeid : NodeId) (s : Peers) : option Peers :=
  state ← State s nodeid;
  orphans' ← EraseOrphansFor nodeid (orphans s);
  Some {| mapNodeState := delete nodeid (mapNodeState s);
          mapBlocksInFlight := foldl (fun m (entry : Z * QueuedBlock) => delete (q_hash entry.2) m) (mapBlocksInFlight s) (vBlocksInFlight state);
          nQueuedValidatedHeaders := nQueuedValidatedHeaders s;
          nPreferredDownload := nPreferredDownload s - Z.b2z (fPreferredDownload state);
          nSyncStarted := nSyncStarted s - Z.b2z (fSyncStarted state);
          orphans := orphans'; next_address := next_address s |}.

(** [Misbehaving], with the argument -banscore. *)
Definition Misbehaving (banscore : Z) (pnode : NodeId) (howmuch : Z) (s : Peers) : Peers :=
  if howmuch =? 0 then s
  else
    match State s pnode with
    | None => s
    | Some n =>
        let m := nMisbehavior n + howmuch in
        let ban := (banscore <=? m) && (m - howmuch <? banscore) in
        set_nodes (<[pnode := set_flags (fCurrentlyConnected n) (ban || fShouldBan n) (fSyncStarted n) (fPreferredDownload n) m n]> (mapNodeState s)) s
    end.

(** [fCurrentlyConnected], set by the message verack of a node of the network. *)
Definition connected_node (fNetworkNode : bool) (pnode : NodeId) (s : Peers) : option Peers :=
  if fNetworkNode then update_state pnode (fun n => set_flags true (fShouldBan n) (fSyncStarted n) (fPreferredDownload n) (nMisbehavior n) n) s else Some s.

(** The ban of a node that should be banned, in [SendMessages]: whether it is banned or
    disconnected ([fWhitelisted] nodes and nodes of the own machine are not banned). *)
Definition handle_ban (fWhitelisted IsLocal : bool) (pnode : NodeId) (s : Peers) : option (Peers * (bool * bool)) :=
  n ← State s pnode;
  if fShouldBan n then
    s ← update_state pnode (fun n => set_flags (fCurrentlyConnected n) false (fSyncStarted n) (fPreferredDownload n) (nMisbehavior n) n) s;
    Some (s, (negb fWhitelisted && negb IsLocal, negb fWhitelisted))
  else Some (s, (false, false)).

(** * Blocks in flight *)

(** Following an iterator into the list of a peer. *)
Definition flight_entry (it : Z) (v : list (Z * QueuedBlock)) : option QueuedBlock :=
  snd <$> find (fun e => e.1 =? it) v.

Definition erase_entry (it : Z) (v : list (Z * QueuedBlock)) : list (Z * QueuedBlock) := filter (fun e => e.1 <> it) v.

Definition MarkBlockAsReceived (hash : uint256) (s : Peers) : option Peers :=
  match mapBlocksInFlight s !! hash with
  | None => Some s
  | Some (pnode, it) =>
      state ← State s pnode;
      entry ← flight_entry it (vBlocksInFlight state);
      Some {| mapNodeState := <[pnode := set_flight 0 (erase_entry it (vBlocksInFlight state)) (nBlocksInFlight state - 1) state]> (mapNodeState s);
              mapBlocksInFlight := delete hash (mapBlocksInFlight s);
              nQueuedValidatedHeaders := nQueuedValidatedHeaders s - Z.b2z (fValidatedHeaders entry);
              nPreferredDownload := nPreferredDownload s; nSyncStarted := nSyncStarted s; orphans := orphans s; next_address := next_address s |}
  end.

(** [nNow] is [GetTimeMicros()]. *)
Definition MarkBlockAsInFlight (nNow : Z) (nodeid : NodeId) (hash : uint256) (pindex : option ptr) (s : Peers) : option Peers :=
  _ ← State s nodeid;
  s ← MarkBlockAsReceived hash s;
  state ← State s nodeid;
  let newentry := {| q_hash := hash; q_pindex := pindex; q_nTime := nNow; nValidatedQueuedBefore := nQueuedValidatedHeaders s;
                     fValidatedHeaders := match pindex with Some _ => true | None => false end |} in
  let it := next_address s in
  Some {| mapNodeState := <[nodeid := set_flight (nStallingSince state) (vBlocksInFlight state ++ [(it, newentry)]) (nBlocksInFlight state + 1) state]> (mapNodeState s);
          mapBlocksInFlight := <[hash := (nodeid, it)]> (mapBlocksInFlight s);
          nQueuedValidatedHeaders := nQueuedValidatedHeaders s + Z.b2z (fValidatedHeaders newentry);
          nPreferredDownload := nPreferredDownload s; nSyncStarted := nSyncStarted s; orphans := orphans s; next_address := it + 1 |}.

(** * What peers have *)

Section Index.
Context (st : store) (chainActive : chain) (mapBlockIndex : gmap uint256 ptr).

(** [a >= b] on the work of two entries. *)
Definition work_ge (a b : ptr) : bool := ge (nChainWork (deref st a)) (nChainWork (deref st b)).

(** The block with the hash, when it is known with its work. *)
Definition known_block (hash : uint256) : option ptr :=
  p ← mapBlockIndex !! hash;
  if gt (nChainWork (deref st p)) (zero W256) then Some p else None.

(** The better of the best known block and one announced. *)
Definition better_known (best : option ptr) (p : ptr) : option ptr :=
  match best with
  | None => Some p
  | Some b => if work_ge p b then Some p else best
  end.

Definition availability (n : CNodeState) : CNodeState :=
  if negb (bool_decide (hashLastUnknownBlock n = zero W256)) then
    match known_block (hashLastUnknownBlock n) with
    | Some p => set_known (better_known (pindexBestKnownBlock n) p) (zero W256) (pindexLastCommonBlock n) n
    | None => n
    end
  else n.

Definition ProcessBlockAvailability (nodeid : NodeId) (s : Peers) : option Peers := update_state nodeid availability s.

Definition UpdateBlockAvailability (nodeid : NodeId) (hash : uint256) (s : Peers) : option Peers :=
  s ← ProcessBlockAvailability nodeid s;
  update_state nodeid (fun n =>
    match known_block hash with
    | Some p => set_known (better_known (pindexBestKnownBlock n) p) (hashLastUnknownBlock n) (pindexLastCommonBlock n) n
    | None => set_known (pindexBestKnownBlock n) hash (pindexLastCommonBlock n) n
    end) s.

(** * The choice of blocks to ask for *)

(** [vToFetch]: the block and [n - 1] blocks before it, in the order of their heights. *)
Fixpoint fetch_list (n : nat) (p : ptr) (acc : list ptr) : option (list ptr) :=
  match n with
  | O => Some acc
  | S O => Some (p :: acc)
  | S n => q ← pprev_of st p; fetch_list n q (p :: acc)
  end.

(** The variables of the loops: [pindexLastCommonBlock], [vBlocks], [waitingfor] and
    [nodeStaller]. *)
Record Search := { s_common : ptr; vBlocks : list ptr; waitingfor : NodeId; nodeStaller : NodeId }.

(** The inner loop; [true] when the function returns in it. *)
Fixpoint visit (flight : gmap uint256 (NodeId * Z)) (nodeid : NodeId) (count nWindowEnd : Z) (vToFetch : list ptr) (r : Search) : Search * bool :=
  match vToFetch with
  | [] => (r, false)
  | pindex :: vToFetch =>
      let b := deref st pindex in
      if negb (IsValid (nStatus b) BLOCK_VALID_TREE) then (r, true)
      else if nonzero (Z.land (nStatus b) BLOCK_HAVE_DATA) then
        visit flight nodeid count nWindowEnd vToFetch
          (if nonzero (nChainTx b) then Build_Search pindex (vBlocks r) (waitingfor r) (nodeStaller r) else r)
      else
        match flight !! phashBlock b with
        | None =>
            if nWindowEnd <? nHeight b then
              (if (length (vBlocks r) =? 0)%nat && negb (waitingfor r =? nodeid)
               then Build_Search (s_common r) (vBlocks r) (waitingfor r) (waitingfor r) else r, true)
            else
              let r := Build_Search (s_common r) (vBlocks r ++ [pindex]) (waitingfor r) (nodeStaller r) in
              if Z.of_nat (length (vBlocks r)) =? count then (r, true)
              else visit flight nodeid count nWindowEnd vToFetch r
        | Some (other, _) =>
            visit flight nodeid count nWindowEnd vToFetch
              (if waitingfor r =? -1 then Build_Search (s_common r) (vBlocks r) other (nodeStaller r) else r)
        end
  end.

(** The outer loop. *)
Fixpoint search_loop (fuel : nat) (flight : gmap uint256 (NodeId * Z)) (nodeid : NodeId) (count nWindowEnd nMaxHeight : Z) (best pindexWalk : ptr) (r : Search)
    : option Search :=
  if height_of st pindexWalk <? nMaxHeight then
    match fuel with
    | O => None
    | S fuel =>
        let nToFetch := Z.min (nMaxHeight - height_of st pindexWalk) (Z.max (s32 (count - Z.of_nat (length (vBlocks r)))) 128) in
        pindexWalk ← GetAncestor st best (height_of st pindexWalk + nToFetch);
        vToFetch ← fetch_list (Z.to_nat nToFetch) pindexWalk [];
        let '(r, done) := visit flight nodeid count nWindowEnd vToFetch r in
        if done : bool then Some r else search_loop fuel flight nodeid count nWindowEnd nMaxHeight best pindexWalk r
    end
  else Some r.

(** [FindNextBlocksToDownload] into an empty [vBlocks], with [nodeStaller] -1 before: the
    blocks and the staller. *)
Definition FindNextBlocksToDownload (nodeid : NodeId) (count : Z) (s : Peers) : option (Peers * list ptr * NodeId) :=
  if count =? 0 then Some (s, [], -1)
  else
    s ← ProcessBlockAvailability nodeid s;
    state ← State s nodeid;
    match pindexBestKnownBlock state with
    | None => Some (s, [], -1)
    | Some best =>
        tip ← Tip chainActive;
        if lt (nChainWork (deref st best)) (nChainWork (deref st tip)) then Some (s, [], -1)
        else
          common ← match pindexLastCommonBlock state with
                   | Some c => Some c
                   | None => chain_at chainActive (Z.min (height_of st best) (Height chainActive))
                   end;
          common ← LastCommonAncestor st common best;
          let put c := set_nodes (<[nodeid := set_known (Some best) (hashLastUnknownBlock state) (Some c) state]> (mapNodeState s)) s in
          if (common =? best)%nat then Some (put common, [], -1)
          else
            let nWindowEnd := height_of st common + BLOCK_DOWNLOAD_WINDOW in
            let nMaxHeight := Z.min (height_of st best) (nWindowEnd + 1) in
            r ← search_loop (Z.to_nat (nMaxHeight - height_of st common)) (mapBlocksInFlight s) nodeid count nWindowEnd nMaxHeight best common
                  (Build_Search common [] (-1) (-1));
            Some (put (s_common r), vBlocks r, nodeStaller r)
    end.

(** * Asking for blocks

    The parts of [SendMessages] about blocks; [nNow] is in microseconds. *)

(** The node stalls the download window, or has had a block in flight for too long. *)
Definition stalling (nNow : Z) (n : CNodeState) : bool :=
  nonzero (nStallingSince n) && (nStallingSince n <? nNow - 1000000 * BLOCK_STALLING_TIMEOUT).

Definition timed_out (ps : CChainParams) (nNow : Z) (n : CNodeState) : bool :=
  match vBlocksInFlight n with
  | [] => false
  | (_, front) :: _ => q_nTime front <? nNow - 500000 * TargetSpacing ps * (4 + nValidatedQueuedBefore front)
  end.

Definition fFetch (pto : CNode) (n : CNodeState) (s : Peers) : bool :=
  fPreferredDownload n || ((nPreferredDownload s =? 0) && negb (fClient pto) && negb (fOneShot pto)).

(** Whether the peer is asked to start the synchronization; the arguments are the time of
    the best header and [GetAdjustedTime()]. *)
Definition start_sync (pto : CNode) (fReindex : bool) (best_header_time adjusted_time : Z) (nodeid : NodeId) (s : Peers) : option (Peers * bool) :=
  n ← State s nodeid;
  if negb (fSyncStarted n) && negb (fClient pto) && fFetch pto n s && negb fReindex
     && ((nSyncStarted s =? 0) || (adjusted_time - 6 * 60 * 60 <? best_header_time)) then
    Some ({| mapNodeState := <[nodeid := set_flags (fCurrentlyConnected n) (fShouldBan n) true (fPreferredDownload n) (nMisbehavior n) n]> (mapNodeState s);
             mapBlocksInFlight := mapBlocksInFlight s; nQueuedValidatedHeaders := nQueuedValidatedHeaders s;
             nPreferredDownload := nPreferredDownload s; nSyncStarted := nSyncStarted s + 1; orphans := orphans s; next_address := next_address s |}, true)
  else Some (s, false).

Fixpoint mark_all (nNow : Z) (nodeid : NodeId) (vToDownload : list ptr) (s : Peers) : option Peers :=
  match vToDownload with
  | [] => Some s
  | pindex :: vToDownload => s ← MarkBlockAsInFlight nNow nodeid (phashBlock (deref st pindex)) (Some pindex) s; mark_all nNow nodeid vToDownload s
  end.

(** The blocks asked for; [fetch] is [fFetch] of before, and [fDisconnect] was not set. *)
Definition request_blocks (pto : CNode) (fetch : bool) (nNow : Z) (nodeid : NodeId) (s : Peers) : option (Peers * list ptr) :=
  n ← State s nodeid;
  if negb (fClient pto) && fetch && (nBlocksInFlight n <? MAX_BLOCKS_IN_TRANSIT_PER_PEER) then
    r ← FindNextBlocksToDownload nodeid (MAX_BLOCKS_IN_TRANSIT_PER_PEER - nBlocksInFlight n) s;
    let '(s, vToDownload, staller) := r in
    s ← mark_all nNow nodeid vToDownload s;
    n ← State s nodeid;
    if (nBlocksInFlight n =? 0) && negb (staller =? -1) then
      ns ← State s staller;
      Some (if nStallingSince ns =? 0
            then set_nodes (<[staller := set_flight nNow (vBlocksInFlight ns) (nBlocksInFlight ns) ns]> (mapNodeState s)) s else s, vToDownload)
    else Some (s, vToDownload)
  else Some (s, []).

(** [GetNodeStateStats]: the score, the heights of the best and the common block, and those
    of the blocks in flight. *)
Definition GetNodeStateStats (nodeid : NodeId) (s : Peers) : option (Z * Z * Z * list Z) :=
  n ← State s nodeid;
  let height p := match p with Some q => height_of st q | None => -1 end in
  Some (nMisbehavior n, height (pindexBestKnownBlock n), height (pindexLastCommonBlock n),
        omap (fun e : Z * QueuedBlock => height_of st <$> q_pindex e.2) (vBlocksInFlight n)).
End Index.

(** * The maps agree *)

Definition validated (n : CNodeState) : Z := zsum (map (fun e : Z * QueuedBlock => Z.b2z (fValidatedHeaders e.2)) (vBlocksInFlight n)).

(** A peer has the entry in its list. *)
Definition in_flight (s : Peers) (n : NodeId) (it : Z) (q : QueuedBlock) : Prop :=
  exists state, State s n = Some state /\ (it, q) ∈ vBlocksInFlight state.

Record peers_ok (s : Peers) : Prop := {
  pk_map h n it : mapBlocksInFlight s !! h = Some (n, it) <-> exists q, in_flight s n it q /\ q_hash q = h;
  pk_nodup n state : State s n = Some state -> NoDup (vBlocksInFlight state).*1;
  pk_fresh n it q : in_flight s n it q -> it < next_address s;
  pk_count n state : State s n = Some state -> nBlocksInFlight state = Z.of_nat (length (vBlocksInFlight state));
  pk_preferred : nPreferredDownload s = map_sum (fun n => Z.b2z (fPreferredDownload n)) (mapNodeState s);
  pk_sync : nSyncStarted s = map_sum (fun n => Z.b2z (fSyncStarted n)) (mapNodeState s);
  pk_validated : map_sum validated (mapNodeState s) <= nQueuedValidatedHeaders s;
  pk_orphans : orphans_ok (orphans s)
}.

Lemma map_sum_replace {K A} `{Countable K} (f : A -> Z) (m : gmap K A) k a b :
  m !! k = Some a -> map_sum f (<[k := b]> m) = map_sum f m - f a + f b.
Proof.
  intros L. rewrite <- insert_delete_eq, map_sum_insert by apply lookup_delete_eq. rewrite (map_sum_delete f m k a L). lia.
Qed.

(** A block is in flight once. *)
Lemma flight_unique s h n n' it it' q q' : peers_ok s -> in_flight s n it q -> in_flight s n' it' q' -> q_hash q = h -> q_hash q' = h ->
  n' = n /\ it' = it /\ q' = q.
Proof.
  intros K F F' E E'. assert (M : mapBlocksInFlight s !! h = Some (n, it)) by (apply (pk_map _ K); eauto).
  assert (M' : mapBlocksInFlight s !! h = Some (n', it')) by (apply (pk_map _ K); eauto). rewrite M in M'. injection M' as <- <-.
  split; [done|]. split; [done|]. destruct F as (state & S & I), F' as (state' & S' & I'). rewrite S in S'. apply Some_inj in S' as <-.
  pose proof (pk_nodup _ K n state S) as N. apply list_elem_of_lookup_1 in I as [i I]. apply list_elem_of_lookup_1 in I' as [j I'].
  assert (i = j) as <-; [|by rewrite I in I'; injection I'].
  eapply NoDup_lookup; [exact N|rewrite list_lookup_fmap, I; reflexivity|by rewrite list_lookup_fmap, I'].
Qed.

Lemma flight_entry_in it q v : NoDup v.*1 -> (it, q) ∈ v -> flight_entry it v = Some q.
Proof.
  intros N I. unfold flight_entry. induction v as [|[it' q'] v IH]; [by apply not_elem_of_nil in I|].
  cbn [fmap list_fmap fst] in N. apply NoDup_cons in N as [N1 N]. cbn [find fst]. destruct (Z.eqb_spec it' it) as [->|Hne].
  - apply elem_of_cons in I as [[= ->]|I]; [done|]. destruct N1. apply list_elem_of_fmap. by exists (it, q).
  - apply elem_of_cons in I as [[= ? ?]|I]; [congruence|]. by apply IH.
Qed.

Lemma erase_entry_in it v e : e ∈ erase_entry it v <-> e ∈ v /\ e.1 <> it.
Proof. unfold erase_entry. rewrite list_elem_of_filter. tauto. Qed.

Lemma erase_entry_NoDup it v : NoDup v.*1 -> NoDup (erase_entry it v).*1.
Proof.
  unfold erase_entry. induction v as [|e v IH]; [done|]. cbn [fmap list_fmap]. intros [N1 N]%NoDup_cons.
  rewrite filter_cons. case_decide; [|by apply IH]. cbn [fmap list_fmap]. apply NoDup_cons. split; [|by apply IH].
  intros (e' & E & I)%list_elem_of_fmap. apply list_elem_of_filter in I as [_ I]. apply N1, list_elem_of_fmap. by exists e'.
Qed.

Lemma erase_entry_absent it v : it ∉ v.*1 -> erase_entry it v = v.
Proof.
  intros N. unfold erase_entry. induction v as [|e v IH]; [done|]. cbn [fmap list_fmap] in N. apply not_elem_of_cons in N as [N1 N].
  rewrite filter_cons, decide_True by congruence. by rewrite IH.
Qed.

(** Erasing an entry that is there. *)
Lemma erase_entry_split it q v : NoDup v.*1 -> (it, q) ∈ v -> exists a b, v = a ++ (it, q) :: b /\ erase_entry it v = a ++ b.
Proof.
  intros N I. apply list_elem_of_split in I as (a & b & ->). exists a, b. split; [done|].
  rewrite fmap_app in N. cbn [fmap list_fmap fst] in N. apply NoDup_app in N as (N1 & N2 & N3). apply NoDup_cons in N3 as [N3 _].
  unfold erase_entry. rewrite filter_app, filter_cons, decide_False by (cbn; congruence).
  pose proof (erase_entry_absent it a) as Ea. pose proof (erase_entry_absent it b) as Eb. unfold erase_entry in Ea, Eb.
  rewrite Ea, Eb; [done|done|]. intros Ha. apply (N2 it Ha). by left.
Qed.

(** Changing a peer's state other than its blocks in flight. *)
Lemma peers_ok_update s n state state' s' : peers_ok s -> State s n = Some state ->
  mapNodeState s' = <[n := state']> (mapNodeState s) ->
  vBlocksInFlight state' = vBlocksInFlight state -> nBlocksInFlight state' = nBlocksInFlight state -> mapBlocksInFlight s' = mapBlocksInFlight s ->
  nQueuedValidatedHeaders s' = nQueuedValidatedHeaders s -> orphans_ok (orphans s') -> next_address s' = next_address s ->
  nPreferredDownload s' = nPreferredDownload s - Z.b2z (fPreferredDownload state) + Z.b2z (fPreferredDownload state') ->
  nSyncStarted s' = nSyncStarted s - Z.b2z (fSyncStarted state) + Z.b2z (fSyncStarted state') -> peers_ok s'.
Proof.
  intros K S Em Ev Ec Eb Eq Eo Ea Ep Es. pose proof K as [Km Kn Kf Kc Kp Ks Kv Ko].
  assert (L : forall k x, State s' k = Some x -> exists y, State s k = Some y /\ vBlocksInFlight x = vBlocksInFlight y /\ nBlocksInFlight x = nBlocksInFlight y).
  { intros k x. unfold State in *. rewrite Em. destruct (decide (k = n)) as [->|]; [|rewrite lookup_insert_ne by done; by exists x].
    rewrite lookup_insert_eq. intros <-%Some_inj. by exists state. }
  assert (F : forall k it q, in_flight s' k it q <-> in_flight s k it q).
  { intros k it q. unfold in_flight. split.
    - intros (x & Sx & I). destruct (L k x Sx) as (y & Sy & E & _). exists y. by rewrite <- E.
    - intros (y & Sy & I). unfold State in *. rewrite Em. destruct (decide (k = n)) as [->|Hne].
      + exists state'. rewrite lookup_insert_eq, Ev. rewrite S in Sy. by apply Some_inj in Sy as ->.
      + exists y. by rewrite lookup_insert_ne. }
  split.
  - intros h k it. rewrite Eb, Km. by setoid_rewrite F.
  - intros k x Sx. destruct (L k x Sx) as (y & Sy & -> & _). by apply (Kn k).
  - intros k it q. rewrite F, Ea. apply Kf.
  - intros k x Sx. destruct (L k x Sx) as (y & Sy & -> & ->). by apply (Kc k).
  - rewrite Ep, Em, (map_sum_replace _ _ _ state) by done. lia.
  - rewrite Es, Em, (map_sum_replace _ _ _ state) by done. lia.
  - rewrite Eq, Em, (map_sum_replace _ _ _ state) by done. unfold validated at 2 3. rewrite Ev. lia.
  - done.
Qed.

(** The entries after one peer's list has become [v]. *)
Definition relisted (s : Peers) (p : NodeId) (v : list (Z * QueuedBlock)) (n : NodeId) (it : Z) (q : QueuedBlock) : Prop :=
  n = p /\ (it, q) ∈ v \/ n <> p /\ in_flight s n it q.

Abbreviation count_validated v := (zsum (map (fun e : Z * QueuedBlock => Z.b2z (fValidatedHeaders e.2)) v)).

(** Changing the blocks in flight of one peer. *)
Lemma peers_ok_relist s p state stall v s' : peers_ok s -> State s p = Some state ->
  mapNodeState s' = <[p := set_flight stall v (Z.of_nat (length v)) state]> (mapNodeState s) ->
  (forall h n it, mapBlocksInFlight s' !! h = Some (n, it) <-> exists q, relisted s p v n it q /\ q_hash q = h) ->
  NoDup v.*1 -> (forall n it q, relisted s p v n it q -> it < next_address s') ->
  nQueuedValidatedHeaders s' - nQueuedValidatedHeaders s = count_validated v - validated state ->
  orphans s' = orphans s -> nPreferredDownload s' = nPreferredDownload s -> nSyncStarted s' = nSyncStarted s -> peers_ok s'.
Proof.
  intros [Km Kn Kf Kc Kp Ks Kv Ko] S Em Hmap Hn Hf Hq Eo Ep Es. set (state' := set_flight stall v (Z.of_nat (length v)) state) in *.
  assert (Hs : State s' p = Some state') by (unfold State; rewrite Em; apply lookup_insert_eq).
  assert (Ho : forall k, k <> p -> State s' k = State s k) by (intros k Hk; unfold State; rewrite Em; by rewrite lookup_insert_ne).
  assert (F : forall k j x, in_flight s' k j x <-> relisted s p v k j x).
  { intros k j x. unfold in_flight at 1, relisted. destruct (decide (k = p)) as [->|Hne].
    - rewrite Hs. split; [intros (y & <-%Some_inj & I); by left|]. intros [[_ I]|[? _]]; [by exists state'|done].
    - rewrite Ho by done. split; [intros I; by right|by intros [[? _]|[_ I]]]. }
  split.
  - intros h k j. rewrite Hmap. by setoid_rewrite F.
  - intros k y Sy. destruct (decide (k = p)) as [->|Hne]; [|rewrite Ho in Sy by done; by apply (Kn k)].
    rewrite Hs in Sy. by apply Some_inj in Sy as <-.
  - intros k j x Fx%F. by apply (Hf k j x).
  - intros k y Sy. destruct (decide (k = p)) as [->|Hne]; [|rewrite Ho in Sy by done; by apply (Kc k)].
    rewrite Hs in Sy. by apply Some_inj in Sy as <-.
  - rewrite Ep, Em, (map_sum_replace _ _ _ state) by done. cbn. lia.
  - rewrite Es, Em, (map_sum_replace _ _ _ state) by done. cbn. lia.
  - rewrite Em, (map_sum_replace _ _ _ state) by done. unfold validated at 3. cbn [state' set_flight vBlocksInFlight]. lia.
  - by rewrite Eo.
Qed.

(** Without the block, what is in flight. *)
Lemma relisted_erase s hash p it q state n j x : peers_ok s -> State s p = Some state -> (it, q) ∈ vBlocksInFlight state -> q_hash q = hash ->
  relisted s p (erase_entry it (vBlocksInFlight state)) n j x <-> in_flight s n j x /\ q_hash x <> hash.
Proof.
  intros K S I Eh. assert (Fq : in_flight s p it q) by by exists state. unfold relisted. split.
  - intros [[-> [Iy Nj]%erase_entry_in]|[Hne Fx]].
    + assert (Fx : in_flight s p j x) by by exists state. split; [done|]. intros Ex.
      by destruct (flight_unique s hash p p it j q x K Fq Fx Eh Ex) as (_ & -> & _).
    + split; [done|]. intros Ex. by destruct (flight_unique s hash p n it j q x K Fq Fx Eh Ex) as (-> & _).
  - intros [Fx Nx]. destruct (decide (n = p)) as [->|Hne]; [left; split; [done|]|by right].
    destruct Fx as (y & Sy & Iy). rewrite S in Sy. apply Some_inj in Sy as <-. apply erase_entry_in. split; [done|]. cbn. intros ->.
    apply Nx. rewrite <- Eh. f_equal.
    pose proof (flight_entry_in it q _ (pk_nodup _ K p state S) I) as E1.
    pose proof (flight_entry_in it x _ (pk_nodup _ K p state S) Iy) as E2. congruence.
Qed.

(** The peers keep their states; none gets more blocks. *)
Definition no_more (s s' : Peers) : Prop :=
  (forall n state, State s n = Some state -> exists state', State s' n = Some state' /\ nBlocksInFlight state' <= nBlocksInFlight state) /\
  (forall n, is_Some (State s' n) -> is_Some (State s n)).

Lemma no_more_refl s : no_more s s.
Proof. split; [|done]. intros n state ?. by exists state. Qed.

Lemma MarkBlockAsReceived_ok hash s : peers_ok s ->
  exists s', MarkBlockAsReceived hash s = Some s' /\ peers_ok s' /\ mapBlocksInFlight s' = delete hash (mapBlocksInFlight s) /\ no_more s s'.
Proof.
  intros K. unfold MarkBlockAsReceived. destruct (mapBlocksInFlight s !! hash) as [[p it]|] eqn:M.
  2: { exists s. split_and!; [done|done|by rewrite delete_id|apply no_more_refl..]. }
  destruct (proj1 (pk_map _ K hash p it) M) as (q & (state & S & I) & Eh). rewrite S. cbn [mbind option_bind].
  rewrite (flight_entry_in it q) by (by apply (pk_nodup _ K p) || done). cbn [mbind option_bind].
  destruct (erase_entry_split it q _ (pk_nodup _ K p state S) I) as (a & b & Ev & Ee).
  assert (El : nBlocksInFlight state - 1 = Z.of_nat (length (erase_entry it (vBlocksInFlight state)))).
  { rewrite Ee, (pk_count _ K p state S), Ev, !length_app. cbn [length]. lia. }
  rewrite El. eexists. split; [reflexivity|]. split; [|split; [done|split]].
  - apply (peers_ok_relist s p state 0 (erase_entry it (vBlocksInFlight state))); try done.
    + intros h k j. cbn [mapBlocksInFlight]. setoid_rewrite (relisted_erase s hash p it q state); [|done..].
      destruct (decide (h = hash)) as [->|Hne]; [rewrite lookup_delete_eq; split; [done|]; by intros (x & [_ ?] & ?)|].
      rewrite lookup_delete_ne by done. rewrite (pk_map _ K). split; intros (x & Hx & Ex); exists x; [|by destruct Hx].
      split; [|done]. split; [done|congruence].
    + by apply erase_entry_NoDup, (pk_nodup _ K p).
    + intros k j x [Fx _]%(relisted_erase s hash p it q state); [|done..]. by apply (pk_fresh _ K k j x).
    + cbn [nQueuedValidatedHeaders]. unfold validated. rewrite Ee, Ev, !map_app, !zsum_app. unfold zsum. cbn [map foldr snd]. lia.
  - intros k y Sy. unfold State. cbn [mapNodeState]. destruct (decide (k = p)) as [->|Hne].
    + rewrite S in Sy. apply Some_inj in Sy as <-. rewrite lookup_insert_eq. eexists. split; [reflexivity|]. cbn. lia.
    + rewrite lookup_insert_ne by done. by exists y.
  - intros k. unfold State. cbn [mapNodeState]. destruct (decide (k = p)) as [->|Hne]; [by exists state|by rewrite lookup_insert_ne].
Qed.

Lemma MarkBlockAsInFlight_ok nNow n hash pindex s state : peers_ok s -> State s n = Some state ->
  exists s', MarkBlockAsInFlight nNow n hash pindex s = Some s' /\ peers_ok s' /\
    (exists it, mapBlocksInFlight s' = <[hash := (n, it)]> (delete hash (mapBlocksInFlight s))) /\
    (exists state', State s' n = Some state' /\ nBlocksInFlight state' <= nBlocksInFlight state + 1) /\
    (forall k y, k <> n -> State s k = Some y -> exists y', State s' k = Some y' /\ nBlocksInFlight y' <= nBlocksInFlight y) /\
    (forall k, is_Some (State s' k) -> is_Some (State s k)).
Proof.
  intros K0 S0. unfold MarkBlockAsInFlight. rewrite S0. cbn [mbind option_bind].
  destruct (MarkBlockAsReceived_ok hash s K0) as (s1 & E & K & Em & Hless & Hdom). rewrite E. cbn [mbind option_bind].
  destruct (Hless n state S0) as (st1 & S & Hle). rewrite S. cbn [mbind option_bind].
  assert (Nh : mapBlocksInFlight s1 !! hash = None) by (rewrite Em; apply lookup_delete_eq).
  set (q := Build_QueuedBlock hash pindex nNow _ _). set (it := next_address s1). set (v := vBlocksInFlight st1 ++ [(it, q)]).
  assert (El : nBlocksInFlight st1 + 1 = Z.of_nat (length v)) by (unfold v; rewrite length_app, (pk_count _ K n st1 S); cbn; lia).
  assert (R : forall k j x, relisted s1 n v k j x <-> in_flight s1 k j x \/ k = n /\ j = it /\ x = q).
  { intros k j x. unfold relisted, v. setoid_rewrite elem_of_app. setoid_rewrite list_elem_of_singleton. split.
    - intros [[-> [I|[= -> ->]]]|[_ F]]; [left; by exists st1|by right|by left].
    - intros [F|(-> & -> & ->)]; [|left; auto]. destruct (decide (k = n)) as [->|]; [left; split; [done|left]|by right].
      destruct F as (y & Sy & I). rewrite S in Sy. by apply Some_inj in Sy as <-. }
  rewrite El. eexists. split; [reflexivity|]. split; [|split; [exists it; cbn [mapBlocksInFlight]; by rewrite Em|split]].
  - apply (peers_ok_relist s1 n st1 (nStallingSince st1) v); try done; cbn [mapBlocksInFlight next_address nQueuedValidatedHeaders].
    + intros h k j. setoid_rewrite R. destruct (decide (h = hash)) as [->|Hne].
      * rewrite lookup_insert_eq. split; [intros [= <- <-]; exists q; split; [right|]; done|].
        intros (x & [F|(-> & -> & ->)] & Ex); [|done]. exfalso.
        assert (M : mapBlocksInFlight s1 !! hash = Some (k, j)) by (apply (pk_map _ K); by exists x). congruence.
      * rewrite lookup_insert_ne by done. rewrite (pk_map _ K). split; intros (x & Hx & Ex); exists x; [by split; [left|]|].
        destruct Hx as [Hx|(-> & -> & ->)]; [done|]. cbn in Ex. congruence.
    + unfold v. rewrite fmap_app. apply NoDup_app. split; [by apply (pk_nodup _ K n)|]. split; [|apply NoDup_singleton].
      intros j ([j' x] & -> & I)%list_elem_of_fmap Hj%list_elem_of_singleton. cbn in Hj. subst j'.
      assert (it < next_address s1) by (apply (pk_fresh _ K n it x); by exists st1). unfold it in *. lia.
    + intros k j x [F|(_ & -> & _)]%R; [pose proof (pk_fresh _ K k j x F); lia|lia].
    + unfold v, validated. rewrite map_app, zsum_app. unfold zsum at 2. cbn [map foldr snd q fValidatedHeaders]. lia.
  - unfold State. cbn [mapNodeState]. rewrite lookup_insert_eq. eexists. split; [reflexivity|]. cbn [set_flight nBlocksInFlight]. lia.
  - split; intros k; [intros y Hk Sy|intros Sk].
    + unfold State. cbn [mapNodeState]. rewrite lookup_insert_ne by done. by apply Hless.
    + destruct (decide (k = n)) as [->|Hk]; [by exists state|]. unfold State in Sk. cbn [mapNodeState] in Sk. rewrite lookup_insert_ne in Sk by done. by apply Hdom.
Qed.

Lemma validated_nonneg n : 0 <= validated n.
Proof.
  unfold validated. induction (vBlocksInFlight n) as [|e v IH]; [done|]. unfold zsum in *. cbn [map foldr].
  destruct (fValidatedHeaders e.2); cbn [Z.b2z]; lia.
Qed.

Lemma lookup_delete_hashes (v : list (Z * QueuedBlock)) (m : gmap uint256 (NodeId * Z)) h :
  foldl (fun m e => delete (q_hash e.2) m) m v !! h = if decide (h ∈ map (fun e => q_hash e.2) v) then None else m !! h.
Proof.
  revert m. induction v as [|e v IH]; intros m; [done|]. cbn [foldl map]. rewrite IH.
  destruct (decide (h ∈ map (fun e => q_hash e.2) v)) as [I|I]; [by rewrite decide_True by by right|].
  destruct (decide (h = q_hash e.2)) as [->|Hne].
  - rewrite decide_True by by left. apply lookup_delete_eq.
  - rewrite decide_False by (intros [?|?]%elem_of_cons; done). by apply lookup_delete_ne.
Qed.

(** ** The end of a peer *)

Lemma FinalizeNode_ok n s state : peers_ok s -> State s n = Some state ->
  exists s', FinalizeNode n s = Some s' /\ peers_ok s' /\ State s' n = None /\ (forall k, k <> n -> State s' k = State s k) /\
    nQueuedValidatedHeaders s' = nQueuedValidatedHeaders s /\
    forall k it, mapOrphanTransactions (orphans s') !! k = Some it -> fromPeer it <> n.
Proof.
  intros K S. unfold FinalizeNode. rewrite S. cbn [mbind option_bind].
  destruct (EraseOrphansFor_spec n (orphans s) (pk_orphans _ K)) as (o' & E & Oo & Lo). rewrite E. cbn [mbind option_bind].
  eexists. split; [reflexivity|]. match goal with |- peers_ok ?x /\ _ => set (s' := x) end.
  assert (Hn : State s' n = None) by apply lookup_delete_eq.
  assert (Ho : forall k, k <> n -> State s' k = State s k) by (intros k Hk; unfold State; cbn; by rewrite lookup_delete_ne).
  assert (F : forall k j x, in_flight s' k j x <-> in_flight s k j x /\ k <> n).
  { intros k j x. unfold in_flight. destruct (decide (k = n)) as [->|Hne]; [rewrite Hn; split; [by intros (? & ? & _)|by intros [_ ?]]|].
    rewrite Ho by done. tauto. }
  split; [split|split_and!; try done].
  - intros h k j. cbn [s' mapBlocksInFlight]. rewrite lookup_delete_hashes. setoid_rewrite F. case_decide as D.
    + split; [done|]. intros (x & [Fx Nk] & Ex). apply list_elem_of_fmap in D as ([j' y] & Ey & I). destruct Nk.
      assert (Fy : in_flight s n j' y) by by exists state. by destruct (flight_unique s h n k j' j y x K Fy Fx) as (-> & _).
    + rewrite (pk_map _ K). split; intros (x & Hx & Ex); exists x; [|by destruct Hx]. split; [|done]. split; [done|]. intros ->.
      apply D. destruct Hx as (y & Sy & I). rewrite S in Sy. apply Some_inj in Sy as <-. apply list_elem_of_fmap. by exists (j, x).
  - intros k y Sy. destruct (decide (k = n)) as [->|Hne]; [by rewrite Hn in Sy|]. rewrite Ho in Sy by done. by apply (pk_nodup _ K k).
  - intros k j x [Fx _]%F. by apply (pk_fresh _ K k j x).
  - intros k y Sy. destruct (decide (k = n)) as [->|Hne]; [by rewrite Hn in Sy|]. rewrite Ho in Sy by done. by apply (pk_count _ K k).
  - cbn [s' nPreferredDownload mapNodeState]. rewrite (pk_preferred _ K), (map_sum_delete _ _ n state) by done. lia.
  - cbn [s' nSyncStarted mapNodeState]. rewrite (pk_sync _ K), (map_sum_delete _ _ n state) by done. lia.
  - cbn [s' nQueuedValidatedHeaders mapNodeState]. pose proof (pk_validated _ K) as V. rewrite (map_sum_delete _ _ n state) in V by done.
    pose proof (validated_nonneg state). lia.
  - done.
  - intros k it. cbn [s' orphans]. rewrite Lo. destruct (mapOrphanTransactions (orphans s) !! k) as [it'|]; [|done].
    destruct (Z.eqb_spec (fromPeer it') n); [done|]. by intros <-%Some_inj.
Qed.

(** ** The other operations *)

Lemma no_peers_ok : peers_ok no_peers.
Proof.
  assert (E : forall n, State no_peers n = None) by (intros n; apply lookup_empty).
  split; cbn; try (intros *; by rewrite E); try done.
  - intros h n it. rewrite lookup_empty. split; [done|]. intros (q & (st & S & _) & _). by rewrite E in S.
  - intros n it q (st & S & _). by rewrite E in S.
  - exact no_orphans_ok.
Qed.

Lemma InitializeNode_ok n s : peers_ok s -> peers_ok (InitializeNode n s).
Proof.
  intros K. unfold InitializeNode. destruct (State s n) as [x|] eqn:S; [done|].
  assert (F : forall k j q, in_flight (set_nodes (<[n := new_node_state]> (mapNodeState s)) s) k j q <-> in_flight s k j q).
  { intros k j q. unfold in_flight, State. cbn [set_nodes mapNodeState]. destruct (decide (k = n)) as [->|Hne].
    - rewrite lookup_insert_eq. unfold State in S. rewrite S. split; [intros (y & <-%Some_inj & I); by apply not_elem_of_nil in I|by intros (y & ? & _)].
    - by rewrite lookup_insert_ne. }
  split; cbn [set_nodes mapBlocksInFlight nPreferredDownload nSyncStarted nQueuedValidatedHeaders orphans mapNodeState next_address].
  - intros h k j. rewrite (pk_map _ K). by setoid_rewrite F.
  - intros k y Sy. unfold State in Sy. cbn [set_nodes mapNodeState] in Sy. destruct (decide (k = n)) as [->|Hne].
    + rewrite lookup_insert_eq in Sy. apply Some_inj in Sy as <-. constructor.
    + rewrite lookup_insert_ne in Sy by done. by apply (pk_nodup _ K k).
  - intros k j q Fq%F. by apply (pk_fresh _ K k j q).
  - intros k y Sy. unfold State in Sy. cbn [set_nodes mapNodeState] in Sy. destruct (decide (k = n)) as [->|Hne].
    + rewrite lookup_insert_eq in Sy. by apply Some_inj in Sy as <-.
    + rewrite lookup_insert_ne in Sy by done. by apply (pk_count _ K k).
  - rewrite map_sum_insert by done. rewrite (pk_preferred _ K). cbn. lia.
  - rewrite map_sum_insert by done. rewrite (pk_sync _ K). cbn. lia.
  - rewrite map_sum_insert by done. pose proof (pk_validated _ K). unfold validated at 1. cbn. lia.
  - apply K.
Qed.

(** A change that leaves the blocks in flight and the counters alone. *)
Lemma set_nodes_ok s n state state' : peers_ok s -> State s n = Some state ->
  vBlocksInFlight state' = vBlocksInFlight state -> nBlocksInFlight state' = nBlocksInFlight state ->
  fPreferredDownload state' = fPreferredDownload state -> fSyncStarted state' = fSyncStarted state ->
  peers_ok (set_nodes (<[n := state']> (mapNodeState s)) s).
Proof.
  intros K S Ev Ec Ep Es. eapply (peers_ok_update s n state state'); try done; [apply K|..];
    cbn [set_nodes nPreferredDownload nSyncStarted]; rewrite ?Ep, ?Es; lia.
Qed.

Lemma UpdatePreferredDownload_ok node n s s' : peers_ok s -> UpdatePreferredDownload node n s = Some s' -> peers_ok s'.
Proof.
  intros K E. unfold UpdatePreferredDownload in E. apply bind_Some in E as (state & S & [= <-]).
  eapply (peers_ok_update s n state); [exact K|exact S|reflexivity|..]; try done; [apply K|cbn; lia..].
Qed.

Lemma Misbehaving_ok banscore n howmuch s : peers_ok s -> peers_ok (Misbehaving banscore n howmuch s).
Proof.
  intros K. unfold Misbehaving. case_match; [done|]. destruct (State s n) as [state|] eqn:S; [|done]. by eapply set_nodes_ok.
Qed.

Lemma availability_same st idx n : vBlocksInFlight (availability st idx n) = vBlocksInFlight n /\
  nBlocksInFlight (availability st idx n) = nBlocksInFlight n /\ fPreferredDownload (availability st idx n) = fPreferredDownload n /\
  fSyncStarted (availability st idx n) = fSyncStarted n.
Proof. unfold availability. repeat case_match; done. Qed.

Lemma ProcessBlockAvailability_ok st idx n s s' : peers_ok s -> ProcessBlockAvailability st idx n s = Some s' -> peers_ok s'.
Proof.
  intros K E. unfold ProcessBlockAvailability, update_state in E. apply bind_Some in E as (state & S & [= <-]).
  destruct (availability_same st idx state) as (? & ? & ? & ?). by eapply set_nodes_ok.
Qed.

Lemma UpdateBlockAvailability_ok st idx n hash s s' : peers_ok s -> UpdateBlockAvailability st idx n hash s = Some s' -> peers_ok s'.
Proof.
  intros K E. unfold UpdateBlockAvailability in E. apply bind_Some in E as (s1 & E1 & E).
  pose proof (ProcessBlockAvailability_ok _ _ _ _ _ K E1) as K1. unfold update_state in E. apply bind_Some in E as (state & S & [= <-]).
  destruct (known_block st idx hash); by eapply set_nodes_ok.
Qed.

Lemma start_sync_ok pto fReindex t a n s s' b : peers_ok s -> start_sync pto fReindex t a n s = Some (s', b) -> peers_ok s'.
Proof.
  intros K E. unfold start_sync in E. apply bind_Some in E as (state & S & E). destruct (_ && _ && _ && _ && _) eqn:C; [|by injection E as <- _].
  injection E as <- _. rewrite !andb_true_iff, !negb_true_iff in C. destruct C as [[[[C _] _] _] _].
  eapply (peers_ok_update s n state); [exact K|exact S|reflexivity|..]; try done; [apply K|cbn; rewrite ?C; cbn; lia..].
Qed.

(** * The search for blocks *)

(** A block that is asked for when the search comes to it. *)
Definition wanted (st : store) (flight : gmap uint256 (NodeId * Z)) (p : ptr) : Prop :=
  Z.land (nStatus (deref st p)) BLOCK_HAVE_DATA = 0 /\ flight !! phashBlock (deref st p) = None.

#[export] Instance wanted_dec st flight p : Decision (wanted st flight p).
Proof. unfold wanted. apply _. Defined.

(** Its block and those before it are there. *)
Definition linked (st : store) (p : ptr) : Prop :=
  Z.land (nStatus (deref st p)) BLOCK_HAVE_DATA <> 0 /\ nChainTx (deref st p) <> 0.

(** A peer has promised a block of the list that is not there. *)
Definition promised (st : store) (flight : gmap uint256 (NodeId * Z)) (l : list ptr) (n : NodeId) : Prop :=
  exists p it, p ∈ l /\ flight !! phashBlock (deref st p) = Some (n, it).

(** Why the search ends before a block. *)
Definition stops (st : store) (flight : gmap uint256 (NodeId * Z)) (nWindowEnd : Z) (p : ptr) : Prop :=
  IsValid (nStatus (deref st p)) BLOCK_VALID_TREE = false \/ wanted st flight p /\ nWindowEnd < height_of st p.

(** What the loops leave, from [r], when they have gone through [l]. *)
Record searched (st : store) (flight : gmap uint256 (NodeId * Z)) (nodeid : NodeId) (count nWindowEnd : Z) (l : list ptr) (r r' : Search) : Prop := {
  se_split : exists seen rest, l = seen ++ rest /\
    vBlocks r' = vBlocks r ++ filter (wanted st flight) seen /\
    Forall (fun p => IsValid (nStatus (deref st p)) BLOCK_VALID_TREE = true) seen /\
    Forall (fun p => wanted st flight p -> height_of st p <= nWindowEnd) seen /\
    (s_common r' = s_common r \/ s_common r' ∈ seen /\ linked st (s_common r')) /\
    (waitingfor r' = waitingfor r \/ promised st flight seen (waitingfor r')) /\
    (rest = [] \/ Z.of_nat (length (vBlocks r')) = count \/ exists p, head rest = Some p /\ stops st flight nWindowEnd p);
  se_count : Z.of_nat (length (vBlocks r)) < count -> Z.of_nat (length (vBlocks r')) <= count;
  se_staller : nodeStaller r' = nodeStaller r \/
    vBlocks r' = [] /\ nodeStaller r' = waitingfor r' /\ nodeStaller r' <> nodeid /\
    exists p, p ∈ l /\ wanted st flight p /\ nWindowEnd < height_of st p
}.

Lemma searched_stop st flight nodeid count W p l r :
  stops st flight W p -> searched st flight nodeid count W (p :: l) r r.
Proof.
  intros S. split; [|lia|by left]. exists [], (p :: l). split_and!; [done|cbn; by rewrite app_nil_r|done|done|by left|by left|].
  right; right. by exists p.
Qed.

(** One block more. *)
Lemma searched_cons st flight nodeid count W p l r r1 r' :
  IsValid (nStatus (deref st p)) BLOCK_VALID_TREE = true ->
  vBlocks r1 = vBlocks r ++ filter (wanted st flight) [p] -> (wanted st flight p -> height_of st p <= W) ->
  (Z.of_nat (length (vBlocks r)) < count -> Z.of_nat (length (vBlocks r1)) < count) ->
  (s_common r1 = s_common r \/ s_common r1 = p /\ linked st p) ->
  (waitingfor r1 = waitingfor r \/ promised st flight [p] (waitingfor r1)) -> nodeStaller r1 = nodeStaller r ->
  searched st flight nodeid count W l r1 r' -> searched st flight nodeid count W (p :: l) r r'.
Proof.
  intros V B H C Co Wa N [(seen & rest & -> & B' & V' & H' & Co' & Wa' & R) C' N'].
  split; [|intros X; exact (C' (C X))|].
  - exists (p :: seen), rest. split_and!; [done| |by constructor|by constructor| | |done].
    + rewrite B', B, <- app_assoc, <- filter_app. done.
    + destruct Co' as [->|[? ?]]; [destruct Co as [->|[-> ?]]|]; [by left|right; split; [left|done]|right; split; [by right|done]].
    + destruct Wa' as [->|(y & it & ? & ?)]; [destruct Wa as [->|(y & it & ->%list_elem_of_singleton & ?)]|]; [by left|..]; right.
      * exists p, it. split; [left|done].
      * exists y, it. split; [by right|done].
  - rewrite <- N. destruct N' as [->|(? & ? & ? & y & ? & ? & ?)]; [by left|right]. split_and!; try done. exists y. split; [by right|done].
Qed.

Lemma visit_spec st flight nodeid count W l r r' b :
  visit st flight nodeid count W l r = (r', b) -> (b = false -> Z.of_nat (length (vBlocks r)) < count -> Z.of_nat (length (vBlocks r')) < count) /\
  searched st flight nodeid count W l r r' .
Proof.
  revert r. induction l as [|p l IH]; intros r E; cbn [visit] in E.
  { injection E as <- <-. split; [done|]. split; [|lia|by left]. exists [], []. split_and!; [done|cbn; by rewrite app_nil_r|done|done|by left|by left|by left]. }
  destruct (IsValid _ _) eqn:V; cbn [negb] in E; [|injection E as <- <-; split; [done|]; apply searched_stop; by left].
  destruct (nonzero (Z.land _ _)) eqn:D; unfold nonzero in D.
  - rewrite negb_true_iff, Z.eqb_neq in D. assert (Nw : ~ wanted st flight p) by (by intros [? _]).
    apply IH in E as [E1 E2]. split.
    + intros ? ?. apply E1; [done|]. by destruct (nonzero (nChainTx (deref st p))).
    + eapply searched_cons; [done|..|exact E2]; try done; rewrite ?filter_cons, ?decide_False by done; cbn; rewrite ?app_nil_r; try by case_match.
      * destruct (nonzero (nChainTx (deref st p))) eqn:T; [right|by left]. split; [done|]. unfold nonzero in T.
        rewrite negb_true_iff, Z.eqb_neq in T. done.
      * left. by case_match.
  - rewrite negb_false_iff, Z.eqb_eq in D. destruct (flight !! _) as [[other it]|] eqn:F.
    + assert (Nw : ~ wanted st flight p) by (intros [_ ?]; congruence). apply IH in E as [E1 E2]. split.
      * intros ? ?. apply E1; [done|]. by case_match.
      * eapply searched_cons; [done|..|exact E2]; try done; rewrite ?filter_cons, ?decide_False by done; cbn; rewrite ?app_nil_r; try by case_match.
        -- left. by case_match.
        -- destruct (Z.eqb_spec (waitingfor r) (-1)); [right|by left]. exists p, it. split; [left|done].
    + assert (Hw : wanted st flight p) by done. destruct (Z.ltb_spec W (nHeight (deref st p))) as [Hh|Hh].
      * injection E as <- <-. split; [done|].
        destruct ((_ && _)) eqn:S; [|apply searched_stop; by right].
        rewrite andb_true_iff, negb_true_iff, Nat.eqb_eq, Z.eqb_neq in S. destruct S as [S1 S2].
        destruct (searched_stop st flight nodeid count W p l r ltac:(by right)) as [A B C].
        split; [exact A|exact B|]. right. apply nil_length_inv in S1. cbn. split_and!; try done. exists p. split; [left|done].
      * cbn in E. destruct (Z.eqb_spec (Z.of_nat (length (vBlocks r ++ [p]))) count) as [Ec|Ec].
        -- injection E as <- <-. split; [done|].
           split; cbn [vBlocks s_common waitingfor nodeStaller]; [|lia|by left]. exists [p], l.
           split_and!; [done|by rewrite filter_cons, decide_True| | |by left|by left|right; by left].
           ++ by constructor.
           ++ by constructor.
        -- apply IH in E as [E1 E2]. cbn [vBlocks] in E1. split.
           { intros Hb Hc. apply E1; [done|]. rewrite length_app in Ec |- *. cbn [length] in Ec |- *. lia. }
           eapply searched_cons; [done|..|exact E2]; try done; cbn [vBlocks s_common waitingfor nodeStaller]; try by left.
           ++ by rewrite filter_cons, decide_True.
           ++ rewrite length_app in Ec |- *. cbn [length] in Ec |- *. lia.
Qed.

Lemma visit_app st flight nodeid count W l1 l2 r : visit st flight nodeid count W (l1 ++ l2) r =
  let '(r1, b) := visit st flight nodeid count W l1 r in if b : bool then (r1, true) else visit st flight nodeid count W l2 r1.
Proof.
  revert r. induction l1 as [|p l1 IH]; intros r; cbn [visit app]; [done|]. destruct (negb _); [done|]. destruct (nonzero _); [apply IH|].
  destruct (flight !! _) as [[other it]|]; [apply IH|]. destruct (W <? _); [done|]. cbv zeta. destruct (_ =? count); [done|apply IH].
Qed.

(** The blocks of the branch of [best] above the height [lo], up to [hi]. *)
Definition branch (st : store) (best : ptr) (lo hi : Z) (l : list ptr) : Prop :=
  Forall (fun p => is_Some (st !! p) /\ ancestor st p best) l /\ map (height_of st) l = seqZ (lo + 1) (hi - lo).

Section Branch.
Context (st : store) (Hwf : wf_store st) (best : ptr) (Hbest : is_Some (st !! best)).

Lemma branch_app lo mid hi l1 l2 : lo <= mid <= hi -> branch st best lo mid l1 -> branch st best mid hi l2 -> branch st best lo hi (l1 ++ l2).
Proof.
  intros H [A1 B1] [A2 B2]. split; [by apply Forall_app|]. rewrite map_app, B1, B2.
  replace (hi - lo) with ((mid - lo) + (hi - mid)) by lia. rewrite seqZ_app by lia. do 2 f_equal. lia.
Qed.

Lemma fetch_list_branch n p acc : is_Some (st !! p) -> ancestor st p best -> Z.of_nat n <= height_of st p ->
  exists l, fetch_list st n p acc = Some (l ++ acc) /\ branch st best (height_of st p - Z.of_nat n) (height_of st p) l.
Proof.
  revert p acc. induction n as [|n IH]; intros p acc Hp Ha Hn.
  { exists []. split; [done|]. split; [done|]. by rewrite Z.sub_0_r, Z.sub_diag. }
  destruct n as [|n].
  { exists [p]. split; [done|]. split; [by constructor|]. cbn [map]. replace (height_of st p - (height_of st p - Z.of_nat 1)) with 1 by lia.
    rewrite seqZ_cons by lia. cbn. f_equal; lia. }
  destruct (parent_valid st Hwf p Hp ltac:(lia)) as (q & Eq & Hq & Eh).
  assert (Ha' : ancestor st q best) by (destruct Ha as [i Hi]; exists (i + 1)%nat; rewrite (anc_app _ _ _ _ _ Hi); cbn; by rewrite Eq).
  destruct (IH q (p :: acc) Hq Ha' ltac:(lia)) as (l & El & B). exists (l ++ [p]).
  replace (fetch_list st (S (S n)) p acc) with (fetch_list st (S n) q (p :: acc)) by (cbn [fetch_list]; by rewrite Eq).
  rewrite El, <- app_assoc. split; [done|]. replace (height_of st p - Z.of_nat (S (S n))) with (height_of st q - Z.of_nat (S n)) by lia.
  apply (branch_app _ (height_of st q)); [lia|done|]. split; [by constructor|]. rewrite Eh. cbn [map].
  replace (height_of st p - (height_of st p - 1)) with 1 by lia. rewrite seqZ_cons by lia. cbn. f_equal; lia.
Qed.

(** The ancestor at a height. *)
Lemma best_ancestor h : 0 <= h <= height_of st best ->
  exists p, GetAncestor st best h = Some p /\ is_Some (st !! p) /\ height_of st p = h /\ ancestor st p best.
Proof.
  intros Hh. destruct (GetAncestor_some st Hwf best h Hbest Hh) as (p & E & Hp & Eh & Ha). exists p. split_and!; [done..|]. by eexists.
Qed.

Lemma branch_exists lo hi : 0 <= lo <= hi -> hi <= height_of st best -> exists l, branch st best lo hi l.
Proof.
  intros Hl Hh. destruct (best_ancestor hi ltac:(lia)) as (p & _ & Hp & Eh & Ha).
  destruct (fetch_list_branch (Z.to_nat (hi - lo)) p [] Hp Ha ltac:(lia)) as (l & _ & B). exists l.
  subst hi. by replace (height_of st p - Z.of_nat (Z.to_nat (height_of st p - lo))) with lo in B by lia.
Qed.

(** Going through the branch 128 blocks or more at a time is going through it. *)
Lemma search_loop_branch flight nodeid count W hi fuel walk r :
  hi <= height_of st best -> 0 <= height_of st walk <= hi -> (Z.to_nat (hi - height_of st walk) <= fuel)%nat ->
  exists l, branch st best (height_of st walk) hi l /\
    search_loop st fuel flight nodeid count W hi best walk r = Some (visit st flight nodeid count W l r).1.
Proof.
  intros Hhi. revert walk r. induction fuel as [|fuel IH]; intros walk r Hw Hf; cbn [search_loop];
    destruct (Z.ltb_spec (height_of st walk) hi) as [Hlt|Hge]; try lia;
    try (exists []; split; [|done]; split; [done|]; by replace (hi - height_of st walk) with 0 by lia).
  set (n := Z.min _ _). assert (0 < n <= hi - height_of st walk) by lia.
  destruct (best_ancestor (height_of st walk + n) ltac:(lia)) as (p & E & Hp & Eh & Ha). rewrite E. cbn [mbind option_bind].
  destruct (fetch_list_branch (Z.to_nat n) p [] Hp Ha ltac:(lia)) as (l1 & E1 & B1). rewrite E1, app_nil_r. cbn [mbind option_bind].
  replace (height_of st p - Z.of_nat (Z.to_nat n)) with (height_of st walk) in B1 by lia.
  destruct (visit st flight nodeid count W l1 r) as [r1 d] eqn:Ev. destruct d.
  - destruct (branch_exists (height_of st p) hi ltac:(lia) Hhi) as (l2 & B2). exists (l1 ++ l2).
    split; [by apply (branch_app _ (height_of st p)); [lia|..]|]. by rewrite visit_app, Ev.
  - destruct (IH p r1 ltac:(lia) ltac:(lia)) as (l2 & B2 & E2). exists (l1 ++ l2).
    split; [by apply (branch_app _ (height_of st p)); [lia|..]|]. by rewrite visit_app, Ev.
Qed.
End Branch.

(** ** The branch, by heights *)

Section BranchHeights.
Context (st : store) (Hwf : wf_store st) (best : ptr) (Hbest : is_Some (st !! best)).

Lemma ancestor_unique p q : ancestor st p best -> ancestor st q best -> height_of st p = height_of st q -> p = q.
Proof.
  intros [i Hi] [j Hj] E. destruct (anc_height st Hwf i best p Hbest Hi) as [_ Ei], (anc_height st Hwf j best q Hbest Hj) as [_ Ej].
  assert (i = j) as <- by lia. congruence.
Qed.

Lemma branch_lookup lo hi l i p : branch st best lo hi l -> l !! i = Some p -> height_of st p = lo + 1 + Z.of_nat i.
Proof.
  intros [_ B] L. assert (M : map (height_of st) l !! i = Some (height_of st p)) by (rewrite list_lookup_fmap, L; done).
  rewrite B in M. apply lookup_seqZ in M as [-> _]. done.
Qed.

Lemma branch_member lo hi l p : branch st best lo hi l -> ancestor st p best -> lo < height_of st p <= hi ->
  exists i, l !! i = Some p /\ Z.of_nat i = height_of st p - lo - 1.
Proof.
  intros B Hp Hh. assert (El : length l = Z.to_nat (hi - lo)).
  { pose proof (f_equal length (proj2 B)) as E. by rewrite length_map, length_seqZ in E. }
  destruct (lookup_lt_is_Some_2 l (Z.to_nat (height_of st p - lo - 1)) ltac:(lia)) as [q Lq].
  pose proof (branch_lookup _ _ _ _ _ B Lq). exists (Z.to_nat (height_of st p - lo - 1)). split; [|lia]. rewrite Lq. f_equal.
  apply ancestor_unique; [|done|lia]. destruct B as [B _]. rewrite Forall_lookup in B. by apply (B _ _ Lq).
Qed.

(** What comes before a block of the first part of the branch is in that part. *)
Lemma branch_before lo hi seen rest p q : branch st best lo hi (seen ++ rest) -> p ∈ seen -> ancestor st q best ->
  lo < height_of st q <= height_of st p -> q ∈ seen.
Proof.
  intros B [i Li]%list_elem_of_lookup_1 Hq Hh.
  assert (Lp : (seen ++ rest) !! i = Some p) by by apply lookup_app_l_Some.
  pose proof (branch_lookup _ _ _ _ _ B Lp) as Ep. assert (Hi : height_of st p <= hi).
  { pose proof (f_equal length (proj2 B)) as E. rewrite length_map, length_seqZ in E. pose proof (lookup_lt_Some _ _ _ Lp). lia. }
  destruct (branch_member _ _ _ q B Hq ltac:(lia)) as (j & Lj & Ej). pose proof (lookup_lt_Some _ _ _ Li).
  rewrite lookup_app_l in Lj by lia. by apply list_elem_of_lookup_2 in Lj.
Qed.

Lemma branch_ascending lo hi l : branch st best lo hi l -> StronglySorted (fun p q => height_of st p < height_of st q) l.
Proof.
  intros [_ B]. revert lo B. induction l as [|p l IH]; intros lo B; [constructor|]. cbn [map] in B.
  destruct (decide (0 < hi - lo)); [|rewrite seqZ_nil in B by lia; done]. rewrite seqZ_cons in B by lia. injection B as E1 E2.
  constructor.
  - apply (IH (lo + 1)). rewrite E2. f_equal; lia.
  - apply Forall_forall. intros q Hq. assert (M : height_of st q ∈ map (height_of st) l) by (apply list_elem_of_fmap; by exists q).
    rewrite E2 in M. apply elem_of_seqZ in M. lia.
Qed.
End BranchHeights.

Lemma sorted_filter {A} (R : A -> A -> Prop) (P : A -> Prop) `{!forall x, Decision (P x)} (l : list A) :
  StronglySorted R l -> StronglySorted R (filter P l).
Proof.
  induction 1 as [|x l S IH F]; [constructor|]. rewrite filter_cons. case_decide; [|done]. constructor; [done|].
  apply Forall_forall. intros y [_ Hy]%list_elem_of_filter. rewrite Forall_forall in F. by apply F.
Qed.

Lemma sorted_app_l {A} (R : A -> A -> Prop) (l l' : list A) : StronglySorted R (l ++ l') -> StronglySorted R l.
Proof.
  induction l as [|x l IH]; [constructor|]. cbn [app]. intros [S F]%StronglySorted_inv. constructor; [by apply IH|].
  by apply Forall_app in F as [F _].
Qed.

(** * The blocks that are chosen *)

(** The pointers kept about blocks point to blocks. *)
Record tracked (st : store) (idx : gmap uint256 ptr) (s : Peers) : Prop := {
  tr_index h p : idx !! h = Some p -> is_Some (st !! p);
  tr_state n state p : State s n = Some state -> pindexBestKnownBlock state = Some p \/ pindexLastCommonBlock state = Some p -> is_Some (st !! p)
}.

(** There is one genesis block. *)
Definition one_genesis (st : store) : Prop :=
  forall p q, is_Some (st !! p) -> is_Some (st !! q) -> height_of st p = 0 -> height_of st q = 0 -> p = q.

(** What a peer has in flight, and its flags, are the same. *)
Definition same_flight (n n' : CNodeState) : Prop :=
  vBlocksInFlight n' = vBlocksInFlight n /\ nBlocksInFlight n' = nBlocksInFlight n /\
  fPreferredDownload n' = fPreferredDownload n /\ fSyncStarted n' = fSyncStarted n.

Lemma tracked_update st idx s n state' : tracked st idx s ->
  (forall p, pindexBestKnownBlock state' = Some p \/ pindexLastCommonBlock state' = Some p -> is_Some (st !! p)) ->
  tracked st idx (set_nodes (<[n := state']> (mapNodeState s)) s).
Proof.
  intros [Ti Ts] H. split; [done|]. intros k x p. unfold State. cbn [set_nodes mapNodeState]. destruct (decide (k = n)) as [->|Hne].
  - rewrite lookup_insert_eq. intros <-%Some_inj. apply H.
  - rewrite lookup_insert_ne by done. apply Ts.
Qed.

Lemma better_known_valid st best p : is_Some (st !! p) -> (forall q, best = Some q -> is_Some (st !! q)) ->
  forall q, better_known st best p = Some q -> is_Some (st !! q).
Proof.
  intros Hp Hb q. unfold better_known. destruct best as [b|]; [|by intros [= <-]]. case_match; [by intros [= <-]|apply Hb].
Qed.

Lemma availability_tracked st idx s n state : tracked st idx s -> State s n = Some state ->
  forall p, pindexBestKnownBlock (availability st idx state) = Some p \/ pindexLastCommonBlock (availability st idx state) = Some p -> is_Some (st !! p).
Proof.
  intros [Ti Ts] S p. unfold availability. destruct (negb _); [|by apply (Ts n)].
  destruct (known_block st idx (hashLastUnknownBlock state)) as [q|] eqn:Q; [|by apply (Ts n)].
  cbn [set_known pindexBestKnownBlock pindexLastCommonBlock]. intros [E|E]; [|apply (Ts n state); [done|by right]].
  unfold known_block in Q. apply bind_Some in Q as (q' & Eq & Q). case_match; [|done]. injection Q as ->.
  eapply better_known_valid; [by eapply Ti| |exact E]. intros y Ey. apply (Ts n state); [done|by left].
Qed.

Lemma LastCommonAncestor_one_genesis st a b : wf_store st -> one_genesis st -> is_Some (st !! a) -> is_Some (st !! b) ->
  exists c, LastCommonAncestor st a b = Some c /\ is_Some (st !! c) /\ is_last_common st a b (Some c).
Proof.
  intros Hwf G Ha Hb. pose proof (LastCommonAncestor_correct st Hwf a b Ha Hb) as L. destruct (LastCommonAncestor st a b) as [c|].
  - exists c. split_and!; [done| |done]. by apply (ancestor_height st Hwf c a), L.
  - exfalso. pose proof (height_nonneg st Hwf a Ha). pose proof (height_nonneg st Hwf b Hb).
    destruct (anc_valid st Hwf (Z.to_nat (height_of st a)) a Ha ltac:(lia)) as (g & Eg & Hg & Hh).
    destruct (anc_valid st Hwf (Z.to_nat (height_of st b)) b Hb ltac:(lia)) as (g' & Eg' & Hg' & Hh').
    rewrite <- (G g g' Hg Hg' ltac:(lia) ltac:(lia)) in Eg'. by apply (L g); eexists.
Qed.

(** The first pointer to try. *)
Lemma chain_guess st c h : wf_chain st c -> is_Some (Tip c) -> 0 <= h -> exists p, chain_at c (Z.min h (Height c)) = Some p /\ is_Some (st !! p).
Proof.
  intros Hc HT Hh. assert (0 <= Height c).
  { unfold Tip, chain_at in HT. destruct HT as [t HT]. case_match; [done|]. destruct c; [done|]. unfold Height. cbn [length]. lia. }
  unfold chain_at. rewrite (proj2 (orb_false_iff _ _)) by (unfold Height in *; split; lia).
  destruct (lookup_lt_is_Some_2 c (Z.to_nat (Z.min h (Height c))) ltac:(unfold Height in *; lia)) as [x Lx].
  destruct (Hc _ _ Lx) as (p & -> & Hp & _). exists p. by rewrite Lx.
Qed.

(** The block the search starts from: the best known block [best] has at least the work of
    the tip, and [common] is the highest common ancestor of it and of the last common block
    remembered, or, when there is none, of the block of the active chain at its height. *)
Definition search_from (st : store) (c : list (option ptr)) (known : CNodeState) (best common : ptr) : Prop :=
  exists tip p0, pindexBestKnownBlock known = Some best /\ Tip c = Some tip /\ lt (nChainWork (deref st best)) (nChainWork (deref st tip)) = false /\
    match pindexLastCommonBlock known with Some p => Some p | None => chain_at c (Z.min (height_of st best) (Height c)) end = Some p0 /\
    is_last_common st p0 best (Some common).

(** The reasons for asking for nothing: no best known block, one with less work than the
    tip, or one that is on the branch of the last common block. *)
Inductive of_no_interest (st : store) (c : list (option ptr)) (known n' : CNodeState) : Prop :=
| interest_unknown : pindexBestKnownBlock known = None -> n' = known -> of_no_interest st c known n'
| interest_less_work best tip : pindexBestKnownBlock known = Some best -> Tip c = Some tip ->
    lt (nChainWork (deref st best)) (nChainWork (deref st tip)) = true -> n' = known -> of_no_interest st c known n'
| interest_linked best : search_from st c known best best ->
    n' = set_known (Some best) (hashLastUnknownBlock known) (Some best) known -> of_no_interest st c known n'.

(** What the function leaves: with [n'] the state of the peer after it, either there is
    nothing to ask for, or the search went along the branch of the best known block. *)
Lemma FindNextBlocksToDownload_spec st c idx s nodeid state count :
  wf_store st -> wf_chain st c -> is_Some (Tip c) -> one_genesis st -> tracked st idx s -> State s nodeid = Some state ->
  exists n' blocks staller, FindNextBlocksToDownload st c idx nodeid count s = Some (set_nodes (<[nodeid := n']> (mapNodeState s)) s, blocks, staller) /\
    same_flight state n' /\ tracked st idx (set_nodes (<[nodeid := n']> (mapNodeState s)) s) /\
    (blocks = [] /\ staller = -1 /\ (count = 0 \/ of_no_interest st c (availability st idx state) n') \/
     exists best common l r, search_from st c (availability st idx state) best common /\ common <> best /\
       pindexBestKnownBlock n' = Some best /\ is_Some (st !! best) /\ is_Some (st !! common) /\
       branch st best (height_of st common) (Z.min (height_of st best) (height_of st common + BLOCK_DOWNLOAD_WINDOW + 1)) l /\
       searched st (mapBlocksInFlight s) nodeid count (height_of st common + BLOCK_DOWNLOAD_WINDOW) l (Build_Search common [] (-1) (-1)) r /\
       blocks = vBlocks r /\ staller = nodeStaller r /\ pindexLastCommonBlock n' = Some (s_common r)).
Proof.
  intros Hwf Hc HT G T S. unfold FindNextBlocksToDownload.
  destruct (Z.eqb_spec count 0) as [->|Hn0].
  { exists state, [], (-1). rewrite insert_id by done. replace (set_nodes (mapNodeState s) s) with s by by destruct s.
    split_and!; try done. left. split_and!; [done..|by left]. }
  pose proof (availability_tracked st idx s nodeid state T S) as Ta. destruct (availability_same st idx state) as (F1 & F2 & F3 & F4).
  unfold ProcessBlockAvailability, update_state. rewrite S. cbn [mbind option_bind].
  set (n1 := availability st idx state) in *. set (s1 := set_nodes (<[nodeid := n1]> (mapNodeState s)) s).
  assert (S1 : State s1 nodeid = Some n1) by apply lookup_insert_eq. rewrite S1. cbn [mbind option_bind].
  pose proof (tracked_update st idx s nodeid n1 T Ta) as T1. fold s1 in T1.
  destruct (pindexBestKnownBlock n1) as [best|] eqn:B.
  2: { exists n1, [], (-1). split_and!; try done. left. split_and!; [done..|right]. by apply interest_unknown. }
  assert (Hbest : is_Some (st !! best)) by (apply Ta; by left). pose proof (height_nonneg st Hwf best Hbest).
  pose proof HT as [tip Htip]. rewrite Htip. cbn [mbind option_bind]. destruct (lt _ _) eqn:Hlt.
  { exists n1, [], (-1). split_and!; try done. left. split_and!; [done..|right]. by apply (interest_less_work _ _ _ _ best tip). }
  set (c0 := match pindexLastCommonBlock n1 with Some c1 => Some c1 | None => _ end).
  assert (C0 : exists p, c0 = Some p /\ is_Some (st !! p)).
  { unfold c0. destruct (pindexLastCommonBlock n1) as [p|] eqn:P; [exists p; split; [done|]; apply Ta; by right|].
    by apply (chain_guess st c). }
  destruct C0 as (p0 & P0 & Hp0). rewrite P0. cbn [mbind option_bind].
  destruct (LastCommonAncestor_one_genesis st p0 best Hwf G Hp0 Hbest) as (common & -> & Hcm & L). cbn [mbind option_bind].
  assert (From : search_from st c n1 best common) by by exists tip, p0.
  assert (Acm : ancestor st common best) by apply L.
  assert (Put : forall q, set_nodes (<[nodeid := set_known (Some best) (hashLastUnknownBlock n1) (Some q) n1]> (mapNodeState s1)) s1 =
    set_nodes (<[nodeid := set_known (Some best) (hashLastUnknownBlock n1) (Some q) n1]> (mapNodeState s)) s).
  { intros q. unfold s1. cbn [set_nodes mapNodeState]. by rewrite insert_insert_eq. }
  assert (Tp : forall q, is_Some (st !! q) -> tracked st idx (set_nodes (<[nodeid := set_known (Some best) (hashLastUnknownBlock n1) (Some q) n1]> (mapNodeState s)) s)).
  { intros q Hq. apply tracked_update; [done|]. cbn. intros p [[= <-]|[= <-]]; done. }
  destruct (Nat.eqb_spec common best) as [->|Hne].
  { exists (set_known (Some best) (hashLastUnknownBlock n1) (Some best) n1), [], (-1). rewrite Put. split_and!; try done; [by apply Tp|].
    left. split_and!; [done..|right]. by apply (interest_linked _ _ _ _ best). }
  pose proof (height_nonneg st Hwf common Hcm). destruct (ancestor_height st Hwf common best Hbest Acm) as [_ Hle].
  destruct (search_loop_branch st Hwf best Hbest (mapBlocksInFlight s) nodeid count (height_of st common + BLOCK_DOWNLOAD_WINDOW)
    (Z.min (height_of st best) (height_of st common + BLOCK_DOWNLOAD_WINDOW + 1))
    (Z.to_nat (Z.min (height_of st best) (height_of st common + BLOCK_DOWNLOAD_WINDOW + 1) - height_of st common))
    common (Build_Search common [] (-1) (-1))) as (l & Bl & El); [unfold BLOCK_DOWNLOAD_WINDOW; lia..|].
  cbn [s1 set_nodes mapBlocksInFlight]. rewrite El. cbn [mbind option_bind]. fold s1.
  destruct (visit _ _ _ _ _ l _) as [r d] eqn:Ev. apply visit_spec in Ev as [_ Se]. cbn [fst].
  exists (set_known (Some best) (hashLastUnknownBlock n1) (Some (s_common r)) n1), (vBlocks r), (nodeStaller r).
  rewrite Put. split; [done|]. split; [done|]. split.
  - apply Tp. destruct (se_split _ _ _ _ _ _ _ _ Se) as (seen & rest & -> & _ & _ & _ & [->|[I _]] & _); [done|].
    destruct Bl as [Bl _]. rewrite Forall_app in Bl. destruct Bl as [Bl _]. rewrite Forall_forall in Bl. by apply Bl.
  - right. exists best, common, l, r. split_and!; done.
Qed.

(** The blocks asked for are on the branch of the best known block, in the window above the
    common block, and no block before one of them is left out. *)
Record good_choice (st : store) (flight : gmap uint256 (NodeId * Z)) (nodeid : NodeId) (count : Z) (n' : CNodeState) (best common : ptr)
    (blocks : list ptr) (staller : NodeId) : Prop := {
  gc_block b : b ∈ blocks -> ancestor st b best /\ height_of st common < height_of st b <= height_of st common + BLOCK_DOWNLOAD_WINDOW /\
    IsValid (nStatus (deref st b)) BLOCK_VALID_TREE = true /\ wanted st flight b;
  gc_before b b' : b ∈ blocks -> ancestor st b' best -> height_of st common < height_of st b' < height_of st b -> wanted st flight b' -> b' ∈ blocks;
  gc_complete : Z.of_nat (length blocks) < count ->
    (forall p, ancestor st p best -> height_of st common < height_of st p -> IsValid (nStatus (deref st p)) BLOCK_VALID_TREE = true) ->
    forall p, ancestor st p best -> height_of st common < height_of st p <= height_of st common + BLOCK_DOWNLOAD_WINDOW -> wanted st flight p -> p ∈ blocks;
  gc_staller : staller <> -1 -> blocks = [] /\ staller <> nodeid /\
    exists p it, ancestor st p best /\ flight !! phashBlock (deref st p) = Some (staller, it);
  gc_common : exists c, pindexLastCommonBlock n' = Some c /\ ancestor st c best /\ (c = common \/ linked st c)
}.

Lemma searched_good st flight nodeid count n' best common l r :
  wf_store st -> is_Some (st !! best) -> is_Some (st !! common) -> ancestor st common best -> 0 < count ->
  branch st best (height_of st common) (Z.min (height_of st best) (height_of st common + BLOCK_DOWNLOAD_WINDOW + 1)) l ->
  searched st flight nodeid count (height_of st common + BLOCK_DOWNLOAD_WINDOW) l (Build_Search common [] (-1) (-1)) r ->
  pindexLastCommonBlock n' = Some (s_common r) -> good_choice st flight nodeid count n' best common (vBlocks r) (nodeStaller r).
Proof.
  intros Hwf Hbest Hcm Acm Hn B Se En. pose proof Se as [(seen & rest & El & Eb & Hv & Hw & Hco & Hwa & Hst) _ Hsta]. cbn in Eb, Hco, Hwa, Hsta.
  assert (Ab : forall p, p ∈ l -> ancestor st p best) by (destruct B as [B _]; rewrite Forall_forall in B; intros p Hp; by apply B).
  assert (Hb : forall b, b ∈ vBlocks r -> b ∈ seen /\ wanted st flight b) by (intros b; rewrite Eb, list_elem_of_filter; tauto).
  assert (Hseen : forall p, p ∈ seen -> p ∈ l) by (intros p Hp; rewrite El; apply elem_of_app; by left).
  rewrite Forall_forall in Hv, Hw. assert (Hle : forall p, p ∈ l -> height_of st common < height_of st p).
  { intros p [i Li]%list_elem_of_lookup_1. rewrite (branch_lookup st best _ _ _ _ _ B Li). lia. }
  split.
  - intros b [I W]%Hb. split_and!; auto.
  - intros b b' [I W]%Hb A H W'. rewrite Eb. apply list_elem_of_filter. split; [done|]. rewrite El in B.
    apply (branch_before st Hwf best Hbest _ _ _ _ b b' B); [done..|lia].
  - intros Hc Hall p A H W. rewrite Eb. apply list_elem_of_filter. split; [done|].
    destruct (ancestor_height st Hwf p best Hbest A) as [_ Hph].
    destruct (branch_member st Hwf best Hbest _ _ l p B A ltac:(lia)) as (i & Li & _).
    assert (Il : p ∈ l) by by apply list_elem_of_lookup_2 in Li.
    rewrite El in Il. apply elem_of_app in Il as [?|Ir]; [done|exfalso]. destruct Hst as [->|[E|(q & Eq & Sq)]]; [by apply not_elem_of_nil in Ir|lia|].
    destruct rest as [|q' rest]; [done|]. injection Eq as ->. assert (Iq : q ∈ l) by (rewrite El; apply elem_of_app; right; left).
    destruct Sq as [Sq|[_ Sq]]; [rewrite (Hall q) in Sq by auto; done|].
    apply elem_of_cons in Ir as [->|Ir]; [lia|].
    apply list_elem_of_lookup_1 in Ir as [j Lj].
    assert (Lp : l !! (length seen + S j)%nat = Some p) by (rewrite El, lookup_app_r by lia; replace (length seen + S j - length seen)%nat with (S j) by lia; done).
    assert (Lq : l !! length seen = Some q) by (rewrite El, lookup_app_r, Nat.sub_diag by lia; done).
    pose proof (branch_lookup st best _ _ _ _ _ B Lp). pose proof (branch_lookup st best _ _ _ _ _ B Lq). lia.
  - intros Hs. destruct Hsta as [?|(E & Ew & Hne & _)]; [done|]. split_and!; [done..|].
    destruct Hwa as [Hwa|(p & it & Ip & Ep)]; [congruence|]. exists p, it. split; [auto|]. by rewrite Ew.
  - exists (s_common r). split; [done|]. destruct Hco as [->|[I L]]; [by split; [|left]|]. split; [auto|by right].
Qed.

(** ** Without assumptions on the index *)

Lemma search_loop_count st fuel flight nodeid count W hi best walk r r' :
  search_loop st fuel flight nodeid count W hi best walk r = Some r' -> Z.of_nat (length (vBlocks r)) < count -> Z.of_nat (length (vBlocks r')) <= count.
Proof.
  revert walk r. induction fuel as [|fuel IH]; intros walk r E H; cbn [search_loop] in E;
    (case_match; [|injection E as <-; lia]); [done|]. apply bind_Some in E as (p & _ & E). apply bind_Some in E as (l & _ & E).
  destruct (visit _ _ _ _ _ l r) as [r1 d] eqn:Ev. apply visit_spec in Ev as [Hc Se].
  destruct d; [injection E as <-; by apply (se_count _ _ _ _ _ _ _ _ Se)|]. apply (IH _ _ E). by apply Hc.
Qed.

Lemma set_nodes_twice m m' s : set_nodes m (set_nodes m' s) = set_nodes m s.
Proof. done. Qed.

Lemma FindNextBlocksToDownload_flight st c idx s nodeid state count s' blocks staller : State s nodeid = Some state -> 0 <= count ->
  FindNextBlocksToDownload st c idx nodeid count s = Some (s', blocks, staller) ->
  Z.of_nat (length blocks) <= count /\ exists n', s' = set_nodes (<[nodeid := n']> (mapNodeState s)) s /\ same_flight state n'.
Proof.
  intros S Hn E. unfold FindNextBlocksToDownload in E. destruct (Z.eqb_spec count 0) as [->|Hn0].
  { injection E as <- <- _. split; [cbn; lia|]. exists state. rewrite insert_id by done. by destruct s. }
  apply bind_Some in E as (s1 & E1 & E). unfold ProcessBlockAvailability, update_state in E1. rewrite S in E1. injection E1 as <-.
  pose proof (availability_same st idx state) as F. set (n1 := availability st idx state) in *.
  apply bind_Some in E as (n1' & S1 & E). unfold State in S1. cbn [set_nodes mapNodeState] in S1. rewrite lookup_insert_eq in S1.
  apply Some_inj in S1 as <-.
  destruct (pindexBestKnownBlock n1) as [best|]; [|injection E as <- <- _; split; [cbn; lia|by exists n1]].
  apply bind_Some in E as (tip & _ & E). destruct (lt _ _); [injection E as <- <- _; split; [cbn; lia|by exists n1]|].
  apply bind_Some in E as (c0 & _ & E). apply bind_Some in E as (common & _ & E).
  assert (Put : forall q, set_nodes (<[nodeid := set_known (Some best) (hashLastUnknownBlock n1) (Some q) n1]> (<[nodeid := n1]> (mapNodeState s))) s =
    set_nodes (<[nodeid := set_known (Some best) (hashLastUnknownBlock n1) (Some q) n1]> (mapNodeState s)) s) by (intros q; by rewrite insert_insert_eq).
  rewrite set_nodes_twice in E. cbn [set_nodes mapNodeState] in E. destruct (common =? best)%nat.
  - injection E as <- <- _. split; [cbn; lia|]. eexists. split; [apply Put|]. exact F.
  - apply bind_Some in E as (r & Er & E). injection E as <- <- _. split; [apply (search_loop_count _ _ _ _ _ _ _ _ _ _ _ Er); cbn; lia|].
    eexists. split; [apply Put|]. exact F.
Qed.

(** * Asking for the blocks *)

Lemma mark_all_ok st nNow n l s state : peers_ok s -> State s n = Some state ->
  exists s', mark_all st nNow n l s = Some s' /\ peers_ok s' /\
    (exists state', State s' n = Some state' /\ nBlocksInFlight state' <= nBlocksInFlight state + Z.of_nat (length l)) /\
    (forall k y, k <> n -> State s k = Some y -> exists y', State s' k = Some y' /\ nBlocksInFlight y' <= nBlocksInFlight y) /\
    (forall k, is_Some (State s' k) -> is_Some (State s k)).
Proof.
  revert s state. induction l as [|p l IH]; intros s state K S; cbn [mark_all].
  { exists s. split_and!; try done; [exists state; split; [done|cbn; lia]|]. intros k y _ ?. by exists y. }
  destruct (MarkBlockAsInFlight_ok nNow n (phashBlock (deref st p)) (Some p) s state K S) as (s1 & -> & K1 & _ & (state1 & S1 & L1) & H1 & D1).
  cbn [mbind option_bind]. destruct (IH s1 state1 K1 S1) as (s2 & E & K2 & (state2 & S2 & L2) & H2 & D2).
  exists s2. split_and!; [done|done|exists state2; split; [done|cbn; lia]| |auto].
  intros k y Hk Sy. destruct (H1 k y Hk Sy) as (y1 & Sy1 & ?). destruct (H2 k y1 Hk Sy1) as (y2 & Sy2 & ?). exists y2. split; [done|lia].
Qed.

(** At most 16 blocks are in flight from a peer. *)
Definition within_limit (s : Peers) : Prop := forall n state, State s n = Some state -> nBlocksInFlight state <= MAX_BLOCKS_IN_TRANSIT_PER_PEER.

Lemma within_limit_no_more s s' : no_more s s' -> within_limit s -> within_limit s'.
Proof.
  intros [H D] W n state' S'. destruct (D n ltac:(by exists state')) as [state S]. destruct (H n state S) as (x & Sx & Hx).
  rewrite S' in Sx. apply Some_inj in Sx as <-. pose proof (W n state S). lia.
Qed.

Lemma set_nodes_no_more s n state state' : State s n = Some state -> nBlocksInFlight state' <= nBlocksInFlight state ->
  no_more s (set_nodes (<[n := state']> (mapNodeState s)) s).
Proof.
  intros S H. split; intros k; [intros y Sy|]; unfold State; cbn [set_nodes mapNodeState]; destruct (decide (k = n)) as [->|Hk].
  - rewrite S in Sy. apply Some_inj in Sy as <-. rewrite lookup_insert_eq. by exists state'.
  - rewrite lookup_insert_ne by done. by exists y.
  - intros _. by exists state.
  - by rewrite lookup_insert_ne.
Qed.

Lemma request_blocks_ok st c idx pto fetch nNow n s s' l : peers_ok s -> within_limit s ->
  request_blocks st c idx pto fetch nNow n s = Some (s', l) -> peers_ok s' /\ within_limit s'.
Proof.
  intros K W E. unfold request_blocks in E. apply bind_Some in E as (state & S & E).
  destruct (_ && _ && _) eqn:C; [|injection E as <- _; done]. apply andb_true_iff in C as [_ C]. apply Z.ltb_lt in C.
  apply bind_Some in E as ([[s1 blocks] staller] & E1 & E).
  assert (Hc : 0 <= MAX_BLOCKS_IN_TRANSIT_PER_PEER - nBlocksInFlight state) by lia.
  destruct (FindNextBlocksToDownload_flight _ _ _ _ _ state _ _ _ _ S Hc E1) as (Hl & n' & -> & F).
  destruct F as (F1 & F2 & F3 & F4). assert (K1 : peers_ok (set_nodes (<[n := n']> (mapNodeState s)) s)) by by apply (set_nodes_ok s n state).
  set (s1 := set_nodes _ s) in *. assert (S1 : State s1 n = Some n') by apply lookup_insert_eq.
  assert (Hs1 : forall k, k <> n -> State s1 k = State s k) by (intros k Hk; unfold State; cbn; by rewrite lookup_insert_ne).
  destruct (mark_all_ok st nNow n blocks s1 n' K1 S1) as (s2 & E2 & K2 & (n2 & S2 & L2) & H2 & D2). rewrite E2 in E. cbn [mbind option_bind] in E.
  rewrite S2 in E. cbn [mbind option_bind] in E.
  assert (W2 : within_limit s2).
  { intros k y Sy. destruct (decide (k = n)) as [->|Hk].
    - rewrite S2 in Sy. apply Some_inj in Sy as <-. rewrite F2 in L2. lia.
    - destruct (D2 k ltac:(by exists y)) as [x Sx]. destruct (H2 k x Hk Sx) as (y' & Sy' & ?). rewrite Sy in Sy'. apply Some_inj in Sy' as <-.
      rewrite Hs1 in Sx by done. pose proof (W k x Sx). lia. }
  destruct (_ && _); [|injection E as <- _; done]. apply bind_Some in E as (ns & Sn & E). injection E as <- _. case_match; [|done].
  split; [by apply (set_nodes_ok s2 staller ns)|]. apply (within_limit_no_more s2); [|done]. by apply (set_nodes_no_more s2 staller ns).
Qed.

(** No peer's state is missing when blocks are asked for. *)
Lemma request_blocks_total st c idx pto fetch nNow n s state :
  wf_store st -> wf_chain st c -> is_Some (Tip c) -> one_genesis st -> tracked st idx s -> peers_ok s -> State s n = Some state ->
  is_Some (request_blocks st c idx pto fetch nNow n s).
Proof.
  intros Hwf Hc HT G T K S. unfold request_blocks. rewrite S. cbn [mbind option_bind]. destruct (_ && _ && _); [|eauto].
  set (count := MAX_BLOCKS_IN_TRANSIT_PER_PEER - nBlocksInFlight state).
  destruct (FindNextBlocksToDownload_spec st c idx s n state count Hwf Hc HT G T S) as (n' & blocks & staller & -> & (F1 & F2 & F3 & F4) & _ & R).
  cbn [mbind option_bind]. set (s1 := set_nodes _ s). assert (K1 : peers_ok s1) by by apply (set_nodes_ok s n state).
  assert (S1 : State s1 n = Some n') by apply lookup_insert_eq.
  destruct (mark_all_ok st nNow n blocks s1 n' K1 S1) as (s2 & -> & K2 & (n2 & S2 & _) & H2 & _). cbn [mbind option_bind]. rewrite S2.
  cbn [mbind option_bind]. destruct (Z.eqb_spec staller (-1)) as [|Hs]; [rewrite andb_false_r; eauto|]. destruct (_ && _); [|eauto].
  assert (Pr : exists h it, mapBlocksInFlight s !! h = Some (staller, it)).
  { destruct R as [(_ & ? & _)|(best & common & l & r & _ & _ & _ & _ & _ & _ & [(seen & rest & _ & _ & _ & _ & _ & Hwa & _) _ Hst] & _ & Es & _)]; [done|].
    cbn in Hst, Hwa. destruct Hst as [?|(_ & Ew & _)]; [congruence|]. destruct Hwa as [?|(p & it & _ & Ep)]; [congruence|].
    exists (phashBlock (deref st p)), it. by rewrite Es, Ew. }
  destruct Pr as (h & it & M). destruct (proj1 (pk_map _ K h staller it) M) as (q & (y & Sy & _) & _).
  assert (S3 : exists y', State s2 staller = Some y').
  { destruct (decide (staller = n)) as [->|Hne]; [by exists n2|]. destruct (H2 staller y Hne) as (y' & Sy' & _); [|by exists y'].
    unfold State, s1. cbn [set_nodes mapNodeState]. by rewrite lookup_insert_ne. }
  destruct S3 as (y' & ->). cbn [mbind option_bind]. eauto.
Qed.

(** * Peers over time *)

(** What happens to the variables, whatever the block index is when it happens. *)
Inductive peer_step : Peers -> Peers -> Prop :=
| step_initialize n s : peer_step s (InitializeNode n s)
| step_finalize n s s' : FinalizeNode n s = Some s' -> peer_step s s'
| step_preferred node n s s' : UpdatePreferredDownload node n s = Some s' -> peer_step s s'
| step_misbehaving banscore n howmuch s : peer_step s (Misbehaving banscore n howmuch s)
| step_connected net n s s' : connected_node net n s = Some s' -> peer_step s s'
| step_ban white loc n s s' b : handle_ban white loc n s = Some (s', b) -> peer_step s s'
| step_received hash s s' : MarkBlockAsReceived hash s = Some s' -> peer_step s s'
| step_availability st idx n hash s s' : UpdateBlockAvailability st idx n hash s = Some s' -> peer_step s s'
| step_start_sync pto fReindex header_time adjusted n s s' b : start_sync pto fReindex header_time adjusted n s = Some (s', b) -> peer_step s s'
| step_request st c idx pto fetch nNow n s s' l : request_blocks st c idx pto fetch nNow n s = Some (s', l) -> peer_step s s'
| step_orphans o s : orphan_step (orphans s) o -> peer_step s
    {| mapNodeState := mapNodeState s; mapBlocksInFlight := mapBlocksInFlight s; nQueuedValidatedHeaders := nQueuedValidatedHeaders s;
       nPreferredDownload := nPreferredDownload s; nSyncStarted := nSyncStarted s; orphans := o; next_address := next_address s |}.

Lemma no_more_update s s' n state state' : State s n = Some state -> mapNodeState s' = <[n := state']> (mapNodeState s) ->
  nBlocksInFlight state' = nBlocksInFlight state -> no_more s s'.
Proof.
  intros S Em Ec. pose proof (set_nodes_no_more s n state state' S ltac:(lia)) as [A B].
  split; intros k; unfold State in *; rewrite Em; [apply A|apply B].
Qed.

Lemma FinalizeNode_no_more s s' n : State s' n = None -> (forall k, k <> n -> State s' k = State s k) -> within_limit s -> within_limit s'.
Proof.
  intros N H W k y Sy. destruct (decide (k = n)) as [->|Hk]; [by rewrite N in Sy|]. rewrite H in Sy by done. by apply (W k).
Qed.

Lemma UpdateBlockAvailability_no_more st idx n hash s s' : UpdateBlockAvailability st idx n hash s = Some s' -> no_more s s'.
Proof.
  intros E. unfold UpdateBlockAvailability, ProcessBlockAvailability, update_state in E. apply bind_Some in E as (s1 & E1 & E).
  apply bind_Some in E1 as (x & Sx & E1). apply bind_Some in E as (y & Sy & E). injection E1 as <-. injection E as <-.
  destruct (availability_same st idx x) as (_ & Ex & _). unfold State in Sy. cbn [set_nodes mapNodeState] in Sy. rewrite lookup_insert_eq in Sy.
  apply Some_inj in Sy as <-. rewrite set_nodes_twice. cbn [set_nodes mapNodeState].
  eapply (no_more_update s _ n x); [done|cbn [set_nodes mapNodeState]; apply insert_insert_eq|]. by case_match.
Qed.

Lemma update_state_step n f s s' : peers_ok s /\ within_limit s -> update_state n f s = Some s' -> (forall x, same_flight x (f x)) ->
  peers_ok s' /\ within_limit s'.
Proof.
  intros [K W] E H. unfold update_state in E. apply bind_Some in E as (x & S & E). injection E as <-. destruct (H x) as (F1 & F2 & F3 & F4).
  split; [by apply (set_nodes_ok s n x)|]. apply (within_limit_no_more s); [|done]. apply (set_nodes_no_more s n x); [done|lia].
Qed.

Lemma peer_step_ok s s' : peer_step s s' -> peers_ok s /\ within_limit s -> peers_ok s' /\ within_limit s'.
Proof.
  intros P [K W]. destruct P as [n s|n s s' E|node n s s' E|ban n howmuch s|net n s s' E|white loc n s s' b E|hash s s' E|st idx n hash s s' E|pto r ht ad n s s' b E|st c idx pto f t n s s' l E|o s So].
  - split; [by apply InitializeNode_ok|]. unfold InitializeNode. destruct (State s n) as [x|] eqn:S; [done|]. intros k y. unfold State.
    cbn [set_nodes mapNodeState]. destruct (decide (k = n)) as [->|Hk]; [rewrite lookup_insert_eq; by intros <-%Some_inj|].
    rewrite lookup_insert_ne by done. apply W.
  - destruct (State s n) as [x|] eqn:S; [|unfold FinalizeNode in E; by rewrite S in E].
    destruct (FinalizeNode_ok n s x K S) as (s2 & E2 & K2 & N2 & H2 & _). rewrite E in E2. apply Some_inj in E2 as <-.
    split; [done|]. by apply (FinalizeNode_no_more s s' n).
  - split; [by apply (UpdatePreferredDownload_ok node n s)|]. unfold UpdatePreferredDownload in E. apply bind_Some in E as (x & S & E).
    injection E as <-. apply (within_limit_no_more s); [|done]. by eapply (no_more_update s _ n x).
  - split; [by apply Misbehaving_ok|]. unfold Misbehaving. case_match; [done|]. destruct (State s n) as [x|] eqn:S; [|done].
    apply (within_limit_no_more s); [|done]. by apply (set_nodes_no_more s n x).
  - unfold connected_node in E. destruct net; [|by injection E as <-]. by eapply update_state_step.
  - unfold handle_ban in E. apply bind_Some in E as (x & _ & E). destruct (fShouldBan x); [|by injection E as <- _].
    apply bind_Some in E as (s2 & E & E2). injection E2 as <- _. by eapply update_state_step.
  - destruct (MarkBlockAsReceived_ok hash s K) as (s2 & E2 & K2 & _ & Hn). rewrite E in E2. apply Some_inj in E2 as <-.
    split; [done|]. by apply (within_limit_no_more s).
  - split; [by apply (UpdateBlockAvailability_ok st idx n hash s)|]. apply (within_limit_no_more s); [|done].
    by apply (UpdateBlockAvailability_no_more st idx n hash).
  - split; [by apply (start_sync_ok pto r ht ad n s s' b)|]. unfold start_sync in E. apply bind_Some in E as (x & S & E).
    case_match; injection E as <- _; [|done]. apply (within_limit_no_more s); [|done]. by eapply (no_more_update s _ n x).
  - by apply (request_blocks_ok st c idx pto f t n s s' l).
  - split; [|done]. pose proof K as []. split; try done. by apply (orphan_step_ok (orphans s)).
Qed.

(** C17 However peers come and go, are marked, announce blocks, are asked for blocks and
    send them: a hash is in [mapBlocksInFlight] with a peer and an entry exactly when that
    entry, for that hash, is in the list of the peer, so that no block is in flight from
    two peers; the counters of blocks in flight, of preferred peers and of peers that
    synchronize are what they count; no peer has more than 16 blocks in flight.
    [MarkBlockAsReceived] follows only iterators that are valid; [FinalizeNode] leaves
    nothing that names the peer; and asking a peer for blocks never meets a peer whose
    state is missing. *)
Theorem peers_consistent s : rtc peer_step no_peers s ->
  peers_ok s /\ (forall n state, State s n = Some state -> Z.of_nat (length (vBlocksInFlight state)) <= MAX_BLOCKS_IN_TRANSIT_PER_PEER) /\
  (forall hash, exists s', MarkBlockAsReceived hash s = Some s' /\ mapBlocksInFlight s' = delete hash (mapBlocksInFlight s)) /\
  (forall n state, State s n = Some state -> exists s', FinalizeNode n s = Some s' /\ State s' n = None /\
     (forall hash it, mapBlocksInFlight s' !! hash <> Some (n, it)) /\
     forall hash o, mapOrphanTransactions (orphans s') !! hash = Some o -> fromPeer o <> n) /\
  (forall st c idx pto fetch nNow n state, wf_store st -> wf_chain st c -> is_Some (Tip c) -> one_genesis st -> tracked st idx s ->
     State s n = Some state -> is_Some (request_blocks st c idx pto fetch nNow n s)).
Proof.
  intros R. assert (K : peers_ok s /\ within_limit s).
  { refine (rtc_ind_r (fun s => peers_ok s /\ within_limit s) no_peers (conj no_peers_ok _) _ s R); [|intros y z _ P Ky; by apply (peer_step_ok y)].
    intros n state. unfold State, no_peers. cbn [mapNodeState]. by rewrite lookup_empty. }
  destruct K as [K W]. split_and!; [done|..].
  - intros n state S. rewrite <- (pk_count _ K n) by done. by apply (W n).
  - intros hash. destruct (MarkBlockAsReceived_ok hash s K) as (s' & E & _ & M & _). by exists s'.
  - intros n state S. destruct (FinalizeNode_ok n s state K S) as (s' & E & K' & N & _ & _ & O). exists s'. split_and!; [done|done| |done].
    intros hash it M. apply (pk_map _ K') in M as (q & (y & Sy & _) & _). by rewrite N in Sy.
  - intros *. by eauto using request_blocks_total.
Qed.

(** C18 On a block index that is a tree with one genesis block, an active chain of it with a
    tip, and peers whose blocks are in the index: asked for at least one block,
    [FindNextBlocksToDownload] ends, without following a null pointer, and changes only what
    the node knows about the peer's blocks, which it first brings up to date with the block
    the peer announced last; it asks for at most [count] blocks, in the order of their
    heights.  It returns early, with no block and no staller, exactly in three cases: no
    block of the peer is known, the best one has less work than our tip, or the best one is
    the highest common ancestor of itself and of the last common block (of the block of the
    active chain at its height, when none is remembered).
    Otherwise the blocks are the first ones on the branch of the best known block, above
    that common ancestor and at most 1024 above it, that are valid, not there and not in
    flight: none before one of them is left out, and if there are fewer than [count] and no
    block is invalid, none in the window is.  A staller is then another peer that has a
    block of the branch in flight, and there is one only when there is nothing to ask for. *)
Theorem FindNextBlocksToDownload_correct st c idx s nodeid state count :
  wf_store st -> wf_chain st c -> is_Some (Tip c) -> one_genesis st -> tracked st idx s -> State s nodeid = Some state -> 0 < count ->
  exists n' blocks staller, FindNextBlocksToDownload st c idx nodeid count s = Some (set_nodes (<[nodeid := n']> (mapNodeState s)) s, blocks, staller) /\
    same_flight state n' /\ tracked st idx (set_nodes (<[nodeid := n']> (mapNodeState s)) s) /\
    Z.of_nat (length blocks) <= count /\ StronglySorted (fun p q => height_of st p < height_of st q) blocks /\
    (of_no_interest st c (availability st idx state) n' /\ blocks = [] /\ staller = -1 \/
     exists best common, search_from st c (availability st idx state) best common /\ common <> best /\ pindexBestKnownBlock n' = Some best /\
       good_choice st (mapBlocksInFlight s) nodeid count n' best common blocks staller).
Proof.
  intros Hwf Hc HT G T S Hn.
  destruct (FindNextBlocksToDownload_spec st c idx s nodeid state count Hwf Hc HT G T S) as (n' & blocks & staller & E & F & T' & R).
  exists n', blocks, staller. split; [done|]. split; [done|]. split; [done|].
  destruct R as [(-> & -> & [?|N])|(best & common & l & r & From & Hne & Eb & Hb & Hcm & B & Se & -> & -> & Ec)]; [lia|..].
  { split; [cbn; lia|]. split; [constructor|by left]. }
  assert (A : ancestor st common best) by (destruct From as (? & ? & _ & _ & _ & _ & L); apply L).
  split; [by apply (se_count _ _ _ _ _ _ _ _ Se)|]. split.
  - destruct (se_split _ _ _ _ _ _ _ _ Se) as (seen & rest & -> & -> & _). cbn. apply sorted_filter.
    by eapply sorted_app_l, branch_ascending.
  - right. exists best, common. split_and!; [done..|]. by apply (searched_good st _ _ _ _ _ _ l).
Qed.

(** The blocks of the example, with valid headers and no data; a peer has block 5, we are
    at genesis. *)
Definition example_headers : store := (fun b => set_work (u256 1) (set_status (Z.lor (nStatus b) BLOCK_VALID_TREE) b)) <$> example_store.

Definition example_peer : CNodeState := set_known (Some 5%nat) (zero W256) None new_node_state.
Definition example_peers : Peers := set_nodes {[ 1 := example_peer ]} no_peers.

Example example_download :
  (fun r => (r.1.2, r.2)) <$> FindNextBlocksToDownload example_headers [Some 0%nat] ∅ 1 3 example_peers = Some ([1%nat; 2%nat; 3%nat], -1).
Proof. vm_compute. reflexivity. Qed.

Lemma example_headers_wf : wf_store example_headers.
Proof. apply wf_store_map. apply (bool_decide_unpack _). vm_compute. exact I. Qed.

Lemma example_headers_genesis : one_genesis example_headers.
Proof.
  assert (H : map_Forall (fun p b => nHeight b = 0 -> p = 0%nat) example_headers) by (apply (bool_decide_unpack _); vm_compute; exact I).
  intros p q [a Ha] [b Hb]. unfold height_of, deref. rewrite Ha, Hb. cbn. intros Ea Ebb. by rewrite (H p a Ha Ea), (H q b Hb Ebb).
Qed.

Lemma example_peers_tracked : tracked example_headers ∅ example_peers.
Proof.
  split; [intros h p; by rewrite lookup_empty|]. intros n state p. unfold State, example_peers. cbn [set_nodes mapNodeState].
  intros [<- <-]%lookup_singleton_Some. intros [[= <-]|?]; [|done]. vm_compute. eauto.
Qed.

Lemma genesis_chain_wf : wf_chain example_headers [Some 0%nat].
Proof.
  intros i x Hi. destruct i as [|i]; [|done]. injection Hi as <-. exists 0%nat. split_and!; [done|vm_compute; eauto|done|done].
Qed.

Lemma FindNextBlocksToDownload_correct_witness :
  exists n' blocks staller, FindNextBlocksToDownload example_headers [Some 0%nat] ∅ 1 3 example_peers =
      Some (set_nodes (<[1 := n']> (mapNodeState example_peers)) example_peers, blocks, staller) /\
    same_flight example_peer n' /\ tracked example_headers ∅ (set_nodes (<[1 := n']> (mapNodeState example_peers)) example_peers) /\
    Z.of_nat (length blocks) <= 3 /\ StronglySorted (fun p q => height_of example_headers p < height_of example_headers q) blocks /\
    (of_no_interest example_headers [Some 0%nat] (availability example_headers ∅ example_peer) n' /\ blocks = [] /\ staller = -1 \/
     exists best common, search_from example_headers [Some 0%nat] (availability example_headers ∅ example_peer) best common /\ common <> best /\
       pindexBestKnownBlock n' = Some best /\
       good_choice example_headers (mapBlocksInFlight example_peers) 1 3 n' best common blocks staller).
Proof.
  assert (HT : is_Some (Tip [Some 0%nat])) by (exists 0%nat; reflexivity). assert (S : State example_peers 1 = Some example_peer) by reflexivity.
  exact (FindNextBlocksToDownload_correct example_headers [Some 0%nat] ∅ example_peers 1 example_peer 3 example_headers_wf genesis_chain_wf HT
    example_headers_genesis example_peers_tracked S eq_refl).
Defined.

(** A peer connects, is asked for three blocks and leaves: the headers queued are still
    counted. *)
Definition example_session : option Peers :=
  let s := InitializeNode 1 no_peers in
  s ← MarkBlockAsInFlight 1000 1 (u256 101) (Some 1%nat) s;
  FinalizeNode 1 s.

Example queued_headers_remain : (fun s => (nQueuedValidatedHeaders s, size (mapNodeState s), size (mapBlocksInFlight s))) <$> example_session = Some (1, 0%nat, 0%nat).
Proof. vm_compute. reflexivity. Qed.

(** A peer connects, announces block 5 and is asked for the blocks up to it. *)
Definition example_index : gmap uint256 ptr := {[ u256 105 := 5%nat ]}.
Definition example_announced : Peers := default no_peers (UpdateBlockAvailability example_headers example_index 1 (u256 105) (InitializeNode 1 no_peers)).
Definition example_requested : Peers := default no_peers
  (fst <$> request_blocks example_headers [Some 0%nat] example_index (Build_CNode false false false false) true 1000 1 example_announced).

Example example_requested_flight : (fun n => (nBlocksInFlight n, map (fun e : Z * QueuedBlock => q_pindex e.2) (vBlocksInFlight n))) <$> State example_requested 1 =
  Some (5, [Some 1%nat; Some 2%nat; Some 3%nat; Some 4%nat; Some 5%nat]).
Proof. vm_compute. reflexivity. Qed.

Lemma example_requested_reached : rtc peer_step no_peers example_requested.
Proof.
  eapply rtc_l; [apply (step_initialize 1)|]. eapply rtc_l.
  { apply (step_availability example_headers example_index 1 (u256 105) _ example_announced). vm_compute. reflexivity. }
  apply rtc_once. apply (step_request example_headers [Some 0%nat] example_index (Build_CNode false false false false) true 1000 1 _ _ [1; 2; 3; 4; 5]%nat).
  vm_compute. reflexivity.
Qed.

Lemma peers_consistent_witness :
  peers_ok example_requested /\
  (forall n state, State example_requested n = Some state -> Z.of_nat (length (vBlocksInFlight state)) <= MAX_BLOCKS_IN_TRANSIT_PER_PEER) /\
  (forall hash, exists s', MarkBlockAsReceived hash example_requested = Some s' /\ mapBlocksInFlight s' = delete hash (mapBlocksInFlight example_requested)) /\
  (forall n state, State example_requested n = Some state -> exists s', FinalizeNode n example_requested = Some s' /\ State s' n = None /\
     (forall hash it, mapBlocksInFlight s' !! hash <> Some (n, it)) /\
     forall hash o, mapOrphanTransactions (orphans s') !! hash = Some o -> fromPeer o <> n) /\
  (forall st c idx pto fetch nNow n state, wf_store st -> wf_chain st c -> is_Some (Tip c) -> one_genesis st -> tracked st idx example_requested ->
     State example_requested n = Some state -> is_Some (request_blocks st c idx pto fetch nNow n example_requested)).
Proof. exact (peers_consistent example_requested example_requested_reached). Defined.
