(* ===== verification/Messages.v ===== *)
(** Messages between peers: the header of protocol.h, what a node queues for a peer
    ([BeginMessage], [EndMessage], [SocketSendData] of net.cpp), how bytes that arrive
    become messages ([ReceiveMsgBytes], [readHeader], [readData]), the messages the
    node takes up ([ProcessMessages] of main.cpp), and inventories ([CInv]).

    A [char] is a byte 0..255.  A stream is its bytes: its type and version are left
    out, and so are the [-fuzzmessagestest] option and the counters of traffic.  What a
    message does once it has been taken up is the interface [PeerOps]. *)

From stdpp Require Import list strings.
From S2P Require Import Prelude Uint256 Arith256 Serialize Hashes Transaction.

Local Open Scope Z_scope.
#[local] Abbreviation length := Datatypes.length.

(** * Data *)

Definition MESSAGE_START_SIZE : nat := 4.
Definition COMMAND_SIZE : nat := 12.
Definition MESSAGE_SIZE_OFFSET : nat := MESSAGE_START_SIZE + COMMAND_SIZE.
Definition CHECKSUM_OFFSET : nat := MESSAGE_SIZE_OFFSET + 4.
Definition HEADER_SIZE : nat := MESSAGE_START_SIZE + COMMAND_SIZE + 4 + 4.

Definition MAX_PROTOCOL_MESSAGE_LENGTH : Z := 2 * 1024 * 1024.

(** The bytes that open every message, per network; the unit tests' network is a main
    network. *)
Inductive Network : Type := MAIN | TESTNET | REGTEST | UNITTEST.

Definition MessageStart (n : Network) : byte_list :=
  match n with
  | MAIN | UNITTEST => [0xb2; 0x3a; 0x4f; 0xbb]
  | TESTNET => [0x77; 0xe3; 0xfb; 0x39]
  | REGTEST => [0x62; 0xd6; 0x2d; 0x84]
  end.

Record CMessageHeader := {
  pchMessageStart : byte_list;
  pchCommand : byte_list;
  nMessageSize : Z;
  nChecksum : Z
}.

Definition c_message_header : codec CMessageHeader :=
  c_iso (fun x => {| pchMessageStart := x.1; pchCommand := x.2.1; nMessageSize := x.2.2.1; nChecksum := x.2.2.2 |})
        (fun h => (pchMessageStart h, (pchCommand h, (nMessageSize h, nChecksum h))))
        (c_pair (c_flat MESSAGE_START_SIZE) (c_pair (c_flat COMMAND_SIZE) (c_pair (c_uint 4) (c_uint 4)))).

Record CNetMessage := {
  in_data : bool;
  hdrbuf : byte_list;
  hdr : CMessageHeader;
  nHdrPos : Z;
  vRecv : byte_list;
  nDataPos : Z;
  msg_nTime : Z
}.

(** [memcpy(&buf[pos], data, data.size())]. *)
Definition overwrite (buf : byte_list) (pos : nat) (data : byte_list) : byte_list :=
  take pos buf ++ data ++ drop (pos + length data) buf.

(** [vector::resize]. *)
Definition resize_bytes (n : nat) (v : byte_list) : byte_list := take n v ++ replicate (n - length v) 0.

(** The first four bytes of the hash of the payload. *)
Definition payload_checksum (m : byte_list) : Z := nth 0 (Hash m) 0.

(** * Headers *)

Section Header.
Context (net : Network).

(** The two constructors: with no argument, and for a message about to be sent. *)
Definition new_header : CMessageHeader := {|
  pchMessageStart := MessageStart net; pchCommand := replicate COMMAND_SIZE 0; nMessageSize := u32 (-1); nChecksum := 0 |}.

(** [strncpy] into a buffer that was zeroed. *)
Definition make_header (pszCommand : byte_list) (nMessageSizeIn : Z) : CMessageHeader := {|
  pchMessageStart := MessageStart net; pchCommand := resize_bytes COMMAND_SIZE (take COMMAND_SIZE pszCommand);
  nMessageSize := nMessageSizeIn; nChecksum := 0 |}.

(** [strnlen]: the bytes before the first zero. *)
Fixpoint until_zero (s : byte_list) : byte_list :=
  match s with
  | [] => []
  | c :: s' => if c =? 0 then [] else c :: until_zero s'
  end.

Definition header_GetCommand (h : CMessageHeader) : byte_list := until_zero (pchCommand h).

(** The loop of [IsValid] over the command; a [char] is signed. *)
Fixpoint command_ok (s : byte_list) : bool :=
  match s with
  | [] => true
  | c :: s' =>
      if c =? 0 then forallb (fun c' => c' =? 0) s
      else if (signed 1 c <? 32) || (0x7E <? signed 1 c) then false
      else command_ok s'
  end.

Definition start_ok (h : CMessageHeader) : bool := bool_decide (pchMessageStart h = MessageStart net).

Definition header_IsValid (h : CMessageHeader) : bool :=
  if negb (start_ok h) then false
  else if negb (command_ok (pchCommand h)) then false
  else if MAX_SIZE <? nMessageSize h then false
  else true.

(** * Receiving *)

Definition new_message : CNetMessage := {|
  in_data := false; hdrbuf := replicate 24 0; hdr := new_header; nHdrPos := 0; vRecv := []; nDataPos := 0; msg_nTime := 0 |}.

Definition complete (m : CNetMessage) : bool :=
  if negb (in_data m) then false else nMessageSize (hdr m) =? nDataPos m.

Definition set_hdr (data : bool) (buf : byte_list) (h : CMessageHeader) (pos : Z) (m : CNetMessage) : CNetMessage := {|
  in_data := data; hdrbuf := buf; hdr := h; nHdrPos := pos; vRecv := vRecv m; nDataPos := nDataPos m; msg_nTime := msg_nTime m |}.

Definition set_data (v : byte_list) (pos : Z) (m : CNetMessage) : CNetMessage := {|
  in_data := in_data m; hdrbuf := hdrbuf m; hdr := hdr m; nHdrPos := nHdrPos m; vRecv := v; nDataPos := pos; msg_nTime := msg_nTime m |}.

Definition set_time (t : Z) (m : CNetMessage) : CNetMessage := {|
  in_data := in_data m; hdrbuf := hdrbuf m; hdr := hdr m; nHdrPos := nHdrPos m; vRecv := vRecv m; nDataPos := nDataPos m; msg_nTime := t |}.

(** What was handled, -1 for an error, and the message after. *)
Definition readHeader (pch : byte_list) (m : CNetMessage) : Z * CNetMessage :=
  let nRemaining := u32 (24 - nHdrPos m) in
  let nCopy := Z.min nRemaining (Z.of_nat (length pch)) in
  let buf := overwrite (hdrbuf m) (Z.to_nat (nHdrPos m)) (take (Z.to_nat nCopy) pch) in
  let pos := u32 (nHdrPos m + nCopy) in
  if pos <? 24 then (nCopy, set_hdr (in_data m) buf (hdr m) pos m)
  else
    match dec c_message_header buf with
    | Err _ => (-1, set_hdr (in_data m) buf (hdr m) pos m)
    | Ok (h, rest) =>
        if MAX_SIZE <? nMessageSize h then (-1, set_hdr (in_data m) rest h pos m)
        else (nCopy, set_hdr true rest h pos m)
    end.

Definition readData (pch : byte_list) (m : CNetMessage) : Z * CNetMessage :=
  let size := nMessageSize (hdr m) in
  let nRemaining := u32 (size - nDataPos m) in
  let nCopy := Z.min nRemaining (Z.of_nat (length pch)) in
  let v := if Z.of_nat (length (vRecv m)) <? u32 (nDataPos m + nCopy)
           then resize_bytes (Z.to_nat (Z.min size (u32 (nDataPos m + nCopy + 256 * 1024)))) (vRecv m)
           else vRecv m in
  (nCopy, set_data (overwrite v (Z.to_nat (nDataPos m)) (take (Z.to_nat nCopy) pch)) (u32 (nDataPos m + nCopy)) m).

(** One round of the loop of [ReceiveMsgBytes]: the messages and the bytes that are left,
    or the answer; [clock n] is [GetTimeMicros()] when [n] bytes are left. *)
Definition receive_step (clock : nat -> Z) (s : list CNetMessage * byte_list) :
    list CNetMessage * byte_list + bool * list CNetMessage :=
  let '(vRecvMsg, pch) := s in
  if (length pch =? 0)%nat then inr (true, vRecvMsg)
  else
    let '(front, msg) := match last vRecvMsg with
                         | Some m => if complete m then (vRecvMsg, new_message) else (removelast vRecvMsg, m)
                         | None => (vRecvMsg, new_message)
                         end in
    let '(handled, msg1) := if negb (in_data msg) then readHeader pch msg else readData pch msg in
    if handled <? 0 then inr (false, front ++ [msg1])
    else if in_data msg1 && (MAX_PROTOCOL_MESSAGE_LENGTH <? nMessageSize (hdr msg1)) then inr (false, front ++ [msg1])
    else
      let pch1 := drop (Z.to_nat handled) pch in
      let msg2 := if complete msg1 then set_time (clock (length pch1)) msg1 else msg1 in
      inl (front ++ [msg2], pch1).

Definition ReceiveMsgBytes (clock : nat -> Z) (pch : byte_list) (vRecvMsg : list CNetMessage) : option (bool * list CNetMessage) :=
  run_loop (receive_step clock) (S (length pch)) (vRecvMsg, pch).

Definition GetTotalRecvSize (vRecvMsg : list CNetMessage) : Z :=
  foldl (fun total m => u32 (total + Z.of_nat (length (vRecv m)) + 24)) 0 vRecvMsg.
End Header.

(** * Taking messages up *)

(** What the node keeps about a peer besides the messages it receives, and what it does
    with one: the interface of [ProcessMessages].  [ProcessMessage] includes the
    exceptions it may throw, which only end the treatment of the message. *)
Class PeerOps (T : Type) := {
  fDisconnect : T -> bool;
  close_socket : T -> T;
  getdata_empty : T -> bool;
  send_buffer_full : T -> bool;
  ProcessGetData : T -> T;
  ProcessMessage : byte_list -> byte_list -> Z -> T -> T
}.

(** What the interface promises: a closed connection is marked; [log] lists the commands
    and payloads that have been taken up and grows by those given to [ProcessMessage]. *)
Class PeerLaws {T} (ops : PeerOps T) (log : T -> list (byte_list * byte_list)) := {
  close_disconnects s : fDisconnect (close_socket s) = true;
  log_close s : log (close_socket s) = log s;
  log_getdata s : log (ProcessGetData s) = log s;
  log_message c v t s : log (ProcessMessage c v t s) = log s ++ [(c, v)]
}.

Section Process.
Context (net : Network) {T : Type} {ops : PeerOps T}.

(** The loop of [ProcessMessages]: [fOk], the state and the messages from [it] on. *)
Fixpoint process_loop (it : list CNetMessage) (s : T) : bool * T * list CNetMessage :=
  match it with
  | [] => (true, s, [])
  | msg :: it' =>
      if fDisconnect s then (true, s, it)
      else if send_buffer_full s then (true, s, it)
      else if negb (complete msg) then (true, s, it)
      else if negb (start_ok net (hdr msg)) then (false, s, it')
      else if negb (header_IsValid net (hdr msg)) then process_loop it' s
      else
        let strCommand := header_GetCommand (hdr msg) in
        if negb (payload_checksum (take (Z.to_nat (nMessageSize (hdr msg))) (vRecv msg)) =? nChecksum (hdr msg))
        then process_loop it' s
        else (true, ProcessMessage strCommand (vRecv msg) (msg_nTime msg) s, it')
  end.

Definition ProcessMessages (vRecvMsg : list CNetMessage) (s : T) : bool * T * list CNetMessage :=
  let s1 := if getdata_empty s then s else ProcessGetData s in
  if negb (getdata_empty s1) then (true, s1, vRecvMsg)
  else
    let '(fOk, s2, it) := process_loop vRecvMsg s1 in
    (fOk, s2, if fDisconnect s2 then vRecvMsg else it).

(** A peer: its state and its messages. *)
Record CNode := { peer : T; vRecvMsg : list CNetMessage }.

(** [CloseSocketDisconnect]. *)
Definition CloseSocketDisconnect (n : CNode) : CNode := {| peer := close_socket (peer n); vRecvMsg := [] |}.

(** What the threads do to a peer: the socket's thread reads bytes from an open socket,
    the handler's thread takes up messages of a peer that is not disconnected. *)
Inductive peer_event : Type :=
| Arrive (clock : nat -> Z) (pch : byte_list)
| Handle.

Definition peer_step (e : peer_event) (n : CNode) : option CNode :=
  if fDisconnect (peer n) then Some n
  else
    match e with
    | Arrive clock pch =>
        r ← ReceiveMsgBytes net clock pch (vRecvMsg n);
        let n1 := {| peer := peer n; vRecvMsg := r.2 |} in
        Some (if r.1 : bool then n1 else CloseSocketDisconnect n1)
    | Handle =>
        let '(ok, s, ms) := ProcessMessages (vRecvMsg n) (peer n) in
        let n1 := {| peer := s; vRecvMsg := ms |} in
        Some (if ok then n1 else CloseSocketDisconnect n1)
    end.

Fixpoint peer_run (es : list peer_event) (n : CNode) {struct es} : option CNode :=
  match es with
  | [] => Some n
  | e :: es' => n1 ← peer_step e n; peer_run es' n1
  end.
End Process.
Arguments CNode T : clear implicits.

(** * Sending *)

Record sender := {
  ssSend : byte_list;
  vSendMsg : list byte_list;
  nSendOffset : Z;
  nSendSize : Z;
  send_closed : bool;
  wire : byte_list
}.

Definition set_ss (ss : byte_list) (s : sender) : sender := {|
  ssSend := ss; vSendMsg := vSendMsg s; nSendOffset := nSendOffset s; nSendSize := nSendSize s; send_closed := send_closed s; wire := wire s |}.

Definition enqueue (data : byte_list) (s : sender) : sender := {|
  ssSend := []; vSendMsg := vSendMsg s ++ [data]; nSendOffset := nSendOffset s;
  nSendSize := nSendSize s + Z.of_nat (length data); send_closed := send_closed s; wire := wire s |}.

Definition set_queue (q : list byte_list) (off size : Z) (closed : bool) (w : byte_list) (s : sender) : sender := {|
  ssSend := ssSend s; vSendMsg := q; nSendOffset := off; nSendSize := size; send_closed := closed; wire := w |}.

(** What [send] does: it takes as many bytes as the socket has room for, or answers an
    error that does or does not close the connection. *)
Inductive send_answer : Type :=
| Room (room : Z)
| WouldBlock
| SocketError.

(** The loop of [SocketSendData] from [it] on; [None] is a failed assertion.  The answers
    of [send] come from [outs]: when it is over the socket takes nothing. *)
Fixpoint send_loop (it : list byte_list) (outs : list send_answer) (s : sender) : option sender :=
  match it with
  | [] => Some (set_queue [] (nSendOffset s) (nSendSize s) (send_closed s) (wire s) s)
  | data :: it' =>
      if Z.of_nat (length data) <=? nSendOffset s then None
      else
        let s0 := set_queue it (nSendOffset s) (nSendSize s) (send_closed s) (wire s) s in
        match outs with
        | Room room :: outs' =>
            let nBytes := Z.min room (Z.of_nat (length data) - nSendOffset s) in
            if 0 <? nBytes then
              let w := wire s ++ take (Z.to_nat nBytes) (drop (Z.to_nat (nSendOffset s)) data) in
              let off := nSendOffset s + nBytes in
              if off =? Z.of_nat (length data)
              then send_loop it' outs' (set_queue it' 0 (nSendSize s - Z.of_nat (length data)) (send_closed s) w s)
              else Some (set_queue it off (nSendSize s) (send_closed s) w s)
            else Some s0
        | SocketError :: _ => Some (set_queue it (nSendOffset s) (nSendSize s) true (wire s) s)
        | WouldBlock :: _ | [] => Some s0
        end
  end.

Definition SocketSendData (outs : list send_answer) (s : sender) : option sender :=
  s1 ← send_loop (vSendMsg s) outs s;
  if (length (vSendMsg s1) =? 0)%nat && negb ((nSendOffset s1 =? 0) && (nSendSize s1 =? 0)) then None
  else Some s1.

Section Send.
Context (net : Network).

Definition BeginMessage (pszCommand : byte_list) (s : sender) : option sender :=
  if (length (ssSend s) =? 0)%nat then Some (set_ss (enc c_message_header (make_header net pszCommand 0)) s) else None.

Definition AbortMessage (s : sender) : sender := set_ss [] s.

(** The size and the checksum written into the header. *)
Definition fill_header (ss : byte_list) : byte_list :=
  let nSize := u32 (Z.of_nat (length ss) - Z.of_nat HEADER_SIZE) in
  let ss1 := overwrite ss MESSAGE_SIZE_OFFSET (le_bytes 4 nSize) in
  let checksum := payload_checksum (drop HEADER_SIZE ss1) in
  overwrite ss1 CHECKSUM_OFFSET (le_bytes 4 checksum).

(** [dropped]: the [-dropmessagestest] option drops this message. *)
Definition EndMessage (dropped : bool) (outs : list send_answer) (s : sender) : option sender :=
  if dropped then Some (AbortMessage s)
  else if (length (ssSend s) =? 0)%nat then Some s
  else
    let s1 := enqueue (fill_header (ssSend s)) s in
    if (length (vSendMsg s) =? 0)%nat then SocketSendData outs s1 else Some s1.

(** [PushMessage] of fields whose serialization is [payload]. *)
Definition PushMessage (pszCommand payload : byte_list) (dropped : bool) (outs : list send_answer) (s : sender) : option sender :=
  s1 ← BeginMessage pszCommand s; EndMessage dropped outs (set_ss (ssSend s1 ++ payload) s1).
End Send.

(** * Inventories *)

Record CInv := { inv_type : Z; inv_hash : uint256 }.

Definition ppszTypeName : list string :=
  ["ERROR"; "tx"; "block"; "filtered block"; "tx lock request"; "tx lock vote"; "spork"; "mn winner"; "mn scan error";
   "mn budget vote"; "mn budget proposal"; "mn budget finalized"; "mn budget finalized vote"; "mn quorum"; "mn announce"; "mn ping"]%string.

Definition new_inv : CInv := {| inv_type := 0; inv_hash := zero W256 |}.

(** The constructor from a name; [junk] is what [type] happens to hold, which stays when
    the name is not known. *)
Fixpoint find_type (i : Z) (names : list string) (strType : string) (junk : Z) : Z :=
  match names with
  | [] => junk
  | n :: names' => if bool_decide (strType = n) then i else find_type (i + 1) names' strType junk
  end.

Definition inv_of_name (junk : Z) (strType : string) (hashIn : uint256) : CInv :=
  {| inv_type := find_type 1 (tail ppszTypeName) strType junk; inv_hash := hashIn |}.

Definition inv_lt (a b : CInv) : bool :=
  (inv_type a <? inv_type b) || ((inv_type a =? inv_type b) && lt (inv_hash a) (inv_hash b)).

Definition IsKnownType (i : CInv) : bool := (1 <=? inv_type i) && (inv_type i <? Z.of_nat (length ppszTypeName)).

Definition IsMasterNodeType (i : CInv) : bool := 6 <=? inv_type i.

Definition inv_GetCommand (i : CInv) : string :=
  if negb (IsKnownType i) then "UNKNOWN" else nth (Z.to_nat (inv_type i)) ppszTypeName EmptyString.

Definition c_inv : codec CInv :=
  c_iso (fun x => {| inv_type := x.1; inv_hash := x.2 |}) (fun i => (inv_type i, inv_hash i))
        (c_pair (c_int 4) c_uint256).

(** * The messages of a stream of bytes

    The specification: the messages that lie whole in the bytes received, and the bytes
    left, or [None] when a header announces more than a message may hold. *)

Definition header_of (bs : byte_list) : CMessageHeader := {|
  pchMessageStart := take 4 bs; pchCommand := take 12 (drop 4 bs);
  nMessageSize := le_val (take 4 (drop 16 bs)); nChecksum := le_val (take 4 (drop 20 bs)) |}.

Abbreviation frame := (CMessageHeader * byte_list)%type (only parsing).

Fixpoint frames_n (n : nat) (bs : byte_list) : list frame * option byte_list :=
  match n with
  | O => ([], Some bs)
  | S n' =>
      if (length bs <? 24)%nat then ([], Some bs)
      else if MAX_PROTOCOL_MESSAGE_LENGTH <? nMessageSize (header_of bs) then ([], None)
      else
        let k := Z.to_nat (nMessageSize (header_of bs)) in
        if (length (drop 24 bs) <? k)%nat then ([], Some bs)
        else
          let x := frames_n n' (drop k (drop 24 bs)) in
          ((header_of bs, take k (drop 24 bs)) :: x.1, x.2)
  end.

Definition frames (bs : byte_list) : list frame * option byte_list := frames_n (S (length bs)) bs.

(** The messages a node takes up: up to one that does not open as a message of the
    network, those with a valid header and the right checksum. *)
Fixpoint genuine (net : Network) (l : list frame) : list (byte_list * byte_list) :=
  match l with
  | [] => []
  | (h, v) :: l' =>
      if negb (start_ok net h) then []
      else if header_IsValid net h && (payload_checksum v =? nChecksum h)
           then (header_GetCommand h, v) :: genuine net l'
           else genuine net l'
  end.

Definition view (m : CNetMessage) : frame := (hdr m, vRecv m).

(** The messages of a node are some that are complete, and at most one under way. *)
Definition whole (m : CNetMessage) : Prop :=
  complete m = true /\ Z.of_nat (length (vRecv m)) = nMessageSize (hdr m) /\ nMessageSize (hdr m) <= MAX_PROTOCOL_MESSAGE_LENGTH.

Inductive under_way : list CNetMessage -> byte_list -> Prop :=
| nothing_yet : under_way [] []
| in_header m p :
    in_data m = false -> length (hdrbuf m) = 24%nat -> (length p < 24)%nat -> nHdrPos m = Z.of_nat (length p) ->
    take (length p) (hdrbuf m) = p -> nDataPos m = 0 -> vRecv m = [] -> under_way [m] p
| in_payload m p :
    in_data m = true -> (24 <= length p)%nat -> hdr m = header_of p -> nMessageSize (hdr m) <= MAX_PROTOCOL_MESSAGE_LENGTH ->
    nDataPos m = Z.of_nat (length p) - 24 -> nDataPos m < nMessageSize (hdr m) ->
    take (Z.to_nat (nDataPos m)) (vRecv m) = drop 24 p ->
    nDataPos m <= Z.of_nat (length (vRecv m)) <= Z.min (nMessageSize (hdr m)) (nDataPos m + 256 * 1024) -> under_way [m] p.

Definition holds (ms : list CNetMessage) (l : list frame) (p : byte_list) : Prop :=
  exists cs t, ms = cs ++ t /\ Forall whole cs /\ view <$> cs = l /\ under_way t p.

(** * Lemmas *)

Lemma overwrite_length buf pos data : (pos + length data <= length buf)%nat -> length (overwrite buf pos data) = length buf.
Proof. intros H. unfold overwrite. rewrite !length_app, length_take, length_drop. lia. Qed.

Lemma overwrite_take buf pos data n : (pos + length data <= length buf)%nat -> n = (pos + length data)%nat ->
  take n (overwrite buf pos data) = take pos buf ++ data.
Proof.
  intros H ->. unfold overwrite. rewrite (assoc (++)). apply take_app_length'.
  rewrite length_app, length_take. lia.
Qed.

Lemma resize_length n v : length (resize_bytes n v) = n.
Proof. unfold resize_bytes. rewrite length_app, length_take, length_replicate. lia. Qed.

Lemma resize_take n k v : (k <= length v)%nat -> (k <= n)%nat -> take k (resize_bytes n v) = take k v.
Proof. intros H1 H2. unfold resize_bytes. rewrite take_app_le by (rewrite length_take; lia). rewrite take_take. f_equal. lia. Qed.

Lemma dec_header bs : (24 <= length bs)%nat -> dec c_message_header bs = Ok (header_of bs, drop 24 bs).
Proof.
  intros H. unfold c_message_header, c_iso, c_pair, c_flat, c_uint. cbn [dec]. unfold read_uint, read_bytes, MESSAGE_START_SIZE, COMMAND_SIZE.
  rewrite (proj2 (Nat.ltb_ge _ _)) by lia. cbn [rbind fst snd].
  rewrite (proj2 (Nat.ltb_ge _ _)) by (rewrite length_drop; lia). cbn [rbind fst snd].
  rewrite (proj2 (Nat.ltb_ge _ _)) by (rewrite !length_drop; lia). cbn [rbind fst snd].
  rewrite (proj2 (Nat.ltb_ge _ _)) by (rewrite !length_drop; lia). cbn [rbind fst snd].
  by rewrite !drop_drop.
Qed.

Lemma header_of_app a b : (24 <= length a)%nat -> header_of (a ++ b) = header_of a.
Proof.
  intros H. unfold header_of. rewrite !drop_app_le by lia.
  rewrite !take_app_le by (rewrite ?length_drop; lia). done.
Qed.

Lemma header_size_pos bs : is_bytes bs -> 0 <= nMessageSize (header_of bs) < 2 ^ 32.
Proof.
  intros H. cbn. pose proof (le_val_bound (take 4 (drop 16 bs))) as B.
  destruct B as [B1 B2]; [by apply words_take, words_drop|]. split; [done|].
  eapply Z.lt_le_trans; [exact B2|]. apply Z.pow_le_mono_r; [lia|]. rewrite length_take. lia.
Qed.

Lemma frames_n_enough n m bs : (length bs < n)%nat -> (length bs < m)%nat -> frames_n n bs = frames_n m bs.
Proof.
  revert m bs. induction n as [|n IH]; intros [|m] bs Hn Hm; try lia. cbn [frames_n].
  destruct (length bs <? 24)%nat eqn:E; [done|]. apply Nat.ltb_ge in E.
  case_match; [done|]. case_match; [done|].
  rewrite (IH m); [done|rewrite !length_drop; lia..].
Qed.

Lemma frames_short bs : (length bs < 24)%nat -> frames bs = ([], Some bs).
Proof. intros H. unfold frames. cbn [frames_n]. by rewrite (proj2 (Nat.ltb_lt _ _) H). Qed.

Lemma frames_oversize bs : (24 <= length bs)%nat -> MAX_PROTOCOL_MESSAGE_LENGTH < nMessageSize (header_of bs) -> frames bs = ([], None).
Proof. intros H H'. unfold frames. cbn [frames_n]. by rewrite (proj2 (Nat.ltb_ge _ _) H), (proj2 (Z.ltb_lt _ _) H'). Qed.

Lemma frames_partial bs : (24 <= length bs)%nat -> nMessageSize (header_of bs) <= MAX_PROTOCOL_MESSAGE_LENGTH ->
  Z.of_nat (length bs) - 24 < nMessageSize (header_of bs) -> frames bs = ([], Some bs).
Proof.
  intros H H' H''. unfold frames. cbn [frames_n]. rewrite (proj2 (Nat.ltb_ge _ _) H), (proj2 (Z.ltb_ge _ _) H').
  by rewrite (proj2 (Nat.ltb_lt _ _)) by (rewrite length_drop; lia).
Qed.

(** The bytes [q] of one message. *)
Definition one_frame (q : byte_list) : Prop :=
  (24 <= length q)%nat /\ nMessageSize (header_of q) <= MAX_PROTOCOL_MESSAGE_LENGTH /\ Z.of_nat (length q) - 24 = nMessageSize (header_of q).

Lemma frames_cons q rest : one_frame q ->
  frames (q ++ rest) = ((header_of q, drop 24 q) :: (frames rest).1, (frames rest).2).
Proof.
  intros (H & H' & H''). unfold frames at 1. cbn [frames_n]. rewrite header_of_app by done.
  rewrite (proj2 (Nat.ltb_ge _ _)) by (rewrite length_app; lia). rewrite (proj2 (Z.ltb_ge _ _) H').
  rewrite drop_app_le by done.
  rewrite (proj2 (Nat.ltb_ge _ _)) by (rewrite length_app, length_drop; lia).
  rewrite take_app_length', drop_app_length' by (rewrite length_drop; lia).
  by rewrite (frames_n_enough _ (S (length rest))) by (rewrite ?length_app; lia).
Qed.

Lemma under_way_frames t p : under_way t p -> frames p = ([], Some p).
Proof.
  destruct 1 as [|m p|m p ? ? Hh Hs Hd Hlt]; [by apply frames_short; cbn; lia|by apply frames_short|].
  rewrite Hh in *. by apply frames_partial; lia.
Qed.

Section Receive.
Context (net : Network) (clock : nat -> Z).

(** What the message under way becomes when it absorbs the bytes [c], and how many. *)
Definition absorbs (msg : CNetMessage) (p c : byte_list) (n : nat) (m : CNetMessage) : Prop :=
  (0 < n <= length c)%nat /\
  (if negb (in_data msg) then readHeader c msg else readData c msg) = (Z.of_nat n, m) /\
  (in_data m = true -> nMessageSize (hdr m) <= MAX_PROTOCOL_MESSAGE_LENGTH) /\
  ((complete m = false /\ under_way [m] (p ++ take n c)) \/
   (whole m /\ one_frame (p ++ take n c) /\ view m = (header_of (p ++ take n c), drop 24 (p ++ take n c)))).

(** The header is refused: the message it announces is too long. *)
Definition refuses (msg : CNetMessage) (p c : byte_list) : Prop :=
  let r := if negb (in_data msg) then readHeader c msg else readData c msg in
  (r.1 < 0 \/ (in_data r.2 = true /\ MAX_PROTOCOL_MESSAGE_LENGTH < nMessageSize (hdr r.2))) /\
  (24 <= length (p ++ c))%nat /\ MAX_PROTOCOL_MESSAGE_LENGTH < nMessageSize (header_of (p ++ c)).

Lemma in_header_absorbs m p c : is_bytes p -> is_bytes c -> c <> [] ->
  in_data m = false -> length (hdrbuf m) = 24%nat -> (length p < 24)%nat -> nHdrPos m = Z.of_nat (length p) ->
  take (length p) (hdrbuf m) = p -> nDataPos m = 0 -> vRecv m = [] ->
  (exists n m', absorbs m p c n m') \/ refuses m p c.
Proof.
  intros Hbp Hbc Hc Hd Hl Hp Hpos Ht Hdp Hv.
  set (n := Nat.min (24 - length p) (length c)).
  assert (0 < length c)%nat by (destruct c; cbn; [done|lia]).
  assert (Hcopy : Z.min (u32 (24 - nHdrPos m)) (Z.of_nat (length c)) = Z.of_nat n) by (rewrite Hpos, u32_small by (unfold word; lia); lia).
  assert (Hn : u32 (nHdrPos m + Z.of_nat n) = Z.of_nat (length (p ++ take n c))).
  { rewrite Hpos, u32_small by (unfold word; lia). rewrite length_app, length_take. lia. }
  assert (Hfit : (length p + length (take n c) <= length (hdrbuf m))%nat) by (rewrite length_take; lia).
  assert (Hbuf : take (length (p ++ take n c)) (overwrite (hdrbuf m) (length p) (take n c)) = p ++ take n c).
  { rewrite (overwrite_take _ (length p)), Ht by (rewrite ?length_app; lia). done. }
  pose proof (overwrite_length _ _ _ Hfit) as Hlen. rewrite Hl in Hlen.
  unfold absorbs, refuses. rewrite Hd. cbn [negb]. unfold readHeader.
  rewrite Hcopy, Hn, Hpos, !Nat2Z.id.
  destruct (Z.of_nat (length (p ++ take n c)) <? 24) eqn:E; [apply Z.ltb_lt in E|apply Z.ltb_ge in E].
  - left. exists n. eexists. split_and!; [lia|lia|done|by rewrite Hd|]. left. split; [unfold complete, set_hdr; cbn; by rewrite Hd|].
    apply in_header; cbn; try done. lia.
  - assert (length (p ++ take n c) = 24%nat) as E24 by (rewrite length_app, length_take in *; lia).
    rewrite E24, (take_ge (overwrite _ _ _)) in Hbuf by lia. rewrite Hbuf, dec_header, drop_ge by lia.
    set (q := p ++ take n c) in *.
    assert (is_bytes q) as Hbq by (apply words_app; split; [done|by apply words_take]).
    pose proof (header_size_pos _ Hbq) as Hsz.
    assert (p ++ c = q ++ drop n c) as Hpc by (unfold q; rewrite <- (assoc (++)), take_drop; done).
    rewrite Hpc, header_of_app by lia. rewrite length_app.
    destruct (MAX_SIZE <? nMessageSize (header_of q)) eqn:Em; [apply Z.ltb_lt in Em|apply Z.ltb_ge in Em].
    { right. cbn [fst]. split_and!; [left; lia|lia|unfold MAX_PROTOCOL_MESSAGE_LENGTH, MAX_SIZE in *; lia]. }
    destruct (Z_lt_le_dec MAX_PROTOCOL_MESSAGE_LENGTH (nMessageSize (header_of q))) as [Hbig|Hok].
    { right. cbn [fst snd]. split_and!; [right; cbn; done|lia|done]. }
    left. exists n. eexists. fold q. split_and!; [lia|lia|done|done|].
    destruct (Z.eq_dec (nMessageSize (header_of q)) 0) as [Hz|Hz].
    + right. unfold whole, complete, view, set_hdr. cbn [in_data hdr nDataPos vRecv negb]. rewrite Hdp, Hv, Hz.
      unfold one_frame. rewrite E24, Hz. unfold MAX_PROTOCOL_MESSAGE_LENGTH. split_and!; try done; try lia. by rewrite drop_ge by lia.
    + left. unfold complete, set_hdr. cbn [in_data hdr nDataPos negb]. rewrite Hdp.
      split; [by apply Z.eqb_neq|]. apply in_payload; cbn [in_data hdr nDataPos vRecv]; rewrite ?Hdp, ?Hv; try done; cbn [length]; try lia.
      by rewrite drop_ge by lia.
Qed.

Lemma in_payload_absorbs m p c : is_bytes p -> is_bytes c -> c <> [] ->
  in_data m = true -> (24 <= length p)%nat -> hdr m = header_of p -> nMessageSize (hdr m) <= MAX_PROTOCOL_MESSAGE_LENGTH ->
  nDataPos m = Z.of_nat (length p) - 24 -> nDataPos m < nMessageSize (hdr m) ->
  take (Z.to_nat (nDataPos m)) (vRecv m) = drop 24 p ->
  nDataPos m <= Z.of_nat (length (vRecv m)) <= Z.min (nMessageSize (hdr m)) (nDataPos m + 256 * 1024) ->
  exists n m', absorbs m p c n m'.
Proof.
  intros Hbp Hbc Hc Hd Hp Hh Hs Hpos Hlt Ht Hv. unfold MAX_PROTOCOL_MESSAGE_LENGTH in *.
  assert (0 < length c)%nat by (destruct c; cbn; [done|lia]).
  set (size := nMessageSize (hdr m)) in *. set (pos := nDataPos m) in *.
  set (n := Nat.min (Z.to_nat (size - pos)) (length c)).
  assert (Hcopy : Z.min (u32 (size - pos)) (Z.of_nat (length c)) = Z.of_nat n) by (rewrite u32_small by (unfold word; lia); lia).
  assert (Hn : u32 (pos + Z.of_nat n) = pos + Z.of_nat n) by (apply u32_small; unfold word; lia).
  assert (Hn2 : u32 (pos + Z.of_nat n + 256 * 1024) = pos + Z.of_nat n + 256 * 1024) by (apply u32_small; unfold word; lia).
  exists n. eexists. unfold absorbs. rewrite Hd. cbn [negb].
  split; [lia|]. split.
  { unfold readData. fold size pos. rewrite Hcopy, Hn, Hn2, Nat2Z.id. reflexivity. }
  set (v := if Z.of_nat (length (vRecv m)) <? pos + Z.of_nat n
            then resize_bytes (Z.to_nat (Z.min size (pos + Z.of_nat n + 256 * 1024))) (vRecv m) else vRecv m).
  assert (Hvl : pos + Z.of_nat n <= Z.of_nat (length v) <= Z.min size (pos + Z.of_nat n + 256 * 1024)).
  { unfold v. case_match eqn:E; [rewrite resize_length; lia|]. apply Z.ltb_ge in E. lia. }
  assert (Hvt : take (Z.to_nat pos) v = drop 24 p).
  { unfold v. case_match eqn:E; [|done]. apply Z.ltb_lt in E. rewrite resize_take by lia. done. }
  assert (Hw : take (Z.to_nat (pos + Z.of_nat n)) (overwrite v (Z.to_nat pos) (take n c)) = drop 24 (p ++ take n c)).
  { rewrite (overwrite_take _ (Z.to_nat pos)), Hvt by (rewrite length_take; lia). by rewrite drop_app_le by lia. }
  assert (Hwl : length (overwrite v (Z.to_nat pos) (take n c)) = length v) by (apply overwrite_length; rewrite length_take; lia).
  assert (Hq : (length (p ++ take n c) = length p + n)%nat) by (rewrite length_app, length_take; lia).
  split; [intros _; cbn; fold size; unfold MAX_PROTOCOL_MESSAGE_LENGTH; lia|].
  unfold whole, one_frame, complete, view, set_data. cbn [in_data hdr nDataPos vRecv]. rewrite Hd. cbn [negb]. fold size.
  destruct (Z.eq_dec size (pos + Z.of_nat n)) as [He|Hne].
  - right. rewrite Hwl, header_of_app, <- Hh, Hq by done. fold size. unfold MAX_PROTOCOL_MESSAGE_LENGTH.
    split_and!; try (by apply Z.eqb_eq); try lia.
    rewrite <- Hw. by rewrite (take_ge (overwrite _ _ _)) by lia.
  - left. split; [by apply Z.eqb_neq|]. apply in_payload; cbn [in_data hdr nDataPos vRecv]; fold size; rewrite ?Hwl, ?Hq; try done; try lia.
    by rewrite header_of_app by done.
Qed.

Lemma under_way_absorbs m p c : is_bytes p -> is_bytes c -> c <> [] -> under_way [m] p ->
  (exists n m', absorbs m p c n m') \/ refuses m p c.
Proof. intros Hp Hc Hne Ht. inversion Ht; subst; [by apply in_header_absorbs|left; by apply in_payload_absorbs]. Qed.

Lemma under_way_incomplete m p : under_way [m] p -> complete m = false.
Proof.
  inversion 1 as [|? ? Hd|? ? Hd ? ? ? ? Hlt]; subst; unfold complete; rewrite Hd; cbn [negb]; [done|].
  apply Z.eqb_neq. lia.
Qed.

(** The message that absorbs the next bytes, and those before it. *)
Definition current (ms : list CNetMessage) : list CNetMessage * CNetMessage :=
  match last ms with
  | Some m => if complete m then (ms, new_message net) else (removelast ms, m)
  | None => (ms, new_message net)
  end.

Lemma current_spec ms l p : holds ms l p ->
  Forall whole (current ms).1 /\ view <$> (current ms).1 = l /\ under_way [(current ms).2] p.
Proof.
  intros (cs & t & -> & Hcs & Hl & Ht). unfold current.
  assert (Hnew : under_way [new_message net] []) by (apply in_header; cbn; try done; lia).
  destruct t as [|m t'].
  - inversion Ht; subst. rewrite app_nil_r. destruct (last cs) as [m|] eqn:E; [|done].
    apply last_Some in E as [cs' ->]. pose proof (proj1 (Forall_app _ _ _) Hcs) as [_ Hm]. apply Forall_cons in Hm as [Hm _].
    by rewrite (proj1 Hm).
  - assert (t' = []) as -> by (by inversion Ht). rewrite last_snoc, (under_way_incomplete _ _ Ht), removelast_last. done.
Qed.

Lemma receive_step_unfold ms c : c <> [] -> receive_step net clock (ms, c) =
  let r := if negb (in_data (current ms).2) then readHeader c (current ms).2 else readData c (current ms).2 in
  if r.1 <? 0 then inr (false, (current ms).1 ++ [r.2])
  else if in_data r.2 && (MAX_PROTOCOL_MESSAGE_LENGTH <? nMessageSize (hdr r.2)) then inr (false, (current ms).1 ++ [r.2])
  else inl ((current ms).1 ++ [if complete r.2 then set_time (clock (length (drop (Z.to_nat r.1) c))) r.2 else r.2], drop (Z.to_nat r.1) c).
Proof.
  intros Hc. unfold receive_step, current. destruct c as [|b c]; [done|]. change (length (b :: c) =? 0)%nat with false. cbn [negb].
  destruct (last ms) as [m|]; [destruct (complete m)|]; cbn [fst snd]; by match goal with |- context [let '(_, _) := ?x in _] => destruct x end.
Qed.

Lemma whole_set_time t m : whole m -> whole (set_time t m).
Proof. done. Qed.

Lemma receive_step_spec ms l p c : holds ms l p -> is_bytes p -> is_bytes c -> c <> [] ->
  (exists n ms', (0 < n <= length c)%nat /\ receive_step net clock (ms, c) = inl (ms', drop n c) /\
     (holds ms' l (p ++ take n c) \/
      (one_frame (p ++ take n c) /\ holds ms' (l ++ [(header_of (p ++ take n c), drop 24 (p ++ take n c))]) []))) \/
  (exists ms', receive_step net clock (ms, c) = inr (false, ms') /\ frames (p ++ c) = ([], None)).
Proof.
  intros H Hp Hc Hne. destruct (current_spec _ _ _ H) as (Hcs & Hl & Ht). rewrite receive_step_unfold by done.
  destruct (under_way_absorbs _ _ _ Hp Hc Hne Ht) as [(n & m & Hn & Hr & Hs & Hm)|Href].
  - left. exists n. eexists. split; [done|]. cbn zeta. rewrite Hr. cbn [fst snd]. rewrite Nat2Z.id.
    rewrite (proj2 (Z.ltb_ge _ _)) by lia.
    assert (in_data m && (MAX_PROTOCOL_MESSAGE_LENGTH <? nMessageSize (hdr m)) = false) as ->.
    { destruct (in_data m); [|done]. apply Z.ltb_ge. by apply Hs. }
    split; [reflexivity|]. destruct Hm as [[Hm Hu]|(Hw & Hf & Hv)].
    + left. rewrite Hm. eexists _, _. split_and!; [reflexivity|done..].
    + right. split; [done|]. rewrite (proj1 Hw). eexists _, []. split_and!; [by rewrite app_nil_r| | |constructor].
      * apply Forall_app. split; [done|]. constructor; [by apply whole_set_time|constructor].
      * rewrite fmap_app, Hl. cbn. by rewrite <- Hv.
  - right. destruct Href as (Hr & H24 & Hbig). eexists. split; [|by apply frames_oversize]. cbn zeta in *.
    set (r := if negb _ then _ else _) in *.
    destruct Hr as [Hr|[Hd Hr]]; [rewrite (proj2 (Z.ltb_lt _ _) Hr); reflexivity|].
    rewrite Hd, (proj2 (Z.ltb_lt _ _) Hr). cbn [andb]. by destruct (r.1 <? 0).
Qed.

(** Bytes that arrive are taken up to the messages that lie whole in them, or the answer
    is that the connection has to be closed. *)
Lemma ReceiveMsgBytes_spec ms l p c : holds ms l p -> is_bytes p -> is_bytes c ->
  exists ok ms', ReceiveMsgBytes net clock c ms = Some (ok, ms') /\
    match (frames (p ++ c)).2 with
    | Some rest => ok = true /\ holds ms' (l ++ (frames (p ++ c)).1) rest /\ is_bytes rest
    | None => ok = false
    end.
Proof.
  unfold ReceiveMsgBytes. generalize (Nat.lt_succ_diag_r (length c)). generalize (S (length c)) as fuel.
  intros fuel. revert ms l p c. induction fuel as [|fuel IH]; intros ms l p c Hf H Hp Hc; [lia|].
  destruct (decide (c = [])) as [->|Hne].
  { exists true, ms. split; [done|]. rewrite app_nil_r.
    pose proof H as (cs & t & _ & _ & _ & Ht). rewrite (under_way_frames _ _ Ht). cbn. by rewrite app_nil_r. }
  cbn [run_loop].
  destruct (receive_step_spec _ _ _ _ H Hp Hc Hne) as [(n & ms' & Hn & -> & Hm)|(ms' & -> & ->)]; [|by exists false, ms'].
  assert (is_bytes (take n c) /\ is_bytes (drop n c)) as [Hc1 Hc2] by (split; [by apply words_take|by apply words_drop]).
  assert (length (drop n c) < fuel)%nat as Hlt by (rewrite length_drop; lia).
  assert (p ++ c = (p ++ take n c) ++ drop n c) as -> by (rewrite <- (assoc_L (++)), take_drop; done).
  assert (is_bytes (p ++ take n c)) as Hq by (by apply words_app).
  destruct Hm as [Hm|[Ho Hm]]; [by apply (IH _ _ _ _ Hlt Hm)|].
  destruct (IH _ _ _ _ Hlt Hm ltac:(constructor) Hc2) as (ok & ms2 & -> & HH).
  exists ok, ms2. split; [done|]. rewrite (frames_cons _ _ Ho). cbn [fst snd app] in *.
  by rewrite <- app_assoc in HH.
Qed.
End Receive.

(** ** Splitting a stream *)

Lemma frames_cases bs : is_bytes bs ->
  frames bs = ([], Some bs) \/
  ((24 <= length bs)%nat /\ MAX_PROTOCOL_MESSAGE_LENGTH < nMessageSize (header_of bs)) \/
  (exists q rest, bs = q ++ rest /\ one_frame q /\ (length rest < length bs)%nat).
Proof.
  intros Hb. destruct (decide (length bs < 24)%nat) as [?|H24]; [left; by apply frames_short|].
  assert (24 <= length bs)%nat as H by lia. pose proof (header_size_pos _ Hb) as Hpos.
  destruct (Z_lt_le_dec MAX_PROTOCOL_MESSAGE_LENGTH (nMessageSize (header_of bs))) as [?|Hle]; [by right; left|].
  destruct (Z_lt_le_dec (Z.of_nat (length bs) - 24) (nMessageSize (header_of bs))) as [?|Hge]; [left; by apply frames_partial|].
  right. right. set (k := (24 + Z.to_nat (nMessageSize (header_of bs)))%nat). exists (take k bs), (drop k bs).
  assert (length (take k bs) = k) as Hk by (rewrite length_take; lia).
  assert (header_of (take k bs) = header_of bs) as Hh by (rewrite <- (take_drop k bs) at 2; by rewrite header_of_app by lia).
  split_and!; [by rewrite take_drop| |rewrite length_drop; lia].
  unfold one_frame. rewrite Hh, Hk. split_and!; lia.
Qed.

Lemma frames_app bs c : is_bytes bs ->
  frames (bs ++ c) = match (frames bs).2 with
                     | Some p => ((frames bs).1 ++ (frames (p ++ c)).1, (frames (p ++ c)).2)
                     | None => frames bs
                     end.
Proof.
  remember (length bs) as n eqn:Hn. revert bs Hn. induction n as [n IH] using lt_wf_ind. intros bs -> Hb.
  destruct (frames_cases _ Hb) as [->|[[H1 H2]|(q & rest & -> & Hq & Hlt)]]; cbn [fst snd app].
  - by destruct (frames (bs ++ c)).
  - rewrite (frames_oversize bs) by done. cbn [snd]. apply frames_oversize; [rewrite length_app; lia|by rewrite header_of_app].
  - apply words_app in Hb as [_ Hb]. rewrite <- app_assoc, !(frames_cons q) by done. cbn [fst snd].
    rewrite (IH _ Hlt _ eq_refl Hb). by destruct (frames rest) as [l [p|]].
Qed.

Lemma frames_prefix bs c : is_bytes bs -> (frames bs).1 `prefix_of` (frames (bs ++ c)).1.
Proof. intros Hb. rewrite frames_app by done. destruct (frames bs) as [l [p|]]; cbn; [by eexists|done]. Qed.

Section Genuine.
Context (net : Network).

Lemma genuine_cons m l : genuine net (view m :: l) =
  if negb (start_ok net (hdr m)) then []
  else if header_IsValid net (hdr m) && (payload_checksum (vRecv m) =? nChecksum (hdr m))
       then (header_GetCommand (hdr m), vRecv m) :: genuine net l
       else genuine net l.
Proof. done. Qed.

Lemma genuine_prefix l1 l2 : genuine net l1 `prefix_of` genuine net (l1 ++ l2).
Proof.
  induction l1 as [|[h v] l1 IH]; [apply prefix_nil|]. cbn. case_match; [done|]. case_match; [by apply prefix_cons|done].
Qed.

Lemma genuine_mono l1 l2 : l1 `prefix_of` l2 -> genuine net l1 `prefix_of` genuine net l2.
Proof. intros [k ->]. apply genuine_prefix. Qed.

(** The messages [d] are passed with [got] taken up, and the ones after count. *)
Definition passed (d : list frame) (got : list (byte_list * byte_list)) : Prop :=
  forall l, genuine net (d ++ l) = got ++ genuine net l.

Lemma passed_genuine d got : passed d got -> genuine net d = got.
Proof. intros H. specialize (H []). by rewrite !app_nil_r in H. Qed.

Lemma passed_app d1 d2 g1 g2 : passed d1 g1 -> passed d2 g2 -> passed (d1 ++ d2) (g1 ++ g2).
Proof. intros H1 H2 l. by rewrite <- !app_assoc, H1, H2. Qed.
End Genuine.

(** * What a peer takes up *)

Section Peer.
Context (net : Network) {T : Type} {ops : PeerOps T} {log : T -> list (byte_list * byte_list)} {laws : PeerLaws ops log}.

(** One run of the loop passes some messages, and at most one is taken up. *)
Definition loop_result (cs t : list CNetMessage) (s : T) (r : bool * T * list CNetMessage) : Prop :=
  exists d cs' got, r.2 = cs' ++ t /\ cs = d ++ cs' /\ log r.1.2 = log s ++ got /\
    (if r.1.1 : bool then passed net (view <$> d) got else got = [] /\ forall l, genuine net ((view <$> d) ++ l) = []) /\
    (r.1.2 = s \/ exists c v t0, r.1.2 = ProcessMessage c v t0 s) /\
    (cs <> [] -> fDisconnect s = false -> send_buffer_full s = false -> d <> []).

Lemma process_loop_spec cs t p s : Forall whole cs -> under_way t p -> loop_result cs t s (process_loop net (cs ++ t) s).
Proof.
  intros Hcs Ht. revert s. induction Hcs as [|m cs Hm Hcs IH]; intros s.
  - exists [], [], [].
    assert (process_loop net t s = (true, s, t)) as Hr.
    { destruct t as [|m t']; [done|]. assert (t' = []) as -> by (by inversion Ht). cbn.
      rewrite (under_way_incomplete _ _ Ht). by repeat case_match. }
    cbn [app]. rewrite Hr. cbn. split_and!; try done; [by rewrite app_nil_r|by left].
  - assert (forall r, r = (true, s, m :: cs ++ t) -> (fDisconnect s = true \/ send_buffer_full s = true) -> loop_result (m :: cs) t s r) as Hstop.
    { intros r -> Hs. exists [], (m :: cs), []. cbn. split_and!; try done; [by rewrite app_nil_r|by left|]. intros _ H1 H2. destruct Hs; congruence. }
    destruct Hm as (Hc & Hlen & _).
    assert (take (Z.to_nat (nMessageSize (hdr m))) (vRecv m) = vRecv m) as Htake by (apply take_ge; lia).
    assert (forall r, (forall l, genuine net (view m :: l) = genuine net l) -> loop_result cs t s r -> loop_result (m :: cs) t s r) as Hskip.
    { intros [[ok s'] it] Hg (d & cs' & got & Hit & -> & Hlog & Hok & Hs & _). exists (m :: d), cs', got. cbn [fst snd] in *.
      split_and!; try done. destruct ok; [intros l|destruct Hok as [-> Hok]; split; [done|]; intros l];
        change ((view <$> m :: d) ++ l) with (view m :: (view <$> d) ++ l); rewrite Hg; apply Hok. }
    cbn [app process_loop]. rewrite Htake.
    destruct (fDisconnect s) eqn:E1; [apply Hstop; auto|]. destruct (send_buffer_full s) eqn:E2; [apply Hstop; auto|].
    rewrite Hc. cbn [negb]. destruct (start_ok net (hdr m)) eqn:E3; cbn [negb].
    2:{ exists [m], cs, []. cbn. rewrite E3. split_and!; try done; [by rewrite app_nil_r|by left]. }
    destruct (header_IsValid net (hdr m)) eqn:E4; cbn [negb]; [|apply Hskip, IH; intros l; by rewrite genuine_cons, E3, E4].
    destruct (payload_checksum (vRecv m) =? nChecksum (hdr m)) eqn:E5; cbn [negb]; [|apply Hskip, IH; intros l; by rewrite genuine_cons, E3, E4, E5].
    exists [m], cs, [(header_GetCommand (hdr m), vRecv m)]. cbn [fst snd]. rewrite log_message.
    split_and!; try done; [|right; by eexists _, _, _]. intros l. change ((view <$> [m]) ++ l) with (view m :: l). by rewrite genuine_cons, E3, E4, E5.
Qed.

(** The invariant of a peer that has sent the bytes [bs]. *)
Definition peer_inv (n : CNode T) (bs : byte_list) : Prop :=
  is_bytes bs /\ log (peer n) `prefix_of` genuine net (frames bs).1 /\
  (fDisconnect (peer n) = false ->
     exists d l p, frames bs = (d ++ l, Some p) /\ is_bytes p /\ holds (vRecvMsg n) l p /\ passed net d (log (peer n))).

Definition event_bytes (e : peer_event) : byte_list := match e with Arrive _ pch => pch | Handle => [] end.

Definition arrived (es : list peer_event) : byte_list := concat (map event_bytes es).

Lemma closed_inv n bs : is_bytes bs -> log (peer n) `prefix_of` genuine net (frames bs).1 -> peer_inv (CloseSocketDisconnect n) bs.
Proof. intros Hb Hl. unfold peer_inv. cbn. rewrite log_close, close_disconnects. done. Qed.

Lemma more_bytes (k : list (byte_list * byte_list)) bs c : is_bytes bs -> k `prefix_of` genuine net (frames bs).1 -> k `prefix_of` genuine net (frames (bs ++ c)).1.
Proof. intros Hb Hk. transitivity (genuine net (frames bs).1); [done|]. by apply genuine_mono, frames_prefix. Qed.

Lemma arrive_inv clock c n bs : peer_inv n bs -> is_bytes c -> exists n', peer_step net (Arrive clock c) n = Some n' /\ peer_inv n' (bs ++ c).
Proof.
  intros (Hb & Hl & Hn) Hc. assert (is_bytes (bs ++ c)) as Hbc by (by apply words_app). unfold peer_step. destruct (fDisconnect (peer n)) eqn:E.
  { exists n. split; [done|]. split_and!; [done|by apply more_bytes|congruence]. }
  destruct (Hn eq_refl) as (d & l & p & Hf & Hp & Hh & Hpass).
  destruct (ReceiveMsgBytes_spec net clock _ _ _ _ Hh Hp Hc) as (ok & ms' & -> & Hr). cbn. eexists. split; [reflexivity|].
  pose proof (frames_app bs c Hb) as Hfa. rewrite Hf in Hfa. cbn [fst snd] in Hfa.
  destruct (frames (p ++ c)).2 as [rest|] eqn:Er; [destruct Hr as (-> & Hh' & Hrest)|subst ok].
  - split_and!; [done|by apply more_bytes|]. intros _. exists d, (l ++ (frames (p ++ c)).1), rest.
    rewrite Hfa, <- app_assoc. done.
  - by apply closed_inv; [|by apply more_bytes].
Qed.

Lemma processed_inv n bs : peer_inv n bs -> fDisconnect (peer n) = false ->
  exists r, ProcessMessages net (vRecvMsg n) (peer n) = r /\
    let n1 := {| peer := r.1.2; vRecvMsg := r.2 |} in
    peer_inv (if r.1.1 : bool then n1 else CloseSocketDisconnect n1) bs.
Proof.
  intros (Hb & Hl & Hn) E. destruct (Hn E) as (d & l & p & Hf & Hp & (cs & t & Hms & Hcs & Hv & Ht) & Hpass).
  eexists. split; [reflexivity|]. unfold ProcessMessages.
  set (s1 := if getdata_empty (peer n) then peer n else ProcessGetData (peer n)).
  assert (log s1 = log (peer n)) as Hs1 by (unfold s1; case_match; [done|apply log_getdata]).
  destruct (negb (getdata_empty s1)).
  { unfold peer_inv. cbn [fst snd peer vRecvMsg]. rewrite Hs1. split_and!; [done|done|]. intros _. exists d, l, p. split_and!; try done. by exists cs, t. }
  rewrite Hms. destruct (process_loop_spec cs t p s1 Hcs Ht) as (dd & cs' & got & Hit & Hd & Hlog & Hok & _ & _).
  destruct (process_loop net (cs ++ t) s1) as [[ok s2] it]. cbn [fst snd] in *.
  rewrite Hd, fmap_app in Hv. subst cs. apply Forall_app in Hcs as [_ Hcs]. rewrite Hs1 in Hlog.
  assert (log s2 `prefix_of` genuine net (frames bs).1) as Hpre.
  { rewrite Hf, <- Hv. cbn [fst]. rewrite (Hpass _), Hlog. destruct ok; [rewrite (Hok _); apply prefix_app; by eexists|].
    destruct Hok as [-> _]. rewrite app_nil_r. by eexists. }
  destruct ok; [|by apply closed_inv].
  unfold peer_inv. cbn [fst snd peer vRecvMsg]. split_and!; [done|done|]. intros Hs2. exists (d ++ (view <$> dd)), (view <$> cs'), p.
  rewrite Hf, <- Hv, Hlog, app_assoc. split_and!; [done|done| |by apply passed_app]. rewrite Hs2, Hit. by exists cs', t.
Qed.

Lemma handle_inv n bs : peer_inv n bs -> exists n', peer_step net Handle n = Some n' /\ peer_inv n' bs.
Proof.
  intros Hn. unfold peer_step. destruct (fDisconnect (peer n)) eqn:E; [by exists n|].
  destruct (processed_inv _ _ Hn E) as (r & -> & Hr). destruct r as [[ok s] ms]. eexists. split; [reflexivity|]. exact Hr.
Qed.

Lemma peer_run_inv es n bs : peer_inv n bs -> Forall (fun e => is_bytes (event_bytes e)) es ->
  exists n', peer_run net es n = Some n' /\ peer_inv n' (bs ++ arrived es).
Proof.
  intros Hn He. revert n bs Hn. induction He as [|e es He Hes IH]; intros n bs Hn.
  { exists n. cbn. by rewrite app_nil_r. }
  assert (exists n1, peer_step net e n = Some n1 /\ peer_inv n1 (bs ++ event_bytes e)) as (n1 & Hs & Hn1).
  { destruct e; cbn [event_bytes] in *; [by apply arrive_inv|rewrite app_nil_r; by apply handle_inv]. }
  destruct (IH _ _ Hn1) as (n' & Hr & Hn'). exists n'. cbn [peer_run]. rewrite Hs. cbn. split; [done|].
  unfold arrived in *. cbn. by rewrite app_assoc.
Qed.

Definition new_peer (s : T) : CNode T := {| peer := s; vRecvMsg := [] |}.

Lemma new_peer_inv s : log s = [] -> peer_inv (new_peer s) [].
Proof.
  intros Hs. unfold peer_inv. cbn [new_peer peer vRecvMsg]. rewrite Hs. split_and!; [constructor|by rewrite frames_short by (cbn; lia)|].
  intros _. exists [], [], []. rewrite frames_short by (cbn; lia). split_and!; [done|constructor| |done]. exists [], []. split_and!; try done; constructor.
Qed.

(** ** Everything is taken up *)

(** The messages that wait for [ProcessMessages]. *)
Definition waiting (n : CNode T) : list frame := view <$> filter (fun m => complete m = true) (vRecvMsg n).

Lemma holds_waiting s ms l p : holds ms l p -> waiting {| peer := s; vRecvMsg := ms |} = l.
Proof.
  intros (cs & t & -> & Hcs & <- & Ht). unfold waiting. cbn. rewrite filter_app.
  assert (filter (fun m => complete m = true) t = []) as ->.
  { inversion Ht; subst; [done|..]; by rewrite filter_cons, decide_False, filter_nil by (by rewrite (under_way_incomplete _ _ Ht)). }
  rewrite app_nil_r. f_equal. induction Hcs as [|m cs [Hm _] _ IH]; [done|]. by rewrite filter_cons, decide_True, IH.
Qed.

(** The node can take messages from the peer. *)
Definition ready (s : T) : Prop := fDisconnect s = false /\ send_buffer_full s = false /\ getdata_empty s = true.

Definition stays_ready : Prop := forall c v t s, ready s -> ready (ProcessMessage c v t s).

Definition peer_at (n : CNode T) (bs : byte_list) (l : list frame) : Prop :=
  is_bytes bs /\ ready (peer n) /\ exists d p, frames bs = (d ++ l, Some p) /\ is_bytes p /\ holds (vRecvMsg n) l p /\ passed net d (log (peer n)).

(** The connection is closed because of a message that is not of the network: nothing
    after it counts. *)
Definition peer_over (n : CNode T) (bs : byte_list) : Prop :=
  is_bytes bs /\ fDisconnect (peer n) = true /\ forall c, log (peer n) = genuine net (frames (bs ++ c)).1.

Lemma handle_ready n bs l : stays_ready -> peer_at n bs l ->
  exists n', peer_step net Handle n = Some n' /\
    ((exists l', peer_at n' bs l' /\ (length l' <= Nat.pred (length l))%nat) \/ peer_over n' bs).
Proof.
  intros Hstay (Hb & (E1 & E2 & E3) & d & p & Hf & Hp & (cs & t & Hms & Hcs & Hv & Ht) & Hpass).
  unfold peer_step, ProcessMessages. rewrite E1, E3, E3, Hms. cbn [negb].
  destruct (process_loop_spec cs t p (peer n) Hcs Ht) as (dd & cs' & got & Hit & Hd & Hlog & Hok & Hs & Hne).
  destruct (process_loop net (cs ++ t) (peer n)) as [[ok s2] it]. cbn [fst snd] in *. eexists. split; [reflexivity|].
  rewrite Hd, fmap_app in Hv. destruct ok.
  - left. exists (view <$> cs'). assert (ready s2) as Hs2 by (destruct Hs as [->|(c & v & t0 & ->)]; [done|by apply Hstay]).
    split.
    + split; [done|]. cbn [peer vRecvMsg]. split; [done|]. exists (d ++ (view <$> dd)), p.
      rewrite Hf, <- Hv, Hlog, (proj1 Hs2), Hit, app_assoc. split_and!; [done|done| |by apply passed_app].
      exists cs', t. split_and!; try done. rewrite Hd in Hcs. by apply Forall_app in Hcs as [_ Hcs].
    + rewrite <- Hv, length_app, !length_fmap. destruct dd as [|m dd]; cbn [length]; [|lia].
      destruct cs'; [cbn; lia|]. exfalso. cbn in Hd. by apply Hne; rewrite ?Hd.
  - right. destruct Hok as [-> Hok]. rewrite app_nil_r in Hlog. split; [done|]. cbn [CloseSocketDisconnect peer]. rewrite close_disconnects, log_close. split; [done|].
    intros c. rewrite frames_app, Hf, <- Hv by done. cbn [fst snd]. rewrite <- !app_assoc, (Hpass _), Hok, app_nil_r. done.
Qed.

Lemma over_step e n bs : peer_over n bs -> is_bytes (event_bytes e) -> peer_step net e n = Some n /\ peer_over n (bs ++ event_bytes e).
Proof.
  intros (Hb & Hd & Hl) He. unfold peer_step. rewrite Hd. split; [done|]. split_and!; [by apply words_app|done|].
  intros c. rewrite <- app_assoc. apply Hl.
Qed.

(** The peer keeps up with a stream none of whose messages is too long. *)
Definition keeps_up (n : CNode T) (bs : byte_list) : Prop := (exists l, peer_at n bs l) \/ peer_over n bs.

Lemma keeps_up_step e n bs : stays_ready -> keeps_up n bs -> is_bytes (event_bytes e) -> is_Some (frames (bs ++ event_bytes e)).2 ->
  exists n', peer_step net e n = Some n' /\ keeps_up n' (bs ++ event_bytes e).
Proof.
  intros Hstay [[l Hn]|Hn] He Hf; [|destruct (over_step e n bs Hn He) as [? ?]; exists n; split; [done|by right]].
  destruct e as [clock c|]; cbn [event_bytes] in *.
  2:{ rewrite app_nil_r. destruct (handle_ready _ _ _ Hstay Hn) as (n' & Hs & [(l' & Hl & _)|Ho]); exists n'; (split; [done|]); [left; by exists l'|by right]. }
  destruct Hn as (Hb & Hr & d & p & Hbs & Hp & Hh & Hpass). unfold peer_step. rewrite (proj1 Hr).
  destruct (ReceiveMsgBytes_spec net clock _ _ _ _ Hh Hp He) as (ok & ms' & -> & Hok). cbn. eexists. split; [reflexivity|].
  pose proof (frames_app bs c Hb) as Hfa. rewrite Hbs in Hfa. cbn [fst snd] in Hfa.
  rewrite Hfa in Hf. cbn [snd] in Hf. destruct (frames (p ++ c)).2 as [rest|] eqn:Er; [|by destruct Hf].
  destruct Hok as (-> & Hh' & Hrest). left. exists (l ++ (frames (p ++ c)).1). split; [by apply words_app|]. cbn [peer vRecvMsg]. split; [done|].
  exists d, rest. rewrite Hfa, <- app_assoc. done.
Qed.

Lemma keeps_up_run es n bs : stays_ready -> keeps_up n bs -> Forall (fun e => is_bytes (event_bytes e)) es ->
  is_Some (frames (bs ++ arrived es)).2 -> exists n', peer_run net es n = Some n' /\ keeps_up n' (bs ++ arrived es).
Proof.
  intros Hstay Hn He. revert n bs Hn. induction He as [|e es He Hes IH]; intros n bs Hn Hf.
  { exists n. cbn. by rewrite app_nil_r. }
  assert (bs ++ arrived (e :: es) = (bs ++ event_bytes e) ++ arrived es) as Ha by (unfold arrived; cbn; by rewrite app_assoc).
  rewrite Ha in *.
  assert (is_bytes bs) as Hb by (destruct Hn as [(l & Hn)|Hn]; exact (proj1 Hn)).
  assert (is_Some (frames (bs ++ event_bytes e)).2) as Hf1.
  { rewrite (frames_app _ (arrived es)) in Hf by (by apply words_app). by destruct (frames (bs ++ event_bytes e)) as [l [q|]]. }
  destruct (keeps_up_step _ _ _ Hstay Hn He Hf1) as (n1 & Hs & Hn1). destruct (IH _ _ Hn1 Hf) as (n' & Hr & Hn').
  exists n'. cbn [peer_run]. rewrite Hs. done.
Qed.

Lemma drains k n bs : stays_ready -> (exists l, peer_at n bs l /\ (length l <= k)%nat) \/ peer_over n bs ->
  exists n', peer_run net (replicate k Handle) n = Some n' /\ log (peer n') = genuine net (frames bs).1.
Proof.
  intros Hstay. revert n. induction k as [|k IH]; intros n Hn.
  - exists n. split; [done|]. destruct Hn as [(l & (_ & _ & d & p & -> & _ & _ & Hpass) & Hl)|(_ & _ & Ho)].
    + destruct l; [|cbn in Hl; lia]. cbn [fst]. rewrite app_nil_r. by rewrite (passed_genuine _ _ _ Hpass).
    + by rewrite (Ho []), app_nil_r.
  - cbn [replicate peer_run]. destruct Hn as [(l & Hn & Hl)|Ho].
    + destruct (handle_ready _ _ _ Hstay Hn) as (n1 & -> & [(l' & Hl' & Hlt)|Ho]); cbn; apply IH; [left; exists l'; split; [done|lia]|by right].
    + destruct (over_step Handle n bs Ho) as [-> Ho']; [constructor|]. cbn [event_bytes] in Ho'. rewrite app_nil_r in Ho'.
      cbn. apply IH. by right.
Qed.
End Peer.

(** * What a node sends *)

Section Sending.
Context (net : Network).

Definition good_command (cmd : byte_list) : Prop := (length cmd <= COMMAND_SIZE)%nat /\ Forall (fun c => 32 <= c <= 0x7E) cmd.

Definition good_message (x : byte_list * byte_list) : Prop :=
  good_command x.1 /\ is_bytes x.2 /\ Z.of_nat (length x.2) <= MAX_PROTOCOL_MESSAGE_LENGTH.

(** A message on the wire. *)
Definition sent_header (x : byte_list * byte_list) : CMessageHeader := {|
  pchMessageStart := MessageStart net; pchCommand := x.1 ++ replicate (COMMAND_SIZE - length x.1) 0;
  nMessageSize := Z.of_nat (length x.2); nChecksum := payload_checksum x.2 |}.

Definition message_bytes (x : byte_list * byte_list) : byte_list := enc c_message_header (sent_header x) ++ x.2.

Lemma checksum_word m : word 32 (payload_checksum m).
Proof. unfold payload_checksum. apply (words_nth 32); [lia|]. exact (proj2 (Hash_wf m)). Qed.

Lemma command_bytes cmd : good_command cmd -> is_bytes cmd.
Proof. intros [_ H]. eapply Forall_impl; [exact H|]. unfold word. cbn. lia. Qed.

Lemma start_bytes : length (MessageStart net) = 4%nat /\ is_bytes (MessageStart net).
Proof. destruct net; (split; [done|]); unfold is_bytes, words, word; repeat constructor; lia. Qed.

Lemma sent_header_dom x : good_message x -> dom c_message_header (sent_header x).
Proof.
  intros (Hc & Hb & Hl). unfold MAX_PROTOCOL_MESSAGE_LENGTH in Hl. pose proof (checksum_word x.2) as Hw. pose proof (command_bytes _ Hc). destruct Hc as [Hc _].
  unfold COMMAND_SIZE in *.
  cbn [c_message_header c_iso c_pair c_flat c_uint dom sent_header pchMessageStart pchCommand nMessageSize nChecksum fst snd].
  generalize dependent (payload_checksum x.2). intros k Hw. unfold word in Hw. split_and!; try apply start_bytes; try lia.
  - rewrite length_app, length_replicate. unfold COMMAND_SIZE in *. lia.
  - apply words_app. split; [done|]. apply words_replicate. unfold word. lia.
Qed.

#[local] Instance c_message_header_lawful : Lawful c_message_header.
Proof. unfold c_message_header. apply c_iso_lawful; [by intros []|apply _]. Qed.

Lemma message_header_length x : good_message x -> length (enc c_message_header (sent_header x)) = 24%nat.
Proof.
  intros ((Hc & _) & _). cbn [c_message_header c_iso c_pair c_flat c_uint enc sent_header pchMessageStart pchCommand nMessageSize nChecksum fst snd].
  rewrite !length_app, !length_le_bytes, length_replicate, (proj1 start_bytes). unfold COMMAND_SIZE in *. lia.
Qed.

Lemma header_of_sent x : good_message x -> header_of (message_bytes x) = sent_header x.
Proof.
  intros H. pose proof (lawful (sent_header x) x.2 (sent_header_dom _ H)) as Hd.
  rewrite dec_header in Hd by (rewrite length_app, message_header_length by done; lia). unfold message_bytes. congruence.
Qed.

Lemma sent_payload x : good_message x -> drop 24 (message_bytes x) = x.2.
Proof. intros H. unfold message_bytes. apply drop_app_length'. by rewrite message_header_length. Qed.

Lemma sent_one_frame x : good_message x -> one_frame (message_bytes x).
Proof.
  intros H. unfold one_frame. rewrite header_of_sent by done. unfold message_bytes. rewrite length_app, message_header_length by done.
  destruct H as (_ & _ & H). cbn. unfold COMMAND_SIZE. split_and!; lia.
Qed.

Lemma message_bytes_bytes x : good_message x -> is_bytes (message_bytes x).
Proof.
  intros H. pose proof (sent_header_dom _ H) as Hd. apply words_app. split; [|exact (proj1 (proj2 H))].
  cbn [c_message_header c_iso c_pair c_flat c_uint enc sent_header pchMessageStart pchCommand nMessageSize nChecksum fst snd] in *.
  repeat (apply words_app; split); try apply le_bytes_bytes; [apply start_bytes|by apply command_bytes, H|apply words_replicate; unfold word; lia].
Qed.

Lemma frames_sent l : Forall good_message l ->
  frames (concat (map message_bytes l)) = (map (fun x => (sent_header x, x.2)) l, Some []).
Proof.
  induction 1 as [|x l Hx Hl IH]; [done|]. cbn [map concat].
  by rewrite frames_cons, IH, header_of_sent, sent_payload by (try done; by apply sent_one_frame).
Qed.

Lemma command_ok_sent cmd n : Forall (fun c => 32 <= c <= 0x7E) cmd -> command_ok (cmd ++ replicate n 0) = true /\ until_zero (cmd ++ replicate n 0) = cmd.
Proof.
  induction 1 as [|c cmd Hc _ [IH1 IH2]]; cbn [app command_ok until_zero].
  - assert (forallb (fun c' => c' =? 0) (replicate n 0) = true) as Hz by (induction n; cbn; done). destruct n; [done|]. cbn in *. by rewrite Hz.
  - rewrite (proj2 (Z.eqb_neq c 0)) by lia. unfold signed. cbn -[Z.pow].
    rewrite (proj2 (Z.ltb_lt c _)) by lia. rewrite (proj2 (Z.ltb_ge c 32)), (proj2 (Z.ltb_ge 126 c)) by lia. cbn [orb]. by rewrite IH2.
Qed.

Lemma genuine_sent l : Forall good_message l -> genuine net (map (fun x => (sent_header x, x.2)) l) = l.
Proof.
  induction 1 as [|[cmd v] l ((Hc1 & Hc2) & Hb & Hl) _ IH]; [done|]. cbn [map genuine].
  assert (start_ok net (sent_header (cmd, v)) = true) as -> by (unfold start_ok; by apply bool_decide_eq_true). cbn [negb fst snd] in *.
  destruct (command_ok_sent cmd (COMMAND_SIZE - length cmd) Hc2) as [H1 H2].
  assert (header_IsValid net (sent_header (cmd, v)) = true) as ->.
  { unfold header_IsValid. assert (start_ok net (sent_header (cmd, v)) = true) as -> by (unfold start_ok; by apply bool_decide_eq_true).
    cbn [sent_header pchCommand nMessageSize fst snd negb]. rewrite H1. cbn [negb].
    rewrite (proj2 (Z.ltb_ge _ _)); [done|]. unfold MAX_PROTOCOL_MESSAGE_LENGTH, MAX_SIZE in *. lia. }
  cbn [sent_header nChecksum fst snd]. rewrite Z.eqb_refl. cbn [andb]. rewrite IH. unfold header_GetCommand. cbn [sent_header pchCommand fst]. by rewrite H2.
Qed.

(** The queue [q] whose first [off] bytes have gone, after [w]: in all the bytes [total]. *)
Definition in_order (q : list byte_list) (off size : Z) (w total : byte_list) : Prop :=
  w ++ drop (Z.to_nat off) (concat q) = total /\ size = zsum (map (fun d => Z.of_nat (length d)) q) /\
  0 <= off /\ Forall (fun d : byte_list => d <> []) q /\
  match q with [] => off = 0 | d :: _ => off < Z.of_nat (length d) end.

Definition sender_ok (s : sender) (total : byte_list) : Prop :=
  ssSend s = [] /\ in_order (vSendMsg s) (nSendOffset s) (nSendSize s) (wire s) total.

Lemma send_loop_spec it outs s total : in_order it (nSendOffset s) (nSendSize s) (wire s) total -> ssSend s = [] ->
  exists s', send_loop it outs s = Some s' /\ sender_ok s' total.
Proof.
  revert outs s. induction it as [|data it IH]; intros outs s (Hw & Hsz & Ho & Hne & Hh) Hss.
  { eexists. split; [reflexivity|]. split; [done|]. cbn. by split_and!. }
  cbn [send_loop]. rewrite (proj2 (Z.leb_gt _ _)) by lia.
  assert (forall closed, sender_ok (set_queue (data :: it) (nSendOffset s) (nSendSize s) closed (wire s) s) total) as Hstop by (intros closed; by split).
  destruct outs as [|[room| |] outs]; eauto.
  set (n := Z.min room (Z.of_nat (length data) - nSendOffset s)).
  destruct (0 <? n) eqn:E; [apply Z.ltb_lt in E|by eauto].
  assert (wire s ++ take (Z.to_nat n) (drop (Z.to_nat (nSendOffset s)) data) ++ drop (Z.to_nat (nSendOffset s + n)) data ++ concat it = total) as Hw'.
  { rewrite <- Hw. cbn [concat]. rewrite drop_app_le by lia. f_equal. rewrite app_assoc. f_equal.
    rewrite Z2Nat.inj_add, <- drop_drop by lia. apply take_drop. }
  apply Forall_cons in Hne as [Hd Hne].
  case_match eqn:E2.
  - apply Z.eqb_eq in E2. apply IH; [|done]. cbn [set_queue nSendOffset nSendSize wire].
    rewrite E2, (drop_ge data (Z.to_nat (Z.of_nat _))) in Hw' by lia. split_and!; [|rewrite Hsz; unfold zsum; cbn [map foldr]; lia|lia|done|].
    + rewrite <- app_assoc. exact Hw'.
    + destruct it as [|d it]; [done|]. apply Forall_cons in Hne as [Hd' _]. destruct d; [done|]. cbn. lia.
  - apply Z.eqb_neq in E2. eexists. split; [reflexivity|]. split; [done|]. cbn [set_queue vSendMsg nSendOffset nSendSize wire].
    split_and!; [|done|lia|by constructor|lia]. cbn [concat]. rewrite drop_app_le by lia. rewrite <- app_assoc. exact Hw'.
Qed.

Lemma SocketSendData_spec outs s total : sender_ok s total -> exists s', SocketSendData outs s = Some s' /\ sender_ok s' total.
Proof.
  intros [Hss Hq]. destruct (send_loop_spec _ outs _ _ Hq Hss) as (s' & Hr & Hs'). exists s'. split; [|done].
  unfold SocketSendData. rewrite Hr. cbn. destruct Hs' as (_ & _ & Hsz & _ & _ & Ho). destruct (vSendMsg s'); [|done]. cbn in *. by rewrite Hsz, Ho.
Qed.

Lemma fill_header_spec x : good_message x -> fill_header (enc c_message_header (make_header net x.1 0) ++ x.2) = message_bytes x.
Proof.
  intros ((Hc & _) & _ & Hl). unfold MAX_PROTOCOL_MESSAGE_LENGTH in Hl.
  unfold fill_header, message_bytes, make_header, sent_header.
  cbn [c_message_header c_iso c_pair c_flat c_uint enc pchMessageStart pchCommand nMessageSize nChecksum fst snd].
  assert (resize_bytes COMMAND_SIZE (take COMMAND_SIZE x.1) = x.1 ++ replicate (COMMAND_SIZE - length x.1) 0) as ->.
  { unfold resize_bytes. by rewrite (take_ge x.1), take_ge by lia. }
  set (a := MessageStart net). set (b := x.1 ++ replicate (COMMAND_SIZE - length x.1) 0).
  assert (length a = 4%nat) as Ha by apply start_bytes. assert (length b = 12%nat) as Hb' by (unfold b; rewrite length_app, length_replicate; unfold COMMAND_SIZE in *; lia).
  assert (forall y z : byte_list, overwrite ((a ++ b ++ le_bytes 4 0 ++ y) ++ z) MESSAGE_SIZE_OFFSET (le_bytes 4 (Z.of_nat (length x.2))) = a ++ b ++ le_bytes 4 (Z.of_nat (length x.2)) ++ y ++ z) as H1.
  { intros y z. unfold overwrite, MESSAGE_SIZE_OFFSET, MESSAGE_START_SIZE, COMMAND_SIZE. rewrite length_le_bytes.
    rewrite <- !app_assoc. rewrite (app_assoc a b), take_app_length' by (rewrite length_app; lia).
    rewrite (app_assoc (a ++ b) (le_bytes 4 0)), drop_app_length' by (rewrite !length_app, length_le_bytes; lia). by rewrite <- !app_assoc. }
  assert (u32 (Z.of_nat (length ((a ++ b ++ le_bytes 4 0 ++ le_bytes 4 0) ++ x.2)) - Z.of_nat HEADER_SIZE) = Z.of_nat (length x.2)) as ->.
  { rewrite !length_app, !length_le_bytes, Ha, Hb'. unfold HEADER_SIZE, MESSAGE_START_SIZE, COMMAND_SIZE. rewrite u32_small; unfold word; lia. }
  rewrite H1. set (sz := le_bytes 4 (Z.of_nat (length x.2))). assert (length sz = 4%nat) as Hsz by apply length_le_bytes.
  assert (drop HEADER_SIZE (a ++ b ++ sz ++ le_bytes 4 0 ++ x.2) = x.2) as ->.
  { rewrite (app_assoc sz), (app_assoc b), (app_assoc a). apply drop_app_length'. rewrite !length_app, length_le_bytes. unfold HEADER_SIZE, MESSAGE_START_SIZE, COMMAND_SIZE. lia. }
  set (ck := payload_checksum x.2). unfold overwrite. rewrite length_le_bytes.
  rewrite (app_assoc b), (app_assoc a), take_app_length' by (rewrite !length_app; unfold CHECKSUM_OFFSET, MESSAGE_SIZE_OFFSET, MESSAGE_START_SIZE, COMMAND_SIZE; lia).
  rewrite (app_assoc (a ++ b ++ sz) (le_bytes 4 0)), drop_app_length' by (rewrite !length_app, length_le_bytes; unfold CHECKSUM_OFFSET, MESSAGE_SIZE_OFFSET, MESSAGE_START_SIZE, COMMAND_SIZE; lia).
  by rewrite <- !app_assoc.
Qed.

Lemma zsum_map_app {A} (f : A -> Z) l1 l2 : zsum (map f (l1 ++ l2)) = zsum (map f l1) + zsum (map f l2).
Proof. by rewrite map_app, zsum_app. Qed.

Lemma in_order_snoc q off size w total d : in_order q off size w total -> d <> [] ->
  in_order (q ++ [d]) off (size + Z.of_nat (length d)) w (total ++ d).
Proof.
  intros (<- & -> & Ho & Hne & Hh) Hd. split_and!; [|rewrite zsum_map_app; cbn; lia|done|by apply Forall_app; split; [|constructor]|].
  - rewrite concat_app. cbn [concat]. rewrite app_nil_r, <- app_assoc. f_equal. apply drop_app_le.
    destruct q as [|d0 q]; cbn [concat]; [lia|]. rewrite length_app. lia.
  - destruct q; cbn; [|done]. destruct d; [done|]. cbn. lia.
Qed.

Lemma PushMessage_spec x dropped outs s total : good_message x -> sender_ok s total ->
  exists s', PushMessage net x.1 x.2 dropped outs s = Some s' /\ sender_ok s' (if dropped then total else total ++ message_bytes x).
Proof.
  intros Hx [Hss Hq]. unfold PushMessage, BeginMessage. rewrite Hss. cbn [length Nat.eqb]. cbn [mbind option_bind set_ss ssSend].
  unfold EndMessage. destruct dropped; [by eexists|]. cbn [set_ss ssSend vSendMsg].
  assert (length (message_bytes x) <> 0)%nat as Hlen by (unfold message_bytes; rewrite length_app, message_header_length by done; lia).
  assert ((length (enc c_message_header (make_header net x.1 0) ++ x.2) =? 0)%nat = false) as ->.
  { apply Nat.eqb_neq. rewrite <- (fill_header_spec x Hx) in Hlen. intros Hz. apply length_zero_iff_nil, app_nil in Hz as [Hz _].
    apply (f_equal length) in Hz. unfold make_header in Hz. cbn [c_message_header c_iso c_pair c_flat c_uint enc pchMessageStart fst snd] in Hz.
    rewrite length_app, (proj1 start_bytes) in Hz. cbn in Hz. lia. }
  rewrite fill_header_spec by done.
  assert (forall s0, vSendMsg s0 = vSendMsg s -> nSendOffset s0 = nSendOffset s -> nSendSize s0 = nSendSize s -> wire s0 = wire s ->
            sender_ok (enqueue (message_bytes x) s0) (total ++ message_bytes x)) as Hs'.
  { intros s0 H1 H2 H3 H4. split; [done|]. cbn [enqueue vSendMsg nSendOffset nSendSize wire]. rewrite H1, H2, H3, H4.
    apply in_order_snoc; [done|]. by destruct (message_bytes x). }
  case_match; [|by eexists; split; [reflexivity|apply Hs']]. by apply SocketSendData_spec, Hs'.
Qed.

(** What happens to a sender: a message is pushed, or the socket's thread sends. *)
Inductive send_event : Type :=
| Push (x : byte_list * byte_list) (dropped : bool) (outs : list send_answer)
| Flush (outs : list send_answer).

Definition send_step (e : send_event) (s : sender) : option sender :=
  match e with
  | Push x dropped outs => PushMessage net x.1 x.2 dropped outs s
  | Flush outs => SocketSendData outs s
  end.

Fixpoint send_run (es : list send_event) (s : sender) : option sender :=
  match es with
  | [] => Some s
  | e :: es' => s1 ← send_step e s; send_run es' s1
  end.

(** The messages pushed and not dropped. *)
Definition pushed (es : list send_event) : list (byte_list * byte_list) :=
  es ≫= (fun e => match e with Push x false _ => [x] | _ => [] end).

Definition good_event (e : send_event) : Prop := match e with Push x _ _ => good_message x | Flush _ => True end.

Definition new_sender : sender := {| ssSend := []; vSendMsg := []; nSendOffset := 0; nSendSize := 0; send_closed := false; wire := [] |}.

Lemma send_run_spec es s total : Forall good_event es -> sender_ok s total ->
  exists s', send_run es s = Some s' /\ sender_ok s' (total ++ concat (map message_bytes (pushed es))).
Proof.
  intros He. revert s total. induction He as [|e es He Hes IH]; intros s total Hs.
  { exists s. cbn. by rewrite app_nil_r. }
  assert (exists s1, send_step e s = Some s1 /\ sender_ok s1 (total ++ concat (map message_bytes (pushed [e])))) as (s1 & Hs1 & Ho1).
  { destruct e as [x dropped outs|outs]; cbn [send_step].
    - destruct (PushMessage_spec x dropped outs _ _ He Hs) as (s1 & -> & H1). exists s1. split; [done|].
      destruct dropped; unfold pushed; cbn [mbind list_bind app map concat]; by rewrite ?app_nil_r.
    - destruct (SocketSendData_spec outs _ _ Hs) as (s1 & -> & H1). exists s1. split; [done|].
      unfold pushed; cbn [mbind list_bind app map concat]; by rewrite ?app_nil_r. }
  destruct (IH _ _ Ho1) as (s' & Hr & Ho'). exists s'. cbn [send_run]. rewrite Hs1. cbn [mbind option_bind]. split; [done|].
  assert (pushed (e :: es) = pushed [e] ++ pushed es) as -> by (unfold pushed; cbn; by rewrite app_nil_r).
  by rewrite map_app, concat_app, app_assoc.
Qed.

Lemma new_sender_ok : sender_ok new_sender [].
Proof. split; [done|]. by split_and!. Qed.
End Sending.

(** * Memory *)

Definition frame_bytes (x : frame) : Z := 24 + Z.of_nat (length x.2).

Lemma frames_bytes bs l p : is_bytes bs -> frames bs = (l, Some p) -> zsum (map frame_bytes l) + Z.of_nat (length p) = Z.of_nat (length bs).
Proof.
  remember (length bs) as n eqn:Hn. revert bs Hn l p. induction n as [n IH] using lt_wf_ind. intros bs -> l p Hb.
  destruct (frames_cases _ Hb) as [->|[[H1 H2]|(q & rest & -> & Hq & Hlt)]].
  - by intros [= <- <-].
  - by rewrite frames_oversize.
  - rewrite frames_cons by done. apply words_app in Hb as [_ Hb]. pose proof (IH _ Hlt _ eq_refl) as Hrest.
    destruct (frames rest) as [l' p']. intros [= <- ->]. specialize (Hrest _ _ Hb eq_refl). unfold zsum in *. cbn [map foldr]. unfold frame_bytes at 1.
    cbn [fst snd]. rewrite length_drop, length_app. destruct Hq as [Hq _]. lia.
Qed.

Lemma total_size ms acc : 0 <= acc -> GetTotalRecvSize ms <= zsum (map (fun m => 24 + Z.of_nat (length (vRecv m))) ms) /\
  foldl (fun total m => u32 (total + Z.of_nat (length (vRecv m)) + 24)) acc ms <= acc + zsum (map (fun m => 24 + Z.of_nat (length (vRecv m))) ms).
Proof.
  assert (forall acc ms, 0 <= acc -> foldl (fun total m => u32 (total + Z.of_nat (length (vRecv m)) + 24)) acc ms <= acc + zsum (map (fun m => 24 + Z.of_nat (length (vRecv m))) ms)) as H.
  { clear. intros acc ms. revert acc. induction ms as [|m ms IH]; intros acc Ha; [cbn; lia|]. cbn [foldl map zsum foldr].
    assert (0 <= u32 (acc + Z.of_nat (length (vRecv m)) + 24) <= acc + Z.of_nat (length (vRecv m)) + 24) as Hu.
    { unfold u32. split; [apply Z.mod_pos_bound; lia|apply Z.mod_le; lia]. }
    specialize (IH _ (proj1 Hu)). unfold zsum in *. cbn [foldr]. lia. }
  intros Ha. split; [|by apply H]. specialize (H 0 ms ltac:(lia)). unfold GetTotalRecvSize. lia.
Qed.

Lemma holds_memory ms l p : holds ms l p ->
  GetTotalRecvSize ms <= zsum (map frame_bytes l) + Z.of_nat (length p) + 24 + 256 * 1024 /\
  Forall (fun m => Z.of_nat (length (vRecv m)) <= MAX_PROTOCOL_MESSAGE_LENGTH) ms.
Proof.
  intros (cs & t & -> & Hcs & <- & Ht). split.
  - etransitivity; [apply (total_size _ 0); lia|]. rewrite map_app, zsum_app.
    assert (zsum (map (fun m => 24 + Z.of_nat (length (vRecv m))) cs) = zsum (map frame_bytes (view <$> cs))) as ->.
    { f_equal. unfold fmap. clear. induction cs as [|m cs IH]; [done|]. cbn [list_fmap map]. by rewrite IH. }
    assert (zsum (map (fun m => 24 + Z.of_nat (length (vRecv m))) t) <= Z.of_nat (length p) + 24 + 256 * 1024); [|lia].
    destruct Ht as [|m p ? ? ? ? ? ? Hv|m p ? ? ? ? Hpos ? ? Hv]; unfold zsum; cbn [map foldr length]; [lia|rewrite Hv; cbn; lia|lia].
  - apply Forall_app. split; [eapply Forall_impl; [exact Hcs|]; intros m (_ & -> & Hm); exact Hm|].
    destruct Ht as [|m p ? ? ? ? ? ? Hv|m p ? ? ? Hmax ? ? ? Hv]; repeat constructor; [rewrite Hv; cbn; unfold MAX_PROTOCOL_MESSAGE_LENGTH; lia|lia].
Qed.

(** * Theorems *)

Section Theorems.
Context (net : Network).

(** C13 Whatever bytes a peer sends, in whatever pieces they arrive and however receiving and
    handling alternate, the node goes on; what it has taken up is the beginning of the valid
    messages of the whole stream, in order and each once; and on an open connection
    nothing is lost: what it has taken up and what waits make up all of them. *)
Theorem peer_takes_up_genuine {T} {ops : PeerOps T} (log : T -> list (byte_list * byte_list)) {laws : PeerLaws ops log} es s :
  log s = [] -> Forall (fun e => is_bytes (event_bytes e)) es ->
  exists n, peer_run net es (new_peer s) = Some n /\
    log (peer n) `prefix_of` genuine net (frames (arrived es)).1 /\
    (fDisconnect (peer n) = false -> log (peer n) ++ genuine net (waiting n) = genuine net (frames (arrived es)).1).
Proof.
  intros Hs He. destruct (peer_run_inv net es _ _ (new_peer_inv net s Hs) He) as (n & Hr & Hb & Hl & Hn). cbn [app] in *.
  exists n. split_and!; [done..|]. intros Hc. destruct (Hn Hc) as (d & l & p & -> & _ & Hh & Hpass). cbn [fst].
  rewrite (Hpass l). destruct n as [s' ms]. by rewrite (holds_waiting s' ms _ _ Hh).
Qed.

(** C14 On an open connection the messages that wait never take more memory than the bytes
    that arrived, a header and 256 KiB, and no message more than the longest message. *)
Theorem receive_memory_bounded {T} {ops : PeerOps T} (log : T -> list (byte_list * byte_list)) {laws : PeerLaws ops log} es s n :
  log s = [] -> Forall (fun e => is_bytes (event_bytes e)) es -> peer_run net es (new_peer s) = Some n -> fDisconnect (peer n) = false ->
  GetTotalRecvSize (vRecvMsg n) <= Z.of_nat (length (arrived es)) + 24 + 256 * 1024 /\
  Forall (fun m => Z.of_nat (length (vRecv m)) <= MAX_PROTOCOL_MESSAGE_LENGTH) (vRecvMsg n).
Proof.
  intros Hs He Hr Hc. destruct (peer_run_inv net es _ _ (new_peer_inv net s Hs) He) as (n' & Hr' & Hb & Hl & Hn). cbn [app] in *.
  assert (n' = n) as -> by congruence. destruct (Hn Hc) as (d & l & p & Hf & _ & Hh & _).
  destruct (holds_memory _ _ _ Hh) as [Hm Ha]. split; [|done]. pose proof (frames_bytes _ _ _ Hb Hf) as Hsum. rewrite map_app, zsum_app in Hsum.
  assert (0 <= zsum (map frame_bytes d)); [|lia].
  clear. induction d as [|x d IH]; [done|]. unfold zsum in *. cbn [map foldr]. unfold frame_bytes at 1. lia.
Qed.

(** Pushing messages and sending them never fails an assertion; what has gone out on the
    wire followed by what is queued are the messages that were pushed, in order; and the
    size of the queue is the sum of its messages. *)
Theorem sender_keeps_order es : Forall good_event es ->
  exists s, send_run net es new_sender = Some s /\
    wire s ++ drop (Z.to_nat (nSendOffset s)) (concat (vSendMsg s)) = concat (map (message_bytes net) (pushed es)) /\
    nSendSize s = zsum (map (fun d => Z.of_nat (length d)) (vSendMsg s)) /\ (vSendMsg s = [] -> nSendOffset s = 0).
Proof.
  intros He. destruct (send_run_spec net es new_sender [] He new_sender_ok) as (s & Hr & _ & Hw & Hsz & _ & _ & Ho).
  exists s. split_and!; [done..|]. intros Hq. by rewrite Hq in Ho.
Qed.

Lemma not_over {T} {ops : PeerOps T} (log : T -> list (byte_list * byte_list)) n l suf :
  Forall good_message l -> concat (map (message_bytes net) l) = suf -> ~ peer_over net (log := log) n suf.
Proof.
  intros Hl <- (_ & _ & Ho). assert (good_message ([], [])) as Hx.
  { unfold good_message, good_command, MAX_PROTOCOL_MESSAGE_LENGTH. cbn. split_and!; try constructor; lia. }
  pose proof (Ho []) as H1. pose proof (Ho (message_bytes net ([], []))) as H2. rewrite app_nil_r, frames_sent, H2 in H1 by done.
  assert (concat (map (message_bytes net) l) ++ message_bytes net ([], []) = concat (map (message_bytes net) (l ++ [([], [])]))) as E.
  { rewrite map_app, concat_app. cbn [map concat]. by rewrite app_nil_r. }
  assert (Forall good_message (l ++ [([], [])])) as Hlx by (apply Forall_app; auto).
  rewrite E, frames_sent in H1 by done. cbn [fst] in H1. rewrite !genuine_sent in H1 by done.
  apply (f_equal length) in H1. rewrite length_app in H1. cbn in H1. lia.
Qed.

(** C12 A node whose handlers leave it ready takes up exactly the messages another node pushed:
    when all of them went out and arrived, in whatever pieces, and the handler's thread has
    had a turn for each, it has taken up the commands and payloads pushed, in order, and
    the connection is open. *)
Theorem messages_delivered {T} {ops : PeerOps T} (log : T -> list (byte_list * byte_list)) {laws : PeerLaws ops log} sends snd es s k :
  stays_ready -> ready s -> log s = [] -> Forall good_event sends ->
  send_run net sends new_sender = Some snd -> vSendMsg snd = [] -> Forall (fun e => is_bytes (event_bytes e)) es -> arrived es = wire snd ->
  (length (pushed sends) <= k)%nat ->
  exists n n', peer_run net es (new_peer s) = Some n /\ peer_run net (replicate k Handle) n = Some n' /\
    log (peer n') = pushed sends /\ fDisconnect (peer n) = false.
Proof.
  intros Hstay Hready Hs Hsends Hsnd Hq He Ha Hk.
  destruct (send_run_spec net sends new_sender [] Hsends new_sender_ok) as (snd' & Hr & _ & Hw & _ & _ & _ & Ho).
  assert (snd' = snd) as -> by congruence. rewrite Hq in Hw. cbn [concat] in Hw. rewrite drop_nil, app_nil_r in Hw. cbn [app] in Hw.
  assert (Forall good_message (pushed sends)) as Hgood.
  { clear -Hsends. unfold pushed. induction Hsends as [|e es He _ IH]; [constructor|]. cbn [mbind list_bind]. apply Forall_app. split; [|done].
    destruct e as [x [] outs|outs]; [constructor|constructor; [exact He|constructor]|constructor]. }
  assert (keeps_up net (log := log) (new_peer s) []) as H0.
  { left. exists []. split; [constructor|]. split; [done|]. destruct (new_peer_inv net s Hs) as (_ & _ & Hn).
    destruct (Hn (proj1 Hready)) as (d & l & p & Hf & Hp & Hh & Hpass). rewrite frames_short in Hf by (cbn; lia). injection Hf as Hd <-.
    symmetry in Hd. apply app_nil in Hd as [-> ->]. exists [], []. split_and!; [by rewrite frames_short by (cbn; lia)|done..]. }
  assert (frames (arrived es) = (map (fun x => (sent_header net x, x.2)) (pushed sends), Some [])) as Hf by (rewrite Ha, Hw; by apply frames_sent).
  destruct (keeps_up_run net es _ _ Hstay H0 He) as (n & Hrun & Hn); [cbn [app]; by rewrite Hf|]. cbn [app] in Hn.
  destruct Hn as [[l Hn]|Hn]; [|by apply not_over with (l := pushed sends) in Hn; [|done|by rewrite Ha]].
  assert (length l <= k)%nat as Hlk.
  { destruct Hn as (_ & _ & d & p & Hf' & _). rewrite Hf in Hf'. injection Hf' as Hl _. apply (f_equal length) in Hl. rewrite length_map, length_app in Hl. lia. }
  destruct (drains net (log := log) k n (arrived es) Hstay ltac:(left; by exists l)) as (n' & Hrun' & Hlog).
  exists n, n'. split_and!; [done|done| |exact (proj1 (proj1 (proj2 Hn)))]. rewrite Hlog, Hf. cbn [fst]. by apply genuine_sent.
Qed.
End Theorems.

(** * Inventories *)

(** The names of the known types are distinct: the constructor from a name inverts
    [GetCommand]. *)
Lemma inv_of_known junk i : IsKnownType i = true -> inv_of_name junk (inv_GetCommand i) (inv_hash i) = i.
Proof.
  destruct i as [t h]. unfold IsKnownType. cbn [inv_type inv_hash]. intros H. apply andb_prop in H as [H1 H2].
  apply Z.leb_le in H1. apply Z.ltb_lt in H2. change (Z.of_nat (length ppszTypeName)) with 16 in H2.
  assert (exists n, t = Z.of_nat n /\ (1 <= n < 16)%nat) as (n & -> & Hn) by (exists (Z.to_nat t); lia).
  do 16 (destruct n as [|n]; [first [lia|reflexivity]|]). lia.
Qed.

(** The inventories of community proposals and votes (16 and 17) have no name. *)
Example community_types_unknown h : (IsKnownType {| inv_type := 15; inv_hash := h |}, IsKnownType {| inv_type := 16; inv_hash := h |}, IsKnownType {| inv_type := 17; inv_hash := h |}) = (true, false, false).
Proof. reflexivity. Qed.

Instance c_inv_lawful : Lawful c_inv.
Proof. apply c_iso_lawful; [by intros []|apply c_pair_lawful; [by apply c_int_lawful; lia|apply _]]. Qed.

(** * Witnesses *)

(** A peer that only writes down what it is given. *)
Record example_peer := { ep_log : list (byte_list * byte_list); ep_closed : bool }.

Instance example_ops : PeerOps example_peer := {|
  fDisconnect := ep_closed; close_socket p := {| ep_log := ep_log p; ep_closed := true |};
  getdata_empty _ := true; send_buffer_full _ := false; ProcessGetData p := p;
  ProcessMessage c v _ p := {| ep_log := ep_log p ++ [(c, v)]; ep_closed := ep_closed p |} |}.

Instance example_laws : PeerLaws example_ops ep_log.
Proof. by split. Qed.

Definition fresh_peer : example_peer := {| ep_log := []; ep_closed := false |}.

Lemma example_ready : stays_ready (T := example_peer).
Proof. by intros c v t s (H & _ & _). Qed.

(** "ping" with a nonce, then "verack"; the second is queued, and both go out in pieces. *)
Definition ping_message : byte_list * byte_list := ([112; 105; 110; 103], [1; 2; 3; 4; 5; 6; 7; 8]).
Definition verack_message : byte_list * byte_list := ([118; 101; 114; 97; 99; 107], []).
Definition example_sends : list send_event :=
  [Push ping_message false [Room 10]; Push verack_message false []; Flush [Room 30; Room 20]; Flush [Room 100]].
Definition example_sender : sender := default new_sender (send_run MAIN example_sends new_sender).
Definition no_clock (n : nat) : Z := 0.

(** What arrives, cut inside a header and inside a payload. *)
Definition example_events : list peer_event :=
  [Arrive no_clock (take 10 (wire example_sender)); Handle; Arrive no_clock (take 17 (drop 10 (wire example_sender))); Handle;
   Arrive no_clock (drop 27 (wire example_sender))].

Lemma example_arrived : arrived example_events = wire example_sender.
Proof.
  unfold arrived, example_events. cbn [map event_bytes concat app]. rewrite app_nil_r.
  generalize (wire example_sender). intros w. change 27%nat with (10 + 17)%nat. by rewrite <- drop_drop, (take_drop 17), take_drop.
Qed.

Lemma example_good : Forall good_event example_sends.
Proof.
  assert (forall c v, Forall (fun x => 32 <= x <= 126) c -> (length c <= 12)%nat -> Forall (fun x => 0 <= x < 256) v -> Z.of_nat (length v) <= 100 -> good_message (c, v)) as H.
  { intros c v H1 H2 H3 H4. split; [by split|]. split; [exact H3|]. unfold MAX_PROTOCOL_MESSAGE_LENGTH. cbn [snd]. lia. }
  unfold example_sends. repeat apply Forall_cons_2; try apply Forall_nil_2; cbn [good_event]; try done; apply H; cbn; repeat constructor; lia.
Qed.

Lemma example_bytes : Forall (fun e => is_bytes (event_bytes e)) example_events.
Proof.
  assert (is_bytes (wire example_sender)) as Hw.
  { destruct (sender_keeps_order MAIN _ example_good) as (s & Hr & Hw & _). unfold example_sender. rewrite Hr. cbn [default].
    assert (is_bytes (concat (map (message_bytes MAIN) (pushed example_sends)))) as Hb.
    { pose proof example_good as Hg. unfold example_sends in Hg. rewrite !Forall_cons in Hg. destruct Hg as (G1 & G2 & _).
      cbn [pushed example_sends mbind list_bind app map concat]. rewrite app_nil_r. apply words_app. split; by apply message_bytes_bytes. }
    rewrite <- Hw in Hb. by apply words_app in Hb as [Hb _]. }
  unfold example_events. generalize dependent (wire example_sender). intros w Hw.
  constructor; [by apply words_take|]. constructor; [constructor|]. constructor; [by apply words_take, words_drop|].
  constructor; [constructor|]. constructor; [by apply words_drop|constructor].
Qed.

Lemma messages_delivered_witness :
  exists n n', peer_run MAIN example_events (new_peer fresh_peer) = Some n /\ peer_run MAIN (replicate 2 Handle) n = Some n' /\
    ep_log (peer n') = pushed example_sends /\ fDisconnect (peer n) = false.
Proof.
  assert (Hs : send_run MAIN example_sends new_sender = Some example_sender) by (vm_compute; reflexivity).
  assert (Hq : vSendMsg example_sender = []) by (vm_compute; reflexivity).
  exact (messages_delivered MAIN (T := example_peer) ep_log example_sends example_sender example_events fresh_peer 2
    example_ready (conj eq_refl (conj eq_refl eq_refl)) eq_refl example_good Hs Hq example_bytes example_arrived (le_n 2)).
Defined.

Lemma peer_takes_up_genuine_witness :
  exists n, peer_run MAIN example_events (new_peer fresh_peer) = Some n /\
    ep_log (peer n) `prefix_of` genuine MAIN (frames (arrived example_events)).1 /\
    (fDisconnect (peer n) = false -> ep_log (peer n) ++ genuine MAIN (waiting n) = genuine MAIN (frames (arrived example_events)).1).
Proof. exact (peer_takes_up_genuine MAIN (T := example_peer) ep_log example_events fresh_peer eq_refl example_bytes). Defined.

Lemma sender_keeps_order_witness :
  exists s, send_run MAIN example_sends new_sender = Some s /\
    wire s ++ drop (Z.to_nat (nSendOffset s)) (concat (vSendMsg s)) = concat (map (message_bytes MAIN) (pushed example_sends)) /\
    nSendSize s = zsum (map (fun d => Z.of_nat (length d)) (vSendMsg s)) /\ (vSendMsg s = [] -> nSendOffset s = 0).
Proof. exact (sender_keeps_order MAIN example_sends example_good). Defined.

(** One piece of a header. *)
Definition short_events : list peer_event := [Arrive no_clock [0xb2; 0x3a; 0x4f]].
Definition short_node : CNode example_peer := default (new_peer fresh_peer) (peer_run MAIN short_events (new_peer fresh_peer)).

Lemma receive_memory_bounded_witness :
  GetTotalRecvSize (vRecvMsg short_node) <= Z.of_nat (length (arrived short_events)) + 24 + 256 * 1024 /\
  Forall (fun m => Z.of_nat (length (vRecv m)) <= MAX_PROTOCOL_MESSAGE_LENGTH) (vRecvMsg short_node).
Proof.
  assert (Hb : Forall (fun e => is_bytes (event_bytes e)) short_events).
  { unfold short_events. repeat constructor; unfold word; lia. }
  exact (receive_memory_bounded MAIN (T := example_peer) ep_log short_events fresh_peer short_node eq_refl Hb eq_refl eq_refl).
Defined.

(** The first handling finds nothing whole, the third takes the second message up. *)
Example handled_in_turn : (fun n => (map (fun x => length x.2) (ep_log (peer n)), length (vRecvMsg n))) <$>
  peer_run MAIN (example_events ++ [Handle]) (new_peer fresh_peer) = Some ([8%nat], 1%nat).
Proof. vm_compute. reflexivity. Qed.
