(* ===== verification/Base58.v ===== *)
(** Base58 text and addresses (base58.h, base58.cpp): numbers to the base 58 with leading
    zeros kept, the form with a checksum, and the addresses of destinations.

    A C string is the list of its characters before the zero that ends it.  [None] is a
    failed assertion.  Extended keys are left out. *)

From S2P Require Import Prelude Uint256 Arith256 Hashes Transaction Script Standard Messages.

Local Open Scope Z_scope.
#[local] Abbreviation length := Datatypes.length.

(** * Base58 *)

Definition pszBase58 : byte_list := [
  49; 50; 51; 52; 53; 54; 55; 56; 57; 65; 66; 67; 68; 69; 70; 71; 72; 74; 75; 76; 77; 78; 80; 81; 82; 83; 84; 85; 86; 87; 88; 89; 90;
  97; 98; 99; 100; 101; 102; 103; 104; 105; 106; 107; 109; 110; 111; 112; 113; 114; 115; 116; 117; 118; 119; 120; 121; 122].

Definition isspace (c : Z) : bool := (c =? 32) || ((9 <=? c) && (c <=? 13)).

Fixpoint skip_spaces (psz : byte_list) : byte_list :=
  match psz with
  | c :: psz' => if isspace c then skip_spaces psz' else psz
  | [] => []
  end.

(** Skips the leading elements [x] and counts them. *)
Fixpoint skip_count (x : Z) (l : list Z) : nat * list Z :=
  match l with
  | c :: l' => if c =? x then let r := skip_count x l' in (S r.1, r.2) else (O, l)
  | [] => (O, [])
  end.

(** [strchr(pszBase58, c) - pszBase58]. *)
Fixpoint index_of (i c : Z) (l : list Z) : option Z :=
  match l with
  | x :: l' => if x =? c then Some i else index_of (i + 1) c l'
  | [] => None
  end.

(** The inner loops: "b = b * mult + carry" on digits to the base [base], from the least
    significant digit; with the carry that is left. *)
Fixpoint carry_loop (mult base carry : Z) (l : list Z) : list Z * Z :=
  match l with
  | d :: l' =>
      let c := carry + mult * d in
      let r := carry_loop mult base (c / base) l' in
      (c mod base :: r.1, r.2)
  | [] => ([], carry)
  end.

Definition times_plus (mult base carry : Z) (b : list Z) : option (list Z) :=
  let r := carry_loop mult base carry (rev b) in
  if r.2 =? 0 then Some (rev r.1) else None.

(** The characters up to a space or the end; [Some None]: one is not of the alphabet. *)
Fixpoint decode_loop (b256 : list Z) (psz : byte_list) : option (option (list Z * byte_list)) :=
  match psz with
  | [] => Some (Some (b256, []))
  | c :: psz' =>
      if isspace c then Some (Some (b256, psz))
      else
        match index_of 0 c pszBase58 with
        | None => Some None
        | Some carry => match times_plus 58 256 carry b256 with Some b => decode_loop b psz' | None => None end
        end
  end.

Definition DecodeBase58 (psz : byte_list) : option (option byte_list) :=
  let '(zeroes, psz) := skip_count 49 (skip_spaces psz) in
  let b256 := replicate (length psz * 733 / 1000 + 1) 0 in
  match decode_loop b256 psz with
  | None => None
  | Some None => Some None
  | Some (Some (b, rest)) =>
      match skip_spaces rest with
      | [] => Some (Some (replicate zeroes 0 ++ (skip_count 0 b).2))
      | _ :: _ => Some None
      end
  end.

Fixpoint encode_loop (b58 : list Z) (bytes : byte_list) : option (list Z) :=
  match bytes with
  | [] => Some b58
  | c :: bytes' => match times_plus 256 58 c b58 with Some b => encode_loop b bytes' | None => None end
  end.

Definition EncodeBase58 (vch : byte_list) : option byte_list :=
  let '(zeroes, bytes) := skip_count 0 vch in
  let b58 := replicate (length bytes * 138 / 100 + 1) 0 in
  match encode_loop b58 bytes with
  | None => None
  | Some b => Some (replicate zeroes 49 ++ map (fun d => nth (Z.to_nat d) pszBase58 0) (skip_count 0 b).2)
  end.

(** The first four bytes of the hash. *)
Definition check_bytes (vch : byte_list) : byte_list := take 4 (to_bytes (Hash vch)).

Definition EncodeBase58Check (vchIn : byte_list) : option byte_list := EncodeBase58 (vchIn ++ check_bytes vchIn).

Definition DecodeBase58Check (psz : byte_list) : option (option byte_list) :=
  match DecodeBase58 psz with
  | None => None
  | Some None => Some None
  | Some (Some v) =>
      if (length v <? 4)%nat then Some None
      else
        let data := take (length v - 4) v in
        if bool_decide (check_bytes data = drop (length v - 4) v) then Some (Some data) else Some None
  end.

(** * Versioned data *)

Record CBase58Data := { vchVersion : byte_list; vchData : byte_list }.

Definition no_data : CBase58Data := {| vchVersion := []; vchData := [] |}.

Definition SetData (vchVersionIn pdata : byte_list) : CBase58Data := {| vchVersion := vchVersionIn; vchData := pdata |}.

(** What is returned and the object after. *)
Definition data_SetString (psz : byte_list) (nVersionBytes : nat) : option (bool * CBase58Data) :=
  match DecodeBase58Check psz with
  | None => None
  | Some None => Some (false, no_data)
  | Some (Some v) =>
      if (length v <? nVersionBytes)%nat then Some (false, no_data)
      else Some (true, {| vchVersion := take nVersionBytes v; vchData := drop nVersionBytes v |})
  end.

Definition data_ToString (d : CBase58Data) : option byte_list := EncodeBase58Check (vchVersion d ++ vchData d).

(** [operator<] of vectors. *)
Fixpoint bytes_lt (a b : byte_list) : bool :=
  match a, b with
  | [], [] => false
  | [], _ :: _ => true
  | _ :: _, [] => false
  | x :: a', y :: b' => (x <? y) || ((x =? y) && bytes_lt a' b')
  end.

Definition data_CompareTo (a b : CBase58Data) : Z :=
  if bytes_lt (vchVersion a) (vchVersion b) then -1
  else if bytes_lt (vchVersion b) (vchVersion a) then 1
  else if bytes_lt (vchData a) (vchData b) then -1
  else if bytes_lt (vchData b) (vchData a) then 1
  else 0.

(** * Addresses *)

Inductive Base58Type : Type := PUBKEY_ADDRESS | SCRIPT_ADDRESS | SECRET_KEY.

(** The test network for regression derives from the test network, that of the unit tests
    from the main network. *)
Definition Base58Prefix (net : Network) (t : Base58Type) : byte_list :=
  match net, t with
  | (MAIN | UNITTEST), _ => [55]
  | (TESTNET | REGTEST), PUBKEY_ADDRESS => [55]
  | (TESTNET | REGTEST), (SCRIPT_ADDRESS | SECRET_KEY) => [196]
  end.

Section Address.
Context (net : Network).

Definition address_Set (dest : CTxDestination) (a : CBase58Data) : bool * CBase58Data :=
  match dest with
  | CKeyID id => (true, SetData (Base58Prefix net PUBKEY_ADDRESS) (to_bytes id))
  | CScriptID id => (true, SetData (Base58Prefix net SCRIPT_ADDRESS) (to_bytes id))
  | CNoDestination => (false, a)
  end.

Definition address_IsValid (a : CBase58Data) : bool :=
  let fCorrectSize := (length (vchData a) =? 20)%nat in
  let fKnownVersion := bool_decide (vchVersion a = Base58Prefix net PUBKEY_ADDRESS) || bool_decide (vchVersion a = Base58Prefix net SCRIPT_ADDRESS) in
  fCorrectSize && fKnownVersion.

Definition address_Get (a : CBase58Data) : CTxDestination :=
  if negb (address_IsValid a) then CNoDestination
  else
    let id := limbs_of_bytes 5 (vchData a) in
    if bool_decide (vchVersion a = Base58Prefix net PUBKEY_ADDRESS) then CKeyID id
    else if bool_decide (vchVersion a = Base58Prefix net SCRIPT_ADDRESS) then CScriptID id
    else CNoDestination.

Definition address_GetKeyID (a : CBase58Data) : option base_uint :=
  if negb (address_IsValid a) || negb (bool_decide (vchVersion a = Base58Prefix net PUBKEY_ADDRESS)) then None
  else Some (limbs_of_bytes 5 (vchData a)).

Definition address_IsScript (a : CBase58Data) : bool := address_IsValid a && bool_decide (vchVersion a = Base58Prefix net SCRIPT_ADDRESS).

(** [CBitcoinAddress(dest).ToString()] and [CBitcoinAddress(str).Get()]. *)
Definition address_of (dest : CTxDestination) : option byte_list := data_ToString (address_Set dest no_data).2.

Definition destination_of (str : byte_list) : option CTxDestination :=
  match data_SetString str 1 with Some (_, a) => Some (address_Get a) | None => None end.

(** Secret keys: the bytes of the key and whether its public key is compressed. *)
Definition secret_SetKey (key : byte_list) (fCompressed : bool) : CBase58Data :=
  SetData (Base58Prefix net SECRET_KEY) (key ++ (if fCompressed then [1] else [])).

Definition secret_GetKey (s : CBase58Data) : option (byte_list * bool) :=
  if (length (vchData s) <? 32)%nat then None
  else Some (take 32 (vchData s), (32 <? length (vchData s))%nat && (nth 32 (vchData s) 0 =? 1)).

Definition secret_IsValid (s : CBase58Data) : bool :=
  let fExpectedFormat := (length (vchData s) =? 32)%nat || ((length (vchData s) =? 33)%nat && (nth 32 (vchData s) 0 =? 1)) in
  let fCorrectVersion := bool_decide (vchVersion s = Base58Prefix net SECRET_KEY) in
  fExpectedFormat && fCorrectVersion.

Definition secret_SetString (psz : byte_list) : option (bool * CBase58Data) :=
  match data_SetString psz 1 with Some (ok, s) => Some (ok && secret_IsValid s, s) | None => None end.
End Address.

(** * Digits *)

Section Digits.
Context (base : Z) (Hbase : 1 < base).

Fixpoint low_val (l : list Z) : Z := match l with d :: l' => d + base * low_val l' | [] => 0 end.

(** The value of digits, the most significant first. *)
Definition big_val (l : list Z) : Z := low_val (rev l).

Definition digits_ok (l : list Z) : Prop := Forall (fun d => 0 <= d < base) l.

Lemma low_val_app l1 l2 : low_val (l1 ++ l2) = low_val l1 + base ^ Z.of_nat (length l1) * low_val l2.
Proof using Hbase.
  induction l1 as [|d l1 IH]; [cbn [app low_val length]; lia|]. cbn [app low_val length]. rewrite IH, Nat2Z.inj_succ, Z.pow_succ_r by lia. ring.
Qed.

Lemma low_val_bound l : digits_ok l -> 0 <= low_val l < base ^ Z.of_nat (length l).
Proof using Hbase.
  induction 1 as [|d l Hd _ IH]; cbn [low_val length]; [rewrite Z.pow_0_r; lia|]. rewrite Nat2Z.inj_succ, Z.pow_succ_r by lia. nia.
Qed.

Lemma digits_rev l : digits_ok l -> digits_ok (rev l).
Proof. apply Forall_rev. Qed.

Lemma big_val_bound l : digits_ok l -> 0 <= big_val l < base ^ Z.of_nat (length l).
Proof using Hbase. intros H. unfold big_val. rewrite <- (length_rev l). by apply low_val_bound, digits_rev. Qed.

Lemma big_val_cons d l : big_val (d :: l) = d * base ^ Z.of_nat (length l) + big_val l.
Proof using Hbase. unfold big_val. cbn [rev]. rewrite low_val_app, length_rev. cbn [low_val]. ring. Qed.

Lemma big_val_zeros k l : big_val (replicate k 0 ++ l) = big_val l.
Proof using Hbase. induction k as [|k IH]; [done|]. cbn [replicate app]. rewrite big_val_cons, IH. ring. Qed.

Lemma low_val_unique l1 l2 : digits_ok l1 -> digits_ok l2 -> last l1 <> Some 0 -> last l2 <> Some 0 -> low_val l1 = low_val l2 -> l1 = l2.
Proof using Hbase.
  assert (forall l, digits_ok l -> last l <> Some 0 -> low_val l = 0 -> l = []) as Hnil.
  { induction 1 as [|d l Hd Hl IH]; [done|]. intros Hn H. cbn [low_val] in H. pose proof (low_val_bound l Hl).
    assert (d = 0 /\ low_val l = 0) as [-> Hz] by nia. destruct l as [|d' l]; [done|]. exfalso. by discriminate (IH Hn Hz). }
  intros H1. revert l2. induction H1 as [|d1 l1 Hd1 Hl1 IH]; intros l2 H2 N1 N2 E; [symmetry; by apply Hnil|].
  destruct H2 as [|d2 l2 Hd2 Hl2]; [by apply Hnil; [by constructor|..]|].
  cbn [low_val] in E. pose proof (low_val_bound l1 Hl1). pose proof (low_val_bound l2 Hl2).
  destruct (Z.div_mod_unique base (low_val l1) (low_val l2) d1 d2) as [E' ->]; [lia..|]. f_equal.
  apply IH; [done| | |done]; [by destruct l1|by destruct l2].
Qed.

Lemma big_val_unique l1 l2 : digits_ok l1 -> digits_ok l2 -> head l1 <> Some 0 -> head l2 <> Some 0 -> big_val l1 = big_val l2 -> l1 = l2.
Proof using Hbase.
  intros H1 H2 N1 N2 E. rewrite <- (rev_involutive l1), <- (rev_involutive l2). f_equal.
  assert (forall l : list Z, last (rev l) = head l) as Hlast by (intros [|d l]; [done|]; cbn [rev]; by rewrite last_snoc).
  by apply low_val_unique; [apply digits_rev..|rewrite Hlast|rewrite Hlast|].
Qed.

Lemma carry_loop_spec mult carry l : 0 <= mult -> 0 <= carry -> digits_ok l ->
  let r := carry_loop mult base carry l in
  length r.1 = length l /\ digits_ok r.1 /\ 0 <= r.2 /\ low_val r.1 + r.2 * base ^ Z.of_nat (length l) = mult * low_val l + carry.
Proof using Hbase.
  intros Hm Hc Hl. revert carry Hc. induction Hl as [|d l Hd Hl IH]; intros carry Hc; cbn [carry_loop fst snd length low_val].
  { rewrite Z.pow_0_r. split_and!; [done|constructor|done|lia]. }
  destruct (IH ((carry + mult * d) / base)) as (H1 & H2 & H3 & H4); [apply Z.div_pos; nia|].
  split_and!; [by rewrite H1|constructor; [apply Z.mod_pos_bound; lia|done]|done|].
  rewrite Nat2Z.inj_succ, Z.pow_succ_r by lia. pose proof (Z.div_mod (carry + mult * d) base ltac:(lia)). nia.
Qed.

Lemma times_plus_spec mult carry b : 0 <= mult -> 0 <= carry -> digits_ok b -> mult * big_val b + carry < base ^ Z.of_nat (length b) ->
  exists b', times_plus mult base carry b = Some b' /\ length b' = length b /\ digits_ok b' /\ big_val b' = mult * big_val b + carry.
Proof using Hbase.
  intros Hm Hc Hb Hlt. unfold times_plus. destruct (carry_loop_spec mult carry (rev b) Hm Hc (digits_rev _ Hb)) as (H1 & H2 & H3 & H4).
  rewrite length_rev in *. unfold big_val in *. pose proof (low_val_bound _ H2) as Hv. rewrite H1 in Hv.
  assert ((carry_loop mult base carry (rev b)).2 = 0) as Hz by nia. rewrite Hz in *. rewrite Z.eqb_refl.
  eexists. split; [reflexivity|]. rewrite length_rev, rev_involutive. split_and!; [done|by apply digits_rev|lia].
Qed.
End Digits.

(** Digits to the base [a] fit in [n * p / q + 1] digits to the base [b]. *)
Lemma digits_fit (a b : Z) (p q n : nat) : 1 < a -> 1 < b -> (0 < q)%nat -> a ^ Z.of_nat q <= b ^ Z.of_nat p ->
  a ^ Z.of_nat n <= b ^ Z.of_nat (n * p / q + 1).
Proof.
  intros Ha Hb Hq H. set (m := (n * p / q + 1)%nat). assert (n * p <= q * m)%nat as Hm.
  { unfold m. pose proof (Nat.div_mod (n * p) q ltac:(lia)). pose proof (Nat.mod_upper_bound (n * p) q ltac:(lia)). lia. }
  destruct (Z_le_gt_dec (a ^ Z.of_nat n) (b ^ Z.of_nat m)) as [?|Hgt]; [done|exfalso].
  assert ((b ^ Z.of_nat m) ^ Z.of_nat q < (a ^ Z.of_nat n) ^ Z.of_nat q) as H1.
  { apply Z.pow_lt_mono_l; [lia|]. split; [apply Z.pow_nonneg; lia|lia]. }
  assert ((a ^ Z.of_nat n) ^ Z.of_nat q <= (b ^ Z.of_nat p) ^ Z.of_nat n) as H2.
  { rewrite <- Z.pow_mul_r, Z.mul_comm, Z.pow_mul_r by lia. apply Z.pow_le_mono_l. split; [apply Z.pow_nonneg; lia|done]. }
  assert ((b ^ Z.of_nat p) ^ Z.of_nat n <= (b ^ Z.of_nat m) ^ Z.of_nat q) as H3.
  { rewrite <- !Z.pow_mul_r by lia. apply Z.pow_le_mono_r; lia. }
  lia.
Qed.

Lemma skip_count_spec x l : l = replicate (skip_count x l).1 x ++ (skip_count x l).2 /\ head (skip_count x l).2 <> Some x.
Proof.
  induction l as [|c l [IH1 IH2]]; [done|]. cbn [skip_count]. destruct (c =? x) eqn:E.
  - apply Z.eqb_eq in E as ->. cbn [fst snd replicate app]. split; [by f_equal|done].
  - apply Z.eqb_neq in E. cbn. split; [done|congruence].
Qed.

Lemma skip_count_app x k l : head l <> Some x -> skip_count x (replicate k x ++ l) = (k, l).
Proof.
  intros H. induction k as [|k IH]; cbn [replicate app skip_count].
  - destruct l as [|c l]; [done|]. cbn [skip_count]. rewrite (proj2 (Z.eqb_neq c x)); [done|]. cbn in H. congruence.
  - by rewrite Z.eqb_refl, IH.
Qed.

(** * The alphabet *)

Definition char58 (d : Z) : Z := nth (Z.to_nat d) pszBase58 0.

Lemma index_of_ok c l i j : index_of i c l = Some j -> i <= j < i + Z.of_nat (length l) /\ nth (Z.to_nat (j - i)) l 0 = c.
Proof.
  revert i. induction l as [|x l IH]; intros i; [done|]. cbn [index_of length]. destruct (x =? c) eqn:E.
  - intros [= <-]. apply Z.eqb_eq in E as ->. split; [lia|]. by rewrite Z.sub_diag.
  - intros H. apply IH in H as [H1 H2]. split; [lia|]. rewrite <- H2.
    replace (Z.to_nat (j - i)) with (S (Z.to_nat (j - (i + 1)))) by lia. done.
Qed.

Lemma alphabet d : 0 <= d < 58 ->
  index_of 0 (char58 d) pszBase58 = Some d /\ isspace (char58 d) = false /\ (char58 d = 49 <-> d = 0) /\ 0 <= char58 d < 256.
Proof.
  intros Hd. set (ok := fun d => bool_decide (index_of 0 (char58 d) pszBase58 = Some d) && negb (isspace (char58 d)) &&
    Bool.eqb (char58 d =? 49) (d =? 0) && (0 <=? char58 d) && (char58 d <? 256)).
  assert (forallb ok (map Z.of_nat (seq 0 58)) = true) as H by (vm_compute; reflexivity).
  rewrite forallb_forall in H. specialize (H d). unfold ok in H. rewrite !andb_true_iff in H.
  destruct H as [[[[H1 H2] H3] H4] H5]; [apply in_map_iff; exists (Z.to_nat d); split; [lia|apply in_seq; lia]|].
  apply bool_decide_eq_true in H1. apply negb_true_iff in H2. apply Bool.eqb_prop in H3.
  split_and!; [done|done| |by apply Z.leb_le|by apply Z.ltb_lt]. rewrite <- (Z.eqb_eq (char58 d) 49), H3, Z.eqb_eq. done.
Qed.

Lemma alphabet_index c d : index_of 0 c pszBase58 = Some d -> 0 <= d < 58 /\ c = char58 d.
Proof. intros H. apply index_of_ok in H as [H1 H2]. split; [exact H1|]. rewrite <- H2. unfold char58. by rewrite Z.sub_0_r. Qed.

(** * The loops *)

Lemma encode_loop_spec bytes b : is_bytes bytes -> digits_ok 58 b ->
  (big_val 58 b + 1) * 256 ^ Z.of_nat (length bytes) <= 58 ^ Z.of_nat (length b) ->
  exists b', encode_loop b bytes = Some b' /\ digits_ok 58 b' /\ big_val 58 b' = big_val 58 b * 256 ^ Z.of_nat (length bytes) + big_val 256 bytes.
Proof.
  intros Hbs. revert b. induction Hbs as [|c bytes Hc Hbs IH]; intros b Hb Hfit; cbn [encode_loop length] in *.
  { exists b. split_and!; [done|done|]. rewrite Z.pow_0_r. unfold big_val at 3. cbn. lia. }
  assert (0 <= c < 256) as Hc' by exact Hc. rewrite Nat2Z.inj_succ, Z.pow_succ_r in Hfit by lia.
  pose proof (big_val_bound 58 ltac:(lia) b Hb) as Hv. pose proof (Z.pow_pos_nonneg 256 (Z.of_nat (length bytes)) ltac:(lia) ltac:(lia)) as Hp.
  destruct (times_plus_spec 58 ltac:(lia) 256 c b ltac:(lia) ltac:(lia) Hb) as (b1 & -> & Hl & Hok & Hv1); [nia|].
  destruct (IH b1 Hok) as (b' & -> & Hok' & Hv'); [rewrite Hv1, Hl; nia|].
  exists b'. split_and!; [done|done|]. rewrite Hv', Hv1, (big_val_cons 256), Nat2Z.inj_succ, Z.pow_succ_r by lia. ring.
Qed.

(** The characters of digits, up to a space or the end. *)
Definition stops (rest : byte_list) : Prop := match rest with [] => True | c :: _ => isspace c = true end.

Lemma decode_loop_forward ds rest b : digits_ok 58 ds -> stops rest -> digits_ok 256 b ->
  (big_val 256 b + 1) * 58 ^ Z.of_nat (length ds) <= 256 ^ Z.of_nat (length b) ->
  exists b', decode_loop b (map char58 ds ++ rest) = Some (Some (b', rest)) /\ digits_ok 256 b' /\
    big_val 256 b' = big_val 256 b * 58 ^ Z.of_nat (length ds) + big_val 58 ds.
Proof.
  intros Hds Hrest. revert b. induction Hds as [|d ds Hd Hds IH]; intros b Hb Hfit; cbn [map app length] in *.
  { exists b. split_and!; [by destruct rest as [|c rest]; cbn [decode_loop]; [|rewrite Hrest]|done|]. rewrite Z.pow_0_r. unfold big_val at 3. cbn. lia. }
  destruct (alphabet d Hd) as (Hi & Hs & _). cbn [decode_loop]. rewrite Hs, Hi.
  rewrite Nat2Z.inj_succ, Z.pow_succ_r in Hfit by lia.
  pose proof (big_val_bound 256 ltac:(lia) b Hb) as Hv. pose proof (Z.pow_pos_nonneg 58 (Z.of_nat (length ds)) ltac:(lia) ltac:(lia)) as Hp.
  destruct (times_plus_spec 256 ltac:(lia) 58 d b ltac:(lia) ltac:(lia) Hb) as (b1 & -> & Hl & Hok & Hv1); [nia|].
  destruct (IH b1 Hok) as (b' & -> & Hok' & Hv'); [rewrite Hv1, Hl; nia|].
  exists b'. split_and!; [done|done|]. rewrite Hv', Hv1, (big_val_cons 58), Nat2Z.inj_succ, Z.pow_succ_r by lia. ring.
Qed.

Lemma decode_loop_cases psz b : digits_ok 256 b -> (big_val 256 b + 1) * 58 ^ Z.of_nat (length psz) <= 256 ^ Z.of_nat (length b) ->
  decode_loop b psz = Some None \/ exists ds rest, psz = map char58 ds ++ rest /\ digits_ok 58 ds /\ stops rest.
Proof.
  revert b. induction psz as [|c psz IH]; intros b Hb Hfit; [right; exists [], []; split_and!; [done|constructor|done]|].
  cbn [decode_loop length] in *. destruct (isspace c) eqn:Es; [right; exists [], (c :: psz); split_and!; [done|constructor|done]|].
  destruct (index_of 0 c pszBase58) as [d|] eqn:Ei; [|by left]. apply alphabet_index in Ei as [Hd ->].
  rewrite Nat2Z.inj_succ, Z.pow_succ_r in Hfit by lia.
  pose proof (big_val_bound 256 ltac:(lia) b Hb) as Hv. pose proof (Z.pow_pos_nonneg 58 (Z.of_nat (length psz)) ltac:(lia) ltac:(lia)) as Hp.
  destruct (times_plus_spec 256 ltac:(lia) 58 d b ltac:(lia) ltac:(lia) Hb) as (b1 & -> & Hl & Hok & Hv1); [nia|].
  destruct (IH b1 Hok) as [?|(ds & rest & -> & Hds & Hr)]; [rewrite Hv1, Hl; nia|by left|].
  right. exists (d :: ds), rest. split_and!; [done|by constructor|done].
Qed.

Lemma zeros_ok base n : 1 < base -> digits_ok base (replicate n 0) /\ big_val base (replicate n 0) = 0.
Proof.
  intros H. split; [apply Forall_forall; intros x I; apply elem_of_replicate in I as [-> _]; lia|].
  rewrite <- (app_nil_r (replicate n 0)), big_val_zeros by done. done.
Qed.

(** Digits are found again by their value. *)
Lemma stripped base l l' : 1 < base -> digits_ok base l -> digits_ok base l' -> head l' <> Some 0 -> big_val base l = big_val base l' ->
  (skip_count 0 l).2 = l'.
Proof.
  intros Hb Hl Hl' Hn Hv. destruct (skip_count_spec 0 l) as [He Hh]. set (r := (skip_count 0 l).2) in *.
  assert (digits_ok base r) as Hr by (rewrite He in Hl; by apply Forall_app in Hl as [_ Hl]).
  apply (big_val_unique base Hb); try done. by rewrite <- Hv, He, big_val_zeros.
Qed.

Lemma encode_fits n : 256 ^ Z.of_nat n <= 58 ^ Z.of_nat (n * 138 / 100 + 1).
Proof. apply digits_fit; [lia..|]. apply Z.leb_le. vm_compute. reflexivity. Qed.

Lemma decode_fits n : 58 ^ Z.of_nat n <= 256 ^ Z.of_nat (n * 733 / 1000 + 1).
Proof.
  etransitivity; [apply (digits_fit 58 256 52 71); [lia..|apply Z.leb_le; vm_compute; reflexivity]|].
  apply Z.pow_le_mono_r; [lia|]. assert (n * 52 / 71 <= n * 733 / 1000)%nat; [|lia].
  apply Nat.div_le_lower_bound; [lia|]. pose proof (Nat.Div0.mul_div_le (n * 52) 71). lia.
Qed.

(** The digits of bytes that do not start with a zero. *)
Definition same_value (bytes ds : list Z) : Prop :=
  digits_ok 256 bytes /\ digits_ok 58 ds /\ head bytes <> Some 0 /\ head ds <> Some 0 /\ big_val 256 bytes = big_val 58 ds.

Lemma encode_spec z bytes ds : same_value bytes ds -> EncodeBase58 (replicate z 0 ++ bytes) = Some (replicate z 49 ++ map char58 ds).
Proof.
  intros (H1 & H2 & H3 & H4 & Hv). unfold EncodeBase58. rewrite skip_count_app by done.
  set (n := (length bytes * 138 / 100 + 1)%nat). destruct (zeros_ok 58 n ltac:(lia)) as [Hz Hz0].
  destruct (encode_loop_spec bytes (replicate n 0) H1 Hz) as (b & -> & Hb & Hbv).
  { rewrite Hz0, length_replicate. pose proof (encode_fits (length bytes)). fold n in H. lia. }
  rewrite Hz0, Hv in Hbv. by rewrite (stripped 58 b ds) by (lia || done).
Qed.

Lemma decode_spec bytes ds rest : same_value bytes ds -> stops rest ->
  exists b, decode_loop (replicate (length (map char58 ds ++ rest) * 733 / 1000 + 1) 0) (map char58 ds ++ rest) = Some (Some (b, rest)) /\
    (skip_count 0 b).2 = bytes.
Proof.
  intros (H1 & H2 & H3 & H4 & Hv) Hr. set (n := (_ * 733 / 1000 + 1)%nat). destruct (zeros_ok 256 n ltac:(lia)) as [Hz Hz0].
  destruct (decode_loop_forward ds rest (replicate n 0) H2 Hr Hz) as (b & -> & Hb & Hbv).
  { rewrite Hz0, length_replicate. pose proof (decode_fits (length (map char58 ds ++ rest))) as Hf. fold n in Hf.
    assert (58 ^ Z.of_nat (length ds) <= 58 ^ Z.of_nat (length (map char58 ds ++ rest))); [|lia].
    apply Z.pow_le_mono_r; [lia|]. rewrite length_app, length_map. lia. }
  rewrite Hz0 in Hbv. exists b. split; [done|]. by rewrite (stripped 256 b bytes) by (lia || done || (rewrite Hbv, Hv; lia)).
Qed.

Lemma bytes_same_value bytes : is_bytes bytes -> head bytes <> Some 0 -> exists ds, same_value bytes ds.
Proof.
  intros Hb Hh. set (n := (length bytes * 138 / 100 + 1)%nat). destruct (zeros_ok 58 n ltac:(lia)) as [Hz Hz0].
  destruct (encode_loop_spec bytes (replicate n 0) Hb Hz) as (b & _ & Hok & Hbv).
  { rewrite Hz0, length_replicate. pose proof (encode_fits (length bytes)). fold n in H. lia. }
  rewrite Hz0 in Hbv. destruct (skip_count_spec 0 b) as [He Hn]. exists (skip_count 0 b).2. rewrite He in Hok, Hbv.
  rewrite big_val_zeros in Hbv by lia. apply Forall_app in Hok as [_ Hok]. split_and!; try done; lia.
Qed.

Lemma digits_same_value ds : digits_ok 58 ds -> head ds <> Some 0 -> exists bytes, same_value bytes ds.
Proof.
  intros Hd Hh. set (n := (length ds * 733 / 1000 + 1)%nat). destruct (zeros_ok 256 n ltac:(lia)) as [Hz Hz0].
  destruct (decode_loop_forward ds [] (replicate n 0) Hd I Hz) as (b & _ & Hok & Hbv).
  { rewrite Hz0, length_replicate. pose proof (decode_fits (length ds)). fold n in H. lia. }
  rewrite Hz0 in Hbv. destruct (skip_count_spec 0 b) as [He Hn]. exists (skip_count 0 b).2. rewrite He in Hok, Hbv.
  rewrite big_val_zeros in Hbv by lia. apply Forall_app in Hok as [_ Hok]. split_and!; try done; lia.
Qed.

Lemma skip_spaces_spec psz : exists sp, psz = sp ++ skip_spaces psz /\ forallb isspace sp = true.
Proof.
  induction psz as [|c psz (sp & He & Hs)]; [by exists []|]. cbn [skip_spaces]. destruct (isspace c) eqn:E; [|by exists []].
  exists (c :: sp). cbn [app forallb]. rewrite E, Hs. split; [by f_equal|done].
Qed.

Lemma char_head ds : digits_ok 58 ds -> head ds <> Some 0 -> head (map char58 ds) <> Some 49.
Proof. intros [|d l Hd Hl] Hh; [done|]. cbn in *. destruct (alphabet d Hd) as (_ & _ & H49 & _). intros [= E]. apply H49 in E. congruence. Qed.

Lemma decode_text z bytes ds sp : same_value bytes ds -> forallb isspace sp = true ->
  (z <> 0%nat \/ ds <> [] \/ sp = []) -> DecodeBase58 (replicate z 49 ++ map char58 ds ++ sp) = Some (Some (replicate z 0 ++ bytes)).
Proof.
  intros Hv Hsp Hne. pose proof Hv as (H1 & H2 & H3 & H4 & _).
  assert (skip_spaces (replicate z 49 ++ map char58 ds ++ sp) = replicate z 49 ++ map char58 ds ++ sp) as Hskip.
  { destruct z as [|z]; [|done]. cbn [replicate app]. destruct H2 as [|d ds Hd _]; cbn [map app skip_spaces]; [by destruct Hne as [? | [? | -> ] ] | ].
    by rewrite (proj1 (proj2 (alphabet d Hd))). }
  assert (stops sp) as Hst by (destruct sp as [|c sp]; [done|]; cbn in *; by apply andb_prop in Hsp as [? _]).
  assert (skip_spaces sp = []) as Hsp0.
  { clear -Hsp. induction sp as [|c sp IH]; [done|]. cbn in *. apply andb_prop in Hsp as [-> Hsp]. by apply IH. }
  unfold DecodeBase58. rewrite Hskip, skip_count_app.
  2:{ destruct ds as [|d ds]; [|by pose proof (char_head _ H2 H4)]. destruct sp as [|c sp]; [done|]. cbn in *. intros [= ->]. by apply andb_prop in Hsp as [Hc _]. }
  destruct (decode_spec bytes ds sp Hv Hst) as (b & -> & Hb). by rewrite Hsp0, Hb.
Qed.

(** What [DecodeBase58] answers is never a failed assertion, and what it accepts is the
    text of the bytes between spaces. *)
Lemma decode_cases psz : DecodeBase58 psz = Some None \/
  exists sp1 sp2 z bytes ds, psz = sp1 ++ (replicate z 49 ++ map char58 ds) ++ sp2 /\ forallb isspace sp1 = true /\ forallb isspace sp2 = true /\
    same_value bytes ds /\ DecodeBase58 psz = Some (Some (replicate z 0 ++ bytes)).
Proof.
  destruct (skip_spaces_spec psz) as (sp1 & He & Hs1). destruct (skip_count_spec 49 (skip_spaces psz)) as [Hz Hn].
  set (z := (skip_count 49 (skip_spaces psz)).1) in *. set (t := (skip_count 49 (skip_spaces psz)).2) in *.
  set (n := (length t * 733 / 1000 + 1)%nat). destruct (zeros_ok 256 n ltac:(lia)) as [Hzo Hz0].
  assert (DecodeBase58 psz = match decode_loop (replicate n 0) t with
    | None => None | Some None => Some None
    | Some (Some (b, rest)) => match skip_spaces rest with [] => Some (Some (replicate z 0 ++ (skip_count 0 b).2)) | _ :: _ => Some None end end) as Hd.
  { unfold DecodeBase58, n, z, t. by destruct (skip_count 49 (skip_spaces psz)). }
  destruct (decode_loop_cases t (replicate n 0) Hzo) as [Hl|(ds & rest & Ht & Hds & Hr)].
  { rewrite Hz0, length_replicate. pose proof (decode_fits (length t)). fold n in H. lia. }
  { left. by rewrite Hd, Hl. }
  assert (head ds <> Some 0) as Hh.
  { intros E. destruct ds as [|d ds]; [done|]. cbn in E. injection E as ->. rewrite Ht in Hn. by apply Hn. }
  destruct (digits_same_value ds Hds Hh) as (bytes & Hv). destruct (decode_spec bytes ds rest Hv Hr) as (b & Hl & Hb).
  unfold n in Hd. rewrite <- Ht in Hl. rewrite Hd, Hl, Hb.
  destruct (skip_spaces_spec rest) as (sp2 & He2 & Hs2). destruct (skip_spaces rest) eqn:Er; [|by left].
  right. exists sp1, sp2, z, bytes, ds. split_and!; try done.
  rewrite He at 1. f_equal. rewrite Hz, Ht, He2, app_nil_r. by rewrite app_assoc.
Qed.

Definition spaces (sp : byte_list) : Prop := forallb isspace sp = true.

Lemma encode_decode v : is_bytes v -> exists s, EncodeBase58 v = Some s /\ DecodeBase58 s = Some (Some v).
Proof.
  intros Hv. destruct (skip_count_spec 0 v) as [He Hh]. set (z := (skip_count 0 v).1) in *. set (bytes := (skip_count 0 v).2) in *.
  assert (is_bytes bytes) as Hb by (rewrite He in Hv; by apply words_app in Hv as [_ Hv]).
  destruct (bytes_same_value bytes Hb Hh) as (ds & Hs). exists (replicate z 49 ++ map char58 ds). rewrite He, (encode_spec z bytes ds Hs). split; [done|].
  rewrite <- (app_nil_r (map char58 ds)). by apply decode_text; [| |right; right].
Qed.

Lemma decode_encode psz v : DecodeBase58 psz = Some (Some v) ->
  is_bytes v /\ exists e sp1 sp2, EncodeBase58 v = Some e /\ psz = sp1 ++ e ++ sp2 /\ spaces sp1 /\ spaces sp2.
Proof.
  intros H. destruct (decode_cases psz) as [?|(sp1 & sp2 & z & bytes & ds & Hp & Hs1 & Hs2 & Hv & Hd)]; [congruence|].
  rewrite Hd in H. injection H as <-. split.
  - apply words_app. split; [apply words_replicate; unfold word; lia|exact (proj1 Hv)].
  - exists (replicate z 49 ++ map char58 ds), sp1, sp2. by rewrite (encode_spec z bytes ds Hv).
Qed.

Lemma decode_never_fails psz : DecodeBase58 psz <> None.
Proof. destruct (decode_cases psz) as [->|(? & ? & ? & ? & ? & _ & _ & _ & _ & ->)]; done. Qed.

Lemma check_bytes_ok v : is_bytes (check_bytes v) /\ length (check_bytes v) = 4%nat.
Proof.
  unfold check_bytes. pose proof (Hash_wf v) as Hw. split; [apply words_take, to_bytes_bytes|].
  rewrite length_take, (length_to_bytes _), (proj1 Hw). done.
Qed.

Lemma encode_check v : is_bytes v -> exists s, EncodeBase58Check v = Some s /\ DecodeBase58Check s = Some (Some v).
Proof.
  intros Hv. destruct (check_bytes_ok v) as [Hc Hl]. unfold EncodeBase58Check, DecodeBase58Check.
  destruct (encode_decode (v ++ check_bytes v)) as (s & -> & Hd); [by apply words_app|]. exists s. split; [done|].
  rewrite Hd, length_app, Hl, (proj2 (Nat.ltb_ge _ _)) by lia. rewrite Nat.add_sub, take_app_length, drop_app_length.
  by rewrite bool_decide_true.
Qed.

Lemma decode_check psz v : DecodeBase58Check psz = Some (Some v) ->
  is_bytes v /\ exists e sp1 sp2, EncodeBase58Check v = Some e /\ psz = sp1 ++ e ++ sp2 /\ spaces sp1 /\ spaces sp2.
Proof.
  unfold DecodeBase58Check, EncodeBase58Check. destruct (DecodeBase58 psz) as [[w|]|] eqn:E; [|done..].
  apply decode_encode in E as [Hw He]. destruct (length w <? 4)%nat; [done|].
  case_bool_decide as Hc; [|done]. intros [= <-]. split; [by apply words_take|]. by rewrite Hc, take_drop.
Qed.

(** C16 The text with a checksum: bytes are encoded without a failed assertion and read back
    from their text; any text, valid or not, is decoded without a failed assertion; and what is
    accepted is, between spaces, the text of the bytes it is read as: no two texts stand
    for the same bytes. *)
Theorem base58check_roundtrip :
  (forall v, is_bytes v -> exists s, EncodeBase58Check v = Some s /\ DecodeBase58Check s = Some (Some v)) /\
  (forall psz, DecodeBase58Check psz <> None) /\
  (forall psz v, DecodeBase58Check psz = Some (Some v) ->
     is_bytes v /\ exists e sp1 sp2, EncodeBase58Check v = Some e /\ psz = sp1 ++ e ++ sp2 /\ spaces sp1 /\ spaces sp2).
Proof.
  split_and!; [exact encode_check| |exact decode_check]. intros psz. unfold DecodeBase58Check. pose proof (decode_never_fails psz).
  destruct (DecodeBase58 psz) as [[w|]|]; [|done..]. by repeat case_match.
Qed.

(** * Addresses *)

Lemma data_roundtrip version data : is_bytes version -> is_bytes data ->
  exists s, data_ToString {| vchVersion := version; vchData := data |} = Some s /\
    data_SetString s (length version) = Some (true, {| vchVersion := version; vchData := data |}).
Proof.
  intros H1 H2. unfold data_ToString, data_SetString. cbn [vchVersion vchData].
  destruct (encode_check (version ++ data)) as (s & -> & Hd); [by apply words_app|]. exists s. split; [done|].
  rewrite Hd, length_app, (proj2 (Nat.ltb_ge _ _)) by lia. by rewrite take_app_length, drop_app_length.
Qed.

Lemma prefix_bytes net t : is_bytes (Base58Prefix net t) /\ length (Base58Prefix net t) = 1%nat.
Proof. destruct net, t; (split; [repeat constructor; unfold word; lia|done]). Qed.

Lemma hash_roundtrip net t id : wf 5 id -> exists s, data_ToString (SetData (Base58Prefix net t) (to_bytes id)) = Some s /\
  data_SetString s 1 = Some (true, SetData (Base58Prefix net t) (to_bytes id)).
Proof.
  intros Hid. destruct (prefix_bytes net t) as [Hb Hl]. rewrite <- Hl. apply data_roundtrip; [done|apply to_bytes_bytes].
Qed.

Lemma known_valid net t id : wf 5 id -> t = PUBKEY_ADDRESS \/ t = SCRIPT_ADDRESS -> address_IsValid net (SetData (Base58Prefix net t) (to_bytes id)) = true.
Proof.
  intros Hid Ht. unfold address_IsValid, SetData. cbn [vchVersion vchData]. rewrite length_bytes160 by done. cbn [Nat.eqb].
  apply andb_true_iff. split; [done|]. apply orb_true_iff. rewrite !bool_decide_eq_true. destruct Ht as [-> | ->]; auto.
Qed.

(** C15 The address of a key hash is read back as that key hash.  The address of a script hash
    is read back as the script hash on the test networks; on the main network, where the
    prefixes of the two kinds are equal, it is the address of the key hash with the same
    bytes: a payment to it makes an output for a key nobody has. *)
Theorem main_script_address_is_key_address net id : wf 5 id ->
  (exists s, address_of net (CKeyID id) = Some s /\ destination_of net s = Some (CKeyID id)) /\
  (exists s, address_of net (CScriptID id) = Some s /\
     destination_of net s = Some (match net with MAIN | UNITTEST => CKeyID id | TESTNET | REGTEST => CScriptID id end) /\
     (net = MAIN -> address_of net (CKeyID id) = Some s)).
Proof.
  intros Hid. unfold address_of, destination_of, address_Get. cbn [address_Set snd]. split.
  - destruct (hash_roundtrip net PUBKEY_ADDRESS id Hid) as (s & E & E'). exists s. rewrite E, E', known_valid by auto. cbn [negb SetData vchVersion vchData].
    by rewrite bool_decide_true, (limbs_to_bytes 5).
  - destruct (hash_roundtrip net SCRIPT_ADDRESS id Hid) as (s & E & E'). exists s. rewrite E, E', known_valid by auto. cbn [negb SetData vchVersion vchData].
    rewrite (limbs_to_bytes 5) by done. split_and!; [done|by destruct net|]. by intros ->.
Qed.

(** The text of a secret key is read back, with the mark of a compressed public key. *)
Lemma secret_roundtrip net key fCompressed : is_bytes key -> length key = 32%nat ->
  exists s, data_ToString (secret_SetKey net key fCompressed) = Some s /\
    secret_SetString net s = Some (true, secret_SetKey net key fCompressed) /\ secret_GetKey (secret_SetKey net key fCompressed) = Some (key, fCompressed).
Proof.
  intros Hk Hl. destruct (prefix_bytes net SECRET_KEY) as [Hb H1]. unfold secret_SetString, secret_SetKey, SetData.
  destruct (data_roundtrip (Base58Prefix net SECRET_KEY) (key ++ (if fCompressed then [1] else [])) Hb) as (s & E & E').
  { apply words_app. split; [done|]. destruct fCompressed; repeat constructor; unfold word; lia. }
  rewrite H1 in E'. exists s. rewrite E, E'. unfold secret_IsValid, secret_GetKey. cbn [vchVersion vchData]. rewrite bool_decide_true by done.
  rewrite length_app, Hl, <- Hl, take_app_length. destruct fCompressed; cbn [length].
  - by rewrite app_nth2, Nat.sub_diag, Hl by lia.
  - by rewrite Hl.
Qed.

(** * Witnesses *)

(** The strings "2g", "a3gV" and "1111111111" of the unit tests. *)
Example base58_vectors :
  EncodeBase58 [0x61] = Some [50; 103] /\ EncodeBase58 [0x62; 0x62; 0x62] = Some [97; 51; 103; 86] /\
  EncodeBase58 (replicate 10 0) = Some (replicate 10 49) /\ DecodeBase58 [32; 97; 51; 103; 86; 9] = Some (Some [0x62; 0x62; 0x62]) /\
  DecodeBase58 [97; 48] = Some None.
Proof. vm_compute. by split_and!. Qed.

Definition example_id : base_uint := [1; 2; 3; 4; 5].

Lemma main_script_address_is_key_address_witness :
  (exists s, address_of MAIN (CKeyID example_id) = Some s /\ destination_of MAIN s = Some (CKeyID example_id)) /\
  (exists s, address_of MAIN (CScriptID example_id) = Some s /\ destination_of MAIN s = Some (CKeyID example_id) /\
     (MAIN = MAIN -> address_of MAIN (CKeyID example_id) = Some s)).
Proof.
  assert (H : wf 5 example_id) by (split; [reflexivity|repeat constructor; unfold word; lia]).
  exact (main_script_address_is_key_address MAIN example_id H).
Defined.
