(* ===== verification/ActivateChain.v ===== *)
(** Moving the active chain (main.cpp): [ConnectTip], [DisconnectTip],
    [ActivateBestChainStep], [ActivateBestChain] and [InvalidateBlock].

    The coins, the memory pool and the block files are behind the class [BlockStore]:
    what one block does to them is [ConnectBlock] and [DisconnectBlock] of Connect.v and
    the operations of Mempool.v; here only their verdict counts.  The lock is held for a
    whole turn of the loop of [ActivateBestChain]; notifications are left out. *)

From stdpp Require Import gmap sorting.
From S2P Require Import Prelude Uint256 Arith256 Chain BestChain.

(** * The interface *)

(** The result of [ConnectBlock]: the money supply and the mint it has put into the index
    entry, and the position of the undo data if it has written them. *)
Inductive verdict :=
| Connected (money : Z * Z) (undoPos : Z)
| Invalid (money : option (Z * Z)) (corruption : bool)
| Failed (money : option (Z * Z)).

Class BlockStore (W : Type) := {
  (** [ReadBlockFromDisk] if the block is not at hand, [ConnectBlock] on a view over the
      coins and, when it is connected, the flush of the view. *)
  connect_block : ChainState -> ptr -> bool -> W -> W * verdict;
  (** [ReadBlockFromDisk], [DisconnectBlock] and the flush of the view. *)
  disconnect_block : ChainState -> ptr -> W -> W * bool;
  (** [FlushStateToDisk], always or if it is needed: whether it has written, and whether
      it has succeeded. *)
  flush_state : bool -> W -> W * bool * bool;
  (** The memory pool and the wallets after a block is connected or disconnected. *)
  block_connected : ptr -> W -> W;
  block_disconnected : ptr -> W -> W
}.

Section Activate.
Context {W : Type} `{BlockStore W}.

Local Open Scope result_scope.

(** * Connecting and disconnecting the tip *)

Definition set_money (m : Z * Z) (b : CBlockIndex) : CBlockIndex :=
  set_fields {| m_nFile := nFile b; m_nDataPos := nDataPos b; m_nUndoPos := nUndoPos b; m_nTx := nTx b;
    m_nChainTx := nChainTx b; m_nStatus := nStatus b; m_nFlags := nFlags b; m_nMint := m.2; m_nMoneySupply := m.1;
    m_nSequenceId := nSequenceId b |} b.

Definition set_undo (pos status : Z) (b : CBlockIndex) : CBlockIndex :=
  set_fields {| m_nFile := nFile b; m_nDataPos := nDataPos b; m_nUndoPos := pos; m_nTx := nTx b;
    m_nChainTx := nChainTx b; m_nStatus := status; m_nFlags := nFlags b; m_nMint := nMint b; m_nMoneySupply := nMoneySupply b;
    m_nSequenceId := nSequenceId b |} b.

(** The end of [ConnectBlock] on the entry: undo position and validity. *)
Definition connected_index (undoPos : Z) (b : CBlockIndex) : CBlockIndex :=
  let no_undo := posFile (GetUndoPos b) =? -1 in
  if no_undo || negb (IsValid (nStatus b) BLOCK_VALID_SCRIPTS) then
    let b := if no_undo then set_undo undoPos (Z.lor (nStatus b) BLOCK_HAVE_UNDO) b else b in
    set_status (RaiseValidity (nStatus b) BLOCK_VALID_SCRIPTS).1 b
  else b.

(** The genesis block is only made the best block of the view. *)
Definition connected (p : ptr) (m : Z * Z) (undoPos : Z) (s : ChainState) : ChainState :=
  match pprev_of (tree s) p with
  | None => s
  | Some _ =>
      let b := deref (tree s) p in
      let s1 := assign p (fun b => connected_index undoPos (set_money m b)) s in
      if (posFile (GetUndoPos b) =? -1) || negb (IsValid (nStatus b) BLOCK_VALID_SCRIPTS) then add_dirty p s1 else s1
  end.

Definition set_money_if (p : ptr) (m : option (Z * Z)) (s : ChainState) : ChainState :=
  match m with Some m => assign p (set_money m) s | None => s end.

(** A flush that writes empties the set of dirty entries. *)
Definition after_flush (wrote : bool) (s : ChainState) : ChainState :=
  if wrote then
    {| tree := tree s; chainActive := chainActive s; setBlockIndexCandidates := setBlockIndexCandidates s;
       mapBlocksUnlinked := mapBlocksUnlinked s; pindexBestInvalid := pindexBestInvalid s;
       nBlockSequenceId := nBlockSequenceId s; setDirtyBlockIndex := ∅ |}
  else s.

Definition UpdateTip (pindexNew : option ptr) (s : ChainState) : result chain_error ChainState :=
  match SetTip (tree s) (chainActive s) pindexNew with None => Err OutOfFuel | Some c => Ok (set_chain c s) end.

(** How [ConnectTip] ends: [state] is valid, invalid or in error. *)
Inductive tip_result := TipConnected | TipInvalid (corruption : bool) | TipError.

Definition ConnectTip (pindexNew : ptr) (loaded : bool) (s : ChainState) (w : W) : result chain_error (ChainState * W * tip_result) :=
  if negb (bool_decide (pprev_of (tree s) pindexNew = Tip (chainActive s))) then Err AssertionFailed
  else
    let '(w, v) := connect_block s pindexNew loaded w in
    match v with
    | Failed m => Ok (set_money_if pindexNew m s, w, TipError)
    | Invalid m corruption =>
        s <-! InvalidBlockFound pindexNew corruption (set_money_if pindexNew m s) ;;
        Ok (s, w, TipInvalid corruption)
    | Connected m undoPos =>
        let s := connected pindexNew m undoPos s in
        let always :=
          match pprev_of (tree s) pindexNew with
          | None => false
          | Some q => negb (posFile (GetBlockPos (deref (tree s) pindexNew)) =? posFile (GetBlockPos (deref (tree s) q)))
          end in
        let '(w, wrote, ok) := flush_state always w in
        if negb ok then Ok (s, w, TipError)
        else
          let w := block_connected pindexNew w in
          s <-! UpdateTip (Some pindexNew) (after_flush wrote s) ;;
          Ok (s, w, TipConnected)
    end.

Definition DisconnectTip (s : ChainState) (w : W) : result chain_error (ChainState * W * bool) :=
  match Tip (chainActive s) with
  | None => Err AssertionFailed
  | Some pindexDelete =>
      let '(w, ok) := disconnect_block s pindexDelete w in
      if negb ok then Ok (s, w, false)
      else
        let '(w, wrote, ok) := flush_state true w in
        if negb ok then Ok (s, w, false)
        else
          let w := block_disconnected pindexDelete w in
          s <-! UpdateTip (pprev_of (tree s) pindexDelete) (after_flush wrote s) ;;
          Ok (s, w, true)
  end.

(** * A step towards the best chain *)

Fixpoint disconnect_loop (fuel : nat) (pindexFork : option ptr) (s : ChainState) (w : W) : result chain_error (ChainState * W * bool) :=
  match Tip (chainActive s) with
  | None => Ok (s, w, true)
  | Some t =>
      if bool_decide (Some t = pindexFork) then Ok (s, w, true)
      else
        match fuel with
        | O => Err OutOfFuel
        | S fuel =>
            r <-! DisconnectTip s w ;;
            let '(s, w, ok) := r in
            if negb (ok : bool) then Ok (s, w, false) else disconnect_loop fuel pindexFork s w
        end
  end.

(** [vpindexToConnect], from the highest block down to the one above height [nHeight]. *)
Fixpoint collect (fuel : nat) (st : store) (pindexIter : option ptr) (nHeight : Z) : result chain_error (list ptr) :=
  match pindexIter with
  | None => Ok []
  | Some p =>
      if height_of st p =? nHeight then Ok []
      else
        match fuel with
        | O => Err OutOfFuel
        | S fuel => l <-! collect fuel st (pprev_of st p) nHeight ;; Ok (p :: l)
        end
  end.

(** How the loop over the blocks ends: at the end of the list, in a better position than
    before, at an invalid block, or at an error. *)
Inductive progress := Continue | Better | FoundInvalid | SystemError.

(** The blocks from the lowest; [pindexBack] is the lowest of them. *)
Fixpoint connect_list (pindexMostWork pindexBack : ptr) (pindexOldTip : option ptr) (loaded : bool) (l : list ptr) (s : ChainState) (w : W)
  : result chain_error (ChainState * W * progress) :=
  match l with
  | [] => Ok (s, w, Continue)
  | pindexConnect :: l =>
      r <-! ConnectTip pindexConnect (bool_decide (pindexConnect = pindexMostWork) && loaded) s w ;;
      let '(s, w, res) := r in
      match res with
      | TipInvalid corruption =>
          s <-! (if negb corruption then InvalidChainFound pindexBack s else Ok s) ;;
          Ok (s, w, FoundInvalid)
      | TipError => Ok (s, w, SystemError)
      | TipConnected =>
          s <-! PruneBlockIndexCandidates s ;;
          match pindexOldTip, Tip (chainActive s) with
          | None, _ => Ok (s, w, Better)
          | Some _, None => Err NullPointer
          | Some old, Some tip =>
              if gt (work_of s tip) (work_of s old) then Ok (s, w, Better)
              else connect_list pindexMostWork pindexBack pindexOldTip loaded l s w
          end
      end
  end.

(** The batches of 32 blocks. *)
Fixpoint connect_batches (fuel : nat) (pindexMostWork : ptr) (pindexOldTip : option ptr) (loaded : bool) (nHeight : Z) (s : ChainState) (w : W)
  : result chain_error (ChainState * W * bool) :=
  let target := height_of (tree s) pindexMostWork in
  if nHeight =? target then Ok (s, w, true)
  else
    match fuel with
    | O => Err OutOfFuel
    | S fuel =>
        let nTargetHeight := Z.min (nHeight + 32) target in
        l <-! collect (Z.to_nat (nTargetHeight + 1)) (tree s) (GetAncestor (tree s) pindexMostWork nTargetHeight) nHeight ;;
        r <-! connect_list pindexMostWork (List.last l pindexMostWork) pindexOldTip loaded (rev l) s w ;;
        let '(s, w, pr) := r in
        match pr with
        | Continue => connect_batches fuel pindexMostWork pindexOldTip loaded nTargetHeight s w
        | Better | FoundInvalid => Ok (s, w, true)
        | SystemError => Ok (s, w, false)
        end
    end.

Definition ActivateBestChainStep (pindexMostWork : ptr) (loaded : bool) (s : ChainState) (w : W) : result chain_error (ChainState * W * bool) :=
  let pindexOldTip := Tip (chainActive s) in
  match FindFork (tree s) (chainActive s) pindexMostWork with
  | None => Err OutOfFuel
  | Some pindexFork =>
      r <-! disconnect_loop (length (chainActive s)) pindexFork s w ;;
      let '(s, w, ok) := r in
      if negb (ok : bool) then Ok (s, w, false)
      else
        let nHeight := match pindexFork with Some f => height_of (tree s) f | None => -1 end in
        connect_batches (Z.to_nat (height_of (tree s) pindexMostWork - nHeight)) pindexMostWork pindexOldTip loaded nHeight s w
  end.

(** [ActivateBestChain] until it is left or the loop has come to its end; [pblock] is the
    entry of the block that the caller has at hand. *)
Fixpoint activate_loop (fuel : nat) (pblock : option ptr) (s : ChainState) (w : W) : result chain_error (ChainState * W * option bool) :=
  match fuel with
  | O => Err OutOfFuel
  | S fuel =>
      r <-! FindMostWorkChain s ;;
      let '(s, pindexMostWork) := r in
      match pindexMostWork with
      | None => Ok (s, w, Some true)
      | Some p =>
          if bool_decide (Some p = Tip (chainActive s)) then Ok (s, w, Some true)
          else
            r <-! ActivateBestChainStep p (bool_decide (pblock = Some p)) s w ;;
            let '(s, w, ok) := r in
            if negb (ok : bool) then Ok (s, w, Some false)
            else if bool_decide (Some p = Tip (chainActive s)) then Ok (s, w, None)
            else activate_loop fuel pblock s w
      end
  end.

(** Enough turns for a tree: each leaves more blocks marked invalid, or no more but fewer
    blocks with more work than the tip. *)
Definition activate_fuel (s : ChainState) : nat :=
  let n := size (tree s) in S (n * S n + n).

(** The whole function, with the flush at the end. *)
Definition ActivateBestChain (pblock : option ptr) (s : ChainState) (w : W) : result chain_error (ChainState * W * bool) :=
  r <-! activate_loop (activate_fuel s) pblock s w ;;
  let '(s, w, ret) := r in
  match ret with
  | Some b => Ok (s, w, b)
  | None => let '(w, wrote, ok) := flush_state false w in Ok (after_flush wrote s, w, ok)
  end.

(** * Invalidating a block *)

Fixpoint invalidate_loop (fuel : nat) (pindex : ptr) (s : ChainState) (w : W) : result chain_error (ChainState * W * bool) :=
  if negb (Contains (tree s) (chainActive s) pindex) then Ok (s, w, true)
  else
    match Tip (chainActive s), fuel with
    | None, _ => Err NullPointer
    | _, O => Err OutOfFuel
    | Some pindexWalk, S fuel =>
        let s := erase_candidate pindexWalk (add_dirty pindexWalk (mark pindexWalk BLOCK_FAILED_CHILD s)) in
        r <-! DisconnectTip s w ;;
        let '(s, w, ok) := r in
        if negb (ok : bool) then Ok (s, w, false) else invalidate_loop fuel pindex s w
    end.

(** The blocks as good as the new tip become candidates again. *)
Fixpoint readd_loop (l : list ptr) (s : ChainState) : result chain_error ChainState :=
  match l with
  | [] => Ok s
  | p :: l =>
      let b := deref (tree s) p in
      if IsValid (nStatus b) BLOCK_VALID_TRANSACTIONS && nonzero (nChainTx b) then
        match Tip (chainActive s) with
        | None => Err NullPointer
        | Some t => readd_loop l (if negb (work_lt (tree s) p t) then insert_candidate p s else s)
        end
      else readd_loop l s
  end.

Definition InvalidateBlock (pindex : ptr) (s : ChainState) (w : W) : result chain_error (ChainState * W * bool) :=
  let s := erase_candidate pindex (add_dirty pindex (mark pindex BLOCK_FAILED_VALID s)) in
  r <-! invalidate_loop (length (chainActive s)) pindex s w ;;
  let '(s, w, ok) := r in
  if negb (ok : bool) then Ok (s, w, false)
  else
    s <-! readd_loop (all_blocks s) s ;;
    s <-! InvalidChainFound pindex s ;;
    Ok (s, w, true).
End Activate.

(** * Status words *)

Definition scripts_valid (st : store) (p : ptr) : Prop := BLOCK_VALID_SCRIPTS <= Z.land (nStatus (deref st p)) BLOCK_VALID_MASK.

Lemma land_lor_assoc z f m : Z.land (Z.lor z f) m = Z.lor (Z.land z m) (Z.land f m).
Proof. apply Z.land_lor_distr_l. Qed.

(** Flags outside a mask do not change what is read through it. *)
Lemma land_lor_disjoint z f m : Z.land f m = 0 -> Z.land (Z.lor z f) m = Z.land z m.
Proof. intros E. by rewrite land_lor_assoc, E, Z.lor_0_r. Qed.

Lemma raise_validity_other z m : Z.land (Z.lxor (2 ^ 32 - 1) BLOCK_VALID_MASK) m = m -> Z.land BLOCK_VALID_SCRIPTS m = 0 ->
  Z.land (RaiseValidity z BLOCK_VALID_SCRIPTS).1 m = Z.land z m.
Proof.
  intros E1 E2. unfold RaiseValidity. repeat case_match; cbn [fst]; try done.
  by rewrite land_lor_disjoint, <- Z.land_assoc, E1.
Qed.

Lemma raise_validity_scripts z : nonzero (Z.land z BLOCK_FAILED_MASK) = false ->
  BLOCK_VALID_SCRIPTS <= Z.land (RaiseValidity z BLOCK_VALID_SCRIPTS).1 BLOCK_VALID_MASK.
Proof.
  intros F. unfold RaiseValidity. rewrite F. destruct (Z.ltb_spec (Z.land z BLOCK_VALID_MASK) BLOCK_VALID_SCRIPTS); cbn [fst]; [|done].
  rewrite land_lor_assoc, <- Z.land_assoc. change (Z.land (Z.lxor (2 ^ 32 - 1) BLOCK_VALID_MASK) BLOCK_VALID_MASK) with 0.
  rewrite Z.land_0_r. done.
Qed.

Lemma connected_index_shape m u b : shape (connected_index u (set_money m b)) = shape b.
Proof. unfold connected_index. by repeat case_match. Qed.

Lemma connected_index_flags m u b f : Z.land (Z.lxor (2 ^ 32 - 1) BLOCK_VALID_MASK) f = f -> Z.land BLOCK_VALID_SCRIPTS f = 0 ->
  Z.land BLOCK_HAVE_UNDO f = 0 -> Z.land (nStatus (connected_index u (set_money m b))) f = Z.land (nStatus b) f.
Proof.
  intros E1 E2 E3. unfold connected_index. destruct (posFile (GetUndoPos (set_money m b)) =? -1); cbn [orb].
  - change (Z.land (RaiseValidity (Z.lor (nStatus b) BLOCK_HAVE_UNDO) BLOCK_VALID_SCRIPTS).1 f = Z.land (nStatus b) f).
    by rewrite raise_validity_other, land_lor_disjoint.
  - destruct (negb _); [|done].
    change (Z.land (RaiseValidity (nStatus b) BLOCK_VALID_SCRIPTS).1 f = Z.land (nStatus b) f). by rewrite raise_validity_other.
Qed.

Lemma connected_index_scripts m u b : nonzero (Z.land (nStatus b) BLOCK_FAILED_MASK) = false ->
  BLOCK_VALID_SCRIPTS <= Z.land (nStatus (connected_index u (set_money m b))) BLOCK_VALID_MASK.
Proof.
  intros F. unfold connected_index. destruct (posFile (GetUndoPos (set_money m b)) =? -1); cbn [orb].
  - change (BLOCK_VALID_SCRIPTS <= Z.land (RaiseValidity (Z.lor (nStatus b) BLOCK_HAVE_UNDO) BLOCK_VALID_SCRIPTS).1 BLOCK_VALID_MASK).
    apply raise_validity_scripts. by rewrite land_lor_disjoint.
  - destruct (IsValid (nStatus (set_money m b)) BLOCK_VALID_SCRIPTS) eqn:V; cbn [negb].
    + change (IsValid (nStatus b) BLOCK_VALID_SCRIPTS = true) in V. unfold IsValid in V. rewrite F in V. by apply Z.leb_le in V.
    + by apply raise_validity_scripts.
Qed.

Lemma connected_index_keeps_scripts m u b : BLOCK_VALID_SCRIPTS <= Z.land (nStatus b) BLOCK_VALID_MASK ->
  BLOCK_VALID_SCRIPTS <= Z.land (nStatus (connected_index u (set_money m b))) BLOCK_VALID_MASK.
Proof.
  intros V. assert (R : forall z, Z.land z BLOCK_VALID_MASK = Z.land (nStatus b) BLOCK_VALID_MASK ->
    BLOCK_VALID_SCRIPTS <= Z.land (RaiseValidity z BLOCK_VALID_SCRIPTS).1 BLOCK_VALID_MASK).
  { intros z E. unfold RaiseValidity. destruct (nonzero _); cbn [fst]; [by rewrite E|].
    rewrite E. destruct (Z.ltb_spec (Z.land (nStatus b) BLOCK_VALID_MASK) BLOCK_VALID_SCRIPTS); cbn [fst]; [lia|by rewrite E]. }
  unfold connected_index. destruct (posFile (GetUndoPos (set_money m b)) =? -1); cbn [orb].
  - apply (R (Z.lor (nStatus b) BLOCK_HAVE_UNDO)). by apply land_lor_disjoint.
  - destruct (negb _); [by apply (R (nStatus b))|done].
Qed.

(** * What a call may change *)

Record advance (s s' : ChainState) : Prop := {
  av_same : same_tree (tree s) (tree s');
  av_good x : good (tree s') x -> good (tree s) x;
  av_scripts x : scripts_valid (tree s) x -> scripts_valid (tree s') x;
  av_cands p : p ∈ setBlockIndexCandidates s' -> p ∈ setBlockIndexCandidates s;
  av_removed p : p ∈ setBlockIndexCandidates s -> p ∉ setBlockIndexCandidates s' ->
    ~ valid_branch (tree s') p \/ exists t, work_lt (tree s) p t = true /\ scripts_valid (tree s') t
}.

Lemma advance_valid s s' p : advance s s' -> valid_branch (tree s') p -> valid_branch (tree s) p.
Proof. intros A V x Hx. apply (av_good _ _ A), V. by apply (same_ancestor _ _ (av_same _ _ A)). Qed.

Lemma advance_refl s : advance s s.
Proof. by split. Qed.

Lemma advance_trans s1 s2 s3 : advance s1 s2 -> advance s2 s3 -> advance s1 s3.
Proof.
  intros A B. split.
  - transitivity (tree s2); [apply A|apply B].
  - intros x Hx. by apply A, B.
  - intros x Hx. by apply B, A.
  - intros p Hp. by apply A, B.
  - intros p Hp Hn. destruct (decide (p ∈ setBlockIndexCandidates s2)) as [H2|H2].
    + destruct (av_removed _ _ B p H2 Hn) as [?|(t & Ht & Hs)]; [by left|right]. exists t.
      by rewrite <- (same_work_lt _ _ (av_same _ _ A)).
    + destruct (av_removed _ _ A p Hp H2) as [Hv|(t & Ht & Hs)]; [left|right; exists t; split; [done|by apply B]].
      intros V. apply Hv. by apply (advance_valid s2 s3).
Qed.

Lemma search_advance s s' : search_step s s' -> advance s s'.
Proof.
  intros S. split.
  - apply S.
  - intros x [G1 G2]. unfold good. destruct (ss_status _ _ S x) as [E|[E _]]; rewrite E in G1, G2; [done|].
    by rewrite failed_child_not_good in G1.
  - intros x. unfold scripts_valid. destruct (ss_status _ _ S x) as [->|[-> _]]; [done|]. by rewrite land_lor_disjoint.
  - apply S.
  - intros p Hp Hn. left. rewrite (search_valid _ _ p S). by apply (ss_removed _ _ S).
Qed.

(** The tree and the candidates are the same. *)
Lemma advance_same_sets s s' : tree s' = tree s -> setBlockIndexCandidates s' = setBlockIndexCandidates s -> advance s s'.
Proof. intros E1 E2. split; rewrite ?E1, ?E2; done. Qed.

(** Another chain, or nothing that [state_ok] speaks of. *)
Lemma state_ok_same s s' : tree s' = tree s -> chainActive s' = chainActive s ->
  (forall p, p ∈ setBlockIndexCandidates s' -> p ∈ setBlockIndexCandidates s) -> state_ok s -> state_ok s'.
Proof. intros E1 E2 E3 [O1 O2 O3 O4 O5 O6]. split; rewrite ?E1, ?E2; try done. intros p Hp. by apply O6, E3. Qed.

(** * Moving the tip *)

(** The genesis block is below every block. *)
Lemma so_root s : state_ok s -> exists r, height_of (tree s) r = 0 /\ forall p, is_Some (tree s !! p) -> ancestor (tree s) r p.
Proof.
  intros O. pose proof (t_wf _ (so_tree _ O)) as W. pose proof (so_chain _ O) as C.
  destruct (chainActive s !! 0%nat) as [x|] eqn:E0.
  2:{ exfalso. apply (so_tip _ O). by destruct (chainActive s). }
  destruct (C _ _ E0) as (r & -> & Hr & Hh & _). exists r. split; [done|]. intros p Hp.
  destruct (so_rooted _ O p Hp) as (g & [k Hk] & Hc). destruct (anc_height _ W k p g Hp Hk) as [Hg _].
  apply (Contains_lookup _ W) in Hc; [|done].
  pose proof (chain_below _ W _ _ g (Z.to_nat (height_of (tree s) g)) C Hc ltac:(lia)) as B. rewrite Nat.sub_diag, E0 in B.
  apply Some_inj in B. exists (k + Z.to_nat (height_of (tree s) g))%nat. by rewrite (anc_app _ _ _ _ _ Hk), B.
Qed.

(** The active chain becomes the branch of [q]. *)
Lemma UpdateTip_spec s q : state_ok s -> is_Some (tree s !! q) -> (forall x, ancestor (tree s) x q -> good (tree s) x) ->
  exists c, UpdateTip (Some q) s = Ok (set_chain c s) /\ state_ok (set_chain c s) /\ Tip c = Some q.
Proof.
  intros O Hq G. pose proof (t_wf _ (so_tree _ O)) as W.
  destruct (SetTip_activates_branch (tree s) (chainActive s) q W (so_chain _ O) Hq) as (c & E & C & Hh & Ht & Hc).
  unfold UpdateTip. rewrite E. exists c. split; [done|]. split; [|done]. destruct (so_root s O) as (r & Hr & R).
  split; cbn [set_chain tree chainActive setBlockIndexCandidates]; try apply O; [done| | |].
  - intros ->. done.
  - intros x Hx Hcx. apply G. by apply Hc.
  - intros p Hp. exists r. split; [by apply R|]. apply Hc; [|by apply R].
    by destruct (ancestor_height _ W r p Hp (R p Hp)).
Qed.

(** Ancestors of the tip are active, hence good. *)
Lemma tip_ancestor_good s t x : state_ok s -> Tip (chainActive s) = Some t -> ancestor (tree s) x t -> good (tree s) x.
Proof.
  intros O T A. pose proof (t_wf _ (so_tree _ O)) as W. destruct (tip_contained _ _ _ W (so_chain _ O) T) as (Ht & Hc & _).
  destruct (ancestor_height _ W x t Ht A) as [Hx _]. apply (so_active _ O); [done|]. by apply (active_ancestor _ _ x t W (so_chain _ O)).
Qed.

(** What is above an ancestor is an ancestor or the block. *)
Lemma ancestor_parent st p q x : pprev_of st p = Some q -> ancestor st x p <-> x = p \/ ancestor st x q.
Proof.
  intros E. split.
  - intros [[|k] Hk]; cbn [anc] in Hk; [left; by apply Some_inj in Hk|right]. rewrite E in Hk. by exists k.
  - intros [->|[k Hk]]; [by exists 0%nat|]. exists (S k). cbn [anc]. by rewrite E.
Qed.

Lemma ancestor_work st x p : tree_ok st -> is_Some (st !! p) -> ancestor st x p ->
  x = p \/ val (nChainWork (deref st x)) < val (nChainWork (deref st p)).
Proof.
  intros T Hp [k Hk]. revert p Hp Hk. induction k as [|k IH]; intros p Hp Hk; cbn [anc] in Hk; [left; by apply Some_inj in Hk|right].
  destruct (pprev_of st p) as [q|] eqn:E; [|done]. pose proof (t_work _ T p q Hp E).
  destruct (anc_height st (t_wf _ T) 1 p q Hp) as [Hq _]; [cbn [anc]; by rewrite E|].
  destruct (IH q Hq Hk) as [->|]; lia.
Qed.

(** A block is not worse than its ancestors. *)
Lemma ancestor_not_better st x p : tree_ok st -> is_Some (st !! p) -> ancestor st x p -> work_lt st p x = false.
Proof.
  intros T Hp A. destruct (ancestor_work st x p T Hp A) as [->|L]; [apply work_lt_irrefl; apply T|].
  rewrite <- not_true_iff_false, (work_lt_iff st (t_work_wf _ T)). lia.
Qed.

Section Steps.
Context {W : Type} `{BlockStore W}.

Lemma after_flush_ok wrote s : state_ok s -> state_ok (after_flush wrote s) /\ advance s (after_flush wrote s).
Proof.
  intros O. destruct wrote; cbn [after_flush]; [|split; [done|apply advance_refl]].
  split; [by apply (state_ok_same s)|by apply advance_same_sets].
Qed.

(** The state keeps its tree and candidates, and [q] is the tip. *)
Definition tip_at (q : ptr) (s s' : ChainState) : Prop :=
  state_ok s' /\ tree s' = tree s /\ setBlockIndexCandidates s' = setBlockIndexCandidates s /\ Tip (chainActive s') = Some q.

Lemma DisconnectTip_spec s w t q : state_ok s -> Tip (chainActive s) = Some t -> pprev_of (tree s) t = Some q ->
  exists s' w' ok, DisconnectTip s w = Ok (s', w', ok) /\ tip_at (if ok then q else t) s s'.
Proof.
  intros O T Q. unfold DisconnectTip. rewrite T. destruct (disconnect_block s t w) as [w1 [|]]; cbn [negb].
  2:{ by exists s, w1, false. }
  destruct (flush_state true w1) as [[w2 wrote] [|]]; cbn [negb]; [|by exists s, w2, false].
  destruct (after_flush_ok wrote s O) as [O1 _]. assert (T1 : tree (after_flush wrote s) = tree s) by (by destruct wrote).
  rewrite Q. pose proof (t_wf _ (so_tree _ O)) as Wf. destruct (tip_contained _ _ _ Wf (so_chain _ O) T) as (Ht & _).
  destruct (anc_height _ Wf 1 t q Ht) as [Hq _]; [cbn [anc]; by rewrite Q|].
  destruct (UpdateTip_spec (after_flush wrote s) q O1) as (c & -> & Oc & Tc); rewrite ?T1; [done| |].
  - intros x Hx. apply (tip_ancestor_good s t); [done..|]. apply (ancestor_parent _ _ q); [done|by right].
  - cbn [rbind]. eexists _, _, true. split; [done|]. split; [done|]. by destruct wrote.
Qed.

(** The active chain goes back to the fork, unless a block cannot be disconnected. *)
Lemma disconnect_loop_spec f fuel : forall s w t, state_ok s -> Tip (chainActive s) = Some t -> ancestor (tree s) f t ->
  (Z.to_nat (height_of (tree s) t - height_of (tree s) f) <= fuel)%nat ->
  exists s' w' ok, disconnect_loop fuel (Some f) s w = Ok (s', w', ok) /\ exists t', tip_at t' s s' /\ (ok = true -> t' = f).
Proof.
  induction fuel as [|fuel IH]; intros s w t O T A Hf; cbn [disconnect_loop]; rewrite T.
  all: pose proof (t_wf _ (so_tree _ O)) as Wf; destruct (tip_contained _ _ _ Wf (so_chain _ O) T) as (Ht & _).
  all: case_bool_decide as E; [apply Some_inj in E; subst f; exists s, w, true; split; [done|]; by exists t|].
  all: destruct A as [k Hk]; destruct (anc_height _ Wf k t f Ht Hk) as [Hfv Hfh].
  all: destruct k as [|k]; cbn [anc] in Hk; [congruence|]; destruct (pprev_of (tree s) t) as [q|] eqn:Q; [|done]; change (anc (tree s) k q = Some f) in Hk.
  - lia.
  - destruct (DisconnectTip_spec s w t q O T Q) as (s1 & w1 & ok & -> & Oc & Et & Ec & Tc). cbn [rbind]. destruct ok; cbn [negb].
    + destruct (anc_height _ Wf 1 t q Ht) as [Hq Eq]; [cbn [anc]; by rewrite Q|].
      destruct (IH s1 w1 q Oc Tc) as (s' & w' & ok & E' & t' & (O' & Et' & Ec' & Tc') & Hok); rewrite ?Et; [by exists k|lia|].
      exists s', w', ok. split; [done|]. exists t'. split; [|done]. split; [done|]. by rewrite Et', Ec'.
    + exists s1, w1, false. split; [done|]. exists t. by split.
Qed.
End Steps.

(** * Connecting blocks *)

(** An assignment that keeps the shape of the entry and what [good] reads from it. *)
Lemma assign_ok s p f : state_ok s -> is_Some (tree s !! p) -> (forall b, shape (f b) = shape b) ->
  (good (tree s) p -> good (tree (assign p f s)) p) -> state_ok (assign p f s).
Proof.
  intros [O1 O2 O3 O4 O5 O6] Hp Hs Hg. pose proof (same_tree_assign s p f Hp Hs) as E. split; cbn [assign set_tree chainActive setBlockIndexCandidates].
  - by apply (tree_ok_same (tree s)).
  - by apply (same_wf_chain (tree s)).
  - done.
  - intros x Hx Hc. rewrite (same_valid _ _ E) in Hx. rewrite (same_contains _ _ E) in Hc. specialize (O4 x Hx Hc).
    destruct (decide (x = p)) as [->|Hne]; [by apply Hg|]. unfold good. rewrite deref_assign, decide_False by done. exact O4.
  - intros q. rewrite (same_valid _ _ E). intros Hq. destruct (O5 q Hq) as [g [Ha Hc]]. exists g.
    split; [exact (proj2 (same_ancestor _ _ E g q) Ha)|by rewrite (same_contains _ _ E)].
  - intros q Hq. apply O6 in Hq. by rewrite (same_valid _ _ E), (same_chain_tx _ _ E), (same_height _ _ E).
Qed.

Lemma assign_advance s p f : is_Some (tree s !! p) -> (forall b, shape (f b) = shape b) ->
  (good (tree (assign p f s)) p -> good (tree s) p) -> (scripts_valid (tree s) p -> scripts_valid (tree (assign p f s)) p) ->
  advance s (assign p f s).
Proof.
  intros Hp Hs Hg Hv. split; try done.
  - by apply same_tree_assign.
  - intros x. destruct (decide (x = p)) as [->|Hne]; [done|]. unfold good. by rewrite deref_assign, decide_False.
  - intros x. destruct (decide (x = p)) as [->|Hne]; [done|]. unfold scripts_valid. by rewrite deref_assign, decide_False.
Qed.

Lemma mark_invalid_bad s p flag : Z.land flag BLOCK_FAILED_MASK <> 0 -> ~ good (tree (mark p flag s)) p.
Proof.
  intros Hf [G _]. rewrite mark_status, decide_True in G by done. unfold nonzero in G. apply negb_false_iff, Z.eqb_eq in G.
  rewrite land_lor_assoc in G. by apply Z.lor_eq_0_iff in G as [_ G].
Qed.

(** Marking a block that is not active. *)
Lemma mark_ok s p flag : state_ok s -> is_Some (tree s !! p) -> Contains (tree s) (chainActive s) p = false -> state_ok (mark p flag s).
Proof.
  intros [O1 O2 O3 O4 O5 O6] Hp Hc. pose proof (same_mark s p flag Hp) as E. split; cbn [mark assign set_tree chainActive setBlockIndexCandidates].
  - by apply (tree_ok_same (tree s)).
  - by apply (same_wf_chain (tree s)).
  - done.
  - intros x Hx Hcx. rewrite (same_valid _ _ E) in Hx. rewrite (same_contains _ _ E) in Hcx.
    unfold good. rewrite mark_status, decide_False; [by apply O4|]. intros ->. congruence.
  - intros q. rewrite (same_valid _ _ E). intros Hq. destruct (O5 q Hq) as [g [Ha Hcg]]. exists g.
    split; [exact (proj2 (same_ancestor _ _ E g q) Ha)|by rewrite (same_contains _ _ E)].
  - intros q Hq. apply O6 in Hq. by rewrite (same_valid _ _ E), (same_chain_tx _ _ E), (same_height _ _ E).
Qed.

Lemma mark_advance s p flag : is_Some (tree s !! p) -> Z.land flag BLOCK_VALID_MASK = 0 -> Z.land flag BLOCK_HAVE_DATA = 0 ->
  advance s (mark p flag s).
Proof.
  intros Hp E1 E2. apply assign_advance; [done|done| |].
  - unfold good. rewrite deref_assign, decide_True by done. cbn. rewrite !(land_lor_disjoint _ _ BLOCK_HAVE_DATA) by done.
    intros [G1 G2]. split; [|done]. unfold nonzero in *. apply negb_false_iff, Z.eqb_eq in G1. rewrite land_lor_assoc in G1.
    apply Z.lor_eq_0_iff in G1 as [G1 _]. by rewrite G1.
  - unfold scripts_valid. rewrite deref_assign, decide_True by done. cbn. by rewrite land_lor_disjoint.
Qed.

Lemma erase_advance s p : ~ valid_branch (tree s) p -> advance s (erase_candidate p s).
Proof. intros Hn. by apply search_advance, search_erase. Qed.

Lemma note_ok p s : state_ok s -> state_ok (note_invalid p s) /\ advance s (note_invalid p s).
Proof. intros O. pose proof (search_note p s) as S. split; [by apply (search_ok s)|by apply search_advance]. Qed.

(** [InvalidBlockFound] on the next block of the chain. *)
Lemma InvalidBlockFound_spec s p t : state_ok s -> is_Some (tree s !! p) -> Tip (chainActive s) = Some t ->
  Contains (tree s) (chainActive s) p = false ->
  exists s', InvalidBlockFound p false s = Ok s' /\ state_ok s' /\ advance s s' /\ ~ good (tree s') p /\
    Tip (chainActive s') = Some t.
Proof.
  intros O Hp T Hc. unfold InvalidBlockFound, InvalidChainFound. cbn [negb].
  set (s1 := mark p BLOCK_FAILED_VALID s). assert (O1 : state_ok s1) by (by apply mark_ok).
  assert (A1 : advance s s1) by (by apply mark_advance).
  assert (G1 : ~ good (tree s1) p) by (by apply mark_invalid_bad).
  set (s2 := add_dirty p s1). assert (O2 : state_ok s2) by (by apply (state_ok_same s1)).
  assert (A2 : advance s1 s2) by (by apply advance_same_sets).
  assert (A3 : advance s2 (erase_candidate p s2)) by (apply erase_advance; intros V; apply G1, (V p), ancestor_refl).
  assert (O3 : state_ok (erase_candidate p s2)) by (apply (state_ok_same s2); [done|done| |done]; by intros q [Hq _]%elem_of_difference).
  change (chainActive (erase_candidate p s2)) with (chainActive s). rewrite T.
  destruct (note_ok p _ O3) as [O4 A4]. eexists. split; [reflexivity|]. split; [exact O4|].
  split; [by apply (advance_trans _ s1), (advance_trans _ s2), (advance_trans _ (erase_candidate p s2))|].
  split; [intros G; apply (av_good _ _ A4) in G; done|]. unfold note_invalid. by case_match.
Qed.

Lemma set_money_ok s p m : state_ok s -> is_Some (tree s !! p) ->
  state_ok (set_money_if p m s) /\ advance s (set_money_if p m s) /\ same_tree (tree s) (tree (set_money_if p m s)) /\
  chainActive (set_money_if p m s) = chainActive s.
Proof.
  intros O Hp. destruct m as [m|]; cbn [set_money_if]; [|by split_and!; [|apply advance_refl|..]].
  assert (Hs : forall b, shape (set_money m b) = shape b) by done.
  assert (Hg : good (tree (assign p (set_money m) s)) p <-> good (tree s) p).
  { unfold good. by rewrite !deref_assign, !decide_True by done. }
  split_and!; [by apply assign_ok; [..|apply Hg]| |by apply same_tree_assign|done].
  apply assign_advance; [done..|by apply Hg|]. unfold scripts_valid. by rewrite deref_assign, decide_True.
Qed.

(** What [ConnectBlock] leaves in the entry of a good block. *)
Lemma connected_spec s p q m u : state_ok s -> is_Some (tree s !! p) -> pprev_of (tree s) p = Some q -> good (tree s) p ->
  state_ok (connected p m u s) /\ advance s (connected p m u s) /\ chainActive (connected p m u s) = chainActive s /\
  setBlockIndexCandidates (connected p m u s) = setBlockIndexCandidates s /\
  (forall x, good (tree (connected p m u s)) x <-> good (tree s) x) /\ scripts_valid (tree (connected p m u s)) p.
Proof.
  intros O Hp Q Hg. set (s1 := assign p (fun b => connected_index u (set_money m b)) s).
  assert (Es : connected p m u s = s1 \/ connected p m u s = add_dirty p s1).
  { unfold connected. rewrite Q. case_match; [by right|by left]. }
  assert (G : forall x, good (tree s1) x <-> good (tree s) x).
  { intros x. unfold good, s1. rewrite deref_assign. case_decide as E; [subst x|done]. by rewrite !connected_index_flags. }
  assert (A : advance s s1).
  { apply assign_advance; [done|apply connected_index_shape|apply G|]. unfold scripts_valid. rewrite deref_assign, decide_True by done.
    apply connected_index_keeps_scripts. }
  assert (O1 : state_ok s1) by (apply assign_ok; [done..|apply connected_index_shape|apply G]).
  assert (V : scripts_valid (tree s1) p).
  { unfold scripts_valid, s1. rewrite deref_assign, decide_True by done. apply connected_index_scripts. apply Hg. }
  destruct Es as [->| ->]; [done|]. split; [by apply (state_ok_same s1)|].
  split; [by apply (advance_trans _ s1); [|apply advance_same_sets]|done].
Qed.

Section Connect.
Context {W : Type} `{BlockStore W}.

(** The verdict on a block never leaves it open whether the block's data are corrupt. *)
Definition no_corruption : Prop := forall s p loaded w w' m, connect_block s p loaded w <> (w', Invalid m true).

Lemma not_active_child s p q : state_ok s -> is_Some (tree s !! p) -> pprev_of (tree s) p = Some q -> Tip (chainActive s) = Some q ->
  Contains (tree s) (chainActive s) p = false.
Proof.
  intros O Hp Q T. pose proof (t_wf _ (so_tree _ O)) as Wf. destruct (tip_contained _ _ _ Wf (so_chain _ O) T) as (Hq & _ & Hh).
  apply not_true_iff_false. intros Hc. pose proof (Contains_height _ Wf _ p Hp Hc) as L. unfold Height in L.
  destruct (anc_height _ Wf 1 p q Hp) as [_ Eh]; [cbn [anc]; by rewrite Q|]. lia.
Qed.

Lemma ConnectTip_spec (NC : no_corruption) s w p q loaded : state_ok s -> Tip (chainActive s) = Some q -> is_Some (tree s !! p) ->
  pprev_of (tree s) p = Some q -> good (tree s) p ->
  exists s' w' res, ConnectTip p loaded s w = Ok (s', w', res) /\ state_ok s' /\ advance s s' /\
    match res with
    | TipConnected => setBlockIndexCandidates s' = setBlockIndexCandidates s /\ Tip (chainActive s') = Some p /\
        (forall x, good (tree s) x -> good (tree s') x) /\ scripts_valid (tree s') p
    | TipInvalid c => c = false /\ ~ good (tree s') p /\ Tip (chainActive s') = Some q
    | TipError => True
    end.
Proof.
  intros O T Hp Q Hg. unfold ConnectTip. rewrite Q, T, bool_decide_eq_true_2 by done. cbn [negb].
  destruct (connect_block s p loaded w) as [w1 v] eqn:Ev. destruct v as [m u|m c|m].
  - destruct (connected_spec s p q m u O Hp Q Hg) as (O1 & A1 & C1 & K1 & G1 & V1). set (s1 := connected p m u s) in *.
    destruct (flush_state _ w1) as [[w2 wrote] [|]]; cbn [negb]; [|by exists s1, w2, TipError].
    destruct (after_flush_ok wrote s1 O1) as [O2 A2]. assert (T2 : tree (after_flush wrote s1) = tree s1) by (by destruct wrote).
    assert (K2 : setBlockIndexCandidates (after_flush wrote s1) = setBlockIndexCandidates s) by (by destruct wrote).
    pose proof (av_same _ _ A1) as E1.
    destruct (UpdateTip_spec (after_flush wrote s1) p O2) as (c & -> & Oc & Tc); rewrite ?T2; [by apply (same_valid _ _ E1)| |].
    + intros x Hx. apply G1. apply (same_ancestor _ _ E1), (ancestor_parent _ _ q _ Q) in Hx as [->|Hx]; [done|].
      by apply (tip_ancestor_good s q).
    + cbn [rbind]. eexists _, _, TipConnected. split; [reflexivity|]. split; [exact Oc|].
      split; [apply (advance_trans _ s1); [done|]; by apply advance_same_sets; [|destruct wrote]|].
      cbn [set_chain tree chainActive setBlockIndexCandidates]. rewrite T2. split_and!; [done|done|by intros x Hx; apply G1|done].
  - destruct c; [by destruct (NC s p loaded w w1 m)|].
    destruct (set_money_ok s p m O Hp) as (O1 & A1 & E1 & C1). set (s1 := set_money_if p m s) in *.
    destruct (InvalidBlockFound_spec s1 p q O1) as (s' & -> & O' & A' & G' & T').
    + by apply (same_valid _ _ E1).
    + by rewrite C1.
    + rewrite (same_contains _ _ E1), C1. by apply (not_active_child s p q).
    + cbn [rbind]. exists s', w1, (TipInvalid false). split; [done|]. split; [done|]. split; [by apply (advance_trans _ s1)|done].
  - destruct (set_money_ok s p m O Hp) as (O1 & A1 & E1 & C1). by eexists _, w1, TipError.
Qed.

(** [PruneBlockIndexCandidates] at a tip that has been connected, for a target that is no
    worse. *)
Lemma prune_advance s tip b : state_ok s -> Tip (chainActive s) = Some tip -> scripts_valid (tree s) tip ->
  b ∈ setBlockIndexCandidates s -> work_lt (tree s) b tip = false ->
  exists s', PruneBlockIndexCandidates s = Ok s' /\ state_ok s' /\ advance s s' /\ tree s' = tree s /\
    chainActive s' = chainActive s /\ b ∈ setBlockIndexCandidates s'.
Proof.
  intros O T V Hb Hw. destruct (Prune_spec s tip b (so_tree _ O) T Hb Hw) as (cands & -> & Hc).
  eexists. split; [reflexivity|]. split; [apply (state_ok_same s); [done|done| |done]; cbn; intros q; by rewrite Hc; intros []|].
  split; [|split; [done|split; [done|by apply Hc]]]. split; cbn; try done.
  - intros q. rewrite Hc. by intros [].
  - intros q Hq Hn. right. exists tip. split; [|done]. apply not_false_iff_true. intros Hf. apply Hn. by apply Hc.
Qed.
End Connect.

(** ** Paths up the tree *)

(** [l] goes from the child of [f] up to [p]. *)
Fixpoint path (st : store) (f : ptr) (l : list ptr) (p : ptr) : Prop :=
  match l with
  | [] => f = p
  | x :: l => pprev_of st x = Some f /\ path st x l p
  end.

Lemma path_same st st' f l p : same_tree st st' -> path st' f l p <-> path st f l p.
Proof.
  intros E. revert f. induction l as [|x l IH]; intros f; cbn [path]; [done|]. by rewrite (same_pprev _ _ E), IH.
Qed.

Lemma path_ancestor st f l p : path st f l p -> ancestor st f p.
Proof.
  revert f. induction l as [|x l IH]; intros f; cbn [path]; [intros ->; by exists 0%nat|].
  intros [Ex Hl]. destruct (IH x Hl) as [k Hk]. exists (k + 1)%nat. rewrite (anc_app _ _ _ _ _ Hk). cbn [anc]. by rewrite Ex.
Qed.

Lemma path_snoc st f l q p : path st f l q -> pprev_of st p = Some q -> path st f (l ++ [p]) p.
Proof. revert f. induction l as [|x l IH]; intros f; cbn [path app]; [by intros -> |]. intros [? ?] ?. split; [done|]. by apply IH. Qed.

Lemma ancestor_trans st a b c : ancestor st a b -> ancestor st b c -> ancestor st a c.
Proof. intros [i Hi] [j Hj]. exists (j + i)%nat. by rewrite (anc_app _ _ _ _ _ Hj). Qed.

(** The blocks above height [h] are collected from the highest down. *)
Lemma collect_spec st f (W : wf_store st) k : forall p fuel, is_Some (st !! p) -> anc st k p = Some f -> (k <= fuel)%nat ->
  exists l, collect fuel st (Some p) (height_of st f) = Ok l /\ path st f (rev l) p /\ (0 < k -> l <> [])%nat.
Proof.
  induction k as [|k IH]; intros p fuel Hp Hk Hf.
  { cbn [anc] in Hk. apply Some_inj in Hk. subst f. exists []. split; [|split; [done|lia]].
    destruct fuel; cbn [collect]; by rewrite Z.eqb_refl. }
  destruct (anc_height st W (S k) p f Hp Hk) as [_ Eh]. destruct fuel as [|fuel]; [lia|]. cbn [collect].
  rewrite (proj2 (Z.eqb_neq _ _)) by lia. cbn [anc] in Hk. destruct (pprev_of st p) as [q|] eqn:Q; [|done].
  destruct (anc_height st W 1 p q Hp) as [Hq _]; [cbn [anc]; by rewrite Q|].
  destruct (IH q fuel Hq Hk ltac:(lia)) as (l & -> & P & _). exists (p :: l). split; [done|]. split; [|done].
  cbn [rev]. by apply path_snoc with q.
Qed.

Section Best.
Context {W : Type} `{BlockStore W} (NC : no_corruption).

(** What a part of the work towards [b] leaves behind. *)
Definition progress_made (b : ptr) (old : ptr) (p : ptr) (s s' : ChainState) (pr : progress) : Prop :=
  match pr with
  | Continue => Tip (chainActive s') = Some p /\ b ∈ setBlockIndexCandidates s' /\ valid_branch (tree s') b
  | Better => exists t, Tip (chainActive s') = Some t /\ val (work_of s old) < val (work_of s' t)
  | FoundInvalid => exists x, is_Some (tree s !! x) /\ good (tree s) x /\ ~ good (tree s') x
  | SystemError => True
  end.

Lemma progress_before b old p s s1 s' pr : advance s s1 -> progress_made b old p s1 s' pr -> progress_made b old p s s' pr.
Proof.
  intros A. destruct pr; cbn [progress_made]; [done| | |done].
  - unfold work_of. by rewrite (same_work _ _ (av_same _ _ A)).
  - intros (x & Hx & G & G'). exists x. split; [by apply (same_valid _ _ (av_same _ _ A))|]. split; [by apply A|done].
Qed.

Lemma valid_branch_keep s s' p : same_tree (tree s) (tree s') -> (forall x, good (tree s) x -> good (tree s') x) ->
  valid_branch (tree s) p -> valid_branch (tree s') p.
Proof. intros E G V x Hx. apply G, V. by apply (same_ancestor _ _ E). Qed.

Lemma connect_list_spec b back old loaded l : forall s w f p, state_ok s -> Tip (chainActive s) = Some f -> path (tree s) f l p ->
  ancestor (tree s) p b -> is_Some (tree s !! b) -> b ∈ setBlockIndexCandidates s -> valid_branch (tree s) b ->
  exists s' w' pr, connect_list b back (Some old) loaded l s w = Ok (s', w', pr) /\ state_ok s' /\ advance s s' /\ progress_made b old p s s' pr.
Proof.
  induction l as [|x l IH]; intros s w f p O T P A Hb Hc V; cbn [connect_list].
  { cbn [path] in P. subst f. exists s, w, Continue. split; [done|]. split; [done|]. split; [apply advance_refl|done]. }
  destruct P as [Ex P]. assert (Ax : ancestor (tree s) x b) by (by apply (ancestor_trans _ _ p); [apply path_ancestor with l|]).
  destruct (ancestor_height _ (t_wf _ (so_tree _ O)) x b Hb Ax) as [Hx _].
  destruct (ConnectTip_spec NC s w x f (bool_decide (x = b) && loaded) O T Hx Ex (V x Ax)) as (s1 & w1 & res & -> & O1 & A1 & R). cbn [rbind].
  pose proof (av_same _ _ A1) as E1. destruct res as [|c|].
  - destruct R as (K1 & T1 & G1 & V1).
    destruct (prune_advance s1 x b O1 T1 V1) as (s2 & -> & O2 & A2 & Et2 & Ec2 & K2).
    { by rewrite K1. }
    { apply (ancestor_not_better _ _ _ (so_tree _ O1)); [by apply (same_valid _ _ E1)|by apply (same_ancestor _ _ E1)]. }
    cbn [rbind]. rewrite Ec2, T1. unfold work_of. rewrite (gt_spec W256) by apply (so_tree _ O2).
    destruct (Z.ltb_spec (val (nChainWork (deref (tree s2) old))) (val (nChainWork (deref (tree s2) x)))) as [L|_].
    + exists s2, w1, Better. split; [done|]. split; [done|]. split; [by apply (advance_trans _ s1)|]. exists x. rewrite Ec2. split; [done|].
      unfold work_of. rewrite Et2, (same_work _ _ E1 old) in L. by rewrite Et2.
    + assert (A12 : advance s s2) by (by apply (advance_trans _ s1)). pose proof (av_same _ _ A12) as E2.
      destruct (IH s2 w1 x p O2) as (s' & w' & pr & -> & O' & A' & R').
      * by rewrite Ec2.
      * by apply (path_same _ _ _ _ _ E2).
      * by apply (same_ancestor _ _ E2).
      * by apply (same_valid _ _ E2).
      * done.
      * rewrite Et2. by apply (valid_branch_keep s).
      * exists s', w', pr. split; [done|]. split; [done|]. split; [by apply (advance_trans _ s2)|]. by apply (progress_before _ _ _ s s2).
  - destruct R as (-> & G1 & T1). cbn [negb]. unfold InvalidChainFound. rewrite T1. cbn [rbind].
    destruct (note_ok back s1 O1) as [O2 A2]. eexists _, w1, FoundInvalid. split; [reflexivity|]. split; [exact O2|].
    split; [by apply (advance_trans _ s1)|]. exists x. split; [done|]. split; [by apply V|]. intros G. apply G1. by apply (av_good _ _ A2).
  - exists s1, w1, SystemError. split; [done|]. split; [done|]. split; [done|exact I].
Qed.

(** How a step ends. *)
Definition step_made (b : ptr) (old : ptr) (s s' : ChainState) : Prop :=
  (Tip (chainActive s') = Some b /\ b ∈ setBlockIndexCandidates s' /\ valid_branch (tree s') b) \/
  (exists t, Tip (chainActive s') = Some t /\ val (work_of s old) < val (work_of s' t)) \/
  (exists x, is_Some (tree s !! x) /\ good (tree s) x /\ ~ good (tree s') x).

Lemma step_before b old s s1 s' : advance s s1 -> step_made b old s1 s' -> step_made b old s s'.
Proof.
  intros A [?|[S|S]]; [by left|right; left|right; right].
  - by apply (progress_before b old b s s1 s' Better).
  - by apply (progress_before b old b s s1 s' FoundInvalid).
Qed.

Lemma connect_batches_spec b old loaded fuel : forall s w f k, state_ok s -> Tip (chainActive s) = Some f -> anc (tree s) k b = Some f ->
  (k <= fuel)%nat -> is_Some (tree s !! b) -> b ∈ setBlockIndexCandidates s -> valid_branch (tree s) b ->
  exists s' w' ok, connect_batches fuel b (Some old) loaded (height_of (tree s) f) s w = Ok (s', w', ok) /\ state_ok s' /\ advance s s' /\
    (ok = true -> step_made b old s s').
Proof.
  induction fuel as [|fuel IH]; intros s w f k O T Hk Hf Hb Hc V; cbn [connect_batches].
  all: pose proof (t_wf _ (so_tree _ O)) as Wf; destruct (anc_height _ Wf k b f Hb Hk) as [Hfv Hfh]; pose proof (height_nonneg _ Wf f Hfv).
  all: destruct (Z.eqb_spec (height_of (tree s) f) (height_of (tree s) b)) as [E|E].
  1, 3: replace k with 0%nat in Hk by lia; cbn [anc] in Hk; apply Some_inj in Hk; subst f;
    exists s, w, true; split; [done|]; split; [done|]; split; [apply advance_refl|]; intros _; by left.
  - lia.
  - set (h := Z.min (height_of (tree s) f + 32) (height_of (tree s) b)).
    destruct (GetAncestor_some _ Wf b h Hb ltac:(lia)) as (p & -> & Hp & Hph & Hpa).
    assert (Hpf : anc (tree s) (Z.to_nat (h - height_of (tree s) f)) p = Some f).
    { rewrite <- Hk. replace k with (Z.to_nat (height_of (tree s) b - h) + Z.to_nat (h - height_of (tree s) f))%nat by lia.
      by rewrite (anc_app _ _ _ _ _ Hpa). }
    destruct (collect_spec _ f Wf _ p (Z.to_nat (h + 1)) Hp Hpf ltac:(lia)) as (l & -> & P & Hl). cbn [rbind].
    destruct (connect_list_spec b (List.last l b) old loaded (rev l) s w f p O T P) as (s1 & w1 & pr & -> & O1 & A1 & R); try done.
    { by eexists. }
    cbn [rbind]. pose proof (av_same _ _ A1) as E1. destruct pr.
    + destruct R as (T1 & K1 & V1).
      destruct (IH s1 w1 p (Z.to_nat (height_of (tree s) b - h)) O1 T1) as (s' & w' & ok & E' & O' & A' & R'); try done.
      * by rewrite (same_anc _ _ E1).
      * lia.
      * by apply (same_valid _ _ E1).
      * rewrite (same_height _ _ E1), Hph in E'. exists s', w', ok. split; [done|]. split; [done|]. split; [by apply (advance_trans _ s1)|].
        intros Hok. apply (step_before _ _ _ s1); [done|by apply R'].
    + exists s1, w1, true. split; [done|]. split; [done|]. split; [done|]. intros _. right. by left.
    + exists s1, w1, true. split; [done|]. split; [done|]. split; [done|]. intros _. right. by right.
    + by exists s1, w1, false.
Qed.
End Best.

(** An active block is an ancestor of the tip. *)
Lemma active_is_ancestor s t f : state_ok s -> Tip (chainActive s) = Some t -> is_Some (tree s !! f) ->
  Contains (tree s) (chainActive s) f = true -> ancestor (tree s) f t.
Proof.
  intros O T Hf Hc. pose proof (t_wf _ (so_tree _ O)) as Wf. destruct (tip_contained _ _ _ Wf (so_chain _ O) T) as (Ht & Hct & Hh).
  pose proof (Contains_height _ Wf _ f Hf Hc) as L. unfold Height in L. pose proof (height_nonneg _ Wf f Hf).
  apply (Contains_lookup _ Wf) in Hc; [|done]. apply (Contains_lookup _ Wf) in Hct; [|done].
  pose proof (chain_below _ Wf _ _ t (Z.to_nat (height_of (tree s) t - height_of (tree s) f)) (so_chain _ O) Hct ltac:(lia)) as B.
  replace (Z.to_nat (height_of (tree s) t) - Z.to_nat (height_of (tree s) t - height_of (tree s) f))%nat
    with (Z.to_nat (height_of (tree s) f)) in B by lia. rewrite Hc in B. apply Some_inj in B. by eexists.
Qed.

(** ** The measure of the outer loop *)

Definition good_blocks (s : ChainState) : gset ptr := filter (fun p => good_check (tree s) p = true) (dom (tree s)).

Definition better_blocks (s : ChainState) (t : ptr) : gset ptr :=
  filter (fun p => val (work_of s t) < val (work_of s p)) (dom (tree s)).

Lemma good_check_iff st p : good_check st p = true <-> good st p.
Proof. unfold good_check, good. by rewrite andb_true_iff, negb_true_iff. Qed.

Lemma elem_good_blocks s p : p ∈ good_blocks s <-> good (tree s) p /\ is_Some (tree s !! p).
Proof. unfold good_blocks. by rewrite elem_of_filter, good_check_iff, elem_of_dom. Qed.

Lemma advance_good_blocks s s' : advance s s' -> (size (good_blocks s') <= size (good_blocks s))%nat.
Proof.
  intros A. apply subseteq_size. intros p. rewrite !elem_good_blocks, (same_valid _ _ (av_same _ _ A)). intros [G Hp]. split; [by apply A|done].
Qed.

Lemma fewer_good_blocks s s' x : advance s s' -> is_Some (tree s !! x) -> good (tree s) x -> ~ good (tree s') x ->
  (size (good_blocks s') < size (good_blocks s))%nat.
Proof.
  intros A Hx G G'. apply (fewer_candidates _ _ x).
  - intros p. rewrite !elem_good_blocks, (same_valid _ _ (av_same _ _ A)). intros [Gp Hp]. split; [by apply A|done].
  - by apply elem_good_blocks.
  - rewrite elem_good_blocks. by intros [].
Qed.

Lemma better_blocks_le s t : (size (better_blocks s t) <= size (tree s))%nat.
Proof. rewrite <- (size_dom (D := gset ptr)). apply subseteq_size. by intros p [_ Hp]%elem_of_filter. Qed.

Lemma same_size s s' : same_tree (tree s) (tree s') -> size (tree s') = size (tree s).
Proof. intros E. rewrite <- !(size_dom (D := gset ptr)). f_equal. apply set_eq. intros p. by rewrite !elem_of_dom, (same_valid _ _ E). Qed.

Lemma same_better s s' t : same_tree (tree s) (tree s') -> better_blocks s' t = better_blocks s t.
Proof.
  intros E. apply set_eq. intros p. unfold better_blocks, work_of.
  by rewrite !elem_of_filter, !elem_of_dom, !(same_work _ _ E), (same_valid _ _ E).
Qed.

Lemma fewer_better_blocks s s' t t' : same_tree (tree s) (tree s') -> is_Some (tree s !! t') ->
  val (work_of s t) < val (work_of s' t') -> (size (better_blocks s' t') < size (better_blocks s t))%nat.
Proof.
  intros E Ht L. rewrite (same_better s s' t' E). assert (L' : val (work_of s t) < val (work_of s t')) by (unfold work_of in *; by rewrite (same_work _ _ E) in L).
  apply (fewer_candidates _ _ t').
  - intros p. unfold better_blocks. rewrite !elem_of_filter. intros [Hw Hp]. split; [lia|done].
  - unfold better_blocks. apply elem_of_filter. split; [done|]. by apply elem_of_dom.
  - unfold better_blocks. rewrite elem_of_filter. intros [Hw _]. lia.
Qed.

Definition measure (s : ChainState) (t : ptr) : nat := (size (good_blocks s) * S (size (tree s)) + size (better_blocks s t))%nat.

Section Outer.
Context {W : Type} `{BlockStore W} (NC : no_corruption).

Lemma ActivateBestChainStep_spec s w b t loaded : state_ok s -> Tip (chainActive s) = Some t -> b ∈ setBlockIndexCandidates s ->
  valid_branch (tree s) b ->
  exists s' w' ok, ActivateBestChainStep b loaded s w = Ok (s', w', ok) /\ state_ok s' /\ advance s s' /\ (ok = true -> step_made b t s s').
Proof.
  intros O T Hc V. destruct (so_cand _ O b Hc) as [Hb _]. pose proof (t_wf _ (so_tree _ O)) as Wf.
  unfold ActivateBestChainStep. destruct (FindFork_total _ Wf (chainActive s) b Hb) as (r & -> & F).
  destruct r as [f|]; [|destruct (so_rooted _ O b Hb) as [g Hg]; by destruct (F g)].
  destruct F as [[[k Hk] Hcf] _]. destruct (anc_height _ Wf k b f Hb Hk) as [Hfv Hfh].
  pose proof (active_is_ancestor s t f O T Hfv Hcf) as A.
  destruct (tip_contained _ _ _ Wf (so_chain _ O) T) as (Ht & _ & Hth). pose proof (height_nonneg _ Wf f Hfv).
  destruct (disconnect_loop_spec f (length (chainActive s)) s w t O T A ltac:(lia)) as (s1 & w1 & ok & -> & t' & (O1 & E1 & K1 & T1) & Hok). cbn [rbind].
  assert (A1 : advance s s1) by (by apply advance_same_sets). destruct ok; cbn [negb]; [|by exists s1, w1, false].
  rewrite (Hok eq_refl) in T1. rewrite T.
  destruct (connect_batches_spec NC b t loaded (Z.to_nat (height_of (tree s1) b - height_of (tree s1) f)) s1 w1 f k O1 T1) as (s' & w' & ok & E & O' & A' & R);
    rewrite ?E1, ?K1; try done; [lia|].
  rewrite E1 in E. exists s', w', ok. split; [done|]. split; [done|]. split; [by apply (advance_trans _ s1)|].
  intros Ho. apply (step_before _ _ _ s1); [done|by apply R].
Qed.

(** The best chain is active: no candidate is better than the tip. *)
Definition settled (s : ChainState) : Prop :=
  exists t, Tip (chainActive s) = Some t /\ forall p, p ∈ setBlockIndexCandidates s -> work_lt (tree s) t p = false.

Lemma activate_loop_spec pblock fuel : forall s w t, state_ok s -> Tip (chainActive s) = Some t -> (measure s t < fuel)%nat ->
  exists s' w' ret, activate_loop fuel pblock s w = Ok (s', w', ret) /\ state_ok s' /\ advance s s' /\ (ret <> Some false -> settled s').
Proof.
  induction fuel as [|fuel IH]; intros s w t O T Hm; [lia|]. cbn [activate_loop].
  destruct (find_most_work_spec _ s O (Nat.le_refl _)) as (s1 & r & E & S & F). unfold FindMostWorkChain. rewrite E. cbn [rbind].
  pose proof (search_ok _ _ S O) as O1. pose proof (search_advance _ _ S) as A1. assert (T1 : Tip (chainActive s1) = Some t) by (by rewrite (ss_chain _ _ S)).
  destruct r as [b|].
  2:{ exists s1, w, (Some true). split; [done|]. split; [done|]. split; [done|]. intros _. exists t. split; [done|].
      cbn in F. rewrite F. by intros p ?%elem_of_empty. }
  destruct F as (Hb & Vb & Fb). rewrite T1. case_bool_decide as Eb.
  { exists s1, w, (Some true). apply Some_inj in Eb. subst b. split; [done|]. split; [done|]. split; [done|]. intros _. by exists t. }
  destruct (ActivateBestChainStep_spec s1 w b t (bool_decide (pblock = Some b)) O1 T1 Hb Vb) as (s2 & w2 & ok & -> & O2 & A2 & R). cbn [rbind].
  assert (A12 : advance s s2) by (by apply (advance_trans _ s1)).
  destruct ok; cbn [negb]; [|by exists s2, w2, (Some false)]. specialize (R eq_refl).
  case_bool_decide as Et.
  { exists s2, w2, None. split; [done|]. split; [done|]. split; [done|]. intros _. exists b. split; [done|].
    intros p Hp. rewrite (same_work_lt _ _ (av_same _ _ A2)). by apply Fb, (av_cands _ _ A2). }
  destruct (chain_tip _ _ (so_chain _ O2) (so_tip _ O2)) as [t2 T2].
  destruct (IH s2 w2 t2 O2 T2) as (s' & w' & ret & -> & O' & A' & R'); [|exists s', w', ret; split; [done|]; split; [done|]; split; [by apply (advance_trans _ s2)|done]].
  pose proof (advance_good_blocks _ _ A1) as G1. pose proof (advance_good_blocks _ _ A2) as G2. pose proof (same_size _ _ (av_same _ _ A12)) as Sz.
  unfold measure in *. rewrite Sz. destruct R as [(T' & _)|[(t' & T' & L)|(x & Hx & Gx & Gx')]].
  - rewrite T' in Et. done.
  - rewrite T2 in T'. apply Some_inj in T'. subst t'.
    destruct (tip_contained _ _ _ (t_wf _ (so_tree _ O2)) (so_chain _ O2) T2) as (Ht2 & _).
    apply (same_valid _ _ (av_same _ _ A12)) in Ht2.
    assert (L' : val (work_of s t) < val (work_of s2 t2)) by (unfold work_of in *; by rewrite (same_work _ _ (av_same _ _ A1)) in L).
    pose proof (fewer_better_blocks s s2 t t2 (av_same _ _ A12) Ht2 L'). nia.
  - pose proof (fewer_good_blocks s1 s2 x A2 Hx Gx Gx'). pose proof (better_blocks_le s2 t2). rewrite Sz in *. nia.
Qed.

Lemma measure_bound s t : (measure s t < activate_fuel s)%nat.
Proof.
  unfold measure, activate_fuel. pose proof (better_blocks_le s t).
  assert (size (good_blocks s) <= size (tree s))%nat.
  { rewrite <- (size_dom (D := gset ptr)). apply subseteq_size. by intros p [_ Hp]%elem_of_filter. }
  nia.
Qed.
End Outer.

(** C2 Unless a block's data are found corrupt, [ActivateBestChain] always returns: its loop
    ends within the fuel and no assertion fails, whatever blocks turn out to be invalid and
    whatever the disk does.  When it returns true no candidate is better than the tip.
    Candidates are lost only if their branch is invalid or incomplete, or if they are worse
    than a block that has been connected; and the chain stays a chain of good blocks. *)
Theorem ActivateBestChain_settles {W} `{BlockStore W} pblock s w : no_corruption -> state_ok s ->
  exists s' w' ok, ActivateBestChain pblock s w = Ok (s', w', ok) /\ state_ok s' /\ (ok = true -> settled s') /\
    (forall p, p ∈ setBlockIndexCandidates s' -> p ∈ setBlockIndexCandidates s) /\
    (forall p, p ∈ setBlockIndexCandidates s -> p ∉ setBlockIndexCandidates s' ->
       ~ valid_branch (tree s') p \/ exists t, work_lt (tree s) p t = true /\ scripts_valid (tree s') t).
Proof.
  intros NC O. destruct (chain_tip _ _ (so_chain _ O) (so_tip _ O)) as [t T].
  destruct (activate_loop_spec NC pblock _ s w t O T (measure_bound s t)) as (s1 & w1 & ret & E & O1 & A1 & R).
  unfold ActivateBestChain. rewrite E. cbn [rbind]. destruct ret as [ok|].
  - exists s1, w1, ok. split; [done|]. split; [done|]. split; [intros ->; by apply R|]. split; apply A1.
  - destruct (flush_state false w1) as [[w2 wrote] ok]. destruct (after_flush_ok wrote s1 O1) as [O2 A2].
    exists (after_flush wrote s1), w2, ok. split; [done|]. split; [done|].
    split; [intros _; destruct wrote; by apply R|]. pose proof (advance_trans _ _ _ A1 A2) as A. split; apply A.
Qed.

(** * A block whose data are corrupt *)

Section Corrupt.
Context {W : Type} `{BlockStore W}.

(** One turn of the loop on a block on top of the tip that is read corrupt. *)
Lemma corrupt_step s w b t loaded : state_ok s -> Tip (chainActive s) = Some t -> is_Some (tree s !! b) -> pprev_of (tree s) b = Some t ->
  connect_block s b loaded w = (w, Invalid None true) -> ActivateBestChainStep b loaded s w = Ok (s, w, true).
Proof.
  intros O T Hb Q Hv. pose proof (t_wf _ (so_tree _ O)) as Wf. pose proof (height_nonneg _ Wf b Hb).
  destruct (tip_contained _ _ _ Wf (so_chain _ O) T) as (Ht & Hct & Hth).
  destruct (anc_height _ Wf 1 b t Hb) as [_ Eh]; [cbn [anc]; by rewrite Q|].
  unfold ActivateBestChainStep. destruct (FindFork_total _ Wf (chainActive s) b Hb) as (r & -> & F).
  assert (Hc : common_block (tree s) (chainActive s) b t) by (split; [by exists 1%nat; cbn [anc]; rewrite Q|done]).
  destruct r as [f|]; [|by destruct (F t)]. destruct F as [[[k Hk] Hcf] Hmax]. destruct (anc_height _ Wf k b f Hb Hk) as [Hf Ehf].
  assert (f = t) as ->.
  { specialize (Hmax t Hc). destruct k as [|[|k]]; [|cbn [anc] in Hk; rewrite Q in Hk; by apply Some_inj in Hk|lia].
    cbn [anc] in Hk. apply Some_inj in Hk. subst f. rewrite (not_active_child s b t) in Hcf; done. }
  assert (E : disconnect_loop (length (chainActive s)) (Some t) s w = Ok (s, w, true)).
  { destruct (length (chainActive s)); cbn [disconnect_loop]; rewrite T; by rewrite bool_decide_eq_true_2. }
  rewrite E. cbn [rbind negb]. replace (Z.to_nat (height_of (tree s) b - height_of (tree s) t)) with 1%nat by lia. cbn [connect_batches].
  rewrite (proj2 (Z.eqb_neq _ _)) by lia. replace (Z.min (height_of (tree s) t + 32) (height_of (tree s) b)) with (height_of (tree s) b) by lia.
  destruct (GetAncestor_some _ Wf b (height_of (tree s) b) Hb ltac:(lia)) as (p & -> & _ & _ & Hp).
  rewrite Z.sub_diag in Hp. cbn in Hp. apply Some_inj in Hp. subst p.
  assert (Ec : collect (Z.to_nat (height_of (tree s) b + 1)) (tree s) (Some b) (height_of (tree s) t) = Ok [b]).
  { pose proof (height_nonneg _ Wf t Ht). replace (Z.to_nat (height_of (tree s) b + 1)) with (S (S (Z.to_nat (height_of (tree s) t)))) by lia. cbn [collect].
    rewrite (proj2 (Z.eqb_neq _ _)) by lia. by rewrite Q, Z.eqb_refl. }
  rewrite Ec. cbn [rbind rev app connect_list]. unfold ConnectTip. rewrite Q, T, !bool_decide_eq_true_2 by done. cbn [negb andb].
  by rewrite Hv.
Qed.

(** C36 When the next block of the best chain is read from disk with corrupt data, so that
    [ConnectBlock] blames the data and not the block, the block is neither marked nor
    dropped from the candidates: the loop of [ActivateBestChain] chooses it again in every
    turn and never ends. *)
Theorem corrupt_block_never_ends s w b t pblock fuel : state_ok s -> Tip (chainActive s) = Some t -> pprev_of (tree s) b = Some t ->
  FindMostWorkChain s = Ok (s, Some b) -> (forall loaded, connect_block s b loaded w = (w, Invalid None true)) ->
  activate_loop fuel pblock s w = Err OutOfFuel.
Proof.
  intros O T Q F Hv. destruct (find_most_work_spec _ s O (Nat.le_refl _)) as (s1 & r & E & _ & Fd). unfold FindMostWorkChain in F.
  rewrite E in F. apply Ok_inj in F. injection F as -> ->. destruct Fd as (Hb & _). destruct (so_cand _ O b Hb) as [Hbv _].
  assert (Hne : Some b <> Tip (chainActive s)).
  { rewrite T. intros Eb. apply Some_inj in Eb. subst t. pose proof (t_work _ (so_tree _ O) b b Hbv Q). lia. }
  induction fuel as [|fuel IH]; cbn [activate_loop]; [done|]. unfold FindMostWorkChain. rewrite E. cbn [rbind].
  rewrite bool_decide_eq_false_2 by done. rewrite (corrupt_step s w b t) by done. cbn [rbind negb].
  by rewrite bool_decide_eq_false_2.
Qed.
End Corrupt.

(** * Examples *)

(** A node that knows which blocks are invalid. *)
Record example_node := { invalid_blocks : list ptr }.

#[local] Instance example_block_store : BlockStore example_node := {
  connect_block _ p _ w :=
    (w, if bool_decide (p ∈ invalid_blocks w) then Invalid None false else Connected (0, 0) 1);
  disconnect_block _ _ w := (w, true);
  flush_state _ w := (w, true, true);
  block_connected _ w := w;
  block_disconnected _ w := w
}.

(** Block [7] is valid: the chain moves to it.  If block [6] below it is not, the chain
    goes back to [5]. *)
Lemma ActivateBestChain_settles_witness :
  (exists s' w', ActivateBestChain None example_state {| invalid_blocks := [] |} = Ok (s', w', true) /\
     chainActive s' = map Some [0; 1; 2; 3; 6; 7]%nat) /\
  (exists s' w', ActivateBestChain None example_state {| invalid_blocks := [6%nat] |} = Ok (s', w', true) /\
     chainActive s' = example_chain) /\
  exists s' w' ok, ActivateBestChain None example_state {| invalid_blocks := [6%nat] |} = Ok (s', w', ok) /\ state_ok s'.
Proof.
  split; [eexists _, _; split; vm_compute; reflexivity|]. split; [eexists _, _; split; vm_compute; reflexivity|].
  destruct (ActivateBestChain_settles None example_state {| invalid_blocks := [6%nat] |}) as (s' & w' & ok & E & O & _);
    [|exact example_state_ok|exists s', w', ok; split; [exact E|exact O]].
  intros s p loaded w w' m E. cbn in E. destruct (bool_decide _); discriminate E.
Defined.

(** The same node, but what it cannot read it reports as corrupt. *)
#[local] Instance corrupt_block_store : BlockStore unit := {
  connect_block _ _ _ w := (w, Invalid None true);
  disconnect_block _ _ w := (w, true);
  flush_state _ w := (w, true, true);
  block_connected _ w := w;
  block_disconnected _ w := w
}.

(** Blocks 0 to 5, of which 5 is not active yet. *)
Definition example_waiting : ChainState := {|
  tree := example_best_store; chainActive := map Some (seq 0 5); setBlockIndexCandidates := {[5%nat]};
  mapBlocksUnlinked := []; pindexBestInvalid := None; nBlockSequenceId := 2; setDirtyBlockIndex := ∅ |}.

Lemma corrupt_block_never_ends_witness : state_ok example_waiting /\
  forall fuel, activate_loop fuel None example_waiting tt = Err OutOfFuel.
Proof.
  assert (O : state_ok example_waiting) by (apply state_check_ok; vm_compute; reflexivity). split; [exact O|]. intros fuel.
  apply (corrupt_block_never_ends example_waiting tt 5%nat 4%nat None fuel O); [vm_compute; reflexivity..|reflexivity].
Defined.
