(* ===== verification/Kernel.v ===== *)
(** Proof of stake (kernel.h, kernel.cpp): the stake modifier, which each block inherits
    from the blocks before it, the modifier for a kernel, and the test of a kernel's hash.

    Blocks are those of Chain.v.  [mapBlockIndex] gives the index entry of a hash.  The
    block files and the transaction index are read by functions that are parameters.  The
    active chain does not change while a function runs, and the output for
    [-printstakemodifier] is left out. *)

From stdpp Require Import gmap sorting.
From S2P Require Import Prelude Uint256 Arith256 Params Serialize Hashes Chain Script Transaction Pubkey Interp Sighash Validation.

#[local] Abbreviation length := Datatypes.length.

Definition MODIFIER_INTERVAL : Z := 60.
Definition MODIFIER_INTERVAL_TESTNET : Z := 60.
Definition MODIFIER_INTERVAL_RATIO : Z := 3.
Definition nStakeMinAge : Z := 60 * 60.
Definition fTestNet : bool := false.

Definition getIntervalVersion (testnet : bool) : Z := if testnet then MODIFIER_INTERVAL_TESTNET else MODIFIER_INTERVAL.

Definition GetWeight (nIntervalBeginning nIntervalEnd : Z) : Z := s64 (nIntervalEnd - nIntervalBeginning - nStakeMinAge).

(** [63 / (63 + ...)] in unsigned arithmetic. *)
Definition GetStakeModifierSelectionIntervalSection (nSection : Z) : Z :=
  u32 (getIntervalVersion fTestNet * 63) / (63 + (63 - nSection) * (MODIFIER_INTERVAL_RATIO - 1)).

Definition GetStakeModifierSelectionInterval : Z :=
  foldl (fun n i => n + GetStakeModifierSelectionIntervalSection (Z.of_nat i)) 0 (seq 0 64).

(** Ways a function ends without a value: [return error(...)], a null pointer that is
    followed, or a loop without end. *)
Inductive kernel_error := ReturnsFalse | NullPointer | OutOfFuel.

Section Kernel.
Context (ps : CChainParams) (hashes : sph) (literal_address : Z) (mapBlockIndex : gmap uint256 ptr) (st : store) (chainActive : chain).

Local Open Scope result_scope.

Definition hash_of_block (p : ptr) : uint256 := phashBlock (deref st p).
Definition time_of (p : ptr) : Z := Chain.GetBlockTime (deref st p).
Definition generated (p : ptr) : bool := GeneratedStakeModifier (deref st p).

(** * The modifier of the next block *)

Fixpoint last_generated (fuel : nat) (pindex : ptr) : result kernel_error ptr :=
  match pprev_of st pindex with
  | None => Ok pindex
  | Some q =>
      if generated pindex then Ok pindex
      else match fuel with O => Err OutOfFuel | S fuel => last_generated fuel q end
  end.

Definition GetLastStakeModifier (pindex : option ptr) : result kernel_error (Z * Z) :=
  match pindex with
  | None => Err ReturnsFalse
  | Some p =>
      p <-! last_generated (Z.to_nat (height_of st p)) p ;;
      if negb (generated p) then Err ReturnsFalse else Ok (nStakeModifier (deref st p), time_of p)
  end.

(** The blocks back to the start of the selection interval, nearest first, and the block
    at which the walk has stopped. *)
Fixpoint candidate_walk (fuel : nat) (start : Z) (pindex : option ptr) : result kernel_error (list ptr) :=
  match pindex with
  | None => Ok []
  | Some p =>
      if time_of p <? start then Ok []
      else
        match fuel with
        | O => Err OutOfFuel
        | S fuel => l <-! candidate_walk fuel start (pprev_of st p) ;; Ok (p :: l)
        end
  end.

(** The order of [pair<int64_t, uint256>]. *)
Definition stamp_le (a b : Z * uint256) : Prop := a.1 < b.1 \/ (a.1 = b.1 /\ lt b.2 a.2 = false).
#[export] Instance stamp_le_dec : RelDecision stamp_le.
Proof. intros a b. unfold stamp_le. apply _. Defined.

Definition sorted_candidates (l : list ptr) : list (Z * uint256) :=
  merge_sort stamp_le (rev (map (fun p => (time_of p, hash_of_block p)) l)).

Definition selection_hash (fModifierV2 : bool) (nStakeModifierPrev : Z) (p : ptr) : uint256 :=
  let hashProof := if fModifierV2 then hash_of_block p
                   else if IsProofOfStake (deref st p) then zero W256 else hash_of_block p in
  let hashSelection := Hash (to_bytes hashProof ++ le_bytes 8 nStakeModifierPrev) in
  if IsProofOfStake (deref st p) then shr W256 hashSelection 32 else hashSelection.

(** The loop of [SelectBlockFromCandidates]: [v2] is unknown before the first turn; [best]
    is [hashBest] with the block when something is selected. *)
Fixpoint select_loop (selected : gset uint256) (stop prev : Z) (v2 : option bool) (best : option (uint256 * ptr)) (l : list (Z * uint256))
  : result kernel_error (option (uint256 * ptr)) :=
  match l with
  | [] => Ok best
  | (_, h) :: l =>
      match mapBlockIndex !! h with
      | None => Err ReturnsFalse
      | Some p =>
          if match best with Some _ => stop <? time_of p | None => false end then Ok best
          else
            let v2 := default (ModifierUpgradeBlock ps <=? height_of st p) v2 in
            if bool_decide (hash_of_block p ∈ selected) then select_loop selected stop prev (Some v2) best l
            else
              let hashSelection := selection_hash v2 prev p in
              let best :=
                match best with
                | Some (hashBest, _) => if lt hashSelection hashBest then Some (hashSelection, p) else best
                | None => Some (hashSelection, p)
                end in
              select_loop selected stop prev (Some v2) best l
      end
  end.

(** [None] for the result false. *)
Definition SelectBlockFromCandidates (l : list (Z * uint256)) (selected : gset uint256) (stop prev : Z) : option ptr :=
  match select_loop selected stop prev None None l with Ok (Some (_, p)) => Some p | _ => None end.

(** The rounds; [None] when no block can be selected. *)
Fixpoint select_rounds (rounds : nat) (nRound : nat) (l : list (Z * uint256)) (prev stop : Z) (selected : gset uint256) (nStakeModifierNew : Z)
  : option Z :=
  match rounds with
  | O => Some nStakeModifierNew
  | S rounds =>
      let stop := stop + GetStakeModifierSelectionIntervalSection (Z.of_nat nRound) in
      p ← SelectBlockFromCandidates l selected stop prev;
      select_rounds rounds (S nRound) l prev stop ({[hash_of_block p]} ∪ selected)
        (Z.lor nStakeModifierNew (Z.shiftl (GetStakeEntropyBit (deref st p)) (Z.of_nat nRound)))
  end.

(** The result with [nStakeModifier] and [fGeneratedStakeModifier], which the caller uses
    also when the result is false. *)
Definition ComputeNextStakeModifier (pindexPrev : option ptr) : result kernel_error (bool * Z * bool) :=
  match pindexPrev with
  | None => Ok (true, 0, true)
  | Some prev =>
      if height_of st prev =? 0 then Ok (true, u64 literal_address, true)
      else
        match GetLastStakeModifier (Some prev) with
        | Err ReturnsFalse => Ok (false, 0, false)
        | Err e => Err e
        | Ok (nStakeModifier, nModifierTime) =>
            let interval := getIntervalVersion fTestNet in
            if Z.quot (time_of prev) interval <=? Z.quot nModifierTime interval then Ok (true, nStakeModifier, false)
            else
              let start := Z.quot (time_of prev) interval * interval - GetStakeModifierSelectionInterval in
              l <-! candidate_walk (S (Z.to_nat (height_of st prev))) start (Some prev) ;;
              let v := sorted_candidates l in
              match select_rounds (Nat.min 64 (length v)) 0 v nStakeModifier start ∅ 0 with
              | None => Ok (false, nStakeModifier, false)
              | Some new => Ok (true, new, true)
              end
        end
  end.

(** * The modifier for a kernel *)

(** The loop of [GetKernelStakeModifier]; [None] is the result false. *)
Fixpoint kernel_loop (fuel : nat) (target nStakeModifierTime : Z) (pindex : ptr) (pindexNext : option ptr) : result kernel_error (option ptr) :=
  if nStakeModifierTime <? target then
    match pindexNext, fuel with
    | None, _ => Ok None
    | _, O => Err OutOfFuel
    | Some n, S fuel =>
        kernel_loop fuel target (if generated n then time_of n else nStakeModifierTime) n (chain_at chainActive (height_of st n + 1))
    end
  else Ok (Some pindex).

Definition GetKernelStakeModifier (hashBlockFrom : uint256) : result kernel_error (option Z) :=
  match mapBlockIndex !! hashBlockFrom with
  | None => Ok None
  | Some from =>
      r <-! kernel_loop (length chainActive) (time_of from + GetStakeModifierSelectionInterval) (time_of from) from
              (chain_at chainActive (height_of st from + 1)) ;;
      Ok ((fun p => nStakeModifier (deref st p)) <$> r)
  end.

(** * The kernel's hash *)

Definition stakeHash (nTimeTx nStakeModifier prevoutIndex : Z) (prevoutHash : uint256) (nTimeBlockFrom : Z) : uint256 :=
  Hash (le_bytes 8 nStakeModifier ++ le_bytes 4 nTimeBlockFrom ++ le_bytes 4 prevoutIndex ++ to_bytes prevoutHash ++ le_bytes 4 nTimeTx).

(** [None] for the division error, which does not happen. *)
Definition stakeTargetHit (hashProofOfStake : uint256) (nValueIn : Z) (bnTargetPerCoinDay : uint256) : option bool :=
  bnCoinDayWeight ← div W256 (u256 (u64 nValueIn)) (u256 100);
  Some (lt hashProofOfStake (mul W256 bnCoinDayWeight bnTargetPerCoinDay)).

(** The search of a staking wallet, from [i] on: the time found and the last hash. *)
Fixpoint stake_search (k : nat) (i : Z) (nTimeTx nHashDrift nStakeModifier : Z) (prevout : COutPoint) (nTimeBlockFrom nValueIn : Z) (target hashProof : uint256)
  : option (option Z * uint256) :=
  match k with
  | O => Some (None, hashProof)
  | S k =>
      let nTryTime := u32 (nTimeTx + nHashDrift - i) in
      let hashProof := stakeHash nTryTime nStakeModifier (out_n prevout) (out_hash prevout) nTimeBlockFrom in
      hit ← stakeTargetHit hashProof nValueIn target;
      if hit : bool then Some (Some nTryTime, hashProof)
      else stake_search k (i + 1) nTimeTx nHashDrift nStakeModifier prevout nTimeBlockFrom nValueIn target hashProof
  end.

(** The result, [nTimeTx] and [hashProofOfStake]; [NullPointer] also for an output that
    does not exist. *)
Definition CheckStakeKernelHash (nBits : Z) (blockFrom : CBlock) (txPrev : CTransaction) (prevout : COutPoint) (nTimeTx nHashDrift : Z) (fCheck : bool)
    (hashProofOfStake : uint256) : result kernel_error (bool * Z * uint256) :=
  match vout txPrev !! Z.to_nat (out_n prevout) with
  | None => Err NullPointer
  | Some o =>
      let nValueIn := nValue o in
      let nTimeBlockFrom := bh_nTime (header blockFrom) in
      if nTimeTx <? nTimeBlockFrom then Ok (false, nTimeTx, hashProofOfStake)
      else
        let bnTargetPerCoinDay := FromCompact nBits in
        m <-! GetKernelStakeModifier (header_GetHash hashes (header blockFrom)) ;;
        match m with
        | None => Ok (false, nTimeTx, hashProofOfStake)
        | Some nStakeModifier =>
            if fCheck then
              let hashProof := stakeHash nTimeTx nStakeModifier (out_n prevout) (out_hash prevout) nTimeBlockFrom in
              match stakeTargetHit hashProof nValueIn bnTargetPerCoinDay with
              | None => Err ReturnsFalse
              | Some hit => Ok (hit, nTimeTx, hashProof)
              end
            else
              match stake_search (Z.to_nat nHashDrift) 0 nTimeTx nHashDrift nStakeModifier prevout nTimeBlockFrom nValueIn bnTargetPerCoinDay hashProofOfStake,
                    Tip chainActive with
              | None, _ => Err ReturnsFalse
              | Some _, None => Err NullPointer
              | Some (Some t, h), Some _ => Ok (true, t, h)
              | Some (None, h), Some _ => Ok (false, nTimeTx, h)
              end
        end
  end.

(** * The proof of a block *)

(** [GetTransaction(hash, txPrev, hashBlock, true)], and the block at a position of the
    block files. *)
Context (lib : secp256k1) (get_transaction : uint256 -> option (CTransaction * uint256)) (read_block : CDiskBlockPos -> option CBlock).

(** The hash of the proof when it holds. *)
Definition CheckProofOfStake (block : CBlock) : result kernel_error uint256 :=
  match vtx block !! 1%nat with
  | None => Err NullPointer
  | Some tx =>
      if negb (IsCoinStake tx) then Err ReturnsFalse
      else
        match vin tx !! 0%nat with
        | None => Err NullPointer
        | Some txin =>
            match get_transaction (out_hash (prevout txin)) with
            | None => Err ReturnsFalse
            | Some (txPrev, hashBlock) =>
                match vout txPrev !! Z.to_nat (out_n (prevout txin)) with
                | None => Err NullPointer
                | Some o =>
                    if negb (is_ok (VerifyInput lib STANDARD_SCRIPT_VERIFY_FLAGS tx 0 (scriptPubKey o))) then Err ReturnsFalse
                    else
                      match mapBlockIndex !! hashBlock with
                      | None => Err ReturnsFalse
                      | Some pindex =>
                          match read_block (GetBlockPos (deref st pindex)) with
                          | None => Err ReturnsFalse
                          | Some blockprev =>
                              r <-! CheckStakeKernelHash (bh_nBits (header block)) blockprev txPrev (prevout txin) (bh_nTime (header block)) 0 true (zero W256) ;;
                              let '(ok, _, hashProofOfStake) := r in
                              if negb (ok : bool) then Err ReturnsFalse else Ok hashProofOfStake
                          end
                      end
                end
            end
        end
  end.

Definition CheckCoinStakeTimestamp (nTimeBlock nTimeTx : Z) : bool := nTimeBlock =? nTimeTx.

(** * Checksums of the modifiers *)

(** [NullPointer] for the failed assertion. *)
Definition GetStakeModifierChecksum (HashGenesisBlock : uint256) (b : CBlockIndex) : result kernel_error Z :=
  first <-! match pprev b with
            | None => if eq (phashBlock b) HashGenesisBlock then Ok [] else Err NullPointer
            | Some q => Ok (le_bytes 4 (nStakeModifierChecksum (deref st q)))
            end ;;
  let hashChecksum := Hash (first ++ le_bytes 4 (nFlags b) ++ to_bytes (hashProofOfStake b) ++ le_bytes 8 (nStakeModifier b)) in
  Ok (u32 (Get64 (shr W256 hashChecksum (256 - 32)) 0)).

(** The only checkpoint is at height 0. *)
Definition CheckStakeModifierCheckpoints (nHeight nStakeModifierChecksum : Z) : bool :=
  if fTestNet then true
  else if nHeight =? 0 then nStakeModifierChecksum =? 0xfd11f4e7
  else true.
End Kernel.

(** * The modifier for a kernel is the first one an interval after its source *)

Section KernelModifier.
Context (mapBlockIndex : gmap uint256 ptr) (st : store) (chainActive : chain) (Hst : wf_store st) (Hc : wf_chain st chainActive).

(** Block [p] of the active chain, above height [h], has generated a modifier at
    [target] or later. *)
Definition supplies (target h : Z) (p : ptr) : Prop :=
  h < height_of st p /\ chain_at chainActive (height_of st p) = Some p /\
  generated st p = true /\ target <= time_of st p.

Definition first_supply (target h : Z) (r : option ptr) : Prop :=
  match r with
  | Some p => supplies target h p /\ forall q, supplies target h q -> height_of st p <= height_of st q
  | None => forall q, ~ supplies target h q
  end.

Lemma chain_at_height h p : chain_at chainActive h = Some p -> height_of st p = h /\ h < Z.of_nat (length chainActive).
Proof using Hc.
  unfold chain_at. destruct (Z.ltb_spec h 0); [done|]. destruct (Z.leb_spec (Z.of_nat (length chainActive)) h); [done|]. simpl.
  destruct (chainActive !! Z.to_nat h) as [x|] eqn:E; [|done].
  destruct (Hc _ _ E) as (q & -> & _ & Eh & _). intros [= ->]. split; [lia|done].
Qed.

(** Below a gap of the chain there is nothing more. *)
Lemma chain_at_end h h' : 0 <= h <= h' -> chain_at chainActive h = None -> chain_at chainActive h' = None.
Proof using Hc.
  unfold chain_at. intros Hh. destruct (Z.ltb_spec h 0); [lia|]. destruct (Z.ltb_spec h' 0); [lia|]. simpl.
  destruct (Z.leb_spec (Z.of_nat (length chainActive)) h); destruct (Z.leb_spec (Z.of_nat (length chainActive)) h'); try done; [lia|].
  destruct (chainActive !! Z.to_nat h) as [x|] eqn:E.
  - destruct (Hc _ _ E) as (q & -> & _). done.
  - apply lookup_ge_None_1 in E. lia.
Qed.

Lemma first_supply_skip target h r n :
  chain_at chainActive (h + 1) = Some n -> ~ supplies target h n -> first_supply target (h + 1) r -> first_supply target h r.
Proof using Hc.
  intros En Hn. destruct (chain_at_height _ _ En) as [Eh _].
  assert (Hs : forall q, supplies target h q -> supplies target (h + 1) q).
  { intros q Hq. pose proof Hq as (H1 & H2 & H3 & H4). split_and!; auto.
    destruct (decide (height_of st q = h + 1)) as [E|]; [|lia]. rewrite E, En in H2. injection H2 as ->. done. }
  destruct r as [p|]; simpl.
  - intros [(H1 & H2) Hm]. split; [split; [lia|done]|]. intros q Hq. auto.
  - intros H q Hq. exact (H q (Hs q Hq)).
Qed.

Lemma kernel_loop_done fuel target t pindex next : target <= t -> kernel_loop st chainActive fuel target t pindex next = Ok (Some pindex).
Proof using. intros H. destruct fuel; simpl; by rewrite (proj2 (Z.ltb_ge t target)). Qed.

Lemma kernel_loop_spec fuel target h t pindex :
  0 <= h + 1 -> t < target -> Z.of_nat (length chainActive) - (h + 1) <= Z.of_nat fuel ->
  exists r, kernel_loop st chainActive fuel target t pindex (chain_at chainActive (h + 1)) = Ok r /\ first_supply target h r.
Proof using Hc.
  revert h t pindex. induction fuel as [|fuel IH]; intros h t pindex Hh Ht Hf; cbn [kernel_loop]; rewrite (proj2 (Z.ltb_lt t target)) by done;
    destruct (chain_at chainActive (h + 1)) as [n|] eqn:En.
  1: destruct (chain_at_height _ _ En); lia.
  1,3: exists None; split; [done|]; intros q (H1 & H2 & _); rewrite (chain_at_end (h + 1)) in H2; [done|lia|done].
  destruct (chain_at_height _ _ En) as [Eh _].
  assert (Hskip : ~ supplies target h n -> forall t', t' < target ->
    exists r, kernel_loop st chainActive fuel target t' n (chain_at chainActive (height_of st n + 1)) = Ok r /\ first_supply target h r).
  { intros Hn t' Ht'. rewrite Eh. destruct (IH (h + 1) t' n) as (r & Er & Hr); [lia|done|lia|]. exists r. split; [done|].
    by apply (first_supply_skip target h r n). }
  destruct (generated st n) eqn:Eg; [|apply Hskip; [|done]; intros (_ & _ & H & _); congruence].
  destruct (Z.lt_ge_cases (time_of st n) target) as [Hlt|Hge]; [apply Hskip; [|done]; intros (_ & _ & _ & H); lia|].
  exists (Some n). rewrite kernel_loop_done by done. split; [done|]. split.
  - split_and!; [lia|by rewrite Eh|done|done].
  - intros q (H & _). lia.
Qed.

End KernelModifier.

Lemma GetStakeModifierSelectionInterval_value : GetStakeModifierSelectionInterval = 2087.
Proof. vm_compute. reflexivity. Qed.

(** On a well-formed active chain [GetKernelStakeModifier] ends.  For a source block
    that is not indexed it fails; otherwise it returns the modifier of the lowest block of
    the active chain above the source that has generated a modifier 2087 seconds or more
    after the source's time, and it fails exactly when there is no such block. *)
Theorem GetKernelStakeModifier_first mapBlockIndex st chainActive hashBlockFrom :
  wf_store st -> wf_chain st chainActive ->
  (forall p, mapBlockIndex !! hashBlockFrom = Some p -> is_Some (st !! p)) ->
  match mapBlockIndex !! hashBlockFrom with
  | None => GetKernelStakeModifier mapBlockIndex st chainActive hashBlockFrom = Ok None
  | Some from =>
      exists r, GetKernelStakeModifier mapBlockIndex st chainActive hashBlockFrom = Ok ((fun p => nStakeModifier (deref st p)) <$> r) /\
        first_supply st chainActive (time_of st from + 2087) (height_of st from) r
  end.
Proof.
  intros Hst Hc Hm. unfold GetKernelStakeModifier. destruct (mapBlockIndex !! hashBlockFrom) as [from|]; [|done].
  pose proof (height_nonneg st Hst from (Hm from eq_refl)). rewrite GetStakeModifierSelectionInterval_value.
  destruct (kernel_loop_spec st chainActive Hc (length chainActive) (time_of st from + 2087) (height_of st from) (time_of st from) from)
    as (r & -> & Hr); [lia|lia|lia|]. by exists r.
Qed.

Lemma GetKernelStakeModifier_total mapBlockIndex st chainActive hashBlockFrom :
  wf_store st -> wf_chain st chainActive ->
  (forall p, mapBlockIndex !! hashBlockFrom = Some p -> is_Some (st !! p)) ->
  exists r, GetKernelStakeModifier mapBlockIndex st chainActive hashBlockFrom = Ok r.
Proof.
  intros Hst Hc Hm. unfold GetKernelStakeModifier. destruct (mapBlockIndex !! hashBlockFrom) as [from|]; [|by exists None].
  pose proof (height_nonneg st Hst from (Hm from eq_refl)). rewrite GetStakeModifierSelectionInterval_value.
  destruct (kernel_loop_spec st chainActive Hc (length chainActive) (time_of st from + 2087) (height_of st from) (time_of st from) from)
    as (r & -> & Hr); [lia|lia|lia|]. by eexists.
Qed.

(** A chain of five blocks, one every 1000 seconds; those at even heights have generated
    a modifier, and every second block is a proof of stake. *)
Definition staking_block (st : store) (pp : option ptr) (i : nat) : CBlockIndex :=
  let b := Chain.example_block st pp (100 + Z.of_nat i) (1000 * Z.of_nat i) in
  {| Chain.phashBlock := phashBlock b; Chain.pprev := pp; Chain.pnext := None; Chain.pskip := pskip b;
     Chain.bnChainTrust := zero W256; Chain.nHeight := nHeight b; Chain.nFile := 0; Chain.nDataPos := 0; Chain.nUndoPos := 0;
     Chain.nChainWork := zero W256; Chain.nTx := 0; Chain.nChainTx := 0; Chain.nStatus := 0;
     Chain.nFlags := Z.lor (if Nat.even i then BLOCK_STAKE_MODIFIER else 0) (if Nat.odd i then BLOCK_PROOF_OF_STAKE else 0);
     Chain.nStakeModifier := 7 * Z.of_nat i;
     Chain.nStakeModifierChecksum := 0; Chain.prevoutStake := Chain.null_outpoint; Chain.nStakeTime := 0;
     Chain.hashProofOfStake := zero W256; Chain.nMint := 0; Chain.nMoneySupply := 0; Chain.nVersion := 3;
     Chain.hashMerkleRoot := zero W256; Chain.nTime := Chain.nTime b; Chain.nBits := 0; Chain.nNonce := 0; Chain.nSequenceId := 0 |}.

Definition staking_store : store :=
  fold_left (fun st i => <[i := staking_block st (if i is S j then Some j else None) i]> st) (seq 0 5) ∅.

Definition staking_index : gmap uint256 ptr := list_to_map (map (fun i => (u256 (100 + Z.of_nat i), i)) (seq 0 5)).
Definition staking_chain : chain := map Some (seq 0 5).

Lemma staking_store_wf : wf_store staking_store.
Proof. apply wf_store_map. apply (bool_decide_unpack _). vm_compute. exact I. Qed.

Lemma staking_chain_wf : wf_chain staking_store staking_chain.
Proof.
  intros i x Hi. exists i.
  do 5 (destruct i as [|i];
    [vm_compute in Hi; injection Hi as <-;
     split_and!; [done|vm_compute; eauto|done|by intros ?; vm_compute]|]).
  done.
Qed.

(** The source at height 1: the first modifier 2087 seconds later is that of height 4. *)
Lemma GetKernelStakeModifier_first_witness :
  wf_store staking_store /\ wf_chain staking_store staking_chain /\
  GetKernelStakeModifier staking_index staking_store staking_chain (u256 101) = Ok (Some 28) /\
  exists r, GetKernelStakeModifier staking_index staking_store staking_chain (u256 101) = Ok ((fun p => nStakeModifier (deref staking_store p)) <$> r) /\
    first_supply staking_store staking_chain (1000 + 2087) 1 r.
Proof.
  split_and!; [apply staking_store_wf|apply staking_chain_wf|vm_compute; reflexivity|].
  apply (GetKernelStakeModifier_first staking_index staking_store staking_chain (u256 101) staking_store_wf staking_chain_wf).
  intros p Hp. apply Some_inj in Hp. subst p. vm_compute. eauto.
Defined.

(** * The selection of blocks for a new modifier *)

Section Selection.
Context (ps : CChainParams) (mapBlockIndex : gmap uint256 ptr) (st : store) (stop prev : Z) (selected : gset uint256).

(** Entry [e] of the candidates is block [p] of the index, with its time. *)
Definition entry_of (e : Z * uint256) (p : ptr) : Prop :=
  mapBlockIndex !! e.2 = Some p /\ hash_of_block st p = e.2 /\ time_of st p = e.1.

(** The version of the modifier is decided by the first candidate. *)
Definition version_of (blocks : list ptr) : bool :=
  match blocks with [] => false | p :: _ => ModifierUpgradeBlock ps <=? height_of st p end.

Definition eligible (p : ptr) : Prop := hash_of_block st p ∉ selected.
#[local] Instance eligible_dec p : Decision (eligible p).
Proof. unfold eligible. apply _. Defined.

Definition sel_hash (v2 : bool) (p : ptr) : uint256 := selection_hash st v2 prev p.

(** What a choice among [blocks] promises: it is not selected yet, it lies in the round's
    interval unless no eligible block before it does, and no eligible block of the
    interval has a smaller selection hash. *)
Record best_choice (v2 : bool) (blocks : list ptr) (p : ptr) : Prop := {
  choice_in : p ∈ blocks;
  choice_eligible : eligible p;
  choice_interval : time_of st p <= stop \/ exists before after, blocks = before ++ p :: after /\ Forall (fun q => ~ eligible q) before;
  choice_least : forall q, q ∈ blocks -> eligible q -> time_of st q <= stop -> val (sel_hash v2 p) <= val (sel_hash v2 q) }.

Definition least_of (v2 : bool) (done : list ptr) (best : option (uint256 * ptr)) : Prop :=
  match best with
  | None => Forall (fun q => ~ eligible q) done
  | Some (h, p) => h = sel_hash v2 p /\ best_choice v2 done p
  end.

Lemma sel_hash_wf v2 p : wf256 (sel_hash v2 p).
Proof using. unfold sel_hash, selection_hash. destruct (IsProofOfStake _); [apply wf_shr|]; apply Hash_wf. Qed.

Lemma best_choice_extend v2 l p q :
  best_choice v2 l p -> (eligible q -> time_of st q <= stop -> val (sel_hash v2 p) <= val (sel_hash v2 q)) -> best_choice v2 (l ++ [q]) p.
Proof using.
  intros [H1 H2 H3 H4] Hq. split; [apply elem_of_app; by left|done| |].
  - destruct H3 as [|(before & after & -> & Hb)]; [by left|right]. exists before, (after ++ [q]). by rewrite <- app_assoc.
  - intros r Hr. apply elem_of_app in Hr as [Hr|Hr]; [by apply H4|]. apply list_elem_of_singleton in Hr. by subst r.
Qed.

Lemma least_of_skip v2 l best q : least_of v2 l best -> ~ eligible q -> least_of v2 (l ++ [q]) best.
Proof using.
  destruct best as [[h p]|]; simpl; [intros [H1 H2] Hq; split; [done|]; by apply best_choice_extend|].
  intros H Hq. apply Forall_app. split; [done|]. by constructor.
Qed.

(** One candidate within the interval, or the first one that is eligible. *)
Lemma least_of_step v2 l best q :
  least_of v2 l best -> eligible q -> (best <> None -> time_of st q <= stop) ->
  least_of v2 (l ++ [q])
    match best with
    | Some (hashBest, _) => if lt (sel_hash v2 q) hashBest then Some (sel_hash v2 q, q) else best
    | None => Some (sel_hash v2 q, q)
    end.
Proof using.
  intros Hb Hq Hs. assert (Hin : q ∈ l ++ [q]) by (apply elem_of_app; right; by apply list_elem_of_singleton).
  destruct best as [[h p]|].
  - destruct Hb as [-> Hp]. specialize (Hs ltac:(done)). rewrite (lt_spec W256) by apply sel_hash_wf.
    destruct (Z.ltb_spec (val (sel_hash v2 q)) (val (sel_hash v2 p))) as [Hlt|Hge].
    + split; [done|]. split; [done|done|by left|]. intros r Hr Er Tr. apply elem_of_app in Hr as [Hr|Hr].
      * pose proof (choice_least _ _ _ Hp r Hr Er Tr). lia.
      * apply list_elem_of_singleton in Hr. subst r. lia.
    + split; [done|]. by apply best_choice_extend.
  - split; [done|]. simpl in Hb. split; [done|done|right; by exists l, []|].
    intros r Hr Er _. apply elem_of_app in Hr as [Hr|Hr].
    + rewrite Forall_forall in Hb. destruct (Hb r Hr Er).
    + apply list_elem_of_singleton in Hr. by subst r.
Qed.

Definition by_time (p q : ptr) : Prop := time_of st p <= time_of st q.

Lemma least_of_late v2 done h p rest :
  least_of v2 done (Some (h, p)) -> Forall (fun q => stop < time_of st q) rest -> least_of v2 (done ++ rest) (Some (h, p)).
Proof using.
  intros [H1 H2] Hr. split; [done|]. revert done H2. induction Hr as [|q rest Hq _ IH]; intros done H2; [by rewrite app_nil_r|].
  replace (done ++ q :: rest) with ((done ++ [q]) ++ rest) by by rewrite <- app_assoc.
  apply IH. apply best_choice_extend; [done|]. lia.
Qed.

Lemma select_loop_spec l blocks : Forall2 entry_of l blocks -> StronglySorted by_time blocks ->
  forall done best v2,
  v2 = (if done is [] then None else Some (version_of (done ++ blocks))) ->
  least_of (version_of (done ++ blocks)) done best ->
  exists best', select_loop ps mapBlockIndex st selected stop prev v2 best l = Ok best' /\ least_of (version_of (done ++ blocks)) (done ++ blocks) best'.
Proof using.
  induction 1 as [|[t h] p l blocks (Em & Eh & Et) _ IH]; intros Hs done best v2 Ev Hb; cbn [select_loop].
  { exists best. by rewrite app_nil_r in *. }
  cbn [fst snd] in Em, Eh, Et. rewrite Em. apply StronglySorted_inv in Hs as [Hs Hp].
  destruct (match best with Some _ => stop <? time_of st p | None => false end) eqn:Elate.
  { destruct best as [[hb b]|]; [|done]. apply Z.ltb_lt in Elate. exists (Some (hb, b)). split; [done|].
    apply least_of_late; [done|]. constructor; [done|]. apply (Forall_impl _ _ _ Hp). unfold by_time. intros q Hq. lia. }
  assert (Edef : default (ModifierUpgradeBlock ps <=? height_of st p) v2 = version_of (done ++ p :: blocks)).
  { rewrite Ev. by destruct done. }
  rewrite Edef. replace (done ++ p :: blocks) with ((done ++ [p]) ++ blocks) in * by by rewrite <- app_assoc.
  assert (Ev2 : Some (version_of ((done ++ [p]) ++ blocks)) = (if done ++ [p] is [] then None else Some (version_of ((done ++ [p]) ++ blocks)))).
  { by destruct done. }
  destruct (decide (hash_of_block st p ∈ selected)) as [Hin|Hout].
  - rewrite (bool_decide_eq_true_2 _ Hin). apply (IH Hs (done ++ [p]) best _ Ev2). apply least_of_skip; [done|]. intros He. by apply He.
  - rewrite (bool_decide_eq_false_2 _ Hout). apply (IH Hs (done ++ [p]) _ _ Ev2). apply least_of_step; [done|done|].
    intros Hn. destruct best as [[hb b]|]; [|done]. by apply Z.ltb_ge in Elate.
Qed.
End Selection.

(** Among candidates in order of their times, [SelectBlockFromCandidates] fails exactly
    when all blocks are selected already; otherwise it returns a block that is not
    selected and lies in the round's interval, unless no block that is not selected comes
    before it, and whose selection hash is the least of the interval. *)
Lemma SelectBlockFromCandidates_spec ps mapBlockIndex st l blocks selected stop prev :
  Forall2 (entry_of mapBlockIndex st) l blocks -> StronglySorted (by_time st) blocks ->
  match SelectBlockFromCandidates ps mapBlockIndex st l selected stop prev with
  | None => forall p, p ∈ blocks -> hash_of_block st p ∈ selected
  | Some p => best_choice st stop prev selected (version_of ps st blocks) blocks p
  end.
Proof.
  intros Hl Hs. destruct (select_loop_spec ps mapBlockIndex st stop prev selected l blocks Hl Hs [] None None eq_refl) as (best & Eb & Hb); [constructor|].
  unfold SelectBlockFromCandidates. rewrite Eb. destruct best as [[h p]|]; [apply Hb|].
  intros p Hp. simpl in Hb. rewrite Forall_forall in Hb. destruct (decide (hash_of_block st p ∈ selected)) as [|Hn]; [done|]. by destruct (Hb p Hp).
Qed.

(** * The modifier of the next block *)

Section NextModifier.
Context (ps : CChainParams) (literal_address : Z) (mapBlockIndex : gmap uint256 ptr) (st : store) (Hst : wf_store st).

(** The index finds every block of the tree under its hash. *)
Definition indexed : Prop := forall p, is_Some (st !! p) -> mapBlockIndex !! hash_of_block st p = Some p.

(** [p] is the nearest block, from [q] back, that has generated a modifier. *)
Definition last_generator (q p : ptr) : Prop :=
  exists k, anc st k q = Some p /\ generated st p = true /\
    forall j r, (j < k)%nat -> anc st j q = Some r -> generated st r = false.

Lemma last_generated_spec fuel q :
  is_Some (st !! q) -> height_of st q <= Z.of_nat fuel ->
  exists p, last_generated st fuel q = Ok p /\
    (last_generator q p \/ generated st p = false /\ height_of st p = 0).
Proof using Hst.
  revert q. induction fuel as [|fuel IH]; intros q Hq Hf; pose proof (height_nonneg st Hst q Hq) as H0.
  all: destruct (decide (height_of st q = 0)) as [E0|E0]; [|try lia].
  1,2: exists q; cbn [last_generated]; rewrite (parent_none st Hst q Hq E0); split; [done|];
    destruct (generated st q) eqn:Eg; [left; exists O; split_and!; [done|done|lia]|by right].
  destruct (parent_valid st Hst q Hq ltac:(lia)) as (r & Er & Hr & Ehr). cbn [last_generated]. rewrite Er.
  destruct (generated st q) eqn:Eg; [exists q; split; [done|]; left; exists O; split_and!; [done|done|lia]|].
  destruct (IH r Hr ltac:(lia)) as (p & -> & Hp). exists p. split; [done|]. destruct Hp as [(k & Ek & Hg & Hj)|]; [left|by right].
  exists (S k). split_and!; [cbn [anc]; by rewrite Er|done|]. intros [|j] x Hjk; cbn [anc].
  - by intros [= <-].
  - rewrite Er. simpl. apply Hj. lia.
Qed.

Lemma last_generated_valid fuel q p :
  is_Some (st !! q) -> height_of st q <= Z.of_nat fuel -> last_generated st fuel q = Ok p -> is_Some (st !! p).
Proof using Hst.
  revert q. induction fuel as [|fuel IH]; intros q Hq Hf; pose proof (height_nonneg st Hst q Hq) as H0; cbn [last_generated];
    destruct (pprev_of st q) as [r|] eqn:Er; try destruct (generated st q); intros E; try (by apply Ok_inj in E; subst p); [done|].
  destruct (decide (height_of st q = 0)) as [E0|E0]; [by rewrite (parent_none st Hst q Hq E0) in Er|].
  destruct (parent_valid st Hst q Hq ltac:(lia)) as (r' & Er' & Hr & Ehr). rewrite Er in Er'. injection Er' as <-.
  apply (IH r Hr); [lia|done].
Qed.

(** The blocks of the selection interval, nearest first. *)
Definition window (start : Z) (q : ptr) (l : list ptr) : Prop :=
  forall i p, l !! i = Some p <-> anc st i q = Some p /\ forall j r, (j <= i)%nat -> anc st j q = Some r -> start <= time_of st r.

Lemma window_nil start q : time_of st q < start -> window start q [].
Proof using. intros Ht i p. split; [done|]. intros [_ H]. specialize (H 0%nat q ltac:(lia) eq_refl). lia. Qed.

Lemma window_cons start q l :
  start <= time_of st q -> match pprev_of st q with Some r => window start r l | None => l = [] end -> window start q (q :: l).
Proof using.
  intros Ht Hl [|i] p; cbn [lookup list_lookup anc].
  - split; [intros [= <-]; split; [done|]|by intros [H _]]. intros j r Hj. replace j with 0%nat by lia. by intros [= <-].
  - destruct (pprev_of st q) as [r|] eqn:Er; simpl; [|subst l; split; [done|by intros [? _]]].
    rewrite (Hl i p). split; intros [H1 H2]; (split; [done|]).
    + intros [|j] x Hj; cbn [anc]; [by intros [= <-]|]. rewrite Er. simpl. apply H2. lia.
    + intros j x Hj Hx. apply (H2 (S j) x); [lia|]. cbn [anc]. by rewrite Er.
Qed.

Lemma candidate_walk_spec fuel start q :
  is_Some (st !! q) -> height_of st q < Z.of_nat fuel ->
  exists l, candidate_walk st fuel start (Some q) = Ok l /\ window start q l.
Proof using Hst.
  revert q. induction fuel as [|fuel IH]; intros q Hq Hf; pose proof (height_nonneg st Hst q Hq) as H0; [lia|].
  cbn [candidate_walk]. destruct (Z.ltb_spec (time_of st q) start); [exists []; split; [done|by apply window_nil]|].
  destruct (decide (height_of st q = 0)) as [E0|E0].
  - rewrite (parent_none st Hst q Hq E0). exists [q]. replace (candidate_walk st fuel start None) with (@Ok kernel_error _ (@nil ptr)) by by destruct fuel.
    split; [done|]. apply window_cons; [done|]. by rewrite (parent_none st Hst q Hq E0).
  - destruct (parent_valid st Hst q Hq ltac:(lia)) as (r & Er & Hr & Ehr). rewrite Er.
    destruct (IH r Hr ltac:(lia)) as (l & -> & Hl). exists (q :: l). split; [done|]. apply window_cons; [done|]. by rewrite Er.
Qed.

Lemma window_nodup start q l : is_Some (st !! q) -> window start q l -> NoDup l.
Proof using Hst.
  intros Hq Hl. apply NoDup_alt. intros i j p Hi Hj. apply Hl in Hi as [Hi _]. apply Hl in Hj as [Hj _].
  destruct (anc_height st Hst _ _ _ Hq Hi) as [_ Ei]. destruct (anc_height st Hst _ _ _ Hq Hj) as [_ Ej]. lia.
Qed.

Lemma window_valid start q l : is_Some (st !! q) -> window start q l -> Forall (fun p => is_Some (st !! p)) l.
Proof using Hst.
  intros Hq Hl. apply Forall_lookup. intros i p Hi. apply Hl in Hi as [Hi _]. exact (proj1 (anc_height st Hst _ _ _ Hq Hi)).
Qed.

End NextModifier.

Lemma cmp_loop_antisym ra rb : cmp_loop ra rb < 0 -> 0 < cmp_loop rb ra.
Proof.
  revert rb. induction ra as [|x ra IH]; intros [|y rb]; cbn [cmp_loop]; try lia.
  destruct (Z.ltb_spec x y), (Z.ltb_spec y x); try lia. apply IH.
Qed.

#[export] Instance stamp_le_total : Total stamp_le.
Proof.
  intros a b. unfold stamp_le. destruct (Z.lt_trichotomy a.1 b.1) as [H|[H|H]]; [by left; left| |by right; left].
  destruct (lt b.2 a.2) eqn:E; [right|left]; right; (split; [done|]); [|done].
  unfold lt, CompareTo in *. apply Z.ltb_lt in E. apply Z.ltb_ge. apply cmp_loop_antisym in E. lia.
Qed.

Definition stamp (st : store) (p : ptr) : Z * uint256 := (time_of st p, hash_of_block st p).

(** The candidates are the blocks of the window in order of their times. *)
Lemma sorted_candidates_spec mapBlockIndex st l :
  indexed mapBlockIndex st -> Forall (fun p => is_Some (st !! p)) l ->
  exists blocks, blocks ≡ₚ l /\ sorted_candidates st l = map (stamp st) blocks /\
    Forall2 (entry_of mapBlockIndex st) (sorted_candidates st l) blocks /\ StronglySorted (by_time st) blocks.
Proof.
  intros Hm Hl. unfold sorted_candidates. rewrite <- map_rev.
  change (fun p => (time_of st p, hash_of_block st p)) with (stamp st).
  pose proof (merge_sort_Permutation stamp_le (map (stamp st) (rev l))) as Hp.
  pose proof (Sorted_merge_sort stamp_le (map (stamp st) (rev l))) as Hs.
  destruct (Permutation_map_inv _ _ Hp) as (blocks & Eb & Hb). exists blocks. rewrite Eb in Hs |- *.
  assert (Hbl : blocks ≡ₚ l) by (rewrite <- Hb; symmetry; apply Permutation_rev).
  split_and!; [done|done| |].
  - rewrite <- Hbl in Hl. clear -Hl Hm. induction Hl as [|p blocks Hp _ IH]; constructor; [|done]. by split_and!; [apply Hm|..].
  - apply Sorted_StronglySorted; [unfold by_time; intros x y z; lia|]. clear -Hs.
    induction blocks as [|p blocks IH]; constructor; inversion Hs as [|a b H1 H2]; subst; [auto|].
    destruct blocks as [|q blocks]; constructor. inversion H2 as [|? ? H3]; subst. unfold by_time. destruct H3 as [H3|[H3 _]]; cbn [fst snd stamp] in H3; lia.
Qed.

(** Where the selection interval stands before round [n]. *)
Fixpoint stop_before (start : Z) (n : nat) : Z :=
  match n with O => start | S n => stop_before start n + GetStakeModifierSelectionIntervalSection (Z.of_nat n) end.

Section Rounds.
Context (ps : CChainParams) (mapBlockIndex : gmap uint256 ptr) (st : store) (start prev : Z) (l : list (Z * uint256)) (blocks : list ptr).
Context (Hl : Forall2 (entry_of mapBlockIndex st) l blocks) (Hs : StronglySorted (by_time st) blocks) (Hn : NoDup blocks).

Definition hashes_of (sel : list ptr) : gset uint256 := list_to_set (map (hash_of_block st) sel).

(** Each block of [sel], from index [n] on, is the best choice of its round. *)
Definition chosen (n : nat) (sel : list ptr) : Prop :=
  forall i p, (n <= i)%nat -> sel !! i = Some p ->
    best_choice st (stop_before start (S i)) prev (hashes_of (take i sel)) (version_of ps st blocks) blocks p.

Definition bits_of (m : Z) (sel : list ptr) : Prop :=
  0 <= m /\ forall i : nat, Z.testbit m (Z.of_nat i) = match sel !! i with Some p => GetStakeEntropyBit (deref st p) =? 1 | None => false end.

Lemma hash_of_block_inj p q : p ∈ blocks -> q ∈ blocks -> hash_of_block st p = hash_of_block st q -> p = q.
Proof using Hl.
  intros Hp Hq E. apply list_elem_of_lookup_1 in Hp as [i Hi]. apply list_elem_of_lookup_1 in Hq as [j Hj].
  destruct (Forall2_lookup_r _ _ _ _ _ Hl Hi) as (e & _ & Hm & He & _). destruct (Forall2_lookup_r _ _ _ _ _ Hl Hj) as (e' & _ & Hm' & He' & _).
  rewrite <- He, E, He', Hm' in Hm. by injection Hm.
Qed.

(** There is a block left to choose. *)
Lemma not_all_selected sel : (length sel < length blocks)%nat -> ~ forall p, p ∈ blocks -> hash_of_block st p ∈ hashes_of sel.
Proof using Hl Hn.
  intros Hlen H.
  assert (Hnd : NoDup (map (hash_of_block st) blocks)).
  { apply NoDup_fmap_2_strong; [|done]. intros p q Hp Hq. by apply hash_of_block_inj. }
  assert (Hsub : map (hash_of_block st) blocks ⊆+ map (hash_of_block st) sel).
  { apply NoDup_submseteq; [done|]. intros h Hh. apply list_elem_of_fmap in Hh as (p & -> & Hp). specialize (H p Hp).
    unfold hashes_of in H. by apply elem_of_list_to_set in H. }
  apply submseteq_length in Hsub. rewrite !length_map in Hsub. lia.
Qed.

Lemma bits_of_snoc m sel p :
  bits_of m sel -> bits_of (Z.lor m (Z.shiftl (GetStakeEntropyBit (deref st p)) (Z.of_nat (length sel)))) (sel ++ [p]).
Proof using.
  intros [H0 Hb]. assert (Hbit : GetStakeEntropyBit (deref st p) = 0 \/ GetStakeEntropyBit (deref st p) = 1).
  { unfold GetStakeEntropyBit. set (x := Get64 _ _). change (Z.land x 1) with (Z.land x (2 ^ 1 - 1)). rewrite land_ones_mod by lia. change (2 ^ 1) with 2.
    pose proof (Z.mod_pos_bound x 2). lia. }
  set (b := GetStakeEntropyBit (deref st p)) in *. split; [apply Z.lor_nonneg; split; [done|apply Z.shiftl_nonneg; lia]|].
  intros i. rewrite Z.lor_spec, Z.shiftl_spec, Hb by lia. destruct (decide (i < length sel)%nat) as [Hi|Hi].
  - rewrite lookup_app_l by done. rewrite Z.testbit_neg_r by lia. by rewrite orb_false_r.
  - rewrite lookup_app_r, (lookup_ge_None_2 sel) by lia. cbn [orb]. destruct (decide (i = length sel)) as [->|Hne].
    + rewrite Z.sub_diag, Nat.sub_diag. cbn [lookup list_lookup]. change (GetStakeEntropyBit (deref st p)) with b.
      by destruct Hbit as [-> | ->].
    + rewrite lookup_ge_None_2 by (simpl; lia). destruct Hbit as [-> | ->]; [by rewrite Z.testbit_0_l|].
      apply Z.bits_above_log2; simpl; lia.
Qed.

Lemma hashes_of_snoc sel p : {[hash_of_block st p]} ∪ hashes_of sel = hashes_of (sel ++ [p]).
Proof using. unfold hashes_of. rewrite map_app, list_to_set_app_L. simpl. rewrite union_empty_r_L. apply union_comm_L. Qed.

Lemma select_rounds_spec n sel acc :
  (length sel + n <= length blocks)%nat -> bits_of acc sel ->
  exists more m, length more = n /\ chosen (length sel) (sel ++ more) /\ bits_of m (sel ++ more) /\
    select_rounds ps mapBlockIndex st n (length sel) l prev (stop_before start (length sel)) (hashes_of sel) acc = Some m.
Proof using Hl Hs Hn.
  revert sel acc. induction n as [|n IH]; intros sel acc Hlen Hb; cbn [select_rounds].
  { exists [], acc. rewrite app_nil_r. split_and!; [done| |done|done]. intros i p Hi Hp. apply lookup_lt_Some in Hp. lia. }
  change (stop_before start (length sel) + GetStakeModifierSelectionIntervalSection (Z.of_nat (length sel))) with (stop_before start (S (length sel))).
  pose proof (SelectBlockFromCandidates_spec ps mapBlockIndex st l blocks (hashes_of sel) (stop_before start (S (length sel))) prev Hl Hs) as Hsel.
  destruct (SelectBlockFromCandidates _ _ _ _ _ _ _) as [p|]; [|by destruct (not_all_selected sel ltac:(lia) Hsel)]. cbn [mbind option_bind].
  rewrite hashes_of_snoc. replace (S (length sel)) with (length (sel ++ [p])) by (rewrite length_app; simpl; lia).
  destruct (IH (sel ++ [p]) (Z.lor acc (Z.shiftl (GetStakeEntropyBit (deref st p)) (Z.of_nat (length sel))))) as (more & m & Em & Hc & Hm & ->).
  { rewrite length_app. simpl. lia. } { by apply bits_of_snoc. }
  rewrite <- app_assoc in Hc, Hm. exists (p :: more), m. split_and!; [simpl; lia| |done|done].
  intros i q Hi Hq. destruct (decide (i = length sel)) as [->|]; [|apply Hc; [rewrite length_app; simpl; lia|done]].
  rewrite lookup_app_r, Nat.sub_diag in Hq by lia. injection Hq as <-. by rewrite take_app_length.
Qed.
End Rounds.

(** No error but its own result false. *)
Lemma GetLastStakeModifier_total st q : wf_store st -> is_Some (st !! q) ->
  GetLastStakeModifier st (Some q) = Err ReturnsFalse \/ exists m, GetLastStakeModifier st (Some q) = Ok m.
Proof.
  intros Hst Hq. unfold GetLastStakeModifier. destruct (last_generated_spec st Hst (Z.to_nat (height_of st q)) q Hq) as (g & -> & _).
  { pose proof (height_nonneg st Hst q Hq). lia. }
  cbn [rbind]. destruct (negb _); eauto.
Qed.

Lemma ComputeNextStakeModifier_total ps a index st q : wf_store st -> is_Some (st !! q) ->
  exists r, ComputeNextStakeModifier ps a index st (Some q) = Ok r.
Proof.
  intros Hst Hq. unfold ComputeNextStakeModifier. destruct (_ =? 0); [eauto|].
  destruct (GetLastStakeModifier_total st q Hst Hq) as [-> |[[m t] ->]]; [eauto|]. destruct (_ <=? _); [eauto|].
  destruct (candidate_walk_spec st Hst (S (Z.to_nat (height_of st q)))
    (Z.quot (time_of st q) (getIntervalVersion fTestNet) * getIntervalVersion fTestNet - GetStakeModifierSelectionInterval) q Hq) as (l & -> & _).
  { pose proof (height_nonneg st Hst q Hq). lia. }
  cbn [rbind]. destruct (select_rounds _ _ _ _ _ _ _ _ _ _); eauto.
Qed.

Lemma bits_of_word st m sel : (length sel <= 64)%nat -> bits_of st m sel -> word 64 m.
Proof.
  intros Hlen [H0 Hb]. apply word_of_testbit; [lia|done|]. intros i Hi. rewrite <- (Z2Nat.id i) by lia.
  rewrite Hb, lookup_ge_None_2 by lia. done.
Qed.

(** The result of [ComputeNextStakeModifier]: the last modifier while its interval lasts,
    and then a new one, whose bits are the entropy bits of the blocks chosen. *)
Definition next_modifier ps st (q g : ptr) (r : bool * Z * bool) : Prop :=
  if Z.quot (time_of st q) 60 <=? Z.quot (time_of st g) 60 then r = (true, nStakeModifier (deref st g), false)
  else
    exists l blocks sel m, window st (Z.quot (time_of st q) 60 * 60 - 2087) q l /\ blocks ≡ₚ l /\ StronglySorted (by_time st) blocks /\
      length sel = Nat.min 64 (length l) /\
      chosen ps st (Z.quot (time_of st q) 60 * 60 - 2087) (nStakeModifier (deref st g)) blocks 0 sel /\
      bits_of st m sel /\ word 64 m /\ r = (true, m, true).

(** C29 Above the first block, on a well-formed tree whose genesis block has a modifier,
    [ComputeNextStakeModifier] always succeeds.  While the last modifier's minute lasts it
    is inherited; then a new one is made, of 64 bits, one for each of the first 64 (or
    all) blocks of the last 2087 seconds: the bit of a round is the entropy bit of the
    block chosen in it, which no earlier round has chosen and whose selection hash is the
    least of the round's interval. *)
Theorem ComputeNextStakeModifier_correct ps literal_address mapBlockIndex st q :
  wf_store st -> indexed mapBlockIndex st -> is_Some (st !! q) -> 0 < height_of st q ->
  (forall p, is_Some (st !! p) -> height_of st p = 0 -> generated st p = true) ->
  exists g r, last_generator st q g /\ next_modifier ps st q g r /\
    ComputeNextStakeModifier ps literal_address mapBlockIndex st (Some q) = Ok r.
Proof.
  intros Hst Hm Hq Hh Hg. unfold ComputeNextStakeModifier. rewrite (proj2 (Z.eqb_neq (height_of st q) 0)) by lia. unfold GetLastStakeModifier.
  destruct (last_generated_spec st Hst (Z.to_nat (height_of st q)) q Hq ltac:(lia)) as (g & Eg & Hlast). rewrite Eg. cbn [rbind].
  assert (Hg' : last_generator st q g).
  { destruct Hlast as [|[H1 H2]]; [done|]. exfalso.
    rewrite Hg in H1; [done| |done]. by apply (last_generated_valid st Hst (Z.to_nat (height_of st q)) q g Hq ltac:(lia)). }
  destruct Hg' as (k & Ek & Egen & Hk). exists g. rewrite Egen. cbn [negb].
  change (getIntervalVersion fTestNet) with 60. unfold next_modifier. rewrite GetStakeModifierSelectionInterval_value.
  destruct (Z.quot (time_of st q) 60 <=? Z.quot (time_of st g) 60).
  { eexists. split; [by exists k|]. done. }
  set (start := _ - 2087).
  destruct (candidate_walk_spec st Hst (S (Z.to_nat (height_of st q))) start q Hq ltac:(lia)) as (l & -> & Hw). cbn [rbind].
  destruct (sorted_candidates_spec mapBlockIndex st l Hm (window_valid st Hst start q l Hq Hw)) as (blocks & Hp & Es & Hf & Hsort).
  pose proof (window_nodup st Hst start q l Hq Hw) as Hnd. rewrite <- Hp in Hnd.
  assert (Elen : length (sorted_candidates st l) = length blocks) by (rewrite Es; apply length_map).
  destruct (select_rounds_spec ps mapBlockIndex st start (nStakeModifier (deref st g)) _ blocks Hf Hsort Hnd (Nat.min 64 (length blocks)) [] 0)
    as (sel & m & Elsel & Hc & Hb & Er); [apply Nat.le_min_r|by split; [|intros i; rewrite Z.testbit_0_l]|].
  rewrite Elen. change (hashes_of st []) with (∅ : gset uint256) in Er. cbn [length stop_before app] in Er, Hc, Hb. rewrite Er.
  eexists. split; [by exists k|]. split; [|done]. exists l, blocks, sel, m.
  split_and!; [done|done|done|by rewrite Elsel, Hp|done|done| |done]. apply (bits_of_word st m sel); [lia|done].
Qed.

(** After block 3 the modifier of block 2 is over; blocks 3, 2 and 1 give the bits. *)
Lemma ComputeNextStakeModifier_correct_witness :
  ComputeNextStakeModifier mainParams 0 staking_index staking_store (Some 3%nat) = Ok (true, 5, true) /\
  exists g r, last_generator staking_store 3%nat g /\ next_modifier mainParams staking_store 3%nat g r /\
    ComputeNextStakeModifier mainParams 0 staking_index staking_store (Some 3%nat) = Ok r.
Proof.
  assert (Hall : forall p, is_Some (staking_store !! p) -> (p < 5)%nat).
  { intros p [b Hb]. destruct (decide (p < 5)%nat); [done|]. exfalso. revert Hb. unfold staking_store. simpl.
    rewrite !lookup_insert_ne by lia. by rewrite lookup_empty. }
  split; [vm_compute; reflexivity|]. apply (ComputeNextStakeModifier_correct mainParams 0 staking_index staking_store 3%nat staking_store_wf).
  - intros p Hp. apply Hall in Hp. do 5 (destruct p as [|p]; [vm_compute; reflexivity|]). lia.
  - vm_compute. eauto.
  - vm_compute. reflexivity.
  - intros p Hp Hh. apply Hall in Hp. destruct p as [|p]; [by vm_compute|].
    do 4 (destruct p as [|p]; [discriminate Hh|]). lia.
Defined.

(** * The kernel a wallet finds *)

Lemma stakeTargetHit_value h nValueIn target :
  wf256 h -> wf256 target -> 0 <= nValueIn < 2 ^ 63 ->
  stakeTargetHit h nValueIn target = Some (val h <? (nValueIn / 100 * val target) mod 2 ^ 256).
Proof.
  intros Hh Ht Hv. unfold stakeTargetHit. rewrite u64_small by (unfold word; lia).
  destruct (div_spec W256 (u256 nValueIn) (u256 100)) as [[_ E]|(q & -> & Hq & _ & Eq)]; [apply wf_u256; unfold word; lia|by apply wf_u256| |].
  { rewrite val_u256 in E; done. }
  rewrite !val_u256 in Eq by (unfold word; lia). simpl. rewrite (lt_spec W256) by (done || by apply wf_mul). by rewrite (val_mul W256), Eq by done.
Qed.

Section Search.
Context (nStakeModifier : Z) (prevout : COutPoint) (nTimeBlockFrom nValueIn : Z) (target : uint256) (Ht : wf256 target) (Hv : 0 <= nValueIn < 2 ^ 63).

Definition kernel_hash (t : Z) : uint256 := stakeHash t nStakeModifier (out_n prevout) (out_hash prevout) nTimeBlockFrom.
Definition kernel_hits (t : Z) : Prop := val (kernel_hash t) < (nValueIn / 100 * val target) mod 2 ^ 256.

Lemma target_hit t : stakeTargetHit (kernel_hash t) nValueIn target = Some (bool_decide (kernel_hits t)).
Proof using Ht Hv. rewrite stakeTargetHit_value by (done || apply Hash_wf). f_equal. apply eq_true_iff_eq. rewrite Z.ltb_lt, bool_decide_eq_true. done. Qed.

Lemma stake_search_spec k i nTimeTx nHashDrift h :
  0 <= i -> 0 <= nTimeTx -> nHashDrift = i + Z.of_nat k -> nTimeTx + nHashDrift < 2 ^ 32 ->
  match stake_search k i nTimeTx nHashDrift nStakeModifier prevout nTimeBlockFrom nValueIn target h with
  | None => False
  | Some (Some t, h') => nTimeTx < t <= nTimeTx + nHashDrift - i /\ kernel_hits t /\ h' = kernel_hash t /\
      forall t', t < t' <= nTimeTx + nHashDrift - i -> ~ kernel_hits t'
  | Some (None, _) => forall t', nTimeTx < t' <= nTimeTx + nHashDrift - i -> ~ kernel_hits t'
  end.
Proof using Ht Hv.
  revert i h. induction k as [|k IH]; intros i h Hi H0 Hd Hlt; cbn [stake_search]; [lia|].
  rewrite u32_small by (unfold word; lia). fold (kernel_hash (nTimeTx + nHashDrift - i)). rewrite target_hit. cbn [mbind option_bind].
  destruct (decide (kernel_hits (nTimeTx + nHashDrift - i))) as [Hk|Hk].
  - rewrite bool_decide_eq_true_2 by done. split_and!; [lia|lia|done|done|lia].
  - rewrite bool_decide_eq_false_2 by done.
    specialize (IH (i + 1) (kernel_hash (nTimeTx + nHashDrift - i)) ltac:(lia) H0 ltac:(lia) Hlt).
    destruct (stake_search _ _ _ _ _ _ _ _ _ _) as [[[t|] h']|]; [|intros t' Ht'|done].
    + destruct IH as (H1 & H2 & H3 & H4). split_and!; [lia|lia|done|done|]. intros t' Ht'.
      destruct (decide (t' = nTimeTx + nHashDrift - i)) as [->|]; [done|]. apply H4. lia.
    + destruct (decide (t' = nTimeTx + nHashDrift - i)) as [->|]; [done|]. apply IH. lia.
Qed.
End Search.

(** A staking wallet's search and a node's check agree.  When the search of
    [CheckStakeKernelHash] over the times up to [nHashDrift] seconds ahead succeeds, the
    time it returns lies in that range, the check at that time accepts the kernel with the
    same hash, and the check at every later time of the range refuses it; when the search
    finds nothing, the check refuses every time of the range. *)
Theorem CheckStakeKernelHash_search_agrees hashes mapBlockIndex st chainActive nBits blockFrom txPrev prevout nTimeTx nHashDrift h0 o nTime0 :
  let run fCheck t drift h := CheckStakeKernelHash hashes mapBlockIndex st chainActive nBits blockFrom txPrev prevout t drift fCheck h in
  word 32 nBits -> 0 <= nTimeTx -> 0 <= nHashDrift -> nTimeTx + nHashDrift < 2 ^ 32 ->
  vout txPrev !! Z.to_nat (out_n prevout) = Some o -> 0 <= nValue o < 2 ^ 63 ->
  bh_nTime (header blockFrom) <= nTimeTx ->
  (forall r, run false nTimeTx nHashDrift h0 = Ok (true, nTime0, r) ->
     nTimeTx < nTime0 <= nTimeTx + nHashDrift /\ run true nTime0 0 h0 = Ok (true, nTime0, r) /\
     forall t, nTime0 < t <= nTimeTx + nHashDrift -> exists r', run true t 0 h0 = Ok (false, t, r')) /\
  (forall r, run false nTimeTx nHashDrift h0 = Ok (false, nTime0, r) ->
     forall t, nTimeTx < t <= nTimeTx + nHashDrift -> exists r', run true t 0 h0 = Ok (false, t, r')).
Proof.
  intros run Hb Ht0 Hd Hlt Ho Hval Hfrom. unfold run, CheckStakeKernelHash. rewrite Ho. cbn zeta.
  destruct (FromCompact_spec nBits Hb) as [Hw _]. rewrite (proj2 (Z.ltb_ge nTimeTx _)) by lia.
  destruct (GetKernelStakeModifier _ _ _ _) as [[m|]|e]; cbn [rbind]; [|split; [done|]|done].
  2: { intros _ _ t Ht. destruct (t <? _); by eexists. }
  pose proof (stake_search_spec m prevout (bh_nTime (header blockFrom)) (nValue o) (FromCompact nBits) Hw Hval (Z.to_nat nHashDrift) 0 nTimeTx nHashDrift h0
    ltac:(lia) Ht0 ltac:(lia) Hlt) as Hs.
  destruct (stake_search _ _ _ _ _ _ _ _ _ _) as [[[t|] h']|]; [| |done]; destruct (Tip chainActive); try done.
  - split; [|done]. intros r E. apply Ok_inj in E. assert (t = nTime0 /\ h' = r) as [-> ->] by (split; congruence). clear E.
    destruct Hs as (H1 & H2 & -> & H4). split; [lia|]. split.
    + rewrite (proj2 (Z.ltb_ge nTime0 _)) by lia. fold (kernel_hash m prevout (bh_nTime (header blockFrom)) nTime0).
      rewrite target_hit, bool_decide_eq_true_2 by done. done.
    + intros t Ht. rewrite (proj2 (Z.ltb_ge t _)) by lia. fold (kernel_hash m prevout (bh_nTime (header blockFrom)) t).
      rewrite target_hit, bool_decide_eq_false_2 by (done || apply H4; lia). by eexists.
  - split; [done|]. intros r _ t Ht. rewrite (proj2 (Z.ltb_ge t _)) by lia. fold (kernel_hash m prevout (bh_nTime (header blockFrom)) t).
    rewrite target_hit, bool_decide_eq_false_2 by (done || apply Hs; lia). by eexists.
Qed.

(** A source in the block of height 1: the header's hash is fixed by the rounds. *)
Definition example_sph : sph :=
  let f (m : byte_list) := le_bytes 64 101 in
  {| blake512 := f; bmw512 := f; groestl512 := f; jh512 := f; keccak512 := f; skein512 := f |}.

Definition example_search (fCheck : bool) (t drift : Z) (h : uint256) : result kernel_error (bool * Z * uint256) :=
  CheckStakeKernelHash example_sph staking_index staking_store staking_chain 0x1e00a000 Transaction.example_block example_coinstake
    {| out_hash := u256 5; out_n := 1 |} t drift fCheck h.

(** Of eight times, tried from the latest on, the one two seconds ahead is the first to hit. *)
Lemma CheckStakeKernelHash_search_agrees_witness :
  exists r, example_search false 1500000000 8 (zero W256) = Ok (true, 1500000002, r) /\
    (1500000000 < 1500000002 <= 1500000000 + 8 /\ example_search true 1500000002 0 (zero W256) = Ok (true, 1500000002, r) /\
     forall t, 1500000002 < t <= 1500000000 + 8 -> exists r', example_search true t 0 (zero W256) = Ok (false, t, r')).
Proof.
  assert (E : exists r, example_search false 1500000000 8 (zero W256) = Ok (true, 1500000002, r)).
  { eexists. vm_compute. reflexivity. }
  destruct E as [r E]. exists r. split; [exact E|].
  refine (proj1 (CheckStakeKernelHash_search_agrees example_sph staking_index staking_store staking_chain 0x1e00a000 Transaction.example_block
    example_coinstake {| out_hash := u256 5; out_n := 1 |} 1500000000 8 (zero W256) {| nValue := 250000000; scriptPubKey := [OP_DUP; OP_CHECKSIG] |}
    1500000002 _ _ _ _ _ _ _) r E).
  - unfold word. lia.
  - lia.
  - lia.
  - lia.
  - reflexivity.
  - cbn [nValue]. lia.
  - cbn. lia.
Defined.
