(* ===== verification/BlockFiles.v ===== *)
(** Space in the block and undo files (main.h, main.cpp): [CBlockFileInfo], [FindBlockPos],
    [FindUndoPos].

    The state is [vinfoBlockFile] with [nLastBlockFile] and the set of files to be written
    to the block database.  Opening files, reserving space in them and flushing them are
    left out: of the disk only the answer of [CheckDiskSpace] counts. *)

From stdpp Require Import gmap.
From S2P Require Import Prelude Chain.

#[local] Abbreviation length := Datatypes.length.

Definition MAX_BLOCKFILE_SIZE : Z := 0x8000000.
Definition BLOCKFILE_CHUNK_SIZE : Z := 0x1000000.
Definition UNDOFILE_CHUNK_SIZE : Z := 0x100000.

Record CBlockFileInfo := {
  nBlocks : Z;
  nSize : Z;
  nUndoSize : Z;
  nHeightFirst : Z;
  nHeightLast : Z;
  nTimeFirst : Z;
  nTimeLast : Z
}.

Definition null_info : CBlockFileInfo :=
  {| nBlocks := 0; nSize := 0; nUndoSize := 0; nHeightFirst := 0; nHeightLast := 0; nTimeFirst := 0; nTimeLast := 0 |}.

Definition AddBlock (nHeightIn nTimeIn : Z) (f : CBlockFileInfo) : CBlockFileInfo := {|
  nBlocks := u32 (nBlocks f + 1);
  nSize := nSize f;
  nUndoSize := nUndoSize f;
  nHeightFirst := if (nBlocks f =? 0) || (nHeightIn <? nHeightFirst f) then nHeightIn else nHeightFirst f;
  nHeightLast := if nHeightLast f <? nHeightIn then nHeightIn else nHeightLast f;
  nTimeFirst := if (nBlocks f =? 0) || (nTimeIn <? nTimeFirst f) then nTimeIn else nTimeFirst f;
  nTimeLast := if nTimeLast f <? nTimeIn then nTimeIn else nTimeLast f |}.

Definition set_size (n : Z) (f : CBlockFileInfo) : CBlockFileInfo :=
  {| nBlocks := nBlocks f; nSize := n; nUndoSize := nUndoSize f; nHeightFirst := nHeightFirst f; nHeightLast := nHeightLast f;
     nTimeFirst := nTimeFirst f; nTimeLast := nTimeLast f |}.

Definition set_undo_size (n : Z) (f : CBlockFileInfo) : CBlockFileInfo :=
  {| nBlocks := nBlocks f; nSize := nSize f; nUndoSize := n; nHeightFirst := nHeightFirst f; nHeightLast := nHeightLast f;
     nTimeFirst := nTimeFirst f; nTimeLast := nTimeLast f |}.

Record FileState := {
  vinfoBlockFile : list CBlockFileInfo;
  nLastBlockFile : Z;
  setDirtyFileInfo : gset Z
}.

Definition info (s : FileState) (n : nat) : CBlockFileInfo := nth n (vinfoBlockFile s) null_info.

(** [if (vinfoBlockFile.size() <= nFile) vinfoBlockFile.resize(nFile + 1)]. *)
Definition ensure (n : nat) (l : list CBlockFileInfo) : list CBlockFileInfo := l ++ replicate (S n - length l) null_info.

(** The loop over files that have no room; [None] when it does not end within the fuel. *)
Fixpoint find_file (fuel : nat) (nFile : nat) (nAddSize : Z) (l : list CBlockFileInfo) : option (nat * list CBlockFileInfo) :=
  let l := ensure nFile l in
  if MAX_BLOCKFILE_SIZE <=? u32 (nSize (nth nFile l null_info) + nAddSize) then
    match fuel with O => None | S fuel => find_file fuel (S nFile) nAddSize l end
  else Some (nFile, l).

Definition chunks (n chunk : Z) : Z := u32 (n + chunk - 1) / chunk.

(** A new position; the result is false when the disk is full. *)
Definition FindBlockPos (space : Z -> bool) (nAddSize nHeight nTime : Z) (s : FileState) : option (FileState * CDiskBlockPos * bool) :=
  r ← find_file (S (length (vinfoBlockFile s))) (Z.to_nat (nLastBlockFile s)) nAddSize (vinfoBlockFile s);
  let '(nFile, l) := r in
  let nPos := nSize (nth nFile l null_info) in
  let f := AddBlock nHeight nTime (nth nFile l null_info) in
  let f := set_size (u32 (nSize f + nAddSize)) f in
  let '(old, new) := (chunks nPos BLOCKFILE_CHUNK_SIZE, chunks (nSize f) BLOCKFILE_CHUNK_SIZE) in
  let pos := {| posFile := Z.of_nat nFile; posPos := nPos |} in
  let s' d := {| vinfoBlockFile := <[nFile := f]> l; nLastBlockFile := Z.of_nat nFile; setDirtyFileInfo := d |} in
  if (old <? new) && negb (space (u32 (new * BLOCKFILE_CHUNK_SIZE - nPos))) then Some (s' (setDirtyFileInfo s), pos, false)
  else Some (s' ({[Z.of_nat nFile]} ∪ setDirtyFileInfo s), pos, true).

(** [fKnown]: the block lies in the files already. *)
Definition FindKnownBlockPos (pos : CDiskBlockPos) (nAddSize nHeight nTime : Z) (s : FileState) : FileState :=
  let nFile := Z.to_nat (posFile pos) in
  let l := ensure nFile (vinfoBlockFile s) in
  let f := AddBlock nHeight nTime (nth nFile l null_info) in
  let f := set_size (Z.max (u32 (posPos pos + nAddSize)) (nSize f)) f in
  {| vinfoBlockFile := <[nFile := f]> l; nLastBlockFile := posFile pos; setDirtyFileInfo := {[posFile pos]} ∪ setDirtyFileInfo s |}.

Definition FindUndoPos (space : Z -> bool) (nFile : Z) (nAddSize : Z) (s : FileState) : FileState * CDiskBlockPos * bool :=
  let f := info s (Z.to_nat nFile) in
  let nPos := nUndoSize f in
  let nNewSize := u32 (nUndoSize f + nAddSize) in
  let s := {| vinfoBlockFile := <[Z.to_nat nFile := set_undo_size nNewSize f]> (vinfoBlockFile s); nLastBlockFile := nLastBlockFile s;
              setDirtyFileInfo := {[nFile]} ∪ setDirtyFileInfo s |} in
  let '(old, new) := (chunks nPos UNDOFILE_CHUNK_SIZE, chunks nNewSize UNDOFILE_CHUNK_SIZE) in
  let pos := {| posFile := nFile; posPos := nPos |} in
  (s, pos, negb ((old <? new) && negb (space (u32 (new * UNDOFILE_CHUNK_SIZE - nPos))))).

(** * No two ranges overlap *)

Record range := { r_undo : bool; r_file : nat; r_from : Z; r_to : Z }.

Definition overlap (a b : range) : Prop :=
  r_undo a = r_undo b /\ r_file a = r_file b /\ r_from a < r_to b /\ r_from b < r_to a.

Definition wf_info (f : CBlockFileInfo) : Prop := 0 <= nSize f < MAX_BLOCKFILE_SIZE /\ 0 <= nUndoSize f.

(** The ranges handed out so far lie below the sizes and do not overlap. *)
Record files_ok (s : FileState) (rs : list range) : Prop := {
  fo_sizes : Forall wf_info (vinfoBlockFile s);
  fo_last : 0 <= nLastBlockFile s;
  fo_below r : r ∈ rs -> 0 <= r_from r /\ r_to r <= (if r_undo r then nUndoSize (info s (r_file r)) else nSize (info s (r_file r)));
  fo_apart i j a b : rs !! i = Some a -> rs !! j = Some b -> i <> j -> ~ overlap a b
}.

Lemma apart_cons (rs : list range) r : (forall a, a ∈ rs -> ~ overlap r a) ->
  (forall i j a b, rs !! i = Some a -> rs !! j = Some b -> i <> j -> ~ overlap a b) ->
  forall i j a b, (r :: rs) !! i = Some a -> (r :: rs) !! j = Some b -> i <> j -> ~ overlap a b.
Proof.
  intros H1 H2 [|i] [|j] a b; cbn [lookup list_lookup]; intros Ha Hb Hij; [done| | |].
  - injection Ha as <-. apply H1. by eapply list_elem_of_lookup_2.
  - injection Hb as <-. intros (E1 & E2 & E3 & E4). apply (H1 a); [by eapply list_elem_of_lookup_2|]. by split_and!.
  - apply (H2 i j); [done|done|]. congruence.
Qed.

Lemma nth_ensure n m l : nth m (ensure n l) null_info = nth m l null_info.
Proof.
  unfold ensure. destruct (decide (m < length l)%nat); [by rewrite app_nth1|].
  rewrite app_nth2, (nth_overflow l) by lia. rewrite nth_lookup.
  destruct (replicate _ _ !! _) as [f|] eqn:E; [|done]. by apply lookup_replicate in E as [-> _].
Qed.

Lemma length_ensure n l : length (ensure n l) = Nat.max (S n) (length l).
Proof. unfold ensure. rewrite length_app, length_replicate. lia. Qed.

Lemma ensure_sizes n l (P : CBlockFileInfo -> Prop) : P null_info -> Forall P l -> Forall P (ensure n l).
Proof. intros H Hl. apply Forall_app. split; [done|]. by apply Forall_replicate. Qed.

Lemma wf_null_info : wf_info null_info.
Proof. done. Qed.

Lemma wf_nth_info n l : Forall wf_info l -> wf_info (nth n l null_info).
Proof. intros Hl. rewrite nth_lookup. destruct (l !! n) as [f|] eqn:E; [exact (Forall_lookup_1 _ _ _ _ Hl E)|apply wf_null_info]. Qed.

(** The loop ends at the latest at a file that is not in use yet. *)
Lemma find_file_spec fuel nFile nAddSize l :
  0 <= nAddSize < MAX_BLOCKFILE_SIZE -> Forall wf_info l -> (length l < nFile + fuel)%nat ->
  exists n l', find_file fuel nFile nAddSize l = Some (n, l') /\ (n < length l')%nat /\
    Forall wf_info l' /\ (forall m, nth m l' null_info = nth m l null_info) /\
    0 <= nSize (nth n l' null_info) /\ nSize (nth n l' null_info) + nAddSize < MAX_BLOCKFILE_SIZE.
Proof.
  revert nFile l. induction fuel as [|fuel IH]; intros nFile l Ha Hl Hf; cbn [find_file];
    assert (Hl' : Forall wf_info (ensure nFile l)) by (by apply ensure_sizes);
    destruct (wf_nth_info nFile _ Hl') as [Hb _]; rewrite u32_small by (unfold word, MAX_BLOCKFILE_SIZE in *; lia);
    destruct (Z.leb_spec MAX_BLOCKFILE_SIZE (nSize (nth nFile (ensure nFile l) null_info) + nAddSize)) as [H|H].
  - rewrite nth_ensure, nth_overflow in H by lia. cbn in H. lia.
  - exists nFile, (ensure nFile l). rewrite length_ensure. split_and!; [done|lia|done|intros; apply nth_ensure|lia|lia].
  - destruct (decide (length l <= nFile)%nat) as [Hle|Hgt].
    { rewrite nth_ensure, nth_overflow in H by lia. cbn in H. lia. }
    destruct (IH (S nFile) (ensure nFile l) Ha Hl') as (n & l' & -> & H1 & H2 & H3 & H4); [rewrite length_ensure; lia|].
    exists n, l'. split_and!; [done|done|done|intros m; by rewrite H3, nth_ensure|apply H4|apply H4].
  - exists nFile, (ensure nFile l). rewrite length_ensure. split_and!; [done|lia|done|intros; apply nth_ensure|lia|lia].
Qed.

Definition range_of (undo : bool) (pos : CDiskBlockPos) (nAddSize : Z) : range :=
  {| r_undo := undo; r_file := Z.to_nat (posFile pos); r_from := posPos pos; r_to := posPos pos + nAddSize |}.

Lemma nth_insert_eq n (l : list CBlockFileInfo) f : (n < length l)%nat -> nth n (<[n:=f]> l) null_info = f.
Proof. intros H. rewrite nth_lookup, list_lookup_insert_eq by done. done. Qed.

Lemma nth_insert_ne n m (l : list CBlockFileInfo) f : n <> m -> nth m (<[n:=f]> l) null_info = nth m l null_info.
Proof. intros H. by rewrite !nth_lookup, list_lookup_insert_ne. Qed.

Lemma FindBlockPos_ok space nAddSize nHeight nTime s rs :
  files_ok s rs -> 0 <= nAddSize < MAX_BLOCKFILE_SIZE ->
  exists s' pos ok, FindBlockPos space nAddSize nHeight nTime s = Some (s', pos, ok) /\ files_ok s' (range_of false pos nAddSize :: rs) /\
    posPos pos + nAddSize < MAX_BLOCKFILE_SIZE.
Proof.
  intros [F1 F2 F3 F4] Ha. unfold FindBlockPos.
  destruct (find_file_spec (S (length (vinfoBlockFile s))) (Z.to_nat (nLastBlockFile s)) nAddSize _ Ha F1 ltac:(lia))
    as (n & l & -> & Hn & Hl & Hsame & H0 & Hroom). cbn [mbind option_bind].
  set (f := nth n l null_info) in *.
  change (nSize (AddBlock nHeight nTime f)) with (nSize f). rewrite u32_small by (unfold word, MAX_BLOCKFILE_SIZE in *; lia).
  set (f' := set_size (nSize f + nAddSize) (AddBlock nHeight nTime f)). change (nSize f') with (nSize f + nAddSize).
  assert (Hok : forall d, files_ok {| vinfoBlockFile := <[n := f']> l; nLastBlockFile := Z.of_nat n; setDirtyFileInfo := d |}
    (range_of false {| posFile := Z.of_nat n; posPos := nSize f |} nAddSize :: rs)).
  { intros d. assert (Hinfo : forall m, info {| vinfoBlockFile := <[n := f']> l; nLastBlockFile := Z.of_nat n; setDirtyFileInfo := d |} m =
      if decide (m = n) then f' else info s m).
    { intros m. unfold info. cbn [vinfoBlockFile]. destruct (decide (m = n)) as [->|]; [by apply nth_insert_eq|]. by rewrite nth_insert_ne, Hsame. }
    assert (Hf : f = info s n) by (unfold f, info; by rewrite Hsame).
    split.
    - apply Forall_insert; [done|]. destruct (wf_nth_info n l Hl) as [_ Hu]. split; [cbn [f' set_size nSize]; lia|done].
    - cbn [nLastBlockFile]. lia.
    - intros r Hr. apply elem_of_cons in Hr as [->|Hr].
      + cbn [range_of r_undo r_file r_from r_to posFile posPos]. rewrite Nat2Z.id, Hinfo, decide_True by done. cbn [f' set_size nSize]. lia.
      + destruct (F3 r Hr) as [H1 H2]. rewrite Hinfo. split; [done|]. destruct (decide (r_file r = n)) as [E|]; [|done].
        rewrite E, <- Hf in H2. destruct (r_undo r); cbn [f' set_size nSize nUndoSize AddBlock]; [done|lia].
    - apply apart_cons; [|done]. intros a Hra (E1 & E2 & E3 & E4). destruct (F3 a Hra) as [_ H2]. cbn in E1, E2, E3, E4.
      rewrite Nat2Z.id in E2. rewrite <- E1, <- E2, <- Hf in H2. lia. }
  destruct (_ && _); (eexists _, _, _; split; [done|]; split; [apply Hok|cbn [posPos]; lia]).
Qed.

Lemma FindUndoPos_ok space nFile nAddSize s rs :
  files_ok s rs -> 0 <= nFile < Z.of_nat (length (vinfoBlockFile s)) -> 0 <= nAddSize ->
  nUndoSize (info s (Z.to_nat nFile)) + nAddSize < 2 ^ 32 ->
  let '(s', pos, _) := FindUndoPos space nFile nAddSize s in files_ok s' (range_of true pos nAddSize :: rs).
Proof.
  intros [F1 F2 F3 F4] Hn Ha Hroom. unfold FindUndoPos. cbn zeta. destruct (wf_nth_info (Z.to_nat nFile) _ F1) as [_ H0]. fold (info s (Z.to_nat nFile)) in H0.
  set (n := Z.to_nat nFile) in *. set (f := info s n) in *. rewrite u32_small by (unfold word; lia).
  set (f' := set_undo_size _ f).
  assert (Hinfo : forall d m, info {| vinfoBlockFile := <[n := f']> (vinfoBlockFile s); nLastBlockFile := nLastBlockFile s; setDirtyFileInfo := d |} m =
    if decide (m = n) then f' else info s m).
  { intros d m. unfold info. cbn [vinfoBlockFile]. destruct (decide (m = n)) as [->|]; [apply nth_insert_eq; lia|by apply nth_insert_ne]. }
  split.
  - cbn [vinfoBlockFile]. apply Forall_insert; [done|]. destruct (wf_nth_info n _ F1) as [Hs _]. split; [done|cbn [f' set_undo_size nUndoSize]; lia].
  - done.
  - intros r Hr. rewrite Hinfo. apply elem_of_cons in Hr as [->|Hr].
    + cbn [range_of r_undo r_file r_from r_to posFile posPos]. rewrite decide_True by done. cbn [f' set_undo_size nUndoSize]. lia.
    + destruct (F3 r Hr) as [H1 H2]. split; [done|]. destruct (decide (r_file r = n)) as [E|]; [|done].
      rewrite E in H2. fold f in H2. destruct (r_undo r); cbn [f' set_undo_size nSize nUndoSize]; [lia|done].
  - apply apart_cons; [|done]. intros a Hra (E1 & E2 & E3 & E4). destruct (F3 a Hra) as [_ H2]. cbn in E1, E2, E3, E4.
    fold n in E2. rewrite <- E1, <- E2 in H2. fold f in H2. lia.
Qed.

(** The states a node reaches from empty files, with the ranges that have been handed
    out, the last one first.  The disk may answer differently at every call; each block is
    shorter than a block file, and the undo data of one file stay below [2 ^ 32] bytes. *)
Inductive served : FileState -> list range -> Prop :=
| served_start : served {| vinfoBlockFile := []; nLastBlockFile := 0; setDirtyFileInfo := ∅ |} []
| served_block space s rs nAddSize nHeight nTime s' pos ok :
    served s rs -> 0 <= nAddSize < MAX_BLOCKFILE_SIZE ->
    FindBlockPos space nAddSize nHeight nTime s = Some (s', pos, ok) -> served s' (range_of false pos nAddSize :: rs)
| served_undo space s rs nFile nAddSize s' pos ok :
    served s rs -> 0 <= nFile < Z.of_nat (length (vinfoBlockFile s)) -> 0 <= nAddSize ->
    nUndoSize (info s (Z.to_nat nFile)) + nAddSize < 2 ^ 32 ->
    FindUndoPos space nFile nAddSize s = (s', pos, ok) -> served s' (range_of true pos nAddSize :: rs).

Lemma served_ok s rs : served s rs -> files_ok s rs.
Proof.
  induction 1 as [|space s rs nAddSize nHeight nTime s' pos ok _ IH Ha E|space s rs nFile nAddSize s' pos ok _ IH Hn Ha Hroom E].
  - split; [done|done| |done]. intros r Hr. by apply not_elem_of_nil in Hr.
  - destruct (FindBlockPos_ok space nAddSize nHeight nTime s rs IH Ha) as (s2 & pos2 & ok2 & E2 & H & _).
    rewrite E in E2. apply Some_inj in E2. by injection E2 as -> -> ->.
  - pose proof (FindUndoPos_ok space nFile nAddSize s rs IH Hn Ha Hroom) as H. by rewrite E in H.
Qed.

(** C28 From empty files on, whatever blocks and undo data have been stored and whatever the
    disk answered at each call, a block finds its place: [FindBlockPos] ends, hands out a
    range below the size limit of a file, and no two ranges ever handed out by it and by
    [FindUndoPos] overlap.  This holds as long as every block is shorter than a block file
    (128 MiB), so that the search for a file with room for it can end, and the undo data of
    each file stay below [2 ^ 32] bytes: [FindUndoPos] adds to a 32-bit size and does not
    check this itself. *)
Theorem file_ranges_apart space s rs nAddSize nHeight nTime :
  served s rs -> 0 <= nAddSize < MAX_BLOCKFILE_SIZE ->
  (exists s' pos ok, FindBlockPos space nAddSize nHeight nTime s = Some (s', pos, ok) /\ posPos pos + nAddSize < MAX_BLOCKFILE_SIZE /\
     forall r, r ∈ rs -> ~ overlap (range_of false pos nAddSize) r) /\
  (forall i j a b, rs !! i = Some a -> rs !! j = Some b -> i <> j -> ~ overlap a b).
Proof.
  intros Hs Ha. pose proof (served_ok _ _ Hs) as Hok. split; [|apply Hok].
  destruct (FindBlockPos_ok space nAddSize nHeight nTime s rs Hok Ha) as (s' & pos & ok & E & [_ _ _ H] & Hp).
  exists s', pos, ok. split; [done|]. split; [done|]. intros r Hr. apply list_elem_of_lookup_1 in Hr as [i Hi].
  by apply (H 0%nat (S i)).
Qed.

(** A block of 100 million bytes, one of 40 million, which goes to the second file, and
    undo data for the first, for which the disk has no room. *)
Definition example_space (n : Z) : bool := true.
Definition no_files : FileState := {| vinfoBlockFile := []; nLastBlockFile := 0; setDirtyFileInfo := ∅ |}.
Definition store_block (nAddSize nHeight nTime : Z) (s : FileState) : FileState :=
  match FindBlockPos example_space nAddSize nHeight nTime s with Some (s, _, _) => s | None => s end.
Definition example_files2 : FileState := store_block 40000000 2 1200 (store_block 100000000 1 1100 no_files).
Definition full_disk (n : Z) : bool := false.
Definition example_files3 : FileState := (FindUndoPos full_disk 0 500 example_files2).1.1.
Definition example_ranges : list range :=
  [range_of true {| posFile := 0; posPos := 0 |} 500; range_of false {| posFile := 1; posPos := 0 |} 40000000;
   range_of false {| posFile := 0; posPos := 0 |} 100000000].

Lemma example_served : served example_files3 example_ranges.
Proof.
  apply (served_undo full_disk example_files2 _ 0 500 _ _ false); [|vm_compute; by split|done|vm_compute; done|vm_compute; reflexivity].
  apply (served_block example_space (store_block 100000000 1 1100 no_files) _ 40000000 2 1200 _ _ true); [|done|vm_compute; reflexivity].
  apply (served_block example_space no_files _ 100000000 1 1100 _ _ true); [apply served_start|done|vm_compute; reflexivity].
Qed.

Lemma file_ranges_apart_witness :
  served example_files3 example_ranges /\
  (exists s' pos ok, FindBlockPos example_space 9000000 9 1500 example_files3 = Some (s', pos, ok) /\ posPos pos + 9000000 < MAX_BLOCKFILE_SIZE /\
     forall r, r ∈ example_ranges -> ~ overlap (range_of false pos 9000000) r) /\
  (forall i j a b, example_ranges !! i = Some a -> example_ranges !! j = Some b -> i <> j -> ~ overlap a b).
Proof. split; [apply example_served|]. apply (file_ranges_apart example_space example_files3 example_ranges 9000000 9 1500 example_served). by split. Defined.
