(* ===== verification/BlockChecks.v ===== *)
(** The checks on a block (main.cpp, checkpoints.cpp): those that need no context in
    [CheckBlock], the difficulty in [CheckWork], and those that depend on the previous
    block in [ContextualCheckBlockHeader] and [ContextualCheckBlock]; and the reading of
    blocks and transactions from disk.

    A check that holds leaves the validation state alone; one that fails ends the function
    with the state that [DoS] or [Invalid] returns.  What other parts of the node say is
    in [NodeEnv]; block files, the memory pool and the coin database are read by the
    functions of [Storage]. *)

From Stdlib Require Import SpecFloat String.
From stdpp Require Import gmap.
From S2P Require Import Prelude Uint256 Arith256 Params Subsidy Serialize Chain Pow Script Transaction Pubkey Merkle Validation Connect Kernel BestChain.

#[local] Abbreviation length := Datatypes.length.

Definition REJECT_OBSOLETE : Z := 0x11.
Definition REJECT_CHECKPOINT : Z := 0x43.
Definition STAKE_MIN_CONF : Z := 10.

(** A failed assertion or a null pointer, or an exception of a division. *)
Inductive crash := ChainCrash (e : chain_error) | Throws.

(** A crash, or a refusal with the validation state and whether the block is put into
    [mapRejectedBlocks]. *)
Inductive failure := Stops (c : crash) | Refused (st : CValidationState) (rejected : bool).

Abbreviation check := (result failure unit).

Definition refuse (st : CValidationState) : check := Err (Refused st false).

Record NodeEnv := {
  node : NodeView;                          (* the checkpoints *)
  HashGenesisBlock : uint256;
  adjusted_time : Z;                        (* GetAdjustedTime() *)
  swifttx_filtering : bool;                 (* IsSporkActive(SPORK_3_SWIFTTX_BLOCK_FILTERING) *)
  mapLockedInputs : gmap COutPoint uint256;
  initial_download : bool;                  (* IsInitialBlockDownload() *)
  IsBlockPayeeValid : CBlock -> Z -> bool;
  nMaxReorgDepth : Z                        (* -maxreorg or MaxReorganizationDepth() *)
}.

Record Storage := {
  raw_block : CDiskBlockPos -> option CBlock;                          (* the block at a position, deserialized *)
  pool_lookup : uint256 -> option CTransaction;                        (* mempool.lookup *)
  tx_index : option (uint256 -> option (option (CBlockHeader * CTransaction)));
    (* with -txindex: the entry of a transaction, and what the file has there *)
  coins_height : uint256 -> option Z                                   (* AccessCoins()->nHeight *)
}.

(** * Doubles *)

Fixpoint times256 (n : nat) (d : spec_float) : spec_float :=
  match n with O => d | S n => times256 n (double_mul d (double_of_Z 256)) end.
Fixpoint over256 (n : nat) (d : spec_float) : spec_float :=
  match n with O => d | S n => over256 n (SFdiv 53 1024 d (double_of_Z 256)) end.

Definition ConvertBitsToDouble (nBits : Z) : spec_float :=
  let nShift := Z.land (Z.shiftr nBits 24) 0xff in
  let dDiff := SFdiv 53 1024 (double_of_Z 0x0000ffff) (double_of_Z (Z.land nBits 0x00ffffff)) in
  over256 (Z.to_nat (nShift - 29)) (times256 (Z.to_nat (29 - nShift)) dDiff).

(** [abs(n1 - n2) > n1 * 0.5]. *)
Definition half_apart (n1 n2 : spec_float) : bool := SFltb (double_mul n1 (tenths 5)) (SFabs (SFsub 53 1024 n1 n2)).

Section Checks.
Context (ps : CChainParams) (hashes : sph) (env : NodeEnv) (disk : Storage).

Definition block_hash (block : CBlock) : uint256 := header_GetHash hashes (header block).

Local Open Scope result_scope.

(** * Reading *)

Definition ReadBlockFromDisk (pos : CDiskBlockPos) : option CBlock :=
  block ← raw_block disk pos;
  if negb (block_IsProofOfStake block) && negb (CheckProofOfWork ps (block_hash block) (bh_nBits (header block))) then None
  else Some block.

(** The version that takes an index entry. *)
Definition ReadIndexedBlock (b : CBlockIndex) : option CBlock :=
  block ← ReadBlockFromDisk (GetBlockPos b);
  if eq (block_hash block) (phashBlock b) then Some block else None.

(** With [fAllowSlow]; the hash of the block stays zero for a transaction of the pool. *)
Definition GetTransaction (st : store) (chainActive : chain) (hash : uint256) : option (CTransaction * uint256) :=
  match pool_lookup disk hash with
  | Some tx => Some (tx, zero W256)
  | None =>
      match tx_index disk with
      | Some ReadTxIndex =>
          match ReadTxIndex hash with
          | Some (Some (h, tx)) => if eq (tx_GetHash tx) hash then Some (tx, header_GetHash hashes h) else None
          | _ => None
          end
      | None =>
          let nHeight := default (-1) (coins_height disk hash) in
          pindexSlow ← (if 0 <? nHeight then chain_at chainActive nHeight else None);
          block ← ReadIndexedBlock (deref st pindexSlow);
          r ← list_find (fun tx => eq (tx_GetHash tx) hash = true) (vtx block);
          Some (r.2, phashBlock (deref st pindexSlow))
      end
  end.

(** * Checks without context *)

Definition CheckBlockHeader (hash : uint256) (nBits : Z) (st : CValidationState) (fCheckPOW : bool) : CValidationState * bool :=
  if fCheckPOW && negb (CheckProofOfWork ps hash nBits) then (DoS st 50 REJECT_INVALID "high-hash" false, false)
  else (st, true).

Definition check_header_time (block : CBlock) (st : CValidationState) : check :=
  let '(st', ok) := CheckBlockHeader (block_hash block) (bh_nBits (header block)) st (negb (block_IsProofOfStake block)) in
  if negb ok then refuse (DoS st' 100 REJECT_INVALID "bad-header" true)
  else if adjusted_time env + (if block_IsProofOfStake block then 180 else 7200) <? bh_nTime (header block)
  then refuse (Invalid st REJECT_INVALID "time-too-new")
  else Ok tt.

(** [Throws] for a Merkle tree that cannot be built, which does not happen. *)
Definition check_merkle (block : CBlock) (st : CValidationState) : check :=
  match BuildMerkleTree (vtx block) with
  | None => Err (Stops Throws)
  | Some (_, hashMerkleRoot2, mutated) =>
      if negb (eq (Transaction.hashMerkleRoot (header block)) hashMerkleRoot2) then refuse (DoS st 100 REJECT_INVALID "bad-txnmrklroot" true)
      else if mutated then refuse (DoS st 100 REJECT_INVALID "bad-txns-duplicate" true)
      else Ok tt
  end.

Definition check_shape (block : CBlock) (st : CValidationState) : check :=
  if (length (vtx block) =? 0)%nat || (MAX_BLOCK_SIZE <? Z.of_nat (length (vtx block)))
     || (MAX_BLOCK_SIZE <? Z.of_nat (length (enc c_block block)))
  then refuse (DoS st 100 REJECT_INVALID "bad-blk-length" false)
  else if negb (match vtx block with tx :: _ => IsCoinBase tx | [] => false end) then refuse (DoS st 100 REJECT_INVALID "bad-cb-missing" false)
  else if existsb IsCoinBase (drop 1 (vtx block)) then refuse (DoS st 100 REJECT_INVALID "bad-cb-multiple" false)
  else Ok tt.

(** The stake of a proof-of-stake block: an empty coinbase, one coinstake, and a source
    that is old enough. *)
Definition check_stake (st : store) (chainActive : chain) (mapBlockIndex : gmap uint256 ptr) (block : CBlock) (vs : CValidationState) : check :=
  let refuse100 : check := refuse (DoS vs 100 0 "" false) in
  if negb (block_IsProofOfStake block) then Ok tt
  else if negb (match vtx block with tx :: _ => match vout tx with [o] => txout_IsEmpty o | _ => false end | [] => false end) then refuse100
  else if existsb IsCoinStake (drop 2 (vtx block)) then refuse100
  else
    match GetTransaction st chainActive (out_hash (GetProofOfStake block).1) with
    | None => refuse100
    | Some (_, hashBlockPrev) =>
        match mapBlockIndex !! hashBlockPrev with
        | None => refuse100
        | Some pindex =>
            if adjusted_time env <? u32 (Chain.nTime (deref st pindex) + nStakeMinAge) then refuse100
            else
              match Tip chainActive with
              | None => Err (Stops (ChainCrash NullPointer))
              | Some tip => if height_of st tip - height_of st pindex <? STAKE_MIN_CONF then refuse100 else Ok tt
              end
        end
    end.

(** Whether an input of the transaction is locked for another one. *)
Definition lock_conflict (tx : CTransaction) : bool :=
  negb (IsCoinBase tx) &&
  existsb (fun i => match mapLockedInputs env !! prevout i with Some h => negb (eq h (tx_GetHash tx)) | None => false end) (vin tx).

Definition check_locks (block : CBlock) (st : CValidationState) : check :=
  if swifttx_filtering env && existsb lock_conflict (vtx block)
  then Err (Refused (DoS st 0 REJECT_INVALID "conflicting-tx-ix" false) true) else Ok tt.

Definition check_payee (st : store) (chainActive : chain) (mapBlockIndex : gmap uint256 ptr) (block : CBlock) (vs : CValidationState) : check :=
  match Tip chainActive with
  | None => Ok tt
  | Some pindexPrev =>
      let hashPrev := hashPrevBlock (header block) in
      let nHeight :=
        if eq (phashBlock (deref st pindexPrev)) hashPrev then height_of st pindexPrev + 1
        else match mapBlockIndex !! hashPrev with Some p => height_of st p + 1 | None => 0 end in
      if negb (nHeight =? 0) && negb (initial_download env) && negb (IsBlockPayeeValid env block nHeight)
      then Err (Refused (DoS vs 0 REJECT_INVALID "bad-cb-payee" false) true) else Ok tt
  end.

Fixpoint check_transactions (txs : list CTransaction) (st : CValidationState) : check :=
  match txs with
  | [] => Ok tt
  | tx :: txs => let '(st', ok) := CheckTransaction ps tx st in if negb ok then refuse st' else check_transactions txs st
  end.

Definition block_sigops (block : CBlock) : Z := foldl (fun n tx => u32 (n + GetLegacySigOpCount tx)) 0 (vtx block).

Definition check_sigops (block : CBlock) (st : CValidationState) : check :=
  if MAX_BLOCK_SIGOPS <? block_sigops block then refuse (DoS st 100 REJECT_INVALID "bad-blk-sigops" true) else Ok tt.

Definition CheckBlock (st : store) (chainActive : chain) (mapBlockIndex : gmap uint256 ptr) (block : CBlock) (vs : CValidationState) : check :=
  _ <-! check_header_time block vs ;;
  _ <-! check_merkle block vs ;;
  _ <-! check_shape block vs ;;
  _ <-! check_stake st chainActive mapBlockIndex block vs ;;
  _ <-! check_locks block vs ;;
  _ <-! check_payee st chainActive mapBlockIndex block vs ;;
  _ <-! check_transactions (vtx block) vs ;;
  check_sigops block vs.

(** * Checks against the chain *)

(** [None] for an exception. *)
Definition CheckWork (st : store) (block : CBlock) (pindexPrev : option ptr) : option bool :=
  match pindexPrev with
  | None => Some false
  | Some p =>
      nBitsRequired ← GetNextWorkRequired ps st (Some p);
      if negb (block_IsProofOfStake block) && (height_of st p + 1 <=? LAST_POW_BLOCK ps)
      then Some (negb (half_apart (ConvertBitsToDouble (bh_nBits (header block))) (ConvertBitsToDouble nBitsRequired)))
      else Some (bh_nBits (header block) =? nBitsRequired)
  end.

(** [Checkpoints::GetLastCheckpoint]. *)
Definition GetLastCheckpoint (mapBlockIndex : gmap uint256 ptr) : option ptr :=
  if negb (fEnabled (node env)) then None
  else head (omap (fun i => mapBlockIndex !! i.2) (rev (mapCheckpoints (node env)))).

Definition ContextualCheckBlockHeader (st : store) (chainActive : chain) (mapBlockIndex : gmap uint256 ptr) (hash : uint256) (h : CBlockHeader)
    (vs : CValidationState) (pindexPrev : option ptr) : check :=
  if eq hash (HashGenesisBlock env) then Ok tt
  else
    match pindexPrev with
    | None => Err (Stops (ChainCrash AssertionFailed))
    | Some p =>
        let nHeight := height_of st p + 1 in
        if nMaxReorgDepth env <=? Height chainActive - nHeight then refuse (DoS vs 1 0 "" false)
        else if bh_nTime h <=? GetMedianTimePast st p then refuse (Invalid vs REJECT_INVALID "time-too-old")
        else if negb (Checkpoints_CheckBlock (node env) nHeight hash false) then refuse (DoS vs 100 REJECT_CHECKPOINT "checkpoint mismatch" false)
        else if match GetLastCheckpoint mapBlockIndex with Some c => nHeight <? height_of st c | None => false end
        then refuse (DoS vs 0 0 "" false)
        else if (bh_nVersion h <? 2) && IsSuperMajority st 2 (Some p) (RejectBlockOutdatedMajority ps) (ToCheckBlockUpgradeMajority ps)
        then refuse (Invalid vs REJECT_OBSOLETE "bad-version")
        else if (bh_nVersion h <? 3) && IsSuperMajority st 3 (Some p) (RejectBlockOutdatedMajority ps) (ToCheckBlockUpgradeMajority ps)
        then refuse (Invalid vs REJECT_OBSOLETE "bad-version")
        else Ok tt
    end.

(** [std::equal] of the expected script and the start of the coinbase's; [NullPointer]
    for a block without transactions or a coinbase without inputs. *)
Definition ContextualCheckBlock (st : store) (chainActive : chain) (block : CBlock) (vs : CValidationState) (pindexPrev : option ptr) : check :=
  let nHeight := match pindexPrev with None => 0 | Some p => height_of st p + 1 end in
  if negb (forallb (fun tx => IsFinalTx (Height chainActive) (adjusted_time env) tx nHeight (bh_nTime (header block))) (vtx block))
  then refuse (DoS vs 10 REJECT_INVALID "bad-txns-nonfinal" false)
  else if (2 <=? bh_nVersion (header block)) && IsSuperMajority st 2 pindexPrev (EnforceBlockUpgradeMajority ps) (ToCheckBlockUpgradeMajority ps) then
    let expect := push_int64 [] nHeight in
    match vtx block with
    | tx :: _ =>
        match vin tx with
        | i :: _ =>
            if bool_decide (take (length expect) (scriptSig i) = expect) then Ok tt
            else refuse (DoS vs 100 REJECT_INVALID "bad-cb-height" false)
        | [] => Err (Stops (ChainCrash NullPointer))
        end
    | [] => Err (Stops (ChainCrash NullPointer))
    end
  else Ok tt.

End Checks.

(** * Signature operations *)

Definition tx_sigops (tx : CTransaction) : Z :=
  zsum (map (fun i => GetSigOpCount (scriptSig i) false) (vin tx)) + zsum (map (fun o => GetSigOpCount (scriptPubKey o) false) (vout tx)).

Lemma sigop_loop_bound f pc last n : n <= sigop_loop f false pc last n <= n + 20 * Z.of_nat (length pc).
Proof.
  revert pc last n. induction f as [|f IH]; intros pc last n; cbn [sigop_loop]; [lia|].
  destruct (length pc =? 0)%nat; [lia|]. destruct (fRet (GetOp pc)) eqn:E; cbn [negb andb]; [|lia].
  pose proof (GetOp_next_lt pc E). match goal with |- context [sigop_loop f false _ _ ?k] => set (m := k) end.
  assert (n <= m <= n + 20) by (unfold m; repeat case_match; lia). specialize (IH (pc_next (GetOp pc)) (opcodeRet (GetOp pc)) m). lia.
Qed.

Lemma GetSigOpCount_bound s : 0 <= GetSigOpCount s false <= 20 * Z.of_nat (length s).
Proof. unfold GetSigOpCount. pose proof (sigop_loop_bound (length s) s OP_INVALIDOPCODE 0). lia. Qed.

(** Lists whose elements are counted against the bytes they are written in. *)
Lemma counted {A} (c : codec A) (count : A -> Z) k l : 0 <= k ->
  (forall a, 0 <= count a <= k * Z.of_nat (length (enc c a))) ->
  0 <= zsum (map count l) <= k * Z.of_nat (length (enc (c_vector c) l)).
Proof.
  intros Hk Hc. cbn [c_vector enc]. rewrite length_app. enough (0 <= zsum (map count l) <= k * Z.of_nat (length (l ≫= enc c))) by nia.
  induction l as [|a l IH]; [cbn; lia|]. rewrite bind_cons, length_app. cbn [map zsum foldr]. fold (zsum (map count l)). specialize (Hc a). lia.
Qed.

Lemma tx_sigops_bound tx : 0 <= tx_sigops tx <= 20 * Z.of_nat (length (enc c_transaction tx)).
Proof.
  pose proof (counted c_txin (fun i => GetSigOpCount (scriptSig i) false) 20 (vin tx) ltac:(done)) as Hi.
  pose proof (counted c_txout (fun o => GetSigOpCount (scriptPubKey o) false) 20 (vout tx) ltac:(done)) as Ho.
  unfold tx_sigops. assert (Hin : forall i, 0 <= GetSigOpCount (scriptSig i) false <= 20 * Z.of_nat (length (enc c_txin i))).
  { intros i. pose proof (GetSigOpCount_bound (scriptSig i)). cbn [c_txin c_iso c_pair c_bytes enc fst snd]. unfold write_byte_vector. rewrite !length_app.
 lia. }
  assert (Hout : forall o, 0 <= GetSigOpCount (scriptPubKey o) false <= 20 * Z.of_nat (length (enc c_txout o))).
  { intros o. pose proof (GetSigOpCount_bound (scriptPubKey o)). cbn [c_txout c_iso c_pair c_bytes enc fst snd]. unfold write_byte_vector. rewrite !length_app. lia. }
  specialize (Hi Hin). specialize (Ho Hout). cbn [c_transaction c_iso c_pair enc fst snd]. rewrite !length_app. lia.
Qed.

Lemma block_length_bound block : (length (vtx block) <= length (enc c_block block))%nat.
Proof.
  pose proof (counted c_transaction (fun _ => 1) 1 (vtx block) ltac:(done)) as Hc. assert (Hb : forall tx, 0 <= 1 <= 1 * Z.of_nat (length (enc c_transaction tx))).
  { intros tx. cbn [c_transaction c_iso c_pair enc fst snd]. rewrite !length_app. cbn [c_int enc]. rewrite length_le_bytes. lia. }
  specialize (Hc Hb). assert (E : zsum (map (fun _ => 1) (vtx block)) = Z.of_nat (length (vtx block))).
  { clear. induction (vtx block) as [|tx l IH]; [done|]. cbn [map zsum foldr length]. fold (zsum (map (fun _ : CTransaction => 1) l)). lia. }
  revert Hc. rewrite E. cbn [c_block c_iso c_when c_pair enc fst snd]. rewrite !length_app. lia.
Qed.

(** No count wraps in a block of the size allowed. *)
Lemma block_sigops_exact block : Z.of_nat (length (enc c_block block)) <= MAX_BLOCK_SIZE -> block_sigops block = zsum (map tx_sigops (vtx block)).
Proof.
  intros Hs. assert (Hv : Z.of_nat (length (enc (c_vector c_transaction) (vtx block))) <= MAX_BLOCK_SIZE).
  { revert Hs. cbn [c_block c_iso c_when c_pair enc fst snd]. rewrite !length_app. lia. }
  pose proof (counted c_transaction tx_sigops 20 (vtx block) ltac:(done) tx_sigops_bound) as Hb.
  assert (Hm : zsum (map tx_sigops (vtx block)) < 2 ^ 32) by (unfold MAX_BLOCK_SIZE in Hv; lia). clear Hs Hv.
  unfold block_sigops. enough (G : forall l n, 0 <= n -> 0 <= zsum (map tx_sigops l) -> n + zsum (map tx_sigops l) < 2 ^ 32 ->
    foldl (fun n tx => u32 (n + GetLegacySigOpCount tx)) n l = n + zsum (map tx_sigops l)) by (apply G; lia).
  clear Hm Hb. induction l as [|tx l IH]; intros n Hn H0 Hm; [cbn; lia|]. cbn [map zsum foldr foldl] in *. fold (zsum (map tx_sigops l)) in *.
  pose proof (tx_sigops_bound tx) as [Ht _]. pose proof (counted c_transaction tx_sigops 20 l ltac:(done) tx_sigops_bound) as [Hl _].
  assert (E : GetLegacySigOpCount tx = tx_sigops tx) by (unfold GetLegacySigOpCount; fold (tx_sigops tx); apply u32_small; unfold word; lia).
  rewrite E, (u32_small (n + tx_sigops tx)) by (unfold word; lia). rewrite IH by lia. lia.
Qed.

(** * What [CheckBlock] accepts *)

Section CheckBlock.
Context (ps : CChainParams) (hashes : sph) (env : NodeEnv) (disk : Storage) (st : store) (chainActive : chain) (mapBlockIndex : gmap uint256 ptr).
Context (tip : ptr).

(** The source of the stake: its transaction is found, in a known block, at least
    [nStakeMinAge] old by the clock and [STAKE_MIN_CONF] below the tip. *)
Definition stake_source_old (block : CBlock) : Prop :=
  exists txPrev h p, GetTransaction ps hashes disk st chainActive (out_hash (GetProofOfStake block).1) = Some (txPrev, h) /\
    mapBlockIndex !! h = Some p /\ u32 (Chain.nTime (deref st p) + nStakeMinAge) <= adjusted_time env /\
    STAKE_MIN_CONF <= height_of st tip - height_of st p.

(** The height that the payees are checked for; 0 if the parent is unknown. *)
Definition payee_height (block : CBlock) : Z :=
  if eq (phashBlock (deref st tip)) (hashPrevBlock (header block)) then height_of st tip + 1
  else match mapBlockIndex !! hashPrevBlock (header block) with Some p => height_of st p + 1 | None => 0 end.

Record block_valid (block : CBlock) : Prop := {
  bv_work : block_IsProofOfStake block = false -> CheckProofOfWork ps (block_hash hashes block) (bh_nBits (header block)) = true;
  bv_time : bh_nTime (header block) <= adjusted_time env + (if block_IsProofOfStake block then 180 else 7200);
  bv_root : Transaction.hashMerkleRoot (header block) = merkle_root (map tx_GetHash (vtx block));
  bv_unmutated : existsb ends_twice (merkle_levels (map tx_GetHash (vtx block))) = false;
  bv_size : Z.of_nat (length (enc c_block block)) <= MAX_BLOCK_SIZE;
  bv_coinbase : exists tx txs, vtx block = tx :: txs /\ IsCoinBase tx = true /\ Forall (fun tx => IsCoinBase tx = false) txs;
  bv_stake : block_IsProofOfStake block = true ->
    (exists tx txs o, vtx block = tx :: txs /\ vout tx = [o] /\ txout_IsEmpty o = true) /\
    Forall (fun tx => IsCoinStake tx = false) (drop 2 (vtx block)) /\ stake_source_old block;
  bv_locks : swifttx_filtering env = true -> Forall (fun tx => lock_conflict env tx = false) (vtx block);
  bv_payee : payee_height block <> 0 -> initial_download env = false -> IsBlockPayeeValid env block (payee_height block) = true;
  bv_txs : Forall (tx_valid ps) (vtx block);
  bv_sigops : zsum (map tx_sigops (vtx block)) <= MAX_BLOCK_SIGOPS
}.

(** A check decides a property: it holds and the check passes, or the block is refused
    with a validation state that is not valid any more. *)
Definition decides (c : check) (P : Prop) : Prop :=
  (c = Ok tt /\ P) \/ (exists vs rejected, c = Err (Refused vs rejected) /\ mode vs <> MODE_VALID /\ ~ P).

Lemma decides_seq c k P Q : decides c P -> (P -> decides k Q) -> decides (_ <-! c ;; k)%result (P /\ Q).
Proof using.
  intros [[-> HP]|(vs & r & -> & Hm & HP)] HQ; cbn [rbind]; [|right; exists vs, r; tauto].
  destruct (HQ HP) as [[-> ?]|(vs & r & -> & Hm & ?)]; [by left|]. right. exists vs, r. tauto.
Qed.

Lemma decides_iff c P Q : (P <-> Q) -> decides c P -> decides c Q.
Proof using. unfold decides. intros E [[? ?]|(vs & r & ? & ? & ?)]; [left; tauto|]. right. exists vs, r. tauto. Qed.

Lemma DoS_mode vs level code reason corrupt : mode (DoS vs level code reason corrupt) <> MODE_VALID.
Proof using. unfold DoS. by destruct (mode vs). Qed.

Lemma decides_refuse vs level code reason corrupt rejected (P : Prop) : ~ P -> decides (Err (Refused (DoS vs level code reason corrupt) rejected)) P.
Proof using. intros. right. eexists _, _. split; [done|]. split; [apply DoS_mode|done]. Qed.

Lemma decides_ok (P : Prop) : P -> decides (Ok tt) P.
Proof using. by left. Qed.

Lemma header_time_decides block vs : decides (check_header_time ps hashes env block vs)
  ((block_IsProofOfStake block = false -> CheckProofOfWork ps (block_hash hashes block) (bh_nBits (header block)) = true) /\
   bh_nTime (header block) <= adjusted_time env + (if block_IsProofOfStake block then 180 else 7200)).
Proof using.
  unfold check_header_time, CheckBlockHeader. destruct (block_IsProofOfStake block), (CheckProofOfWork ps _ _); cbn [andb negb];
    try (apply decides_refuse; by intros [Hw _]; specialize (Hw eq_refl)); (case_match; [apply decides_refuse; lia|apply decides_ok; split; [done|lia]]).
Qed.

Lemma merkle_decides block vs : decides (check_merkle block vs)
  (Transaction.hashMerkleRoot (header block) = merkle_root (map tx_GetHash (vtx block)) /\
   existsb ends_twice (merkle_levels (map tx_GetHash (vtx block))) = false).
Proof using.
  unfold check_merkle. rewrite BuildMerkleTree_levels. destruct (eq _ _) eqn:E; cbn [negb].
  - apply bool_decide_eq_true in E. destruct (existsb _ _); [apply decides_refuse; by intros []|by apply decides_ok].
  - apply bool_decide_eq_false in E. apply decides_refuse. tauto.
Qed.

Lemma shape_decides block vs : decides (check_shape block vs)
  (Z.of_nat (length (enc c_block block)) <= MAX_BLOCK_SIZE /\
   exists tx txs, vtx block = tx :: txs /\ IsCoinBase tx = true /\ Forall (fun tx => IsCoinBase tx = false) txs).
Proof using.
  unfold check_shape. destruct (Z.ltb_spec MAX_BLOCK_SIZE (Z.of_nat (length (enc c_block block)))) as [Hs|Hs].
  { rewrite orb_true_r. apply decides_refuse. lia. }
  rewrite orb_false_r. assert (Hl : Z.of_nat (length (vtx block)) <= MAX_BLOCK_SIZE).
  { enough (length (vtx block) <= length (enc c_block block))%nat by lia. apply block_length_bound. }
  rewrite (proj2 (Z.ltb_ge _ _) Hl), orb_false_r. destruct (vtx block) as [|tx txs]; cbn [length Nat.eqb].
  { apply decides_refuse. by intros (_ & ? & ? & ? & _). }
  destruct (IsCoinBase tx) eqn:Ec; cbn [negb drop].
  2: { apply decides_refuse. intros (_ & ? & ? & [= <- <-] & ? & _). congruence. }
  change (drop 0 txs) with txs. destruct (existsb IsCoinBase txs) eqn:Ee.
  - apply decides_refuse. intros (_ & ? & ? & [= <- <-] & _ & F). apply Forall_false_existsb in F. congruence.
  - apply decides_ok. split; [done|]. exists tx, txs. split_and!; [done..|]. by apply Forall_false_existsb.
Qed.

Lemma stake_decides block vs : Tip chainActive = Some tip -> vtx block <> [] ->
  decides (check_stake ps hashes env disk st chainActive mapBlockIndex block vs)
    (block_IsProofOfStake block = true ->
     (exists tx txs o, vtx block = tx :: txs /\ vout tx = [o] /\ txout_IsEmpty o = true) /\
     Forall (fun tx => IsCoinStake tx = false) (drop 2 (vtx block)) /\ stake_source_old block).
Proof using.
  intros Htip Hne. unfold check_stake, stake_source_old. destruct (block_IsProofOfStake block); cbn [negb]; [|by apply decides_ok].
  destruct (vtx block) as [|tx txs]; [done|]. destruct (vout tx) as [|o [|o2 os]] eqn:Eo.
  1, 3: apply decides_refuse; intros D; destruct (D eq_refl) as [(? & ? & ? & [= <- <-] & Ev & _) _]; congruence.
  destruct (txout_IsEmpty o) eqn:Ee; cbn [negb].
  2: { apply decides_refuse; intros D; destruct (D eq_refl) as [(? & ? & ? & [= <- <-] & Ev & ?) _]; congruence. }
  destruct (existsb IsCoinStake _) eqn:Es.
  { apply decides_refuse. intros D. destruct (D eq_refl) as (_ & F & _). apply Forall_false_existsb in F. congruence. }
  apply Forall_false_existsb in Es. destruct (GetTransaction _ _ _ _ _ _) as [[txPrev h]|] eqn:Eg.
  2: { apply decides_refuse. intros D. destruct (D eq_refl) as (_ & _ & ? & ? & ? & ? & _). congruence. }
  destruct (mapBlockIndex !! h) as [p|] eqn:Ei.
  2: { apply decides_refuse. intros D. destruct (D eq_refl) as (_ & _ & ? & ? & ? & [= <- <-] & ? & _). congruence. }
  rewrite Htip. case_match; [|case_match].
  1, 2: apply decides_refuse; intros D; destruct (D eq_refl) as (_ & _ & ? & ? & ? & [= <- <-] & Ep & ? & ?);
    rewrite Ei in Ep; apply Some_inj in Ep; subst; lia.
  apply decides_ok. intros _. split; [by exists tx, txs, o|]. split; [done|]. exists txPrev, h, p. split_and!; [done|done|lia|lia].
Qed.

Lemma locks_decides block vs : decides (check_locks env block vs)
  (swifttx_filtering env = true -> Forall (fun tx => lock_conflict env tx = false) (vtx block)).
Proof using.
  unfold check_locks. destruct (swifttx_filtering env); cbn [andb]; [|by apply decides_ok].
  destruct (existsb _ _) eqn:E.
  - apply decides_refuse. intros D. specialize (D eq_refl). apply Forall_false_existsb in D. congruence.
  - apply decides_ok. intros _. by apply Forall_false_existsb.
Qed.

Lemma payee_decides block vs : Tip chainActive = Some tip -> decides (check_payee env st chainActive mapBlockIndex block vs)
  (payee_height block <> 0 -> initial_download env = false -> IsBlockPayeeValid env block (payee_height block) = true).
Proof using.
  intros Htip. unfold check_payee. rewrite Htip. fold (payee_height block). destruct (Z.eqb_spec (payee_height block) 0) as [E|E]; cbn [negb andb]; [by apply decides_ok|].
  destruct (initial_download env); cbn [negb andb]; [by apply decides_ok|].
  destruct (IsBlockPayeeValid _ _ _); cbn [negb]; [by apply decides_ok|]. apply decides_refuse. intros D. by specialize (D E eq_refl).
Qed.

Lemma transactions_decides txs vs : 0 <= MaxMoneyOut ps < 2 ^ 62 -> decides (check_transactions ps txs vs) (Forall (tx_valid ps) txs).
Proof using.
  intros Hm. induction txs as [|tx txs IH]; cbn [check_transactions]; [apply decides_ok; constructor|].
  destruct (CheckTransaction_spec ps tx vs Hm) as [[-> V]|(vs' & -> & P & V)]; cbn [negb].
  - revert IH. apply decides_iff. rewrite Forall_cons. tauto.
  - right. eexists _, _. split; [done|]. split; [by apply (punished_not_valid vs)|]. intros F. by apply Forall_cons in F as [].
Qed.

Lemma sigops_decides block vs : Z.of_nat (length (enc c_block block)) <= MAX_BLOCK_SIZE ->
  decides (check_sigops block vs) (zsum (map tx_sigops (vtx block)) <= MAX_BLOCK_SIGOPS).
Proof using.
  intros Hs. unfold check_sigops. rewrite block_sigops_exact by done. case_match; [apply decides_refuse; lia|apply decides_ok; lia].
Qed.

Lemma CheckBlock_spec block vs : Tip chainActive = Some tip -> 0 <= MaxMoneyOut ps < 2 ^ 62 ->
  decides (CheckBlock ps hashes env disk st chainActive mapBlockIndex block vs) (block_valid block).
Proof using.
  intros Htip Hm. unfold CheckBlock.
  eapply decides_iff; [|apply decides_seq; [apply header_time_decides|intros _; apply decides_seq; [apply merkle_decides|intros _;
    apply decides_seq; [apply shape_decides|intros S; apply decides_seq; [apply (stake_decides block vs Htip)|intros _;
    apply decides_seq; [apply locks_decides|intros _; apply decides_seq; [by apply payee_decides|intros _;
    apply decides_seq; [by apply transactions_decides|intros _; apply (sigops_decides block vs), S]]]]]]]].
  - split; [intros ([] & [] & [] & ? & ? & ? & ? & ?)|intros []]; by split_and?.
  - destruct S as (_ & tx & txs & -> & _). done.
Qed.
End CheckBlock.

(** C4 With a non-empty active chain, [CheckBlock] always answers, and accepts exactly the
    valid blocks: the hash meets the target unless there is a proof of stake, the time is
    not ahead of the clock, the root in the header is that of the transactions and no level
    of the tree ends in a repetition, the first transaction and no other is a coinbase, each
    transaction is valid, the size and the exact number of signature operations (whose
    32-bit count cannot wrap) are within the limits, the stake has an empty coinbase, no
    second coinstake and an old enough source, no input is locked for another transaction,
    and the payee is right.  A refused block's validation state is not valid any more.
    And, unless two pairs of hashes collide, two accepted blocks with the same Merkle root
    and trees of the same height have the same transactions' hashes. *)
Theorem CheckBlock_iff ps hashes env disk st c index block vs tip :
  Tip c = Some tip -> 0 <= MaxMoneyOut ps < 2 ^ 62 ->
  ((CheckBlock ps hashes env disk st c index block vs = Ok tt /\ block_valid ps hashes env disk st c index tip block) \/
   (exists vs' rejected, CheckBlock ps hashes env disk st c index block vs = Err (Refused vs' rejected) /\ mode vs' <> MODE_VALID /\
      ~ block_valid ps hashes env disk st c index tip block)) /\
  (forall block' vs', CheckBlock ps hashes env disk st c index block vs = Ok tt -> CheckBlock ps hashes env disk st c index block' vs' = Ok tt ->
     Transaction.hashMerkleRoot (header block) = Transaction.hashMerkleRoot (header block') ->
     Nat.log2_up (length (vtx block)) = Nat.log2_up (length (vtx block')) ->
     no_collision (merkle_pairs (map tx_GetHash (vtx block)) ++ merkle_pairs (map tx_GetHash (vtx block'))) ->
     map tx_GetHash (vtx block) = map tx_GetHash (vtx block')).
Proof.
  intros Htip Hm. split; [by apply CheckBlock_spec|]. intros block' vs' E E' Hr Hl Hn.
  assert (V : forall b v, CheckBlock ps hashes env disk st c index b v = Ok tt -> block_valid ps hashes env disk st c index tip b).
  { intros b v Eb. destruct (CheckBlock_spec ps hashes env disk st c index tip b v Htip Hm) as [[_ ?]|(? & ? & ? & _)]; [done|congruence]. }
  apply V in E as [_ _ R M _ (x & xs & Ex & _) _ _ _ _ _]. apply V in E' as [_ _ R' M' _ (y & ys & Ey & _) _ _ _ _ _].
  assert (P : (0 < length (vtx block))%nat) by (rewrite Ex; cbn; lia). assert (P' : (0 < length (vtx block'))%nat) by (rewrite Ey; cbn; lia).
  apply (merkle_levels_inj (length (map tx_GetHash (vtx block))) (length (map tx_GetHash (vtx block'))));
    [done|done|by rewrite length_map..|by rewrite !length_map|exact Hn|exact M|exact M'|].
  change (merkle_root (map tx_GetHash (vtx block)) = merkle_root (map tx_GetHash (vtx block'))). congruence.
Qed.

(** * An example *)

Definition example_env : NodeEnv := {|
  node := {| networkID := Subsidy.MAIN; fEnabled := false; mapCheckpoints := []; nScriptCheckThreads := 0; block_heights := fun _ => None; Connect.chain_tip := None;
             masternode_synced := false; superblocks_enabled := false; IsBudgetPaymentBlock := fun _ => false |};
  HashGenesisBlock := u256 100; adjusted_time := 2000; swifttx_filtering := false; mapLockedInputs := ∅; initial_download := false;
  IsBlockPayeeValid := fun _ _ => true; nMaxReorgDepth := 100 |}.

Definition empty_disk : Storage := {| raw_block := fun _ => None; pool_lookup := fun _ => None; tx_index := None; coins_height := fun _ => None |}.

(** A block of one coinbase, with the right root or with another one. *)
Definition root_block (root : uint256) : CBlock := {|
  header := {| bh_nVersion := 3; hashPrevBlock := u256 105; Transaction.hashMerkleRoot := root; bh_nTime := 1300; bh_nBits := 0x1f00ffff; bh_nNonce := 0 |};
  vtx := [example_coinbase]; vchBlockSig := [] |}.
Definition root_checked (root : uint256) : Prop :=
  let c := CheckBlock mainParams example_sph example_env empty_disk example_best_store example_chain ∅ (root_block root) valid_state in
  (c = Ok tt /\ block_valid mainParams example_sph example_env empty_disk example_best_store example_chain ∅ 5%nat (root_block root)) \/
  (exists vs rejected, c = Err (Refused vs rejected) /\ mode vs <> MODE_VALID /\
     ~ block_valid mainParams example_sph example_env empty_disk example_best_store example_chain ∅ 5%nat (root_block root)).

Lemma CheckBlock_iff_witness :
  root_checked (tx_GetHash example_coinbase) /\ root_checked (u256 7) /\
  CheckBlock mainParams example_sph example_env empty_disk example_best_store example_chain ∅ (root_block (tx_GetHash example_coinbase)) valid_state = Ok tt /\
  is_ok (CheckBlock mainParams example_sph example_env empty_disk example_best_store example_chain ∅ (root_block (u256 7)) valid_state) = false.
Proof.
  assert (Ht : Tip example_chain = Some 5%nat) by reflexivity. assert (Hm : 0 <= MaxMoneyOut mainParams < 2 ^ 62) by (vm_compute; split; congruence).
  split.
  { exact (proj1 (CheckBlock_iff mainParams example_sph example_env empty_disk example_best_store example_chain ∅ (root_block (tx_GetHash example_coinbase))
      valid_state 5%nat Ht Hm)). }
  split.
  { exact (proj1 (CheckBlock_iff mainParams example_sph example_env empty_disk example_best_store example_chain ∅ (root_block (u256 7))
      valid_state 5%nat Ht Hm)). }
  split; vm_compute; reflexivity.
Defined.
