(* ===== verification/Accept.v ===== *)
(** The acceptance of blocks (main.cpp): [AddToBlockIndex], [AcceptBlockHeader],
    [AcceptBlock] and [ProcessNewBlock].

    The state of the node is the chain state of BestChain.v with the map from hashes to
    index entries, the header with the most work, the stakes that have been seen, the
    proofs of stake, the rejected blocks, and the space in the block files.  Addresses of
    new entries come from [new_index].  Writing a block is a function of [BlockWriter];
    messages to peers, the wallet and
    the masternode code that [ProcessNewBlock] calls at its end are left out. *)

From Stdlib Require Import String.
From stdpp Require Import gmap.
From S2P Require Import Prelude Uint256 Arith256 Params Serialize Chain Pow Script Transaction Pubkey Interp Standard Validation Connect Kernel BestChain Received ActivateChain BlockFiles BlockChecks.

#[local] Abbreviation length := Datatypes.length.

(** * State *)

Record NodeState := {
  chain_state : ChainState;
  mapBlockIndex : gmap uint256 ptr;
  pindexBestHeader : option ptr;
  setStakeSeen : gset (COutPoint * Z);
  mapProofOfStake : gmap uint256 uint256;
  mapRejectedBlocks : gmap uint256 Z;
  files : FileState
}.

Definition set_cs (c : ChainState) (s : NodeState) : NodeState :=
  {| chain_state := c; mapBlockIndex := mapBlockIndex s; pindexBestHeader := pindexBestHeader s; setStakeSeen := setStakeSeen s;
     mapProofOfStake := mapProofOfStake s; mapRejectedBlocks := mapRejectedBlocks s; files := files s |}.
Definition set_files (f : FileState) (s : NodeState) : NodeState :=
  {| chain_state := chain_state s; mapBlockIndex := mapBlockIndex s; pindexBestHeader := pindexBestHeader s; setStakeSeen := setStakeSeen s;
     mapProofOfStake := mapProofOfStake s; mapRejectedBlocks := mapRejectedBlocks s; files := f |}.
Definition set_proofs (m : gmap uint256 uint256) (s : NodeState) : NodeState :=
  {| chain_state := chain_state s; mapBlockIndex := mapBlockIndex s; pindexBestHeader := pindexBestHeader s; setStakeSeen := setStakeSeen s;
     mapProofOfStake := m; mapRejectedBlocks := mapRejectedBlocks s; files := files s |}.
(** [mapRejectedBlocks.insert], which keeps an older time. *)
Definition note_rejected (hash : uint256) (now : Z) (s : NodeState) : NodeState :=
  {| chain_state := chain_state s; mapBlockIndex := mapBlockIndex s; pindexBestHeader := pindexBestHeader s; setStakeSeen := setStakeSeen s;
     mapProofOfStake := mapProofOfStake s;
     mapRejectedBlocks := match mapRejectedBlocks s !! hash with Some _ => mapRejectedBlocks s | None => <[hash := now]> (mapRejectedBlocks s) end;
     files := files s |}.

(** [Error] and [Abort], which also shuts the node down. *)
Definition state_Error (st : CValidationState) (reason : string) : CValidationState :=
  {| mode := MODE_ERROR; nDoS := nDoS st; strRejectReason := match mode st with MODE_VALID => reason | _ => strRejectReason st end;
     chRejectCode := chRejectCode st; corruptionPossible := corruptionPossible st |}.
Definition state_Abort (st : CValidationState) (reason : string) : CValidationState := state_Error st reason.

(** * Index entries *)

(** [CBlockIndex(block)]; the constructor leaves [pnext] unset. *)
Definition new_block_index (hash : uint256) (block : CBlock) : CBlockIndex :=
  let h := header block in
  let stake := block_IsProofOfStake block in
  {| phashBlock := hash; pprev := None; pnext := None; pskip := None; bnChainTrust := zero W256; nHeight := 0; nFile := 0; nDataPos := 0;
     nUndoPos := 0; nChainWork := zero W256; nTx := 0; nChainTx := 0; nStatus := 0;
     nFlags := if stake then Z.lor 0 BLOCK_PROOF_OF_STAKE else 0;
     nStakeModifier := 0; nStakeModifierChecksum := 0;
     prevoutStake := if stake then {| Chain.out_hash := out_hash (GetProofOfStake block).1; Chain.out_n := out_n (GetProofOfStake block).1 |}
                     else Chain.null_outpoint;
     nStakeTime := if stake then bh_nTime h else 0;
     hashProofOfStake := zero W256; nMint := 0; nMoneySupply := 0; Chain.nVersion := bh_nVersion h; Chain.hashMerkleRoot := Transaction.hashMerkleRoot h;
     Chain.nTime := bh_nTime h; Chain.nBits := bh_nBits h; Chain.nNonce := bh_nNonce h; nSequenceId := 0 |}.

(** The entry under its parent, with trust and proof. *)
Definition set_parent (q : ptr) (height : Z) (skip : option ptr) (trust proof : uint256) (b : CBlockIndex) : CBlockIndex :=
  {| phashBlock := phashBlock b; pprev := Some q; pnext := pnext b; pskip := skip; bnChainTrust := trust; nHeight := height; nFile := nFile b;
     nDataPos := nDataPos b; nUndoPos := nUndoPos b; nChainWork := nChainWork b; nTx := nTx b; nChainTx := nChainTx b; nStatus := nStatus b;
     nFlags := Z.lor (nFlags b) (if Chain.GetStakeEntropyBit b =? 0 then 0 else BLOCK_STAKE_ENTROPY);
     nStakeModifier := nStakeModifier b; nStakeModifierChecksum := nStakeModifierChecksum b; prevoutStake := prevoutStake b;
     nStakeTime := nStakeTime b; hashProofOfStake := proof; nMint := nMint b; nMoneySupply := nMoneySupply b; Chain.nVersion := Chain.nVersion b;
     Chain.hashMerkleRoot := Chain.hashMerkleRoot b; Chain.nTime := Chain.nTime b; Chain.nBits := Chain.nBits b; Chain.nNonce := Chain.nNonce b;
     nSequenceId := nSequenceId b |}.

Definition set_modifier (modifier : Z) (fGenerated : bool) (b : CBlockIndex) : CBlockIndex :=
  {| phashBlock := phashBlock b; pprev := pprev b; pnext := pnext b; pskip := pskip b; bnChainTrust := bnChainTrust b; nHeight := nHeight b;
     nFile := nFile b; nDataPos := nDataPos b; nUndoPos := nUndoPos b; nChainWork := nChainWork b; nTx := nTx b; nChainTx := nChainTx b;
     nStatus := nStatus b; nFlags := if fGenerated then Z.lor (nFlags b) BLOCK_STAKE_MODIFIER else nFlags b;
     nStakeModifier := modifier; nStakeModifierChecksum := nStakeModifierChecksum b; prevoutStake := prevoutStake b;
     nStakeTime := nStakeTime b; hashProofOfStake := hashProofOfStake b; nMint := nMint b; nMoneySupply := nMoneySupply b;
     Chain.nVersion := Chain.nVersion b; Chain.hashMerkleRoot := Chain.hashMerkleRoot b; Chain.nTime := Chain.nTime b; Chain.nBits := Chain.nBits b;
     Chain.nNonce := Chain.nNonce b; nSequenceId := nSequenceId b |}.

(** The checksum, the work and the first level of validity. *)
Definition set_work_checksum (checksum : Z) (work : uint256) (b : CBlockIndex) : CBlockIndex :=
  {| phashBlock := phashBlock b; pprev := pprev b; pnext := pnext b; pskip := pskip b; bnChainTrust := bnChainTrust b; nHeight := nHeight b;
     nFile := nFile b; nDataPos := nDataPos b; nUndoPos := nUndoPos b; nChainWork := work; nTx := nTx b; nChainTx := nChainTx b;
     nStatus := (RaiseValidity (nStatus b) BLOCK_VALID_TREE).1; nFlags := nFlags b;
     nStakeModifier := nStakeModifier b; nStakeModifierChecksum := checksum; prevoutStake := prevoutStake b;
     nStakeTime := nStakeTime b; hashProofOfStake := hashProofOfStake b; nMint := nMint b; nMoneySupply := nMoneySupply b;
     Chain.nVersion := Chain.nVersion b; Chain.hashMerkleRoot := Chain.hashMerkleRoot b; Chain.nTime := Chain.nTime b; Chain.nBits := Chain.nBits b;
     Chain.nNonce := Chain.nNonce b; nSequenceId := nSequenceId b |}.

Definition set_next (p : ptr) (b : CBlockIndex) : CBlockIndex :=
  {| phashBlock := phashBlock b; pprev := pprev b; pnext := Some p; pskip := pskip b; bnChainTrust := bnChainTrust b; nHeight := nHeight b;
     nFile := nFile b; nDataPos := nDataPos b; nUndoPos := nUndoPos b; nChainWork := nChainWork b; nTx := nTx b; nChainTx := nChainTx b;
     nStatus := nStatus b; nFlags := nFlags b;
     nStakeModifier := nStakeModifier b; nStakeModifierChecksum := nStakeModifierChecksum b; prevoutStake := prevoutStake b;
     nStakeTime := nStakeTime b; hashProofOfStake := hashProofOfStake b; nMint := nMint b; nMoneySupply := nMoneySupply b;
     Chain.nVersion := Chain.nVersion b; Chain.hashMerkleRoot := Chain.hashMerkleRoot b; Chain.nTime := Chain.nTime b; Chain.nBits := Chain.nBits b;
     Chain.nNonce := Chain.nNonce b; nSequenceId := nSequenceId b |}.

(** [WriteBlockToDisk]: the position of the block behind the eight bytes that precede it. *)
Class BlockWriter (W : Type) := write_block : CBlock -> CDiskBlockPos -> W -> W * option CDiskBlockPos.

Section Accept.
Context {W : Type} `{BlockStore W} `{BlockWriter W} (ps : CChainParams) (hashes : sph) (lib : secp256k1) (env : NodeEnv) (storage : W -> Storage).
Context (literal_address now : Z) (new_index : store -> ptr) (space : Z -> bool).

Local Open Scope result_scope.

Definition hash_of (block : CBlock) : uint256 := block_hash hashes block.

(** A value that a division by zero replaces by an exception. *)
Definition or_throw {A} (o : option A) : result crash A := match o with Some a => Ok a | None => Err Throws end.

Definition kernel_crash (e : kernel_error) : crash :=
  match e with Kernel.NullPointer => ChainCrash NullPointer | Kernel.OutOfFuel => ChainCrash OutOfFuel | ReturnsFalse => ChainCrash AssertionFailed end.

Definition in_kernel {A} (r : result kernel_error A) : result crash A :=
  match r with Ok a => Ok a | Err e => Err (kernel_crash e) end.

Definition in_chain {A} (r : result chain_error A) : result crash A :=
  match r with Ok a => Ok a | Err e => Err (ChainCrash e) end.

(** * The index *)

(** What depends on the parent. *)
Definition link_to_parent (hash : uint256) (proofs : gmap uint256 uint256) (index : gmap uint256 ptr) (p q : ptr) (t : store) : result crash store :=
  let b := deref t p in
  let height := height_of t q + 1 in
  trust <-! or_throw (GetBlockTrust b) ;;
  let proof := if Chain.IsProofOfStake b then default (zero W256) (proofs !! hash) else hashProofOfStake b in
  let b := set_parent q height (BuildSkip t (Some q) height) (add (bnChainTrust (deref t q)) trust) proof b in
  let t := <[p := b]> (<[q := set_next p (deref t q)]> t) in
  m <-! in_kernel (ComputeNextStakeModifier ps literal_address index t (Some q)) ;;
  let '(_, modifier, generated) := m in
  Ok (<[p := set_modifier modifier generated b]> t).

Definition AddToBlockIndex (block : CBlock) (s : NodeState) : result crash (NodeState * ptr) :=
  let hash := hash_of block in
  match mapBlockIndex s !! hash with
  | Some p => Ok (s, p)
  | None =>
      let cs := chain_state s in
      let p := new_index (tree cs) in
      let b := new_block_index hash block in
      let index := <[hash := p]> (mapBlockIndex s) in
      let stake := Chain.IsProofOfStake b in
      let seen := if stake then {[GetProofOfStake block]} ∪ setStakeSeen s else setStakeSeen s in
      let t := <[p := b]> (tree cs) in
      let parent := index !! hashPrevBlock (header block) in
      (** [mapProofOfStake[hash]] adds an entry if there is none. *)
      let proofs :=
        match parent with
        | Some _ => if stake then match mapProofOfStake s !! hash with Some _ => mapProofOfStake s | None => <[hash := zero W256]> (mapProofOfStake s) end
                    else mapProofOfStake s
        | None => mapProofOfStake s
        end in
      t <-! match parent with Some q => link_to_parent hash proofs index p q t | None => Ok t end ;;
      checksum <-! match parent with
                   | Some _ => in_kernel (GetStakeModifierChecksum t (HashGenesisBlock env) (deref t p))
                   | None => Ok 0
                   end ;;
      proof <-! or_throw (GetBlockProof (Chain.nBits b)) ;;
      let work := add (match pprev_of t p with Some q => nChainWork (deref t q) | None => zero W256 end) proof in
      let t := <[p := set_work_checksum checksum work (deref t p)]> t in
      let best :=
        match pindexBestHeader s with
        | None => Some p
        | Some h => if lt (nChainWork (deref t h)) work then Some p else Some h
        end in
      Ok ({| chain_state := add_dirty p (set_tree t cs); mapBlockIndex := index; pindexBestHeader := best; setStakeSeen := seen;
             mapProofOfStake := proofs; mapRejectedBlocks := mapRejectedBlocks s; files := files s |}, p)
  end.

(** * Headers and blocks *)

(** How a function ends: the state, the validation state, the result and the entry that
    [ppindex] points to. *)
Record answer := { a_state : NodeState; a_world : W; a_valid : CValidationState; a_result : bool; a_index : option ptr }.

Definition answers (s : NodeState) (w : W) (vs : CValidationState) (ok : bool) (p : option ptr) : result crash answer :=
  Ok {| a_state := s; a_world := w; a_valid := vs; a_result := ok; a_index := p |}.

(** A check within a function that goes on when it holds. *)
Definition checked {A} (c : check) (refused : CValidationState -> bool -> result crash A) (k : result crash A) : result crash A :=
  match c with Ok _ => k | Err (Stops c) => Err c | Err (Refused vs rejected) => refused vs rejected end.

Definition failed (s : NodeState) (p : ptr) : bool := has_flag (chain_state s) p BLOCK_FAILED_MASK.

(** The branch that reconsiders the parent needs the block's own entry, which is null
    there. *)
Definition AcceptBlockHeader (block : CBlock) (vs : CValidationState) (s : NodeState) (w : W) : result crash answer :=
  let hash := hash_of block in
  let cs := chain_state s in
  match mapBlockIndex s !! hash with
  | Some p =>
      if failed s p then answers s w (Validation.Invalid vs 0 "duplicate") false (Some p) else answers s w vs true (Some p)
  | None =>
      let '(vs, ok) := CheckBlockHeader ps hash (bh_nBits (header block)) vs false in
      if negb ok then answers s w vs false None
      else
        let pindexPrev := if eq hash (HashGenesisBlock env) then None else mapBlockIndex s !! hashPrevBlock (header block) in
        let go_on :=
          checked (ContextualCheckBlockHeader ps env (tree cs) (chainActive cs) (mapBlockIndex s) hash (header block) vs pindexPrev)
            (fun vs _ => answers s w vs false None)
            (r <-! AddToBlockIndex block s ;; answers r.1 w vs true (Some r.2)) in
        if eq hash (HashGenesisBlock env) then go_on
        else
          match pindexPrev with
          | None => answers s w (DoS vs 0 0 "bad-prevblk" false) false None
          | Some q => if failed s q then answers s w (DoS vs 100 REJECT_INVALID "bad-prevblk" false) false None else go_on
          end
  end.

(** The proof of stake, which is kept for the index entry. *)
Definition accept_stake (block : CBlock) (vs : CValidationState) (s : NodeState) (w : W) (k : NodeState -> result crash answer) : result crash answer :=
  if negb (block_IsProofOfStake block) then k s
  else
    let cs := chain_state s in
    match CheckProofOfStake hashes (mapBlockIndex s) (tree cs) (chainActive cs) lib
            (GetTransaction ps hashes (storage w) (tree cs) (chainActive cs)) (ReadBlockFromDisk ps hashes (storage w)) block with
    | Err ReturnsFalse => answers s w (DoS vs 100 0 "" false) false None
    | Err e => Err (kernel_crash e)
    | Ok proof =>
        k (match mapProofOfStake s !! hash_of block with
           | Some _ => s
           | None => set_proofs (<[hash_of block := proof]> (mapProofOfStake s)) s
           end)
    end.

(** The end of [AcceptBlock]: the block goes to disk unless [dbp] says where it is. *)
Definition store_accepted (block : CBlock) (pindex : ptr) (dbp : option CDiskBlockPos) (vs : CValidationState) (s : NodeState) (w : W) : result crash answer :=
  let nHeight := height_of (tree (chain_state s)) pindex in
  let nAddSize := u32 (Z.of_nat (length (enc c_block block)) + 8) in
  let received pos s w :=
    c <-! in_chain (ReceivedBlockTransactions block pindex pos (chain_state s)) ;; answers (set_cs c s) w vs true (Some pindex) in
  match dbp with
  | Some pos => received pos (set_files (FindKnownBlockPos pos nAddSize nHeight (bh_nTime (header block)) (files s)) s) w
  | None =>
      match FindBlockPos space nAddSize nHeight (bh_nTime (header block)) (files s) with
      | None => Err (ChainCrash OutOfFuel)
      | Some (f, pos, ok) =>
          let s := set_files f s in
          if negb ok then answers s w (state_Error vs "out of disk space") false (Some pindex)
          else
            match write_block block pos w with
            | (w, None) => answers s w (state_Abort vs "Failed to write block") false (Some pindex)
            | (w, Some pos) => received pos s w
            end
      end
  end.

(** The check of the block before it is stored: a block that is refused and cannot be a
    damaged copy is marked. *)
Definition check_accepted (block : CBlock) (pindex : ptr) (fAlreadyCheckedBlock : bool) (vs : CValidationState) (s : NodeState) (w : W)
    (k : result crash answer) : result crash answer :=
  let cs := chain_state s in
  let refused vs' (rejected : bool) :=
    let s := if rejected then note_rejected (hash_of block) now s else s in
    let s := if match mode vs' with MODE_INVALID => negb (corruptionPossible vs') | _ => false end
             then set_cs (add_dirty pindex (mark pindex BLOCK_FAILED_VALID (chain_state s))) s else s in
    answers s w vs' false (Some pindex) in
  let context := checked (ContextualCheckBlock ps env (tree cs) (chainActive cs) block vs (pprev_of (tree cs) pindex)) refused k in
  if fAlreadyCheckedBlock then context
  else checked (CheckBlock ps hashes env (storage w) (tree cs) (chainActive cs) (mapBlockIndex s) block vs) refused context.

Definition AcceptBlock (block : CBlock) (dbp : option CDiskBlockPos) (fAlreadyCheckedBlock : bool) (vs : CValidationState) (s : NodeState) (w : W)
  : result crash answer :=
  let hash := hash_of block in
  let genesis := eq hash (HashGenesisBlock env) in
  let pindexPrev := if genesis then None else mapBlockIndex s !! hashPrevBlock (header block) in
  let go_on :=
    ok <-! (if genesis then Ok true else or_throw (CheckWork ps (tree (chain_state s)) block pindexPrev)) ;;
    if negb ok then answers s w vs false None
    else
      accept_stake block vs s w (fun s =>
        r <-! AcceptBlockHeader block vs s w ;;
        match a_index r with
        | Some pindex =>
            if negb (a_result r) then Ok r
            else if has_flag (chain_state (a_state r)) pindex BLOCK_HAVE_DATA then Ok r
            else
              check_accepted block pindex fAlreadyCheckedBlock (a_valid r) (a_state r) w
                (store_accepted block pindex dbp (a_valid r) (a_state r) w)
        | None => if negb (a_result r) then Ok r else Err (ChainCrash NullPointer)
        end) in
  if genesis then go_on
  else
    match pindexPrev with
    | None => answers s w (DoS vs 0 0 "bad-prevblk" false) false None
    | Some q =>
        if failed s q then
          if Checkpoints_CheckBlock (node env) (height_of (tree (chain_state s)) q) (hashPrevBlock (header block)) true then
            c <-! in_chain (ReconsiderBlock q (chain_state s)) ;;
            r <-! in_chain (ActivateBestChain None c w) ;;
            let '(c, w, _) := r in
            answers (set_cs c s) w vs true None
          else answers s w (DoS vs 100 REJECT_INVALID "bad-prevblk" false) false None
        else go_on
    end.

(** [ProcessNewBlock]; [from_peer] tells whether the block has come from a peer. *)
Definition ProcessNewBlock (from_peer : bool) (block : CBlock) (dbp : option CDiskBlockPos) (vs : CValidationState) (s : NodeState) (w : W)
  : result crash answer :=
  let cs := chain_state s in
  let hash := hash_of block in
  let process (checked_block : bool) vs s :=
    if negb (CheckBlockSignature lib hashes block) then answers s w vs false None
    else if negb (eq hash (HashGenesisBlock env)) && from_peer && negb (bool_decide (is_Some (mapBlockIndex s !! hashPrevBlock (header block))))
    then answers s w vs false None
    else if negb checked_block then answers s w vs false None
    else
      r <-! AcceptBlock block dbp checked_block vs s w ;;
      if negb (a_result r) then Ok r
      else
        a <-! in_chain (ActivateBestChain (mapBlockIndex (a_state r) !! hash) (chain_state (a_state r)) (a_world r)) ;;
        let '(c, w, ok) := a in
        answers (set_cs c (a_state r)) w (a_valid r) ok (a_index r) in
  checked (CheckBlock ps hashes env (storage w) (tree cs) (chainActive cs) (mapBlockIndex s) block vs)
    (fun vs rejected => process false vs (if rejected then note_rejected hash now s else s))
    (process true vs s).
End Accept.

(** * A new entry *)

Lemma pprev_some st x y : wf_store st -> is_Some (st !! x) -> pprev_of st x = Some y -> is_Some (st !! y).
Proof.
  intros Hwf Hx Hy. destruct (deref_valid st Hwf x Hx) as [_ Hv]. unfold pprev_of in Hy. rewrite Hy in Hv. apply Hv.
Qed.

Lemma contained_active st c x : Contains st c x = true -> Some x ∈ c.
Proof.
  unfold Contains. rewrite bool_decide_eq_true. unfold chain_at. destruct (_ || _); [done|].
  destruct (c !! _) as [y|] eqn:Ey; [|done]. cbn. intros ->. by eapply list_elem_of_lookup_2.
Qed.

(** The old state under a tree with one more block. *)
Section NewEntry.
Context (s : ChainState) (O : state_ok s) (base : store) (E : same_tree (tree s) base).
Context (Est : forall x, nStatus (deref base x) = nStatus (deref (tree s) x)).
Context (p q : ptr) (b : CBlockIndex) (Hp : base !! p = None) (Hb : wf_index base b) (Hq : pprev b = Some q).
Context (Hw : wf256 (nChainWork b)) (Hgt : val (nChainWork (deref base q)) < val (nChainWork b)) (Htx : nChainTx b = 0).

#[local] Abbreviation grown := (<[p := b]> base).

Lemma base_tree : tree_ok base.
Proof using O E. by apply (tree_ok_same (tree s)), O. Qed.

Lemma to_base x : is_Some (tree s !! x) -> is_Some (base !! x).
Proof using E. apply (same_valid _ _ E). Qed.

Lemma from_base x : is_Some (base !! x) -> is_Some (tree s !! x).
Proof using E. apply (same_valid _ _ E). Qed.

Lemma grown_other x : x <> p -> deref grown x = deref base x.
Proof using. intros Hx. unfold deref. by rewrite lookup_insert_ne. Qed.

Lemma grown_new : deref grown p = b.
Proof using. unfold deref. by rewrite lookup_insert_eq. Qed.

Lemma grown_valid x : is_Some (grown !! x) <-> x = p \/ is_Some (base !! x).
Proof using.
  destruct (decide (x = p)) as [->|Hx]; [rewrite lookup_insert_eq; split; eauto|]. rewrite lookup_insert_ne by done.
  split; [by right|by intros [|]].
Qed.

Lemma old_not_new x : is_Some (base !! x) -> x <> p.
Proof using Hp. intros Hx ->. rewrite Hp in Hx. by destruct Hx. Qed.

Lemma parent_old : is_Some (base !! q).
Proof using Hb Hq. destruct Hb as [_ H]. rewrite Hq in H. apply H. Qed.

Lemma old_parent_not_new x y : is_Some (base !! x) -> pprev_of base x = Some y -> y <> p.
Proof using O E Hp. intros Hx Hy. apply old_not_new. by apply (pprev_some base x y), Hy; [apply (t_wf _ base_tree)|]. Qed.

Lemma grown_tree : tree_ok grown.
Proof using O E Hp Hb Hq Hw Hgt Htx.
  destruct base_tree as [T1 T2 T3 T4]. split.
  - by apply wf_store_insert.
  - intros x. destruct (decide (x = p)) as [->|Hx]; [by rewrite grown_new|by rewrite grown_other].
  - intros x y Hx Hy. destruct (decide (x = p)) as [->|Hne].
    + unfold pprev_of in Hy. rewrite grown_new, Hq in Hy. injection Hy as <-. rewrite grown_new, (grown_other q) by (by apply old_not_new, parent_old). done.
    + apply grown_valid in Hx as [?|Hx]; [done|]. unfold pprev_of in Hy. rewrite (grown_other x) in Hy |- * by done.
      rewrite (grown_other y) by (by apply (old_parent_not_new x)). by apply T3.
  - intros x y Hx Hy Ht. destruct (decide (x = p)) as [->|Hne]; [by rewrite grown_new, Htx in Ht|].
    apply grown_valid in Hx as [?|Hx]; [done|]. unfold pprev_of in Hy. rewrite (grown_other x) in Hy, Ht by done.
    unfold height_of. rewrite (grown_other y) by (by apply (old_parent_not_new x)). by apply (T4 x).
Qed.

Lemma active_old x : Some x ∈ chainActive s -> is_Some (base !! x).
Proof using O E.
  intros Hx. apply list_elem_of_lookup_1 in Hx as [i Hi]. destruct (so_chain _ O _ _ Hi) as (y & Ey & Hy & _).
  injection Ey as <-. by apply to_base.
Qed.

Lemma grown_contains x : is_Some (base !! x) -> Contains grown (chainActive s) x = Contains (tree s) (chainActive s) x.
Proof using E Hp.
  intros Hx. rewrite <- (same_contains _ _ E). unfold Contains, height_of. by rewrite grown_other by (by apply old_not_new).
Qed.

Lemma grown_ancestor x y : is_Some (base !! x) -> ancestor (tree s) y x -> ancestor grown y x.
Proof using O E Hp. intros Hx [i Hi]. exists i. rewrite (anc_insert base (t_wf _ base_tree) p b Hp) by done. by rewrite (same_anc _ _ E). Qed.

(** The chain state is as good as before. *)
Lemma grown_state d : state_ok (add_dirty d (set_tree grown s)).
Proof using O E Est Hp Hb Hq Hw Hgt Htx.
  split; cbn [tree chainActive setBlockIndexCandidates add_dirty set_tree].
  - apply grown_tree.
  - intros i x Hi. destruct (so_chain _ O _ _ Hi) as (y & -> & Hy & Eh & Hpar). exists y.
    assert (Hy' : is_Some (base !! y)) by (by apply to_base).
    unfold height_of, pprev_of. rewrite grown_other by (by apply old_not_new). split_and!; [done|by apply grown_valid; right| |].
    + fold (height_of base y). by rewrite (same_height _ _ E).
    + fold (pprev_of base y). by rewrite (same_pprev _ _ E).
  - apply O.
  - intros x Hx Hc. assert (Hx' : is_Some (base !! x)) by (by apply active_old, (contained_active grown)).
    rewrite grown_contains in Hc by done. unfold good. rewrite grown_other by (by apply old_not_new). rewrite Est.
    apply (so_active _ O); [by apply from_base|done].
  - intros x Hx. assert (Hold : forall y, is_Some (base !! y) -> exists g, common_block grown (chainActive s) y g).
    { intros y Hy. destruct (so_rooted _ O y) as (g & Hg & Hc); [by apply from_base|]. exists g. split; [by apply grown_ancestor|].
      rewrite grown_contains; [done|]. apply to_base. apply (ancestor_height _ (t_wf _ (so_tree _ O)) g y); [by apply from_base|done]. }
    apply grown_valid in Hx as [->|Hx]; [|by apply Hold]. destruct (Hold q parent_old) as (g & (i & Hi) & Hc). exists g. split; [|done].
    exists (S i). cbn [anc]. unfold pprev_of. by rewrite grown_new, Hq.
  - intros x Hx. destruct (so_cand _ O x Hx) as [Hv Ht]. apply to_base in Hv. split; [by apply grown_valid; right|].
    unfold height_of. rewrite grown_other by (by apply old_not_new). fold (height_of base x). by rewrite (same_height _ _ E), (same_chain_tx _ _ E).
Qed.
End NewEntry.

(** ** [AddToBlockIndex] *)

(** The node: its chain state, and an index that finds each block under its hash. *)
Record node_ok (s : NodeState) : Prop := {
  no_chain : state_ok (chain_state s);
  no_index h p : mapBlockIndex s !! h = Some p <-> is_Some (tree (chain_state s) !! p) /\ phashBlock (deref (tree (chain_state s)) p) = h
}.

(** The block has work, and the work of its chain stays below 2^256. *)
Definition adds_work (block : CBlock) (work : uint256) : Prop :=
  let c := bh_nBits (header block) in
  word 32 c /\ Z.testbit c 23 = false /\ 0 < compact_value c < 2 ^ 256 /\ val work + 2 ^ 256 / (compact_value c + 1) < 2 ^ 256.

Lemma adds_work_spec block work : wf256 work -> adds_work block work ->
  exists w, GetBlockProof (bh_nBits (header block)) = Some w /\ wf256 (add work w) /\ val work < val (add work w) /\
    val (add work w) = val work + 2 ^ 256 / (compact_value (bh_nBits (header block)) + 1).
Proof.
  intros Hw (Hc & Hneg & Hv & Hroom). destruct (GetBlockProof_spec _ Hc) as (w & -> & Hw' & Ew). exists w.
  rewrite Hneg, (proj2 (Z.leb_gt _ _)), (proj2 (Z.eqb_neq _ _)) in Ew by lia. cbn [orb] in Ew.
  assert (0 < 2 ^ 256 / (compact_value (bh_nBits (header block)) + 1)) by (apply Z.div_str_pos; lia).
  pose proof (val_range _ _ Hw) as Rw.
  assert (Ev : val (add work w) = val work + 2 ^ 256 / (compact_value (bh_nBits (header block)) + 1)).
  { rewrite (val_add W256), Ew by done. apply Z.mod_small. change (modulus W256) with (2 ^ 256) in *. lia. }
  split; [done|]. split; [by apply wf_add|]. split; [lia|done].
Qed.

(** What [AddToBlockIndex] does for a block that is new to the index and whose parent [q]
    is in it. *)
Record added (hashes : sph) (block : CBlock) (s : NodeState) (q : ptr) (s' : NodeState) (p : ptr) : Prop := {
  ad_ok : node_ok s';
  ad_index : mapBlockIndex s' = <[hash_of hashes block := p]> (mapBlockIndex s);
  ad_fresh : tree (chain_state s) !! p = None;
  ad_hash : phashBlock (deref (tree (chain_state s')) p) = hash_of hashes block;
  ad_pprev : pprev_of (tree (chain_state s')) p = Some q;
  ad_height : height_of (tree (chain_state s')) p = height_of (tree (chain_state s)) q + 1;
  ad_work : val (work_of (chain_state s') p) = val (work_of (chain_state s) q) + 2 ^ 256 / (compact_value (bh_nBits (header block)) + 1);
  ad_status : nStatus (deref (tree (chain_state s')) p) = BLOCK_VALID_TREE;
  ad_tx : nTx (deref (tree (chain_state s')) p) = 0 /\ nChainTx (deref (tree (chain_state s')) p) = 0;
  ad_valid : is_Some (tree (chain_state s') !! p);
  ad_other x : x <> p -> x <> q -> tree (chain_state s') !! x = tree (chain_state s) !! x;
  ad_parent : tree (chain_state s') !! q = Some (set_next p (deref (tree (chain_state s)) q));
  ad_chain : chainActive (chain_state s') = chainActive (chain_state s);
  ad_cands : setBlockIndexCandidates (chain_state s') = setBlockIndexCandidates (chain_state s);
  ad_unlinked : mapBlocksUnlinked (chain_state s') = mapBlocksUnlinked (chain_state s);
  ad_files : files s' = files s
}.

Section AddBlock.
Context (ps : CChainParams) (hashes : sph) (env : NodeEnv) (literal_address : Z) (new_index : store -> ptr).
Context (Hnew : forall st, st !! new_index st = None).

Lemma link_to_parent_spec hash proofs index p q t block :
  tree_ok t -> t !! p = None -> is_Some (t !! q) -> word 32 (bh_nBits (header block)) ->
  let b0 := new_block_index hash block in
  exists trust proof modifier flag, let b := set_modifier modifier flag
      (set_parent q (height_of t q + 1) (anc t (Z.to_nat (height_of t q - GetSkipHeight (height_of t q + 1))) q) trust proof b0) in
    link_to_parent ps literal_address hash proofs index p q (<[p := b0]> t) = Ok (<[p := b]> (<[q := set_next p (deref t q)]> t)).
Proof.
  intros T Hp Hq Hc b0. pose proof (t_wf _ T) as Wf. unfold link_to_parent.
  assert (Hqp : q <> p) by (intros ->; rewrite Hp in Hq; by destruct Hq).
  assert (Ed : deref (<[p:=b0]> t) p = b0) by (unfold deref; by rewrite lookup_insert_eq).
  assert (Eq : deref (<[p:=b0]> t) q = deref t q) by (unfold deref; by rewrite lookup_insert_ne).
  assert (W0 : wf_store (<[p:=b0]> t)) by (apply wf_store_insert; done).
  assert (Hq0 : is_Some ((<[p:=b0]> t) !! q)) by (by rewrite lookup_insert_ne).
  assert (Eh : height_of (<[p:=b0]> t) q = height_of t q) by (unfold height_of; by rewrite Eq).
  set (skip := anc t (Z.to_nat (height_of t q - GetSkipHeight (height_of t q + 1))) q).
  assert (Es : BuildSkip (<[p:=b0]> t) (Some q) (height_of t q + 1) = skip).
  { rewrite (BuildSkip_spec _ W0 q (height_of t q + 1) Hq0) by (by rewrite Eh). rewrite Eh. apply (anc_insert t Wf p b0 Hp). done. }
  set (base := <[q := set_next p (deref t q)]> t).
  assert (E : same_tree t base).
  { intros x. unfold base. destruct (decide (x = q)) as [->|Hne]; [|by rewrite lookup_insert_ne]. destruct Hq as [bq Hbq].
    rewrite lookup_insert_eq, Hbq. unfold deref. by rewrite Hbq. }
  assert (Hpb : base !! p = None) by (unfold base; by rewrite lookup_insert_ne).
  assert (Hqb : is_Some (base !! q)) by (unfold base; rewrite lookup_insert_eq; eauto).
  assert (Eb : forall b, <[p := b]> (<[q := set_next p (deref t q)]> (<[p := b0]> t)) = <[p := b]> base).
  { intros b. unfold base. rewrite (insert_insert_ne _ q p) by done. by rewrite insert_insert_eq. }
  cbn zeta. rewrite Ed, Eq, Eh, Es. destruct (GetBlockTrust_spec b0 Hc) as (trust & -> & _). cbn [or_throw rbind]. rewrite Eb.
  set (proof := if Chain.IsProofOfStake b0 then _ else _). set (tr := add _ trust).
  set (b1 := set_parent q (height_of t q + 1) skip tr proof b0).
  assert (W1 : wf_store (<[p:=b1]> base)).
  { apply wf_store_insert; [by apply (same_wf_store t)|done|]. split; [cbn; pose proof (height_nonneg t Wf q Hq); lia|]. cbn [b1 set_parent pprev].
    split; [done|]. cbn [nHeight pskip set_parent]. rewrite (same_height _ _ E). split; [done|]. unfold skip. by rewrite (same_anc _ _ E). }
  destruct (ComputeNextStakeModifier_total ps literal_address index _ q W1) as [[[ok m] flag] ->]; [by rewrite lookup_insert_ne|].
  cbn [in_kernel rbind]. exists tr, proof, m, flag. by rewrite insert_insert_eq.
Qed.

Lemma AddToBlockIndex_spec block s q :
  node_ok s -> mapBlockIndex s !! hash_of hashes block = None -> mapBlockIndex s !! hashPrevBlock (header block) = Some q ->
  adds_work block (work_of (chain_state s) q) ->
  exists s' p, AddToBlockIndex ps hashes env literal_address new_index block s = Ok (s', p) /\ added hashes block s q s' p.
Proof using Hnew.
  intros [O I] Hh Hprev Hwork. unfold AddToBlockIndex. rewrite Hh. cbn zeta.
  set (cs := chain_state s) in *. set (hash := hash_of hashes block) in *. set (p := new_index (tree cs)) in *.
  assert (Hp : tree cs !! p = None) by apply Hnew.
  destruct (proj1 (I _ _) Hprev) as [Hq Eq]. pose proof (so_tree _ O) as T.
  assert (Hqp : q <> p) by (intros ->; rewrite Hp in Hq; by destruct Hq).
  assert (Hne : hashPrevBlock (header block) <> hash) by (intros Eh; rewrite Eh, Hh in Hprev; done).
  rewrite lookup_insert_ne by done. rewrite Hprev.
  destruct Hwork as [Hc Hwork'].
  set (proofs := if Chain.IsProofOfStake _ then _ else _).
  destruct (link_to_parent_spec hash proofs (<[hash:=p]> (mapBlockIndex s)) p q (tree cs) block T Hp Hq Hc) as (trust & proof & m & flag & Hl).
  cbn zeta in Hl. rewrite Hl. cbn [rbind]. set (b1 := set_modifier m flag _) in *. set (base := <[q := set_next p (deref (tree cs) q)]> (tree cs)) in *.
  assert (E1 : deref (<[p:=b1]> base) p = b1) by (unfold deref; by rewrite lookup_insert_eq).
  unfold pprev_of. rewrite E1. unfold GetStakeModifierChecksum. cbn [b1 pprev set_modifier set_parent rbind in_kernel].
  set (checksum := u32 _).
  destruct (adds_work_spec block (work_of cs q) (t_work_wf _ T q) (conj Hc Hwork')) as (w & Ew & Hw & Hgt & Evw).
  change (Chain.nBits (new_block_index hash block)) with (bh_nBits (header block)). rewrite Ew. cbn [or_throw rbind].
  rewrite insert_insert_eq. set (b2 := set_work_checksum _ _ b1).
  assert (Edq : nChainWork (deref (<[p:=b1]> base) q) = work_of cs q).
  { unfold base, deref. rewrite lookup_insert_ne by done. by rewrite lookup_insert_eq. }
  assert (E : same_tree (tree cs) base).
  { intros x. unfold base. destruct (decide (x = q)) as [->|Hx]; [|by rewrite lookup_insert_ne]. destruct Hq as [bq Hbq].
    rewrite lookup_insert_eq, Hbq. unfold deref. by rewrite Hbq. }
  assert (Est : forall x, nStatus (deref base x) = nStatus (deref (tree cs) x)).
  { intros x. unfold base, deref at 1. destruct (decide (x = q)) as [->|Hx]; [by rewrite lookup_insert_eq|by rewrite lookup_insert_ne]. }
  assert (Hpb : base !! p = None) by (unfold base; by rewrite lookup_insert_ne).
  assert (Hb : wf_index base b2).
  { split; [cbn; pose proof (height_nonneg _ (t_wf _ T) q Hq); lia|]. cbn [b2 b1 set_work_checksum set_modifier set_parent pprev nHeight pskip].
    split; [by apply (same_valid _ _ E)|]. rewrite (same_height _ _ E). split; [done|]. by rewrite (same_anc _ _ E). }
  assert (Hgt' : val (nChainWork (deref base q)) < val (nChainWork b2)).
  { cbn [b2 set_work_checksum nChainWork]. rewrite Edq. fold base. rewrite (same_work _ _ E). done. }
  eexists _, p. split; [reflexivity|]. cbn [chain_state mapBlockIndex tree add_dirty set_tree chainActive setBlockIndexCandidates].
  assert (E2 : deref (<[p:=b2]> base) p = b2) by (unfold deref; by rewrite lookup_insert_eq).
  assert (Hgood : node_ok {| chain_state := add_dirty p (set_tree (<[p:=b2]> base) cs); mapBlockIndex := <[hash:=p]> (mapBlockIndex s);
    pindexBestHeader := None; setStakeSeen := ∅; mapProofOfStake := ∅; mapRejectedBlocks := ∅; files := files s |}).
  { split.
    - cbn [chain_state]. apply (grown_state cs O base E Est p q b2 Hpb Hb eq_refl); [|done|done]. cbn [b2 set_work_checksum nChainWork]. rewrite Edq. exact Hw.
    - intros h x. cbn [mapBlockIndex chain_state tree add_dirty set_tree]. destruct (decide (x = p)) as [->|Hx].
      + rewrite E2, lookup_insert_eq. change (phashBlock b2) with hash. split; [|by intros [_ <-]; rewrite lookup_insert_eq].
        rewrite lookup_insert_Some. intros [[<- _]|[_ Hold]]; [eauto|]. destruct (proj1 (I _ _) Hold) as [Hx _]. rewrite Hp in Hx. by destruct Hx.
      + rewrite (lookup_insert_ne base p x b2) by congruence. rewrite (grown_other base p b2 x Hx).
        assert (Eph : phashBlock (deref base x) = phashBlock (deref (tree cs) x)).
        { unfold base, deref at 1. destruct (decide (x = q)) as [->|]; [by rewrite lookup_insert_eq|by rewrite lookup_insert_ne]. }
        rewrite Eph, (same_valid _ _ E), <- I. rewrite lookup_insert_Some. split; [by intros [[_ ?]|[_ ?]]|]. intros Hold. right. split; [|done].
        intros <-. by rewrite Hh in Hold. }
  split; cbn [chain_state mapBlockIndex tree add_dirty set_tree chainActive setBlockIndexCandidates mapBlocksUnlinked files]; try done.
  - destruct Hgood as [G1 G2]. split; [exact G1|exact G2].
  - by rewrite E2.
  - unfold pprev_of. by rewrite E2.
  - unfold height_of. by rewrite E2.
  - unfold work_of. cbn [tree add_dirty set_tree]. rewrite E2. cbn [b2 set_work_checksum nChainWork]. rewrite Edq. exact Evw.
  - by rewrite E2.
  - by rewrite E2.
  - rewrite lookup_insert_eq. eauto.
  - intros x Hx Hxq. unfold base. by rewrite !lookup_insert_ne by congruence.
  - rewrite lookup_insert_ne by done. unfold base. by rewrite lookup_insert_eq.
Qed.
End AddBlock.

(** ** The invariant of the node *)

(** With the ranges of the block files handed out so far. *)
Record node_inv (rs : list range) (s : NodeState) : Prop := {
  ni_ok : node_ok s;
  ni_received : received_ok (chain_state s);
  ni_status p : is_Some (tree (chain_state s) !! p) -> BLOCK_VALID_TREE <= Z.land (nStatus (deref (tree (chain_state s)) p)) BLOCK_VALID_MASK;
  ni_room : tx_room (tree (chain_state s));
  ni_files : files_ok (files s) rs
}.

Section Added.
Context (hashes : sph) (block : CBlock) (s : NodeState) (q : ptr) (s' : NodeState) (p : ptr).
Context (A : added hashes block s q s' p) (Hq : is_Some (tree (chain_state s) !! q)) (Hok : node_ok s).

#[local] Abbreviation old := (tree (chain_state s)).
#[local] Abbreviation new := (tree (chain_state s')).

Lemma added_kept x : x <> p -> pprev_of new x = pprev_of old x /\ height_of new x = height_of old x /\
  nTx (deref new x) = nTx (deref old x) /\ nChainTx (deref new x) = nChainTx (deref old x) /\ nStatus (deref new x) = nStatus (deref old x) /\
  Chain.nVersion (deref new x) = Chain.nVersion (deref old x).
Proof using A.
  intros Hx. unfold pprev_of, height_of, deref at 1 3 5 7 9 11. destruct (decide (x = q)) as [->|Hne].
  - by rewrite (ad_parent _ _ _ _ _ _ A).
  - by rewrite (ad_other _ _ _ _ _ _ A x Hx Hne).
Qed.

Lemma added_valid x : is_Some (new !! x) <-> x = p \/ is_Some (old !! x).
Proof using A Hq.
  destruct (decide (x = p)) as [->|Hx]; [split; [intros _; by left|intros _; exact (ad_valid _ _ _ _ _ _ A)]|].
  destruct (decide (x = q)) as [->|Hne].
  - rewrite (ad_parent _ _ _ _ _ _ A). split; [by right|eauto].
  - rewrite (ad_other _ _ _ _ _ _ A x Hx Hne). split; [by right|by intros [?|?]].
Qed.

Lemma added_old x : is_Some (old !! x) -> x <> p.
Proof using A. intros Hx ->. rewrite (ad_fresh _ _ _ _ _ _ A) in Hx. by destruct Hx. Qed.

Lemma added_old_parent x y : is_Some (old !! x) -> pprev_of old x = Some y -> y <> p.
Proof using A Hok. intros Hx Hy. apply added_old. by apply (pprev_some _ x y (t_wf _ (so_tree _ (no_chain _ Hok)))). Qed.

Lemma added_anc i x : is_Some (old !! x) -> anc new i x = anc old i x.
Proof using A Hok.
  revert x. induction i as [|i IH]; intros x Hx; cbn [anc]; [done|]. destruct (added_kept x (added_old x Hx)) as (-> & _).
  destruct (pprev_of old x) as [y|] eqn:Ey; [|done]. apply IH. by apply (pprev_some _ x y (t_wf _ (so_tree _ (no_chain _ Hok)))).
Qed.

Lemma added_data x : has_data new x <-> x <> p /\ has_data old x.
Proof using A.
  unfold has_data. destruct (decide (x = p)) as [->|Hx].
  - rewrite (ad_status _ _ _ _ _ _ A). split; [done|by intros [? _]].
  - destruct (added_kept x Hx) as (_ & _ & _ & _ & -> & _). tauto.
Qed.

Lemma added_linked x : linked new x <-> x <> p /\ linked old x.
Proof using A.
  unfold linked. destruct (decide (x = p)) as [->|Hx].
  - rewrite (proj2 (ad_tx _ _ _ _ _ _ A)). split; [done|by intros [? _]].
  - destruct (added_kept x Hx) as (_ & _ & _ & -> & _). tauto.
Qed.

Lemma added_received : received_ok (chain_state s) -> received_ok (chain_state s').
Proof using A Hq Hok.
  intros R. split.
  - apply (ad_ok _ _ _ _ _ _ A).
  - intros x. rewrite added_valid, added_data. destruct (decide (x = p)) as [->|Hx].
    + intros _. rewrite (proj1 (ad_tx _ _ _ _ _ _ A)). split; [lia|by intros [? _]].
    + intros [?|Hv]; [done|]. destruct (added_kept x Hx) as (_ & _ & -> & _). destruct (ro_tx _ R x Hv). split; [done|]. intros [_ ?]. auto.
  - intros x. rewrite added_valid, added_linked, added_data. intros Hv [Hx L]. destruct Hv as [?|Hv]; [done|].
    destruct (added_kept x Hx) as (Ep & _ & -> & -> & _). destruct (ro_sum _ R x Hv L) as (E1 & E2 & E3). rewrite Ep.
    split_and!; [|done|done|]; [rewrite E1; f_equal; unfold parent_tx; rewrite Ep|].
    + destruct (pprev_of old x) as [y|] eqn:Ey; [|done]. destruct (added_kept y (added_old_parent x y Hv Ey)) as (_ & _ & _ & -> & _). done.
    + intros y Ey. apply added_linked. split; [by apply (added_old_parent x)|by apply E3].
  - intros y x. rewrite (ad_unlinked _ _ _ _ _ _ A). intros Hin. destruct (ro_unlinked _ R y x Hin) as (H1 & H2 & H3 & H4).
    rewrite added_valid, added_data, added_linked. pose proof (added_old x H1) as Hx. destruct (added_kept x Hx) as (-> & _).
    split_and!; [by right|done|done|done|by intros [_ ?]].
  - intros x. rewrite added_valid, added_data, added_linked, (ad_unlinked _ _ _ _ _ _ A). intros Hv [Hx D] L. destruct Hv as [?|Hv]; [done|].
    destruct (added_kept x Hx) as (-> & _). apply (ro_waiting _ R x Hv D). tauto.
  - intros x. rewrite added_valid, added_linked, (ad_chain _ _ _ _ _ _ A). intros Hv Hc.
    assert (Hin : Some x ∈ chainActive (chain_state s)) by (by apply (contained_active new)).
    apply list_elem_of_lookup_1 in Hin as [i Hi]. destruct (so_chain _ (no_chain _ Hok) _ _ Hi) as (y & Ey & Hy & _). injection Ey as <-.
    pose proof (added_old x Hy) as Hx. split; [done|]. apply (ro_active _ R x Hy). unfold Contains in *.
    by destruct (added_kept x Hx) as (_ & <- & _).
Qed.
End Added.

(** ** The parts of [AcceptBlock] *)

Lemma super_majority_same st st' minVersion n k : wf_store st ->
  (forall x, is_Some (st !! x) -> pprev_of st' x = pprev_of st x /\ Chain.nVersion (deref st' x) = Chain.nVersion (deref st x)) ->
  forall found x, (forall y, x = Some y -> is_Some (st !! y)) ->
  super_majority_loop st' minVersion n k found x = super_majority_loop st minVersion n k found x.
Proof.
  intros W Hs. induction k as [|k IH]; intros found x Hx; cbn [super_majority_loop]; [by destruct x|].
  destruct x as [y|]; [|done]. destruct (Hs y (Hx y eq_refl)) as [-> ->]. destruct (found <? n); [|done].
  apply IH. intros z Hz. by apply (pprev_some st y z W (Hx y eq_refl)).
Qed.

Section Contexts.
Context (ps : CChainParams) (env : NodeEnv).

Lemma context_header_cases st c index hash h vs q :
  ContextualCheckBlockHeader ps env st c index hash h vs (Some q) = Ok tt \/
  exists vs', ContextualCheckBlockHeader ps env st c index hash h vs (Some q) = Err (Refused vs' false) /\ mode vs' <> MODE_VALID.
Proof.
  unfold ContextualCheckBlockHeader, refuse. repeat case_match; try (by left); right; eexists; (split; [reflexivity|]);
    unfold Validation.Invalid, DoS; by destruct (mode vs).
Qed.

Lemma context_block_cases st c block vs prev :
  (exists tx i txs ins, vtx block = tx :: txs /\ vin tx = i :: ins) ->
  ContextualCheckBlock ps env st c block vs prev = Ok tt \/
  exists vs', ContextualCheckBlock ps env st c block vs prev = Err (Refused vs' false) /\ mode vs' <> MODE_VALID.
Proof.
  intros (tx & i & txs & ins & Etx & Ein). unfold ContextualCheckBlock, refuse.
  destruct (negb (forallb _ _)).
  { right. eexists. split; [reflexivity|]. unfold DoS. by destruct (mode vs). }
  destruct (_ && _); [|by left]. rewrite Etx, Ein. destruct (bool_decide _); [by left|].
  right. eexists. split; [reflexivity|]. unfold DoS. by destruct (mode vs).
Qed.

Lemma context_block_same st st' c block vs q : wf_store st -> is_Some (st !! q) ->
  (forall x, is_Some (st !! x) -> pprev_of st' x = pprev_of st x /\ Chain.nVersion (deref st' x) = Chain.nVersion (deref st x)) ->
  height_of st' q = height_of st q ->
  ContextualCheckBlock ps env st' c block vs (Some q) = ContextualCheckBlock ps env st c block vs (Some q).
Proof.
  intros W Hq Hs Hh. unfold ContextualCheckBlock. rewrite Hh. unfold IsSuperMajority.
  by rewrite (super_majority_same st st' 2 _ _ W Hs 0 (Some q)) by (by intros y [= <-]).
Qed.
End Contexts.

(** A mark on a block that is not active. *)
Lemma marked_received s p : received_ok s -> is_Some (tree s !! p) -> Contains (tree s) (chainActive s) p = false ->
  received_ok (add_dirty p (mark p BLOCK_FAILED_VALID s)).
Proof.
  intros R Hp Hn. pose proof (same_mark s p BLOCK_FAILED_VALID Hp) as E. pose proof (ro_state _ R) as [O1 O2 O3 O4 O5 O6].
  set (s' := mark p BLOCK_FAILED_VALID s) in *. assert (Ec : chainActive s' = chainActive s) by done.
  assert (Hd : forall x, has_data (tree s') x <-> has_data (tree s) x).
  { intros x. unfold has_data, s'. rewrite mark_status. destruct (decide (x = p)) as [->|]; [|done]. by rewrite land_lor_disjoint. }
  assert (Hl : forall x, linked (tree s') x <-> linked (tree s) x) by (intros x; unfold linked; by rewrite (same_chain_tx _ _ E)).
  assert (Ht : forall x, nTx (deref (tree s') x) = nTx (deref (tree s) x)).
  { intros x. unfold s', mark. rewrite deref_assign. by destruct (decide (x = p)) as [->|]. }
  split; cbn [add_dirty tree chainActive mapBlocksUnlinked setBlockIndexCandidates].
  - split; cbn [add_dirty tree chainActive setBlockIndexCandidates].
    + by apply (tree_ok_same (tree s)).
    + by apply (same_wf_chain (tree s)).
    + done.
    + intros x. rewrite (same_valid _ _ E), (same_contains _ _ E). intros Hx Hc. unfold good, s'. rewrite mark_status.
      destruct (decide (x = p)) as [->|]; [|by apply O4]. exfalso. rewrite Ec, Hn in Hc. done.
    + intros x. rewrite (same_valid _ _ E). intros Hx. destruct (O5 x Hx) as (g & Hg & Hc). exists g. split; [exact (proj2 (same_ancestor _ _ E g x) Hg)|].
      by rewrite (same_contains _ _ E).
    + intros x Hx. rewrite (same_valid _ _ E), (same_chain_tx _ _ E), (same_height _ _ E). by apply O6.
  - intros x. rewrite (same_valid _ _ E), Hd, Ht. apply R.
  - intros x. rewrite (same_valid _ _ E), Hl, Hd, Ht, (same_chain_tx _ _ E), (same_pprev _ _ E). unfold parent_tx. rewrite (same_pprev _ _ E).
    intros Hx L. destruct (ro_sum _ R x Hx L) as (E1 & E2 & E3). split_and!; [|done|intros y Ey; apply Hl; by apply E3].
    rewrite E1. unfold parent_tx. destruct (pprev_of (tree s) x); [|done]. by rewrite (same_chain_tx _ _ E).
  - intros y x Hx. rewrite (same_valid _ _ E), Hd, Hl, (same_pprev _ _ E). by apply R.
  - intros x. rewrite (same_valid _ _ E), Hd, Hl, (same_pprev _ _ E). apply R.
  - intros x. rewrite (same_valid _ _ E), (same_contains _ _ E), Hl. apply R.
Qed.

(** The answer of [CheckProofOfStake], without a crash: the output that is staked must
    exist. *)
Lemma CheckProofOfStake_answers hashes index st c lib get_transaction read block :
  wf_store st -> wf_chain st c -> (forall h x, index !! h = Some x -> is_Some (st !! x)) -> block_IsProofOfStake block = true ->
  (forall txPrev h, get_transaction (out_hash (GetProofOfStake block).1) = Some (txPrev, h) -> is_Some (vout txPrev !! Z.to_nat (out_n (GetProofOfStake block).1))) ->
  (exists proof, CheckProofOfStake hashes index st c lib get_transaction read block = Ok proof) \/
  CheckProofOfStake hashes index st c lib get_transaction read block = Err ReturnsFalse.
Proof.
  intros W Wc Hi Hs Hout. unfold block_IsProofOfStake in Hs. unfold GetProofOfStake in Hout. unfold CheckProofOfStake.
  destruct (vtx block) as [|tx0 [|tx txs]]; [done|done|]. cbn [lookup list_lookup]. rewrite Hs in *. cbn [negb].
  unfold IsCoinStake in Hs. destruct (vin tx) as [|i ins] eqn:Ein; [done|]. cbn [lookup list_lookup fst] in *.
  destruct (get_transaction (out_hash (prevout i))) as [[txPrev h]|]; [|by right].
  destruct (Hout txPrev h eq_refl) as [o Ho]. rewrite Ho. destruct (negb (is_ok _)); [by right|].
  destruct (index !! h) as [x|] eqn:Ex; [|by right]. destruct (read _) as [blockprev|]; [|by right].
  unfold CheckStakeKernelHash. rewrite Ho. destruct (_ <? _); [by right|].
  pose proof (GetKernelStakeModifier_total index st c (header_GetHash hashes (header blockprev)) W Wc (Hi _)) as [r ->]. cbn [rbind].
  destruct r as [m|]; [|by right]. destruct (stakeTargetHit _ _ _) as [hit|]; cbn [rbind]; [|by right]. destruct hit; [left; by eexists|by right].
Qed.

(** ** A block with a known parent *)

Section AcceptBlock.
Context {W : Type} `{BlockStore W} `{BlockWriter W} (ps : CChainParams) (hashes : sph) (lib : secp256k1) (env : NodeEnv) (storage : W -> Storage).
Context (block : CBlock) (vs : CValidationState) (w : W) (q : ptr).

(** What [AcceptBlock] asks of a block, besides [CheckBlock]: difficulty, proof of stake,
    and the rules of its place in the chain. *)
Record acceptable (s : NodeState) : Prop := {
  acc_work : CheckWork ps (tree (chain_state s)) block (Some q) = Some true;
  acc_stake : block_IsProofOfStake block = true -> exists proof,
    CheckProofOfStake hashes (mapBlockIndex s) (tree (chain_state s)) (chainActive (chain_state s)) lib
      (GetTransaction ps hashes (storage w) (tree (chain_state s)) (chainActive (chain_state s))) (ReadBlockFromDisk ps hashes (storage w)) block = Ok proof;
  acc_header : ContextualCheckBlockHeader ps env (tree (chain_state s)) (chainActive (chain_state s)) (mapBlockIndex s) (hash_of hashes block) (header block)
    vs (Some q) = Ok tt;
  acc_block : ContextualCheckBlock ps env (tree (chain_state s)) (chainActive (chain_state s)) block vs (Some q) = Ok tt
}.

(** The block is new, its parent [q] is known and not marked invalid, and [CheckBlock] has
    passed; the output that is staked exists; no counter overflows. *)
Record arriving (s : NodeState) : Prop := {
  ar_genesis : eq (hash_of hashes block) (HashGenesisBlock env) = false;
  ar_new : mapBlockIndex s !! hash_of hashes block = None;
  ar_parent : mapBlockIndex s !! hashPrevBlock (header block) = Some q;
  ar_valid : failed s q = false;
  ar_work : adds_work block (work_of (chain_state s) q);
  ar_bits : CheckWork ps (tree (chain_state s)) block (Some q) <> None;
  ar_source txPrev h : block_IsProofOfStake block = true ->
    GetTransaction ps hashes (storage w) (tree (chain_state s)) (chainActive (chain_state s)) (out_hash (GetProofOfStake block).1) = Some (txPrev, h) ->
    is_Some (vout txPrev !! Z.to_nat (out_n (GetProofOfStake block).1));
  ar_coinbase : exists tx i txs ins, vtx block = tx :: txs /\ vin tx = i :: ins;
  ar_count : chain_tx (tree (chain_state s)) q + Z.of_nat (length (vtx block)) < 2 ^ 32;
  ar_size : Z.of_nat (length (enc c_block block)) + 8 < MAX_BLOCKFILE_SIZE
}.

(** What does not depend on the fields that change. *)
Lemma node_inv_proofs rs s m : node_inv rs s -> node_inv rs (set_proofs m s).
Proof using. intros [[N1 N2] N3 N4 N5 N6]. by split; [split|..]. Qed.

Lemma arriving_proofs s m : arriving s -> arriving (set_proofs m s).
Proof using. intros []. by split. Qed.

Lemma arriving_count_pos s : arriving s -> 0 < Z.of_nat (length (vtx block)).
Proof using. intros A. destruct (ar_coinbase _ A) as (tx & i & txs & ins & -> & _). simpl. lia. Qed.

Section Stored.
Context (rs : list range) (s s' : NodeState) (p : ptr) (N : node_inv rs s) (R : arriving s) (A : added hashes block s q s' p).

#[local] Abbreviation old := (tree (chain_state s)).
#[local] Abbreviation new := (tree (chain_state s')).

Lemma parent_here : is_Some (old !! q).
Proof using N R. apply (no_index _ (ni_ok _ _ N) (hashPrevBlock (header block)) q). apply R. Qed.

Lemma old_wf : wf_store old.
Proof using N. apply N. Qed.

Lemma new_chain_tx x : is_Some (new !! x) -> chain_tx new x = if decide (x = p) then chain_tx old q else chain_tx old x.
Proof using N R A.
  pose proof (t_wf _ (so_tree _ (no_chain _ (ad_ok _ _ _ _ _ _ A)))) as Wn. pose proof parent_here as Hq.
  revert x. apply (tree_ind new (fun x => chain_tx new x = if decide (x = p) then chain_tx old q else chain_tx old x) Wn).
  intros x Hx IH. rewrite (chain_tx_step new x Wn Hx). destruct (decide (x = p)) as [->|Hne].
  - rewrite (proj1 (ad_tx _ _ _ _ _ _ A)), (ad_pprev _ _ _ _ _ _ A). rewrite (IH q (ad_pprev _ _ _ _ _ _ A)).
    rewrite decide_False by (by apply (added_old _ _ _ _ _ _ A)). done.
  - destruct (added_kept _ _ _ _ _ _ A x Hne) as (Ep & _ & -> & _). apply (added_valid _ _ _ _ _ _ A Hq) in Hx as [?|Hx]; [done|].
    rewrite (chain_tx_step old x old_wf Hx). rewrite Ep in IH |- *. destruct (pprev_of old x) as [y|] eqn:Ey; [|done].
    rewrite (IH y eq_refl), decide_False; [done|]. by apply (added_old_parent _ _ _ _ _ _ A (ni_ok _ _ N) x).
Qed.

Lemma added_inv : node_inv rs s'.
Proof using N R A.
  pose proof parent_here as Hq. split.
  - apply A.
  - by apply (added_received _ _ _ _ _ _ A Hq (ni_ok _ _ N)), N.
  - intros x Hx. destruct (decide (x = p)) as [->|Hne]; [by rewrite (ad_status _ _ _ _ _ _ A)|].
    apply (added_valid _ _ _ _ _ _ A Hq) in Hx as [?|Hx]; [done|]. destruct (added_kept _ _ _ _ _ _ A x Hne) as (_ & _ & _ & _ & -> & _). by apply N.
  - intros x Hx. rewrite (new_chain_tx x Hx). destruct (decide (x = p)) as [->|Hne]; [by apply N|].
    apply (added_valid _ _ _ _ _ _ A Hq) in Hx as [?|Hx]; [done|]. by apply N.
  - rewrite (ad_files _ _ _ _ _ _ A). apply N.
Qed.

Lemma new_not_active : Contains new (chainActive (chain_state s')) p = false.
Proof using N A.
  destruct (Contains _ _ _) eqn:E; [|done]. apply contained_active in E. rewrite (ad_chain _ _ _ _ _ _ A) in E.
  apply list_elem_of_lookup_1 in E as [i Hi]. destruct (so_chain _ (no_chain _ (ni_ok _ _ N)) _ _ Hi) as (y & Ey & Hy & _). injection Ey as <-.
  rewrite (ad_fresh _ _ _ _ _ _ A) in Hy. by destruct Hy.
Qed.

(** The block is refused and marked. *)
Lemma marked_inv : node_inv rs (set_cs (add_dirty p (mark p BLOCK_FAILED_VALID (chain_state s'))) s').
Proof using N R A.
  pose proof added_inv as [[N1 N2] N3 N4 N5 N6]. pose proof (ad_valid _ _ _ _ _ _ A) as Hp.
  pose proof (same_mark (chain_state s') p BLOCK_FAILED_VALID Hp) as E.
  assert (Hkept : forall x, nTx (deref (tree (mark p BLOCK_FAILED_VALID (chain_state s'))) x) = nTx (deref new x) /\
    phashBlock (deref (tree (mark p BLOCK_FAILED_VALID (chain_state s'))) x) = phashBlock (deref new x)).
  { intros x. unfold mark. rewrite deref_assign. by destruct (decide (x = p)) as [->|]. }
  pose proof (marked_received (chain_state s') p N3 Hp new_not_active) as M.
  split; cbn [set_cs chain_state files add_dirty tree].
  - split; [exact (ro_state _ M)|]. intros h x. cbn [set_cs chain_state mapBlockIndex add_dirty tree]. by rewrite (same_valid _ _ E), (proj2 (Hkept x)).
  - exact M.
  - intros x. rewrite (same_valid _ _ E), mark_status. intros Hx. destruct (decide (x = p)) as [->|]; [|by apply N4]. rewrite land_lor_disjoint by done. by apply N4.
  - intros x. rewrite (same_valid _ _ E). intros Hx. pose proof (N5 x Hx) as Hr. revert Hr. unfold chain_tx. rewrite (same_height _ _ E).
    assert (Eb : forall n y, branch_tx n (tree (mark p BLOCK_FAILED_VALID (chain_state s'))) y = branch_tx n new y).
    { induction n as [|n IH]; intros y; cbn [branch_tx]; rewrite (proj1 (Hkept y)); [done|]. rewrite (same_pprev _ _ E).
      destruct (pprev_of new y); [by rewrite IH|done]. }
    by rewrite Eb.
  - exact N6.
Qed.

(** The block is stored. *)
Lemma stored_inv pos rs' f : files_ok f rs' -> exists c, ReceivedBlockTransactions block p pos (chain_state s') = Ok c /\
  node_inv rs' (set_cs c (set_files f s')) /\ pprev_of (tree c) p = Some q /\ has_data (tree c) p /\ chainActive c = chainActive (chain_state s') /\
  (linked (tree c) p <-> linked old q).
Proof using N R A.
  intros Hf. pose proof added_inv as [[N1 N2] N3 N4 N5 N6]. pose proof (ad_valid _ _ _ _ _ _ A) as Hp. pose proof parent_here as Hq.
  pose proof (t_wf _ (so_tree _ N1)) as Wn.
  assert (Hd : ~ has_data new p) by (rewrite (added_data _ _ _ _ _ _ A); by intros [? _]).
  assert (Hn : 0 < Z.of_nat (length (vtx block)) < 2 ^ 32).
  { split; [by apply (arriving_count_pos s)|]. pose proof (ar_count _ R). assert (0 <= chain_tx old q); [|lia].
    apply (chain_tx_nonneg old old_wf); [|done]. intros x Hx. by apply (ro_tx _ (ni_received _ _ N)). }
  assert (Hparent : forall y, pprev_of new p = Some y -> IsValid (nStatus (deref new y)) BLOCK_VALID_TREE = true).
  { intros y Hy. rewrite (ad_pprev _ _ _ _ _ _ A) in Hy. injection Hy as <-.
    destruct (added_kept _ _ _ _ _ _ A q (added_old _ _ _ _ _ _ A q Hq)) as (_ & _ & _ & _ & -> & _). unfold IsValid.
    pose proof (ar_valid _ R) as Hv. unfold failed, has_flag in Hv. rewrite Hv. apply Z.leb_le. by apply N. }
  assert (Hroom : tx_room (tree (arrived block p pos (chain_state s')))).
  { intros x Hx. pose proof (arrived_same block p pos (chain_state s') N3 Hp Hd) as E. pose proof (same_wf_store _ _ E Wn) as Wa.
    assert (Et : forall y, is_Some (tree (arrived block p pos (chain_state s')) !! y) -> chain_tx (tree (arrived block p pos (chain_state s'))) y =
      if decide (y = p) then Z.of_nat (length (vtx block)) + chain_tx old q else chain_tx new y).
    { apply (tree_ind _ (fun y => chain_tx (tree (arrived block p pos (chain_state s'))) y =
        if decide (y = p) then Z.of_nat (length (vtx block)) + chain_tx old q else chain_tx new y) Wa).
      intros y Hy IH. rewrite (chain_tx_step _ _ Wa Hy), deref_arrived. rewrite (same_pprev _ _ E) in IH |- *.
      apply (same_valid _ _ E) in Hy. destruct (decide (y = p)) as [->|Hne].
      - cbn [received_index set_fields nTx m_nTx]. rewrite u32_small by (unfold word; lia). rewrite (ad_pprev _ _ _ _ _ _ A).
        pose proof (added_old _ _ _ _ _ _ A q Hq) as Hqp. rewrite (IH q (ad_pprev _ _ _ _ _ _ A)), decide_False by done.
        rewrite (new_chain_tx q), decide_False by (done || by apply (added_valid _ _ _ _ _ _ A Hq); right). done.
      - rewrite (chain_tx_step new y Wn Hy). destruct (pprev_of new y) as [z|] eqn:Ez; [|done]. rewrite (IH z eq_refl), decide_False; [done|].
        apply (added_valid _ _ _ _ _ _ A Hq) in Hy as [?|Hy]; [done|]. destruct (added_kept _ _ _ _ _ _ A y Hne) as (Ep & _). rewrite Ep in Ez.
        by apply (added_old_parent _ _ _ _ _ _ A (ni_ok _ _ N) y). }
    rewrite (Et x Hx). destruct (decide (x = p)); [pose proof (ar_count _ R); lia|]. apply N5. by apply (same_valid _ _ E). }
  destruct (chain_tip _ _ (so_chain _ N1) (so_tip _ N1)) as [t T].
  destruct (received_spec block p pos (chain_state s') N3 Hp Hd Hn Hparent Hroom t T) as (c & Ec & L). exists c. split; [done|].
  pose proof (settled_ok block p pos (chain_state s') N3 Hp Hd Hn t c L) as Rc.
  pose proof (arrived_same block p pos (chain_state s') N3 Hp Hd) as E.
  assert (F : same_frame new (tree c)) by (transitivity (tree (arrived block p pos (chain_state s'))); [by apply same_tree_frame|apply L]).
  assert (Hdata : forall x, has_data (tree c) x <-> x = p \/ has_data new x).
  { intros x. unfold has_data at 1. rewrite (proj2 (li_kept _ _ _ _ L x)). exact (arrived_data block p pos (chain_state s') x). }
  split; [|split; [by rewrite (frame_pprev _ _ F); apply A|split; [by apply Hdata; left|split; [apply L|]]]].
  - split; cbn [set_cs chain_state files set_files].
    + split; [exact (ro_state _ Rc)|]. intros h x. cbn [set_cs chain_state mapBlockIndex set_files].
      rewrite (frame_valid _ _ F), (li_hash _ _ _ _ L x), deref_arrived. rewrite N2. by destruct (decide (x = p)) as [->|].
    + exact Rc.
    + intros x. rewrite (frame_valid _ _ F), (proj2 (li_kept _ _ _ _ L x)), deref_arrived. intros Hx.
      destruct (decide (x = p)) as [->|]; [|by apply N4]. cbn [received_index set_fields nStatus m_nStatus]. rewrite (ad_status _ _ _ _ _ _ A). by vm_compute.
    + intros x Hx. rewrite (chain_tx_kept _ _ _ _ x L). apply Hroom. apply (frame_valid _ _ (li_frame _ _ _ _ L)). done.
    + done.
  - rewrite (linked_iff c Rc p) by (by apply (frame_valid _ _ F)). setoid_rewrite (frame_ancestor _ _ F). setoid_rewrite Hdata.
    rewrite (linked_iff (chain_state s) (ni_received _ _ N) q Hq).
    assert (Hold : forall y, ancestor old y q -> has_data new y <-> has_data old y).
    { intros y Hy. rewrite (added_data _ _ _ _ _ _ A). destruct (ancestor_height _ old_wf y q Hq Hy) as [Hv _].
      pose proof (added_old _ _ _ _ _ _ A y Hv). tauto. }
    split.
    + intros D y Hy. apply Hold; [done|]. assert (Hy' : ancestor new y p).
      { destruct Hy as [i Hi]. exists (S i). cbn [anc]. rewrite (ad_pprev _ _ _ _ _ _ A). cbn. by rewrite (added_anc _ _ _ _ _ _ A (ni_ok _ _ N)). }
      destruct (D y Hy') as [->|?]; [exfalso|done]. destruct (ancestor_height _ old_wf p q Hq Hy) as [[b Hb] _].
      by rewrite (ad_fresh _ _ _ _ _ _ A) in Hb.
    + intros D y [[|i] Hi]; cbn [anc] in Hi; [left; by injection Hi|right]. rewrite (ad_pprev _ _ _ _ _ _ A) in Hi. cbn in Hi.
      rewrite (added_anc _ _ _ _ _ _ A (ni_ok _ _ N)) in Hi by done. apply Hold; [by exists i|]. apply D. by exists i.
Qed.
End Stored.

Context (literal_address now : Z) (new_index : store -> ptr) (space : Z -> bool).
Context (Hnew : forall st, st !! new_index st = None).

(** The result of [AcceptBlock] for a block that arrives in state [s]. *)
Definition accept_result (s : NodeState) (r : answer (W := W)) : Prop :=
  (exists rs, node_inv rs (a_state r)) /\ chainActive (chain_state (a_state r)) = chainActive (chain_state s) /\
  (a_result r = true -> acceptable s /\ exists p, a_index r = Some p /\ mapBlockIndex (a_state r) !! hash_of hashes block = Some p /\
     pprev_of (tree (chain_state (a_state r))) p = Some q /\ has_data (tree (chain_state (a_state r))) p /\
     (linked (tree (chain_state (a_state r))) p <-> linked (tree (chain_state s)) q)) /\
  (a_result r = false -> mode (a_valid r) = MODE_ERROR \/ ~ acceptable s).

Lemma refused_result rs s s' vs' p : node_inv rs s' -> chainActive (chain_state s') = chainActive (chain_state s) -> ~ acceptable s ->
  accept_result s {| a_state := s'; a_world := w; a_valid := vs'; a_result := false; a_index := p |}.
Proof using. intros N E Hn. split_and!; cbn [a_state a_result a_valid]; [by exists rs|done|done|intros _; by right]. Qed.

(** From the header on, when the difficulty and the proof of stake are right. *)
Lemma accept_header_spec rs s m : node_inv rs s -> arriving s ->
  CheckWork ps (tree (chain_state s)) block (Some q) = Some true ->
  (block_IsProofOfStake block = true -> exists proof,
    CheckProofOfStake hashes (mapBlockIndex s) (tree (chain_state s)) (chainActive (chain_state s)) lib
      (GetTransaction ps hashes (storage w) (tree (chain_state s)) (chainActive (chain_state s))) (ReadBlockFromDisk ps hashes (storage w)) block = Ok proof) ->
  let s1 := set_proofs m s in
  exists r, (r <-! AcceptBlockHeader ps hashes env literal_address new_index block vs s1 w ;;
    match a_index r with
    | Some pindex =>
        if negb (a_result r) then Ok r
        else if has_flag (chain_state (a_state r)) pindex BLOCK_HAVE_DATA then Ok r
        else
          check_accepted ps hashes env storage now block pindex true (a_valid r) (a_state r) w
            (store_accepted space block pindex None (a_valid r) (a_state r) w)
    | None => if negb (a_result r) then Ok r else Err (ChainCrash NullPointer)
    end)%result = Ok r /\ accept_result s r.
Proof using Hnew.
  intros N R Hw Hs s1. pose proof (node_inv_proofs _ _ m N) as N1. pose proof (arriving_proofs _ m R) as R1. fold s1 in N1, R1.
  unfold AcceptBlockHeader. cbn zeta. rewrite (ar_new _ R1), (ar_genesis _ R1), (ar_parent _ R1), (ar_valid _ R1).
  unfold CheckBlockHeader. cbn [andb negb]. change (tree (chain_state s1)) with (tree (chain_state s)). change (chainActive (chain_state s1)) with (chainActive (chain_state s)).
  change (mapBlockIndex s1) with (mapBlockIndex s).
  destruct (context_header_cases ps env (tree (chain_state s)) (chainActive (chain_state s)) (mapBlockIndex s) (hash_of hashes block) (header block) vs q)
    as [Eh|(vs' & Eh & _)]; rewrite Eh; cbn [checked].
  2: { eexists. split; [reflexivity|]. apply (refused_result rs); [done|done|]. intros []. congruence. }
  destruct (AddToBlockIndex_spec ps hashes env literal_address new_index Hnew block s1 q (ni_ok _ _ N1) (ar_new _ R1) (ar_parent _ R1) (ar_work _ R1))
    as (s2 & p & -> & A). unfold answers. cbn [rbind a_index a_result a_state a_valid fst snd negb].
  pose proof (added_inv rs s1 s2 p N1 R1 A) as N2. pose proof (parent_here rs s1 N1 R1) as Hq.
  assert (Hnd : has_flag (chain_state s2) p BLOCK_HAVE_DATA = false) by (unfold has_flag; by rewrite (ad_status _ _ _ _ _ _ A)).
  rewrite Hnd. unfold check_accepted. rewrite (ad_pprev _ _ _ _ _ _ A), (ad_chain _ _ _ _ _ _ A).
  rewrite (context_block_same ps env (tree (chain_state s1)) (tree (chain_state s2)) _ block vs q (old_wf _ _ N1) Hq).
  2: { intros x Hx. by destruct (added_kept _ _ _ _ _ _ A x (added_old _ _ _ _ _ _ A x Hx)) as (? & _ & _ & _ & _ & ?). }
  2: { by destruct (added_kept _ _ _ _ _ _ A q (added_old _ _ _ _ _ _ A q Hq)) as (_ & ? & _). }
  change (tree (chain_state s1)) with (tree (chain_state s)). change (chainActive (chain_state s1)) with (chainActive (chain_state s)).
  destruct (context_block_cases ps env (tree (chain_state s)) (chainActive (chain_state s)) block vs (Some q) (ar_coinbase _ R)) as [Ec|(vs' & Ec & _)];
    rewrite Ec; cbn [checked].
  2: { assert (Hna : ~ acceptable s) by (intros []; congruence). eexists. split; [reflexivity|].
    destruct (match mode vs' with MODE_INVALID => negb (corruptionPossible vs') | _ => false end).
    - apply (refused_result rs); [by apply (marked_inv rs s1 s2 p N1 R1 A)|exact (ad_chain _ _ _ _ _ _ A)|done].
    - apply (refused_result rs); [done|exact (ad_chain _ _ _ _ _ _ A)|done]. }
  assert (Hacc : acceptable s) by by split.
  unfold store_accepted. pose proof (ar_size _ R) as Hsize.
  assert (Esize : u32 (Z.of_nat (length (enc c_block block)) + 8) = Z.of_nat (length (enc c_block block)) + 8).
  { apply u32_small. unfold word, MAX_BLOCKFILE_SIZE in *. lia. }
  rewrite Esize.
  destruct (FindBlockPos_ok space (Z.of_nat (length (enc c_block block)) + 8) (height_of (tree (chain_state s2)) p) (bh_nTime (header block)) (files s2) rs)
    as (f & pos & ok & Ef & Hf & _); [apply N2|lia|]. rewrite Ef.
  assert (Nf : forall g rs', files_ok g rs' -> node_inv rs' (set_files g s2)).
  { intros g rs' Hg. destruct N2 as [[? ?] ? ? ? ?]. by split; [split|..]. }
  destruct ok; cbn [negb].
  2: { eexists. split; [reflexivity|]. split_and!; cbn [a_state a_result a_valid]; [eexists; by apply Nf|exact (ad_chain _ _ _ _ _ _ A)|done|by left]. }
  destruct (write_block block pos w) as [w' [pos'|]].
  2: { eexists. split; [reflexivity|]. split_and!; cbn [a_state a_result a_valid]; [eexists; by apply Nf|exact (ad_chain _ _ _ _ _ _ A)|done|by left]. }
  destruct (stored_inv rs s1 s2 p N1 R1 A pos' _ f Hf) as (c & Er & N3 & Hpp & Hd & Hch & Hl).
  change (chain_state (set_files f s2)) with (chain_state s2). rewrite Er. cbn [in_chain rbind]. eexists. split; [reflexivity|].
  split_and!; cbn [a_state a_result a_valid a_index chain_state set_cs]; [by eexists| |intros _; split; [done|]|done].
  - rewrite Hch. exact (ad_chain _ _ _ _ _ _ A).
  - exists p. split_and!; [done| |done|done|done].
    cbn [mapBlockIndex set_cs set_files]. rewrite (ad_index _ _ _ _ _ _ A). apply lookup_insert_eq.
Qed.

Lemma AcceptBlock_spec rs s : node_inv rs s -> arriving s ->
  exists r, AcceptBlock ps hashes lib env storage literal_address now new_index space block None true vs s w = Ok r /\ accept_result s r.
Proof using Hnew.
  intros N R. unfold AcceptBlock. cbn zeta. rewrite (ar_genesis _ R), (ar_parent _ R), (ar_valid _ R).
  destruct (CheckWork ps _ block (Some q)) as [[|]|] eqn:Ew; [| |by destruct (ar_bits _ R)]; cbn [or_throw rbind negb].
  2: { eexists. split; [reflexivity|]. apply (refused_result rs); [done|done|]. intros []. congruence. }
  unfold accept_stake. destruct (block_IsProofOfStake block) eqn:Es; cbn [negb].
  2: { destruct (accept_header_spec rs s (mapProofOfStake s) N R Ew) as (r & Er & Hr); [congruence|].
    replace (set_proofs (mapProofOfStake s) s) with s in Er by by destruct s. exists r. split; [exact Er|done]. }
  pose proof (ni_ok _ _ N) as [Nc Ni].
  destruct (CheckProofOfStake_answers hashes (mapBlockIndex s) (tree (chain_state s)) (chainActive (chain_state s)) lib
    (GetTransaction ps hashes (storage w) (tree (chain_state s)) (chainActive (chain_state s))) (ReadBlockFromDisk ps hashes (storage w)) block
    (t_wf _ (so_tree _ Nc)) (so_chain _ Nc)) as [(proof & Ep)|Ep].
  - intros h x Hx. by apply (Ni h x).
  - done.
  - intros txPrev h Ht. by apply (ar_source _ R txPrev h Es).
  - rewrite Ep. set (m := match mapProofOfStake s !! hash_of hashes block with Some _ => mapProofOfStake s | None => <[hash_of hashes block:=proof]> (mapProofOfStake s) end).
    destruct (accept_header_spec rs s m N R Ew) as (r & Er & Hr); [by exists proof|]. exists r. split; [|done]. rewrite <- Er. unfold m.
    destruct (mapProofOfStake s !! hash_of hashes block); [|done]. by replace (set_proofs (mapProofOfStake s) s) with s by by destruct s.
  - rewrite Ep. eexists. split; [reflexivity|]. apply (refused_result rs); [done|done|]. intros [_ Hst _ _]. destruct (Hst Es) as [proof E2]. congruence.
Qed.
End AcceptBlock.

(** C1 The call of [AcceptBlock] that [ProcessNewBlock] makes for a block of the network,
    one that [CheckBlock] has passed, with no place on the disk given.  The node's state is
    consistent, the block is new and not the genesis block, and its parent is known and not
    marked invalid.  Further, the difficulty its place requires can be computed, its own
    target is positive and below [2 ^ 256] and the sum of the work fits, its coinbase has an
    input, its branch has less than [2 ^ 32] transactions, it is shorter than a block file,
    and if the transaction it stakes an output of is found, this has the output (without
    this the code reads out of range).  Then the call ends without a crash for every outcome of the checks
    and of the disk: the invariant of the index, the transaction counts and the file space
    holds again and the active chain is as it was.  Success means that difficulty, proof of
    stake and the rules of the block's place hold, and that the block is in the index under
    its parent with its data, linked exactly if its parent is.  Failure means that one of
    them does not hold, or that the disk has failed. *)
Theorem AcceptBlock_correct {W : Type} `{BlockStore W} `{BlockWriter W} ps hashes lib env (storage : W -> Storage) literal_address now new_index space
    block vs w q rs s :
  (forall st, st !! new_index st = None) -> node_inv rs s -> arriving ps hashes env storage block w q s ->
  exists r, AcceptBlock ps hashes lib env storage literal_address now new_index space block None true vs s w = Ok r /\
    (exists rs, node_inv rs (a_state r)) /\ chainActive (chain_state (a_state r)) = chainActive (chain_state s) /\
    (a_result r = true -> acceptable ps hashes lib env storage block vs w q s /\
       exists p, a_index r = Some p /\ mapBlockIndex (a_state r) !! hash_of hashes block = Some p /\
         pprev_of (tree (chain_state (a_state r))) p = Some q /\ has_data (tree (chain_state (a_state r))) p /\
         (linked (tree (chain_state (a_state r))) p <-> linked (tree (chain_state s)) q)) /\
    (a_result r = false -> mode (a_valid r) = MODE_ERROR \/ ~ acceptable ps hashes lib env storage block vs w q s).
Proof.
  intros Hnew N R.
  exact (AcceptBlock_spec ps hashes lib env storage block vs w q literal_address now new_index space Hnew rs s N R).
Qed.

(** C37 The output that a proof of stake spends is read without a check of its index: for a
    block on a good parent, with the difficulty required, whose stake names an existing
    transaction but an output that it does not have, [AcceptBlock] answers nothing; in the
    model it crashes, in the program the read past the end of the vector is undefined.
    [CheckBlock] looks at the transaction only. *)
Theorem AcceptBlock_missing_stake_output {W : Type} `{BlockStore W} `{BlockWriter W} ps hashes lib env (storage : W -> Storage) literal_address now
    new_index space block dbp checked vs w s q txPrev h :
  eq (hash_of hashes block) (HashGenesisBlock env) = false -> mapBlockIndex s !! hashPrevBlock (header block) = Some q -> failed s q = false ->
  CheckWork ps (tree (chain_state s)) block (Some q) = Some true -> block_IsProofOfStake block = true ->
  GetTransaction ps hashes (storage w) (tree (chain_state s)) (chainActive (chain_state s)) (out_hash (GetProofOfStake block).1) = Some (txPrev, h) ->
  vout txPrev !! Z.to_nat (out_n (GetProofOfStake block).1) = None ->
  AcceptBlock ps hashes lib env storage literal_address now new_index space block dbp checked vs s w = Err (ChainCrash NullPointer).
Proof.
  intros Hg Hq Hf Hw Hs Ht Ho. unfold AcceptBlock. cbn zeta. rewrite Hg, Hq, Hf, Hw. cbn [or_throw rbind negb].
  unfold accept_stake. rewrite Hs. cbn [negb]. unfold CheckProofOfStake.
  unfold block_IsProofOfStake in Hs. unfold GetProofOfStake in Ht, Ho. destruct (vtx block) as [|tx0 [|tx txs]]; [done|done|].
  cbn [lookup list_lookup]. rewrite Hs in *. cbn [negb]. unfold IsCoinStake in Hs. destruct (vin tx) as [|i ins]; [done|].
  cbn [lookup list_lookup fst] in *. by rewrite Ht, Ho.
Qed.

(** * An example *)

(** [no_index], by computation. *)
Definition index_check (s : NodeState) : bool :=
  let st := tree (chain_state s) in
  forallb (fun e => bool_decide (is_Some (st !! e.2)) && bool_decide (phashBlock (deref st e.2) = e.1)) (map_to_list (mapBlockIndex s)) &&
  forallb (fun p => bool_decide (mapBlockIndex s !! phashBlock (deref st p) = Some p)) (all_blocks (chain_state s)).

Lemma index_check_ok s : index_check s = true -> forall h p,
  mapBlockIndex s !! h = Some p <-> is_Some (tree (chain_state s) !! p) /\ phashBlock (deref (tree (chain_state s)) p) = h.
Proof.
  unfold index_check. rewrite andb_true_iff, !forallb_forall. intros [A B] h p. split.
  - intros Hp. specialize (A (h, p)). rewrite <- list_elem_of_In, elem_of_map_to_list in A. specialize (A Hp). cbn in A.
    by rewrite andb_true_iff, !bool_decide_eq_true in A.
  - intros [[b Hb] <-]. specialize (B p). rewrite bool_decide_eq_true in B. apply B. apply list_elem_of_In.
    unfold all_blocks. apply list_elem_of_fmap. exists (p, b). split; [done|]. by apply elem_of_map_to_list.
Qed.

Definition status_check (st : store) : bool :=
  forallb (fun e => BLOCK_VALID_TREE <=? Z.land (nStatus e.2) BLOCK_VALID_MASK) (map_to_list st).

Lemma status_check_ok st : status_check st = true -> forall p, is_Some (st !! p) -> BLOCK_VALID_TREE <= Z.land (nStatus (deref st p)) BLOCK_VALID_MASK.
Proof.
  unfold status_check. rewrite forallb_forall. intros A p [b Hb]. specialize (A (p, b)). rewrite <- list_elem_of_In, elem_of_map_to_list in A.
  specialize (A Hb). unfold deref. rewrite Hb. cbn in *. lia.
Qed.

(** The tree of BestChain.v; the new block goes on block 5, the tip, and disks and peers
    raise no objection. *)
Definition accept_state : NodeState := {|
  chain_state := example_state; mapBlockIndex := list_to_map (map (fun p => (u256 (100 + Z.of_nat p), p)) (seq 0 9)); pindexBestHeader := Some 8%nat;
  setStakeSeen := ∅; mapProofOfStake := ∅; mapRejectedBlocks := ∅; files := no_files |}.

Definition accept_sph : sph :=
  let f (m : byte_list) := le_bytes 64 5000 in
  {| blake512 := f; bmw512 := f; groestl512 := f; jh512 := f; keccak512 := f; skein512 := f |}.

#[local] Existing Instance example_block_store.
#[local] Instance accept_writer : BlockWriter example_node := fun _ pos w => (w, Some {| posFile := posFile pos; posPos := posPos pos + 8 |}).

Definition accept_new (st : store) : ptr := S (list_max (map fst (map_to_list st))).

Lemma accept_new_free st : st !! accept_new st = None.
Proof.
  destruct (st !! accept_new st) as [b|] eqn:E; [|done]. exfalso. apply elem_of_map_to_list in E.
  assert (Hin : In (accept_new st) (map fst (map_to_list st))) by (apply in_map_iff; exists (accept_new st, b); by rewrite <- list_elem_of_In).
  pose proof (proj1 (list_max_le _ _) (le_n (list_max (map fst (map_to_list st))))) as F. rewrite List.Forall_forall in F.
  specialize (F _ Hin). unfold accept_new in F. lia.
Qed.

Definition accept_block (nVersion nBits : Z) : CBlock := {|
  header := {| bh_nVersion := nVersion; hashPrevBlock := u256 105; Transaction.hashMerkleRoot := zero W256; bh_nTime := 1300; bh_nBits := nBits; bh_nNonce := 0 |};
  vtx := [example_coinbase]; vchBlockSig := [] |}.

Definition accept_run (b : CBlock) := AcceptBlock mainParams accept_sph Interp.toy_secp example_env (fun _ => empty_disk) 0 1400 accept_new (fun _ => true) b None true valid_state accept_state
   {| invalid_blocks := [] |}.

Lemma accept_state_inv : node_inv [] accept_state.
Proof.
  split; cbn [accept_state chain_state files].
  - split; [exact example_state_ok|]. apply index_check_ok. vm_compute. reflexivity.
  - apply received_check_ok; vm_compute; reflexivity.
  - apply status_check_ok. vm_compute. reflexivity.
  - apply tx_room_check. vm_compute. reflexivity.
  - exact (served_ok no_files [] served_start).
Qed.

Lemma accept_block_arriving :
  arriving mainParams accept_sph example_env (fun _ => empty_disk) (accept_block 3 0x1f00ffff) {| invalid_blocks := [] |} 5%nat accept_state.
Proof.
  split.
  - vm_compute. reflexivity.
  - vm_compute. reflexivity.
  - vm_compute. reflexivity.
  - vm_compute. reflexivity.
  - split; [by vm_compute|]. split; [vm_compute; reflexivity|]. split; [split; vm_compute; reflexivity|vm_compute; reflexivity].
  - vm_compute. discriminate.
  - intros txPrev h Hs. vm_compute in Hs. discriminate.
  - eexists _, _, _, _. split; reflexivity.
  - vm_compute. reflexivity.
  - vm_compute. reflexivity.
Qed.

Lemma AcceptBlock_correct_witness :
  (exists r, accept_run (accept_block 3 0x1f00ffff) = Ok r /\ a_result r = true /\ a_index r = Some 9%nat /\ (exists rs, node_inv rs (a_state r))) /\
  (exists r, accept_run (accept_block 3 0x1e00ffff) = Ok r /\ a_result r = false /\ tree (chain_state (a_state r)) !! 9%nat = None).
Proof.
  split; [|eexists; split_and!; vm_compute; reflexivity].
  destruct (AcceptBlock_correct mainParams accept_sph Interp.toy_secp example_env (fun _ => empty_disk) 0 1400 accept_new (fun _ => true) (accept_block 3 0x1f00ffff)
    valid_state {| invalid_blocks := [] |} 5%nat [] accept_state accept_new_free accept_state_inv accept_block_arriving) as (r & E & N & _).
  exists r. split; [exact E|].
  assert (C : match accept_run (accept_block 3 0x1f00ffff) with Ok r => a_result r && bool_decide (a_index r = Some 9%nat) | Err _ => false end = true)
    by (vm_compute; reflexivity).
  unfold accept_run in C. rewrite E in C. apply andb_true_iff in C as [C1 C2]. apply bool_decide_eq_true in C2.
  split; [exact C1|]. split; [exact C2|exact N].
Defined.

(** A coinstake that spends output 5 of a transaction with one output. *)
Definition stake_block : CBlock := {|
  header := {| bh_nVersion := 3; hashPrevBlock := u256 105; Transaction.hashMerkleRoot := zero W256; bh_nTime := 1300; bh_nBits := 0x1f00ffff; bh_nNonce := 0 |};
  vtx := [example_coinbase; {| tx_nVersion := 1; vin := [{| prevout := {| out_hash := tx_GetHash example_coinbase; out_n := 5 |}; scriptSig := []; nSequence := 0 |}];
                               vout := [empty_txout; empty_txout]; nLockTime := 0 |}];
  vchBlockSig := [] |}.
Definition pool_disk (w : example_node) : Storage :=
  {| raw_block := fun _ => None; pool_lookup := fun _ => Some example_coinbase; tx_index := None; coins_height := fun _ => None |}.

Lemma AcceptBlock_missing_stake_output_witness :
  AcceptBlock mainParams accept_sph Interp.toy_secp example_env pool_disk 0 1400 accept_new (fun _ => true) stake_block None true valid_state accept_state
    {| invalid_blocks := [] |} = Err (ChainCrash NullPointer).
Proof.
  apply (AcceptBlock_missing_stake_output mainParams accept_sph Interp.toy_secp example_env pool_disk 0 1400 accept_new (fun _ => true) stake_block None true
    valid_state {| invalid_blocks := [] |} accept_state 5%nat example_coinbase (zero W256)); vm_compute; reflexivity.
Defined.
